(* ===== verification/_CoqProject ===== *)
-Q . S2P
Prelude.v
GoStrings.v
Digest.v
Goal.v
GoJson.v
JsonQuote.v
Async.v
AsyncInv.v
AsyncDigest.v
AsyncProps.v
AsyncWait.v
Streaming.v
PatchLines.v
PatchPath.v
PatchSession.v
PatchRollback.v
PatchParse.v
Observation.v
PatchApply.v
Cron.v
Effects.v
SchedStore.v
Scheduler.v
SchedProps.v
SchedPool.v
SchedUser.v
CanonicalNumber.v
JsonValue.v
JsonCodec.v
JsonDecoded.v
Reach.v
ClientTool.v
ClientProps.v
AguiPatch.v
AguiProjection.v
AguiDemo.v
AguiProps.v
AguiLife.v
AguiOwners.v
AguiWedge.v
AguiNative.v
AguiTranslator.v
AguiTranslate.v
AguiTranslateDemo.v
AguiLanes.v
AguiCapture.v
AguiGraph.v
AguiTranslateProps.v
AguiToolSteps.v
AguiCalm.v
AguiTotal.v
AguiRun.v
AguiTranslated.v
AguiText.v
AguiRefused.v
AguiBridge.v
AguiBridgeProps.v
AguiDropped.v
AguiSubagent.v
AguiSubagentProps.v
AguiRestore.v
AguiRestoreProps.v
Canonical.v
CanonicalProps.v
Protection.v
ProtectionPool.v
GoErrors.v
MaintenanceTx.v
Lease.v
Cleanup.v
LeasePool.v
CleanupProps.v
LeaseReturns.v
Supersession.v
SupersessionProps.v
TurnQueue.v
TurnQueueProps.v
