(* ===== verification/Prelude.v ===== *)
(** * agently-core: a verification development

    agently-core is the Go runtime of an agent platform: it runs the turns of a
    conversation, calls language models and tools, schedules work, streams what
    happens to clients, and keeps its state in a database.  This library models
    parts of it as pure functions, programs over typed calls and step relations,
    and proves what they guarantee.  Paths are relative to src/.

    ** How to read a model

    - Strings are Go strings, sequences of bytes ([string], or [list ascii] where
      the code walks bytes).  [int], [int64] and durations are [Z]; [wrap64] is
      written where the code adds or multiplies without a bound of its own.
      Times are nanoseconds since the year 1.
    - A function that returns an error is a function into [result], [option] or
      a sum; a Go panic (write to a nil map, double close of a channel, negative
      wait group) is a value of its own, and the theorems show that the
      reachable states never produce it.
    - Code under a mutex is one step; a method that takes no lock is given the
      state at each of its reads.  Code that calls its environment between
      two steps (a store, a clock, a goroutine) is a program of [Effects.v], and
      concurrency is the interleaving of such programs call by call.
    - Libraries, the database and generated code are parameters ([Context] of a
      section, or a class), with what the code relies on as named hypotheses;
      each theorem with hypotheses has a witness on a concrete instance.

    ** The parts and their files

    Shared: this file (results, machine integers, lists, bytes, association
    lists, tactics and the hint databases), [GoStrings.v] (the [strings]
    package), [Digest.v] (MD5 and SHA-256, executable), [GoJson.v] (UTF-8 and
    quoting of encoding/json), [Effects.v] (programs and their logic),
    [Reach.v] (depth-first search).

    1. Goals: [Goal.v].  service/goal (controller.go, runtime.go, goal.go) and
       runtime/usage/usage.go.  [Evaluate] is the policy, [AfterTurn] the whole
       handler over the class [GoalStore]; [accounted], [decision] and [settled]
       are what it promises, and the handler refines them over any store that does
       not fail, up to the time of change that each write of the store stamps
       (internal/datly/goal/write/lifecycle.go).
    2. Asynchronous operations: [Async.v] (protocol/async/manager.go, config.go),
       [AsyncInv.v] (the calls as one step function, the invariant),
       [AsyncDigest.v] (the text by which a change is recognised determines the
       content), [AsyncProps.v] and [AsyncWait.v] (what callers rely on: no lost
       change, no lost wake-up, [AwaitTerminal], [Close]).
    3. Event bus: [Streaming.v].  runtime/streaming/memory.go and bus.go as
       critical sections of publishers, deliveries, subscribers and [Close].
    4. Patch tool: protocol/tool/service/system/patch.  [PatchLines.v]
       (seek_sequence.go, update.go, hunks), [PatchPath.v] (confinement of paths),
       [PatchSession.v] and [PatchRollback.v] (staged changes over a store, and
       their rollback), [PatchParse.v] (parser.go), [PatchApply.v] (ApplyPatch and
       the service), with [Observation.v] (read-before-modify).
    5. Scheduler: service/scheduler.  [Cron.v] (cron fields, next run), [SchedStore.v]
       (rows, marker writes and write hooks of internal/datly), [Scheduler.v] (the
       methods as programs over store calls), [SchedProps.v] (their logic),
       [SchedPool.v] (several schedulers on one store, each of which acts before
       its lease expires, among others who add runs), [SchedUser.v] (due times,
       on-demand runs, goal wake-ups, edits).
    6. JSON: [JsonQuote.v], [JsonValue.v], [JsonCodec.v], [JsonDecoded.v] (values,
       printer and parser of encoding/json with UseNumber), [CanonicalNumber.v],
       [Canonical.v], [CanonicalProps.v] (internal/tool/executionprotection/
       canonical.go: Go values with maps and slices as heap addresses, cycles
       included).
    7. Execution protection: [Protection.v] and [ProtectionPool.v].
       app/executor/config/tool_execution_protection.go, internal/tool/
       executionprotection/service.go, internal/store/toolexecutionclaim/store.go
       and the dispatch of internal/tool/registry/registry.go, then processes
       interleaved call by call, with failures of the database at any point.
    8. Client tools: [ClientTool.v] and [ClientProps.v].  runtime/clienttool: the
       definitions of a request, deferred calls, poisoned turns and the graph of
       turns that wait for each other.
    9. AG-UI projection: [AguiPatch.v] (runtime/aguistate/patch.go, equality.go),
       [AguiProjection.v] (projection.go, history.go), [AguiProps.v], [AguiOwners.v],
       [AguiWedge.v], and [AguiLife.v]: an abstract machine of runs, streams and
       subagents that the projection refines.
    10. AG-UI translator: protocol/agui.  [AguiNative.v] (native events, events on
       the wire, presentation metadata), [AguiTranslator.v] (the state, and
       [captureStandard]: the message graph behind the emitted events),
       [AguiTranslate.v] (translator.go, translator_model.go,
       translator_presentation.go).  Its proofs use the machine of [AguiLife.v]
       as the specification: [AguiLanes.v] (the lanes of the state as the lives
       of the machine), [AguiTranslateProps.v] and [AguiToolSteps.v] (each
       operation as moves), [AguiCapture.v] and [AguiGraph.v] (what a capture
       keeps), [AguiCalm.v] and [AguiTotal.v] (no translation panics),
       [AguiRun.v] and [AguiTranslated.v] (whole runs), [AguiText.v]
       (redelivered text), [AguiRefused.v] (a defect).  [AguiDemo.v] and
       [AguiTranslateDemo.v] evaluate the scenarios of the Go tests.
       A native event of type protocol is an event of a producer and not a
       [NativeEvent] of these files: [AguiBridge.v] adds these events, with the
       guards against forged ancestry (StandardEvent, EmitStandard,
       EmitNativeUserIdentity, translator_approval_receipt.go),
       [AguiSubagent.v] the invocation of subagents (translator_subagent.go,
       translator_subagent_presentation.go), and [AguiRestore.v] the translator
       that is rebuilt from a journal (translator_restore.go); their theorems are
       in [AguiBridgeProps.v], [AguiSubagentProps.v], [AguiRestoreProps.v] and
       [AguiDropped.v].
    11. Maintenance: [GoErrors.v] (error values as trees of causes),
       [MaintenanceTx.v] (internal/store/maintenancetx: what a cleanup
       transaction changed, and its retries), [Lease.v] (internal/store/
       maintenancelease with the write hook of its table and the facade in
       app/store/data: acquire, renew, release, check and purge), [Cleanup.v]
       (service/maintenance: the policies, the paging loop, a pass with its
       heartbeat).  [LeasePool.v] interleaves the passes of many workers call by
       call, [LeaseReturns.v] shows that an acquisition returns, [CleanupProps.v]
       that paging is invisible.
    12. History of a prompt: [Supersession.v].  service/agent/supersession.go,
       runtime/projection/context.go and the two steps of
       buildChronologicalHistory (service/agent/binding_history.go) that remove
       messages: repeated instructions, and results that a later call of a
       cacheable tool has superseded.  [SupersessionProps.v] says which.
    13. Turn queue: [TurnQueue.v].  service/agent/run_queue.go (queueing and
       draining), enqueueGoalContinuation (goal_runtime.go), the reordering
       transaction of internal/store/queuereorder with the requests of
       sdk/embedded_queue.go and sdk/embedded.go, over the tables turn and
       turn_queue.  [TurnQueueProps.v] interleaves them call by call.

    ** How the parts meet

    The translator and the projection are the two ends of one protocol: both are
    proved against [AguiLife.v].  The scheduler uses the cron arithmetic and the
    leases of its store; its goal wake-ups are what the goal runtime asks for.
    Execution protection keys its claims with canonical JSON and SHA-256, and
    the registry only dispatches with a claim.  The patch service checks reads
    before it opens a session and rolls back with it.  The projection and
    canonical JSON share the JSON values and their comparison.  A cleanup pass
    works under the maintenance lease, and its purge of old leases under the
    retries of cleanup transactions.  A subagent is a translator of its own whose
    events the parent attributes; a restored translator replays its journal
    through the same capture.  The keys of superseded calls are the printed JSON
    of their arguments under MD5.  The continuations that the goal runtime asks
    for are queued as turns.

    ** What the theorems show

    - Invariants of every reachable state: the asynchronous manager, the event
      bus, the dependency forest of client tools, owners in the projection, the
      places of queued turns.
    - Safety under interleaving: one run per slot of a schedule, one dispatch of
      a protected request, one cleanup at a time, no lost wake-up, no silent loss
      of an event.  Safety against producers: a protocol event whose header
      decodes neither adds nor changes the ancestry of subagents.  The side
      conditions (a lease that has not expired, a context that is not canceled,
      texts in UTF-8, digests that do not collide) are in the statements, and
      most have an example that shows what happens without them.
    - Refinement: the goal handler of its specification, rollback of the
      identity, the projection and the translator of the life-cycle machine, a
      restored translator of what its journal leaves open.
    - Round trips and equivalences: printing and parsing of patches and JSON,
      canonical text and data, cron fields and the values they denote, chunked
      and normalised events, searches and reachability, a scan in pages and one
      walk over the list.
    - Exact behaviour of single operations on every branch (the messages that
      leave a prompt, the shutdown of the manager), bounds, and the termination
      of loops.
    - Errors: failures poison a turn; and defects, each with the theorem that
      shows it (a lane that blocks a run, a lost wake-up, a message that is ended
      and never begun, metadata that passes a guard and forges an invocation, a
      tool call that a snapshot drops, a turn that loses its place in the queue).

    ** Bounds and fuel

    - The parser of cron fields takes fuel for its ranges; [max_iterations],
      10^18 + 1, is more than a field of at most 18 digits can ask for, and the
      parser is shown to return with it.  The search for the next minute has
      the bound of the code.
    - The canonical encoder takes [enough], the number of maps and slices of the
      heap plus three, and is shown to return with it on every value, cyclic
      ones included.
    - The JSON reader takes twice the length of the text plus two, one unit for
      each value and each separator.
    - The search for a dependency takes the number of turns plus two; a node is
      expanded once.
    - The patch parser takes the length of its input plus one: every line it
      reads consumes a byte.
    - The acquisition of a lease takes its number of turns, of which 501 are
      enough (it waits at least 10 of its 5000 milliseconds in each); the paging
      loop takes its number of pages, of which one more than the candidates is
      enough.  The heartbeat of a lease runs until its pass is over, so what is
      shown of it holds for any number of turns.  So does what is shown of the
      drain of a queue, which has no bound of its own.

    ** Not modelled

    - Generated and declarative code: internal/datly (except the write hooks
      named above), the schema validation of protocol/agui/wire_generated.go
      (a parameter), dql, adapter.
    - Of the translator: the journal itself and the HTTP stream.  An event of the
      protocol is its JSON value; a key that occurs twice counts with its last
      occurrence, and statuses are compared on ASCII letters.
    - Of maintenance: what the operations of the data service select and delete
      (SQL), the ticker of the worker and its log.  The isolation of a purge from
      the other writers is not assumed.
    - Of the scheduler: the heartbeat goroutine, the cancellation of
      conversation trees, HTTP and OAuth.  Of the registry: discovery, caches
      and MCP clients.  Of the goal package: the Datly store and the JSON form
      of a controller.
    - Of the history of a prompt: the selection, the overflow and the rendering of
      its messages.  The arguments of a call are the decoded ones.
    - Of the turn queue: the cancellation of running turns and of linked
      conversations, and the deletion of conversations with their rows.  A
      reordering is one transaction of the database, so one step.
    - Deep copies, logging, metrics, contexts and time-outs of contexts.
    - The rest of the agent service, the providers of genai, reporting, workspaces,
      the SDK and its transports, and the tools: large bodies of orchestration and I/O
      around the parts above, whose steps are calls of a model, a database or a
      client.  The extraction of asynchronous payloads and the retention queries
      are what could be modelled next. *)

From stdpp Require Import base gmap strings list fin_maps numbers.
From Stdlib Require Import ZArith Lia Ascii.
From Stdlib Require Strings.String.

(** ** Results of fallible Go functions

    A Go function returning [(T, error)] is a function into [result E T]; the
    errors of a component are the constructors of an inductive type that carry
    the data the message is formatted from. *)
Inductive result (E A : Type) : Type :=
| Ok (a : A)
| Err (e : E).
Arguments Ok {E A} a.
Arguments Err {E A} e.

Declare Scope go_scope.
Delimit Scope go_scope with go.
Open Scope go_scope.

(** [x ← m; k] sequences fallible calls, returning the first error. *)
#[export] Instance result_ret {E} : MRet (result E) := fun A a => Ok a.
#[export] Instance result_bind {E} : MBind (result E) := fun A B k m =>
  match m with
  | Ok a => k a
  | Err e => Err e
  end.

Definition is_ok {E A} (m : result E A) : bool :=
  match m with Ok _ => true | Err _ => false end.

(** ** Machine integers: Go's [int], [int64] and [time.Duration] are 64 bit
    two's complement integers that wrap around. *)
Section MachineIntegers.
Open Scope Z_scope.

Definition min_int64 : Z := - 2 ^ 63.
Definition max_int64 : Z := 2 ^ 63 - 1.

Definition in_int64 (z : Z) : Prop := min_int64 <= z <= max_int64.

Definition wrap64 (z : Z) : Z := (z + 2 ^ 63) mod 2 ^ 64 - 2 ^ 63.

Lemma wrap64_range z : in_int64 (wrap64 z).
Proof.
  unfold in_int64, wrap64, min_int64, max_int64.
  pose proof (Z.mod_pos_bound (z + 2 ^ 63) (2 ^ 64)). lia.
Qed.

Lemma wrap64_id z : in_int64 z -> wrap64 z = z.
Proof.
  unfold in_int64, wrap64, min_int64, max_int64. intros Hz.
  rewrite Z.mod_small; lia.
Qed.

Lemma wrap64_idemp z : wrap64 (wrap64 z) = wrap64 z.
Proof. apply wrap64_id, wrap64_range. Qed.

(** uint64 counters. *)
Definition wrapu64 (z : Z) : Z := z mod 2 ^ 64.

(** [time.Time] is the number of nanoseconds since the zero time (January 1,
    year 1, 00:00 UTC), so [IsZero] is equality with 0; [time.Duration] is an
    int64 number of nanoseconds.  [Time.Sub] saturates. *)
Definition time_is_zero (t : Z) : bool := t =? 0.
Definition Millisecond : Z := 1000000.
Definition Second : Z := 1000000000.
Definition Minute : Z := 60 * Second.
Definition Hour : Z := 60 * Minute.
Definition dur_mul (n unit : Z) : Z := wrap64 (n * unit).
Definition time_sub (t u : Z) : Z := Z.max min_int64 (Z.min max_int64 (t - u)).
Definition time_after (t u : Z) : bool := u <? t.
Definition time_before (t u : Z) : bool := t <? u.

Lemma time_sub_exact t u : in_int64 (t - u) -> time_sub t u = t - u.
Proof. unfold in_int64, time_sub, min_int64, max_int64. lia. Qed.

Lemma time_sub_lt t u d : in_int64 d -> time_sub t u < d <-> t - u < d /\ d <> min_int64.
Proof. unfold in_int64, time_sub, min_int64, max_int64. lia. Qed.
End MachineIntegers.

#[global] Arguments wrap64 : simpl never.
#[global] Arguments wrapu64 : simpl never.
#[global] Arguments dur_mul : simpl never.
#[global] Arguments time_sub : simpl never.
#[global] Arguments min_int64 : simpl never.
#[global] Arguments max_int64 : simpl never.
#[global] Arguments in_int64 : simpl never.

(** ** Byte strings: the operations of Go's [strings] package the sources use *)
Section Bytes.
Implicit Types l : list ascii.
Implicit Types us : list (list ascii).

Definition bytes (s : string) : list ascii := Stdlib.Strings.String.list_ascii_of_string s.
Definition text (l : list ascii) : string := Stdlib.Strings.String.string_of_list_ascii l.

Lemma text_bytes s : text (bytes s) = s.
Proof. apply Stdlib.Strings.String.string_of_list_ascii_of_string. Qed.
Lemma bytes_text l : bytes (text l) = l.
Proof. apply Stdlib.Strings.String.list_ascii_of_string_of_list_ascii. Qed.
Lemma text_inj l1 l2 : text l1 = text l2 -> l1 = l2.
Proof. intros H. by rewrite <- (bytes_text l1), <- (bytes_text l2), H. Qed.
Lemma bytes_inj s1 s2 : bytes s1 = bytes s2 -> s1 = s2.
Proof. intros H. by rewrite <- (text_bytes s1), <- (text_bytes s2), H. Qed.
Lemma bytes_app s1 s2 : bytes (s1 +:+ s2) = bytes s1 ++ bytes s2.
Proof. induction s1 as [|c s1 IH]; [done|]. exact (f_equal (cons c) IH). Qed.
Lemma text_app l1 l2 : text (l1 ++ l2) = text l1 +:+ text l2.
Proof. induction l1 as [|c l1 IH]; [done|]. exact (f_equal (String c) IH). Qed.

Definition bytes_of_nats (ns : list nat) : list ascii := ascii_of_nat <$> ns.

(** Removing a literal prefix ([strings.CutPrefix]). *)
Fixpoint cut_prefix (p l : list ascii) : option (list ascii) :=
  match p, l with
  | [], _ => Some l
  | a :: p', b :: l' => if decide (a = b) then cut_prefix p' l' else None
  | _ :: _, [] => None
  end.

Lemma cut_prefix_Some p l r : cut_prefix p l = Some r <-> l = p ++ r.
Proof.
  revert l. induction p as [|a p IH]; intros [|b l]; simpl;
    try (clear; naive_solver); case_decide as E; [subst; rewrite IH|]; clear IH; naive_solver.
Qed.

(** Removing one unit of a list of units (the encoded runes of a class). *)
Fixpoint cut_unit (us : list (list ascii)) l : option (list ascii) :=
  match us with
  | [] => None
  | u :: us' => match cut_prefix u l with
                | Some r => Some r
                | None => cut_unit us' l
                end
  end.

Lemma cut_unit_Some us l r : cut_unit us l = Some r -> exists u, u ∈ us /\ l = u ++ r.
Proof.
  induction us as [|u us IH]; simpl; [done|].
  destruct (cut_prefix u l) as [r'|] eqn:E.
  - intros [= <-]. apply cut_prefix_Some in E. exists u. split; [left|done].
  - intros H. destruct (IH H) as (v & Hv & ->). exists v. split; [by right|done].
Qed.

Lemma cut_unit_None us l u r : cut_unit us l = None -> u ∈ us -> l <> u ++ r.
Proof.
  induction us as [|v us IH]; simpl; intros H Hu; [by apply elem_of_nil in Hu|].
  destruct (cut_prefix v l) as [r'|] eqn:E; [done|].
  apply elem_of_cons in Hu as [->|Hu]; [|by apply IH].
  intros Hl. apply cut_prefix_Some in Hl. congruence.
Qed.

Fixpoint trim_left_n (n : nat) us l : list ascii :=
  match n with
  | O => l
  | S n' => match cut_unit us l with
            | Some r => trim_left_n n' us r
            | None => l
            end
  end.

Definition trim_left us l : list ascii := trim_left_n (length l) us l.
Definition trim_right us l : list ascii := rev (trim_left (map (@rev ascii) us) (rev l)).

(** A class whose units are nonempty. *)
Definition proper_units us : Prop := Forall (fun u => u <> []) us.

Lemma proper_units_in us u : proper_units us -> u ∈ us -> u <> [].
Proof.
  unfold proper_units. intros H Hu. rewrite list_elem_of_In in Hu.
  rewrite List.Forall_forall in H. by apply H.
Qed.

Lemma trim_left_n_suffix n us l : exists p, l = p ++ trim_left_n n us l.
Proof.
  revert l. induction n as [|n IH]; intros l; simpl; [by exists []|].
  destruct (cut_unit us l) as [r|] eqn:E; [|by exists []].
  apply cut_unit_Some in E as (u & _ & ->).
  destruct (IH r) as [p Hp]. exists (u ++ p). rewrite <- app_assoc. by f_equal.
Qed.

Lemma trim_left_suffix us l : exists p, l = p ++ trim_left us l.
Proof. apply trim_left_n_suffix. Qed.

Lemma trim_left_n_none n us l :
  proper_units us -> length l <= n -> cut_unit us (trim_left_n n us l) = None.
Proof.
  intros Hus. revert l. induction n as [|n IH]; intros l Hn; simpl.
  - destruct l; [|simpl in Hn; lia].
    destruct (cut_unit us []) as [r|] eqn:E; [|done].
    apply cut_unit_Some in E as (u & Hu & E). symmetry in E.
    apply app_eq_nil in E as [-> _]. by destruct (proper_units_in _ _ Hus Hu).
  - destruct (cut_unit us l) as [r|] eqn:E; [|done].
    apply IH. apply cut_unit_Some in E as (u & Hu & ->).
    apply (proper_units_in _ _ Hus) in Hu.
    rewrite length_app in Hn. destruct u; [done|simpl in Hn; lia].
Qed.

Lemma trim_left_none us l : proper_units us -> cut_unit us (trim_left us l) = None.
Proof. intros H. by apply trim_left_n_none. Qed.

Lemma trim_left_id us l : cut_unit us l = None -> trim_left us l = l.
Proof. unfold trim_left. destruct l; simpl; [done|]. by intros ->. Qed.

Lemma proper_units_rev us : proper_units us -> proper_units (map (@rev ascii) us).
Proof.
  unfold proper_units. intros H. induction H as [|u us Hu _ IH]; constructor; [|done].
  intros Hr. apply Hu. by rewrite <- (rev_involutive u), Hr.
Qed.

Lemma trim_right_prefix us l : exists q, l = trim_right us l ++ q.
Proof.
  unfold trim_right. destruct (trim_left_suffix (map (@rev ascii) us) (rev l)) as [p Hp].
  exists (rev p). rewrite <- rev_app_distr, <- Hp. by rewrite rev_involutive.
Qed.

Lemma trim_right_idemp us l :
  proper_units us -> trim_right us (trim_right us l) = trim_right us l.
Proof.
  intros H. unfold trim_right at 1. unfold trim_right at 1.
  rewrite rev_involutive. rewrite (trim_left_id _ (trim_left _ _)); [done|].
  by apply trim_left_none, proper_units_rev.
Qed.

Lemma cut_unit_prefix us l q : cut_unit us (l ++ q) = None -> cut_unit us l = None.
Proof.
  intros H. destruct (cut_unit us l) as [r|] eqn:E; [|done].
  apply cut_unit_Some in E as (u & Hu & ->).
  exfalso. eapply (cut_unit_None _ _ u (r ++ q) H Hu). by rewrite app_assoc.
Qed.

Definition trim_units us l : list ascii := trim_right us (trim_left us l).

Lemma trim_units_idemp us l : proper_units us -> trim_units us (trim_units us l) = trim_units us l.
Proof.
  intros H. unfold trim_units.
  rewrite (trim_left_id us (trim_right us _)); [by apply trim_right_idemp|].
  destruct (trim_right_prefix us (trim_left us l)) as [q Hq].
  apply (cut_unit_prefix _ _ q). rewrite <- Hq. by apply trim_left_none.
Qed.
End Bytes.
