(* ===== verification/GoStrings.v ===== *)
(** * Go's [strings] package

    The operations of the standard [strings] package the modelled sources call,
    on byte strings, with the algebraic laws the components rely on.

    Strings are sequences of bytes, as in Go.  White space is the Unicode
    White_Space set in its UTF-8 encoding.  Case mapping ([ToLower],
    [EqualFold]) covers ASCII and the three letters outside ASCII whose case
    mapping reaches ASCII (U+212A KELVIN SIGN, U+0130 and U+017F); other letters
    outside ASCII are left alone. *)
From stdpp Require Import base gmap strings list fin_maps numbers.
From Stdlib Require Import ZArith Lia Ascii.
From S2P Require Import Prelude.

(** ** White space *)
Definition space_units : list (list ascii) :=
  bytes_of_nats <$>
    ([[9]; [10]; [11]; [12]; [13]; [32]; [194; 133]; [194; 160]; [225; 154; 128]]
     ++ ((fun n => [226; 128; n]) <$> (seq 128 11 ++ [168; 169; 175]))
     ++ [[226; 129; 159]; [227; 128; 128]]).

Lemma space_units_proper : proper_units space_units.
Proof. unfold proper_units. by repeat constructor. Qed.

Definition TrimSpace (s : string) : string := text (trim_units space_units (bytes s)).

Definition byte_class (cutset : string) : list (list ascii) := (fun c => [c]) <$> bytes cutset.
Definition TrimRight (s cutset : string) : string := text (trim_right (byte_class cutset) (bytes s)).
Definition TrimLeft (s cutset : string) : string := text (trim_left (byte_class cutset) (bytes s)).

Lemma TrimSpace_idemp s : TrimSpace (TrimSpace s) = TrimSpace s.
Proof.
  unfold TrimSpace. rewrite bytes_text, trim_units_idemp; [done|apply space_units_proper].
Qed.

Lemma TrimSpace_empty : TrimSpace "" = "".
Proof. reflexivity. Qed.

Lemma byte_class_proper c : proper_units (byte_class c).
Proof.
  unfold proper_units, byte_class. induction (bytes c) as [|a l IH]; simpl; by constructor.
Qed.

Lemma TrimRight_idemp s c : TrimRight (TrimRight s c) c = TrimRight s c.
Proof.
  unfold TrimRight. rewrite bytes_text, trim_right_idemp; [done|apply byte_class_proper].
Qed.

(** ** Prefixes and suffixes *)
Definition HasPrefix (s p : string) : bool := bool_decide (is_Some (cut_prefix (bytes p) (bytes s))).
Definition TrimPrefix (s p : string) : string :=
  match cut_prefix (bytes p) (bytes s) with
  | Some r => text r
  | None => s
  end.
Definition HasSuffix (s p : string) : bool :=
  bool_decide (is_Some (cut_prefix (rev (bytes p)) (rev (bytes s)))).

Definition TrimSuffix (s p : string) : string :=
  match cut_prefix (rev (bytes p)) (rev (bytes s)) with Some r => text (rev r) | None => s end.

Lemma HasPrefix_spec s p : HasPrefix s p = true <-> exists r, s = p +:+ r.
Proof.
  unfold HasPrefix. rewrite bool_decide_eq_true. split.
  - intros [r Hr]. apply cut_prefix_Some in Hr. exists (text r).
    apply bytes_inj. by rewrite bytes_app, bytes_text.
  - intros [r ->]. exists (bytes r). apply cut_prefix_Some. apply bytes_app.
Qed.

(** ** Searching, counting and replacing *)
Section Search.
Implicit Types p l : list ascii.

(** First occurrence of [p] in [l]: the text before and after it. *)
Fixpoint cut p l : option (list ascii * list ascii) :=
  match cut_prefix p l with
  | Some r => Some ([], r)
  | None =>
      match l with
      | [] => None
      | c :: l' => match cut p l' with
                   | Some (b, a) => Some (c :: b, a)
                   | None => None
                   end
      end
  end.

Lemma cut_Some p l b a : cut p l = Some (b, a) -> l = b ++ p ++ a.
Proof.
  revert b. induction l as [|c l IH]; intros b; simpl;
    destruct (cut_prefix p _) as [r|] eqn:E; intros H; simplify_eq/=.
  - by apply cut_prefix_Some in E.
  - by apply cut_prefix_Some in E.
  - destruct (cut p l) as [[b' a']|]; simplify_eq/=. by rewrite (IH b').
Qed.

Lemma cut_None p l b a : cut p l = None -> l <> b ++ p ++ a.
Proof.
  revert b. induction l as [|c l IH]; intros b; simpl;
    destruct (cut_prefix p _) as [r|] eqn:E; intros H Hl; simplify_eq.
  - destruct b; [|done]. apply (cut_prefix_Some p [] a) in Hl. congruence.
  - destruct (cut p l) as [[b' a']|] eqn:E'; [done|].
    destruct b as [|c' b]; simpl in Hl; simplify_eq.
    + assert (E2 : cut_prefix p (c :: l) = Some a).
      { by apply cut_prefix_Some. }
      congruence.
    + by eapply IH.
Qed.

(** Number of non-overlapping occurrences, left to right ([p] nonempty). *)
Fixpoint count_n (n : nat) p l : nat :=
  match n with
  | O => 0
  | S n' => match cut p l with
            | Some (_, a) => S (count_n n' p a)
            | None => 0
            end
  end.

(** Replacing the first [limit] occurrences (all of them when [None]). *)
Fixpoint replace_n (n : nat) (limit : option nat) p q l : list ascii :=
  match n, limit with
  | O, _ => l
  | _, Some O => l
  | S n', _ => match cut p l with
               | Some (b, a) => b ++ q ++ replace_n n' (pred <$> limit) p q a
               | None => l
               end
  end.
End Search.

Definition Contains (s sub : string) : bool := bool_decide (is_Some (cut (bytes sub) (bytes s))).
Definition Count (s sub : string) : nat := count_n (S (String.length s)) (bytes sub) (bytes s).
Definition Replace (s old new : string) (limit : option nat) : string :=
  text (replace_n (S (String.length s)) limit (bytes old) (bytes new) (bytes s)).
Definition ReplaceAll (s old new : string) : string := Replace s old new None.

Lemma Contains_spec s sub : Contains s sub = true <-> exists b a, s = b +:+ sub +:+ a.
Proof.
  unfold Contains. rewrite bool_decide_eq_true. split.
  - intros [[b a] H]. apply cut_Some in H. exists (text b), (text a).
    apply bytes_inj. by rewrite !bytes_app, !bytes_text.
  - intros (b & a & ->). destruct (cut _ _) as [x|] eqn:E; [by exists x|].
    exfalso. eapply (cut_None _ _ (bytes b) (bytes a) E). by rewrite !bytes_app.
Qed.

(** ** Splitting and joining at one byte *)
Section Splitting.
Context (sep : ascii).

Fixpoint split_bytes (l : list ascii) : list (list ascii) :=
  match l with
  | [] => [[]]
  | c :: l' => if decide (c = sep) then [] :: split_bytes l'
               else match split_bytes l' with
                    | h :: t => (c :: h) :: t
                    | [] => [[c]]
                    end
  end.

Fixpoint join_bytes (ps : list (list ascii)) : list ascii :=
  match ps with
  | [] => []
  | [p] => p
  | p :: ps' => p ++ sep :: join_bytes ps'
  end.

Lemma split_bytes_nonempty l : split_bytes l <> [].
Proof. destruct l as [|c l]; simpl; [done|]. by case_decide; [|destruct (split_bytes l)]. Qed.

Lemma join_split_bytes l : join_bytes (split_bytes l) = l.
Proof.
  induction l as [|c l IH]; simpl; [done|].
  pose proof (split_bytes_nonempty l) as Hn.
  case_decide as E; subst; destruct (split_bytes l) as [|h [|h' t]]; simpl in *; congruence.
Qed.

Lemma split_bytes_no_sep l : sep ∉ l -> split_bytes l = [l].
Proof.
  induction l as [|c l IH]; intros H; simpl; [done|].
  apply not_elem_of_cons in H as [Hc Hl]. rewrite decide_False by congruence.
  by rewrite (IH Hl).
Qed.

Lemma split_bytes_app p l :
  sep ∉ p -> split_bytes (p ++ sep :: l) = p :: split_bytes l.
Proof.
  induction p as [|c p IH]; intros H; simpl; [by rewrite decide_True|].
  apply not_elem_of_cons in H as [Hc Hp]. rewrite decide_False by congruence.
  by rewrite (IH Hp).
Qed.

Lemma split_join_bytes ps :
  ps <> [] -> Forall (fun p => sep ∉ p) ps -> split_bytes (join_bytes ps) = ps.
Proof.
  intros Hne HF. induction HF as [|p ps Hp HF IH]; [done|].
  destruct ps as [|q ps]; simpl; [by apply split_bytes_no_sep|].
  rewrite split_bytes_app by done. f_equal. by apply IH.
Qed.

Lemma split_bytes_parts l : Forall (fun p => sep ∉ p) (split_bytes l).
Proof.
  induction l as [|c l IH]; simpl; [by repeat constructor; apply not_elem_of_nil|].
  case_decide as E; [constructor; [apply not_elem_of_nil|done]|].
  destruct (split_bytes l) as [|h t]; [repeat constructor; set_solver|].
  inversion IH; subst. constructor; [|done]. set_solver.
Qed.
End Splitting.

Definition Split (s : string) (sep : ascii) : list string := text <$> split_bytes sep (bytes s).
Definition Join (ps : list string) (sep : ascii) : string := text (join_bytes sep (bytes <$> ps)).

Lemma Join_Split s sep : Join (Split s sep) sep = s.
Proof.
  unfold Join, Split. rewrite <- list_fmap_compose.
  rewrite (list_fmap_ext _ id) by (intros; apply bytes_text).
  rewrite list_fmap_id, join_split_bytes. apply text_bytes.
Qed.

Lemma Split_Join ps sep :
  ps <> [] -> Forall (fun p => sep ∉ bytes p) ps -> Split (Join ps sep) sep = ps.
Proof.
  intros Hne HF. unfold Join, Split. rewrite bytes_text, split_join_bytes.
  - rewrite <- list_fmap_compose. rewrite (list_fmap_ext _ id) by (intros; apply text_bytes).
    apply list_fmap_id.
  - by destruct ps.
  - by rewrite Forall_fmap.
Qed.

(** ** Case mapping *)
Definition lower_byte (c : ascii) : ascii :=
  let n := nat_of_ascii c in
  if (65 <=? n)%nat && (n <=? 90)%nat then ascii_of_nat (n + 32) else c.

(** Multi-byte runes with an ASCII image come first. *)
Fixpoint map_runes (n : nat) (special : list (list ascii * ascii)) (l : list ascii) : list ascii :=
  match n with
  | O => l
  | S n' =>
      match l with
      | [] => []
      | c :: l' =>
          match list_find (fun ur => is_Some (cut_prefix ur.1 l)) special with
          | Some (_, (u, r)) => r :: map_runes n' special (drop (length u) l)
          | None => lower_byte c :: map_runes n' special l'
          end
      end
  end.

Definition kelvin_sign : list ascii := bytes_of_nats [226; 132; 170].
Definition dotted_I : list ascii := bytes_of_nats [196; 176].
Definition long_s : list ascii := bytes_of_nats [197; 191].

Definition ToLower (s : string) : string :=
  text (map_runes (String.length s) [(kelvin_sign, "k"%char); (dotted_I, "i"%char)] (bytes s)).

Definition fold_case (s : string) : string :=
  text (map_runes (String.length s) [(kelvin_sign, "k"%char); (long_s, "s"%char)] (bytes s)).

Definition EqualFold (s t : string) : bool := bool_decide (fold_case s = fold_case t).

Lemma EqualFold_refl s : EqualFold s s = true.
Proof. by apply bool_decide_eq_true. Qed.

Lemma EqualFold_sym s t : EqualFold s t = EqualFold t s.
Proof. unfold EqualFold. apply bool_decide_ext. naive_solver. Qed.

Lemma EqualFold_trans s t u : EqualFold s t = true -> EqualFold t u = true -> EqualFold s u = true.
Proof. unfold EqualFold. rewrite !bool_decide_eq_true. congruence. Qed.

(** ** Fields: the maximal runs without white space *)
Fixpoint fields_n (n : nat) (cur : list ascii) (l : list ascii) : list (list ascii) :=
  let flush k := match cur with [] => k | _ => rev cur :: k end in
  match n with
  | O => flush []
  | S n' =>
      match cut_unit space_units l with
      | Some r => flush (fields_n n' [] r)
      | None => match l with
                | [] => flush []
                | c :: l' => fields_n n' (c :: cur) l'
                end
      end
  end.

Definition Fields (s : string) : list string := text <$> fields_n (S (String.length s)) [] (bytes s).

(** ** The order of strings: Go compares them bytewise. *)
Fixpoint bytes_leb (l1 l2 : list ascii) : bool :=
  match l1, l2 with
  | [], _ => true
  | _, [] => false
  | c1 :: l1, c2 :: l2 =>
      if decide (c1 = c2) then bytes_leb l1 l2 else (nat_of_ascii c1 <? nat_of_ascii c2)%nat
  end.
Definition string_le (s1 s2 : string) : Prop := bytes_leb (bytes s1) (bytes s2) = true.
#[export] Instance string_le_dec : RelDecision string_le.
Proof. intros s1 s2. unfold string_le. apply _. Defined.

Lemma bytes_leb_refl l : bytes_leb l l = true.
Proof. induction l as [|c l IH]; simpl; [done|]. by rewrite decide_True. Qed.

Lemma bytes_leb_total l1 l2 : bytes_leb l1 l2 = true \/ bytes_leb l2 l1 = true.
Proof.
  revert l2. induction l1 as [|c l1 IH]; intros [|d l2]; simpl; [by left..|by right|].
  destruct (decide (c = d)) as [->|Hne]; [by rewrite decide_True|]. rewrite (decide_False (P := d = c)) by congruence.
  assert (nat_of_ascii c <> nat_of_ascii d) as Hn; [|rewrite !Nat.ltb_lt; lia].
  intros E. apply Hne. by rewrite <- (ascii_nat_embedding c), <- (ascii_nat_embedding d), E.
Qed.

Lemma bytes_leb_antisym l1 l2 : bytes_leb l1 l2 = true -> bytes_leb l2 l1 = true -> l1 = l2.
Proof.
  revert l2. induction l1 as [|c l1 IH]; intros [|d l2]; simpl; [done..|].
  destruct (decide (c = d)) as [->|Hne].
  - rewrite decide_True by done. intros H1 H2. f_equal. by apply IH.
  - rewrite (decide_False (P := d = c)) by congruence. rewrite !Nat.ltb_lt. lia.
Qed.

Lemma bytes_leb_trans l1 l2 l3 : bytes_leb l1 l2 = true -> bytes_leb l2 l3 = true -> bytes_leb l1 l3 = true.
Proof.
  revert l2 l3. induction l1 as [|c l1 IH]; intros [|d l2] [|e l3]; simpl; try done.
  destruct (decide (c = d)) as [->|Hcd], (decide (d = e)) as [->|Hde]; rewrite ?decide_True by done.
  - apply IH.
  - by intros _ H.
  - by intros H _; rewrite decide_False.
  - rewrite !Nat.ltb_lt. intros H1 H2. rewrite decide_False; [apply Nat.ltb_lt; lia|intros ->; lia].
Qed.

#[export] Instance string_le_total : TotalOrder string_le.
Proof.
  unfold string_le. split; [split; [split|]|].
  - intros s. apply bytes_leb_refl.
  - intros s1 s2 s3. apply bytes_leb_trans.
  - intros s1 s2 H1 H2. apply bytes_inj. by apply bytes_leb_antisym.
  - intros s1 s2. destruct (decide (s1 = s2)) as [->|Hne]; [right; by left|].
    destruct (bytes_leb_total (bytes s1) (bytes s2)) as [H|H]; [left|right; right].
    all: split; [done|]; intros H'; apply Hne, bytes_inj; by apply bytes_leb_antisym.
Qed.

(** ** Decimal digits *)
Definition is_digit (c : ascii) : bool :=
  let n := nat_of_ascii c in (48 <=? n)%nat && (n <=? 57)%nat.
Definition digit_val (c : ascii) : Z := Z.of_nat (nat_of_ascii c) - 48.

Example TrimSpace_ex : TrimSpace "  a b	 " = "a b". Proof. reflexivity. Qed.
Example ToLower_ex : ToLower "CoMPleted" = "completed". Proof. reflexivity. Qed.
Example Count_ex : Count "aaaa" "aa" = 2. Proof. reflexivity. Qed.
Example Replace_ex : Replace "a-b-c" "-" "+" (Some 1) = "a+b-c". Proof. reflexivity. Qed.
Example Fields_ex : Fields " 0  9 * " = ["0"; "9"; "*"]. Proof. reflexivity. Qed.

#[global] Arguments TrimSpace : simpl never.
#[global] Arguments TrimRight : simpl never.
#[global] Arguments TrimLeft : simpl never.
#[global] Arguments TrimPrefix : simpl never.
#[global] Arguments HasPrefix : simpl never.
#[global] Arguments HasSuffix : simpl never.
#[global] Arguments ToLower : simpl never.
#[global] Arguments EqualFold : simpl never.
#[global] Arguments Contains : simpl never.
#[global] Arguments Count : simpl never.
#[global] Arguments Replace : simpl never.
#[global] Arguments Split : simpl never.
#[global] Arguments Join : simpl never.
#[global] Arguments Fields : simpl never.
#[global] Arguments TrimSuffix : simpl never.
