(* ===== verification/Digest.v ===== *)
(** * Message digests: [crypto/md5], [crypto/sha256] and [encoding/hex]

    Executable definitions of the two digests the sources compute (MD5 for the
    change digest of an async operation, SHA-256 for goal fingerprints and claim
    keys), on byte strings, with words as [Z] modulo 2^32. *)
From stdpp Require Import base strings list numbers.
From Stdlib Require Import ZArith Lia Ascii.
From S2P Require Import Prelude.

Open Scope Z_scope.

(** ** 32 bit words *)
Definition w32 (z : Z) : Z := z mod 2 ^ 32.
Definition add32 (x y : Z) : Z := w32 (x + y).
Definition not32 (x : Z) : Z := Z.lxor x 0xffffffff.
Definition rotl32 (x n : Z) : Z := Z.lor (w32 (Z.shiftl x n)) (Z.shiftr x (32 - n)).
Definition rotr32 (x n : Z) : Z := Z.lor (Z.shiftr x n) (w32 (Z.shiftl x (32 - n))).

Definition byte_z (c : ascii) : Z := Z.of_nat (nat_of_ascii c).
Definition z_byte (z : Z) : ascii := ascii_of_nat (Z.to_nat z).

(** The [n] bytes of [z], least significant first. *)
Fixpoint le_bytes (n : nat) (z : Z) : list Z :=
  match n with
  | O => []
  | S n' => z mod 256 :: le_bytes n' (z / 256)
  end.
Definition be_bytes (n : nat) (z : Z) : list Z := rev (le_bytes n z).
Definition of_le_bytes (bs : list Z) : Z := foldr (fun b acc => b + 256 * acc) 0 bs.
Definition of_be_bytes (bs : list Z) : Z := of_le_bytes (rev bs).

(** Consecutive groups of [k] elements (a trailing partial group is dropped). *)
Fixpoint groups (fuel k : nat) (l : list Z) : list (list Z) :=
  match fuel with
  | O => []
  | S f => if (length l <? k)%nat then [] else take k l :: groups f k (drop k l)
  end.

(** Padding: 0x80, zeros up to 56 modulo 64, then the bit length. *)
Definition pad (len_bytes : nat -> Z -> list Z) (msg : list Z) : list Z :=
  let n := Z.of_nat (length msg) in
  let zeros := Z.to_nat ((55 - n) mod 64) in
  msg ++ 128 :: replicate zeros 0 ++ len_bytes 8%nat ((8 * n) mod 2 ^ 64).

Definition blocks (msg : list Z) : list (list Z) := groups (length msg) 64 msg.

(** ** MD5 *)
Definition md5_k : list Z :=
  [0xd76aa478; 0xe8c7b756; 0x242070db; 0xc1bdceee; 0xf57c0faf;
   0x4787c62a; 0xa8304613; 0xfd469501; 0x698098d8; 0x8b44f7af;
   0xffff5bb1; 0x895cd7be; 0x6b901122; 0xfd987193; 0xa679438e;
   0x49b40821; 0xf61e2562; 0xc040b340; 0x265e5a51; 0xe9b6c7aa;
   0xd62f105d; 0x02441453; 0xd8a1e681; 0xe7d3fbc8; 0x21e1cde6;
   0xc33707d6; 0xf4d50d87; 0x455a14ed; 0xa9e3e905; 0xfcefa3f8;
   0x676f02d9; 0x8d2a4c8a; 0xfffa3942; 0x8771f681; 0x6d9d6122;
   0xfde5380c; 0xa4beea44; 0x4bdecfa9; 0xf6bb4b60; 0xbebfbc70;
   0x289b7ec6; 0xeaa127fa; 0xd4ef3085; 0x04881d05; 0xd9d4d039;
   0xe6db99e5; 0x1fa27cf8; 0xc4ac5665; 0xf4292244; 0x432aff97;
   0xab9423a7; 0xfc93a039; 0x655b59c3; 0x8f0ccc92; 0xffeff47d;
   0x85845dd1; 0x6fa87e4f; 0xfe2ce6e0; 0xa3014314; 0x4e0811a1;
   0xf7537e82; 0xbd3af235; 0x2ad7d2bb; 0xeb86d391].
Definition md5_s : list Z :=
  concat (replicate 4 [7; 12; 17; 22] ++ replicate 4 [5; 9; 14; 20]
          ++ replicate 4 [4; 11; 16; 23] ++ replicate 4 [6; 10; 15; 21]).

Definition md5_round (m : list Z) (st : Z * Z * Z * Z) (i : nat) : Z * Z * Z * Z :=
  let '(a, b, c, d) := st in
  let fg :=
    if (i <? 16)%nat then (Z.lor (Z.land b c) (Z.land (not32 b) d), i)
    else if (i <? 32)%nat then (Z.lor (Z.land d b) (Z.land (not32 d) c), ((5 * i + 1) mod 16)%nat)
    else if (i <? 48)%nat then (Z.lxor (Z.lxor b c) d, ((3 * i + 5) mod 16)%nat)
    else (Z.lxor c (Z.lor b (not32 d)), ((7 * i) mod 16)%nat) in
  let f := w32 (fg.1 + a + nth i md5_k 0 + nth fg.2 m 0) in
  (d, add32 b (rotl32 f (nth i md5_s 0)), b, c).

Definition md5_block (st : Z * Z * Z * Z) (blk : list Z) : Z * Z * Z * Z :=
  let m := of_le_bytes <$> groups 16 4 blk in
  let '(a, b, c, d) := st in
  let '(a', b', c', d') := foldl (md5_round m) st (seq 0 64) in
  (add32 a a', add32 b b', add32 c c', add32 d d').

Definition md5_sum (msg : list ascii) : list Z :=
  let '(a, b, c, d) := foldl md5_block (0x67452301, 0xefcdab89, 0x98badcfe, 0x10325476)
                         (blocks (pad le_bytes (byte_z <$> msg))) in
  concat (le_bytes 4 <$> [a; b; c; d]).

(** ** SHA-256 *)
(** The constants are derived as the standard defines them: the first 32 bits of
    the fractional parts of the cube (round constants) and square (initial
    state) roots of the first primes. *)
Fixpoint root_search (bits : nat) (k n acc : Z) : Z :=
  match bits with
  | O => acc
  | S b => let acc' := acc + 2 ^ Z.of_nat b in
           root_search b k n (if acc' ^ k <=? n then acc' else acc)
  end.

Definition first_primes (count limit : nat) : list Z :=
  take count (filter (fun p => forallb (fun d => negb (p mod Z.of_nat d =? 0)) (seq 2 (Z.to_nat p - 2)) = true)
                (Z.of_nat <$> seq 2 limit)).

Definition sha256_k : list Z :=
  Eval vm_compute in (fun p => w32 (root_search 40 3 (p * 2 ^ 96) 0)) <$> first_primes 64 320.
Definition sha256_h : list Z :=
  Eval vm_compute in (fun p => w32 (root_search 40 2 (p * 2 ^ 64) 0)) <$> first_primes 8 20.

Definition sha256_small0 x := Z.lxor (Z.lxor (rotr32 x 7) (rotr32 x 18)) (Z.shiftr x 3).
Definition sha256_small1 x := Z.lxor (Z.lxor (rotr32 x 17) (rotr32 x 19)) (Z.shiftr x 10).
Definition sha256_big0 x := Z.lxor (Z.lxor (rotr32 x 2) (rotr32 x 13)) (rotr32 x 22).
Definition sha256_big1 x := Z.lxor (Z.lxor (rotr32 x 6) (rotr32 x 11)) (rotr32 x 25).

(** The message schedule, most recent word first. *)
Fixpoint sha256_schedule (n : nat) (rev_w : list Z) : list Z :=
  match n with
  | O => rev rev_w
  | S n' =>
      let at_ i := nth i rev_w 0 in
      sha256_schedule n'
        (w32 (sha256_small1 (at_ 1%nat) + at_ 6%nat + sha256_small0 (at_ 14%nat) + at_ 15%nat) :: rev_w)
  end.

Definition sha256_round (st : list Z) (kw : Z * Z) : list Z :=
  match st with
  | [a; b; c; d; e; f; g; h] =>
      let t1 := h + sha256_big1 e + Z.lxor (Z.land e f) (Z.land (not32 e) g) + kw.1 + kw.2 in
      let t2 := sha256_big0 a + Z.lxor (Z.lxor (Z.land a b) (Z.land a c)) (Z.land b c) in
      [w32 (t1 + t2); a; b; c; w32 (d + t1); e; f; g]
  | _ => st
  end.

Definition sha256_block (st blk : list Z) : list Z :=
  let w := sha256_schedule 48 (rev (of_be_bytes <$> groups 16 4 blk)) in
  zip_with add32 st (foldl sha256_round st (zip sha256_k w)).

Definition sha256_sum (msg : list ascii) : list Z :=
  concat (be_bytes 4 <$> foldl sha256_block sha256_h (blocks (pad be_bytes (byte_z <$> msg)))).

(** ** Lower-case hexadecimal *)
Definition hex_digit (z : Z) : ascii := z_byte (if z <? 10 then 48 + z else 87 + z).
Definition hex_encode (bs : list Z) : string :=
  text (concat ((fun b => [hex_digit (b / 16); hex_digit (b mod 16)]) <$> bs)).

Definition md5_hex (msg : string) : string := hex_encode (md5_sum (bytes msg)).
Definition sha256_hex (msg : string) : string := hex_encode (sha256_sum (bytes msg)).

(** ** Test vectors *)
Example md5_vector_0 : md5_hex "" = "d41d8cd98f00b204e9800998ecf8427e".
Proof. vm_compute. reflexivity. Qed.
Example sha256_vector_0 : sha256_hex "" = "e3b0c44298fc1c149afbf4c8996fb92427ae41e4649b934ca495991b7852b855".
Proof. vm_compute. reflexivity. Qed.
Example md5_vector_1 : md5_hex "abc" = "900150983cd24fb0d6963f7d28e17f72".
Proof. vm_compute. reflexivity. Qed.
Example sha256_vector_1 : sha256_hex "abc" = "ba7816bf8f01cfea414140de5dae2223b00361a396177a9cb410ff61f20015ad".
Proof. vm_compute. reflexivity. Qed.
Example md5_vector_2 : md5_hex "The quick brown fox jumps over the lazy dog, twice: the quick brown fox jumps" = "75c00829d993c96103b5ec1dc6f5afd3".
Proof. vm_compute. reflexivity. Qed.
Example sha256_vector_2 : sha256_hex "The quick brown fox jumps over the lazy dog, twice: the quick brown fox jumps" = "5210c664674252510aa84c0e99d91a3366babfe21b387cc6ed49469f2797abd3".
Proof. vm_compute. reflexivity. Qed.

(** ** Shape of the encodings *)
Lemma length_le_bytes n z : length (le_bytes n z) = n.
Proof. revert z. induction n as [|n IH]; intros z; simpl; [done|]. by rewrite IH. Qed.

Lemma length_hex_encode bs : String.length (hex_encode bs) = (2 * length bs)%nat.
Proof.
  unfold hex_encode. assert (Hl : forall l, String.length (text l) = length l).
  { induction l as [|c l IH]; [done|]. exact (f_equal S IH). }
  rewrite Hl. induction bs as [|b bs IH]; [done|].
  rewrite fmap_cons. change (S (S (length (concat ((fun b => [hex_digit (b / 16); hex_digit (b mod 16)]) <$> bs))))
    = (2 * S (length bs))%nat). rewrite IH. lia.
Qed.

(** Bytes, and what the encodings lose: nothing. *)
Definition is_byte (z : Z) : Prop := 0 <= z < 256.

Lemma le_bytes_is_byte n z : Forall is_byte (le_bytes n z).
Proof.
  revert z. induction n as [|n IH]; intros z; constructor; [|apply IH].
  unfold is_byte. pose proof (Z.mod_pos_bound z 256). lia.
Qed.

Lemma of_le_bytes_le_bytes n z : 0 <= z < 256 ^ Z.of_nat n -> of_le_bytes (le_bytes n z) = z.
Proof.
  revert z. induction n as [|n IH]; intros z Hz; [change (256 ^ Z.of_nat 0) with 1 in Hz; simpl; lia|].
  replace (Z.of_nat (S n)) with (Z.succ (Z.of_nat n)) in Hz by lia. rewrite Z.pow_succ_r in Hz by lia.
  cbn [le_bytes]. change (of_le_bytes (z mod 256 :: le_bytes n (z / 256)))
    with (z mod 256 + 256 * of_le_bytes (le_bytes n (z / 256))).
  pose proof (Z.div_mod z 256). rewrite IH; [lia|]. split; [apply Z.div_pos; lia|apply Z.div_lt_upper_bound; lia].
Qed.

Lemma be_bytes_inj n z1 z2 :
  0 <= z1 < 256 ^ Z.of_nat n -> 0 <= z2 < 256 ^ Z.of_nat n -> be_bytes n z1 = be_bytes n z2 -> z1 = z2.
Proof.
  intros H1 H2 E. apply (f_equal (@rev Z)) in E. unfold be_bytes in E. rewrite !rev_involutive in E.
  rewrite <- (of_le_bytes_le_bytes n z1), <- (of_le_bytes_le_bytes n z2) by done. by rewrite E.
Qed.

Lemma length_be_bytes n z : length (be_bytes n z) = n.
Proof. unfold be_bytes. by rewrite length_rev, length_le_bytes. Qed.

Lemma sha256_sum_is_byte m : Forall is_byte (sha256_sum m).
Proof.
  unfold sha256_sum. apply Forall_concat. apply Forall_fmap, Forall_true. intros x. unfold be_bytes.
  apply Forall_rev, le_bytes_is_byte.
Qed.

Lemma z_byte_inj a b : is_byte a -> is_byte b -> z_byte a = z_byte b -> a = b.
Proof.
  unfold is_byte, z_byte. intros Ha Hb E. apply (f_equal nat_of_ascii) in E.
  rewrite !nat_ascii_embedding in E by lia. lia.
Qed.

Lemma byte_z_is_byte c : is_byte (byte_z c).
Proof. unfold is_byte, byte_z. pose proof (nat_ascii_bounded c). lia. Qed.

Lemma byte_z_inj c d : byte_z c = byte_z d -> c = d.
Proof. unfold byte_z. intros E. rewrite <- (ascii_nat_embedding c), <- (ascii_nat_embedding d). f_equal. lia. Qed.

Lemma hex_digit_inj a b : 0 <= a < 16 -> 0 <= b < 16 -> hex_digit a = hex_digit b -> a = b.
Proof.
  unfold hex_digit. intros Ha Hb E.
  assert (forall x, 0 <= x < 16 -> is_byte (if x <? 10 then 48 + x else 87 + x)) as Hr
    by (intros x Hx; unfold is_byte; destruct (x <? 10); lia).
  apply z_byte_inj in E; [|by apply Hr..]. destruct (Z.ltb_spec a 10), (Z.ltb_spec b 10); lia.
Qed.

Lemma hex_encode_inj bs1 bs2 : Forall is_byte bs1 -> Forall is_byte bs2 -> hex_encode bs1 = hex_encode bs2 -> bs1 = bs2.
Proof.
  unfold hex_encode. intros H1 H2 E%text_inj. revert bs2 H2 E.
  induction H1 as [|b1 bs1 Hb1 _ IH]; intros bs2 H2 E; destruct H2 as [|b2 bs2 Hb2 H2]; [done|discriminate E|discriminate E|].
  injection E as E1 E2 E. unfold is_byte in *. rewrite (IH bs2 H2 E). f_equal.
  apply hex_digit_inj in E1; [|split; [apply Z.div_pos; lia|apply Z.div_lt_upper_bound; lia]..].
  apply hex_digit_inj in E2; [|apply Z.mod_pos_bound; lia..].
  rewrite (Z.div_mod b1 256), (Z.div_mod b2 256) by lia. pose proof (Z.div_mod b1 16). pose proof (Z.div_mod b2 16).
  rewrite !Z.div_small, !Z.mod_small by lia. lia.
Qed.

#[global] Arguments md5_hex : simpl never.
#[global] Arguments sha256_hex : simpl never.
