(* ===== verification/Goal.v ===== *)
(** * Goal controller and runtime ([service/goal], [runtime/usage])

    The domain model of a durable conversation goal, the pure autonomy policy
    [Evaluate], and the runtime [AfterTurn] that accounts usage, evaluates the
    policy and persists its decision.  The durable store is the interface
    [GoalStore]: the theorems about [AfterTurn] are proved against its laws
    [GoalStoreLaws]; [MemStore] is an instance of both. *)
From stdpp Require Import base gmap strings list fin_maps numbers.
From Stdlib Require Import ZArith Lia Ascii.
From S2P Require Import Prelude GoStrings Digest.

Open Scope Z_scope.

(** ** Token usage ([runtime/usage/usage.go]) *)
Module Usage.
Record Stat := mkStat {
  PromptTokens : Z;
  CompletionTokens : Z;
  EmbeddingTokens : Z;
  CachedTokens : Z }.

(** Usage per model name. *)
Abbreviation Aggregator := (gmap string Stat).

(** [llm.Usage], the figures a provider reports. *)
Record LLMUsage := mkLLMUsage {
  u_PromptTokens : Z;
  u_CompletionTokens : Z;
  u_TotalTokens : Z;
  u_PromptCachedTokens : Z }.

(** The entry of a model, created empty when missing. *)
Definition ensure (a : Aggregator) (model : string) : Stat :=
  default (mkStat 0 0 0 0) (a !! model).

Definition Add (a : Aggregator) (model : string) (prompt completion embed cached : Z) : Aggregator :=
  let stat := ensure a model in
  <[model := mkStat (wrap64 (PromptTokens stat + prompt))
                    (wrap64 (CompletionTokens stat + completion))
                    (wrap64 (EmbeddingTokens stat + embed))
                    (wrap64 (CachedTokens stat + cached))]> a.

Definition OnUsage (a : Aggregator) (model : string) (u : option LLMUsage) : Aggregator :=
  match u with
  | None => a
  | Some u =>
      let embed := wrap64 (u_TotalTokens u - wrap64 (u_PromptTokens u + u_CompletionTokens u)) in
      let embed := if embed <? 0 then 0 else embed in
      Add a model (u_PromptTokens u) (u_CompletionTokens u) embed (u_PromptCachedTokens u)
  end.

Definition totals_of (stats : list Stat) : Z * Z * Z * Z :=
  foldr (fun st '(p, c, e, k) =>
           (wrap64 (p + PromptTokens st), wrap64 (c + CompletionTokens st),
            wrap64 (e + EmbeddingTokens st), wrap64 (k + CachedTokens st)))
        (0, 0, 0, 0) stats.

Definition Totals (a : Aggregator) : Z * Z * Z * Z := totals_of (map_to_list a).*2.
End Usage.

(** ** Domain model ([goal.go], [status.go], [spec.go]) *)
Definition StatusActive := "active".
Definition StatusPaused := "paused".
Definition StatusBlocked := "blocked".
Definition StatusComplete := "complete".
Definition StatusBudgetLimited := "budget_limited".
Definition StatusUsageLimited := "usage_limited".

Inductive goal_error :=
| ErrUnknownStatus (value : string)
| ErrUnknownContinueMode (value : string)
| ErrUnknownOnTurnFinished (value : string)
| ErrUnknownOnAsyncCompleted (value : string)
| ErrMaxAutonomousTurnsNegative
| ErrWakeDelayNegative
| ErrMaxConsecutiveNoProgressNegative.

Definition ParseStatus (value : string) : result goal_error string :=
  if decide (value ∈ [StatusActive; StatusPaused; StatusBlocked; StatusComplete;
                      StatusBudgetLimited; StatusUsageLimited])
  then Ok value else Err (ErrUnknownStatus value).

Definition IsActive (s : string) : bool := bool_decide (s = StatusActive).
Definition IsTerminal (s : string) : bool :=
  bool_decide (s ∈ [StatusComplete; StatusBlocked; StatusBudgetLimited; StatusUsageLimited]).

Definition PauseReasonHumanReviewCheckpoint := "human_review_checkpoint".

Definition ContinueModeIdleOnly := "idle_only".
Definition ContinueModeManualOnly := "manual_only".
Definition TurnPolicyEvaluate := "evaluate".
Definition TurnPolicyWait := "wait".
Definition AsyncPolicyEvaluate := "evaluate".
Definition AsyncPolicyWait := "wait".

Record ControllerSpec := mkSpec {
  ContinueMode : string;
  OnTurnFinished : string;
  OnAsyncCompleted : string;
  WakeDelaySeconds : option Z;
  MaxAutonomousTurns : option Z;
  MaxConsecutiveNoProgress : option Z }.

Definition opt_negative (o : option Z) : bool :=
  match o with Some n => n <? 0 | None => false end.

Definition Validate (s : ControllerSpec) : option goal_error :=
  if negb (bool_decide (ContinueMode s ∈ [ContinueModeIdleOnly; ContinueModeManualOnly]))
  then Some (ErrUnknownContinueMode (ContinueMode s))
  else if negb (bool_decide (OnTurnFinished s ∈ [TurnPolicyEvaluate; TurnPolicyWait]))
  then Some (ErrUnknownOnTurnFinished (OnTurnFinished s))
  else if negb (bool_decide (OnAsyncCompleted s ∈ [AsyncPolicyEvaluate; AsyncPolicyWait]))
  then Some (ErrUnknownOnAsyncCompleted (OnAsyncCompleted s))
  else if opt_negative (MaxAutonomousTurns s) then Some ErrMaxAutonomousTurnsNegative
  else if opt_negative (WakeDelaySeconds s) then Some ErrWakeDelayNegative
  else if opt_negative (MaxConsecutiveNoProgress s) then Some ErrMaxConsecutiveNoProgressNegative
  else None.

Record Goal := mkGoal {
  ID : string;
  ConversationID : string;
  Objective : string;
  Status : string;
  StatusReason : string;
  PauseReason : string;
  Controller : option ControllerSpec;
  TokenBudget : option Z;
  TokensUsed : Z;
  TimeUsedSeconds : Z;
  AutonomousTurnsUsed : Z;
  ConsecutiveNoProgress : Z;
  LastContinuationFingerprint : string;
  CreatedAt : Z;
  UpdatedAt : option Z }.

(** Methods with a pointer receiver take [option Goal] ([None] is nil). *)
Definition BudgetExceeded (g : option Goal) : bool :=
  match g with
  | Some g => match TokenBudget g with
              | Some b => b <=? TokensUsed g
              | None => false
              end
  | None => false
  end.

Definition Autonomous (g : option Goal) : bool :=
  match g with
  | Some g => match Controller g with
              | Some c => bool_decide (ContinueMode c = ContinueModeIdleOnly)
              | None => false
              end
  | None => false
  end.

(** ** Policy ([controller.go]) *)
Record ContinuationHint := mkHint {
  Reason : string;
  Preview : string;
  Payload : string }.

Definition nl : string := text (bytes_of_nats [10%nat]).

Definition ContinuationFingerprint (h : option ContinuationHint) : string :=
  match h with
  | None => ""
  | Some h => sha256_hex (TrimSpace (Reason h) +:+ nl +:+ TrimSpace (Preview h) +:+ nl
                            +:+ TrimSpace (Payload h))
  end.

Record Snapshot := mkSnapshot {
  s_Goal : option Goal;
  TurnRunning : bool;
  QueuedUserTurns : Z;
  PendingElicitation : bool;
  PendingApproval : bool;
  PendingAsync : bool;
  UsageLimited : bool;
  s_ConsecutiveNoProgress : Z;
  s_AutonomousTurnsUsed : Z;
  Continuation : option ContinuationHint }.

Inductive ActionKind :=
| ActionUnset  (** the zero value of the Go string type *)
| ActionNone
| ActionQueueTurn
| ActionPauseGoal
| ActionBlockGoal
| ActionCompleteGoal
| ActionBudgetLimited
| ActionUsageLimited
| ActionScheduleWakeup.

#[export] Instance ActionKind_eq_dec : EqDecision ActionKind.
Proof. solve_decision. Defined.

Record Action := mkAction {
  Kind : ActionKind;
  a_Reason : string;
  a_Status : string;
  a_PauseReason : string;
  a_Continuation : option ContinuationHint;
  a_WakeDelaySeconds : Z }.

Definition no_action (reason : string) : Action := mkAction ActionNone reason "" "" None 0.
Definition transition (k : ActionKind) (status reason : string) : Action :=
  mkAction k reason status "" None 0.

(** [spec.Max != nil && used >= *spec.Max]. *)
Definition limit_reached (limit : option Z) (used : Z) : bool :=
  match limit with Some m => m <=? used | None => false end.

Definition Evaluate (s : option Snapshot) : Action :=
  match s with
  | None => no_action "no goal"
  | Some s =>
  match s_Goal s with
  | None => no_action "no goal"
  | Some g =>
  if negb (IsActive (Status g)) then no_action "goal is not active"
  else if BudgetExceeded (Some g)
  then transition ActionBudgetLimited StatusBudgetLimited "token budget exhausted"
  else if UsageLimited s
  then transition ActionUsageLimited StatusUsageLimited "provider or runtime usage limit reached"
  else if TurnRunning s then no_action "a turn is currently running"
  else if 0 <? QueuedUserTurns s then no_action "user work is queued"
  else if PendingElicitation s then no_action "an elicitation is pending"
  else if PendingApproval s then no_action "an approval is pending"
  else if PendingAsync s then no_action "async work is still active"
  else if negb (Autonomous (Some g)) then no_action "autonomous continuation is not enabled"
  else
    match Controller g with
    | None => no_action "autonomous continuation is not enabled" (* excluded by Autonomous *)
    | Some spec =>
        if limit_reached (MaxConsecutiveNoProgress spec) (s_ConsecutiveNoProgress s)
        then transition ActionBlockGoal StatusBlocked "no progress across consecutive autonomous turns"
        else if limit_reached (MaxAutonomousTurns spec) (s_AutonomousTurnsUsed s)
        then mkAction ActionPauseGoal "autonomous turn limit reached" StatusPaused
               PauseReasonHumanReviewCheckpoint None 0
        else
          match Continuation s with
          | None => no_action "no explicit continuation signal"
          | Some h =>
              if bool_decide (OnTurnFinished spec = TurnPolicyWait) then no_action "turn policy is wait"
              else
                match WakeDelaySeconds spec with
                | Some d => if 0 <? d
                            then mkAction ActionScheduleWakeup "delay active goal continuation" "" ""
                                   (Some h) d
                            else mkAction ActionQueueTurn "continue active goal" "" "" (Some h) 0
                | None => mkAction ActionQueueTurn "continue active goal" "" "" (Some h) 0
                end
          end
    end
  end
  end.

(** ** Runtime ([runtime.go]) *)

(** The persistence boundary [Store]: Go pairs [(value, error)] are pairs, and
    every call may change the world [W]. *)
Class GoalStore (W E : Type) := {
  store_Current : string -> W -> W * (option Goal * option E);
  store_RecordUsage : string -> Z -> Z -> W -> W * option E;
  store_Transition : string -> string -> string -> W -> W * option E;
  store_Pause : string -> string -> W -> W * option E;
  store_UpdateControllerState : string -> Z -> Z -> string -> W -> W * option E }.

Record projectedControllerState := mkProjected {
  autonomousTurnsUsed : Z;
  consecutiveNoProgress : Z;
  fingerprint : string;
  ready : bool }.

Record AfterTurnInput := mkAfterTurnInput {
  i_ConversationID : string;
  i_TurnStatus : string;
  i_RequestTime : Z;
  i_Usage : option Usage.Aggregator;
  i_TurnRunning : bool;
  i_QueuedUserTurns : Z;
  i_PendingElicitation : bool;
  i_PendingApproval : bool;
  i_PendingAsync : bool;
  i_UsageLimited : bool;
  i_ConsecutiveNoProgress : Z;
  i_AutonomousTurnsUsed : Z;
  i_Continuation : option ContinuationHint;
  i_ProgressFingerprint : string }.

Definition inUsageTotals (agg : option Usage.Aggregator) : Z * Z * Z * Z :=
  match agg with
  | None => (0, 0, 0, 0)
  | Some a => Usage.Totals a
  end.

Definition defaultContinuationHint (goal : option Goal) : option ContinuationHint :=
  match goal with
  | None => None
  | Some g =>
      let objective := TrimSpace (Objective g) in
      if bool_decide (objective = "") then None
      else Some (mkHint "continue active goal" ("Continue goal: " +:+ objective)
                   ("Continue working toward the active goal." +:+ nl +:+ "Goal: " +:+ objective +:+ nl
                      +:+ "Use the existing conversation context and take the next concrete step."))
  end.

Definition projectControllerState (goal : option Goal) (continuation : option ContinuationHint)
    (progressFingerprint : string) : projectedControllerState :=
  match goal, continuation with
  | Some g, Some h =>
      if negb (Autonomous (Some g)) then mkProjected 0 0 "" false
      else
        let fp := TrimSpace progressFingerprint in
        let fp := if bool_decide (fp = "") then ContinuationFingerprint (Some h) else fp in
        let consecutive :=
          if bool_decide (LastContinuationFingerprint g <> "")
             && bool_decide (LastContinuationFingerprint g = fp)
          then wrap64 (ConsecutiveNoProgress g + 1) else 0 in
        mkProjected (wrap64 (AutonomousTurnsUsed g + 1)) consecutive fp true
  | _, _ => mkProjected 0 0 "" false
  end.

Definition projectedOrFallback (hasProjected : bool) (projected fallback : Z) : Z :=
  if hasProjected then projected else fallback.

(** [int64(now.Sub(requestTime).Seconds())] clamped at 0; whole seconds (the
    float64 rounding of durations beyond 2^22 seconds is not modelled). *)
Definition elapsed_seconds (now requestTime : Z) : Z :=
  if time_is_zero requestTime then 0
  else let e := Z.quot (time_sub now requestTime) Second in if e <? 0 then 0 else e.

Section Runtime.
Context {W E : Type} `{GoalStore W E}.

Record Runtime := mkRuntime {
  store_present : bool;
  rt_now : Z;
  onDeactivate : option (string -> string -> W -> W) }.

Definition succeeded (i : AfterTurnInput) : bool :=
  EqualFold (TrimSpace (i_TurnStatus i)) "succeeded".

Definition token_delta (i : AfterTurnInput) : Z :=
  let '(p, c, e, _) := inUsageTotals (i_Usage i) in wrap64 (wrap64 (p + c) + e).

Definition deactivate (r : Runtime) (conv id : string) (w : W) : W :=
  match onDeactivate r with Some f => f conv id w | None => w end.

(** Usage accounting before the policy: [Ok g] continues with goal [g]. *)
Definition account_usage (r : Runtime) (conv : string) (i : AfterTurnInput) (g : Goal) (w : W)
    : W * result (Action * option Goal * option E) Goal :=
  if succeeded i then
    if (0 <? token_delta i) || negb (time_is_zero (i_RequestTime i)) then
      let '(w, err) := store_RecordUsage (ID g) (wrap64 (TokensUsed g + token_delta i))
                         (wrap64 (TimeUsedSeconds g + elapsed_seconds (rt_now r) (i_RequestTime i))) w in
      match err with
      | Some e => (w, Err (mkAction ActionUnset "" "" "" None 0, Some g, Some e))
      | None =>
          let '(w, (g', err)) := store_Current conv w in
          match err with
          | Some e => (w, Err (mkAction ActionUnset "" "" "" None 0, None, Some e))
          | None => match g' with
                    | None => (w, Err (no_action "goal missing after usage update", None, None))
                    | Some g' => (w, Ok g')
                    end
          end
      end
    else (w, Ok g)
  else (w, Ok g).

Definition continuation_for (i : AfterTurnInput) (g : Goal) : option ContinuationHint :=
  match i_Continuation i with
  | Some h => Some h
  | None => if succeeded i && Autonomous (Some g) then defaultContinuationHint (Some g) else None
  end.

Definition snapshot_for (i : AfterTurnInput) (g : Goal) : Snapshot :=
  let continuation := continuation_for i g in
  let p := projectControllerState (Some g) continuation (TrimSpace (i_ProgressFingerprint i)) in
  mkSnapshot (Some g) (i_TurnRunning i) (i_QueuedUserTurns i) (i_PendingElicitation i)
    (i_PendingApproval i) (i_PendingAsync i) (i_UsageLimited i)
    (projectedOrFallback (ready p) (consecutiveNoProgress p) (i_ConsecutiveNoProgress i))
    (projectedOrFallback (ready p) (autonomousTurnsUsed p) (i_AutonomousTurnsUsed i))
    continuation.

(** [if cond { UpdateControllerState ... }]. *)
Definition save_projected (cond : bool) (g : Goal) (p : projectedControllerState) (w : W)
    : W * option E :=
  if cond then store_UpdateControllerState (ID g) (autonomousTurnsUsed p) (consecutiveNoProgress p)
                 (fingerprint p) w
  else (w, None).

(** The effects of a decision. *)
Definition apply_action (r : Runtime) (conv : string) (g : Goal) (p : projectedControllerState)
    (a : Action) (w : W) : W * (Action * option Goal * option E) :=
  let reload w := let '(w, (g', _)) := store_Current conv w in (w, (a, g', None)) in
  match Kind a with
  | ActionPauseGoal =>
      let '(w, err) := save_projected (ready p) g p w in
      match err with
      | Some e => (w, (a, Some g, Some e))
      | None =>
          let '(w, err) := store_Pause (ID g) (a_PauseReason a) w in
          match err with
          | Some e => (w, (a, Some g, Some e))
          | None => reload (deactivate r conv (ID g) w)
          end
      end
  | ActionBlockGoal | ActionCompleteGoal | ActionBudgetLimited | ActionUsageLimited =>
      let keep := bool_decide (Kind a = ActionBlockGoal) || bool_decide (Kind a = ActionCompleteGoal) in
      let '(w, err) := save_projected (ready p && keep) g p w in
      match err with
      | Some e => (w, (a, Some g, Some e))
      | None =>
          let '(w, err) := store_Transition (ID g) (a_Status a) (a_Reason a) w in
          match err with
          | Some e => (w, (a, Some g, Some e))
          | None => reload (deactivate r conv (ID g) w)
          end
      end
  | ActionQueueTurn | ActionScheduleWakeup =>
      if ready p then
        let '(w, err) := save_projected true g p w in
        match err with
        | Some e => (w, (a, Some g, Some e))
        | None => reload w
        end
      else (w, (a, Some g, None))
  | ActionUnset | ActionNone => (w, (a, Some g, None))
  end.

Definition AfterTurn (r : option Runtime) (i : option AfterTurnInput) (w : W)
    : W * (Action * option Goal * option E) :=
  match r, i with
  | Some r, Some i =>
      if negb (store_present r) then (w, (no_action "goal runtime not configured", None, None))
      else
        let conv := TrimSpace (i_ConversationID i) in
        if bool_decide (conv = "") then (w, (no_action "missing conversation id", None, None))
        else
          let '(w, (g, err)) := store_Current conv w in
          match err, g with
          | Some _, _ | None, None => (w, (no_action "no goal", g, err))
          | None, Some g =>
              let '(w, res) := account_usage r conv i g w in
              match res with
              | Err out => (w, out)
              | Ok g =>
                  let p := projectControllerState (Some g) (continuation_for i g)
                             (TrimSpace (i_ProgressFingerprint i)) in
                  apply_action r conv g p (Evaluate (Some (snapshot_for i g))) w
              end
          end
  | _, _ => (w, (no_action "goal runtime not configured", None, None))
  end.
End Runtime.
Arguments Runtime W : clear implicits.
Arguments mkRuntime {W}.
Arguments store_present {W}.
Arguments rt_now {W}.
Arguments onDeactivate {W}.
Arguments AfterTurn : simpl never.

(** ** Laws of a goal store that does not fail

    [view c w] is the active goal of conversation [c] in world [w]. *)
Definition set_usage (tokens seconds : Z) (g : Goal) : Goal :=
  mkGoal (ID g) (ConversationID g) (Objective g) (Status g) (StatusReason g) (PauseReason g)
    (Controller g) (TokenBudget g) tokens seconds (AutonomousTurnsUsed g)
    (ConsecutiveNoProgress g) (LastContinuationFingerprint g) (CreatedAt g) (UpdatedAt g).
Definition set_status (status reason : string) (g : Goal) : Goal :=
  mkGoal (ID g) (ConversationID g) (Objective g) status
    (if bool_decide (reason = "") then StatusReason g else reason) (PauseReason g)
    (Controller g) (TokenBudget g) (TokensUsed g) (TimeUsedSeconds g) (AutonomousTurnsUsed g)
    (ConsecutiveNoProgress g) (LastContinuationFingerprint g) (CreatedAt g) (UpdatedAt g).
Definition set_paused (reason : string) (g : Goal) : Goal :=
  mkGoal (ID g) (ConversationID g) (Objective g) StatusPaused (StatusReason g)
    (if bool_decide (reason = "") then PauseReason g else reason)
    (Controller g) (TokenBudget g) (TokensUsed g) (TimeUsedSeconds g) (AutonomousTurnsUsed g)
    (ConsecutiveNoProgress g) (LastContinuationFingerprint g) (CreatedAt g) (UpdatedAt g).
Definition set_controller_state (turns noprogress : Z) (fp : string) (g : Goal) : Goal :=
  mkGoal (ID g) (ConversationID g) (Objective g) (Status g) (StatusReason g) (PauseReason g)
    (Controller g) (TokenBudget g) (TokensUsed g) (TimeUsedSeconds g) turns noprogress fp
    (CreatedAt g) (UpdatedAt g).

(** Every patch also stamps the row: [Lifecycle.Init] of
    [internal/datly/goal/write/lifecycle.go] sets [UpdatedAt] when the caller
    leaves it out, as the methods of the store do. *)
Definition touch (at_ : option Z) (g : Goal) : Goal :=
  mkGoal (ID g) (ConversationID g) (Objective g) (Status g) (StatusReason g) (PauseReason g)
    (Controller g) (TokenBudget g) (TokensUsed g) (TimeUsedSeconds g) (AutonomousTurnsUsed g)
    (ConsecutiveNoProgress g) (LastContinuationFingerprint g) (CreatedAt g) at_.

(** A patch of the goal of [c] succeeds, changes the given fields, stamps the
    row and keeps every other field ([store_integration_test.go:54-85]). *)
Definition patches {W E} (view : string -> W -> option Goal) (call : W -> W * option E)
    (f : Goal -> Goal) (c : string) (g : Goal) (w : W) : Prop :=
  exists w' now, call w = (w', None) /\ view c w' = Some (touch (Some now) (f g)).

(** [view c w = Some g]: the row of [c] decodes to [g].  Only rows that exist
    are patched (the writer refuses an insert without a conversation), and only
    with a status the reader can decode. *)
Class GoalStoreLaws (W E : Type) `{GoalStore W E} (view : string -> W -> option Goal) := {
  law_Current c w g : view c w = Some g -> store_Current c w = (w, (Some g, None));
  law_RecordUsage c w g t s : view c w = Some g ->
    patches view (store_RecordUsage (ID g) t s) (set_usage t s) c g w;
  law_Transition c w g st r : view c w = Some g -> ParseStatus st = Ok st ->
    patches view (store_Transition (ID g) st r) (set_status st r) c g w;
  law_Pause c w g r : view c w = Some g ->
    patches view (store_Pause (ID g) r) (set_paused r) c g w;
  law_UpdateControllerState c w g a n f : view c w = Some g ->
    patches view (store_UpdateControllerState (ID g) a n f) (set_controller_state a n f) c g w }.

(** An in-memory store with a clock, one goal per conversation. *)
Module MemStore.
Record world := mkWorld { clock : Z; rows : gmap string Goal }.

Definition on_id (id : string) (f : Goal -> Goal) (g : Goal) : Goal :=
  if decide (ID g = id) then f g else g.

(** A sparse update of the row whose id is [id], stamped with the clock. *)
Definition update (id : string) (f : Goal -> Goal) (w : world) : world * option unit :=
  (mkWorld (clock w + 1) (on_id id (fun g => touch (Some (clock w)) (f g)) <$> rows w), None).

#[global] Instance store : GoalStore world unit := {|
  store_Current c w := (w, (rows w !! c, None));
  store_RecordUsage id t s w := update id (set_usage t s) w;
  store_Transition id st r w := update id (set_status st r) w;
  store_Pause id r w := update id (set_paused r) w;
  store_UpdateControllerState id a n f w := update id (set_controller_state a n f) w |}.

Definition view (c : string) (w : world) : option Goal := rows w !! c.

Lemma update_patches f c g w : view c w = Some g -> patches view (update (ID g) f) f c g w.
Proof.
  intros Hv. exists (update (ID g) f w).1, (clock w). split; [done|].
  unfold view in *. simpl. rewrite lookup_fmap, Hv. simpl. unfold on_id. by rewrite decide_True.
Qed.

#[global] Instance laws : GoalStoreLaws world unit view.
Proof. split; intros; simpl; [by f_equal; f_equal|by apply update_patches..]. Qed.
End MemStore.

(** ** Lemmas on the policy *)
Definition continues (k : ActionKind) : bool :=
  bool_decide (k = ActionQueueTurn) || bool_decide (k = ActionScheduleWakeup).

(** The conditions under which the policy lets a goal continue by itself. *)
Definition may_continue (s : Snapshot) : Prop :=
  exists g spec h,
    s_Goal s = Some g /\ Status g = StatusActive
    /\ Controller g = Some spec /\ ContinueMode spec = ContinueModeIdleOnly
    /\ Continuation s = Some h /\ OnTurnFinished spec <> TurnPolicyWait
    /\ (forall b, TokenBudget g = Some b -> TokensUsed g < b)
    /\ UsageLimited s = false /\ TurnRunning s = false /\ QueuedUserTurns s <= 0
    /\ PendingElicitation s = false /\ PendingApproval s = false /\ PendingAsync s = false
    /\ (forall m, MaxConsecutiveNoProgress spec = Some m -> s_ConsecutiveNoProgress s < m)
    /\ (forall m, MaxAutonomousTurns spec = Some m -> s_AutonomousTurnsUsed s < m).

Lemma limit_reached_false limit used :
  limit_reached limit used = false <-> (forall m, limit = Some m -> used < m).
Proof.
  unfold limit_reached. destruct limit as [m|]; [|naive_solver].
  rewrite Z.leb_gt. naive_solver.
Qed.

Lemma BudgetExceeded_false g :
  BudgetExceeded (Some g) = false <-> (forall b, TokenBudget g = Some b -> TokensUsed g < b).
Proof.
  unfold BudgetExceeded. destruct (TokenBudget g) as [b|]; [|naive_solver].
  rewrite Z.leb_gt. naive_solver.
Qed.

Arguments BudgetExceeded : simpl never.
Arguments projectControllerState : simpl never.
Arguments ContinuationFingerprint : simpl never.
Arguments elapsed_seconds : simpl never.
Arguments token_delta : simpl never.
Arguments Evaluate : simpl never.
Arguments limit_reached : simpl never.

(** Case analysis of [Evaluate] on its guards, in order. *)
Ltac eval_cases :=
  repeat first
    [ progress simplify_eq/=
    | match goal with
      | H : context [if ?b then _ else _] |- _ => destruct b eqn:?
      | H : context [match ?x with Some _ => _ | None => _ end] |- _ => destruct x eqn:?
      | |- context [if ?b then _ else _] => destruct b eqn:?
      | |- context [match ?x with Some _ => _ | None => _ end] => destruct x eqn:?
      end ].

(** [H] replaced by what it means through an equivalence whose right-hand side
    is itself quantified. *)
Ltac forward_iff L H :=
  let P := fresh in
  first [pose proof (proj1 (L _ _) H) as P | pose proof (proj1 (L _) H) as P]; clear H; rename P into H.

(** Boolean guards as propositions. *)
Ltac bool_facts :=
  repeat match goal with
    | H : negb _ = true |- _ => apply negb_true_iff in H
    | H : negb _ = false |- _ => apply negb_false_iff in H
    | H : IsActive _ = _ |- _ => unfold IsActive in H
    | H : bool_decide _ = true |- _ => apply bool_decide_eq_true in H
    | H : bool_decide _ = false |- _ => apply bool_decide_eq_false in H
    | H : (_ <? _) = true |- _ => apply Z.ltb_lt in H
    | H : (_ <? _) = false |- _ => apply Z.ltb_ge in H
    | H : limit_reached _ _ = false |- _ => forward_iff (limit_reached_false) H
    | H : BudgetExceeded (Some _) = false |- _ => forward_iff (BudgetExceeded_false) H
    | H : (_ || _) = true |- _ => apply orb_true_iff in H
    | H : (_ && _) = true |- _ => apply andb_true_iff in H; destruct H
    end.

Lemma Evaluate_continues_sound s : continues (Kind (Evaluate (Some s))) = true -> may_continue s.
Proof.
  unfold Evaluate. intros H. destruct (s_Goal s) as [g|] eqn:Hg; [|done].
  destruct (Autonomous (Some g)) eqn:Ha; simpl negb in H;
    [|eval_cases; simpl in H; discriminate].
  simpl in Ha. destruct (Controller g) as [spec|] eqn:Hc; [|done].
  eval_cases; simpl in H; try discriminate; bool_facts;
    (eexists g, spec, _; repeat split; eauto; try lia).
Qed.

Lemma Evaluate_continues_complete s : may_continue s -> continues (Kind (Evaluate (Some s))) = true.
Proof.
  intros (g & spec & h & Hg & Hst & Hc & Hm & Hh & Hw & Hb & Hu & Ht & Hq & He & Hp & Hs & Hn & Hx).
  unfold Evaluate. rewrite Hg. unfold IsActive. rewrite bool_decide_true by done.
  apply BudgetExceeded_false in Hb. rewrite Hb. simpl negb. cbv iota.
  rewrite Hu, Ht. replace (0 <? QueuedUserTurns s) with false by (symmetry; apply Z.ltb_ge; lia).
  rewrite He, Hp, Hs. simpl. rewrite Hc, bool_decide_true by done. simpl.
  apply limit_reached_false in Hn, Hx. rewrite Hn, Hx, Hh, bool_decide_false by done.
  destruct (WakeDelaySeconds spec) as [d|]; [|done]. by destruct (0 <? d).
Qed.

(** ** Specification of one turn on the goal itself *)
Section TurnSpec.
Context {W : Type}.
Implicit Types (r : Runtime W) (i : AfterTurnInput) (g : Goal).

(** The goal after usage accounting. *)
Definition accounted r i g : Goal :=
  if succeeded i && ((0 <? token_delta i) || negb (time_is_zero (i_RequestTime i)))
  then set_usage (wrap64 (TokensUsed g + token_delta i))
         (wrap64 (TimeUsedSeconds g + elapsed_seconds (rt_now r) (i_RequestTime i))) g
  else g.

Definition projection_of i g : projectedControllerState :=
  projectControllerState (Some g) (continuation_for i g) (TrimSpace (i_ProgressFingerprint i)).

Definition decision i g : Action := Evaluate (Some (snapshot_for i g)).

Definition saved (p : projectedControllerState) g : Goal :=
  if ready p then set_controller_state (autonomousTurnsUsed p) (consecutiveNoProgress p) (fingerprint p) g
  else g.

(** The goal after the decision took effect. *)
Definition settled i g : Goal :=
  let a := decision i g in
  let p := projection_of i g in
  match Kind a with
  | ActionPauseGoal => set_paused (a_PauseReason a) (saved p g)
  | ActionBlockGoal | ActionCompleteGoal => set_status (a_Status a) (a_Reason a) (saved p g)
  | ActionBudgetLimited | ActionUsageLimited => set_status (a_Status a) (a_Reason a) g
  | ActionQueueTurn | ActionScheduleWakeup => saved p g
  | ActionUnset | ActionNone => g
  end.
End TurnSpec.

(** ** Goals that differ in the time of their last change *)
Section Touched.
Context {W : Type}.
Implicit Types (r : Runtime W) (i : AfterTurnInput) (g : Goal).

Definition same_goal g g' : Prop := exists now, g' = touch now g.

#[export] Instance same_goal_equiv : Equivalence same_goal.
Proof.
  split.
  - intros g. exists (UpdatedAt g). by destruct g.
  - intros g _ [now ->]. exists (UpdatedAt g). by destruct g.
  - intros g _ _ [now ->] [now' ->]. by exists now'.
Qed.

Lemma same_goal_touch now g : same_goal (touch now g) g.
Proof. symmetry. by exists now. Qed.

Lemma decision_touch i now g : decision i (touch now g) = decision i g.
Proof. reflexivity. Qed.

#[export] Instance decision_proper i : Proper (same_goal ==> eq) (decision i).
Proof. intros g _ [now ->]. symmetry. apply decision_touch. Qed.

#[export] Instance projection_of_proper i : Proper (same_goal ==> eq) (projection_of i).
Proof. by intros g _ [now ->]. Qed.

#[export] Instance saved_proper p : Proper (same_goal ==> same_goal) (saved p).
Proof. intros g _ [now ->]. exists now. unfold saved. by destruct (ready p). Qed.

#[export] Instance set_controller_state_proper a n f :
  Proper (same_goal ==> same_goal) (set_controller_state a n f).
Proof. intros g _ [now ->]. by exists now. Qed.

#[export] Instance set_status_proper st rs : Proper (same_goal ==> same_goal) (set_status st rs).
Proof. intros g _ [now ->]. by exists now. Qed.

#[export] Instance set_paused_proper rs : Proper (same_goal ==> same_goal) (set_paused rs).
Proof. intros g _ [now ->]. by exists now. Qed.

#[export] Instance settled_proper i : Proper (same_goal ==> same_goal) (settled i).
Proof.
  intros g _ [now ->]. exists now. unfold settled, saved. rewrite decision_touch.
  change (projection_of i (touch now g)) with (projection_of i g).
  by destruct (Kind (decision i g)), (ready (projection_of i g)).
Qed.
End Touched.

Lemma decision_status i g :
  match Kind (decision i g) with
  | ActionBlockGoal | ActionBudgetLimited | ActionUsageLimited | ActionCompleteGoal =>
      ParseStatus (a_Status (decision i g)) = Ok (a_Status (decision i g))
  | _ => True
  end.
Proof.
  unfold decision, Evaluate. repeat case_match; simpl in *; try done; try discriminate; reflexivity.
Qed.

(** ** The runtime against the laws of its store *)
Section RuntimeTheorems.
Context {W E : Type} `{L : GoalStoreLaws W E view}.
Context (r : Runtime W) (Hpresent : store_present r = true).
(** The deactivation hook does not touch the goal rows. *)
Context (Hhook : forall f conv id w c, onDeactivate r = Some f -> view c (f conv id w) = view c w).

(** The store holds for [conv] a goal that is [g] up to its time of change. *)
Definition holds (conv : string) (g : Goal) (w : W) : Prop :=
  exists g', view conv w = Some g' /\ same_goal g g'.

Lemma view_deactivate conv id w c : view c (deactivate r conv id w) = view c w.
Proof. unfold deactivate. destruct (onDeactivate r) as [f|] eqn:E1; [by apply Hhook|done]. Qed.

(** One patch of a goal known up to its time of change. *)
Lemma patch_holds conv g g0 w call f :
  same_goal g g0 -> Proper (same_goal ==> same_goal) f ->
  patches view call f conv g0 w ->
  exists w', call w = (w', None (A := E)) /\ holds conv (f g) w'.
Proof.
  intros Hg Hf (w' & now & Hw & Hv). exists w'. split; [done|]. eexists. split; [done|].
  rewrite same_goal_touch. by apply Hf.
Qed.

Lemma save_projected_law cond g p w conv :
  view conv w = Some g ->
  exists w', save_projected cond g p w = (w', None)
    /\ holds conv (if cond then set_controller_state (autonomousTurnsUsed p)
                              (consecutiveNoProgress p) (fingerprint p) g else g) w'.
Proof.
  intros Hv. unfold save_projected. destruct cond; [|by exists w; split; [|exists g]].
  eapply patch_holds; [reflexivity|apply _|]. by apply law_UpdateControllerState.
Qed.

Lemma account_usage_law conv i g w :
  view conv w = Some g ->
  exists w' g', account_usage r conv i g w = (w', Ok g')
          /\ view conv w' = Some g' /\ same_goal (accounted r i g) g'.
Proof.
  intros Hv. unfold account_usage, accounted.
  destruct (succeeded i); simpl; [|by exists w, g].
  destruct ((0 <? token_delta i) || negb (time_is_zero (i_RequestTime i))); [|by exists w, g].
  destruct (law_RecordUsage conv w g (wrap64 (TokensUsed g + token_delta i))
    (wrap64 (TimeUsedSeconds g + elapsed_seconds (rt_now r) (i_RequestTime i))) Hv)
    as (w' & now & Hw & Hv').
  rewrite Hw, (law_Current _ _ _ Hv'). exists w'. eexists. split; [done|]. split; [done|]. by exists (Some now).
Qed.

(** A second patch of the goal a first one (or none) left. *)
Lemma then_patch conv g f w call h :
  (forall g0, same_goal (f g) g0 -> view conv w = Some g0 -> ID g0 = ID g ->
     patches view call h conv g0 w) ->
  Proper (same_goal ==> same_goal) h ->
  ID (f g) = ID g -> holds conv (f g) w ->
  exists w', call w = (w', None (A := E)) /\ holds conv (h (f g)) w'.
Proof.
  intros Hp Hh Hid (g0 & Hv & Hg). eapply patch_holds; [done|done|]. apply Hp; [done|done|].
  destruct Hg as [now ->]. exact Hid.
Qed.

Lemma reload_law conv g w (a : Action) :
  holds conv g w ->
  exists g', (let '(w, (g', _)) := store_Current (E := E) conv w in (w, (a, g', None (A := E))))
             = (w, (a, Some g', None)) /\ view conv w = Some g' /\ same_goal g g'.
Proof. intros (g' & Hv & Hg). exists g'. by rewrite (law_Current _ _ _ Hv). Qed.

Lemma holds_deactivate conv id g w : holds conv g w -> holds conv g (deactivate r conv id w).
Proof. intros (g' & Hv & Hg). exists g'. by rewrite view_deactivate. Qed.

Lemma transition_law (cond : bool) conv g p st rs w :
  view conv w = Some g -> ParseStatus st = Ok st ->
  exists w1 w2, save_projected cond g p w = (w1, None)
    /\ store_Transition (ID g) st rs w1 = (w2, None)
    /\ holds conv (set_status st rs (if cond then set_controller_state
          (autonomousTurnsUsed p) (consecutiveNoProgress p) (fingerprint p) g else g)) w2.
Proof.
  intros Hv Hst. destruct (save_projected_law cond g p w conv Hv) as (w1 & H1 & Hv1).
  destruct (then_patch conv g (fun g => if cond then set_controller_state (autonomousTurnsUsed p)
     (consecutiveNoProgress p) (fingerprint p) g else g) w1 (store_Transition (ID g) st rs)
     (set_status st rs)) as (w2 & H2 & Hv2); [|apply _|by destruct cond|done|by exists w1, w2].
  intros g0 _ Hv0 <-. by apply law_Transition.
Qed.

(** The decision that changes the status of the goal. *)
Ltac transition_case i cond Hv g p a w conv :=
  destruct (transition_law cond conv g p (a_Status a) (a_Reason a) w Hv) as (w1 & w2 & H1 & H2 & Hv2);
    [let Hs := fresh in pose proof (decision_status i g) as Hs; fold a in Hs; match goal with Hk : Kind a = _ |- _ => rewrite Hk in Hs end; exact Hs|];
  rewrite ?andb_true_r, ?andb_false_r, H1, H2;
  destruct (reload_law _ _ _ a (holds_deactivate conv (ID g) _ _ Hv2)) as (g' & Hr & Hv3);
  rewrite Hr; by eexists _, g'.

Lemma apply_action_law conv i g w :
  view conv w = Some g ->
  exists w' g', apply_action r conv g (projection_of i g) (decision i g) w
               = (w', (decision i g, Some g', None))
          /\ view conv w' = Some g' /\ same_goal (settled i g) g'.
Proof.
  intros Hv. unfold apply_action, settled. set (p := projection_of i g). set (a := decision i g).
  destruct (Kind a) eqn:Hk; try by exists w, g.
  - unfold saved. destruct (ready p) eqn:Hr; [|by exists w, g].
    destruct (save_projected_law true g p w conv Hv) as (w1 & -> & Hv1).
    destruct (reload_law _ _ _ a Hv1) as (g' & -> & Hg2). by exists w1, g'.
  - destruct (save_projected_law (ready p) g p w conv Hv) as (w1 & -> & Hv1).
    fold (saved p g) in Hv1.
    destruct (then_patch conv g (saved p) w1 (store_Pause (ID g) (a_PauseReason a))
      (set_paused (a_PauseReason a))) as (w2 & -> & Hv2);
      [intros g0 _ Hv0 <-; by apply law_Pause|apply _|unfold saved; by destruct (ready p)|done|].
    destruct (reload_law _ _ _ a (holds_deactivate conv (ID g) _ _ Hv2)) as (g' & -> & Hg2).
    by eexists _, g'.
  - transition_case i (ready p) Hv g p a w conv.
  - transition_case i (ready p) Hv g p a w conv.
  - transition_case i false Hv g p a w conv.
  - transition_case i false Hv g p a w conv.
  - unfold saved. destruct (ready p) eqn:Hr; [|by exists w, g].
    destruct (save_projected_law true g p w conv Hv) as (w1 & -> & Hv1).
    destruct (reload_law _ _ _ a Hv1) as (g' & -> & Hg2). by exists w1, g'.
Qed.

(** One turn, as a fact about the goal the store holds. *)
Lemma AfterTurn_step i w g :
  TrimSpace (i_ConversationID i) <> "" ->
  view (TrimSpace (i_ConversationID i)) w = Some g ->
  exists w' g', AfterTurn (Some r) (Some i) w
                = (w', (decision i (accounted r i g), Some g', None))
    /\ view (TrimSpace (i_ConversationID i)) w' = Some g'
    /\ same_goal (settled i (accounted r i g)) g'.
Proof.
  intros Hc Hv. unfold AfterTurn. rewrite Hpresent. simpl negb. cbv iota.
  rewrite bool_decide_false by done. rewrite (law_Current _ _ _ Hv).
  destruct (account_usage_law _ i g w Hv) as (w1 & g1 & -> & Hv1 & Hg1).
  destruct (apply_action_law _ i g1 w1 Hv1) as (w2 & g2 & Ha & Hv2 & Hg2).
  exists w2, g2. split; [|split; [done|]].
  - rewrite Hg1. exact Ha.
  - by rewrite Hg1.
Qed.

(** C38: [AfterTurn] implements the turn specification: with a configured
    runtime whose deactivation hook leaves the goals alone, a store that does not
    fail and an existing goal, it accounts the
    usage, evaluates the policy on the accounted goal, persists the decision,
    and returns the decision with the goal the store now holds.  That goal is
    the specified one in every field but [UpdatedAt], which each write stamps. *)
Theorem AfterTurn_refines i w g :
  TrimSpace (i_ConversationID i) <> "" ->
  view (TrimSpace (i_ConversationID i)) w = Some g ->
  let g1 := accounted r i g in
  exists w' now,
    let g2 := touch now (settled i g1) in
    AfterTurn (Some r) (Some i) w = (w', (decision i g1, Some g2, None))
    /\ view (TrimSpace (i_ConversationID i)) w' = Some g2.
Proof.
  intros Hc Hv g1. destruct (AfterTurn_step i w g Hc Hv) as (w' & g' & Ha & Hv' & [now ->]).
  by exists w', now.
Qed.

(** A sequence of finished turns of one conversation, with the decisions. *)
Fixpoint run_turns (ins : list AfterTurnInput) (w : W) : W * list ActionKind :=
  match ins with
  | [] => (w, [])
  | i :: ins' =>
      let '(w1, (a, _, _)) := AfterTurn (Some r) (Some i) w in
      let '(w2, ks) := run_turns ins' w1 in
      (w2, Kind a :: ks)
  end.

Definition count_continues (ks : list ActionKind) : nat := length (filter (fun k => continues k = true) ks).

Lemma count_continues_cons k ks :
  count_continues (k :: ks) = ((if continues k then 1 else 0) + count_continues ks)%nat.
Proof. unfold count_continues. rewrite filter_cons. by destruct (continues k). Qed.

(** What the bound below depends on: the turns the goal may still take. *)
Definition turns_left (m : Z) (g : Goal) : Z :=
  if IsActive (Status g) then Z.max 0 (m - 1 - AutonomousTurnsUsed g) else 0.

Definition budgeted (m : Z) (g : Goal) : Prop :=
  (exists spec, Controller g = Some spec /\ MaxAutonomousTurns spec = Some m)
  /\ (IsActive (Status g) = true -> 0 <= AutonomousTurnsUsed g < max_int64).

#[local] Instance turns_left_proper m : Proper (same_goal ==> eq) (turns_left m).
Proof. by intros g _ [now ->]. Qed.

#[local] Instance budgeted_proper m : Proper (same_goal ==> iff) (budgeted m).
Proof. by intros g _ [now ->]. Qed.

Lemma projection_ready i g h :
  continuation_for i g = Some h -> Autonomous (Some g) = true -> ready (projection_of i g) = true
    /\ autonomousTurnsUsed (projection_of i g) = wrap64 (AutonomousTurnsUsed g + 1).
Proof.
  intros Hh Ha. unfold projection_of, projectControllerState. rewrite Hh, Ha. done.
Qed.

Lemma continuing_step m i g :
  in_int64 m -> budgeted m g -> continues (Kind (decision i g)) = true ->
  AutonomousTurnsUsed g + 1 < m /\ IsActive (Status g) = true
  /\ settled i g = saved (projection_of i g) g
  /\ ready (projection_of i g) = true
  /\ autonomousTurnsUsed (projection_of i g) = AutonomousTurnsUsed g + 1.
Proof.
  intros Hm [(spec & Hspec & Hmax) Hused] Hk.
  pose proof (Evaluate_continues_sound _ Hk) as (g' & spec' & h & Hg & Hst & Hc & Hmode & Hh & _ & _
    & _ & _ & _ & _ & _ & _ & _ & Hx).
  simpl in Hg, Hh. simplify_eq. specialize (Hx _ Hmax). simpl in Hx.
  destruct (projection_ready i g' h Hh) as [Hr Hn].
  { unfold Autonomous. rewrite Hspec. by apply bool_decide_eq_true. }
  fold (projection_of i g') in Hx. rewrite Hr in Hx. simpl in Hx. rewrite Hn in *.
  assert (Hact : IsActive (Status g') = true) by (unfold IsActive; by apply bool_decide_eq_true).
  specialize (Hused Hact). rewrite wrap64_id in * by (unfold in_int64, min_int64, max_int64 in *; lia).
  repeat split; try done.
  - unfold settled. unfold continues in Hk. bool_facts.
    destruct Hk as [Hk|Hk]; bool_facts; by rewrite Hk.
Qed.

Lemma accounted_fields i g :
  Status (accounted r i g) = Status g /\ Controller (accounted r i g) = Controller g
  /\ AutonomousTurnsUsed (accounted r i g) = AutonomousTurnsUsed g.
Proof. unfold accounted. by case_match. Qed.

Lemma settled_controller i g : Controller (settled i g) = Controller g.
Proof. unfold settled, saved. by repeat case_match. Qed.

(** A decision that does not continue the goal leaves it as it is or inactive. *)
Lemma settled_not_continuing i g :
  continues (Kind (decision i g)) = false ->
  settled i g = g \/ IsActive (Status (settled i g)) = false.
Proof.
  intros Hk. unfold settled. set (a := decision i g) in *.
  assert (Ha : Kind a = ActionNone \/ continues (Kind a) = true
               \/ (Kind a = ActionPauseGoal \/ a_Status a <> StatusActive)).
  { subst a. unfold decision, Evaluate, snapshot_for. simpl s_Goal. cbv iota.
    repeat case_match; simpl; try (by left); right; try (by left); right; (by left) || by right. }
  destruct (Kind a) eqn:Hka; try (by left); try done; right;
    destruct Ha as [Ha|[Ha|[Ha|Ha]]]; try done; unfold IsActive; simpl;
    by apply bool_decide_eq_false.
Qed.

Lemma turns_left_step m i g :
  in_int64 m -> budgeted m g ->
  let g' := settled i (accounted r i g) in
  budgeted m g'
  /\ turns_left m g' + (if continues (Kind (decision i (accounted r i g))) then 1 else 0)
     <= turns_left m g.
Proof.
  intros Hm [Hspec Hused] g'. destruct (accounted_fields i g) as (Hst & Hct & Hau).
  set (g1 := accounted r i g) in *.
  assert (Hb1 : budgeted m g1).
  { unfold budgeted. by rewrite Hst, Hct, Hau. }
  assert (Hspec' : exists spec, Controller g' = Some spec /\ MaxAutonomousTurns spec = Some m).
  { unfold g'. by rewrite settled_controller, Hct. }
  destruct (continues (Kind (decision i g1))) eqn:Hk.
  - destruct (continuing_step m i g1 Hm Hb1 Hk) as (Hlt & Hact & Hs & Hr & Hn).
    destruct Hb1 as [_ Hu1]. specialize (Hu1 Hact).
    unfold g'. rewrite Hs. unfold saved. rewrite Hr, Hn. simpl.
    split; [split; [|intros _; simpl; unfold in_int64 in *; lia]|].
    + simpl. by rewrite Hct.
    + unfold turns_left. simpl Status. simpl AutonomousTurnsUsed. rewrite <- Hst, Hact, <- Hau.
      cbv iota. lia.
  - split; [split; [done|]|].
    + intros Hact. destruct (settled_not_continuing i g1 Hk) as [He|He]; fold g' in He; [|congruence].
      rewrite He in *. by apply Hb1.
    + unfold turns_left. destruct (settled_not_continuing i g1 Hk) as [He|He]; fold g' in He.
      * rewrite He, Hst, Hau. lia.
      * rewrite He. destruct (IsActive (Status g)); lia.
Qed.

(** C40: the configured limit bounds autonomy: over any sequence of finished
    turns of a conversation, the runtime lets the goal continue (queues a turn
    or schedules a wake-up) at most [max - 1 - used] times, where [max] is
    [MaxAutonomousTurns] and [used] the turns already counted on the goal, as
    long as the store does not fail and nobody else writes the goal in between,
    the deactivation hook included; an inactive goal never
    continues. *)
Theorem autonomy_bounded m ins w w' ks conv g :
  in_int64 m -> conv <> "" ->
  Forall (fun i => TrimSpace (i_ConversationID i) = conv) ins ->
  view conv w = Some g -> budgeted m g ->
  run_turns ins w = (w', ks) ->
  Z.of_nat (count_continues ks) <= turns_left m g.
Proof.
  intros Hm Hc HF. revert w w' ks g. induction HF as [|i ins Hi HF IH]; intros w w' ks g Hv Hb; simpl.
  - intros [= <- <-]. change (Z.of_nat (count_continues [])) with 0. unfold turns_left. destruct (IsActive (Status g)); lia.
  - subst conv. destruct (AfterTurn_step i w g Hc Hv) as (w1 & g1 & -> & Hv1 & Hg1).
    destruct (run_turns ins w1) as [w2 ks'] eqn:Hr. intros [= <- <-].
    destruct (turns_left_step m i g Hm Hb) as [Hb' Hle]. rewrite Hg1 in Hb', Hle.
    specialize (IH w1 w2 ks' _ Hv1 Hb' Hr). rewrite count_continues_cons.
    destruct (continues (Kind (decision i (accounted r i g)))); lia.
Qed.
End RuntimeTheorems.

(** the policy continues a goal by itself (queues a turn or schedules a
    wake-up) exactly when the goal is active, within its token budget and usage
    limits, configured for idle continuation with a turn policy other than wait,
    below its no-progress and turn limits, the conversation is completely idle,
    and an explicit continuation signal is present. *)
Lemma Evaluate_continues_iff s : continues (Kind (Evaluate (Some s))) = true <-> may_continue s.
Proof. split; [apply Evaluate_continues_sound|apply Evaluate_continues_complete]. Qed.

(** every lifecycle decision of the policy carries a status the store
    accepts and that is not active, hence one after which the policy does
    nothing more; the system-owned limits win over any conversation activity. *)
Lemma Evaluate_transitions s :
  let a := Evaluate (Some s) in
  match Kind a with
  | ActionPauseGoal | ActionBlockGoal | ActionBudgetLimited | ActionUsageLimited =>
      ParseStatus (a_Status a) = Ok (a_Status a) /\ IsActive (a_Status a) = false
  | ActionCompleteGoal | ActionUnset => False
  | _ => a_Status a = ""
  end
  /\ (forall g, s_Goal s = Some g -> IsActive (Status g) = true -> BudgetExceeded (Some g) = true ->
       Kind a = ActionBudgetLimited).
Proof.
  intros a. split.
  - subst a. unfold Evaluate. eval_cases; simpl; try done; split; reflexivity.
  - intros g Hg Ha Hb. subst a. unfold Evaluate. by rewrite Hg, Ha, Hb.
Qed.

(** ** Usage totals *)
Module UsageFacts.
Import Usage.

Definition sum_by (f : Stat -> Z) (l : list Stat) : Z := foldr (fun st acc => acc + f st) 0 l.

Lemma wrap64_add_l a b : wrap64 (wrap64 a + b) = wrap64 (a + b).
Proof.
  unfold wrap64. f_equal.
  replace ((a + 2 ^ 63) mod 2 ^ 64 - 2 ^ 63 + b + 2 ^ 63) with ((a + 2 ^ 63) mod 2 ^ 64 + b) by lia.
  rewrite Z.add_mod_idemp_l by done. f_equal. lia.
Qed.

Lemma wrap64_add_r a b : wrap64 (a + wrap64 b) = wrap64 (a + b).
Proof. rewrite Z.add_comm, wrap64_add_l. f_equal. lia. Qed.

Definition sums (l : list Stat) : Z * Z * Z * Z :=
  (wrap64 (sum_by PromptTokens l), wrap64 (sum_by CompletionTokens l),
   wrap64 (sum_by EmbeddingTokens l), wrap64 (sum_by CachedTokens l)).

Lemma totals_of_sums l : totals_of l = sums l.
Proof.
  induction l as [|st l IH]; [done|].
  change (totals_of (st :: l)) with
    (let '(p, c, e, k) := totals_of l in
     (wrap64 (p + PromptTokens st), wrap64 (c + CompletionTokens st),
      wrap64 (e + EmbeddingTokens st), wrap64 (k + CachedTokens st))).
  rewrite IH. unfold sums. by rewrite !wrap64_add_l.
Qed.

Lemma sum_by_perm f l1 l2 : l1 ≡ₚ l2 -> sum_by f l1 = sum_by f l2.
Proof. induction 1; simpl; lia. Qed.

(** The stored sum of a field splits off the entry of one model. *)
Lemma sum_by_split f (a : Aggregator) model :
  f (mkStat 0 0 0 0) = 0 ->
  sum_by f (map_to_list a).*2 = sum_by f (map_to_list (delete model a)).*2 + f (ensure a model).
Proof.
  intros Hf. unfold ensure. destruct (a !! model) as [st|] eqn:E; simpl.
  - rewrite <- (insert_delete_id a model st E) at 1.
    rewrite (sum_by_perm f _ (st :: (map_to_list (delete model a)).*2)); [simpl; lia|].
    rewrite map_to_list_insert by apply lookup_delete_eq. done.
  - rewrite delete_id by done. lia.
Qed.

Lemma sum_by_insert f (a : Aggregator) model st :
  sum_by f (map_to_list (<[model := st]> a)).*2 = sum_by f (map_to_list (delete model a)).*2 + f st.
Proof.
  rewrite <- insert_delete_eq.
  rewrite (sum_by_perm f _ (st :: (map_to_list (delete model a)).*2)); [simpl; lia|].
  by rewrite map_to_list_insert by apply lookup_delete_eq.
Qed.
End UsageFacts.

(** recording usage for a model adds exactly the recorded figures to the
    totals over all models (modulo the 64 bit wrap-around), whatever the
    iteration order of the map. *)
Lemma Totals_Add (a : Usage.Aggregator) model p c e k :
  let '(p0, c0, e0, k0) := Usage.Totals a in
  Usage.Totals (Usage.Add a model p c e k)
  = (wrap64 (p0 + p), wrap64 (c0 + c), wrap64 (e0 + e), wrap64 (k0 + k)).
Proof.
  unfold Usage.Totals, Usage.Add. rewrite !UsageFacts.totals_of_sums. unfold UsageFacts.sums.
  rewrite !UsageFacts.sum_by_insert. simpl.
  rewrite !(UsageFacts.sum_by_split _ a model) by done.
  rewrite !UsageFacts.wrap64_add_l, !UsageFacts.wrap64_add_r.
  rewrite !pair_equal_spec. repeat split; f_equal; lia.
Qed.

(** ** Concrete instances *)
Module GoalExamples.
Definition spec3 := mkSpec ContinueModeIdleOnly TurnPolicyEvaluate AsyncPolicyEvaluate None (Some 3) None.
Definition g0 := mkGoal "g1" "c1" "ship it" StatusActive "" "" (Some spec3) None 0 0 0 0 "" 1 None.
Definition w0 : MemStore.world := MemStore.mkWorld 1000 {[ "c1" := g0 ]}.
Definition rt : Runtime MemStore.world := mkRuntime true 1000 None.
Definition turn := mkAfterTurnInput " c1 " "succeeded" 0 (Some {[ "m" := Usage.mkStat 5 2 0 0 ]})
                     false 0 false false false false 0 0 None "".

(** Two continuations, then the limit pauses the goal. *)
Example three_turns :
  (run_turns rt [turn; turn; turn; turn] w0).2 =
    [ActionQueueTurn; ActionQueueTurn; ActionPauseGoal; ActionNone].
Proof. vm_compute. reflexivity. Qed.
End GoalExamples.

Lemma AfterTurn_refines_witness :
  exists w' now, AfterTurn (Some GoalExamples.rt) (Some GoalExamples.turn) GoalExamples.w0
    = (w', (decision GoalExamples.turn (accounted GoalExamples.rt GoalExamples.turn GoalExamples.g0),
            Some (touch now (settled GoalExamples.turn
                   (accounted GoalExamples.rt GoalExamples.turn GoalExamples.g0))), None)).
Proof.
  destruct (AfterTurn_refines (view := MemStore.view) GoalExamples.rt eq_refl
    ltac:(intros; discriminate) GoalExamples.turn GoalExamples.w0 GoalExamples.g0)
    as (w' & now & H & _);
    [vm_compute; discriminate|vm_compute; reflexivity|].
  exists w', now. exact H.
Defined.

Lemma autonomy_bounded_witness :
  Z.of_nat (count_continues (run_turns GoalExamples.rt
    [GoalExamples.turn; GoalExamples.turn; GoalExamples.turn] GoalExamples.w0).2) <= 2.
Proof.
  apply (autonomy_bounded (view := MemStore.view) GoalExamples.rt eq_refl ltac:(intros; discriminate) 3
    [GoalExamples.turn; GoalExamples.turn; GoalExamples.turn] GoalExamples.w0
    (run_turns GoalExamples.rt [GoalExamples.turn; GoalExamples.turn; GoalExamples.turn] GoalExamples.w0).1
    _ "c1" GoalExamples.g0).
  - unfold in_int64, min_int64, max_int64. lia.
  - discriminate.
  - repeat constructor.
  - reflexivity.
  - split; [by exists GoalExamples.spec3|]. intros _. vm_compute. split; [discriminate|reflexivity].
  - apply surjective_pairing.
Defined.
