(* ===== verification/GoJson.v ===== *)
(** * The parts of [encoding/json] the sources use on raw text

    UTF-8 runes, the quoting of strings by [json.Marshal] (with its default HTML
    escaping) and the compaction of a [json.RawMessage], which validates it.
    The nesting limit of the standard decoder (10000) is not modelled. *)
From stdpp Require Import base strings list numbers.
From Stdlib Require Import ZArith Lia Ascii.
From S2P Require Import Prelude GoStrings Digest.

Open Scope nat_scope.

(** ** UTF-8 *)
Definition in_range (lo hi : nat) (c : ascii) : bool :=
  (lo <=? nat_of_ascii c) && (nat_of_ascii c <=? hi).
Definition cont_byte := in_range 128 191.

(** Number of bytes of the valid rune at the head ([utf8.DecodeRune]); [None]
    when the head is not a valid encoding. *)
Definition rune_len (l : list ascii) : option nat :=
  match l with
  | [] => None
  | c :: r =>
      if in_range 0 127 c then Some 1
      else match r with
      | [] => None
      | c1 :: r1 =>
          if in_range 194 223 c then if cont_byte c1 then Some 2 else None
          else match r1 with
          | [] => None
          | c2 :: r2 =>
              let ok3 :=
                if in_range 224 224 c then in_range 160 191 c1
                else if in_range 237 237 c then in_range 128 159 c1
                else in_range 225 239 c && cont_byte c1 in
              if in_range 224 239 c then if ok3 && cont_byte c2 then Some 3 else None
              else match r2 with
              | [] => None
              | c3 :: _ =>
                  let ok4 :=
                    if in_range 240 240 c then in_range 144 191 c1
                    else if in_range 244 244 c then in_range 128 143 c1
                    else in_range 241 243 c && cont_byte c1 in
                  if ok4 && cont_byte c2 && cont_byte c3 then Some 4 else None
              end
          end
      end
  end.

Fixpoint valid_utf8_n (n : nat) (l : list ascii) : bool :=
  match n, l with
  | _, [] => true
  | O, _ => false
  | S n', _ => match rune_len l with
               | Some k => valid_utf8_n n' (drop k l)
               | None => false
               end
  end.
Definition ValidString (s : string) : bool := valid_utf8_n (String.length s) (bytes s).

(** ** Quoting *)
Definition ch (n : nat) : ascii := ascii_of_nat n.
Definition hex2 (n : nat) : list ascii := [hex_digit (Z.of_nat (n / 16)); hex_digit (Z.of_nat (n mod 16))].
Definition u_escape (hi lo : nat) : list ascii := bytes "\u" ++ hex2 hi ++ hex2 lo.
Definition html_byte (c : ascii) : bool := bool_decide (c ∈ bytes "<>&").

(** The two line separators JavaScript does not accept in strings. *)
Definition line_sep (l : list ascii) : option nat :=
  match l with
  | a :: b :: c :: _ =>
      if in_range 226 226 a && in_range 128 128 b && in_range 168 169 c
      then Some (nat_of_ascii c - 128) else None
  | _ => None
  end.

Definition quote_byte (c : ascii) : list ascii :=
  let n := nat_of_ascii c in
  if (n =? 34) || (n =? 92) then [ch 92; c]
  else if n =? 8 then bytes "\b"
  else if n =? 12 then bytes "\f"
  else if n =? 10 then bytes "\n"
  else if n =? 13 then bytes "\r"
  else if n =? 9 then bytes "\t"
  else if (n <? 32) || html_byte c then u_escape 0 n
  else [c].

Fixpoint quote_n (n : nat) (l : list ascii) : list ascii :=
  match n, l with
  | O, _ | _, [] => []
  | S n', c :: r =>
      match rune_len l with
      | None => bytes "\ufffd" ++ quote_n n' r
      | Some 1 => quote_byte c ++ quote_n n' r
      | Some k =>
          match line_sep l with
          | Some lo => u_escape 32 lo
          | None => take k l
          end ++ quote_n n' (drop k l)
      end
  end.

Definition json_quote (s : string) : list ascii :=
  ch 34 :: quote_n (String.length s) (bytes s) ++ [ch 34].

(** ** Compaction of raw JSON text *)
Definition json_space (c : ascii) : bool := bool_decide (nat_of_ascii c ∈ [32; 9; 10; 13]).

Fixpoint skip_space (l : list ascii) : list ascii :=
  match l with
  | c :: r => if json_space c then skip_space r else l
  | [] => []
  end.

Definition hex_char (c : ascii) : bool := in_range 48 57 c || in_range 65 70 c || in_range 97 102 c.

(** One byte of output of [compact] with HTML escaping, at the head of the input. *)
Definition compact_byte (c : ascii) : list ascii := if html_byte c then u_escape 0 (nat_of_ascii c) else [c].

(** The rest of a string after its opening quote: (output, remaining input). *)
Fixpoint compact_string (n : nat) (l : list ascii) : option (list ascii * list ascii) :=
  match n, l with
  | O, _ | _, [] => None
  | S n', c :: r =>
      let push o k := match k with Some (out, rest) => Some (o ++ out, rest) | None => None end in
      let v := nat_of_ascii c in
      if v =? 34 then Some ([c], r)
      else if v <? 32 then None
      else if v =? 92 then
        match r with
        | e :: r1 =>
            if bool_decide (nat_of_ascii e ∈ [34; 92; 47; 98; 102; 110; 114; 116])
            then push [c; e] (compact_string n' r1)
            else if nat_of_ascii e =? 117 then
              match r1 with
              | h1 :: h2 :: h3 :: h4 :: r2 =>
                  if hex_char h1 && hex_char h2 && hex_char h3 && hex_char h4
                  then push [c; e; h1; h2; h3; h4] (compact_string n' r2) else None
              | _ => None
              end
            else None
        | [] => None
        end
      else match line_sep l with
           | Some lo => push (u_escape 32 lo) (compact_string n' (drop 2 r))
           | None => push (compact_byte c) (compact_string n' r)
           end
  end.

Fixpoint take_digits (l : list ascii) : list ascii * list ascii :=
  match l with
  | c :: r => if is_digit c then let '(d, rest) := take_digits r in (c :: d, rest) else ([], l)
  | [] => ([], [])
  end.

(** Optional minus sign, an integer part without leading zero, then optional
    fraction and exponent. *)
Definition scan_number (l : list ascii) : option (list ascii * list ascii) :=
  let '(sign, l) := match l with
                    | c :: r => if nat_of_ascii c =? 45 then ([c], r) else ([], l)
                    | [] => ([], l)
                    end in
  let '(ds, l) := take_digits l in
  let int_part :=
    match ds with
    | [] => None
    | d :: more => if nat_of_ascii d =? 48 then Some ([d], more ++ l) else Some (ds, l)
    end in
  match int_part with
  | None => None
  | Some (ip, l) =>
      let frac :=
        match l with
        | c :: r => if nat_of_ascii c =? 46
                    then match take_digits r with
                         | ([], _) => None
                         | (fs, r') => Some (c :: fs, r')
                         end
                    else Some ([], l)
        | [] => Some ([], l)
        end in
      match frac with
      | None => None
      | Some (fp, l) =>
          match l with
          | c :: r =>
              if (nat_of_ascii c =? 101) || (nat_of_ascii c =? 69) then
                let '(sg, r1) := match r with
                                 | s :: r' => if bool_decide (nat_of_ascii s ∈ [43; 45]) then ([s], r') else ([], r)
                                 | [] => ([], r)
                                 end in
                match take_digits r1 with
                | ([], _) => None
                | (es, r2) => Some (sign ++ ip ++ fp ++ c :: sg ++ es, r2)
                end
              else Some (sign ++ ip ++ fp, l)
          | [] => Some (sign ++ ip ++ fp, l)
          end
      end
  end.

Definition scan_literal (l : list ascii) : option (list ascii * list ascii) :=
  let lit w k := match cut_prefix (bytes w) l with Some r => Some (bytes w, r) | None => k end in
  lit "true" (lit "false" (lit "null" None)).

(** A value; [compact_elems] and [compact_members] read the rest of an array or
    object after an element separator. *)
Fixpoint compact_value (n : nat) (l : list ascii) : option (list ascii * list ascii) :=
  match n with
  | O => None
  | S n' =>
      match skip_space l with
      | [] => None
      | c :: r =>
          let v := nat_of_ascii c in
          if v =? 34 then match compact_string n' r with
                          | Some (o, rest) => Some (c :: o, rest)
                          | None => None
                          end
          else if v =? 91 then
            match skip_space r with
            | d :: r1 => if nat_of_ascii d =? 93 then Some ([c; d], r1)
                         else match compact_elems n' r with
                              | Some (o, rest) => Some (c :: o, rest)
                              | None => None
                              end
            | [] => None
            end
          else if v =? 123 then
            match skip_space r with
            | d :: r1 => if nat_of_ascii d =? 125 then Some ([c; d], r1)
                         else match compact_members n' r with
                              | Some (o, rest) => Some (c :: o, rest)
                              | None => None
                              end
            | [] => None
            end
          else if is_digit c || (v =? 45) then scan_number (c :: r)
          else scan_literal (c :: r)
      end
  end
with compact_elems (n : nat) (l : list ascii) : option (list ascii * list ascii) :=
  match n with
  | O => None
  | S n' =>
      match compact_value n' l with
      | None => None
      | Some (o, r) =>
          match skip_space r with
          | c :: r1 =>
              if nat_of_ascii c =? 93 then Some (o ++ [c], r1)
              else if nat_of_ascii c =? 44
              then match compact_elems n' r1 with
                   | Some (o', rest) => Some (o ++ c :: o', rest)
                   | None => None
                   end
              else None
          | [] => None
          end
      end
  end
with compact_members (n : nat) (l : list ascii) : option (list ascii * list ascii) :=
  match n with
  | O => None
  | S n' =>
      match skip_space l with
      | q :: r =>
          if nat_of_ascii q =? 34 then
            match compact_string n' r with
            | None => None
            | Some (k, r1) =>
                match skip_space r1 with
                | col :: r2 =>
                    if nat_of_ascii col =? 58 then
                      match compact_value n' r2 with
                      | None => None
                      | Some (o, r3) =>
                          match skip_space r3 with
                          | c :: r4 =>
                              if nat_of_ascii c =? 125 then Some (q :: k ++ col :: o ++ [c], r4)
                              else if nat_of_ascii c =? 44
                              then match compact_members n' r4 with
                                   | Some (o', rest) => Some (q :: k ++ col :: o ++ c :: o', rest)
                                   | None => None
                                   end
                              else None
                          | [] => None
                          end
                      end
                    else None
                | [] => None
                end
            end
          else None
      | [] => None
      end
  end.

(** The whole text is one value, surrounded by white space only. *)
Definition json_compact (raw : string) : option (list ascii) :=
  match compact_value (2 * String.length raw + 2) (bytes raw) with
  | Some (o, rest) => match skip_space rest with [] => Some o | _ => None end
  | None => None
  end.

Definition json_valid (raw : string) : bool := bool_decide (is_Some (json_compact raw)).

(** An object literal from its members, in order. *)
Definition json_object (members : list (string * list ascii)) : list ascii :=
  ch 123 :: join_bytes (ch 44) ((fun '(k, v) => json_quote k ++ ch 58 :: v) <$> members) ++ [ch 125].

#[global] Arguments json_quote : simpl never.
#[global] Arguments json_compact : simpl never.
#[global] Arguments json_object : simpl never.
#[global] Arguments ValidString : simpl never.

Definition dq : string := text [ch 34].
Example json_compact_ex :
  json_compact ("{ " +:+ dq +:+ "a" +:+ dq +:+ " : [1, -2.5e+3 , true ,{}] }")
  = Some (bytes ("{" +:+ dq +:+ "a" +:+ dq +:+ ":[1,-2.5e+3,true,{}]}")).
Proof. vm_compute. reflexivity. Qed.
Example json_invalid_ex : json_compact "[1,]" = None /\ json_compact "01" = None /\ json_compact "" = None.
Proof. repeat split; vm_compute; reflexivity. Qed.
Example json_quote_ex : text (json_quote "a<b") = dq +:+ "a\u003cb" +:+ dq.
Proof. vm_compute. reflexivity. Qed.
