(* ===== verification/JsonQuote.v ===== *)
(** * Quoting of JSON strings is injective

    [json.Marshal] of a valid string can be read back: [unquote_step] takes the
    quoted form of one rune off the input, so that the quoted strings form a
    uniquely readable code. *)
From stdpp Require Import base strings list numbers.
From Stdlib Require Import ZArith Lia Ascii.
From S2P Require Import Prelude GoStrings Digest GoJson.

Open Scope nat_scope.

Definition unhex (c : ascii) : nat := let n := nat_of_ascii c in if n <? 58 then n - 48 else n - 87.

Definition unquote_step (l : list ascii) : option (list ascii * list ascii) :=
  match l with
  | [] => None
  | c :: r =>
      if nat_of_ascii c =? 92 then
        match r with
        | [] => None
        | e :: r =>
            let n := nat_of_ascii e in
            if n =? 117 then
              match r with
              | h1 :: h2 :: h3 :: h4 :: r =>
                  if unhex h1 =? 2 then Some (ch <$> [226; 128; 128 + 16 * unhex h3 + unhex h4], r)
                  else Some ([ch (16 * unhex h3 + unhex h4)], r)
              | _ => None
              end
            else if n =? 98 then Some ([ch 8], r)
            else if n =? 102 then Some ([ch 12], r)
            else if n =? 110 then Some ([ch 10], r)
            else if n =? 114 then Some ([ch 13], r)
            else if n =? 116 then Some ([ch 9], r)
            else Some ([e], r)
        end
      else match rune_len l with Some k => Some (take k l, drop k l) | None => None end
  end.

(** The quoted form of the rune of [k] bytes at the head of [l]. *)
Definition quote_rune (k : nat) (l : list ascii) : list ascii :=
  match l with
  | [] => []
  | c :: _ =>
      match k with
      | 1 => quote_byte c
      | _ => match line_sep l with Some lo => u_escape 32 lo | None => take k l end
      end
  end.

Lemma quote_n_step n c r k :
  rune_len (c :: r) = Some k -> quote_n (S n) (c :: r) = quote_rune k (c :: r) ++ quote_n n (drop k (c :: r)).
Proof. intros Hk. cbn [quote_n]. rewrite Hk. unfold quote_rune. by destruct k as [|[|k]]. Qed.

Lemma in_range_spec lo hi c : in_range lo hi c = true <-> lo <= nat_of_ascii c <= hi.
Proof. unfold in_range. by rewrite andb_true_iff, !Nat.leb_le. Qed.

(** The bytes beyond the rune do not matter, and its length is its number of
    bytes. *)
Lemma rune_len_take l k x : rune_len l = Some k -> rune_len (take k l ++ x) = Some k /\ length (take k l) = k /\ 1 <= k.
Proof.
  unfold rune_len. destruct l as [|c r]; [done|].
  destruct (in_range 0 127 c) eqn:E0; [intros [= <-]; simpl; rewrite E0; auto with lia|].
  destruct r as [|c1 r]; [done|]. destruct (in_range 194 223 c) eqn:E1.
  { destruct (cont_byte c1) eqn:F1; [|done]. intros [= <-]. simpl. rewrite E0, E1, F1. auto with lia. }
  destruct r as [|c2 r]; [done|]. destruct (in_range 224 239 c) eqn:E2.
  { cbv zeta. destruct (_ && cont_byte c2) eqn:F2; [|done]. intros [= <-]. simpl.
    rewrite E0, E1, E2. cbv zeta. rewrite F2. auto with lia. }
  destruct r as [|c3 r]; [done|]. cbv zeta. destruct (_ && _ && cont_byte c3) eqn:F3; [|done].
  intros [= <-]. simpl. rewrite E0, E1, E2. cbv zeta. rewrite F3. auto with lia.
Qed.

Lemma rune_len_one c r : rune_len (c :: r) = Some 1 -> in_range 0 127 c = true.
Proof.
  unfold rune_len. destruct (in_range 0 127 c); [done|]. destruct r as [|c1 r]; [done|].
  destruct (in_range 194 223 c); [by case_match|]. destruct r as [|c2 r]; [done|]. cbv zeta.
  destruct (in_range 224 239 c); [by case_match|]. destruct r as [|c3 r]; [done|]. by case_match.
Qed.

Lemma rune_len_many c r k : rune_len (c :: r) = Some k -> k <> 1 -> 128 <= nat_of_ascii c.
Proof.
  unfold rune_len. destruct (in_range 0 127 c) eqn:E; [by intros [= <-]|]. intros _ _.
  apply not_true_iff_false in E. rewrite in_range_spec in E. lia.
Qed.

Ltac each_ascii c := destruct c as [[] [] [] [] [] [] [] []].

Lemma unquote_byte c x : in_range 0 127 c = true -> unquote_step (quote_byte c ++ x) = Some ([c], x).
Proof. each_ascii c; intros Hc; solve [discriminate Hc|reflexivity]. Qed.

Lemma quote_byte_head c : in_range 0 127 c = true -> exists d y, quote_byte c = d :: y /\ d <> ch 34.
Proof. each_ascii c; intros Hc; solve [discriminate Hc|eexists _, _; split; [reflexivity|discriminate]]. Qed.

Lemma unquote_raw c r k x :
  rune_len (c :: r) = Some k -> k <> 1 -> unquote_step (take k (c :: r) ++ x) = Some (take k (c :: r), x).
Proof.
  intros Hk Hne. pose proof (rune_len_many c r k Hk Hne). destruct (rune_len_take _ _ x Hk) as (Hr & Hl & Hk1).
  destruct k as [|k]; [lia|]. cbn [take app unquote_step] in *.
  destruct (Nat.eqb_spec (nat_of_ascii c) 92); [lia|]. rewrite Hr.
  cbn [take drop]. injection Hl as Hl. rewrite take_app_length', drop_app_length'; done.
Qed.

Lemma line_sep_inv c r lo :
  line_sep (c :: r) = Some lo -> exists d r', c :: r = ch 226 :: ch 128 :: d :: r' /\ (lo = 40 /\ d = ch 168 \/ lo = 41 /\ d = ch 169).
Proof.
  unfold line_sep. destruct r as [|b [|d r']]; [done..|].
  destruct (in_range 226 226 c && in_range 128 128 b && in_range 168 169 d) eqn:E; [|done].
  rewrite !andb_true_iff, !in_range_spec in E. destruct E as [[Ea Eb] Ed]. intros [= <-].
  exists d, r'. unfold ch. rewrite <- (ascii_nat_embedding c), <- (ascii_nat_embedding b).
  replace (nat_of_ascii c) with 226 by lia. replace (nat_of_ascii b) with 128 by lia. split; [done|].
  rewrite <- (ascii_nat_embedding d). assert (nat_of_ascii d = 168 \/ nat_of_ascii d = 169) as [-> | ->] by lia; auto.
Qed.

Lemma unquote_quote c r k x :
  rune_len (c :: r) = Some k -> unquote_step (quote_rune k (c :: r) ++ x) = Some (take k (c :: r), x).
Proof.
  intros Hk. destruct (decide (k = 1)) as [->|Hne]; [by apply unquote_byte, rune_len_one with r|].
  assert (quote_rune k (c :: r) = match line_sep (c :: r) with Some lo => u_escape 32 lo | None => take k (c :: r) end) as ->
    by (by destruct k as [|[|k]]).
  destruct (line_sep (c :: r)) as [lo|] eqn:El; [|by apply unquote_raw].
  apply line_sep_inv in El as (d & r' & E & Hlo). rewrite E in *.
  assert (k = 3) as -> by (destruct Hlo as [[_ ->]|[_ ->]]; vm_compute in Hk; congruence).
  by destruct Hlo as [[-> ->]|[-> ->]].
Qed.

(** No quoted rune begins with the closing quote. *)
Lemma quote_rune_head c r k x : rune_len (c :: r) = Some k -> quote_rune k (c :: r) <> ch 34 :: x.
Proof.
  intros Hk. destruct (decide (k = 1)) as [->|Hne].
  - destruct (quote_byte_head c (rune_len_one _ _ Hk)) as (d & y & E & Hd). simpl. rewrite E. congruence.
  - pose proof (rune_len_many c r k Hk Hne) as Hc. destruct (rune_len_take _ _ [] Hk) as (_ & _ & Hk1).
    assert (quote_rune k (c :: r) = match line_sep (c :: r) with Some lo => u_escape 32 lo | None => take k (c :: r) end) as ->
      by (by destruct k as [|[|k]]).
    destruct (line_sep (c :: r)); [discriminate|]. destruct k; [lia|]. simpl. intros [= -> _].
    by vm_compute in Hc; lia.
Qed.

Lemma valid_utf8_step n c r :
  valid_utf8_n (S n) (c :: r) = true -> exists k, rune_len (c :: r) = Some k /\ valid_utf8_n n (drop k (c :: r)) = true.
Proof. cbn [valid_utf8_n]. destruct (rune_len (c :: r)) as [k|]; [eauto|done]. Qed.

Lemma valid_utf8_nil n : valid_utf8_n n [] = true.
Proof. by destruct n. Qed.

Lemma quote_n_head n c r x :
  valid_utf8_n n (c :: r) = true -> quote_n n (c :: r) ++ x <> ch 34 :: drop 1 (quote_n n (c :: r) ++ x).
Proof.
  destruct n as [|n]; [done|]. intros (k & Hk & _)%valid_utf8_step. rewrite (quote_n_step n c r k Hk), <- app_assoc.
  intros E. destruct (quote_rune k (c :: r)) as [|d y] eqn:Ey.
  - pose proof (unquote_quote c r k [] Hk) as Hu. rewrite Ey in Hu. done.
  - injection E as ->. by apply (quote_rune_head c r k y Hk).
Qed.

Lemma quote_n_inj n1 n2 l1 l2 r1 r2 :
  valid_utf8_n n1 l1 = true -> valid_utf8_n n2 l2 = true ->
  quote_n n1 l1 ++ ch 34 :: r1 = quote_n n2 l2 ++ ch 34 :: r2 -> l1 = l2 /\ r1 = r2.
Proof.
  revert n2 l1 l2. induction n1 as [|n1 IH]; intros n2 l1 l2 V1 V2 E.
  - destruct l1 as [|c1 l1]; [|done]. destruct l2 as [|c2 l2]; [destruct n2; by injection E|].
    exfalso. apply (quote_n_head n2 c2 l2 (ch 34 :: r2) V2). by rewrite <- E.
  - destruct l1 as [|c1 l1], l2 as [|c2 l2].
    + destruct n2; by injection E.
    + exfalso. apply (quote_n_head n2 c2 l2 (ch 34 :: r2) V2). by rewrite <- E.
    + exfalso. apply (quote_n_head (S n1) c1 l1 (ch 34 :: r1) V1). rewrite E. by destruct n2.
    + destruct n2 as [|n2]; [done|].
      apply valid_utf8_step in V1 as (k1 & Hk1 & V1), V2 as (k2 & Hk2 & V2).
      rewrite (quote_n_step _ _ _ _ Hk1), (quote_n_step _ _ _ _ Hk2), <- !app_assoc in E.
      apply (f_equal unquote_step) in E. rewrite (unquote_quote _ _ _ _ Hk1), (unquote_quote _ _ _ _ Hk2) in E.
      injection E as Et Er. destruct (IH _ _ _ V1 V2 Er) as [Ed ->]. split; [|done].
      rewrite <- (take_drop k1 (c1 :: l1)), <- (take_drop k2 (c2 :: l2)). by rewrite Et, Ed.
Qed.

Lemma json_quote_inj s1 s2 r1 r2 :
  ValidString s1 = true -> ValidString s2 = true -> json_quote s1 ++ r1 = json_quote s2 ++ r2 -> s1 = s2 /\ r1 = r2.
Proof.
  unfold ValidString, json_quote. intros V1 V2 E. cbn [app] in E. injection E as E. rewrite <- !app_assoc in E.
  cbn [app] in E. apply quote_n_inj in E as [E ->]; [|done..]. split; [|done].
  rewrite <- (text_bytes s1), <- (text_bytes s2). by rewrite E.
Qed.
