(* ===== verification/Async.v ===== *)
(** * Async operation manager ([protocol/async/manager.go])

    The registry of asynchronous tool operations: its records and their state
    machine, the waiters of a turn, the change subscriptions with their bounded
    channels, the admitted pollers, the sweeper and the shutdown.

    Every method that takes the manager's mutex is one atomic function of the
    whole state; a call that blocks outside the mutex is split at that point.
    Time is an argument.  Channels, cancel functions and subscriptions are
    identified by numbers, and the Go runtime faults that misuse of a channel or
    of a wait group would cause are recorded in [panicked].  Values handed out
    are immutable here, so the defensive copies of the code ([cloneRecord],
    [deepCloneMap], ...) are identities and do not appear. *)
From stdpp Require Import base gmap strings list fin_maps numbers.
From Stdlib Require Import ZArith Lia Ascii.
From S2P Require Import Prelude GoStrings Digest GoJson.

Open Scope Z_scope.

(** The execution modes come from the shared MCP client configuration package,
    outside this repository. *)
Class ExecModes := {
  NormalizeExecutionMode : string -> string -> string;
  ExecutionModeWaits : string -> bool;
  ExecutionModeWait : string }.

(** Argument maps are opaque JSON-like values here. *)
Inductive GoVal :=
| VNil
| VBool (b : bool)
| VInt (n : Z)
| VStr (s : string)
| VSlice (l : list GoVal)
| VMap (m : list (string * GoVal)).
Definition Args := list (string * GoVal).

Definition StateStarted := "started".
Definition StateRunning := "running".
Definition StateWaiting := "waiting".
Definition StateCompleted := "completed".
Definition StateFailed := "failed".
Definition StateCanceled := "canceled".

Definition DefaultPercentSignalThreshold : Z := 5.
Definition DefaultMaxPollFailures : Z := 3.
Definition DefaultIdleTimeoutMs : Z := 600000.

(** ** Data *)
Record Extracted := mkExtracted {
  ex_Status : string;
  ex_Message : string;
  ex_MessageKind : string;
  ex_Percent : option Z;
  ex_KeyData : string;
  ex_Error : string }.


(** [KeyData] is a [json.RawMessage]; nil and empty are not distinguished by the
    code and are [""]. *)
Record OperationRecord := mkOperation {
  OriginalRequestArgs : Args;
  RequestOwnerID : string;
  ID : string;
  ParentConvID : string;
  ParentTurnID : string;
  ToolCallID : string;
  ToolMessageID : string;
  ToolName : string;
  StatusToolName : string;
  StatusOperationIDArg : string;
  SameToolRecall : bool;
  StatusArgs : Args;
  CancelToolName : string;
  RequestArgsDigest : string;
  RequestArgs : Args;
  OperationIntent : string;
  OperationSummary : string;
  ExecutionMode : string;
  TerminalCarrierBeforeModel : bool;
  State : string;
  Status : string;
  Message : string;
  MessageKind : string;
  Percent : option Z;
  LastSignaledPercent : option Z;
  KeyData : string;
  Error : string;
  CreatedAt : Z;
  UpdatedAt : Z;
  LastPayloadChangeAt : Z;
  TimeoutAt : option Z;
  TimeoutMs : Z;
  IdleTimeoutMs : Z;
  PollIntervalMs : Z;
  PollFailures : Z;
  changeDigest : string;
  pendingChange : bool;
  terminalPayload : option Extracted }.

Definition set_ToolCallID (v : string) (r : OperationRecord) : OperationRecord :=
  mkOperation (OriginalRequestArgs r) (RequestOwnerID r) (ID r) (ParentConvID r) (ParentTurnID
    r) v (ToolMessageID r) (ToolName r) (StatusToolName r) (StatusOperationIDArg r)
    (SameToolRecall r) (StatusArgs r) (CancelToolName r) (RequestArgsDigest r) (RequestArgs r)
    (OperationIntent r) (OperationSummary r) (ExecutionMode r) (TerminalCarrierBeforeModel r)
    (State r) (Status r) (Message r) (MessageKind r) (Percent r) (LastSignaledPercent r)
    (KeyData r) (Error r) (CreatedAt r) (UpdatedAt r) (LastPayloadChangeAt r) (TimeoutAt r)
    (TimeoutMs r) (IdleTimeoutMs r) (PollIntervalMs r) (PollFailures r) (changeDigest r)
    (pendingChange r) (terminalPayload r).
Definition set_ToolMessageID (v : string) (r : OperationRecord) : OperationRecord :=
  mkOperation (OriginalRequestArgs r) (RequestOwnerID r) (ID r) (ParentConvID r) (ParentTurnID
    r) (ToolCallID r) v (ToolName r) (StatusToolName r) (StatusOperationIDArg r) (SameToolRecall
    r) (StatusArgs r) (CancelToolName r) (RequestArgsDigest r) (RequestArgs r) (OperationIntent
    r) (OperationSummary r) (ExecutionMode r) (TerminalCarrierBeforeModel r) (State r) (Status
    r) (Message r) (MessageKind r) (Percent r) (LastSignaledPercent r) (KeyData r) (Error r)
    (CreatedAt r) (UpdatedAt r) (LastPayloadChangeAt r) (TimeoutAt r) (TimeoutMs r)
    (IdleTimeoutMs r) (PollIntervalMs r) (PollFailures r) (changeDigest r) (pendingChange r)
    (terminalPayload r).
Definition set_ToolName (v : string) (r : OperationRecord) : OperationRecord :=
  mkOperation (OriginalRequestArgs r) (RequestOwnerID r) (ID r) (ParentConvID r) (ParentTurnID
    r) (ToolCallID r) (ToolMessageID r) v (StatusToolName r) (StatusOperationIDArg r)
    (SameToolRecall r) (StatusArgs r) (CancelToolName r) (RequestArgsDigest r) (RequestArgs r)
    (OperationIntent r) (OperationSummary r) (ExecutionMode r) (TerminalCarrierBeforeModel r)
    (State r) (Status r) (Message r) (MessageKind r) (Percent r) (LastSignaledPercent r)
    (KeyData r) (Error r) (CreatedAt r) (UpdatedAt r) (LastPayloadChangeAt r) (TimeoutAt r)
    (TimeoutMs r) (IdleTimeoutMs r) (PollIntervalMs r) (PollFailures r) (changeDigest r)
    (pendingChange r) (terminalPayload r).
Definition set_State (v : string) (r : OperationRecord) : OperationRecord :=
  mkOperation (OriginalRequestArgs r) (RequestOwnerID r) (ID r) (ParentConvID r) (ParentTurnID
    r) (ToolCallID r) (ToolMessageID r) (ToolName r) (StatusToolName r) (StatusOperationIDArg r)
    (SameToolRecall r) (StatusArgs r) (CancelToolName r) (RequestArgsDigest r) (RequestArgs r)
    (OperationIntent r) (OperationSummary r) (ExecutionMode r) (TerminalCarrierBeforeModel r) v
    (Status r) (Message r) (MessageKind r) (Percent r) (LastSignaledPercent r) (KeyData r)
    (Error r) (CreatedAt r) (UpdatedAt r) (LastPayloadChangeAt r) (TimeoutAt r) (TimeoutMs r)
    (IdleTimeoutMs r) (PollIntervalMs r) (PollFailures r) (changeDigest r) (pendingChange r)
    (terminalPayload r).
Definition set_Status (v : string) (r : OperationRecord) : OperationRecord :=
  mkOperation (OriginalRequestArgs r) (RequestOwnerID r) (ID r) (ParentConvID r) (ParentTurnID
    r) (ToolCallID r) (ToolMessageID r) (ToolName r) (StatusToolName r) (StatusOperationIDArg r)
    (SameToolRecall r) (StatusArgs r) (CancelToolName r) (RequestArgsDigest r) (RequestArgs r)
    (OperationIntent r) (OperationSummary r) (ExecutionMode r) (TerminalCarrierBeforeModel r)
    (State r) v (Message r) (MessageKind r) (Percent r) (LastSignaledPercent r) (KeyData r)
    (Error r) (CreatedAt r) (UpdatedAt r) (LastPayloadChangeAt r) (TimeoutAt r) (TimeoutMs r)
    (IdleTimeoutMs r) (PollIntervalMs r) (PollFailures r) (changeDigest r) (pendingChange r)
    (terminalPayload r).
Definition set_Message (v : string) (r : OperationRecord) : OperationRecord :=
  mkOperation (OriginalRequestArgs r) (RequestOwnerID r) (ID r) (ParentConvID r) (ParentTurnID
    r) (ToolCallID r) (ToolMessageID r) (ToolName r) (StatusToolName r) (StatusOperationIDArg r)
    (SameToolRecall r) (StatusArgs r) (CancelToolName r) (RequestArgsDigest r) (RequestArgs r)
    (OperationIntent r) (OperationSummary r) (ExecutionMode r) (TerminalCarrierBeforeModel r)
    (State r) (Status r) v (MessageKind r) (Percent r) (LastSignaledPercent r) (KeyData r)
    (Error r) (CreatedAt r) (UpdatedAt r) (LastPayloadChangeAt r) (TimeoutAt r) (TimeoutMs r)
    (IdleTimeoutMs r) (PollIntervalMs r) (PollFailures r) (changeDigest r) (pendingChange r)
    (terminalPayload r).
Definition set_MessageKind (v : string) (r : OperationRecord) : OperationRecord :=
  mkOperation (OriginalRequestArgs r) (RequestOwnerID r) (ID r) (ParentConvID r) (ParentTurnID
    r) (ToolCallID r) (ToolMessageID r) (ToolName r) (StatusToolName r) (StatusOperationIDArg r)
    (SameToolRecall r) (StatusArgs r) (CancelToolName r) (RequestArgsDigest r) (RequestArgs r)
    (OperationIntent r) (OperationSummary r) (ExecutionMode r) (TerminalCarrierBeforeModel r)
    (State r) (Status r) (Message r) v (Percent r) (LastSignaledPercent r) (KeyData r) (Error r)
    (CreatedAt r) (UpdatedAt r) (LastPayloadChangeAt r) (TimeoutAt r) (TimeoutMs r)
    (IdleTimeoutMs r) (PollIntervalMs r) (PollFailures r) (changeDigest r) (pendingChange r)
    (terminalPayload r).
Definition set_Percent (v : option Z) (r : OperationRecord) : OperationRecord :=
  mkOperation (OriginalRequestArgs r) (RequestOwnerID r) (ID r) (ParentConvID r) (ParentTurnID
    r) (ToolCallID r) (ToolMessageID r) (ToolName r) (StatusToolName r) (StatusOperationIDArg r)
    (SameToolRecall r) (StatusArgs r) (CancelToolName r) (RequestArgsDigest r) (RequestArgs r)
    (OperationIntent r) (OperationSummary r) (ExecutionMode r) (TerminalCarrierBeforeModel r)
    (State r) (Status r) (Message r) (MessageKind r) v (LastSignaledPercent r) (KeyData r)
    (Error r) (CreatedAt r) (UpdatedAt r) (LastPayloadChangeAt r) (TimeoutAt r) (TimeoutMs r)
    (IdleTimeoutMs r) (PollIntervalMs r) (PollFailures r) (changeDigest r) (pendingChange r)
    (terminalPayload r).
Definition set_LastSignaledPercent (v : option Z) (r : OperationRecord) : OperationRecord :=
  mkOperation (OriginalRequestArgs r) (RequestOwnerID r) (ID r) (ParentConvID r) (ParentTurnID
    r) (ToolCallID r) (ToolMessageID r) (ToolName r) (StatusToolName r) (StatusOperationIDArg r)
    (SameToolRecall r) (StatusArgs r) (CancelToolName r) (RequestArgsDigest r) (RequestArgs r)
    (OperationIntent r) (OperationSummary r) (ExecutionMode r) (TerminalCarrierBeforeModel r)
    (State r) (Status r) (Message r) (MessageKind r) (Percent r) v (KeyData r) (Error r)
    (CreatedAt r) (UpdatedAt r) (LastPayloadChangeAt r) (TimeoutAt r) (TimeoutMs r)
    (IdleTimeoutMs r) (PollIntervalMs r) (PollFailures r) (changeDigest r) (pendingChange r)
    (terminalPayload r).
Definition set_KeyData (v : string) (r : OperationRecord) : OperationRecord :=
  mkOperation (OriginalRequestArgs r) (RequestOwnerID r) (ID r) (ParentConvID r) (ParentTurnID
    r) (ToolCallID r) (ToolMessageID r) (ToolName r) (StatusToolName r) (StatusOperationIDArg r)
    (SameToolRecall r) (StatusArgs r) (CancelToolName r) (RequestArgsDigest r) (RequestArgs r)
    (OperationIntent r) (OperationSummary r) (ExecutionMode r) (TerminalCarrierBeforeModel r)
    (State r) (Status r) (Message r) (MessageKind r) (Percent r) (LastSignaledPercent r) v
    (Error r) (CreatedAt r) (UpdatedAt r) (LastPayloadChangeAt r) (TimeoutAt r) (TimeoutMs r)
    (IdleTimeoutMs r) (PollIntervalMs r) (PollFailures r) (changeDigest r) (pendingChange r)
    (terminalPayload r).
Definition set_Error (v : string) (r : OperationRecord) : OperationRecord :=
  mkOperation (OriginalRequestArgs r) (RequestOwnerID r) (ID r) (ParentConvID r) (ParentTurnID
    r) (ToolCallID r) (ToolMessageID r) (ToolName r) (StatusToolName r) (StatusOperationIDArg r)
    (SameToolRecall r) (StatusArgs r) (CancelToolName r) (RequestArgsDigest r) (RequestArgs r)
    (OperationIntent r) (OperationSummary r) (ExecutionMode r) (TerminalCarrierBeforeModel r)
    (State r) (Status r) (Message r) (MessageKind r) (Percent r) (LastSignaledPercent r)
    (KeyData r) v (CreatedAt r) (UpdatedAt r) (LastPayloadChangeAt r) (TimeoutAt r) (TimeoutMs
    r) (IdleTimeoutMs r) (PollIntervalMs r) (PollFailures r) (changeDigest r) (pendingChange r)
    (terminalPayload r).
Definition set_UpdatedAt (v : Z) (r : OperationRecord) : OperationRecord :=
  mkOperation (OriginalRequestArgs r) (RequestOwnerID r) (ID r) (ParentConvID r) (ParentTurnID
    r) (ToolCallID r) (ToolMessageID r) (ToolName r) (StatusToolName r) (StatusOperationIDArg r)
    (SameToolRecall r) (StatusArgs r) (CancelToolName r) (RequestArgsDigest r) (RequestArgs r)
    (OperationIntent r) (OperationSummary r) (ExecutionMode r) (TerminalCarrierBeforeModel r)
    (State r) (Status r) (Message r) (MessageKind r) (Percent r) (LastSignaledPercent r)
    (KeyData r) (Error r) (CreatedAt r) v (LastPayloadChangeAt r) (TimeoutAt r) (TimeoutMs r)
    (IdleTimeoutMs r) (PollIntervalMs r) (PollFailures r) (changeDigest r) (pendingChange r)
    (terminalPayload r).
Definition set_LastPayloadChangeAt (v : Z) (r : OperationRecord) : OperationRecord :=
  mkOperation (OriginalRequestArgs r) (RequestOwnerID r) (ID r) (ParentConvID r) (ParentTurnID
    r) (ToolCallID r) (ToolMessageID r) (ToolName r) (StatusToolName r) (StatusOperationIDArg r)
    (SameToolRecall r) (StatusArgs r) (CancelToolName r) (RequestArgsDigest r) (RequestArgs r)
    (OperationIntent r) (OperationSummary r) (ExecutionMode r) (TerminalCarrierBeforeModel r)
    (State r) (Status r) (Message r) (MessageKind r) (Percent r) (LastSignaledPercent r)
    (KeyData r) (Error r) (CreatedAt r) (UpdatedAt r) v (TimeoutAt r) (TimeoutMs r)
    (IdleTimeoutMs r) (PollIntervalMs r) (PollFailures r) (changeDigest r) (pendingChange r)
    (terminalPayload r).
Definition set_PollFailures (v : Z) (r : OperationRecord) : OperationRecord :=
  mkOperation (OriginalRequestArgs r) (RequestOwnerID r) (ID r) (ParentConvID r) (ParentTurnID
    r) (ToolCallID r) (ToolMessageID r) (ToolName r) (StatusToolName r) (StatusOperationIDArg r)
    (SameToolRecall r) (StatusArgs r) (CancelToolName r) (RequestArgsDigest r) (RequestArgs r)
    (OperationIntent r) (OperationSummary r) (ExecutionMode r) (TerminalCarrierBeforeModel r)
    (State r) (Status r) (Message r) (MessageKind r) (Percent r) (LastSignaledPercent r)
    (KeyData r) (Error r) (CreatedAt r) (UpdatedAt r) (LastPayloadChangeAt r) (TimeoutAt r)
    (TimeoutMs r) (IdleTimeoutMs r) (PollIntervalMs r) v (changeDigest r) (pendingChange r)
    (terminalPayload r).
Definition set_changeDigest (v : string) (r : OperationRecord) : OperationRecord :=
  mkOperation (OriginalRequestArgs r) (RequestOwnerID r) (ID r) (ParentConvID r) (ParentTurnID
    r) (ToolCallID r) (ToolMessageID r) (ToolName r) (StatusToolName r) (StatusOperationIDArg r)
    (SameToolRecall r) (StatusArgs r) (CancelToolName r) (RequestArgsDigest r) (RequestArgs r)
    (OperationIntent r) (OperationSummary r) (ExecutionMode r) (TerminalCarrierBeforeModel r)
    (State r) (Status r) (Message r) (MessageKind r) (Percent r) (LastSignaledPercent r)
    (KeyData r) (Error r) (CreatedAt r) (UpdatedAt r) (LastPayloadChangeAt r) (TimeoutAt r)
    (TimeoutMs r) (IdleTimeoutMs r) (PollIntervalMs r) (PollFailures r) v (pendingChange r)
    (terminalPayload r).
Definition set_pendingChange (v : bool) (r : OperationRecord) : OperationRecord :=
  mkOperation (OriginalRequestArgs r) (RequestOwnerID r) (ID r) (ParentConvID r) (ParentTurnID
    r) (ToolCallID r) (ToolMessageID r) (ToolName r) (StatusToolName r) (StatusOperationIDArg r)
    (SameToolRecall r) (StatusArgs r) (CancelToolName r) (RequestArgsDigest r) (RequestArgs r)
    (OperationIntent r) (OperationSummary r) (ExecutionMode r) (TerminalCarrierBeforeModel r)
    (State r) (Status r) (Message r) (MessageKind r) (Percent r) (LastSignaledPercent r)
    (KeyData r) (Error r) (CreatedAt r) (UpdatedAt r) (LastPayloadChangeAt r) (TimeoutAt r)
    (TimeoutMs r) (IdleTimeoutMs r) (PollIntervalMs r) (PollFailures r) (changeDigest r) v
    (terminalPayload r).
Definition set_terminalPayload (v : option Extracted) (r : OperationRecord) : OperationRecord :=
  mkOperation (OriginalRequestArgs r) (RequestOwnerID r) (ID r) (ParentConvID r) (ParentTurnID
    r) (ToolCallID r) (ToolMessageID r) (ToolName r) (StatusToolName r) (StatusOperationIDArg r)
    (SameToolRecall r) (StatusArgs r) (CancelToolName r) (RequestArgsDigest r) (RequestArgs r)
    (OperationIntent r) (OperationSummary r) (ExecutionMode r) (TerminalCarrierBeforeModel r)
    (State r) (Status r) (Message r) (MessageKind r) (Percent r) (LastSignaledPercent r)
    (KeyData r) (Error r) (CreatedAt r) (UpdatedAt r) (LastPayloadChangeAt r) (TimeoutAt r)
    (TimeoutMs r) (IdleTimeoutMs r) (PollIntervalMs r) (PollFailures r) (changeDigest r)
    (pendingChange r) v.

Record RegisterInput := mkRegisterInput {
  ri_OriginalRequestArgs : Args;
  ri_ID : string;
  ri_ParentConvID : string;
  ri_ParentTurnID : string;
  ri_ToolCallID : string;
  ri_ToolMessageID : string;
  ri_ToolName : string;
  ri_StatusToolName : string;
  ri_StatusOperationIDArg : string;
  ri_SameToolRecall : bool;
  ri_StatusArgs : Args;
  ri_CancelToolName : string;
  ri_RequestArgsDigest : string;
  ri_RequestArgs : Args;
  ri_OperationIntent : string;
  ri_OperationSummary : string;
  ri_ExecutionMode : string;
  ri_TerminalCarrierBeforeModel : bool;
  ri_Status : string;
  ri_Message : string;
  ri_MessageKind : string;
  ri_Percent : option Z;
  ri_KeyData : string;
  ri_Error : string;
  ri_TimeoutMs : Z;
  ri_IdleTimeoutMs : Z;
  ri_PollIntervalMs : Z }.


Record UpdateInput := mkUpdateInput {
  ui_ID : string;
  ui_Status : string;
  ui_Message : string;
  ui_MessageKind : string;
  ui_Percent : option Z;
  ui_KeyData : string;
  ui_Error : string;
  ui_State : string }.


Record ChangeEvent := mkChangeEvent {
  ce_OperationID : string;
  ce_PriorDigest : string;
  ce_NewDigest : string;
  ce_Status : string;
  ce_Message : string;
  ce_MessageKind : string;
  ce_Percent : option Z;
  ce_KeyData : string;
  ce_Error : string;
  ce_State : string;
  ce_ChangedAt : Z;
  ce_ToolName : string;
  ce_Intent : string;
  ce_Summary : string;
  ce_Conversation : string;
  ce_TurnID : string }.


Record changeSubscription := mkSub {
  sub_targets : gset string;
  sub_ch : nat }.

(** A waiter channel (capacity 1) and an event channel (capacity 16). *)
Record WChan := mkWChan { w_full : bool; w_closed : bool }.
Record EChan := mkEChan { e_buf : list ChangeEvent; e_closed : bool }.
Definition event_capacity : nat := 16.

(** The manager's fields, then what it shares with the Go runtime: channels,
    fired cancel functions, and whether a runtime fault occurred. *)
Record Manager := mkManager {
  ops : gmap string OperationRecord;
  pollers : gset string;
  pollerCancels : gmap string nat;
  waiters : gmap string (list nat);
  turnSignals : gmap string Z;
  subscriptions : gmap Z changeSubscription;
  nextSubID : Z;
  gcCancels : list nat;
  pollerWG : Z;
  closed : bool;
  registerCount : Z;
  registerOverwriteCount : Z;
  updateCount : Z;
  updateChangedCount : Z;
  sweepPruneCount : Z;
  subscribeCount : Z;
  unsubscribeCount : Z;
  wchans : gmap nat WChan;
  echans : gmap nat EChan;
  next_ch : nat;
  canceled : gset nat;
  panicked : bool }.

Definition set_ops (v : gmap string OperationRecord) (r : Manager) : Manager :=
  mkManager v (pollers r) (pollerCancels r) (waiters r) (turnSignals r) (subscriptions r)
    (nextSubID r) (gcCancels r) (pollerWG r) (closed r) (registerCount r)
    (registerOverwriteCount r) (updateCount r) (updateChangedCount r) (sweepPruneCount r)
    (subscribeCount r) (unsubscribeCount r) (wchans r) (echans r) (next_ch r) (canceled r)
    (panicked r).
Definition set_pollers (v : gset string) (r : Manager) : Manager :=
  mkManager (ops r) v (pollerCancels r) (waiters r) (turnSignals r) (subscriptions r) (nextSubID
    r) (gcCancels r) (pollerWG r) (closed r) (registerCount r) (registerOverwriteCount r)
    (updateCount r) (updateChangedCount r) (sweepPruneCount r) (subscribeCount r)
    (unsubscribeCount r) (wchans r) (echans r) (next_ch r) (canceled r) (panicked r).
Definition set_pollerCancels (v : gmap string nat) (r : Manager) : Manager :=
  mkManager (ops r) (pollers r) v (waiters r) (turnSignals r) (subscriptions r) (nextSubID r)
    (gcCancels r) (pollerWG r) (closed r) (registerCount r) (registerOverwriteCount r)
    (updateCount r) (updateChangedCount r) (sweepPruneCount r) (subscribeCount r)
    (unsubscribeCount r) (wchans r) (echans r) (next_ch r) (canceled r) (panicked r).
Definition set_waiters (v : gmap string (list nat)) (r : Manager) : Manager :=
  mkManager (ops r) (pollers r) (pollerCancels r) v (turnSignals r) (subscriptions r) (nextSubID
    r) (gcCancels r) (pollerWG r) (closed r) (registerCount r) (registerOverwriteCount r)
    (updateCount r) (updateChangedCount r) (sweepPruneCount r) (subscribeCount r)
    (unsubscribeCount r) (wchans r) (echans r) (next_ch r) (canceled r) (panicked r).
Definition set_turnSignals (v : gmap string Z) (r : Manager) : Manager :=
  mkManager (ops r) (pollers r) (pollerCancels r) (waiters r) v (subscriptions r) (nextSubID r)
    (gcCancels r) (pollerWG r) (closed r) (registerCount r) (registerOverwriteCount r)
    (updateCount r) (updateChangedCount r) (sweepPruneCount r) (subscribeCount r)
    (unsubscribeCount r) (wchans r) (echans r) (next_ch r) (canceled r) (panicked r).
Definition set_subscriptions (v : gmap Z changeSubscription) (r : Manager) : Manager :=
  mkManager (ops r) (pollers r) (pollerCancels r) (waiters r) (turnSignals r) v (nextSubID r)
    (gcCancels r) (pollerWG r) (closed r) (registerCount r) (registerOverwriteCount r)
    (updateCount r) (updateChangedCount r) (sweepPruneCount r) (subscribeCount r)
    (unsubscribeCount r) (wchans r) (echans r) (next_ch r) (canceled r) (panicked r).
Definition set_nextSubID (v : Z) (r : Manager) : Manager :=
  mkManager (ops r) (pollers r) (pollerCancels r) (waiters r) (turnSignals r) (subscriptions r)
    v (gcCancels r) (pollerWG r) (closed r) (registerCount r) (registerOverwriteCount r)
    (updateCount r) (updateChangedCount r) (sweepPruneCount r) (subscribeCount r)
    (unsubscribeCount r) (wchans r) (echans r) (next_ch r) (canceled r) (panicked r).
Definition set_gcCancels (v : list nat) (r : Manager) : Manager :=
  mkManager (ops r) (pollers r) (pollerCancels r) (waiters r) (turnSignals r) (subscriptions r)
    (nextSubID r) v (pollerWG r) (closed r) (registerCount r) (registerOverwriteCount r)
    (updateCount r) (updateChangedCount r) (sweepPruneCount r) (subscribeCount r)
    (unsubscribeCount r) (wchans r) (echans r) (next_ch r) (canceled r) (panicked r).
Definition set_pollerWG (v : Z) (r : Manager) : Manager :=
  mkManager (ops r) (pollers r) (pollerCancels r) (waiters r) (turnSignals r) (subscriptions r)
    (nextSubID r) (gcCancels r) v (closed r) (registerCount r) (registerOverwriteCount r)
    (updateCount r) (updateChangedCount r) (sweepPruneCount r) (subscribeCount r)
    (unsubscribeCount r) (wchans r) (echans r) (next_ch r) (canceled r) (panicked r).
Definition set_closed (v : bool) (r : Manager) : Manager :=
  mkManager (ops r) (pollers r) (pollerCancels r) (waiters r) (turnSignals r) (subscriptions r)
    (nextSubID r) (gcCancels r) (pollerWG r) v (registerCount r) (registerOverwriteCount r)
    (updateCount r) (updateChangedCount r) (sweepPruneCount r) (subscribeCount r)
    (unsubscribeCount r) (wchans r) (echans r) (next_ch r) (canceled r) (panicked r).
Definition set_registerCount (v : Z) (r : Manager) : Manager :=
  mkManager (ops r) (pollers r) (pollerCancels r) (waiters r) (turnSignals r) (subscriptions r)
    (nextSubID r) (gcCancels r) (pollerWG r) (closed r) v (registerOverwriteCount r)
    (updateCount r) (updateChangedCount r) (sweepPruneCount r) (subscribeCount r)
    (unsubscribeCount r) (wchans r) (echans r) (next_ch r) (canceled r) (panicked r).
Definition set_registerOverwriteCount (v : Z) (r : Manager) : Manager :=
  mkManager (ops r) (pollers r) (pollerCancels r) (waiters r) (turnSignals r) (subscriptions r)
    (nextSubID r) (gcCancels r) (pollerWG r) (closed r) (registerCount r) v (updateCount r)
    (updateChangedCount r) (sweepPruneCount r) (subscribeCount r) (unsubscribeCount r) (wchans
    r) (echans r) (next_ch r) (canceled r) (panicked r).
Definition set_updateCount (v : Z) (r : Manager) : Manager :=
  mkManager (ops r) (pollers r) (pollerCancels r) (waiters r) (turnSignals r) (subscriptions r)
    (nextSubID r) (gcCancels r) (pollerWG r) (closed r) (registerCount r)
    (registerOverwriteCount r) v (updateChangedCount r) (sweepPruneCount r) (subscribeCount r)
    (unsubscribeCount r) (wchans r) (echans r) (next_ch r) (canceled r) (panicked r).
Definition set_updateChangedCount (v : Z) (r : Manager) : Manager :=
  mkManager (ops r) (pollers r) (pollerCancels r) (waiters r) (turnSignals r) (subscriptions r)
    (nextSubID r) (gcCancels r) (pollerWG r) (closed r) (registerCount r)
    (registerOverwriteCount r) (updateCount r) v (sweepPruneCount r) (subscribeCount r)
    (unsubscribeCount r) (wchans r) (echans r) (next_ch r) (canceled r) (panicked r).
Definition set_sweepPruneCount (v : Z) (r : Manager) : Manager :=
  mkManager (ops r) (pollers r) (pollerCancels r) (waiters r) (turnSignals r) (subscriptions r)
    (nextSubID r) (gcCancels r) (pollerWG r) (closed r) (registerCount r)
    (registerOverwriteCount r) (updateCount r) (updateChangedCount r) v (subscribeCount r)
    (unsubscribeCount r) (wchans r) (echans r) (next_ch r) (canceled r) (panicked r).
Definition set_subscribeCount (v : Z) (r : Manager) : Manager :=
  mkManager (ops r) (pollers r) (pollerCancels r) (waiters r) (turnSignals r) (subscriptions r)
    (nextSubID r) (gcCancels r) (pollerWG r) (closed r) (registerCount r)
    (registerOverwriteCount r) (updateCount r) (updateChangedCount r) (sweepPruneCount r) v
    (unsubscribeCount r) (wchans r) (echans r) (next_ch r) (canceled r) (panicked r).
Definition set_unsubscribeCount (v : Z) (r : Manager) : Manager :=
  mkManager (ops r) (pollers r) (pollerCancels r) (waiters r) (turnSignals r) (subscriptions r)
    (nextSubID r) (gcCancels r) (pollerWG r) (closed r) (registerCount r)
    (registerOverwriteCount r) (updateCount r) (updateChangedCount r) (sweepPruneCount r)
    (subscribeCount r) v (wchans r) (echans r) (next_ch r) (canceled r) (panicked r).
Definition set_wchans (v : gmap nat WChan) (r : Manager) : Manager :=
  mkManager (ops r) (pollers r) (pollerCancels r) (waiters r) (turnSignals r) (subscriptions r)
    (nextSubID r) (gcCancels r) (pollerWG r) (closed r) (registerCount r)
    (registerOverwriteCount r) (updateCount r) (updateChangedCount r) (sweepPruneCount r)
    (subscribeCount r) (unsubscribeCount r) v (echans r) (next_ch r) (canceled r) (panicked r).
Definition set_echans (v : gmap nat EChan) (r : Manager) : Manager :=
  mkManager (ops r) (pollers r) (pollerCancels r) (waiters r) (turnSignals r) (subscriptions r)
    (nextSubID r) (gcCancels r) (pollerWG r) (closed r) (registerCount r)
    (registerOverwriteCount r) (updateCount r) (updateChangedCount r) (sweepPruneCount r)
    (subscribeCount r) (unsubscribeCount r) (wchans r) v (next_ch r) (canceled r) (panicked r).
Definition set_next_ch (v : nat) (r : Manager) : Manager :=
  mkManager (ops r) (pollers r) (pollerCancels r) (waiters r) (turnSignals r) (subscriptions r)
    (nextSubID r) (gcCancels r) (pollerWG r) (closed r) (registerCount r)
    (registerOverwriteCount r) (updateCount r) (updateChangedCount r) (sweepPruneCount r)
    (subscribeCount r) (unsubscribeCount r) (wchans r) (echans r) v (canceled r) (panicked r).
Definition set_canceled (v : gset nat) (r : Manager) : Manager :=
  mkManager (ops r) (pollers r) (pollerCancels r) (waiters r) (turnSignals r) (subscriptions r)
    (nextSubID r) (gcCancels r) (pollerWG r) (closed r) (registerCount r)
    (registerOverwriteCount r) (updateCount r) (updateChangedCount r) (sweepPruneCount r)
    (subscribeCount r) (unsubscribeCount r) (wchans r) (echans r) (next_ch r) v (panicked r).
Definition set_panicked (v : bool) (r : Manager) : Manager :=
  mkManager (ops r) (pollers r) (pollerCancels r) (waiters r) (turnSignals r) (subscriptions r)
    (nextSubID r) (gcCancels r) (pollerWG r) (closed r) (registerCount r)
    (registerOverwriteCount r) (updateCount r) (updateChangedCount r) (sweepPruneCount r)
    (subscribeCount r) (unsubscribeCount r) (wchans r) (echans r) (next_ch r) (canceled r) v.

(** ** State machine of a record *)
Definition DeriveState (status errMsg requested : string) : string :=
  if bool_decide (requested <> "") then requested
  else
    let s := ToLower (TrimSpace status) in
    if bool_decide (s ∈ ["completed"; "complete"; "succeeded"; "success"; "done"]) then StateCompleted
    else if bool_decide (s ∈ ["failed"; "error"; "rejected"]) then StateFailed
    else if bool_decide (s ∈ ["canceled"; "cancelled"; "cancel"]) then StateCanceled
    else if bool_decide (s ∈ ["queued"; "pending"; "waiting"; "waiting_for_user"]) then StateWaiting
    else if bool_decide (s ∈ ["running"; "open"; "processing"]) then StateRunning
    else if bool_decide (TrimSpace errMsg <> "") then StateFailed
    else StateStarted.

Definition terminal_state (s : string) : bool :=
  bool_decide (s ∈ [StateCompleted; StateFailed; StateCanceled]).

Definition Terminal (r : OperationRecord) : bool := terminal_state (State r).

Definition TerminalPayload (r : OperationRecord) : option Extracted :=
  if Terminal r then terminalPayload r else None.

Definition newTerminalPayload (state status message messageKind : string) (percent : option Z)
    (keyData errMsg : string) : Extracted :=
  let status := TrimSpace status in
  let status := if bool_decide (status = "") || negb (bool_decide (DeriveState status errMsg "" = state))
                then TrimSpace state else status in
  mkExtracted status (TrimSpace message) (TrimSpace messageKind) percent keyData (TrimSpace errMsg).

(** The JSON text of the digest view; empty when the key data is not JSON (the
    error of [json.Marshal] is dropped). *)
Definition digest_payload (status message state keyData : string) : string :=
  let field k v := if bool_decide (v = "") then [] else [(k, json_quote v)] in
  let head := field "status" (TrimSpace status) ++ field "message" (TrimSpace message)
                ++ field "state" (TrimSpace state) in
  if bool_decide (keyData = "") then text (json_object head)
  else match json_compact keyData with
       | Some kd => text (json_object (head ++ [("keyData", kd)]))
       | None => ""
       end.

Definition changeDigest_of (status message state keyData : string) : string :=
  md5_hex (digest_payload status message state keyData).

Definition shouldSignalPercentChange (previous current : option Z) : bool :=
  match current with
  | None => false
  | Some c =>
      match previous with
      | None => true
      | Some p =>
          let diff := wrap64 (c - p) in
          let diff := if diff <? 0 then wrap64 (- diff) else diff in
          DefaultPercentSignalThreshold <=? diff
      end
  end.

Definition equalIntPtr (a b : option Z) : bool := bool_decide (a = b).
Definition jsonEqual (a b : string) : bool := bool_decide (a = b).

Definition turnKey (convID turnID : string) : string := TrimSpace convID +:+ "|" +:+ TrimSpace turnID.
Definition record_key (r : OperationRecord) : string := turnKey (ParentConvID r) (ParentTurnID r).

Definition NewManager : Manager :=
  mkManager ∅ ∅ ∅ ∅ ∅ ∅ 0 [] 0 false 0 0 0 0 0 0 0 ∅ ∅ 0 ∅ false.

(** ** Runtime primitives *)
Definition fault (m : Manager) : Manager := set_panicked true m.

Definition cancel_fn (c : nat) (m : Manager) : Manager := set_canceled ({[c]} ∪ canceled m) m.
Definition cancel_opt (c : option nat) (m : Manager) : Manager :=
  match c with Some c => cancel_fn c m | None => m end.

(** [select { case w <- struct{}{}: default: }; close(w)]. *)
Definition wake (w : nat) (m : Manager) : Manager :=
  match wchans m !! w with
  | Some c => if w_closed c then fault m
              else set_wchans (<[w := mkWChan true true]> (wchans m)) m
  | None => fault m
  end.

(** [select { case ch <- ev: default: }] on an event channel. *)
Definition offer (ch : nat) (ev : ChangeEvent) (m : Manager) : Manager :=
  match echans m !! ch with
  | Some c => if e_closed c then fault m
              else if (length (e_buf c) <? event_capacity)%nat
              then set_echans (<[ch := mkEChan (e_buf c ++ [ev]) false]> (echans m)) m
              else m
  | None => fault m
  end.

Definition close_events (ch : nat) (m : Manager) : Manager :=
  match echans m !! ch with
  | Some c => if e_closed c then fault m
              else set_echans (<[ch := mkEChan (e_buf c) true]> (echans m)) m
  | None => fault m
  end.

(** [pollerWG.Done]: a negative counter is a fault. *)
Definition wg_done (m : Manager) : Manager :=
  let m := set_pollerWG (pollerWG m - 1) m in
  if pollerWG m <? 0 then fault m else m.

(** ** Locked helpers *)
Definition signalLocked (key : string) (m : Manager) : Manager :=
  let ws := default [] (waiters m !! key) in
  foldl (fun m w => wake w m) (set_waiters (delete key (waiters m)) m) ws.

Definition removeWaiterLocked (key : string) (target : nat) (m : Manager) : Manager :=
  match default [] (waiters m !! key) with
  | [] => m
  | ws =>
      let ws' := match list_find (fun w => w = target) ws with
                 | Some (i, _) => take i ws ++ drop (S i) ws
                 | None => ws
                 end in
      match ws' with
      | [] => set_waiters (delete key (waiters m)) m
      | _ => set_waiters (<[key := ws']> (waiters m)) m
      end
  end.

Definition opHasSubscriptionLocked (id : string) (m : Manager) : bool :=
  existsb (fun '(_, sub) => bool_decide (id ∈ sub_targets sub)) (map_to_list (subscriptions m)).

Definition dropOpLocked (id : string) (m : Manager) : Manager :=
  let m := set_ops (delete id (ops m)) m in
  let m := match pollerCancels m !! id with
           | Some c => set_pollerCancels (delete id (pollerCancels m)) (cancel_fn c m)
           | None => m
           end in
  set_waiters (delete id (waiters m)) m.

Definition allTargetsTerminalLocked (targets : gset string) (m : Manager) : bool :=
  forallb (fun id => match ops m !! id with Some r => Terminal r | None => true end) (elements targets).

Definition change_event (r : OperationRecord) (priorDigest newDigest : string) : ChangeEvent :=
  mkChangeEvent (ID r) priorDigest newDigest (Status r) (Message r) (MessageKind r) (Percent r)
    (KeyData r) (Error r) (State r) (UpdatedAt r) (ToolName r) (OperationIntent r)
    (OperationSummary r) (ParentConvID r) (ParentTurnID r).

(** One subscription's share of a published change. *)
Definition publish_one (id : string) (ev : ChangeEvent) (m : Manager) (s : Z * changeSubscription) : Manager :=
  let '(subID, sub) := s in
  if bool_decide (id ∈ sub_targets sub) then
    let m := offer (sub_ch sub) ev m in
    if allTargetsTerminalLocked (sub_targets sub) m
    then set_subscriptions (delete subID (subscriptions m)) (close_events (sub_ch sub) m)
    else m
  else m.

Definition publishChangeLocked (r : OperationRecord) (priorDigest newDigest : string) (m : Manager) : Manager :=
  foldl (publish_one (ID r) (change_event r priorDigest newDigest)) m (map_to_list (subscriptions m)).

(** ** Pollers *)
Definition admit_poller (id : string) (m : Manager) : Manager :=
  set_pollerWG (pollerWG m + 1) (set_pollers ({[id]} ∪ pollers m) m).

Definition AdmitPoller (id : string) (cancel : option nat) (m : Manager) : Manager * bool :=
  let id := TrimSpace id in
  if bool_decide (id = "") then (m, false)
  else if closed m then (m, false)
  else if bool_decide (id ∈ pollers m) then (m, false)
  else
    let m' := match cancel with
              | Some c => set_pollerCancels (<[id := c]> (pollerCancels m)) m
              | None => m
              end in
    (admit_poller id m', true).

Definition TryStartPoller (id : string) (m : Manager) : Manager * bool :=
  let id := TrimSpace id in
  if bool_decide (id = "") then (m, false)
  else if closed m then (m, false)
  else if bool_decide (id ∈ pollers m) then (m, false)
  else (admit_poller id m, true).

Definition FinishPoller (id : string) (m : Manager) : Manager :=
  let id := TrimSpace id in
  if bool_decide (id = "") then m
  else
    let wasRegistered := bool_decide (id ∈ pollers m) in
    let m := set_pollers (pollers m ∖ {[id]}) m in
    let m := match pollerCancels m !! id with
             | Some c => set_pollerCancels (delete id (pollerCancels m)) (cancel_fn c m)
             | None => m
             end in
    if wasRegistered then wg_done m else m.

Definition StorePollerCancel (id : string) (cancel : option nat) (m : Manager) : Manager :=
  match cancel with
  | None => m
  | Some c => if bool_decide (TrimSpace id = "") then m
              else set_pollerCancels (<[TrimSpace id := c]> (pollerCancels m)) m
  end.

Definition CancelTurnPollers (convID turnID : string) (m : Manager) : Manager :=
  let key := turnKey convID turnID in
  foldl (fun m '(_, r) =>
           if bool_decide (record_key r = key) then cancel_opt (pollerCancels m !! ID r) m else m)
        m (map_to_list (ops m)).

(** ** Operations on records *)
Definition BindToolCarrier (id toolCallID toolMessageID toolName : string) (m : Manager)
    : Manager * option (OperationRecord * bool) :=
  match ops m !! TrimSpace id with
  | None => (m, None)
  | Some r =>
      let bind (set : string -> OperationRecord -> OperationRecord) (get : OperationRecord -> string)
          (v : string) (rc : OperationRecord * bool) :=
        let v := TrimSpace v in
        if bool_decide (v <> "") && bool_decide (v <> get rc.1) then (set v rc.1, true) else rc in
      let rc := bind set_ToolName ToolName toolName
                  (bind set_ToolMessageID ToolMessageID toolMessageID
                     (bind set_ToolCallID ToolCallID toolCallID (r, false))) in
      (set_ops (<[TrimSpace id := rc.1]> (ops m)) m, Some rc)
  end.

Section Operations.
Context `{ExecModes}.

Definition register_record (owner : string) (now : Z) (i : RegisterInput) : OperationRecord :=
  let status := TrimSpace (ri_Status i) in
  let message := TrimSpace (ri_Message i) in
  let err := TrimSpace (ri_Error i) in
  let state := DeriveState status (ri_Error i) "" in
  mkOperation (ri_OriginalRequestArgs i) owner (TrimSpace (ri_ID i)) (TrimSpace (ri_ParentConvID i))
    (TrimSpace (ri_ParentTurnID i)) (TrimSpace (ri_ToolCallID i)) (TrimSpace (ri_ToolMessageID i))
    (TrimSpace (ri_ToolName i)) (TrimSpace (ri_StatusToolName i)) (TrimSpace (ri_StatusOperationIDArg i))
    (ri_SameToolRecall i) (ri_StatusArgs i) (TrimSpace (ri_CancelToolName i))
    (TrimSpace (ri_RequestArgsDigest i)) (ri_RequestArgs i) (TrimSpace (ri_OperationIntent i))
    (TrimSpace (ri_OperationSummary i)) (NormalizeExecutionMode (ri_ExecutionMode i) ExecutionModeWait)
    (ri_TerminalCarrierBeforeModel i) state status message (TrimSpace (ri_MessageKind i))
    (ri_Percent i) (ri_Percent i) (ri_KeyData i) err now now now
    (if 0 <? ri_TimeoutMs i then Some (now + dur_mul (ri_TimeoutMs i) Millisecond) else None)
    (ri_TimeoutMs i)
    (if ri_IdleTimeoutMs i <=? 0 then DefaultIdleTimeoutMs else ri_IdleTimeoutMs i)
    (ri_PollIntervalMs i) 0
    (changeDigest_of status message state (ri_KeyData i)) true
    (if terminal_state state
     then Some (newTerminalPayload state status message (TrimSpace (ri_MessageKind i)) (ri_Percent i)
                  (ri_KeyData i) err)
     else None).

(** [owner] is the effective user id of the caller's context. *)
Definition Register (owner : string) (now : Z) (i : RegisterInput) (m : Manager)
    : Manager * (OperationRecord * bool) :=
  let r := register_record owner now i in
  let existed := bool_decide (is_Some (ops m !! ID r)) in
  let m := if existed then set_registerOverwriteCount (wrap64 (registerOverwriteCount m + 1)) m else m in
  let m := set_registerCount (wrap64 (registerCount m + 1)) m in
  let m := set_ops (<[ID r := r]> (ops m)) m in
  (signalLocked (record_key r) m, (r, existed)).

Definition Get (id : string) (m : Manager) : option OperationRecord := ops m !! TrimSpace id.

(** The field updates of [Update], with the flags it keeps. *)
Record update_flags := mkFlags {
  f_changed : bool;
  f_percent : bool;
  f_error : bool;
  f_state : bool }.

Definition update_fields (i : UpdateInput) (r : OperationRecord) : OperationRecord * update_flags :=
  let status := TrimSpace (ui_Status i) in
  let c1 := bool_decide (status <> "") && bool_decide (status <> Status r) in
  let r1 := if c1 then set_Status status r else r in
  let msg := TrimSpace (ui_Message i) in
  let c2 := bool_decide (msg <> Message r) in
  let r2 := if c2 then set_Message msg r1 else r1 in
  let kind := TrimSpace (ui_MessageKind i) in
  let c3 := bool_decide (kind <> MessageKind r) in
  let r3 := if c3 then set_MessageKind kind r2 else r2 in
  let percentChanged := negb (equalIntPtr (Percent r) (ui_Percent i)) in
  let r4 := if percentChanged then set_Percent (ui_Percent i) r3 else r3 in
  let keyDataChanged := bool_decide (ui_KeyData i <> "") && negb (jsonEqual (KeyData r) (ui_KeyData i)) in
  let r5 := if keyDataChanged then set_KeyData (ui_KeyData i) r4 else r4 in
  let errMsg := TrimSpace (ui_Error i) in
  let errorChanged := bool_decide (errMsg <> Error r) in
  let r6 := if errorChanged then set_Error errMsg r5 else r5 in
  let newState := DeriveState (Status r6) (Error r6) (ui_State i) in
  let stateChanged := bool_decide (State r <> newState) in
  let r7 := if stateChanged then set_State newState r6 else r6 in
  (r7, mkFlags (c1 || c2 || c3 || percentChanged || keyDataChanged || errorChanged || stateChanged)
         percentChanged errorChanged stateChanged).

Definition update_payload (i : UpdateInput) (wasTerminal changed : bool) (r : OperationRecord) : OperationRecord :=
  if Terminal r && (negb wasTerminal || changed || bool_decide (terminalPayload r = None)) then
    let kd := match terminalPayload r with
              | Some p => if wasTerminal && bool_decide (ui_KeyData i = "") then ex_KeyData p else ui_KeyData i
              | None => ui_KeyData i
              end in
    set_terminalPayload (Some (newTerminalPayload (State r) (Status r) (Message r) (MessageKind r)
                                 (Percent r) kd (Error r))) r
  else r.

(** The signalling part of [Update], once a field changed. *)
Definition update_signal (fl : update_flags) (i : UpdateInput) (r : OperationRecord) (m : Manager)
    : Manager * OperationRecord :=
  let nextDigest := changeDigest_of (Status r) (Message r) (State r) (KeyData r) in
  let by_digest := bool_decide (nextDigest <> changeDigest r) in
  let by_percent := negb by_digest && f_percent fl
                    && shouldSignalPercentChange (LastSignaledPercent r) (Percent r) in
  let r := if by_percent then set_LastSignaledPercent (Percent r) r else r in
  let '(m, r) :=
    if by_digest || by_percent then
      let priorDigest := changeDigest r in
      let r := set_changeDigest nextDigest r in
      let r := if bool_decide (LastSignaledPercent r = None) && negb (bool_decide (Percent r = None))
               then set_LastSignaledPercent (Percent r) r else r in
      let r := set_pendingChange true (set_LastPayloadChangeAt (UpdatedAt r) r) in
      let m := set_ops (<[ID r := r]> (ops m)) m in
      let m := signalLocked (record_key r) m in
      (publishChangeLocked r priorDigest nextDigest m, r)
    else (set_ops (<[ID r := r]> (ops m)) m, r) in
  if f_error fl && negb (f_state fl) then
    let r := set_Error (TrimSpace (ui_Error i)) r in
    (set_ops (<[ID r := r]> (ops m)) m, r)
  else (m, r).

Definition Update (now : Z) (i : UpdateInput) (m : Manager) : Manager * option (OperationRecord * bool) :=
  match ops m !! TrimSpace (ui_ID i) with
  | None => (m, None)
  | Some r0 =>
      let m := set_updateCount (wrap64 (updateCount m + 1)) m in
      let wasTerminal := Terminal r0 in
      let '(r, fl) := update_fields i r0 in
      let r := update_payload i wasTerminal (f_changed fl) r in
      let r := set_UpdatedAt now r in
      if f_changed fl then
        let m := set_updateChangedCount (wrap64 (updateChangedCount m + 1)) m in
        let '(m, r) := update_signal fl i r m in
        (m, Some (r, true))
      else (set_ops (<[ID r := r]> (ops m)) m, Some (r, false))
  end.

(** Listings: the code iterates a Go map, so the order of the results is
    unspecified; here it is that of [map_to_list]. *)
Definition records (m : Manager) : list OperationRecord := (map_to_list (ops m)).*2.

Definition ActiveOps (convID turnID : string) (m : Manager) : list OperationRecord :=
  filter (fun r => record_key r = turnKey convID turnID /\ Terminal r = false) (records m).

Definition OperationsForTurn (convID turnID : string) (m : Manager) : list OperationRecord :=
  filter (fun r => TrimSpace (ParentConvID r) = TrimSpace convID
                   /\ TrimSpace (ParentTurnID r) = TrimSpace turnID) (records m).

Record Filter := mkFilter {
  flt_ConversationID : string;
  flt_Tool : string;
  flt_ExecutionMode : string }.

Definition list_selects (f : Filter) (r : OperationRecord) : bool :=
  let convID := TrimSpace (flt_ConversationID f) in
  let toolFilter := TrimSpace (flt_Tool f) in
  let modeFilter := TrimSpace (ToLower (flt_ExecutionMode f)) in
  negb (Terminal r)
  && (bool_decide (convID = "") || bool_decide (TrimSpace (ParentConvID r) = convID))
  && (bool_decide (toolFilter = "") || EqualFold (TrimSpace (ToolName r)) toolFilter)
  && (bool_decide (modeFilter = "") || bool_decide (ToLower (TrimSpace (ExecutionMode r)) = modeFilter)).

Record PendingOp := mkPendingOp {
  po_OperationID : string;
  po_Tool : string;
  po_StatusTool : string;
  po_OperationIDArg : string;
  po_SameToolRecall : bool;
  po_StatusArgs : Args;
  po_ExecutionMode : string;
  po_State : string;
  po_Intent : string;
  po_Summary : string;
  po_UpdatedAt : Z }.

Definition pending_op (r : OperationRecord) : PendingOp :=
  mkPendingOp (ID r) (ToolName r) (StatusToolName r) (StatusOperationIDArg r) (SameToolRecall r)
    (StatusArgs r) (ExecutionMode r) (State r) (OperationIntent r) (OperationSummary r) (UpdatedAt r).

Definition ListOperations (f : Filter) (m : Manager) : list PendingOp :=
  pending_op <$> filter (fun r => list_selects f r = true) (records m).

Definition HasActiveWaitOps (convID turnID : string) (m : Manager) : bool :=
  existsb (fun r => ExecutionModeWaits (ExecutionMode r)) (ActiveOps convID turnID m).

Definition ActiveWaitOps (convID turnID : string) (m : Manager) : list OperationRecord :=
  filter (fun r => ExecutionModeWaits (ExecutionMode r) = true) (ActiveOps convID turnID m).

(** The first match in iteration order: [it] is the order the runtime picked. *)
Definition TerminalFailure (it : list OperationRecord) (convID turnID : string) : option OperationRecord :=
  snd <$> list_find (fun r => record_key r = turnKey convID turnID
                              /\ State r ∈ [StateFailed; StateCanceled]) it.

Definition FindActiveByRequest (it : list OperationRecord) (convID turnID toolName requestArgsDigest : string)
    : option OperationRecord :=
  let convID := TrimSpace convID in
  let turnID := TrimSpace turnID in
  let toolName := TrimSpace toolName in
  let requestArgsDigest := TrimSpace requestArgsDigest in
  if bool_decide (convID = "") || bool_decide (turnID = "") || bool_decide (toolName = "")
     || bool_decide (requestArgsDigest = "") then None
  else
    snd <$> list_find (fun r =>
      Terminal r = false /\ ExecutionModeWaits (ExecutionMode r) = true
      /\ record_key r = turnKey convID turnID
      /\ EqualFold (TrimSpace (ToolName r)) toolName = true
      /\ RequestArgsDigest r = requestArgsDigest) it.

Definition ConsumeChanged (convID turnID : string) (m : Manager) : Manager * list OperationRecord :=
  let takes r := bool_decide (record_key r = turnKey convID turnID) && pendingChange r in
  (set_ops ((fun r => if takes r then set_pendingChange false r else r) <$> ops m) m,
   set_pendingChange false <$> filter (fun r => takes r = true) (records m)).

(** ** Waiting for a change of a turn *)

(** The part under the mutex: [None] when the call returns at once, otherwise
    the channel it goes on to wait on. *)
Definition WaitForChangeSince (convID turnID : string) (signalAfter : Z) (m : Manager)
    : Manager * option nat :=
  let key := turnKey convID turnID in
  if existsb (fun r => bool_decide (record_key r = key) && pendingChange r) (records m) then (m, None)
  else if negb (default 0 (turnSignals m !! key) =? signalAfter) then (m, None)
  else
    let ch := next_ch m in
    let m := set_wchans (<[ch := mkWChan false false]> (wchans m)) (set_next_ch (S ch) m) in
    (set_waiters (<[key := default [] (waiters m !! key) ++ [ch]]> (waiters m)) m, Some ch).

(** [<-ch] can proceed. *)
Definition waiter_ready (ch : nat) (m : Manager) : bool :=
  match wchans m !! ch with Some c => w_full c || w_closed c | None => false end.

Definition SignalTurn (convID turnID : string) (m : Manager) : Manager * bool :=
  if bool_decide (TrimSpace convID = "") || bool_decide (TrimSpace turnID = "") then (m, false)
  else
    let key := turnKey convID turnID in
    if closed m then (m, false)
    else
      let waiting := bool_decide (default [] (waiters m !! key) <> []) in
      let m := set_turnSignals (<[key := wrapu64 (default 0 (turnSignals m !! key) + 1)]> (turnSignals m)) m in
      (signalLocked key m, waiting).

Definition TurnSignalVersion (convID turnID : string) (m : Manager) : Z :=
  default 0 (turnSignals m !! turnKey convID turnID).

(** The delay [WaitForNextPoll] sleeps, [None] when it returns at once. *)
Fixpoint next_poll_delay (now : Z) (waitOps : list OperationRecord) (delay : Z) : option Z :=
  match waitOps with
  | [] => if delay <=? 0 then None else Some delay
  | r :: rest =>
      if PollIntervalMs r <=? 0 then next_poll_delay now rest delay
      else
        let nextAt := UpdatedAt r + dur_mul (PollIntervalMs r) Millisecond in
        if negb (time_after nextAt now) then None
        else
          let nextDelay := time_sub nextAt now in
          next_poll_delay now rest (if (delay =? 0) || (nextDelay <? delay) then nextDelay else delay)
  end.

Definition WaitForNextPoll (now : Z) (convID turnID : string) (m : Manager) : option Z :=
  next_poll_delay now (ActiveWaitOps convID turnID m) 0.

(** ** Subscriptions *)
Definition subscription_targets (opIDs : list string) : gset string :=
  list_to_set (filter (fun id => id <> "") (TrimSpace <$> opIDs)).

(** The channel and the subscription id; a channel returned with id 0 is closed. *)
Definition Subscribe (opIDs : list string) (m : Manager) : Manager * (nat * Z) :=
  let ch := next_ch m in
  let m := set_echans (<[ch := mkEChan [] false]> (echans m)) (set_next_ch (S ch) m) in
  let targets := subscription_targets opIDs in
  if bool_decide (targets = ∅) || allTargetsTerminalLocked targets m
  then (close_events ch m, (ch, 0))
  else
    let subID := wrapu64 (nextSubID m + 1) in
    let m := set_nextSubID subID m in
    let m := set_subscriptions (<[subID := mkSub targets ch]> (subscriptions m)) m in
    (set_subscribeCount (wrap64 (subscribeCount m + 1)) m, (ch, subID)).

Definition Unsubscribe (subID : Z) (m : Manager) : Manager :=
  if subID =? 0 then m
  else match subscriptions m !! subID with
       | None => m
       | Some sub =>
           let m := set_subscriptions (delete subID (subscriptions m)) m in
           let m := set_unsubscribeCount (wrap64 (unsubscribeCount m + 1)) m in
           close_events (sub_ch sub) m
       end.

(** ** Aggregated results *)
Record AggregatedItem := mkItem {
  it_OperationID : string;
  it_ToolName : string;
  it_OperationIntent : string;
  it_OperationSummary : string;
  it_State : string;
  it_Reason : string;
  it_Detail : string;
  it_Payload : string }.

Record AggregatedResult := mkAggregated {
  agg_Items : list AggregatedItem;
  agg_OpsStillActive : bool }.

Definition aggregatedReason (r : OperationRecord) (idle : bool) : string :=
  if idle then "running_idle"
  else if bool_decide (State r = StateCompleted) then "success"
  else if bool_decide (State r = StateFailed) then "failure"
  else if bool_decide (State r = StateCanceled) then "canceled"
  else if bool_decide (State r = StateWaiting) then "waiting"
  else if bool_decide (State r = StateRunning) then "running"
  else if bool_decide (State r = StateStarted) then "started"
  else TrimSpace (State r).

Definition aggregated_item (r : OperationRecord) (reason : string) : AggregatedItem :=
  mkItem (ID r) (ToolName r) (OperationIntent r) (OperationSummary r) (State r) reason (Message r) (KeyData r).

Definition idle_deadline (r : OperationRecord) : Z :=
  LastPayloadChangeAt r
  + dur_mul (if IdleTimeoutMs r <=? 0 then DefaultIdleTimeoutMs else IdleTimeoutMs r) Millisecond.

(** One operation of the loop: (items, still active, done, next wait). *)
Definition await_one (now : Z) (acc : list AggregatedItem * bool * bool * Z) (r : OperationRecord)
    : list AggregatedItem * bool * bool * Z :=
  let '(items, active, done, nextWait) := acc in
  if Terminal r then (items ++ [aggregated_item r (aggregatedReason r false)], active, done, nextWait)
  else if negb (time_after (idle_deadline r) now)
  then (items ++ [aggregated_item r "running_idle"], true, done, nextWait)
  else
    let wait := time_sub (idle_deadline r) now in
    (items ++ [aggregated_item r (TrimSpace (State r))], true, false,
     if (0 <? wait) && (wait <? nextWait) then wait else nextWait).

Definition awaited (opIDs : list string) (m : Manager) : list OperationRecord :=
  omap (fun id => if bool_decide (TrimSpace id = "") then None else ops m !! TrimSpace id) opIDs.

Definition evaluateAwait (now : Z) (opIDs : list string) (m : Manager) : AggregatedResult * bool * Z :=
  let '(items, active, done, nextWait) :=
    foldl (await_one now) ([], false, true, dur_mul DefaultIdleTimeoutMs Millisecond) (awaited opIDs m) in
  let result := mkAggregated items active in
  if done then (result, true, 0)
  else
    let nextWait := if nextWait <=? 0 then Millisecond else nextWait in
    if existsb (fun it => bool_decide (it_Reason it = "running_idle")) items
    then (result, true, 0)
    else (result, false, nextWait).

(** ** The goroutine of [AwaitTerminal]

    Its control state between the points where it touches shared state: the
    manager's mutex or the event channel.  The timer may fire at any moment. *)
Inductive awaiter :=
| AwStart
| AwSubscribe (wait : Z)
| AwSelect (ch : nat) (subID wait : Z)
| AwReceived (ch : nat) (subID : Z) (ok : bool)
| AwReturn (ch : nat) (subID : Z) (out : option AggregatedResult)
| AwDone (out : option AggregatedResult).

Inductive await_event :=
| EvRun
| EvCtxDone
| EvTimer.

(** [v, ok := <-ch]: [None] while it blocks. *)
Definition receive_event (ch : nat) (m : Manager) : option (Manager * bool) :=
  match echans m !! ch with
  | Some c => match e_buf c with
              | _ :: rest => Some (set_echans (<[ch := mkEChan rest (e_closed c)]> (echans m)) m, true)
              | [] => if e_closed c then Some (m, false) else None
              end
  | None => None
  end.

Definition AwaitTerminal_step (opIDs : list string) (now : Z) (ev : await_event) (m : Manager) (a : awaiter)
    : Manager * awaiter :=
  match a with
  | AwStart =>
      let '(result, done, wait) := evaluateAwait now opIDs m in
      (m, if done then AwDone (Some result) else AwSubscribe wait)
  | AwSubscribe wait =>
      let '(m', (ch, subID)) := Subscribe opIDs m in
      (m', AwSelect ch subID wait)
  | AwSelect ch subID wait =>
      match ev with
      | EvCtxDone => (m, AwReturn ch subID None)
      | EvTimer => (m, AwReceived ch subID true)
      | EvRun => match receive_event ch m with
                 | Some (m', ok) => (m', AwReceived ch subID ok)
                 | None => (m, a)
                 end
      end
  | AwReceived ch subID ok =>
      let '(result, done, wait) := evaluateAwait now opIDs m in
      (m, if done then AwReturn ch subID (Some result)
          else if ok then AwSelect ch subID wait else AwReturn ch subID None)
  | AwReturn _ subID out => (Unsubscribe subID m, AwDone out)
  | AwDone out => (m, a)
  end.

(** ** Poll failures *)
Definition RecordPollFailure (now : Z) (id errMsg : string) (transient : bool) (m : Manager)
    : Manager * option (OperationRecord * bool) :=
  match ops m !! TrimSpace id with
  | None => (m, None)
  | Some r =>
      let r := set_PollFailures (wrap64 (PollFailures r + 1)) r in
      let r := set_UpdatedAt now (set_Error (TrimSpace errMsg) r) in
      if transient && (PollFailures r <? DefaultMaxPollFailures)
      then (set_ops (<[TrimSpace id := r]> (ops m)) m, Some (r, false))
      else
        let r := set_Status "failed" (set_State StateFailed r) in
        let r := set_terminalPayload
                   (Some (newTerminalPayload (State r) (Status r) "" "" None "" (Error r))) r in
        let r := set_pendingChange true r in
        let r := set_changeDigest (changeDigest_of (Status r) (Message r) (State r) (KeyData r)) r in
        let m := set_ops (<[TrimSpace id := r]> (ops m)) m in
        (signalLocked (record_key r) m, Some (r, true))
  end.

Definition ResetPollFailures (now : Z) (id : string) (m : Manager) : Manager * option (OperationRecord * bool) :=
  match ops m !! TrimSpace id with
  | None => (m, None)
  | Some r =>
      if PollFailures r =? 0 then (m, Some (r, false))
      else
        let r := set_UpdatedAt now (set_PollFailures 0 r) in
        (set_ops (<[TrimSpace id := r]> (ops m)) m, Some (r, true))
  end.

(** ** Sweeping and shutdown *)
Definition prunable (now maxAge : Z) (m : Manager) (id : string) (r : OperationRecord) : bool :=
  negb (opHasSubscriptionLocked id m)
  && negb (time_sub now (UpdatedAt r) <? maxAge)
  && negb (negb (Terminal r) && ExecutionModeWaits (ExecutionMode r)).

Definition Sweep (now maxAge : Z) (m : Manager) : Manager * Z :=
  if maxAge <=? 0 then (m, 0)
  else
    let '(m, pruned) :=
      foldl (fun '(m', n) '(id, r) =>
               if prunable now maxAge m id r then (dropOpLocked id m', n + 1) else (m', n))
            (m, 0) (map_to_list (ops m)) in
    (if 0 <? pruned then set_sweepPruneCount (wrap64 (sweepPruneCount m + pruned)) m else m, pruned).

(** The launch decision of [StartGC]; [gc] is the child context's cancel. *)
Definition StartGC (ctx_present : bool) (interval maxAge : Z) (gc : nat) (m : Manager) : Manager * bool :=
  if negb ctx_present || (interval <=? 0) || (maxAge <=? 0) then (m, false)
  else if closed m then (cancel_fn gc m, false)
  else (set_gcCancels (gcCancels m ++ [gc]) m, true).

(** [Close] up to the waits: everything it does to the shared state.  It then
    blocks until every sweeper it canceled has exited and [pollerWG] is 0. *)
Definition Close (m : Manager) : Manager :=
  if closed m then m
  else
    let m := set_closed true m in
    let gcs := gcCancels m in
    let m := set_gcCancels [] m in
    let m := foldl (fun m '(_, c) => cancel_fn c m) m (map_to_list (pollerCancels m)) in
    let m := set_pollerCancels ∅ m in
    (* the deferred recover turns a close of a closed channel into a no-op *)
    let m := foldl (fun m '(_, sub) =>
                      match echans m !! sub_ch sub with
                      | Some c => set_echans (<[sub_ch sub := mkEChan (e_buf c) true]> (echans m)) m
                      | None => m
                      end) m (map_to_list (subscriptions m)) in
    let m := set_subscriptions ∅ m in
    let m := foldl (fun m '(_, ws) => foldl (fun m w => wake w m) m ws) m (map_to_list (waiters m)) in
    let m := set_waiters ∅ m in
    let m := set_turnSignals ∅ m in
    foldl (fun m c => cancel_fn c m) m gcs.

(** ** Statistics *)
Record ManagerStats := mkStats {
  st_RegisterCount : Z;
  st_RegisterOverwriteCount : Z;
  st_UpdateCount : Z;
  st_UpdateChangedCount : Z;
  st_SweepPruneCount : Z;
  st_SubscribeCount : Z;
  st_UnsubscribeCount : Z;
  st_ActiveOps : nat;
  st_ActiveSubscriptions : nat;
  st_ActivePollers : nat }.

Definition Stats (m : Manager) : ManagerStats :=
  mkStats (registerCount m) (registerOverwriteCount m) (updateCount m) (updateChangedCount m)
    (sweepPruneCount m) (subscribeCount m) (unsubscribeCount m)
    (size (ops m)) (size (subscriptions m)) (size (pollers m)).
End Operations.
