(* ===== verification/AsyncInv.v ===== *)
(** * Correctness of the asynchronous operation manager

    The calls of the manager as one step function, the states reachable through
    any sequence of them, and the invariant of those states: no runtime fault
    (double close, send on a closed channel, negative wait group), records
    filed under their own identifier, terminal records that carry a terminal
    payload agreeing with their state, change digests that are never stale, and
    a wait group that counts the admitted pollers. *)
From stdpp Require Import base gmap strings list fin_maps numbers.
From Stdlib Require Import ZArith Lia Ascii.
From S2P Require Import Prelude GoStrings Digest GoJson Async.

Open Scope Z_scope.

#[global] Arguments changeDigest_of : simpl never.
#[global] Arguments TrimSpace : simpl never.
#[global] Arguments DeriveState : simpl never.
#[global] Arguments turnKey : simpl never.
#[global] Arguments register_record : simpl never.
#[global] Arguments update_fields : simpl never.
#[global] Arguments update_payload : simpl never.
#[global] Arguments newTerminalPayload : simpl never.
#[global] Arguments terminal_state : simpl never.

#[global] Arguments wake : simpl never.
#[global] Arguments publish_one : simpl never.
#[global] Arguments signalLocked : simpl never.
#[global] Arguments publishChangeLocked : simpl never.
#[global] Arguments allTargetsTerminalLocked : simpl never.

(** ** Waiters *)
Section Waiters.
Implicit Types m : Manager.

Definition wake_all (ws : list nat) (wc : gmap nat WChan) : gmap nat WChan :=
  foldl (fun wc w => <[w := mkWChan true true]> wc) wc ws.

Lemma wake_all_in ws wc w : w ∈ ws -> wake_all ws wc !! w = Some (mkWChan true true).
Proof.
  revert wc. induction ws as [|v ws IH] using rev_ind; intros wc; [by intros ?%elem_of_nil|].
  unfold wake_all. rewrite foldl_app. simpl. intros [H| ->%list_elem_of_singleton]%elem_of_app.
  - destruct (decide (v = w)) as [->|Hne]; [apply lookup_insert_eq|].
    rewrite lookup_insert_ne by done. by apply IH.
  - apply lookup_insert_eq.
Qed.

Lemma wake_all_notin ws wc w : w ∉ ws -> wake_all ws wc !! w = wc !! w.
Proof.
  revert wc. induction ws as [|v ws IH]; intros wc; [done|]. simpl.
  intros [Hne Hn]%not_elem_of_cons. change (wake_all ws (<[v:=mkWChan true true]> wc) !! w = wc !! w).
  rewrite IH by done. by rewrite lookup_insert_ne.
Qed.

Definition waiting (w : nat) m : Prop := wchans m !! w = Some (mkWChan false false).

Lemma foldl_wake ws m :
  NoDup ws -> (forall w, w ∈ ws -> waiting w m) ->
  foldl (fun m w => wake w m) m ws = set_wchans (wake_all ws (wchans m)) m.
Proof.
  revert m. induction ws as [|w ws IH]; intros m Hnd Hw; [by destruct m|].
  apply list.NoDup_cons in Hnd as [Hn Hnd]. simpl.
  unfold wake at 2. rewrite (Hw w) by left. simpl.
  rewrite IH; [done|done|]. intros v Hv. unfold waiting. simpl.
  rewrite lookup_insert_ne by (intros ->; done). apply Hw. by right.
Qed.

(** The waiters of all turns: registered channels are open, distinct and older
    than the next one. *)
Record waiters_ok m : Prop := {
  wo_nodup : forall key ws, waiters m !! key = Some ws -> NoDup ws;
  wo_open : forall key ws w, waiters m !! key = Some ws -> w ∈ ws -> waiting w m;
  wo_apart : forall k1 k2 ws1 ws2 w, waiters m !! k1 = Some ws1 -> waiters m !! k2 = Some ws2 ->
             w ∈ ws1 -> w ∈ ws2 -> k1 = k2;
  wo_fresh : forall w, is_Some (wchans m !! w) -> (w < next_ch m)%nat }.

Lemma signalLocked_eq key m :
  waiters_ok m ->
  signalLocked key m =
    set_wchans (wake_all (default [] (waiters m !! key)) (wchans m)) (set_waiters (delete key (waiters m)) m).
Proof.
  intros Hw. unfold signalLocked. rewrite foldl_wake; [done| |].
  - destruct (waiters m !! key) as [ws|] eqn:E; [by eapply wo_nodup|constructor].
  - intros w. destruct (waiters m !! key) as [ws|] eqn:E; [|by intros ?%elem_of_nil].
    exact (wo_open _ Hw _ _ w E).
Qed.

Lemma waiters_ok_same m m' :
  waiters m' = waiters m -> wchans m' = wchans m -> (next_ch m <= next_ch m')%nat ->
  waiters_ok m -> waiters_ok m'.
Proof.
  intros E1 E2 E3 [H1 H2 H3 H4].
  split; unfold waiting in *; rewrite ?E1, ?E2; [done..|].
  intros w Hw. specialize (H4 w Hw). lia.
Qed.

(** Forgetting waiters. *)
Lemma waiters_ok_sub m m' :
  (forall key ws', waiters m' !! key = Some ws' ->
     exists ws, waiters m !! key = Some ws /\ ws' `sublist_of` ws) ->
  wchans m' = wchans m -> next_ch m' = next_ch m ->
  waiters_ok m -> waiters_ok m'.
Proof.
  intros Hsub E2 E3 [H1 H2 H3 H4].
  assert (Hin : forall key ws' w, waiters m' !! key = Some ws' -> w ∈ ws' ->
                exists ws, waiters m !! key = Some ws /\ w ∈ ws).
  { intros key ws' w E Hw. destruct (Hsub _ _ E) as (ws & E' & Hs). exists ws. split; [done|].
    by eapply elem_of_sublist. }
  split; unfold waiting in *; rewrite ?E2, ?E3.
  - intros key ws' E. destruct (Hsub _ _ E) as (ws & E' & Hs). eapply sublist_NoDup; eauto.
  - intros key ws' w E Hw. destruct (Hin _ _ _ E Hw) as (ws & E' & Hw'). eauto.
  - intros k1 k2 ws1 ws2 w E1' E2' Hw1 Hw2.
    destruct (Hin _ _ _ E1' Hw1) as (? & ? & ?), (Hin _ _ _ E2' Hw2) as (? & ? & ?). eauto.
  - done.
Qed.

Lemma waiters_ok_signal key m : waiters_ok m -> waiters_ok (signalLocked key m).
Proof.
  intros Hw. rewrite signalLocked_eq by done. destruct Hw as [H1 H2 H3 H4].
  assert (Hna : forall k ws w, delete key (waiters m) !! k = Some ws -> w ∈ ws ->
                w ∉ default [] (waiters m !! key)).
  { intros k ws w [Hne E]%lookup_delete_Some Hw Hin.
    destruct (waiters m !! key) as [ws0|] eqn:E0; [|by apply elem_of_nil in Hin]. eauto. }
  split; unfold waiting in *; simpl.
  - intros k ws [_ E]%lookup_delete_Some. eauto.
  - intros k ws w E Hin. rewrite wake_all_notin by eauto.
    apply lookup_delete_Some in E as [_ E]. eauto.
  - intros k1 k2 ws1 ws2 w [_ E1]%lookup_delete_Some [_ E2]%lookup_delete_Some. eauto.
  - intros w Hs. apply H4. destruct (decide (w ∈ default [] (waiters m !! key))) as [Hin|Hn].
    + destruct (waiters m !! key) as [ws|] eqn:E; [|by apply elem_of_nil in Hin].
      rewrite (H2 key ws w E Hin). eauto.
    + by rewrite wake_all_notin in Hs.
Qed.

Lemma waiters_ok_wait key m :
  waiters_ok m ->
  waiters_ok (set_waiters (<[key := default [] (waiters m !! key) ++ [next_ch m]]> (waiters m))
                (set_wchans (<[next_ch m := mkWChan false false]> (wchans m)) (set_next_ch (S (next_ch m)) m))).
Proof.
  intros [H1 H2 H3 H4].
  assert (Hfresh : wchans m !! next_ch m = None).
  { destruct (wchans m !! next_ch m) eqn:E; [|done]. specialize (H4 (next_ch m)). rewrite E in H4.
    assert (next_ch m < next_ch m)%nat by eauto. lia. }
  assert (Hnin : forall k ws, waiters m !! k = Some ws -> next_ch m ∉ ws).
  { intros k ws E Hin. specialize (H2 _ _ _ E Hin). unfold waiting in H2. congruence. }
  assert (Hin : forall k ws w, <[key:=default [] (waiters m !! key) ++ [next_ch m]]> (waiters m) !! k = Some ws ->
           w ∈ ws -> (w = next_ch m /\ k = key) \/ exists ws0, waiters m !! k = Some ws0 /\ w ∈ ws0).
  { intros k ws w [[<- <-]|[Hne E]]%lookup_insert_Some; [|eauto].
    destruct (waiters m !! key) as [ws0|] eqn:E0; simpl; set_solver. }
  split; unfold waiting in *; simpl.
  - intros k ws [[<- <-]|[Hne E]]%lookup_insert_Some; [|eauto].
    destruct (waiters m !! key) as [ws0|] eqn:E0; simpl.
    + apply list.NoDup_app. split; [eauto|]. split; [|apply NoDup_singleton].
      intros w Hw ->%list_elem_of_singleton. by apply (Hnin _ _ E0).
    + apply NoDup_singleton.
  - intros k ws w E Hw. destruct (Hin _ _ _ E Hw) as [[-> _]|(ws0 & E0 & Hw0)].
    + apply lookup_insert_eq.
    + rewrite lookup_insert_ne; [by eauto|]. intros <-. by apply (Hnin _ _ E0).
  - intros k1 k2 ws1 ws2 w E1 E2 Hw1 Hw2.
    destruct (Hin _ _ _ E1 Hw1) as [[-> ->]|(wa & Ea & Ha)], (Hin _ _ _ E2 Hw2) as [[Hb ->]|(wb & Eb & Hb)];
      [done| | |eauto].
    + destruct (Hnin _ _ Eb Hb).
    + subst. destruct (Hnin _ _ Ea Ha).
  - intros w. destruct (decide (w = next_ch m)) as [->|Hne]; [lia|].
    rewrite lookup_insert_ne by done. intros Hs. specialize (H4 w Hs). lia.
Qed.
End Waiters.

(** ** Subscriptions and publication *)
Section Subscriptions.
Implicit Types m : Manager.

(** An event offered to a bounded channel is dropped when the buffer is full. *)
Definition offered (ev : ChangeEvent) (buf : list ChangeEvent) : list ChangeEvent :=
  if (length buf <? event_capacity)%nat then buf ++ [ev] else buf.

Definition settles (id : string) m (s : changeSubscription) : bool :=
  bool_decide (id ∈ sub_targets s) && allTargetsTerminalLocked (sub_targets s) m.

(** What a publication about [id] leaves in the channel of a subscription. *)
Definition chan_after (id : string) (ev : ChangeEvent) m (s : changeSubscription)
    (buf : list ChangeEvent) : EChan :=
  if bool_decide (id ∈ sub_targets s) then mkEChan (offered ev buf) (settles id m s) else mkEChan buf false.

Definition open_with (ch : nat) (buf : list ChangeEvent) m : Prop := echans m !! ch = Some (mkEChan buf false).

Lemma publish_one_eq id ev m i s buf :
  open_with (sub_ch s) buf m ->
  publish_one id ev m (i, s) =
    set_echans (<[sub_ch s := chan_after id ev m s buf]> (echans m))
      (set_subscriptions (if settles id m s then delete i (subscriptions m) else subscriptions m) m).
Proof.
  intros Ho. unfold publish_one, chan_after, settles, offer, open_with in *. rewrite Ho. simpl.
  destruct (bool_decide (id ∈ sub_targets s)) eqn:Ht; simpl.
  2: { rewrite insert_id by done. by destruct m. }
  unfold offered. destruct (length buf <? event_capacity)%nat.
  - change (allTargetsTerminalLocked (sub_targets s) (set_echans ?e m)) with
      (allTargetsTerminalLocked (sub_targets s) m).
    destruct (allTargetsTerminalLocked (sub_targets s) m); [|by destruct m].
    unfold close_events. simpl. rewrite lookup_insert_eq. simpl. by rewrite insert_insert_eq.
  - destruct (allTargetsTerminalLocked (sub_targets s) m).
    + unfold close_events. rewrite Ho. done.
    + rewrite insert_id by done. by destruct m.
Qed.

(** The publication over a list of subscriptions with open, distinct channels. *)
Record published (id : string) (ev : ChangeEvent) m (l : list (Z * changeSubscription)) m' : Prop := {
  pb_frame : m' = set_echans (echans m') (set_subscriptions (subscriptions m') m);
  pb_chan : forall i s buf, (i, s) ∈ l -> open_with (sub_ch s) buf m ->
            echans m' !! sub_ch s = Some (chan_after id ev m s buf);
  pb_sub : forall i s, (i, s) ∈ l ->
           subscriptions m' !! i = if settles id m s then None else subscriptions m !! i;
  pb_other_sub : forall i, i ∉ l.*1 -> subscriptions m' !! i = subscriptions m !! i;
  pb_other_chan : forall ch, ch ∉ sub_ch <$> l.*2 -> echans m' !! ch = echans m !! ch }.

Lemma publish_all id ev l m :
  NoDup l.*1 -> NoDup (sub_ch <$> l.*2) ->
  (forall i s, (i, s) ∈ l -> exists buf, open_with (sub_ch s) buf m) ->
  published id ev m l (foldl (publish_one id ev) m l).
Proof.
  revert m. induction l as [|[i s] l IH]; intros m Hi Hc Ho; simpl in *.
  { split; try done; [by destruct m|intros ??? []%elem_of_nil|intros ?? []%elem_of_nil]. }
  apply list.NoDup_cons in Hi as [Hin Hi]. apply list.NoDup_cons in Hc as [Hcn Hc].
  destruct (Ho i s) as [buf Hb]; [by left|].
  rewrite (publish_one_eq _ _ _ _ _ _ Hb).
  set (m1 := set_echans _ _).
  assert (Hm1 : forall j s' b, (j, s') ∈ l -> open_with (sub_ch s') b m -> open_with (sub_ch s') b m1).
  { intros j s' b Hj Hb'. unfold open_with, m1. simpl. rewrite lookup_insert_ne; [done|].
    intros E. apply Hcn. rewrite E. apply list_elem_of_fmap. exists s'. split; [done|].
    apply list_elem_of_fmap. by exists (j, s'). }
  destruct (IH m1 Hi Hc) as [F1 F2 F3 F4 F5].
  { intros j s' Hj. destruct (Ho j s') as [b Hb']; [by right|]. exists b. eauto. }
  split.
  - rewrite F1 at 1. by destruct m.
  - intros j s' b [[= -> ->]|Hj]%elem_of_cons Hb'.
    + rewrite F5 by done. unfold m1. simpl. rewrite lookup_insert_eq.
      unfold open_with in *. by replace b with buf by congruence.
    + by rewrite (F2 j s' b Hj); [|eauto].
  - intros j s' [[= -> ->]|Hj]%elem_of_cons.
    + rewrite F4 by done. unfold m1. simpl. destruct (settles id m s); [apply lookup_delete_eq|done].
    + rewrite (F3 j s' Hj). change (settles id m1 s') with (settles id m s').
      destruct (settles id m s'); [done|]. unfold m1. simpl.
      destruct (settles id m s); [|done]. rewrite lookup_delete_ne; [done|].
      intros <-. apply Hin. apply list_elem_of_fmap. by exists (i, s').
  - intros j [Hne Hj]%not_elem_of_cons. rewrite F4 by done. unfold m1. simpl.
    destruct (settles id m s); [by rewrite lookup_delete_ne|done].
  - intros ch [Hne Hch]%not_elem_of_cons. rewrite F5 by done. unfold m1. simpl.
    by rewrite lookup_insert_ne.
Qed.

Record subs_ok m : Prop := {
  so_open : forall i s, subscriptions m !! i = Some s ->
            exists buf, open_with (sub_ch s) buf m /\ (length buf <= event_capacity)%nat;
  so_apart : forall i j s t, subscriptions m !! i = Some s -> subscriptions m !! j = Some t ->
             sub_ch s = sub_ch t -> i = j;
  so_targets : forall i s, subscriptions m !! i = Some s -> sub_targets s <> ∅;
  so_fresh : forall ch, is_Some (echans m !! ch) -> (ch < next_ch m)%nat }.

Lemma subs_ok_same m m' :
  subscriptions m' = subscriptions m -> echans m' = echans m -> (next_ch m <= next_ch m')%nat ->
  subs_ok m -> subs_ok m'.
Proof.
  intros E1 E2 E3 [H1 H2 H3 H4].
  split; unfold open_with in *; rewrite ?E1, ?E2; [done..|].
  intros w Hw. specialize (H4 w Hw). lia.
Qed.

Lemma subs_channels_NoDup m : subs_ok m -> NoDup (sub_ch <$> (map_to_list (subscriptions m)).*2).
Proof.
  intros Hs. rewrite <- list_fmap_compose.
  apply NoDup_fmap_2_strong; [|apply NoDup_map_to_list].
  intros [i s] [j t] Hi%elem_of_map_to_list Hj%elem_of_map_to_list E. simpl in E.
  assert (i = j) as -> by (eapply (so_apart _ Hs); eauto). congruence.
Qed.

Lemma publishChangeLocked_spec r prior next m :
  subs_ok m ->
  published (ID r) (change_event r prior next) m (map_to_list (subscriptions m))
    (publishChangeLocked r prior next m).
Proof.
  intros Hs. unfold publishChangeLocked. apply publish_all.
  - apply NoDup_fst_map_to_list.
  - by apply subs_channels_NoDup.
  - intros i s Hi%elem_of_map_to_list. destruct (so_open _ Hs _ _ Hi) as (buf & ? & _). eauto.
Qed.

Lemma offered_capacity ev buf :
  (length buf <= event_capacity)%nat -> (length (offered ev buf) <= event_capacity)%nat.
Proof.
  unfold offered. destruct (Nat.ltb_spec (length buf) event_capacity); [|done].
  rewrite length_app. simpl. lia.
Qed.

Lemma published_subs id ev m m' i s :
  published id ev m (map_to_list (subscriptions m)) m' ->
  subscriptions m' !! i = Some s -> subscriptions m !! i = Some s /\ settles id m s = false.
Proof.
  intros P Hi. destruct (subscriptions m !! i) as [t|] eqn:E.
  - assert (Hin : (i, t) ∈ map_to_list (subscriptions m)) by by apply elem_of_map_to_list.
    rewrite (pb_sub _ _ _ _ _ P _ _ Hin) in Hi. destruct (settles id m t) eqn:?; [done|].
    rewrite E in Hi. by simplify_eq.
  - rewrite (pb_other_sub _ _ _ _ _ P) in Hi; [congruence|].
    intros ([j t] & -> & Hj%elem_of_map_to_list)%list_elem_of_fmap. simpl in *. congruence.
Qed.

Lemma published_ok id ev m m' :
  subs_ok m -> published id ev m (map_to_list (subscriptions m)) m' -> subs_ok m'.
Proof.
  intros Hs P. pose proof (pb_frame _ _ _ _ _ P) as F.
  assert (Hn : next_ch m' = next_ch m) by by rewrite F.
  destruct Hs as [H1 H2 H3 H4]. split.
  - intros i s Hi. destruct (published_subs _ _ _ _ _ _ P Hi) as [E Hst].
    destruct (H1 _ _ E) as (buf & Ho & Hl).
    assert (Hin : (i, s) ∈ map_to_list (subscriptions m)) by by apply elem_of_map_to_list.
    unfold open_with. rewrite (pb_chan _ _ _ _ _ P _ _ _ Hin Ho). unfold chan_after. rewrite Hst.
    destruct (bool_decide (id ∈ sub_targets s)); eexists; (split; [done|]); [by apply offered_capacity|done].
  - intros i j s t Hi Hj. apply (published_subs _ _ _ _ _ _ P) in Hi as [Hi _].
    apply (published_subs _ _ _ _ _ _ P) in Hj as [Hj _]. eauto.
  - intros i s Hi. apply (published_subs _ _ _ _ _ _ P) in Hi as [Hi _]. eauto.
  - intros ch Hch. rewrite Hn. apply H4.
    destruct (decide (ch ∈ sub_ch <$> (map_to_list (subscriptions m)).*2)) as [Hin|Hnin].
    + apply list_elem_of_fmap in Hin as (s & -> & Hin).
      apply list_elem_of_fmap in Hin as ([i t] & -> & Hin%elem_of_map_to_list).
      destruct (H1 _ _ Hin) as (buf & Ho & _). simpl. rewrite Ho. eauto.
    + by rewrite (pb_other_chan _ _ _ _ _ P) in Hch.
Qed.
End Subscriptions.

(** ** Records *)
Section Records.

(** A record agrees with itself: it is filed under its own identifier, its
    digest is that of its fields, and when terminal it carries the payload of
    its terminal state. *)
Record rec_ok (id : string) (r : OperationRecord) : Prop := {
  ro_id : ID r = id;
  ro_digest : changeDigest r = changeDigest_of (Status r) (Message r) (State r) (KeyData r);
  ro_payload : Terminal r = true ->
  exists p, terminalPayload r = Some p /\ DeriveState (ex_Status p) (ex_Error p) "" = State r }.

Lemma terminal_state_cases s :
  terminal_state s = true -> s = StateCompleted \/ s = StateFailed \/ s = StateCanceled.
Proof. unfold terminal_state. intros H%bool_decide_eq_true. set_solver. Qed.

Lemma DeriveState_terminal_word s e : terminal_state s = true -> DeriveState s e "" = s.
Proof. intros [->|[->| ->]]%terminal_state_cases; vm_compute; reflexivity. Qed.

Lemma DeriveState_trim s e : DeriveState (TrimSpace s) (TrimSpace e) "" = DeriveState s e "".
Proof. unfold DeriveState. by rewrite !TrimSpace_idemp. Qed.

Lemma newTerminalPayload_state state st msg kind pct kd err :
  terminal_state state = true ->
  let p := newTerminalPayload state st msg kind pct kd err in
  DeriveState (ex_Status p) (ex_Error p) "" = state.
Proof.
  intros Ht. unfold newTerminalPayload. cbn [ex_Status ex_Error].
  destruct (bool_decide (TrimSpace st = "") || _) eqn:E.
  - assert (TrimSpace state = state) as -> by (apply terminal_state_cases in Ht as [->|[->| ->]]; vm_compute; reflexivity).
    by apply DeriveState_terminal_word.
  - apply orb_false_iff in E as [_ E]. apply negb_false_iff, bool_decide_eq_true in E.
    rewrite <- E. by rewrite <- (DeriveState_trim (TrimSpace st) err), TrimSpace_idemp.
Qed.
End Records.

(** ** The invariant *)
Section Invariant.
Implicit Types m : Manager.

Record Inv m : Prop := {
  inv_no_fault : panicked m = false;
  inv_waiters : waiters_ok m;
  inv_subs : subs_ok m;
  inv_recs : map_Forall rec_ok (ops m);
  inv_wg : pollerWG m = Z.of_nat (size (pollers m)) }.

Lemma Inv_New : Inv NewManager.
Proof.
  split; [done| | |apply map_Forall_empty|done]; split; simpl; intros *; rewrite ?lookup_empty; try done;
    by intros [].
Qed.

(** A change of the remaining fields. *)
Lemma Inv_same m m' :
  (panicked m', waiters m', wchans m', next_ch m', subscriptions m', echans m', ops m', pollerWG m', pollers m')
  = (panicked m, waiters m, wchans m, next_ch m, subscriptions m, echans m, ops m, pollerWG m, pollers m) ->
  Inv m -> Inv m'.
Proof.
  intros E [H1 H2 H3 H4 H5]. injection E as E1 E2 E3 E4 E5 E6 E7 E8 E9. split.
  - by rewrite E1.
  - apply (waiters_ok_same m); [done..| |done]. lia.
  - apply (subs_ok_same m); [done..| |done]. lia.
  - by rewrite E7.
  - by rewrite E8, E9.
Qed.

Lemma Inv_ops o m : map_Forall rec_ok o -> Inv m -> Inv (set_ops o m).
Proof.
  intros Ho [H1 H2 H3 H4 H5]. split; [done| | |done|done].
  - by eapply waiters_ok_same; [..|exact H2].
  - by eapply subs_ok_same; [..|exact H3].
Qed.

Lemma Inv_insert id r m : rec_ok id r -> Inv m -> Inv (set_ops (<[id := r]> (ops m)) m).
Proof. intros Hr Hm. apply Inv_ops; [|done]. apply map_Forall_insert_2; [done|apply Hm]. Qed.

Lemma Inv_waiters m m' :
  (panicked m', subscriptions m', echans m', ops m', pollerWG m', pollers m')
  = (panicked m, subscriptions m, echans m, ops m, pollerWG m, pollers m) ->
  (next_ch m <= next_ch m')%nat -> waiters_ok m' -> Inv m -> Inv m'.
Proof.
  intros E Hn Hw [H1 H2 H3 H4 H5]. injection E as E1 E2 E3 E4 E5 E6.
  split; rewrite ?E1, ?E4, ?E5, ?E6; try done. by eapply subs_ok_same; [..|exact H3].
Qed.

Lemma Inv_subs m m' :
  (panicked m', waiters m', wchans m', ops m', pollerWG m', pollers m')
  = (panicked m, waiters m, wchans m, ops m, pollerWG m, pollers m) ->
  (next_ch m <= next_ch m')%nat -> subs_ok m' -> Inv m -> Inv m'.
Proof.
  intros E Hn Hs [H1 H2 H3 H4 H5]. injection E as E1 E2 E3 E4 E5 E6.
  split; rewrite ?E1, ?E4, ?E5, ?E6; try done. by eapply waiters_ok_same; [..|exact H2].
Qed.

Lemma Inv_signal key m : Inv m -> Inv (signalLocked key m).
Proof.
  intros Hm. pose proof (waiters_ok_signal key m (inv_waiters _ Hm)) as Hw.
  rewrite signalLocked_eq in * by apply Hm. apply (Inv_waiters m); [done|simpl; lia|exact Hw|done].
Qed.

Lemma Inv_publish r prior next m : Inv m -> Inv (publishChangeLocked r prior next m).
Proof.
  intros Hm. pose proof (publishChangeLocked_spec r prior next m (inv_subs _ Hm)) as P.
  pose proof (published_ok _ _ _ _ (inv_subs _ Hm) P) as Hs.
  pose proof (pb_frame _ _ _ _ _ P) as F.
  apply (Inv_subs m); [by rewrite F|by rewrite F|done|done].
Qed.

Lemma Inv_pollers f p wg m :
  wg = Z.of_nat (size p) -> Inv m -> Inv (set_pollerWG wg (set_pollers p (set_pollerCancels f m))).
Proof.
  intros -> [H1 H2 H3 H4 H5]. split; [done| | |done|done].
  - by eapply waiters_ok_same; [..|exact H2].
  - by eapply subs_ok_same; [..|exact H3].
Qed.

Lemma fresh_wchan m : waiters_ok m -> wchans m !! next_ch m = None.
Proof.
  intros Hw. destruct (wchans m !! next_ch m) eqn:E; [|done].
  assert (next_ch m < next_ch m)%nat by (apply Hw; eauto). lia.
Qed.

Lemma fresh_echan m : subs_ok m -> echans m !! next_ch m = None.
Proof.
  intros Hw. destruct (echans m !! next_ch m) eqn:E; [|done].
  assert (next_ch m < next_ch m)%nat by (apply Hw; eauto). lia.
Qed.

(** *** Pollers *)
Lemma Inv_admit id f m : id ∉ pollers m -> Inv m -> Inv (admit_poller id (set_pollerCancels f m)).
Proof.
  intros Hid Hm. unfold admit_poller. apply (Inv_pollers f ({[id]} ∪ pollers m)); [|done].
  simpl. rewrite (inv_wg _ Hm), size_union, size_singleton by set_solver. lia.
Qed.

Lemma Inv_AdmitPoller id c m : Inv m -> Inv (AdmitPoller id c m).1.
Proof.
  intros Hm. unfold AdmitPoller. repeat case_match; try done; cbn [fst].
  - by apply Inv_admit; [eapply bool_decide_eq_false_1|].
  - replace m with (set_pollerCancels (pollerCancels m) m) by by destruct m.
    by apply Inv_admit; [eapply bool_decide_eq_false_1|].
Qed.

Lemma Inv_TryStartPoller id m : Inv m -> Inv (TryStartPoller id m).1.
Proof.
  intros Hm. unfold TryStartPoller. repeat case_match; try done; cbn [fst].
  replace m with (set_pollerCancels (pollerCancels m) m) by by destruct m.
  by apply Inv_admit; [eapply bool_decide_eq_false_1|].
Qed.

(** One finished poller leaves the set, and the wait group, when it was admitted. *)
Lemma FinishPoller_eq id m :
  Inv m -> TrimSpace id <> "" -> exists f c,
    FinishPoller id m =
      set_canceled c (set_pollerWG (Z.of_nat (size (pollers m ∖ {[TrimSpace id]})))
                        (set_pollers (pollers m ∖ {[TrimSpace id]}) (set_pollerCancels f m))).
Proof.
  intros Hm Hid. unfold FinishPoller. rewrite bool_decide_eq_false_2 by done.
  set (k := TrimSpace id). set (m1 := match pollerCancels _ !! k with Some _ => _ | None => _ end).
  assert (exists f c, m1 = set_canceled c (set_pollers (pollers m ∖ {[k]}) (set_pollerCancels f m))) as (f & c & E1).
  { unfold m1. simpl. destruct (pollerCancels m !! k) as [c|]; [by repeat eexists|].
    exists (pollerCancels m), (canceled m). by destruct m. }
  exists f, c. rewrite E1. case_bool_decide as Ek.
  - unfold wg_done. simpl. rewrite (inv_wg _ Hm).
    assert (Hsz : size (pollers m) = S (size (pollers m ∖ {[k]}))).
    { rewrite size_difference, size_singleton by set_solver.
      assert (size (pollers m) <> 0%nat) by (apply size_non_empty_iff; set_solver). lia. }
    rewrite Hsz. replace (Z.of_nat (S (size (pollers m ∖ {[k]}))) - 1)
      with (Z.of_nat (size (pollers m ∖ {[k]}))) by lia.
    destruct (Z.ltb_spec (Z.of_nat (size (pollers m ∖ {[k]}))) 0); [lia|done].
  - assert (Hd : pollers m ∖ {[k]} = pollers m) by set_solver.
    rewrite Hd, <- (inv_wg _ Hm). by destruct m.
Qed.

Lemma Inv_FinishPoller id m : Inv m -> Inv (FinishPoller id m).
Proof.
  intros Hm. destruct (decide (TrimSpace id = "")) as [E|E].
  { unfold FinishPoller. by rewrite bool_decide_eq_true_2. }
  destruct (FinishPoller_eq id m Hm E) as (f & c & ->).
  eapply Inv_same; [|by apply (Inv_pollers f (pollers m ∖ {[TrimSpace id]}) _ m eq_refl)]. done.
Qed.

(** Firing cancel functions changes only the set of canceled ones. *)
Lemma foldl_cancels {X} (f : X -> option nat) (l : list X) m :
  exists c, foldl (fun m x => cancel_opt (f x) m) m l = set_canceled c m
            /\ canceled m ⊆ c /\ (forall x n, x ∈ l -> f x = Some n -> n ∈ c).
Proof.
  revert m. induction l as [|x l IH]; intros m; simpl.
  { exists (canceled m). split; [by destruct m|]. split; [done|by intros ?? ?%elem_of_nil]. }
  destruct (IH (cancel_opt (f x) m)) as (c & -> & Hsub & Hin). exists c.
  split; [unfold cancel_opt; destruct (f x); [done|by destruct m]|].
  destruct (f x) as [n|] eqn:E; simpl in *.
  - split; [set_solver|]. intros y n' [->|Hy]%elem_of_cons ?; [|by eapply Hin]. simplify_eq. set_solver.
  - split; [done|]. intros y n' [->|Hy]%elem_of_cons ?; [congruence|by eapply Hin].
Qed.

Lemma Inv_canceled c m : Inv m -> Inv (set_canceled c m).
Proof. by apply Inv_same. Qed.

Lemma Inv_StorePollerCancel id c m : Inv m -> Inv (StorePollerCancel id c m).
Proof. intros Hm. unfold StorePollerCancel. repeat case_match; try done. by apply (Inv_same m). Qed.

Lemma CancelTurnPollers_eq conv turn m :
  exists c, CancelTurnPollers conv turn m = set_canceled c m /\ canceled m ⊆ c.
Proof.
  unfold CancelTurnPollers. generalize (map_to_list (ops m)). intros l.
  assert (forall m, exists c,
    foldl (fun m '(_, r) => if bool_decide (record_key r = turnKey conv turn)
                            then cancel_opt (pollerCancels m !! ID r) m else m) m l
    = set_canceled c m /\ canceled m ⊆ c) as H; [|apply H].
  clear m. induction l as [|[i r] l IH]; intros m; simpl.
  { exists (canceled m). by destruct m. }
  match goal with |- context [foldl _ ?x l] => destruct (IH x) as (c & -> & Hs) end.
  exists c. case_bool_decide; [|done]. destruct (pollerCancels m !! ID r); simpl in *; [|done].
  split; [done|set_solver].
Qed.

Lemma Inv_CancelTurnPollers conv turn m : Inv m -> Inv (CancelTurnPollers conv turn m).
Proof. intros Hm. destruct (CancelTurnPollers_eq conv turn m) as (c & -> & _). by apply Inv_canceled. Qed.

(** *** Records *)
Lemma Inv_lookup id r m : Inv m -> ops m !! id = Some r -> rec_ok id r.
Proof. intros Hm E. by apply (inv_recs _ Hm). Qed.

Lemma Inv_BindToolCarrier id a b c m : Inv m -> Inv (BindToolCarrier id a b c m).1.
Proof.
  intros Hm. unfold BindToolCarrier. case_match eqn:E; [|done]. cbn [fst].
  apply Inv_insert; [|done]. destruct (Inv_lookup _ _ _ Hm E) as [H1 H2 H3].
  repeat case_match; by split.
Qed.

Lemma Inv_ResetPollFailures now id m : Inv m -> Inv (ResetPollFailures now id m).1.
Proof.
  intros Hm. unfold ResetPollFailures. case_match eqn:E; [|done]. case_match; [done|]. cbn [fst].
  apply Inv_insert; [|done]. destruct (Inv_lookup _ _ _ Hm E) as [H1 H2 H3]. by split.
Qed.

Lemma Inv_RecordPollFailure now id e t m : Inv m -> Inv (RecordPollFailure now id e t m).1.
Proof.
  intros Hm. unfold RecordPollFailure. case_match eqn:E; [|done].
  destruct (Inv_lookup _ _ _ Hm E) as [H1 H2 H3]. case_match; cbn [fst].
  - apply Inv_insert; [by split|done].
  - apply Inv_signal, Inv_insert; [|done]. split; [done|done|].
    intros _. eexists. split; [done|]. by apply newTerminalPayload_state.
Qed.

Lemma Inv_ConsumeChanged conv turn m : Inv m -> Inv (ConsumeChanged conv turn m).1.
Proof.
  intros Hm. unfold ConsumeChanged. cbn [fst]. apply Inv_ops; [|done].
  intros id r. rewrite lookup_fmap. intros (r0 & E & ->)%fmap_Some.
  destruct (Inv_lookup _ _ _ Hm E) as [H1 H2 H3]. case_match; by split.
Qed.

Context `{ExecModes}.

Lemma register_record_ok owner now i :
  rec_ok (ID (register_record owner now i)) (register_record owner now i).
Proof.
  split; [done|done|]. unfold Terminal, register_record. cbn [State terminalPayload].
  intros Ht. rewrite Ht. eexists. split; [done|]. by apply newTerminalPayload_state.
Qed.

Lemma Inv_Register owner now i m : Inv m -> Inv (Register owner now i m).1.
Proof.
  intros Hm. unfold Register. cbn [fst]. apply Inv_signal.
  apply Inv_insert; [apply register_record_ok|]. eapply Inv_same; [|exact Hm]. by case_match.
Qed.

(** *** [Update] *)
Lemma update_fields_frame i r0 r fl :
  update_fields i r0 = (r, fl) ->
  (ID r, changeDigest r, terminalPayload r, record_key r, UpdatedAt r, pendingChange r, ExecutionMode r)
  = (ID r0, changeDigest r0, terminalPayload r0, record_key r0, UpdatedAt r0, pendingChange r0, ExecutionMode r0)
  /\ State r = DeriveState (Status r) (Error r) (ui_State i)
  /\ Error r = TrimSpace (ui_Error i)
  /\ (f_changed fl = false -> r = r0).
Proof.
  unfold update_fields.
  set (c1 := bool_decide (TrimSpace (ui_Status i) <> "") && _).
  set (c2 := bool_decide (TrimSpace (ui_Message i) <> _)).
  set (c3 := bool_decide (TrimSpace (ui_MessageKind i) <> _)).
  set (c4 := negb (equalIntPtr _ _)). set (c5 := bool_decide (ui_KeyData i <> "") && _).
  destruct (bool_decide (TrimSpace (ui_Error i) <> Error r0)) eqn:E6.
  all: set (r5 := if c5 then _ else _); set (c7 := bool_decide (State r0 <> _)).
  all: intros [= <- <-].
  all: assert (F : (ID r5, changeDigest r5, terminalPayload r5, record_key r5, UpdatedAt r5, pendingChange r5, ExecutionMode r5)
    = (ID r0, changeDigest r0, terminalPayload r0, record_key r0, UpdatedAt r0, pendingChange r0, ExecutionMode r0)
      /\ State r5 = State r0 /\ Error r5 = Error r0 /\ (c1 || c2 || c3 || c4 || c5 = false -> r5 = r0))
    by (clear; subst r5; clearbody c1 c2 c3 c4 c5; by destruct c1, c2, c3, c4, c5).
  all: destruct F as (F1 & F2 & F3 & F4); injection F1 as F1 G1 G2 G3 G4 G5 G6.
  all: clearbody c1 c2 c3 c4 c5 r5; destruct c7 eqn:E7; unfold c7 in E7; clear c7; cbn [f_changed].
  all: first [apply bool_decide_eq_true in E7 | apply bool_decide_eq_false, dec_stable in E7].
  all: first [apply bool_decide_eq_true in E6 | apply bool_decide_eq_false, dec_stable in E6].
  all: split; [cbn; unfold record_key in *; cbn in *; congruence|].
  all: cbn in E7 |- *; repeat split; rewrite ?orb_true_r, ?orb_false_r; try done; try exact F4; congruence.
Qed.

Lemma update_payload_frame i wasTerminal changed r :
  update_payload i wasTerminal changed r = r
  \/ exists p, update_payload i wasTerminal changed r = set_terminalPayload p r.
Proof. unfold update_payload. case_match; eauto. Qed.

Definition payload_ok (r : OperationRecord) : Prop :=
  Terminal r = true ->
  exists p, terminalPayload r = Some p /\ DeriveState (ex_Status p) (ex_Error p) "" = State r.

Lemma update_payload_ok i r0 r changed :
  payload_ok r0 -> (changed = false -> r = r0) ->
  payload_ok (update_payload i (Terminal r0) changed r).
Proof.
  intros Hp Hch. unfold update_payload. case_match eqn:E.
  - unfold payload_ok, Terminal. cbn. intros Ht. eexists. split; [done|]. by apply newTerminalPayload_state.
  - apply andb_false_iff in E as [E|E]; [unfold payload_ok; congruence|].
    apply orb_false_iff in E as [[E1 E2]%orb_false_iff E3]. by rewrite (Hch E2).
Qed.

Definition same_core (r r' : OperationRecord) : Prop :=
  ID r = ID r' /\ Status r = Status r' /\ Message r = Message r' /\ State r = State r'
  /\ KeyData r = KeyData r' /\ terminalPayload r = terminalPayload r'.

Lemma update_signal_ok fl i r m :
  Inv m -> payload_ok r -> Error r = TrimSpace (ui_Error i) ->
  let mr := update_signal fl i r m in
  Inv mr.1 /\ rec_ok (ID r) mr.2.
Proof.
  intros Hm Hp He. unfold update_signal.
  set (next := changeDigest_of _ _ _ _).
  set (byp := negb _ && _ && _).
  set (r1 := if byp then _ else r).
  assert (F : same_core r1 r /\ changeDigest r1 = changeDigest r) by (unfold r1; by destruct byp).
  clearbody r1. destruct F as [(F1 & F2 & F3 & F4 & F5 & F6) F7].
  assert (Hok : forall r2, same_core r2 r1 -> changeDigest r2 = next -> rec_ok (ID r) r2).
  { intros r2 (G1 & G2 & G3 & G4 & G5 & G6) Hd. split; [congruence|by rewrite Hd, G2, G3, G4, G5, F2, F3, F4, F5|].
    unfold Terminal. rewrite G4, G6, F4, F6. apply Hp. }
  set (mr := if bool_decide (next <> changeDigest r) || byp then _ else _).
  assert (H2 : Inv mr.1 /\ rec_ok (ID r) mr.2).
  { unfold mr. destruct (bool_decide _ || byp) eqn:Es; cbn [fst snd].
    - set (r2 := set_pendingChange _ _).
      assert (rec_ok (ID r) r2) as Hr2 by (apply Hok; unfold r2; by destruct (bool_decide _ && _)).
      split; [|done]. apply Inv_publish, Inv_signal.
      replace (ID r2) with (ID r) by (symmetry; apply Hr2). by apply Inv_insert.
    - apply orb_false_iff in Es as [Es _]. apply bool_decide_eq_false, dec_stable in Es.
      assert (rec_ok (ID r) r1) as Hr1 by (apply Hok; [by unfold same_core|congruence]).
      split; [|done]. rewrite F1. by apply Inv_insert. }
  destruct mr as [m2 r2]. cbn [fst snd] in H2. destruct H2 as [H2 H2'].
  destruct (f_error fl && negb (f_state fl)); [|done]. cbn [fst snd].
  destruct H2' as [G1 G2 G3].
  assert (rec_ok (ID r) (set_Error (TrimSpace (ui_Error i)) r2)) as Hr3 by by split.
  split; [|done]. cbn [ID set_Error]. rewrite G1. by apply Inv_insert.
Qed.

Lemma Inv_Update now i m : Inv m -> Inv (Update now i m).1.
Proof.
  intros Hm. unfold Update. case_match eqn:E; [|done].
  destruct (Inv_lookup _ _ _ Hm E) as [H1 H2 H3].
  destruct (update_fields i o) as [r fl] eqn:Ef.
  destruct (update_fields_frame _ _ _ _ Ef) as (F & _ & Fe & Fc). injection F as F1 F2 F3 F4 F5 F6 F7.
  pose proof (update_payload_ok i o r (f_changed fl) H3 Fc) as Hp.
  assert (G : (ID (update_payload i (Terminal o) (f_changed fl) r), Error (update_payload i (Terminal o) (f_changed fl) r))
              = (ID r, Error r)).
  { by destruct (update_payload_frame i (Terminal o) (f_changed fl) r) as [-> | [p ->]]. }
  injection G as G1 G2.
  destruct (f_changed fl) eqn:Ec.
  - set (r1 := set_UpdatedAt now _).
    match goal with |- context [update_signal fl i r1 ?m1] =>
      assert (Inv m1) as Hm1 by (by apply (Inv_same m));
      destruct (update_signal_ok fl i r1 m1 Hm1) as [Hi _];
      [exact Hp|unfold r1; cbn; congruence|by destruct (update_signal fl i r1 m1)] end.
  - cbn [fst]. set (r1 := set_UpdatedAt now _).
    apply Inv_insert; [|by apply (Inv_same m)].
    assert (r1 = set_UpdatedAt now (update_payload i (Terminal o) false o)) as -> by (unfold r1; by rewrite Fc).
    rewrite (Fc eq_refl) in Hp.
    assert (Hpp : forall p, payload_ok (set_terminalPayload p o) -> rec_ok (ID o) (set_terminalPayload p o)).
    { intros p Hpp. split; [done|exact H2|exact Hpp]. }
    destruct (update_payload_frame i (Terminal o) false o) as [E2 | [p E2]]; rewrite E2 in Hp |- *.
    + split; [done|exact H2|exact Hp].
    + split; [done|exact H2|exact Hp].
Qed.

(** *** Waits, signals and subscriptions *)
Lemma Inv_WaitForChangeSince conv turn v m : Inv m -> Inv (WaitForChangeSince conv turn v m).1.
Proof.
  intros Hm. unfold WaitForChangeSince. repeat case_match; try done. cbn [fst].
  apply (Inv_waiters m); [done|simpl; lia| |done]. apply (waiters_ok_wait _ m), Hm.
Qed.

Lemma Inv_removeWaiterLocked key ch m : Inv m -> Inv (removeWaiterLocked key ch m).
Proof.
  intros Hm. unfold removeWaiterLocked.
  destruct (default [] (waiters m !! key)) as [|w0 ws0] eqn:E; [done|].
  destruct (waiters m !! key) as [ws|] eqn:Ew; simpl in E; [subst ws|done].
  set (ws' := match list_find _ _ with Some _ => _ | None => _ end).
  assert (Hsub : ws' `sublist_of` (w0 :: ws0)).
  { unfold ws'. destruct (list_find _ _) as [[i x]|]; [|done].
    rewrite <- (take_drop i (w0 :: ws0)) at 3. apply sublist_app; [done|].
    rewrite <- (take_drop 1 (drop i (w0 :: ws0))), drop_drop. apply sublist_inserts_l.
    by rewrite Nat.add_1_r. }
  destruct ws' as [|w1 ws1] eqn:E'; (apply (Inv_waiters m); [done|done| |done]).
  - eapply (waiters_ok_sub m); [|done|done|apply Hm]. simpl.
    intros k ws'' [_ E1]%lookup_delete_Some. eauto.
  - eapply (waiters_ok_sub m); [|done|done|apply Hm]. simpl.
    intros k ws'' [[<- <-]|[_ E1]]%lookup_insert_Some; eauto.
Qed.

Lemma Inv_SignalTurn conv turn m : Inv m -> Inv (SignalTurn conv turn m).1.
Proof.
  intros Hm. unfold SignalTurn. repeat case_match; try done. cbn [fst].
  apply Inv_signal. by apply (Inv_same m).
Qed.

Lemma Inv_Subscribe opIDs m : Inv m -> Inv (Subscribe opIDs m).1.
Proof.
  intros Hm. destruct (inv_subs _ Hm) as [H1 H2 H3 H4].
  pose proof (fresh_echan m (inv_subs _ Hm)) as Hfr.
  assert (Hne : forall i s, subscriptions m !! i = Some s -> sub_ch s <> next_ch m).
  { intros i s E Heq. destruct (H1 _ _ E) as (b & Ho & _). unfold open_with in Ho. congruence. }
  assert (Hfresh : forall c ch, is_Some (<[next_ch m := c]> (echans m) !! ch) -> (ch < S (next_ch m))%nat).
  { intros c ch Hs. destruct (decide (ch = next_ch m)) as [->|Hn]; [lia|].
    rewrite lookup_insert_ne in Hs by done. specialize (H4 _ Hs). lia. }
  assert (Hold : forall c i s, subscriptions m !! i = Some s -> exists buf,
             <[next_ch m := c]> (echans m) !! sub_ch s = Some (mkEChan buf false) /\ (length buf <= event_capacity)%nat).
  { intros c i s E. destruct (H1 _ _ E) as (b & Ho & Hl). exists b. split; [|done].
    rewrite lookup_insert_ne; [done|]. intros Heq. by apply (Hne _ _ E). }
  unfold Subscribe. case_match eqn:Et; cbn [fst].
  - unfold close_events. simpl. rewrite lookup_insert_eq. simpl. rewrite insert_insert_eq.
    apply (Inv_subs m); [done|simpl; lia| |done]. split; simpl; [|done|done|eauto].
    intros i s E. by eapply Hold.
  - apply orb_false_iff in Et as [Et _]. apply bool_decide_eq_false in Et.
    apply (Inv_subs m); [done|simpl; lia| |done]. split; unfold open_with; simpl; [| | |eauto].
    + intros i s [[<- <-]|[_ E]]%lookup_insert_Some; [|by eapply Hold].
      simpl. rewrite lookup_insert_eq. eexists. split; [done|]. simpl. lia.
    + intros i j s t [[<- <-]|[_ E]]%lookup_insert_Some [[<- <-]|[_ E']]%lookup_insert_Some;
        simpl; [done| | |eauto].
      * intros Heq. by destruct (Hne _ _ E').
      * intros Heq. by destruct (Hne _ _ E).
    + intros i s [[<- <-]|[_ E]]%lookup_insert_Some; [done|eauto].
Qed.

Lemma Unsubscribe_eq i s buf m :
  i <> 0 -> subscriptions m !! i = Some s -> open_with (sub_ch s) buf m ->
  Unsubscribe i m =
    set_echans (<[sub_ch s := mkEChan buf true]> (echans m))
      (set_unsubscribeCount (wrap64 (unsubscribeCount m + 1))
         (set_subscriptions (delete i (subscriptions m)) m)).
Proof.
  intros Hi E Ho. unfold Unsubscribe. destruct (Z.eqb_spec i 0); [done|]. rewrite E.
  unfold close_events. simpl. unfold open_with in Ho. by rewrite Ho.
Qed.

Lemma Inv_Unsubscribe i m : Inv m -> Inv (Unsubscribe i m).
Proof.
  intros Hm. destruct (inv_subs _ Hm) as [H1 H2 H3 H4].
  destruct (decide (i = 0)) as [->|Hi]; [done|].
  destruct (subscriptions m !! i) as [s|] eqn:E.
  2: { unfold Unsubscribe. destruct (Z.eqb_spec i 0); [done|]. by rewrite E. }
  destruct (H1 _ _ E) as (buf & Ho & Hl). rewrite (Unsubscribe_eq i s buf) by done.
  apply (Inv_subs m); [done|simpl; lia| |done]. split; unfold open_with; simpl.
  - intros j t [Hne Ej]%lookup_delete_Some. destruct (H1 _ _ Ej) as (b & Ho' & Hl').
    exists b. split; [|done]. rewrite lookup_insert_ne; [done|]. intros Heq. eauto.
  - intros j k t u [_ Ej]%lookup_delete_Some [_ Ek]%lookup_delete_Some. eauto.
  - intros j t [_ Ej]%lookup_delete_Some. eauto.
  - intros ch Hs. apply H4. destruct (decide (ch = sub_ch s)) as [->|Hn].
    + rewrite Ho. eauto.
    + by rewrite lookup_insert_ne in Hs.
Qed.

(** *** Sweeping *)
Lemma Inv_dropOpLocked id m : Inv m -> Inv (dropOpLocked id m).
Proof.
  intros Hm. unfold dropOpLocked. set (m1 := set_ops _ m).
  assert (Inv m1) as H1 by (apply Inv_ops; [by apply map_Forall_delete, Hm|done]).
  set (m2 := match pollerCancels m1 !! id with Some _ => _ | None => _ end).
  assert (Inv m2) as H2 by (unfold m2; case_match; [by apply (Inv_same m1)|done]).
  apply (Inv_waiters m2); [done|done| |done].
  eapply (waiters_ok_sub m2); [|done|done|apply H2]. simpl.
  intros k ws [_ E]%lookup_delete_Some. eauto.
Qed.

(** The sweep drops the prunable operations one after the other. *)
Definition pruned_ids (now maxAge : Z) m : list string :=
  (filter (fun '(id, r) => prunable now maxAge m id r = true) (map_to_list (ops m))).*1.

Lemma Sweep_fold now maxAge m l m0 n :
  foldl (fun '(m', n) '(id, r) =>
           if prunable now maxAge m id r then (dropOpLocked id m', n + 1) else (m', n)) (m0, n) l
  = (foldl (fun m id => dropOpLocked id m) m0 (filter (fun '(id, r) => prunable now maxAge m id r = true) l).*1,
     n + Z.of_nat (length (filter (fun '(id, r) => prunable now maxAge m id r = true) l))).
Proof.
  revert m0 n. induction l as [|[id r] l IH]; intros m0 n; simpl; [f_equal; lia|].
  rewrite filter_cons. case_decide as E; simpl in E.
  - rewrite E, IH. simpl. f_equal. lia.
  - apply not_true_is_false in E. rewrite E. apply IH.
Qed.

Lemma Sweep_eq now maxAge m :
  0 < maxAge ->
  let ids := pruned_ids now maxAge m in
  let m' := foldl (fun m id => dropOpLocked id m) m ids in
  Sweep now maxAge m =
    (if 0 <? Z.of_nat (length ids)
     then set_sweepPruneCount (wrap64 (sweepPruneCount m' + Z.of_nat (length ids))) m' else m',
     Z.of_nat (length ids)).
Proof.
  intros Ha. unfold Sweep, pruned_ids. destruct (Z.leb_spec maxAge 0); [lia|].
  rewrite Sweep_fold. rewrite length_fmap. by rewrite Z.add_0_l.
Qed.

Lemma Inv_Sweep now maxAge m : Inv m -> Inv (Sweep now maxAge m).1.
Proof.
  intros Hm. destruct (decide (0 < maxAge)) as [Ha|Ha].
  2: { unfold Sweep. by destruct (Z.leb_spec maxAge 0); [|lia]. }
  rewrite Sweep_eq by done. cbv zeta. cbn [fst].
  assert (forall ids m, Inv m -> Inv (foldl (fun m id => dropOpLocked id m) m ids)) as Hf.
  { clear. intros ids. induction ids as [|id ids IH]; intros m Hm; [done|].
    apply IH. by apply Inv_dropOpLocked. }
  case_match; [|by apply Hf]. eapply Inv_same; [|by apply Hf]. done.
Qed.

Lemma Inv_StartGC b i a gc m : Inv m -> Inv (StartGC b i a gc m).1.
Proof. intros Hm. unfold StartGC. repeat case_match; try done; by apply (Inv_same m). Qed.

(** *** Shutdown *)
Definition all_waiters m : list nat := concat (map_to_list (waiters m)).*2.

Lemma elem_of_all_waiters w m :
  w ∈ all_waiters m <-> exists key ws, waiters m !! key = Some ws /\ w ∈ ws.
Proof.
  unfold all_waiters. rewrite list_elem_of_In, in_concat. split.
  - intros (ws & Hws & Hw). apply list_elem_of_In in Hws, Hw.
    apply list_elem_of_fmap in Hws as ([k ws'] & -> & Hk%elem_of_map_to_list). eauto.
  - intros (k & ws & E & Hw). exists ws. split; [|by apply list_elem_of_In]. apply list_elem_of_In.
    apply list_elem_of_fmap. exists (k, ws). split; [done|]. by apply elem_of_map_to_list.
Qed.

Lemma NoDup_all_waiters m : waiters_ok m -> NoDup (all_waiters m).
Proof.
  intros Hw. unfold all_waiters.
  assert (forall l : list (string * list nat), NoDup l.*1 ->
            (forall k ws, (k, ws) ∈ l -> waiters m !! k = Some ws) -> NoDup (concat l.*2)) as Hl.
  { induction l as [|[k ws] l IH]; simpl; intros Hnd Hin; [constructor|].
    apply list.NoDup_cons in Hnd as [Hk Hnd]. apply list.NoDup_app. split; [|split].
    - eapply (wo_nodup _ Hw). apply Hin. by left.
    - intros w Hww Hc. apply list_elem_of_In, in_concat in Hc as (ws' & Hws' & Hw').
      apply list_elem_of_In in Hws', Hw'.
      apply list_elem_of_fmap in Hws' as ([k' ws''] & Heq & Hk'). simpl in Heq. subst ws''.
      assert (k = k') as -> by (eapply (wo_apart _ Hw); [apply Hin; left|apply Hin; right|..]; done).
      apply Hk. apply list_elem_of_fmap. by exists (k', ws').
    - apply IH; [done|]. intros k' ws' H'. apply Hin. by right. }
  apply Hl; [apply NoDup_fst_map_to_list|]. intros k ws. by rewrite elem_of_map_to_list.
Qed.

Lemma wake_everyone m :
  waiters_ok m ->
  foldl (fun m '(_, ws) => foldl (fun m w => wake w m) m ws) m (map_to_list (waiters m))
  = set_wchans (wake_all (all_waiters m) (wchans m)) m.
Proof.
  intros Hw. rewrite <- foldl_wake; [| by apply NoDup_all_waiters|].
  - unfold all_waiters. generalize (map_to_list (waiters m)). intros l.
    match goal with |- foldl _ ?x _ = foldl _ ?y _ => change y with x; generalize x end.
    induction l as [|[k ws] l IH]; intros m'; simpl; [done|]. by rewrite IH, foldl_app.
  - intros w (key & ws & E & Hin)%elem_of_all_waiters. by eapply (wo_open _ Hw).
Qed.

(** Closing the channels of a list of subscriptions, keeping what they buffer. *)
Definition close_all (l : list (Z * changeSubscription)) m : Manager :=
  foldl (fun m '(_, sub) =>
           match echans m !! sub_ch sub with
           | Some c => set_echans (<[sub_ch sub := mkEChan (e_buf c) true]> (echans m)) m
           | None => m
           end) m l.

Lemma close_all_eq l m :
  exists e, close_all l m = set_echans e m
    /\ (forall ch c, echans m !! ch = Some c -> e !! ch = Some c \/ e !! ch = Some (mkEChan (e_buf c) true))
    /\ (forall ch, echans m !! ch = None -> e !! ch = None)
    /\ (forall i s c, (i, s) ∈ l -> echans m !! sub_ch s = Some c ->
          e !! sub_ch s = Some (mkEChan (e_buf c) true)).
Proof.
  revert m. induction l as [|[i s] l IH]; intros m; simpl.
  { exists (echans m). split; [by destruct m|]. repeat split; [eauto|done|by intros ??? ?%elem_of_nil]. }
  destruct (echans m !! sub_ch s) as [c|] eqn:E.
  - destruct (IH (set_echans (<[sub_ch s := mkEChan (e_buf c) true]> (echans m)) m)) as (e & -> & H1 & H2 & H3).
    exists e. simpl in *.
    assert (Hs : e !! sub_ch s = Some (mkEChan (e_buf c) true)).
    { by destruct (H1 (sub_ch s) (mkEChan (e_buf c) true)) as [?|?]; [by rewrite lookup_insert_eq|..]. }
    repeat split.
    + intros ch c' E'. destruct (decide (ch = sub_ch s)) as [->|Hn].
      * right. congruence.
      * apply H1. by rewrite lookup_insert_ne.
    + intros ch E'. apply H2. rewrite lookup_insert_ne; [done|]. congruence.
    + intros j t c' [Heq|Hin]%elem_of_cons E'; [simplify_eq; congruence|].
      destruct (decide (sub_ch t = sub_ch s)) as [Heq|Hn]; [rewrite Heq in *; congruence|].
      apply (H3 j); [done|]. by rewrite lookup_insert_ne.
  - destruct (IH m) as (e & -> & H1 & H2 & H3). exists e. repeat split; [done..|].
    intros j t c' [Heq|Hin]%elem_of_cons E'; [simplify_eq|by eapply H3].
Qed.

Record closed_from m m' : Prop := {
  cf_closed : closed m' = true;
  cf_frame : m' = set_canceled (canceled m') (set_turnSignals ∅ (set_waiters ∅
             (set_wchans (wake_all (all_waiters m) (wchans m)) (set_subscriptions ∅
                (set_echans (echans m') (set_pollerCancels ∅ (set_gcCancels [] (set_closed true m))))))));
  cf_chans : forall i s buf, subscriptions m !! i = Some s -> open_with (sub_ch s) buf m ->
             echans m' !! sub_ch s = Some (mkEChan buf true);
  cf_nochan : forall ch, echans m !! ch = None -> echans m' !! ch = None;
  cf_canceled : canceled m ⊆ canceled m';
  cf_pollers : forall id c, pollerCancels m !! id = Some c -> c ∈ canceled m';
  cf_gcs : forall c, c ∈ gcCancels m -> c ∈ canceled m' }.

Lemma Close_spec m : Inv m -> closed m = false -> closed_from m (Close m).
Proof.
  intros Hm Hc. unfold Close. rewrite Hc.
  set (m1 := set_gcCancels [] (set_closed true m)).
  destruct (foldl_cancels (fun x => Some x.2) (map_to_list (pollerCancels m)) m1) as (c1 & E1 & S1 & P1).
  assert (E1' : foldl (fun m '(_, c) => cancel_fn c m) m1 (map_to_list (pollerCancels m1)) = set_canceled c1 m1).
  { rewrite <- E1. clear. change (pollerCancels m1) with (pollerCancels m). generalize (map_to_list (pollerCancels m)).
    intros l. generalize m1. induction l as [|[i c] l IH]; intros m'; [done|]. apply IH. }
  rewrite E1'. set (m2 := set_pollerCancels ∅ (set_canceled c1 m1)).
  destruct (close_all_eq (map_to_list (subscriptions m2)) m2) as (e & E2 & H1 & H2 & H3).
  unfold close_all in E2. rewrite E2. set (m3 := set_subscriptions ∅ (set_echans e m2)).
  rewrite (wake_everyone m3).
  2: { by apply (waiters_ok_same m m3); [..|apply Hm]. }
  set (m4 := set_turnSignals ∅ _).
  destruct (foldl_cancels Some (gcCancels m1) m4) as (c2 & E4 & S4 & P4).
  destruct (foldl_cancels Some (gcCancels m) m4) as (c3 & E5 & S5 & P5).
  assert (E5' : foldl (fun m c => cancel_fn c m) m4 (gcCancels m) = set_canceled c3 m4) by done.
  match goal with |- closed_from m (foldl _ _ ?l) => change l with (gcCancels m) end.
  rewrite E5'. clear c2 E4 S4 P4. split; cbn.
  - done.
  - done.
  - intros i s buf Es Ho. apply (H3 i s (mkEChan buf false)); [by apply elem_of_map_to_list|exact Ho].
  - intros ch En. by apply H2.
  - etransitivity; [exact S1|exact S5].
  - intros id c Ec. apply S5. simpl. apply (P1 (id, c)); [by apply elem_of_map_to_list|done].
  - intros c Hin. by apply (P5 c).
Qed.

Lemma Inv_Close m : Inv m -> Inv (Close m).
Proof.
  intros Hm. destruct (closed m) eqn:Ec; [by unfold Close; rewrite Ec|].
  destruct (Close_spec m Hm Ec) as [_ F _ Hn _ _ _]. rewrite F.
  destruct (inv_waiters _ Hm) as [_ Ho _ Hf]. destruct (inv_subs _ Hm) as [_ _ _ Hfe].
  assert (Hs : subs_ok (Close m)).
  { rewrite F. split; cbn [subscriptions set_subscriptions set_canceled set_turnSignals set_waiters set_wchans].
    1-3: intros *; by rewrite lookup_empty.
    intros ch Hs. apply Hfe. cbn in Hs.
    destruct (echans m !! ch) eqn:E; [by eexists|]. rewrite (Hn _ E) in Hs. by destruct Hs. }
  rewrite F in Hs. split; [apply Hm| |exact Hs|apply Hm|apply Hm].
  split; cbn; try (intros *; rewrite ?lookup_empty; done).
  intros w Hw. apply Hf. destruct (decide (w ∈ all_waiters m)) as [Hin|Hnin].
  - apply elem_of_all_waiters in Hin as (k & ws & E & Hin). rewrite (Ho _ _ _ E Hin). by eexists.
  - by rewrite wake_all_notin in Hw.
Qed.
End Invariant.
