(* ===== verification/AsyncDigest.v ===== *)
(** * What a change digest determines

    The digest of an operation (changeDigest in protocol/async/manager.go) is the
    MD5 of a JSON text; the text determines the content of the operation: its
    status, message and state without surrounding space, and its key data without
    insignificant space. *)
From stdpp Require Import base strings list.
From Stdlib Require Import Lia Ascii.
From S2P Require Import Prelude GoStrings Digest GoJson JsonQuote Async.

Lemma cons_tail {A} (x : A) l1 l2 : x :: l1 = x :: l2 -> l1 = l2.
Proof. congruence. Qed.

(** ** Objects of quoted members with one raw member at the end *)
Definition member (m : string * list ascii) : list ascii := json_quote m.1 ++ ch 58 :: m.2.
Fixpoint chain (l : list (string * list ascii)) : list ascii :=
  match l with [] => [] | m :: l => ch 44 :: member m ++ chain l end.

Lemma join_chain m l : ch 44 :: join_bytes (ch 44) (member <$> m :: l) = chain (m :: l).
Proof.
  revert m. induction l as [|m' l IH]; intros m; [cbn; by rewrite app_nil_r|].
  specialize (IH m'). cbn [fmap list_fmap chain] in *. rewrite <- IH. reflexivity.
Qed.

Definition quoted (m : string * list ascii) : Prop :=
  ValidString m.1 = true /\ m.1 <> "keyData" /\ exists s, ValidString s = true /\ m.2 = json_quote s.

Lemma member_inj m1 m2 r1 r2 :
  quoted m1 -> quoted m2 -> member m1 ++ r1 = member m2 ++ r2 -> m1 = m2 /\ r1 = r2.
Proof.
  destruct m1 as [k1 v1], m2 as [k2 v2]. intros (V1 & _ & s1 & W1 & E1) (V2 & _ & s2 & W2 & E2). cbn in *. subst v1 v2.
  unfold member. cbn. rewrite <- !app_assoc. intros E.
  apply json_quote_inj in E as [-> E]; [|done..]. apply cons_tail in E. apply json_quote_inj in E as [-> ->]; done.
Qed.

Definition raw_member (kd : option (list ascii)) : list (string * list ascii) :=
  match kd with Some kd => [("keyData", kd)] | None => [] end.

Lemma raw_not_quoted kd m l r : quoted m -> chain (raw_member (Some kd)) ++ r <> chain (m :: l).
Proof.
  destruct m as [k v]. intros (V & Hk & _) E. cbn [raw_member chain app] in E. apply cons_tail in E. unfold member in E. cbn [fst snd] in *.
  rewrite <- !app_assoc in E. apply json_quote_inj in E as [E _]; [by subst|done|done].
Qed.

Lemma chain_inj h1 h2 d1 d2 :
  Forall quoted h1 -> Forall quoted h2 -> chain (h1 ++ raw_member d1) = chain (h2 ++ raw_member d2) -> h1 = h2 /\ d1 = d2.
Proof.
  intros H1. revert h2. induction H1 as [|m1 h1 Hm1 _ IH]; intros h2 H2.
  - destruct H2 as [|m2 h2 Hm2 _]; cbn [app].
    + destruct d1, d2; [|done..|done]. cbn. unfold member. intros E%cons_tail. rewrite !app_nil_r in E. apply app_inv_head, cons_tail in E. cbn in E. by subst.
    + destruct d1 as [kd|]; [|done]. intros E. exfalso. eapply (raw_not_quoted kd m2 _ []); [exact Hm2|]. by rewrite app_nil_r.
  - destruct H2 as [|m2 h2 Hm2 H2]; cbn [app].
    + destruct d2 as [kd|]; [|done]. intros E. exfalso. eapply (raw_not_quoted kd m1 _ []); [exact Hm1|]. rewrite app_nil_r. by symmetry.
    + cbn [chain]. intros E%cons_tail. apply member_inj in E as [-> E]; [|done..]. by destruct (IH _ H2 E) as [-> ->].
Qed.

Lemma json_object_inj h1 h2 d1 d2 :
  Forall quoted h1 -> Forall quoted h2 -> json_object (h1 ++ raw_member d1) = json_object (h2 ++ raw_member d2) -> h1 = h2 /\ d1 = d2.
Proof.
  intros H1 H2 E. apply chain_inj; [done..|].
  assert (Ef : forall l : list (string * list ascii), (fun '(k, v) => json_quote k ++ ch 58 :: v) <$> l = member <$> l)
    by (intros l; induction l as [|[k v] l IH]; [done|]; cbn [fmap list_fmap]; f_equal; exact IH).
  unfold json_object in E. apply cons_tail in E. apply app_inv_tail in E. rewrite !Ef in E.
  assert (Hne : forall m l, join_bytes (ch 44) (member <$> m :: l) <> []).
  { intros m l En. pose proof (join_chain m l) as Hj. rewrite En in Hj. cbn [chain] in Hj. apply cons_tail in Hj.
    symmetry in Hj. apply app_eq_nil in Hj as [Hj _]. unfold member in Hj. by apply app_eq_nil in Hj as [_ Hj]. }
  destruct (h1 ++ raw_member d1) as [|m1 l1], (h2 ++ raw_member d2) as [|m2 l2]; [done|..].
  - symmetry in E. by apply Hne in E.
  - by apply Hne in E.
  - by rewrite <- !join_chain, E.
Qed.

(** ** The content of an operation *)

(** Texts that encoding/json keeps as they are, and key data that is JSON. *)
Definition encodable (status message state keyData : string) : Prop :=
  ValidString (TrimSpace status) = true /\ ValidString (TrimSpace message) = true /\ ValidString (TrimSpace state) = true
  /\ (keyData = "" \/ json_compact keyData <> None).

(** The key data without insignificant space; [None] when there is none. *)
Definition compact_data (keyData : string) : option (list ascii) :=
  if bool_decide (keyData = "") then None else json_compact keyData.

Definition quoted_field (k v : string) : list (string * list ascii) := if bool_decide (v = "") then [] else [(k, json_quote v)].
Definition fields (status message state : string) : list (string * list ascii) :=
  quoted_field "status" (TrimSpace status) ++ quoted_field "message" (TrimSpace message) ++ quoted_field "state" (TrimSpace state).

Lemma digest_payload_object status message state keyData :
  encodable status message state keyData ->
  digest_payload status message state keyData = text (json_object (fields status message state ++ raw_member (compact_data keyData))).
Proof.
  intros (_ & _ & _ & Hk). unfold digest_payload, compact_data. case_bool_decide as E.
  - by rewrite app_nil_r.
  - destruct (json_compact keyData) as [kd|]; [done|]. by destruct Hk.
Qed.

Lemma fields_quoted status message state keyData :
  encodable status message state keyData -> Forall quoted (fields status message state).
Proof.
  intros (V1 & V2 & V3 & _).
  assert (Hq : forall k v, ValidString k = true -> k <> "keyData" -> ValidString v = true -> Forall quoted (quoted_field k v)).
  { intros k v Vk Hk Vv. unfold quoted_field. case_bool_decide; [constructor|]. constructor; [|constructor]. by split_and!; [..|exists v]. }
  unfold fields. repeat apply Forall_app_2; by apply Hq.
Qed.

Lemma fields_inj s1 m1 t1 d1 s2 m2 t2 d2 :
  encodable s1 m1 t1 d1 -> encodable s2 m2 t2 d2 -> fields s1 m1 t1 = fields s2 m2 t2 ->
  TrimSpace s1 = TrimSpace s2 /\ TrimSpace m1 = TrimSpace m2 /\ TrimSpace t1 = TrimSpace t2.
Proof.
  intros (V1 & V2 & V3 & _) (W1 & W2 & W3 & _) E.
  assert (Hq : forall a b, ValidString a = true -> ValidString b = true -> json_quote a = json_quote b -> a = b).
  { intros a b Va Vb Ej. by apply (json_quote_inj a b [] [] Va Vb); rewrite !app_nil_r. }
  revert E. unfold fields, quoted_field. repeat case_bool_decide; cbn [app]; intros E; first [discriminate E|idtac]; split_and!; first [congruence|apply Hq; [done..|congruence]].
Qed.

(** Equal texts are equal contents. *)
Lemma digest_payload_inj s1 m1 t1 d1 s2 m2 t2 d2 :
  encodable s1 m1 t1 d1 -> encodable s2 m2 t2 d2 -> digest_payload s1 m1 t1 d1 = digest_payload s2 m2 t2 d2 ->
  TrimSpace s1 = TrimSpace s2 /\ TrimSpace m1 = TrimSpace m2 /\ TrimSpace t1 = TrimSpace t2 /\ compact_data d1 = compact_data d2.
Proof.
  intros H1 H2. rewrite (digest_payload_object _ _ _ _ H1), (digest_payload_object _ _ _ _ H2). intros E.
  apply (f_equal bytes) in E. rewrite !bytes_text in E.
  apply json_object_inj in E as [Ef Ed]; [|by eapply fields_quoted..].
  destruct (fields_inj _ _ _ _ _ _ _ _ H1 H2 Ef) as (? & ? & ?). done.
Qed.
