(* ===== verification/AsyncProps.v ===== *)
(** * What the asynchronous operation manager guarantees

    Every sequence of calls keeps the manager sound; no content change of an
    operation is lost between two consumptions; a waiter of a turn is woken by
    the next signal; an update publishes to exactly the subscriptions it
    concerns and closes those that are settled; sweeping, awaiting and closing
    do what they promise. *)
From stdpp Require Import base gmap strings list fin_maps numbers.
From Stdlib Require Import ZArith Lia Ascii.
From S2P Require Import Prelude GoStrings Digest GoJson Async AsyncInv AsyncDigest.

Open Scope Z_scope.

#[global] Arguments update_signal : simpl never.

(** ** Calls *)
Inductive call :=
| CAdmitPoller (id : string) (cancel : option nat)
| CTryStartPoller (id : string)
| CFinishPoller (id : string)
| CStorePollerCancel (id : string) (cancel : option nat)
| CCancelTurnPollers (convID turnID : string)
| CBindToolCarrier (id toolCallID toolMessageID toolName : string)
| CRegister (owner : string) (now : Z) (i : RegisterInput)
| CUpdate (now : Z) (i : UpdateInput)
| CConsumeChanged (convID turnID : string)
| CWaitForChangeSince (convID turnID : string) (signalAfter : Z)
| CStopWaiting (convID turnID : string) (ch : nat)
| CSignalTurn (convID turnID : string)
| CSubscribe (opIDs : list string)
| CUnsubscribe (subID : Z)
| CRecordPollFailure (now : Z) (id errMsg : string) (transient : bool)
| CResetPollFailures (now : Z) (id : string)
| CSweep (now maxAge : Z)
| CStartGC (ctx_present : bool) (interval maxAge : Z) (gc : nat)
| CClose.

Section Calls.
Context `{ExecModes}.
Implicit Types m : Manager.

Definition step (c : call) (m : Manager) : Manager :=
  match c with
  | CAdmitPoller id c => (AdmitPoller id c m).1
  | CTryStartPoller id => (TryStartPoller id m).1
  | CFinishPoller id => FinishPoller id m
  | CStorePollerCancel id c => StorePollerCancel id c m
  | CCancelTurnPollers conv turn => CancelTurnPollers conv turn m
  | CBindToolCarrier id a b n => (BindToolCarrier id a b n m).1
  | CRegister owner now i => (Register owner now i m).1
  | CUpdate now i => (Update now i m).1
  | CConsumeChanged conv turn => (ConsumeChanged conv turn m).1
  | CWaitForChangeSince conv turn v => (WaitForChangeSince conv turn v m).1
  | CStopWaiting conv turn ch => removeWaiterLocked (turnKey conv turn) ch m
  | CSignalTurn conv turn => (SignalTurn conv turn m).1
  | CSubscribe ids => (Subscribe ids m).1
  | CUnsubscribe i => Unsubscribe i m
  | CRecordPollFailure now id e t => (RecordPollFailure now id e t m).1
  | CResetPollFailures now id => (ResetPollFailures now id m).1
  | CSweep now a => (Sweep now a m).1
  | CStartGC b i a gc => (StartGC b i a gc m).1
  | CClose => Close m
  end.

Inductive reachable : Manager -> Prop :=
| reachable_new : reachable NewManager
| reachable_step c m : reachable m -> reachable (step c m).

Lemma Inv_step c m : Inv m -> Inv (step c m).
Proof.
  intros Hm. destruct c; cbn [step];
    auto using Inv_AdmitPoller, Inv_TryStartPoller, Inv_FinishPoller, Inv_StorePollerCancel,
      Inv_CancelTurnPollers, Inv_BindToolCarrier, Inv_Register, Inv_Update, Inv_ConsumeChanged,
      Inv_WaitForChangeSince, Inv_removeWaiterLocked, Inv_SignalTurn, Inv_Subscribe, Inv_Unsubscribe,
      Inv_RecordPollFailure, Inv_ResetPollFailures, Inv_Sweep, Inv_StartGC, Inv_Close.
Qed.

Lemma reachable_Inv m : reachable m -> Inv m.
Proof. induction 1; [apply Inv_New|by apply Inv_step]. Qed.

Lemma reachable_run cs m : reachable m -> reachable (foldl (fun m c => step c m) m cs).
Proof. revert m. induction cs as [|c cs IH]; intros m Hm; [done|]. by apply IH, reachable_step. Qed.

(** C1: Whatever the sequence of calls on a manager, it never closes or sends on
    a closed channel and never drives its wait group negative; every record is
    filed under its own identifier, carries the digest of its current content,
    and when terminal carries a terminal payload whose status and error derive
    exactly the state it is in; the channel of every live subscription is open
    and within its capacity; and the wait group counts the registered pollers. *)
Theorem manager_sound m :
  reachable m ->
  panicked m = false
  /\ (forall id r, ops m !! id = Some r ->
        ID r = id
        /\ changeDigest r = changeDigest_of (Status r) (Message r) (State r) (KeyData r)
        /\ (Terminal r = true -> exists p, TerminalPayload r = Some p
              /\ DeriveState (ex_Status p) (ex_Error p) "" = State r))
  /\ (forall i s, subscriptions m !! i = Some s ->
        exists buf, echans m !! sub_ch s = Some (mkEChan buf false) /\ (length buf <= event_capacity)%nat)
  /\ pollerWG m = Z.of_nat (size (pollers m)).
Proof.
  intros [H1 H2 H3 H4 H5]%reachable_Inv. split; [done|]. split; [|split; [|done]].
  - intros id r E. destruct (H4 _ _ E) as [G1 G2 G3]. split; [done|]. split; [done|].
    intros Ht. unfold TerminalPayload. rewrite Ht. by apply G3.
  - intros i s E. by apply (so_open _ H3 i).
Qed.

(** ** What an update signals *)
Lemma set_Error_same v r : Error r = v -> set_Error v r = r.
Proof. intros <-. by destruct r. Qed.

Lemma set_ops_same m : set_ops (ops m) m = m.
Proof. by destruct m. Qed.

Definition content_digest (r : OperationRecord) : string :=
  changeDigest_of (Status r) (Message r) (State r) (KeyData r).

Definition percent_signals (fl : update_flags) (r : OperationRecord) : bool :=
  negb (bool_decide (content_digest r <> changeDigest r)) && f_percent fl
  && shouldSignalPercentChange (LastSignaledPercent r) (Percent r).

Definition significant (fl : update_flags) (r : OperationRecord) : bool :=
  bool_decide (content_digest r <> changeDigest r) || percent_signals fl r.

(** The record as a significant update leaves it. *)
Definition signaled_record (fl : update_flags) (r : OperationRecord) : OperationRecord :=
  let r1 := if percent_signals fl r then set_LastSignaledPercent (Percent r) r else r in
  let r2 := set_changeDigest (content_digest r) r1 in
  let r3 := if bool_decide (LastSignaledPercent r2 = None) && negb (bool_decide (Percent r2 = None))
            then set_LastSignaledPercent (Percent r2) r2 else r2 in
  set_pendingChange true (set_LastPayloadChangeAt (UpdatedAt r3) r3).

Lemma signaled_record_fields fl r :
  ID (signaled_record fl r) = ID r /\ State (signaled_record fl r) = State r
  /\ Error (signaled_record fl r) = Error r /\ record_key (signaled_record fl r) = record_key r
  /\ changeDigest (signaled_record fl r) = content_digest r
  /\ pendingChange (signaled_record fl r) = true
  /\ LastPayloadChangeAt (signaled_record fl r) = UpdatedAt r.
Proof.
  unfold signaled_record. destruct (percent_signals fl r); cbn zeta;
    by match goal with |- context [if ?b then _ else _] => destruct b end.
Qed.

Lemma signaled_record_content fl r :
  Status (signaled_record fl r) = Status r /\ UpdatedAt (signaled_record fl r) = UpdatedAt r
  /\ Percent (signaled_record fl r) = Percent r.
Proof.
  unfold signaled_record. destruct (percent_signals fl r); cbn zeta;
    by match goal with |- context [if ?b then _ else _] => destruct b end.
Qed.

Lemma signalLocked_frame key m :
  waiters_ok m -> exists w c, signalLocked key m = set_wchans c (set_waiters w m).
Proof. intros Hw. rewrite signalLocked_eq by done. eauto. Qed.

Lemma update_signal_eq fl i r m :
  Inv m -> Error r = TrimSpace (ui_Error i) ->
  update_signal fl i r m =
    if significant fl r then
      (publishChangeLocked (signaled_record fl r) (changeDigest r) (content_digest r)
         (signalLocked (record_key r) (set_ops (<[ID r := signaled_record fl r]> (ops m)) m)),
       signaled_record fl r)
    else (set_ops (<[ID r := r]> (ops m)) m, r).
Proof.
  intros Hm He. unfold update_signal, significant. cbv zeta.
  fold (content_digest r). fold (percent_signals fl r).
  assert (Herr : forall r' m', Error r' = Error r -> ops m' !! ID r' = Some r' ->
    (if f_error fl && negb (f_state fl)
     then (set_ops (<[ID (set_Error (TrimSpace (ui_Error i)) r') := set_Error (TrimSpace (ui_Error i)) r']> (ops m')) m',
           set_Error (TrimSpace (ui_Error i)) r')
     else (m', r')) = (m', r')).
  { intros r' m' E Ho. destruct (f_error fl && negb (f_state fl)); [|done].
    rewrite set_Error_same by congruence. by rewrite insert_id, set_ops_same. }
  destruct (signaled_record_fields fl r) as (G1 & _ & G3 & G4 & _).
  destruct (bool_decide (content_digest r <> changeDigest r) || percent_signals fl r) eqn:Es.
  - match goal with |- (if _ then _ else (publishChangeLocked ?r2 ?d _ (signalLocked ?k (set_ops (<[?j := _]> _) _)), _)) = _ =>
      change r2 with (signaled_record fl r);
      replace d with (changeDigest r) by (by destruct (percent_signals fl r)) end.
    etransitivity; [apply Herr; [done|]|by rewrite G4, G1]. rewrite G4, G1.
    assert (Hw : waiters_ok (set_ops (<[ID r:=signaled_record fl r]> (ops m)) m)).
    { by apply (waiters_ok_same m); [..|apply Hm]. }
    destruct (signalLocked_frame (record_key r) _ Hw) as (w & c & E). rewrite E.
    match goal with |- ops (publishChangeLocked ?r2 ?d ?n ?m2) !! _ = _ =>
      assert (Hs : subs_ok m2) by (by apply (subs_ok_same m); [..|apply Hm]);
      pose proof (pb_frame _ _ _ _ _ (publishChangeLocked_spec r2 d n m2 Hs)) as F; rewrite F end.
    apply lookup_insert_eq.
  - apply orb_false_iff in Es as [_ Ep]. rewrite Ep. apply Herr; [done|]. apply lookup_insert_eq.
Qed.

Lemma update_fields_signal i r0 :
  LastSignaledPercent (update_fields i r0).1 = LastSignaledPercent r0
  /\ LastPayloadChangeAt (update_fields i r0).1 = LastPayloadChangeAt r0.
Proof.
  unfold update_fields. cbn [fst].
  assert (P : forall (b : bool) (f : OperationRecord -> OperationRecord) r,
             LastSignaledPercent (f r) = LastSignaledPercent r /\ LastPayloadChangeAt (f r) = LastPayloadChangeAt r ->
             LastSignaledPercent (if b then f r else r) = LastSignaledPercent r
             /\ LastPayloadChangeAt (if b then f r else r) = LastPayloadChangeAt r) by by intros [].
  repeat (match goal with
          | |- LastSignaledPercent (if ?b then ?f ?v ?r else ?r) = _ /\ _ =>
              destruct (P b (f v) r) as [-> ->]; [done|]
          end); done.
Qed.

(** The record an update writes when nothing is signaled. *)
Definition updated_record (now : Z) (i : UpdateInput) (r0 : OperationRecord) : OperationRecord :=
  set_UpdatedAt now
    (update_payload i (Terminal r0) (f_changed (update_fields i r0).2) (update_fields i r0).1).

Lemma updated_record_fields now i r0 :
  let r := updated_record now i r0 in
  ID r = ID r0 /\ record_key r = record_key r0 /\ changeDigest r = changeDigest r0
  /\ pendingChange r = pendingChange r0 /\ LastSignaledPercent r = LastSignaledPercent r0
  /\ State r = DeriveState (Status r) (Error r) (ui_State i) /\ Error r = TrimSpace (ui_Error i)
  /\ UpdatedAt r = now /\ LastPayloadChangeAt r = LastPayloadChangeAt r0
  /\ (f_changed (update_fields i r0).2 = false -> content_digest r = content_digest r0).
Proof.
  unfold updated_record. destruct (update_fields_signal i r0) as [S1 S2].
  destruct (update_fields i r0) as [r fl] eqn:Ef. cbn [fst snd] in *.
  destruct (update_fields_frame _ _ _ _ Ef) as (F & Fs & Fe & Fc). injection F as F1 F2 F3 F4 F5 F6 F7.
  unfold record_key in *.
  destruct (update_payload_frame i (Terminal r0) (f_changed fl) r) as [-> | [p ->]]; cbn;
    repeat split; try done; intros Hc; by rewrite (Fc Hc).
Qed.

Lemma Update_eq now i m r0 :
  ops m !! TrimSpace (ui_ID i) = Some r0 ->
  let fl := (update_fields i r0).2 in
  let r := updated_record now i r0 in
  let m1 := set_updateCount (wrap64 (updateCount m + 1)) m in
  Update now i m =
    if f_changed fl then
      let mr := update_signal fl i r (set_updateChangedCount (wrap64 (updateChangedCount m + 1)) m1) in
      (mr.1, Some (mr.2, true))
    else (set_ops (<[ID r := r]> (ops m)) m1, Some (r, false)).
Proof.
  intros E. unfold Update, updated_record. rewrite E. destruct (update_fields i r0) as [r fl]. cbn [fst snd].
  destruct (f_changed fl); [|done]. cbv zeta. cbn [updateChangedCount set_updateCount].
  match goal with |- context [update_signal ?a ?b ?c ?d] => by destruct (update_signal a b c d) end.
Qed.

Lemma settled_ops targets m m' :
  ops m = ops m' -> allTargetsTerminalLocked targets m = allTargetsTerminalLocked targets m'.
Proof. unfold allTargetsTerminalLocked. by intros ->. Qed.

(** One significant update, as seen by everything it reaches. *)
Lemma significant_effect fl i r m :
  Inv m -> Error r = TrimSpace (ui_Error i) -> significant fl r = true ->
  let m' := (update_signal fl i r m).1 in
  (update_signal fl i r m).2 = signaled_record fl r
  /\ ops m' = <[ID r := signaled_record fl r]> (ops m)
  /\ (forall ws w, waiters m !! record_key r = Some ws -> w ∈ ws -> waiter_ready w m' = true)
  /\ (forall j s buf, subscriptions m !! j = Some s -> open_with (sub_ch s) buf m -> ID r ∈ sub_targets s ->
        let settled := allTargetsTerminalLocked (sub_targets s) m' in
        echans m' !! sub_ch s =
          Some (mkEChan (offered (change_event (signaled_record fl r) (changeDigest r) (content_digest r)) buf) settled)
        /\ subscriptions m' !! j = if settled then None else Some s)
  /\ (forall j s buf, subscriptions m !! j = Some s -> open_with (sub_ch s) buf m -> ID r ∉ sub_targets s ->
        open_with (sub_ch s) buf m' /\ subscriptions m' !! j = Some s).
Proof.
  intros Hm He Hs. rewrite update_signal_eq, Hs by done. cbn [fst snd].
  destruct (signaled_record_fields fl r) as (G1 & _).
  set (m1 := set_ops _ m).
  assert (Hw1 : waiters_ok m1) by (by apply (waiters_ok_same m); [..|apply Hm]).
  rewrite signalLocked_eq by done. set (m2 := set_wchans _ _).
  assert (Hs2 : subs_ok m2) by (by apply (subs_ok_same m); [..|apply Hm]).
  pose proof (publishChangeLocked_spec (signaled_record fl r) (changeDigest r) (content_digest r) m2 Hs2) as P.
  set (m' := publishChangeLocked _ _ _ m2) in *. rewrite G1 in P.
  pose proof (pb_frame _ _ _ _ _ P) as F.
  assert (Ho : ops m' = ops m2) by by rewrite F.
  split; [done|]. split; [by rewrite Ho|]. split; [|split].
  - intros ws w E Hin. unfold waiter_ready. rewrite F. unfold m2, m1. simpl. rewrite E. simpl.
    by rewrite wake_all_in.
  - intros j s buf E Hb Hin. set (settled := allTargetsTerminalLocked (sub_targets s) m').
    assert (Hj : (j, s) ∈ map_to_list (subscriptions m2)) by by apply elem_of_map_to_list.
    assert (Hst : settles (ID r) m2 s = settled).
    { unfold settles, settled. rewrite bool_decide_eq_true_2 by done. by apply settled_ops. }
    rewrite (pb_chan _ _ _ _ _ P j s buf Hj Hb), (pb_sub _ _ _ _ _ P j s Hj), Hst.
    unfold chan_after. rewrite bool_decide_eq_true_2, Hst by done. split; [done|].
    destruct settled; [done|exact E].
  - intros j s buf E Hb Hin.
    assert (Hj : (j, s) ∈ map_to_list (subscriptions m2)) by by apply elem_of_map_to_list.
    assert (Hst : settles (ID r) m2 s = false) by (unfold settles; by rewrite bool_decide_eq_false_2).
    unfold open_with. rewrite (pb_chan _ _ _ _ _ P j s buf Hj Hb), (pb_sub _ _ _ _ _ P j s Hj), Hst.
    unfold chan_after. by rewrite bool_decide_eq_false_2.
Qed.

Lemma Inv_counts a b m : Inv m -> Inv (set_updateChangedCount a (set_updateCount b m)).
Proof. by apply Inv_same. Qed.

(** C2: An update of a known operation replaces its record and no other; when
    the content (status, message, state, key data) changed, the operation is
    pending again, every waiter of its turn is woken, and every subscription
    that targets it is offered the change event (dropped only by a full buffer)
    and is closed and forgotten exactly when all its targets are terminal after
    the update; when the content did not change and the percentage moved by
    less than the threshold, no waiter and no subscription is touched. *)
Theorem Update_publishes now i m r0 :
  reachable m -> Get (ui_ID i) m = Some r0 ->
  exists r changed,
    let m' := (Update now i m).1 in
    (Update now i m).2 = Some (r, changed)
    /\ ops m' = <[TrimSpace (ui_ID i) := r]> (ops m)
    /\ UpdatedAt r = now /\ State r = DeriveState (Status r) (Error r) (ui_State i)
    /\ (changeDigest r <> changeDigest r0 ->
          pendingChange r = true /\ LastPayloadChangeAt r = now
          /\ (forall ws w, waiters m !! record_key r0 = Some ws -> w ∈ ws -> waiter_ready w m' = true)
          /\ (forall j s buf, subscriptions m !! j = Some s -> echans m !! sub_ch s = Some (mkEChan buf false) ->
                TrimSpace (ui_ID i) ∈ sub_targets s ->
                let settled := allTargetsTerminalLocked (sub_targets s) m' in
                echans m' !! sub_ch s =
                  Some (mkEChan (offered (change_event r (changeDigest r0) (changeDigest r)) buf) settled)
                /\ subscriptions m' !! j = if settled then None else Some s))
    /\ (changeDigest r = changeDigest r0 ->
        shouldSignalPercentChange (LastSignaledPercent r0) (Percent r) = false ->
          waiters m' = waiters m /\ wchans m' = wchans m /\ subscriptions m' = subscriptions m
          /\ echans m' = echans m /\ pendingChange r = pendingChange r0).
Proof.
  intros Hm%reachable_Inv E. unfold Get in E.
  destruct (Inv_lookup _ _ _ Hm E) as [I1 I2 I3].
  destruct (updated_record_fields now i r0) as (U1 & U2 & U3 & U4 & U5 & U6 & U7 & U8 & U9 & U10).
  rewrite (Update_eq now i m r0 E). cbv zeta.
  generalize dependent (updated_record now i r0). intros r1 U1 U2 U3 U4 U5 U6 U7 U8 U9 U10.
  set (fl := (update_fields i r0).2) in *. clearbody fl.
  set (m1 := set_updateChangedCount _ _).
  assert (Hm1 : Inv m1) by by apply Inv_counts.
  destruct (f_changed fl) eqn:Ec; cbn [fst snd].
  2: { exists r1, false. rewrite U1, I1. repeat split; try done; congruence. }
  destruct (significant fl r1) eqn:Es.
  - destruct (significant_effect fl i r1 m1 Hm1 U7 Es) as (S1 & S2 & S3 & S4 & _).
    destruct (signaled_record_fields fl r1) as (G1 & G2 & G3 & G4 & G5 & G6 & G7).
    rewrite S1. exists (signaled_record fl r1), true.
    destruct (signaled_record_content fl r1) as (Gs1 & Gs2 & Gs3). rewrite U1, I1 in *.
    split; [done|]. split; [by rewrite S2|]. split; [congruence|]. split; [congruence|]. split.
    + intros _. split; [done|]. split; [congruence|]. split.
      * intros ws w Ew Hin. apply (S3 ws); [by rewrite U2|done].
      * intros j s buf Ej Eb Hin. rewrite G5, <- U3. by apply S4.
    + intros Hd Hp. exfalso. unfold significant in Es.
      rewrite G5 in Hd. rewrite bool_decide_eq_false_2 in Es by (intros Hn; congruence).
      simpl in Es. unfold percent_signals in Es. rewrite U5, <- Gs3, Hp, andb_false_r in Es. done.
  - rewrite update_signal_eq, Es by done. cbn [fst snd]. exists r1, true. rewrite U1, I1.
    repeat split; try done; congruence.
Qed.

(** ** What the calls do to the records *)
Lemma ops_signalLocked key m : waiters_ok m -> ops (signalLocked key m) = ops m.
Proof. intros Hw. by rewrite signalLocked_eq. Qed.

Lemma ops_FinishPoller id m : Inv m -> ops (FinishPoller id m) = ops m.
Proof.
  intros Hm. destruct (decide (TrimSpace id = "")) as [E|E].
  - unfold FinishPoller. by rewrite bool_decide_eq_true_2.
  - by destruct (FinishPoller_eq id m Hm E) as (f & c & ->).
Qed.

Lemma ops_Close m : Inv m -> ops (Close m) = ops m.
Proof.
  intros Hm. destruct (closed m) eqn:Ec; [by unfold Close; rewrite Ec|].
  by rewrite (cf_frame _ _ (Close_spec m Hm Ec)).
Qed.

Lemma ops_Unsubscribe i m : Inv m -> ops (Unsubscribe i m) = ops m.
Proof.
  intros Hm. unfold Unsubscribe. case_match; [done|]. case_match eqn:E; [|done].
  destruct (so_open _ (inv_subs _ Hm) _ _ E) as (b & Ho & _). unfold close_events. simpl.
  unfold open_with in Ho. by rewrite Ho.
Qed.

Lemma ops_Subscribe ids m : ops (Subscribe ids m).1 = ops m.
Proof.
  unfold Subscribe. case_match; [|done]. unfold close_events. simpl. by rewrite lookup_insert_eq.
Qed.

Lemma ops_Register owner now i m :
  Inv m ->
  ops (Register owner now i m).1 =
    <[ID (register_record owner now i) := register_record owner now i]> (ops m).
Proof.
  intros Hm. unfold Register. cbn [fst].
  destruct (bool_decide (is_Some (ops m !! _))); (rewrite ops_signalLocked; [done|]);
    by apply (waiters_ok_same m); [..|apply Hm].
Qed.

(** The calls that leave every record as it is. *)
Definition touches_records (c : call) : bool :=
  match c with
  | CBindToolCarrier _ _ _ _ | CRegister _ _ _ | CUpdate _ _ | CConsumeChanged _ _
  | CRecordPollFailure _ _ _ _ | CResetPollFailures _ _ | CSweep _ _ => true
  | _ => false
  end.

Lemma ops_step c m : Inv m -> touches_records c = false -> ops (step c m) = ops m.
Proof.
  intros Hm. destruct c; cbn [touches_records step]; try done; intros _.
  - unfold AdmitPoller. by repeat case_match.
  - unfold TryStartPoller. by repeat case_match.
  - by apply ops_FinishPoller.
  - unfold StorePollerCancel. by repeat case_match.
  - by destruct (CancelTurnPollers_eq convID turnID m) as (c & -> & _).
  - unfold WaitForChangeSince. by repeat case_match.
  - unfold removeWaiterLocked. by repeat case_match.
  - unfold SignalTurn. repeat case_match; try done. cbn [fst]. rewrite ops_signalLocked; [done|].
    by apply (waiters_ok_same m); [..|apply Hm].
  - apply ops_Subscribe.
  - by apply ops_Unsubscribe.
  - unfold StartGC. by repeat case_match.
  - by apply ops_Close.
Qed.

Lemma ops_dropOpLocked id m : ops (dropOpLocked id m) = delete id (ops m).
Proof. unfold dropOpLocked. simpl. by destruct (pollerCancels m !! id). Qed.

Lemma ops_drop_all ids m id :
  ops (foldl (fun m id => dropOpLocked id m) m ids) !! id = if decide (id ∈ ids) then None else ops m !! id.
Proof.
  revert m. induction ids as [|i ids IH]; intros m; cbn [foldl].
  { case_decide as Hd; [by apply elem_of_nil in Hd|done]. }
  rewrite IH, ops_dropOpLocked. destruct (decide (id = i)) as [->|Hne].
  - rewrite lookup_delete_eq. repeat case_decide; try done; set_solver.
  - rewrite lookup_delete_ne by done. repeat case_decide; set_solver.
Qed.

Lemma ops_Sweep now maxAge m id :
  ops (Sweep now maxAge m).1 !! id =
    match ops m !! id with
    | Some r => if (0 <? maxAge) && prunable now maxAge m id r then None else Some r
    | None => None
    end.
Proof.
  destruct (Z.ltb_spec 0 maxAge) as [Ha|Ha]; simpl.
  2: { unfold Sweep. destruct (Z.leb_spec maxAge 0); [|lia]. simpl. by destruct (ops m !! id). }
  rewrite Sweep_eq by done. cbv zeta. cbn [fst].
  transitivity (ops (foldl (fun m id => dropOpLocked id m) m (pruned_ids now maxAge m)) !! id).
  { by case_match. }
  rewrite ops_drop_all.
  assert (Hin : id ∈ pruned_ids now maxAge m <-> exists r, ops m !! id = Some r /\ prunable now maxAge m id r = true).
  { unfold pruned_ids. rewrite list_elem_of_fmap. split.
    - intros ([i r] & -> & [Hp Hi%elem_of_map_to_list]%list_elem_of_filter). eauto.
    - intros (r & E & Hp). exists (id, r). split; [done|]. apply list_elem_of_filter.
      split; [done|]. by apply elem_of_map_to_list. }
  case_decide as Hd.
  - apply Hin in Hd as (r & -> & ->). done.
  - destruct (ops m !! id) as [r|] eqn:E; [|done].
    destruct (prunable now maxAge m id r) eqn:Ep; [|done]. destruct Hd. apply Hin. eauto.
Qed.

(** ** No change is lost

    [seen] is what the consumer of a turn's changes knows: the record of every
    operation as the last consumption that returned it had it. *)
Definition learn (changed : list OperationRecord) (seen : gmap string OperationRecord) : gmap string OperationRecord :=
  foldr (fun r s => <[ID r := r]> s) seen changed.

Definition seen_step (c : call) (m : Manager) (seen : gmap string OperationRecord) : gmap string OperationRecord :=
  match c with
  | CConsumeChanged conv turn => learn (ConsumeChanged conv turn m).2 seen
  | _ => seen
  end.

Inductive feed : Manager -> gmap string OperationRecord -> Prop :=
| feed_new : feed NewManager ∅
| feed_step c m seen : feed m seen -> feed (step c m) (seen_step c m seen).

Lemma feed_reachable m seen : feed m seen -> reachable m.
Proof. induction 1; by constructor. Qed.

(** A record that is not pending after a call was not pending before it, and
    its content has not changed. *)
Definition quiet_from (m m' : Manager) : Prop :=
  forall id r', ops m' !! id = Some r' -> pendingChange r' = false ->
    exists r, ops m !! id = Some r /\ pendingChange r = false /\ content_digest r' = content_digest r.

Lemma quiet_same m m' : ops m' = ops m -> quiet_from m m'.
Proof. intros E id r'. rewrite E. eauto. Qed.

Lemma quiet_insert id r r0 m m' :
  ops m' = <[id := r]> (ops m) ->
  (pendingChange r = false -> ops m !! id = Some r0 /\ pendingChange r0 = false /\ content_digest r = content_digest r0) ->
  quiet_from m m'.
Proof.
  intros E Hr j r'. rewrite E. intros [[<- <-]|[Hne E']]%lookup_insert_Some Hp; [|eauto].
  destruct (Hr Hp) as (? & ? & ?). eauto.
Qed.

Lemma quiet_step c m :
  Inv m -> (forall conv turn, c <> CConsumeChanged conv turn) -> quiet_from m (step c m).
Proof.
  intros Hm Hc. destruct (touches_records c) eqn:Et; [|by apply quiet_same, ops_step].
  destruct c; try done; clear Et; cbn [step].
  - unfold BindToolCarrier. case_match eqn:E; [|by apply quiet_same]. cbn [fst].
    eapply quiet_insert; [done|]. intros Hp. split; [done|].
    revert Hp. repeat case_match; done.
  - eapply (quiet_insert _ _ (register_record owner now i)); [by apply ops_Register|done].
  - destruct (ops m !! TrimSpace (ui_ID i)) as [r0|] eqn:E.
    2: { unfold Update. rewrite E. by apply quiet_same. }
    destruct (updated_record_fields now i r0) as (U1 & U2 & U3 & U4 & U5 & U6 & U7 & U8 & U9 & U10).
    destruct (Inv_lookup _ _ _ Hm E) as [I1 I2 I3].
    rewrite (Update_eq now i m r0 E). cbv zeta.
    generalize dependent (updated_record now i r0). intros r1 U1 U2 U3 U4 U5 U6 U7 U8 U9 U10.
    set (fl := (update_fields i r0).2) in *. clearbody fl.
    set (m1 := set_updateChangedCount _ _). assert (Hm1 : Inv m1) by by apply Inv_counts.
    destruct (f_changed fl) eqn:Ec; cbn [fst snd].
    + destruct (significant fl r1) eqn:Es.
      * destruct (significant_effect fl i r1 m1 Hm1 U7 Es) as (_ & S2 & _).
        eapply (quiet_insert (ID r1) _ r0); [exact S2|].
        destruct (signaled_record_fields fl r1) as (_ & _ & _ & _ & _ & -> & _). done.
      * rewrite update_signal_eq, Es by done. cbn [fst].
        eapply (quiet_insert (ID r1) _ r0); [done|]. intros Hp.
        rewrite U1, I1. split; [done|]. split; [congruence|].
        apply orb_false_iff in Es as [Es _]. apply bool_decide_eq_false, dec_stable in Es.
        unfold content_digest at 2. congruence.
    + eapply (quiet_insert (ID r1) r1 r0); [done|]. intros Hp.
      rewrite U1, I1. split; [done|]. split; [congruence|]. by apply U10.
  - by destruct (Hc convID turnID).
  - unfold RecordPollFailure. case_match eqn:E; [|by apply quiet_same]. case_match; cbn [fst].
    + eapply quiet_insert; [done|]. by intros Hp.
    + eapply (quiet_insert _ _ o); [rewrite ops_signalLocked; [done|]|done].
      by apply (waiters_ok_same m); [..|apply Hm].
  - unfold ResetPollFailures. case_match eqn:E; [|by apply quiet_same]. case_match; cbn [fst]; [by apply quiet_same|].
    eapply quiet_insert; [done|]. by intros Hp.
  - intros id r'. rewrite ops_Sweep. destruct (ops m !! id) as [r|]; [|done].
    case_match; [done|]. intros [= <-]. eauto.
Qed.

Lemma learn_other changed seen id :
  (forall r, r ∈ changed -> ID r <> id) -> learn changed seen !! id = seen !! id.
Proof.
  induction changed as [|r changed IH]; intros Hn; [done|]. simpl.
  rewrite lookup_insert_ne by (apply Hn; left). apply IH. intros r' Hr'. apply Hn. by right.
Qed.

Lemma learn_in changed seen id d :
  (exists r, r ∈ changed /\ ID r = id) -> (forall r, r ∈ changed -> ID r = id -> r = d) ->
  learn changed seen !! id = Some d.
Proof.
  induction changed as [|r changed IH]; intros (r0 & Hr0 & Hid) Hd; [by apply elem_of_nil in Hr0|]. simpl.
  destruct (decide (ID r = id)) as [E|Hne].
  - rewrite E, lookup_insert_eq. f_equal. apply Hd; [left|done].
  - rewrite lookup_insert_ne by done. apply IH.
    + exists r0. split; [|done]. apply elem_of_cons in Hr0 as [->|?]; done.
    + intros r' Hr'. apply Hd. by right.
Qed.

Lemma elem_of_records r m : Inv m -> r ∈ records m <-> ops m !! ID r = Some r.
Proof.
  intros Hm. unfold records. rewrite list_elem_of_fmap. split.
  - intros ([id r'] & -> & E%elem_of_map_to_list). simpl. by rewrite (ro_id _ _ (Inv_lookup _ _ _ Hm E)).
  - intros E. exists (ID r, r). split; [done|]. by apply elem_of_map_to_list.
Qed.

(** What [ConsumeChanged] selects. *)
Definition takes (conv turn : string) (r : OperationRecord) : bool :=
  bool_decide (record_key r = turnKey conv turn) && pendingChange r.

Lemma elem_of_consumed conv turn r m :
  Inv m ->
  r ∈ (ConsumeChanged conv turn m).2 <->
    exists r0, r = set_pendingChange false r0 /\ ops m !! ID r0 = Some r0 /\ takes conv turn r0 = true.
Proof.
  intros Hm. unfold ConsumeChanged. cbn [snd]. rewrite list_elem_of_fmap. split.
  - intros (r0 & -> & [Ht Hr%elem_of_records]%list_elem_of_filter); [|done]. eauto.
  - intros (r0 & -> & E & Ht). exists r0. split; [done|]. apply list_elem_of_filter.
    split; [done|]. by apply elem_of_records.
Qed.

(** The content of a record: its status, message and state without surrounding
    space, and its key data without insignificant space. *)
Definition same_content (r0 r : OperationRecord) : Prop :=
  TrimSpace (Status r0) = TrimSpace (Status r) /\ TrimSpace (Message r0) = TrimSpace (Message r)
  /\ TrimSpace (State r0) = TrimSpace (State r) /\ compact_data (KeyData r0) = compact_data (KeyData r).
Definition encodable_record (r : OperationRecord) : Prop := encodable (Status r) (Message r) (State r) (KeyData r).
Definition payload (r : OperationRecord) : string := digest_payload (Status r) (Message r) (State r) (KeyData r).

Lemma same_digest r0 r :
  encodable_record r0 -> encodable_record r -> content_digest r0 = content_digest r ->
  same_content r0 r \/ payload r0 <> payload r /\ md5_hex (payload r0) = md5_hex (payload r).
Proof.
  intros He0 He Hd. destruct (decide (payload r0 = payload r)) as [E|Hne]; [left|by right].
  by eapply digest_payload_inj.
Qed.

Lemma seen_digest m seen id r :
  feed m seen -> ops m !! id = Some r -> pendingChange r = false ->
  exists r0, seen !! id = Some r0 /\ content_digest r0 = content_digest r.
Proof.
  intros Hf. revert id r. induction Hf as [|c m seen Hf IH]; intros id r' E' Hp'.
  { simpl in E'. by rewrite lookup_empty in E'. }
  assert (Hm : Inv m) by (by eapply reachable_Inv, feed_reachable).
  assert (Hc : (exists conv turn, c = CConsumeChanged conv turn)
               \/ forall conv turn, c <> CConsumeChanged conv turn) by (destruct c; eauto).
  destruct Hc as [(conv & turn & ->)|Hc].
  - cbn [step seen_step] in *. unfold ConsumeChanged in E'. cbn [fst ops set_ops] in E'.
    rewrite lookup_fmap in E'. apply fmap_Some in E' as (r & E & ->). fold (takes conv turn r) in Hp' |- *.
    assert (Hid := ro_id _ _ (Inv_lookup _ _ _ Hm E)).
    destruct (takes conv turn r) eqn:Et.
    + exists (set_pendingChange false r). split; [|done]. apply learn_in.
      * exists (set_pendingChange false r). split; [|done]. apply elem_of_consumed; [done|].
        exists r. by rewrite Hid.
      * intros r2 (r3 & -> & E3 & _)%elem_of_consumed Hid3; [|done]. cbn in Hid3.
        rewrite Hid3, E in E3. by simplify_eq.
    + rewrite learn_other; [by apply IH|].
      intros r2 (r3 & -> & E3 & Ht3)%elem_of_consumed Hid3; [|done]. cbn in Hid3.
      rewrite Hid3, E in E3. simplify_eq. congruence.
  - assert (Hq : quiet_from m (step c m)) by by by apply quiet_step.
    destruct (Hq _ _ E' Hp') as (r & E & Hp & ->).
    destruct c; try (by apply IH). by destruct (Hc convID turnID).
Qed.

(** C4: No change of an operation is lost to the consumer of its turn.  Along
    any sequence of calls, an operation that is not marked pending has the
    content with which [ConsumeChanged] last returned it: the same status,
    message and state up to surrounding space, and the same key data up to
    insignificant space. Registrations, updates and poll failures that change
    the content mark it pending again. Two things are excepted, since changes
    are recognised by an MD5 digest of a JSON text: records whose texts are not
    valid UTF-8 or whose key data is not JSON ([invalid_keydata_silent] shows a
    change that is missed), and two contents whose texts differ and have one MD5
    digest. *)
Theorem no_change_lost m seen id r :
  feed m seen -> ops m !! id = Some r -> pendingChange r = false ->
  exists r0, seen !! id = Some r0
    /\ (encodable_record r0 -> encodable_record r ->
        same_content r0 r \/ payload r0 <> payload r /\ md5_hex (payload r0) = md5_hex (payload r)).
Proof.
  intros Hf E Hp. destruct (seen_digest m seen id r Hf E Hp) as (r0 & E0 & Hd). exists r0. split; [done|].
  intros He0 He. by apply same_digest.
Qed.

Lemma opHasSubscriptionLocked_false id m :
  opHasSubscriptionLocked id m = false <->
  forall i s, subscriptions m !! i = Some s -> id ∉ sub_targets s.
Proof.
  unfold opHasSubscriptionLocked. rewrite <- not_true_iff_false, existsb_exists. split.
  - intros Hn i s E Hin. apply Hn. exists (i, s). split; [|by apply bool_decide_eq_true].
    by apply list_elem_of_In, elem_of_map_to_list.
  - intros Hn ([i s] & Hin & Hd). apply list_elem_of_In, elem_of_map_to_list in Hin.
    apply bool_decide_eq_true in Hd. by apply (Hn i s).
Qed.

Lemma prunable_spec now maxAge m id r :
  prunable now maxAge m id r = true <->
  maxAge <= time_sub now (UpdatedAt r)
  /\ (Terminal r = true \/ ExecutionModeWaits (ExecutionMode r) = false)
  /\ (forall i s, subscriptions m !! i = Some s -> id ∉ sub_targets s).
Proof.
  unfold prunable. rewrite !andb_true_iff, !negb_true_iff, opHasSubscriptionLocked_false, Z.ltb_ge.
  rewrite andb_false_iff, negb_false_iff. tauto.
Qed.

Lemma size_drop_all ids m :
  NoDup ids -> (forall id, id ∈ ids -> is_Some (ops m !! id)) ->
  size (ops m) = (size (ops (foldl (fun m id => dropOpLocked id m) m ids)) + length ids)%nat.
Proof.
  revert m. induction ids as [|id ids IH]; intros m Hnd Hin; cbn [foldl length]; [lia|].
  apply list.NoDup_cons in Hnd as [Hn Hnd]. destruct (Hin id) as [r Hr]; [by left|].
  assert (Hsz : size (ops m) = S (size (ops (dropOpLocked id m)))).
  { rewrite ops_dropOpLocked, map_size_delete, Hr.
    assert (size (ops m) <> 0%nat); [|simpl; lia]. intros E%map_size_empty_iff.
    by rewrite E, lookup_empty in Hr. }
  rewrite Hsz, (IH (dropOpLocked id m)); [lia|done|].
  intros j Hj. rewrite ops_dropOpLocked, lookup_delete_ne by (intros <-; done). apply Hin. by right.
Qed.

Lemma pruned_ids_ok now maxAge m :
  NoDup (pruned_ids now maxAge m)
  /\ (forall id, id ∈ pruned_ids now maxAge m -> is_Some (ops m !! id)).
Proof.
  split.
  - unfold pruned_ids. apply NoDup_fmap_2_strong; [|apply list.NoDup_filter, NoDup_map_to_list].
    intros [i r] [j t] [_ Hi%elem_of_map_to_list]%list_elem_of_filter
      [_ Hj%elem_of_map_to_list]%list_elem_of_filter E. simpl in E. congruence.
  - intros id ([i r] & -> & [_ Hi%elem_of_map_to_list]%list_elem_of_filter)%list_elem_of_fmap. by exists r.
Qed.

Lemma Sweep_count now maxAge m :
  (Sweep now maxAge m).2 = Z.of_nat (size (ops m)) - Z.of_nat (size (ops (Sweep now maxAge m).1)).
Proof.
  destruct (Z.ltb_spec 0 maxAge) as [Ha|Ha].
  2: { unfold Sweep. destruct (Z.leb_spec maxAge 0); [|lia]. simpl. lia. }
  rewrite Sweep_eq by done. cbv zeta. cbn [fst snd].
  destruct (pruned_ids_ok now maxAge m) as [Hnd Hin].
  pose proof (size_drop_all _ m Hnd Hin) as Hsz.
  assert (E : forall b x m', ops (if b : bool then set_sweepPruneCount x m' else m') = ops m') by by intros [].
  rewrite E. lia.
Qed.

Lemma Sweep_frame now maxAge m :
  pollers (Sweep now maxAge m).1 = pollers m /\ pollerWG (Sweep now maxAge m).1 = pollerWG m
  /\ subscriptions (Sweep now maxAge m).1 = subscriptions m.
Proof.
  destruct (Z.ltb_spec 0 maxAge) as [Ha|Ha].
  2: { unfold Sweep. by destruct (Z.leb_spec maxAge 0); [|lia]. }
  rewrite Sweep_eq by done. cbv zeta. cbn [fst].
  assert (F : forall ids m, let m' := foldl (fun m id => dropOpLocked id m) m ids in
            pollers m' = pollers m /\ pollerWG m' = pollerWG m /\ subscriptions m' = subscriptions m).
  { induction ids as [|id ids IH]; intros m1; cbn [foldl]; [done|].
    destruct (IH (dropOpLocked id m1)) as (-> & -> & ->). unfold dropOpLocked. cbn.
    by destruct (pollerCancels m1 !! id). }
  specialize (F (pruned_ids now maxAge m) m). by case_match.
Qed.

(** A sweep removes exactly the operations whose last update is at least
    the maximum age old, which no subscription targets, and which are terminal
    or do not make their turn wait; it reports their number, and it neither
    deregisters a poller nor touches a subscription. *)
Lemma Sweep_spec now maxAge m :
  let m' := (Sweep now maxAge m).1 in
  (forall id r, ops m' !! id = Some r <->
     ops m !! id = Some r
     /\ ~ (0 < maxAge /\ maxAge <= time_sub now (UpdatedAt r)
           /\ (Terminal r = true \/ ExecutionModeWaits (ExecutionMode r) = false)
           /\ (forall i s, subscriptions m !! i = Some s -> id ∉ sub_targets s)))
  /\ (Sweep now maxAge m).2 = Z.of_nat (size (ops m)) - Z.of_nat (size (ops m'))
  /\ pollers m' = pollers m /\ pollerWG m' = pollerWG m /\ subscriptions m' = subscriptions m.
Proof.
  cbv zeta. split; [|split; [|by apply Sweep_frame]].
  - intros id r. rewrite ops_Sweep. destruct (ops m !! id) as [r0|] eqn:E; [|naive_solver].
    pose proof (prunable_spec now maxAge m id r0) as Hp.
    destruct (Z.ltb_spec 0 maxAge); simpl.
    + destruct (prunable now maxAge m id r0).
      * split; [done|]. intros [[= <-] Hn]. exfalso. apply Hn. destruct Hp as [Hp _]. by destruct (Hp eq_refl).
      * split; [|naive_solver]. intros [= <-]. split; [done|]. intros (_ & H2 & H3 & H4).
        destruct Hp as [_ Hp]. by discriminate Hp.
    + split; [|naive_solver]. intros [= <-]. split; [done|]. lia.
  - apply Sweep_count.
Qed.
End Calls.

(** ** A concrete manager

    An instance of the execution modes and a short run, on which the hypotheses
    of the theorems hold. *)
Definition demo_modes : ExecModes := {|
  NormalizeExecutionMode := fun v fallback => if bool_decide (v = "") then fallback else v;
  ExecutionModeWaits := fun v => bool_decide (v = "wait");
  ExecutionModeWait := "wait" |}.

Definition demo_input (id conv turn status : string) : RegisterInput :=
  mkRegisterInput [] id conv turn "call" "msg" "tool:start" "tool:status" "id" false [] "" "d" [] "" "" ""
    false status "" "" None "" "" 0 0 0.

Definition demo_update (id status : string) (percent : option Z) (keyData : string) : UpdateInput :=
  mkUpdateInput id status "" "" percent keyData "" "".

Definition demo_calls : list call :=
  [CRegister "u" 1 (demo_input " op1 " "c" "t" "running"); CSubscribe ["op1"]; CWaitForChangeSince "c" "t" 7;
   CConsumeChanged "c" "t"; CWaitForChangeSince "c" "t" 0; CAdmitPoller "op1" (Some 3%nat)].

Definition demo_manager : Manager := foldl (fun m c => step (H := demo_modes) c m) NewManager demo_calls.

Lemma demo_reachable : reachable (H := demo_modes) demo_manager.
Proof. apply reachable_run, reachable_new. Qed.

Lemma manager_sound_witness : panicked demo_manager = false /\ size (ops demo_manager) = 1%nat.
Proof.
  split; [exact (proj1 (manager_sound (H := demo_modes) demo_manager demo_reachable))|vm_compute; reflexivity].
Defined.

Lemma Update_publishes_witness :
  exists r, (Update 9 (demo_update "op1" "completed" None "[1]") demo_manager).2 = Some (r, true)
            /\ Terminal r = true.
Proof.
  destruct (ops demo_manager !! "op1") as [r0|] eqn:E; [|vm_compute in E; discriminate E].
  destruct (Update_publishes (H := demo_modes) 9 (demo_update "op1" "completed" None "[1]") demo_manager r0
              demo_reachable E) as (r & changed & H1 & _).
  vm_compute in H1. injection H1 as <- <-. eexists. split; vm_compute; reflexivity.
Defined.

Lemma feed_run cs m seen :
  feed (H := demo_modes) m seen ->
  exists seen', feed (H := demo_modes) (foldl (fun m c => step (H := demo_modes) c m) m cs) seen'.
Proof. revert m seen. induction cs as [|c cs IH]; intros m seen Hf; [by exists seen|]. eapply IH, feed_step, Hf. Qed.

Lemma no_change_lost_witness :
  exists (seen : gmap string OperationRecord) r0 r, ops demo_manager !! "op1" = Some r /\ pendingChange r = false
                 /\ seen !! "op1" = Some r0
                 /\ (encodable_record r0 -> same_content r0 r \/ payload r0 <> payload r /\ md5_hex (payload r0) = md5_hex (payload r)).
Proof.
  destruct (feed_run demo_calls NewManager ∅ (feed_new (H := demo_modes))) as [seen Hf].
  destruct (ops demo_manager !! "op1") as [r|] eqn:E; [|vm_compute in E; discriminate E].
  assert (Hp : pendingChange r = false) by (vm_compute in E; injection E as <-; reflexivity).
  assert (He : encodable_record r).
  { vm_compute in E. injection E as <-. split; [vm_compute; reflexivity|]. split; [vm_compute; reflexivity|]. split; [vm_compute; reflexivity|].
    first [left; reflexivity|right; vm_compute; discriminate]. }
  destruct (no_change_lost (H := demo_modes) demo_manager seen "op1" r Hf E Hp) as (r0 & E0 & H).
  exists seen, r0, r. split; [done|]. split; [done|]. split; [done|]. intros H0. by apply H.
Defined.

(** A terminal transition the subscription of the operation is not told of: the
    digest of a content whose key data is not JSON is that of an empty text, so
    the update that completes the operation looks like no change. *)
Definition broken_calls : list call :=
  [CRegister "u" 1 (demo_input "op1" "c" "t" "running"); CSubscribe ["op1"];
   CUpdate 2 (demo_update "op1" "running" None "{"); CConsumeChanged "c" "t";
   CUpdate 3 (demo_update "op1" "completed" None "{")].

Example invalid_keydata_silent :
  let m := foldl (fun m c => step (H := demo_modes) c m) NewManager broken_calls in
  (fun r => (Terminal r, pendingChange r)) <$> ops m !! "op1" = Some (true, false)
  /\ size (subscriptions m) = 1%nat.
Proof. vm_compute. by split. Qed.

(** Registering an operation again in a terminal state does not publish either. *)
Definition again_calls : list call :=
  [CRegister "u" 1 (demo_input "op1" "c" "t" "running"); CSubscribe ["op1"];
   CRegister "u" 2 (demo_input "op1" "c" "t" "completed")].

Example register_overwrite_silent :
  let m := foldl (fun m c => step (H := demo_modes) c m) NewManager again_calls in
  Terminal <$> ops m !! "op1" = Some true /\ size (subscriptions m) = 1%nat
  /\ echans m !! 0%nat = Some (mkEChan [] false).
Proof. vm_compute. by repeat split. Qed.
