(* ===== verification/AsyncWait.v ===== *)
(** * Waiting on the asynchronous operation manager

    The wake-up guarantee of the waiters of a turn, the aggregated evaluation of
    [AwaitTerminal] with the goroutine around it, the shutdown, and the failure
    path of the pollers. *)
From stdpp Require Import base gmap strings list fin_maps numbers relations.
From Stdlib Require Import ZArith Lia Ascii.
From S2P Require Import Prelude GoStrings Digest GoJson Async AsyncInv AsyncProps.

Open Scope Z_scope.

#[global] Arguments Update : simpl never.
#[global] Arguments Register : simpl never.
#[global] Arguments Close : simpl never.
#[global] Arguments Sweep : simpl never.

Section Waiting.
Context `{ExecModes}.
Implicit Types m : Manager.

(** ** Wake-ups *)

(** A registered waiter: still queued for its turn, or able to proceed. *)
Definition pending_at (key : string) (ch : nat) m : Prop :=
  waiter_ready ch m = true \/ exists ws, waiters m !! key = Some ws /\ ch ∈ ws.

Definition keeps_waiters m m' : Prop :=
  forall key ch, (waiter_ready ch m = true -> waiter_ready ch m' = true)
    /\ (pending_at key ch m -> pending_at key ch m').

Lemma keeps_refl m m' : waiters m' = waiters m -> wchans m' = wchans m -> keeps_waiters m m'.
Proof. intros E1 E2 key ch. unfold pending_at, waiter_ready. by rewrite E1, E2. Qed.

Lemma keeps_trans m1 m2 m3 : keeps_waiters m1 m2 -> keeps_waiters m2 m3 -> keeps_waiters m1 m3.
Proof. intros H1 H2 key ch. destruct (H1 key ch), (H2 key ch). auto. Qed.

Lemma ready_wake_all ws wc ch :
  (match wc !! ch with Some c => w_full c || w_closed c | None => false end) = true ->
  (match wake_all ws wc !! ch with Some c => w_full c || w_closed c | None => false end) = true.
Proof.
  intros Hr. destruct (decide (ch ∈ ws)) as [Hin|Hn]; [by rewrite wake_all_in|by rewrite wake_all_notin].
Qed.

Lemma keeps_signal key m : waiters_ok m -> keeps_waiters m (signalLocked key m).
Proof.
  intros Hw k ch. rewrite signalLocked_eq by done. unfold pending_at, waiter_ready. simpl. split.
  - apply ready_wake_all.
  - intros [Hr|(ws & E & Hin)]; [left; by apply ready_wake_all|].
    destruct (decide (k = key)) as [->|Hne].
    + left. rewrite E. simpl. by rewrite wake_all_in.
    + right. exists ws. by rewrite lookup_delete_ne.
Qed.

Lemma signal_wakes key ch m :
  waiters_ok m -> pending_at key ch m -> waiter_ready ch (signalLocked key m) = true.
Proof.
  intros Hw [Hr|(ws & E & Hin)]; [by apply (keeps_signal key m Hw key ch)|].
  rewrite signalLocked_eq by done. unfold waiter_ready. simpl. rewrite E. simpl. by rewrite wake_all_in.
Qed.

Lemma keeps_set_ops o m : keeps_waiters m (set_ops o m).
Proof. by apply keeps_refl. Qed.

Lemma keeps_Update now i m : Inv m -> keeps_waiters m (Update now i m).1.
Proof.
  intros Hm. destruct (ops m !! TrimSpace (ui_ID i)) as [r0|] eqn:E.
  2: { unfold Update. rewrite E. by apply keeps_refl. }
  destruct (updated_record_fields now i r0) as (U1 & _ & _ & _ & _ & _ & U7 & _).
  rewrite (Update_eq now i m r0 E). cbv zeta.
  generalize dependent (updated_record now i r0). intros r1 U1 U7.
  generalize ((update_fields i r0).2). intros fl.
  set (m1 := set_updateChangedCount _ _). assert (Hm1 : Inv m1) by by apply Inv_counts.
  destruct (f_changed fl); cbn [fst]; [|by apply keeps_refl].
  apply (keeps_trans _ m1); [by apply keeps_refl|].
  rewrite update_signal_eq by done. destruct (significant fl r1); cbn [fst]; [|by apply keeps_refl].
  set (m2 := set_ops _ m1). assert (Hw2 : waiters_ok m2) by (by apply (waiters_ok_same m1); [..|apply Hm1]).
  apply (keeps_trans _ m2); [by apply keeps_refl|].
  apply (keeps_trans _ (signalLocked (record_key r1) m2)); [by apply keeps_signal|].
  assert (Hs : subs_ok (signalLocked (record_key r1) m2)).
  { rewrite signalLocked_eq by done. by apply (subs_ok_same m1); [..|apply Hm1]. }
  pose proof (pb_frame _ _ _ _ _ (publishChangeLocked_spec (signaled_record fl r1) (changeDigest r1)
    (content_digest r1) _ Hs)) as F.
  rewrite F. by apply keeps_refl.
Qed.

Lemma keeps_Close m : Inv m -> keeps_waiters m (Close m).
Proof.
  intros Hm. destruct (closed m) eqn:Ec; [unfold Close; rewrite Ec; by apply keeps_refl|].
  rewrite (cf_frame _ _ (Close_spec m Hm Ec)). intros key ch. unfold pending_at, waiter_ready.
  cbn. split; [apply ready_wake_all|]. intros [Hr|(ws & E & Hin)]; left; [by apply ready_wake_all|].
  rewrite wake_all_in; [done|]. apply elem_of_all_waiters. eauto.
Qed.

(** The calls that may drop a queued waiter without waking it: its own withdrawal,
    and a sweep of an operation whose identifier is the key of the turn. *)
Definition disturbs (key : string) (ch : nat) (c : call) m : Prop :=
  match c with
  | CStopWaiting conv turn ch' => turnKey conv turn = key /\ ch' = ch
  | CSweep _ _ => is_Some (ops m !! key)
  | _ => False
  end.

Lemma pending_drop key ch id m :
  id <> key -> pending_at key ch m -> pending_at key ch (dropOpLocked id m).
Proof.
  intros Hne. unfold dropOpLocked, pending_at, waiter_ready. cbn.
  destruct (pollerCancels m !! id); cbn; rewrite lookup_delete_ne by done; done.
Qed.

Lemma pending_Sweep key ch now maxAge m :
  ops m !! key = None -> pending_at key ch m -> pending_at key ch (Sweep now maxAge m).1.
Proof.
  intros En Hp. destruct (Z.ltb_spec 0 maxAge) as [Ha|Ha].
  2: { unfold Sweep. by destruct (Z.leb_spec maxAge 0); [|lia]. }
  rewrite Sweep_eq by done. cbv zeta. cbn [fst].
  assert (Hin : key ∉ pruned_ids now maxAge m).
  { intros Hin. apply (pruned_ids_ok now maxAge m) in Hin as [r Er]. congruence. }
  assert (F : forall ids m, key ∉ ids -> pending_at key ch m ->
            pending_at key ch (foldl (fun m id => dropOpLocked id m) m ids)).
  { clear. induction ids as [|id ids IH]; intros m Hn Hp; [done|]. cbn [foldl].
    apply not_elem_of_cons in Hn as [Hne Hn]. apply IH; [done|]. by apply pending_drop. }
  specialize (F _ m Hin Hp). by case_match.
Qed.

Lemma pending_removeWaiter key key' ch ch' m :
  (key' = key /\ ch' = ch -> False) -> pending_at key ch m -> pending_at key ch (removeWaiterLocked key' ch' m).
Proof.
  intros Hne [Hr|(ws & E & Hin)].
  { left. unfold removeWaiterLocked. by repeat case_match. }
  unfold removeWaiterLocked. destruct (default [] (waiters m !! key')) as [|w0 ws0] eqn:E'; [right; eauto|].
  destruct (decide (key' = key)) as [->|Hk].
  2: { right. exists ws. case_match; simpl; [by rewrite lookup_delete_ne|by rewrite lookup_insert_ne]. }
  rewrite E in E'. simpl in E'. subst ws. right.
  set (ws' := match list_find _ _ with Some _ => _ | None => _ end).
  assert (Hin' : ch ∈ ws').
  { unfold ws'. destruct (list_find _ (w0 :: ws0)) as [[i x]|] eqn:Ef; [|done].
    apply list_find_Some in Ef as (Ei & -> & _).
    rewrite <- (take_drop_middle _ _ _ Ei) in Hin.
    apply elem_of_app in Hin as [Hin|[->|Hin]%elem_of_cons]; [|by destruct Hne|]; apply elem_of_app; auto. }
  destruct ws' as [|w1 ws1] eqn:Ew; [by apply elem_of_nil in Hin'|].
  exists (w1 :: ws1). simpl. split; [apply lookup_insert_eq|done].
Qed.

Lemma keeps_Wait conv turn v m : Inv m -> keeps_waiters m (WaitForChangeSince conv turn v m).1.
Proof.
  intros Hm. unfold WaitForChangeSince. repeat case_match; try by apply keeps_refl. cbn [fst].
  intros key ch. unfold pending_at, waiter_ready. cbn.
  assert (Hr : (match wchans m !! ch with Some c => w_full c || w_closed c | None => false end) = true ->
    match <[next_ch m := mkWChan false false]> (wchans m) !! ch with
    | Some c => w_full c || w_closed c | None => false end = true).
  { intros Hr. rewrite lookup_insert_ne; [done|]. intros <-.
    by rewrite (fresh_wchan m (inv_waiters _ Hm)) in Hr. }
  split; [done|]. intros [?|(ws & E & Hin)]; [left; auto|right].
  destruct (decide (key = turnKey conv turn)) as [->|Hne].
  - rewrite lookup_insert_eq, E. simpl. eexists. split; [done|]. apply elem_of_app. by left.
  - rewrite lookup_insert_ne by done. eauto.
Qed.

Lemma keeps_sub_frame m m' :
  waiters m' = waiters m -> wchans m' = wchans m -> keeps_waiters m m'.
Proof. apply keeps_refl. Qed.

Lemma keeps_Subscribe ids m : keeps_waiters m (Subscribe ids m).1.
Proof.
  unfold Subscribe. case_match; [|by apply keeps_refl].
  unfold close_events. simpl. rewrite lookup_insert_eq. by apply keeps_refl.
Qed.

Lemma keeps_Unsubscribe i m : Inv m -> keeps_waiters m (Unsubscribe i m).
Proof.
  intros Hm. unfold Unsubscribe. case_match; [by apply keeps_refl|].
  case_match eqn:E; [|by apply keeps_refl].
  destruct (so_open _ (inv_subs _ Hm) _ _ E) as (b & Ho & _). unfold close_events. simpl.
  unfold open_with in Ho. rewrite Ho. by apply keeps_refl.
Qed.

Lemma keeps_FinishPoller id m : Inv m -> keeps_waiters m (FinishPoller id m).
Proof.
  intros Hm. destruct (decide (TrimSpace id = "")) as [E|E].
  - unfold FinishPoller. rewrite bool_decide_eq_true_2 by done. by apply keeps_refl.
  - destruct (FinishPoller_eq id m Hm E) as (f & c & ->). by apply keeps_refl.
Qed.

Lemma keeps_signal_after key m m1 :
  Inv m -> waiters m1 = waiters m -> wchans m1 = wchans m -> next_ch m1 = next_ch m ->
  keeps_waiters m (signalLocked key m1).
Proof.
  intros Hm E1 E2 E3. apply (keeps_trans _ m1); [by apply keeps_refl|]. apply keeps_signal.
  apply (waiters_ok_same m); [done|done| |apply Hm]. lia.
Qed.

Lemma pending_step key ch c m :
  Inv m -> ~ disturbs key ch c m -> pending_at key ch m -> pending_at key ch (step c m).
Proof.
  intros Hm Hd. destruct c; cbn [step disturbs] in *.
  - apply (keeps_refl m); unfold AdmitPoller; by repeat case_match.
  - apply (keeps_refl m); unfold TryStartPoller; by repeat case_match.
  - by apply keeps_FinishPoller.
  - apply (keeps_refl m); unfold StorePollerCancel; by repeat case_match.
  - destruct (CancelTurnPollers_eq convID turnID m) as (c & -> & _). by apply (keeps_refl m).
  - apply (keeps_refl m); unfold BindToolCarrier; by case_match.
  - apply (keeps_signal_after _ m); [done|by case_match..].
  - by apply keeps_Update.
  - done.
  - by apply keeps_Wait.
  - by apply pending_removeWaiter.
  - unfold SignalTurn. repeat case_match; try done. by apply (keeps_signal_after _ m).
  - by apply keeps_Subscribe.
  - by apply keeps_Unsubscribe.
  - unfold RecordPollFailure. case_match; [|done]. case_match; [done|]. by apply (keeps_signal_after _ m).
  - apply (keeps_refl m); unfold ResetPollFailures; by repeat case_match.
  - apply pending_Sweep. by apply eq_None_not_Some.
  - apply (keeps_refl m); unfold StartGC; by repeat case_match.
  - by apply keeps_Close.
Qed.

(** Other calls happening in between. *)
Definition undisturbed (key : string) (ch : nat) m m' : Prop :=
  exists c, ~ disturbs key ch c m /\ m' = step c m.

Lemma pending_run key ch m m' :
  Inv m -> rtc (undisturbed key ch) m m' -> pending_at key ch m -> Inv m' /\ pending_at key ch m'.
Proof.
  intros Hm Hr. revert Hm. induction Hr as [m|m m1 m2 (c & Hd & ->) _ IH]; intros Hm Hp; [done|].
  apply IH; [by apply Inv_step|by apply pending_step].
Qed.

Lemma wrapu64_succ_ne x : wrapu64 (x + 1) <> x.
Proof.
  unfold wrapu64. intros E. pose proof (Z.mod_pos_bound (x + 1) (2 ^ 64) ltac:(lia)) as B.
  destruct (decide (x + 1 < 2 ^ 64)); [rewrite Z.mod_small in E; lia|].
  replace (x + 1) with (2 ^ 64) in E by lia. rewrite Z.mod_same in E by lia. lia.
Qed.

Lemma signaled_wait_returns conv turn m :
  Inv m -> TrimSpace conv <> "" -> TrimSpace turn <> "" -> closed m = false ->
  (WaitForChangeSince conv turn (TurnSignalVersion conv turn m) (SignalTurn conv turn m).1).2 = None.
Proof.
  intros Hm Hcv Htn Hc. unfold SignalTurn. rewrite !bool_decide_eq_false_2, Hc by done. cbn [orb fst].
  rewrite signalLocked_eq by (by apply (waiters_ok_same m); [..|apply Hm]).
  unfold WaitForChangeSince. destruct (existsb _ _); [done|]. cbn. rewrite lookup_insert_eq. cbn.
  unfold TurnSignalVersion.
  destruct (Z.eqb_spec (wrapu64 (default 0 (turnSignals m !! turnKey conv turn) + 1))
              (default 0 (turnSignals m !! turnKey conv turn))) as [E|]; [|done].
  by apply wrapu64_succ_ne in E.
Qed.


(** ** Aggregated evaluation *)
Definition await_idle (now : Z) (r : OperationRecord) : bool := negb (time_after (idle_deadline r) now).

(** The item of one awaited operation. *)
Definition await_item (now : Z) (r : OperationRecord) : AggregatedItem :=
  aggregated_item r
    (if Terminal r then aggregatedReason r false
     else if await_idle now r then "running_idle" else TrimSpace (State r)).

(** The operations an evaluation has to wait for. *)
Definition await_busy (now : Z) (r : OperationRecord) : bool :=
  negb (Terminal r) && negb (await_idle now r).

Definition await_wait (now : Z) (nextWait : Z) (r : OperationRecord) : Z :=
  let wait := time_sub (idle_deadline r) now in
  if await_busy now r && (0 <? wait) && (wait <? nextWait) then wait else nextWait.

Lemma await_one_eq now items active done nextWait r :
  await_one now (items, active, done, nextWait) r =
    (items ++ [await_item now r], active || negb (Terminal r), done && negb (await_busy now r),
     await_wait now nextWait r).
Proof.
  unfold await_one, await_item, await_wait, await_busy, await_idle.
  destruct (Terminal r); cbn [negb andb]; [by rewrite orb_false_r, andb_true_r|].
  destruct (time_after (idle_deadline r) now); cbn [negb andb];
    by rewrite orb_true_r, ?andb_true_r, ?andb_false_r.
Qed.

Lemma await_fold now l items active done nextWait :
  foldl (await_one now) (items, active, done, nextWait) l =
    (items ++ (await_item now <$> l),
     active || existsb (fun r => negb (Terminal r)) l,
     done && negb (existsb (await_busy now) l),
     foldl (await_wait now) nextWait l).
Proof.
  revert items active done nextWait. induction l as [|r l IH]; intros items active done nextWait;
    cbn [foldl fmap list_fmap existsb].
  - by rewrite app_nil_r, orb_false_r, andb_true_r.
  - rewrite await_one_eq, IH, <- app_assoc, orb_assoc, negb_orb, andb_assoc. done.
Qed.

Definition await_cap : Z := dur_mul DefaultIdleTimeoutMs Millisecond.

Lemma await_wait_bounds now l w :
  0 < w ->
  let w' := foldl (await_wait now) w l in
  0 < w' <= w
  /\ (forall r, r ∈ l -> await_busy now r = true -> w' <= time_sub (idle_deadline r) now).
Proof.
  revert w. induction l as [|r l IH]; intros w Hw; cbn [foldl].
  { split; [lia|]. by intros r ?%elem_of_nil. }
  set (w1 := await_wait now w r).
  assert (H1 : 0 < w1 <= w /\ (await_busy now r = true -> w1 <= time_sub (idle_deadline r) now)).
  { unfold w1, await_wait. destruct (await_busy now r) eqn:Eb; cbn [andb]; [|split; [lia|done]].
    assert (Hpos : 0 < time_sub (idle_deadline r) now).
    { unfold await_busy, await_idle, time_after in Eb. apply andb_prop in Eb as [_ Eb].
      rewrite negb_involutive in Eb. apply Z.ltb_lt in Eb. unfold time_sub, min_int64, max_int64. lia. }
    destruct (Z.ltb_spec 0 (time_sub (idle_deadline r) now)); [|lia]. cbn [andb].
    destruct (Z.ltb_spec (time_sub (idle_deadline r) now) w); split; intros; lia. }
  destruct H1 as [H1 H1']. destruct (IH w1) as [H2 H3]; [lia|]. split; [lia|].
  intros r' [->|Hr']%elem_of_cons Hb; [|by apply H3]. specialize (H1' Hb). lia.
Qed.

(** The evaluation behind [AwaitTerminal] reports one item per known awaited
    operation, in the order asked for and with the reason its record justifies;
    says operations are still active exactly when one of them is not terminal;
    is final when every operation is terminal or idle, or when one item is
    reported idle; and otherwise asks to be woken after a positive delay that
    exceeds neither ten minutes nor the idle deadline of any operation that is
    still busy, so an idle operation is never overslept. *)
Lemma evaluateAwait_spec now opIDs m :
  let '(result, done, wait) := evaluateAwait now opIDs m in
  let l := awaited opIDs m in
  agg_Items result = (await_item now <$> l)
  /\ (agg_OpsStillActive result = true <-> exists r, r ∈ l /\ Terminal r = false)
  /\ (done = true <->
        (forall r, r ∈ l -> await_busy now r = false)
        \/ (exists r, r ∈ l /\ it_Reason (await_item now r) = "running_idle"))
  /\ (done = false ->
        0 < wait <= await_cap
        /\ forall r, r ∈ l -> await_busy now r = true -> wait <= time_sub (idle_deadline r) now).
Proof.
  unfold evaluateAwait. rewrite await_fold. cbn [app orb andb].
  set (l := awaited opIDs m). fold await_cap.
  destruct (await_wait_bounds now l await_cap) as [Hb1 Hb2]; [vm_compute; done|].
  assert (Hact : existsb (fun r => negb (Terminal r)) l = true <-> exists r, r ∈ l /\ Terminal r = false).
  { rewrite existsb_exists. split; intros (r & Hr & Ht); exists r; [rewrite list_elem_of_In|rewrite list_elem_of_In in Hr];
      split; try done; [by apply negb_true_iff|by apply negb_true_iff]. }
  assert (Hbusy : existsb (await_busy now) l = false <-> forall r, r ∈ l -> await_busy now r = false).
  { rewrite <- not_true_iff_false, existsb_exists. split.
    - intros Hn r Hr. apply not_true_iff_false. intros Ht. apply Hn. exists r. by rewrite <- list_elem_of_In.
    - intros Hn (r & Hr & Ht). apply list_elem_of_In in Hr. rewrite (Hn _ Hr) in Ht. done. }
  assert (Hidle : existsb (fun it => bool_decide (it_Reason it = "running_idle")) (await_item now <$> l) = true
            <-> exists r, r ∈ l /\ it_Reason (await_item now r) = "running_idle").
  { rewrite existsb_exists. split.
    - intros (it & Hit & Hd%bool_decide_eq_true). apply list_elem_of_In, list_elem_of_fmap in Hit as (r & -> & Hr). eauto.
    - intros (r & Hr & Hd). exists (await_item now r). split; [|by apply bool_decide_eq_true].
      apply list_elem_of_In, list_elem_of_fmap. eauto. }
  destruct (existsb (await_busy now) l) eqn:Eb; cbn [negb].
  - destruct (Z.leb_spec (foldl (await_wait now) await_cap l) 0); [lia|].
    destruct (existsb _ (await_item now <$> l)) eqn:Ei; (split; [done|]; split; [done|]; split).
    + split; [intros _; right; by apply Hidle|done].
    + done.
    + split; [done|]. intros [Hn|Hn]; [by apply Hbusy in Hn|by apply Hidle in Hn].
    + intros _. split; [lia|done].
  - split; [done|]. split; [done|]. split; [|done]. split; [|done]. intros _. left. by apply Hbusy.
Qed.

(** ** The goroutine of [AwaitTerminal] among the other callers *)

(** Subscriptions never appear on a channel that already exists. *)
Definition subs_from m m' : Prop :=
  (next_ch m <= next_ch m')%nat
  /\ forall i s, subscriptions m' !! i = Some s ->
       subscriptions m !! i = Some s \/ (next_ch m <= sub_ch s)%nat.

Lemma subs_from_same m m' :
  subscriptions m' = subscriptions m -> (next_ch m <= next_ch m')%nat -> subs_from m m'.
Proof. intros E Hn. split; [done|]. intros i s. rewrite E. auto. Qed.

Lemma subs_from_trans m1 m2 m3 : subs_from m1 m2 -> subs_from m2 m3 -> subs_from m1 m3.
Proof.
  intros [N1 H1] [N2 H2]. split; [lia|]. intros i s Hi.
  destruct (H2 _ _ Hi) as [Hi'|Hi']; [by apply H1|right; lia].
Qed.

Lemma subs_from_signal key m : waiters_ok m -> subs_from m (signalLocked key m).
Proof. intros Hw. rewrite signalLocked_eq by done. by apply subs_from_same. Qed.

Lemma subs_from_Update now i m : Inv m -> subs_from m (Update now i m).1.
Proof.
  intros Hm. destruct (ops m !! TrimSpace (ui_ID i)) as [r0|] eqn:E.
  2: { unfold Update. rewrite E. by apply subs_from_same. }
  destruct (updated_record_fields now i r0) as (U1 & _ & _ & _ & _ & _ & U7 & _).
  rewrite (Update_eq now i m r0 E). cbv zeta.
  generalize dependent (updated_record now i r0). intros r1 U1 U7.
  generalize ((update_fields i r0).2). intros fl.
  set (m1 := set_updateChangedCount _ _). assert (Hm1 : Inv m1) by by apply Inv_counts.
  destruct (f_changed fl); cbn [fst]; [|by apply subs_from_same].
  apply (subs_from_trans _ m1); [by apply subs_from_same|].
  rewrite update_signal_eq by done. destruct (significant fl r1); cbn [fst]; [|by apply subs_from_same].
  set (m2 := set_ops _ m1). assert (Hw2 : waiters_ok m2) by (by apply (waiters_ok_same m1); [..|apply Hm1]).
  apply (subs_from_trans _ m2); [by apply subs_from_same|].
  apply (subs_from_trans _ (signalLocked (record_key r1) m2)); [by apply subs_from_signal|].
  assert (Hs : subs_ok (signalLocked (record_key r1) m2)).
  { rewrite signalLocked_eq by done. by apply (subs_ok_same m1); [..|apply Hm1]. }
  pose proof (publishChangeLocked_spec (signaled_record fl r1) (changeDigest r1) (content_digest r1) _ Hs) as P.
  split; [by rewrite (pb_frame _ _ _ _ _ P)|]. intros j s Hj. left.
  by apply (published_subs _ _ _ _ _ _ P) in Hj as [? _].
Qed.

Lemma subs_from_step c m : Inv m -> subs_from m (step c m).
Proof.
  intros Hm. destruct c; cbn [step].
  - apply subs_from_same; unfold AdmitPoller; by repeat case_match.
  - apply subs_from_same; unfold TryStartPoller; by repeat case_match.
  - destruct (decide (TrimSpace id = "")) as [E|E].
    + unfold FinishPoller. rewrite bool_decide_eq_true_2 by done. by apply subs_from_same.
    + destruct (FinishPoller_eq id m Hm E) as (f & c & ->). by apply subs_from_same.
  - apply subs_from_same; unfold StorePollerCancel; by repeat case_match.
  - destruct (CancelTurnPollers_eq convID turnID m) as (c & -> & _). by apply subs_from_same.
  - apply subs_from_same; unfold BindToolCarrier; by case_match.
  - unfold Register. cbn [fst]. eapply subs_from_trans; [|apply subs_from_signal].
    + apply subs_from_same; by case_match.
    + by apply (waiters_ok_same m); [by case_match..|apply Hm].
  - by apply subs_from_Update.
  - by apply subs_from_same.
  - unfold WaitForChangeSince. repeat case_match; try by apply subs_from_same.
    apply subs_from_same; [done|]. simpl. lia.
  - apply subs_from_same; unfold removeWaiterLocked; by repeat case_match.
  - unfold SignalTurn. repeat case_match; try by apply subs_from_same. cbn [fst].
    eapply subs_from_trans; [|apply subs_from_signal]; [by apply subs_from_same|].
    by apply (waiters_ok_same m); [..|apply Hm].
  - unfold Subscribe. case_match; cbn [fst].
    + unfold close_events. simpl. rewrite lookup_insert_eq. simpl. apply subs_from_same; [done|]. simpl. lia.
    + split; [simpl; lia|]. simpl. intros i s [[_ <-]|[_ E]]%lookup_insert_Some; [right; simpl; lia|by left].
  - destruct (decide (subID = 0)) as [->|Hi]; [by apply subs_from_same|].
    destruct (subscriptions m !! subID) as [s|] eqn:E.
    + destruct (so_open _ (inv_subs _ Hm) _ _ E) as (b & Ho & _). rewrite (Unsubscribe_eq subID s b) by done.
      split; [done|]. simpl. intros j t [_ Ej]%lookup_delete_Some. by left.
    + unfold Unsubscribe. destruct (Z.eqb_spec subID 0); [done|]. rewrite E. by apply subs_from_same.
  - unfold RecordPollFailure. case_match; [|by apply subs_from_same]. case_match; [by apply subs_from_same|].
    cbn [fst]. eapply subs_from_trans; [|apply subs_from_signal]; [by apply subs_from_same|].
    by apply (waiters_ok_same m); [..|apply Hm].
  - apply subs_from_same; unfold ResetPollFailures; by repeat case_match.
  - apply subs_from_same; [apply Sweep_frame|].
    destruct (Z.ltb_spec 0 maxAge) as [Ha|Ha].
    2: { unfold Sweep. by destruct (Z.leb_spec maxAge 0); [|lia]. }
    rewrite Sweep_eq by done. cbv zeta. cbn [fst].
    assert (F : forall ids m, next_ch (foldl (fun m id => dropOpLocked id m) m ids) = next_ch m).
    { clear. induction ids as [|id ids IH]; intros m; [done|]. cbn [foldl]. rewrite IH.
      unfold dropOpLocked. cbn. by destruct (pollerCancels m !! id). }
    specialize (F (pruned_ids now maxAge m) m). case_match; cbn; lia.
  - apply subs_from_same; unfold StartGC; by repeat case_match.
  - destruct (closed m) eqn:Ec; [unfold Close; rewrite Ec; by apply subs_from_same|].
    rewrite (cf_frame _ _ (Close_spec m Hm Ec)). split; [done|]. cbn. intros i s. by rewrite lookup_empty.
Qed.

Lemma receive_event_eq ch m m' ok :
  receive_event ch m = Some (m', ok) ->
  m' = m \/ exists ev rest b, echans m !! ch = Some (mkEChan (ev :: rest) b)
            /\ m' = set_echans (<[ch := mkEChan rest b]> (echans m)) m.
Proof.
  unfold receive_event. destruct (echans m !! ch) as [[buf b]|]; [|done]. cbn.
  destruct buf as [|ev rest]; [destruct b; intros [= <- <-]; by left|].
  intros [= <- <-]. right. by exists ev, rest, b.
Qed.

Lemma Inv_receive ch m m' ok : Inv m -> receive_event ch m = Some (m', ok) -> Inv m'.
Proof.
  intros Hm [->|(ev & rest & b & E & ->)]%receive_event_eq; [done|].
  destruct (inv_subs _ Hm) as [H1 H2 H3 H4].
  apply (Inv_subs m); [done|done| |done]. split; unfold open_with; cbn.
  - intros i s Es. destruct (H1 _ _ Es) as (buf & Ho & Hl). unfold open_with in Ho.
    destruct (decide (sub_ch s = ch)) as [<-|Hne].
    + rewrite E in Ho. simplify_eq. rewrite lookup_insert_eq. eexists. split; [done|]. cbn in Hl. lia.
    + rewrite lookup_insert_ne by done. eauto.
  - done.
  - done.
  - intros c [x Hx]. apply H4. apply lookup_insert_Some in Hx as [[<- _]|[_ Hx]]; rewrite ?E; eauto.
Qed.

(** A step of the goroutine: the clock and the event it saw, and the manager and
    its control state before. *)
Record own_step := mkOwn { own_now : Z; own_event : await_event; own_manager : Manager; own_state : awaiter }.

(** The goroutine running among arbitrary calls of other goroutines, with the
    history of its own steps, the last one first. *)
Inductive awaiting (opIDs : list string) : list own_step -> Manager -> awaiter -> Prop :=
| awaiting_start m : reachable m -> awaiting opIDs [] m AwStart
| awaiting_other c h m a : awaiting opIDs h m a -> awaiting opIDs h (step c m) a
| awaiting_own now ev h m a :
    awaiting opIDs h m a ->
    awaiting opIDs (mkOwn now ev m a :: h)
      (AwaitTerminal_step opIDs now ev m a).1 (AwaitTerminal_step opIDs now ev m a).2.

(** What justifies giving up with [out]: a result is the evaluation of the
    operations at one of the own steps, with the clock of that step, and it was
    final; no result comes from a cancelled context, or from an evaluation that
    was not final after the subscription was closed. *)
Definition justified (opIDs : list string) (h : list own_step) (out : option AggregatedResult) : Prop :=
  exists o, o ∈ h /\
    let '(res, final, _) := evaluateAwait (own_now o) opIDs (own_manager o) in
    match out with
    | Some r => final = true /\ r = res /\
        (own_state o = AwStart \/ exists ch subID ok, own_state o = AwReceived ch subID ok)
    | None => exists ch subID,
        (own_event o = EvCtxDone /\ exists wait, own_state o = AwSelect ch subID wait)
        \/ (final = false /\ own_state o = AwReceived ch subID false)
    end.

Lemma justified_more opIDs o h out : justified opIDs h out -> justified opIDs (o :: h) out.
Proof. intros (o' & Hin & Ho). exists o'. split; [by right|done]. Qed.

(** The channel of the goroutine is subscribed under its own identifier only. *)
Definition owns (ch : nat) (subID : Z) m : Prop :=
  (ch < next_ch m)%nat /\ forall i s, subscriptions m !! i = Some s -> sub_ch s = ch -> i = subID.

Definition awaiter_ok (opIDs : list string) h m (a : awaiter) : Prop :=
  match a with
  | AwStart | AwSubscribe _ => True
  | AwSelect ch subID _ | AwReceived ch subID _ => owns ch subID m
  | AwReturn ch subID out => owns ch subID m /\ justified opIDs h out
  | AwDone out => justified opIDs h out
  end.

Lemma owns_from ch subID m m' : subs_from m m' -> owns ch subID m -> owns ch subID m'.
Proof.
  intros [Hn Hs] [Hc Ho]. split; [lia|]. intros i s Hi Heq.
  destruct (Hs _ _ Hi) as [Hi'|Hge]; [by eapply Ho|lia].
Qed.

Lemma awaiter_ok_from opIDs h m m' a : subs_from m m' -> awaiter_ok opIDs h m a -> awaiter_ok opIDs h m' a.
Proof.
  intros Hs. destruct a; simpl; try done; [by apply owns_from|by apply owns_from|].
  intros [? ?]. split; [by eapply owns_from|done].
Qed.

Lemma Subscribe_owns opIDs m m' ch subID :
  Inv m -> Subscribe opIDs m = (m', (ch, subID)) -> owns ch subID m'.
Proof.
  intros Hm. pose proof (fresh_echan m (inv_subs _ Hm)) as Hfr.
  assert (Hne : forall i s, subscriptions m !! i = Some s -> sub_ch s <> next_ch m).
  { intros i s E Heq. destruct (so_open _ (inv_subs _ Hm) _ _ E) as (b & Ho & _).
    unfold open_with in Ho. congruence. }
  unfold Subscribe. case_match; intros [= <- <- <-].
  - unfold close_events. simpl. rewrite lookup_insert_eq. simpl. split; [simpl; lia|].
    intros i s Hi Heq. by destruct (Hne i s).
  - split; [simpl; lia|]. simpl. intros i s [[<- <-]|[_ Hi]]%lookup_insert_Some Heq; [done|].
    by destruct (Hne i s).
Qed.

Lemma awaiting_ok opIDs h m a : awaiting opIDs h m a -> Inv m /\ awaiter_ok opIDs h m a.
Proof.
  induction 1 as [m Hm|c h m a _ [Hm Ha]|now ev h m a _ [Hm Ha]].
  - split; [by apply reachable_Inv|done].
  - split; [by apply Inv_step|]. eapply awaiter_ok_from; [by apply subs_from_step|done].
  - set (o := mkOwn now ev m a). assert (Ho : o ∈ o :: h) by by left.
    destruct a as [|wait|ch subID wait|ch subID ok|ch subID out|out]; cbn [AwaitTerminal_step].
    + destruct (evaluateAwait now opIDs m) as [[res done] w] eqn:E. cbn. split; [done|].
      destruct done; [|done]. exists o. split; [done|]. cbn. rewrite E. by repeat split; [..|left].
    + destruct (Subscribe opIDs m) as [m' [ch subID]] eqn:E. cbn. split.
      * pose proof (Inv_Subscribe opIDs m Hm) as G. by rewrite E in G.
      * by eapply Subscribe_owns.
    + destruct ev; cbn.
      * destruct (receive_event ch m) as [[m' ok]|] eqn:E; cbn; [|done].
        split; [by eapply Inv_receive|].
        apply receive_event_eq in E as [->|(? & ? & ? & _ & ->)]; [done|].
        eapply owns_from; [|exact Ha]. by apply subs_from_same.
      * split; [done|]. split; [done|]. exists o. split; [done|]. cbn.
        destruct (evaluateAwait now opIDs m) as [[res done] w]. exists ch, subID. left. eauto.
      * by split.
    + destruct (evaluateAwait now opIDs m) as [[res done] w] eqn:E. cbn. split; [done|].
      destruct done; cbn; [|destruct ok; cbn; [done|]]; (split; [done|]); exists o; (split; [done|]);
        cbn; rewrite E; [by eauto 8|]. exists ch, subID. by right.
    + cbn. split; [by apply Inv_Unsubscribe|]. apply justified_more, Ha.
    + split; [done|]. by apply justified_more.
Qed.

(** C9: [AwaitTerminal] interleaved with any other calls never faults the
    manager; a result it emits is the evaluation of its operations, and a final
    one, at one of its own steps of that run and with the clock of that step; it
    ends without a result only after its context was cancelled or its
    subscription closed on an evaluation that was not final; and on every exit it
    gives up its subscription: no subscription is left on its channel, except
    under the identifier 0 that the code reserves for none. *)
Theorem AwaitTerminal_sound opIDs h m a :
  awaiting opIDs h m a ->
  panicked m = false
  /\ (forall out, a = AwDone out -> justified opIDs h out)
  /\ (forall ch subID out now ev i s,
        a = AwReturn ch subID out ->
        subscriptions (AwaitTerminal_step opIDs now ev m a).1 !! i = Some s -> sub_ch s = ch -> i = 0).
Proof.
  intros [Hm Ha]%awaiting_ok. split; [apply Hm|]. split.
  - intros out ->. by apply Ha.
  - intros ch subID out now ev i s -> Hi Heq. cbn in Hi, Ha. destruct Ha as [[_ Ho] _].
    destruct (decide (subID = 0)) as [->|Hne]; [by eapply Ho|].
    destruct (subscriptions m !! subID) as [t|] eqn:Et.
    + destruct (so_open _ (inv_subs _ Hm) _ _ Et) as (b & Hb & _).
      rewrite (Unsubscribe_eq subID t b) in Hi by done. cbn in Hi.
      apply lookup_delete_Some in Hi as [Hd Hi]. destruct Hd. symmetry. by eapply Ho.
    + unfold Unsubscribe in Hi. destruct (Z.eqb_spec subID 0); [done|]. rewrite Et in Hi.
      rewrite (Ho i s Hi Heq) in Hi. congruence.
Qed.

(** ** Shutdown *)
Lemma finish_all ids m :
  Inv m -> let m' := foldl (fun m id => FinishPoller id m) m ids in
  Inv m' /\ forall id, id ∈ pollers m' <-> id ∈ pollers m /\ (id = "" \/ forall i, i ∈ ids -> TrimSpace i <> id).
Proof.
  revert m. induction ids as [|i ids IH]; intros m Hm; cbn [foldl].
  { split; [done|]. intros id. split; [|naive_solver]. intros Hin. split; [done|]. right. by intros i ?%elem_of_nil. }
  destruct (IH (FinishPoller i m)) as [Hi Hp]; [by apply Inv_FinishPoller|]. split; [done|].
  intros id. rewrite Hp. assert (E : id ∈ pollers (FinishPoller i m) <-> id ∈ pollers m /\ (id = "" \/ TrimSpace i <> id)).
  { destruct (decide (TrimSpace i = "")) as [E|E].
    - unfold FinishPoller. rewrite bool_decide_eq_true_2 by done. rewrite E.
      destruct (decide (id = "")); naive_solver.
    - destruct (FinishPoller_eq i m Hm E) as (f & c & ->). cbn.
      rewrite elem_of_difference, elem_of_singleton. split; [naive_solver|].
      intros [Hin [->|Hne]]; naive_solver. }
  rewrite E. setoid_rewrite elem_of_cons. naive_solver.
Qed.

(** C14: Closing an open manager cancels every poller and every sweeper it
    holds a cancel function for, wakes every waiter of every turn, closes every
    subscription channel without losing what it buffered, and refuses pollers,
    sweepers and signals from then on; it is idempotent; and once the admitted
    pollers have finished, the wait group it then blocks on is zero. *)
Theorem Close_drains m ids :
  reachable m -> closed m = false ->
  let m' := Close m in
  (forall id c, pollerCancels m !! id = Some c -> c ∈ canceled m')
  /\ (forall c, c ∈ gcCancels m -> c ∈ canceled m')
  /\ (forall key ws w, waiters m !! key = Some ws -> w ∈ ws -> waiter_ready w m' = true)
  /\ (forall i s buf, subscriptions m !! i = Some s -> echans m !! sub_ch s = Some (mkEChan buf false) ->
        echans m' !! sub_ch s = Some (mkEChan buf true))
  /\ subscriptions m' = ∅
  /\ (forall id c, AdmitPoller id c m' = (m', false)) /\ (forall id, TryStartPoller id m' = (m', false))
  /\ (forall b i a gc, (StartGC b i a gc m').2 = false) /\ (forall cv tn, SignalTurn cv tn m' = (m', false))
  /\ Close m' = m' /\ panicked m' = false
  /\ ((forall id, id ∈ pollers m -> id <> "" /\ exists i, i ∈ ids /\ TrimSpace i = id) ->
      pollerWG (foldl (fun m id => FinishPoller id m) m' ids) = 0).
Proof.
  intros Hm%reachable_Inv Hc. cbv zeta. pose proof (Close_spec m Hm Hc) as S.
  pose proof (Inv_Close m Hm) as Hm'. destruct S as [S1 S2 S3 _ _ S6 S7].
  split; [done|]. split; [done|]. split; [|split; [exact S3|]].
  { intros key ws w E Hin. rewrite S2. unfold waiter_ready. cbn.
    rewrite wake_all_in; [done|]. apply elem_of_all_waiters. eauto. }
  split; [by rewrite S2|].
  split; [intros id c; unfold AdmitPoller; rewrite S1; by case_match|].
  split; [intros id; unfold TryStartPoller; rewrite S1; by case_match|].
  split; [intros b i a gc; unfold StartGC; rewrite S1; by case_match|].
  split; [intros cv tn; unfold SignalTurn; rewrite S1; by case_match|].
  split; [unfold Close at 1; by rewrite S1|]. split; [apply Hm'|].
  intros Hids. destruct (finish_all ids (Close m) Hm') as [Hf Hp]. rewrite (inv_wg _ Hf).
  assert (pollers (foldl (fun m id => FinishPoller id m) (Close m) ids) = ∅) as ->; [|done].
  apply set_eq. intros id. rewrite Hp. split; [|by intros ?%elem_of_empty].
  intros [Hin Hno]. assert (Hin' : id ∈ pollers m) by (rewrite S2 in Hin; exact Hin).
  destruct (Hids id Hin') as (Hne & i & Hi & Heq). destruct Hno as [|Hno]; [done|]. by destruct (Hno i Hi).
Qed.

(** ** The failure path of a poller *)

(** Recording a poll failure counts it and keeps the operation in its state
    while the failure is transient and below the cap of three; otherwise the
    operation becomes failed, pending and wakes the waiters of its turn — but
    no subscription is told: every subscription stays registered, open and
    without an event, even when all its targets are now terminal. *)
Lemma RecordPollFailure_outcome now id errMsg transient m r0 :
  reachable m -> Get id m = Some r0 ->
  let m' := (RecordPollFailure now id errMsg transient m).1 in
  exists r terminal,
    (RecordPollFailure now id errMsg transient m).2 = Some (r, terminal)
    /\ Get id m' = Some r
    /\ PollFailures r = wrap64 (PollFailures r0 + 1) /\ Error r = TrimSpace errMsg
    /\ terminal = negb (transient && (PollFailures r <? DefaultMaxPollFailures))
    /\ (terminal = false -> State r = State r0 /\ pendingChange r = pendingChange r0)
    /\ (terminal = true -> State r = StateFailed /\ pendingChange r = true
          /\ forall ws w, waiters m !! record_key r0 = Some ws -> w ∈ ws -> waiter_ready w m' = true)
    /\ subscriptions m' = subscriptions m /\ echans m' = echans m.
Proof.
  intros Hm%reachable_Inv E. unfold Get, RecordPollFailure in *. rewrite E. cbv zeta.
  destruct (transient && _) eqn:Et; cbn [fst snd].
  - eexists _, false. split; [done|]. split; [cbn; apply lookup_insert_eq|].
    cbn in Et |- *. rewrite Et. by repeat split.
  - eexists _, true. split; [done|].
    rewrite signalLocked_eq by (by apply (waiters_ok_same m); [..|apply Hm]). cbn in Et |- *.
    split; [apply lookup_insert_eq|]. rewrite Et. repeat split; try done.
    intros ws w Ew Hin. unfold waiter_ready. cbn.
    unfold record_key in *. cbn. rewrite Ew. simpl. by rewrite wake_all_in.
Qed.
End Waiting.


(** The goroutine on the demonstration manager: it subscribes, its timer fires
    when the operation has been idle for long, and it returns. *)
Definition await_run (moves : list (Z * await_event)) : list own_step * (Manager * awaiter) :=
  foldl (fun '(h, (m, a)) '(now, ev) =>
           (mkOwn now ev m a :: h, AwaitTerminal_step ["op1"] now ev m a))
    ([], (demo_manager, AwStart)) moves.

Lemma await_run_awaiting moves :
  let '(h, (m, a)) := await_run moves in awaiting (H := demo_modes) ["op1"] h m a.
Proof.
  unfold await_run. assert (A : awaiting (H := demo_modes) ["op1"] [] demo_manager AwStart)
    by apply awaiting_start, demo_reachable. revert A.
  generalize (@nil own_step) demo_manager AwStart.
  induction moves as [|[now ev] moves IH]; intros h m a A; [done|]. cbn [foldl].
  pose proof (awaiting_own (H := demo_modes) ["op1"] now ev h m a A) as A'.
  destruct (AwaitTerminal_step ["op1"] now ev m a) as [m' a']. by apply IH.
Qed.

Definition await_moves : list (Z * await_event) :=
  [(1, EvRun); (1, EvRun); (10 ^ 15, EvTimer); (10 ^ 15, EvRun); (10 ^ 15, EvRun)].

Lemma AwaitTerminal_sound_witness :
  exists h m res, awaiting (H := demo_modes) ["op1"] h m (AwDone (Some res)) /\ agg_Items res <> []
    /\ justified ["op1"] h (Some res).
Proof.
  pose proof (await_run_awaiting await_moves) as A.
  destruct (await_run await_moves) as [h [m a]] eqn:E.
  assert (Ea : exists res, a = AwDone (Some res) /\ agg_Items res <> []).
  { replace a with (await_run await_moves).2.2 by (rewrite E; reflexivity).
    eexists. split; [vm_compute; reflexivity|discriminate]. }
  destruct Ea as (res & -> & Hne). exists h, m, res. split; [exact A|]. split; [exact Hne|].
  exact (proj1 (proj2 (AwaitTerminal_sound (H := demo_modes) ["op1"] h m _ A)) _ eq_refl).
Defined.

Lemma Close_drains_witness :
  pollerWG demo_manager = 1 /\ 3%nat ∈ canceled (Close demo_manager)
  /\ pollerWG (foldl (fun m id => FinishPoller id m) (Close demo_manager) ["op1"]) = 0.
Proof.
  assert (Hc : closed demo_manager = false) by (vm_compute; reflexivity).
  pose proof (Close_drains (H := demo_modes) demo_manager ["op1"] demo_reachable Hc) as D.
  split; [vm_compute; reflexivity|].
  split; [apply D with "op1"; vm_compute; reflexivity|].
  apply D. intros id Hin.
  assert (E : pollers demo_manager = {["op1"]}) by (vm_compute; reflexivity).
  rewrite E in Hin. apply elem_of_singleton in Hin as ->. split; [done|].
  exists "op1". split; [by left|vm_compute; reflexivity].
Defined.

Lemma RecordPollFailure_outcome_witness :
  exists r, (RecordPollFailure 5 "op1" "boom" false demo_manager).2 = Some (r, true) /\ State r = StateFailed.
Proof.
  destruct (ops demo_manager !! "op1") as [r0|] eqn:E; [|vm_compute in E; discriminate E].
  destruct (RecordPollFailure_outcome (H := demo_modes) 5 "op1" "boom" false demo_manager r0 demo_reachable E)
    as (r & t & H1 & _ & _ & _ & Ht & _ & H2 & _).
  simpl in Ht. subst t. exists r. split; [exact H1|]. by apply H2.
Defined.

(** A sweep that drops an operation whose identifier is the key of a turn
    forgets the waiters of that turn: the next signal does not reach them. *)
Definition strand_calls : list call :=
  [CRegister "u" 1 (demo_input "c|t" "x" "y" "completed"); CWaitForChangeSince "c" "t" 0;
   CSweep 100 5; CSignalTurn "c" "t"].

Example sweep_strands_waiter :
  let m := foldl (fun m c => step (H := demo_modes) c m) NewManager strand_calls in
  waiter_ready 0 m = false /\ waiters m = ∅.
Proof. vm_compute. by split. Qed.
