(* ===== verification/Streaming.v ===== *)
(** * In-memory event bus ([runtime/streaming/memory.go], [bus.go])

    Publishers, subscriptions with bounded buffers, and the shutdown of the bus,
    as the critical sections the code has: the bus mutex guards the registry and
    the sequence numbers, the mutex of a subscription guards its channel, and
    the delivery loop of a publisher, the closing loop of [Close] and the removal
    of a closed subscription from the registry run between them.  A step relation
    interleaves all of these. *)
From stdpp Require Import base gmap strings list fin_maps numbers relations.
From Stdlib Require Import ZArith Lia Ascii.
From S2P Require Import Prelude.

Open Scope Z_scope.

(** ** Data *)

(** The fields of an event the bus looks at; [Body] stands for all others. *)
Record Event := mkEvent {
StreamID : string;
ConversationID : string;
EventSeq : Z;
Body : string }.

Definition ReasonClosed := "closed".
Definition ReasonOverflow := "overflow".

Abbreviation Filter := (Event -> bool).

(** [ch] is the buffer of the channel, [ch_closed] whether it was closed. *)
Record memorySub := mkMemorySub {
filter_of : option Filter;
cap : nat;
ch : list Event;
ch_closed : bool;
closed : bool;
reason : string;
lastSeq : Z }.

Record MemoryBus := mkBus {
bus_closed : bool;
defaultBuffer : Z;
subs : gset string;
seq : gmap string Z }.

Inductive BusError := ErrClosed.

Definition NewMemoryBus (buffer : Z) : MemoryBus :=
  mkBus false (if buffer <=? 0 then 64 else buffer) ∅ ∅.

(** ** Operations under one mutex each *)

(** The stream an event is numbered in. *)
Definition stream_of (e : Event) : string :=
  if bool_decide (ConversationID e = "") then StreamID e else ConversationID e.

(** The part of [Publish] under the bus mutex: the event with its sequence
    number and the snapshot of the registry. *)
Definition publish_begin (e : Event) (b : MemoryBus) : result BusError (MemoryBus * Event * gset string) :=
  if bus_closed b then Err ErrClosed
  else
    let streamID := stream_of e in
    if negb (bool_decide (streamID = "")) && (EventSeq e =? 0) then
      let n := wrap64 (default 0 (seq b !! streamID) + 1) in
      Ok (mkBus (bus_closed b) (defaultBuffer b) (subs b) (<[streamID := n]> (seq b)),
          mkEvent (StreamID e) (ConversationID e) n (Body e), subs b)
    else Ok (b, e, subs b).

Definition accepts (s : memorySub) (e : Event) : bool :=
  match filter_of s with Some f => f e | None => true end.

Definition set_lastSeq (n : Z) (s : memorySub) : memorySub :=
  mkMemorySub (filter_of s) (cap s) (ch s) (ch_closed s) (closed s) (reason s) n.
Definition push (e : Event) (s : memorySub) : memorySub :=
  mkMemorySub (filter_of s) (cap s) (ch s ++ [e]) (ch_closed s) (closed s) (reason s) (lastSeq s).
Definition shut (why : string) (s : memorySub) : memorySub :=
  mkMemorySub (filter_of s) (cap s) (ch s) true true why (lastSeq s).

(** What a delivery did to its subscription; [Fault] is a send on, or a close of,
    a closed channel. *)
Inductive outcome := Sent | Skipped | Canceled | Overflowed | Fault.

(** [deliver], with the publisher's context state and the choice [select] makes
    when both of its cases are ready. *)
Definition deliver (ctx_done pick_ctx : bool) (e : Event) (s : memorySub) : memorySub * outcome :=
  if closed s then (s, Skipped)
  else
    let s := if lastSeq s <? EventSeq e then set_lastSeq (EventSeq e) s else s in
    let room := (length (ch s) <? cap s)%nat in
    if ch_closed s then (s, Fault)
    else if ctx_done && (pick_ctx || negb room) then (s, Canceled)
    else if room then (push e s, Sent)
    else (shut ReasonOverflow s, Overflowed).

Definition closeWithReason (why : string) (s : memorySub) : memorySub * outcome :=
  if closed s then (s, Skipped)
  else if ch_closed s then (s, Fault)
  else (shut why s, Sent).

(** [id] is the fresh [uuid.NewString]. *)
Definition subscribe (id : string) (f : option Filter) (buffer : Z) (b : MemoryBus)
    : result BusError (MemoryBus * memorySub) :=
  let buffer := if buffer <=? 0 then defaultBuffer b else buffer in
  if bus_closed b then Err ErrClosed
  else Ok (mkBus (bus_closed b) (defaultBuffer b) ({[id]} ∪ subs b) (seq b),
           mkMemorySub f (Z.to_nat buffer) [] false false "" 0).

Definition Subscribe (id : string) (f : option Filter) (b : MemoryBus) := subscribe id f (defaultBuffer b) b.

Inductive SubscribeOption :=
| WithBuffer (n : Z)
| WithFilter (f : Filter).

Definition SubscribeOpts (id : string) (opts : list SubscribeOption) (b : MemoryBus) :=
  let '(f, n) := foldl (fun '(f, n) o => match o with
                                         | WithBuffer n' => (f, n')
                                         | WithFilter f' => (Some f', n)
                                         end) (None, defaultBuffer b) opts in
  subscribe id f n b.

Definition removeSubLocked (id : string) (b : MemoryBus) : MemoryBus :=
  mkBus (bus_closed b) (defaultBuffer b) (subs b ∖ {[id]}) (seq b).

(** The part of [Close] under the bus mutex: the subscriptions left to close. *)
Definition close_begin (b : MemoryBus) : MemoryBus * gset string :=
  (mkBus true (defaultBuffer b) ∅ (seq b), subs b).

(** ** The running system *)

(** A publisher in its delivery loop: its event, whether its context is done,
    and the subscriptions it has left. *)
Record publisher := mkPub { p_event : Event; p_done : bool; p_pending : gset string }.

Record System := mkSystem {
bus : MemoryBus;
store : gmap string memorySub;
publishers : gmap nat publisher;
closing : gset string;
removing : gset string;
got : gmap string (list Event);
faulted : bool }.

Definition received (id : string) (y : System) : list Event := default [] (got y !! id).

(** The entry of a subscription after a delivery or a close, with the removal a
    closed one still owes the registry. *)
Definition settle (id : string) (so : memorySub * outcome) (y : System) : System :=
  let '(s, o) := so in
  mkSystem (bus y) (<[id := s]> (store y)) (publishers y) (closing y)
    (match o with Overflowed => {[id]} ∪ removing y | _ => removing y end)
    (got y) (faulted y || match o with Fault => true | _ => false end).

Definition with_publishers (p : gmap nat publisher) (y : System) : System :=
  mkSystem (bus y) (store y) p (closing y) (removing y) (got y) (faulted y).
Definition with_bus (b : MemoryBus) (y : System) : System :=
  mkSystem b (store y) (publishers y) (closing y) (removing y) (got y) (faulted y).
Definition with_closing (c : gset string) (y : System) : System :=
  mkSystem (bus y) (store y) (publishers y) c (removing y) (got y) (faulted y).
Definition with_removing (r : gset string) (y : System) : System :=
  mkSystem (bus y) (store y) (publishers y) (closing y) r (got y) (faulted y).

(** A subscription closed by its owner or by [Close]: it leaves the registry later. *)
Definition close_sub (id : string) (s : memorySub) (y : System) : System :=
  let '(s', o) := closeWithReason ReasonClosed s in
  let y := settle id (s', o) y in
  match o with
  | Sent => with_removing ({[id]} ∪ removing y) y
  | _ => y
  end.

Inductive step : System -> System -> Prop :=
| step_subscribe id f n b s y :
    store y !! id = None ->
    subscribe id f n (bus y) = Ok (b, s) ->
    step y (mkSystem b (<[id := s]> (store y)) (publishers y) (closing y) (removing y)
              (<[id := []]> (got y)) (faulted y))
| step_publish t e ctx_done b e' snapshot y :
    publishers y !! t = None ->
    publish_begin e (bus y) = Ok (b, e', snapshot) ->
    step y (with_publishers (<[t := mkPub e' ctx_done snapshot]> (publishers y)) (with_bus b y))
| step_cancel t p y :
    publishers y !! t = Some p ->
    step y (with_publishers (<[t := mkPub (p_event p) true (p_pending p)]> (publishers y)) y)
| step_filtered t p id s y :
    publishers y !! t = Some p -> id ∈ p_pending p -> store y !! id = Some s ->
    accepts s (p_event p) = false ->
    step y (with_publishers (<[t := mkPub (p_event p) (p_done p) (p_pending p ∖ {[id]})]> (publishers y)) y)
| step_deliver t p id s pick y :
    publishers y !! t = Some p -> id ∈ p_pending p -> store y !! id = Some s ->
    accepts s (p_event p) = true ->
    step y (settle id (deliver (p_done p) pick (p_event p) s)
              (with_publishers (<[t := mkPub (p_event p) (p_done p) (p_pending p ∖ {[id]})]> (publishers y)) y))
| step_return t p y :
    publishers y !! t = Some p -> p_pending p = ∅ ->
    step y (with_publishers (delete t (publishers y)) y)
| step_receive id s e rest y :
    store y !! id = Some s -> ch s = e :: rest ->
    step y (mkSystem (bus y)
              (<[id := mkMemorySub (filter_of s) (cap s) rest (ch_closed s) (closed s) (reason s) (lastSeq s)]> (store y))
              (publishers y) (closing y) (removing y) (<[id := received id y ++ [e]]> (got y)) (faulted y))
| step_close_sub id s y :
    store y !! id = Some s -> step y (close_sub id s y)
| step_close_bus b left y :
    close_begin (bus y) = (b, left) -> step y (with_closing (left ∪ closing y) (with_bus b y))
| step_close_next id s y :
    id ∈ closing y -> store y !! id = Some s ->
    step y (close_sub id s (with_closing (closing y ∖ {[id]}) y))
| step_remove id y :
    id ∈ removing y ->
    step y (with_removing (removing y ∖ {[id]}) (with_bus (removeSubLocked id (bus y)) y)).

Definition start (buffer : Z) : System := mkSystem (NewMemoryBus buffer) ∅ ∅ ∅ ∅ ∅ false.

Inductive reachable : System -> Prop :=
| reachable_start buffer : reachable (start buffer)
| reachable_step y y' : reachable y -> step y y' -> reachable y'.

(** ** Soundness of every interleaving *)
Record sub_ok (s : memorySub) : Prop := {
sk_cap : (length (ch s) <= cap s)%nat;
sk_closed : ch_closed s = closed s;
sk_reason : (closed s = false /\ reason s = "")
            \/ (closed s = true /\ (reason s = ReasonClosed \/ reason s = ReasonOverflow)) }.

Record Inv (y : System) : Prop := {
iv_fault : faulted y = false;
iv_subs : map_Forall (fun _ s => sub_ok s) (store y);
iv_registry : forall id s, store y !! id = Some s -> closed s = false -> id ∈ subs (bus y) \/ id ∈ closing y;
iv_closing : bus_closed (bus y) = false -> closing y = ∅;
iv_removing : forall id, id ∈ removing y -> exists s, store y !! id = Some s /\ closed s = true }.

Definition extends (s s' : memorySub) : Prop :=
  filter_of s' = filter_of s /\ cap s' = cap s /\ lastSeq s <= lastSeq s' /\ (closed s = true -> closed s' = true).

Lemma deliver_spec ctx_done pick e s s' o :
  sub_ok s -> deliver ctx_done pick e s = (s', o) ->
  sub_ok s' /\ extends s s' /\ o <> Fault
  /\ (o = Overflowed -> closed s' = true)
  /\ (exists l, ch s' = ch s ++ l)
  /\ (ctx_done = false -> closed s' = true \/ e ∈ ch s').
Proof.
  intros Hs. pose proof Hs as [H1 H2 H3]. unfold deliver. destruct (closed s) eqn:Ec.
  { intros [= <- <-]. split; [exact Hs|]. split; [by repeat split|]. repeat split; try done.
    - exists []. by rewrite app_nil_r.
    - by left. }
  set (s1 := if lastSeq s <? EventSeq e then set_lastSeq (EventSeq e) s else s).
  assert (E : filter_of s1 = filter_of s /\ cap s1 = cap s /\ ch s1 = ch s /\ ch_closed s1 = ch_closed s
              /\ closed s1 = closed s /\ reason s1 = reason s /\ lastSeq s <= lastSeq s1).
  { unfold s1. destruct (Z.ltb_spec (lastSeq s) (EventSeq e)); simpl; repeat split; try done; lia. }
  clearbody s1. destruct E as (E1 & E2 & E3 & E4 & E5 & E6 & E7).
  rewrite E4, H2, E2, E3. destruct (ctx_done && _) eqn:Eo.
  { intros [= <- <-]. split; [split; rewrite ?E2, ?E3, ?E4, ?E5, ?E6, ?H2, ?Ec; done|].
    split; [by repeat split; rewrite ?Ec|]. repeat split; try done.
    - exists []. by rewrite app_nil_r.
    - intros ->. done. }
  destruct (Nat.ltb_spec (length (ch s)) (cap s)); intros [= <- <-]; unfold push, shut; simpl.
  - split; [split; simpl; rewrite ?length_app, ?E2, ?E3, ?E4, ?E5, ?E6, ?H2, ?Ec; simpl; [lia|done|done]|].
    split; [by repeat split; simpl; rewrite ?Ec|]. repeat split; try done.
    + exists [e]. by rewrite E3.
    + right. apply elem_of_app. right. by left.
  - split; [split; simpl; rewrite ?E2, ?E3; [done|done|right; by split; [|right]]|].
    split; [by repeat split|]. repeat split; try done.
    + exists []. by rewrite app_nil_r.
    + by left.
Qed.

Lemma close_spec why s s' o :
  sub_ok s -> why = ReasonClosed -> closeWithReason why s = (s', o) ->
  sub_ok s' /\ extends s s' /\ o <> Fault /\ closed s' = true /\ ch s' = ch s.
Proof.
  intros Hs ->. pose proof Hs as [H1 H2 H3]. unfold closeWithReason. rewrite H2.
  destruct (closed s) eqn:Ec; intros [= <- <-].
  - split; [exact Hs|]. by repeat split.
  - split; [split; simpl; [done|done|right; by split; [|left]]|]. by repeat split.
Qed.

(** What an interleaved step can do to the subscriptions and their readers. *)
Definition stream (id : string) (y : System) : option (list Event) :=
  (fun s => received id y ++ ch s) <$> store y !! id.

Record grows (y y' : System) : Prop := {
gr_sub : forall id s, store y !! id = Some s ->
           exists s', store y' !! id = Some s' /\ extends s s';
gr_stream : forall id l, stream id y = Some l -> exists l', stream id y' = Some (l ++ l') }.

Lemma extends_refl s : extends s s.
Proof. by repeat split. Qed.

Lemma grows_same y y' : store y' = store y -> got y' = got y -> grows y y'.
Proof.
  intros E1 E2. split; unfold stream, received; rewrite E1, ?E2.
  - intros id s Es. exists s. split; [done|apply extends_refl].
  - intros id l Es. exists []. by rewrite app_nil_r.
Qed.

Lemma grows_settle id s s' o l y :
  store y !! id = Some s -> extends s s' -> ch s' = ch s ++ l -> grows y (settle id (s', o) y).
Proof.
  intros Es Hx Hl. split; unfold stream, received, settle; simpl.
  - intros j t Ej. destruct (decide (id = j)) as [<-|Hne].
    + rewrite lookup_insert_eq. exists s'. split; [done|]. by simplify_eq.
    + rewrite lookup_insert_ne by done. exists t. split; [done|apply extends_refl].
  - intros j k. destruct (decide (id = j)) as [<-|Hne].
    + rewrite lookup_insert_eq, Es. simpl. intros [= <-]. exists l. by rewrite Hl, app_assoc.
    + rewrite lookup_insert_ne by done. intros ->. exists []. by rewrite app_nil_r.
Qed.

Lemma grows_trans y1 y2 y3 : grows y1 y2 -> grows y2 y3 -> grows y1 y3.
Proof.
  intros [A1 A2] [B1 B2]. split.
  - intros id s Es. destruct (A1 _ _ Es) as (s' & Es' & (X1 & X2 & X3 & X4)).
    destruct (B1 _ _ Es') as (s'' & Es'' & (Y1 & Y2 & Y3 & Y4)). exists s''.
    split; [done|]. repeat split; [congruence|congruence|lia|auto].
  - intros id l El. destruct (A2 _ _ El) as (l' & El'). destruct (B2 _ _ El') as (l'' & El'').
    exists (l' ++ l''). by rewrite app_assoc.
Qed.

Lemma Inv_settle id s s' o y :
  Inv y -> store y !! id = Some s -> sub_ok s' -> extends s s' -> o <> Fault ->
  (o = Overflowed -> closed s' = true) -> Inv (settle id (s', o) y).
Proof.
  intros [H1 H2 H3 H4 H5] Es Hs Hx Ho Hov. split; unfold settle; simpl.
  - rewrite H1. by destruct o.
  - by apply map_Forall_insert_2.
  - intros j t [[<- <-]|[_ Ej]]%lookup_insert_Some Hc; [|by eapply H3].
    apply (H3 _ _ Es). destruct (closed s) eqn:E; [|done]. destruct Hx as (_ & _ & _ & Hx).
    rewrite (Hx E) in Hc. done.
  - done.
  - assert (Hr : forall j, j ∈ removing y -> exists t, <[id := s']> (store y) !! j = Some t /\ closed t = true).
    { intros j Hj. destruct (H5 _ Hj) as (t & Ej & Ht). destruct (decide (id = j)) as [<-|Hne].
      - rewrite lookup_insert_eq. exists s'. split; [done|]. destruct Hx as (_ & _ & _ & Hx).
        apply Hx. congruence.
      - rewrite lookup_insert_ne by done. eauto. }
    intros j. destruct o; try apply Hr. intros [->%elem_of_singleton|Hj]%elem_of_union; [|by apply Hr].
    rewrite lookup_insert_eq. eauto.
Qed.

Lemma close_sub_ok id s y :
  Inv y -> store y !! id = Some s -> Inv (close_sub id s y) /\ grows y (close_sub id s y)
    /\ (exists s', store (close_sub id s y) !! id = Some s' /\ closed s' = true)
    /\ publishers (close_sub id s y) = publishers y.
Proof.
  intros Hy Es. unfold close_sub. destruct (closeWithReason ReasonClosed s) as [s' o] eqn:E.
  destruct (close_spec _ _ _ _ (iv_subs _ Hy _ _ Es) eq_refl E) as (K1 & K2 & K3 & K4 & K5).
  assert (Hi : Inv (settle id (s', o) y)).
  { apply (Inv_settle id s); [done..|]. by intros ->. }
  assert (Hg : grows y (settle id (s', o) y)).
  { apply (grows_settle id s s' o []); [done|done|]. by rewrite app_nil_r. }
  assert (Hst : exists t, store (settle id (s', o) y) !! id = Some t /\ closed t = true).
  { exists s'. split; [apply lookup_insert_eq|done]. }
  destruct o; [|split; [exact Hi|split; [exact Hg|split; [exact Hst|done]]]..].
  split; [|split; [eapply grows_trans; [exact Hg|by apply grows_same]|split; [exact Hst|done]]].
  destruct Hi as [H1 H2 H3 H4 H5]. split; try done.
  intros j [->%elem_of_singleton|Hj]%elem_of_union; [done|by apply H5].
Qed.

Lemma bus_Inv_same y y' :
  faulted y' = faulted y -> store y' = store y -> removing y' = removing y ->
  subs (bus y') = subs (bus y) -> closing y' = closing y -> bus_closed (bus y') = bus_closed (bus y) ->
  Inv y -> Inv y'.
Proof. intros E1 E2 E3 E4 E5 E6 [H1 H2 H3 H4 H5]. split; rewrite ?E1, ?E2, ?E3, ?E4, ?E5, ?E6; done. Qed.

Lemma publish_begin_spec e b b' e' snap :
  publish_begin e b = Ok (b', e', snap) ->
  bus_closed b = false /\ bus_closed b' = false /\ subs b' = subs b /\ snap = subs b.
Proof.
  unfold publish_begin. destruct (bus_closed b) eqn:Ec; [done|].
  case_match; intros [= <- <- <-]; done.
Qed.

Lemma subscribe_spec id f n b b' s :
  subscribe id f n b = Ok (b', s) ->
  bus_closed b = false /\ bus_closed b' = false /\ subs b' = {[id]} ∪ subs b
  /\ sub_ok s /\ closed s = false /\ ch s = [].
Proof.
  unfold subscribe. destruct (bus_closed b) eqn:Ec; [done|]. intros [= <- <-]. simpl.
  repeat split; simpl; [lia|by left].
Qed.

Lemma step_ok y y' : Inv y -> step y y' -> Inv y' /\ grows y y'.
Proof.
  intros Hy Hst. destruct Hst.
  - destruct (subscribe_spec _ _ _ _ _ _ H0) as (S1 & S2 & S3 & S4 & S5 & S6).
    destruct Hy as [H1 H2 H3 H4 H5]. split; [split; simpl|split; simpl].
    + done.
    + by apply map_Forall_insert_2.
    + intros j t [[<- <-]|[_ Ej]]%lookup_insert_Some Hc; rewrite S3; [left; set_solver|].
      destruct (H3 _ _ Ej Hc); [left; set_solver|by right].
    + intros _. by apply H4.
    + intros j Hj. destruct (H5 _ Hj) as (t & Ej & Ht). exists t. split; [|done].
      rewrite lookup_insert_ne; [done|]. congruence.
    + intros j t Ej. exists t. split; [|apply extends_refl]. rewrite lookup_insert_ne; [done|]. congruence.
    + intros j l. unfold stream, received. simpl. destruct (decide (id = j)) as [<-|Hne]; [by rewrite H|].
      rewrite !lookup_insert_ne by done. intros ->. exists []. by rewrite app_nil_r.
  - destruct (publish_begin_spec _ _ _ _ _ H0) as (P1 & P2 & P3 & _). split; [|by apply grows_same].
    by apply (bus_Inv_same y); simpl; try done; rewrite P1.
  - split; [by apply (bus_Inv_same y)|by apply grows_same].
  - split; [by apply (bus_Inv_same y)|by apply grows_same].
  - destruct (deliver (p_done p) pick (p_event p) s) as [s' o] eqn:E.
    destruct (deliver_spec _ _ _ _ _ _ (iv_subs _ Hy _ _ H1) E) as (D1 & D2 & D3 & D4 & (l & D5) & _).
    split.
    + eapply (Inv_settle id s); [by apply (bus_Inv_same y)|done..].
    + eapply grows_trans; [|by eapply (grows_settle id s s' o l)]. by apply grows_same.
  - split; [by apply (bus_Inv_same y)|by apply grows_same].
  - destruct (iv_subs _ Hy _ _ H) as [K1 K2 K3]. rewrite H0 in K1. simpl in K1.
    set (s' := mkMemorySub _ _ rest _ _ _ _).
    assert (Hs' : sub_ok s') by (split; simpl; [lia|done|done]).
    assert (Hx : extends s s') by by repeat split.
    pose proof (Inv_settle id s s' Sent y Hy H Hs' Hx ltac:(done) ltac:(done)) as Hi.
    split.
    + eapply bus_Inv_same; [..|exact Hi]; simpl; try done. by rewrite orb_false_r.
    + split; simpl.
      * intros j t Ej. destruct (decide (id = j)) as [<-|Hne].
        -- rewrite lookup_insert_eq. exists s'. split; [done|]. by simplify_eq.
        -- rewrite lookup_insert_ne by done. exists t. split; [done|apply extends_refl].
      * intros j k. unfold stream, received. simpl. destruct (decide (id = j)) as [<-|Hne].
        -- rewrite !lookup_insert_eq, H. simpl. intros [= <-]. exists [].
           by rewrite H0, app_nil_r, <- app_assoc.
        -- rewrite !lookup_insert_ne by done. intros ->. exists []. by rewrite app_nil_r.
  - by destruct (close_sub_ok id s y Hy H) as (K1 & K2 & _).
  - unfold close_begin in H. simplify_eq. split; [|by apply grows_same].
    destruct Hy as [H1 H2 H3 H4 H5]. split; simpl; try done.
    intros id s Es Hc. right. apply elem_of_union. destruct (H3 _ _ Es Hc); auto.
  - destruct (close_sub_ok id s y Hy H0) as (K1 & K2 & (s' & K3 & K4) & _).
    assert (E : close_sub id s (with_closing (closing y ∖ {[id]}) y)
                = with_closing (closing y ∖ {[id]}) (close_sub id s y)).
    { unfold close_sub. destruct (closeWithReason ReasonClosed s) as [t o]. by destruct o. }
    assert (Ec : closing (close_sub id s y) = closing y).
    { unfold close_sub. destruct (closeWithReason ReasonClosed s) as [t o]. by destruct o. }
    rewrite E. split; [|eapply grows_trans; [exact K2|by apply grows_same]].
    destruct K1 as [H1 H2 H3 H4 H5]. split; simpl; try done.
    + intros j t Ej Hc. destruct (H3 _ _ Ej Hc) as [?|Hj]; [by left|right].
      rewrite Ec in Hj. apply elem_of_difference. split; [done|]. intros ->%elem_of_singleton. congruence.
    + intros Hb. rewrite <- Ec, (H4 Hb). set_solver.
  - split; [|by apply grows_same]. destruct Hy as [H1 H2 H3 H4 H5]. split; simpl; try done.
    + intros j t Ej Hc. destruct (H3 _ _ Ej Hc) as [Hj|?]; [left|by right].
      apply elem_of_difference. split; [done|]. intros ->%elem_of_singleton.
      destruct (H5 _ H) as (t' & Ej' & Ht'). congruence.
    + intros j [Hj _]%elem_of_difference. by apply H5.
Qed.

Lemma reachable_bus y : reachable y -> Inv y.
Proof.
  induction 1 as [b|y y' _ IH Hs]; [|by apply (step_ok y y')].
  split; simpl; [done|apply map_Forall_empty|intros *; by rewrite lookup_empty|done|set_solver].
Qed.

(** C28: In every interleaving of publishers, readers, subscribers and closers,
    the bus never sends on a closed channel and never closes one twice; a
    subscription never buffers more than its capacity; its channel is closed
    exactly when it has a reason, which is one of the two published ones; and
    while the bus is open every live subscription is registered, so every
    publication reaches it. *)
Theorem bus_sound y :
  reachable y ->
  faulted y = false
  /\ (forall id s, store y !! id = Some s ->
        (length (ch s) <= cap s)%nat /\ ch_closed s = closed s
        /\ (closed s = false <-> reason s = "")
        /\ (closed s = true -> reason s = ReasonClosed \/ reason s = ReasonOverflow)
        /\ (bus_closed (bus y) = false -> closed s = false -> id ∈ subs (bus y))).
Proof.
  intros [H1 H2 H3 H4 _]%reachable_bus. split; [done|]. intros id s E.
  destruct (H2 _ _ E) as [K1 K2 K3]. split; [done|]. split; [done|]. split; [|split].
  - destruct K3 as [[-> ->]|[-> [-> | ->]]]; done.
  - destruct K3 as [[-> _]|[_ ?]]; done.
  - intros Hb Hc. destruct (H3 _ _ E Hc) as [?|Hin]; [done|]. rewrite (H4 Hb) in Hin. set_solver.
Qed.

(** ** No silent loss *)
Definition has_seen (e : Event) (id : string) (y : System) : Prop :=
  exists s, store y !! id = Some s
    /\ (closed s = true \/ accepts s e = false \/ e ∈ received id y ++ ch s).

Definition tracked (t : nat) (e : Event) (id : string) (y : System) : Prop :=
  (exists p, publishers y !! t = Some p /\ p_event p = e /\ id ∈ p_pending p) \/ has_seen e id y.

(** The context of the publisher is not done. *)
Definition live (t : nat) (y : System) : Prop :=
  forall p, publishers y !! t = Some p -> p_done p = false.

Lemma has_seen_grows e id y y' : grows y y' -> has_seen e id y -> has_seen e id y'.
Proof.
  intros [G1 G2] (s & Es & Hs). destruct (G1 _ _ Es) as (s' & Es' & (X1 & _ & _ & X4)).
  exists s'. split; [done|]. destruct Hs as [Hc|[Ha|Hin]]; [auto| |].
  - right. left. unfold accepts in *. by rewrite X1.
  - right. right. destruct (G2 id (received id y ++ ch s)) as [l' Hl]; [unfold stream; by rewrite Es|].
    unfold stream in Hl. rewrite Es' in Hl. simpl in Hl. injection Hl as ->. apply elem_of_app. by left.
Qed.

(** A delivery settles the subscription it is made to. *)
Lemma has_seen_deliver pick e id s y :
  Inv y -> store y !! id = Some s ->
  has_seen e id (settle id (deliver false pick e s) y).
Proof.
  intros Hy Es. destruct (deliver false pick e s) as [s' o] eqn:E.
  destruct (deliver_spec _ _ _ _ _ _ (iv_subs _ Hy _ _ Es) E) as (_ & _ & _ & _ & _ & D).
  exists s'. split; [apply lookup_insert_eq|]. destruct (D eq_refl); [by left|].
  right. right. apply elem_of_app. by right.
Qed.

(** The publishers a step leaves alone. *)
Lemma publishers_settle id so y : publishers (settle id so y) = publishers y.
Proof. by destruct so. Qed.

Lemma tracked_pending t e id p c y y' :
  publishers y' = <[t := mkPub (p_event p) c (p_pending p)]> (publishers y) ->
  publishers y !! t = Some p -> p_event p = e -> id ∈ p_pending p -> tracked t e id y'.
Proof.
  intros E Ep He Hin. left. exists (mkPub (p_event p) c (p_pending p)).
  rewrite E, lookup_insert_eq. done.
Qed.

Lemma tracked_step t e id y y' :
  Inv y -> live t y -> step y y' -> tracked t e id y -> tracked t e id y'.
Proof.
  intros Hy Hl Hst Ht. destruct (step_ok y y' Hy Hst) as [Hy' Hg].
  destruct Ht as [(p & Ep & He & Hin)|Hs]; [|right; by eapply has_seen_grows].
  assert (Hsame : publishers y' = publishers y -> tracked t e id y') by (intros E; left; rewrite E; eauto).
  assert (Hclose : forall j s y0, publishers y0 = publishers y -> y' = close_sub j s y0 -> tracked t e id y').
  { intros j s y0 E ->. apply Hsame. unfold close_sub. destruct (closeWithReason ReasonClosed s) as [t0 o].
    by destruct o. }
  destruct Hst; try by apply Hsame.
  - left. exists p. simpl. rewrite lookup_insert_ne by congruence. done.
  - destruct (decide (t0 = t)) as [->|Hne].
    + simplify_eq. by eapply tracked_pending.
    + left. exists p. simpl. by rewrite lookup_insert_ne.
  - destruct (decide (t0 = t)) as [->|Hne]; [|left; exists p; simpl; by rewrite lookup_insert_ne].
    simplify_eq. destruct (decide (id0 = id)) as [->|Hni].
    + right. exists s. split; [done|]. right. by left.
    + left. eexists. simpl. rewrite lookup_insert_eq. split; [done|]. simpl. split; [done|set_solver].
  - destruct (decide (t0 = t)) as [->|Hne].
    2: { left. exists p. rewrite publishers_settle. simpl. by rewrite lookup_insert_ne. }
    simplify_eq. destruct (decide (id0 = id)) as [->|Hni].
    + right. rewrite (Hl _ H). apply has_seen_deliver; [by apply (bus_Inv_same y)|done].
    + left. eexists. rewrite publishers_settle. simpl. rewrite lookup_insert_eq.
      split; [done|]. simpl. split; [done|set_solver].
  - left. exists p. simpl. rewrite lookup_delete_ne; [done|]. intros ->. simplify_eq. set_solver.
  - by eapply Hclose.
  - by apply (Hclose id0 s (with_closing (closing y ∖ {[id0]}) y)).
Qed.

Definition live_step (t : nat) (y y' : System) : Prop := step y y' /\ live t y'.

(** C19: No event is lost silently unless the context of its publisher is
    canceled (a canceled publisher drops the event for the subscriptions it has
    left, without a trace).  Take any moment at which a publication starts on an
    open bus; however its deliveries interleave with other publishers, readers
    and closers, once it has returned and its context was not canceled
    meanwhile, every subscription that was open at that moment
    either rejects the event by its filter, or has the event among those it
    received or still buffers, or has been closed, with a reason. *)
Theorem no_silent_loss t e ctx_done y b e' snapshot y1 id s0 :
  reachable y -> publishers y !! t = None -> ctx_done = false ->
  publish_begin e (bus y) = Ok (b, e', snapshot) ->
  rtc (live_step t) (with_publishers (<[t := mkPub e' ctx_done snapshot]> (publishers y)) (with_bus b y)) y1 ->
  publishers y1 !! t = None ->
  store y !! id = Some s0 -> closed s0 = false ->
  exists s, store y1 !! id = Some s
    /\ (accepts s e' = false \/ e' ∈ received id y1 ++ ch s
        \/ closed s = true /\ (reason s = ReasonClosed \/ reason s = ReasonOverflow)).
Proof.
  intros Hr Hn -> Hp Hrun Hret Es Hc.
  set (y0 := with_publishers _ _) in Hrun.
  assert (Hr0 : reachable y0) by (eapply reachable_step; [done|by eapply step_publish]).
  assert (Ht0 : tracked t e' id y0 /\ live t y0).
  { destruct (publish_begin_spec _ _ _ _ _ Hp) as (Hb & _ & _ & ->). split.
    - left. eexists. unfold y0. simpl. rewrite lookup_insert_eq. split; [done|]. split; [done|]. simpl.
      by apply (proj2 (bus_sound y Hr) _ _ Es).
    - intros p. unfold y0. simpl. rewrite lookup_insert_eq. by intros [= <-]. }
  clearbody y0. destruct Ht0 as [Ht0 Hl0].
  assert (Hend : reachable y1 /\ tracked t e' id y1).
  { clear Hret. induction Hrun as [y0|y0 y2 y1 [Hst Hl] _ IH]; [done|].
    apply IH; [by eapply reachable_step| |done].
    eapply tracked_step; [by apply reachable_bus|exact Hl0|exact Hst|done]. }
  destruct Hend as [Hr1 [(p & Ep & _)|(s & E & Hs)]]; [congruence|].
  exists s. split; [done|]. destruct Hs as [Hcl|[Ha|Hin]]; [|by left|by right; left].
  right. right. split; [done|]. by apply (proj2 (bus_sound y1 Hr1) _ _ E).
Qed.

(** ** Publishing one event after the other *)
Definition deliver_to (e : Event) (bs : MemoryBus * gmap string memorySub) (id : string)
    : MemoryBus * gmap string memorySub :=
  let '(b, st) := bs in
  match st !! id with
  | None => bs
  | Some s =>
      if accepts s e then
        let '(s', o) := deliver false false e s in
        (match o with Overflowed => removeSubLocked id b | _ => b end, <[id := s']> st)
      else bs
  end.

(** [Publish] of an uncontended bus, with a context that is not done. *)
Definition Publish (e : Event) (b : MemoryBus) (st : gmap string memorySub)
    : result BusError (Event * (MemoryBus * gmap string memorySub)) :=
  match publish_begin e b with
  | Err err => Err err
  | Ok (b', e', snapshot) => Ok (e', foldl (deliver_to e') (b', st) (elements snapshot))
  end.

Fixpoint publish_each (es : list Event) (b : MemoryBus) (st : gmap string memorySub)
    : result BusError (list Event * (MemoryBus * gmap string memorySub)) :=
  match es with
  | [] => Ok ([], (b, st))
  | e :: es =>
      match Publish e b st with
      | Err err => Err err
      | Ok (e', (b', st')) =>
          match publish_each es b' st' with
          | Err err => Err err
          | Ok (es', r) => Ok (e' :: es', r)
          end
      end
  end.

(** The view a subscription has: what it was offered, cut at its capacity. *)
Definition viewed (s s' : memorySub) (es : list Event) : Prop :=
  let offered := ch s ++ filter (fun e => accepts s e = true) es in
  filter_of s' = filter_of s /\ cap s' = cap s
  /\ ch s' = take (cap s) offered
  /\ (closed s' = true <-> (cap s < length offered)%nat)
  /\ (closed s' = true -> reason s' = ReasonOverflow).

Definition registered (id : string) (b : MemoryBus) (s : memorySub) : Prop :=
  closed s = false -> id ∈ subs b.

Lemma deliver_to_other e bs id j :
  j <> id -> (deliver_to e bs id).2 !! j = bs.2 !! j
    /\ (j ∈ subs (deliver_to e bs id).1 <-> j ∈ subs bs.1).
Proof.
  intros Hne. destruct bs as [b st]. unfold deliver_to. destruct (st !! id) as [s|] eqn:E; [|done].
  destruct (accepts s e); [|done]. destruct (deliver false false e s) as [s' o].
  simpl. rewrite lookup_insert_ne by done. split; [done|]. destruct o; try done. simpl. set_solver.
Qed.

Lemma deliver_all_other e bs ids j :
  j ∉ ids -> (foldl (deliver_to e) bs ids).2 !! j = bs.2 !! j
    /\ (j ∈ subs (foldl (deliver_to e) bs ids).1 <-> j ∈ subs bs.1).
Proof.
  revert bs. induction ids as [|id ids IH]; intros bs Hj; [done|]. cbn [foldl].
  apply not_elem_of_cons in Hj as [Hne Hj]. destruct (IH (deliver_to e bs id) Hj) as [-> ->].
  by apply deliver_to_other.
Qed.

(** An open subscription without a fault, and one that is closed. *)
Lemma deliver_closed c p e s : closed s = true -> deliver c p e s = (s, Skipped).
Proof. unfold deliver. by intros ->. Qed.

Lemma deliver_open e s :
  closed s = false -> ch_closed s = false ->
  exists n, deliver false false e s =
    if (length (ch s) <? cap s)%nat then (push e (set_lastSeq n s), Sent)
    else (shut ReasonOverflow (set_lastSeq n s), Overflowed).
Proof.
  intros H1 H2. unfold deliver. rewrite H1. exists (if lastSeq s <? EventSeq e then EventSeq e else lastSeq s).
  destruct (lastSeq s <? EventSeq e); simpl; rewrite H2; simpl; [done|]. destruct s. simpl in *. by subst.
Qed.

Record follows (s s' : memorySub) (es : list Event) : Prop := {
fo_same : filter_of s' = filter_of s /\ cap s' = cap s;
fo_ok : sub_ok s';
fo_open : closed s' = false -> ch s' = ch s ++ filter (fun e => accepts s e = true) es;
fo_closed : closed s' = true -> reason s' = ReasonOverflow /\
              exists rest, rest <> [] /\ ch s ++ filter (fun e => accepts s e = true) es = ch s' ++ rest
                           /\ length (ch s') = cap s }.

(** One publication to a subscription that followed all before it. *)
Lemma deliver_to_follows e b st id s0 s es :
  st !! id = Some s -> follows s0 s es -> registered id b s ->
  exists s', (deliver_to e (b, st) id).2 !! id = Some s' /\ follows s0 s' (es ++ [e])
             /\ registered id (deliver_to e (b, st) id).1 s'.
Proof.
  intros Es Hf Hr. destruct Hf as [[F1 F2] F3 F4 F5]. pose proof F3 as [K1 K2 K3].
  assert (Ha : accepts s e = accepts s0 e) by (unfold accepts; by rewrite F1).
  assert (Hfil : forall l : list Event, filter (fun e => accepts s0 e = true) (l ++ [e])
      = filter (fun e => accepts s0 e = true) l ++ if accepts s0 e then [e] else []).
  { intros l. rewrite filter_app, filter_cons, filter_nil. destruct (accepts s0 e); by case_decide. }
  unfold deliver_to. rewrite Es, Ha. destruct (accepts s0 e) eqn:Ea.
  2: { exists s. simpl. split; [done|]. split; [|done].
       split; [done|done|..]; rewrite Hfil, app_nil_r; done. }
  destruct (closed s) eqn:Ec.
  { rewrite deliver_closed by done. simpl. rewrite lookup_insert_eq. exists s. split; [done|].
    split; [|done]. split; [done|exact F3|congruence|]. rewrite Hfil. intros _.
    destruct (F5 eq_refl) as (R & rest & Hne & Happ & Hlen). split; [done|]. exists (rest ++ [e]).
    split; [by destruct rest|]. split; [|done]. by rewrite !app_assoc, Happ. }
  destruct (deliver_open e s) as [n En]; [done|congruence|]. rewrite En.
  destruct (Nat.ltb_spec (length (ch s)) (cap s)); simpl; rewrite lookup_insert_eq; eexists; (split; [done|]).
  - split; [|intros _; by apply Hr]. split; simpl.
    + done.
    + split; simpl; [rewrite length_app; simpl; lia|congruence|left; split; [done|]].
      destruct K3 as [[_ ?]|[? _]]; [done|congruence].
    + intros _. by rewrite Hfil, (F4 eq_refl), app_assoc.
    + congruence.
  - split; [|by unfold registered]. split; simpl; [done| |done|].
    + split; simpl; [lia|done|right; split; [done|by right]].
    + intros _. split; [done|]. exists [e]. split; [done|].
      rewrite Hfil, app_assoc, <- (F4 eq_refl). split; [done|lia].
Qed.

Lemma Publish_follows e b st e' b' st' id s0 s es :
  Publish e b st = Ok (e', (b', st')) ->
  st !! id = Some s -> follows s0 s es -> registered id b s ->
  exists s', st' !! id = Some s' /\ follows s0 s' (es ++ [e']) /\ registered id b' s'.
Proof.
  unfold Publish. destruct (publish_begin e b) as [[[b1 e1] snap]|] eqn:Ep; [|done].
  destruct (publish_begin_spec _ _ _ _ _ Ep) as (_ & _ & Hsubs & ->).
  intros [= <- E] Es Hf Hr.
  assert (E1 : b' = (foldl (deliver_to e1) (b1, st) (elements (subs b))).1) by by rewrite E.
  assert (E2 : st' = (foldl (deliver_to e1) (b1, st) (elements (subs b))).2) by by rewrite E.
  rewrite E1, E2. clear E E1 E2.
  destruct (decide (id ∈ subs b)) as [Hin|Hnin].
  - apply elem_of_elements in Hin. pose proof (NoDup_elements (subs b)) as Hnd.
    apply list_elem_of_split in Hin as (l1 & l2 & Hl). rewrite Hl in *.
    apply list.NoDup_app in Hnd as (_ & Hd & Hnd). apply list.NoDup_cons in Hnd as [Hn2 _].
    assert (Hn1 : id ∉ l1) by (intros Hin; apply (Hd _ Hin); left).
    rewrite foldl_app. cbn [foldl].
    destruct (deliver_all_other e1 (b1, st) l1 id Hn1) as [A1 A2].
    destruct (foldl (deliver_to e1) (b1, st) l1) as [b2 st2]. simpl in A1, A2.
    destruct (deliver_to_follows e1 b2 st2 id s0 s es) as (s' & B1 & B2 & B3).
    { congruence. } { done. } { intros Hc. apply A2. rewrite Hsubs. by apply Hr. }
    destruct (deliver_all_other e1 (deliver_to e1 (b2, st2) id) l2 id Hn2) as [C1 C2].
    exists s'. split; [congruence|]. split; [done|]. intros Hc. apply C2. by apply B3.
  - assert (Hne : id ∉ elements (subs b)) by (by rewrite elem_of_elements).
    destruct (deliver_all_other e1 (b1, st) _ id Hne) as [A1 A2]. exists s. simpl in *.
    split; [congruence|]. assert (Hc : closed s = true).
    { destruct (closed s) eqn:Ec; [done|]. by destruct (Hnin (Hr Ec)). }
    split; [|intros Hc'; congruence].
    destruct Hf as [F1 F3 F4 F5]. split; [done|done|congruence|]. intros _.
    destruct (F5 Hc) as (R & rest & Hne' & Happ & Hlen). split; [done|].
    rewrite filter_app, app_assoc, Happ. eexists. split; [|split; [by rewrite <- app_assoc|done]].
    by destruct rest.
Qed.

Lemma publish_each_follows es b st es' b' st' id s0 s seen :
  publish_each es b st = Ok (es', (b', st')) ->
  st !! id = Some s -> follows s0 s seen -> registered id b s ->
  exists s', st' !! id = Some s' /\ follows s0 s' (seen ++ es').
Proof.
  revert b st es' s seen. induction es as [|e es IH]; intros b st es' s seen; simpl.
  { intros [= <- <- <-] Es Hf _. exists s. by rewrite app_nil_r. }
  destruct (Publish e b st) as [[e1 [b1 st1]]|] eqn:Ep; [|done].
  destruct (publish_each es b1 st1) as [[es1 [b2 st2]]|] eqn:Er; [|done].
  intros [= <- <- <-] Es Hf Hr.
  destruct (Publish_follows _ _ _ _ _ _ _ _ _ _ Ep Es Hf Hr) as (s1 & Es1 & Hf1 & Hr1).
  destruct (IH _ _ _ _ _ Er Es1 Hf1 Hr1) as (s' & Es' & Hf'). exists s'. split; [done|].
  by rewrite <- app_assoc in Hf'.
Qed.

Lemma publish_each_numbers es b st es' r c n :
  publish_each es b st = Ok (es', r) -> c <> "" ->
  Forall (fun e => stream_of e = c /\ EventSeq e = 0) es ->
  default 0 (seq b !! c) = n -> 0 <= n -> n + Z.of_nat (length es) <= max_int64 ->
  EventSeq <$> es' = seqZ (n + 1) (Z.of_nat (length es)).
Proof.
  revert b st es' r n. induction es as [|e es IH]; intros b st es' r n; simpl.
  { intros [= <- <-] _ _ _ _ _. done. }
  destruct (Publish e b st) as [[e1 [b1 st1]]|] eqn:Ep; [|done].
  destruct (publish_each es b1 st1) as [[es1 r1]|] eqn:Er; [|done].
  intros [= <- <-] Hc [[Hs Hz] Hall]%Forall_cons Hn Hpos Hmax.
  rewrite seqZ_cons by lia. simpl.
  unfold Publish, publish_begin in Ep. destruct (bus_closed b); [done|].
  rewrite Hs, Hz, bool_decide_eq_false_2 in Ep by done. simpl in Ep.
  rewrite Hn, wrap64_id in Ep by (unfold in_int64, min_int64, max_int64 in *; lia).
  injection Ep as <- Ep.
  assert (Hseq : forall e bs ids, seq (foldl (deliver_to e) bs ids).1 = seq bs.1).
  { clear. intros e bs ids. revert bs. induction ids as [|i ids IH]; intros bs; [done|]. cbn [foldl].
    rewrite IH. destruct bs as [b st]. unfold deliver_to. destruct (st !! i); [|done].
    destruct (accepts m e); [|done]. destruct (deliver false false e m) as [s o]. by destruct o. }
  f_equal. replace (Z.pred (Z.of_nat (S (length es)))) with (Z.of_nat (length es)) by lia.
  replace (Z.succ (n + 1)) with (n + 1 + 1) by lia.
  eapply (IH b1 st1); [done|done|done| |lia|lia].
  match type of Ep with foldl ?f ?x ?l = _ => pose proof (Hseq (mkEvent (StreamID e) (ConversationID e) (n + 1) (Body e)) x l) as Hq end.
  rewrite Ep in Hq. simpl in Hq. rewrite Hq, lookup_insert_eq. done.
Qed.

(** Published one after the other, a subscription sees its share of the
    events in publication order and without a gap, up to its capacity: its
    buffer is exactly the first accepted events that fit, and it is closed, with
    the overflow reason, exactly when one did not fit; and the events of one
    stream get consecutive sequence numbers. *)
Lemma sequential_view es b st es' b' st' id s :
  publish_each es b st = Ok (es', (b', st')) ->
  st !! id = Some s -> sub_ok s -> closed s = false -> id ∈ subs b ->
  (exists s', st' !! id = Some s'
     /\ let offered := ch s ++ filter (fun e => accepts s e = true) es' in
        ch s' = take (cap s) offered
        /\ (closed s' = true <-> (cap s < length offered)%nat)
        /\ (closed s' = true -> reason s' = ReasonOverflow))
  /\ (forall c, c <> "" -> Forall (fun e => stream_of e = c /\ EventSeq e = 0) es ->
        0 <= default 0 (seq b !! c) -> default 0 (seq b !! c) + Z.of_nat (length es) <= max_int64 ->
        EventSeq <$> es' = seqZ (default 0 (seq b !! c) + 1) (Z.of_nat (length es))).
Proof.
  intros Hp Es Hs Hc Hin. split.
  - assert (Hf : follows s s []).
    { split; [done|done| |congruence]. intros _. rewrite filter_nil. by rewrite app_nil_r. }
    destruct (publish_each_follows _ _ _ _ _ _ id s s [] Hp Es Hf) as (s' & Es' & [[F1 F2] F3 F4 F5]).
    { by intros _. }
    simpl in F4, F5. exists s'. split; [done|]. cbv zeta. pose proof (sk_cap _ F3) as Hcap. rewrite F2 in Hcap.
    destruct (closed s') eqn:Ec.
    + destruct (F5 eq_refl) as (R & rest & Hne & Happ & Hlen). rewrite Happ.
      split; [by rewrite <- Hlen, take_app_length|]. split; [|done]. split; [|done]. intros _.
      rewrite length_app. destruct rest; [done|]. simpl. lia.
    + rewrite <- (F4 eq_refl). split; [by rewrite take_ge|]. split; [|done]. split; [done|lia].
  - intros c Hne Hall H0 Hmax. by eapply publish_each_numbers.
Qed.

(** A subscription terminated for overflow reports a last sequence number
    that includes the very event it could not take: the event is not in its
    buffer, yet resuming after [LastSeq] skips it. *)
Lemma overflow_resume_gap ctx_done pick e s s' :
  deliver ctx_done pick e s = (s', Overflowed) ->
  closed s' = true /\ reason s' = ReasonOverflow /\ ch s' = ch s /\ EventSeq e <= lastSeq s'.
Proof.
  unfold deliver. destruct (closed s); [done|].
  set (s1 := if lastSeq s <? EventSeq e then set_lastSeq (EventSeq e) s else s).
  assert (E : ch s1 = ch s /\ EventSeq e <= lastSeq s1).
  { unfold s1. destruct (Z.ltb_spec (lastSeq s) (EventSeq e)); simpl; split; try done; lia. }
  clearbody s1. destruct E as [E1 E2].
  repeat case_match; intros [= <-]; simpl. by repeat split.
Qed.

(** ** A concrete bus *)
Definition demo_sub : memorySub := mkMemorySub None 1 [] false false "" 0.
Definition demo_event (body : string) : Event := mkEvent "" "c" 0 body.
Definition demo_bus : MemoryBus := mkBus false 64 {["s"]} ∅.

(** A schedule that can be run: the moves of the publishers, the readers, the
    closers and the bus, taken when they are enabled. *)
Inductive move :=
| MSubscribe (id : string) (buffer : Z)
| MPublish (t : nat) (e : Event)
| MDeliver (t : nat) (id : string)
| MReturn (t : nat)
| MReceive (id : string)
| MClose
| MCloseNext (id : string)
| MRemove (id : string).

Definition run_move (mv : move) (y : System) : option System :=
  match mv with
  | MSubscribe id n =>
      match store y !! id, subscribe id None n (bus y) with
      | None, Ok (b, s) => Some (mkSystem b (<[id := s]> (store y)) (publishers y) (closing y) (removing y)
                                  (<[id := []]> (got y)) (faulted y))
      | _, _ => None
      end
  | MPublish t e =>
      match publishers y !! t, publish_begin e (bus y) with
      | None, Ok (b, e', snapshot) =>
          Some (with_publishers (<[t := mkPub e' false snapshot]> (publishers y)) (with_bus b y))
      | _, _ => None
      end
  | MDeliver t id =>
      match publishers y !! t, store y !! id with
      | Some p, Some s =>
          if bool_decide (id ∈ p_pending p) && accepts s (p_event p)
          then Some (settle id (deliver (p_done p) false (p_event p) s)
                 (with_publishers (<[t := mkPub (p_event p) (p_done p) (p_pending p ∖ {[id]})]> (publishers y)) y))
          else None
      | _, _ => None
      end
  | MReturn t =>
      match publishers y !! t with
      | Some p => if bool_decide (p_pending p = ∅) then Some (with_publishers (delete t (publishers y)) y) else None
      | None => None
      end
  | MReceive id =>
      match store y !! id with
      | Some s =>
          match ch s with
          | e :: rest => Some (mkSystem (bus y)
              (<[id := mkMemorySub (filter_of s) (cap s) rest (ch_closed s) (closed s) (reason s) (lastSeq s)]> (store y))
              (publishers y) (closing y) (removing y) (<[id := received id y ++ [e]]> (got y)) (faulted y))
          | [] => None
          end
      | None => None
      end
  | MClose => Some (with_closing ((close_begin (bus y)).2 ∪ closing y) (with_bus (close_begin (bus y)).1 y))
  | MCloseNext id =>
      match store y !! id with
      | Some s => if bool_decide (id ∈ closing y) then Some (close_sub id s (with_closing (closing y ∖ {[id]}) y)) else None
      | None => None
      end
  | MRemove id =>
      if bool_decide (id ∈ removing y)
      then Some (with_removing (removing y ∖ {[id]}) (with_bus (removeSubLocked id (bus y)) y)) else None
  end.

Lemma run_move_step mv y y' : run_move mv y = Some y' -> step y y'.
Proof.
  destruct mv as [id n|t e|t id|t|id| |id|id]; cbn [run_move]; intros E.
  - destruct (store y !! id) eqn:Es; [done|]. destruct (subscribe id None n (bus y)) as [[b s]|] eqn:Eb; [|done].
    injection E as <-. by eapply step_subscribe.
  - destruct (publishers y !! t) eqn:Et; [done|]. destruct (publish_begin e (bus y)) as [[[b e'] snap]|] eqn:Eb; [|done].
    injection E as <-. by eapply step_publish.
  - destruct (publishers y !! t) as [p|] eqn:Et; [|done]. destruct (store y !! id) as [s|] eqn:Es; [|done].
    case_bool_decide as Hin; [|done]. destruct (accepts s (p_event p)) eqn:Ea; [|done]. injection E as <-. by eapply step_deliver.
  - destruct (publishers y !! t) as [p|] eqn:Et; [|done]. case_bool_decide; [|done]. injection E as <-. by eapply step_return.
  - destruct (store y !! id) as [s|] eqn:Es; [|done]. destruct (ch s) eqn:Ec; [done|]. injection E as <-. by eapply step_receive.
  - injection E as <-. by apply step_close_bus; apply surjective_pairing.
  - destruct (store y !! id) as [s|] eqn:Es; [|done]. case_bool_decide; [|done]. injection E as <-. by eapply step_close_next.
  - case_bool_decide; [|done]. injection E as <-. by eapply step_remove.
Qed.

Definition run_moves (mvs : list move) (y : System) : option System := foldr (fun mv k y => run_move mv y ≫= k) Some mvs y.

Lemma run_moves_reachable mvs y y' : reachable y -> run_moves mvs y = Some y' -> reachable y'.
Proof.
  revert y. induction mvs as [|mv mvs IH]; intros y Hy E; [by injection E as <-|].
  unfold run_moves in E. cbn [foldr] in E. destruct (run_move mv y) as [y1|] eqn:E1; [|done].
  apply (IH y1); [|exact E]. eapply reachable_step; [exact Hy|]. by apply (run_move_step mv).
Qed.

(** A subscription with room for one event overflows and leaves the registry;
    another gets an event, is closed with the bus, and is then offered the event
    of a publication that began before. *)
Definition busy_moves : list move :=
  [MSubscribe "s" 1; MPublish 0 (demo_event "a"); MDeliver 0 "s"; MReturn 0; MPublish 0 (demo_event "b"); MDeliver 0 "s";
   MRemove "s"; MReturn 0; MSubscribe "r" 4; MPublish 0 (demo_event "c"); MPublish 1 (demo_event "d"); MDeliver 0 "r"; MReceive "r";
   MClose; MCloseNext "r"; MDeliver 1 "r"; MReturn 1].

Lemma bus_sound_witness :
  exists y s r, run_moves busy_moves (start 8) = Some y /\ store y !! "s" = Some s /\ store y !! "r" = Some r
    /\ Body <$> ch s = ["a"] /\ Body <$> received "r" y = ["c"]
    /\ faulted y = false /\ reason s <> "" /\ ch_closed r = true
    /\ (reason r = ReasonClosed \/ reason r = ReasonOverflow).
Proof.
  assert (option_map (fun y => (option_map (fun s => (Body <$> ch s, closed s)) (store y !! "s"), closed <$> store y !! "r", Body <$> received "r" y))
            (run_moves busy_moves (start 8)) = Some (Some (["a"], true), Some true, ["c"])) as Hc by (vm_compute; reflexivity).
  destruct (run_moves busy_moves (start 8)) as [y|] eqn:E; [|discriminate].
  cbn in Hc. destruct (store y !! "s") as [s|] eqn:Es; [|discriminate]. destruct (store y !! "r") as [r|] eqn:Er; [|discriminate].
  injection Hc as Ha Hs Hr Hg. exists y, s, r. split; [reflexivity|]. split; [exact Es|]. split; [exact Er|]. split; [exact Ha|]. split; [exact Hg|].
  destruct (bus_sound y (run_moves_reachable busy_moves _ _ (reachable_start 8) E)) as [Hf Hsub].
  destruct (Hsub _ _ Es) as (_ & _ & Hreason & _). destruct (Hsub _ _ Er) as (_ & Hch & _ & Hwhy & _).
  split; [exact Hf|]. split; [intros Hn; apply Hreason in Hn; congruence|]. split; [by rewrite Hch|by apply Hwhy].
Defined.

Lemma sequential_view_witness :
  exists es' b' st' s', publish_each [demo_event "a"; demo_event "b"] demo_bus {["s" := demo_sub]} = Ok (es', (b', st'))
    /\ st' !! "s" = Some s' /\ EventSeq <$> es' = [1; 2] /\ closed s' = true /\ lastSeq s' = 2
    /\ EventSeq <$> ch s' = [1].
Proof.
  destruct (publish_each [demo_event "a"; demo_event "b"] demo_bus {["s" := demo_sub]}) as [[es' [b' st']]|] eqn:E;
    [|vm_compute in E; discriminate E].
  destruct (sequential_view _ _ _ _ _ _ "s" demo_sub E) as [(s' & Es' & Hv) Hn];
    [vm_compute; reflexivity|repeat split; simpl; [lia|by left]|reflexivity|vm_compute; reflexivity|].
  exists es', b', st', s'. split; [done|]. split; [exact Es'|].
  split; [by apply (Hn "c"); [|repeat constructor| |]|].
  vm_compute in E. injection E as <- <- <-. vm_compute in Es'. injection Es' as <-. by repeat split.
Defined.

Lemma overflow_resume_gap_witness :
  EventSeq (demo_event "b") <= lastSeq (shut ReasonOverflow (push (demo_event "a") demo_sub)).
Proof. by apply (overflow_resume_gap false false (demo_event "b") (push (demo_event "a") demo_sub)). Defined.

Lemma no_silent_loss_witness :
  exists y1 s, store y1 !! "s" = Some s /\ (accepts s (mkEvent "" "c" 1 "a") = false
    \/ mkEvent "" "c" 1 "a" ∈ received "s" y1 ++ ch s
    \/ closed s = true /\ (reason s = ReasonClosed \/ reason s = ReasonOverflow)).
Proof.
  pose (y := mkSystem (mkBus false 8 ({["s"]} ∪ ∅) ∅) (<["s" := mkMemorySub None 8 [] false false "" 0]> ∅) ∅ ∅ ∅
               (<["s" := []]> ∅) false).
  assert (Hy : reachable y).
  { eapply (reachable_step (start 8)); [constructor|].
    apply (step_subscribe "s" None 0 _ _ (start 8)); [vm_compute; reflexivity|reflexivity]. }
  destruct (publish_begin (demo_event "a") (bus y)) as [[[b e'] snap]|] eqn:Ep; [|vm_compute in Ep; discriminate Ep].
  pose (y0 := with_publishers (<[0%nat := mkPub e' false snap]> (publishers y)) (with_bus b y)).
  pose (y1 := settle "s" (deliver false false e' (mkMemorySub None 8 [] false false "" 0))
                (with_publishers (<[0%nat := mkPub e' false (snap ∖ {["s"]})]> (publishers y0)) y0)).
  pose (y2 := with_publishers (delete 0%nat (publishers y1)) y1).
  assert (Hs1 : step y0 y1).
  { apply (step_deliver 0%nat (mkPub e' false snap)); try reflexivity.
    vm_compute in Ep. injection Ep as <- <- <-. vm_compute. reflexivity. }
  assert (Hs2 : step y1 y2).
  { apply (step_return 0%nat (mkPub e' false (snap ∖ {["s"]}))).
    - unfold y1. rewrite publishers_settle. reflexivity.
    - vm_compute in Ep. injection Ep as <- <- <-. vm_compute. reflexivity. }
  assert (He : e' = mkEvent "" "c" 1 "a") by (vm_compute in Ep; by injection Ep as <- <- <-).
  destruct (no_silent_loss 0%nat (demo_event "a") false y b e' snap y2 "s" (mkMemorySub None 8 [] false false "" 0))
    as (s & Es & Hs); try done.
  - eapply rtc_l; [split; [exact Hs1|]|eapply rtc_l; [split; [exact Hs2|]|apply rtc_refl]].
    + intros p. unfold y1. rewrite publishers_settle. cbn. rewrite lookup_insert_eq. by intros [= <-].
    + intros p. cbn. by rewrite lookup_delete_eq.
  - cbn. by rewrite lookup_delete_eq.
  - exists y2, s. split; [exact Es|]. by rewrite He in Hs.
Defined.
