(* ===== verification/PatchLines.v ===== *)
(** * Patch application on lines ([protocol/tool/service/system/patch]:
    [seek_sequence.go], [update.go] and [applyHunks] of [session.go])

    The fuzzy search for the lines of a chunk, the computation and application of
    replacements, and the application of unified-diff hunks. *)
From stdpp Require Import base gmap strings list fin_maps numbers sorting.
From Stdlib Require Import ZArith Lia Ascii.
From S2P Require Import Prelude GoStrings GoJson.

Open Scope nat_scope.

Definition newline : ascii := "010"%char.

(** ** Searching ([seek_sequence.go]) *)

(** The encodings of the runes mapped to one replacement byte. *)
Definition dashes : list (list ascii) :=
  bytes_of_nats <$> [[226;128;144]; [226;128;145]; [226;128;146]; [226;128;147]; [226;128;148]; [226;128;149]; [226;136;146]].
Definition single_quotes : list (list ascii) :=
  bytes_of_nats <$> [[226;128;152]; [226;128;153]; [226;128;154]; [226;128;155]].
Definition double_quotes : list (list ascii) :=
  bytes_of_nats <$> [[226;128;156]; [226;128;157]; [226;128;158]; [226;128;159]].
Definition wide_spaces : list (list ascii) :=
  bytes_of_nats <$> [[194;160]; [226;128;130]; [226;128;131]; [226;128;132]; [226;128;133]; [226;128;134]; [226;128;135];
                     [226;128;136]; [226;128;137]; [226;128;138]; [226;128;175]; [226;129;159]; [227;128;128]].

Definition normalize_rune (r : list ascii) : list ascii :=
  if bool_decide (r ∈ dashes) then ["-"%char]
  else if bool_decide (r ∈ single_quotes) then ["'"%char]
  else if bool_decide (r ∈ double_quotes) then [ascii_of_nat 34]
  else if bool_decide (r ∈ wide_spaces) then [" "%char]
  else r.

(** [range] over a string yields U+FFFD for a byte that encodes no rune. *)
Fixpoint normalize_n (n : nat) (l : list ascii) : list ascii :=
  match n, l with
  | _, [] => []
  | O, _ => []
  | S n', _ =>
      match rune_len l with
      | Some k => normalize_rune (take k l) ++ normalize_n n' (drop k l)
      | None => bytes_of_nats [239; 191; 189] ++ normalize_n n' (drop 1 l)
      end
  end.

Definition normalizePunctuation (s : string) : string :=
  let s := TrimSpace s in text (normalize_n (String.length s) (bytes s)).

Definition equalSlice (a b : list string) : bool := bool_decide (a = b).

Definition line_space : string := text (bytes_of_nats [32; 9; 13; 10]).

(** The four matching steps, from strict to lenient. *)
Definition levels : list (string -> string) :=
  [fun s => s; fun s => TrimRight s line_space; TrimSpace; normalizePunctuation].

Definition matches_at (norm : string -> string) (lines pattern : list string) (i : nat) : bool :=
  equalSlice (norm <$> take (length pattern) (drop i lines)) (norm <$> pattern).

(** [for i := searchStart; i <= maxStart; i++]. *)
Definition scan (norm : string -> string) (lines pattern : list string) (searchStart maxStart : nat) : option nat :=
  snd <$> list_find (fun i => matches_at norm lines pattern i = true) (seq searchStart (S maxStart - searchStart)).

Fixpoint scan_levels (norms : list (string -> string)) (lines pattern : list string) (searchStart maxStart : nat)
    : option nat :=
  match norms with
  | [] => None
  | norm :: norms =>
      match scan norm lines pattern searchStart maxStart with
      | Some i => Some i
      | None => scan_levels norms lines pattern searchStart maxStart
      end
  end.

(** [None] is the [-1] of the code. *)
Definition seekSequence (lines pattern : list string) (start : nat) (eof : bool) : option nat :=
  if bool_decide (pattern = []) then Some start
  else if length lines <? length pattern then None
  else
    let searchStart := if eof then length lines - length pattern else start in
    scan_levels levels lines pattern searchStart (length lines - length pattern).

(** ** Updating a file ([update.go]) *)
Record UpdateChunk := mkChunk {
ChangeContext : string;
OldLines : list string;
NewLines : list string;
IsEOF : bool }.

Record replacement := mkReplacement {
start : nat;
oldLen : nat;
newLines : list string }.

Inductive UpdateError :=
| ContextNotFound (context path : string)
| LinesNotFound (path : string) (expected : list string).

Definition last_is_empty (l : list string) : bool := bool_decide (last l = Some "").
Definition drop_last (l : list string) : list string := take (pred (length l)) l.

(** One chunk: the replacement it asks for and the next search position. *)
Definition compute_chunk (lines : list string) (path : string) (chunk : UpdateChunk) (lineIndex : nat)
    : result UpdateError (replacement * nat) :=
  match (if bool_decide (ChangeContext chunk = "") then Some lineIndex
         else S <$> seekSequence lines [ChangeContext chunk] lineIndex false) with
  | None => Err (ContextNotFound (ChangeContext chunk) path)
  | Some lineIndex =>
      match OldLines chunk with
      | [] =>
          let insertionIdx := if last_is_empty lines then length lines - 1 else length lines in
          Ok (mkReplacement insertionIdx 0 (NewLines chunk), lineIndex)
      | _ =>
          let pattern := OldLines chunk in
          let newSlice := NewLines chunk in
          let '(pattern, newSlice, found) :=
            match seekSequence lines pattern lineIndex (IsEOF chunk) with
            | Some i => (pattern, newSlice, Some i)
            | None =>
                if last_is_empty pattern then
                  let pattern := drop_last pattern in
                  let newSlice := if last_is_empty newSlice then drop_last newSlice else newSlice in
                  (pattern, newSlice, seekSequence lines pattern lineIndex (IsEOF chunk))
                else (pattern, newSlice, None)
            end in
          match found with
          | None => Err (LinesNotFound path (OldLines chunk))
          | Some i => Ok (mkReplacement i (length pattern) newSlice, i + length pattern)
          end
      end
  end.

Fixpoint compute_all (lines : list string) (path : string) (chunks : list UpdateChunk) (lineIndex : nat)
    : result UpdateError (list replacement) :=
  match chunks with
  | [] => Ok []
  | chunk :: chunks =>
      '(r, lineIndex) ← compute_chunk lines path chunk lineIndex;
      rs ← compute_all lines path chunks lineIndex;
      Ok (r :: rs)
  end.

(** [sort.Slice] by start; equal starts keep their order here, which the
    standard library guarantees only for at most 12 replacements. *)
Fixpoint insert_rep (r : replacement) (rs : list replacement) : list replacement :=
  match rs with
  | [] => [r]
  | r' :: rs' => if start r' <? start r then r' :: insert_rep r rs' else r :: rs
  end.
Definition sort_reps (rs : list replacement) : list replacement := foldr insert_rep [] rs.

Definition computeReplacements (lines : list string) (path : string) (chunks : list UpdateChunk)
    : result UpdateError (list replacement) :=
  rs ← compute_all lines path chunks 0;
  Ok (sort_reps rs).

Definition apply_one (out : list string) (r : replacement) : list string :=
  take (start r) out ++ newLines r ++ drop (Nat.min (start r + oldLen r) (length out)) out.

Definition applyReplacements (lines : list string) (reps : list replacement) : list string :=
  foldl apply_one lines (rev reps).

Definition original_lines (oldData : string) : list string :=
  let l := Split oldData newline in if last_is_empty l then drop_last l else l.

Definition applyUpdate (oldData : string) (chunks : list UpdateChunk) (path : string) : result UpdateError string :=
  let originalLines := original_lines oldData in
  replacements ← computeReplacements originalLines path chunks;
  let newLines := applyReplacements originalLines replacements in
  let newLines := if last_is_empty newLines then newLines else newLines ++ [""] in
  Ok (Join newLines newline).

(** ** Unified-diff hunks ([applyHunks]) *)

(** The fields of a hunk of the diff parser that are used. *)
Record Hunk := mkHunk { OrigStartLine : Z; Body : string }.

Inductive HunkError :=
| ContextMismatch (line : nat)
| DeleteMismatch (line : nat)
| UnexpectedTag (tag : ascii).

(** [strings.SplitAfter(s, "\n")]. *)
Fixpoint split_after (l : list ascii) : list (list ascii) :=
  match l with
  | [] => [[]]
  | c :: l' => if decide (c = newline) then [newline] :: split_after l'
               else match split_after l' with
                    | h :: t => (c :: h) :: t
                    | [] => [[c]]
                    end
  end.
Definition SplitAfter (s : string) : list string := text <$> split_after (bytes s).

Definition nl : string := text [newline].

Definition without_space (s : string) : string :=
  ReplaceAll (ReplaceAll (ReplaceAll s " " "") (text (bytes_of_nats [9])) "") (text (bytes_of_nats [13])) "".

Definition linesEqual (a b : string) : bool :=
  bool_decide (a = b)
  || (bool_decide (a = "") && bool_decide (b = nl)) || (bool_decide (a = nl) && bool_decide (b = ""))
  || bool_decide (without_space a = without_space b).

(** The state of the walk: the original lines not consumed yet and the output. *)
Definition hunk_line (total : nat) (st : list string * string) (hl : string) : result HunkError (list string * string) :=
  let '(rest, out) := st in
  let at_line := S (total - length rest) in
  match hl with
  | "" => Ok st
  | String tag line =>
      if bool_decide (tag = " "%char) then
        match rest with
        | [] => Err (ContextMismatch at_line)
        | o :: rest' =>
            if linesEqual o line then
              Ok (rest', if bool_decide (o = "") && bool_decide (line = nl) then out else out +:+ line)
            else Err (ContextMismatch at_line)
        end
      else if bool_decide (tag = "-"%char) then
        match rest with
        | [] => Err (DeleteMismatch at_line)
        | o :: rest' => if linesEqual o line then Ok (rest', out) else Err (DeleteMismatch at_line)
        end
      else if bool_decide (tag = "+"%char) then Ok (rest, out +:+ line)
      else if bool_decide (tag = "\"%char) then Ok st
      else Err (UnexpectedTag tag)
  end.

Fixpoint hunk_lines (total : nat) (st : list string * string) (hls : list string)
    : result HunkError (list string * string) :=
  match hls with
  | [] => Ok st
  | hl :: hls => st' ← hunk_line total st hl; hunk_lines total st' hls
  end.

Definition concat_lines (ls : list string) : string := foldr String.append "" ls.

(** Copying the untouched lines before a hunk: [origIdx] goes up to the 0-based
    start line, never back. *)
Definition copy_to (total : nat) (targetIdx : Z) (st : list string * string) : list string * string :=
  let '(rest, out) := st in
  let n := Z.to_nat (targetIdx - Z.of_nat (total - length rest)) in
  (drop n rest, out +:+ concat_lines (take n rest)).

Fixpoint apply_hunks (total : nat) (st : list string * string) (hunks : list Hunk)
    : result HunkError (list string * string) :=
  match hunks with
  | [] => Ok st
  | h :: hunks =>
      st' ← hunk_lines total (copy_to total (OrigStartLine h - 1)%Z st) (SplitAfter (Body h));
      apply_hunks total st' hunks
  end.

Definition applyHunks (oldData : string) (hunks : list Hunk) : result HunkError string :=
  let oldLines := SplitAfter oldData in
  '(rest, out) ← apply_hunks (length oldLines) (oldLines, "") hunks;
  Ok (out +:+ concat_lines rest).

Example seek_ex : seekSequence ["a "; "b"; " c"] ["b"; "c"] 0 false = Some 1. Proof. vm_compute. reflexivity. Qed.
Example update_ex :
  applyUpdate (text (bytes "a" ++ [newline] ++ bytes "b" ++ [newline])) [mkChunk "" ["b"] ["c"; "d"] false] "f"
  = Ok (text (bytes "a" ++ [newline] ++ bytes "c" ++ [newline] ++ bytes "d" ++ [newline])).
Proof. vm_compute. reflexivity. Qed.

(** ** The search finds the first match at the strictest level that has one *)
Lemma scan_Some norm lines pattern lo hi i :
  scan norm lines pattern lo hi = Some i <->
  lo <= i <= hi /\ matches_at norm lines pattern i = true
  /\ forall j, lo <= j < i -> matches_at norm lines pattern j = false.
Proof.
  unfold scan. split.
  - destruct (list_find _ _) as [[k x]|] eqn:E; [|done]. simpl. intros [= ->].
    apply list_find_Some in E as (E & Hm & Hf). apply lookup_seq in E as [-> Hk].
    split; [lia|]. split; [done|]. intros j Hj. apply not_true_is_false.
    apply (Hf (j - lo) j); [|lia]. apply lookup_seq. lia.
  - intros (Hr & Hm & Hf).
    assert (E : list_find (fun i => matches_at norm lines pattern i = true) (seq lo (S hi - lo)) = Some (i - lo, i)).
    { apply list_find_Some. split; [apply lookup_seq; lia|]. split; [done|].
      intros j y [-> Hj]%lookup_seq Hlt. rewrite Hf by lia. done. }
    by rewrite E.
Qed.

Lemma scan_None norm lines pattern lo hi :
  scan norm lines pattern lo hi = None <->
  forall j, lo <= j <= hi -> matches_at norm lines pattern j = false.
Proof.
  unfold scan. rewrite fmap_None, list_find_None, Forall_forall. split.
  - intros Hf j Hj. apply not_true_is_false, Hf. apply elem_of_seq. lia.
  - intros Hf j Hj%elem_of_seq. rewrite Hf by lia. done.
Qed.

Lemma scan_levels_Some norms lines pattern lo hi i :
  scan_levels norms lines pattern lo hi = Some i <->
  exists strict norm lenient, norms = strict ++ norm :: lenient
    /\ scan norm lines pattern lo hi = Some i
    /\ Forall (fun n => scan n lines pattern lo hi = None) strict.
Proof.
  induction norms as [|n norms IH]; simpl.
  { split; [done|]. by intros ([] & ? & ? & ? & _). }
  destruct (scan n lines pattern lo hi) as [k|] eqn:E.
  - split.
    + intros [= ->]. exists [], n, norms. by repeat constructor.
    + intros (strict & norm & lenient & Heq & Hs & Hf). destruct strict as [|m strict].
      * simpl in Heq. simplify_eq. congruence.
      * simpl in Heq. simplify_eq. apply Forall_cons in Hf as [Hf _]. congruence.
  - rewrite IH. split.
    + intros (strict & norm & lenient & -> & Hs & Hf). exists (n :: strict), norm, lenient.
      split; [done|]. split; [done|]. by constructor.
    + intros (strict & norm & lenient & Heq & Hs & Hf). destruct strict as [|m strict]; simpl in Heq; simplify_eq.
      apply Forall_cons in Hf as [_ Hf]. by exists strict, norm, lenient.
Qed.

Lemma scan_levels_None norms lines pattern lo hi :
  scan_levels norms lines pattern lo hi = None <->
  Forall (fun n => scan n lines pattern lo hi = None) norms.
Proof.
  induction norms as [|n norms IH]; simpl; [by split|].
  rewrite Forall_cons, <- IH. destruct (scan n lines pattern lo hi); naive_solver.
Qed.

(** First position searched. *)
Definition search_from (lines pattern : list string) (start : nat) (eof : bool) : nat :=
  if eof then length lines - length pattern else start.

(** Searching for a nonempty block of lines finds position i exactly when
    the block fits there, matches at one of the four leniency levels (exact,
    trailing space, surrounding space, punctuation), does not match earlier at
    that level, and matches nowhere at a stricter level; it fails exactly when
    the block is longer than the text or matches nowhere at any level. *)
Lemma seekSequence_spec lines pattern start eof :
  pattern <> [] ->
  let lo := search_from lines pattern start eof in
  (forall i, seekSequence lines pattern start eof = Some i <->
     lo <= i /\ i + length pattern <= length lines
     /\ exists strict norm lenient, levels = strict ++ norm :: lenient
          /\ matches_at norm lines pattern i = true
          /\ (forall j, lo <= j < i -> matches_at norm lines pattern j = false)
          /\ (forall n j, n ∈ strict -> lo <= j -> j + length pattern <= length lines ->
                matches_at n lines pattern j = false))
  /\ (seekSequence lines pattern start eof = None <->
     length lines < length pattern
     \/ forall n j, n ∈ levels -> lo <= j -> j + length pattern <= length lines ->
          matches_at n lines pattern j = false).
Proof.
  intros Hne lo. unfold seekSequence. rewrite bool_decide_eq_false_2 by done.
  fold (search_from lines pattern start eof). fold lo.
  destruct (Nat.ltb_spec (length lines) (length pattern)) as [Hl|Hl].
  - split; [|by split; [left|]]. intros i. split; [done|]. lia.
  - assert (Hr : forall n, scan n lines pattern lo (length lines - length pattern) = None <->
               forall j, lo <= j -> j + length pattern <= length lines -> matches_at n lines pattern j = false).
    { intros n. rewrite scan_None. split; intros Hf j; [intros; apply Hf; lia|intros; apply Hf; lia]. }
    split.
    + intros i. rewrite scan_levels_Some. split.
      * intros (strict & norm & lenient & El & (Hi & Hm & Hf)%scan_Some & Hs).
        split; [lia|]. split; [lia|]. exists strict, norm, lenient. repeat split; try done.
        intros n j Hn. rewrite Forall_forall in Hs. by apply Hr, Hs.
      * intros (Hi1 & Hi2 & strict & norm & lenient & El & Hm & Hf & Hs).
        exists strict, norm, lenient. split; [done|]. split; [by apply scan_Some; repeat split; [lia..|done|done]|].
        apply Forall_forall. intros n Hn. apply Hr. intros j. by apply Hs.
    + rewrite scan_levels_None, Forall_forall. split.
      * intros Hs. right. intros n j Hn. by apply Hr, Hs.
      * intros [?|Hs]; [lia|]. intros n Hn. apply Hr. intros j. by apply Hs.
Qed.

(** ** Replacements in a row are a splice *)

(** [spliced pos reps rest] rebuilds the text from position [pos] on, [rest]
    being the original lines from there. *)
Fixpoint spliced (pos : nat) (reps : list replacement) (rest : list string) : list string :=
  match reps with
  | [] => rest
  | r :: reps =>
      take (start r - pos) rest ++ newLines r
      ++ spliced (start r + oldLen r) reps (drop (start r + oldLen r - pos) rest)
  end.

(** Replacements in order, apart from each other and within [n] lines. *)
Fixpoint apart (pos : nat) (reps : list replacement) (n : nat) : Prop :=
  match reps with
  | [] => pos <= n
  | r :: reps => pos <= start r /\ start r + oldLen r <= n /\ apart (start r + oldLen r) reps n
  end.

Lemma apart_le pos reps n : apart pos reps n -> pos <= n.
Proof. destruct reps as [|r reps]; simpl; lia. Qed.

Lemma apart_mono pos pos' reps n : pos <= pos' -> apart pos' reps n -> apart pos reps n.
Proof. destruct reps as [|r reps]; simpl; [lia|]. intros ? (? & ? & ?). repeat split; [lia|done|done]. Qed.

(** Applying the replacements from the last to the first. *)
Lemma foldl_apply_rev pos reps lines :
  apart pos reps (length lines) ->
  applyReplacements lines reps = take pos lines ++ spliced pos reps (drop pos lines).
Proof.
  unfold applyReplacements. revert pos. induction reps as [|r reps IH]; intros pos; simpl.
  { intros _. by rewrite take_drop. }
  intros (Hp & Hn & Ha). rewrite foldl_app. simpl. rewrite (IH _ Ha).
  pose proof (apart_le _ _ _ Ha) as Hle. unfold apply_one.
  set (tail := spliced _ reps _).
  assert (Hlen : length (take (start r + oldLen r) lines) = start r + oldLen r) by (rewrite length_take; lia).
  rewrite length_app, Hlen, Nat.min_l by lia.
  rewrite drop_app_le, drop_ge by lia. simpl.
  rewrite take_app_le by lia. rewrite take_take, Nat.min_l by lia.
  unfold tail. rewrite drop_drop. replace (pos + (start r + oldLen r - pos)) with (start r + oldLen r) by lia.
  rewrite !app_assoc. f_equal. f_equal.
  rewrite <- (take_drop pos lines) at 1. rewrite take_app_ge by (rewrite length_take; lia).
  by rewrite length_take, Nat.min_l by lia.
Qed.

Lemma insert_rep_sorted r rs n : apart (start r) rs n -> insert_rep r rs = r :: rs.
Proof.
  destruct rs as [|r' rs]; simpl; [done|]. intros (Hle & _).
  destruct (Nat.ltb_spec (start r') (start r)); [lia|done].
Qed.

Lemma sort_reps_apart pos rs n : apart pos rs n -> sort_reps rs = rs.
Proof.
  revert pos. induction rs as [|r rs IH]; intros pos; simpl; [done|].
  intros (_ & _ & Ha). rewrite (IH _ Ha). eapply (insert_rep_sorted r rs n).
  eapply apart_mono; [|exact Ha]. lia.
Qed.

(** ** What an update does to a file *)

(** The lines a chunk looks for and what replaces them: as given, or without
    the final blank line of both when they do not match with it. *)
Inductive chunk_edit (c : UpdateChunk) : list string -> list string -> Prop :=
| edit_whole : chunk_edit c (OldLines c) (NewLines c)
| edit_without_blank :
    last (OldLines c) = Some "" ->
    chunk_edit c (drop_last (OldLines c))
      (if last_is_empty (NewLines c) then drop_last (NewLines c) else NewLines c).

Definition similar (a b : list string) : Prop := exists norm, norm ∈ levels /\ norm <$> a = norm <$> b.

(** [new] is [old] with, for each chunk in turn, the first remaining block that
    resembles its lines replaced, after a line that resembles its context. *)
Inductive patched : list UpdateChunk -> list string -> list string -> Prop :=
| patched_nil l : patched [] l l
| patched_cons c cs pattern replacement gap block rest rest' :
    chunk_edit c pattern replacement ->
    similar block pattern ->
    (ChangeContext c <> "" -> exists line, line ∈ gap /\ similar [line] [ChangeContext c]) ->
    patched cs rest rest' ->
    patched (c :: cs) (gap ++ block ++ rest) (gap ++ replacement ++ rest').

Lemma seek_found lines pattern pos i :
  seekSequence lines pattern pos false = Some i -> pos <= length lines ->
  pos <= i /\ i + length pattern <= length lines
  /\ similar (take (length pattern) (drop i lines)) pattern.
Proof.
  intros Hs Hp. destruct (decide (pattern = [])) as [->|Hne].
  { unfold seekSequence in Hs. rewrite bool_decide_eq_true_2 in Hs by done. simplify_eq.
    split; [done|]. split; [simpl; lia|]. exists (fun s => s). split; [by left|]. by rewrite take_0. }
  apply seekSequence_spec in Hs as (H1 & H2 & strict & norm & lenient & El & Hm & _); [|done].
  split; [done|]. split; [done|]. exists norm. split; [rewrite El; set_solver|].
  unfold matches_at, equalSlice in Hm. by apply bool_decide_eq_true in Hm.
Qed.

Lemma last_is_empty_true l : last_is_empty l = true -> last l = Some "".
Proof. unfold last_is_empty. apply bool_decide_eq_true. Qed.

Lemma compute_chunk_ok lines path c pos r pos' :
  OldLines c <> [] -> IsEOF c = false -> pos <= length lines ->
  compute_chunk lines path c pos = Ok (r, pos') ->
  pos <= start r /\ start r + oldLen r <= length lines /\ pos' = start r + oldLen r
  /\ exists pattern, chunk_edit c pattern (newLines r) /\ oldLen r = length pattern
       /\ similar (take (oldLen r) (drop (start r) lines)) pattern
       /\ (ChangeContext c <> "" -> exists line, line ∈ take (start r - pos) (drop pos lines)
             /\ similar [line] [ChangeContext c]).
Proof.
  intros Hne He Hp. unfold compute_chunk.
  destruct (if bool_decide (ChangeContext c = "") then _ else _) as [li|] eqn:Ec; [|done].
  assert (Hli : pos <= li <= length lines /\ (ChangeContext c <> "" -> forall i, li <= i ->
             exists line, line ∈ take (i - pos) (drop pos lines) /\ similar [line] [ChangeContext c])).
  { destruct (decide (ChangeContext c = "")) as [E|E].
    - rewrite bool_decide_eq_true_2 in Ec by done. simplify_eq. split; [lia|done].
    - rewrite bool_decide_eq_false_2 in Ec by done.
      destruct (seekSequence lines [ChangeContext c] pos false) as [k|] eqn:Ek; [|done].
      simpl in Ec. injection Ec as <-. apply seek_found in Ek as (K1 & K2 & K3); [|done]. simpl in K2, K3.
      split; [lia|]. intros _ i Hi. destruct (lookup_lt_is_Some_2 lines k) as [line Hk]; [lia|].
      exists line. split.
      + apply list_elem_of_lookup. exists (k - pos). rewrite lookup_take_lt by lia. rewrite lookup_drop.
        by replace (pos + (k - pos)) with k by lia.
      + rewrite (drop_S _ _ _ Hk) in K3. simpl in K3. by rewrite take_0 in K3. }
  destruct Hli as [Hli Hctx]. destruct (OldLines c) as [|l0 ls] eqn:Eo; [done|]. rewrite <- Eo, He. clear Eo Hne.
  destruct (seekSequence lines (OldLines c) li false) as [i|] eqn:Es.
  - intros [= <- <-]. simpl. apply seek_found in Es as (K1 & K2 & K3); [|lia].
    split; [lia|]. split; [done|]. split; [done|]. exists (OldLines c).
    split; [constructor|]. split; [done|]. split; [done|]. intros Hx. by apply Hctx.
  - destruct (last_is_empty (OldLines c)) eqn:El; [|done].
    destruct (seekSequence lines (drop_last (OldLines c)) li false) as [i|] eqn:Es2; [|done].
    intros [= <- <-]. simpl. apply seek_found in Es2 as (K1 & K2 & K3); [|lia].
    split; [lia|]. split; [done|]. split; [done|]. exists (drop_last (OldLines c)).
    split; [constructor; by apply last_is_empty_true|]. split; [done|]. split; [done|]. intros Hx. by apply Hctx.
Qed.

Lemma compute_all_patched lines path chunks pos rs :
  Forall (fun c => OldLines c <> [] /\ IsEOF c = false) chunks -> pos <= length lines ->
  compute_all lines path chunks pos = Ok rs ->
  apart pos rs (length lines) /\ patched chunks (drop pos lines) (spliced pos rs (drop pos lines)).
Proof.
  revert pos rs. induction chunks as [|c chunks IH]; intros pos rs; simpl.
  { intros _ Hp [= <-]. split; [done|constructor]. }
  intros [[Hne He] Hall]%Forall_cons Hp.
  destruct (compute_chunk lines path c pos) as [[r pos']|] eqn:Ec; [|done]. simpl.
  destruct (compute_all lines path chunks pos') as [rs'|] eqn:Er; [|done]. intros [= <-].
  destruct (compute_chunk_ok _ _ _ _ _ _ Hne He Hp Ec) as (C1 & C2 & -> & pattern & C3 & C4 & C5 & C6).
  destruct (IH _ _ Hall C2 Er) as [Ha Hpat]. split; [done|]. simpl.
  set (gap := take (start r - pos) (drop pos lines)).
  set (block := take (oldLen r) (drop (start r) lines)).
  assert (Hd : drop pos lines = gap ++ block ++ drop (start r + oldLen r) lines).
  { unfold gap, block. rewrite <- (take_drop (start r - pos) (drop pos lines)) at 1. f_equal.
    rewrite drop_drop. replace (pos + (start r - pos)) with (start r) by lia.
    rewrite <- (take_drop (oldLen r) (drop (start r) lines)) at 1. by rewrite drop_drop. }
  assert (Hr : drop (start r + oldLen r - pos) (drop pos lines) = drop (start r + oldLen r) lines).
  { rewrite drop_drop. f_equal. lia. }
  rewrite Hr. rewrite Hd at 1. by eapply patched_cons.
Qed.

(** C27: An update whose chunks all have old lines, and none of which is anchored
    to the end of the file, changes the file in exactly one way: for each chunk
    in order, one block of lines that resembles the chunk's old lines, found
    after the previous chunk's block and after a line resembling the chunk's
    context, is replaced by the chunk's new lines, every other line is kept, and
    the result ends in a newline. (Chunks that only insert, or are anchored to
    the end, may overlap others: [insertion_overlaps], [eof_chunk_overlaps].) *)
Theorem applyUpdate_patched oldData chunks path out :
  Forall (fun c => OldLines c <> [] /\ IsEOF c = false) chunks ->
  applyUpdate oldData chunks path = Ok out ->
  exists new, patched chunks (original_lines oldData) new
    /\ out = Join (if last_is_empty new then new else new ++ [""]) newline.
Proof.
  intros Hall. unfold applyUpdate, computeReplacements.
  destruct (compute_all (original_lines oldData) path chunks 0) as [rs|] eqn:Er; [|done]. simpl.
  intros [= <-]. destruct (compute_all_patched _ _ _ _ _ Hall (Nat.le_0_l _) Er) as [Ha Hp].
  rewrite drop_0 in Hp. rewrite (sort_reps_apart _ _ _ Ha), (foldl_apply_rev _ _ _ Ha).
  rewrite drop_0, take_0. simpl. eexists. split; [exact Hp|done].
Qed.

Lemma applyUpdate_patched_witness :
  exists new out, applyUpdate (text (bytes "a" ++ [newline] ++ bytes "b " ++ [newline])) [mkChunk "a" ["b"] ["c"] false] "f" = Ok out
    /\ patched [mkChunk "a" ["b"] ["c"] false] (original_lines (text (bytes "a" ++ [newline] ++ bytes "b " ++ [newline]))) new
    /\ out = Join (if last_is_empty new then new else new ++ [""]) newline.
Proof.
  destruct (applyUpdate (text (bytes "a" ++ [newline] ++ bytes "b " ++ [newline])) [mkChunk "a" ["b"] ["c"] false] "f")
    as [out|] eqn:E; [|vm_compute in E; discriminate E].
  destruct (applyUpdate_patched _ [mkChunk "a" ["b"] ["c"] false] "f" out ltac:(by repeat constructor) E) as (new & H1 & H2).
  exists new, out. by repeat split.
Defined.

Lemma seekSequence_spec_witness :
  seekSequence ["a "; "b"; " c"] ["b"; "c"] 0 false = Some 1 /\ ["b"; "c"] <> [].
Proof.
  split; [|done].
  apply (seekSequence_spec ["a "; "b"; " c"] ["b"; "c"] 0 false ltac:(done)).
  split; [vm_compute; lia|]. split; [vm_compute; lia|].
  exists [fun s => s; fun s => TrimRight s line_space], TrimSpace, [normalizePunctuation].
  split; [done|]. split; [vm_compute; reflexivity|]. split.
  - intros j Hj. assert (j = 0) as -> by (unfold search_from in Hj; lia). vm_compute. reflexivity.
  - intros n j Hn _ Hj. simpl in Hj. assert (j = 0 \/ j = 1) as Hj' by lia.
    apply elem_of_cons in Hn as [->|Hn]; [destruct Hj' as [-> | ->]; vm_compute; reflexivity|].
    apply list_elem_of_singleton in Hn as ->. destruct Hj' as [-> | ->]; vm_compute; reflexivity.
Defined.

(** Outside that class of updates blocks can overlap: a chunk anchored to the end
    of the file is searched for at the end whatever the previous chunks consumed,
    so the lines one chunk inserted are dropped by another. *)
Example eof_chunk_overlaps :
  applyUpdate (text (bytes "x" ++ [newline] ++ bytes "y" ++ [newline]))
    [mkChunk "" ["y"] ["y1"; "y2"] false; mkChunk "" ["x"; "y"] ["z"] true] "f"
  = Ok (text (bytes "z" ++ [newline] ++ bytes "y2" ++ [newline])).
Proof. vm_compute. reflexivity. Qed.

(** A pure insertion goes before the final blank line even when another chunk
    replaces that line, and is then partly overwritten. *)
Example insertion_overlaps :
  applyUpdate (text (bytes "x" ++ [newline; newline]))
    [mkChunk "" [] ["new1"; "new2"] false; mkChunk "" ["x"; ""] ["w"] false] "f"
  = Ok (text (bytes "w" ++ [newline] ++ bytes "new2" ++ [newline])).
Proof. vm_compute. reflexivity. Qed.

(** ** Unified diffs *)

(** An edit script: every line with its final newline. *)
Inductive edit := Keep (l : string) | Del (l : string) | Ins (l : string).

Definition script_old (es : list edit) : list string :=
  omap (fun e => match e with Keep l | Del l => Some l | Ins _ => None end) es.
Definition script_new (es : list edit) : list string :=
  omap (fun e => match e with Keep l | Ins l => Some l | Del _ => None end) es.
Definition script_line (e : edit) : string :=
  match e with Keep l => String " " l | Del l => String "-" l | Ins l => String "+" l end.
Definition script_body (es : list edit) : string := concat_lines (script_line <$> es).

(** A line of text: no newline but the final one. *)
Definition is_line (l : string) : Prop := exists t, newline ∉ t /\ l = text (t ++ [newline]).
Definition edit_line (e : edit) : string := match e with Keep l | Del l | Ins l => l end.

Lemma linesEqual_refl l : linesEqual l l = true.
Proof. unfold linesEqual. by rewrite bool_decide_eq_true_2. Qed.

Lemma split_after_line t l :
  newline ∉ t -> split_after (t ++ newline :: l) = (t ++ [newline]) :: split_after l.
Proof.
  induction t as [|c t IH]; intros Hn; simpl; [done|].
  apply not_elem_of_cons in Hn as [Hc Hn]. rewrite decide_False by congruence. by rewrite (IH Hn).
Qed.

Lemma concat_lines_app l1 l2 : concat_lines (l1 ++ l2) = concat_lines l1 +:+ concat_lines l2.
Proof.
  induction l1 as [|s l1 IH]; simpl; [done|]. rewrite IH.
  apply bytes_inj. by rewrite !bytes_app, app_assoc.
Qed.

(** A text made of lines splits into them and a final empty piece. *)
Lemma SplitAfter_lines ls : Forall is_line ls -> SplitAfter (concat_lines ls) = ls ++ [""].
Proof.
  induction 1 as [|l ls (t & Ht & ->) _ IH]; [done|]. unfold SplitAfter in *. simpl.
  rewrite bytes_app, bytes_text, <- app_assoc. simpl.
  rewrite split_after_line by done. cbn [fmap list_fmap app]. by rewrite IH.
Qed.

Lemma SplitAfter_concat s : concat_lines (SplitAfter s) = s.
Proof.
  unfold SplitAfter. rewrite <- (text_bytes s) at 2. induction (bytes s) as [|c l IH]; [done|]. simpl.
  case_decide as E; cbn [fmap list_fmap].
  - subst c. simpl. rewrite IH. done.
  - destruct (split_after l) as [|h t]; simpl in *; [by rewrite <- IH|].
    by rewrite <- IH.
Qed.

(** A diff: untouched lines followed by an edited region, in order. *)
Abbreviation section := (list string * list edit)%type.

Definition sections_old (secs : list section) (tail : list string) : list string :=
  foldr (fun '(gap, es) r => gap ++ script_old es ++ r) tail secs.
Definition sections_new (secs : list section) (tail : list string) : list string :=
  foldr (fun '(gap, es) r => gap ++ script_new es ++ r) tail secs.

(** The hunks a diff tool writes for them, [pos] old lines into the file. *)
Fixpoint hunks_of (pos : nat) (secs : list section) : list Hunk :=
  match secs with
  | [] => []
  | (gap, es) :: secs =>
      mkHunk (Z.of_nat (pos + length gap) + 1) (script_body es)
      :: hunks_of (pos + length gap + length (script_old es)) secs
  end.

Lemma is_line_nonempty l : is_line l -> l <> "".
Proof. intros (t & _ & ->) H. apply (f_equal bytes) in H. rewrite bytes_text in H. by destruct t. Qed.

Lemma script_line_is_line e : is_line (edit_line e) -> is_line (script_line e).
Proof.
  intros (t & Ht & E).
  assert (H : forall c : ascii, c <> newline -> String c (edit_line e) = text ((c :: t) ++ [newline]) /\ newline ∉ c :: t).
  { intros c Hc. split; [by rewrite E|]. apply not_elem_of_cons. by split. }
  destruct e; simpl in *; [destruct (H " "%char)|destruct (H "-"%char)|destruct (H "+"%char)]; try done; eexists; eauto.
Qed.

Lemma append_assoc a b c : (a +:+ b) +:+ c = a +:+ b +:+ c.
Proof. apply bytes_inj. by rewrite !bytes_app, app_assoc. Qed.

Lemma hunk_lines_script total es rest out :
  Forall (fun e => is_line (edit_line e)) es ->
  hunk_lines total (script_old es ++ rest, out) ((script_line <$> es) ++ [""])
  = Ok (rest, out +:+ concat_lines (script_new es)).
Proof.
  revert out. induction es as [|e es IH]; intros out; simpl.
  { intros _. do 2 f_equal. apply bytes_inj. by rewrite bytes_app, app_nil_r. }
  intros [He Hes]%Forall_cons. apply is_line_nonempty in He.
  destruct e as [l|l|l]; simpl in *.
  - rewrite linesEqual_refl. rewrite (bool_decide_eq_false_2 (l = "")) by done. simpl.
    rewrite (IH _ Hes). by rewrite append_assoc.
  - rewrite linesEqual_refl. simpl. by rewrite (IH _ Hes).
  - rewrite (IH _ Hes). by rewrite append_assoc.
Qed.

#[local] Arguments copy_to : simpl never.
#[local] Arguments hunk_lines : simpl never.

Lemma apply_sections total secs tail pos out :
  Forall (fun s => Forall (fun e => is_line (edit_line e)) s.2) secs ->
  total = pos + length (sections_old secs tail) ->
  exists rest out', apply_hunks total (sections_old secs tail, out) (hunks_of pos secs) = Ok (rest, out')
    /\ out' +:+ concat_lines rest = out +:+ concat_lines (sections_new secs tail).
Proof.
  revert pos out. induction secs as [|[gap es] secs IH]; intros pos out; simpl; [eauto|].
  intros [He Hs]%Forall_cons Ht. simpl in He.
  set (r := sections_old secs tail) in *. rewrite !length_app in Ht.
  assert (Hcopy : copy_to total (Z.of_nat (pos + length gap) + 1 - 1) (gap ++ script_old es ++ r, out)
                  = (script_old es ++ r, out +:+ concat_lines gap)).
  { unfold copy_to. rewrite !length_app.
    replace (Z.to_nat _) with (length gap) by lia. by rewrite drop_app_length, take_app_length. }
  rewrite Hcopy. assert (Hb : SplitAfter (script_body es) = (script_line <$> es) ++ [""]).
  { apply SplitAfter_lines, Forall_fmap. eapply Forall_impl; [exact He|]. intros e. apply script_line_is_line. }
  rewrite Hb, hunk_lines_script by done. simpl.
  destruct (IH (pos + length gap + length (script_old es)) ((out +:+ concat_lines gap) +:+ concat_lines (script_new es)) Hs)
    as (rest & out' & E1 & E2).
  { rewrite Ht. fold r. lia. }
  exists rest, out'. split; [exact E1|]. rewrite E2, !concat_lines_app.
  apply bytes_inj. by rewrite !bytes_app, !app_assoc.
Qed.

(** Unified hunks round-trip: for any file of newline-terminated lines and
    any sequence of edited regions separated by untouched lines, applying to the
    old text the hunks that describe the regions (each starting at the line
    number of its region, with one body line per kept, deleted or inserted line)
    yields exactly the new text. *)
Lemma applyHunks_roundtrip secs tail :
  Forall (fun s => Forall is_line s.1 /\ Forall (fun e => is_line (edit_line e)) s.2) secs ->
  Forall is_line tail ->
  applyHunks (concat_lines (sections_old secs tail)) (hunks_of 0 secs)
  = Ok (concat_lines (sections_new secs tail)).
Proof.
  intros Hs Ht. unfold applyHunks.
  assert (Hold : Forall is_line (sections_old secs tail)).
  { clear -Hs Ht. induction Hs as [|[gap es] secs [Hg He] _ IH]; [done|]. simpl in *.
    apply Forall_app. split; [done|]. apply Forall_app. split; [|done].
    clear -He. induction He as [|e es He _ IH]; [done|]. unfold script_old in *.
    destruct e; simpl in *; [by constructor|by constructor|done]. }
  rewrite SplitAfter_lines by done.
  assert (Hso : sections_old secs (tail ++ [""]) = sections_old secs tail ++ [""]).
  { clear. induction secs as [|[gap es] secs IH]; [done|]. simpl. by rewrite IH, !app_assoc. }
  assert (Hsn : concat_lines (sections_new secs (tail ++ [""])) = concat_lines (sections_new secs tail)).
  { clear. induction secs as [|[gap es] secs IH]; simpl.
    - rewrite concat_lines_app. apply bytes_inj. by rewrite bytes_app, app_nil_r.
    - by rewrite !concat_lines_app, IH. }
  rewrite <- Hso.
  destruct (apply_sections (length (sections_old secs (tail ++ [""]))) secs (tail ++ [""]) 0 "") as (rest & out & E1 & E2).
  - eapply Forall_impl; [exact Hs|]. by intros s [_ ?].
  - done.
  - rewrite E1. simpl. by rewrite E2, Hsn.
Qed.

Definition demo_line (s : string) : string := text (bytes s ++ [newline]).

Lemma applyHunks_roundtrip_witness :
  applyHunks (demo_line "a" +:+ demo_line "b" +:+ demo_line "c")
    [mkHunk 2 (String "-" (demo_line "b") +:+ String "+" (demo_line "B"))]
  = Ok (demo_line "a" +:+ demo_line "B" +:+ demo_line "c").
Proof.
  assert (L : forall s, newline ∉ bytes s -> is_line (demo_line s)) by (intros s Hs; by exists (bytes s)).
  refine (applyHunks_roundtrip [([demo_line "a"], [Del (demo_line "b"); Ins (demo_line "B")])] [demo_line "c"] _ _).
  - repeat constructor; apply L; vm_compute; by intros Hin%list_elem_of_singleton.
  - repeat constructor; apply L; vm_compute; by intros Hin%list_elem_of_singleton.
Defined.

(** White space is ignored in the comparison, but a kept line is written as the
    hunk spells it: the file's own spacing is lost. *)
Example context_rewrites_spacing :
  applyHunks (text (bytes_of_nats [9]) +:+ demo_line "x" +:+ demo_line "y")
    [mkHunk 1 (String " " (demo_line "  x") +:+ String "+" (demo_line "z"))]
  = Ok (demo_line "  x" +:+ demo_line "z" +:+ demo_line "y").
Proof. vm_compute. reflexivity. Qed.

(** In the unified format an insertion without context carries the number of the
    line it follows; here it lands before that line. *)
Example insertion_without_context :
  applyHunks (demo_line "a" +:+ demo_line "b") [mkHunk 2 (String "+" (demo_line "x"))]
  = Ok (demo_line "a" +:+ demo_line "x" +:+ demo_line "b").
Proof. vm_compute. reflexivity. Qed.
