(* ===== verification/PatchPath.v ===== *)
(** * Path resolution of the patch tool ([patch/session.go]: [resolvePath] and
    its helpers)

    A patch may only touch files inside its work directory.  The functions of
    the [path] and [path/filepath] packages they use are those of a Unix host;
    the working directory of the process and the two functions of the URL
    library are parameters. *)
From stdpp Require Import base gmap strings list fin_maps numbers sorting.
From Stdlib Require Import ZArith Lia Ascii.
From S2P Require Import Prelude GoStrings.

Open Scope nat_scope.

Definition slash : ascii := "/"%char.
Definition slash_s : string := "/".

(** ** Package [path] on a Unix host *)
Definition IsAbs (p : string) : bool := HasPrefix p slash_s.

(** The stack of elements of a path, innermost last; [rooted] paths have
    nothing above their root. *)
Definition clean_step (rooted : bool) (stack : list string) (c : string) : list string :=
  if bool_decide (c = "") || bool_decide (c = ".") then stack
  else if bool_decide (c = "..") then
    match last stack with
    | Some top => if bool_decide (top = "..") then stack ++ [".."] else take (pred (length stack)) stack
    | None => if rooted then [] else [".."]
    end
  else stack ++ [c].

Definition elements_of (p : string) : list string := foldl (clean_step (IsAbs p)) [] (Split p slash).

Definition render (rooted : bool) (cs : list string) : string :=
  if rooted then slash_s +:+ Join cs slash
  else if bool_decide (cs = []) then "." else Join cs slash.

Definition Clean (p : string) : string := render (IsAbs p) (elements_of p).

(** [Join] of two elements. *)
Definition JoinPath (a b : string) : string :=
  if bool_decide (a = "") then (if bool_decide (b = "") then "" else Clean b)
  else Clean (a +:+ slash_s +:+ b).

Fixpoint strip_common (a b : list string) : list string * list string :=
  match a, b with
  | x :: a', y :: b' => if decide (x = y) then strip_common a' b' else (a, b)
  | _, _ => (a, b)
  end.

Inductive PathError :=
| NoWorkingDirectory
| EmptyPath
| Outside (path directory : string)
| NotRelative (base target : string).

Definition Rel (base target : string) : result PathError string :=
  let b := Clean base in
  let t := Clean target in
  if bool_decide (b = t) then Ok "."
  else if negb (Bool.eqb (IsAbs b) (IsAbs t)) then Err (NotRelative base target)
  else
    let '(bs, ts) := strip_common (elements_of b) (elements_of t) in
    if bool_decide (head bs = Some "..") then Err (NotRelative base target)
    else Ok (Join (((fun _ => "..") <$> bs) ++ ts) slash).

(** ** The resolver *)
Class Host := {
  Getwd : result PathError string;
  (** [afsurl.Base(url, "file")]: base URL and path; [afsurl.Join]. *)
  URLBase : string -> string * string;
  URLJoin : string -> string -> string;
  URLJoin1 : string -> string }.

Definition AbsPath `{Host} (p : string) : result PathError string :=
  if IsAbs p then Ok (Clean p)
  else wd ← Getwd; Ok (JoinPath wd p).

Definition relativePathEscapesBase (value : string) : bool :=
  (fix walk (depth : nat) (segments : list string) : bool :=
     match segments with
     | [] => false
     | s :: segments =>
         if bool_decide (s = "") || bool_decide (s = ".") then walk depth segments
         else if bool_decide (s = "..") then
           match depth with O => true | S d => walk d segments end
         else walk (S depth) segments
     end) 0 (Split value slash).

Definition containsFilesystemPath (base target : string) : bool :=
  match Rel base target with
  | Err _ => false
  | Ok rel =>
      bool_decide (rel = ".")
      || (negb (bool_decide (rel = "..")) && negb (HasPrefix rel "../") && negb (IsAbs rel))
  end.

Definition cleanURLPath (value : string) : string :=
  let clean := Clean (slash_s +:+ TrimPrefix (TrimSpace value) slash_s) in
  if bool_decide (clean = ".") || bool_decide (clean = "") then slash_s else clean.

Definition containsURLPath (base target : string) : bool :=
  let base := cleanURLPath base in
  let target := cleanURLPath target in
  if bool_decide (base = slash_s) then HasPrefix target slash_s
  else bool_decide (target = base) || HasPrefix target (base +:+ slash_s).

Definition local_base (baseURL : string) : bool :=
  bool_decide (baseURL = "file://localhost") || bool_decide (baseURL = "file://").

Section Resolve.
Context `{Host}.

(** The absolute form of the target inside [resolveFilesystemPath], before the
    containment check. *)
Definition filesystem_target (base path directory : string) : result PathError string :=
  if Contains path "://" then
    let '(baseURL, targetPath) := URLBase path in
    if negb (local_base baseURL) then Err (Outside path directory) else Ok (Clean targetPath)
  else if IsAbs path then Ok (Clean path)
  else if relativePathEscapesBase path then Err (Outside path directory)
  else Ok (Clean (JoinPath base path)).

Definition resolveFilesystemPath (path directory : string) : result PathError string :=
  base ← AbsPath (Clean directory);
  target ← filesystem_target base path directory;
  target ← AbsPath target;
  if containsFilesystemPath base target then Ok target else Err (Outside path directory).

Definition url_target (baseURL basePath path directory : string) : result PathError (string * string) :=
  if Contains path "://" then
    let '(targetBaseURL, targetPath) := URLBase path in
    if bool_decide (targetBaseURL = baseURL) then Ok (targetBaseURL, cleanURLPath targetPath)
    else Err (Outside path directory)
  else if IsAbs path then
    if local_base baseURL then Ok (baseURL, cleanURLPath path) else Err (Outside path directory)
  else if relativePathEscapesBase path then Err (Outside path directory)
  else Ok (baseURL, cleanURLPath (JoinPath basePath path)).

Definition resolveURLPath (path directory : string) : result PathError string :=
  let '(baseURL, basePath) := URLBase directory in
  let basePath := cleanURLPath basePath in
  '(targetBaseURL, targetPath) ← url_target baseURL basePath path directory;
  if negb (containsURLPath basePath targetPath) then Err (Outside path directory)
  else if bool_decide (targetPath = slash_s) then Ok (URLJoin1 targetBaseURL)
  else Ok (URLJoin targetBaseURL targetPath).

Definition resolvePath (path directory : string) : result PathError string :=
  let path := TrimSpace path in
  let directory := TrimSpace directory in
  if bool_decide (path = "") then Err EmptyPath
  else if bool_decide (directory = "") then Ok path
  else if Contains directory "://" then resolveURLPath path directory
  else resolveFilesystemPath path directory.
End Resolve.

Example Clean_ex1 : Clean "/a/./b//../c/" = "/a/c". Proof. vm_compute. reflexivity. Qed.
Example Clean_ex2 : Clean "../a/../.." = "../..". Proof. vm_compute. reflexivity. Qed.
Example Clean_ex3 : Clean "/../a" = "/a". Proof. vm_compute. reflexivity. Qed.
Example Rel_ex : Rel "/a/b" "/a/c/d" = Ok "../c/d". Proof. vm_compute. reflexivity. Qed.
Example Rel_ex2 : Rel "/" "/a" = Ok "a". Proof. vm_compute. reflexivity. Qed.

(** ** Elements *)
Definition good (c : string) : Prop := c <> "" /\ c <> "." /\ c <> ".." /\ slash ∉ bytes c.

Lemma Split_no_slash p c : c ∈ Split p slash -> slash ∉ bytes c.
Proof.
  unfold Split. intros (l & -> & Hl)%list_elem_of_fmap.
  pose proof (split_bytes_parts slash (bytes p)) as Hf. rewrite Forall_forall in Hf.
  rewrite bytes_text. by apply Hf.
Qed.

Lemma clean_step_good stack c :
  slash ∉ bytes c -> Forall good stack -> Forall good (clean_step true stack c).
Proof.
  intros Hc Hs. unfold clean_step. destruct (bool_decide (c = "") || bool_decide (c = ".")) eqn:E1; [done|].
  apply orb_false_iff in E1 as [E1 E2]. apply bool_decide_eq_false in E1, E2.
  case_bool_decide as E3.
  - destruct (last stack) as [top|] eqn:El; [|constructor].
    apply last_Some in El as [pre ->]. apply Forall_app in Hs as [Hpre Ht].
    apply Forall_cons in Ht as [(_ & _ & Ht & _) _].
    rewrite bool_decide_eq_false_2 by done. rewrite length_app. simpl.
    rewrite Nat.add_1_r. simpl. by rewrite take_app_length.
  - apply Forall_app. split; [done|]. constructor; [|constructor]. repeat split; done.
Qed.

Lemma foldl_clean_good l stack :
  (forall c, c ∈ l -> slash ∉ bytes c) -> Forall good stack -> Forall good (foldl (clean_step true) stack l).
Proof.
  revert stack. induction l as [|c l IH]; intros stack Hl Hs; [done|]. cbn [foldl].
  apply IH; [intros c' Hc'; apply Hl; by right|]. apply clean_step_good; [apply Hl; by left|done].
Qed.

Lemma elements_of_good p : IsAbs p = true -> Forall good (elements_of p).
Proof.
  intros Ha. unfold elements_of. rewrite Ha. apply foldl_clean_good; [|constructor].
  intros c Hc. by eapply Split_no_slash.
Qed.

Lemma clean_step_push rooted stack c : good c -> clean_step rooted stack c = stack ++ [c].
Proof.
  intros (H1 & H2 & H3 & _). unfold clean_step.
  by rewrite !bool_decide_eq_false_2 by done.
Qed.

Lemma foldl_clean_push rooted stack cs :
  Forall good cs -> foldl (clean_step rooted) stack cs = stack ++ cs.
Proof.
  intros Hf. revert stack. induction Hf as [|c cs Hc _ IH]; intros stack; cbn [foldl].
  - by rewrite app_nil_r.
  - by rewrite clean_step_push, IH, <- app_assoc.
Qed.

Lemma IsAbs_spec p : IsAbs p = true <-> exists r, p = slash_s +:+ r.
Proof. apply HasPrefix_spec. Qed.

Lemma IsAbs_render cs : IsAbs (render true cs) = true.
Proof. apply IsAbs_spec. by exists (Join cs slash). Qed.

Lemma Split_abs r : Split (slash_s +:+ r) slash = "" :: Split r slash.
Proof. unfold Split. rewrite bytes_app. simpl. done. Qed.

Lemma Split_Join_good cs : cs <> [] -> Forall good cs -> Split (Join cs slash) slash = cs.
Proof.
  intros Hne Hf. apply Split_Join; [done|]. eapply Forall_impl; [exact Hf|]. by intros c (_ & _ & _ & ?).
Qed.

Lemma elements_render cs : Forall good cs -> elements_of (render true cs) = cs.
Proof.
  intros Hf. unfold elements_of. rewrite IsAbs_render. unfold render. rewrite Split_abs. cbn [foldl].
  assert (E : clean_step true [] "" = []) by done. rewrite E.
  destruct (decide (cs = [])) as [->|Hne]; [done|].
  by rewrite Split_Join_good, foldl_clean_push.
Qed.

Lemma Clean_abs p : IsAbs p = true -> exists cs, Clean p = render true cs /\ Forall good cs.
Proof. intros Ha. exists (elements_of p). unfold Clean. rewrite Ha. split; [done|by apply elements_of_good]. Qed.

Lemma Clean_render cs : Forall good cs -> Clean (render true cs) = render true cs.
Proof. intros Hf. unfold Clean. by rewrite IsAbs_render, elements_render. Qed.

Lemma render_inj cs ds : Forall good cs -> Forall good ds -> render true cs = render true ds -> cs = ds.
Proof. intros Hc Hd E. by rewrite <- (elements_render cs Hc), <- (elements_render ds Hd), E. Qed.

#[global] Arguments render : simpl never.
#[global] Arguments Clean : simpl never.
#[global] Arguments IsAbs : simpl never.
#[global] Arguments elements_of : simpl never.

(** ** Containment is a prefix of elements *)
Lemma strip_common_spec a b a' b' :
  strip_common a b = (a', b') -> exists p, a = p ++ a' /\ b = p ++ b'
    /\ (a' <> [] -> b' <> [] -> head a' <> head b').
Proof.
  revert b. induction a as [|x a IH]; intros [|y b]; simpl; try (intros [= <- <-]; by exists []).
  case_decide as E; [|intros [= <- <-]; exists []; by repeat split; simpl; congruence].
  intros Hs. destruct (IH _ Hs) as (p & -> & -> & Hh). exists (y :: p). subst. by repeat split.
Qed.

(** A relative path climbs when its first element is [".."]. *)
Lemma climbs_iff cs :
  cs <> [] -> (forall c, c ∈ cs -> c <> "" /\ slash ∉ bytes c) ->
  (Join cs slash = ".." \/ HasPrefix (Join cs slash) "../" = true) <-> head cs = Some "..".
Proof.
  intros Hne Hf.
  assert (Hs : Split (Join cs slash) slash = cs).
  { apply Split_Join; [done|]. apply Forall_forall. intros c Hc. by apply Hf. }
  split.
  - intros [E|E].
    + rewrite E in Hs. vm_compute in Hs. by rewrite <- Hs.
    + apply HasPrefix_spec in E as [r E]. rewrite E in Hs. unfold Split in Hs. rewrite bytes_app in Hs.
      simpl in Hs. by rewrite <- Hs.
  - intros Hh. destruct cs as [|c cs]; [done|]. simpl in Hh. injection Hh as ->.
    destruct cs as [|c' cs]; [by left|right]. apply HasPrefix_spec. exists (Join (c' :: cs) slash).
    unfold Join. cbn [fmap list_fmap join_bytes]. apply bytes_inj.
    by rewrite bytes_app, !bytes_text.
Qed.

Lemma not_abs_join cs : (forall c, c ∈ cs -> c <> "" /\ slash ∉ bytes c) -> IsAbs (Join cs slash) = false.
Proof.
  intros Hf. apply not_true_is_false. intros [r E]%IsAbs_spec.
  destruct cs as [|c cs]; [by vm_compute in E|]. destruct (Hf c) as [Hc _]; [by left|].
  assert (Hs : Split (Join (c :: cs) slash) slash = c :: cs).
  { apply Split_Join; [done|]. apply Forall_forall. intros d Hd. by apply Hf. }
  rewrite E, Split_abs in Hs. by injection Hs as <-.
Qed.

Lemma containsFilesystemPath_spec bs ts :
  Forall good bs -> Forall good ts ->
  containsFilesystemPath (render true bs) (render true ts) = true <-> bs `prefix_of` ts.
Proof.
  intros Hb Ht. unfold containsFilesystemPath, Rel. rewrite !Clean_render by done.
  case_bool_decide as E.
  { apply render_inj in E as ->; [|done|done]. split; [done|]. intros _. by rewrite bool_decide_eq_true_2. }
  rewrite !IsAbs_render. simpl. rewrite !elements_render by done.
  destruct (strip_common bs ts) as [bs' ts'] eqn:Es.
  destruct (strip_common_spec _ _ _ _ Es) as (p & -> & -> & Hh).
  apply Forall_app in Hb as [Hp Hb], Ht as [_ Ht].
  rewrite bool_decide_eq_false_2.
  2: { destruct bs' as [|c bs']; [done|]. apply Forall_cons in Hb as [(_ & _ & Hc & _) _]. simpl. congruence. }
  set (cs := ((fun _ => "..") <$> bs') ++ ts').
  assert (Hcs : forall c, c ∈ cs -> c <> "" /\ slash ∉ bytes c).
  { intros c [(? & -> & _)%list_elem_of_fmap|Hc]%elem_of_app.
    - split; [done|]. vm_compute. set_solver.
    - rewrite Forall_forall in Ht. by destruct (Ht _ Hc) as (? & _ & _ & ?). }
  assert (Hne : cs <> []).
  { intros Hnil. apply app_eq_nil in Hnil as [Hn1 ->]. apply fmap_nil_inv in Hn1 as ->. done. }
  assert (Hdot : Join cs slash <> ".").
  { intros Ed. assert (Hs : Split (Join cs slash) slash = cs).
    { apply Split_Join; [done|]. apply Forall_forall. intros c Hc. by apply Hcs. }
    rewrite Ed in Hs. vm_compute in Hs. unfold cs in Hs. destruct bs' as [|b bs']; [|done].
    simpl in Hs. rewrite <- Hs in Ht. by apply Forall_cons in Ht as [(_ & ? & _) _]. }
  rewrite (bool_decide_eq_false_2 (Join cs slash = ".")) by done.
  rewrite (not_abs_join cs Hcs). simpl. rewrite andb_true_r, andb_true_iff, !negb_true_iff, bool_decide_eq_false.
  pose proof (climbs_iff cs Hne Hcs) as Hclimb.
  destruct bs' as [|b bs'].
  - split; [intros _; exists ts'; by rewrite <- app_assoc|]. intros _.
    assert (Hh' : head cs <> Some "..").
    { unfold cs. simpl. destruct ts' as [|t ts']; [done|]. apply Forall_cons in Ht as [(_ & _ & ? & _) _].
      simpl. congruence. }
    split; [intros Eq; apply Hh', Hclimb; by left|]. apply not_true_is_false. intros Eq. apply Hh', Hclimb. by right.
  - split.
    + intros [H1 H2]. assert (Hd : head cs = Some "..") by done. apply Hclimb in Hd as [?|?]; congruence.
    + intros [k Hk]. rewrite <- app_assoc in Hk. apply app_inv_head in Hk.
      destruct ts' as [|t ts']; [done|]. simpl in Hk. injection Hk as -> _.
      by destruct (Hh ltac:(done) ltac:(done)).
Qed.

(** ** The resolver never leaves the work directory *)
Section Resolution.
Context `{Host}.

(** [Getwd] returns an absolute path when it succeeds. *)
Definition wd_absolute : Prop := forall wd, Getwd = Ok wd -> IsAbs wd = true.

Lemma IsAbs_app a b : IsAbs a = true -> IsAbs (a +:+ b) = true.
Proof.
  intros [r ->]%IsAbs_spec. apply IsAbs_spec. exists (r +:+ b). apply bytes_inj. by rewrite !bytes_app, app_assoc.
Qed.

Lemma JoinPath_abs a b : IsAbs a = true -> exists cs, JoinPath a b = render true cs /\ Forall good cs.
Proof.
  intros Ha. unfold JoinPath. rewrite bool_decide_eq_false_2 by (by intros ->).
  apply Clean_abs. by apply IsAbs_app.
Qed.

Lemma AbsPath_good p t : wd_absolute -> AbsPath p = Ok t -> exists cs, t = render true cs /\ Forall good cs.
Proof.
  intros Hwd. unfold AbsPath. destruct (IsAbs p) eqn:Ea.
  - intros [= <-]. by apply Clean_abs.
  - destruct Getwd as [wd|] eqn:Ew; [|done]. simpl. intros [= <-]. apply JoinPath_abs. by apply Hwd.
Qed.

(** A path the patch tool resolves against a local work directory always
    lies inside it: the result is the work directory's absolute path followed by
    further elements, none of them empty, a dot or a double dot — whatever the
    path was: relative, absolute, a file URL, or with any mixture of dots. *)
Lemma resolveFilesystemPath_contained path directory t :
  wd_absolute ->
  resolveFilesystemPath path directory = Ok t ->
  exists bs rel, AbsPath (Clean directory) = Ok (render true bs)
    /\ t = render true (bs ++ rel) /\ Forall good (bs ++ rel).
Proof.
  intros Hwd. unfold resolveFilesystemPath.
  destruct (AbsPath (Clean directory)) as [base|] eqn:Eb; [|done]. simpl.
  destruct (AbsPath_good _ _ Hwd Eb) as (bs & -> & Hb).
  destruct (filesystem_target (render true bs) path directory) as [t1|] eqn:E1; [|done]. simpl.
  destruct (AbsPath t1) as [t2|] eqn:E2; [|done]. simpl.
  destruct (AbsPath_good _ _ Hwd E2) as (ts & -> & Ht).
  destruct (containsFilesystemPath (render true bs) (render true ts)) eqn:Ec; [|done]. intros [= <-].
  apply containsFilesystemPath_spec in Ec as [rel ->]; [|done|done]. by exists bs, rel.
Qed.

(** The walk over a relative path: [stack] has no [".."], so its length is the
    depth of the code. *)
Fixpoint escapes_from (depth : nat) (segments : list string) : bool :=
  match segments with
  | [] => false
  | s :: segments =>
      if bool_decide (s = "") || bool_decide (s = ".") then escapes_from depth segments
      else if bool_decide (s = "..") then
        match depth with O => true | S d => escapes_from d segments end
      else escapes_from (S depth) segments
  end.

Lemma relativePathEscapesBase_eq value :
  relativePathEscapesBase value = escapes_from 0 (Split value slash).
Proof.
  unfold relativePathEscapesBase. generalize 0. generalize (Split value slash). intros l.
  induction l as [|s l IH]; intros d; [done|]. simpl. rewrite !IH.
  destruct (bool_decide (s = "") || bool_decide (s = ".")); [done|].
  destruct (bool_decide (s = "..")); [|done]. destruct d; [done|]. by rewrite IH.
Qed.

Lemma walk_inside base segments stack rooted :
  (forall c, c ∈ segments -> slash ∉ bytes c) -> Forall good stack ->
  escapes_from (length stack) segments = false ->
  exists stack', Forall good stack'
    /\ foldl (clean_step true) (base ++ stack) segments = base ++ stack'
    /\ foldl (clean_step rooted) stack segments = stack'.
Proof.
  revert stack. induction segments as [|s segments IH]; intros stack Hs Hst; cbn [escapes_from foldl].
  { intros _. by exists stack. }
  assert (Hs' : forall c, c ∈ segments -> slash ∉ bytes c) by (intros c Hc; apply Hs; by right).
  destruct (bool_decide (s = "") || bool_decide (s = ".")) eqn:E1.
  { intros He. assert (E : forall b st, clean_step b st s = st) by (intros; unfold clean_step; by rewrite E1).
    rewrite !E. by apply IH. }
  destruct (bool_decide (s = "..")) eqn:E2; [apply bool_decide_eq_true in E2|apply bool_decide_eq_false in E2].
  - destruct stack as [|x stack] using rev_ind; [done|]. clear IHstack. rewrite length_app, Nat.add_1_r.
    intros He. apply Forall_app in Hst as [Hst (_ & _ & Hx & _)%Forall_singleton].
    assert (Estep : forall b pre, clean_step b (pre ++ [x]) s = pre).
    { intros b pre. unfold clean_step. rewrite E1, (bool_decide_eq_true_2 (s = "..")) by done.
      rewrite last_snoc, bool_decide_eq_false_2 by done. rewrite length_app, Nat.add_1_r. simpl.
      by rewrite take_app_length. }
    rewrite app_assoc, !Estep. by apply IH.
  - intros He. apply orb_false_iff in E1 as [E3 E4]. apply bool_decide_eq_false in E3, E4.
    assert (Hg : good s) by (repeat split; [done..|]; apply Hs; by left).
    rewrite !clean_step_push, <- app_assoc by done. apply IH; [done| |].
    + apply Forall_app. split; [done|by constructor].
    + by rewrite length_app, Nat.add_1_r.
Qed.

Lemma Split_join_slash a b : Split (a +:+ slash_s +:+ b) slash = Split a slash ++ Split b slash.
Proof.
  unfold Split. rewrite !bytes_app. simpl. rewrite <- fmap_app. f_equal.
  induction (bytes a) as [|c l IH]; simpl; [done|].
  case_decide; [by rewrite IH|]. rewrite IH.
  by destruct (split_bytes slash l) eqn:E; [destruct (split_bytes_nonempty slash l)|].
Qed.

(** A relative patch path is accepted exactly when it never climbs above the
    work directory, at any point of the walk along it, and it then resolves to
    the work directory followed by its own normalised elements; one that climbs
    is refused as outside, even when it would come back in. *)
Lemma resolveFilesystemPath_relative path directory bs :
  Contains path "://" = false -> IsAbs path = false ->
  AbsPath (Clean directory) = Ok (render true bs) -> Forall good bs ->
  (relativePathEscapesBase path = false ->
     resolveFilesystemPath path directory = Ok (render true (bs ++ elements_of path)))
  /\ (relativePathEscapesBase path = true ->
     resolveFilesystemPath path directory = Err (Outside path directory)).
Proof.
  intros Hu Ha Hb Hg. unfold resolveFilesystemPath. rewrite Hb. simpl.
  unfold filesystem_target. rewrite Hu, Ha. split; intros He; rewrite He; [|done]. simpl.
  rewrite relativePathEscapesBase_eq in He.
  destruct (walk_inside bs (Split path slash) [] false) as (st & Hst & E1 & E2).
  { intros c Hc. by eapply Split_no_slash. } { constructor. } { exact He. }
  assert (Hel : elements_of path = st) by (unfold elements_of; by rewrite Ha).
  assert (Hj : JoinPath (render true bs) path = render true (bs ++ st)).
  { unfold JoinPath. rewrite bool_decide_eq_false_2.
    2: { intros E. pose proof (IsAbs_render bs) as Hx. by rewrite E in Hx. }
    unfold Clean. assert (IsAbs (render true bs +:+ slash_s +:+ path) = true) as Hx
      by (apply IsAbs_app, IsAbs_render).
    rewrite Hx. f_equal. unfold elements_of. rewrite Hx, Split_join_slash, foldl_app.
    pose proof (elements_render bs Hg) as Hr. unfold elements_of in Hr. rewrite IsAbs_render in Hr.
    rewrite Hr. by rewrite app_nil_r in E1. }
  assert (Hgs : Forall good (bs ++ st)) by (by apply Forall_app).
  rewrite Hj, Clean_render by done. simpl.
  rewrite Clean_render by done. rewrite Hel.
  rewrite (proj2 (containsFilesystemPath_spec bs (bs ++ st) Hg Hgs)); [done|by exists st].
Qed.

(** ** URL work directories *)
Lemma cleanURLPath_good v : exists cs, cleanURLPath v = render true cs /\ Forall good cs.
Proof.
  unfold cleanURLPath. destruct (Clean_abs (slash_s +:+ TrimPrefix (TrimSpace v) slash_s)) as (cs & E & Hg).
  { apply IsAbs_spec. eauto. }
  rewrite E. exists cs. split; [|done]. rewrite !bool_decide_eq_false_2; [done|..].
  - intros Ed. pose proof (IsAbs_render cs) as Hx. by rewrite Ed in Hx.
  - intros Ed. pose proof (IsAbs_render cs) as Hx. by rewrite Ed in Hx.
Qed.

Lemma cleanURLPath_render cs :
  Forall good cs -> TrimSpace (render true cs) = render true cs -> cleanURLPath (render true cs) = render true cs.
Proof.
  intros Hg Ht. unfold cleanURLPath. rewrite Ht.
  assert (E : TrimPrefix (render true cs) slash_s = Join cs slash).
  { unfold TrimPrefix, render. rewrite bytes_app. simpl.
    destruct (decide (slash = "/"%char)); [by rewrite text_bytes|done]. }
  rewrite E. change (slash_s +:+ Join cs slash) with (render true cs). rewrite Clean_render by done.
  pose proof (IsAbs_render cs) as Hx.
  rewrite !bool_decide_eq_false_2; [done|..]; intros Ed; by rewrite Ed in Hx.
Qed.

Lemma render_nil_iff cs : Forall good cs -> render true cs = slash_s <-> cs = [].
Proof.
  intros Hg. split; [|by intros ->]. intros E. apply (render_inj cs []); [done|constructor|done].
Qed.

Lemma Split_prefix_elements bs ts :
  bs <> [] -> Forall good bs -> Forall good ts ->
  HasPrefix (render true ts) (render true bs +:+ slash_s) = true -> bs `prefix_of` ts.
Proof.
  intros Hne Hb Ht [r E]%HasPrefix_spec.
  assert (Hs : Split (render true ts) slash = Split (render true bs) slash ++ Split r slash).
  { rewrite E, <- Split_join_slash. f_equal. apply bytes_inj. by rewrite !bytes_app, app_assoc. }
  unfold render in Hs. rewrite !Split_abs in Hs. rewrite (Split_Join_good bs) in Hs by done.
  destruct (decide (ts = [])) as [->|Hnt].
  - vm_compute in Hs. destruct bs as [|b bs]; [done|]. injection Hs as <- _.
    by apply Forall_cons in Hb as [(? & _) _].
  - rewrite Split_Join_good in Hs by done. injection Hs as ->. by exists (Split r slash).
Qed.

#[local] Arguments cleanURLPath : simpl never.
#[local] Arguments containsURLPath : simpl never.
#[local] Arguments url_target : simpl never.

(** With a URL work directory the result is on the same base URL, and —
    as long as the cleaned paths do not end in white space, which the containment
    test trims away — below the cleaned path of the work directory. *)
Lemma resolveURLPath_contained path directory u :
  resolveURLPath path directory = Ok u ->
  exists bs ts,
    cleanURLPath (URLBase directory).2 = render true bs /\ Forall good bs /\ Forall good ts
    /\ u = (if bool_decide (render true ts = slash_s) then URLJoin1 (URLBase directory).1
            else URLJoin (URLBase directory).1 (render true ts))
    /\ (TrimSpace (render true bs) = render true bs -> TrimSpace (render true ts) = render true ts ->
        bs `prefix_of` ts).
Proof.
  unfold resolveURLPath. destruct (URLBase directory) as [baseURL basePath]. cbn [fst snd].
  destruct (cleanURLPath_good basePath) as (bs & -> & Hb).
  destruct (url_target baseURL (render true bs) path directory) as [[tb tp]|] eqn:Et; [|done]. cbn.
  assert (Ht : tb = baseURL /\ exists ts, tp = render true ts /\ Forall good ts).
  { unfold url_target in Et. destruct (Contains path "://").
    - destruct (URLBase path) as [tb' tp']. case_bool_decide; [|done]. injection Et as <- <-.
      split; [done|apply cleanURLPath_good].
    - destruct (IsAbs path).
      + destruct (local_base baseURL); [|done]. injection Et as <- <-. split; [done|apply cleanURLPath_good].
      + destruct (relativePathEscapesBase path); [done|]. injection Et as <- <-.
        split; [done|apply cleanURLPath_good]. }
  destruct Ht as [-> (ts & -> & Hts)].
  destruct (containsURLPath (render true bs) (render true ts)) eqn:Ec; [|done]. cbn [negb]. intros Hu.
  exists bs, ts. split; [done|]. split; [done|]. split; [done|]. split.
  { by case_bool_decide; injection Hu as <-. }
  intros Hb' Ht'. unfold containsURLPath in Ec. rewrite !cleanURLPath_render in Ec by done.
  destruct (decide (render true bs = slash_s)) as [E0|E0].
  { apply render_nil_iff in E0 as ->; [apply prefix_nil|done]. }
  rewrite (bool_decide_eq_false_2 (render true bs = slash_s)) in Ec by done. apply orb_true_iff in Ec as [Ec|Ec].
  - apply bool_decide_eq_true in Ec. by apply render_inj in Ec as ->.
  - apply Split_prefix_elements; try done. intros ->. by apply E0.
Qed.
End Resolution.


(** ** Concrete hosts *)
Definition demo_host : Host := {|
  Getwd := Ok "/home";
  URLBase := fun u => ("mem://localhost", TrimPrefix u "mem://localhost");
  URLJoin := fun b p => b +:+ p;
  URLJoin1 := fun b => b +:+ "/" |}.

Lemma resolveFilesystemPath_contained_witness :
  exists t bs rel, resolveFilesystemPath (H := demo_host) "a/./b/../c" "work" = Ok t
    /\ AbsPath (H := demo_host) (Clean "work") = Ok (render true bs) /\ t = render true (bs ++ rel).
Proof.
  destruct (resolveFilesystemPath (H := demo_host) "a/./b/../c" "work") as [t|] eqn:E; [|vm_compute in E; discriminate E].
  destruct (resolveFilesystemPath_contained (H := demo_host) "a/./b/../c" "work" t) as (bs & rel & H1 & H2 & _).
  { intros wd [= <-]. vm_compute. reflexivity. } { exact E. }
  by exists t, bs, rel.
Defined.

Lemma resolveFilesystemPath_relative_witness :
  resolveFilesystemPath (H := demo_host) "x/../../work/y" "/work" = Err (Outside "x/../../work/y" "/work")
  /\ resolveFilesystemPath (H := demo_host) "x/../y" "/work" = Ok (render true ["work"; "y"]).
Proof.
  assert (G : Forall good (elements_of "/work")) by exact (elements_of_good "/work" eq_refl).
  pose proof (resolveFilesystemPath_relative (H := demo_host) "x/../../work/y" "/work" (elements_of "/work")
    ltac:(vm_compute; reflexivity) ltac:(vm_compute; reflexivity) ltac:(vm_compute; reflexivity) G) as [_ H1].
  pose proof (resolveFilesystemPath_relative (H := demo_host) "x/../y" "/work" (elements_of "/work")
    ltac:(vm_compute; reflexivity) ltac:(vm_compute; reflexivity) ltac:(vm_compute; reflexivity) G) as [H2 _].
  split; [apply H1; vm_compute; reflexivity|].
  rewrite H2 by (vm_compute; reflexivity). vm_compute. reflexivity.
Defined.

Lemma resolveURLPath_contained_witness :
  exists u bs ts, resolveURLPath (H := demo_host) "a/b" "mem://localhost/w" = Ok u
    /\ cleanURLPath "/w" = render true bs
    /\ (TrimSpace (render true bs) = render true bs -> TrimSpace (render true ts) = render true ts ->
        bs `prefix_of` ts).
Proof.
  destruct (resolveURLPath (H := demo_host) "a/b" "mem://localhost/w") as [u|] eqn:E; [|vm_compute in E; discriminate E].
  destruct (resolveURLPath_contained (H := demo_host) "a/b" "mem://localhost/w" u E) as (bs & ts & H1 & _ & _ & _ & H5).
  exists u, bs, ts. exact (conj eq_refl (conj H1 H5)).
Defined.

(** The containment test trims: a sibling of the work directory whose name is
    the directory's followed by a space is accepted. *)
Example trailing_space_escapes :
  resolveURLPath (H := demo_host) "mem://localhost/w /." "mem://localhost/w" = Ok "mem://localhost/w ".
Proof. vm_compute. reflexivity. Qed.
