(* ===== verification/PatchSession.v ===== *)
(** * Patch session ([protocol/tool/service/system/patch]: [session.go],
    [snapshot.go], [diff.go])

    A session stages file changes: every operation changes the store at once and
    records in a [changeEntry] what a rollback needs.  The store, the URL
    functions and the diff library are parameters ([AFS], [Host], [Difflib]). *)
From stdpp Require Import base gmap strings list fin_maps numbers pretty sorting.
From Stdlib Require Import ZArith Lia Ascii.
From S2P Require Import Prelude GoStrings PatchLines PatchPath.

Open Scope nat_scope.

(** ** The libraries the session calls *)

(** [afs.Service]: the errors are the messages of the Go errors. *)
Class AFS := {
  World : Type;
  Exists : string -> World -> result string bool;
  DownloadWithURL : string -> World -> result string string;
  Upload : string -> string -> World -> option string * World;
  CreateDir : string -> World -> option string * World;
  DeleteURL : string -> World -> option string * World;
  MoveURL : string -> string -> World -> option string * World;
  (** The first result of [afsurl.Split(url, file.Scheme)]. *)
  URLParent : string -> string }.

(** [difflib.SplitLines] and [difflib.GetUnifiedDiffString]. *)
Class Difflib := {
  SplitLines : string -> list string;
  GetUnifiedDiffString :
    list string -> list string -> string -> string -> Z -> result string string }.

(** ** Diffs ([diff.go]) *)
Record DiffStats := { Added : nat; Removed : nat }.

Definition count_line (st : DiffStats) (line : string) : DiffStats :=
  if HasPrefix line "+" && negb (HasPrefix line "+++") then {| Added := S (Added st); Removed := Removed st |}
  else if HasPrefix line "-" && negb (HasPrefix line "---") then {| Added := Added st; Removed := S (Removed st) |}
  else st.

(** [patchStats] of [registry.go]; [GenerateDiff] runs the same loop. *)
Definition patchStats (p : string) : DiffStats :=
  foldl count_line {| Added := 0; Removed := 0 |} (Split p newline).

Definition GenerateDiff `{Difflib} (oldContent newContent filePath : string) (contextLines : Z)
  : result string (string * DiffStats) :=
  let contextLines := if (contextLines <=? 0)%Z then 3%Z else contextLines in
  if bool_decide (oldContent = newContent) then Ok ("", {| Added := 0; Removed := 0 |})
  else
    patch ← GetUnifiedDiffString (SplitLines oldContent) (SplitLines newContent)
              (filePath +:+ " (original)") (filePath +:+ " (modified)") contextLines;
    Ok (patch, patchStats patch).

(** ** State *)
Inductive Kind := NoKind | KCreate | KUpdated | KDelete.
#[export] Instance Kind_eq_dec : EqDecision Kind.
Proof. solve_decision. Defined.

Record changeEntry := mkEntry {
  kind : Kind; orig : string; url : string; backup : string; alive : bool; diff : string }.

(** Entries are shared through pointers: a pointer is the entry's position in
    [order]. *)
Record Session := mkSession {
  tempDir : string;
  changes : list nat;
  byCurrent : gmap string nat;
  byOrigin : gmap string nat;
  order : list changeEntry;
  committed : bool }.

Definition NewSessionState (tempDir : string) : Session := mkSession tempDir [] ∅ ∅ [] false.

Definition set_kind (k : Kind) (e : changeEntry) := mkEntry k (orig e) (url e) (backup e) (alive e) (diff e).
Definition set_orig (o : string) (e : changeEntry) := mkEntry (kind e) o (url e) (backup e) (alive e) (diff e).
Definition set_url (u : string) (e : changeEntry) := mkEntry (kind e) (orig e) u (backup e) (alive e) (diff e).
Definition set_backup (b : string) (e : changeEntry) := mkEntry (kind e) (orig e) (url e) b (alive e) (diff e).
Definition set_alive (a : bool) (e : changeEntry) := mkEntry (kind e) (orig e) (url e) (backup e) a (diff e).
Definition set_diff (d : string) (e : changeEntry) := mkEntry (kind e) (orig e) (url e) (backup e) (alive e) d.

Definition upd (i : nat) (f : changeEntry -> changeEntry) (s : Session) : Session :=
  mkSession (tempDir s) (changes s) (byCurrent s) (byOrigin s) (alter f i (order s)) (committed s).
Definition set_current (m : gmap string nat) (s : Session) : Session :=
  mkSession (tempDir s) (changes s) m (byOrigin s) (order s) (committed s).
Definition set_origin (m : gmap string nat) (s : Session) : Session :=
  mkSession (tempDir s) (changes s) (byCurrent s) m (order s) (committed s).
(** Commit and rollback drop all tracking. *)
Definition reset (c : bool) (s : Session) : Session := mkSession (tempDir s) [] ∅ ∅ [] c.

Definition entry_of (s : Session) (i : nat) : changeEntry :=
  default (mkEntry NoKind "" "" "" false "") (order s !! i).

(** ** Tracking ([snapshot.go]) *)

(** A key of the two maps; the empty string is never looked up or stored. *)
Definition find (m : gmap string nat) (k : string) : option nat :=
  if bool_decide (k = "") then None else m !! k.
Definition store (m : gmap string nat) (k : string) (i : nat) : gmap string nat :=
  if bool_decide (k = "") then m else <[k := i]> m.

Definition ensureEntry (orig url : string) (s : Session) : nat * Session :=
  match find (byCurrent s) url with
  | Some i => (i, s)
  | None =>
      match find (byOrigin s) orig with
      | Some i => (i, s)
      | None =>
          let i := length (order s) in
          (i, mkSession (tempDir s) (changes s ++ [i]) (store (byCurrent s) url i) (store (byOrigin s) orig i)
                (order s ++ [mkEntry NoKind orig url "" true ""]) (committed s))
      end
  end.

Section Ops.
Context `{AFS, Difflib, Host}.

Definition data_of (r : result string string) : string := match r with Ok d => d | Err _ => "" end.
Definition diff_of (r : result string (string * DiffStats)) : string := match r with Ok (d, _) => d | Err _ => "" end.

Definition trackAdd (w : World) (path : string) (s : Session) : Session :=
  let '(i, s) := match byCurrent s !! path with Some i => (i, s) | None => ensureEntry "" path s end in
  let newData := data_of (DownloadWithURL path w) in
  upd i (fun e => set_diff (diff_of (GenerateDiff "" newData path 3)) (set_alive true (set_kind KCreate e))) s.

(** [if e.orig == "" && e.kind != "create"], shared by the trackers. *)
Definition adopt_orig (i : nat) (path : string) (s : Session) : Session :=
  set_origin (<[path := i]> (byOrigin s)) (upd i (set_orig path) s).

Definition trackMove (src dst : string) (s : Session) : Session :=
  match byCurrent s !! src with
  | None =>
      let '(i, s) := ensureEntry src dst s in
      upd i (fun e => set_diff "" (set_alive true (set_kind KUpdated e))) s
  | Some i =>
      let s := set_current (<[dst := i]> (delete src (byCurrent s))) (upd i (set_url dst) s) in
      let s := upd i (fun e => if decide (kind e = NoKind) then set_kind KUpdated e else e) s in
      if bool_decide (orig (entry_of s i) = "") && negb (bool_decide (kind (entry_of s i) = KCreate))
      then adopt_orig i src s else s
  end.

Definition trackUpdate (w : World) (path backup' : string) (s : Session) : Session :=
  let '(i, s) := match byCurrent s !! path with Some i => (i, s) | None => ensureEntry path path s end in
  let s := upd i (fun e => if decide (kind e <> KCreate /\ backup e = "") then set_backup backup' e else e) s in
  let s := upd i (fun e => if decide (kind e = NoKind) then set_kind KUpdated e else e) s in
  let s := if bool_decide (orig (entry_of s i) = "") && negb (bool_decide (kind (entry_of s i) = KCreate))
           then adopt_orig i path s else s in
  let s := upd i (fun e => set_alive true (set_url path e)) s in
  let oldData := if bool_decide (backup (entry_of s i) = "") then ""
                 else data_of (DownloadWithURL (backup (entry_of s i)) w) in
  let newData := data_of (DownloadWithURL path w) in
  upd i (set_diff (diff_of (GenerateDiff oldData newData path 3))) s.

(** The part of [trackDelete] after the create-then-delete case. *)
Definition track_delete_entry (w : World) (path backup' : string) (i : nat) (s : Session) : Session :=
  let s := upd i (fun e => if bool_decide (backup e = "") then set_backup backup' e else e) s in
  let s := if bool_decide (orig (entry_of s i) = "") then adopt_orig i path s else s in
  let s := upd i (fun e => set_alive true (set_url "" (set_kind KDelete e))) s in
  let oldData := data_of (DownloadWithURL backup' w) in
  upd i (set_diff (diff_of (GenerateDiff oldData "" path 3))) s.

Definition trackDelete (w : World) (path backup' : string) (s : Session) : Session :=
  match byCurrent s !! path with
  | Some i =>
      if decide (kind (entry_of s i) = KCreate) then
        let o := orig (entry_of s i) in
        let s := set_current (delete path (byCurrent s)) (upd i (set_alive false) s) in
        if bool_decide (o = "") then s else set_origin (delete o (byOrigin s)) s
      else track_delete_entry w path backup' i s
  | None => let '(i, s) := ensureEntry path "" s in track_delete_entry w path backup' i s
  end.

(** ** Operations ([session.go])

  An operation runs under the session's mutex: it takes the session and the
  store and returns them changed, also when it fails. *)
Inductive RollbackError :=
| RollbackDelete (url msg : string)
| RollbackMove (url orig msg : string)
| RollbackReadBackup (backup msg : string)
| RollbackMkdir (parent msg : string)
| RollbackRestore (orig msg : string)
| RollbackCleanup (msg : string).

Inductive SessionError :=
| AlreadyCommitted
| StoreError (msg : string)
(** [fmt.Errorf("delete: %w", err)], where [err] is nil for a missing file. *)
| DeleteFailed (cause : option SessionError)
| OldTextEmpty
| OldAndNewIdentical
| ReplaceMissingFile (path : string)
| OldTextNotFound (path : string)
| ExpectedNegative
| OccurrencesMismatch (expected : Z) (found : nat) (path : string)
| AmbiguousReplace (found : nat) (path : string)
| DiffFailed (msg : string)
| RollbackErrors (errs : list RollbackError)
| CommitCleanup (msg : string)
| ChangeNotFound (url : string).

Record St := mkSt { sess : Session; store_of : World }.

(** A program of the session: it runs on a state and ends with a value or an
    error of type [E]. *)
Definition Prog (E A : Type) : Type := St -> result E A * St.
Notation Op := (Prog SessionError).

#[export] Instance Prog_ret {E} : MRet (Prog E) := fun A a st => (Ok a, st).
#[export] Instance Prog_bind {E} : MBind (Prog E) := fun A B k m st =>
  match m st with
  | (Ok a, st') => k a st'
  | (Err e, st') => (Err e, st')
  end.

Definition fail {E A} (e : E) : Prog E A := fun st => (Err e, st).
Definition read {A} (r : World -> result string A) : Op A := fun st =>
  (match r (store_of st) with Ok a => Ok a | Err msg => Err (StoreError msg) end, st).
Definition write (f : World -> option string * World) : Op () := fun st =>
  let '(err, w) := f (store_of st) in
  (match err with None => Ok tt | Some msg => Err (StoreError msg) end, mkSt (sess st) w).
Definition track (f : World -> Session -> Session) : Op () := fun st =>
  (Ok tt, mkSt (f (store_of st) (sess st)) (store_of st)).
(** The errors of [m] wrapped by [f]. *)
Definition wrap {E E' A} (f : E -> E') (m : Prog E A) : Prog E' A := fun st =>
  match m st with (Ok a, st') => (Ok a, st') | (Err e, st') => (Err (f e), st') end.

Definition assertActive : Op () := fun st =>
  if committed (sess st) then (Err AlreadyCommitted, st) else (Ok tt, st).

Definition backup_name (path : string) (now : Z) : string :=
  TrimPrefix path slash_s +:+ "." +:+ pretty now +:+ ".bak".

Definition backup_dst (s : Session) (path : string) (now : Z) : string :=
  URLJoin (tempDir s) (backup_name path now).

Definition backup_op (now : Z) (path : string) : Op string := fun st =>
  (data ← read (DownloadWithURL path);
   let dst := backup_dst (sess st) path now in
   _ ← write (CreateDir (URLParent dst));
   _ ← write (Upload dst data);
   mret dst) st.

Definition Delete (now : Z) (path : string) : Op () :=
  wrap (fun e => DeleteFailed (Some e)) assertActive ≫= fun _ =>
  wrap (fun e => DeleteFailed (Some e)) (read (Exists path)) ≫= fun exists' =>
  if negb exists' then fail (DeleteFailed None) else
  wrap (fun e => DeleteFailed (Some e)) (backup_op now path) ≫= fun b =>
  wrap (fun e => DeleteFailed (Some e)) (write (DeleteURL path)) ≫= fun _ =>
  track (fun w => trackDelete w path b).

Definition Move (src dst : string) : Op () :=
  assertActive ≫= fun _ =>
  read (Exists src) ≫= fun exists' =>
  if negb exists' then mret tt else
  write (CreateDir (URLParent dst)) ≫= fun _ =>
  write (MoveURL src dst) ≫= fun _ =>
  track (fun _ => trackMove src dst).

Definition Update (now : Z) (path newData : string) : Op () :=
  assertActive ≫= fun _ =>
  read (Exists path) ≫= fun exists' =>
  if negb exists' then mret tt else
  backup_op now path ≫= fun b =>
  write (Upload path newData) ≫= fun _ =>
  track (fun w => trackUpdate w path b).

Definition Add (path data : string) : Op () :=
  assertActive ≫= fun _ =>
  write (CreateDir (URLParent path)) ≫= fun _ =>
  write (Upload path data) ≫= fun _ =>
  track (fun w => trackAdd w path).

(** The checks of [Replace] on the file's content. *)
Definition check_occurrences (path : string) (occurrences : nat) (replaceAll : bool) (expected : Z)
  : option SessionError :=
  if occurrences =? 0 then Some (OldTextNotFound path)
  else if (expected <? 0)%Z then Some ExpectedNegative
  else if ((0 <? expected) && negb (Z.of_nat occurrences =? expected))%Z%bool
  then Some (OccurrencesMismatch expected occurrences path)
  else if negb replaceAll && negb (occurrences =? 1) then Some (AmbiguousReplace occurrences path)
  else None.

Definition ReplaceText (now : Z) (path oldText newText : string) (replaceAll : bool) (expected : Z)
  : Op (nat * DiffStats) :=
  assertActive ≫= fun _ =>
  if bool_decide (oldText = "") then fail OldTextEmpty
  else if bool_decide (oldText = newText) then fail OldAndNewIdentical else
  read (Exists path) ≫= fun exists' =>
  if negb exists' then fail (ReplaceMissingFile path) else
  read (DownloadWithURL path) ≫= fun oldContent =>
  let occurrences := Count oldContent oldText in
  match check_occurrences path occurrences replaceAll expected with
  | Some e => fail e
  | None =>
      let newContent := Replace oldContent oldText newText (if replaceAll then None else Some 1) in
      match GenerateDiff oldContent newContent path 3 with
      | Err msg => fail (DiffFailed msg)
      | Ok (_, stats) =>
          backup_op now path ≫= fun b =>
          write (Upload path newContent) ≫= fun _ =>
          track (fun w => trackUpdate w path b) ≫= fun _ =>
          mret (if replaceAll then occurrences else 1, stats)
      end
  end.

(** *** Rollback *)
Definition restore (e : changeEntry) (w : World) : list RollbackError * World :=
  if bool_decide (backup e = "") || bool_decide (orig e = "") then ([], w) else
  match DownloadWithURL (backup e) w with
  | Err msg => ([RollbackReadBackup (backup e) msg], w)
  | Ok data =>
      match CreateDir (URLParent (orig e)) w with
      | (Some msg, w) => ([RollbackMkdir (URLParent (orig e)) msg], w)
      | (None, w) =>
          match Upload (orig e) data w with
          | (Some msg, w) => ([RollbackRestore (orig e) msg], w)
          | (None, w) => ([], w)
          end
      end
  end.

Definition move_back (e : changeEntry) (w : World) : list RollbackError * World :=
  if negb (bool_decide (url e = "")) && negb (bool_decide (orig e = "")) && negb (bool_decide (url e = orig e)) then
    match Exists (url e) w with
    | Ok true =>
        match MoveURL (url e) (orig e) w with
        | (Some msg, w) => ([RollbackMove (url e) (orig e) msg], w)
        | (None, w) => ([], w)
        end
    | _ => ([], w)
    end
  else ([], w).

Definition rollback_entry (e : changeEntry) (w : World) : list RollbackError * World :=
  if negb (alive e) then ([], w) else
  match kind e with
  | NoKind => ([], w)
  | KCreate =>
      if bool_decide (url e = "") then ([], w) else
      match DeleteURL (url e) w with
      | (Some msg, w) => (if Contains (ToLower msg) "not found" then [] else [RollbackDelete (url e) msg], w)
      | (None, w) => ([], w)
      end
  | KUpdated =>
      let '(errs1, w) := move_back e w in
      let '(errs2, w) := restore e w in
      (errs1 ++ errs2, w)
  | KDelete => restore e w
  end.

(** [es] is the order in which the entries are undone. *)
Fixpoint rollback_entries (es : list changeEntry) (w : World) : list RollbackError * World :=
  match es with
  | [] => ([], w)
  | e :: es =>
      let '(errs, w) := rollback_entry e w in
      let '(errs', w) := rollback_entries es w in
      (errs ++ errs', w)
  end.

Definition Rollback : Op () := fun st =>
  if committed (sess st) then (Ok tt, st) else
  let '(errs, w) := rollback_entries (rev (order (sess st))) (store_of st) in
  let '(cleanup, w) := DeleteURL (tempDir (sess st)) w in
  let errs := errs ++ match cleanup with Some msg => [RollbackCleanup msg] | None => [] end in
  (if bool_decide (length errs = 0) then Ok tt else Err (RollbackErrors errs),
   mkSt (reset (committed (sess st)) (sess st)) w).

Definition Commit : Op () := fun st =>
  if committed (sess st) then (Ok tt, st) else
  let '(cleanup, w) := DeleteURL (tempDir (sess st)) (store_of st) in
  (match cleanup with Some msg => Err (CommitCleanup msg) | None => Ok tt end,
   mkSt (reset true (sess st)) w).

(** *** Observers *)
Definition HasCreatedChange (path : string) (s : Session) : bool :=
  match byCurrent s !! TrimSpace path with
  | Some i => alive (entry_of s i) && bool_decide (kind (entry_of s i) = KCreate)
  | None => false
  end.

Record Change := mkChange { c_kind : Kind; c_orig : string; c_url : string; c_diff : string }.

Definition Snapshot (s : Session) : list Change :=
  omap (fun e => if negb (alive e) || bool_decide (kind e = NoKind) then None
                 else Some (mkChange (kind e) (orig e) (url e) (diff e))) (order s).

Record PreviewOutput := mkPreview {
  p_kind : Kind; p_orig : string; p_url : string; Current : string; Previous : string; p_diff : string }.

Definition Preview (url' : string) : Op PreviewOutput := fun st =>
  let s := sess st in
  let entry := match byCurrent s !! url' with Some i => Some i | None => byOrigin s !! url' end in
  match entry with
  | None => (Err (ChangeNotFound url'), st)
  | Some i =>
      let e := entry_of s i in
      if negb (alive e) then (Err (ChangeNotFound url'), st) else
      ((if bool_decide (url e = "") then mret "" else read (DownloadWithURL (url e))) ≫= fun current =>
       (if bool_decide (backup e = "") then mret "" else read (DownloadWithURL (backup e))) ≫= fun previous =>
       mret (mkPreview (kind e) (orig e) (url e) current previous (diff e))) st
  end.
End Ops.
Notation Op := (Prog SessionError).

(** ** A store in memory

    An object store with a flat name space, for the concrete runs below: only
    objects exist, [dirs] are the prefixes that were created. *)
Record MemWorld := mkMem { files : gmap string string; dirs : gset string }.

Definition under (d q : string) : bool := bool_decide (q = d) || HasPrefix q (d +:+ slash_s).

Definition mem_exists (p : string) (w : MemWorld) : bool := bool_decide (is_Some (files w !! p)).

Definition parent_of (p : string) : string := Join (drop_last (Split p slash)) slash.

Definition memory_store : AFS := {|
  World := MemWorld;
  Exists := fun p w => Ok (mem_exists p w);
  DownloadWithURL := fun p w => match files w !! p with Some d => Ok d | None => Err "not found" end;
  Upload := fun p d w => (None, mkMem (<[p := d]> (files w)) (dirs w));
  CreateDir := fun p w => (None, mkMem (files w) ({[p]} ∪ dirs w));
  DeleteURL := fun p w =>
    if mem_exists p w then (None, mkMem (delete p (files w)) (dirs w))
    else if bool_decide (p ∈ dirs w) then
      (None, mkMem (filter (fun kv => under p kv.1 = false) (files w)) (filter (fun d => under p d = false) (dirs w)))
    else (Some "not found", w);
  MoveURL := fun src dst w =>
    match files w !! src with
    | Some d => (None, mkMem (<[dst := d]> (delete src (files w))) (dirs w))
    | None => (Some "not found", w)
    end;
  URLParent := parent_of |}.

(** A diff library that reports whole files. *)
Definition whole_diff : Difflib := {|
  SplitLines := fun s => Split s newline;
  GetUnifiedDiffString := fun a b f t _ =>
    Ok (Join (["--- " +:+ f; "+++ " +:+ t] ++ (String.append "-" <$> a) ++ (String.append "+" <$> b)) newline) |}.

Definition slash_host : Host := {|
  Getwd := Ok "/";
  URLBase := fun u => ("mem://localhost", TrimPrefix u "mem://localhost");
  URLJoin := fun b p => b +:+ slash_s +:+ p;
  URLJoin1 := fun b => b +:+ slash_s |}.

#[local] Existing Instances memory_store whole_diff slash_host.

Definition demo_start (fs : list (string * string)) : St (H := memory_store) :=
  mkSt (NewSessionState "/tmp/s") (mkMem (list_to_map fs) {["/tmp/s"]}).

Definition run {A} (m : Prog (H := memory_store) SessionError A) (st : St) : St := (m st).2.

Definition visible (st : St (H := memory_store)) : list (string * string) :=
  map_to_list (files (store_of st)).

(** Restored: update, move, delete, recreate. *)
Example rollback_ex :
  let st := demo_start [("/w/a", "one"); ("/w/b", "two")] in
  let st := run (Update 1 "/w/a" "1") st in
  let st := run (Move "/w/a" "/w/c") st in
  let st := run (Delete 2 "/w/b") st in
  let st := run (Add "/w/b" "new") st in
  ((Rollback st).1, files (store_of (run Rollback st)) !! "/w/a", files (store_of (run Rollback st)) !! "/w/b",
   length (visible (run Rollback st)))
  = (Ok tt, Some "one", Some "two", 2).
Proof. vm_compute. reflexivity. Qed.

(** Update, delete and add of one path: the entry found through the stale
    [byCurrent] key becomes a create without a url, and the rollback leaves the
    new content in place of the original. *)
Example update_delete_add_not_restored :
  let st := demo_start [("/w/a", "one")] in
  let st := run (Update 1 "/w/a" "two") st in
  let st := run (Delete 2 "/w/a") st in
  let st := run (Add "/w/a" "three") st in
  (Rollback st).1 = Ok tt /\ visible (run Rollback st) = [("/w/a", "three")].
Proof. vm_compute. split; reflexivity. Qed.

(** Adding over an existing file: the rollback deletes the file that was there. *)
Example add_over_existing_loses_file :
  let st := run (Add "/w/a" "two") (demo_start [("/w/a", "one")]) in
  (Rollback st).1 = Ok tt /\ visible (run Rollback st) = [].
Proof. vm_compute. split; reflexivity. Qed.

(** Moving over an existing file: the file that was there is not restored. *)
Example move_over_existing_loses_file :
  let st := run (Move "/w/a" "/w/b") (demo_start [("/w/a", "one"); ("/w/b", "two")]) in
  (Rollback st).1 = Ok tt /\ visible (run Rollback st) = [("/w/a", "one")].
Proof. vm_compute. split; reflexivity. Qed.

(** Exchanging two files through a third name: the rollback undoes the last
    entry first and overwrites the other file. *)
Example swap_loses_file :
  let st := demo_start [("/w/a", "one"); ("/w/b", "two")] in
  let st := run (Move "/w/b" "/w/x") st in
  let st := run (Move "/w/a" "/w/b") st in
  let st := run (Move "/w/x" "/w/a") st in
  (Rollback st).1 = Ok tt /\ visible (run Rollback st) = [("/w/b", "one")].
Proof. vm_compute. split; reflexivity. Qed.

(** Updating or moving a file that does not exist reports success. *)
Example missing_file_is_success :
  let st := demo_start [] in
  (Update 1 "/w/a" "x" st).1 = Ok tt /\ (Move "/w/a" "/w/b" st).1 = Ok tt /\
  visible (run (Update 1 "/w/a" "x") st) = [].
Proof. vm_compute. repeat split; reflexivity. Qed.
