(* ===== verification/PatchRollback.v ===== *)
(** * Rollback of a patch session restores the files

    The laws a reliable store satisfies, the invariant that every operation of
    [PatchSession] keeps, and the theorem that a rollback undoes them all. *)
From stdpp Require Import base gmap strings list fin_maps numbers pretty sorting.
From Stdlib Require Import ZArith Lia Ascii.
From S2P Require Import Prelude GoStrings PatchLines PatchPath PatchSession.

Open Scope nat_scope.

(** ** A reliable store

    [isfile] tells the URLs used for files from those of directories; calls on
    them do not fail for other reasons than a missing file. *)
Class StoreLaws `{AFS} (isfile : string -> Prop) := {
  view : World -> gmap string string;
  is_dir : string -> World -> Prop;
  exists_law p w : isfile p -> Exists p w = Ok (bool_decide (is_Some (view w !! p)));
  download_law p w d : isfile p -> view w !! p = Some d -> DownloadWithURL p w = Ok d;
  upload_law p d w : isfile p -> exists w', Upload p d w = (None, w') /\ view w' = <[p := d]> (view w)
    /\ forall t, is_dir t w -> is_dir t w';
  create_law p w : isfile p -> exists w', CreateDir (URLParent p) w = (None, w') /\ view w' = view w
    /\ forall t, is_dir t w -> is_dir t w';
  delete_law p w d : isfile p -> view w !! p = Some d ->
    exists w', DeleteURL p w = (None, w') /\ view w' = delete p (view w) /\ forall t, is_dir t w -> is_dir t w';
  move_law p q w d : isfile p -> isfile q -> p <> q -> view w !! p = Some d ->
    exists w', MoveURL p q w = (None, w') /\ view w' = <[q := d]> (delete p (view w))
      /\ forall t, is_dir t w -> is_dir t w';
  delete_dir_law t w : is_dir t w ->
    exists w', DeleteURL t w = (None, w') /\ forall q, under t q = false -> view w' !! q = view w !! q }.

(** ** Undoing entries on a view

    [B] holds the contents of the backups. *)
Section Undo.
Implicit Types (B V : gmap string string) (e : changeEntry) (es l : list changeEntry).

Definition restored B e V : gmap string string :=
  if bool_decide (backup e = "") || bool_decide (orig e = "") then V
  else match B !! backup e with Some d => <[orig e := d]> V | None => V end.

Definition moved_back e V : gmap string string :=
  if negb (bool_decide (url e = "")) && negb (bool_decide (orig e = "")) && negb (bool_decide (url e = orig e)) then
    match V !! url e with Some d => <[orig e := d]> (delete (url e) V) | None => V end
  else V.

Definition undo_entry B e V : gmap string string :=
  if negb (alive e) then V else
  match kind e with
  | NoKind => V
  | KCreate => if bool_decide (url e = "") then V else delete (url e) V
  | KUpdated => restored B e (moved_back e V)
  | KDelete => restored B e V
  end.

Definition undo B es V : gmap string string := foldr (undo_entry B) V es.

Definition touches e p : Prop := alive e = true /\ (url e = p \/ orig e = p).

Lemma undo_app B l1 l2 V : undo B (l1 ++ l2) V = undo B l1 (undo B l2 V).
Proof. unfold undo. by rewrite foldr_app. Qed.

Lemma undo_entry_frame B e V p x : p <> "" -> ~ touches e p ->
  undo_entry B e (partial_alter (fun _ => x) p V) = partial_alter (fun _ => x) p (undo_entry B e V).
Proof.
  intros Hp Ht. unfold undo_entry. destruct (alive e) eqn:Ea; [|done]. simpl.
  assert (Hu : url e <> p) by (intros E; apply Ht; split; auto).
  assert (Ho : orig e <> p) by (intros E; apply Ht; split; auto).
  assert (Hr : forall V, restored B e (partial_alter (fun _ => x) p V) = partial_alter (fun _ => x) p (restored B e V)).
  { intros V'. unfold restored. destruct (_ || _); [done|]. destruct (B !! backup e); [|done].
    apply map_eq. intros q. rewrite lookup_insert, !lookup_partial_alter, lookup_insert. by repeat case_decide; subst. }
  destruct (kind e); [done| | |apply Hr].
  - case_bool_decide; [done|]. apply map_eq. intros q. unfold delete, map_delete.
    rewrite !lookup_partial_alter. by repeat case_decide; subst.
  - rewrite <- Hr. f_equal. unfold moved_back. destruct (_ && _); [|done].
    rewrite lookup_partial_alter_ne by done. destruct (V !! url e) as [d|]; [|done].
    apply map_eq. intros q. rewrite !lookup_insert, !lookup_partial_alter, lookup_insert.
    unfold delete, map_delete. rewrite !lookup_partial_alter. by repeat case_decide; subst.
Qed.

Lemma undo_frame B l V p x : p <> "" -> (forall e, e ∈ l -> ~ touches e p) ->
  undo B l (partial_alter (fun _ => x) p V) = partial_alter (fun _ => x) p (undo B l V).
Proof.
  intros Hp. induction l as [|e l IH]; intros Hl; [done|]. cbn [undo foldr].
  fold (undo B l (partial_alter (fun _ => x) p V)). fold (undo B l V).
  rewrite IH by (intros; apply Hl; by right). rewrite undo_entry_frame; [done|done|apply Hl; by left].
Qed.

Lemma undo_frame_insert B l V p d : p <> "" -> (forall e, e ∈ l -> ~ touches e p) ->
  undo B l (<[p := d]> V) = <[p := d]> (undo B l V).
Proof. apply undo_frame. Qed.
Lemma undo_frame_delete B l V p : p <> "" -> (forall e, e ∈ l -> ~ touches e p) ->
  undo B l (delete p V) = delete p (undo B l V).
Proof. apply undo_frame. Qed.

Lemma undo_frame_lookup B l V p : p <> "" -> (forall e, e ∈ l -> ~ touches e p) -> undo B l V !! p = V !! p.
Proof.
  intros Hp Hl. rewrite <- (partial_alter_self V p) at 1.
  rewrite undo_frame by done. by rewrite lookup_partial_alter_eq.
Qed.

Lemma undo_backups B B' l V :
  (forall e, e ∈ l -> alive e = true -> backup e <> "" -> B !! backup e = B' !! backup e) -> undo B l V = undo B' l V.
Proof.
  induction l as [|e l IH]; intros Hl; [done|]. cbn [undo foldr]. fold (undo B l V) (undo B' l V).
  rewrite IH by (intros; apply Hl; [by right|done|done]). generalize (undo B' l V). intros V'.
  unfold undo_entry. destruct (alive e) eqn:Ea; [|done]. simpl.
  assert (forall V, restored B e V = restored B' e V) as Hr.
  { intros V0. unfold restored. case_bool_decide; [done|]. rewrite (Hl e); [done|by left|done|done]. }
  destruct (kind e); auto.
Qed.
End Undo.

(** ** The tracking invariant

    [cur] and [org] are the two maps of the session, [es] its entries and [V]
    the files outside the session's directory. *)
Section Tracking.
Implicit Types (cur org : gmap string nat) (es : list changeEntry) (V : gmap string string) (e : changeEntry).

Record tracked cur org es V : Prop := {
  (** A key of [byCurrent] is the current name of its entry's file, or a stale
      key: the name under which the entry's file was deleted. *)
  tr_cur p i : cur !! p = Some i -> p <> "" /\ exists e, es !! i = Some e /\ alive e = true
    /\ (url e = p \/ (url e = "" /\ kind e = KDelete /\ V !! p = None));
  tr_own i e : es !! i = Some e -> alive e = true -> url e <> "" ->
    cur !! url e = Some i /\ is_Some (V !! url e);
  tr_org i e : es !! i = Some e -> alive e = true -> orig e <> "" -> org !! orig e = Some i;
  tr_org_inv o i : org !! o = Some i -> o <> "" /\ exists e, es !! i = Some e /\ alive e = true /\ orig e = o;
  (** The origin of a moved or deleted file is free unless a tracked file took it. *)
  tr_gone o : is_Some (org !! o) -> cur !! o = None -> V !! o = None;
  (** No file sits at the origin of an entry that is undone before its own. *)
  tr_order i j ei ej : es !! i = Some ei -> es !! j = Some ej -> i < j ->
    alive ei = true -> alive ej = true -> url ei <> "" -> url ei <> orig ej }.

Lemma tracked_init V : tracked ∅ ∅ [] V.
Proof. split; intros *; rewrite ?lookup_empty, ?lookup_nil; try done. Qed.

(** A present file that is not the current name of an entry is no origin. *)
Lemma tracked_fresh cur org es V p : tracked cur org es V -> is_Some (V !! p) -> cur !! p = None -> org !! p = None.
Proof.
  intros T [d Hd] Hc. destruct (org !! p) eqn:E; [|done]. exfalso.
  pose proof (tr_gone _ _ _ _ T p ltac:(by eexists) Hc). congruence.
Qed.

(** The entry of a present file. *)
Lemma tracked_entry cur org es V p i : tracked cur org es V -> is_Some (V !! p) -> cur !! p = Some i ->
  exists l1 e l2, es = l1 ++ e :: l2 /\ i = length l1 /\ alive e = true /\ url e = p /\ p <> ""
    /\ forall e', e' ∈ l2 -> ~ touches e' p.
Proof.
  intros T [d Hd] Hc. destruct (tr_cur _ _ _ _ T p i Hc) as (Hp & e & Hi & Ha & Hu).
  destruct Hu as [Hu|(_ & _ & Hu)]; [|congruence].
  destruct (list_elem_of_split_length es i e Hi) as (l1 & l2 & -> & ->).
  exists l1, e, l2. repeat (split; [done|]). intros e' [k Hk]%list_elem_of_lookup [Ha' [He|He]].
  - assert ((l1 ++ e :: l2) !! (length l1 + S k) = Some e') as Hi'.
    { rewrite lookup_app_r by lia. by replace (length l1 + S k - length l1) with (S k) by lia. }
    destruct (tr_own _ _ _ _ T _ _ Hi' Ha') as [H1 _]; [by rewrite He|]. rewrite He, Hc in H1.
    injection H1. lia.
  - assert ((l1 ++ e :: l2) !! (length l1 + S k) = Some e') as Hi'.
    { rewrite lookup_app_r by lia. by replace (length l1 + S k - length l1) with (S k) by lia. }
    apply (tr_order _ _ _ _ T _ _ _ _ Hi Hi'); [lia|done|done|by rewrite Hu|by rewrite Hu, He].
Qed.

Lemma store_lookup m k i q : store m k i !! q = if decide (k <> "" /\ q = k) then Some i else m !! q.
Proof.
  unfold store. case_bool_decide as Hk; case_decide as Hd; try tauto.
  - destruct Hd as [_ ->]. by rewrite lookup_insert_eq.
  - rewrite lookup_insert_ne; [done|]. intros ->. by apply Hd.
Qed.

(** A new entry. *)
Lemma tracked_append cur org es V V' e :
  tracked cur org es V -> alive e = true ->
  (url e <> "" -> cur !! url e = None) ->
  (orig e <> "" -> cur !! orig e = None /\ org !! orig e = None) ->
  (url e <> "" -> is_Some (V' !! url e)) ->
  (orig e <> "" -> orig e <> url e -> V' !! orig e = None) ->
  (forall q, q <> "" -> q <> url e -> q <> orig e -> V' !! q = V !! q) ->
  tracked (store cur (url e) (length es)) (store org (orig e) (length es)) (es ++ [e]) V'.
Proof.
  intros T Ha Hc Ho Hv Hvo Hq.
  assert (Hold : forall i e0, es !! i = Some e0 -> i <> length es).
  { intros i e0 Hi ->. by apply lookup_lt_Some in Hi; lia. }
  assert (Hlook : forall i e0, (es ++ [e]) !! i = Some e0 -> (es !! i = Some e0) \/ (i = length es /\ e0 = e)).
  { intros i e0 [Hi|[Hl Hi]]%lookup_app_Some; [by left|]. right.
    apply list_lookup_singleton_Some in Hi as [Hi <-]. split; [lia|done]. }
  assert (Hself : (es ++ [e]) !! length es = Some e) by (by rewrite lookup_app_r, Nat.sub_diag).
  split.
  - intros p i Hp. rewrite store_lookup in Hp. case_decide as Hd.
    + destruct Hd as [Hn ->]. injection Hp as <-. split; [done|]. exists e. auto.
    + destruct (tr_cur _ _ _ _ T p i Hp) as (Hn & e0 & Hi & Ha0 & Hu). split; [done|].
      exists e0. split; [by apply lookup_app_l_Some|]. split; [done|].
      destruct Hu as [Hu|(H1 & H2 & H3)]; [by left|]. right. split; [done|]. split; [done|].
      rewrite Hq; [done|done| |].
      * intros ->. by apply Hd.
      * intros E. rewrite E in Hp. destruct (Ho ltac:(by rewrite <- E)) as [Hx _]. congruence.
  - intros i e0 Hi Ha0 Hu. destruct (Hlook i e0 Hi) as [Hi'|[-> ->]].
    + destruct (tr_own _ _ _ _ T i e0 Hi' Ha0 Hu) as [H1 H2].
      assert (url e0 <> url e) as Hne by (intros E; rewrite E in H1, Hu; by rewrite (Hc Hu) in H1).
      assert (url e0 <> orig e) as Hne'.
      { intros E. rewrite E in H1, Hu. destruct (Ho Hu) as [Hx _]. congruence. }
      rewrite store_lookup, decide_False by tauto. rewrite Hq by done. done.
    + rewrite store_lookup, decide_True by done. auto.
  - intros i e0 Hi Ha0 Hu. rewrite store_lookup. destruct (Hlook i e0 Hi) as [Hi'|[-> ->]].
    + pose proof (tr_org _ _ _ _ T i e0 Hi' Ha0 Hu) as H1. rewrite decide_False; [done|].
      intros [Hn E]. rewrite E in H1. by rewrite (proj2 (Ho Hn)) in H1.
    + by rewrite decide_True by done.
  - intros o i. rewrite store_lookup. case_decide as Hd; intros Hi.
    + destruct Hd as [Hn ->]. injection Hi as <-. split; [done|]. exists e. auto.
    + destruct (tr_org_inv _ _ _ _ T o i Hi) as (Hn & e0 & H1 & H2). split; [done|].
      exists e0. split; [by apply lookup_app_l_Some|done].
  - intros o. rewrite !store_lookup. intros Hi Hn. case_decide as Hd1; [done|].
    assert (o <> "") as Hn0.
    { intros ->. rewrite decide_False in Hi by (intros [? ?]; congruence). destruct Hi as [i Hi].
      by destruct (tr_org_inv _ _ _ _ T _ _ Hi). }
    assert (o <> url e) by (intros ->; tauto).
    destruct (decide (o = orig e)) as [->|Hne]; [apply Hvo; congruence|].
    rewrite Hq by done. rewrite decide_False in Hi by (intros [? ?]; congruence). by apply (tr_gone _ _ _ _ T).
  - intros i j ei ej Hi Hj Hlt Hai Haj Hu. destruct (Hlook i ei Hi) as [Hi'|[-> ->]].
    + destruct (Hlook j ej Hj) as [Hj'|[-> ->]]; [by apply (tr_order _ _ _ _ T i j)|].
      intros E. destruct (tr_own _ _ _ _ T i ei Hi' Hai Hu) as [H1 _]. rewrite E in H1, Hu.
      destruct (Ho Hu) as [Hx _]. congruence.
    + apply lookup_lt_Some in Hj. rewrite length_app in Hj. simpl in Hj. lia.
Qed.

(** Replacing the entry [e] at [i] by [e']. *)
Section Replacing.
Context (cur org : gmap string nat) (es : list changeEntry) (V V' : gmap string string) (i : nat) (e e' : changeEntry).
Hypothesis T : tracked cur org es V.
Hypothesis Hi : es !! i = Some e.
Hypothesis Ha : alive e = true.

Lemma replace_lookup j x : <[i := e']> es !! j = Some x <-> (j = i /\ x = e') \/ (j <> i /\ es !! j = Some x).
Proof.
  rewrite list_lookup_insert_Some. pose proof (lookup_lt_Some _ _ _ Hi). split.
  - intros [(<- & <- & _)|[? ?]]; auto.
  - intros [[-> ->]|[? ?]]; auto.
Qed.

(** A live entry with the same origin keeps the two clauses on [byOrigin]. *)
Lemma replaced_org : alive e' = true -> orig e' = orig e ->
  forall j e0, <[i := e']> es !! j = Some e0 -> alive e0 = true -> orig e0 <> "" -> org !! orig e0 = Some j.
Proof.
  intros Ha' Ho j e0. rewrite replace_lookup. intros [[-> ->]|[Hji Hj]] Ha0 H0.
  - rewrite Ho in *. by apply (tr_org _ _ _ _ T i e).
  - by apply (tr_org _ _ _ _ T j e0).
Qed.

Lemma replaced_org_inv : alive e' = true -> orig e' = orig e ->
  forall o j, org !! o = Some j -> o <> "" /\ exists e0, <[i := e']> es !! j = Some e0 /\ alive e0 = true /\ orig e0 = o.
Proof.
  intros Ha' Ho o j Hj. destruct (tr_org_inv _ _ _ _ T o j Hj) as (Hn0 & e0 & H1 & H2 & H3). split; [done|].
  destruct (decide (j = i)) as [->|Hji].
  - exists e'. rewrite replace_lookup. rewrite Hi in H1. injection H1 as <-. split; [by left|]. split; [done|congruence].
  - exists e0. rewrite replace_lookup. split; [by right|done].
Qed.

(** The file's content or the entry's details change. *)
Lemma tracked_touch : alive e' = true -> orig e' = orig e -> url e' = url e -> url e <> "" ->
  is_Some (V' !! url e) -> (forall q, q <> url e -> V' !! q = V !! q) -> tracked cur org (<[i := e']> es) V'.
Proof.
  intros Ha' Ho Hu Hn Hs Hq. split.
  - intros p j Hp. destruct (tr_cur _ _ _ _ T p j Hp) as (Hp0 & e0 & Hj & Ha0 & H0). split; [done|].
    destruct (decide (j = i)) as [->|Hne].
    + exists e'. rewrite replace_lookup. split; [by left|]. split; [done|]. rewrite Hi in Hj. injection Hj as <-.
      destruct H0 as [H0|(H0 & _)]; [left; congruence|congruence].
    + exists e0. rewrite replace_lookup. split; [by right|]. split; [done|].
      destruct H0 as [H0|(H1 & H2 & H3)]; [by left|]. right. split; [done|]. split; [done|].
      rewrite Hq; [done|]. intros ->. destruct (tr_own _ _ _ _ T i e Hi Ha Hn) as [Hx _]. congruence.
  - intros j e0. rewrite replace_lookup. intros [[-> ->]|[Hne Hj]] Ha0 H0.
    + rewrite Hu. split; [apply (tr_own _ _ _ _ T i e Hi Ha Hn)|done].
    + destruct (tr_own _ _ _ _ T j e0 Hj Ha0 H0) as [H1 H2]. split; [done|].
      destruct (decide (url e0 = url e)) as [->|Hx]; [done|by rewrite Hq].
  - by apply replaced_org.
  - by apply replaced_org_inv.
  - intros o H1 H2. rewrite Hq; [by apply (tr_gone _ _ _ _ T)|].
    intros ->. destruct (tr_own _ _ _ _ T i e Hi Ha Hn) as [Hx _]. congruence.
  - intros j k ej ek. rewrite !replace_lookup. intros [[-> ->]|[H1 H1']] [[-> ->]|[H2 H2']] Hlt A B C; try lia.
    + rewrite Hu. by apply (tr_order _ _ _ _ T i k e ek).
    + rewrite Ho. by apply (tr_order _ _ _ _ T j i ej e).
    + by apply (tr_order _ _ _ _ T j k).
Qed.

(** The file moves to a free name [q]. *)
Lemma tracked_move q : alive e' = true -> orig e' = orig e -> url e' = q -> url e <> "" -> q <> "" -> q <> url e ->
  cur !! q = None -> (forall j, org !! q = Some j -> j <= i) ->
  V' !! url e = None -> is_Some (V' !! q) -> (forall r, r <> q -> r <> url e -> V' !! r = V !! r) ->
  tracked (<[q := i]> (delete (url e) cur)) org (<[i := e']> es) V'.
Proof.
  intros Ha' Ho Hu Hn Hq Hne Hcq Hoq Hv Hs Hr.
  destruct (tr_own _ _ _ _ T i e Hi Ha Hn) as [Hcu _].
  assert (Hothers : forall j e0, es !! j = Some e0 -> j <> i -> alive e0 = true -> url e0 <> "" ->
            url e0 <> q /\ url e0 <> url e).
  { intros j e0 Hj Hji Ha0 H0. destruct (tr_own _ _ _ _ T j e0 Hj Ha0 H0) as [H1 _].
    split; intros E; rewrite E in H1; congruence. }
  split.
  - intros p j. destruct (decide (p = q)) as [->|Hpq].
    + rewrite lookup_insert_eq. intros [= <-]. split; [done|]. exists e'. rewrite replace_lookup. auto.
    + rewrite lookup_insert_ne by done. destruct (decide (p = url e)) as [->|Hpu]; [by rewrite lookup_delete_eq|].
      rewrite lookup_delete_ne by done. intros Hp.
      destruct (tr_cur _ _ _ _ T p j Hp) as (Hp0 & e0 & Hj & Ha0 & H0). split; [done|].
      destruct (decide (j = i)) as [->|Hji].
      { rewrite Hi in Hj. injection Hj as <-. destruct H0 as [<-|(H0 & _)]; [done|done]. }
      exists e0. rewrite replace_lookup. split; [by right|]. split; [done|].
      destruct H0 as [H0|(H1 & H2 & H3)]; [by left|]. right. rewrite Hr by done. done.
  - intros j e0. rewrite replace_lookup. intros [[-> ->]|[Hji Hj]] Ha0 H0.
    + rewrite Hu, lookup_insert_eq. done.
    + destruct (Hothers j e0 Hj Hji Ha0 H0) as [H1 H2].
      rewrite lookup_insert_ne, lookup_delete_ne, Hr by done. by apply (tr_own _ _ _ _ T j e0).
  - by apply replaced_org.
  - by apply replaced_org_inv.
  - intros o H1. destruct (decide (o = q)) as [->|Hoq']; [by rewrite lookup_insert_eq|].
    rewrite lookup_insert_ne by done. destruct (decide (o = url e)) as [->|Hou]; [done|].
    rewrite lookup_delete_ne, Hr by done. by apply (tr_gone _ _ _ _ T).
  - intros j k ej ek. rewrite !replace_lookup. intros [[-> ->]|[H1 H1']] [[-> ->]|[H2 H2']] Hlt A B C; try lia.
    + intros E. rewrite Hu in E.
      pose proof (tr_org _ _ _ _ T k ek H2' B ltac:(congruence)) as H3. rewrite <- E in H3.
      apply Hoq in H3. lia.
    + rewrite Ho. by apply (tr_order _ _ _ _ T j i ej e).
    + by apply (tr_order _ _ _ _ T j k).
Qed.

(** The file is deleted: a file the session created is forgotten. *)
Lemma tracked_kill : alive e' = false -> orig e = "" -> url e <> "" ->
  V' !! url e = None -> (forall r, r <> url e -> V' !! r = V !! r) ->
  tracked (delete (url e) cur) org (<[i := e']> es) V'.
Proof.
  intros Ha' Ho Hn Hv Hr. destruct (tr_own _ _ _ _ T i e Hi Ha Hn) as [Hcu _]. split.
  - intros p j. destruct (decide (p = url e)) as [->|Hpu]; [by rewrite lookup_delete_eq|].
    rewrite lookup_delete_ne by done. intros Hp.
    destruct (tr_cur _ _ _ _ T p j Hp) as (Hp0 & e0 & Hj & Ha0 & H0). split; [done|].
    destruct (decide (j = i)) as [->|Hji].
    { rewrite Hi in Hj. injection Hj as <-. destruct H0 as [<-|(H0 & _)]; done. }
    exists e0. rewrite replace_lookup. split; [by right|]. split; [done|].
    destruct H0 as [H0|(H1 & H2 & H3)]; [by left|]. right. rewrite Hr by done. done.
  - intros j e0. rewrite replace_lookup. intros [[-> ->]|[Hji Hj]] Ha0 H0; [congruence|].
    destruct (tr_own _ _ _ _ T j e0 Hj Ha0 H0) as [H1 H2].
    assert (url e0 <> url e) by (intros E; rewrite E in H1; congruence).
    by rewrite lookup_delete_ne, Hr by done.
  - intros j e0. rewrite replace_lookup. intros [[-> ->]|[Hji Hj]] Ha0 H0; [congruence|].
    by apply (tr_org _ _ _ _ T j e0).
  - intros o j Hj. destruct (tr_org_inv _ _ _ _ T o j Hj) as (Hn0 & e0 & H1 & H2 & H3). split; [done|].
    exists e0. rewrite replace_lookup. split; [|done]. right. split; [|done].
    intros ->. rewrite Hi in H1. injection H1 as <-. congruence.
  - intros o H1. destruct (decide (o = url e)) as [->|Hou]; [done|].
    rewrite lookup_delete_ne, Hr by done. by apply (tr_gone _ _ _ _ T).
  - intros j k ej ek. rewrite !replace_lookup. intros [[-> ->]|[H1 H1']] [[-> ->]|[H2 H2']] Hlt A B C; try congruence.
    by apply (tr_order _ _ _ _ T j k).
Qed.

(** Another tracked file is deleted: its key becomes stale. *)
Lemma tracked_gone : alive e' = true -> orig e' = orig e -> url e' = "" -> kind e' = KDelete -> url e <> "" ->
  V' !! url e = None -> (forall r, r <> url e -> V' !! r = V !! r) -> tracked cur org (<[i := e']> es) V'.
Proof.
  intros Ha' Ho Hu Hk Hn Hv Hr. destruct (tr_own _ _ _ _ T i e Hi Ha Hn) as [Hcu _]. split.
  - intros p j Hp. destruct (tr_cur _ _ _ _ T p j Hp) as (Hp0 & e0 & Hj & Ha0 & H0). split; [done|].
    destruct (decide (j = i)) as [->|Hji].
    + exists e'. rewrite replace_lookup. split; [by left|]. split; [done|]. right. split; [done|]. split; [done|].
      rewrite Hi in Hj. injection Hj as <-. destruct H0 as [<-|(H0 & _)]; done.
    + exists e0. rewrite replace_lookup. split; [by right|]. split; [done|].
      destruct H0 as [H0|(H1 & H2 & H3)]; [by left|]. right. split; [done|]. split; [done|].
      rewrite Hr; [done|]. intros ->. congruence.
  - intros j e0. rewrite replace_lookup. intros [[-> ->]|[Hji Hj]] Ha0 H0; [congruence|].
    destruct (tr_own _ _ _ _ T j e0 Hj Ha0 H0) as [H1 H2]. split; [done|].
    rewrite Hr; [done|]. intros E. rewrite E in H1. congruence.
  - by apply replaced_org.
  - by apply replaced_org_inv.
  - intros o H1 H2. destruct (decide (o = url e)) as [->|Hou]; [done|].
    rewrite Hr by done. by apply (tr_gone _ _ _ _ T).
  - intros j k ej ek. rewrite !replace_lookup. intros [[-> ->]|[H1 H1']] [[-> ->]|[H2 H2']] Hlt A B C; try lia.
    + congruence.
    + rewrite Ho. by apply (tr_order _ _ _ _ T j i ej e).
    + by apply (tr_order _ _ _ _ T j k).
Qed.
End Replacing.
End Tracking.

(** ** What the trackers do to a session in normal form *)
Lemma alter_middle {A} (f : A -> A) l1 x l2 : alter f (length l1) (l1 ++ x :: l2) = l1 ++ f x :: l2.
Proof. unfold alter. induction l1 as [|y l1 IH]; simpl; [done|]. f_equal. apply IH. Qed.

Lemma insert_middle {A} (y : A) l1 x l2 : <[length l1 := y]> (l1 ++ x :: l2) = l1 ++ y :: l2.
Proof. induction l1 as [|z l1 IH]; simpl; [done|]. f_equal. apply IH. Qed.

Lemma lookup_middle {A} (l1 : list A) x l2 : (l1 ++ x :: l2) !! length l1 = Some x.
Proof. by rewrite lookup_app_r, Nat.sub_diag. Qed.

Definition set_order (es : list changeEntry) (s : Session) : Session :=
  mkSession (tempDir s) (changes s) (byCurrent s) (byOrigin s) es (committed s).

Definition append_entry (e : changeEntry) (s : Session) : Session :=
  mkSession (tempDir s) (changes s ++ [length (order s)]) (store (byCurrent s) (url e) (length (order s)))
    (store (byOrigin s) (orig e) (length (order s))) (order s ++ [e]) (committed s).

Section Trackers.
Context `{AFS, Difflib, Host}.
Implicit Types (s : Session) (e : changeEntry).

Ltac middle := unfold upd, entry_of, set_order, set_current, set_origin; cbn [tempDir changes byCurrent byOrigin order committed];
  rewrite ?alter_middle, ?lookup_middle; cbn [default from_option].

Lemma ensureEntry_new o u s : find (byCurrent s) u = None -> find (byOrigin s) o = None ->
  ensureEntry o u s = (length (order s), append_entry (mkEntry NoKind o u "" true "") s).
Proof. unfold ensureEntry. by intros -> ->. Qed.

Lemma find_None m k : m !! k = None -> find m k = None.
Proof. unfold find. by case_bool_decide. Qed.

Lemma trackAdd_found w p s l1 e l2 : order s = l1 ++ e :: l2 -> byCurrent s !! p = Some (length l1) ->
  exists D, trackAdd w p s = set_order (l1 ++ mkEntry KCreate (orig e) (url e) (backup e) true D :: l2) s.
Proof.
  destruct s as [td ch cur org es c]. cbn [order byCurrent]. intros -> Hc. eexists.
  unfold trackAdd. cbn [byCurrent]. rewrite Hc. middle. reflexivity.
Qed.

Lemma trackAdd_fresh w p s : byCurrent s !! p = None ->
  exists D, trackAdd w p s = append_entry (mkEntry KCreate "" p "" true D) s.
Proof.
  intros Hc. eexists. unfold trackAdd. rewrite Hc, ensureEntry_new by (done || by apply find_None).
  unfold append_entry. middle. reflexivity.
Qed.

Lemma trackMove_found src dst s l1 e l2 : order s = l1 ++ e :: l2 -> byCurrent s !! src = Some (length l1) ->
  (kind e = KCreate \/ kind e = KUpdated /\ orig e <> "") ->
  trackMove src dst s = set_current (<[dst := length l1]> (delete src (byCurrent s)))
                          (set_order (l1 ++ set_url dst e :: l2) s).
Proof.
  destruct s as [td ch cur org es c], e as [k o u b a D]. cbn [order byCurrent kind orig]. intros -> Hc Hk.
  unfold trackMove. cbn [byCurrent]. rewrite Hc. middle. unfold set_url. cbn [kind orig].
  destruct Hk as [->|[-> Ho]]; simpl.
  - by rewrite andb_false_r.
  - by rewrite bool_decide_eq_false_2.
Qed.

Lemma trackMove_fresh src dst s : byCurrent s !! src = None -> byCurrent s !! dst = None -> byOrigin s !! src = None ->
  trackMove src dst s = append_entry (mkEntry KUpdated src dst "" true "") s.
Proof.
  intros Hc Hd Ho. unfold trackMove. rewrite Hc, ensureEntry_new by (by apply find_None).
  unfold append_entry. middle. reflexivity.
Qed.

Lemma trackUpdate_found w p b s l1 e l2 : order s = l1 ++ e :: l2 -> byCurrent s !! p = Some (length l1) ->
  alive e = true -> url e = p -> (kind e = KCreate \/ kind e = KUpdated /\ orig e <> "") ->
  exists D, trackUpdate w p b s =
    set_order (l1 ++ mkEntry (kind e) (orig e) p
      (if decide (kind e <> KCreate /\ backup e = "") then b else backup e) true D :: l2) s.
Proof.
  destruct s as [td ch cur org es c], e as [k o u b' a D]. cbn [order byCurrent kind orig alive url backup].
  intros -> Hc -> -> Hk.
  unfold trackUpdate. cbn [byCurrent]. rewrite Hc. middle. cbn [kind orig backup].
  destruct (decide (k <> KCreate /\ b' = "")) as [Hb|Hb]; destruct Hk as [->|[-> Ho]]; try tauto;
    middle; cbn [set_backup kind orig backup]; rewrite ?decide_False by done; middle; cbn [kind orig];
    rewrite ?(bool_decide_eq_false_2 (o = "")) by done; rewrite ?andb_false_r; cbn [andb];
    middle; eexists; reflexivity.
Qed.

Lemma trackUpdate_fresh w p b s : p <> "" -> byCurrent s !! p = None -> byOrigin s !! p = None ->
  exists D, trackUpdate w p b s = append_entry (mkEntry KUpdated p p b true D) s.
Proof.
  intros Hp Hc Ho. eexists. unfold trackUpdate. rewrite Hc, ensureEntry_new by (by apply find_None).
  unfold append_entry. middle. cbn [set_backup set_kind kind orig url backup].
  rewrite decide_True by done. cbn [set_backup kind orig]. middle. cbn [set_kind kind orig].
  rewrite (bool_decide_eq_false_2 (p = "")) by done. cbn [andb]. middle. reflexivity.
Qed.

Lemma trackDelete_created w p b s l1 e l2 : order s = l1 ++ e :: l2 -> byCurrent s !! p = Some (length l1) ->
  kind e = KCreate -> orig e = "" ->
  trackDelete w p b s = set_current (delete p (byCurrent s)) (set_order (l1 ++ set_alive false e :: l2) s).
Proof.
  destruct s as [td ch cur org es c], e as [k o u b' a D]. cbn [order byCurrent kind orig]. intros -> Hc -> ->.
  unfold trackDelete. cbn [byCurrent]. rewrite Hc. middle. reflexivity.
Qed.

Lemma trackDelete_found w p b s l1 e l2 : order s = l1 ++ e :: l2 -> byCurrent s !! p = Some (length l1) ->
  kind e = KUpdated -> orig e <> "" ->
  exists D, trackDelete w p b s =
    set_order (l1 ++ mkEntry KDelete (orig e) "" (if decide (backup e = "") then b else backup e) true D :: l2) s.
Proof.
  destruct s as [td ch cur org es c], e as [k o u b' a D]. cbn [order byCurrent kind orig backup].
  intros -> Hc -> Ho. unfold trackDelete. cbn [byCurrent]. rewrite Hc. middle. cbn [kind].
  rewrite decide_False by done. unfold track_delete_entry. middle. cbn [backup].
  destruct (decide (b' = "")) as [Hb|Hb];
    [rewrite (bool_decide_eq_true_2 (b' = "")) by done|rewrite (bool_decide_eq_false_2 (b' = "")) by done];
    middle; cbn [set_backup orig]; rewrite (bool_decide_eq_false_2 (o = "")) by done; cbn [andb]; middle;
    eexists; reflexivity.
Qed.

Lemma trackDelete_fresh w p b s : p <> "" -> byCurrent s !! p = None -> byOrigin s !! p = None ->
  exists D, trackDelete w p b s = append_entry (mkEntry KDelete p "" b true D) s.
Proof.
  intros Hp Hc Ho. eexists. unfold trackDelete. rewrite Hc, ensureEntry_new by (done || by apply find_None).
  unfold track_delete_entry, append_entry. middle. cbn [backup set_backup orig].
  rewrite (bool_decide_eq_false_2 (p = "")) by done. middle. reflexivity.
Qed.
End Trackers.

(** ** The restorable states *)
Section Restoring.
Context `{AFS, Difflib, Host} (isfile : string -> Prop) `{!StoreLaws isfile} (td : string).
Implicit Types (B V : gmap string string) (e : changeEntry) (w : World).

(** The files outside the session's directory. *)
Definition vis (w : World) : gmap string string := filter (fun kv => under td kv.1 = false) (view w).

Definition place (p : string) : Prop := isfile p /\ p <> "" /\ under td p = false.
Definition spare (b : string) : Prop := isfile b /\ b <> "" /\ under td b = true.

Definition entry_ok B e : Prop := alive e = true ->
  match kind e with
  | NoKind => False
  | KCreate => orig e = "" /\ url e <> ""
  | KUpdated => orig e <> "" /\ url e <> ""
  | KDelete => orig e <> "" /\ url e = "" /\ backup e <> ""
  end
  /\ (url e <> "" -> place (url e)) /\ (orig e <> "" -> place (orig e))
  /\ (backup e <> "" -> spare (backup e) /\ is_Some (B !! backup e)).

(** A store that keeps the backups of another. *)
Definition keeps B B' : Prop := forall b d, under td b = true -> B !! b = Some d -> B' !! b = Some d.

Record restorable (w0 : World) (st : St) : Prop := {
  rs_active : committed (sess st) = false;
  rs_temp : tempDir (sess st) = td;
  rs_dir : is_dir td (store_of st);
  rs_tracked : tracked (byCurrent (sess st)) (byOrigin (sess st)) (order (sess st)) (vis (store_of st));
  rs_entries : Forall (entry_ok (view (store_of st))) (order (sess st));
  rs_undo : undo (view (store_of st)) (order (sess st)) (vis (store_of st)) = vis w0 }.

Lemma vis_lookup w p : vis w !! p = if under td p then None else view w !! p.
Proof.
  unfold vis. destruct (under td p) eqn:E.
  - apply map_lookup_filter_None. right. intros x _. simpl. by rewrite E.
  - destruct (view w !! p) eqn:Ep; [by apply map_lookup_filter_Some|].
    apply map_lookup_filter_None. by left.
Qed.

Lemma vis_place w p : place p -> vis w !! p = view w !! p.
Proof. intros (_ & _ & Hu). by rewrite vis_lookup, Hu. Qed.

Lemma vis_insert w w' p d : under td p = false -> view w' = <[p := d]> (view w) -> vis w' = <[p := d]> (vis w).
Proof.
  intros Hp E. apply map_eq. intros q. rewrite lookup_insert, !vis_lookup, E, lookup_insert.
  case_decide as Hd; [by subst; rewrite Hp|done].
Qed.

Lemma vis_spare w w' b d : under td b = true -> view w' = <[b := d]> (view w) -> vis w' = vis w.
Proof.
  intros Hb E. apply map_eq. intros q. rewrite !vis_lookup, E, lookup_insert.
  case_decide as Hd; [by subst; rewrite Hb|done].
Qed.

Lemma vis_delete w w' p : under td p = false -> view w' = delete p (view w) -> vis w' = delete p (vis w).
Proof.
  intros Hp E. apply map_eq. intros q. rewrite lookup_delete, !vis_lookup, E, lookup_delete.
  case_decide as Hd; [by subst; rewrite Hp|done].
Qed.

Lemma store_keeps_refl B : keeps B B.
Proof. by intros b d. Qed.
Lemma store_keeps_trans B B' B'' : keeps B B' -> keeps B' B'' -> keeps B B''.
Proof. intros K1 K2 b d Hb Hd. auto. Qed.
Lemma keeps_insert B p d : under td p = false -> keeps B (<[p := d]> B).
Proof. intros Hp b x Hb Hx. rewrite lookup_insert_ne; [done|]. intros ->. congruence. Qed.
Lemma keeps_delete B p : under td p = false -> keeps B (delete p B).
Proof. intros Hp b x Hb Hx. rewrite lookup_delete_ne; [done|]. intros ->. congruence. Qed.
Lemma keeps_fresh B b d : B !! b = None -> keeps B (<[b := d]> B).
Proof. intros Hp b' x Hb Hx. rewrite lookup_insert_ne; [done|]. intros ->. congruence. Qed.

Lemma entry_ok_keeps B B' e : keeps B B' -> entry_ok B e -> entry_ok B' e.
Proof.
  intros Hk He Ha. destruct (He Ha) as (K1 & K2 & K3 & K4). repeat (split; [done|]).
  intros Hb. destruct (K4 Hb) as [Hs [d Hd]]. split; [done|]. exists d. apply Hk; [apply Hs|done].
Qed.

Lemma undo_keeps B B' es V : keeps B B' -> Forall (entry_ok B) es -> undo B' es V = undo B es V.
Proof.
  intros Hk He. apply undo_backups. intros e Hin Ha Hb. rewrite Forall_forall in He.
  destruct (He e Hin Ha) as (_ & _ & _ & K4). destruct (K4 Hb) as [Hs [d Hd]]. rewrite Hd.
  apply Hk; [apply Hs|done].
Qed.

(** A new entry whose undoing gives the files before it. *)
Lemma restorable_append w0 st w' e :
  restorable w0 st -> is_dir td w' -> keeps (view (store_of st)) (view w') ->
  alive e = true -> entry_ok (view w') e ->
  tracked (store (byCurrent (sess st)) (url e) (length (order (sess st))))
    (store (byOrigin (sess st)) (orig e) (length (order (sess st)))) (order (sess st) ++ [e]) (vis w') ->
  undo_entry (view w') e (vis w') = vis (store_of st) ->
  restorable w0 (mkSt (append_entry e (sess st)) w').
Proof.
  intros [A1 A2 A3 A4 A5 A6] Hd Hk Ha He Ht Hu. split; cbn [sess store_of append_entry committed tempDir order byCurrent byOrigin]; try done.
  - apply Forall_app. split; [|constructor; [done|constructor]]. eapply Forall_impl; [exact A5|]. intros. by eapply entry_ok_keeps.
  - rewrite undo_app. change (undo (view w') [e] (vis w')) with (undo_entry (view w') e (vis w')).
    rewrite Hu. rewrite <- A6. by apply undo_keeps.
Qed.

(** A changed entry, undone after [l2] and before [l1]. *)
Lemma restorable_replace w0 st w' l1 e l2 e' cur' :
  restorable w0 st -> is_dir td w' -> keeps (view (store_of st)) (view w') ->
  order (sess st) = l1 ++ e :: l2 -> entry_ok (view w') e' ->
  tracked cur' (byOrigin (sess st)) (<[length l1 := e']> (order (sess st))) (vis w') ->
  undo_entry (view w') e' (undo (view w') l2 (vis w')) =
    undo_entry (view (store_of st)) e (undo (view w') l2 (vis (store_of st))) ->
  restorable w0 (mkSt (set_current cur' (set_order (l1 ++ e' :: l2) (sess st))) w').
Proof.
  intros [A1 A2 A3 A4 A5 A6] Hd Hk Eo He Ht Hu. rewrite Eo in *. rewrite insert_middle in Ht.
  apply Forall_app in A5 as [A51 [A52 A53]%list.Forall_cons].
  split; cbn [sess store_of set_current set_order committed tempDir order byCurrent byOrigin]; try done.
  - apply Forall_app. split; [|constructor; [done|]]; eapply Forall_impl; try eassumption; intros; by eapply entry_ok_keeps.
  - rewrite undo_app in A6 |- *. cbn [undo foldr] in A6 |- *.
    fold (undo (view w') l2 (vis w')). fold (undo (view (store_of st)) l2 (vis (store_of st))) in A6.
    rewrite Hu. rewrite (undo_keeps (view (store_of st)) (view w') l2) by done.
    rewrite <- A6. by apply undo_keeps.
Qed.

(** *** What the operations do to the store *)
Definition backup_ok (st : St) (p : string) (now : Z) : Prop :=
  spare (backup_dst (sess st) p now) /\ view (store_of st) !! backup_dst (sess st) p now = None.

Lemma read_eq {A} (r : World -> result string A) st a : r (store_of st) = Ok a -> read r st = (Ok a, st).
Proof. unfold read. by intros ->. Qed.
Lemma write_eq f st w' : f (store_of st) = (None, w') -> write f st = (Ok tt, mkSt (sess st) w').
Proof. unfold write. by intros ->. Qed.
Lemma active_eq st : committed (sess st) = false -> assertActive st = (Ok tt, st).
Proof. unfold assertActive. by intros ->. Qed.
Lemma exists_eq st p : isfile p -> read (Exists p) st = (Ok (bool_decide (is_Some (view (store_of st) !! p))), st).
Proof. intros Hf. apply read_eq, exists_law, Hf. Qed.
Lemma bind_eq {E A A'} (m : Prog E A) (k : A -> Prog E A') st a st' : m st = (Ok a, st') -> (m ≫= k) st = k a st'.
Proof. unfold mbind, Prog_bind. by intros ->. Qed.
Lemma wrap_eq {E E' A} (f : E -> E') (m : Prog E A) st a st' : m st = (Ok a, st') -> wrap f m st = (Ok a, st').
Proof. unfold wrap. by intros ->. Qed.

Lemma backup_effect st p now d : isfile p -> view (store_of st) !! p = Some d -> backup_ok st p now ->
  exists w', backup_op now p st = (Ok (backup_dst (sess st) p now), mkSt (sess st) w')
    /\ view w' = <[backup_dst (sess st) p now := d]> (view (store_of st))
    /\ forall t, is_dir t (store_of st) -> is_dir t w'.
Proof.
  intros Hf Hd [[Hb _] _]. set (b := backup_dst (sess st) p now) in *.
  destruct (create_law b (store_of st) Hb) as (w1 & E1 & V1 & D1).
  destruct (upload_law b d w1 Hb) as (w2 & E2 & V2 & D2).
  exists w2. split; [|split; [by rewrite V2, V1|auto]].
  unfold backup_op. rewrite (bind_eq _ _ _ _ _ (read_eq _ st d (download_law _ _ _ Hf Hd))). cbv zeta. fold b.
  rewrite (bind_eq _ _ _ _ _ (write_eq _ st w1 E1)).
  by rewrite (bind_eq _ _ _ _ _ (write_eq _ (mkSt (sess st) w1) w2 E2)).
Qed.

Section Effects.
Context (st : St) (p : string).
Hypothesis Hact : committed (sess st) = false.
Hypothesis Hf : isfile p.

Lemma Update_missing now nd : view (store_of st) !! p = None -> Update now p nd st = (Ok tt, st).
Proof.
  intros Hp. unfold Update. rewrite (bind_eq _ _ _ _ _ (active_eq st Hact)).
  rewrite (bind_eq _ _ _ _ _ (exists_eq st p Hf)). by rewrite bool_decide_eq_false_2 by (rewrite Hp; by intros []).
Qed.

Lemma Update_effect now nd d : view (store_of st) !! p = Some d -> backup_ok st p now ->
  exists w', Update now p nd st = (Ok tt, mkSt (trackUpdate w' p (backup_dst (sess st) p now) (sess st)) w')
    /\ view w' = <[p := nd]> (<[backup_dst (sess st) p now := d]> (view (store_of st)))
    /\ forall t, is_dir t (store_of st) -> is_dir t w'.
Proof.
  intros Hp Hb. destruct (backup_effect st p now d Hf Hp Hb) as (w1 & E1 & V1 & D1).
  destruct (upload_law p nd w1 Hf) as (w2 & E2 & V2 & D2).
  exists w2. split; [|split; [by rewrite V2, V1|auto]].
  unfold Update. rewrite (bind_eq _ _ _ _ _ (active_eq st Hact)).
  rewrite (bind_eq _ _ _ _ _ (exists_eq st p Hf)). rewrite bool_decide_eq_true_2 by (rewrite Hp; by eexists). cbn [negb].
  rewrite (bind_eq _ _ _ _ _ E1). by rewrite (bind_eq _ _ _ _ _ (write_eq _ (mkSt (sess st) w1) w2 E2)).
Qed.

Lemma Delete_missing now : view (store_of st) !! p = None -> Delete now p st = (Err (DeleteFailed None), st).
Proof.
  intros Hp. unfold Delete. rewrite (bind_eq _ _ _ _ _ (wrap_eq _ _ _ _ _ (active_eq st Hact))).
  rewrite (bind_eq _ _ _ _ _ (wrap_eq _ _ _ _ _ (exists_eq st p Hf))).
  by rewrite bool_decide_eq_false_2 by (rewrite Hp; by intros []).
Qed.

Lemma Delete_effect now d : view (store_of st) !! p = Some d -> backup_ok st p now ->
  p <> backup_dst (sess st) p now ->
  exists w', Delete now p st = (Ok tt, mkSt (trackDelete w' p (backup_dst (sess st) p now) (sess st)) w')
    /\ view w' = delete p (<[backup_dst (sess st) p now := d]> (view (store_of st)))
    /\ forall t, is_dir t (store_of st) -> is_dir t w'.
Proof.
  intros Hp Hb Hne. destruct (backup_effect st p now d Hf Hp Hb) as (w1 & E1 & V1 & D1).
  destruct (delete_law p w1 d Hf) as (w2 & E2 & V2 & D2); [by rewrite V1, lookup_insert_ne|].
  exists w2. split; [|split; [by rewrite V2, V1|auto]].
  unfold Delete. rewrite (bind_eq _ _ _ _ _ (wrap_eq _ _ _ _ _ (active_eq st Hact))).
  rewrite (bind_eq _ _ _ _ _ (wrap_eq _ _ _ _ _ (exists_eq st p Hf))).
  rewrite bool_decide_eq_true_2 by (rewrite Hp; by eexists). cbn [negb].
  rewrite (bind_eq _ _ _ _ _ (wrap_eq _ _ _ _ _ E1)).
  by rewrite (bind_eq _ _ _ _ _ (wrap_eq _ _ _ _ _ (write_eq _ (mkSt (sess st) w1) w2 E2))).
Qed.

Lemma Add_effect nd : exists w', Add p nd st = (Ok tt, mkSt (trackAdd w' p (sess st)) w')
    /\ view w' = <[p := nd]> (view (store_of st)) /\ forall t, is_dir t (store_of st) -> is_dir t w'.
Proof.
  destruct (create_law p (store_of st) Hf) as (w1 & E1 & V1 & D1).
  destruct (upload_law p nd w1 Hf) as (w2 & E2 & V2 & D2).
  exists w2. split; [|split; [by rewrite V2, V1|auto]].
  unfold Add. rewrite (bind_eq _ _ _ _ _ (active_eq st Hact)).
  rewrite (bind_eq _ _ _ _ _ (write_eq _ st w1 E1)).
  by rewrite (bind_eq _ _ _ _ _ (write_eq _ (mkSt (sess st) w1) w2 E2)).
Qed.

Lemma Move_missing q : view (store_of st) !! p = None -> Move p q st = (Ok tt, st).
Proof.
  intros Hp. unfold Move. rewrite (bind_eq _ _ _ _ _ (active_eq st Hact)).
  rewrite (bind_eq _ _ _ _ _ (exists_eq st p Hf)). by rewrite bool_decide_eq_false_2 by (rewrite Hp; by intros []).
Qed.

Lemma Move_effect q d : isfile q -> p <> q -> view (store_of st) !! p = Some d ->
  exists w', Move p q st = (Ok tt, mkSt (trackMove p q (sess st)) w')
    /\ view w' = <[q := d]> (delete p (view (store_of st)))
    /\ forall t, is_dir t (store_of st) -> is_dir t w'.
Proof.
  intros Hq Hne Hp. destruct (create_law q (store_of st) Hq) as (w1 & E1 & V1 & D1).
  destruct (move_law p q w1 d Hf Hq Hne) as (w2 & E2 & V2 & D2); [by rewrite V1|].
  exists w2. split; [|split; [by rewrite V2, V1|auto]].
  unfold Move. rewrite (bind_eq _ _ _ _ _ (active_eq st Hact)).
  rewrite (bind_eq _ _ _ _ _ (exists_eq st p Hf)). rewrite bool_decide_eq_true_2 by (rewrite Hp; by eexists). cbn [negb].
  rewrite (bind_eq _ _ _ _ _ (write_eq _ st w1 E1)).
  by rewrite (bind_eq _ _ _ _ _ (write_eq _ (mkSt (sess st) w1) w2 E2)).
Qed.
End Effects.

(** *** Undoing one entry *)

(** What the origin of an updated entry gets back: its backup, or the file's
    present content [d] when there is none. *)
Definition content_of B e (d c : string) : Prop :=
  if bool_decide (backup e = "") then c = d else B !! backup e = Some c.

Lemma undo_created B e X : alive e = true -> kind e = KCreate -> url e <> "" -> undo_entry B e X = delete (url e) X.
Proof. intros Ha Hk Hu. unfold undo_entry. by rewrite Ha, Hk, bool_decide_eq_false_2. Qed.

Lemma undo_updated B e X d c : alive e = true -> kind e = KUpdated -> url e <> "" -> orig e <> "" ->
  X !! url e = Some d -> content_of B e d c -> undo_entry B e X = <[orig e := c]> (delete (url e) X).
Proof.
  intros Ha Hk Hu Ho Hx Hc. unfold undo_entry. rewrite Ha, Hk. cbn [negb].
  assert (Hm : moved_back e X = <[orig e := d]> (delete (url e) X)).
  { unfold moved_back. rewrite (bool_decide_eq_false_2 (url e = "")), (bool_decide_eq_false_2 (orig e = "")) by done.
    cbn [negb andb]. case_bool_decide as He; cbn [negb]; [|by rewrite Hx].
    rewrite <- He. by rewrite insert_delete_id. }
  unfold restored. rewrite Hm, (bool_decide_eq_false_2 (orig e = "")), orb_false_r by done.
  unfold content_of in Hc. case_bool_decide; [by subst|]. rewrite Hc. by rewrite insert_insert_eq.
Qed.

Lemma undo_deleted B e X c : alive e = true -> kind e = KDelete -> orig e <> "" -> backup e <> "" ->
  B !! backup e = Some c -> undo_entry B e X = <[orig e := c]> X.
Proof.
  intros Ha Hk Ho Hb Hc. unfold undo_entry, restored. rewrite Ha, Hk. cbn [negb].
  by rewrite (bool_decide_eq_false_2 (backup e = "")), (bool_decide_eq_false_2 (orig e = "")), Hc by done.
Qed.

Lemma content_exists B e d : alive e = true -> entry_ok B e -> exists c, content_of B e d c.
Proof.
  intros Ha He. destruct (He Ha) as (_ & _ & _ & Hb). unfold content_of. case_bool_decide as Hd; [by exists d|].
  destruct (Hb Hd) as [_ [c Hc]]. by exists c.
Qed.

Lemma content_keeps B B' e d c : alive e = true -> entry_ok B e -> keeps B B' ->
  content_of B e d c -> content_of B' e d c.
Proof.
  intros Ha He Hk. destruct (He Ha) as (_ & _ & _ & Hb). unfold content_of. case_bool_decide as Hd; [done|].
  destruct (Hb Hd) as [Hs _]. apply Hk, Hs.
Qed.

(** The two kinds an entry with a present file has. *)
Lemma entry_present B e : alive e = true -> entry_ok B e -> url e <> "" ->
  kind e = KCreate /\ orig e = "" \/ kind e = KUpdated /\ orig e <> "".
Proof. intros Ha He Hu. destruct (He Ha) as (Hk & _). destruct (kind e); naive_solver. Qed.

Section Preserved.
Context (w0 : World) (st : St).
Hypothesis R : restorable w0 st.

(** The entry of a present file, with the entries before and after it. *)
Lemma present_cases p d : place p -> view (store_of st) !! p = Some d ->
  (byCurrent (sess st) !! p = None /\ byOrigin (sess st) !! p = None)
  \/ exists l1 e l2, order (sess st) = l1 ++ e :: l2 /\ byCurrent (sess st) !! p = Some (length l1)
      /\ alive e = true /\ url e = p /\ entry_ok (view (store_of st)) e
      /\ (forall B X, undo B l2 X !! p = X !! p)
      /\ (forall B X x, undo B l2 (<[p := x]> X) = <[p := x]> (undo B l2 X))
      /\ (forall B X, undo B l2 (delete p X) = delete p (undo B l2 X)).
Proof.
  intros Hp Hd. pose proof (rs_tracked _ _ R) as T.
  assert (is_Some (vis (store_of st) !! p)) as Hv by (rewrite vis_place by done; by eexists).
  destruct (byCurrent (sess st) !! p) as [i|] eqn:Ec; [|left; split; [done|by eapply tracked_fresh]].
  right. destruct (tracked_entry _ _ _ _ _ _ T Hv Ec) as (l1 & e & l2 & Eo & -> & Ha & Hu & Hp0 & Ht).
  exists l1, e, l2. pose proof (rs_entries _ _ R) as He. rewrite Eo in He.
  apply Forall_app in He as [_ [He _]%list.Forall_cons]. repeat (split; [done|]).
  split; [intros; by apply undo_frame_lookup|]. split; intros; [by apply undo_frame_insert|by apply undo_frame_delete].
Qed.

Lemma same_maps l : set_order l (sess st) = set_current (byCurrent (sess st)) (set_order l (sess st)).
Proof. done. Qed.

Lemma spare_not_place b p : spare b -> place p -> p <> b.
Proof. intros (_ & _ & A) (_ & _ & C) ->. congruence. Qed.

(** A store after the backup [b] of the file [p] and a change of that file to [x]. *)
Section Backed.
Context (p b d : string) (x : option string) (w' : World).
Hypothesis Hp : place p.
Hypothesis Hs : spare b.
Hypothesis Ed : view (store_of st) !! p = Some d.
Hypothesis Hfr : view (store_of st) !! b = None.
Hypothesis Ew : view w' = partial_alter (fun _ => x) p (<[b := d]> (view (store_of st))).
Hypothesis Hdir : is_dir td w'.

Lemma backed_keeps : keeps (view (store_of st)) (view w').
Proof.
  rewrite Ew. intros q y Hq Hy. rewrite lookup_partial_alter_ne, lookup_insert_ne; [done| |]; intros ->; [congruence|].
  destruct Hp as (_ & _ & Hu). congruence.
Qed.

Lemma backed_backup : view w' !! b = Some d.
Proof. rewrite Ew, lookup_partial_alter_ne, lookup_insert_eq; [done|]. by apply spare_not_place. Qed.

Lemma backed_vis : vis w' = partial_alter (fun _ => x) p (vis (store_of st)).
Proof.
  destruct Hs as (_ & _ & Hsu), Hp as (_ & _ & Hu).
  apply map_eq. intros q. rewrite lookup_partial_alter, !vis_lookup, Ew, lookup_partial_alter, lookup_insert.
  destruct (decide (p = q)) as [->|]; [by rewrite Hu|]. case_decide as Hq; [by subst; rewrite Hsu|done].
Qed.

Lemma backed_vis_p : vis (store_of st) !! p = Some d.
Proof. by rewrite vis_place. Qed.

Lemma Update_fresh nd : x = Some nd -> byCurrent (sess st) !! p = None -> byOrigin (sess st) !! p = None ->
  restorable w0 (mkSt (trackUpdate w' p b (sess st)) w').
Proof.
  intros Ex Ec Eg. pose proof backed_vis as Hvis. rewrite Ex in Hvis. pose proof Hp as (Hf & Hn & Hu).
  change (vis w' = <[p := nd]> (vis (store_of st))) in Hvis.
  destruct (trackUpdate_fresh w' p b (sess st) Hn Ec Eg) as [D ->].
  apply restorable_append; [done|done|apply backed_keeps|done| | |].
  - intros _. cbn [kind orig url backup]. split; [done|]. split; [done|]. split; [done|].
    intros _. split; [done|]. rewrite backed_backup. by eexists.
  - apply (tracked_append _ _ _ (vis (store_of st))); cbn [alive url orig]; try done; [apply (rs_tracked _ _ R)| |].
    + intros _. rewrite Hvis, lookup_insert_eq. by eexists.
    + intros q _ Hq _. by rewrite Hvis, lookup_insert_ne.
  - rewrite (undo_updated _ _ _ nd d); cbn [alive kind url orig]; try done.
    + rewrite Hvis, delete_insert_eq, insert_delete_id; [done|apply backed_vis_p].
    + by rewrite Hvis, lookup_insert_eq.
    + unfold content_of. cbn [backup]. rewrite bool_decide_eq_false_2 by apply Hs. apply backed_backup.
Qed.

Lemma Delete_fresh : x = None -> byCurrent (sess st) !! p = None -> byOrigin (sess st) !! p = None ->
  restorable w0 (mkSt (trackDelete w' p b (sess st)) w').
Proof.
  intros Ex Ec Eg. pose proof backed_vis as Hvis. rewrite Ex in Hvis. pose proof Hp as (Hf & Hn & Hu).
  change (vis w' = delete p (vis (store_of st))) in Hvis.
  destruct (trackDelete_fresh w' p b (sess st) Hn Ec Eg) as [D ->].
  apply restorable_append; [done|done|apply backed_keeps|done| | |].
  - intros _. cbn [kind orig url backup]. split; [split; [done|split; [done|apply Hs]]|]. split; [done|]. split; [done|].
    intros _. split; [done|]. rewrite backed_backup. by eexists.
  - apply (tracked_append _ _ _ (vis (store_of st))); cbn [alive url orig]; try done; [apply (rs_tracked _ _ R)| |].
    + intros _ _. by rewrite Hvis, lookup_delete_eq.
    + intros q _ _ Hq. by rewrite Hvis, lookup_delete_ne.
  - rewrite (undo_deleted _ _ _ d); cbn [alive kind url orig backup]; try done; [|apply Hs|apply backed_backup].
    rewrite Hvis, insert_delete_id; [done|apply backed_vis_p].
Qed.

Section Found.
Context (l1 : list changeEntry) (e : changeEntry) (l2 : list changeEntry).
Hypothesis Eo : order (sess st) = l1 ++ e :: l2.
Hypothesis Ec : byCurrent (sess st) !! p = Some (length l1).
Hypothesis Ha : alive e = true.
Hypothesis Hue : url e = p.
Hypothesis He : entry_ok (view (store_of st)) e.
Hypothesis Hfl : forall B X, undo B l2 X !! p = X !! p.
Hypothesis Hfi : forall B X y, undo B l2 (<[p := y]> X) = <[p := y]> (undo B l2 X).
Hypothesis Hfd : forall B X, undo B l2 (delete p X) = delete p (undo B l2 X).

Lemma found_url : url e <> "".
Proof. rewrite Hue. apply Hp. Qed.

Lemma found_at : order (sess st) !! length l1 = Some e.
Proof. by rewrite Eo, lookup_middle. Qed.

Lemma found_backup : backup e <> "" -> spare (backup e) /\ is_Some (view w' !! backup e).
Proof. apply (entry_ok_keeps _ _ _ backed_keeps He Ha). Qed.

(** The content that undoing the entry gives back, and the backup that keeps
    it when the entry had none. *)
Lemma found_content b' : b' = (if decide (backup e = "") then b else backup e) ->
  exists c, content_of (view (store_of st)) e d c /\ view w' !! b' = Some c /\ spare b'.
Proof.
  intros ->. destruct (content_exists _ e d Ha He) as [c Hc]. exists c. split; [done|].
  pose proof (content_keeps _ _ _ _ _ Ha He backed_keeps Hc) as Hc'. unfold content_of in Hc'.
  case_decide as Hb.
  - rewrite bool_decide_eq_true_2 in Hc' by done. subst c. split; [apply backed_backup|done].
  - rewrite bool_decide_eq_false_2 in Hc' by done. split; [done|by apply found_backup].
Qed.

Lemma Update_found nd : x = Some nd -> restorable w0 (mkSt (trackUpdate w' p b (sess st)) w').
Proof.
  intros Ex. pose proof backed_vis as Hvis. rewrite Ex in Hvis. change (vis w' = <[p := nd]> (vis (store_of st))) in Hvis.
  pose proof found_url as Hn. assert (Hnp : p <> "") by apply Hp. destruct (He Ha) as (_ & _ & He3 & _).
  assert (Htouch : forall k b' D, tracked (byCurrent (sess st)) (byOrigin (sess st))
      (<[length l1 := mkEntry k (orig e) p b' true D]> (order (sess st))) (vis w')).
  { intros k b' D. eapply (tracked_touch _ _ _ _ _ _ e _ (rs_tracked _ _ R) found_at); cbn [alive orig url]; try done.
    - rewrite Hue, Hvis, lookup_insert_eq. by eexists.
    - intros q Hq. rewrite Hvis, lookup_insert_ne; [done|congruence]. }
  destruct (entry_present _ _ Ha He Hn) as [[Hkd Ho]|[Hkd Ho]];
    destruct (trackUpdate_found w' p b (sess st) l1 e l2 Eo Ec Ha Hue ltac:(auto)) as [D ->]; rewrite same_maps;
    (eapply (restorable_replace w0 st w' l1 e l2); [done|done|apply backed_keeps|done| |apply Htouch|]).
  - rewrite Hkd, Ho, decide_False by tauto. intros _. cbn [kind orig url backup].
    split; [by rewrite <- Hue|]. split; [done|]. split; [done|exact found_backup].
  - rewrite Hvis, Hfi, !undo_created; cbn [kind alive url]; rewrite ?Hue; try done.
    by rewrite delete_insert_eq.
  - rewrite Hkd. destruct (found_content _ eq_refl) as (c & _ & Hb & Hsp). intros _. cbn [kind orig url backup].
    split; [by rewrite <- Hue|]. split; [done|]. split; [exact He3|].
    rewrite (decide_ext _ (backup e = "")) by (split; [by intros [_ ?]|intros ?; split; [congruence|done]]). intros _. split; [done|by eexists].
  - destruct (found_content _ eq_refl) as (c & Hc & Hb & Hsp).
    rewrite Hvis, Hfi. set (X := undo (view w') l2 (vis (store_of st))).
    assert (HX : X !! p = Some d) by (unfold X; rewrite Hfl; apply backed_vis_p).
    rewrite (undo_updated (view (store_of st)) e X d c), (undo_updated _ _ _ nd c);
      cbn [kind alive url orig]; rewrite ?Hue; try done.
    + by rewrite delete_insert_eq.
    + by rewrite lookup_insert_eq.
    + unfold content_of. cbn [backup]. rewrite (decide_ext _ (backup e = "")) by (split; [by intros [_ ?]|intros ?; split; [congruence|done]]).
      rewrite bool_decide_eq_false_2; [done|apply Hsp].
Qed.

Lemma Delete_found : x = None -> restorable w0 (mkSt (trackDelete w' p b (sess st)) w').
Proof.
  intros Ex. pose proof backed_vis as Hvis. rewrite Ex in Hvis. change (vis w' = delete p (vis (store_of st))) in Hvis.
  pose proof found_url as Hn. destruct (He Ha) as (_ & _ & He3 & _).
  assert (Hgone : vis w' !! url e = None) by (by rewrite Hue, Hvis, lookup_delete_eq).
  assert (Hothers : forall r, r <> url e -> vis w' !! r = vis (store_of st) !! r).
  { intros r Hr. rewrite Hvis, lookup_delete_ne; [done|congruence]. }
  destruct (entry_present _ _ Ha He Hn) as [[Hkd Ho]|[Hkd Ho]].
  - rewrite (trackDelete_created w' p b (sess st) l1 e l2 Eo Ec Hkd Ho).
    eapply (restorable_replace w0 st w' l1 e l2); [done|done|apply backed_keeps|done|done| |].
    + rewrite <- Hue. eapply (tracked_kill _ _ _ _ _ _ e _ (rs_tracked _ _ R) found_at); done.
    + rewrite (undo_created _ e) by done. by rewrite Hvis, Hfd, Hue.
  - destruct (trackDelete_found w' p b (sess st) l1 e l2 Eo Ec Hkd Ho) as [D ->]. rewrite same_maps.
    destruct (found_content _ eq_refl) as (c & Hc & Hb & Hsp).
    eapply (restorable_replace w0 st w' l1 e l2); [done|done|apply backed_keeps|done| | |].
    + intros _. cbn [kind orig url backup]. split; [split; [done|split; [done|apply Hsp]]|]. split; [done|].
      split; [exact He3|]. intros _. split; [done|by eexists].
    + eapply (tracked_gone _ _ _ _ _ _ e _ (rs_tracked _ _ R) found_at); done.
    + rewrite Hvis, Hfd. set (X := undo (view w') l2 (vis (store_of st))).
      assert (HX : X !! p = Some d) by (unfold X; rewrite Hfl; apply backed_vis_p).
      rewrite (undo_updated (view (store_of st)) e X d c), (undo_deleted _ _ _ c);
        cbn [kind alive url orig backup]; rewrite ?Hue; try done; [apply Hsp|apply Hp].
Qed.
End Found.
End Backed.

Lemma restorable_Update now p nd : place p -> backup_ok st p now -> restorable w0 (Update now p nd st).2.
Proof.
  intros Hp [Hs Hfr]. pose proof (rs_active _ _ R) as Hact. pose proof Hp as (Hf & Hn & Hu).
  destruct (view (store_of st) !! p) as [d|] eqn:Ed; [|by rewrite (Update_missing st p Hact Hf now nd Ed)].
  destruct (Update_effect st p Hact Hf now nd d Ed (conj Hs Hfr)) as (w' & E & Ew & Hdir). rewrite E. cbn [snd].
  pose proof (Hdir td (rs_dir _ _ R)) as Hdir'.
  destruct (present_cases p d Hp Ed) as [[Ec Eg]|(l1 & e & l2 & Eo & Ec & Ha & Hue & He & Hfl & Hfi & Hfd)].
  - by eapply Update_fresh.
  - by eapply Update_found.
Qed.

Lemma restorable_Delete now p : place p -> backup_ok st p now -> restorable w0 (Delete now p st).2.
Proof.
  intros Hp [Hs Hfr]. pose proof (rs_active _ _ R) as Hact. pose proof Hp as (Hf & Hn & Hu).
  destruct (view (store_of st) !! p) as [d|] eqn:Ed; [|by rewrite (Delete_missing st p Hact Hf now Ed)].
  destruct (Delete_effect st p Hact Hf now d Ed (conj Hs Hfr) (spare_not_place _ _ Hs Hp)) as (w' & E & Ew & Hdir).
  rewrite E. cbn [snd]. pose proof (Hdir td (rs_dir _ _ R)) as Hdir'.
  destruct (present_cases p d Hp Ed) as [[Ec Eg]|(l1 & e & l2 & Eo & Ec & Ha & Hue & He & Hfl & Hfi & Hfd)].
  - by eapply Delete_fresh.
  - by eapply Delete_found.
Qed.

(** A file may be added under a free name, or over one the session created. *)
Definition addable (p : string) : Prop :=
  byCurrent (sess st) !! p = None /\ view (store_of st) !! p = None
  \/ exists i, byCurrent (sess st) !! p = Some i /\ kind (entry_of (sess st) i) = KCreate.

Lemma restorable_Add p nd : place p -> addable p -> restorable w0 (Add p nd st).2.
Proof.
  intros Hp Hadd. pose proof Hp as (Hf & Hn & Hu).
  destruct (Add_effect st p (rs_active _ _ R) Hf nd) as (w' & E & Ew & Hdir). rewrite E. cbn [snd].
  pose proof (Hdir td (rs_dir _ _ R)) as Hdir'. pose proof (vis_insert _ _ _ _ Hu Ew) as Hvis.
  assert (Hk : keeps (view (store_of st)) (view w')) by (rewrite Ew; by apply keeps_insert).
  destruct Hadd as [[Ec Ev]|(i & Ec & Hkd)].
  - destruct (trackAdd_fresh w' p (sess st) Ec) as [D ->].
    apply restorable_append; [done|done|done|done| | |].
    + intros _. cbn [kind orig url backup]. done.
    + apply (tracked_append _ _ _ (vis (store_of st))); cbn [alive url orig]; try done; [apply (rs_tracked _ _ R)| |].
      * intros _. rewrite Hvis, lookup_insert_eq. by eexists.
      * intros q _ Hq _. by rewrite Hvis, lookup_insert_ne.
    + rewrite undo_created by done. cbn [url]. rewrite Hvis, delete_insert_eq, delete_id; [done|by rewrite vis_place].
  - destruct (tr_cur _ _ _ _ (rs_tracked _ _ R) p i Ec) as (_ & e & Hi & Ha & Hue).
    assert (kind e = KCreate) as Hke by (unfold entry_of in Hkd; by rewrite Hi in Hkd).
    destruct Hue as [Hue|(_ & Hue & _)]; [|congruence].
    destruct (tr_own _ _ _ _ (rs_tracked _ _ R) i e Hi Ha ltac:(by rewrite Hue)) as [_ [d Hd]].
    rewrite Hue, vis_place in Hd by done.
    destruct (present_cases p d Hp Hd) as [[Ec' _]|(l1 & e' & l2 & Eo & Ec' & _ & _ & He & _ & Hfi & _)]; [congruence|].
    assert (i = length l1) as -> by congruence. rewrite Eo, lookup_middle in Hi. injection Hi as ->.
    destruct (trackAdd_found w' p (sess st) l1 e l2 Eo Ec) as [D ->]. rewrite same_maps.
    eapply (restorable_replace w0 st w' l1 e l2); [done|done|done|done| | |].
    + pose proof (entry_ok_keeps _ _ _ Hk He) as He'. intros _. specialize (He' Ha). rewrite Hke in He'. exact He'.
    + eapply (tracked_touch _ _ _ _ _ _ e _ (rs_tracked _ _ R)); cbn [alive orig url]; try done.
      * by rewrite Eo, lookup_middle.
      * by rewrite Hue.
      * rewrite Hue, Hvis, lookup_insert_eq. by eexists.
      * intros q Hq. rewrite Hvis, lookup_insert_ne; [done|congruence].
    + rewrite Hvis, Hfi, !undo_created; cbn [kind alive url]; rewrite ?Hue; try done. by rewrite delete_insert_eq.
Qed.

(** A present file may move to a free name that is not the origin of an entry
    made after its own. *)
Definition movable (p q : string) : Prop :=
  is_Some (view (store_of st) !! p) -> view (store_of st) !! q = None /\ byCurrent (sess st) !! q = None
  /\ forall i j, byCurrent (sess st) !! p = Some i -> byOrigin (sess st) !! q = Some j -> j <= i.

Lemma untouched_after l1 e l2 q : order (sess st) = l1 ++ e :: l2 -> q <> "" -> byCurrent (sess st) !! q = None ->
  (forall j, byOrigin (sess st) !! q = Some j -> j <= length l1) -> forall e', e' ∈ l2 -> ~ touches e' q.
Proof.
  intros Eo Hq Hc Ho e' [k Hk]%list_elem_of_lookup [Ha' He'].
  assert (order (sess st) !! (length l1 + S k) = Some e') as Hi.
  { rewrite Eo, lookup_app_r by lia. by replace (length l1 + S k - length l1) with (S k) by lia. }
  destruct He' as [He'|He'].
  - destruct (tr_own _ _ _ _ (rs_tracked _ _ R) _ _ Hi Ha') as [Hx _]; [by rewrite He'|]. congruence.
  - pose proof (tr_org _ _ _ _ (rs_tracked _ _ R) _ _ Hi Ha' ltac:(by rewrite He')) as Hx.
    rewrite He' in Hx. apply Ho in Hx. lia.
Qed.

Lemma Move_found p q d w' l1 e l2 : place p -> place q -> p <> q ->
  view (store_of st) !! p = Some d -> view (store_of st) !! q = None -> byCurrent (sess st) !! q = None ->
  (forall j, byOrigin (sess st) !! q = Some j -> j <= length l1) ->
  vis w' = <[q := d]> (delete p (vis (store_of st))) -> keeps (view (store_of st)) (view w') -> is_dir td w' ->
  order (sess st) = l1 ++ e :: l2 -> byCurrent (sess st) !! p = Some (length l1) ->
  alive e = true -> url e = p -> entry_ok (view (store_of st)) e ->
  (forall B X, undo B l2 X !! p = X !! p) -> (forall B X, undo B l2 (delete p X) = delete p (undo B l2 X)) ->
  restorable w0 (mkSt (trackMove p q (sess st)) w').
Proof.
  intros Hp Hq Hne Ed Evq Ecq Hoq Hvis Hk Hdir' Eo Ec Ha Hue He Hfl Hfd.
  pose proof Hp as (Hf & Hn & Hu). pose proof Hq as (Hfq & Hnq & Huq).
  assert (Hafter := untouched_after l1 e l2 q Eo Hnq Ecq Hoq).
  rewrite (trackMove_found p q (sess st) l1 e l2 Eo Ec)
    by (destruct (entry_present _ _ Ha He ltac:(by rewrite Hue)) as [[]|[]]; auto).
  pose proof (entry_ok_keeps _ _ _ Hk He) as He'.
  eapply (restorable_replace w0 st w' l1 e l2); [done|done|done|done| | |].
  - intros _. destruct (He' Ha) as (K1 & K2 & K3 & K4). cbn [set_url kind orig url backup].
    split; [|split; [done|split; [exact K3|exact K4]]].
    destruct (entry_present _ _ Ha He ltac:(by rewrite Hue)) as [[-> Ho]|[-> Ho]]; done.
  - rewrite <- Hue. eapply (tracked_move _ _ _ _ _ _ e _ (rs_tracked _ _ R)); cbn [set_url alive orig url]; try done.
    + by rewrite Eo, lookup_middle.
    + by rewrite Hue.
    + congruence.
    + by rewrite Hue, Hvis, lookup_insert_ne, lookup_delete_eq.
    + rewrite Hvis, lookup_insert_eq. by eexists.
    + intros r Hr1 Hr2. rewrite Hvis, lookup_insert_ne, lookup_delete_ne; congruence.
  - rewrite Hvis, undo_frame_insert, Hfd by done. set (X := undo (view w') l2 (vis (store_of st))).
    assert (HX : X !! p = Some d) by (unfold X; rewrite Hfl; by rewrite vis_place).
    assert (HXq : X !! q = None) by (unfold X; rewrite undo_frame_lookup by done; by rewrite vis_place).
    assert (Hdq : delete q (<[q := d]> (delete p X)) = delete p X).
    { by rewrite delete_insert_eq, delete_id by (by rewrite lookup_delete_ne). }
    destruct (entry_present _ _ Ha He ltac:(by rewrite Hue)) as [[Hkd Ho]|[Hkd Ho]].
    + rewrite !undo_created; cbn [set_url kind alive url]; rewrite ?Hue; done.
    + destruct (content_exists _ e d Ha He) as [c Hc].
      rewrite (undo_updated (view (store_of st)) e X d c), (undo_updated _ (set_url q e) _ d c);
        cbn [set_url kind alive url orig]; rewrite ?Hue, ?Hdq; try done; [by rewrite lookup_insert_eq|].
      exact (content_keeps _ _ e d c Ha He Hk Hc).
Qed.

Lemma restorable_Move p q : place p -> place q -> p <> q -> movable p q -> restorable w0 (Move p q st).2.
Proof.
  intros Hp Hq Hne Hm. pose proof Hp as (Hf & Hn & Hu). pose proof Hq as (Hfq & Hnq & Huq).
  destruct (view (store_of st) !! p) as [d|] eqn:Ed; [|by rewrite (Move_missing st p (rs_active _ _ R) Hf q Ed)].
  destruct (Move_effect st p (rs_active _ _ R) Hf q d Hfq Hne Ed) as (w' & E & Ew & Hdir). rewrite E. cbn [snd].
  destruct (Hm ltac:(by eexists)) as (Evq & Ecq & Hoq). pose proof (Hdir td (rs_dir _ _ R)) as Hdir'.
  assert (Hvis : vis w' = <[q := d]> (delete p (vis (store_of st)))).
  { apply map_eq. intros r. rewrite lookup_insert, lookup_delete, !vis_lookup, Ew, lookup_insert, lookup_delete.
    repeat case_decide; subst; by rewrite ?Huq, ?Hu. }
  assert (Hk : keeps (view (store_of st)) (view w')).
  { rewrite Ew. eapply store_keeps_trans; [by apply (keeps_delete _ p)|by apply keeps_insert]. }
  destruct (present_cases p d Hp Ed) as [[Ec Eg]|(l1 & e & l2 & Eo & Ec & Ha & Hue & He & Hfl & Hfi & Hfd)].
  - rewrite (trackMove_fresh p q (sess st) Ec Ecq Eg).
    apply restorable_append; [done|done|done|done|done| |].
    + apply (tracked_append _ _ _ (vis (store_of st))); cbn [alive url orig]; try done; [apply (rs_tracked _ _ R)| | |].
      * intros _. rewrite Hvis, lookup_insert_eq. by eexists.
      * intros _ _. by rewrite Hvis, lookup_insert_ne, lookup_delete_eq.
      * intros r _ Hr1 Hr2. by rewrite Hvis, lookup_insert_ne, lookup_delete_ne.
    + rewrite (undo_updated _ _ _ d d); cbn [alive kind url orig]; try done; [|by rewrite Hvis, lookup_insert_eq].
      rewrite Hvis, delete_insert_eq, (delete_id (delete p _) q), insert_delete_id; [done|by rewrite vis_place|].
      by rewrite lookup_delete_ne, vis_place.
  - eapply (Move_found p q d w' l1 e l2); try done. intros j. by apply Hoq.
Qed.

(** A replacement fails and changes nothing, or changes the file as an update does. *)
Lemma restorable_Replace now p old new all expected : place p -> backup_ok st p now ->
  restorable w0 (ReplaceText now p old new all expected st).2.
Proof.
  intros Hp [Hs Hfr]. pose proof (rs_active _ _ R) as Hact. pose proof Hp as (Hf & Hn & Hu).
  unfold ReplaceText. rewrite (bind_eq _ _ _ _ _ (active_eq st Hact)).
  case_bool_decide; [exact R|]. case_bool_decide; [exact R|].
  rewrite (bind_eq _ _ _ _ _ (exists_eq st p Hf)). case_bool_decide as Hex; cbn [negb]; [|exact R].
  destruct Hex as [d Ed]. rewrite (bind_eq _ _ _ _ _ (read_eq _ st d (download_law _ _ _ Hf Ed))). cbv zeta.
  destruct (check_occurrences _ _ _ _); [exact R|]. destruct (GenerateDiff _ _ _ _) as [[? stats]|]; [|exact R].
  set (nd := Replace d old new _).
  destruct (backup_effect st p now d Hf Ed (conj Hs Hfr)) as (w1 & E1 & V1 & D1).
  rewrite (bind_eq _ _ _ _ _ E1). destruct (upload_law p nd w1 Hf) as (w2 & E2 & V2 & D2).
  rewrite (bind_eq _ _ _ _ _ (write_eq _ (mkSt (sess st) w1) w2 E2)).
  assert (Ew : view w2 = <[p := nd]> (<[backup_dst (sess st) p now := d]> (view (store_of st)))) by (by rewrite V2, V1).
  pose proof (D2 _ (D1 _ (rs_dir _ _ R))) as Hdir.
  match goal with |- restorable w0 ?t.2 =>
    assert (t.2 = mkSt (trackUpdate w2 p (backup_dst (sess st) p now) (sess st)) w2) as -> by done end.
  destruct (present_cases p d Hp Ed) as [[Ec Eg]|(l1 & e & l2 & Eo & Ec & Ha & Hue & He & Hfl & Hfi & Hfd)].
  - by eapply Update_fresh.
  - by eapply Update_found.
Qed.
End Preserved.

(** *** The rollback *)
Lemma create_effect p w : isfile p -> exists w', CreateDir (URLParent p) w = (None, w') /\ view w' = view w
  /\ vis w' = vis w /\ (is_dir td w -> is_dir td w').
Proof.
  intros Hf. destruct (create_law p w Hf) as (w' & E & V & D). exists w'. split; [done|]. split; [done|].
  split; [unfold vis; by rewrite V|auto].
Qed.

(** One call of the rollback and what it leaves. *)
Definition undone (w w' : World) (V : gmap string string) : Prop :=
  vis w' = V /\ keeps (view w) (view w') /\ (is_dir td w -> is_dir td w').

Lemma undone_none w : exists w', ([] : list RollbackError, w) = ([], w') /\ undone w w' (vis w).
Proof. exists w. split; [done|]. split; [done|]. split; [apply store_keeps_refl|auto]. Qed.

Lemma restore_effect e w : alive e = true -> entry_ok (view w) e ->
  exists w', restore e w = ([], w') /\ undone w w' (restored (view w) e (vis w)).
Proof.
  intros Ha He. destruct (He Ha) as (_ & _ & Ho & Hb). unfold restore, restored.
  case_bool_decide as Eb; [apply undone_none|]. case_bool_decide as Eo; [apply undone_none|]. cbn [orb].
  destruct (Hb Eb) as ((Hfb & _ & _) & d & Hd). destruct (Ho Eo) as (Hfo & _ & Huo).
  rewrite (download_law _ _ _ Hfb Hd), Hd.
  destruct (create_effect _ w Hfo) as (w1 & -> & V1 & W1 & D1).
  destruct (upload_law (orig e) d w1 Hfo) as (w2 & -> & V2 & D2). exists w2. split; [done|].
  split; [rewrite (vis_insert w1 w2 _ _ Huo V2); by rewrite W1|].
  split; [rewrite V2, V1; by apply keeps_insert|auto].
Qed.

Lemma move_back_effect e w : alive e = true -> entry_ok (view w) e -> (url e <> "" -> is_Some (vis w !! url e)) ->
  exists w', move_back e w = ([], w') /\ undone w w' (moved_back e (vis w)).
Proof.
  intros Ha He Hpres. destruct (He Ha) as (_ & Hu & Ho & _). unfold move_back, moved_back.
  case_bool_decide as Eu; [apply undone_none|]. case_bool_decide as Eo; [apply undone_none|].
  case_bool_decide as Euo; [apply undone_none|]. cbn [negb andb].
  destruct (Hpres Eu) as [d Hd]. pose proof (Hu Eu) as Hpu. pose proof (Ho Eo) as Hpo.
  rewrite Hd. rewrite vis_place in Hd by done. destruct Hpu as (Hfu & _ & Huu), Hpo as (Hfo & _ & Huo).
  rewrite exists_law, bool_decide_eq_true_2 by (done || by eexists).
  destruct (move_law _ _ w d Hfu Hfo Euo Hd) as (w1 & -> & V1 & D1). exists w1. split; [done|]. split; [|split].
  - apply map_eq. intros r. rewrite lookup_insert, lookup_delete, !vis_lookup, V1, lookup_insert, lookup_delete.
    repeat case_decide; subst; by rewrite ?Huu, ?Huo.
  - rewrite V1. eapply store_keeps_trans; [by apply (keeps_delete _ (url e))|by apply keeps_insert].
  - auto.
Qed.

Lemma rollback_entry_effect e w : entry_ok (view w) e ->
  (alive e = true -> url e <> "" -> is_Some (vis w !! url e)) ->
  exists w', rollback_entry e w = ([], w') /\ undone w w' (undo_entry (view w) e (vis w)).
Proof.
  intros He Hpres. unfold rollback_entry, undo_entry. destruct (alive e) eqn:Ha; cbn [negb]; [|apply undone_none].
  destruct (kind e) eqn:Hk; [apply undone_none| | |by apply restore_effect].
  - case_bool_decide as Eu; [apply undone_none|]. destruct (Hpres eq_refl Eu) as [d Hd].
    destruct (He Ha) as (_ & Hu & _). pose proof (Hu Eu) as Hp. rewrite vis_place in Hd by done.
    destruct Hp as (Hf & _ & Huu). destruct (delete_law _ w d Hf Hd) as (w1 & -> & V1 & D1).
    exists w1. split; [done|]. split; [by apply vis_delete|]. split; [rewrite V1; by apply keeps_delete|auto].
  - destruct (move_back_effect e w Ha He (Hpres eq_refl)) as (w1 & -> & V1 & K1 & D1).
    destruct (restore_effect e w1 Ha (entry_ok_keeps _ _ _ K1 He)) as (w2 & -> & V2 & K2 & D2).
    exists w2. split; [done|]. split; [|split; [by eapply store_keeps_trans|auto]].
    rewrite V2, V1. change (restored (view w1) e) with (restored (view w1) e).
    unfold restored. case_bool_decide as Eb; [done|]. destruct (He Ha) as (_ & _ & _ & Hb).
    destruct (Hb Eb) as ((_ & _ & Hsu) & c & Hc). by rewrite Hc, (K1 _ _ Hsu Hc).
Qed.

(** No entry is undone onto the file of one undone after it. *)
Definition stacked (es : list changeEntry) : Prop := forall i j ei ej, es !! i = Some ei -> es !! j = Some ej ->
  i < j -> alive ei = true -> url ei <> "" -> ~ touches ej (url ei).

Lemma tracked_stacked cur org es V : tracked cur org es V -> stacked es.
Proof.
  intros T i j ei ej Hi Hj Hlt Ha Hu [Haj [E|E]].
  - destruct (tr_own _ _ _ _ T i ei Hi Ha Hu) as [K1 _].
    destruct (tr_own _ _ _ _ T j ej Hj Haj ltac:(by rewrite E)) as [K2 _]. rewrite E, K1 in K2. injection K2. lia.
  - by apply (tr_order _ _ _ _ T i j ei ej).
Qed.

Lemma rollback_entries_effect es : forall w, stacked es -> Forall (entry_ok (view w)) es ->
  (forall e, e ∈ es -> alive e = true -> url e <> "" -> is_Some (vis w !! url e)) ->
  exists w', rollback_entries (rev es) w = ([], w') /\ undone w w' (undo (view w) es (vis w)).
Proof.
  induction es as [|e es IH] using rev_ind; intros w Hst Hok Hpres; [apply undone_none|].
  rewrite rev_app_distr. cbn [rev app rollback_entries].
  apply Forall_app in Hok as [Hok1 [Hok2 _]%list.Forall_cons].
  destruct (rollback_entry_effect e w Hok2) as (w1 & -> & V1 & K1 & D1); [apply Hpres; set_solver|].
  destruct (IH w1) as (w2 & -> & V2 & K2 & D2).
  - intros i j ei ej Hi Hj. apply (Hst i j); by apply lookup_app_l_Some.
  - eapply Forall_impl; [exact Hok1|]. intros. by eapply entry_ok_keeps.
  - intros e0 [i Hi]%list_elem_of_lookup Ha0 Hu0. rewrite V1.
    change (undo_entry (view w) e (vis w)) with (undo (view w) [e] (vis w)).
    rewrite (undo_frame_lookup (view w) [e] (vis w) (url e0) Hu0).
    + apply Hpres; [|done|done]. apply elem_of_app. left. by eapply list_elem_of_lookup_2.
    + intros e' ->%list_elem_of_singleton. apply (Hst i (length es)); [by apply lookup_app_l_Some| | |done|done].
      * by rewrite lookup_middle.
      * by eapply lookup_lt_Some.
  - exists w2. split; [done|]. split; [|split; [by eapply store_keeps_trans|auto]].
    rewrite V2, undo_app, V1. by apply undo_keeps.
Qed.

Lemma Rollback_restorable w0 st : restorable w0 st ->
  exists w', Rollback st = (Ok tt, mkSt (NewSessionState td) w')
    /\ forall q, under td q = false -> view w' !! q = view w0 !! q.
Proof.
  intros [A1 A2 A3 A4 A5 A6]. unfold Rollback. rewrite A1.
  destruct (rollback_entries_effect (order (sess st)) (store_of st)) as (w1 & -> & V1 & K1 & D1).
  { by eapply tracked_stacked. } { done. }
  { intros e [i Hi]%list_elem_of_lookup Ha Hu. by apply (tr_own _ _ _ _ A4 i e). }
  rewrite A2. destruct (delete_dir_law td w1 (D1 A3)) as (w2 & -> & V2). exists w2.
  split; [unfold reset; by rewrite A2|]. intros q Hq. rewrite V2 by done.
  pose proof (vis_lookup w1 q) as E1. pose proof (vis_lookup w0 q) as E0. rewrite Hq in E1, E0.
  by rewrite <- E1, <- E0, V1, A6.
Qed.

(** ** Sequences of operations *)
Inductive step :=
| DoDelete (now : Z) (path : string)
| DoMove (src dst : string)
| DoUpdate (now : Z) (path data : string)
| DoAdd (path data : string)
| DoReplace (now : Z) (path old new : string) (all : bool) (expected : Z).

(** The state after an operation, whether it succeeded or failed. *)
Definition run_step (st : St) (o : step) : St :=
  match o with
  | DoDelete now p => (Delete now p st).2
  | DoMove p q => (Move p q st).2
  | DoUpdate now p d => (Update now p d st).2
  | DoAdd p d => (Add p d st).2
  | DoReplace now p old new all expected => (ReplaceText now p old new all expected st).2
  end.

(** Backups get names of their own; a file is only added under a free name or
    over a file of the session, and only moved to a free name that is no origin
    of an entry made later. *)
Definition safe (st : St) (o : step) : Prop :=
  match o with
  | DoDelete now p | DoUpdate now p _ | DoReplace now p _ _ _ _ => place p /\ backup_ok st p now
  | DoMove p q => place p /\ place q /\ p <> q /\ movable st p q
  | DoAdd p _ => place p /\ addable st p
  end.

Fixpoint safe_run (st : St) (os : list step) : Prop :=
  match os with [] => True | o :: os => safe st o /\ safe_run (run_step st o) os end.

Lemma restorable_step w0 st o : restorable w0 st -> safe st o -> restorable w0 (run_step st o).
Proof.
  intros R. destruct o; cbn [safe run_step].
  - intros [? ?]. by apply restorable_Delete.
  - intros (? & ? & ? & ?). by apply restorable_Move.
  - intros [? ?]. by apply restorable_Update.
  - intros [? ?]. by apply restorable_Add.
  - intros [? ?]. by apply restorable_Replace.
Qed.

Lemma restorable_run w0 os : forall st, restorable w0 st -> safe_run st os -> restorable w0 (foldl run_step st os).
Proof.
  induction os as [|o os IH]; intros st R; [done|]. intros [Hs Hr]. apply IH; [by apply restorable_step|done].
Qed.

Lemma restorable_start w0 : is_dir td w0 -> restorable w0 (mkSt (NewSessionState td) w0).
Proof.
  intros Hd. split; cbn [sess store_of NewSessionState committed tempDir byCurrent byOrigin order]; try done.
  apply tracked_init.
Qed.

(** C10: whatever sequence of deletes, moves, updates, adds and replacements a
    session runs — successful or failing — a rollback succeeds, restores every
    file outside the session's directory to its content at the start, removes the
    files that were created, and leaves an empty session.  Files are only added
    or moved to names that are safe in the sense of [safe]; the examples of
    [PatchSession] show that each of these conditions is needed. *)
Theorem Rollback_restores w0 os :
  is_dir td w0 -> safe_run (mkSt (NewSessionState td) w0) os ->
  exists w', Rollback (foldl run_step (mkSt (NewSessionState td) w0) os) = (Ok tt, mkSt (NewSessionState td) w')
    /\ forall q, under td q = false -> view w' !! q = view w0 !! q.
Proof. intros Hd Hs. apply Rollback_restorable, restorable_run; [by apply restorable_start|done]. Qed.
End Restoring.

(** ** The store in memory satisfies the laws *)
Definition demo_file (p : string) : Prop := HasPrefix p "/w/" = true \/ HasPrefix p "/tmp/s/" = true.

#[local] Existing Instances memory_store whole_diff slash_host.

Lemma demo_file_dirs : ~ demo_file "/tmp/s".
Proof. intros [Hp|Hp]; vm_compute in Hp; discriminate Hp. Qed.

Definition demo_dir (t : string) (w : World) : Prop := t ∈ dirs w /\ files w !! t = None /\ ~ demo_file t.

Lemma demo_dir_kept t w fs ds : (forall p, ~ demo_file p -> fs !! p = files w !! p) -> dirs w ⊆ ds ->
  demo_dir t w -> demo_dir t (mkMem fs ds).
Proof. intros Hf Hd (K1 & K2 & K3). split; [by apply Hd|]. split; [|done]. cbn [files]. by rewrite Hf. Qed.

#[local] Program Instance memory_laws : StoreLaws demo_file := {| view := files; is_dir := demo_dir |}.
Next Obligation. done. Qed.
Next Obligation. intros p w d _ Hd. cbn. by rewrite Hd. Qed.
Next Obligation.
  intros p d w Hp. eexists. split; [done|]. split; [done|]. intros t. apply demo_dir_kept; [|done].
  intros q Hq. rewrite lookup_insert_ne; [done|]. by intros ->.
Qed.
Next Obligation.
  intros p w Hp. eexists. split; [done|]. split; [done|]. intros t. by apply demo_dir_kept; [|set_solver].
Qed.
Next Obligation.
  intros p w d Hp Hd. eexists. cbn. unfold mem_exists. rewrite bool_decide_eq_true_2 by (by eexists).
  split; [done|]. split; [done|]. intros t. apply demo_dir_kept; [|done].
  intros q Hq. rewrite lookup_delete_ne; [done|]. by intros ->.
Qed.
Next Obligation.
  intros p q w d Hp Hq Hne Hd. eexists. cbn. rewrite Hd. split; [done|]. split; [done|].
  intros t. apply demo_dir_kept; [|done].
  intros r Hr. rewrite lookup_insert_ne, lookup_delete_ne; [done| |]; by intros ->.
Qed.
Next Obligation.
  intros t w (K1 & K2 & K3). eexists. cbn. unfold mem_exists.
  rewrite bool_decide_eq_false_2 by (rewrite K2; by intros []). rewrite bool_decide_eq_true_2 by done.
  split; [done|]. intros q Hq. cbn [files].
  destruct (files w !! q) eqn:E; [by apply map_lookup_filter_Some|]. apply map_lookup_filter_None. by left.
Qed.

Definition demo_steps : list step :=
  [DoUpdate 1 "/w/a" "1"; DoMove "/w/a" "/w/c"; DoDelete 2 "/w/b"; DoAdd "/w/b" "new";
   DoReplace 3 "/w/c" "1" "2" true 0; DoUpdate 4 "/w/none" "x"; DoMove "/w/b" "/w/d"].

Ltac demo_place := split; [first [left; vm_compute; reflexivity | right; vm_compute; reflexivity]|split; [vm_compute; discriminate|vm_compute; reflexivity]].
Ltac demo_safe :=
  lazymatch goal with
  | |- place _ _ _ /\ backup_ok _ _ _ _ _ => split; [demo_place|split; [demo_place|vm_compute; reflexivity]]
  | |- place _ _ _ /\ addable _ _ _ => split; [demo_place|left; split; vm_compute; reflexivity]
  | |- _ => split; [demo_place|split; [demo_place|split; [discriminate|]]];
            intros _; split; [vm_compute; reflexivity|split; [vm_compute; reflexivity|]];
            intros i j Hi Hj; vm_compute in Hi, Hj; congruence
  end.

Lemma Rollback_restores_witness :
  let st := demo_start [("/w/a", "one"); ("/w/b", "two")] in
  visible (foldl run_step st demo_steps) <> visible st /\
  exists w', Rollback (foldl run_step st demo_steps) = (Ok tt, mkSt (NewSessionState "/tmp/s") w')
    /\ forall q, under "/tmp/s" q = false -> view w' !! q = view (store_of st) !! q.
Proof.
  cbv zeta. split; [vm_compute; discriminate|].
  apply (Rollback_restores demo_file "/tmp/s" (store_of (demo_start [("/w/a", "one"); ("/w/b", "two")])) demo_steps).
  - split; [vm_compute; reflexivity|]. split; [vm_compute; reflexivity|]. exact demo_file_dirs.
  - cbn [demo_steps safe_run safe].
    repeat (split; [demo_safe|]). exact I.
Defined.
