(* ===== verification/PatchParse.v ===== *)
(** * The parser of patches ([protocol/tool/service/system/patch/parser.go])

    The text between [*** Begin Patch] and [*** End Patch] is read with a
    cursor, here the bytes not yet consumed.  The tokenizer of the [parsly]
    library is a parameter. *)
From stdpp Require Import base gmap strings list fin_maps numbers sorting.
From Stdlib Require Import ZArith Lia Ascii.
From S2P Require Import Prelude GoStrings PatchLines.

Open Scope nat_scope.

Inductive PatchHunk :=
| AddFile (path contents : string)
| DeleteFile (path : string)
| UpdateFile (path movePath : string) (chunks : list UpdateChunk).

Inductive Token :=
| BeginPatch | EndPatch | TAddFile | TDeleteFile | TUpdateFile | MoveTo | ChunkHeaderCtx | ChunkHeaderSimple.

Definition fragment (t : Token) : string :=
  match t with
  | BeginPatch => "*** Begin Patch"
  | EndPatch => "*** End Patch"
  | TAddFile => "*** Add File:"
  | TDeleteFile => "*** Delete File:"
  | TUpdateFile => "*** Update File:"
  | MoveTo => "*** Move to:"
  | ChunkHeaderCtx => "@@ "
  | ChunkHeaderSimple => "@@"
  end.

Inductive Match := Matched (t : Token) | EOFMatch | NoMatch.

(** The two cursor methods the parser calls, with the bytes left after them;
    the optional token of [MatchAfterOptional] is white space. *)
Class Parsly := {
  MatchOne : Token -> list ascii -> Match * list ascii;
  MatchAfterOptional : list Token -> list ascii -> Match * list ascii }.

Inductive ParseError :=
| ExpectedBegin
| ContentAfterEnd
| MissingEnd
| UnexpectedToken
| ExpectedHeader (path : string)
| EmptyUpdateHunk (path : string)
| OutOfFuel.

(** ** Low-level helpers *)
Fixpoint line_of (l : list ascii) : list ascii :=
  match l with [] => [] | c :: l => if bool_decide (c = newline) then [] else c :: line_of l end.

(** [consumeUntil('\n')]: the text before the newline and the bytes after it. *)
Fixpoint consumeLine (l : list ascii) : list ascii * list ascii :=
  match l with
  | [] => ([], [])
  | c :: l => if bool_decide (c = newline) then ([], l) else let '(t, r) := consumeLine l in (c :: t, r)
  end.

Definition peekLine (l : list ascii) : list ascii := line_of l.

Definition starts (p : string) (l : list ascii) : bool := bool_decide (is_Some (cut_prefix (bytes p) l)).

Definition skip_class : list ascii := ascii_of_nat <$> [32; 9; 10; 13; 11; 12].

Fixpoint skipWhitespace (l : list ascii) : list ascii :=
  match l with [] => [] | c :: l' => if bool_decide (c ∈ skip_class) then skipWhitespace l' else l end.

(** ** Hunks *)
Section Parser.
Context `{Parsly}.

(** The [+] lines of [parseAddFile]. *)
Fixpoint add_lines (fuel : nat) (l : list ascii) : result ParseError (list ascii * list ascii) :=
  match fuel with
  | O => Err OutOfFuel
  | S fuel =>
      match peekLine l with
      | c :: _ =>
          if bool_decide (c = "+"%char) then
            let '(t, rest) := consumeLine (tail l) in
            '(more, rest) ← add_lines fuel rest;
            Ok (t ++ [newline] ++ more, rest)
          else Ok ([], l)
      | [] => Ok ([], l)
      end
  end.

Definition parseAddFile (fuel : nat) (l : list ascii) : result ParseError (PatchHunk * list ascii) :=
  let '(p, l) := consumeLine l in
  '(contents, l) ← add_lines fuel l;
  Ok (AddFile (TrimSpace (text p)) (text contents), l).

Definition parseDeleteFile (l : list ascii) : PatchHunk * list ascii :=
  let '(p, l) := consumeLine l in (DeleteFile (TrimSpace (text p)), l).

(** [lineLoop]: the old and new lines, whether the end-of-file marker closed the
  chunk, and the bytes after it. *)
Fixpoint chunk_lines (fuel : nat) (l : list ascii) (oldLines newLines : list string)
  : result ParseError (list string * list string * bool * list ascii) :=
  match fuel with
  | O => Err OutOfFuel
  | S fuel =>
      if bool_decide (l = []) then Ok (oldLines, newLines, false, l) else
      let line := peekLine l in
      if starts "*** End of File" line then Ok (oldLines, newLines, true, (consumeLine l).2)
      else if starts "@@" line then Ok (oldLines, newLines, false, l)
      else if starts "***" line then Ok (oldLines, newLines, false, l)
      else
        match line with
        | [] => chunk_lines fuel (consumeLine l).2 (oldLines ++ [""]) (newLines ++ [""])
        | c :: _ =>
            let '(t, rest) := consumeLine (tail l) in
            if bool_decide (c = "+"%char) then chunk_lines fuel rest oldLines (newLines ++ [text t])
            else if bool_decide (c = "-"%char) then chunk_lines fuel rest (oldLines ++ [text t]) newLines
            else if bool_decide (c = " "%char) then
              chunk_lines fuel rest (oldLines ++ [text t]) (newLines ++ [text t])
            else Ok (oldLines, newLines, false, l)
        end
  end.

(** The chunks of [parseUpdateFile]; [fuel] also bounds the lines of a chunk. *)
Fixpoint update_chunks (fuel : nat) (path : string) (firstChunk : bool) (l : list ascii)
  : result ParseError (list UpdateChunk * list ascii) :=
  match fuel with
  | O => Err OutOfFuel
  | S fuel' =>
      if starts "***" (peekLine l) then Ok ([], l) else
      let '(hMatch, l) := MatchAfterOptional [ChunkHeaderCtx; ChunkHeaderSimple] l in
      '(changeCtx, l) ←
        match hMatch with
        | Matched ChunkHeaderCtx => let '(c, l) := consumeLine l in Ok (TrimSpace (text c), l)
        | Matched ChunkHeaderSimple => Ok ("", (consumeLine l).2)
        | _ => if firstChunk then Ok ("", l) else Err (ExpectedHeader path)
        end;
      '(oldLines, newLines, isEOF, l) ← chunk_lines fuel l [] [];
      if bool_decide (oldLines = []) && bool_decide (newLines = []) then Err (EmptyUpdateHunk path) else
      let chunk := mkChunk changeCtx oldLines newLines isEOF in
      if negb (starts "@@" (peekLine l)) then Ok ([chunk], l)
      else '(chunks, l) ← update_chunks fuel' path false l; Ok (chunk :: chunks, l)
  end.

Definition parseUpdateFile (fuel : nat) (l : list ascii) : result ParseError (PatchHunk * list ascii) :=
  let '(p, l) := consumeLine l in
  let path := TrimSpace (text p) in
  let '(mv, l) := MatchAfterOptional [MoveTo] l in
  let '(movePath, l) :=
    match mv with
    | Matched MoveTo => let '(m, l) := consumeLine l in (TrimSpace (text m), l)
    | _ => ("", l)
    end in
  '(chunks, l) ← update_chunks fuel path true l;
  Ok (UpdateFile path movePath chunks, l).

Fixpoint parse_hunks (fuel : nat) (l : list ascii) : result ParseError (list PatchHunk) :=
  match fuel with
  | O => Err OutOfFuel
  | S fuel' =>
      let '(m, l) := MatchAfterOptional [EndPatch; TAddFile; TDeleteFile; TUpdateFile] l in
      match m with
      | Matched EndPatch =>
          let l := skipWhitespace (consumeLine l).2 in
          if bool_decide (l = []) then Ok [] else Err ContentAfterEnd
      | Matched TAddFile =>
          '(h, l) ← parseAddFile fuel l; hs ← parse_hunks fuel' l; Ok (h :: hs)
      | Matched TDeleteFile =>
          let '(h, l) := parseDeleteFile l in hs ← parse_hunks fuel' l; Ok (h :: hs)
      | Matched TUpdateFile =>
          '(h, l) ← parseUpdateFile fuel l; hs ← parse_hunks fuel' l; Ok (h :: hs)
      | EOFMatch => Err MissingEnd
      | _ => Err UnexpectedToken
      end
  end.

Definition Parse (patchText : string) : result ParseError (list PatchHunk) :=
  let input := bytes (TrimSpace patchText) in
  let '(m, l) := MatchOne BeginPatch input in
  match m with
  | Matched BeginPatch => parse_hunks (S (length input)) (consumeLine l).2
  | _ => Err ExpectedBegin
  end.
End Parser.

(** ** A tokenizer *)
Definition match_token (toks : list Token) (l : list ascii) : option (Token * list ascii) :=
  head (omap (fun t => match cut_prefix (bytes (fragment t)) l with Some r => Some (t, r) | None => None end) toks).

Definition scanner : Parsly := {|
  MatchOne := fun t l => match cut_prefix (bytes (fragment t)) l with Some r => (Matched t, r) | None => (NoMatch, l) end;
  MatchAfterOptional := fun toks l =>
    let l := skipWhitespace l in
    match match_token toks l with
    | Some (t, r) => (Matched t, r)
    | None => (if bool_decide (l = []) then EOFMatch else NoMatch, l)
    end |}.

Definition lines (ls : list string) : string := Join ls newline.

Example parse_ex :
  Parse (H := scanner) (lines ["*** Begin Patch"; "*** Add File: a.txt"; "+x"; "+y"; "*** Update File: b"; "*** Move to: c";
    "@@ f"; " k"; "-d"; "+i"; "@@"; "+z"; "*** End of File"; "*** Delete File: q"; "*** End Patch"])
  = Ok [AddFile "a.txt" (lines ["x"; "y"; ""]);
        UpdateFile "b" "c" [mkChunk "f" ["k"; "d"] ["k"; "i"] false; mkChunk "" [] ["z"] true];
        DeleteFile "q"].
Proof. vm_compute. reflexivity. Qed.

(** ** What the parser relies on *)

(** Off white space, [MatchAfterOptional] takes the first token whose fragment
    is next; a match consumes bytes and no call gives bytes back. *)
Class ParslyLaws `{Parsly} := {
  one_hit t r : MatchOne t (bytes (fragment t) ++ r) = (Matched t, r);
  one_shrinks t l : length (MatchOne t l).2 <= length l;
  any_next toks c l : c ∉ skip_class -> MatchAfterOptional toks (c :: l) =
    match match_token toks (c :: l) with Some (t, r) => (Matched t, r) | None => (NoMatch, c :: l) end;
  any_shrinks toks l : length (MatchAfterOptional toks l).2 <= length l;
  any_consumes toks l t l' : MatchAfterOptional toks l = (Matched t, l') -> length l' < length l }.

(** ** The parser terminates *)
Lemma consumeLine_shrinks l : length (consumeLine l).2 <= length l.
Proof.
  induction l as [|c l IH]; simpl; [lia|]. case_bool_decide; simpl; [lia|].
  destruct (consumeLine l) as [t r]. simpl in *. lia.
Qed.

Lemma consumeLine_consumes l : l <> [] -> length (consumeLine l).2 < length l.
Proof.
  destruct l as [|c l]; [done|]. intros _. simpl. case_bool_decide; simpl; [lia|].
  pose proof (consumeLine_shrinks l). destruct (consumeLine l) as [t r]. simpl in *. lia.
Qed.

Section Terminates.
Context `{ParslyLaws}.

Lemma add_lines_total fuel : forall l, length l < fuel ->
  exists t r, add_lines fuel l = Ok (t, r) /\ length r <= length l.
Proof.
  induction fuel as [|fuel IH]; intros l Hl; [lia|]. cbn [add_lines]. unfold peekLine.
  destruct (line_of l) as [|c t] eqn:E; [by exists [], l|]. case_bool_decide; [|by exists [], l].
  destruct l as [|c' l]; [done|]. cbn [tail]. pose proof (consumeLine_shrinks l) as Hs.
  destruct (consumeLine l) as [t' r]. cbn [snd length] in *.
  destruct (IH r) as (t2 & r2 & -> & H2); [lia|]. exists (t' ++ [newline] ++ t2), r2. split; [done|lia].
Qed.

Lemma parseAddFile_total fuel l : length l < fuel ->
  exists h r, parseAddFile fuel l = Ok (h, r) /\ length r <= length l.
Proof.
  intros Hl. unfold parseAddFile. pose proof (consumeLine_shrinks l) as Hs.
  destruct (consumeLine l) as [p r]. cbn [snd] in Hs.
  destruct (add_lines_total fuel r) as (t & r2 & -> & H2); [lia|]. cbn. eexists _, _. split; [done|lia].
Qed.

Lemma chunk_lines_total fuel : forall l old new, length l < fuel ->
  exists o n e r, chunk_lines fuel l old new = Ok (o, n, e, r) /\ length r <= length l
    /\ (o = old /\ n = new \/ length r < length l).
Proof.
  induction fuel as [|fuel IH]; intros l old new Hl; [lia|]. cbn [chunk_lines].
  case_bool_decide as El; [by eexists _, _, _, _; split; [done|]; split; [lia|left]|].
  pose proof (consumeLine_consumes l El) as Hc.
  destruct (starts "*** End of File" _); [eexists _, _, _, _; split; [done|]; lia|].
  destruct (starts "@@" _); [eexists _, _, _, _; split; [done|]; split; [lia|by left]|].
  destruct (starts "***" _); [eexists _, _, _, _; split; [done|]; split; [lia|by left]|].
  unfold peekLine. destruct (line_of l) as [|c t].
  - destruct (IH (consumeLine l).2 (old ++ [""]) (new ++ [""])) as (o & n & e & r & -> & H1 & _); [lia|].
    eexists _, _, _, _. split; [done|]. lia.
  - destruct l as [|c' l]; [done|]. cbn [tail]. pose proof (consumeLine_shrinks l) as Hs.
    destruct (consumeLine l) as [t' r']. cbn [snd length] in *.
    assert (Hk : forall o' n', exists o n e r, chunk_lines fuel r' o' n' = Ok (o, n, e, r)
              /\ length r <= S (length l) /\ ((o = old /\ n = new) \/ length r < S (length l))).
    { intros o' n'. destruct (IH r' o' n') as (o & n & e & r & -> & H1 & _); [lia|].
      eexists _, _, _, _. split; [done|]. lia. }
    repeat case_bool_decide; auto. eexists _, _, _, _. split; [done|]. cbn [length]. split; [lia|by left].
Qed.

(** [update_chunks] returns or fails for a reason of the grammar. *)
Lemma update_chunks_total fuel : forall path first l, length l < fuel ->
  (exists cs r, update_chunks fuel path first l = Ok (cs, r) /\ length r <= length l)
  \/ exists e, update_chunks fuel path first l = Err e /\ e <> OutOfFuel.
Proof.
  induction fuel as [|fuel IH]; intros path first l Hl; [lia|]. cbn [update_chunks].
  destruct (starts "***" (peekLine l)); [left; by eexists _, _|].
  pose proof (any_shrinks [ChunkHeaderCtx; ChunkHeaderSimple] l) as Hs.
  destruct (MatchAfterOptional _ l) as [m l1]. cbn [snd] in Hs.
  set (hd := match m with Matched ChunkHeaderCtx => _ | _ => _ end).
  assert (Hhd : (exists c l2, hd = Ok (c, l2) /\ length l2 <= length l) \/ hd = Err (ExpectedHeader path)).
  { pose proof (consumeLine_shrinks l1). unfold hd. destruct m as [[]| |];
      try (destruct first; [left; eexists _, _; split; [done|lia]|by right]);
      left; destruct (consumeLine l1) as [c l2]; eexists _, _; (split; [done|]); cbn [snd] in *; lia. }
  destruct Hhd as [(c & l2 & -> & H2)| ->]; [|right; by eexists]. cbn [mbind result_bind].
  destruct (chunk_lines_total (S fuel) l2 [] []) as (o & n & e & r & -> & H3 & H4); [lia|]. cbn.
  destruct (bool_decide (o = []) && bool_decide (n = [])) eqn:Eb; [right; by eexists|].
  assert (length r < length l2) as H5 by (destruct H4 as [[-> ->]|]; [done|done]).
  destruct (starts "@@" (peekLine r)); cbn [negb]; [|left; eexists _, _; split; [done|lia]].
  destruct (IH path false r) as [(cs & r2 & -> & H6)|(e' & -> & H6)]; [lia| |right; by eexists].
  left. eexists _, _. split; [done|lia].
Qed.

Lemma parseUpdateFile_total fuel l : length l < fuel ->
  (exists h r, parseUpdateFile fuel l = Ok (h, r) /\ length r <= length l)
  \/ exists e, parseUpdateFile fuel l = Err e /\ e <> OutOfFuel.
Proof.
  intros Hl. unfold parseUpdateFile. pose proof (consumeLine_shrinks l) as H1.
  destruct (consumeLine l) as [p l1]. cbn [snd] in H1.
  pose proof (any_shrinks [MoveTo] l1) as H2. destruct (MatchAfterOptional [MoveTo] l1) as [m l2]. cbn [snd] in H2.
  set (mv := match m with Matched MoveTo => _ | _ => _ end).
  assert (Hmv : length mv.2 <= length l2).
  { pose proof (consumeLine_shrinks l2). unfold mv. destruct m as [[]| |]; try done. by destruct (consumeLine l2). }
  destruct mv as [movePath l3]. cbn [snd] in Hmv.
  destruct (update_chunks_total fuel (TrimSpace (text p)) true l3) as [(cs & r & -> & H4)|(e & -> & H4)]; [lia| |].
  - left. eexists _, _. split; [done|lia].
  - right. by eexists.
Qed.

Lemma parse_hunks_total fuel : forall l, length l < fuel -> parse_hunks fuel l <> Err OutOfFuel.
Proof.
  induction fuel as [|fuel IH]; intros l Hl; [lia|]. cbn [parse_hunks].
  pose proof (any_consumes [EndPatch; TAddFile; TDeleteFile; TUpdateFile] l) as Hc.
  destruct (MatchAfterOptional _ l) as [m l1]. destruct m as [t| |]; [|done|done].
  specialize (Hc t l1 eq_refl). destruct t; try done.
  - by case_bool_decide.
  - destruct (parseAddFile_total (S fuel) l1) as (h & r & -> & H2); [lia|]. cbn.
    specialize (IH r ltac:(lia)). by destruct (parse_hunks fuel r) as [|[]].
  - pose proof (consumeLine_shrinks l1). unfold parseDeleteFile. destruct (consumeLine l1) as [p r]. cbn [snd] in *.
    specialize (IH r ltac:(lia)). by destruct (parse_hunks fuel r) as [|[]].
  - destruct (parseUpdateFile_total (S fuel) l1) as [(h & r & -> & H2)|(e & -> & H2)]; [lia| |by destruct e]. cbn.
    specialize (IH r ltac:(lia)). by destruct (parse_hunks fuel r) as [|[]].
Qed.

(** parsing terminates on every text, well formed or not: the loops over
    hunks, chunks and lines each consume input, so the fuel taken from its length
    never runs out. *)
Lemma Parse_terminates t : Parse t <> Err OutOfFuel.
Proof.
  unfold Parse. pose proof (one_shrinks BeginPatch (bytes (TrimSpace t))) as H1.
  destruct (MatchOne _ _) as [m l]. cbn [snd] in H1. destruct m as [[]| |]; try done.
  apply parse_hunks_total. pose proof (consumeLine_shrinks l). lia.
Qed.
End Terminates.

(** ** The scanner satisfies the laws *)
Lemma skipWhitespace_shrinks l : length (skipWhitespace l) <= length l.
Proof. induction l as [|c l IH]; simpl; [lia|]. case_bool_decide; simpl; lia. Qed.

Lemma match_token_Some toks l t r : match_token toks l = Some (t, r) -> l = bytes (fragment t) ++ r.
Proof.
  unfold match_token. induction toks as [|t' toks IH]; [done|]. simpl.
  destruct (cut_prefix (bytes (fragment t')) l) as [r'|] eqn:E; simpl; [|done].
  intros [= -> ->]. by apply cut_prefix_Some in E.
Qed.

#[export] Instance scanner_laws : ParslyLaws (H := scanner).
Proof.
  split.
  - intros t r. simpl. by rewrite (proj2 (cut_prefix_Some _ _ r) eq_refl).
  - intros t l. simpl. destruct (cut_prefix _ _) eqn:E; simpl; [|lia].
    apply cut_prefix_Some in E. rewrite E, length_app. lia.
  - intros toks c l Hc. cbn [MatchAfterOptional scanner skipWhitespace].
    rewrite (bool_decide_eq_false_2 _ Hc), (bool_decide_eq_false_2 (c :: l = []) ltac:(discriminate)).
    by destruct (match_token toks (c :: l)) as [[]|].
  - intros toks l. cbn [MatchAfterOptional scanner]. pose proof (skipWhitespace_shrinks l).
    destruct (match_token toks (skipWhitespace l)) as [[t r]|] eqn:E; simpl; [|lia].
    apply match_token_Some in E. rewrite E, length_app in H. lia.
  - intros toks l t l'. cbn [MatchAfterOptional scanner]. pose proof (skipWhitespace_shrinks l).
    destruct (match_token toks (skipWhitespace l)) as [[t' r]|] eqn:E; [|by case_bool_decide].
    intros [= -> ->]. apply match_token_Some in E. rewrite E, length_app in H.
    assert (0 < length (bytes (fragment t))) by (destruct t; vm_compute; lia). lia.
Qed.

Lemma Parse_terminates_witness : Parse (H := scanner) "*** Begin Patch" <> Err OutOfFuel.
Proof. apply Parse_terminates. Defined.

(** ** Printing patches *)
Record doc_chunk := mkDoc { dc_context : string; dc_script : list edit; dc_eof : bool }.

Inductive doc_hunk :=
| DAdd (path : string) (ls : list string)
| DDelete (path : string)
| DUpdate (path move : string) (chunks : list doc_chunk).

Definition ln (s : string) : list ascii := bytes s ++ [newline].
Definition unlines (ls : list string) : list ascii := concat (ln <$> ls).

Definition print_chunk (c : doc_chunk) : list ascii :=
  ln (if bool_decide (dc_context c = "") then "@@" else "@@ " +:+ dc_context c)
  ++ unlines (script_line <$> dc_script c)
  ++ (if dc_eof c then ln "*** End of File" else []).

Definition print_hunk (h : doc_hunk) : list ascii :=
  match h with
  | DAdd p ls => ln ("*** Add File: " +:+ p) ++ unlines (String "+" <$> ls)
  | DDelete p => ln ("*** Delete File: " +:+ p)
  | DUpdate p m cs =>
      ln ("*** Update File: " +:+ p)
      ++ (if bool_decide (m = "") then [] else ln ("*** Move to: " +:+ m)) ++ concat (print_chunk <$> cs)
  end.

Definition print_patch (hs : list doc_hunk) : string :=
  text (ln "*** Begin Patch" ++ concat (print_hunk <$> hs) ++ bytes "*** End Patch").

(** What a printed patch stands for. *)
Definition chunk_of (c : doc_chunk) : UpdateChunk :=
  mkChunk (dc_context c) (script_old (dc_script c)) (script_new (dc_script c)) (dc_eof c).

Definition hunk_of (h : doc_hunk) : PatchHunk :=
  match h with
  | DAdd p ls => AddFile p (text (unlines ls))
  | DDelete p => DeleteFile p
  | DUpdate p m cs => UpdateFile p m (chunk_of <$> cs)
  end.

(** One line, and one line without outer white space. *)
Definition one_line (s : string) : Prop := newline ∉ bytes s.
Definition neat (s : string) : Prop := one_line s /\ TrimSpace s = s.

Definition chunk_wf (c : doc_chunk) : Prop :=
  neat (dc_context c) /\ dc_script c <> [] /\ Forall (fun e => one_line (edit_line e)) (dc_script c).
Definition hunk_wf (h : doc_hunk) : Prop :=
  match h with
  | DAdd p ls => neat p /\ Forall one_line ls
  | DDelete p => neat p
  | DUpdate p m cs => neat p /\ neat m /\ Forall chunk_wf cs
  end.

(** ** Parsing what was printed *)
Lemma consumeLine_ln s r : one_line s -> consumeLine (ln s ++ r) = (bytes s, r).
Proof.
  unfold one_line, ln. induction (bytes s) as [|c l IH]; intros Hn; simpl.
  - done.
  - apply not_elem_of_cons in Hn as [Hc Hn]. rewrite bool_decide_eq_false_2 by congruence.
    rewrite IH by done. done.
Qed.

Lemma line_of_ln s r : one_line s -> line_of (ln s ++ r) = bytes s.
Proof.
  unfold one_line, ln. induction (bytes s) as [|c l IH]; intros Hn; simpl.
  - done.
  - apply not_elem_of_cons in Hn as [Hc Hn]. rewrite bool_decide_eq_false_2 by congruence.
    by rewrite IH.
Qed.

Lemma TrimSpace_space p : TrimSpace (String " " p) = TrimSpace p.
Proof. reflexivity. Qed.

Lemma line_of_app a b : newline ∉ a -> line_of (a ++ b) = a ++ line_of b.
Proof.
  induction a as [|c a IH]; [done|]. intros [Hc Ha]%not_elem_of_cons. simpl.
  rewrite bool_decide_eq_false_2 by congruence. by rewrite IH.
Qed.

Lemma one_line_app a b : one_line a -> one_line b -> one_line (a +:+ b).
Proof. unfold one_line. rewrite bytes_app. intros Ha Hb. by rewrite not_elem_of_app. Qed.

Lemma one_line_lit s : bool_decide (newline ∉ bytes s) = true -> one_line s.
Proof. apply bool_decide_eq_true. Qed.

(** What follows a hunk: the next hunk, or the end of the patch. *)
Definition rest_of (hs : list doc_hunk) : list ascii := concat (print_hunk <$> hs) ++ bytes "*** End Patch".

Lemma rest_head hs : exists t r, t ∈ [EndPatch; TAddFile; TDeleteFile; TUpdateFile] /\ rest_of hs = bytes (fragment t) ++ r.
Proof.
  unfold rest_of. destruct hs as [|[p ls|p|p m cs] hs]; cbn [fmap list_fmap concat].
  - exists EndPatch, []. split; [set_solver|done].
  - eexists TAddFile, _. split; [set_solver|]. unfold print_hunk, ln. rewrite bytes_app, <- !app_assoc. reflexivity.
  - eexists TDeleteFile, _. split; [set_solver|]. unfold print_hunk, ln. rewrite bytes_app, <- !app_assoc. reflexivity.
  - eexists TUpdateFile, _. split; [set_solver|]. unfold print_hunk, ln. rewrite bytes_app, <- !app_assoc. reflexivity.
Qed.

Lemma rest_peek hs : exists l, peekLine (rest_of hs) = "*"%char :: l
  /\ starts "***" (peekLine (rest_of hs)) = true /\ starts "@@" (peekLine (rest_of hs)) = false
  /\ starts "*** End of File" (peekLine (rest_of hs)) = false.
Proof.
  destruct (rest_head hs) as (t & r & Ht & ->). unfold peekLine.
  assert (newline ∉ bytes (fragment t)) as Hn by (apply one_line_lit; by destruct t).
  rewrite line_of_app by done. repeat (apply elem_of_cons in Ht as [->|Ht]); [..|by apply elem_of_nil in Ht];
    eexists; repeat split; reflexivity.
Qed.

Lemma rest_nonempty hs : rest_of hs <> [].
Proof. intros E. destruct (rest_peek hs) as (l & H & _). by rewrite E in H. Qed.

Section Roundtrip.
Context `{ParslyLaws}.

Lemma add_lines_print hs ls : forall fuel, Forall one_line ls -> length (unlines (String "+" <$> ls) ++ rest_of hs) < fuel ->
  add_lines fuel (unlines (String "+" <$> ls) ++ rest_of hs) = Ok (unlines ls, rest_of hs).
Proof.
  induction ls as [|s ls IH]; intros fuel Hls Hf; (destruct fuel as [|fuel]; [lia|]).
  - cbn [fmap list_fmap unlines concat app add_lines]. destruct (rest_peek hs) as (l & E & _). by rewrite E.
  - apply list.Forall_cons in Hls as [Hs Hls]. cbn [fmap list_fmap unlines concat] in *. rewrite <- app_assoc in *.
    fold (unlines (String "+" <$> ls)) in *. fold (unlines ls).
    assert (one_line (String "+" s)) as Hs' by (by apply not_elem_of_cons).
    cbn [add_lines]. unfold peekLine. rewrite line_of_ln by done. cbn [bytes Stdlib.Strings.String.list_ascii_of_string].
    rewrite bool_decide_eq_true_2 by done. change (tail (ln (String "+" s) ++ ?r)) with (ln s ++ r).
    rewrite consumeLine_ln by done. rewrite IH; [|done|].
    + cbn. unfold ln. by rewrite <- app_assoc.
    + rewrite length_app in Hf. unfold ln in Hf. rewrite length_app in Hf. simpl in Hf. lia.
Qed.

(** A script up to whatever ends the chunk. *)
Lemma chunk_lines_script es : forall fuel old new rest o,
  Forall (fun e => one_line (edit_line e)) es -> length (unlines (script_line <$> es) ++ rest) < fuel ->
  (forall fuel', length rest < fuel' -> chunk_lines fuel' rest (old ++ script_old es) (new ++ script_new es) = o) ->
  chunk_lines fuel (unlines (script_line <$> es) ++ rest) old new = o.
Proof.
  induction es as [|e es IH]; intros fuel old new rest o Hes Hf Ho.
  - cbn [fmap list_fmap unlines concat app] in *. cbn [script_old script_new omap list_omap] in Ho.
    rewrite !app_nil_r in Ho. by apply Ho.
  - apply list.Forall_cons in Hes as [He Hes]. cbn [fmap list_fmap unlines concat] in *. rewrite <- app_assoc in *.
    fold (unlines (script_line <$> es)) in *. destruct fuel as [|fuel]; [lia|].
    assert (Hl : one_line (script_line e)) by (by destruct e; apply not_elem_of_cons).
    assert (Hlen : length (unlines (script_line <$> es) ++ rest) < fuel).
    { rewrite length_app in Hf. unfold ln in Hf. rewrite length_app in Hf. simpl in Hf. lia. }
    cbn [chunk_lines]. unfold peekLine. rewrite line_of_ln by done.
    rewrite bool_decide_eq_false_2 by (unfold ln; destruct (bytes (script_line e)); done).
    destruct e as [l|l|l]; cbn [edit_line] in He; cbn [script_line];
      (change (starts "*** End of File" (bytes (String ?c l))) with false);
      (change (starts "@@" (bytes (String ?c l))) with false);
      (change (starts "***" (bytes (String ?c l))) with false); cbn [bytes Stdlib.Strings.String.list_ascii_of_string];
      (change (tail (ln (String ?c l) ++ ?r)) with (ln l ++ r)); rewrite consumeLine_ln, text_bytes by done;
      repeat (rewrite bool_decide_eq_false_2 by done); rewrite ?bool_decide_eq_true_2 by done;
      (apply IH; [done|done|]); intros fuel' Hf'; rewrite <- ?app_assoc; by apply Ho.
Qed.

Lemma chunk_lines_print hs' c : forall fuel rest, chunk_wf c ->
  rest = rest_of hs' \/ (exists r, rest = bytes "@@" ++ r) ->
  length (unlines (script_line <$> dc_script c) ++ (if dc_eof c then ln "*** End of File" else []) ++ rest) < fuel ->
  chunk_lines fuel (unlines (script_line <$> dc_script c) ++ (if dc_eof c then ln "*** End of File" else []) ++ rest) [] []
  = Ok (script_old (dc_script c), script_new (dc_script c), dc_eof c, rest).
Proof.
  intros fuel rest (_ & _ & Hes) Hr Hf. apply chunk_lines_script; [done|done|].
  clear Hf. intros fuel' Hf. destruct fuel' as [|fuel']; [lia|]. cbn [chunk_lines app].
  destruct (dc_eof c).
  - rewrite bool_decide_eq_false_2 by done. unfold peekLine. rewrite line_of_ln by (by apply one_line_lit).
    change (starts "*** End of File" (bytes "*** End of File")) with true. by rewrite consumeLine_ln by (by apply one_line_lit).
  - cbn [app]. destruct Hr as [->|[r ->]].
    + rewrite bool_decide_eq_false_2 by apply rest_nonempty. destruct (rest_peek hs') as (l & E & E1 & E2 & E3).
      by rewrite E3, E2, E1.
    + rewrite bool_decide_eq_false_2 by done. unfold peekLine. by rewrite line_of_app by (by apply one_line_lit).
Qed.

(** The header of a chunk, and the header of the next one or none. *)
Lemma print_chunk_head c cs hs : exists r, print_chunk c ++ concat (print_chunk <$> cs) ++ rest_of hs = bytes "@@" ++ r.
Proof.
  unfold print_chunk, ln. case_bool_decide; rewrite ?bytes_app, <- !app_assoc; eexists; reflexivity.
Qed.

Lemma after_chunk cs hs : concat (print_chunk <$> cs) ++ rest_of hs = rest_of hs /\ cs = []
  \/ cs <> [] /\ exists r, concat (print_chunk <$> cs) ++ rest_of hs = bytes "@@" ++ r.
Proof.
  destruct cs as [|c cs]; [by left|right]. split; [done|]. cbn [fmap list_fmap concat].
  rewrite <- app_assoc. apply print_chunk_head.
Qed.

(** Reading the header of a printed chunk. *)
Lemma header_print path (first : bool) c r :
  neat (dc_context c) ->
  exists l0, ln (if bool_decide (dc_context c = "") then "@@" else "@@ " +:+ dc_context c) ++ r = "@"%char :: l0
  /\ starts "***" (peekLine ("@"%char :: l0)) = false
  /\ (let '(hMatch, l) := MatchAfterOptional [ChunkHeaderCtx; ChunkHeaderSimple] ("@"%char :: l0) in
      match hMatch return result ParseError (string * list ascii) with
      | Matched ChunkHeaderCtx => let '(c, l) := consumeLine l in Ok (TrimSpace (text c), l)
      | Matched ChunkHeaderSimple => Ok ("", (consumeLine l).2)
      | _ => if first then Ok ("", l) else Err (ExpectedHeader path)
      end : result ParseError (string * list ascii)) = Ok (dc_context c, r).
Proof.
  intros [Hc Ht]. case_bool_decide as E.
  - rewrite E. eexists. split; [unfold ln; rewrite <- app_assoc; reflexivity|]. split; [reflexivity|].
    rewrite any_next by (by apply (bool_decide_eq_true _)). reflexivity.
  - eexists. split; [unfold ln; rewrite bytes_app, <- !app_assoc; reflexivity|]. split; [reflexivity|].
    rewrite any_next by (by apply (bool_decide_eq_true _)).
    change (match_token [ChunkHeaderCtx; ChunkHeaderSimple] _)
      with (Some (ChunkHeaderCtx, bytes (dc_context c) ++ [newline] ++ r)).
    cbv beta iota. rewrite app_assoc. fold (ln (dc_context c)). rewrite consumeLine_ln by done. by rewrite text_bytes, Ht.
Qed.

Lemma script_nonempty es : es <> [] -> bool_decide (script_old es = []) && bool_decide (script_new es = []) = false.
Proof.
  intros Hn. destruct es as [|e es]; [done|]. apply andb_false_iff.
  destruct e as [l|l|l]; [left|left|right]; by apply bool_decide_eq_false_2.
Qed.

Lemma update_chunks_print hs path cs : forall fuel first, Forall chunk_wf cs ->
  length (concat (print_chunk <$> cs) ++ rest_of hs) < fuel ->
  update_chunks fuel path first (concat (print_chunk <$> cs) ++ rest_of hs) = Ok (chunk_of <$> cs, rest_of hs).
Proof.
  induction cs as [|c cs IH]; intros fuel first Hcs Hf; (destruct fuel as [|fuel]; [lia|]); cbn [update_chunks].
  - cbn [fmap list_fmap concat app]. destruct (rest_peek hs) as (_ & _ & E & _). by rewrite E.
  - apply list.Forall_cons in Hcs as [Hc Hcs]. cbn [fmap list_fmap concat] in *.
    rewrite <- app_assoc in *. set (after := concat (print_chunk <$> cs) ++ rest_of hs) in *.
    unfold print_chunk in *. rewrite <- !app_assoc in *.
    set (body := unlines (script_line <$> dc_script c) ++ (if dc_eof c then ln "*** End of File" else []) ++ after) in *.
    destruct (header_print path first c body (proj1 Hc)) as (l0 & E1 & E2 & E3). rewrite E1, E2 in *.
    destruct (MatchAfterOptional _ _) as [hMatch l]. rewrite E3. cbn [mbind result_bind].
    assert (Hb : length body < S fuel).
    { pose proof (f_equal length E1) as El. unfold ln in El. rewrite !length_app in El. simpl in El, Hf. lia. }
    assert (Ha : length after < fuel).
    { unfold body in *. destruct Hc as (_ & Hn & _). destruct (dc_script c) as [|e es]; [done|].
      cbn [fmap list_fmap unlines concat] in Hb. unfold ln in Hb. rewrite !length_app in Hb. simpl in Hb. lia. }
    assert (Hnext : after = rest_of hs \/ exists r, after = bytes "@@" ++ r).
    { destruct (after_chunk cs hs) as [[Hr _]|[_ Hr]]; [by left|by right]. }
    pose proof (chunk_lines_print hs c (S fuel) after Hc Hnext Hb) as Ec. fold body in Ec. rewrite Ec.
    cbn [mbind result_bind]. rewrite script_nonempty by apply Hc.
    destruct (after_chunk cs hs) as [[Er Ecs]|[Hn [r Er]]].
    + change (after = rest_of hs) in Er. destruct (rest_peek hs) as (_ & _ & _ & E & _). rewrite Er, E, Ecs. done.
    + change (after = bytes "@@" ++ r) in Er. rewrite Er. change (starts "@@" (peekLine (bytes "@@" ++ r))) with true. cbn [negb].
      rewrite <- Er. unfold after. rewrite IH by done. done.
Qed.

(** A hunk's first line. *)
Lemma any_hit_path toks t p r : match_token toks (ln (fragment t +:+ String " " p) ++ r) = Some (t, ln (String " " p) ++ r) ->
  MatchAfterOptional toks (ln (fragment t +:+ String " " p) ++ r) = (Matched t, ln (String " " p) ++ r).
Proof.
  intros E. assert (exists c l, ln (fragment t +:+ String " " p) ++ r = c :: l /\ c ∉ skip_class) as (c & l & El & Hc).
  { destruct t; (eexists _, _; split; [unfold ln; rewrite bytes_app, <- !app_assoc; reflexivity|]);
      by apply (bool_decide_eq_true _). }
  rewrite El in *. by rewrite any_next, E.
Qed.

Lemma path_line p : neat p -> forall r, consumeLine (ln (String " " p) ++ r) = (bytes (String " " p), r).
Proof. intros [Hp _] r. apply consumeLine_ln. by apply not_elem_of_cons. Qed.

Lemma path_text p : neat p -> TrimSpace (text (bytes (String " " p))) = p.
Proof. intros [_ Ht]. by rewrite text_bytes, TrimSpace_space. Qed.

(** No move line: the next bytes are a chunk header or the next hunk. *)
Lemma no_move cs hs :
  MatchAfterOptional [MoveTo] (concat (print_chunk <$> cs) ++ rest_of hs) = (NoMatch, concat (print_chunk <$> cs) ++ rest_of hs).
Proof.
  destruct (after_chunk cs hs) as [[E _]|[_ [r E]]]; rewrite E.
  - destruct (rest_head hs) as (t & r & Ht & ->).
    repeat (apply elem_of_cons in Ht as [->|Ht]); [..|by apply elem_of_nil in Ht];
      (change (bytes (fragment ?t) ++ r) with ("*"%char :: (tail (bytes (fragment t)) ++ r)));
      rewrite any_next by (by apply (bool_decide_eq_true _)); reflexivity.
  - change (bytes "@@" ++ r) with ("@"%char :: "@"%char :: r).
    rewrite any_next by (by apply (bool_decide_eq_true _)). reflexivity.
Qed.

Lemma parseUpdateFile_print hs p m cs fuel : neat p -> neat m -> Forall chunk_wf cs ->
  length (concat (print_chunk <$> cs) ++ rest_of hs) < fuel ->
  parseUpdateFile fuel (ln (String " " p) ++ (if bool_decide (m = "") then [] else ln ("*** Move to: " +:+ m))
                        ++ concat (print_chunk <$> cs) ++ rest_of hs)
  = Ok (UpdateFile p m (chunk_of <$> cs), rest_of hs).
Proof.
  intros Hp Hm Hcs Hf. unfold parseUpdateFile. rewrite path_line, path_text by done. case_bool_decide as Em.
  - cbn [app]. rewrite no_move. rewrite update_chunks_print by done. cbn. by rewrite Em.
  - change ("*** Move to: " +:+ m) with (fragment MoveTo +:+ String " " m).
    rewrite any_hit_path by (unfold ln; rewrite bytes_app, <- !app_assoc; reflexivity).
    rewrite path_line, path_text by done. by rewrite update_chunks_print.
Qed.

Lemma parse_hunks_print hs : forall fuel, Forall hunk_wf hs -> length (rest_of hs) < fuel ->
  parse_hunks fuel (rest_of hs) = Ok (hunk_of <$> hs).
Proof.
  induction hs as [|h hs IH]; intros fuel Hwf Hf; (destruct fuel as [|fuel]; [lia|]); cbn [parse_hunks].
  - change (rest_of []) with ("*"%char :: tail (bytes (fragment EndPatch))).
    rewrite any_next by (by apply (bool_decide_eq_true _)). reflexivity.
  - apply list.Forall_cons in Hwf as [Hh Hwf]. unfold rest_of in Hf |- *. cbn [fmap list_fmap concat] in *.
    rewrite <- app_assoc in *. fold (rest_of hs) in *. destruct h as [p ls|p|p m cs]; cbn [print_hunk hunk_wf hunk_of] in *.
    + destruct Hh as [Hp Hls]. rewrite <- app_assoc in *.
      change ("*** Add File: " +:+ p) with (fragment TAddFile +:+ String " " p) in *.
      rewrite any_hit_path by (unfold ln; rewrite bytes_app, <- !app_assoc; reflexivity).
      rewrite length_app in Hf. unfold ln in Hf at 1. rewrite bytes_app, !length_app in Hf. simpl in Hf.
      unfold parseAddFile. rewrite path_line, path_text, add_lines_print by (done || (rewrite length_app; lia)).
      cbn [mbind result_bind]. rewrite IH by (done || lia). done.
    + change ("*** Delete File: " +:+ p) with (fragment TDeleteFile +:+ String " " p) in *.
      rewrite any_hit_path by (unfold ln; rewrite bytes_app, <- !app_assoc; reflexivity).
      rewrite length_app in Hf. unfold ln in Hf at 1. rewrite bytes_app, !length_app in Hf. simpl in Hf.
      unfold parseDeleteFile. rewrite path_line, path_text by done. rewrite IH by (done || lia). done.
    + destruct Hh as (Hp & Hm & Hcs). rewrite <- !app_assoc in *.
      change ("*** Update File: " +:+ p) with (fragment TUpdateFile +:+ String " " p) in *.
      rewrite any_hit_path by (unfold ln; rewrite bytes_app, <- !app_assoc; reflexivity).
      rewrite length_app in Hf. unfold ln in Hf at 1. rewrite bytes_app, !length_app in Hf. simpl in Hf.
      rewrite parseUpdateFile_print by (done || (rewrite length_app; lia)).
      cbn [mbind result_bind]. rewrite IH by (done || lia). done.
Qed.

Lemma TrimSpace_patch l : TrimSpace (text (bytes "***" ++ l ++ bytes "End Patch")) = text (bytes "***" ++ l ++ bytes "End Patch").
Proof.
  unfold TrimSpace. rewrite bytes_text. f_equal. unfold trim_units. rewrite trim_left_id by reflexivity.
  unfold trim_right. rewrite trim_left_id.
  - apply rev_involutive.
  - rewrite !rev_app_distr, <- app_assoc. reflexivity.
Qed.

(** C22: a patch printed in the format of the tool parses to exactly the hunks it
    was printed from: paths and move targets, the contents of added files, and for
    every chunk its context, its old and new lines and its end-of-file marker. *)
Theorem Parse_print hs : Forall hunk_wf hs -> Parse (print_patch hs) = Ok (hunk_of <$> hs).
Proof.
  intros Hwf. unfold Parse, print_patch.
  assert (E : ln "*** Begin Patch" ++ concat (print_hunk <$> hs) ++ bytes "*** End Patch"
            = bytes (fragment BeginPatch) ++ [newline] ++ rest_of hs) by (unfold ln; by rewrite <- app_assoc).
  assert (Ht : TrimSpace (text (bytes (fragment BeginPatch) ++ [newline] ++ rest_of hs))
             = text (bytes (fragment BeginPatch) ++ [newline] ++ rest_of hs)).
  { pose proof (TrimSpace_patch (bytes " Begin Patch" ++ [newline] ++ concat (print_hunk <$> hs) ++ bytes "*** ")) as K.
    rewrite <- !app_assoc in K. exact K. }
  rewrite E, Ht, bytes_text, one_hit. cbn [consumeLine app]. rewrite bool_decide_eq_true_2 by done. cbn [snd].
  apply parse_hunks_print; [done|]. rewrite !length_app. simpl. lia.
Qed.
End Roundtrip.

Definition demo_doc : list doc_hunk :=
  [DAdd "a.txt" ["x"; ""]; DUpdate "b" "c" [mkDoc "f()" [Keep " k"; Del "d"; Ins "*** i"] false; mkDoc "" [Ins "z"] true];
   DUpdate "d" "e" []; DDelete "q"].

Lemma Parse_print_witness : Parse (H := scanner) (print_patch demo_doc) = Ok (hunk_of <$> demo_doc).
Proof.
  apply Parse_print.
  repeat (constructor; [repeat (split || constructor); try (by apply one_line_lit); try discriminate; reflexivity|]).
  constructor.
Defined.
