(* ===== verification/Observation.v ===== *)
(** * Read-before-modify observations ([protocol/tool/service/observation/state.go])

    A run may require that files are read before they are patched: reads record
    the digest of the content, patches compare it with the present content. *)
From stdpp Require Import base gmap strings list fin_maps numbers sorting.
From Stdlib Require Import ZArith Lia Ascii.
From S2P Require Import Prelude GoStrings Digest PatchPath.

Open Scope nat_scope.

Record Metadata := mkMetadata {
  Token : string; SHA256 : string; Size : nat; ContentComplete : bool; ObservedAt : Z }.

Record ReadRecord := mkRead {
  r_URI : string; r_Canonical : string; r_SHA256 : string; r_Size : nat; r_ObservedAt : Z }.

(** [None] is a context without a state: nothing is recorded or enforced. *)
Definition State : Type := option (gmap string ReadRecord).

Definition IsEnforced (s : State) : bool := bool_decide (is_Some s).

Definition WithState (s : State) : State := match s with Some m => Some m | None => Some ∅ end.

Definition isWindowsAbsPath (value : string) : bool :=
  match bytes value with
  | c :: d :: _ =>
      bool_decide (d = ":"%char)
      && ((97 <=? nat_of_ascii c) && (nat_of_ascii c <=? 122) || (65 <=? nat_of_ascii c) && (nat_of_ascii c <=? 90))
  | _ => false
  end.

Section Observation.
Context `{Host}.

Definition CanonicalURI (uri : string) : string :=
  let value := TrimSpace uri in
  if bool_decide (value = "") then ""
  else if HasPrefix (ToLower value) "file://" then
    let '(_, path) := URLBase value in
    if bool_decide (TrimSpace path = "") then "" else Clean path
  else if IsAbs value || isWindowsAbsPath value then Clean value
  else TrimRight value "/".

(** Times are formatted by the [time] package; the model keeps the instant. *)
Definition MetadataFor (data : string) (contentComplete : bool) (observedAt : Z) : Metadata :=
  let hash := sha256_hex data in
  mkMetadata ("sha256:" +:+ hash) hash (String.length data) contentComplete observedAt.

Definition RecordRead (now : Z) (uri data : string) (contentComplete : bool) (s : State) : Metadata * State :=
  let metadata := MetadataFor data contentComplete now in
  match s with
  | None => (metadata, s)
  | Some records =>
      let canonical := CanonicalURI uri in
      if bool_decide (canonical = "") then (metadata, s) else
      (metadata, Some (<[canonical := mkRead (TrimSpace uri) canonical (SHA256 metadata) (Size metadata)
                                       (ObservedAt metadata)]> records))
  end.

Inductive ObservationError := NotRead (uri : string) | ChangedAfterRead (uri : string).

Definition VerifyCurrent (now : Z) (uri data : string) (s : State) : result ObservationError () :=
  match s with
  | None => Ok tt
  | Some records =>
      let canonical := CanonicalURI uri in
      if bool_decide (canonical = "") then Err (NotRead uri) else
      let current := MetadataFor data true now in
      match records !! canonical with
      | None => Err (NotRead uri)
      | Some record =>
          if negb (bool_decide (r_SHA256 record = SHA256 current)) || negb (r_Size record =? Size current)
          then Err (ChangedAfterRead uri) else Ok tt
      end
  end.
End Observation.

(** ** The contract *)
Section Contract.
Context `{Host}.

(** A read: its time, URI, content and whether the content was complete. *)
Definition Read : Type := Z * string * string * bool.

Definition record_reads (s : State) (rs : list Read) : State :=
  foldl (fun s '(now, uri, data, complete) => (RecordRead now uri data complete s).2) s rs.

(** The content last read under a canonical URI. *)
Definition last_content (canonical : string) (rs : list Read) : option string :=
  foldl (fun acc '(_, uri, data, _) => if decide (CanonicalURI uri = canonical) then Some data else acc) None rs.

Definition same_digest (a b : string) : bool :=
  bool_decide (sha256_hex a = sha256_hex b) && (String.length a =? String.length b).

Lemma record_reads_lookup rs canonical : canonical <> "" ->
  exists m, record_reads (WithState None) rs = Some m /\
    match last_content canonical rs with
    | None => m !! canonical = None
    | Some data => exists r, m !! canonical = Some r /\ r_SHA256 r = sha256_hex data /\ r_Size r = String.length data
    end.
Proof.
  intros Hc. unfold record_reads, last_content. induction rs as [|[[[now uri] data] complete] rs IH] using rev_ind.
  - exists ∅. split; [done|]. simpl. apply lookup_empty.
  - rewrite !foldl_app. destruct IH as (m & -> & IH). cbn [foldl]. unfold RecordRead.
    case_bool_decide as He; cbn [snd].
    + exists m. split; [done|]. rewrite decide_False by congruence. exact IH.
    + eexists. split; [done|]. destruct (decide (CanonicalURI uri = canonical)) as [<-|Hne].
      * eexists. rewrite lookup_insert_eq. done.
      * rewrite lookup_insert_ne by done. exact IH.
Qed.

(** after any reads, a file may be patched exactly when its content has the
  digest and the size of the content last read under the same canonical URI; an
  unread file and a changed one are told apart. *)
Lemma VerifyCurrent_spec now uri data rs : VerifyCurrent now uri data (record_reads (WithState None) rs) =
  match (if decide (CanonicalURI uri = "") then None else last_content (CanonicalURI uri) rs) with
  | None => Err (NotRead uri)
  | Some read => if same_digest read data then Ok tt else Err (ChangedAfterRead uri)
  end.
Proof.
  destruct (decide (CanonicalURI uri = "")) as [He|He].
  - destruct (record_reads (WithState None) rs) as [m|] eqn:E.
    + unfold VerifyCurrent. by rewrite bool_decide_eq_true_2.
    + destruct (record_reads_lookup rs "x") as (m & Em & _); [done|]. congruence.
  - destruct (record_reads_lookup rs (CanonicalURI uri) He) as (m & -> & Hm). unfold VerifyCurrent.
    rewrite bool_decide_eq_false_2 by done. destruct (last_content (CanonicalURI uri) rs) as [d|].
    + destruct Hm as (r & -> & H1 & H2). unfold MetadataFor, same_digest. cbn [SHA256 Size]. rewrite H1, H2.
      rewrite <- negb_andb. by destruct (_ && _).
    + by rewrite Hm.
Qed.
End Contract.
