(* ===== verification/PatchApply.v ===== *)
(** * Applying patches and the patch service ([patch/session.go]: [ApplyPatch];
    [patch/observation_contract.go]; [patch/registry.go])

    A patch text becomes a sequence of session operations on resolved paths; the
    service keeps one session per conversation. *)
From stdpp Require Import base gmap strings list fin_maps numbers pretty sorting.
From Stdlib Require Import ZArith Lia Ascii.
From S2P Require Import Prelude GoStrings GoJson PatchLines PatchPath PatchSession PatchParse Observation.

Open Scope nat_scope.

(** ** The diff library *)
Record FileDiff := mkFileDiff { OrigName : string; NewName : string; Hunks : list Hunk }.

(** [sgdiff.ParseMultiFileDiff]. *)
Class DiffParser := { ParseMultiFileDiff : string -> result string (list FileDiff) }.

Inductive ApplyError :=
| InSession (e : SessionError)
| InPath (e : PathError)
| InUpdate (e : UpdateError)
| InHunks (e : HunkError)
| InParse (e : ParseError)
| InDiff (msg : string)
| NoHunks
| WorkdirRequired
| PathRequired
| PatchRequired
| Unobserved (e : ObservationError)
| NoSessionDir (msg : string).

Definition dev_null : string := "/dev/null".

Section Apply.
Context `{AFS, Difflib, Host, Parsly, DiffParser}.

Definition lift {E A} (f : E -> ApplyError) (r : result E A) : Prog ApplyError A := fun st =>
  (match r with Ok a => Ok a | Err e => Err (f e) end, st).
Definition op {A} (m : Op A) : Prog ApplyError A := wrap InSession m.

(** ** Applying parsed hunks

  [now] is the time at which the hunk's backup is named. *)
Definition apply_hunk (now : Z) (directory : string) (h : PatchHunk) : Prog ApplyError () :=
  match h with
  | AddFile p contents =>
      lift InPath (resolvePath p directory) ≫= fun path => op (Add path contents)
  | DeleteFile p =>
      lift InPath (resolvePath p directory) ≫= fun path => op (Delete now path)
  | UpdateFile p movePath chunks =>
      lift InPath (resolvePath p directory) ≫= fun path =>
      (if bool_decide (movePath = "") then mret path else
         lift InPath (resolvePath movePath directory) ≫= fun newPath =>
         op (Move path newPath) ≫= fun _ => mret newPath) ≫= fun path =>
      if bool_decide (length chunks = 0) then mret tt else
      op (read (DownloadWithURL path)) ≫= fun oldData =>
      lift InUpdate (applyUpdate oldData chunks path) ≫= fun newContent =>
      op (Update now path newContent)
  end.

(** [clock i] is the time at the [i]th hunk or file. *)
Fixpoint each {A} (clock : nat -> Z) (i : nat) (f : Z -> A -> Prog ApplyError ()) (l : list A) : Prog ApplyError () :=
  match l with
  | [] => mret tt
  | x :: l => f (clock i) x ≫= fun _ => each clock (S i) f l
  end.

Definition applyParsedHunks (clock : nat -> Z) (hunks : list PatchHunk) (directory : string) : Prog ApplyError () :=
  each clock 0 (fun now => apply_hunk now directory) hunks.

(** ** Applying a unified diff *)
Definition apply_diff (now : Z) (dir : string) (fd : FileDiff) : Prog ApplyError () :=
  let orig := TrimPrefix (OrigName fd) "a/" in
  let newer := TrimPrefix (NewName fd) "b/" in
  (if bool_decide (OrigName fd = dev_null) then mret orig else lift InPath (resolvePath orig dir)) ≫= fun orig =>
  (if bool_decide (newer = dev_null) then mret newer else lift InPath (resolvePath newer dir)) ≫= fun newer =>
  if negb (bool_decide (NewName fd = dev_null)) && bool_decide (OrigName fd = dev_null) then
    lift InHunks (applyHunks "" (Hunks fd)) ≫= fun buf => op (Add newer buf)
  else if bool_decide (NewName fd = dev_null) && negb (bool_decide (OrigName fd = dev_null)) then
    op (Delete now orig)
  else if negb (bool_decide (orig = newer)) && bool_decide (length (Hunks fd) = 0) then
    op (Move orig newer)
  else
    op (read (DownloadWithURL orig)) ≫= fun oldData =>
    lift InHunks (applyHunks oldData (Hunks fd)) ≫= fun buf =>
    (if bool_decide (orig = newer) then mret orig
     else op (Move orig newer) ≫= fun _ => mret newer) ≫= fun target =>
    op (Update now target buf).

Definition simple_format (patchText : string) : bool := HasPrefix patchText "*** Begin Patch".

Definition ApplyPatch (clock : nat -> Z) (patchText dir : string) : Prog ApplyError () :=
  let patchText := TrimSpace patchText in
  if simple_format patchText then
    lift InParse (Parse patchText) ≫= fun hunks => applyParsedHunks clock hunks dir
  else
    lift InDiff (ParseMultiFileDiff patchText) ≫= fun mfd =>
    if bool_decide (length mfd = 0) then fail NoHunks
    else each clock 0 (fun now => apply_diff now dir) mfd.

(** ** The observation contract *)
Fixpoint map_paths {A} (f : A -> option string) (workdir : string) (l : list A) : result PathError (list string) :=
  match l with
  | [] => Ok []
  | x :: l =>
      match f x with
      | None => map_paths f workdir l
      | Some p => path ← resolvePath p workdir; rest ← map_paths f workdir l; Ok (path :: rest)
      end
  end.

Definition observedPathsForParsedHunks (hunks : list PatchHunk) (workdir : string) : result PathError (list string) :=
  map_paths (fun h => match h with AddFile _ _ => None | DeleteFile p | UpdateFile p _ _ => Some p end) workdir hunks.

Definition lift_err {E A} (f : E -> ApplyError) (r : result E A) : result ApplyError A :=
  match r with Ok a => Ok a | Err e => Err (f e) end.

Definition observedPathsForPatch (patchText workdir : string) : result ApplyError (list string) :=
  let patchText := TrimSpace patchText in
  if bool_decide (patchText = "") then Err PatchRequired
  else if simple_format patchText then
    hunks ← lift_err InParse (Parse patchText);
    lift_err InPath (observedPathsForParsedHunks hunks workdir)
  else
    mfd ← lift_err InDiff (ParseMultiFileDiff patchText);
    if bool_decide (length mfd = 0) then Err NoHunks else
    lift_err InPath (map_paths (fun fd => if bool_decide (OrigName fd = dev_null) then None
                                          else Some (TrimPrefix (OrigName fd) "a/")) workdir mfd).

(** [seen] are the canonical URIs already checked. *)
Fixpoint validate_paths (now : Z) (obs : State) (s : Session) (w : World) (seen : gset string) (paths : list string)
  : result ApplyError () :=
  match paths with
  | [] => Ok tt
  | path :: paths =>
      let path := TrimSpace path in
      if bool_decide (path = "") then validate_paths now obs s w seen paths else
      let key := CanonicalURI path in
      if bool_decide (key = "") then Err (Unobserved (NotRead path))
      else if bool_decide (key ∈ seen) then validate_paths now obs s w seen paths
      else if HasCreatedChange path s then validate_paths now obs s w ({[key]} ∪ seen) paths
      else
        match DownloadWithURL path w with
        | Err _ => Err (Unobserved (NotRead path))
        | Ok data =>
            _ ← lift_err Unobserved (VerifyCurrent now path data obs);
            validate_paths now obs s w ({[key]} ∪ seen) paths
        end
  end.

Definition validateObservedPaths (now : Z) (obs : State) (paths : list string) : Prog ApplyError () := fun st =>
  if negb (IsEnforced obs) then (Ok tt, st)
  else (validate_paths now obs (sess st) (store_of st) ∅ paths, st).

Definition validatePatchObservations (now : Z) (obs : State) (patchText workdir : string) : Prog ApplyError () :=
  if negb (IsEnforced obs) then mret tt else
  lift id (observedPathsForPatch patchText workdir) ≫= fun paths => validateObservedPaths now obs paths.
End Apply.

(** ** The service ([registry.go]) *)

(** The runes of [sanitizeID]: an ASCII letter, digit, [-] or [_] is kept, any
    other rune or invalid byte becomes one underscore. *)
Definition id_byte (c : ascii) : bool :=
  in_range 97 122 c || in_range 65 90 c || in_range 48 57 c || bool_decide (c = "-"%char) || bool_decide (c = "_"%char).

Fixpoint sanitize_n (n : nat) (l : list ascii) : list ascii :=
  match n, l with
  | S n, c :: r =>
      if id_byte c then c :: sanitize_n n r
      else "_"%char :: sanitize_n n (drop (default 1 (rune_len l)) l)
  | _, _ => []
  end.

Definition sanitizeID (id : string) : string :=
  let id := TrimSpace id in
  if bool_decide (id = "") then "_" else text (sanitize_n (String.length id) (bytes id)).

(** [os.TempDir()] and the three-argument [afsurl.Join]. *)
Class TempHost := { TempDir : string; URLJoin3 : string -> string -> string -> string }.

Section Service.
Context `{AFS, Difflib, Host, Parsly, DiffParser, TempHost}.

Record Service := mkService { sessions : gmap string Session; svc_store : World }.

Definition conv_key (convID : string) : string := if bool_decide (convID = "") then "_global" else convID.

Definition session_parent (convID : string) : string :=
  let base := if bool_decide (TempDir = "") then "/tmp" else TempDir in
  URLJoin3 ("file:///" +:+ TrimLeft base slash_s) "agently" (sanitizeID convID).

Definition NewSessionFor (convID uuid : string) (w : World) : result ApplyError Session * World :=
  let parent := session_parent convID in
  match CreateDir parent w with
  | (Some msg, w) => (Err (NoSessionDir msg), w)
  | (None, w) =>
      let tmp := URLJoin parent ("onpatch-" +:+ uuid) in
      match CreateDir tmp w with
      | (Some msg, w) => (Err (NoSessionDir msg), w)
      | (None, w) => (Ok (NewSessionState tmp), w)
      end
  end.

Definition sessionForContext (convID uuid : string) (sv : Service) : result ApplyError Session * Service :=
  let convID := conv_key convID in
  match sessions sv !! convID with
  | Some s => (Ok s, sv)
  | None =>
      match NewSessionFor convID uuid (svc_store sv) with
      | (Ok s, w) => (Ok s, mkService (<[convID := s]> (sessions sv)) w)
      | (Err e, w) => (Err e, mkService (sessions sv) w)
      end
  end.

(** A program on the session of a conversation, which exists or is created. *)
Definition on_session {A} (convID uuid : string) (m : Prog ApplyError A) (sv : Service) : result ApplyError A * Service :=
  match sessionForContext convID uuid sv with
  | (Err e, sv) => (Err e, sv)
  | (Ok s, sv) =>
      let '(r, st) := m (mkSt s (svc_store sv)) in
      (r, mkService (<[conv_key convID := sess st]> (sessions sv)) (store_of st))
  end.

Definition snapshot_prog : Prog ApplyError (list Change) := fun st => (Ok (Snapshot (sess st)), st).

(** [applyPatch]: the statistics of the text and the session's changes. *)
Definition applyPatch (clock : nat -> Z) (uuid : string) (obs : State) (convID workdir patch : string) (sv : Service)
  : result ApplyError (DiffStats * list Change) * Service :=
  if bool_decide (TrimSpace workdir = "") then (Err WorkdirRequired, sv) else
  on_session convID uuid
    (validatePatchObservations (clock 0) obs patch workdir ≫= fun _ =>
     ApplyPatch clock patch workdir ≫= fun _ =>
     snapshot_prog ≫= fun changes => mret (patchStats patch, changes)) sv.

Definition replaceText (now : Z) (uuid : string) (obs : State) (convID workdir path old new : string)
    (replaceAll : bool) (expected : Z) (sv : Service) : result ApplyError (string * nat * DiffStats) * Service :=
  if bool_decide (TrimSpace workdir = "") then (Err WorkdirRequired, sv)
  else if bool_decide (TrimSpace path = "") then (Err PathRequired, sv)
  else
    match resolvePath path workdir with
    | Err e => (Err (InPath e), sv)
    | Ok target =>
        on_session convID uuid
          (validateObservedPaths now obs [target] ≫= fun _ =>
           op (ReplaceText now target old new replaceAll expected) ≫= fun '(n, stats) =>
           mret (target, n, stats)) sv
    end.

(** [commit] and [rollback] end the session whatever the outcome. *)
Definition end_session (m : Op ()) (convID : string) (sv : Service) : result ApplyError () * Service :=
  let convID := conv_key convID in
  match sessions sv !! convID with
  | None => (Ok tt, sv)
  | Some s =>
      let '(r, st) := m (mkSt s (svc_store sv)) in
      (lift_err InSession r, mkService (delete convID (sessions sv)) (store_of st))
  end.

Definition commit : string -> Service -> result ApplyError () * Service := end_session Commit.
Definition rollback : string -> Service -> result ApplyError () * Service := end_session Rollback.

Record SnapshotChange := mkSnapshotChange { s_kind : Kind; s_orig : string; s_url : string; HasPrevious : bool }.

(** [snapshot]: [None] is the status [noFound]. *)
Definition snapshot (convID : string) (sv : Service) : option (list SnapshotChange) :=
  match sessions sv !! conv_key convID with
  | None => None
  | Some s =>
      match Snapshot s with
      | [] => None
      | changes => Some ((fun c => mkSnapshotChange (c_kind c) (c_orig c) (c_url c)
          (negb (bool_decide (c_kind c = KCreate)) && negb (bool_decide (c_orig c = "")))) <$> changes)
      end
  end.

Definition preview (convID url : string) (sv : Service) : option (result SessionError PreviewOutput) :=
  match sessions sv !! conv_key convID with
  | None => None
  | Some s => Some (Preview (TrimSpace url) (mkSt s (svc_store sv))).1
  end.
End Service.

(** ** Confinement *)
Section Confinement.
Context `{AFS, Difflib, Host, Parsly, DiffParser}.

(** [reach P w w']: [w'] comes from [w] by calls that change the store, all on
  URLs in [P] or, to create a directory, on the parent of one. *)
Inductive reach (P : string -> Prop) : World -> World -> Prop :=
| reach_refl w : reach P w w
| reach_upload p d w w' : P p -> reach P (Upload p d w).2 w' -> reach P w w'
| reach_delete p w w' : P p -> reach P (DeleteURL p w).2 w' -> reach P w w'
| reach_move p q w w' : P p -> P q -> reach P (MoveURL p q w).2 w' -> reach P w w'
| reach_create p w w' : P p -> reach P (CreateDir (URLParent p) w).2 w' -> reach P w w'.
Hint Constructors reach : core.

Lemma reach_trans P w1 w2 w3 : reach P w1 w2 -> reach P w2 w3 -> reach P w1 w3.
Proof. induction 1; eauto. Qed.

Lemma reach_impl (P Q : string -> Prop) w w' : (forall q, P q -> Q q) -> reach P w w' -> reach Q w w'.
Proof. intros HPQ. induction 1; eauto. Qed.

(** A program of a session in [td] that stays within [P] and whose values
  satisfy [R]. *)
Definition within {E A} (td : string) (P : string -> Prop) (R : A -> Prop) (m : Prog E A) : Prop := forall st,
  tempDir (sess st) = td -> reach P (store_of st) (store_of (m st).2) /\ tempDir (sess (m st).2) = td
  /\ forall a, (m st).1 = Ok a -> R a.

Section Within.
Context (td : string) (P : string -> Prop).

Lemma within_bind {E A B} (R : A -> Prop) (R' : B -> Prop) (m : Prog E A) (k : A -> Prog E B) :
  within td P R m -> (forall a, R a -> within td P R' (k a)) -> within td P R' (m ≫= k).
Proof.
  intros Hm Hk st Ht. destruct (Hm st Ht) as (K1 & K2 & K3). unfold mbind, Prog_bind.
  destruct (m st) as [[a|e] st']; cbn [fst snd] in *; [|by split].
  destruct (Hk a (K3 a eq_refl) st' K2) as (K4 & K5 & K6). split; [by eapply reach_trans|done].
Qed.

Lemma within_ret {E A} (R : A -> Prop) a : R a -> within td P R (mret a : Prog E A).
Proof. intros Ha st Ht. split; [constructor|]. split; [done|]. by intros ? [= <-]. Qed.

Lemma within_fail {E A} (R : A -> Prop) e : within td P R (fail e : Prog E A).
Proof. intros st Ht. split; [constructor|done]. Qed.

Lemma within_wrap {E E' A} (R : A -> Prop) (f : E -> E') (m : Prog E A) : within td P R m -> within td P R (wrap f m).
Proof.
  intros Hm st Ht. destruct (Hm st Ht) as (K1 & K2 & K3). unfold wrap.
  destruct (m st) as [[a|e] st']; cbn [fst snd] in *; (split; [done|split; [done|]]); [|done].
  intros ? [= <-]. by apply K3.
Qed.

Lemma within_lift {E A} (f : E -> ApplyError) (r : result E A) : within td P (fun a => r = Ok a) (lift f r).
Proof. intros st Ht. split; [constructor|]. split; [done|]. cbn. destruct r; [by intros ? [= ->]|done]. Qed.

Lemma within_active : within td P (fun _ => True) assertActive.
Proof. intros st Ht. unfold assertActive. by destruct (committed (sess st)); (split; [constructor|]). Qed.

Lemma within_read {A} (r : World -> result string A) : within td P (fun _ => True) (read r).
Proof. intros st Ht. split; [constructor|done]. Qed.

Lemma within_write f : (forall w, reach P w (f w).2) -> within td P (fun _ => True) (write f).
Proof.
  intros Hf st Ht. unfold write. specialize (Hf (store_of st)). destruct (f (store_of st)) as [err w].
  by split.
Qed.

Lemma within_track f : (forall w s, tempDir (f w s) = tempDir s) -> within td P (fun _ => True) (track f).
Proof. intros Hf st Ht. split; [constructor|]. split; [|done]. cbn. by rewrite Hf. Qed.

Lemma within_weaken {E A} (R R' : A -> Prop) (m : Prog E A) : (forall a, R a -> R' a) -> within td P R m -> within td P R' m.
Proof. intros HR Hm st Ht. destruct (Hm st Ht) as (K1 & K2 & K3). split; [done|]. split; [done|auto]. Qed.
End Within.

(** *** The trackers keep the session's directory *)
Lemma tempDir_ensureEntry o u s : tempDir (ensureEntry o u s).2 = tempDir s.
Proof. unfold ensureEntry. by repeat case_match. Qed.

Lemma tempDir_trackAdd w p s : tempDir (trackAdd w p s) = tempDir s.
Proof.
  unfold trackAdd. destruct (byCurrent s !! p); [done|]. pose proof (tempDir_ensureEntry "" p s) as K.
  by destruct (ensureEntry "" p s).
Qed.

Lemma tempDir_trackMove p q s : tempDir (trackMove p q s) = tempDir s.
Proof.
  unfold trackMove. destruct (byCurrent s !! p); [by destruct (_ && _)|].
  pose proof (tempDir_ensureEntry p q s) as K. by destruct (ensureEntry p q s).
Qed.

Lemma tempDir_trackUpdate w p b s : tempDir (trackUpdate w p b s) = tempDir s.
Proof.
  unfold trackUpdate. destruct (byCurrent s !! p); [by destruct (_ && _)|].
  pose proof (tempDir_ensureEntry p p s) as K. destruct (ensureEntry p p s) as [i s']. by destruct (_ && _).
Qed.

Lemma tempDir_trackDelete w p b s : tempDir (trackDelete w p b s) = tempDir s.
Proof.
  assert (K : forall i s, tempDir (track_delete_entry w p b i s) = tempDir s).
  { intros i s'. unfold track_delete_entry. by destruct (bool_decide (orig _ = "")). }
  unfold trackDelete. destruct (byCurrent s !! p).
  - case_decide; [by case_bool_decide|apply K].
  - pose proof (tempDir_ensureEntry p "" s) as K'. destruct (ensureEntry p "" s) as [i s']. by rewrite K.
Qed.

(** *** The operations *)

(** The URLs of [Q] and the session's backups of them. *)
Definition allowed (Q : string -> Prop) (td : string) (q : string) : Prop :=
  Q q \/ exists p now, Q p /\ q = URLJoin td (backup_name p now).

Section Operations.
Context (td : string) (Q : string -> Prop).
Notation P := (allowed Q td).
Notation ok m := (within td P (fun _ => True) m).

Lemma within_backup now p : Q p -> ok (backup_op now p).
Proof.
  intros Hp st Ht. unfold backup_op. cbv zeta.
  assert (Hb : P (backup_dst (sess st) p now)) by (right; exists p, now; unfold backup_dst; by rewrite Ht).
  assert (ok (read (DownloadWithURL p) ≫= fun data => write (CreateDir (URLParent (backup_dst (sess st) p now))) ≫= fun _ =>
   write (Upload (backup_dst (sess st) p now) data) ≫= fun _ => mret (backup_dst (sess st) p now))) as K; [|exact (K st Ht)].
  eapply within_bind; [apply within_read|]. intros data _.
  eapply within_bind; [apply within_write; eauto|]. intros _ _.
  eapply within_bind; [apply within_write; eauto|]. intros _ _. by apply within_ret.
Qed.
Hint Resolve within_backup : core.

Lemma within_upload p d : Q p -> ok (write (Upload p d)).
Proof. intros Hp. apply within_write. intros w. apply (reach_upload _ p d); [by left|constructor]. Qed.
Lemma within_parent p : Q p -> ok (write (CreateDir (URLParent p))).
Proof. intros Hp. apply within_write. intros w. apply (reach_create _ p); [by left|constructor]. Qed.

Lemma within_Delete now p : Q p -> ok (Delete now p).
Proof.
  intros Hp. unfold Delete.
  eapply within_bind; [apply within_wrap, within_active|]. intros _ _.
  eapply within_bind; [apply within_wrap, within_read|]. intros [] _; cbn [negb]; [|apply within_fail].
  eapply within_bind; [by apply within_wrap, within_backup|]. intros b _.
  eapply within_bind; [apply within_wrap, within_write; intros w; apply (reach_delete _ p); [by left|constructor]|].
  intros _ _. apply within_track. intros. apply tempDir_trackDelete.
Qed.

Lemma within_Move p q : Q p -> Q q -> ok (Move p q).
Proof.
  intros Hp Hq. unfold Move.
  eapply within_bind; [apply within_active|]. intros _ _.
  eapply within_bind; [apply within_read|]. intros [] _; cbn [negb]; [|by apply within_ret].
  eapply within_bind; [by apply within_parent|]. intros _ _.
  eapply within_bind; [apply within_write; intros w; apply (reach_move _ p q); [by left|by left|constructor]|].
  intros _ _. apply within_track. intros. apply tempDir_trackMove.
Qed.

Lemma within_Update now p d : Q p -> ok (Update now p d).
Proof.
  intros Hp. unfold Update.
  eapply within_bind; [apply within_active|]. intros _ _.
  eapply within_bind; [apply within_read|]. intros [] _; cbn [negb]; [|by apply within_ret].
  eapply within_bind; [by apply within_backup|]. intros b _.
  eapply within_bind; [by apply within_upload|]. intros _ _. apply within_track. intros. apply tempDir_trackUpdate.
Qed.

Lemma within_Add p d : Q p -> ok (Add p d).
Proof.
  intros Hp. unfold Add. eapply within_bind; [apply within_active|]. intros _ _.
  eapply within_bind; [by apply within_parent|]. intros _ _.
  eapply within_bind; [by apply within_upload|]. intros _ _. apply within_track. intros. apply tempDir_trackAdd.
Qed.

Lemma within_op {A} (m : Op A) : ok m -> ok (op m).
Proof. apply within_wrap. Qed.

Lemma within_each {A} clock i (f : Z -> A -> Prog ApplyError ()) l : (forall now x, ok (f now x)) -> ok (each clock i f l).
Proof.
  intros Hf. revert i. induction l as [|x l IH]; intros i; [by apply within_ret|].
  cbn [each]. eapply within_bind; [apply Hf|]. intros _ _. apply IH.
Qed.
End Operations.

(** *** Patches *)
Definition resolves (dir q : string) : Prop := exists p, resolvePath p dir = Ok q.
(** The target names of a unified diff: [/dev/null] is not resolved. *)
Definition diff_target (dir q : string) : Prop := resolves dir q \/ q = dev_null.

Section Patches.
Context (td : string).
Notation ok Q m := (within td (allowed Q td) (fun _ => True) m).

Lemma within_apply_hunk now dir h : ok (resolves dir) (apply_hunk now dir h).
Proof.
  destruct h as [p c|p|p mv chunks]; cbn [apply_hunk].
  - eapply within_bind; [apply within_lift|]. intros q Hq. apply within_op, within_Add. by exists p.
  - eapply within_bind; [apply within_lift|]. intros q Hq. apply within_op, within_Delete. by exists p.
  - eapply within_bind; [apply within_lift|]. intros q Hq.
  assert (Hp : resolves dir q) by (by exists p).
  eapply (within_bind _ _ (resolves dir)).
  + case_bool_decide; [by apply within_ret|]. eapply within_bind; [apply within_lift|]. intros q' Hq'.
    assert (Hp' : resolves dir q') by (by exists mv).
    eapply within_bind; [by apply within_op, within_Move|]. intros _ _. by apply within_ret.
  + intros target Ht. case_bool_decide; [by apply within_ret|].
    eapply within_bind; [apply within_op, within_read|]. intros old _.
    eapply within_bind; [apply within_lift|]. intros new _. by apply within_op, within_Update.
Qed.

Lemma within_apply_diff now dir fd : ok (diff_target dir) (apply_diff now dir fd).
Proof.
  assert (Hres : forall p q, resolvePath p dir = Ok q -> diff_target dir q) by (intros p q Hq; left; by exists p).
  unfold apply_diff. eapply (within_bind _ _ (diff_target dir)).
  { case_bool_decide as E; [apply within_ret; right; by rewrite E|].
  eapply within_weaken; [|apply within_lift]. intros q. by apply Hres. }
  intros orig Ho. eapply (within_bind _ _ (diff_target dir)).
  { case_bool_decide as E; [apply within_ret; by right|]. eapply within_weaken; [|apply within_lift]. intros q. by apply Hres. }
  intros newer Hn. destruct (_ && _).
  { eapply within_bind; [apply within_lift|]. intros buf _. by apply within_op, within_Add. }
  destruct (_ && _); [by apply within_op, within_Delete|].
  destruct (_ && _); [by apply within_op, within_Move|].
  eapply within_bind; [apply within_op, within_read|]. intros old _.
  eapply within_bind; [apply within_lift|]. intros buf _.
  eapply (within_bind _ _ (diff_target dir)).
  - case_bool_decide; [by apply within_ret|]. eapply within_bind; [by apply within_op, within_Move|].
  intros _ _. by apply within_ret.
  - intros target Ht. by apply within_op, within_Update.
Qed.

Lemma within_ApplyPatch clock text dir :
  ok (if simple_format (TrimSpace text) then resolves dir else diff_target dir) (ApplyPatch clock text dir).
Proof.
  unfold ApplyPatch. destruct (simple_format (TrimSpace text)).
  - eapply within_bind; [apply within_lift|]. intros hunks _. apply within_each. intros now h. apply within_apply_hunk.
  - eapply within_bind; [apply within_lift|]. intros mfd _. case_bool_decide; [apply within_fail|].
  apply within_each. intros now fd. apply within_apply_diff.
Qed.
End Patches.

(** The files a patch with the work directory [dir] may change: those under the
  directory, the session's backups of them and, for a unified diff, the file
  [/dev/null]. *)
Definition inside (dir q : string) : Prop := exists bs rel,
  AbsPath (Clean (TrimSpace dir)) = Ok (render true bs) /\ q = render true (bs ++ rel)
  /\ Forall good (bs ++ rel).

Definition patchable (text dir q : string) : Prop :=
  inside dir q \/ (simple_format (TrimSpace text) = false /\ q = dev_null).

(** C15: on any store, whatever its errors, applying a patch with a local work
  directory (not empty, no URL) only ever writes, deletes, moves or creates files under that
  directory, their backups in the session's directory, and the parents of these;
  a unified diff can in addition reach [/dev/null], which is not resolved. *)
Theorem ApplyPatch_confined clock text dir st :
  wd_absolute -> TrimSpace dir <> "" -> Contains (TrimSpace dir) "://" = false ->
  reach (allowed (patchable text dir) (tempDir (sess st))) (store_of st) (store_of (ApplyPatch clock text dir st).2).
Proof.
  intros Hwd Hd Hurl. destruct (within_ApplyPatch (tempDir (sess st)) clock text dir st eq_refl) as (K & _ & _).
  assert (Hres : forall q, resolves dir q -> inside dir q).
  { intros q [p Hp]. unfold resolvePath in Hp. case_bool_decide; [done|].
    rewrite bool_decide_eq_false_2, Hurl in Hp by done.
    destruct (resolveFilesystemPath_contained _ _ _ Hwd Hp) as (bs & rel & K1 & K2 & K3). by exists bs, rel. }
  eapply reach_impl; [|exact K]. intros q.
  assert (Hq : forall q, (if simple_format (TrimSpace text) then resolves dir else diff_target dir) q -> patchable text dir q).
  { intros q'. unfold patchable. destruct (simple_format (TrimSpace text)); [intros; left; by apply Hres|].
    intros [Hr| ->]; [left; by apply Hres|by right]. }
  intros [Hr|(p & now & Hr & ->)]; [left; by apply Hq|]. right. exists p, now. split; [by apply Hq|done].
Qed.
End Confinement.

(** ** Reading before modifying *)
Section Observed.
Context `{AFS, Difflib, Host, Parsly, DiffParser, TempHost}.

(** Some name of the file at [p] was created by the session, or has the content
  that was last read. *)
Definition verified (now : Z) (obs : State) (s : Session) (w : World) (p : string) : Prop :=
  exists p', CanonicalURI p' = CanonicalURI p /\
    (HasCreatedChange p' s = true
     \/ exists data, DownloadWithURL p' w = Ok data /\ VerifyCurrent now p' data obs = Ok tt).

Lemma validate_paths_verified now obs s w paths : forall seen, validate_paths now obs s w seen paths = Ok tt ->
  forall p, p ∈ paths -> TrimSpace p <> "" -> CanonicalURI (TrimSpace p) ∈ seen \/ verified now obs s w (TrimSpace p).
Proof.
  induction paths as [|q paths IH]; intros seen Hv p Hp Hne; [by apply elem_of_nil in Hp|].
  cbn [validate_paths] in Hv. cbv zeta in Hv.
  assert (Hnext : forall seen', validate_paths now obs s w seen' paths = Ok tt ->
            seen' = seen \/ seen' = {[CanonicalURI (TrimSpace q)]} ∪ seen /\ verified now obs s w (TrimSpace q) ->
            (p = q -> CanonicalURI (TrimSpace q) ∈ seen \/ verified now obs s w (TrimSpace q)) ->
            CanonicalURI (TrimSpace p) ∈ seen \/ verified now obs s w (TrimSpace p)).
  { intros seen' Hv' Hs Hq. apply elem_of_cons in Hp as [->|Hp]; [by apply Hq|].
    destruct (IH seen' Hv' p Hp Hne) as [Hin|]; [|by right]. destruct Hs as [->|[-> Hver]]; [by left|].
    apply elem_of_union in Hin as [Heq|]; [|by left]. apply elem_of_singleton in Heq.
    right. unfold verified in *. by rewrite Heq. }
  destruct (bool_decide (TrimSpace q = "")) eqn:E1.
  { apply bool_decide_eq_true in E1. eapply Hnext; [exact Hv|by left|]. intros ->. done. }
  destruct (bool_decide (CanonicalURI (TrimSpace q) = "")); [done|].
  destruct (bool_decide (CanonicalURI (TrimSpace q) ∈ seen)) eqn:E2.
  { apply bool_decide_eq_true in E2. eapply Hnext; [exact Hv|by left|]. by left. }
  assert (Hver : forall seen', validate_paths now obs s w seen' paths = Ok tt ->
            seen' = {[CanonicalURI (TrimSpace q)]} ∪ seen -> verified now obs s w (TrimSpace q) ->
            CanonicalURI (TrimSpace p) ∈ seen \/ verified now obs s w (TrimSpace p)).
  { intros seen' Hv' -> Hver. eapply Hnext; [exact Hv'|by right|]. by right. }
  destruct (HasCreatedChange (TrimSpace q) s) eqn:E3.
  { eapply Hver; [exact Hv|done|]. exists (TrimSpace q). split; [done|by left]. }
  destruct (DownloadWithURL (TrimSpace q) w) as [data|] eqn:E4; [|done].
  destruct (VerifyCurrent now (TrimSpace q) data obs) as [[]|] eqn:E5; [|done]. cbn in Hv.
  eapply Hver; [exact Hv|done|]. exists (TrimSpace q). split; [done|]. right. by exists data.
Qed.

(** The file, as the patch names it, that a patch updates, moves or deletes. *)
Definition modifies (patch p : string) : Prop :=
  let patch := TrimSpace patch in
  if simple_format patch
  then exists hunks, Parse patch = Ok hunks
       /\ (DeleteFile p ∈ hunks \/ exists movePath chunks, UpdateFile p movePath chunks ∈ hunks)
  else exists mfd fd, ParseMultiFileDiff patch = Ok mfd /\ fd ∈ mfd
       /\ OrigName fd <> dev_null /\ p = TrimPrefix (OrigName fd) "a/".

Lemma map_paths_in {A} (f : A -> option string) workdir l paths x p :
  map_paths f workdir l = Ok paths -> x ∈ l -> f x = Some p ->
  exists path, path ∈ paths /\ resolvePath p workdir = Ok path.
Proof.
  revert paths. induction l as [|y l IH]; intros paths E [->|Hx]%elem_of_cons Hf || (intros ? _ []%elem_of_nil).
  - cbn [map_paths] in E. rewrite Hf in E. destruct (resolvePath p workdir) as [path|] eqn:Er; [|done]. cbn in E.
    destruct (map_paths f workdir l) as [rest|]; [|done]. injection E as <-. exists path. split; [by left|done].
  - cbn [map_paths] in E. destruct (f y) as [q|]; [|by apply IH]. destruct (resolvePath q workdir) as [path|]; [|done]. cbn in E.
    destruct (map_paths f workdir l) as [rest|] eqn:El; [|done]. injection E as <-.
    destruct (IH rest eq_refl Hx Hf) as (path' & Hin & Hr). exists path'. split; [by right|done].
Qed.

(** Every file a patch modifies is observed. *)
Lemma observed_modified patch workdir paths p :
  observedPathsForPatch patch workdir = Ok paths -> modifies patch p ->
  exists path, path ∈ paths /\ resolvePath p workdir = Ok path.
Proof.
  unfold observedPathsForPatch, modifies. cbv zeta. case_bool_decide; [done|]. destruct (simple_format (TrimSpace patch)).
  - intros E (hunks & Eh & Hp). rewrite Eh in E. cbn in E.
    destruct (observedPathsForParsedHunks hunks workdir) as [ps|] eqn:Em; [|done]. injection E as ->. unfold observedPathsForParsedHunks in Em.
    destruct Hp as [Hp|(movePath & chunks & Hp)]; eapply map_paths_in; [exact Em|exact Hp|done|exact Em|exact Hp|done].
  - intros E (mfd & fd & Eh & Hin & Hn & ->). rewrite Eh in E. cbn in E. case_bool_decide; [done|].
    destruct (map_paths _ workdir mfd) as [ps|] eqn:Em; [|done]. injection E as ->.
    eapply map_paths_in; [exact Em|exact Hin|]. cbn. by rewrite bool_decide_eq_false_2.
Qed.

(** C31: when reads are enforced, a patch changes nothing at all in the store
  unless every file it updates, moves or deletes can be resolved and, under some name of the same canonical URI, was created
  in the session or still has the content that was last read (a path that
  resolves to nothing but space is passed over). The session may be a new one,
  whose directories are then made first. *)
Theorem unread_files_unchanged clock uuid records convID workdir patch sv s sv1 :
  TrimSpace workdir <> "" -> sessionForContext convID uuid sv = (Ok s, sv1) ->
  let obs := Some records in
  let sv' := (applyPatch clock uuid obs convID workdir patch sv).2 in
  svc_store sv' = svc_store sv1
  \/ forall p, modifies patch p -> exists path, resolvePath p workdir = Ok path
       /\ (TrimSpace path <> "" -> verified (clock 0) obs s (svc_store sv1) (TrimSpace path)).
Proof.
  intros Hw Hs. cbv zeta. unfold applyPatch. rewrite bool_decide_eq_false_2 by done.
  unfold on_session. rewrite Hs.
  unfold mbind at 1, Prog_bind at 1. unfold validatePatchObservations.
  change (IsEnforced (Some records)) with true. cbn [negb].
  unfold mbind at 1, Prog_bind at 1. unfold lift at 1.
  destruct (observedPathsForPatch patch workdir) as [paths|e] eqn:Ep; [|by left].
  unfold validateObservedPaths. change (IsEnforced (Some records)) with true. cbn [negb sess store_of].
  destruct (validate_paths (clock 0) (Some records) s (svc_store sv1) ∅ paths) as [[]|e] eqn:Ev; [|by left].
  right. intros p Hp. destruct (observed_modified _ _ _ _ Ep Hp) as (path & Hin & Hr). exists path. split; [done|]. intros Hne.
  destruct (validate_paths_verified _ _ _ _ _ _ Ev path Hin Hne) as [Hin'|]; [|done]. by apply elem_of_empty in Hin'.
Qed.

(** Conversations have sessions of their own. *)
Lemma on_session_other {A} convID other uuid (m : Prog ApplyError A) sv : conv_key convID <> conv_key other ->
  sessions (on_session convID uuid m sv).2 !! conv_key other = sessions sv !! conv_key other.
Proof.
  intros Hne. unfold on_session, sessionForContext. cbv zeta.
  destruct (sessions sv !! conv_key convID) as [s|] eqn:Es.
  - destruct (m _) as [r st]. cbn [snd sessions]. rewrite lookup_insert_ne by (intros K; by apply Hne). done.
  - destruct (NewSessionFor (conv_key convID) uuid (svc_store sv)) as [[s|e] w]; [|done].
    destruct (m _) as [r st]. cbn [snd sessions]. rewrite !lookup_insert_ne by (intros K; by apply Hne). done.
Qed.
End Observed.

(** ** Session directories *)
Lemma sanitize_n_bytes n l : Forall (fun c => id_byte c = true) (sanitize_n n l).
Proof.
  revert l. induction n as [|n IH]; intros [|c r]; try constructor. cbn [sanitize_n].
  destruct (id_byte c) eqn:E; constructor; auto.
Qed.

(** the directory of a conversation's sessions is one path element whatever
    the conversation is called: its name is not empty and consists of letters,
    digits, dashes and underscores, so it holds no separator and no dots. *)
Lemma sanitizeID_element id :
  sanitizeID id <> "" /\ Forall (fun c => id_byte c = true) (bytes (sanitizeID id)) /\ good (sanitizeID id).
Proof.
  assert (K : sanitizeID id <> "" /\ Forall (fun c => id_byte c = true) (bytes (sanitizeID id))).
  { unfold sanitizeID. case_bool_decide as E; [split; [done|by repeat constructor]|].
    rewrite bytes_text. split; [|apply sanitize_n_bytes].
    destruct (TrimSpace id) as [|c r] eqn:Et; [done|]. simpl. destruct (id_byte c); done. }
  destruct K as [Hn Hb]. split; [done|]. split; [done|].
  assert (Hno : forall c s, id_byte c = false -> Forall (fun c => id_byte c = true) (bytes s) -> c ∉ bytes s).
  { intros c s Hc Hs Hin. rewrite Forall_forall in Hs. specialize (Hs c Hin). congruence. }
  split; [done|]. split; [intros E; rewrite E in Hb; by inversion Hb|].
  split; [intros E; rewrite E in Hb; by inversion Hb|]. by apply Hno.
Qed.

(** ** Concrete runs *)

(** A diff library that returns the file diffs it is built with. *)
Definition fixed_diffs (fds : list FileDiff) : DiffParser := {| ParseMultiFileDiff := fun _ => Ok fds |}.
Definition demo_temp : TempHost := {| TempDir := ""; URLJoin3 := fun a b c => a +:+ slash_s +:+ b +:+ slash_s +:+ c |}.

Definition no_diffs : DiffParser := fixed_diffs [].

#[local] Existing Instances memory_store whole_diff slash_host scanner demo_temp no_diffs.

Definition demo_patch : string := lines
  ["*** Begin Patch"; "*** Update File: a"; "@@"; "-one"; "+two"; "*** Add File: sub/c"; "+x"; "*** Delete File: b"; "*** End Patch"].

Definition demo_files : list (string * string) := [("/w/a", lines ["one"; ""]); ("/w/b", "b"); ("/x", "x")].

Example apply_ex :
  let st := ApplyPatch (fun i => Z.of_nat i) demo_patch "/w" (demo_start demo_files) in
  st.1 = Ok tt /\ files (store_of st.2) !! "/w/a" = Some (lines ["two"; ""]) /\ files (store_of st.2) !! "/w/b" = None
  /\ files (store_of st.2) !! "/w/sub/c" = Some (lines ["x"; ""]).
Proof. vm_compute. repeat split. Qed.

Lemma slash_host_absolute : wd_absolute (H := slash_host).
Proof. intros wd [= <-]. reflexivity. Qed.

Lemma ApplyPatch_confined_witness :
  let st := demo_start demo_files in
  reach (allowed (patchable demo_patch "/w") "/tmp/s") (store_of st)
    (store_of (ApplyPatch (fun i => Z.of_nat i) demo_patch "/w" st).2).
Proof.
  cbv zeta. exact (ApplyPatch_confined (fun i => Z.of_nat i) demo_patch "/w" (demo_start demo_files) slash_host_absolute
    ltac:(vm_compute; discriminate) ltac:(vm_compute; reflexivity)).
Defined.

(** The new name [b//dev/null] is not resolved: a rename moves the file out of
    the work directory. *)
Example rename_leaves_workdir :
  let st := ApplyPatch (H3 := fixed_diffs [mkFileDiff "a/b" "b//dev/null" []]) (fun i => Z.of_nat i) "diff" "/w" (demo_start demo_files) in
  st.1 = Ok tt /\ files (store_of st.2) !! "/w/b" = None /\ files (store_of st.2) !! dev_null = Some "b".
Proof. vm_compute. repeat split. Qed.

Definition demo_service : Service :=
  mkService {["c" := NewSessionState "/tmp/s"]} (mkMem (list_to_map demo_files) {["/tmp/s"]}).

(** The patch updates a file nobody read: it is refused and nothing changes. *)
Lemma unread_files_unchanged_witness :
  let sv := demo_service in
  let out := applyPatch (fun i => Z.of_nat i) "u" (Some ∅) "c" "/w" demo_patch sv in
  out.1 = Err (Unobserved (NotRead "/w/a")) /\ modifies demo_patch "a" /\
  (svc_store out.2 = svc_store sv
   \/ forall p, modifies demo_patch p -> exists path, resolvePath p "/w" = Ok path
      /\ (TrimSpace path <> "" -> verified 0 (Some ∅) (NewSessionState "/tmp/s") (svc_store sv) (TrimSpace path))).
Proof.
  cbv zeta. split; [vm_compute; reflexivity|]. split.
  { unfold modifies. replace (simple_format (TrimSpace demo_patch)) with true by (vm_compute; reflexivity). cbv zeta iota.
    eexists. split; [vm_compute; reflexivity|]. right. eexists _, _. repeat first [by left|right]. }
  exact (unread_files_unchanged (H4 := demo_temp) (fun i => Z.of_nat i) "u" ∅ "c" "/w" demo_patch demo_service
    (NewSessionState "/tmp/s") demo_service ltac:(vm_compute; discriminate) ltac:(vm_compute; reflexivity)).
Defined.
