(* ===== verification/Cron.v ===== *)
(** * Cron expressions and next run times ([service/scheduler/cron.go] and the
    time arithmetic of [service/scheduler/service_stale.go])

    The parser of cron fields, the search for the next matching minute and the
    next run time of interval schedules.  A [for] loop whose end is not
    syntactic takes fuel, and [None] means that the fuel ran out.  The calendar
    is the proleptic Gregorian one of the [time] package; the time zone database
    is a parameter ([Tzdata]). *)
From stdpp Require Import base gmap strings list fin_maps numbers.
From Stdlib Require Import ZArith Lia Ascii.
From S2P Require Import Prelude GoStrings.

Open Scope Z_scope.

(** ** The calendar of the [time] package *)

(** A location gives the offset from UTC, in seconds, at an instant (seconds
    since the zero time). *)
Definition Location := Z -> Z.
Definition UTC : Location := fun _ => 0.

(** [time.LoadLocation]: the empty name and "UTC" are UTC. *)
Class Tzdata := LoadLocation : string -> option Location.
Class TzdataLaws `{Tzdata} : Prop := {
  LoadLocation_empty : LoadLocation "" = Some UTC;
  LoadLocation_UTC : LoadLocation "UTC" = Some UTC }.

Definition local_seconds (loc : Location) (t : Z) : Z := t / Second + loc (t / Second).
Definition local_day (loc : Location) (t : Z) : Z := local_seconds loc t / 86400.

Definition clock_minute (loc : Location) (t : Z) : Z := (local_seconds loc t / 60) mod 60.
Definition clock_hour (loc : Location) (t : Z) : Z := (local_seconds loc t / 3600) mod 24.

(** January 1 of year 1 was a Monday. *)
Definition Weekday (loc : Location) (t : Z) : Z := (local_day loc t + 1) mod 7.

Definition is_leap (y : Z) : bool :=
  (y mod 4 =? 0) && (negb (y mod 100 =? 0) || (y mod 400 =? 0)).

Definition month_lengths (leap : bool) : list Z :=
  [31; if leap then 29 else 28; 31; 30; 31; 30; 31; 31; 30; 31; 30; 31].

Fixpoint month_day (lens : list Z) (m yd : Z) : Z * Z :=
  match lens with
  | [] => (m - 1, yd + 1)
  | n :: lens' => if yd <? n then (m, yd + 1) else month_day lens' (m + 1) (yd - n)
  end.

(** Year, month and day of a day number (days since January 1 of year 1). *)
Definition civil (d : Z) : Z * Z * Z :=
  let n400 := d / 146097 in
  let r := d mod 146097 in
  let n100 := Z.min 3 (r / 36524) in
  let r := r - n100 * 36524 in
  let n4 := r / 1461 in
  let r := r mod 1461 in
  let n1 := Z.min 3 (r / 365) in
  let y := 400 * n400 + 100 * n100 + 4 * n4 + n1 + 1 in
  let '(m, dd) := month_day (month_lengths (is_leap y)) 1 (r - n1 * 365) in
  (y, m, dd).

Definition Month (loc : Location) (t : Z) : Z := let '(_, m, _) := civil (local_day loc t) in m.
Definition Day (loc : Location) (t : Z) : Z := let '(_, _, d) := civil (local_day loc t) in d.

(** [time.Date] for local seconds: the offset is looked up at the local time
    read as UTC and then again at the instant found. *)
Definition date_in (loc : Location) (ls : Z) : Z := (ls - loc (ls - loc ls)) * Second.

(** ** The parser ([cron.go]) *)
Inductive CronError :=
| InvalidCronExpr (expr : string)
| InvalidRange (tok : string)
| InvalidToken (tok : string)
| EmptySet
| FieldError (field : string) (e : CronError).

Record cronSpec := mkCronSpec {
  cs_min : gset Z; cs_hour : gset Z; cs_dom : gset Z; cs_mon : gset Z; cs_dow : gset Z }.

(** Results of code with loops: [None] when the fuel ran out. *)
Definition fuelled (A : Type) : Type := option (result CronError A).

Definition fbind {A B} (x : fuelled A) (k : A -> fuelled B) : fuelled B :=
  match x with
  | None => None
  | Some (Err e) => Some (Err e)
  | Some (Ok a) => k a
  end.

Definition in_field {A} (name : string) (x : fuelled A) : fuelled A :=
  match x with
  | Some (Err e) => Some (Err (FieldError name e))
  | r => r
  end.

Fixpoint atoi_bytes (n : Z) (l : list ascii) : option Z :=
  match l with
  | [] => Some n
  | c :: l' => if is_digit c then atoi_bytes (wrap64 (n * 10 + digit_val c)) l' else None
  end.
Definition atoiSafe (s : string) : option Z := atoi_bytes 0 (bytes s).

(** [for i := i; i <= b; i += step { body(i) }]. *)
Fixpoint for_loop (fuel : nat) (i b step : Z) (body : Z -> gset Z -> gset Z) (set : gset Z)
    : option (gset Z) :=
  match fuel with
  | O => None
  | S fuel' =>
      if i <=? b then for_loop fuel' (wrap64 (i + step)) b step body (body i set) else Some set
  end.

Definition add_in (min max v : Z) (set : gset Z) : gset Z :=
  if (min <=? v) && (v <=? max) then {[v]} ∪ set else set.
Definition add_any (v : Z) (set : gset Z) : gset Z := {[v]} ∪ set.

Definition parse_step (tok : string) : string * Z :=
  match Split tok "/" with
  | [p; q] =>
      (p, match atoiSafe q with
          | Some v => if 0 <? v then v else 1
          | None => 1
          end)
  | _ => (tok, 1)
  end.

Definition parse_token (fuel : nat) (min max : Z) (tok : string) (set : gset Z) : fuelled (gset Z) :=
  let '(tok, step) := parse_step tok in
  if decide (tok = "*"%string) then Ok <$> for_loop fuel min max step add_any set
  else
    match cut (bytes "-") (bytes tok) with
    | Some (l, r) =>
        match atoi_bytes 0 l, atoi_bytes 0 r with
        | Some a, Some b =>
            let '(a, b) := if b <? a then (b, a) else (a, b) in
            Ok <$> for_loop fuel a b step (add_in min max) set
        | _, _ => Some (Err (InvalidRange tok))
        end
    | None =>
        match atoiSafe tok with
        | Some v => Some (Ok (add_in min max v set))
        | None => Some (Err (InvalidToken tok))
        end
    end.

Fixpoint parse_tokens (fuel : nat) (min max : Z) (toks : list string) (set : gset Z)
    : fuelled (gset Z) :=
  match toks with
  | [] => Some (Ok set)
  | tok :: rest =>
      let tok := TrimSpace tok in
      if decide (tok = ""%string) then parse_tokens fuel min max rest set
      else fbind (parse_token fuel min max tok set) (parse_tokens fuel min max rest)
  end.

Definition parseCronField (fuel : nat) (s : string) (min max : Z) : fuelled (gset Z) :=
  let s := TrimSpace s in
  if decide (s = "*"%string \/ s = "?"%string) then Ok <$> for_loop fuel min max 1 add_any ∅
  else
    fbind (parse_tokens fuel min max (Split s ",") ∅) (fun set =>
      if decide (set = ∅) then Some (Err EmptySet) else Some (Ok set)).

Definition parseCron (fuel : nat) (expr : string) : fuelled cronSpec :=
  match Fields expr with
  | p0 :: p1 :: p2 :: p3 :: p4 :: _ =>
      fbind (in_field "minute" (parseCronField fuel p0 0 59)) (fun min =>
      fbind (in_field "hour" (parseCronField fuel p1 0 23)) (fun hour =>
      fbind (in_field "dom" (parseCronField fuel p2 1 31)) (fun dom =>
      fbind (in_field "month" (parseCronField fuel p3 1 12)) (fun mon =>
      fbind (in_field "dow" (parseCronField fuel p4 0 6)) (fun dow =>
      Some (Ok (mkCronSpec min hour dom mon dow)))))))
  | _ => Some (Err (InvalidCronExpr expr))
  end.

(** ** Matching and searching *)
Definition cronMatch (spec : cronSpec) (loc : Location) (t : Z) : bool :=
  bool_decide (clock_minute loc t ∈ cs_min spec)
  && bool_decide (clock_hour loc t ∈ cs_hour spec)
  && bool_decide (Day loc t ∈ cs_dom spec)
  && bool_decide (Month loc t ∈ cs_mon spec)
  && bool_decide (Weekday loc t ∈ cs_dow spec).

Fixpoint cron_scan (n : nat) (spec : cronSpec) (loc : Location) (t : Z) : Z :=
  match n with
  | O => t
  | S n' => if cronMatch spec loc t then t else cron_scan n' spec loc (t + Minute)
  end.

(** The minutes of 365 days. *)
Definition scan_limit : Z := 525600.

Definition cronNext (spec : cronSpec) (loc : Location) (from : Z) : Z :=
  cron_scan (Z.to_nat scan_limit) spec loc (from + Minute).

(** ** Next run times ([service_stale.go]) *)
Definition truncateToMinute (loc : Location) (t : Z) : Z :=
  let ls := local_seconds loc t in
  date_in loc (ls - ls mod 60).

Definition nextCronAfter (spec : cronSpec) (loc : Location) (base now : Z) : Z :=
  let next := cronNext spec loc (truncateToMinute loc base) in
  if time_after next now then next else cronNext spec loc (truncateToMinute loc now).

Definition nextIntervalAfter (base interval now : Z) : Z :=
  let next := base + interval in
  if time_after next now then next
  else
    let elapsed := time_sub now base in
    let steps := wrap64 (Z.quot elapsed interval + 1) in
    let next := base + dur_mul steps interval in
    if negb (time_after next now) then next + interval else next.

(** ** Loops *)
Lemma for_loop_spec fuel i b step P body set :
  0 < step -> b + step <= max_int64 -> min_int64 <= i -> 0 < Z.of_nat fuel -> b + 1 - i < Z.of_nat fuel ->
  (forall v s, body v s = if P v : bool then {[v]} ∪ s else s) ->
  exists set', for_loop fuel i b step body set = Some set'
    /\ forall v, v ∈ set' <-> v ∈ set \/ (P v = true /\ i <= v <= b /\ (v - i) mod step = 0).
Proof.
  intros Hs Hb Hi Hf Hf' Hbody. revert i set Hi Hf Hf'.
  induction fuel as [|fuel IH]; intros i set Hi Hf Hf'; [lia|].
  cbn [for_loop]. destruct (Z.leb_spec i b) as [Hle|Hgt].
  - assert (Hw : wrap64 (i + step) = i + step) by (apply wrap64_id; unfold in_int64; lia).
    rewrite Hw. destruct (IH (i + step) (body i set)) as (set' & E & Hin); [lia..|].
    exists set'. split; [exact E|]. intros v. rewrite Hin, Hbody.
    assert (Hmod : (v - i) mod step = (v - (i + step)) mod step).
    { replace (v - i) with (v - (i + step) + 1 * step) by lia. by rewrite Z.mod_add by lia. }
    assert (Hsame : v < i + step -> i <= v -> (v - i) mod step = 0 -> v = i).
    { intros. rewrite Z.mod_small in *; lia. }
    split.
    + intros [Hv|(HP & Hr & Hm)]; [|right; rewrite Hmod; repeat split; lia || done].
      destruct (P i) eqn:EP; [|by left].
      apply elem_of_union in Hv as [Hv|Hv]; [|by left].
      apply elem_of_singleton in Hv as ->. right. rewrite Z.sub_diag, Z.mod_0_l by lia. repeat split; lia || done.
    + intros [Hv|(HP & Hr & Hm)]; [left; destruct (P i); set_solver|].
      destruct (Z.lt_ge_cases v (i + step)) as [Hlt|Hge].
      * rewrite (Hsame Hlt ltac:(lia) Hm) in *. left. rewrite HP. set_solver.
      * right. rewrite <- Hmod. repeat split; lia || done.
  - exists set. split; [done|]. intros v. split; [by left|]. intros [Hv|(_ & Hr & _)]; [done|lia].
Qed.

(** A loop that counts up to the greatest [int] never ends. *)
Lemma for_loop_diverges fuel i step body set :
  in_int64 i -> for_loop fuel i max_int64 step body set = None.
Proof.
  revert i set. induction fuel as [|fuel IH]; intros i set Hi; [done|]. cbn [for_loop].
  rewrite (proj2 (Z.leb_le i max_int64)) by apply Hi. apply IH, wrap64_range.
Qed.

(** ** Numbers *)

(** The value of a digit string, without wrap-around. *)
Fixpoint decimal (n : Z) (l : list ascii) : option Z :=
  match l with
  | [] => Some n
  | c :: l' => if is_digit c then decimal (n * 10 + digit_val c) l' else None
  end.

Lemma is_digit_val c : is_digit c = true -> 0 <= digit_val c <= 9.
Proof. unfold is_digit, digit_val. intros H. apply andb_prop in H as [H1 H2].
  apply Nat.leb_le in H1, H2. lia. Qed.

Lemma decimal_bound k n l v :
  0 <= n < 10 ^ k -> 0 <= k -> decimal n l = Some v -> 0 <= v < 10 ^ (k + Z.of_nat (length l)).
Proof.
  revert k n. induction l as [|c l IH]; intros k n Hn Hk; cbn [decimal length].
  - intros [= <-]. by replace (k + Z.of_nat 0) with k by lia.
  - destruct (is_digit c) eqn:E; [|done]. apply is_digit_val in E. intros H.
    replace (k + Z.of_nat (S (length l))) with (k + 1 + Z.of_nat (length l)) by lia.
    apply (IH (k + 1) (n * 10 + digit_val c)); [|lia|done].
    rewrite Z.pow_add_r, Z.pow_1_r by lia. lia.
Qed.

Lemma pow10_18 k : 0 <= k <= 18 -> 10 ^ k <= 10 ^ 18.
Proof. intros H. apply Z.pow_le_mono_r; lia. Qed.

Lemma atoi_decimal k n l :
  0 <= n < 10 ^ k -> 0 <= k -> k + Z.of_nat (length l) <= 18 -> atoi_bytes n l = decimal n l.
Proof.
  revert k n. induction l as [|c l IH]; intros k n Hn Hk Hl; cbn [decimal atoi_bytes length] in *; [done|].
  destruct (is_digit c) eqn:E; [|done]. apply is_digit_val in E.
  assert (Hb : 0 <= n * 10 + digit_val c < 10 ^ (k + 1)).
  { rewrite Z.pow_add_r, Z.pow_1_r by lia. lia. }
  rewrite wrap64_id.
  - apply (IH (k + 1)); lia.
  - pose proof (pow10_18 (k + 1) ltac:(lia)). unfold in_int64, min_int64, max_int64. lia.
Qed.

Lemma atoi_short l : (length l <= 18)%nat -> atoi_bytes 0 l = decimal 0 l.
Proof. intros H. apply (atoi_decimal 0); lia. Qed.

Lemma decimal_short l v : (length l <= 18)%nat -> decimal 0 l = Some v -> 0 <= v < 10 ^ 18.
Proof.
  intros H E. apply (decimal_bound 0) in E; [|lia..].
  pose proof (pow10_18 (0 + Z.of_nat (length l)) ltac:(lia)). lia.
Qed.

(** ** What a field means

    A token denotes an arithmetic progression: start, end and step. *)
Definition progression : Type := Z * Z * Z.
Definition in_progression (v : Z) (p : progression) : bool :=
  let '(a, b, s) := p in (a <=? v) && (v <=? b) && ((v - a) mod s =? 0).

Definition number (s : string) : option Z := decimal 0 (bytes s).

Definition step_meaning (tok : string) : string * Z :=
  match Split tok "/" with
  | [p; q] => (p, match number q with Some v => if 0 <? v then v else 1 | None => 1 end)
  | _ => (tok, 1)
  end.

Definition token_meaning (min max : Z) (tok : string) : result CronError progression :=
  let '(tok, step) := step_meaning tok in
  if decide (tok = "*"%string) then Ok (min, max, step)
  else
    match cut (bytes "-") (bytes tok) with
    | Some (l, r) =>
        match decimal 0 l, decimal 0 r with
        | Some a, Some b => Ok (Z.min a b, Z.max a b, step)
        | _, _ => Err (InvalidRange tok)
        end
    | None =>
        match number tok with
        | Some v => Ok (v, v, 1)
        | None => Err (InvalidToken tok)
        end
    end.

Fixpoint tokens_meaning (min max : Z) (toks : list string) : result CronError (list progression) :=
  match toks with
  | [] => Ok []
  | tok :: rest =>
      let tok := TrimSpace tok in
      if decide (tok = ""%string) then tokens_meaning min max rest
      else p ← token_meaning min max tok; ps ← tokens_meaning min max rest; Ok (p :: ps)
  end.

(** The values of the field between [min] and [max]. *)
Definition field_values (min max : Z) (ps : list progression) : gset Z :=
  list_to_set (filter (fun v => existsb (in_progression v) ps = true) (seqZ min (max - min + 1))).

Definition field_meaning (s : string) (min max : Z) : result CronError (gset Z) :=
  let s := TrimSpace s in
  if decide (s = "*"%string \/ s = "?"%string) then Ok (field_values min max [(min, max, 1)])
  else
    ps ← tokens_meaning min max (Split s ",");
    let set := field_values min max ps in
    if decide (set = ∅) then Err EmptySet else Ok set.

(** Numbers of at most 18 digits fit in an [int]; so many iterations suffice. *)
Definition max_iterations : Z := 10 ^ 18 + 1.
Definition short (s : string) : Prop := (length (bytes s) <= 18)%nat.
Definition short_tokens (s : string) : Prop := Forall short (Split (TrimSpace s) ",").

Lemma short_trim s : short s -> short (TrimSpace s).
Proof.
  unfold short, TrimSpace. rewrite bytes_text. unfold trim_units. intros H.
  destruct (trim_left_suffix space_units (bytes s)) as [p Hp].
  destruct (trim_right_prefix space_units (trim_left space_units (bytes s))) as [q Hq].
  apply (f_equal length) in Hp, Hq. rewrite length_app in Hp, Hq. lia.
Qed.

Lemma split_bytes_length sep l p : p ∈ split_bytes sep l -> (length p <= length l)%nat.
Proof.
  revert p. induction l as [|c l IH]; intros p; cbn [split_bytes].
  - intros H%list_elem_of_singleton. by subst.
  - case_decide as E.
    + intros [->|Hp]%elem_of_cons; [simpl; lia|]. apply IH in Hp. simpl. lia.
    + destruct (split_bytes sep l) as [|h t].
      * intros H%list_elem_of_singleton. subst. simpl. lia.
      * intros [->|Hp]%elem_of_cons; simpl.
        -- specialize (IH h (list_elem_of_here _ _)). lia.
        -- specialize (IH p (list_elem_of_further _ _ _ Hp)). lia.
Qed.

Lemma short_split s sep p : short s -> p ∈ Split s sep -> short p.
Proof.
  unfold short, Split. intros H (q & -> & Hq)%list_elem_of_fmap.
  rewrite bytes_text. apply split_bytes_length in Hq. lia.
Qed.

Lemma step_short tok : short tok ->
  parse_step tok = step_meaning tok
  /\ short (fst (step_meaning tok)) /\ 0 < snd (step_meaning tok) <= 10 ^ 18.
Proof.
  intros H. unfold parse_step, step_meaning, atoiSafe, number.
  pose proof (fun p => short_split tok "/" p H) as Hs.
  destruct (Split tok "/") as [|p [|q [|r t]]]; cbn [fst snd]; [repeat split; lia || done..| |repeat split; lia || done].
  assert (Hp : short p) by (apply Hs; left). assert (Hq : short q) by (apply Hs; right; left).
  rewrite (atoi_short _ Hq). destruct (decimal 0 (bytes q)) as [v|] eqn:E; [|repeat split; lia || done].
  apply (decimal_short _ _ Hq) in E. destruct (Z.ltb_spec 0 v); repeat split; lia || done.
Qed.

Lemma add_in_body min max v s :
  add_in min max v s = if (min <=? v) && (v <=? max) then {[v]} ∪ s else s.
Proof. done. Qed.
Lemma add_any_body v s : add_any v s = if true then {[v]} ∪ s else s.
Proof. done. Qed.

(** What one token contributes. *)
Definition contributes (min max : Z) (set set' : gset Z) (p : progression) : Prop :=
  forall v, v ∈ set' <-> v ∈ set \/ (min <= v <= max /\ in_progression v p = true).

Lemma in_progression_true v a b s :
  in_progression v (a, b, s) = true <-> a <= v <= b /\ (v - a) mod s = 0.
Proof.
  unfold in_progression. rewrite !andb_true_iff, !Z.leb_le, Z.eqb_eq. tauto.
Qed.

Lemma loop_contributes fuel min max a b step body set :
  max_iterations < Z.of_nat fuel -> 0 <= a -> b <= 10 ^ 18 -> 0 < step <= 10 ^ 18 ->
  (body = add_in min max \/ (body = add_any /\ a = min /\ b = max)) ->
  exists set', for_loop fuel a b step body set = Some set' /\ contributes min max set set' (a, b, step).
Proof.
  unfold max_iterations. intros Hf Ha Hb Hs Hbody.
  destruct Hbody as [->|(-> & -> & ->)].
  - destruct (for_loop_spec fuel a b step (fun v => (min <=? v) && (v <=? max)) (add_in min max) set)
      as (set' & E & Hin); [unfold max_int64, min_int64; lia..|apply add_in_body|].
    exists set'. split; [done|]. intros v. rewrite Hin, in_progression_true, andb_true_iff, !Z.leb_le. tauto.
  - destruct (for_loop_spec fuel min max step (fun _ => true) add_any set)
      as (set' & E & Hin); [unfold max_int64, min_int64; lia..|apply add_any_body|].
    exists set'. split; [done|]. intros v. rewrite Hin, in_progression_true. intuition lia.
Qed.

Lemma parse_token_meaning fuel min max tok set :
  max_iterations < Z.of_nat fuel -> 0 <= min -> max <= 10 ^ 18 -> short tok ->
  match token_meaning min max tok with
  | Ok p => exists set', parse_token fuel min max tok set = Some (Ok set') /\ contributes min max set set' p
  | Err e => parse_token fuel min max tok set = Some (Err e)
  end.
Proof.
  intros Hf Hmin Hmax Hs. destruct (step_short tok Hs) as (E & Hs' & Hst).
  unfold parse_token, token_meaning. rewrite E.
  destruct (step_meaning tok) as [tk step]. cbn [fst snd] in *. clear E Hs tok.
  case_decide as Estar.
  { destruct (loop_contributes fuel min max min max step add_any set) as (s' & -> & Hc); [done..|by right|by exists s']. }
  destruct (cut (bytes "-") (bytes tk)) as [[l r]|] eqn:Ecut.
  - assert (Hl : (length l <= 18)%nat /\ (length r <= 18)%nat).
    { apply cut_Some in Ecut. apply (f_equal length) in Ecut. rewrite !length_app in Ecut.
      unfold short in Hs'. lia. }
    destruct Hl as [Hl Hr]. rewrite (atoi_short _ Hl), (atoi_short _ Hr).
    destruct (decimal 0 l) as [a|] eqn:Ea; [|done]. destruct (decimal 0 r) as [b|] eqn:Eb; [|done].
    apply (decimal_short _ _ Hl) in Ea. apply (decimal_short _ _ Hr) in Eb.
    assert (Esw : (if b <? a then (b, a) else (a, b)) = (Z.min a b, Z.max a b)).
    { destruct (Z.ltb_spec b a); f_equal; lia. }
    rewrite Esw.
    destruct (loop_contributes fuel min max (Z.min a b) (Z.max a b) step (add_in min max) set)
      as (s' & -> & Hc); [lia..|by left|by exists s'].
  - unfold atoiSafe, number. rewrite (atoi_short _ Hs').
    destruct (decimal 0 (bytes tk)) as [v|]; [|done].
    exists (add_in min max v set). split; [done|]. intros w. rewrite add_in_body.
    rewrite in_progression_true, Z.mod_1_r.
    destruct (Z.leb_spec min v), (Z.leb_spec v max); cbn [andb];
      rewrite ?elem_of_union, ?elem_of_singleton; intuition (subst; lia || tauto || (left; lia) || idtac).
    all: try (right; done); try (left; lia).
Qed.

Lemma parse_tokens_meaning fuel min max toks set :
  max_iterations < Z.of_nat fuel -> 0 <= min -> max <= 10 ^ 18 -> Forall short toks ->
  match tokens_meaning min max toks with
  | Ok ps => exists set', parse_tokens fuel min max toks set = Some (Ok set')
      /\ forall v, v ∈ set' <-> v ∈ set \/ (min <= v <= max /\ existsb (in_progression v) ps = true)
  | Err e => parse_tokens fuel min max toks set = Some (Err e)
  end.
Proof.
  intros Hf Hmin Hmax HF. revert set. induction HF as [|tok toks Hs HF IH]; intros set;
    cbn [tokens_meaning parse_tokens].
  { exists set. split; [done|]. intros v. cbn [existsb]. intuition discriminate. }
  case_decide as E; [apply IH|].
  pose proof (parse_token_meaning fuel min max (TrimSpace tok) set Hf Hmin Hmax (short_trim _ Hs)) as H.
  destruct (token_meaning min max (TrimSpace tok)) as [p|e]; cbn [mbind result_bind]; [|by rewrite H].
  destruct H as (s1 & -> & Hc). cbn [fbind]. specialize (IH s1).
  destruct (tokens_meaning min max toks) as [ps|e]; cbn [mbind result_bind]; [|done].
  destruct IH as (s' & -> & Hin). exists s'. split; [done|]. intros v.
  rewrite Hin, (Hc v). cbn [existsb]. rewrite orb_true_iff. tauto.
Qed.

Lemma elem_of_field_values min max ps v :
  v ∈ field_values min max ps <-> min <= v <= max /\ existsb (in_progression v) ps = true.
Proof.
  unfold field_values. rewrite elem_of_list_to_set, list_elem_of_filter, elem_of_seqZ.
  intuition lia.
Qed.



(** A range that ends at the greatest integer makes the parser loop for
    ever: no amount of fuel is enough, whatever follows the minutes. *)
Lemma parseCron_diverges fuel :
  parseCron fuel "0-9223372036854775807 * * * *" = None.
Proof.
  assert (E : parse_token fuel 0 59 (TrimSpace "0-9223372036854775807") ∅ = None).
  { change (parse_token fuel 0 59 (TrimSpace "0-9223372036854775807") ∅)
      with (Ok (E := CronError) <$> for_loop fuel 0 9223372036854775807 1 (add_in 0 59) ∅).
    change 9223372036854775807 with max_int64. by rewrite for_loop_diverges. }
  unfold parseCron. replace (Fields "0-9223372036854775807 * * * *")
    with ["0-9223372036854775807"; "*"; "*"; "*"; "*"]%string by (vm_compute; reflexivity).
  assert (E' : parseCronField fuel "0-9223372036854775807" 0 59 = None); [|by rewrite E'].
  unfold parseCronField. rewrite decide_False by (intros [H|H]; revert H; vm_compute; discriminate).
  replace (Split (TrimSpace "0-9223372036854775807") ",")
    with ["0-9223372036854775807"%string] by (vm_compute; reflexivity).
  cbn [parse_tokens]. rewrite E. by rewrite decide_False by (vm_compute; discriminate).
Qed.

(** ** The search for the next minute *)
Lemma cron_scan_spec n spec loc t :
  let r := cron_scan n spec loc t in
  exists k, r = t + k * Minute /\ 0 <= k <= Z.of_nat n
    /\ (forall j, 0 <= j < k -> cronMatch spec loc (t + j * Minute) = false)
    /\ (k < Z.of_nat n -> cronMatch spec loc r = true).
Proof.
  revert t. induction n as [|n IH]; intros t; cbn [cron_scan].
  - exists 0. repeat split; intros; lia.
  - destruct (cronMatch spec loc t) eqn:E.
    + exists 0. repeat split; intros; try lia; done.
    + destruct (IH (t + Minute)) as (k & Hr & Hk & Hno & Hyes). exists (k + 1).
      split; [rewrite Hr; lia|]. split; [lia|]. split.
      * intros j Hj. destruct (Z.eq_dec j 0) as [->|Hj0]; [by rewrite Z.mul_0_l, Z.add_0_r|].
        replace (t + j * Minute) with (t + Minute + (j - 1) * Minute) by lia. apply Hno. lia.
      * intros. apply Hyes. lia.
Qed.

(** The minutes of the search are numbered from 1. *)
Lemma cronNext_cases spec loc from :
  exists k, cronNext spec loc from = from + k * Minute /\ 1 <= k <= scan_limit + 1
    /\ (forall j, 1 <= j < k -> cronMatch spec loc (from + j * Minute) = false)
    /\ (k <= scan_limit -> cronMatch spec loc (cronNext spec loc from) = true).
Proof.
  unfold cronNext. destruct (cron_scan_spec (Z.to_nat scan_limit) spec loc (from + Minute))
    as (k & Hr & Hk & Hno & Hyes).
  rewrite Z2Nat.id in * by (unfold scan_limit; lia).
  exists (k + 1). split; [rewrite Hr; lia|]. split; [lia|]. split.
  - intros j Hj. replace (from + j * Minute) with (from + Minute + (j - 1) * Minute) by lia.
    apply Hno. lia.
  - intros. apply Hyes. lia.
Qed.

(** The search returns the first matching minute after [from] when one of the
    following 525600 minutes (365 days) matches. *)
Lemma cronNext_first spec loc from k :
  1 <= k <= scan_limit -> cronMatch spec loc (from + k * Minute) = true ->
  exists k0, cronNext spec loc from = from + k0 * Minute /\ 1 <= k0 <= k
    /\ cronMatch spec loc (cronNext spec loc from) = true
    /\ forall j, 1 <= j < k0 -> cronMatch spec loc (from + j * Minute) = false.
Proof.
  intros Hk Hm. destruct (cronNext_cases spec loc from) as (k0 & E & Hk0 & Hno & Hyes).
  assert (k0 <= k).
  { destruct (Z.le_gt_cases k0 k); [done|]. rewrite Hno in Hm by lia. done. }
  exists k0. repeat split; try done; try lia. apply Hyes. lia.
Qed.


(** ** Dates *)
Lemma month_day_valid lens m yd :
  0 <= yd < foldr Z.add 0 lens ->
  exists i n, lens !! i = Some n /\ fst (month_day lens m yd) = m + Z.of_nat i
    /\ 1 <= snd (month_day lens m yd) <= n.
Proof.
  revert m yd. induction lens as [|n lens IH]; intros m yd; cbn [foldr month_day]; [lia|]. intros Hyd.
  destruct (Z.ltb_spec yd n) as [Hlt|Hge].
  - exists 0%nat, n. repeat split; cbn; lia.
  - destruct (IH (m + 1) (yd - n)) as (i & n' & Hi & Hm & Hd); [lia|].
    exists (S i), n'. split; [exact Hi|]. split; [rewrite Hm; lia|exact Hd].
Qed.

Lemma year_day_bound d :
  let n400 := d / 146097 in
  let r1 := d mod 146097 in
  let n100 := Z.min 3 (r1 / 36524) in
  let r2 := r1 - n100 * 36524 in
  let n4 := r2 / 1461 in
  let r3 := r2 mod 1461 in
  let n1 := Z.min 3 (r3 / 365) in
  let y := 400 * n400 + 100 * n100 + 4 * n4 + n1 + 1 in
  0 <= r3 - n1 * 365 < foldr Z.add 0 (month_lengths (is_leap y)).
Proof.
  intros n400 r1 n100 r2 n4 r3 n1 y.
  assert (Hr1 : 0 <= r1 < 146097) by (apply Z.mod_pos_bound; lia).
  assert (Hr2 : 0 <= n100 <= 3 /\ 0 <= r2 /\ (n100 < 3 -> r2 < 36524) /\ r2 <= 36524).
  { pose proof (Z.div_mod r1 36524 ltac:(lia)). pose proof (Z.mod_pos_bound r1 36524 ltac:(lia)).
    unfold r2, n100. lia. }
  assert (Hr3 : 0 <= r3 < 1461 /\ r2 = 1461 * n4 + r3 /\ 0 <= n4 <= 24).
  { pose proof (Z.div_mod r2 1461 ltac:(lia)). pose proof (Z.mod_pos_bound r2 1461 ltac:(lia)).
    unfold r3, n4. lia. }
  assert (Hn1 : 0 <= n1 <= 3 /\ 0 <= r3 - n1 * 365 <= 365 /\ (n1 < 3 -> r3 - n1 * 365 < 365)).
  { pose proof (Z.div_mod r3 365 ltac:(lia)). pose proof (Z.mod_pos_bound r3 365 ltac:(lia)).
    unfold n1. lia. }
  destruct (is_leap y) eqn:Ey; cbn [foldr month_lengths]; [lia|].
  destruct (Z.eq_dec (r3 - n1 * 365) 365) as [E|]; [exfalso|lia].
  assert (n1 = 3) by lia. unfold is_leap in Ey.
  assert (E4 : y mod 4 = 0).
  { unfold y. replace (400 * n400 + 100 * n100 + 4 * n4 + n1 + 1)
      with ((100 * n400 + 25 * n100 + n4 + 1) * 4) by lia. by apply Z.mod_mul. }
  rewrite E4 in Ey. cbn [Z.eqb andb] in Ey. apply orb_false_iff in Ey as [E100 E400].
  apply negb_false_iff, Z.eqb_eq in E100. apply Z.eqb_neq in E400.
  assert (E25 : n4 = 24).
  { pose proof (Z.div_mod y 100 ltac:(lia)). rewrite E100 in *. unfold y in *. lia. }
  assert (n100 = 3) by lia.
  apply E400. unfold y. replace (400 * n400 + 100 * n100 + 4 * n4 + n1 + 1)
      with ((n400 + 1) * 400) by lia. by apply Z.mod_mul.
Qed.

(** The longest length of a month. *)
Definition longest_month (m : Z) : Z := default 0 (month_lengths true !! Z.to_nat (m - 1)).

Lemma civil_valid n :
  let '(y, m, d) := civil n in
  1 <= m <= 12 /\ exists len, month_lengths (is_leap y) !! Z.to_nat (m - 1) = Some len /\ 1 <= d <= len.
Proof.
  unfold civil. set (y := 400 * _ + _ + _ + _ + 1).
  pose proof (year_day_bound n) as H. cbv zeta in H. fold y in H.
  destruct (month_day_valid _ 1 _ H) as (i & len & Hi & Hm & Hd).
  destruct (month_day _ _ _) as [m d]. cbn [fst snd] in Hm, Hd.
  assert (Hi' := lookup_lt_Some _ _ _ Hi). change (length (month_lengths (is_leap y))) with 12%nat in Hi'.
  split; [lia|]. exists len. split; [|done]. by replace (Z.to_nat (m - 1)) with i by lia.
Qed.

Lemma Day_Month loc t : 1 <= Month loc t <= 12 /\ 1 <= Day loc t <= longest_month (Month loc t).
Proof.
  unfold Day, Month. pose proof (civil_valid (local_day loc t)) as H.
  destruct (civil (local_day loc t)) as [[y m] d]. destruct H as (Hm & len & Hlen & Hd).
  split; [done|]. split; [lia|]. etransitivity; [apply Hd|]. unfold longest_month.
  destruct (is_leap y); [by rewrite Hlen|].
  assert (Hc : m = 2 \/ m <> 2) by lia. destruct Hc as [->|Hne].
  - cbn in Hlen. injection Hlen as <-. vm_compute. discriminate.
  - replace (month_lengths true !! Z.to_nat (m - 1)) with (month_lengths false !! Z.to_nat (m - 1)); [by rewrite Hlen|].
    destruct (Z.to_nat (m - 1)) as [|[|k]] eqn:E; [done|lia|done].
Qed.

(** A cron expression whose days never occur in its months (such as
    February 31) still yields a next run time: 525601 minutes after [from], a
    time that does not match the expression. *)
Lemma cronNext_impossible spec loc from :
  (forall d m, d ∈ cs_dom spec -> m ∈ cs_mon spec -> longest_month m < d) ->
  cronNext spec loc from = from + (scan_limit + 1) * Minute
  /\ cronMatch spec loc (cronNext spec loc from) = false.
Proof.
  intros H. assert (Hno : forall t, cronMatch spec loc t = false).
  { intros t. destruct (cronMatch spec loc t) eqn:E; [|done]. unfold cronMatch in E.
    rewrite !andb_true_iff, !bool_decide_eq_true in E. destruct E as ((((_ & _) & Hd) & Hm) & _).
    specialize (H _ _ Hd Hm). pose proof (Day_Month loc t). lia. }
  destruct (cronNext_cases spec loc from) as (k & E & Hk & _ & Hyes).
  split; [|apply Hno]. rewrite E.
  destruct (Z.le_gt_cases k scan_limit) as [Hle|Hgt]; [specialize (Hyes Hle); rewrite Hno in Hyes; discriminate|].
  by replace k with (scan_limit + 1) by lia.
Qed.

Lemma cronNext_impossible_witness :
  let spec := mkCronSpec {[0]} {[0]} {[31]} {[2]} (list_to_set (seqZ 0 7)) in
  parseCron 100 "0 0 31 2 *" = Some (Ok spec)
  /\ cronNext spec UTC 0 = (scan_limit + 1) * Minute
  /\ cronMatch spec UTC (cronNext spec UTC 0) = false.
Proof.
  intros spec. split; [vm_compute; reflexivity|].
  apply (cronNext_impossible spec UTC 0). intros d m.
  change (d ∈ ({[31]} : gset Z) -> m ∈ ({[2]} : gset Z) -> longest_month m < d).
  rewrite !elem_of_singleton. intros -> ->. vm_compute. reflexivity.
Defined.

(** ** The next run of a cron schedule *)

(** A whole minute of the wall clock. *)
Definition on_minute (loc : Location) (t : Z) : Prop :=
  t mod Second = 0 /\ local_seconds loc t mod 60 = 0.

(** [r] is the first matching minute after [t]. *)
Definition is_next_match (spec : cronSpec) (loc : Location) (t r : Z) : Prop :=
  t < r /\ on_minute loc r /\ cronMatch spec loc r = true
  /\ forall u, t < u < r -> on_minute loc u -> cronMatch spec loc u = false.

(** A minute of the 365 days after [t] matches. *)
Definition match_within (spec : cronSpec) (loc : Location) (t : Z) : Prop :=
  exists k, 1 <= k <= scan_limit /\ cronMatch spec loc (truncateToMinute loc t + k * Minute) = true.

(** A location without transitions: UTC and the fixed zones. *)
Definition steady (loc : Location) : Prop := forall s s', loc s = loc s'.

Section Steady.
Context (loc : Location) (Hloc : steady loc).

Lemma truncate_steady t :
  truncateToMinute loc t = (t / Second - local_seconds loc t mod 60) * Second.
Proof.
  unfold truncateToMinute, date_in, local_seconds.
  set (ls := t / Second + loc (t / Second)). rewrite (Hloc (ls - ls mod 60 - _) (t / Second)).
  unfold ls. lia.
Qed.

Lemma truncate_le t : truncateToMinute loc t <= t < truncateToMinute loc t + Minute.
Proof.
  rewrite truncate_steady. pose proof (Z.mod_pos_bound (local_seconds loc t) 60 ltac:(lia)).
  pose proof (Z.div_mod t Second ltac:(unfold Second; lia)).
  pose proof (Z.mod_pos_bound t Second ltac:(unfold Second; lia)).
  unfold Minute, Second in *. lia.
Qed.

Lemma local_seconds_shift s k : local_seconds loc (s * Second + k * Minute) = s + loc 0 + k * 60.
Proof.
  unfold local_seconds. replace (s * Second + k * Minute) with ((s + k * 60) * Second) by (unfold Minute, Second; lia).
  rewrite Z.div_mul by (unfold Second; lia). rewrite (Hloc _ 0). lia.
Qed.

Lemma truncate_on_minute t k : on_minute loc (truncateToMinute loc t + k * Minute).
Proof.
  split.
  - rewrite truncate_steady.
    replace (_ * Second + k * Minute) with ((t / Second - local_seconds loc t mod 60 + k * 60) * Second)
      by (unfold Minute, Second; lia).
    apply Z.mod_mul. unfold Second. lia.
  - rewrite truncate_steady, local_seconds_shift, Z.mod_add by lia.
    unfold local_seconds. rewrite (Hloc (t / Second) 0).
    replace (t / Second - (t / Second + loc 0) mod 60 + loc 0)
      with (t / Second + loc 0 - (t / Second + loc 0) mod 60) by lia.
    rewrite Zminus_mod, Z.mod_mod, Z.sub_diag by lia. done.
Qed.

(** The whole minutes after [t] are those the search visits. *)
Lemma on_minute_after t u :
  t < u -> on_minute loc u -> exists k, 1 <= k /\ u = truncateToMinute loc t + k * Minute.
Proof.
  intros Htu [Hu1 Hu2]. pose proof (truncate_le t) as Hle. rewrite truncate_steady in *.
  apply Z.div_exact in Hu1; [|unfold Second; lia].
  set (a := u / Second) in *. unfold local_seconds in *. fold a in Hu2.
  rewrite (Hloc (t / Second) 0) in *. rewrite (Hloc a 0) in *.
  set (b := t / Second) in *. set (c := loc 0) in *.
  apply Z.div_exact in Hu2; [|lia].
  pose proof (Z.div_mod (b + c) 60 ltac:(lia)) as Hb.
  exists ((a + c) / 60 - (b + c) / 60). unfold Minute, Second in *. split; lia.
Qed.

Lemma cronNext_truncated spec t :
  match_within spec loc t -> is_next_match spec loc t (cronNext spec loc (truncateToMinute loc t)).
Proof.
  intros (k & Hk & Hm). pose proof (truncate_le t) as Hle.
  destruct (cronNext_cases spec loc (truncateToMinute loc t)) as (k0 & E & Hk0 & Hno & Hyes).
  assert (Hle0 : k0 <= scan_limit).
  { destruct (Z.le_gt_cases k0 scan_limit); [done|]. rewrite Hno in Hm by lia. done. }
  specialize (Hyes Hle0). split; [|split; [|split; [exact Hyes|]]].
  - rewrite E. unfold Minute, Second in *. lia.
  - rewrite E. apply truncate_on_minute.
  - intros u Hu Hmin. destruct (on_minute_after t u (proj1 Hu) Hmin) as (j & Hj & ->).
    apply Hno. rewrite E in Hu. unfold Minute, Second in *. lia.
Qed.
End Steady.

(** C34: In UTC and in any zone without transitions, the next run of a cron
    schedule is the first whole minute after [now] that matches, whatever the
    base it is recomputed from, as long as some of the 525600 minutes after the
    base and some of those after [now] matches (when none does, as for the 29th
    of February in most years, the code gives up and returns a minute that does
    not match: [cronNext_impossible]). *)
Theorem nextCronAfter_first spec loc base now :
  steady loc -> base <= now -> match_within spec loc base -> match_within spec loc now ->
  is_next_match spec loc now (nextCronAfter spec loc base now).
Proof.
  intros Hloc Hbase Hmb Hmn. unfold nextCronAfter, time_after.
  destruct (Z.ltb_spec now (cronNext spec loc (truncateToMinute loc base))) as [Hlt|_];
    [|by apply cronNext_truncated].
  destruct (cronNext_truncated loc Hloc spec base Hmb) as (H1 & H2 & H3 & H4).
  split; [done|]. split; [done|]. split; [done|]. intros u Hu. apply H4. lia.
Qed.

Lemma nextCronAfter_first_witness :
  let spec := mkCronSpec (list_to_set [0; 30]) {[9]} (list_to_set (seqZ 1 31)) (list_to_set (seqZ 1 12)) {[4]} in
  let base := (738944 * 86400 + 8 * 3600 + 12) * Second in
  is_next_match spec UTC (base + 75 * Minute) (nextCronAfter spec UTC base (base + 75 * Minute)).
Proof.
  apply nextCronAfter_first; [done|unfold Minute, Second; lia|exists 60|exists 15];
    (split; [unfold scan_limit; lia|vm_compute; reflexivity]).
Defined.

(** A zone whose clocks go back from UTC-4 to UTC-5 at the instant 0. *)
Definition fall_back : Location := fun s => if s <? 0 then -14400 else -18000.

Definition every_5 : cronSpec :=
  mkCronSpec (list_to_set [0; 5; 10; 15; 20; 25; 30; 35; 40; 45; 50; 55]) (list_to_set (seqZ 0 24))
    (list_to_set (seqZ 1 31)) (list_to_set (seqZ 1 12)) (list_to_set (seqZ 0 7)).

(** In the hour that the clocks repeat, truncating to the minute goes back to
    the first occurrence of the wall clock time, so that the next run computed
    for "*/5 * * * *" lies 58 minutes in the past. *)
Lemma nextCronAfter_in_the_past :
  parseCron 100 "*/5 * * * *" = Some (Ok every_5)
  /\ let now := 33 * Minute in
     nextCronAfter every_5 fall_back now now = now - 58 * Minute.
Proof. split; vm_compute; reflexivity. Qed.

(** ** The next run of an interval schedule *)

(** The next run of an interval schedule is the first instant after [now]
    that is a positive whole number of intervals after the base. *)
Lemma nextIntervalAfter_first base interval now :
  0 < interval -> in_int64 (now - base) -> now - base + interval <= max_int64 ->
  exists k, nextIntervalAfter base interval now = base + k * interval /\ 1 <= k
    /\ now < nextIntervalAfter base interval now
    /\ forall j, 1 <= j < k -> base + j * interval <= now.
Proof.
  intros Hi Hin Hmax. unfold nextIntervalAfter, time_after.
  destruct (Z.ltb_spec now (base + interval)) as [Hlt|Hge].
  { exists 1. repeat split; intros; lia. }
  rewrite time_sub_exact by done.
  remember (now - base) as e eqn:Ee.
  rewrite Z.quot_div_nonneg by lia.
  pose proof (Z.div_mod e interval ltac:(lia)) as Hdm.
  pose proof (Z.mod_pos_bound e interval Hi) as Hmod.
  assert (Hq : 1 <= e / interval <= e).
  { split; [apply Z.div_le_lower_bound; lia|apply Z.div_le_upper_bound; nia]. }
  set (q := e / interval) in *. clearbody q.
  assert (Hnext : e < (q + 1) * interval <= e + interval) by nia.
  unfold in_int64, min_int64, max_int64 in *.
  cbv zeta. unfold dur_mul. rewrite (wrap64_id (q + 1)) by (unfold in_int64, min_int64, max_int64; lia).
  rewrite wrap64_id by (unfold in_int64, min_int64, max_int64; lia).
  replace (now <? base + (q + 1) * interval) with true by (symmetry; apply Z.ltb_lt; lia).
  cbn [negb]. exists (q + 1). split; [done|]. split; [lia|]. split; [lia|]. intros j Hj.
  assert (j * interval <= q * interval) by nia. lia.
Qed.

Lemma nextIntervalAfter_first_witness :
  exists k, nextIntervalAfter 0 (5 * Minute) (17 * Minute) = 0 + k * (5 * Minute) /\ 1 <= k
    /\ 17 * Minute < nextIntervalAfter 0 (5 * Minute) (17 * Minute)
    /\ forall j, 1 <= j < k -> 0 + j * (5 * Minute) <= 17 * Minute.
Proof. apply nextIntervalAfter_first; unfold in_int64, min_int64, max_int64, Minute, Second; lia. Defined.

Example nextIntervalAfter_ex : nextIntervalAfter 0 (5 * Minute) (17 * Minute) = 20 * Minute.
Proof. reflexivity. Qed.

#[global] Arguments parseCron : simpl never.
#[global] Arguments cronNext : simpl never.
#[global] Arguments nextCronAfter : simpl never.
#[global] Arguments nextIntervalAfter : simpl never.
