(* ===== verification/Effects.v ===== *)
(** * Programs with effects

    Code that calls its environment, as trees of typed calls: the store, the
    clock, a goroutine that is started. A component lists its calls in an
    inductive family [E : Type -> Type] and says what they do; what is common
    is here: the monad, and a logic that follows the calls of a program with a
    monitor state. *)
From stdpp Require Import base tactics.

Section Programs.
Context {E : Type -> Type}.

(** [Spin] is code that never returns. *)
Inductive prog (A : Type) : Type :=
| Ret (a : A)
| Call {R} (c : E R) (k : R -> prog A)
| Spin.

Fixpoint bind {A B} (p : prog A) (f : A -> prog B) : prog B :=
  match p with
  | Ret _ a => f a
  | Call _ c k => Call B c (fun r => bind (k r) f)
  | Spin _ => Spin B
  end.
End Programs.

Arguments prog E A : clear implicits.
Arguments Ret {E A} a.
Arguments Call {E A R} c k.
Arguments Spin {E A}.

#[export] Instance prog_ret {E} : MRet (prog E) := fun A => Ret.
#[export] Instance prog_bind {E} : MBind (prog E) := fun A B f p => bind p f.

(** A call followed by its continuation. *)
Definition ask {E R} (c : E R) : prog E R := Call c Ret.

(** ** Following a program with a monitor

    A monitor has a state; in a state some calls are allowed, the answers of the
    environment satisfy [answer], and a call with its answer moves the state. *)
Section Monitor.
Context {E : Type -> Type} {S : Type}.
Context (allowed : forall R, S -> E R -> Prop) (answer : forall R, E R -> R -> Prop) (next : forall R, S -> E R -> R -> S).

(** [p], started in [s], only makes calls that are allowed and ends in [Q]. *)
Fixpoint follows {A} (s : S) (p : prog E A) (Q : A -> S -> Prop) : Prop :=
  match p with
  | Ret a => Q a s
  | Call c k => allowed _ s c /\ forall r, answer _ c r -> follows (next _ s c r) (k r) Q
  | Spin => True
  end.

Lemma follows_weaken {A} s (p : prog E A) (Q Q' : A -> S -> Prop) :
  follows s p Q -> (forall a s', Q a s' -> Q' a s') -> follows s p Q'.
Proof.
  intros Hp HQ. revert s Hp. induction p as [a|R c k IH|]; intros s Hp; simpl in *; [by apply HQ| |done].
  destruct Hp as [Ha Hk]. split; [done|]. intros r Hr. by apply IH, Hk.
Qed.

Lemma follows_bind {A B} s (p : prog E A) (f : A -> prog E B) Q :
  follows s p (fun a s' => follows s' (f a) Q) -> follows s (x ← p; f x) Q.
Proof.
  revert s. unfold mbind, prog_bind. induction p as [a|R c k IH|]; intros s Hp; simpl in *; [done| |done].
  destruct Hp as [Ha Hk]. split; [done|]. intros r Hr. by apply IH, Hk.
Qed.

Lemma follows_ask {R} s (c : E R) (Q : R -> S -> Prop) :
  allowed _ s c -> (forall r, answer _ c r -> Q r (next _ s c r)) -> follows s (ask c) Q.
Proof. done. Qed.
End Monitor.

Arguments follows_weaken {E S allowed answer next A} s p Q Q'.
Arguments follows_bind {E S allowed answer next A B} s p f Q.
Arguments follows_ask {E S allowed answer next R} s c Q.
