(* ===== verification/SchedStore.v ===== *)
(** * The scheduler's store ([service/scheduler/store.go] and the writers behind
    it: [internal/datly/schedule/write/lifecycle.go],
    [internal/datly/run/write/lifecycle.go], [internal/datly/predicate/lease.go],
    [internal/datly/schedule/read/sql/reader.sql])

    Rows of the schedule and run tables, marker-based mutations of them, the
    lease operations, and the calls the service makes as a program over them.
    The SQL engine executes one call at a time; it may fail, in which case
    nothing changes.

    A row is a function from columns to values and a mutation a partial one: a
    column is [Some] exactly when its [Has] marker is set. *)
From stdpp Require Import base gmap strings list fin_maps numbers sorting.
From Stdlib Require Import ZArith Lia Ascii.
From S2P Require Import Prelude Effects GoStrings.

Open Scope Z_scope.

(** ** Tables *)
Section Tables.
Context {column : Type} `{EqDecision column} (ty : column -> Type).

Definition row := forall c, ty c.
Definition mutation := forall c, option (ty c).
Definition no_columns : mutation := fun _ => None.

(** Setting a column and its marker. *)
Definition put (c : column) (v : ty c) (m : mutation) : mutation := fun c' =>
  match decide (c = c') with
  | left e => Some (eq_rect c ty v c' e)
  | right _ => m c'
  end.

Definition apply_mutation (m : mutation) (r : row) : row := fun c => default (r c) (m c).
End Tables.
Arguments no_columns {column ty}.
Arguments put {column _ ty} c v m.
Arguments apply_mutation {column ty} m r.

(** ** The schedule and run tables *)
Inductive schedule_column :=
| s_Id | s_Name | s_Description | s_CreatedByUserId | s_Visibility | s_Internal | s_ConversationId
| s_GoalId | s_AgentRef | s_ModelOverride | s_UserCredUrl | s_Enabled | s_StartAt | s_EndAt
| s_ScheduleType | s_CronExpr | s_IntervalSeconds | s_Timezone | s_TimeoutSeconds | s_TaskPromptUri
| s_TaskPrompt | s_NextRunAt | s_LastRunAt | s_LastStatus | s_LastError | s_LeaseOwner | s_LeaseUntil
| s_CreatedAt | s_UpdatedAt.
#[export] Instance schedule_column_eq_dec : EqDecision schedule_column.
Proof. solve_decision. Defined.

Definition schedule_type (c : schedule_column) : Type :=
  match c with
  | s_Internal | s_Enabled => bool
  | s_StartAt | s_EndAt | s_IntervalSeconds | s_NextRunAt | s_LastRunAt | s_LeaseUntil
  | s_UpdatedAt => option Z
  | s_TimeoutSeconds | s_CreatedAt => Z
  | s_Id | s_Name | s_Visibility | s_AgentRef | s_ScheduleType | s_Timezone => string
  | _ => option string
  end.

Inductive run_column :=
| r_Id | r_ScheduleId | r_ConversationId | r_ConversationKind | r_Status | r_ScheduledFor | r_CreatedAt
| r_StartedAt | r_CompletedAt | r_ErrorMessage | r_LeaseOwner | r_LeaseUntil | r_AgentId
| r_EffectiveUserId | r_UserCredUrl.
#[export] Instance run_column_eq_dec : EqDecision run_column.
Proof. solve_decision. Defined.

Definition run_type (c : run_column) : Type :=
  match c with
  | r_ScheduledFor | r_StartedAt | r_CompletedAt | r_LeaseUntil => option Z
  | r_CreatedAt => Z
  | r_Id | r_ScheduleId | r_ConversationKind | r_Status => string
  | _ => option string
  end.

Notation ScheduleView := (row schedule_type).
Notation RunView := (row run_type).
Notation Schedule := (mutation schedule_type).
Notation MutableRunView := (mutation run_type).

Record DB := mkDB { schedules : gmap string ScheduleView; runs : gmap string RunView }.

Definition with_schedules (f : gmap string ScheduleView -> gmap string ScheduleView) (db : DB) : DB :=
  mkDB (f (schedules db)) (runs db).
Definition with_runs (f : gmap string RunView -> gmap string RunView) (db : DB) : DB :=
  mkDB (schedules db) (f (runs db)).

(** [x != nil && !x.IsZero()]: the time when it is set. *)
Definition set_time (x : option Z) : option Z :=
  match x with
  | Some t => if time_is_zero t then None else Some t
  | None => None
  end.

(** ** The schedule writer ([schedule/write/lifecycle.go]) *)
Definition str_value (p : option string) : string := default ""%string p.

Definition string_eq (a b : option string) : bool :=
  match a, b with
  | None, None => true
  | Some x, Some y => bool_decide (TrimSpace x = TrimSpace y)
  | _, _ => false
  end.

Definition marked_differs {A} (marked : option A) (same : A -> bool) : bool :=
  match marked with Some v => negb (same v) | None => false end.

(** The columns whose change invalidates the next run time. *)
Definition schedule_changed (rec : Schedule) (cur : ScheduleView) : bool :=
  marked_differs (rec s_StartAt) (fun v => bool_decide (v = cur s_StartAt))
  || marked_differs (rec s_EndAt) (fun v => bool_decide (v = cur s_EndAt))
  || marked_differs (rec s_CronExpr) (fun v => string_eq v (cur s_CronExpr))
  || marked_differs (rec s_IntervalSeconds) (fun v => bool_decide (v = cur s_IntervalSeconds))
  || marked_differs (rec s_Timezone) (fun v => bool_decide (TrimSpace v = TrimSpace (cur s_Timezone)))
  || marked_differs (rec s_ScheduleType)
       (fun v => bool_decide (TrimSpace v = TrimSpace (cur s_ScheduleType)))
  || marked_differs (rec s_Enabled) (fun v => negb v || cur s_Enabled).

Definition clearNextRunAtOnScheduleChange (rec : Schedule) (cur : ScheduleView) : Schedule :=
  if schedule_changed rec cur then put s_NextRunAt None rec else rec.

(** [Lifecycle.Init] for a row that exists ([previous]) or not. *)
Definition when {A} (b : bool) (f : A -> A) (x : A) : A := if b then f x else x.
Definition is_blank (s : string) : bool := bool_decide (TrimSpace s = ""%string).

Definition init_schedule (now : Z) (userID : string) (previous : option ScheduleView) (rec : Schedule)
    : Schedule :=
  let creator := str_value (mjoin (rec s_CreatedByUserId)) in
  match previous with
  | None =>
      let rec := when (is_blank creator && negb (is_blank userID))
                   (put s_CreatedByUserId (Some userID)) rec in
      let visibility := str_value (rec s_Visibility) in
      let rec :=
        if is_blank visibility then
          put s_Visibility (if is_blank userID then "public" else "private")%string rec
        else if is_blank userID && EqualFold (TrimSpace visibility) "private" then
          put s_Visibility "public"%string rec
        else rec in
      let rec := when (bool_decide (str_value (rec s_Timezone) = ""%string)) (put s_Timezone "UTC"%string) rec in
      let rec := when (bool_decide (rec s_ScheduleType = None)) (put s_ScheduleType "adhoc"%string) rec in
      when (bool_decide (rec s_CreatedAt = None)) (put s_CreatedAt now) rec
  | Some cur =>
      let rec := clearNextRunAtOnScheduleChange rec cur in
      let rec := when (is_blank (str_value (cur s_CreatedByUserId)) && is_blank creator && negb (is_blank userID))
                   (put s_CreatedByUserId (Some userID)) rec in
      when (bool_decide (mjoin (rec s_UpdatedAt) = None)) (put s_UpdatedAt (Some now)) rec
  end.

(** The values of the columns a new row does not set, which the database schema
    determines. *)
Class Defaults := {
  schedule_defaults : ScheduleView;
  run_defaults : RunView }.

Section Store.
Context `{Defaults}.

Definition upsert {column} `{EqDecision column} {ty : column -> Type} (defaults : row ty)
    (init : option (row ty) -> mutation ty -> mutation ty) (id : string) (m : mutation ty)
    (t : gmap string (row ty)) : gmap string (row ty) :=
  let previous := t !! id in
  <[id := apply_mutation (init previous m) (default defaults previous)]> t.

(** [datlyStore.PatchSchedule]; [fresh] is the identifier of a row that has none. *)
Definition PatchSchedule (now : Z) (subject fresh : string) (schedule : Schedule) (db : DB) : DB :=
  let schedule := when (bool_decide (schedule s_Internal = None)) (put s_Internal false) schedule in
  let id := str_value (schedule s_Id) in
  let existing := bool_decide (is_Some (schedules db !! id)) in
  let '(id, schedule) :=
    if negb existing && is_blank id then (fresh, put s_Id fresh schedule) else (id, schedule) in
  with_schedules (upsert schedule_defaults (init_schedule now (TrimSpace subject)) id schedule) db.

(** [Lifecycle.Init] of the run writer. *)
Definition init_run (now : Z) (previous : option RunView) (rec : MutableRunView) : MutableRunView :=
  match previous with
  | Some _ => rec
  | None =>
      let rec := when (bool_decide (str_value (rec r_Status) = ""%string)) (put r_Status "pending"%string) rec in
      let rec := when (bool_decide (rec r_ConversationKind = None))
                   (put r_ConversationKind "interactive"%string) rec in
      when (bool_decide (rec r_CreatedAt = None)) (put r_CreatedAt now) rec
  end.

Definition PatchRun (now : Z) (rec : MutableRunView) (db : DB) : DB :=
  with_runs (upsert run_defaults (init_run now) (str_value (rec r_Id)) rec) db.

Definition PatchRuns (now : Z) (rows : list MutableRunView) (db : DB) : DB :=
  foldl (fun db rec => PatchRun now rec db) db rows.

Definition schedule_row (id : string) (db : DB) : option ScheduleView := schedules db !! TrimSpace id.
Definition run_row (id : string) (db : DB) : option RunView := runs db !! TrimSpace id.
Definition set_schedule (id : string) (m : Schedule) (r : ScheduleView) (db : DB) : DB :=
  with_schedules (<[TrimSpace id := apply_mutation m r]>) db.
Definition set_run (id : string) (m : MutableRunView) (r : RunView) (db : DB) : DB :=
  with_runs (<[TrimSpace id := apply_mutation m r]>) db.

(** ** Leases ([predicate/lease.go], [predicate/run_condition.go]) *)
Definition lease_free (now : Z) (owner : string) (holder : option string) (until : option Z) : bool :=
  match until with
  | None => true
  | Some u => (u <? now) || bool_decide (holder = Some owner)
  end.

Definition TryClaimSchedule (now : Z) (id owner : string) (until : Z) (db : DB) : bool * DB :=
  match schedule_row id db with
  | Some r =>
      if r s_Enabled && lease_free now (TrimSpace owner) (r s_LeaseOwner) (r s_LeaseUntil) then
        (true, set_schedule id (put s_LeaseOwner (Some (TrimSpace owner)) (put s_LeaseUntil (Some until) no_columns)) r db)
      else (false, db)
  | None => (false, db)
  end.

Definition ReleaseScheduleLease (id owner : string) (db : DB) : bool * DB :=
  match schedule_row id db with
  | Some r =>
      if bool_decide (r s_LeaseOwner = Some (TrimSpace owner)) then
        (true, set_schedule id (put s_LeaseOwner None (put s_LeaseUntil None no_columns)) r db)
      else (false, db)
  | None => (false, db)
  end.

Definition TryClaimRun (now : Z) (id owner : string) (until : Z) (db : DB) : bool * DB :=
  match run_row id db with
  | Some r =>
      if bool_decide (r r_CompletedAt = None)
         && lease_free now (TrimSpace owner) (r r_LeaseOwner) (r r_LeaseUntil) then
        (true, set_run id (put r_LeaseOwner (Some (TrimSpace owner)) (put r_LeaseUntil (Some until) no_columns)) r db)
      else (false, db)
  | None => (false, db)
  end.

Definition ReleaseRunLease (id owner : string) (db : DB) : bool * DB :=
  match run_row id db with
  | Some r =>
      if bool_decide (r r_LeaseOwner = Some (TrimSpace owner)) then
        (true, set_run id (put r_LeaseOwner None (put r_LeaseUntil None no_columns)) r db)
      else (false, db)
  | None => (false, db)
  end.

(** ** Reads *)

(** The rows a subject may see ([reader.sql]): all in internal mode, otherwise
    the rows that are not internal and are public or the subject's own. *)
Definition visible (subject : string) (internal : bool) (r : ScheduleView) : bool :=
  internal
  || (negb (r s_Internal)
      && (bool_decide (r s_Visibility <> "private"%string)
          || (bool_decide (subject <> ""%string) && bool_decide (r s_CreatedByUserId = Some subject)))).

Definition list_schedules (subject : string) (internal : bool) (db : DB) : list ScheduleView :=
  filter (fun r : ScheduleView => visible subject internal r = true) (snd <$> map_to_list (schedules db)).

Definition get_schedule (subject id : string) (db : DB) : option ScheduleView :=
  match schedules db !! id with
  | Some r => if visible subject false r then Some r else None
  | None => None
  end.

(** The order of the scheduler's reads of runs: the latest start first, runs
    that did not start last, then by identifier. *)
Definition later_start (a b : RunView) : Prop :=
  match a r_StartedAt, b r_StartedAt with
  | Some x, Some y => y < x \/ (x = y /\ Stdlib.Strings.String.leb (b r_Id) (a r_Id) = true)
  | Some _, None => True
  | None, Some _ => False
  | None, None => Stdlib.Strings.String.leb (b r_Id) (a r_Id) = true
  end.
#[local] Instance later_start_dec : RelDecision later_start.
Proof.
  intros a b. unfold later_start. destruct (a r_StartedAt), (b r_StartedAt); apply _.
Defined.
Definition all_runs (db : DB) : list RunView := merge_sort later_start (snd <$> map_to_list (runs db)).

(** [ListRunsForDue]: the runs of a schedule, of one slot or not in some states. *)
Definition run_selected (scheduleID : string) (scheduledFor : option Z) (exclude : list string)
    (r : RunView) : bool :=
  bool_decide (r r_ScheduleId = TrimSpace scheduleID)
  && match set_time scheduledFor with
     | Some t => bool_decide (r r_ScheduledFor = Some t)
     | None => true
     end
  && bool_decide (r r_Status ∉ exclude).

Definition ListRunsForDue (scheduleID : string) (scheduledFor : option Z) (exclude : list string)
    (db : DB) : list RunView :=
  if is_blank scheduleID then []
  else filter (fun r : RunView => run_selected scheduleID scheduledFor exclude r = true) (all_runs db).

(** [ListRuns] for one schedule: its runs when it is visible. *)
Definition ListRuns (subject scheduleID : string) (page size : nat) (db : DB) : list RunView :=
  match schedules db !! TrimSpace scheduleID with
  | Some s =>
      if visible subject false s then
        take size (drop ((page - 1) * size)
          (filter (fun r : RunView => r r_ScheduleId = TrimSpace scheduleID) (all_runs db)))
      else []
  | None => []
  end.

(** ** The calls of the service *)
Inductive StoreError := StoreFailure (what : string) | ContextDone.

Inductive call : Type -> Type :=
| Now : call Z
| NewUUID : call string
| CListForRunDue : call (result StoreError (list ScheduleView))
| CGet (id : string) : call (result StoreError (option ScheduleView))
| CList : call (result StoreError (list ScheduleView))
| CListRuns (scheduleID : string) (page size : nat) : call (result StoreError (list RunView))
| CDeleteSchedule (id : string) : call (result StoreError unit)
| CPatchSchedule (m : Schedule) : call (result StoreError unit)
| CPatchRuns (rows : list MutableRunView) : call (result StoreError unit)
| CListRunsForDue (id : string) (slot : option Z) (exclude : list string)
    : call (result StoreError (list RunView))
| CTryClaimSchedule (id owner : string) (until : Z) : call (result StoreError bool)
| CReleaseSchedule (id owner : string) : call (result StoreError bool)
| CTryClaimRun (id owner : string) (until : Z) : call (result StoreError bool)
| CReleaseRun (id owner : string) : call (result StoreError bool)
(** The concurrency semaphore, and the goroutine started for a run. *)
| CAcquireSlot : call (result StoreError unit)
| CSpawn (row : ScheduleView) (runID : string) (slot : Z) : call unit
(** One critical section on the reservations of the service. *)
| CReserved {R} (f : gmap string Z -> R * gmap string Z) : call R
(** The agent: cancelling a conversation, authenticating, querying. *)
| CCancelConversation (id status : string) : call (result StoreError unit)
| CAuthenticate (row : ScheduleView) (runID : string) : call (string * option string)
| CQuery (row : ScheduleView) (runID userID : string) : call (string * option string)
| CAnnotate (row : ScheduleView) (conversationID runID : string) : call unit.

(** The agent service: the effective user of a run with an authentication error,
    and the conversation of a query with its error. *)
Class Agent := {
  authenticate : ScheduleView -> string -> string * option string;
  query : ScheduleView -> string -> string -> string * option string }.

(** The generator of identifiers ([google/uuid]): the [n]th one. *)
Class UUIDs := new_uuid : nat -> string.
Definition proper_id (id : string) : Prop := TrimSpace id = id /\ id <> ""%string.
Class UUIDLaws `{UUIDs} : Prop := uuid_proper : forall n, proper_id (new_uuid n).

(** Programs over the calls. *)
Notation prog := (Effects.prog call).

(** ** What the calls do *)
Record World := mkWorld {
  db : DB; clock : Z; subject : string; issued : nat; launched : list (string * string * Z);
  reserved : gmap string Z }.

Definition on_db {R} (f : DB -> R * DB) (w : World) : R * World :=
  let '(r, d) := f (db w) in (r, mkWorld d (clock w) (subject w) (issued w) (launched w) (reserved w)).

Definition granted {R} (x : R * World) : result StoreError R * World := (Ok (fst x), snd x).

Section Calls.
Context `{Agent} `{UUIDs}.

Definition perform {R} (c : call R) (w : World) : R * World :=
  match c in call R return R * World with
  | Now => (clock w, w)
  | NewUUID => (new_uuid (issued w), mkWorld (db w) (clock w) (subject w) (S (issued w)) (launched w) (reserved w))
  | CListForRunDue => (Ok (list_schedules (subject w) true (db w)), w)
  | CGet id => (Ok (get_schedule (subject w) (TrimSpace id) (db w)), w)
  | CList => (Ok (list_schedules (subject w) false (db w)), w)
  | CListRuns id page size => (Ok (ListRuns (subject w) id page size (db w)), w)
  | CDeleteSchedule id => granted (on_db (fun d => (tt, with_schedules (delete id) d)) w)
  | CPatchSchedule m =>
    granted (on_db (fun d => (tt, PatchSchedule (clock w) (subject w) (new_uuid (issued w)) m d))
               (mkWorld (db w) (clock w) (subject w) (S (issued w)) (launched w) (reserved w)))
  | CPatchRuns rows => granted (on_db (fun d => (tt, PatchRuns (clock w) rows d)) w)
  | CListRunsForDue id slot exclude => (Ok (ListRunsForDue id slot exclude (db w)), w)
  | CTryClaimSchedule id owner until => granted (on_db (TryClaimSchedule (clock w) id owner until) w)
  | CReleaseSchedule id owner => granted (on_db (ReleaseScheduleLease id owner) w)
  | CTryClaimRun id owner until => granted (on_db (TryClaimRun (clock w) id owner until) w)
  | CReleaseRun id owner => granted (on_db (ReleaseRunLease id owner) w)
  | CAcquireSlot => (Ok tt, w)
  | CSpawn r runID slot =>
    (tt, mkWorld (db w) (clock w) (subject w) (issued w) (launched w ++ [(r s_Id, runID, slot)]) (reserved w))
  | CReserved f =>
    let '(r, m) := f (reserved w) in (r, mkWorld (db w) (clock w) (subject w) (issued w) (launched w) m)
  | CCancelConversation id status => (Ok tt, w)
  | CAuthenticate r runID => (authenticate r runID, w)
  | CQuery r runID userID => (query r runID userID, w)
  | CAnnotate r conversationID runID => (tt, w)
  end.

(** An execution in which no call fails; [None] when the code never returns. *)
Fixpoint exec {A} (p : prog A) (w : World) : option (A * World) :=
  match p with
  | Ret a => Some (a, w)
  | Call c k => let '(r, w') := perform c w in exec (k r) w'
  | Spin => None
  end.

(** The answers a call may give besides the one of [perform], without an effect:
    a store call may fail and the answers of the agent are arbitrary. *)
Definition is_err {A} (x : result StoreError A) : Prop := exists e, x = Err e.

Definition alternative {R} (c : call R) : R -> Prop :=
  match c in call R return R -> Prop with
  | CListForRunDue | CList => is_err
  | CGet _ => is_err
  | CListRuns _ _ _ | CListRunsForDue _ _ _ => is_err
  | CDeleteSchedule _ | CPatchSchedule _ | CPatchRuns _ | CAcquireSlot | CCancelConversation _ _ => is_err
  | CTryClaimSchedule _ _ _ | CReleaseSchedule _ _ | CTryClaimRun _ _ _ | CReleaseRun _ _ => is_err
  | CAuthenticate _ _ | CQuery _ _ _ => fun _ => True
  | _ => fun _ => False
  end.

Definition handles {R} (c : call R) (w : World) (r : R) (w' : World) : Prop :=
  perform c w = (r, w') \/ (alternative c r /\ w' = w).
End Calls.
End Store.

Notation prog := (Effects.prog call).

#[global] Arguments PatchSchedule : simpl never.
#[global] Arguments PatchRuns : simpl never.
#[global] Arguments ListRunsForDue : simpl never.
#[global] Arguments TryClaimSchedule : simpl never.
#[global] Arguments ReleaseScheduleLease : simpl never.
