(* ===== verification/Scheduler.v ===== *)
(** * The scheduler service ([service/scheduler]: [service_due.go],
    [service_stale.go], [service_control.go], [service_runs.go],
    [service_run_now.go], [service_convert.go], [service_goal_wakeup.go],
    [service.go])

    Each method is a program over the calls of [SchedStore].  The rows the store
    returns are never nil here, so the nil checks of the code do not appear; the
    service is initialised.  The texts of stale run messages, made of formatted
    times, are a parameter. *)
From stdpp Require Import base gmap strings list fin_maps numbers.
From Stdlib Require Import ZArith Lia Ascii.
From S2P Require Import Prelude Effects GoStrings Cron SchedStore.

Open Scope Z_scope.

Inductive SchedError :=
| StoreFailed (e : StoreError)
| InvalidCron (id : string) (e : CronError)
| PatchStaleRun (id : string) (e : StoreError)
| ErrRunNowRateLimited
| ScheduleNotFound (id : string)
| ScheduleIDRequired
| RunIDRequired
| ReservedFields
| PermissionDenied.

(** A method that returns a value and an error. *)
Notation Method A := (prog (result SchedError A)).
Definition ok {A} (a : A) : Method A := Ret (Ok a).
Definition fail {A} (e : SchedError) : Method A := Ret (Err e).
(** [x, err := p(); if err != nil { return err }]. *)
Definition try {A B} (p : Method A) (k : A -> Method B) : Method B :=
  x ← p; match x with Ok a => k a | Err e => fail e end.
Definition store_call {R} (c : call (result StoreError R)) : Method R :=
  x ← ask c; Ret (match x with Ok a => Ok a | Err e => Err (StoreFailed e) end).

Definition staleRunGrace : Z := 15 * Second.
Definition defaultRunStartTimeout : Z := 2 * Minute.
Definition defaultStaleRunTimeout : Z := 20 * Minute.
Definition runLeaseCallTimeout : Z := 5 * Second.

Definition valueOrEmpty (v : option string) : string :=
  match v with Some s => TrimSpace s | None => ""%string end.
Definition is_set (t : option Z) : bool := bool_decide (is_Some (set_time t)).

(** ** Rows ([service_convert.go]) *)
Definition hasActiveRun (runs : list RunView) : bool :=
  existsb (fun r : RunView => negb (is_set (r r_CompletedAt))) runs.

Definition findCompletedRunForSlot (runs : list RunView) (scheduledFor : Z) : option RunView :=
  List.find (fun r : RunView =>
    is_set (r r_CompletedAt) && bool_decide (r r_ScheduledFor = Some scheduledFor)) runs.

Definition schedulePrompt (r : ScheduleView) : string :=
  let prompt := valueOrEmpty (r s_TaskPrompt) in
  if negb (is_blank prompt) then prompt else valueOrEmpty (r s_TaskPromptUri).

(** [effective] is the effective user of the context. *)
Definition scheduleUserID (effective : string) (r : ScheduleView) : string :=
  if negb (is_blank effective) then TrimSpace effective
  else
    let owner := valueOrEmpty (r s_CreatedByUserId) in
    if negb (is_blank owner) then owner else "system"%string.

(** ** Stale runs ([service_stale.go]) *)
Inductive staleCause := lease_expired | timeout_exceeded.
Record staleRunDetails := mkStale {
  Cause : staleCause; RunStart : Z; StaleTimeout : Z; StaleLeaseUntil : option Z;
  Deadline : option Z; DetectedAt : Z; RunAge : Z; OverdueBy : Z }.

(** What the messages of stale runs are formatted from. *)
Inductive staleReason :=
| StalePending (age : Z)
| StaleActive (d : staleRunDetails) (status : string).
Class Messages := message : staleReason -> string.

Definition timeout_of (r : ScheduleView) (default : Z) : Z :=
  if 0 <? r s_TimeoutSeconds then dur_mul (r s_TimeoutSeconds) Second else default.
Definition scheduleExecutionTimeout (r : ScheduleView) : Z := timeout_of r defaultStaleRunTimeout.

Definition stalePendingRunReason (leaseTTL : Z) (r : ScheduleView) (run : RunView) (now : Z)
    : option staleReason :=
  if negb (EqualFold (TrimSpace (run r_Status)) "pending") || is_set (run r_CompletedAt) then None
  else if is_set (run r_StartedAt) then None
  else if negb (is_blank (valueOrEmpty (run r_ConversationId))) || time_is_zero (run r_CreatedAt) then None
  else if match set_time (run r_ScheduledFor) with Some t => negb (time_before t now) | None => false end then None
  else
    let staleAfter := timeout_of r defaultRunStartTimeout in
    let staleAfter := if staleAfter <? 3 * Minute then 3 * Minute else staleAfter in
    let leaseWindow := dur_mul leaseTTL 3 in
    let staleAfter := if staleAfter <? leaseWindow then leaseWindow else staleAfter in
    let staleAfter := wrap64 (staleAfter + staleRunGrace) in
    let age := time_sub now (run r_CreatedAt) in
    if age <? staleAfter then None else Some (StalePending age).

Definition isStaleRun (r : ScheduleView) (run : RunView) (now : Z) : option staleRunDetails * bool :=
  if is_set (run r_CompletedAt) then (None, false)
  else
    let runStart := default (run r_CreatedAt) (set_time (run r_StartedAt)) in
    if time_is_zero runStart then (None, false)
    else
      let timeout := timeout_of r defaultStaleRunTimeout in
      let runAge := time_sub now runStart in
      match set_time (run r_LeaseUntil) with
      | Some leaseUntil =>
          let staleAfter := leaseUntil + staleRunGrace in
          (Some (mkStale lease_expired runStart timeout (Some leaseUntil) None now runAge
                   (Z.max 0 (time_sub now staleAfter))), time_after now staleAfter)
      | None =>
          let deadline := runStart + timeout in
          let staleAfter := deadline + staleRunGrace in
          (Some (mkStale timeout_exceeded runStart timeout None (Some deadline) now runAge
                   (Z.max 0 (time_sub now staleAfter))), time_after now staleAfter)
      end.

Definition staleActiveRunReason (r : ScheduleView) (run : RunView) (now : Z) : option staleReason :=
  match isStaleRun r run now with
  | (Some d, true) => Some (StaleActive d (valueOrEmpty (Some (run r_Status))))
  | _ => None
  end.

Definition stale_reason (leaseTTL : Z) (r : ScheduleView) (run : RunView) (now : Z) : option staleReason :=
  match stalePendingRunReason leaseTTL r run now with
  | Some x => Some x
  | None => staleActiveRunReason r run now
  end.

Definition failedRunCopy (run : RunView) (reason : string) (now : Z) : RunView :=
  apply_mutation
    (when (negb (is_blank reason)) (put r_ErrorMessage (Some (TrimSpace reason)))
       (put r_CompletedAt (Some now) (put r_Status "failed"%string no_columns))) run.

Section Service.
Context `{Tzdata} `{Messages} (fuel : nat).
(** The lease configuration of this process ([ensureLeaseConfig]). *)
Context (leaseOwner : string) (leaseTTL : Z).

(** ** Next run times ([service_control.go]) *)
Definition is_cron (r : ScheduleView) : bool :=
  EqualFold (TrimSpace (r s_ScheduleType)) "cron" && negb (is_blank (valueOrEmpty (r s_CronExpr))).

Definition location_of (r : ScheduleView) : Location :=
  default UTC (LoadLocation (TrimSpace (r s_Timezone))).

(** Parsing the expression of a cron schedule. *)
Definition with_cron {A} (r : ScheduleView) (k : cronSpec -> Method A) : Method A :=
  match parseCron fuel (valueOrEmpty (r s_CronExpr)) with
  | None => Spin
  | Some (Err e) => fail (InvalidCron (r s_Id) e)
  | Some (Ok spec) => k spec
  end.

Definition setNextRunAt (r : ScheduleView) (mut : Schedule) (now : Z) : Method Schedule :=
  if is_cron r then
    with_cron r (fun spec => ok (put s_NextRunAt (Some (nextCronAfter spec (location_of r) now now)) mut))
  else
    match r s_IntervalSeconds with
    | Some n => ok (put s_NextRunAt (Some (now + dur_mul n Second)) mut)
    | None =>
        if EqualFold (TrimSpace (r s_ScheduleType)) "adhoc" then ok (put s_NextRunAt None mut)
        else ok mut
    end.

Definition schedule_result (r : ScheduleView) (lastStatus lastError : string) (lastRunAt : option Z)
    : Schedule :=
  let mut := put s_Id (r s_Id) no_columns in
  let mut := when (is_set lastRunAt) (put s_LastRunAt lastRunAt) mut in
  let mut :=
    when (negb (is_blank lastStatus))
      (fun mut =>
         when (EqualFold (TrimSpace lastStatus) "succeeded" && is_blank lastError) (put s_LastError None)
           (put s_LastStatus (Some (TrimSpace lastStatus)) mut)) mut in
  when (negb (is_blank lastError)) (put s_LastError (Some (TrimSpace lastError))) mut.

Definition patchScheduleResult (r : ScheduleView) (lastStatus lastError : string) (lastRunAt : option Z)
    (updateNext : bool) (now : Z) : Method unit :=
  let mut := schedule_result r lastStatus lastError lastRunAt in
  try (if updateNext then setNextRunAt r mut now else ok mut)
    (fun mut => store_call (CPatchSchedule mut)).

(** ** Due schedules ([service_stale.go]: [isDue]) *)
Definition scheduleRecomputeBase (r : ScheduleView) : prog Z :=
  match set_time (r s_LastRunAt), set_time (r s_UpdatedAt) with
  | Some t, _ => Ret t
  | None, Some t => Ret t
  | None, None => if negb (time_is_zero (r s_CreatedAt)) then Ret (r s_CreatedAt) else ask Now
  end.

Definition store_next (r : ScheduleView) (next : Z) : Method (bool * Z) :=
  try (store_call (CPatchSchedule (put s_NextRunAt (Some next) (put s_Id (r s_Id) no_columns))))
    (fun _ => ok (false, next)).

Definition isDue (r : ScheduleView) (now : Z) : Method (bool * Z) :=
  if match r s_StartAt with Some t => time_before now t | None => false end then ok (false, now)
  else if match r s_EndAt with Some t => negb (time_before now t) | None => false end then ok (false, now)
  else if is_cron r then
    with_cron r (fun spec =>
      match set_time (r s_NextRunAt) with
      | None =>
          base ← scheduleRecomputeBase r;
          store_next r (nextCronAfter spec (location_of r) base now)
      | Some next => ok (negb (time_before now next), next)
      end)
  else
    match set_time (r s_NextRunAt) with
    | Some next => ok (negb (time_before now next), next)
    | None =>
        match r s_IntervalSeconds with
        | Some n =>
            let interval := dur_mul n Second in
            if interval <=? 0 then ok (false, now)
            else base ← scheduleRecomputeBase r; store_next r (nextIntervalAfter base interval now)
        | None => ok (false, now)
        end
    end.

(** ** A pass over the schedules ([service_due.go], [service_runs.go]) *)

(** [add] of [getRunsForDueCheck]: the first run of every identifier. *)
Fixpoint add_runs (seen : gset string) (items : list RunView) : list RunView :=
  match items with
  | [] => []
  | item :: rest =>
      let id := TrimSpace (item r_Id) in
      if decide (id = ""%string \/ id ∈ seen) then add_runs seen rest
      else item :: add_runs ({[id]} ∪ seen) rest
  end.

Definition terminal_statuses : list string := ["succeeded"; "failed"; "skipped"; "canceled"]%string.

Definition getRunsForDueCheck (scheduleID : string) (scheduledFor : Z) (includeScheduledSlot : bool)
    : Method (list RunView) :=
  try (if includeScheduledSlot then store_call (CListRunsForDue scheduleID (Some scheduledFor) [])
       else ok []) (fun slotRuns =>
  try (store_call (CListRunsForDue scheduleID None terminal_statuses)) (fun activeRuns =>
  ok (add_runs ∅ (slotRuns ++ activeRuns)))).

Definition failStaleRun (r : ScheduleView) (run : RunView) (reason : string) (now : Z) : Method unit :=
  let patch := put r_CompletedAt (Some now) (put r_Status "failed"%string (put r_Id (run r_Id) no_columns)) in
  let patch := when (negb (is_blank reason)) (put r_ErrorMessage (Some reason)) patch in
  x ← ask (CPatchRuns [patch]);
  match x with
  | Err e => fail (PatchStaleRun (run r_Id) e)
  | Ok _ =>
      let conversationID := valueOrEmpty (run r_ConversationId) in
      _ ← (if is_blank conversationID then Ret (Ok tt)
           else ask (CCancelConversation conversationID "canceled"));
      let lastRunAt := default now (set_time (run r_CompletedAt)) in
      _ ← patchScheduleResult r "failed" reason (Some lastRunAt) false now;
      ok tt
  end.

Fixpoint cleanupStaleRuns (r : ScheduleView) (runs : list RunView) (now : Z) : Method (list RunView) :=
  match runs with
  | [] => ok []
  | run :: rest =>
      match stale_reason leaseTTL r run now with
      | Some reason =>
          try (failStaleRun r run (message reason) now) (fun _ =>
          try (cleanupStaleRuns r rest now) (fun result =>
          ok (failedRunCopy run (message reason) now :: result)))
      | None => try (cleanupStaleRuns r rest now) (fun result => ok (run :: result))
      end
  end.

(** The effective user of the context of the service. *)
Context (ctxUser : string).

Definition pending_run (r : ScheduleView) (runID : string) (scheduledFor now : Z) : MutableRunView :=
  let userID := scheduleUserID ctxUser r in
  let cred := valueOrEmpty (r s_UserCredUrl) in
  when (negb (is_blank cred)) (put r_UserCredUrl (Some cred))
    (when (negb (is_blank userID)) (put r_EffectiveUserId (Some userID))
      (put r_AgentId (Some (TrimSpace (r s_AgentRef)))
        (put r_CreatedAt now
          (put r_ScheduledFor (Some scheduledFor)
            (put r_Status "pending"%string
              (put r_ConversationKind "scheduled"%string
                (put r_ScheduleId (r s_Id) (put r_Id runID no_columns)))))))).

Definition enqueueAndLaunch (r : ScheduleView) (scheduledFor : Z) (advanceNext : bool) : Method unit :=
  runID ← ask NewUUID;
  now ← ask Now;
  try (store_call (CPatchRuns [pending_run r runID scheduledFor now])) (fun _ =>
  try (if advanceNext then patchScheduleResult r "" "" None true now else ok tt) (fun _ =>
  try (store_call CAcquireSlot) (fun _ =>
  _ ← ask (CSpawn r runID scheduledFor);
  ok tt))).

(** The part of a pass that holds the lease of the schedule; the result tells
    whether a run was started. *)
Definition claimed_pass (r : ScheduleView) (now : Z) (due : bool) (scheduledFor : Z)
    (includeScheduledSlot : bool) : Method bool :=
  try (getRunsForDueCheck (r s_Id) scheduledFor includeScheduledSlot) (fun runs =>
  try (cleanupStaleRuns r runs now) (fun runs =>
  if negb (r s_Enabled) || negb due then ok false
  else
    match findCompletedRunForSlot runs scheduledFor with
    | Some terminal =>
        let lastRunAt := default scheduledFor (set_time (terminal r_CompletedAt)) in
        _ ← patchScheduleResult r (terminal r_Status) (valueOrEmpty (terminal r_ErrorMessage))
              (Some lastRunAt) true now;
        ok false
    | None =>
        if hasActiveRun runs then ok false
        else try (enqueueAndLaunch r scheduledFor true) (fun _ => ok true)
    end)).

(** The deferred release of the lease: its outcome is ignored. *)
Definition releasing {A} (r : ScheduleView) (p : Method A) : Method A :=
  x ← p; _ ← ask (CReleaseSchedule (r s_Id) leaseOwner); Ret x.

Definition run_row_pass (r : ScheduleView) : Method bool :=
  now ← ask Now;
  try (if r s_Enabled then isDue r now else ok (false, now)) (fun '(due, scheduledFor) =>
  let includeScheduledSlot := r s_Enabled && due && is_set (r s_NextRunAt) in
  try (getRunsForDueCheck (r s_Id) scheduledFor includeScheduledSlot) (fun runs =>
  if bool_decide (length runs = 0%nat) && (negb (r s_Enabled) || negb due) then ok false
  else
    try (store_call (CTryClaimSchedule (r s_Id) leaseOwner (now + leaseTTL))) (fun claimed =>
    if negb claimed then ok false
    else releasing r (claimed_pass r now due scheduledFor includeScheduledSlot)))).

(** The number of started runs, and the error that ended the pass. *)
Fixpoint run_rows (rows : list ScheduleView) (started : nat) : prog (nat * option SchedError) :=
  match rows with
  | [] => Ret (started, None)
  | r :: rest =>
      x ← run_row_pass r;
      match x with
      | Ok b => run_rows rest (if (b : bool) then S started else started)
      | Err e => Ret (started, Some e)
      end
  end.

Definition RunDue : prog (nat * option SchedError) :=
  x ← ask CListForRunDue;
  match x with
  | Ok rows => run_rows rows 0
  | Err e => Ret (0%nat, Some (StoreFailed e))
  end.

(** ** Executing a run ([service_runs.go], [service_control.go]) *)
Definition error_text (e : StoreError) : string :=
  match e with StoreFailure what => what | ContextDone => "context canceled"%string end.

Definition isRetryableRunLeaseClaimError (e : StoreError) : bool :=
  let m := ToLower (error_text e) in Contains m "sqlite_busy" || Contains m "database is locked".

Definition tryClaimRunLease (runID : string) (now : Z) : prog (result StoreError bool) :=
  if is_blank runID || is_blank leaseOwner then Ret (Ok false)
  else ask (CTryClaimRun (TrimSpace runID) (TrimSpace leaseOwner) (now + leaseTTL)).

Fixpoint claim_loop (attempts : nat) (runID : string) (deadline : Z) : prog (result StoreError bool) :=
  match attempts with
  | O => Spin
  | S attempts' =>
      now ← ask Now;
      x ← tryClaimRunLease runID now;
      match x with
      | Ok claimed => Ret (Ok claimed)
      | Err e =>
          if negb (isRetryableRunLeaseClaimError e) then Ret (Err e)
          else
            now ← ask Now;
            if negb (time_before now deadline) then Ret (Err e)
            else claim_loop attempts' runID deadline
      end
  end.

Definition claimRunLeaseForExecution (runID : string) : prog (result StoreError bool) :=
  now ← ask Now;
  claim_loop fuel runID (now + runLeaseCallTimeout).

Definition releaseRunLease (runID : string) : prog unit :=
  if is_blank runID || is_blank leaseOwner then Ret tt
  else _ ← ask (CReleaseRun (TrimSpace runID) (TrimSpace leaseOwner)); Ret tt.

Definition run_metadata (r : ScheduleView) (runID userID conversationID : string) (scheduledFor : Z)
    : MutableRunView :=
  let cred := valueOrEmpty (r s_UserCredUrl) in
  when (bool_decide (conversationID <> ""%string)) (put r_ConversationId (Some conversationID))
    (when (negb (is_blank cred)) (put r_UserCredUrl (Some cred))
      (when (bool_decide (userID <> ""%string)) (put r_EffectiveUserId (Some userID))
        (put r_AgentId (Some (TrimSpace (r s_AgentRef)))
          (put r_ScheduledFor (Some scheduledFor)
            (put r_ConversationKind "scheduled"%string
              (put r_ScheduleId (r s_Id) (put r_Id runID no_columns))))))).

(** What follows a successful claim of the lease of the run. *)
Definition execute_claimed (r : ScheduleView) (runID userID : string) (scheduledFor : Z)
    (authErr : option string) : prog unit :=
  '(conversationID, err) ←
    match authErr with
    | Some e => Ret (""%string, Some ("schedule owner authentication unavailable: " +:+ e)%string)
    | None => ask (CQuery r runID userID)
    end;
  _ ← ask (CPatchRuns [run_metadata r runID userID conversationID scheduledFor]);
  _ ← match err with
      | Some errMsg =>
          now ← ask Now;
          ask (CPatchRuns [put r_CompletedAt (Some now) (put r_ErrorMessage (Some errMsg)
                 (put r_Status "failed"%string (put r_Id runID no_columns)))])
      | None => Ret (Ok tt)
      end;
  _ ← (if bool_decide (conversationID = ""%string) then Ret tt else ask (CAnnotate r conversationID runID));
  now ← ask Now;
  now' ← ask Now;
  _ ← patchScheduleResult r (match err with Some _ => "failed" | None => "succeeded" end)%string
        (default ""%string err) (Some now) false now';
  releaseRunLease runID.

Definition executeRun (r : ScheduleView) (runID : string) (scheduledFor : Z) : prog unit :=
  '(effective, authErr) ← ask (CAuthenticate r runID);
  let userID := scheduleUserID effective r in
  x ← claimRunLeaseForExecution runID;
  match x with
  | Ok true => execute_claimed r runID userID scheduledFor authErr
  | _ => Ret tt
  end.

(** ** On-demand runs ([service_run_now.go]) *)
Definition runNowRateLimitWindow : Z := Minute.

Definition reserveRunNow (scheduleID : string) (at_ : Z) (m : gmap string Z) : unit * gmap string Z :=
  (tt, <[scheduleID := at_]> m).

Definition clearRunNowReservation (scheduleID : string) (at_ : Z) (m : gmap string Z) : unit * gmap string Z :=
  (tt, if bool_decide (m !! scheduleID = Some at_) then delete scheduleID m else m).

(** Expired reservations are dropped first. *)
Definition hasRecentRunNowReservation (scheduleID : string) (now : Z) (m : gmap string Z)
    : bool * gmap string Z :=
  let cutoff := now - runNowRateLimitWindow in
  let m := filter (fun x => negb (time_is_zero x.2 || time_before x.2 cutoff) = true) m in
  (match m !! scheduleID with Some t => negb (time_before t cutoff) | None => false end, m).

Definition isRecentRunForSchedule (run : RunView) (cutoff : Z) : bool :=
  let createdAt := if time_is_zero (run r_CreatedAt) then default (run r_CreatedAt) (run r_StartedAt)
                   else run r_CreatedAt in
  if time_is_zero createdAt then false else negb (time_before createdAt cutoff).

Definition enforceRunNowRateLimit (r : ScheduleView) (now : Z) : Method unit :=
  recent ← ask (CReserved (hasRecentRunNowReservation (r s_Id) now));
  if recent : bool then fail ErrRunNowRateLimited
  else
    try (store_call (CListRuns (r s_Id) 1 100)) (fun rows =>
    if existsb (fun run => isRecentRunForSchedule run (now - runNowRateLimitWindow)) rows
    then fail ErrRunNowRateLimited else ok tt).

Definition runNowOnDemand (r : ScheduleView) : Method unit :=
  now ← ask Now;
  try (enforceRunNowRateLimit r now) (fun _ =>
  _ ← ask (CReserved (reserveRunNow (r s_Id) now));
  x ← enqueueAndLaunch r now false;
  match x with
  | Ok _ => ok tt
  | Err e => _ ← ask (CReserved (clearRunNowReservation (r s_Id) now)); fail e
  end).

(** ** Schedules of users ([service.go]) *)

(** [toPublicSchedule] copies every column. *)
Definition toPublicSchedule (r : ScheduleView) : ScheduleView := fun c => r c.

Definition put_text (c : schedule_column) (f : string -> schedule_type c) (s : string) (mut : Schedule)
    : Schedule :=
  when (negb (is_blank s)) (put c (f (TrimSpace s))) mut.

Definition put_option (c : schedule_column) (f : string -> schedule_type c) (s : option string)
    (mut : Schedule) : Schedule :=
  match s with Some v => put_text c f v mut | None => mut end.

(** A nullable text that an update may set to the empty text. *)
Definition put_clearable (isUpdate : bool) (c : schedule_column) (f : string -> schedule_type c)
    (s : option string) (mut : Schedule) : Schedule :=
  match s with
  | Some v => when (isUpdate || negb (is_blank v)) (put c (f (TrimSpace v))) mut
  | None => mut
  end.

Definition put_time (c : schedule_column) (f : option Z -> schedule_type c) (t : option Z) (mut : Schedule)
    : Schedule :=
  when (is_set t) (put c (f t)) mut.

Definition toMutableSchedule (schedule : ScheduleView) (isUpdate : bool) (now : Z) : Schedule :=
  let mut := put_text s_Id id (schedule s_Id) no_columns in
  let mut := put_text s_Name id (schedule s_Name) mut in
  let mut := match schedule s_Description with
             | Some d => put s_Description (Some (TrimSpace d)) mut
             | None => mut
             end in
  let mut := put_option s_CreatedByUserId Some (schedule s_CreatedByUserId) mut in
  let mut := put_text s_Visibility id (schedule s_Visibility) mut in
  let mut := put s_Internal (schedule s_Internal) mut in
  let mut := put_option s_ConversationId Some (schedule s_ConversationId) mut in
  let mut := put_option s_GoalId Some (schedule s_GoalId) mut in
  let mut := put_text s_AgentRef id (schedule s_AgentRef) mut in
  let mut := put_option s_ModelOverride Some (schedule s_ModelOverride) mut in
  let mut := put_clearable isUpdate s_UserCredUrl Some (schedule s_UserCredUrl) mut in
  let mut := when (isUpdate || schedule s_Enabled) (put s_Enabled (schedule s_Enabled)) mut in
  let mut := put_time s_StartAt id (schedule s_StartAt) mut in
  let mut := put_time s_EndAt id (schedule s_EndAt) mut in
  let mut := put_text s_ScheduleType id (schedule s_ScheduleType) mut in
  let mut := put_option s_CronExpr Some (schedule s_CronExpr) mut in
  let mut := match schedule s_IntervalSeconds with
             | Some n => put s_IntervalSeconds (Some n) mut
             | None => mut
             end in
  let mut := put_text s_Timezone id (schedule s_Timezone) mut in
  let mut := when (isUpdate || (0 <? schedule s_TimeoutSeconds))
               (put s_TimeoutSeconds (schedule s_TimeoutSeconds)) mut in
  let mut := put_clearable isUpdate s_TaskPromptUri Some (schedule s_TaskPromptUri) mut in
  let mut := put_option s_TaskPrompt Some (schedule s_TaskPrompt) mut in
  let mut := put_time s_NextRunAt id (schedule s_NextRunAt) mut in
  let mut := put_time s_LastRunAt id (schedule s_LastRunAt) mut in
  let mut := put_option s_LastStatus Some (schedule s_LastStatus) mut in
  let mut := put_option s_LastError Some (schedule s_LastError) mut in
  let mut := put_option s_LeaseOwner Some (schedule s_LeaseOwner) mut in
  let mut := put_time s_LeaseUntil id (schedule s_LeaseUntil) mut in
  let mut := when (negb (time_is_zero (schedule s_CreatedAt))) (put s_CreatedAt (schedule s_CreatedAt)) mut in
  put s_UpdatedAt (Some now) mut.

Definition Get (id : string) : Method (option ScheduleView) :=
  try (store_call (CGet id)) (fun r =>
  match r with
  | Some r => if r s_Internal then ok None else ok (Some (toPublicSchedule r))
  | None => ok None
  end).

Definition List_ : Method (list ScheduleView) :=
  try (store_call CList) (fun rows => ok (toPublicSchedule <$> rows)).

Definition Upsert (schedule : ScheduleView) : Method unit :=
  if schedule s_Internal || negb (is_blank (valueOrEmpty (schedule s_ConversationId)))
     || negb (is_blank (valueOrEmpty (schedule s_GoalId))) then fail ReservedFields
  else
    let id := TrimSpace (schedule s_Id) in
    try (if is_blank id then ok None else store_call (CGet id)) (fun existing =>
    match existing with
    | Some r => if r s_Internal then fail (ScheduleNotFound id)
                else now ← ask Now; store_call (CPatchSchedule (toMutableSchedule schedule true now))
    | None => now ← ask Now; store_call (CPatchSchedule (toMutableSchedule schedule false now))
    end).

Definition findScheduleByIDAll (id : string) : prog (option ScheduleView) :=
  if is_blank id then Ret None
  else
    x ← ask CListForRunDue;
    Ret (match x with
         | Ok rows => List.find (fun r : ScheduleView => bool_decide (TrimSpace (r s_Id) = TrimSpace id)) rows
         | Err _ => None
         end).

Definition Delete (id : string) : Method unit :=
  let id := TrimSpace id in
  if is_blank id then fail ScheduleIDRequired
  else
    try (store_call (CGet id)) (fun r =>
    match r with
    | None =>
        hidden ← findScheduleByIDAll id;
        match hidden with
        | Some h => if (h : ScheduleView) s_Internal then fail (ScheduleNotFound id) else fail PermissionDenied
        | None => fail (ScheduleNotFound id)
        end
    | Some r => if r s_Internal then fail (ScheduleNotFound id) else store_call (CDeleteSchedule id)
    end).

Definition RunNow (id : string) : Method unit :=
  try (store_call (CGet id)) (fun r =>
  match r with
  | None => fail (ScheduleNotFound id)
  | Some r => if r s_Internal then fail (ScheduleNotFound id) else runNowOnDemand r
  end).

(** ** Goal wakeups ([service_goal_wakeup.go]) *)
Record GoalWakeupRequest := mkWakeup {
  w_ConversationID : string; w_GoalID : string; w_UserID : string; w_AgentID : string;
  w_ModelOverride : string; w_WakeAt : Z; w_Preview : string; w_Payload : string }.

(** The workspace configuration, when it loads: whether wakeups are enabled and
    the budgets. *)
Record WakeupConfig := mkWakeupConfig {
  GoalWakeupsEnabled : bool; MaxGlobalWakeupsPerHour : Z; MaxConversationWakeups : Z; MaxGoalWakeups : Z }.
Context (cfg : option WakeupConfig).

Definition stringPtr (value : string) : option string :=
  if is_blank value then None else Some (TrimSpace value).

Definition CancelGoalWakeup (r : ScheduleView) : Method unit :=
  now ← ask Now;
  store_call (CPatchSchedule
    (put s_UpdatedAt (Some now)
      (put s_LastError (Some "autonomous wakeup canceled"%string)
        (put s_LastStatus (Some "canceled"%string)
          (put s_NextRunAt None (put s_Enabled false (put s_Id (TrimSpace (r s_Id)) no_columns))))))).

Definition wakeup_selected (conversationID goalID : string) (r : ScheduleView) : bool :=
  r s_Internal
  && (is_blank conversationID || bool_decide (valueOrEmpty (r s_ConversationId) = conversationID))
  && (is_blank goalID || bool_decide (valueOrEmpty (r s_GoalId) = goalID)).

Fixpoint cancel_rows (conversationID goalID : string) (rows : list ScheduleView) : Method unit :=
  match rows with
  | [] => ok tt
  | r :: rest =>
      if wakeup_selected conversationID goalID r
      then try (CancelGoalWakeup r) (fun _ => cancel_rows conversationID goalID rest)
      else cancel_rows conversationID goalID rest
  end.

Definition CancelGoalWakeups (conversationID goalID : string) : Method unit :=
  try (store_call CListForRunDue) (cancel_rows (TrimSpace conversationID) (TrimSpace goalID)).

(** The pending wakeups, counted for the budgets. *)
Definition pending_wakeup (now : Z) (r : ScheduleView) : bool :=
  r s_Internal && r s_Enabled
  && match r s_NextRunAt with Some t => negb (time_before t now) | None => false end.

Definition within_hour (now : Z) (r : ScheduleView) : bool :=
  match r s_NextRunAt with Some t => t <=? now + Hour | None => false end.

Definition count_rows (f : ScheduleView -> bool) (rows : list ScheduleView) : Z :=
  Z.of_nat (length (List.filter f rows)).

Definition over (limit count : Z) : bool := (0 <? limit) && (limit <=? count).

Definition withinGoalWakeupBudget (req : GoalWakeupRequest) : Method bool :=
  if match cfg with Some c => negb (GoalWakeupsEnabled c) | None => false end then ok false
  else
    try (store_call CListForRunDue) (fun rows =>
    now ← ask Now;
    let '(globalLimit, conversationLimit, goalLimit) :=
      match cfg with
      | Some c => (MaxGlobalWakeupsPerHour c, MaxConversationWakeups c, MaxGoalWakeups c)
      | None => (5, 3, 2)
      end in
    let pending := pending_wakeup now in
    let globalCount := count_rows (fun r => pending r && within_hour now r) rows in
    let conversationCount := count_rows (fun r =>
      pending r && bool_decide (valueOrEmpty (r s_ConversationId) = TrimSpace (w_ConversationID req))) rows in
    let goalCount := count_rows (fun r =>
      pending r && bool_decide (valueOrEmpty (r s_GoalId) = TrimSpace (w_GoalID req))) rows in
    ok (negb (over globalLimit globalCount || over conversationLimit conversationCount
              || over goalLimit goalCount))).

(** The row of a wakeup; the columns the code leaves at their zero value. *)
Definition wakeup_row (req : GoalWakeupRequest) : ScheduleView := fun c =>
  let goalID := TrimSpace (w_GoalID req) in
  match c return schedule_type c with
  | s_Id => ("goal-wakeup-" +:+ goalID)%string
  | s_Name => ("autonomous::goal-wakeup::" +:+ goalID)%string
  | s_CreatedByUserId => stringPtr (w_UserID req)
  | s_Visibility => "private"%string
  | s_Internal => true
  | s_ConversationId => stringPtr (w_ConversationID req)
  | s_GoalId => stringPtr (w_GoalID req)
  | s_AgentRef => TrimSpace (w_AgentID req)
  | s_ModelOverride => stringPtr (w_ModelOverride req)
  | s_Enabled => true
  | s_ScheduleType => "adhoc"%string
  | s_Timezone => "UTC"%string
  | s_TaskPrompt => stringPtr (w_Payload req)
  | s_Description => stringPtr (w_Preview req)
  | s_NextRunAt => Some (w_WakeAt req)
  | s_UserCredUrl | s_CronExpr | s_TaskPromptUri | s_LastStatus | s_LastError | s_LeaseOwner => None
  | s_StartAt | s_EndAt | s_IntervalSeconds | s_LastRunAt | s_LeaseUntil | s_UpdatedAt => None
  | s_TimeoutSeconds | s_CreatedAt => 0
  end.

Definition ScheduleGoalWakeup (req : GoalWakeupRequest) : Method bool :=
  if is_blank (w_ConversationID req) || is_blank (w_GoalID req) || is_blank (w_AgentID req)
     || time_is_zero (w_WakeAt req) then ok false
  else
    try (CancelGoalWakeups (TrimSpace (w_ConversationID req)) (TrimSpace (w_GoalID req))) (fun _ =>
    try (withinGoalWakeupBudget req) (fun allowed =>
    if negb allowed then ok false
    else
      now ← ask Now;
      try (store_call (CPatchSchedule (toMutableSchedule (wakeup_row req) false now))) (fun _ =>
      ok true))).

Record GoalControllerSchedule := mkControllerSchedule { Preview : option string; WakeAt : Z }.

(** The earliest pending wakeup of a goal; the first of equal ones. *)
Definition earlier (sel : option ScheduleView) (r : ScheduleView) : option ScheduleView :=
  match sel with
  | Some s =>
      match r s_NextRunAt, s s_NextRunAt with
      | Some t, Some u => if time_before t u then Some r else sel
      | _, _ => sel
      end
  | None => Some r
  end.

Definition CurrentGoalWakeup (conversationID goalID : string) : prog (option GoalControllerSchedule) :=
  let conversationID := TrimSpace conversationID in
  let goalID := TrimSpace goalID in
  if is_blank conversationID || is_blank goalID then Ret None
  else
    x ← ask CListForRunDue;
    match x with
    | Err _ => Ret None
    | Ok rows =>
        now ← ask Now;
        let matching := List.filter (fun r : ScheduleView =>
          pending_wakeup now r && bool_decide (valueOrEmpty (r s_ConversationId) = conversationID)
          && bool_decide (valueOrEmpty (r s_GoalId) = goalID)) rows in
        Ret (match foldl earlier None matching with
             | Some s => match s s_NextRunAt with
                         | Some t => Some (mkControllerSchedule (stringPtr (valueOrEmpty (s s_Description))) t)
                         | None => None
                         end
             | None => None
             end)
    end.
End Service.
