(* ===== verification/SchedProps.v ===== *)
(** * What the scheduler guarantees

    A program logic over the calls of a pass, the interleaving of several
    schedulers on one store, and the theorems about slots, leases, stale runs,
    on-demand runs and goal wakeups. *)
From stdpp Require Import base gmap strings list fin_maps numbers.
From Stdlib Require Import ZArith Lia Ascii.
From S2P Require Import Prelude Effects GoStrings Cron SchedStore Scheduler.

Open Scope Z_scope.

(** ** A concrete environment *)
Module Demo.
Definition zero_schedule : ScheduleView := fun c =>
  match c return schedule_type c with
  | s_Id | s_Name | s_Visibility | s_AgentRef | s_ScheduleType | s_Timezone => ""%string
  | s_Internal | s_Enabled => false
  | s_TimeoutSeconds | s_CreatedAt => 0
  | s_StartAt | s_EndAt | s_IntervalSeconds | s_NextRunAt | s_LastRunAt | s_LeaseUntil | s_UpdatedAt => None
  | _ => None
  end.
Definition zero_run : RunView := fun c =>
  match c return run_type c with
  | r_Id | r_ScheduleId | r_ConversationKind | r_Status => ""%string
  | r_CreatedAt => 0
  | r_ScheduledFor | r_StartedAt | r_CompletedAt | r_LeaseUntil => None
  | _ => None
  end.

Definition defaults : Defaults := {| schedule_defaults := zero_schedule; run_defaults := zero_run |}.
Definition tzdata : Tzdata := fun name => if decide (name = "" \/ name = "UTC")%string then Some UTC else None.
Definition messages : Messages := fun _ => "stale scheduled run detected"%string.
Definition agent : Agent := {|
  authenticate := fun _ _ => (""%string, None);
  query := fun _ _ _ => ("conv-1"%string, None) |}.
Definition uuids : UUIDs := fun n => text (replicate (S n) "a"%char).
#[export] Existing Instances defaults tzdata messages agent uuids.

Lemma uuid_laws : @UUIDLaws uuids.
Proof.
  intros n. unfold proper_id, new_uuid, uuids. cbn [replicate]. split.
  - assert (Hrev : rev (replicate (S n) "a"%char) = replicate (S n) "a"%char).
    { rewrite <- reverse_replicate at 2. unfold reverse. apply rev_alt. }
    unfold TrimSpace. rewrite bytes_text. f_equal. unfold trim_units, trim_right.
    cbn [replicate] in *. rewrite (trim_left_id space_units) by reflexivity.
    rewrite Hrev, trim_left_id by reflexivity. exact Hrev.
  - discriminate.
Qed.
#[export] Existing Instance uuid_laws.

Definition start : Z := 738944 * 86400 * Second.
Definition hourly : ScheduleView := apply_mutation
  (put s_Id "hourly"%string (put s_Enabled true (put s_ScheduleType "cron"%string
    (put s_CronExpr (Some "0 * * * *"%string) (put s_NextRunAt (Some start) no_columns))))) zero_schedule.
Definition world (rows : list ScheduleView) (now : Z) : World :=
  mkWorld (mkDB (list_to_map ((fun r => (r s_Id, r)) <$> rows)) ∅) now "" 0 [] ∅.
End Demo.

(** ** A logic of passes

    While a scheduler runs, its phase tells what it has established: nothing, the
    lease of a schedule until some time, or moreover whether a slot of it had a
    run when it was read under the lease. *)
Inductive phase :=
| Idle
| Held (s : string) (until : Z)
| SlotRead (s : string) (until : Z) (slot : Z) (free : bool).

Definition holds (ph : phase) : option (string * Z) :=
  match ph with
  | Idle => None
  | Held s u | SlotRead s u _ _ => Some (s, u)
  end.

(** A mutation that gives a run no slot, and one that inserts a run in a slot. *)
Definition slotless (m : MutableRunView) : Prop := m r_ScheduledFor = None /\ m r_ScheduleId = None.
Definition fills (m : MutableRunView) (s : string) (t : Z) : Prop :=
  m r_ScheduleId = Some s /\ m r_ScheduledFor = Some (Some t).

Section Logic.
Context (owner : string).

(** The calls a pass may make in a phase. *)
Definition allowed {R} (ph : phase) (c : call R) : Prop :=
  match c with
  | CPatchRuns rows =>
      exists m (id : string), rows = [m] /\ m r_Id = Some id
        /\ (slotless m \/ (proper_id id /\ exists s u t, ph = SlotRead s u t true /\ fills m s t))
  | CPatchSchedule m =>
      m s_LeaseOwner = None /\ m s_LeaseUntil = None /\ exists id : string, m s_Id = Some id /\ proper_id id
  | CTryClaimSchedule id o _ => o = owner /\ ph = Idle /\ proper_id id
  | CReleaseSchedule id o => o = owner
  | CListRunsForDue id _ _ => proper_id id
  | Now | NewUUID | CListForRunDue | CAcquireSlot | CSpawn _ _ _
  | CCancelConversation _ _ => True
  | _ => False
  end.

(** What the answers of the store satisfy. *)
Definition plausible {R} (c : call R) : R -> Prop :=
  match c in call R return R -> Prop with
  | NewUUID => proper_id
  | CListForRunDue => fun x =>
      match x with Ok rows => Forall (fun r : ScheduleView => proper_id (r s_Id)) rows | Err _ => True end
  | CListRunsForDue id slot exclude => fun x =>
      match x, set_time slot with
      | Ok rows, Some t => Forall (fun r : RunView => r r_ScheduledFor = Some t /\ TrimSpace (r r_Id) <> ""%string) rows
      | _, _ => True
      end
  | _ => fun _ => True
  end.

Definition next_phase {R} (ph : phase) (c : call R) : R -> phase :=
  match c in call R return R -> phase with
  | CTryClaimSchedule id _ u => fun x => match x with Ok true => Held id u | _ => ph end
  | CReleaseSchedule _ _ => fun _ => Idle
  | CListRunsForDue id slot exclude => fun x =>
      match x, holds ph, set_time slot with
      | Ok rows, Some (s, u), Some t =>
          if decide (s = id /\ exclude = []) then SlotRead s u t (bool_decide (length rows = 0%nat)) else ph
      | _, _, _ => ph
      end
  | CPatchRuns rows => fun _ =>
      match ph, rows with
      | SlotRead s u _ true, [m] => if decide (m r_ScheduledFor = None) then ph else Held s u
      | _, _ => ph
      end
  | _ => fun _ => ph
  end.

(** [follows ph p Q]: [p], started in [ph], only makes calls that are allowed
    and ends in [Q]. *)
Notation follows := (Effects.follows (fun R => @allowed R) (@plausible) (@next_phase)).

(** Errors keep their phase; [E] is what holds when a method fails. *)
Definition method {A} (E : phase -> Prop) (Q : A -> phase -> Prop) : result SchedError A -> phase -> Prop :=
  fun x ph => match x with Ok a => Q a ph | Err _ => E ph end.

Lemma follows_try {A B} E ph (p : Method A) (k : A -> Method B) Q :
  follows ph p (method E (fun a ph' => follows ph' (k a) (method E Q))) ->
  follows ph (try p k) (method E Q).
Proof.
  intros Hp. apply follows_bind. eapply follows_weaken; [exact Hp|]. by intros [a|e] ph' H.
Qed.

Lemma follows_store {R} (E : phase -> Prop) ph (c : call (result StoreError R)) Q :
  allowed ph c ->
  (forall x, plausible c x -> match x with Ok a => Q a (next_phase ph c x) | Err _ => E (next_phase ph c x) end) ->
  follows ph (store_call c) (method E Q).
Proof.
  intros Ha Hx. apply follows_bind, follows_ask; [done|]. intros x Hp. specialize (Hx x Hp). by destruct x.
Qed.
End Logic.

Notation follows owner := (Effects.follows (fun R => @allowed owner R) (@plausible) (@next_phase)).

(** ** The methods of a pass follow the logic *)
Section Passes.
Context `{Tzdata} `{Messages} (fuel : nat) (owner : string) (leaseTTL : Z) (ctxUser : string).
Implicit Types (r : ScheduleView) (run : RunView) (ph : phase).

(** A program that makes allowed calls and leaves the phase alone. *)
Definition quiet {A} ph (p : prog A) (Q : A -> Prop) : Prop :=
  follows owner ph p (fun a ph' => ph' = ph /\ Q a).

Lemma quiet_bind {A B} ph (p : prog A) (f : A -> prog B) P Q :
  quiet ph p P -> (forall a, P a -> follows owner ph (f a) Q) -> follows owner ph (x ← p; f x) Q.
Proof.
  intros Hp Hf. apply follows_bind. eapply follows_weaken; [exact Hp|]. intros a ph' [-> Ha]. by apply Hf.
Qed.

Lemma quiet_try {A B} ph (p : Method A) (k : A -> Method B) (P : A -> Prop) Q :
  quiet ph p (fun x => match x with Ok a => P a | Err _ => True end) ->
  (forall a, P a -> follows owner ph (k a) Q) -> (forall e, Q (Err e) ph) ->
  follows owner ph (try p k) Q.
Proof.
  intros Hp Hk HE. eapply quiet_bind; [exact Hp|]. intros [a|e] Ha; [by apply Hk|apply HE].
Qed.

(** A call that does not change the phase. *)
Definition neutral {R} (c : call R) : Prop := forall ph x, next_phase ph c x = ph.

Lemma quiet_ask {R} ph (c : call R) : allowed owner ph c -> neutral c -> quiet ph (ask c) (plausible c).
Proof. intros Ha Hn. apply follows_ask; [done|]. intros x Hx. by rewrite Hn. Qed.

Lemma quiet_store {R} ph (c : call (result StoreError R)) (P : R -> Prop) :
  allowed owner ph c -> neutral c -> (forall a, plausible c (Ok a) -> P a) ->
  quiet ph (store_call c) (fun x => match x with Ok a => P a | Err _ => True end).
Proof.
  intros Ha Hn HP. eapply quiet_bind; [by apply quiet_ask|].
  intros [a|e] Hx; split; try done. by apply HP.
Qed.

(** A schedule mutation that neither touches the lease nor lacks the identifier. *)
Definition lease_neutral (m : Schedule) : Prop :=
  m s_LeaseOwner = None /\ m s_LeaseUntil = None /\ exists id : string, m s_Id = Some id /\ proper_id id.

Lemma quiet_patch ph (m : Schedule) :
  lease_neutral m -> quiet ph (store_call (CPatchSchedule m)) (fun _ => True).
Proof.
  intros Hm. eapply follows_weaken; [apply (quiet_store _ _ (fun _ => True)); [exact Hm|done|done]|].
  intros a ph' [-> _]. done.
Qed.

Lemma lease_neutral_result r st e t : proper_id (r s_Id) -> lease_neutral (schedule_result r st e t).
Proof.
  intros Hid. unfold schedule_result, when.
  repeat match goal with |- context [if ?b then _ else _] => destruct b end;
    (split; [reflexivity|split; [reflexivity|by exists (r s_Id)]]).
Qed.

Lemma with_cron_quiet {A} ph r (k : cronSpec -> Method A) Q :
  (forall spec, follows owner ph (k spec) Q) -> (forall e, Q (Err e) ph) ->
  follows owner ph (with_cron fuel r k) Q.
Proof. intros Hk HE. unfold with_cron. destruct (parseCron _ _) as [[spec|e]|]; [apply Hk|apply HE|done]. Qed.

Lemma setNextRunAt_quiet ph r mut now :
  lease_neutral mut ->
  quiet ph (setNextRunAt fuel r mut now) (fun x => match x with Ok m => lease_neutral m | Err _ => True end).
Proof.
  intros (H1 & H2 & H3). unfold setNextRunAt. destruct (is_cron r).
  - apply with_cron_quiet; [|done]. intros spec. split; [done|]. by repeat split.
  - destruct (r s_IntervalSeconds) as [n|]; [by repeat split|].
    destruct (EqualFold _ _); by repeat split.
Qed.

Lemma patchScheduleResult_quiet ph r st e t upd now :
  proper_id (r s_Id) -> quiet ph (patchScheduleResult fuel r st e t upd now) (fun _ => True).
Proof.
  intros Hid. unfold patchScheduleResult.
  eapply (quiet_try _ _ _ lease_neutral); [|by intros m Hm; apply quiet_patch|done].
  destruct upd; [by apply setNextRunAt_quiet, lease_neutral_result|].
  split; [done|by apply lease_neutral_result].
Qed.

Lemma scheduleRecomputeBase_quiet ph r : quiet ph (scheduleRecomputeBase r) (fun _ => True).
Proof.
  unfold scheduleRecomputeBase. by repeat case_match.
Qed.

(** A schedule is only due at its stored next run time. *)
Definition due_at r (x : result SchedError (bool * Z)) : Prop :=
  match x with Ok (true, t) => set_time (r s_NextRunAt) = Some t | _ => True end.

Lemma store_next_quiet ph r next :
  proper_id (r s_Id) -> quiet ph (store_next r next) (due_at r).
Proof.
  intros Hid. unfold store_next. eapply (quiet_try _ _ _ (fun _ => True)); [|by repeat split|by repeat split].
  eapply follows_weaken; [apply quiet_patch|by intros [a|e] ph' [-> _]].
  split; [done|]. split; [done|]. by exists (r s_Id).
Qed.

Lemma isDue_quiet ph r now : proper_id (r s_Id) -> quiet ph (isDue fuel r now) (due_at r).
Proof.
  intros Hid. unfold isDue.
  destruct (match r s_StartAt with Some t => _ | None => _ end); [done|].
  destruct (match r s_EndAt with Some t => _ | None => _ end); [done|].
  assert (Hbase : forall (f : Z -> Z),
    follows owner ph (base ← scheduleRecomputeBase r; store_next r (f base)) (fun a ph' => ph' = ph /\ due_at r a)).
  { intros f. eapply quiet_bind; [apply scheduleRecomputeBase_quiet|]. intros base _. by apply store_next_quiet. }
  assert (Hnext : forall next, set_time (r s_NextRunAt) = Some next -> due_at r (Ok (negb (time_before now next), next))).
  { intros next E. unfold due_at. by destruct (negb _). }
  destruct (is_cron r).
  - apply with_cron_quiet; [|done]. intros spec.
    destruct (set_time (r s_NextRunAt)) as [next|] eqn:E; [split; [done|by apply Hnext]|].
    apply (Hbase (fun base => nextCronAfter spec (location_of r) base now)).
  - destruct (set_time (r s_NextRunAt)) as [next|] eqn:E; [split; [done|by apply Hnext]|].
    destruct (r s_IntervalSeconds) as [n|]; [|done]. destruct (_ <=? 0); [done|].
    apply (Hbase (fun base => nextIntervalAfter base (dur_mul n Second) now)).
Qed.

(** *** The runs read under the lease *)
Definition in_slot (t : Z) run : Prop := run r_ScheduledFor = Some t.

Lemma slot_busy runs t :
  set_time (Some t) = Some t -> Exists (in_slot t) runs -> findCompletedRunForSlot runs t = None ->
  hasActiveRun runs = true.
Proof.
  intros Ht Hex. unfold findCompletedRunForSlot, hasActiveRun.
  induction Hex as [run runs Hrun|run runs _ IH]; cbn [List.find existsb].
  - unfold in_slot in Hrun. rewrite (bool_decide_eq_true_2 (run r_ScheduledFor = Some t)) by done.
    rewrite andb_true_r. by destruct (is_set (run r_CompletedAt)).
  - case_match; [done|]. intros Hf. rewrite IH by done. apply orb_true_r.
Qed.

Lemma getRuns_idle id t inc : proper_id id -> quiet Idle (getRunsForDueCheck id t inc) (fun _ => True).
Proof.
  intros Hid. unfold getRunsForDueCheck. eapply (quiet_try _ _ _ (fun _ => True)); [|intros slotRuns _|done].
  - destruct inc; [|done]. apply follows_bind, follows_ask; [done|]. intros [a|e] _; by repeat split.
  - apply follows_bind, follows_bind, follows_ask; [done|]. intros [a|e] _; by repeat split.
Qed.

Lemma getRuns_slot id u t :
  proper_id id -> set_time (Some t) = Some t ->
  follows owner (Held id u) (getRunsForDueCheck id t true)
    (method (fun ph => holds ph = Some (id, u))
       (fun runs ph => exists free, ph = SlotRead id u t free /\ (free = true \/ Exists (in_slot t) runs))).
Proof.
  intros Hid Ht. unfold getRunsForDueCheck. apply follows_try, follows_store; [done|].
  intros [slotRuns|e] Hp; [|done]. cbn [plausible next_phase holds] in *. rewrite Ht in *.
  rewrite decide_True by done. apply follows_try, follows_store; [done|].
  intros [activeRuns|e] _; simpl; [|done]. eexists. split; [done|].
  destruct slotRuns as [|run slotRuns]; [by left|]. right.
  apply list.Forall_cons in Hp as [[Hs Hrid] _]. cbn [add_runs app].
  rewrite decide_False by (intros [?|?%elem_of_empty]; done). by constructor.
Qed.

Lemma getRuns_held id u t :
  proper_id id ->
  follows owner (Held id u) (getRunsForDueCheck id t false)
    (method (fun ph => holds ph = Some (id, u)) (fun _ ph => holds ph = Some (id, u))).
Proof.
  intros Hid. unfold getRunsForDueCheck. apply follows_try. simpl. split; [done|]. by intros [a|e] _.
Qed.

(** *** Stale runs *)
Lemma failStaleRun_quiet ph r run reason now :
  proper_id (r s_Id) -> quiet ph (failStaleRun fuel r run reason now) (fun _ => True).
Proof.
  intros Hid. unfold failStaleRun. eapply (quiet_bind _ _ _ (fun _ => True)).
  - eapply follows_weaken; [apply quiet_ask|by intros a ph' [-> _]].
    + eexists _, _. split; [done|]. by unfold when; destruct (negb _); (split; [done|]; left).
    + intros ph0 x. unfold when. destruct ph0 as [| |s0 u0 t0 [|]]; try done. by destruct (negb _).
  - intros [a|e] _; [|done]. eapply (quiet_bind _ _ _ (fun _ => True)).
    { destruct (is_blank _); [done|]. by apply quiet_ask. }
    intros _ _. eapply quiet_bind; [by apply patchScheduleResult_quiet|]. done.
Qed.

(** Cleaning up keeps the runs and their slots. *)
Definition same_slots (runs : list RunView) (x : result SchedError (list RunView)) : Prop :=
  match x with
  | Ok runs' => Forall2 (fun a b : RunView => a r_ScheduledFor = b r_ScheduledFor) runs runs'
  | Err _ => True
  end.

Lemma cleanupStaleRuns_quiet ph r runs now :
  proper_id (r s_Id) -> quiet ph (cleanupStaleRuns fuel leaseTTL r runs now) (same_slots runs).
Proof.
  intros Hid. induction runs as [|run runs IH]; cbn [cleanupStaleRuns]; [by repeat constructor|].
  destruct (stale_reason _ _ _ _) as [reason|].
  - eapply (quiet_try _ _ _ (fun _ => True)); [|intros _ _|done].
    { eapply follows_weaken; [by apply failStaleRun_quiet|]. by intros [a|e] ph' [-> _]. }
    eapply quiet_try; [exact IH| |done]. intros result HF. split; [done|]. constructor; [|done].
    unfold failedRunCopy, when. by destruct (negb _).
  - eapply quiet_try; [exact IH| |done]. intros result HF. split; [done|]. by constructor.
Qed.

(** *** Starting a run *)
Lemma enqueueAndLaunch_follows id u t r (E : phase -> Prop) :
  r s_Id = id -> proper_id id -> (forall ph, holds ph = Some (id, u) -> E ph) ->
  follows owner (SlotRead id u t true) (enqueueAndLaunch fuel ctxUser r t true)
    (method E (fun _ ph => holds ph = Some (id, u))).
Proof.
  intros Hr Hid HE. unfold enqueueAndLaunch.
  apply follows_bind, follows_ask; [done|]. intros runID HrunID. cbn [next_phase plausible] in *.
  apply follows_bind, follows_ask; [done|]. intros now _. cbn [next_phase].
  assert (Hfills : fills (pending_run ctxUser r runID t now) id t).
  { unfold pending_run, when. repeat case_match; by subst id. }
  apply follows_try, follows_store.
  { exists (pending_run ctxUser r runID t now), runID. split; [done|].
    split; [by unfold pending_run, when; repeat case_match|]. right. split; [done|]. by exists id, u, t. }
  cbn [next_phase]. rewrite decide_False by (by rewrite (proj2 Hfills)).
  intros [a|e] _; [|by apply HE].
  apply follows_try. eapply follows_weaken; [apply patchScheduleResult_quiet; by subst id|].
  intros [b|e] ph' [-> _]; [|by apply HE].
  apply follows_try, follows_store; [done|]. intros [c|e] _; [|by apply HE].
  apply follows_bind, follows_ask; [done|]. by intros [] _.
Qed.

Lemma claimed_pass_follows id u r now due t inc :
  r s_Id = id -> proper_id id ->
  (r s_Enabled && due = true -> inc = true /\ set_time (Some t) = Some t) ->
  follows owner (Held id u) (claimed_pass fuel leaseTTL ctxUser r now due t inc)
    (fun _ ph => holds ph = Some (id, u)).
Proof.
  intros Hr Hid Hdue. unfold claimed_pass. rewrite Hr.
  apply (follows_weaken _ _ (method (fun ph => holds ph = Some (id, u)) (fun _ ph => holds ph = Some (id, u))));
    [|by intros [a|e] ph' Hh].
  destruct (r s_Enabled && due) eqn:Ed.
  - apply andb_prop in Ed as [Een ->]. destruct (Hdue eq_refl) as [-> Ht]. apply follows_try.
    eapply follows_weaken; [by apply getRuns_slot|].
    intros [runs|e] ph' Hph; [|done]. destruct Hph as (free & -> & Hfree). apply follows_try.
    eapply follows_weaken; [apply cleanupStaleRuns_quiet; by subst id|].
    intros [runs'|e] ph'' [-> Hslots]; [|done]. rewrite Een. cbn [negb orb].
    cbn [method]. destruct (findCompletedRunForSlot runs' t) as [terminal|] eqn:Ef.
    { eapply quiet_bind; [apply patchScheduleResult_quiet; by subst id|]. done. }
    destruct (hasActiveRun runs') eqn:Ea; [done|].
    destruct Hfree as [->|Hex].
    + apply follows_try. eapply follows_weaken; [by apply (enqueueAndLaunch_follows id u t r (fun ph => holds ph = Some (id, u)))|]. by intros [b|e] ph' Hb.
    + exfalso. rewrite (slot_busy runs' t Ht) in Ea; [done| |done].
      apply list.Exists_exists in Hex as (run & Hin & Hrun).
      apply list_elem_of_lookup in Hin as [i Hi].
      destruct (Forall2_lookup_l _ _ _ _ _ Hslots Hi) as (run' & Hi' & Heq).
      apply list.Exists_exists. exists run'. split; [by eapply list_elem_of_lookup_2|].
      unfold in_slot in *. congruence.
  - assert (Hret : negb (r s_Enabled) || negb due = true) by (by destruct (r s_Enabled), due).
    apply follows_try.
    apply (follows_weaken _ _ (method (fun ph => holds ph = Some (id, u)) (fun _ ph => holds ph = Some (id, u)))).
    { destruct inc; [|by apply getRuns_held]. unfold getRunsForDueCheck. apply follows_try. simpl.
      split; [done|]. intros [a|e] _; simpl; [|done]. split; [done|].
      intros [b|e] _; simpl; repeat case_match; naive_solver. }
    intros [runs|e] ph' Hph; [|done]. apply follows_try.
    eapply follows_weaken; [apply cleanupStaleRuns_quiet; by subst id|].
    intros [runs'|e] ph'' [-> Hslots]; [|done]. by rewrite Hret.
Qed.

Lemma run_row_pass_follows r :
  proper_id (r s_Id) -> follows owner Idle (run_row_pass fuel owner leaseTTL ctxUser r) (fun _ ph => ph = Idle).
Proof.
  intros Hid. unfold run_row_pass. apply follows_bind, follows_ask; [done|]. intros now _. cbn [next_phase].
  eapply (quiet_try _ _ _ (fun x => r s_Enabled && x.1 = true -> set_time (r s_NextRunAt) = Some x.2)).
  { destruct (r s_Enabled); [|by split].
    eapply follows_weaken; [by apply isDue_quiet|]. intros [[[] t]|e] ph' [-> Hd]; (split; [done|]); cbn in Hd |- *; congruence. }
  2: done.
  intros [due t] Hdue. cbn [fst snd] in Hdue.
  eapply (quiet_try _ _ _ (fun _ => True)); [|intros runs _|done].
  { eapply follows_weaken; [by apply getRuns_idle|]. by intros [a|e] ph' [-> _]. }
  destruct (bool_decide (length runs = 0%nat) && _); [done|].
  apply follows_bind, follows_bind, follows_ask; [done|]. intros [[]|e] _; [|done..]. cbn [negb next_phase]. apply follows_bind.
  eapply follows_weaken; [apply (claimed_pass_follows (r s_Id) (now + leaseTTL)); [done|done|]|].
  - intros Ed. specialize (Hdue Ed). rewrite Ed. cbn [andb]. unfold is_set. rewrite Hdue.
    split; [done|]. destruct (r s_NextRunAt) as [t'|]; [|done]. simpl in *.
    destruct (time_is_zero t') eqn:E; [done|]. simplify_eq. by rewrite E.
  - intros x ph' _. apply follows_bind, follows_ask; [done|]. done.
Qed.

Lemma RunDue_follows :
  follows owner Idle (RunDue fuel owner leaseTTL ctxUser) (fun _ ph => ph = Idle).
Proof.
  unfold RunDue. apply follows_bind, follows_ask; [done|]. intros [rows|e] Hrows; [|done].
  cbn [next_phase]. simpl in Hrows. generalize 0%nat as started.
  induction Hrows as [|r rows Hr _ IH]; intros started; cbn [run_rows]; [done|].
  apply follows_bind. eapply follows_weaken; [by apply run_row_pass_follows|].
  intros [b|e] ph' ->; [apply IH|done].
Qed.
End Passes.
