(* ===== verification/SchedPool.v ===== *)
(** * Several schedulers on one store

    Passes of several processes interleaved call by call, with other writers of
    the store in between: as long as each acts before its lease expires, the
    processes together create at most one run per slot of a schedule. *)
From stdpp Require Import base gmap strings list fin_maps numbers sorting.
From Stdlib Require Import ZArith Lia Ascii.
From S2P Require Import Prelude Effects GoStrings Cron SchedStore Scheduler SchedProps.

Open Scope Z_scope.

Section Effects.
Context `{Defaults} `{Agent} `{UUIDs} `{!UUIDLaws}.
(** The columns [scheduled_for] of new rows default to null. *)
Context (Hdefault : run_defaults r_ScheduledFor = None).
Implicit Types (w : World) (ph : phase).

(** A run of schedule [s] in slot [t] stored under [id]. *)
Definition has_run w (id s : string) (t : Z) : Prop :=
  exists run : RunView, runs (db w) !! id = Some run /\ run r_ScheduleId = s /\ run r_ScheduledFor = Some t.

(** The lease columns of a schedule. *)
Definition lease_of w (s : string) : option (option string * option Z) :=
  (fun r : ScheduleView => (r s_LeaseOwner, r s_LeaseUntil)) <$> (schedules (db w) !! s).

Record well_formed w : Prop := {
  wf_schedules : forall id (r : ScheduleView), schedules (db w) !! id = Some r -> r s_Id = id /\ proper_id id;
  wf_runs : forall id (run : RunView), runs (db w) !! id = Some run ->
    run r_Id = id /\ (run r_ScheduledFor = None \/ proper_id id) }.

Lemma proper_not_blank id : proper_id id -> is_blank id = false.
Proof. intros [Ht Hne]. unfold is_blank. rewrite Ht. by apply bool_decide_eq_false_2. Qed.

(** ** What one call does to the store *)
Lemma lookup_upsert {column} `{EqDecision column} {ty : column -> Type} (d : row ty) init id m t k :
  upsert d init id m t !! k
  = if decide (k = id) then Some (apply_mutation (init (t !! id) m) (default d (t !! id))) else t !! k.
Proof.
  unfold upsert. case_decide as E; [by rewrite E, lookup_insert_eq|by rewrite lookup_insert_ne].
Qed.

Lemma init_schedule_neutral now u prev (m : Schedule) :
  init_schedule now u prev m s_LeaseOwner = m s_LeaseOwner
  /\ init_schedule now u prev m s_LeaseUntil = m s_LeaseUntil
  /\ init_schedule now u prev m s_Id = m s_Id.
Proof.
  unfold init_schedule, clearNextRunAtOnScheduleChange, when.
  destruct prev; repeat match goal with |- context [if ?b then _ else _] => destruct b end; done.
Qed.

Lemma PatchSchedule_lookup now subject fresh m db (k : string) :
  lease_neutral m -> forall r' : ScheduleView, schedules (PatchSchedule now subject fresh m db) !! k = Some r' ->
  schedules db !! k = Some r'
  \/ (m s_Id = Some k /\ r' s_Id = k /\ proper_id k
      /\ forall r : ScheduleView, schedules db !! k = Some r -> r' s_LeaseOwner = r s_LeaseOwner /\ r' s_LeaseUntil = r s_LeaseUntil).
Proof.
  intros (K1 & K2 & id & Hid & Hp) r'. unfold PatchSchedule.
  set (m' := when _ _ m).
  assert (Hm' : m' s_LeaseOwner = None /\ m' s_LeaseUntil = None /\ m' s_Id = Some id)
    by (unfold m', when; case_match; done).
  destruct Hm' as (K1' & K2' & Hid'). rewrite Hid'.
  change (str_value (Some id)) with id. rewrite (proper_not_blank id Hp), andb_false_r.
  cbn [with_schedules schedules]. rewrite lookup_upsert. case_decide as E; [|by left].
  subst k. intros [= <-]. right.
  destruct (init_schedule_neutral now (TrimSpace subject) (schedules db !! id) m') as (E1 & E2 & E3).
  assert (Eval : forall c, m' c = None -> init_schedule now (TrimSpace subject) (schedules db !! id) m' c = m' c ->
    forall r : ScheduleView, schedules db !! id = Some r ->
    apply_mutation (init_schedule now (TrimSpace subject) (schedules db !! id) m')
      (default schedule_defaults (schedules db !! id)) c = r c).
  { intros c Hc Ec r Hr. unfold apply_mutation. by rewrite Ec, Hc, Hr. }
  split; [done|]. split; [|split; [done|]].
  - unfold apply_mutation. by rewrite E3, Hid'.
  - intros r Hr. split; by apply Eval.
Qed.

(** A store call changes the rows it names; the answer is that of the store or
    an alternative without an effect. *)
Lemma handles_plausible {R} (c : call R) w r w' : well_formed w -> handles c w r w' -> plausible c r.
Proof.
  intros [Hs Hr] [Hp|[Ha _]].
  - destruct c; cbn [perform plausible] in *; try done; injection Hp as <- _.
    + apply uuid_proper.
    + unfold list_schedules. apply Forall_forall. intros r Hin.
      apply list_elem_of_filter in Hin as [_ Hin]. apply list_elem_of_fmap in Hin as ([k r0] & -> & Hin).
      apply elem_of_map_to_list, Hs in Hin as [<- Hp]. exact Hp.
    + destruct (set_time slot) as [t|] eqn:Et; [|done]. unfold ListRunsForDue.
      destruct (is_blank id); [by constructor|]. apply Forall_forall. intros run Hin.
      apply list_elem_of_filter in Hin as [Hsel Hin]. unfold run_selected in Hsel. rewrite Et in Hsel.
      rewrite !andb_true_iff, !bool_decide_eq_true in Hsel. destruct Hsel as [[_ Hslot] _].
      split; [done|]. unfold all_runs in Hin. rewrite merge_sort_Permutation in Hin.
      apply list_elem_of_fmap in Hin as ([k run0] & -> & Hin). apply elem_of_map_to_list, Hr in Hin as [<- Hid].
      simpl in *. destruct Hid as [Hn|[Ht Hne]]; [congruence|]. by rewrite Ht.
  - destruct c; cbn [alternative plausible] in *; try done; destruct Ha as [e ->]; try done.
Qed.

Lemma handles_clock {R} (c : call R) w r w' : handles c w r w' -> clock w' = clock w.
Proof.
  intros [Hp|[_ ->]]; [|done]. unfold perform, granted, on_db in Hp.
  destruct c; cbn [db clock subject issued launched reserved] in Hp;
    repeat case_match; simplify_eq/=; done.
Qed.

(** *** Leases *)
Lemma lease_free_held now o o' u : o' <> o -> now <= u -> lease_free now o (Some o') (Some u) = false.
Proof.
  intros Ho Hu. unfold lease_free. rewrite (proj2 (Z.ltb_ge u now)) by done.
  apply bool_decide_eq_false_2. congruence.
Qed.

Lemma PatchSchedule_is_Some now subject fresh m db s :
  is_Some (schedules db !! s) -> is_Some (schedules (PatchSchedule now subject fresh m db) !! s).
Proof.
  intros Hs. unfold PatchSchedule. case_match. cbn [with_schedules schedules].
  rewrite lookup_upsert. case_decide; [by eexists|done].
Qed.

Lemma lease_of_PatchSchedule now subject fresh m w w' s :
  lease_neutral m -> schedules (db w') = schedules (PatchSchedule now subject fresh m (db w)) ->
  is_Some (schedules (db w) !! s) -> lease_of w' s = lease_of w s.
Proof.
  intros Hm E Hsome. destruct (PatchSchedule_is_Some now subject fresh m _ _ Hsome) as [r' Er'].
  destruct Hsome as [r Hr]. unfold lease_of. rewrite E, Hr, Er'.
  destruct (PatchSchedule_lookup _ _ _ _ _ _ Hm _ Er') as [Hold|(_ & _ & _ & Hl)]; simpl; [congruence|].
  by destruct (Hl r Hr) as [-> ->].
Qed.

(** A lease that another process holds and that has not expired stays, and a
    pass keeps its own lease unless it releases it. *)
Lemma handles_lease owner ph {R} (c : call R) w r w' s o u :
  TrimSpace owner = owner -> allowed owner ph c -> handles c w r w' ->
  lease_of w s = Some (Some o, Some u) ->
  (o <> owner /\ clock w <= u) \/ (o = owner /\ holds (next_phase ph c r) = Some (s, u) /\ holds ph = Some (s, u)) ->
  lease_of w' s = Some (Some o, Some u).
Proof.
  intros Hto Ha Hh Hl Hcase.
  destruct Hh as [Hp|[_ ->]]; [|done].
  assert (Hsome : is_Some (schedules (db w) !! s)).
  { unfold lease_of in Hl. destruct (schedules (db w) !! s); [by eexists|done]. }
  assert (Hkeep : forall w1, schedules (db w1) = schedules (db w) -> lease_of w1 s = Some (Some o, Some u)).
  { intros w1 E. unfold lease_of in *. by rewrite E. }
  destruct c; cbn [allowed] in Ha; try done; cbn [perform] in Hp;
    try (injection Hp as <- <-; by apply Hkeep).
  - injection Hp as <- <-. rewrite <- Hl. eapply lease_of_PatchSchedule; [exact Ha|reflexivity|done].
  - unfold granted, on_db in Hp. injection Hp as <- <-. apply Hkeep. cbn [db].
    clear. unfold PatchRuns. generalize (db w) as d. induction rows as [|m rows IH]; intros d; [done|].
    cbn [foldl]. rewrite IH. done.
  - destruct Ha as (-> & -> & Hid). unfold granted, on_db in Hp.
    destruct Hcase as [[Ho Hu]|(_ & _ & Hh)]; [|done].
    unfold TryClaimSchedule in Hp. destruct (schedule_row id (db w)) as [r0|] eqn:Er0;
      [|injection Hp as <- <-; by apply Hkeep].
    destruct (r0 s_Enabled && _) eqn:Eclaim; injection Hp as <- <-; [|by apply Hkeep].
    unfold schedule_row in Er0. unfold lease_of, set_schedule. cbn [db with_schedules schedules].
    destruct (decide (TrimSpace id = s)) as [Es|Ens].
    + exfalso. rewrite Es in Er0. unfold lease_of in Hl. rewrite Er0 in Hl. injection Hl as El1 El2.
      apply andb_prop in Eclaim as [_ Eclaim]. rewrite El1, El2, Hto, lease_free_held in Eclaim; done.
    + rewrite lookup_insert_ne by done. exact Hl.
  - subst owner0. unfold granted, on_db in Hp. unfold ReleaseScheduleLease in Hp.
    destruct (schedule_row id (db w)) as [r0|] eqn:Er0; [|injection Hp as <- <-; by apply Hkeep].
    case_bool_decide as Eo; injection Hp as <- <-; [|by apply Hkeep].
    unfold schedule_row in Er0. unfold lease_of, set_schedule. cbn [db with_schedules schedules].
    destruct (decide (TrimSpace id = s)) as [Es|Ens]; [|rewrite lookup_insert_ne by done; exact Hl].
    exfalso. rewrite Es in Er0. unfold lease_of in Hl. rewrite Er0 in Hl. injection Hl as El1 El2.
    rewrite Hto in Eo. destruct Hcase as [[Ho _]|(_ & Hn & _)]; [congruence|]. done.
Qed.

Lemma handles_holds owner ph {R} (c : call R) w r w' s u :
  TrimSpace owner = owner -> allowed owner ph c -> handles c w r w' ->
  holds (next_phase ph c r) = Some (s, u) ->
  holds ph = Some (s, u) \/ lease_of w' s = Some (Some owner, Some u).
Proof.
  intros Hto Ha Hh Hn. destruct c; cbn [next_phase allowed] in *; try done; try (by left).
  - left. destruct ph as [| |s0 u0 t0 [|]]; try done. by repeat case_match.
  - left. destruct r as [rows|]; [|done]. destruct (holds ph) as [[s0 u0]|] eqn:E; [|congruence].
    destruct (set_time slot); [|congruence]. case_decide; [|congruence]. done.
  - destruct Ha as (-> & -> & Hid). destruct r as [[]|]; try done. simplify_eq/=. right.
    destruct Hh as [Hp|[[e He] _]]; [|done]. cbn [perform] in Hp. unfold granted, on_db, TryClaimSchedule in Hp.
    destruct (schedule_row s (db w)) as [r0|] eqn:Er0; [|done].
    destruct (r0 s_Enabled && _); [|done]. injection Hp as <-.
    unfold lease_of, set_schedule. cbn [db with_schedules schedules].
    rewrite (proj1 Hid), lookup_insert_eq, Hto. reflexivity.
Qed.

(** *** Runs *)
Lemma PatchRun_lookup now (m : MutableRunView) db (id k : string) (run : RunView) :
  m r_Id = Some id -> runs (PatchRun now m db) !! k = Some run ->
  runs db !! k = Some run
  \/ (k = id /\ run r_Id = id
      /\ (m r_ScheduledFor = None -> m r_ScheduleId = None ->
          run r_ScheduledFor = None
          \/ exists run0 : RunView, runs db !! k = Some run0
               /\ run r_ScheduleId = run0 r_ScheduleId /\ run r_ScheduledFor = run0 r_ScheduledFor)
      /\ (forall s t, fills m s t -> run r_ScheduleId = s /\ run r_ScheduledFor = Some t)).
Proof.
  intros Hid. unfold PatchRun. rewrite Hid. change (str_value (Some id)) with id.
  cbn [with_runs runs]. rewrite lookup_upsert. case_decide as E; [|by left]. intros Erun. right.
  split; [done|].
  assert (Hm : forall c, c = r_Id \/ c = r_ScheduledFor \/ c = r_ScheduleId ->
                 init_run now (runs db !! id) m c = m c).
  { intros c Hc. unfold init_run, when. destruct (runs db !! id); [done|].
    destruct Hc as [-> | [-> | -> ] ]; repeat match goal with |- context [if ?b then _ else _] => destruct b end; done. }
  assert (Hval : forall c, c = r_Id \/ c = r_ScheduledFor \/ c = r_ScheduleId ->
                 run c = default (default run_defaults (runs db !! id) c) (m c)).
  { intros c Hc. injection Erun as <-. unfold apply_mutation. by rewrite (Hm c Hc). }
  split; [rewrite Hval by tauto; by rewrite Hid|]. split.
  - intros E1 E2. rewrite !Hval, E1, E2 by tauto. cbn [default]. subst k.
    destruct (runs db !! id) as [run0|]; [right; by exists run0|by left].
  - intros s t [F1 F2]. rewrite !Hval, F1, F2 by tauto. done.
Qed.

Definition patches_runs {R} (c : call R) : bool := match c with CPatchRuns _ => true | _ => false end.

Lemma on_db_db {R} (f : DB -> R * DB) w : db (snd (on_db f w)) = snd (f (db w)).
Proof. unfold on_db. by destruct (f (db w)). Qed.
Lemma TryClaimSchedule_runs now id o u d : runs (snd (TryClaimSchedule now id o u d)) = runs d.
Proof. unfold TryClaimSchedule. by repeat case_match. Qed.
Lemma ReleaseScheduleLease_runs id o d : runs (snd (ReleaseScheduleLease id o d)) = runs d.
Proof. unfold ReleaseScheduleLease. by repeat case_match. Qed.
Lemma PatchSchedule_runs now u fresh m d : runs (PatchSchedule now u fresh m d) = runs d.
Proof. unfold PatchSchedule. by case_match. Qed.

Lemma handles_keeps_runs owner ph {R} (c : call R) w r w' :
  allowed owner ph c -> handles c w r w' -> patches_runs c = false -> runs (db w') = runs (db w).
Proof.
  intros Ha Hh Hc. destruct Hh as [Hp|[_ ->]]; [|done].
  destruct c; cbn [allowed patches_runs] in *; try done; cbn [perform] in Hp; unfold granted in Hp;
    injection Hp as <- <-; try done; try rewrite on_db_db; cbn [snd db].
  - apply PatchSchedule_runs.
  - apply TryClaimSchedule_runs.
  - apply ReleaseScheduleLease_runs.
Qed.

(** A pass creates at most one run per call, in a slot it has read as free. *)
Lemma handles_runs owner ph {R} (c : call R) w r w' :
  allowed owner ph c -> handles c w r w' ->
  exists i, forall id s t, has_run w' id s t ->
    has_run w id s t \/ (id = i /\ exists u, ph = SlotRead s u t true /\ next_phase ph c r = Held s u).
Proof.
  intros Ha Hh. destruct (patches_runs c) eqn:Ec.
  2:{ exists ""%string. intros id s t Hr. left. unfold has_run in *.
      by rewrite (handles_keeps_runs _ _ _ _ _ _ Ha Hh Ec) in Hr. }
  destruct Hh as [Hp|[_ ->]]; [|exists ""%string; by left].
  destruct c; try done. cbn [allowed] in Ha. cbn [perform] in Hp. unfold granted, on_db in Hp.
  injection Hp as <- <-. destruct Ha as (m & id & -> & Hid & Ha). exists id.
  intros k s t (run & Hrun & Hs & Ht). cbn [db PatchRuns foldl fst snd] in Hrun.
  destruct (PatchRun_lookup _ _ _ _ _ _ Hid Hrun) as [Hold|(-> & _ & Hless & Hfill)]; [left; by exists run|].
  destruct Ha as [[E1 E2]|(_ & s0 & u & t0 & -> & Hf)].
  - left. destruct (Hless E1 E2) as [Hn|(run0 & Hrun0 & Es & Et)]; [congruence|].
    exists run0. by rewrite <- Es, <- Et.
  - right. split; [done|]. destruct (Hfill _ _ Hf) as [Es Et]. exists u.
    assert (Est : s0 = s /\ t0 = t) by (split; congruence). destruct Est as [-> ->].
    split; [done|]. cbn [next_phase]. by rewrite decide_False by (by rewrite (proj2 Hf)).
Qed.

(** A slot that was read as free has no run but those of [f] (which others have
    added meanwhile), and has none until it is filled. *)
Lemma handles_free (f : gset string) owner ph {R} (c : call R) w r w' s u t :
  allowed owner ph c -> handles c w r w' -> next_phase ph c r = SlotRead s u t true ->
  (ph = SlotRead s u t true -> forall id, has_run w id s t -> id ∈ f) ->
  forall id, has_run w' id s t -> id ∈ f.
Proof.
  intros Ha Hh Hn Hfree.
  assert (Hsame : ph = SlotRead s u t true -> forall id, has_run w' id s t -> id ∈ f).
  { intros Hph id Hr. destruct (handles_runs _ _ _ _ _ _ Ha Hh) as [i Hi].
    destruct (Hi _ _ _ Hr) as [Hold|(_ & u' & _ & Hn')]; [by apply (Hfree Hph id)|congruence]. }
  destruct c; cbn [next_phase] in Hn; try (by apply Hsame); try (destruct r as [[]|]; try done; by apply Hsame);
    try done.
  - apply Hsame. destruct ph as [| |s0 u0 t0 [|]]; try done. repeat case_match; try done.
  - destruct r as [rows|]; [|by apply Hsame]. destruct (holds ph) as [[s0 u0]|]; [|by apply Hsame].
    destruct (set_time slot) as [t0|] eqn:Et; [|by apply Hsame].
    case_decide as Ed; [|by apply Hsame]. destruct Ed as [-> ->]. injection Hn as -> -> -> Hfr.
    cbn [allowed] in Ha. destruct Hh as [Hp|[[e He] _]]; [|done]. injection Hp as Hrows <-.
    intros id0 (run & Hrun & Hs & Ht). apply bool_decide_eq_true in Hfr.
    destruct rows; [|done]. unfold ListRunsForDue in Hrows. rewrite (proper_not_blank _ Ha) in Hrows.
    assert (Hin : run ∈ ([] : list RunView)); [|by apply elem_of_nil in Hin].
    rewrite <- Hrows. apply list_elem_of_filter. split.
    + unfold run_selected. rewrite Et, (proj1 Ha), Hs, Ht, !bool_decide_eq_true_2; try done.
      apply not_elem_of_nil.
    + unfold all_runs. rewrite merge_sort_Permutation. apply list_elem_of_fmap. exists (id0, run).
      split; [done|]. by apply elem_of_map_to_list.
Qed.

(** *** Well-formed tables stay well-formed *)
Lemma handles_schedule_ids owner ph {R} (c : call R) w r w' id (x : ScheduleView) :
  well_formed w -> allowed owner ph c -> handles c w r w' ->
  schedules (db w') !! id = Some x -> x s_Id = id /\ proper_id id.
Proof.
  intros [Hs _] Ha Hh Hx. destruct Hh as [Hp|[_ ->]]; [|by apply Hs].
  assert (Hset : forall key (m : Schedule) (r0 : ScheduleView) d,
    schedules d = schedules (db w) -> schedules d !! TrimSpace key = Some r0 -> m s_Id = None ->
    schedules (set_schedule key m r0 d) !! id = Some x -> x s_Id = id /\ proper_id id).
  { intros key m r0 d Ed Er0 Hm Hx0. unfold set_schedule in Hx0. cbn [with_schedules schedules] in Hx0.
    rewrite Ed in *. destruct (decide (TrimSpace key = id)) as [<-|Hne].
    - rewrite lookup_insert_eq in Hx0. injection Hx0 as <-. unfold apply_mutation. rewrite Hm. by apply Hs.
    - rewrite lookup_insert_ne in Hx0 by done. by apply Hs. }
  destruct c; cbn [allowed] in Ha; try done; cbn [perform] in Hp; unfold granted in Hp;
    injection Hp as <- <-; try (by apply Hs); try rewrite on_db_db in Hx; cbn [snd db] in Hx.
  - destruct (PatchSchedule_lookup _ _ _ _ _ _ Ha _ Hx) as [Hold|(_ & E & Hid & _)]; [by apply Hs|done].
  - assert (E : schedules (PatchRuns (clock w) rows (db w)) = schedules (db w)); [|rewrite E in Hx; by apply Hs].
    clear. unfold PatchRuns. generalize (db w) as d. induction rows as [|m rows IH]; intros d; [done|].
    cbn [foldl]. by rewrite IH.
  - unfold TryClaimSchedule in Hx. destruct (schedule_row id0 (db w)) as [r0|] eqn:Er0; [|by apply Hs].
    case_match; cbn [snd] in Hx; [|by apply Hs]. by refine (Hset _ _ _ (db w) eq_refl Er0 _ Hx).
  - unfold ReleaseScheduleLease in Hx. destruct (schedule_row id0 (db w)) as [r0|] eqn:Er0; [|by apply Hs].
    case_match; cbn [snd] in Hx; [|by apply Hs]. by refine (Hset _ _ _ (db w) eq_refl Er0 _ Hx).
Qed.

Lemma handles_well_formed owner ph {R} (c : call R) w r w' :
  well_formed w -> allowed owner ph c -> handles c w r w' -> well_formed w'.
Proof.
  intros Hwf Ha Hh. split; [intros id x Hx; by eapply handles_schedule_ids|].
  destruct (patches_runs c) eqn:Ec; [|rewrite (handles_keeps_runs _ _ _ _ _ _ Ha Hh Ec); apply Hwf].
  destruct Hh as [Hp|[_ ->]]; [|apply Hwf]. destruct c; try done. cbn [allowed] in Ha. cbn [perform] in Hp.
  unfold granted, on_db in Hp. injection Hp as <- <-. destruct Ha as (m & id & -> & Hid & Ha).
  intros k run Hrun. cbn [db PatchRuns foldl fst snd] in Hrun.
  destruct (PatchRun_lookup _ _ _ _ _ _ Hid Hrun) as [Hold|(-> & E & Hless & Hfill)]; [by apply Hwf|].
  split; [done|]. destruct Ha as [[E1 E2]|(Hp & _)]; [|by right].
  destruct (Hless E1 E2) as [Hn|(run0 & Hrun0 & _ & Et)]; [by left|].
  rewrite Et. apply (wf_runs _ Hwf _ _ Hrun0).
Qed.
End Effects.

(** ** The pool *)
Section Pool.
Context `{Defaults} `{Agent} `{UUIDs} `{!UUIDLaws} `{Tzdata} `{Messages}.
Context (Hdefault : run_defaults r_ScheduledFor = None).
Context (fuel : nat) (ctxUser : string).

(** A process: its lease owner and time to live, the program it has left, and
    its phase, which records what its calls established. *)
Record node := mkNode {
  n_owner : string; n_ttl : Z; n_phase : phase; n_prog : prog (nat * option SchedError) }.

Definition pass (n : node) : prog (nat * option SchedError) := RunDue fuel (n_owner n) (n_ttl n) ctxUser.

(** A node that holds a lease acts before the lease expires. *)
Definition in_time (w : World) (n : node) : Prop :=
  match holds (n_phase n) with Some (_, u) => clock w <= u | None => True end.

(** What everybody else may do: let time pass, edit schedules but not their
    leases, update or delete runs, and add runs of their own, in any slot (a user
    who runs a schedule now writes one in the slot of that moment). [f] holds the
    identifiers of the runs that others added. *)
Record environment (f : gset string) (w : World) (f' : gset string) (w' : World) : Prop := {
  env_clock : clock w <= clock w';
  env_runs : forall id s t, has_run w' id s t -> has_run w id s t \/ id ∈ f';
  env_foreign : f ⊆ f';
  env_added : forall id, id ∈ f' -> id ∈ f \/ runs (db w) !! id = None /\ is_Some (runs (db w') !! id);
  env_leases : forall s, is_Some (lease_of w s) -> lease_of w' s = lease_of w s;
  env_well_formed : well_formed w' }.

(** The nodes, the store and the runs of others. *)
Record pool := mkPool { p_nodes : list node; p_world : World; p_foreign : gset string }.

Inductive pool_step : pool -> pool -> Prop :=
| step_call l n rest w f R (c : call R) k r w' :
    n_prog n = Call c k -> handles c w r w' ->
    let n' := mkNode (n_owner n) (n_ttl n) (next_phase (n_phase n) c r) (k r) in
    Forall (in_time w') (l ++ n' :: rest) ->
    pool_step (mkPool (l ++ n :: rest) w f) (mkPool (l ++ n' :: rest) w' f)
| step_again l n rest w f a :
    n_prog n = Ret a ->
    pool_step (mkPool (l ++ n :: rest) w f) (mkPool (l ++ mkNode (n_owner n) (n_ttl n) (n_phase n) (pass n) :: rest) w f)
| step_environment ns w w' f f' :
    environment f w f' w' -> Forall (in_time w') ns -> pool_step (mkPool ns w f) (mkPool ns w' f').

(** At most one run of a schedule in a slot, those of others aside. *)
Definition slots_unique (f : gset string) (w : World) : Prop :=
  forall id1 id2 s t, id1 ∉ f -> id2 ∉ f -> has_run w id1 s t -> has_run w id2 s t -> id1 = id2.

Definition owners_distinct (ns : list node) : Prop :=
  NoDup (n_owner <$> ns) /\ Forall (fun n => TrimSpace (n_owner n) = n_owner n) ns.

Record pool_start (x : pool) : Prop := {
  start_owners : owners_distinct (p_nodes x);
  start_passes : Forall (fun n => n_phase n = Idle /\ n_prog n = pass n) (p_nodes x);
  start_well_formed : well_formed (p_world x);
  start_unique : slots_unique (p_foreign x) (p_world x) }.

Definition node_ok (f : gset string) (w : World) (n : node) : Prop :=
  follows (n_owner n) (n_phase n) (n_prog n) (fun _ ph => ph = Idle)
  /\ (forall s u, holds (n_phase n) = Some (s, u) -> lease_of w s = Some (Some (n_owner n), Some u))
  /\ (forall s u t, n_phase n = SlotRead s u t true -> forall id, has_run w id s t -> id ∈ f).

Record pool_ok (x : pool) : Prop := {
  ok_owners : owners_distinct (p_nodes x);
  ok_time : Forall (in_time (p_world x)) (p_nodes x);
  ok_well_formed : well_formed (p_world x);
  ok_unique : slots_unique (p_foreign x) (p_world x);
  ok_nodes : Forall (node_ok (p_foreign x) (p_world x)) (p_nodes x) }.

Lemma pass_follows n : follows (n_owner n) Idle (pass n) (fun _ ph => ph = Idle).
Proof. exact (RunDue_follows fuel (n_owner n) (n_ttl n) ctxUser). Qed.

Lemma start_ok x : pool_start x -> pool_ok x.
Proof.
  intros [Ho Hp Hwf Hu]. split; try done; eapply list.Forall_impl; try exact Hp.
  - intros n [Hn _]. unfold in_time. by rewrite Hn.
  - intros n [Hn Hg]. unfold node_ok. rewrite Hn, Hg. split; [exact (pass_follows n)|].
    split; intros; discriminate.
Qed.

Lemma owners_apart l n rest m :
  owners_distinct (l ++ n :: rest) -> m ∈ l ++ rest -> n_owner m <> n_owner n.
Proof.
  intros [Hnd _] Hm E. rewrite fmap_app, fmap_cons in Hnd.
  rewrite <- Permutation_middle in Hnd. apply NoDup_cons in Hnd as [Hnot _]. apply Hnot.
  rewrite <- fmap_app, <- E. by apply list_elem_of_fmap_2.
Qed.

(** A node other than the one that makes a call is not disturbed by it. *)
Lemma other_node_ok {R} (c : call R) f w r w' n m :
  TrimSpace (n_owner n) = n_owner n -> n_owner m <> n_owner n ->
  node_ok f w n -> allowed (n_owner n) (n_phase n) c -> handles c w r w' ->
  in_time w m -> node_ok f w m -> node_ok f w' m.
Proof.
  intros Hto Hne (_ & Hlease & _) Ha Hh Ht (Hf & Hl & Hfree).
  split; [done|]. split.
  - intros s u Hhold. eapply handles_lease; [done|exact Ha|exact Hh|by apply Hl|].
    left. split; [done|]. unfold in_time in Ht. by rewrite Hhold in Ht.
  - intros s u t Hph id Hr.
    destruct (handles_runs Hdefault _ _ _ _ _ _ Ha Hh) as [i Hi].
    destruct (Hi _ _ _ Hr) as [Hold|(_ & u' & Hn & _)]; [by eapply Hfree|].
    assert (E1 := Hlease s u' ltac:(by rewrite Hn)). assert (E2 := Hl s u ltac:(by rewrite Hph)). congruence.
Qed.

Lemma pool_step_ok x y : pool_step x y -> pool_ok x -> pool_ok y.
Proof.
  intros Hstep [Ho Ht Hwf Hu Hn].
  destruct Hstep as [l n rest w f R c k r w' Ep Hh n' Htime|l n rest w f a Ep|ns w w' f f' Henv Htime]; cbn [p_nodes p_world p_foreign] in *.
  - apply Forall_app in Hn as [Hnl Hnr]. apply list.Forall_cons in Hnr as [Hnn Hnr].
    apply Forall_app in Ht as [Htl Htr]. apply list.Forall_cons in Htr as [_ Htr].
    assert (Hto : TrimSpace (n_owner n) = n_owner n).
    { destruct Ho as [_ Ho]. apply Forall_app in Ho as [_ Ho]. by apply list.Forall_cons in Ho as [Ho _]. }
    pose proof Hnn as (Hf & Hl & Hfree). rewrite Ep in Hf. destruct Hf as [Ha Hk].
    assert (Hother : forall m, m ∈ l ++ rest -> in_time w m -> node_ok f w m -> node_ok f w' m).
    { intros m Hm. eapply other_node_ok; [exact Hto|by eapply owners_apart|exact Hnn|exact Ha|exact Hh]. }
    split; cbn [p_nodes p_world p_foreign].
    + unfold owners_distinct in *. rewrite fmap_app, fmap_cons in *.
      destruct Ho as [Hnd Hot]. split; [exact Hnd|]. apply Forall_app in Hot as [Hot1 Hot2].
      apply list.Forall_cons in Hot2 as [_ Hot2]. apply Forall_app. by repeat constructor.
    + exact Htime.
    + by eapply handles_well_formed.
    + intros id1 id2 s t N1 N2 H1' H2'.
      destruct (handles_runs Hdefault _ _ _ _ _ _ Ha Hh) as [i Hi].
      destruct (Hi _ _ _ H1') as [Hold1|(-> & u1 & Hph1 & _)], (Hi _ _ _ H2') as [Hold2|(-> & u2 & Hph2 & _)]; try done.
      * by eapply Hu.
      * by destruct N1; eapply Hfree.
      * by destruct N2; eapply Hfree.
    + apply Forall_app. split; [|apply list.Forall_cons; split].
      * apply Forall_forall. intros m Hm. rewrite Forall_forall in Htl, Hnl.
        apply Hother; [set_solver|by apply Htl|by apply Hnl].
      * split; [apply Hk; by eapply handles_plausible|]. cbn [n_phase n_owner n'].
        split.
        -- intros s u Hhold. destruct (handles_holds _ _ _ _ _ _ _ _ Hto Ha Hh Hhold) as [Hold|Hnew]; [|done].
           eapply handles_lease; [exact Hto|exact Ha|exact Hh|by apply Hl|]. by right.
        -- intros s u t Hph. eapply handles_free; [exact Hdefault|exact Ha|exact Hh|exact Hph|].
           intros E. by eapply Hfree.
      * apply Forall_forall. intros m Hm. rewrite Forall_forall in Htr, Hnr.
        apply Hother; [set_solver|by apply Htr|by apply Hnr].
  - apply Forall_app in Hn as [Hnl Hnr]. apply list.Forall_cons in Hnr as [(Hf & Hl & Hfree) Hnr].
    apply Forall_app in Ht as [Htl Htr]. apply list.Forall_cons in Htr as [Htn Htr].
    rewrite Ep in Hf. cbn [follows] in Hf.
    split; cbn [p_nodes p_world p_foreign]; try done.
    + unfold owners_distinct in *. rewrite fmap_app, fmap_cons in *.
      destruct Ho as [Hnd Hot]. split; [exact Hnd|]. apply Forall_app in Hot as [Hot1 Hot2].
      apply list.Forall_cons in Hot2 as [Hot2 Hot3]. apply Forall_app. by repeat constructor.
    + apply Forall_app. split; [done|]. by apply list.Forall_cons.
    + apply Forall_app. split; [done|]. apply list.Forall_cons. split; [|done].
      split; [|done]. cbn [n_owner n_phase n_prog]. rewrite Hf. exact (pass_follows n).
  - destruct Henv as [Hc Hr Hf Hadd Hlease Hwf']. split; cbn [p_nodes p_world p_foreign]; try done.
    + intros id1 id2 s t N1 N2 H1' H2'.
      destruct (Hr _ _ _ H1') as [Hold1|]; [|done]. destruct (Hr _ _ _ H2') as [Hold2|]; [|done].
      eapply Hu; [set_solver..|exact Hold1|exact Hold2].
    + eapply list.Forall_impl; [exact Hn|]. intros n (Hfl & Hl & Hfree). split; [done|]. split.
      * intros s u Hhold. specialize (Hl s u Hhold). rewrite Hlease; [done|]. by rewrite Hl.
      * intros s u t Hph id Hrun. destruct (Hr _ _ _ Hrun) as [Hold|]; [|done]. apply Hf. by eapply Hfree.
Qed.

(** C3: Any number of scheduler processes with distinct lease owners run
    concurrently, pass after pass, on one store whose calls may fail at any point.
    Others meanwhile edit schedules, though not their leases, change and delete
    runs, and add runs in any slot, as a user does who runs a schedule now. As
    long as a process that holds the lease of a schedule acts before the lease
    expires (the code does not check that before it writes), the processes
    create at most one run per slot of a schedule. *)
Theorem at_most_one_run x y : pool_start x -> rtc pool_step x y -> slots_unique (p_foreign y) (p_world y).
Proof.
  intros Hs Hxy. apply (ok_unique y). apply start_ok in Hs.
  induction Hxy as [|x y z Hxy _ IH]; [done|]. by eapply IH, pool_step_ok.
Qed.

(** Running one node for some calls without failures. *)
Fixpoint solo (k : nat) (l : list node) (n : node) (rest : list node) (w : World) : option (node * World) :=
  match k with
  | O => Some (n, w)
  | S k' =>
      match n_prog n with
      | Call c k0 =>
          let '(r, w') := perform c w in
          let n' := mkNode (n_owner n) (n_ttl n) (next_phase (n_phase n) c r) (k0 r) in
          if match holds (n_phase n') with Some (_, u) => clock w' <=? u | None => true end
          then solo k' l n' rest w' else None
      | _ => Some (n, w)
      end
  end.

Lemma solo_steps f k l n rest w n' w' :
  Forall (in_time w) (l ++ n :: rest) -> solo k l n rest w = Some (n', w') ->
  rtc pool_step (mkPool (l ++ n :: rest) w f) (mkPool (l ++ n' :: rest) w' f) /\ Forall (in_time w') (l ++ n' :: rest).
Proof.
  revert n w. induction k as [|k IH]; intros n w Ht; cbn [solo]; [intros [= <- <-]; by split|].
  destruct (n_prog n) as [a|R c k0|] eqn:Ep; [intros [= <- <-]; by split| |intros [= <- <-]; by split].
  destruct (perform c w) as [r w1] eqn:Eperf. case_match eqn:Eh; [|done]. intros Hsolo.
  assert (Hh : handles c w r w1) by (by left).
  set (n1 := mkNode _ _ _ _) in *.
  assert (Ht1 : Forall (in_time w1) (l ++ n1 :: rest)).
  { apply Forall_app in Ht as [Htl Htr]. apply list.Forall_cons in Htr as [_ Htr].
    assert (Hsame : forall m, in_time w m -> in_time w1 m).
    { intros m. unfold in_time. by rewrite (handles_clock _ _ _ _ Hh). }
    apply Forall_app. split; [by eapply list.Forall_impl|]. apply list.Forall_cons.
    split; [|by eapply list.Forall_impl]. unfold in_time. case_match; [|done]. case_match. by apply Z.leb_le. }
  destruct (IH _ _ Ht1 Hsolo) as [Hsteps Ht']. split; [|done].
  eapply rtc_l; [|exact Hsteps]. exact (step_call _ _ _ _ _ _ _ _ _ _ Ep Hh Ht1).
Qed.

(** One node after the other. *)
Definition two_passes (k : nat) (a b : node) (w : World) : option World :=
  match solo k [] a [b] w with
  | Some (a', w1) => option_map snd (solo k [a'] b [] w1)
  | None => None
  end.

Lemma two_passes_reach f k a b w w2 :
  Forall (in_time w) [a; b] -> two_passes k a b w = Some w2 ->
  exists ns, rtc pool_step (mkPool [a; b] w f) (mkPool ns w2 f).
Proof.
  intros Ht. unfold two_passes.
  destruct (solo k [] a [b] w) as [[a' w1]|] eqn:E1; [|done].
  destruct (solo k [a'] b [] w1) as [[b' w']|] eqn:E2; [|done]. intros [= <-].
  destruct (solo_steps f k [] a [b] w _ _ Ht E1) as [S1 T1].
  destruct (solo_steps f k [a'] b [] w1 _ _ T1 E2) as [S2 _].
  exists [a'; b']. etransitivity; [exact S1|exact S2].
Qed.

(** A user runs a schedule: a run of theirs under an identifier that is new. *)
Definition add_run (id : string) (run : RunView) (w : World) : World :=
  mkWorld (with_runs (<[id := run]>) (db w)) (clock w) (subject w) (issued w) (launched w) (reserved w).

Lemma add_run_step ns w f id (run : RunView) :
  pool_ok (mkPool ns w f) -> proper_id id -> run r_Id = id -> runs (db w) !! id = None ->
  pool_step (mkPool ns w f) (mkPool ns (add_run id run w) ({[id]} ∪ f)).
Proof.
  intros [_ Ht Hwf _ _] Hid Hrid Hn. apply step_environment; [|exact Ht]. split; [done| |set_solver|..].
  - intros k s t (r & Hr & Hs). cbn in Hr. destruct (decide (k = id)) as [->|Hne]; [right; set_solver|].
    rewrite lookup_insert_ne in Hr by done. left. by exists r.
  - intros k [->%elem_of_singleton|Hk]%elem_of_union; [right|by left]. cbn. by rewrite lookup_insert_eq.
  - done.
  - split; [apply Hwf|]. intros k r Hr. cbn in Hr. destruct (decide (k = id)) as [->|Hne].
    + rewrite lookup_insert_eq in Hr. injection Hr as <-. split; [done|]. by right.
    + rewrite lookup_insert_ne in Hr by done. by apply Hwf.
Qed.

Lemma reached_ok x y : pool_start x -> rtc pool_step x y -> pool_ok y.
Proof. intros Hs%start_ok Hxy. induction Hxy as [|x y z Hxy _ IH]; [done|]. by eapply IH, pool_step_ok. Qed.
End Pool.

(** Two processes that find the same slot due, one after the other. *)
Import Demo.
Definition demo_node (owner : string) : node :=
  mkNode owner (60 * Second) Idle (pass 100 "" (mkNode owner (60 * Second) Idle Spin)).
Definition demo_pool : list node := [demo_node "node-1"; demo_node "node-2"].
Definition demo_world : World := Demo.world [Demo.hourly] (Demo.start + Minute).

Definition scheduled_run (w : World) : option (string * option Z) :=
  option_map (fun r : RunView => (r r_ScheduleId, r r_ScheduledFor)) (runs (db w) !! new_uuid 0).

Lemma demo_passes_run :
  option_map (fun w => (scheduled_run w, runs (db w) !! "now"%string)) (two_passes 40 (demo_node "node-1") (demo_node "node-2") demo_world)
  = Some (Some ("hourly"%string, Some Demo.start), None).
Proof. vm_compute. reflexivity. Qed.

(** The run of a user in the same slot. *)
Definition now_run : RunView := fun c => match c with
  | r_Id => "now"%string | r_ScheduleId => "hourly"%string | r_ScheduledFor => Some Demo.start | c => run_defaults c end.

Lemma scheduled_run_has w s t :
  scheduled_run w = Some (s, Some t) -> runs (db w) !! "now"%string = None ->
  exists id, id <> "now"%string /\ has_run w id s t.
Proof.
  unfold scheduled_run. intros E Hn. destruct (runs (db w) !! new_uuid 0) as [run|] eqn:Er; [|discriminate].
  exists (new_uuid 0). split; [intros E'; rewrite E' in Er; congruence|]. exists run. injection E as K1 K2. by split.
Qed.

Lemma option_map_inv {A B} (f : A -> B) x y : option_map f x = Some y -> exists a, x = Some a /\ f a = y.
Proof. destruct x as [a|]; [|discriminate]. intros [= <-]. by exists a. Qed.

Lemma pair_parts {A B} (a c : A) (b d : B) : (a, b) = (c, d) -> a = c /\ b = d.
Proof. by intros [= -> ->]. Qed.

Lemma demo_start : pool_start 100 "" (mkPool demo_pool demo_world ∅).
Proof.
  assert (Hkey : forall id (r : ScheduleView), schedules (db demo_world) !! id = Some r ->
    id = "hourly"%string /\ r = Demo.hourly).
  { intros id r. unfold demo_world, Demo.world. cbn [db schedules fmap list_fmap list_to_map foldr].
    intros [[<- <-]|[_ Hr]]%lookup_insert_Some; [done|]. by rewrite lookup_empty in Hr. }
  split; cbn [p_nodes p_world p_foreign].
  - split; [|by repeat constructor]. apply NoDup_cons_2; [|apply NoDup_singleton].
    intros Hin%list_elem_of_singleton. discriminate.
  - by repeat constructor.
  - split; [|intros id run Hr; change (runs (db demo_world)) with (∅ : gmap string RunView) in Hr; by rewrite lookup_empty in Hr].
    intros id r Hr. destruct (Hkey id r Hr) as [-> ->]. split; [reflexivity|]. split; [reflexivity|discriminate].
  - intros id1 id2 s t _ _ (run & Hr & _). change (runs (db demo_world)) with (∅ : gmap string RunView) in Hr.
    by rewrite lookup_empty in Hr.
Qed.

(** Both passes, one after the other, and a user's run, as steps of the pool. *)
Lemma demo_reaches :
  exists y, rtc (pool_step 100 "") (mkPool demo_pool demo_world ∅) y
    /\ p_foreign y = {["now"]} /\ (exists id, id <> "now" /\ has_run (p_world y) id "hourly" Demo.start)
    /\ has_run (p_world y) "now" "hourly" Demo.start.
Proof.
  destruct (option_map_inv _ _ _ demo_passes_run) as (w2 & E & Hr). apply pair_parts in Hr as [Hr Hn].
  assert (T0 : Forall (in_time demo_world) demo_pool) by (by repeat constructor).
  destruct (two_passes_reach 100 "" ∅ _ _ _ _ _ T0 E) as [ns Hns].
  assert (Hid : proper_id "now") by (split; [reflexivity|discriminate]).
  assert (Hok : pool_ok (mkPool ns w2 ∅)) by (eapply reached_ok; [|exact demo_start|exact Hns]; reflexivity).
  exists (mkPool ns (add_run "now" now_run w2) ({["now"]} ∪ ∅)).
  split; [eapply rtc_r; [exact Hns|]; by apply add_run_step|]. cbn [p_foreign p_world].
  split; [set_solver|]. split.
  - destruct (scheduled_run_has _ _ _ Hr Hn) as (id & Hne & run & Hrun & Hs). exists id. split; [done|].
    exists run. split; [|exact Hs]. unfold add_run, with_runs. cbn [db runs]. by rewrite lookup_insert_ne.
  - exists now_run. split; [|split; reflexivity]. unfold add_run, with_runs. cbn [db runs]. apply lookup_insert_eq.
Qed.

Lemma at_most_one_run_witness :
  exists y, rtc (pool_step 100 "") (mkPool demo_pool demo_world ∅) y
    /\ slots_unique {["now"]} (p_world y) /\ (exists id, id <> "now" /\ has_run (p_world y) id "hourly" Demo.start)
    /\ has_run (p_world y) "now" "hourly" Demo.start.
Proof.
  destruct demo_reaches as (y & S & Hf & Hr). exists y. split; [exact S|]. split; [|exact Hr]. rewrite <- Hf.
  eapply at_most_one_run; [|exact demo_start|exact S]. reflexivity.
Defined.
