(* ===== verification/SchedUser.v ===== *)
(** * Schedules, their next run, and the calls of users

    When a schedule is due and when its next run is, which runs are stale,
    on-demand runs and their rate limit, goal wakeups, and edits by users. *)
From stdpp Require Import base gmap strings list fin_maps numbers sorting.
From Stdlib Require Import ZArith Lia Ascii.
From S2P Require Import Prelude Effects GoStrings Cron SchedStore Scheduler SchedProps.

Open Scope Z_scope.

Lemma set_time_Some x t : set_time x = Some t <-> x = Some t /\ t <> 0.
Proof.
  unfold set_time, time_is_zero. destruct x as [u|]; [|naive_solver].
  destruct (Z.eqb_spec u 0); naive_solver.
Qed.

(** ** Due schedules *)
Section Due.
Context `{Tzdata} (fuel : nat).
Implicit Types r : ScheduleView.

(** [now] lies in the window of the schedule. *)
Definition in_window (r : ScheduleView) (now : Z) : Prop :=
  (forall t, r s_StartAt = Some t -> t <= now) /\ (forall t, r s_EndAt = Some t -> now < t).

(** The expression of a cron schedule parses. *)
Definition parses (r : ScheduleView) : Prop :=
  is_cron r = true -> exists spec, parseCron fuel (valueOrEmpty (r s_CronExpr)) = Some (Ok spec).

Lemma window_checks r now :
  in_window r now <->
  match r s_StartAt with Some t => time_before now t | None => false end = false
  /\ match r s_EndAt with Some t => negb (time_before now t) | None => false end = false.
Proof.
  unfold in_window, time_before. split.
  - intros [Hs He]. destruct (r s_StartAt) as [a|], (r s_EndAt) as [b|];
      try specialize (Hs _ eq_refl); try specialize (He _ eq_refl); split; try done;
      try (apply Z.ltb_ge; lia); apply negb_false_iff, Z.ltb_lt; lia.
  - intros [Hs He]. split; intros t E; rewrite E in *; [apply Z.ltb_ge in Hs; lia|].
    apply negb_false_iff, Z.ltb_lt in He. lia.
Qed.

(** A schedule whose next run time is stored is due exactly when that time
    has come and [now] is in its window, whatever its type; outside of its window
    no schedule is due; and checking it stores nothing. *)
Lemma isDue_stored r now next :
  set_time (r s_NextRunAt) = Some next -> parses r ->
  exists due at_, isDue fuel r now = ok (due, at_)
    /\ (due = true <-> in_window r now /\ next <= now)
    /\ (in_window r now -> at_ = next).
Proof.
  intros Hnext Hp. unfold isDue. pose proof (window_checks r now) as Hw.
  destruct (match r s_StartAt with Some t => _ | None => _ end).
  { exists false, now. split; [done|]. split; [|intros Hin; by apply Hw in Hin as [? _]].
    split; [done|]. intros [Hin _]. by apply Hw in Hin as [? _]. }
  destruct (match r s_EndAt with Some t => _ | None => _ end).
  { exists false, now. split; [done|]. split; [|intros Hin; by apply Hw in Hin as [_ ?]].
    split; [done|]. intros [Hin _]. by apply Hw in Hin as [_ ?]. }
  assert (Hin : in_window r now) by (by apply Hw).
  assert (Hdue : exists due at_, ok (negb (time_before now next), next) = ok (due, at_)
    /\ (due = true <-> in_window r now /\ next <= now) /\ (in_window r now -> at_ = next)).
  { exists (negb (time_before now next)), next. split; [done|]. split; [|done].
    unfold time_before. rewrite negb_true_iff, Z.ltb_ge. tauto. }
  rewrite Hnext. destruct (is_cron r) eqn:Ec; [|exact Hdue].
  destruct (Hp Ec) as [spec Hspec]. unfold with_cron. rewrite Hspec. exact Hdue.
Qed.

(** The next run after [now] of a schedule that repeats: the arithmetic does not
    overflow, or the expression has a match in the coming year. *)
Definition repeats (r : ScheduleView) (now : Z) : Prop :=
  if is_cron r then
    exists spec, parseCron fuel (valueOrEmpty (r s_CronExpr)) = Some (Ok spec)
      /\ steady (location_of r) /\ match_within spec (location_of r) now
  else exists n, r s_IntervalSeconds = Some n /\ 0 < n <= 9000000000.

(** After a run was started, a repeating schedule gets a next run time in the
    future, so that a pass cannot start it again at once; a cron schedule gets the
    first matching minute. *)
Lemma advance_is_future r mut now :
  repeats r now ->
  exists t, setNextRunAt fuel r mut now = ok (put s_NextRunAt (Some t) mut) /\ now < t
    /\ (is_cron r = true -> exists spec, parseCron fuel (valueOrEmpty (r s_CronExpr)) = Some (Ok spec)
          /\ is_next_match spec (location_of r) now t).
Proof.
  unfold repeats, setNextRunAt. destruct (is_cron r).
  - intros (spec & Hspec & Hloc & Hm). unfold with_cron. rewrite Hspec. eexists. split; [done|].
    assert (Hnext : is_next_match spec (location_of r) now (nextCronAfter spec (location_of r) now now)).
    { unfold nextCronAfter. case_match; by apply cronNext_truncated. }
    split; [apply Hnext|]. intros _. by exists spec.
  - intros (n & En & Hn). rewrite En. eexists. split; [done|]. split; [|done].
    unfold dur_mul. rewrite wrap64_id by (unfold in_int64, min_int64, max_int64, Second; lia).
    unfold Second. lia.
Qed.
End Due.

Import Demo.

Lemma isDue_stored_witness :
  exists due at_, isDue 100 Demo.hourly (Demo.start + Minute) = ok (due, at_)
    /\ (due = true <-> in_window Demo.hourly (Demo.start + Minute) /\ Demo.start <= Demo.start + Minute)
    /\ (in_window Demo.hourly (Demo.start + Minute) -> at_ = Demo.start).
Proof.
  apply (@isDue_stored Demo.tzdata 100 Demo.hourly (Demo.start + Minute) Demo.start); [reflexivity|].
  intros _. eexists. vm_compute. reflexivity.
Defined.

Lemma advance_is_future_witness :
  exists t, @setNextRunAt Demo.tzdata 100 Demo.hourly no_columns (Demo.start + Minute)
              = ok (put s_NextRunAt (Some t) no_columns) /\ Demo.start + Minute < t
    /\ (is_cron Demo.hourly = true -> exists spec,
          parseCron 100 (valueOrEmpty (Demo.hourly s_CronExpr)) = Some (Ok spec)
          /\ is_next_match spec (@location_of Demo.tzdata Demo.hourly) (Demo.start + Minute) t).
Proof.
  apply advance_is_future. unfold repeats.
  replace (is_cron Demo.hourly) with true by (vm_compute; reflexivity).
  eexists. split; [vm_compute; reflexivity|]. split; [done|].
  exists 59. split; [unfold scan_limit; lia|]. vm_compute. reflexivity.
Defined.

(** ** Stale runs *)

(** When a run is given up: its lease, or else its timeout, ran out. *)
Definition run_started (run : RunView) : Z := default (run r_CreatedAt) (set_time (run r_StartedAt)).
Definition run_limit (r : ScheduleView) (run : RunView) : Z :=
  match set_time (run r_LeaseUntil) with
  | Some u => u
  | None => run_started run + timeout_of r defaultStaleRunTimeout
  end.

(** A run is stale exactly when it is not completed, has a start, and its
    lease has expired for more than the grace period or, without a lease, its
    timeout has. *)
Lemma isStaleRun_iff r run now :
  (isStaleRun r run now).2 = true <->
  set_time (run r_CompletedAt) = None /\ run_started run <> 0 /\ run_limit r run + staleRunGrace < now.
Proof.
  unfold isStaleRun, run_limit, run_started, is_set.
  destruct (set_time (run r_CompletedAt)) as [c|]; [by rewrite bool_decide_eq_true_2 by done; naive_solver|].
  rewrite bool_decide_eq_false_2 by (intros [? ?]; done).
  unfold time_is_zero. destruct (Z.eqb_spec (default (run r_CreatedAt) (set_time (run r_StartedAt))) 0) as [E|E];
    [naive_solver|].
  destruct (set_time (run r_LeaseUntil)); cbn [snd]; unfold time_after; rewrite Z.ltb_lt; naive_solver.
Qed.

(** [Q] holds of whatever a program returns, whatever its calls answer. *)
Fixpoint results {A} (p : prog A) (Q : A -> Prop) : Prop :=
  match p with
  | Ret a => Q a
  | Call c k => forall x, results (k x) Q
  | Spin => True
  end.

Lemma results_weaken {A} (p : prog A) (Q Q' : A -> Prop) :
  results p Q -> (forall a, Q a -> Q' a) -> results p Q'.
Proof. intros Hp HQ. induction p as [a|R c k IH|]; simpl in *; auto. Qed.

Lemma results_bind {A B} (p : prog A) (f : A -> prog B) Q :
  results p (fun a => results (f a) Q) -> results (x ← p; f x) Q.
Proof. unfold mbind, prog_bind. induction p as [a|R c k IH|]; simpl; auto. Qed.

Lemma results_try {A B} (p : Method A) (k : A -> Method B) (Q : result SchedError B -> Prop) :
  results p (fun x => match x with Ok a => results (k a) Q | Err e => Q (Err e) end) -> results (try p k) Q.
Proof. intros Hp. apply results_bind. eapply results_weaken; [exact Hp|]. by intros [a|e]. Qed.

Lemma results_any {A} (p : prog A) : results p (fun _ => True).
Proof. induction p; simpl; auto. Qed.

Section Cleanup.
Context `{Tzdata} `{Messages} (fuel : nat) (leaseTTL : Z).
Implicit Types (r : ScheduleView) (run : RunView).

(** A run that still counts: not completed and not stale. *)
Definition live r now run : bool :=
  negb (is_set (run r_CompletedAt)) && bool_decide (stale_reason leaseTTL r run now = None).

Lemma failed_is_completed run reason now : now <> 0 -> is_set (failedRunCopy run reason now r_CompletedAt) = true.
Proof.
  intros Hnow. unfold failedRunCopy, when, is_set. apply bool_decide_eq_true.
  exists now. apply set_time_Some. split; [|done]. by destruct (negb _).
Qed.

(** After the stale runs of a schedule were cleaned up, whatever the store
    answers meanwhile, an active run is left exactly when there was one that was
    neither completed nor stale. *)
Lemma cleanup_keeps_live r runs now :
  now <> 0 ->
  results (cleanupStaleRuns fuel leaseTTL r runs now) (fun x =>
    forall runs', x = Ok runs' -> hasActiveRun runs' = existsb (live r now) runs).
Proof.
  intros Hnow. induction runs as [|run runs IH]; cbn [cleanupStaleRuns existsb]; [by intros runs' [= <-]|].
  unfold live at 1. destruct (stale_reason leaseTTL r run now) as [reason|] eqn:Es.
  - apply results_try. eapply results_weaken; [apply results_any|]. intros [u|e] _; [|done].
    apply results_try. eapply results_weaken; [exact IH|]. intros [result|e] Hr; [|done].
    intros runs' [= <-]. unfold hasActiveRun in *. cbn [existsb].
    rewrite failed_is_completed by done. rewrite bool_decide_eq_false_2 by done.
    rewrite andb_false_r. cbn [negb orb]. by apply Hr.
  - apply results_try. eapply results_weaken; [exact IH|]. intros [result|e] Hr; [|done].
    intros runs' [= <-]. unfold hasActiveRun in *. cbn [existsb].
    rewrite bool_decide_eq_true_2 by done. rewrite andb_true_r. by rewrite (Hr _ eq_refl).
Qed.
End Cleanup.

Lemma cleanup_keeps_live_witness :
  let run := apply_mutation (put r_Id "run-1"%string (put r_Status "running"%string
               (put r_CreatedAt Demo.start no_columns))) Demo.zero_run in
  results (cleanupStaleRuns 100 Minute Demo.hourly [run] (Demo.start + Hour)) (fun x =>
    forall runs', x = Ok runs' ->
      hasActiveRun runs' = existsb (live Minute Demo.hourly (Demo.start + Hour)) [run]).
Proof. intros run. apply cleanup_keeps_live. vm_compute. discriminate. Defined.

(** ** On-demand runs *)
Section RunNow.
Context `{Defaults} `{Agent} `{UUIDs} `{Tzdata} (fuel : nat) (ctxUser : string).
Implicit Types r : ScheduleView.

Lemma exec_bind {A B} (p : prog A) (f : A -> prog B) w :
  exec (x ← p; f x) w = match exec p w with Some (a, w') => exec (f a) w' | None => None end.
Proof.
  unfold mbind, prog_bind. revert w. induction p as [a|R c k IH|]; intros w; simpl; [done| |done].
  destruct (perform c w) as [r w']. apply IH.
Qed.

(** A program that leaves the reservations alone. *)
Definition reserves {R} (c : call R) : bool := match c with CReserved _ => true | _ => false end.
Fixpoint unreserving {A} (p : prog A) : Prop :=
  match p with Call c k => reserves c = false /\ forall x, unreserving (k x) | _ => True end.

Lemma perform_reserved {R} (c : call R) w : reserves c = false -> reserved (perform c w).2 = reserved w.
Proof.
  destruct c; try done; intros _; cbn [perform]; unfold granted, on_db; cbn [snd];
    repeat match goal with |- context [let '(_, _) := ?x in _] => destruct x end; done.
Qed.

Lemma exec_reserved {A} (p : prog A) w a w' : unreserving p -> exec p w = Some (a, w') -> reserved w' = reserved w.
Proof.
  revert w. induction p as [b|R c k IH|]; intros w Hp; simpl in *; [by intros [= <- <-]| |done].
  destruct Hp as [Hc Hk]. destruct (perform c w) as [x w1] eqn:E. intros Hex.
  rewrite (IH x w1 (Hk x) Hex). by rewrite <- (perform_reserved c w Hc), E.
Qed.

Lemma enqueue_unreserving r t : unreserving (enqueueAndLaunch fuel ctxUser r t false).
Proof.
  unfold enqueueAndLaunch. simpl. split; [done|]. intros runID. split; [done|]. intros now. split; [done|].
  intros [u|e]; simpl; [|done]. split; [done|]. by intros [u'|e'].
Qed.

Lemma runNow_reserves r w u w1 :
  exec (runNowOnDemand fuel ctxUser r) w = Some (Ok u, w1) -> reserved w1 !! r s_Id = Some (clock w).
Proof.
  unfold runNowOnDemand. rewrite exec_bind. cbn [ask exec perform]. unfold try. rewrite exec_bind.
  destruct (exec (enforceRunNowRateLimit r (clock w)) w) as [[[u0|e] w0]|]; [|done..].
  rewrite exec_bind. cbn [ask exec perform]. unfold reserveRunNow at 1. cbn iota.
  rewrite exec_bind.
  destruct (exec (enqueueAndLaunch fuel ctxUser r (clock w) false) _) as [[x w2]|] eqn:Eq; [|done].
  apply exec_reserved in Eq; [|apply enqueue_unreserving]. cbn [reserved] in Eq.
  destruct x as [u2|e]; [|rewrite exec_bind; cbn [ask exec perform]; unfold clearRunNowReservation; discriminate].
  intros [= _ <-]. rewrite Eq. by rewrite lookup_insert_eq.
Qed.

(** After an on-demand run was started, another one of the same schedule is
    refused for a minute, and nothing is stored or started, whatever happened to
    the store meanwhile. *)
Lemma runNow_limited r w u w1 w2 :
  exec (runNowOnDemand fuel ctxUser r) w = Some (Ok u, w1) ->
  reserved w2 = reserved w1 -> clock w <> 0 -> clock w <= clock w2 <= clock w + runNowRateLimitWindow ->
  exists w3, exec (runNowOnDemand fuel ctxUser r) w2 = Some (Err ErrRunNowRateLimited, w3)
    /\ db w3 = db w2 /\ launched w3 = launched w2.
Proof.
  intros Hrun Hres Hz Hclock. apply runNow_reserves in Hrun. rewrite <- Hres in Hrun.
  unfold runNowOnDemand. rewrite exec_bind. cbn [ask exec perform]. unfold try at 1. rewrite exec_bind.
  unfold enforceRunNowRateLimit. rewrite exec_bind. cbn [ask exec perform].
  unfold hasRecentRunNowReservation at 1. set (m := filter _ _).
  assert (Hm : m !! r s_Id = Some (clock w)).
  { unfold m. apply map_lookup_filter_Some. split; [exact Hrun|]. cbn [snd].
    unfold time_is_zero, time_before. apply negb_true_iff, orb_false_iff.
    split; [by apply Z.eqb_neq|apply Z.ltb_ge; lia]. }
  match goal with |- context [match ?x with Some _ => negb _ | None => false end] =>
    replace x with (Some (clock w)) by (symmetry; exact Hm) end.
  unfold time_before. rewrite (proj2 (Z.ltb_ge _ _)) by lia. cbn [negb].
  eexists. split; [reflexivity|]. done.
Qed.
End RunNow.

Lemma demo_runNow :
  option_map fst (exec (runNowOnDemand 100 "" Demo.hourly) (Demo.world [Demo.hourly] Demo.start)) = Some (Ok tt).
Proof. vm_compute. reflexivity. Qed.

Lemma option_fst_inv {A B} (x : option (A * B)) a : option_map fst x = Some a -> exists b, x = Some (a, b).
Proof. destruct x as [[a' b]|]; [|discriminate]. intros [= ->]. by exists b. Qed.

Lemma runNow_limited_witness :
  exists w1, exec (runNowOnDemand 100 "" Demo.hourly) (Demo.world [Demo.hourly] Demo.start) = Some (Ok tt, w1)
    /\ let w2 := mkWorld (db w1) (Demo.start + Minute) "" (issued w1) (launched w1) (reserved w1) in
       exists w3, exec (runNowOnDemand 100 "" Demo.hourly) w2 = Some (Err ErrRunNowRateLimited, w3)
         /\ db w3 = db w2 /\ launched w3 = launched w2.
Proof.
  destruct (option_fst_inv _ _ demo_runNow) as [w1 E]. exists w1. split; [exact E|]. intros w2.
  eapply (runNow_limited 100 "" Demo.hourly _ tt w1 w2); [exact E|reflexivity| |].
  - vm_compute. discriminate.
  - split; vm_compute; discriminate.
Defined.

(** ** Goal wakeups and edits *)
Section Columns.
Implicit Types (m : Schedule) (c : schedule_column).

Lemma put_ne c c' v m : c <> c' -> put c v m c' = m c'.
Proof. intros Hne. unfold put. by destruct (decide (c = c')). Qed.
Lemma when_ne c c' b v m : c <> c' -> when b (put c v) m c' = m c'.
Proof. intros Hne. unfold when. destruct b; [by apply put_ne|done]. Qed.
Lemma put_text_ne c c' f s m : c <> c' -> put_text c f s m c' = m c'.
Proof. apply when_ne. Qed.
Lemma put_option_ne c c' f s m : c <> c' -> put_option c f s m c' = m c'.
Proof. intros Hne. destruct s; [by apply when_ne|done]. Qed.
Lemma put_clearable_ne u c c' f s m : c <> c' -> put_clearable u c f s m c' = m c'.
Proof. intros Hne. destruct s; [by apply when_ne|done]. Qed.
Lemma put_time_ne c c' f t m : c <> c' -> put_time c f t m c' = m c'.
Proof. apply when_ne. Qed.
End Columns.

(** Skipping the assignments of other columns. *)
Ltac skip_columns :=
  repeat first
    [ rewrite put_ne by discriminate | rewrite when_ne by discriminate | rewrite put_text_ne by discriminate
    | rewrite put_option_ne by discriminate | rewrite put_clearable_ne by discriminate
    | rewrite put_time_ne by discriminate ].

Section Edits.
Context `{Defaults} `{Tzdata} (fuel : nat).
Implicit Types r : ScheduleView.

(** The row that a patch leaves under a proper identifier. *)
Lemma PatchSchedule_row now subject fresh (m : Schedule) d (id : string) :
  m s_Id = Some id -> proper_id id ->
  schedules (PatchSchedule now subject fresh m d) !! id =
  Some (apply_mutation
          (init_schedule now (TrimSpace subject) (schedules d !! id)
             (when (bool_decide (m s_Internal = None)) (put s_Internal false) m))
          (default schedule_defaults (schedules d !! id))).
Proof.
  intros Hid [Ht Hne]. unfold PatchSchedule. rewrite when_ne, Hid by discriminate.
  change (str_value (Some id)) with id.
  assert (Hb : is_blank id = false) by (unfold is_blank; rewrite Ht; by apply bool_decide_eq_false_2).
  rewrite Hb, andb_false_r. cbn [with_schedules schedules]. unfold upsert. apply lookup_insert_eq.
Qed.

(** The writer only touches these columns on its own. *)
Lemma init_schedule_other now u prev (m : Schedule) c :
  c <> s_CreatedByUserId -> c <> s_Visibility -> c <> s_Timezone -> c <> s_ScheduleType ->
  c <> s_CreatedAt -> c <> s_NextRunAt -> c <> s_UpdatedAt -> init_schedule now u prev m c = m c.
Proof.
  intros. unfold init_schedule, clearNextRunAtOnScheduleChange.
  destruct prev; repeat (rewrite when_ne by done).
  - case_match; [by rewrite put_ne|done].
  - repeat case_match; rewrite ?put_ne by done; by rewrite when_ne by done.
Qed.

(** Patching a schedule without setting whether it is internal makes it a
    schedule of users, whatever it was: a goal wakeup becomes visible as soon as
    its result is stored or it is canceled. *)
Lemma patch_resets_internal now subject fresh (m : Schedule) (d : DB) (id : string) :
  m s_Internal = None -> m s_Id = Some id -> proper_id id ->
  exists r, schedules (PatchSchedule now subject fresh m d) !! id = Some r /\ r s_Internal = false.
Proof.
  intros Hint Hid Hp. rewrite (PatchSchedule_row _ _ _ _ _ _ Hid Hp). eexists. split; [done|].
  unfold apply_mutation. rewrite init_schedule_other by discriminate. by rewrite Hint.
Qed.

(** Scheduling a wakeup of a goal whose earlier wakeup was canceled, which
    [ScheduleGoalWakeup] itself does with a pending one, enables the row but
    drops its next run time: the wakeup never becomes due. *)
Lemma rescheduled_wakeup_lost req now subject fresh (d : DB) (id : string) r :
  id = ("goal-wakeup-" +:+ TrimSpace (w_GoalID req))%string -> proper_id id ->
  schedules d !! id = Some r -> r s_Enabled = false -> r s_IntervalSeconds = None ->
  exists r', schedules (PatchSchedule now subject fresh (toMutableSchedule (wakeup_row req) false now) d) !! id = Some r'
    /\ r' s_Enabled = true /\ r' s_NextRunAt = None
    /\ forall t, exists at_, isDue fuel r' t = ok (false, at_).
Proof.
  intros Eid Hp Hr Hen Hint. set (m := toMutableSchedule (wakeup_row req) false now).
  assert (Mid : m s_Id = Some id).
  { unfold m, toMutableSchedule. cbv zeta. change (wakeup_row req s_IntervalSeconds) with (@None Z). cbn iota.
    skip_columns. destruct (wakeup_row req s_Description); skip_columns;
      unfold put_text, when; change (wakeup_row req s_Id) with ("goal-wakeup-" +:+ TrimSpace (w_GoalID req))%string;
      rewrite <- Eid; unfold is_blank; rewrite (proj1 Hp), bool_decide_eq_false_2 by apply Hp; done. }
  assert (Mcols : m s_Enabled = Some true /\ m s_ScheduleType = Some "adhoc"%string
                  /\ m s_IntervalSeconds = None).
  { unfold m, toMutableSchedule. cbv zeta. change (wakeup_row req s_IntervalSeconds) with (@None Z). cbn iota.
    split; [skip_columns; done|]. split; [skip_columns; done|].
    skip_columns. by destruct (wakeup_row req s_Description); skip_columns. }
  destruct Mcols as (Men & Mty & Mint). clearbody m.
  rewrite (PatchSchedule_row _ _ _ _ _ _ Mid Hp), Hr. set (m' := when _ _ m).
  assert (Hm' : forall c, c <> s_Internal -> m' c = m c).
  { intros c Hc. unfold m'. by apply when_ne. }
  clearbody m'.
  assert (Hchg : schedule_changed m' r = true).
  { unfold schedule_changed. rewrite (Hm' s_Enabled), Men, Hen by discriminate. cbn. apply orb_true_r. }
  eexists. split; [done|]. set (r' := apply_mutation _ _).
  assert (Ren : r' s_Enabled = true).
  { unfold r', apply_mutation. rewrite init_schedule_other, Hm', Men by discriminate. done. }
  assert (Rint : r' s_IntervalSeconds = None).
  { unfold r', apply_mutation. rewrite init_schedule_other, Hm', Mint by discriminate. exact Hint. }
  assert (Rnext : r' s_NextRunAt = None).
  { unfold r', apply_mutation, init_schedule, clearNextRunAtOnScheduleChange. rewrite Hchg, !when_ne by discriminate.
    done. }
  assert (Rty : r' s_ScheduleType = "adhoc"%string).
  { unfold r', apply_mutation, init_schedule, clearNextRunAtOnScheduleChange.
    rewrite Hchg, !when_ne, put_ne, Hm', Mty by discriminate. done. }
  clearbody r'. split; [done|]. split; [done|]. intros t.
  assert (Hcron : is_cron r' = false) by (unfold is_cron; rewrite Rty; reflexivity).
  exists t. unfold isDue. rewrite Hcron, Rnext, Rint. by repeat case_match.
Qed.
End Edits.

Lemma rescheduled_wakeup_lost_witness :
  let req := mkWakeup "conv-1" "goal-1" "user" "agent" "" Demo.start "preview" "payload" in
  let r := apply_mutation (put s_Id "goal-wakeup-goal-1"%string (put s_Internal true no_columns)) Demo.zero_schedule in
  exists r' : ScheduleView,
    schedules (PatchSchedule Demo.start "user" "fresh" (toMutableSchedule (wakeup_row req) false Demo.start)
                 (db (Demo.world [r] Demo.start))) !! "goal-wakeup-goal-1"%string = Some r'
    /\ r' s_Enabled = true /\ r' s_NextRunAt = None
    /\ forall t, exists at_, isDue 100 r' t = ok (false, at_).
Proof.
  intros req r. eapply (rescheduled_wakeup_lost 100 req Demo.start "user" "fresh" _ _ r);
    [vm_compute; reflexivity|split; [vm_compute; reflexivity|discriminate]|apply lookup_insert_eq|reflexivity..].
Defined.

Lemma patch_resets_internal_witness :
  let r := apply_mutation (put s_Id "goal-wakeup-goal-1"%string (put s_Internal true no_columns)) Demo.zero_schedule in
  exists r' : ScheduleView,
    schedules (PatchSchedule Demo.start "user" "fresh" (schedule_result r "succeeded" "" (Some Demo.start))
                 (db (Demo.world [r] Demo.start))) !! "goal-wakeup-goal-1"%string = Some r'
    /\ r' s_Internal = false.
Proof.
  intros r. eapply patch_resets_internal; [reflexivity|reflexivity|split; [vm_compute; reflexivity|discriminate]].
Defined.

(** A private schedule of alice, and bob's edit of it. *)
Definition alice_schedule : ScheduleView := apply_mutation
  (put s_Id "nightly"%string (put s_Visibility "private"%string
    (put s_CreatedByUserId (Some "alice"%string) (put s_TaskPrompt (Some "report"%string) no_columns))))
  Demo.zero_schedule.
Definition bob_edit : ScheduleView := apply_mutation
  (put s_Id "nightly"%string (put s_TaskPrompt (Some "leak the data"%string) no_columns)) Demo.zero_schedule.
Definition bob_world : World :=
  mkWorld (db (Demo.world [alice_schedule] Demo.start)) Demo.start "bob" 0 [] ∅.

(** A user who knows the identifier of a private schedule of somebody else
    cannot read or delete it, but can overwrite it: the owner check of an edit
    takes the hidden row for a new one. *)
Lemma Upsert_overwrites_hidden :
  option_map fst (exec (Get "nightly") bob_world) = Some (Ok None)
  /\ option_map fst (exec (Delete "nightly") bob_world) = Some (Err PermissionDenied)
  /\ option_map (fun x => (fst x, option_map (fun r : ScheduleView => (r s_CreatedByUserId, r s_TaskPrompt))
                                    (schedules (db (snd x)) !! "nightly"%string)))
       (exec (Upsert bob_edit) bob_world)
     = Some (Ok tt, Some (Some "alice"%string, Some "leak the data"%string)).
Proof. split; [|split]; vm_compute; reflexivity. Qed.
