(* ===== verification/CanonicalNumber.v ===== *)
(** * Canonical JSON numbers

    The number half of src/internal/tool/executionprotection/canonical.go:
    [normalizeJSONNumber] and [parseBoundedExponent], written on bytes as the
    code writes them; a reading of the JSON number grammar that shares nothing
    with the code ([number_value]); and the theorem that the normal form is the
    printed form of that reading, so that two numbers have the same normal form
    exactly when they are numerically equal. *)
From stdpp Require Import base strings list numbers pretty.
From Stdlib Require Import ZArith QArith Qpower Lia Ascii.
From S2P Require Import Prelude GoStrings Digest GoJson.

Open Scope Z_scope.

Inductive CanonicalError :=
| EmptyNumber
| InvalidNumber
| InvalidLeadingZero
| TooManyDigits
| ExponentExceeds
| InvalidExponent
| InvalidUTF8String
| InvalidUTF8Key
| NonFiniteFloat
| KeyNotString (keyType : string)
| CyclicObject
| CyclicArray
| UnsupportedType (typ : string).

#[export] Instance CanonicalError_dec : EqDecision CanonicalError.
Proof. solve_decision. Defined.

(** ** The code *)
Definition maxSignificantDigits : Z := 1024.
Definition maxAbsoluteExponent : Z := 1000000.

Definition digitsOnly (value : list ascii) : bool := forallb is_digit value.

(** The loop that accumulates the exponent and stops at the bound. *)
Fixpoint exponent_loop (value : Z) (raw : list ascii) : result CanonicalError Z :=
  match raw with
  | [] => Ok value
  | c :: raw =>
      let value := wrap64 (wrap64 (value * 10) + digit_val c) in
      if maxAbsoluteExponent <? value then Err ExponentExceeds else exponent_loop value raw
  end.

Definition parseBoundedExponent (raw : list ascii) : result CanonicalError Z :=
  match raw with
  | [] => Err InvalidExponent
  | c :: r =>
      let '(sign, raw) :=
        if bool_decide (c = "+"%char) || bool_decide (c = "-"%char)
        then (if bool_decide (c = "-"%char) then -1 else 1, r) else (1, raw) in
      if bool_decide (raw = []) || negb (digitsOnly raw) then Err InvalidExponent
      else value ← exponent_loop 0 raw; Ok (sign * value)
  end.

(** [strings.IndexAny] / [strings.IndexByte]: the bytes before and after the
    first byte of the class, when there is one. *)
Fixpoint split_first (p : ascii -> bool) (l : list ascii) : option (list ascii * list ascii) :=
  match l with
  | [] => None
  | c :: r => if p c then Some ([], r) else (fun ba => (c :: ba.1, ba.2)) <$> split_first p r
  end.
Definition is_exp (c : ascii) : bool := bool_decide (c = "e"%char) || bool_decide (c = "E"%char).
Definition is_dot (c : ascii) : bool := bool_decide (c = "."%char).
Definition is_zero (c : ascii) : bool := bool_decide (c = "0"%char).

(** The loop that finds the first and the last non-zero digit (-1: none). *)
Fixpoint nonzero_span (i first last : Z) (digits : list ascii) : Z * Z :=
  match digits with
  | [] => (first, last)
  | c :: r =>
      if is_zero c then nonzero_span (i + 1) first last r
      else nonzero_span (i + 1) (if first <? 0 then i else first) i r
  end.

(** [strconv.FormatInt(_, 10)] *)
Definition FormatInt (z : Z) : list ascii := bytes (pretty z).

(** What [normalizeJSONNumber] writes into its builder. *)
Definition number_text (negative : bool) (significant : list ascii) (normalizedExponent : Z) : list ascii :=
  (if negative then ["-"%char] else [])
  ++ take 1 significant
  ++ (if (1 <? length significant)%nat then "."%char :: drop 1 significant else [])
  ++ (if negb (normalizedExponent =? 0) then "e"%char :: FormatInt normalizedExponent else []).

(** The second half of [normalizeJSONNumber], from [digits := integer +
    fraction] on. The sums of lengths and of the bounded exponent stay far
    below 2^63. *)
Definition normalizeDigits (negative : bool) (integer fraction : list ascii) (exponent : Z)
    : result CanonicalError (list ascii) :=
  let digits := integer ++ fraction in
  let '(first, last) := nonzero_span 0 (-1) (-1) digits in
  if first <? 0 then Ok ["0"%char] else
  let significant := take (Z.to_nat (last + 1 - first)) (drop (Z.to_nat first) digits) in
  if maxSignificantDigits <? Z.of_nat (length significant) then Err TooManyDigits else
  let normalizedExponent := exponent + (Z.of_nat (length integer) - first - 1) in
  if (maxAbsoluteExponent <? normalizedExponent) || (normalizedExponent <? - maxAbsoluteExponent)
  then Err ExponentExceeds else
  Ok (number_text negative significant normalizedExponent).

(** The exponent is split off at the first [e] or [E], the fraction at the
    first dot. *)
Definition split_mantissa (l : list ascii) : result CanonicalError (list ascii * Z) :=
  match split_first is_exp l with
  | Some (m, x) => parsed ← parseBoundedExponent x; Ok (m, parsed)
  | None => Ok (l, 0)
  end.
Definition split_fraction (m : list ascii) : result CanonicalError (list ascii * list ascii) :=
  match split_first is_dot m with
  | Some (i, f) => if bool_decide ("."%char ∈ f) || bool_decide (f = []) then Err InvalidNumber else Ok (i, f)
  | None => Ok (m, [])
  end.

Definition normalizeJSONNumber (raw : list ascii) : result CanonicalError (list ascii) :=
  if bool_decide (raw = []) then Err EmptyNumber else
  let '(negative, raw) :=
    match raw with
    | c :: r => if bool_decide (c = "-"%char) then (true, r) else (false, raw)
    | [] => (false, raw)
    end in
  if negative && bool_decide (raw = []) then Err InvalidNumber else
  '(mantissa, exponent) ← split_mantissa raw;
  '(integer, fraction) ← split_fraction mantissa;
  if bool_decide (integer = []) || negb (digitsOnly integer) || negb (digitsOnly fraction) then Err InvalidNumber else
  if (1 <? length integer)%nat && bool_decide (head integer = Some "0"%char) then Err InvalidLeadingZero else
  normalizeDigits negative integer fraction exponent.

Definition normal (s : string) : option string :=
  match normalizeJSONNumber (bytes s) with Ok l => Some (text l) | Err _ => None end.
Example normal_1 : normal "1.00" = Some "1". Proof. reflexivity. Qed.
Example normal_2 : normal "-1000" = Some "-1e3". Proof. reflexivity. Qed.
Example normal_3 : normal "0.00120E+3" = Some "1.2". Proof. reflexivity. Qed.
Example normal_4 : normal "-0.0e5" = Some "0". Proof. reflexivity. Qed.
Example normal_5 : normal "01" = None. Proof. reflexivity. Qed.
Example normal_6 : normal "1e1000001" = None. Proof. reflexivity. Qed.
Example normal_7 : normal "1." = None. Proof. reflexivity. Qed.
Example normal_8 : normal "12e-0001" = Some "1.2". Proof. reflexivity. Qed.

(** ** The reference reading of a JSON number

    [-? int frac? exp?], scanned from left to right: the sign, all the digits,
    the weight of the last digit and the written exponent. *)
Record reading := mkReading {
  rd_negative : bool;
  rd_digits : list ascii;
  rd_weight : Z;       (* of the last digit *)
  rd_exponent : Z }.   (* as written after e *)

Definition of_digits (l : list ascii) : Z := foldl (fun n c => n * 10 + digit_val c) 0 l.

Definition read_sign (l : list ascii) : bool * list ascii :=
  match l with c :: r => if bool_decide (c = "-"%char) then (true, r) else (false, l) | [] => (false, []) end.

(** The integer part: one zero, or digits that do not begin with zero. *)
Definition read_int (l : list ascii) : option (list ascii * list ascii) :=
  match take_digits l with
  | ([], _) => None
  | (c :: ds, rest) => if bool_decide (c = "0"%char /\ ds <> []) then None else Some (c :: ds, rest)
  end.

Definition read_fraction (l : list ascii) : option (list ascii * list ascii) :=
  match l with
  | c :: r => if is_dot c then match take_digits r with ([], _) => None | dr => Some dr end else Some ([], l)
  | [] => Some ([], [])
  end.

Definition read_exponent (l : list ascii) : option (Z * list ascii) :=
  match l with
  | c :: r =>
      if is_exp c then
        let '(neg, r) :=
          match r with
          | s :: r' => if bool_decide (s = "-"%char) then (true, r')
                       else if bool_decide (s = "+"%char) then (false, r') else (false, r)
          | [] => (false, r)
          end in
        match take_digits r with
        | ([], _) => None
        | (ds, rest) => Some ((if neg then - of_digits ds else of_digits ds), rest)
        end
      else Some (0, l)
  | [] => Some (0, [])
  end.

Definition number_value (raw : list ascii) : option reading :=
  let '(neg, l) := read_sign raw in
  '(i, l) ← read_int l;
  '(f, l) ← read_fraction l;
  '(x, l) ← read_exponent l;
  if bool_decide (l = []) then Some (mkReading neg (i ++ f) (x - Z.of_nat (length f)) x) else None.

(** The number a reading stands for. *)
Definition signed (neg : bool) (z : Z) : Z := if neg then - z else z.
Definition reading_Q (r : reading) : Q :=
  (inject_Z (signed (rd_negative r) (of_digits (rd_digits r))) * inject_Z 10 ^ rd_weight r)%Q.

(** ** Scientific normal form: no leading and no trailing zero, the weight of
    the first digit; no digit at all for zero. *)
Record decimal := mkDecimal { negative : bool; significant : list ascii; weight : Z }.

#[export] Instance decimal_dec : EqDecision decimal.
Proof. solve_decision. Defined.

Fixpoint drop_zeros (l : list ascii) : list ascii :=
  match l with c :: r => if is_zero c then drop_zeros r else l | [] => [] end.

Definition zero : decimal := mkDecimal false [] 0.

Definition decimal_of (r : reading) : decimal :=
  match drop_zeros (rd_digits r) with
  | [] => zero
  | ds => mkDecimal (rd_negative r) (rev (drop_zeros (rev ds))) (rd_weight r + Z.of_nat (length ds) - 1)
  end.

Definition print_decimal (d : decimal) : list ascii :=
  match significant d with
  | [] => ["0"%char]
  | _ => number_text (negative d) (significant d) (weight d)
  end.

Definition decimal_Q (d : decimal) : Q :=
  (inject_Z (signed (negative d) (of_digits (significant d)))
   * inject_Z 10 ^ (weight d + 1 - Z.of_nat (length (significant d))))%Q.

(** The numbers the encoder accepts: the bounds on the exponent as written and
    on the digits and the exponent of the normal form. *)
Definition bounded (r : reading) : Prop :=
  Z.abs (rd_exponent r) <= maxAbsoluteExponent
  /\ Z.of_nat (length (significant (decimal_of r))) <= maxSignificantDigits
  /\ Z.abs (weight (decimal_of r)) <= maxAbsoluteExponent.
#[export] Instance bounded_dec r : Decision (bounded r).
Proof. unfold bounded. apply _. Defined.

(** ** Scanning lemmas *)
Notation digits_ l := (digitsOnly l = true) (only parsing).

Lemma digitsOnly_app l1 l2 : digitsOnly (l1 ++ l2) = digitsOnly l1 && digitsOnly l2.
Proof. apply forallb_app. Qed.

Lemma digitsOnly_cons c l : digitsOnly (c :: l) = is_digit c && digitsOnly l.
Proof. done. Qed.

(** What may follow a run of digits. *)
Definition no_digit (l : list ascii) : Prop := match l with c :: _ => is_digit c = false | [] => True end.

Lemma take_digits_app ds rest : digits_ ds -> no_digit rest -> take_digits (ds ++ rest) = (ds, rest).
Proof.
  induction ds as [|c ds IH]; simpl; intros Hd Hr.
  - destruct rest as [|c rest]; [done|]. simpl in *. by rewrite Hr.
  - apply andb_prop in Hd as [-> Hd]. by rewrite IH.
Qed.

Lemma take_digits_inv l ds rest : take_digits l = (ds, rest) -> l = ds ++ rest /\ digits_ ds /\ no_digit rest.
Proof.
  revert ds rest. induction l as [|c l IH]; simpl; intros ds rest; [by intros [= <- <-]|].
  destruct (is_digit c) eqn:Ec; [|intros [= <- <-]; simpl; by rewrite Ec].
  destruct (take_digits l) as [d r]. intros [= <- <-].
  destruct (IH _ _ eq_refl) as (-> & Hd & Hr). simpl. by rewrite Ec.
Qed.

Lemma split_first_app p b c a : Forall (fun x => p x = false) b -> p c = true -> split_first p (b ++ c :: a) = Some (b, a).
Proof.
  intros Hb Hc. induction Hb as [|x b Hx _ IH]; simpl; [by rewrite Hc|]. by rewrite Hx, IH.
Qed.

Lemma split_first_None p l : split_first p l = None <-> Forall (fun x => p x = false) l.
Proof.
  induction l as [|c l IH]; simpl; [by split|]. rewrite list.Forall_cons, <- IH.
  destruct (p c); [naive_solver|]. rewrite fmap_None. naive_solver.
Qed.

Lemma split_first_Some p l b a :
  split_first p l = Some (b, a) -> exists c, l = b ++ c :: a /\ p c = true /\ Forall (fun x => p x = false) b.
Proof.
  revert b a. induction l as [|c l IH]; simpl; intros b a; [done|].
  destruct (p c) eqn:Ec; [intros [= <- <-]; by exists c|].
  destruct (split_first p l) as [[b' a']|]; [|done]. intros [= <- <-].
  destruct (IH _ _ eq_refl) as (c' & -> & Hc' & Hb). exists c'. split; [done|]. split; [done|]. by constructor.
Qed.

Lemma digit_no_exp c : is_digit c = true -> is_exp c = false.
Proof.
  unfold is_exp. intros Hd. apply orb_false_intro; apply bool_decide_eq_false_2; intros ->; done.
Qed.
Lemma digit_no_dot c : is_digit c = true -> is_dot c = false.
Proof. intros Hd. apply bool_decide_eq_false_2. intros ->. done. Qed.
Lemma exp_no_digit c : is_exp c = true -> is_digit c = false.
Proof. destruct (is_digit c) eqn:E; [|done]. by rewrite digit_no_exp. Qed.
Lemma dot_no_exp c : is_dot c = true -> is_exp c = false.
Proof. unfold is_dot. rewrite bool_decide_eq_true. by intros ->. Qed.

Lemma Forall_digits (p : ascii -> bool) l : (forall c, is_digit c = true -> p c = false) -> digits_ l -> Forall (fun c => p c = false) l.
Proof.
  intros Hp. induction l as [|c l IH]; [done|]. rewrite digitsOnly_cons. intros [Hc Hl]%andb_prop.
  constructor; [by apply Hp|by apply IH].
Qed.

(** ** The exponent *)
Lemma of_digits_app l c : of_digits (l ++ [c]) = of_digits l * 10 + digit_val c.
Proof. unfold of_digits. by rewrite foldl_app. Qed.

Lemma digit_val_range c : is_digit c = true -> 0 <= digit_val c <= 9.
Proof.
  unfold is_digit, digit_val. intros [H1%Nat.leb_le H2%Nat.leb_le]%andb_prop. lia.
Qed.

Lemma foldl_digits_mono l n : digits_ l -> 0 <= n -> n <= foldl (fun n c => n * 10 + digit_val c) n l.
Proof.
  revert n. induction l as [|c l IH]; simpl; intros n Hl Hn; [lia|].
  apply andb_prop in Hl as [Hc Hl]. pose proof (digit_val_range c Hc).
  specialize (IH (n * 10 + digit_val c) Hl). lia.
Qed.

Lemma exponent_loop_spec l n :
  digits_ l -> 0 <= n <= maxAbsoluteExponent ->
  let v := foldl (fun n c => n * 10 + digit_val c) n l in
  exponent_loop n l = if maxAbsoluteExponent <? v then Err ExponentExceeds else Ok v.
Proof.
  revert n. induction l as [|c l IH]; simpl; intros n Hl Hn.
  - destruct (Z.ltb_spec maxAbsoluteExponent n); [lia|done].
  - apply andb_prop in Hl as [Hc Hl]. pose proof (digit_val_range c Hc). unfold maxAbsoluteExponent in Hn.
    rewrite !wrap64_id by (rewrite ?wrap64_id; unfold in_int64, min_int64, max_int64; lia).
    destruct (Z.ltb_spec maxAbsoluteExponent (n * 10 + digit_val c)) as [Hlt|Hge].
    + pose proof (foldl_digits_mono l (n * 10 + digit_val c) Hl).
      destruct (Z.ltb_spec maxAbsoluteExponent (foldl (fun n c => n * 10 + digit_val c) (n * 10 + digit_val c) l)); [done|].
      unfold maxAbsoluteExponent in *. lia.
    + apply IH; [done|]. unfold maxAbsoluteExponent in *. lia.
Qed.

(** A written exponent: an optional sign and digits. *)
Definition exponent_text (sg : list ascii) (ds : list ascii) (x : Z) : Prop :=
  ds <> [] /\ digits_ ds
  /\ ((sg = [] \/ sg = ["+"%char]) /\ x = of_digits ds \/ sg = ["-"%char] /\ x = - of_digits ds).

Lemma of_digits_nonneg l : digits_ l -> 0 <= of_digits l.
Proof. intros Hl. by apply foldl_digits_mono. Qed.

Lemma digits_head_not_sign c l : digits_ (c :: l) -> c <> "+"%char /\ c <> "-"%char.
Proof. rewrite digitsOnly_cons. intros [Hc _]%andb_prop. split; intros ->; done. Qed.

Lemma parseBoundedExponent_text sg ds x :
  exponent_text sg ds x ->
  parseBoundedExponent (sg ++ ds) = if maxAbsoluteExponent <? Z.abs x then Err ExponentExceeds else Ok x.
Proof.
  intros (Hne & Hd & Hcase). pose proof (of_digits_nonneg ds Hd) as Hpos.
  pose proof (exponent_loop_spec ds 0 Hd) as Hloop. cbv zeta in Hloop.
  change (foldl _ 0 ds) with (of_digits ds) in Hloop.
  assert (Hl : exponent_loop 0 ds = if maxAbsoluteExponent <? Z.abs x then Err ExponentExceeds else Ok (of_digits ds)).
  { replace (Z.abs x) with (of_digits ds) by (destruct Hcase as [[_ ->]|[_ ->]]; lia). by apply Hloop. }
  clear Hloop.
  destruct Hcase as [[[-> | ->] Hx]|[-> Hx]]; simpl.
  - destruct ds as [|c ds]; [done|]. destruct (digits_head_not_sign c ds Hd) as [H1 H2].
    unfold parseBoundedExponent.
    rewrite (bool_decide_eq_false_2 (c = _)), (bool_decide_eq_false_2 (c = _)) by done. cbn [orb].
    rewrite (bool_decide_eq_false_2 (_ = [])), Hd, Hl by done. cbn [orb negb].
    destruct (_ <? _); [done|]. unfold mbind, result_bind. f_equal. lia.
  - rewrite bool_decide_eq_false_2, Hd, Hl by done. cbn [orb negb].
    destruct (_ <? _); [done|]. unfold mbind, result_bind. f_equal. lia.
  - rewrite bool_decide_eq_false_2, Hd, Hl by done. cbn [orb negb].
    destruct (_ <? _); [done|]. unfold mbind, result_bind. f_equal. lia.
Qed.

Lemma parseBoundedExponent_inv raw x :
  parseBoundedExponent raw = Ok x -> exists sg ds, raw = sg ++ ds /\ exponent_text sg ds x.
Proof.
  intros Hp.
  assert (exists sg ds x', raw = sg ++ ds /\ exponent_text sg ds x') as (sg & ds & x' & -> & Ht).
  { destruct raw as [|c r]; [done|]. unfold parseBoundedExponent in Hp.
    destruct (decide (c = "+"%char)) as [->|H1]; [|destruct (decide (c = "-"%char)) as [->|H2]].
    - change (bool_decide ("+"%char = "+"%char)) with true in Hp.
      change (bool_decide ("+"%char = "-"%char)) with false in Hp. cbn [orb] in Hp.
      case_bool_decide as Er; [done|]. destruct (digitsOnly r) eqn:Ed; [|done].
      exists ["+"%char], r, (of_digits r). split; [done|]. split; [done|]. auto.
    - change (bool_decide ("-"%char = "-"%char)) with true in Hp. rewrite orb_true_r in Hp.
      case_bool_decide as Er; [done|]. destruct (digitsOnly r) eqn:Ed; [|done].
      exists ["-"%char], r, (- of_digits r). split; [done|]. split; [done|]. auto.
    - rewrite !(bool_decide_eq_false_2 (c = _)) in Hp by done. cbn [orb] in Hp.
      destruct (digitsOnly (c :: r)) eqn:Ed; [|done].
      exists [], (c :: r), (of_digits (c :: r)). split; [done|]. split; [done|]. auto. }
  exists sg, ds. split; [done|]. rewrite (parseBoundedExponent_text _ _ _ Ht) in Hp. by destruct (_ <? _); simplify_eq.
Qed.

(** ** The grammar, as concatenated parts *)
Definition int_text (i : list ascii) : Prop := i <> [] /\ digits_ i /\ ~ ((1 < length i)%nat /\ head i = Some "0"%char).
Definition fraction_text (fr f : list ascii) : Prop :=
  (fr = [] /\ f = []) \/ (fr = "."%char :: f /\ f <> [] /\ digits_ f).
Definition exp_text (ex : list ascii) (x : Z) : Prop :=
  (ex = [] /\ x = 0) \/ exists e sg ds, ex = e :: sg ++ ds /\ is_exp e = true /\ exponent_text sg ds x.

Definition sign_text (neg : bool) : list ascii := if neg then ["-"%char] else [].

Definition number_parts (raw : list ascii) (neg : bool) (i f : list ascii) (x : Z) : Prop :=
  exists fr ex, raw = sign_text neg ++ i ++ fr ++ ex /\ int_text i /\ fraction_text fr f /\ exp_text ex x.

Lemma fraction_no_digit fr f rest : fraction_text fr f -> no_digit rest -> no_digit (fr ++ rest).
Proof. intros [[-> _]|(-> & _)] Hr; done. Qed.
Lemma exp_text_no_digit ex x : exp_text ex x -> no_digit ex.
Proof. intros [[-> _]|(e & sg & ds & -> & He & _)]; [done|]. simpl. by apply exp_no_digit. Qed.

Lemma int_text_cons i : int_text i -> exists c r, i = c :: r /\ is_digit c = true /\ c <> "-"%char.
Proof.
  intros (Hne & Hd & _). destruct i as [|c r]; [done|]. exists c, r. split; [done|].
  split; [by apply andb_prop in Hd as [? _]|]. by apply (digits_head_not_sign c r).
Qed.

Lemma read_sign_text neg i rest : int_text i -> read_sign (sign_text neg ++ i ++ rest) = (neg, i ++ rest).
Proof.
  intros Hi. destruct (int_text_cons i Hi) as (c & r & -> & _ & Hc).
  destruct neg; simpl; [done|]. by rewrite bool_decide_eq_false_2.
Qed.

Lemma read_int_text i rest : int_text i -> no_digit rest -> read_int (i ++ rest) = Some (i, rest).
Proof.
  intros (Hne & Hd & Hz) Hr. unfold read_int. rewrite take_digits_app by done.
  destruct i as [|c r]; [done|]. rewrite bool_decide_eq_false_2; [done|].
  intros [-> Hr']. apply Hz. split; [|done]. destruct r; [done|]. simpl. lia.
Qed.

Lemma read_fraction_text fr f ex x :
  fraction_text fr f -> exp_text ex x -> read_fraction (fr ++ ex) = Some (f, ex).
Proof.
  intros Hf Hx. pose proof (exp_text_no_digit ex x Hx) as Hn. destruct Hf as [[-> ->]|(-> & Hne & Hd)].
  - destruct Hx as [[-> _]|(e & sg & ds & -> & He & _)]; [done|]. simpl.
    assert (is_dot e = false) as -> by (destruct (is_dot e) eqn:E; [by rewrite dot_no_exp in He|done]). done.
  - simpl. rewrite take_digits_app by done. by destruct f.
Qed.

Lemma take_all_digits ds : digits_ ds -> take_digits ds = (ds, []).
Proof. intros Hd. rewrite <- (app_nil_r ds) at 1. by apply take_digits_app. Qed.

Lemma read_exponent_text ex x : exp_text ex x -> read_exponent ex = Some (x, []).
Proof.
  intros [[-> ->]|(e & sg & ds & -> & He & Hne & Hd & Hcase)]; [done|]. cbn [read_exponent]. rewrite He.
  destruct Hcase as [[[-> | ->] ->]|[-> ->]]; simpl.
  - destruct ds as [|c ds]; [done|]. destruct (digits_head_not_sign c ds Hd) as [H1 H2].
    rewrite !bool_decide_eq_false_2 by done. by rewrite take_all_digits.
  - rewrite take_all_digits by done. by destruct ds.
  - rewrite take_all_digits by done. by destruct ds.
Qed.

Lemma number_value_parts_1 raw neg i f x :
  number_parts raw neg i f x -> number_value raw = Some (mkReading neg (i ++ f) (x - Z.of_nat (length f)) x).
Proof.
  intros (fr & ex & -> & Hi & Hf & Hx). unfold number_value. rewrite read_sign_text by done.
  rewrite read_int_text; [|done|].
  - cbn [mbind option_bind]. erewrite read_fraction_text by done. cbn [mbind option_bind].
    by erewrite read_exponent_text by done.
  - eapply fraction_no_digit; [done|]. by eapply exp_text_no_digit.
Qed.

Lemma read_int_inv l i rest : read_int l = Some (i, rest) -> l = i ++ rest /\ int_text i.
Proof.
  unfold read_int. destruct (take_digits l) as [[|c ds] r] eqn:E; [done|]. case_bool_decide as Hz; [done|].
  intros [= <- <-]. apply take_digits_inv in E as (-> & Hd & _). split; [done|]. split; [done|]. split; [done|].
  intros [Hl [= ->]]. apply Hz. split; [done|]. intros ->. simpl in Hl. lia.
Qed.

Lemma read_fraction_inv l f rest : read_fraction l = Some (f, rest) -> exists fr, l = fr ++ rest /\ fraction_text fr f.
Proof.
  destruct l as [|c r]; simpl; [intros [= <- <-]; exists []; by split; [|left]|].
  destruct (is_dot c) eqn:Ec; [|intros [= <- <-]; exists []; by split; [|left]].
  apply bool_decide_eq_true in Ec as ->.
  destruct (take_digits r) as [[|d ds] r'] eqn:E; [done|]. intros [= <- <-].
  apply take_digits_inv in E as (-> & Hd & _). exists ("."%char :: d :: ds). split; [done|]. by right.
Qed.

Lemma read_exponent_inv l x : read_exponent l = Some (x, []) -> exp_text l x.
Proof.
  destruct l as [|c r]; simpl; [intros [= <-]; by left|].
  destruct (is_exp c) eqn:Ec; [|done]. intros Hr. right.
  assert (forall ds rest, take_digits r = (ds, rest) -> r = ds ++ rest /\ digits_ ds) as Hinv.
  { intros ds rest E. by apply take_digits_inv in E as (? & ? & _). }
  destruct r as [|s r']; [done|].
  destruct (decide (s = "-"%char)) as [->|H1]; [|destruct (decide (s = "+"%char)) as [->|H2]].
  - simpl in Hr. destruct (take_digits r') as [[|d ds] rest] eqn:E; [done|]. injection Hr as <- ->.
    apply take_digits_inv in E as (-> & Hd & _). rewrite app_nil_r.
    exists c, ["-"%char], (d :: ds). split; [done|]. split; [done|]. split; [done|]. auto.
  - simpl in Hr. destruct (take_digits r') as [[|d ds] rest] eqn:E; [done|]. injection Hr as <- ->.
    apply take_digits_inv in E as (-> & Hd & _). rewrite app_nil_r.
    exists c, ["+"%char], (d :: ds). split; [done|]. split; [done|]. split; [done|]. auto.
  - rewrite !bool_decide_eq_false_2 in Hr by done.
    destruct (take_digits (s :: r')) as [[|d ds] rest] eqn:E; [done|]. injection Hr as <- ->.
    apply take_digits_inv in E as (E & Hd & _). rewrite E, app_nil_r.
    exists c, [], (d :: ds). split; [done|]. split; [done|]. split; [done|]. auto.
Qed.

Lemma number_value_parts raw r :
  number_value raw = Some r <->
  exists neg i f x, number_parts raw neg i f x /\ r = mkReading neg (i ++ f) (x - Z.of_nat (length f)) x.
Proof.
  split; [|intros (neg & i & f & x & Hp & ->); by apply number_value_parts_1].
  unfold number_value. intros Hv.
  destruct (read_sign raw) as [neg l] eqn:Es.
  assert (raw = sign_text neg ++ l) as ->.
  { unfold read_sign in Es. destruct raw as [|c rr]; [by injection Es as <- <-|].
    case_bool_decide as Hc; injection Es as <- <-; [by rewrite Hc|done]. }
  destruct (read_int l) as [[i l1]|] eqn:Ei; [|done]. apply read_int_inv in Ei as [-> Hi].
  cbn [mbind option_bind] in Hv.
  destruct (read_fraction l1) as [[f l2]|] eqn:Ef; [|done]. apply read_fraction_inv in Ef as (fr & -> & Hf).
  cbn [mbind option_bind] in Hv.
  destruct (read_exponent l2) as [[x l3]|] eqn:Ex; [|done]. cbn [mbind option_bind] in Hv.
  case_bool_decide as Hl; [|done]. subst l3. injection Hv as <-. apply read_exponent_inv in Ex.
  exists neg, i, f, x. split; [|done]. by exists fr, l2.
Qed.

(** ** The significant digits *)
Notation zeros l := (Forall (fun c => is_zero c = true) l).

Definition core (l : list ascii) : Prop :=
  (exists c r, l = c :: r /\ is_zero c = false) /\ (exists m d, l = m ++ [d] /\ is_zero d = false).

Lemma drop_zeros_zeros zs l : zeros zs -> drop_zeros (zs ++ l) = drop_zeros l.
Proof. induction 1 as [|c zs Hc _ IH]; [done|]. simpl. by rewrite Hc. Qed.

Lemma drop_zeros_split l : exists zs, l = zs ++ drop_zeros l /\ zeros zs
  /\ match drop_zeros l with c :: _ => is_zero c = false | [] => True end.
Proof.
  induction l as [|c l (zs & E & Hz & Hd)]; simpl; [by exists []|].
  destruct (is_zero c) eqn:Ec; [|by exists []].
  exists (c :: zs). split; [by rewrite E at 1|]. by split; [constructor|].
Qed.

Lemma trim_zeros l :
  zeros l \/ exists zs c ts, l = zs ++ c ++ ts /\ zeros zs /\ zeros ts /\ core c.
Proof.
  destruct (drop_zeros_split l) as (zs & E & Hz & Hd). destruct (drop_zeros l) as [|c r] eqn:Er.
  { left. by rewrite E, app_nil_r. }
  right. destruct (drop_zeros_split (rev (c :: r))) as (ts & E' & Hz' & Hd').
  destruct (drop_zeros (rev (c :: r))) as [|d m] eqn:Em.
  { rewrite app_nil_r in E'. assert (Hall : zeros (c :: r)).
    { rewrite <- (rev_involutive (c :: r)), E'. by apply Forall_rev. }
    apply list.Forall_cons in Hall as [Hc _]. congruence. }
  apply (f_equal (@rev _)) in E'. rewrite rev_involutive, rev_app_distr in E'. cbn [rev] in E'.
  exists zs, (rev m ++ [d]), (rev ts). split; [by rewrite <- E'|]. split; [done|].
  split; [by apply Forall_rev|]. split; [|by exists (rev m), d].
  destruct (rev m) as [|c' m']; simpl in *; eexists _, _; (split; [done|]); by injection E' as <- _.
Qed.

Lemma drop_zeros_core c ts : core c -> drop_zeros (c ++ ts) = c ++ ts.
Proof. intros [(x & r & -> & Hx) _]. simpl. by rewrite Hx. Qed.

Lemma drop_zeros_rev_core c ts : core c -> zeros ts -> rev (drop_zeros (rev (c ++ ts))) = c.
Proof.
  intros [_ (m & d & -> & Hd)] Ht. rewrite rev_app_distr, drop_zeros_zeros by (by apply Forall_rev).
  rewrite rev_app_distr. simpl. rewrite Hd. simpl. by rewrite rev_involutive.
Qed.

Lemma decimal_of_zeros neg ds w x : zeros ds -> decimal_of (mkReading neg ds w x) = zero.
Proof. intros Hz. unfold decimal_of. simpl. by rewrite <- (app_nil_r ds), drop_zeros_zeros. Qed.

Lemma decimal_of_core neg zs c ts w x :
  zeros zs -> core c -> zeros ts ->
  decimal_of (mkReading neg (zs ++ c ++ ts) w x) = mkDecimal neg c (w + Z.of_nat (length (c ++ ts)) - 1).
Proof.
  intros Hz Hc Ht. unfold decimal_of. cbn [rd_digits rd_negative rd_weight].
  rewrite drop_zeros_zeros, drop_zeros_core by done. pose proof (drop_zeros_rev_core c ts Hc Ht) as Er.
  destruct (c ++ ts) as [|y l] eqn:E; [destruct Hc as [(x' & r & -> & _) _]; done|]. by rewrite Er.
Qed.

Lemma nonzero_span_app i f la l1 l2 :
  nonzero_span i f la (l1 ++ l2)
  = let '(f', la') := nonzero_span i f la l1 in nonzero_span (i + Z.of_nat (length l1)) f' la' l2.
Proof.
  revert i f la. induction l1 as [|c l1 IH]; simpl; intros i f la; [by rewrite Z.add_0_r|].
  destruct (is_zero c); rewrite IH; destruct (nonzero_span _ _ _ l1); f_equal; lia.
Qed.

Lemma nonzero_span_zeros i f la zs : zeros zs -> nonzero_span i f la zs = (f, la).
Proof. intros Hz. revert i. induction Hz as [|c zs Hc _ IH]; simpl; intros i; [done|]. by rewrite Hc. Qed.

Lemma nonzero_span_first i f la l : 0 <= f -> (nonzero_span i f la l).1 = f.
Proof.
  revert i la. induction l as [|c l IH]; simpl; intros i la Hf; [done|].
  destruct (is_zero c); [by apply IH|]. destruct (Z.ltb_spec f 0); [lia|]. by apply IH.
Qed.

Lemma nonzero_span_core zs c ts :
  zeros zs -> core c -> zeros ts ->
  nonzero_span 0 (-1) (-1) (zs ++ c ++ ts) = (Z.of_nat (length zs), Z.of_nat (length zs) + Z.of_nat (length c) - 1).
Proof.
  intros Hz Hc Ht. rewrite nonzero_span_app, nonzero_span_zeros by done.
  rewrite nonzero_span_app. set (n := 0 + Z.of_nat (length zs)).
  assert (Hn : 0 <= n) by (unfold n; lia).
  assert (nonzero_span n (-1) (-1) c = (n, n + Z.of_nat (length c) - 1)) as ->.
  { destruct Hc as [(x & r & Ex & Hx) (m & d & E & Hd)].
    assert (Hfst : (nonzero_span n (-1) (-1) c).1 = n).
    { rewrite Ex. simpl. rewrite Hx. simpl. by apply nonzero_span_first. }
    rewrite (surjective_pairing (nonzero_span n (-1) (-1) c)), Hfst. f_equal.
    rewrite E, nonzero_span_app. destruct (nonzero_span n (-1) (-1) m) as [f la]. simpl. rewrite Hd.
    simpl. rewrite length_app. simpl. lia. }
  rewrite nonzero_span_zeros by done. f_equal; unfold n; lia.
Qed.

Lemma normalizeDigits_spec neg i f x :
  digits_ i ->
  let r := mkReading neg (i ++ f) (x - Z.of_nat (length f)) x in
  normalizeDigits neg i f x =
    if maxSignificantDigits <? Z.of_nat (length (significant (decimal_of r))) then Err TooManyDigits
    else if maxAbsoluteExponent <? Z.abs (weight (decimal_of r)) then Err ExponentExceeds
    else Ok (print_decimal (decimal_of r)).
Proof.
  intros Hi r. unfold normalizeDigits, r. destruct (trim_zeros (i ++ f)) as [Hz|(zs & c & ts & E & Hz & Ht & Hc)].
  - rewrite nonzero_span_zeros, decimal_of_zeros by done. done.
  - rewrite E, nonzero_span_core, decimal_of_core by done. cbn [significant weight].
    destruct (Z.ltb_spec (Z.of_nat (length zs)) 0); [lia|].
    replace (Z.to_nat (Z.of_nat (length zs) + Z.of_nat (length c) - 1 + 1 - Z.of_nat (length zs)))
      with (length c) by lia.
    rewrite Nat2Z.id, drop_app_length, take_app_length.
    apply (f_equal length) in E. rewrite !length_app in E. rewrite length_app.
    replace (x - Z.of_nat (length f) + Z.of_nat (length c + length ts) - 1)
      with (x + (Z.of_nat (length i) - Z.of_nat (length zs) - 1)) by lia.
    set (w := x + _). destruct (_ <? Z.of_nat (length c)); [done|].
    assert ((maxAbsoluteExponent <? w) || (w <? - maxAbsoluteExponent) = (maxAbsoluteExponent <? Z.abs w)) as ->.
    { unfold maxAbsoluteExponent. lia. }
    destruct (_ <? Z.abs w); [done|]. f_equal. destruct Hc as [(y & l & -> & _) _]. done.
Qed.

(** ** The normal form is the printed reading *)
Lemma mantissa_no_exp i fr f : int_text i -> fraction_text fr f -> Forall (fun c => is_exp c = false) (i ++ fr).
Proof.
  intros (_ & Hd & _) Hf. apply Forall_app_2; [by apply Forall_digits; [apply digit_no_exp|]|].
  destruct Hf as [[-> _]|(-> & _ & Hdf)]; [done|]. constructor; [done|].
  by apply Forall_digits; [apply digit_no_exp|].
Qed.

Lemma split_mantissa_text i fr f ex x :
  int_text i -> fraction_text fr f -> exp_text ex x ->
  split_mantissa (i ++ fr ++ ex) = if maxAbsoluteExponent <? Z.abs x then Err ExponentExceeds else Ok (i ++ fr, x).
Proof.
  intros Hi Hf Hx. pose proof (mantissa_no_exp i fr f Hi Hf) as Hm. unfold split_mantissa. rewrite app_assoc.
  destruct Hx as [[-> ->]|(e & sg & ds & -> & He & Ht)].
  - rewrite app_nil_r, (proj2 (split_first_None _ _)) by done. done.
  - rewrite split_first_app by done. rewrite (parseBoundedExponent_text _ _ _ Ht). by destruct (_ <? _).
Qed.

Lemma split_mantissa_inv l m x : split_mantissa l = Ok (m, x) -> exists ex, l = m ++ ex /\ exp_text ex x.
Proof.
  unfold split_mantissa. destruct (split_first is_exp l) as [[b a]|] eqn:Es.
  - destruct (parseBoundedExponent a) as [y|] eqn:Ey; [|done]. intros [= <- <-].
    apply split_first_Some in Es as (e & -> & He & _).
    apply parseBoundedExponent_inv in Ey as (sg & ds & -> & Ht).
    eexists. split; [done|]. right. by exists e, sg, ds.
  - intros [= -> <-]. exists []. rewrite app_nil_r. split; [done|by left].
Qed.

Lemma split_fraction_text i fr f : int_text i -> fraction_text fr f -> split_fraction (i ++ fr) = Ok (i, f).
Proof.
  intros (_ & Hd & _) Hf. pose proof (Forall_digits is_dot i digit_no_dot Hd) as Hi. unfold split_fraction.
  destruct Hf as [[-> ->]|(-> & Hne & Hdf)].
  - by rewrite app_nil_r, (proj2 (split_first_None _ _)).
  - rewrite split_first_app by done. rewrite !bool_decide_eq_false_2; [done|done|].
    intros Hin. pose proof (Forall_digits is_dot f digit_no_dot Hdf) as Hf.
    rewrite Forall_forall in Hf. by specialize (Hf _ Hin).
Qed.

Lemma split_fraction_inv m i f :
  split_fraction m = Ok (i, f) -> digits_ f -> exists fr, m = i ++ fr /\ fraction_text fr f.
Proof.
  unfold split_fraction. destruct (split_first is_dot m) as [[b a]|] eqn:Es; intros Hs Hd.
  - case_bool_decide as H1; [done|]. case_bool_decide as H2; [done|]. injection Hs as <- <-.
    apply split_first_Some in Es as (d & -> & Hdot & _). apply bool_decide_eq_true in Hdot as ->.
    eexists. split; [done|]. by right.
  - injection Hs as -> <-. exists []. rewrite app_nil_r. split; [done|by left].
Qed.

Lemma normalize_parts raw neg i f x :
  number_parts raw neg i f x ->
  normalizeJSONNumber raw = if maxAbsoluteExponent <? Z.abs x then Err ExponentExceeds else normalizeDigits neg i f x.
Proof.
  intros (fr & ex & -> & Hi & Hf & Hx). destruct (int_text_cons i Hi) as (c & r & Ei & Hc & Hm).
  unfold normalizeJSONNumber. rewrite bool_decide_eq_false_2 by (rewrite Ei; by destruct neg).
  assert (match sign_text neg ++ i ++ fr ++ ex with
          | c :: r => if bool_decide (c = "-"%char) then (true, r) else (false, sign_text neg ++ i ++ fr ++ ex)
          | [] => (false, sign_text neg ++ i ++ fr ++ ex)
          end = (neg, i ++ fr ++ ex)) as ->.
  { rewrite Ei. destruct neg; simpl; [done|]. by rewrite bool_decide_eq_false_2. }
  rewrite (bool_decide_eq_false_2 (i ++ fr ++ ex = [])), andb_false_r by (by rewrite Ei).
  rewrite (split_mantissa_text i fr f ex x) by done.
  destruct (maxAbsoluteExponent <? Z.abs x); [done|].
  cbn [mbind result_bind]. rewrite (split_fraction_text i fr f) by done.
  cbn [mbind result_bind].
  assert (Hdf : digits_ f) by (by destruct Hf as [[_ ->]|(_ & _ & ?)]).
  destruct Hi as (Hne & Hd & Hz). rewrite bool_decide_eq_false_2, Hd, Hdf by done. cbn [orb negb].
  destruct ((1 <? length i)%nat && bool_decide (head i = Some "0"%char)) eqn:Ez; [|done].
  apply andb_prop in Ez as [H1%Nat.ltb_lt H2%bool_decide_eq_true]. by destruct Hz.
Qed.

Lemma normalize_accepts raw s : normalizeJSONNumber raw = Ok s -> exists neg i f x, number_parts raw neg i f x.
Proof.
  unfold normalizeJSONNumber. case_bool_decide as Hraw; [done|].
  set (sp := match raw with c :: r => _ | [] => _ end). destruct sp as [neg l] eqn:Esp.
  assert (raw = sign_text neg ++ l) as ->.
  { unfold sp in Esp. destruct raw as [|c rr]; [done|].
    case_bool_decide as Hc; injection Esp as <- <-; [by rewrite Hc|done]. }
  clear sp Esp Hraw. destruct (neg && bool_decide (l = [])); [done|].
  destruct (split_mantissa l) as [[m x]|] eqn:Em; [|done]. cbn [mbind result_bind].
  apply split_mantissa_inv in Em as (ex & -> & Hx).
  destruct (split_fraction m) as [[i f]|] eqn:Ef; [|done]. cbn [mbind result_bind].
  case_bool_decide as Hne; [done|]. destruct (digitsOnly i) eqn:Hd; [|done].
  destruct (digitsOnly f) eqn:Hdf; [|done]. cbn [orb negb].
  destruct ((1 <? length i)%nat && bool_decide (head i = Some "0"%char)) eqn:Ez; [done|]. intros _.
  apply split_fraction_inv in Ef as (fr & -> & Hf); [|done].
  exists neg, i, f, x, fr, ex. rewrite <- app_assoc. split; [done|]. split; [|done]. split; [done|]. split; [done|].
  intros [H1 H2]. rewrite (proj2 (Nat.ltb_lt _ _) H1), (bool_decide_eq_true_2 _ H2) in Ez. done.
Qed.

Lemma normalizeJSONNumber_reads raw s :
  normalizeJSONNumber raw = Ok s <->
  exists r, number_value raw = Some r /\ bounded r /\ s = print_decimal (decimal_of r).
Proof.
  assert (Hdir : forall neg i f x, number_parts raw neg i f x ->
    let r := mkReading neg (i ++ f) (x - Z.of_nat (length f)) x in
    normalizeJSONNumber raw = Ok s <-> bounded r /\ s = print_decimal (decimal_of r)).
  { intros neg i f x Hp r. rewrite (normalize_parts _ _ _ _ _ Hp), normalizeDigits_spec
      by (by destruct Hp as (fr & ex & _ & (_ & ? & _) & _)).
    cbv zeta. fold r. unfold bounded. change (rd_exponent r) with x.
    destruct (Z.ltb_spec maxAbsoluteExponent (Z.abs x)); [split; [done|lia]|].
    destruct (Z.ltb_spec maxSignificantDigits (Z.of_nat (length (significant (decimal_of r))))); [split; [done|lia]|].
    destruct (Z.ltb_spec maxAbsoluteExponent (Z.abs (weight (decimal_of r)))); [split; [done|lia]|].
    split; [intros [= <-]; split; [lia|done]|by intros [_ ->]]. }
  split.
  - intros Hn. destruct (normalize_accepts raw s Hn) as (neg & i & f & x & Hp).
    pose proof (proj1 (Hdir _ _ _ _ Hp) Hn) as [Hb Hs]. eexists. split; [by apply number_value_parts_1|]. done.
  - intros (r & Hv & Hb & Hs). apply number_value_parts in Hv as (neg & i & f & x & Hp & ->).
    apply (Hdir _ _ _ _ Hp). by split.
Qed.

(** ** Numeric meaning *)
Lemma of_digits_concat a b : of_digits (a ++ b) = of_digits a * 10 ^ Z.of_nat (length b) + of_digits b.
Proof.
  induction b as [|c b IH] using rev_ind; [rewrite app_nil_r; unfold of_digits; simpl; lia|].
  rewrite app_assoc, !of_digits_app, IH, length_app. simpl length.
  replace (Z.of_nat (length b + 1)) with (Z.succ (Z.of_nat (length b))) by lia.
  rewrite Z.pow_succ_r by lia. lia.
Qed.

Lemma of_digits_zeros zs : zeros zs -> of_digits zs = 0.
Proof.
  induction 1 as [|c zs Hc _ IH]; [done|]. apply bool_decide_eq_true in Hc as ->.
  change ("0"%char :: zs) with (["0"%char] ++ zs). rewrite of_digits_concat, IH. done.
Qed.

Lemma of_digits_bound l : digits_ l -> of_digits l < 10 ^ Z.of_nat (length l).
Proof.
  induction l as [|c l IH] using rev_ind; [done|].
  rewrite digitsOnly_app, of_digits_app, length_app. intros [Hl Hc]%andb_prop.
  rewrite digitsOnly_cons, andb_true_r in Hc. pose proof (digit_val_range c Hc). specialize (IH Hl).
  simpl length. replace (Z.of_nat (length l + 1)) with (Z.succ (Z.of_nat (length l))) by lia.
  rewrite Z.pow_succ_r by lia. lia.
Qed.

Lemma digit_val_inj c d : is_digit c = true -> is_digit d = true -> digit_val c = digit_val d -> c = d.
Proof.
  unfold digit_val. intros _ _ E. rewrite <- (ascii_nat_embedding c), <- (ascii_nat_embedding d). f_equal. lia.
Qed.

Lemma is_zero_val c : is_digit c = true -> is_zero c = false -> 0 < digit_val c.
Proof.
  intros Hd Hz. pose proof (digit_val_range c Hd). destruct (decide (digit_val c = 0)) as [E|]; [|lia].
  assert (c = "0"%char) as -> by (by apply digit_val_inj). done.
Qed.

Lemma core_lower l : digits_ l -> core l -> 10 ^ (Z.of_nat (length l) - 1) <= of_digits l.
Proof.
  intros Hd [(c & r & -> & Hc) _]. rewrite digitsOnly_cons in Hd. apply andb_prop in Hd as [H1 H2].
  change (c :: r) with ([c] ++ r). rewrite of_digits_concat, length_app. simpl length.
  replace (Z.of_nat (1 + length r) - 1) with (Z.of_nat (length r)) by lia.
  pose proof (is_zero_val c H1 Hc). pose proof (of_digits_nonneg r H2).
  assert (of_digits [c] = digit_val c) as -> by (unfold of_digits; simpl; lia). nia.
Qed.

Lemma core_pos l : digits_ l -> core l -> 0 < of_digits l.
Proof.
  intros Hd Hc. pose proof (core_lower l Hd Hc). destruct Hc as [(c & r & -> & _) _].
  pose proof (Z.pow_pos_nonneg 10 (Z.of_nat (length (c :: r)) - 1)). simpl length in *. lia.
Qed.

Lemma core_not_mod_10 l : digits_ l -> core l -> of_digits l mod 10 <> 0.
Proof.
  intros Hd [_ (m & d & -> & Hz)]. rewrite digitsOnly_app in Hd. apply andb_prop in Hd as [_ Hd].
  rewrite digitsOnly_cons, andb_true_r in Hd. rewrite of_digits_app, Z.add_comm, Z_mod_plus_full.
  pose proof (digit_val_range d Hd). pose proof (is_zero_val d Hd Hz). rewrite Z.mod_small; lia.
Qed.

(** The digits of a number are determined by its value and their count. *)
Lemma of_digits_inj l1 l2 : digits_ l1 -> digits_ l2 -> length l1 = length l2 -> of_digits l1 = of_digits l2 -> l1 = l2.
Proof.
  revert l2. induction l1 as [|c l1 IH] using rev_ind; intros l2.
  { destruct l2; done. }
  destruct l2 as [|d l2 _] using rev_ind; [rewrite length_app; simpl; lia|].
  rewrite !digitsOnly_app, !of_digits_app, !length_app.
  intros [H1 Hc]%andb_prop [H2 Hd]%andb_prop Hlen E. rewrite digitsOnly_cons, andb_true_r in Hc, Hd.
  pose proof (digit_val_range c Hc). pose proof (digit_val_range d Hd).
  assert (digit_val c = digit_val d /\ of_digits l1 = of_digits l2) as [Ev El] by lia.
  simpl in Hlen. rewrite (IH l2 H1 H2) by lia. by rewrite (digit_val_inj c d).
Qed.

Definition normal_decimal (d : decimal) : Prop :=
  d = zero \/ (digits_ (significant d) /\ core (significant d)).

Lemma decimal_of_normal neg ds w x : digits_ ds -> normal_decimal (decimal_of (mkReading neg ds w x)).
Proof.
  intros Hd. destruct (trim_zeros ds) as [Hz|(zs & c & ts & -> & Hz & Ht & Hc)].
  - left. by apply decimal_of_zeros.
  - right. rewrite decimal_of_core by done. cbn [significant]. split; [|done].
    rewrite !digitsOnly_app in Hd. by repeat (apply andb_prop in Hd as [? Hd]).
Qed.

Lemma Qpow10_nonzero z : ~ (inject_Z 10 ^ z == 0)%Q.
Proof. apply Qpower_not_0. done. Qed.

Lemma inject_pow10 n : (inject_Z (10 ^ Z.of_nat n) == inject_Z 10 ^ Z.of_nat n)%Q.
Proof. apply Zpower_Qpower. lia. Qed.

Lemma decimal_of_Q neg ds w x : (decimal_Q (decimal_of (mkReading neg ds w x)) == reading_Q (mkReading neg ds w x))%Q.
Proof.
  destruct (trim_zeros ds) as [Hz|(zs & c & ts & -> & Hz & Ht & Hc)].
  - rewrite decimal_of_zeros by done. unfold reading_Q, decimal_Q. cbn [rd_digits rd_negative negative significant].
    rewrite (of_digits_zeros ds) by done. change (signed (negative zero) _) with 0.
    destruct neg; unfold signed; change (- 0) with 0; rewrite !Qmult_0_l; reflexivity.
  - rewrite decimal_of_core by done. unfold reading_Q, decimal_Q.
    cbn [rd_digits rd_negative rd_weight negative significant weight].
    rewrite of_digits_concat, (of_digits_zeros zs), of_digits_concat, (of_digits_zeros ts) by done.
    rewrite Z.mul_0_l, Z.add_0_l, Z.add_0_r, length_app.
    replace (w + Z.of_nat (length c + length ts) - 1 + 1 - Z.of_nat (length c)) with (Z.of_nat (length ts) + w) by lia.
    rewrite Qpower_plus by done. rewrite <- inject_pow10.
    assert (signed neg (of_digits c * 10 ^ Z.of_nat (length ts)) = signed neg (of_digits c) * 10 ^ Z.of_nat (length ts)) as ->
      by (unfold signed; destruct neg; lia).
    rewrite inject_Z_mult. ring.
Qed.

(** Two scaled integers without a factor ten. *)
Lemma scaled_unique m1 m2 a1 a2 :
  m1 mod 10 <> 0 -> m2 mod 10 <> 0 ->
  (inject_Z m1 * inject_Z 10 ^ a1 == inject_Z m2 * inject_Z 10 ^ a2)%Q -> m1 = m2 /\ a1 = a2.
Proof.
  assert (Hle : forall m1 m2 a1 a2, a1 <= a2 -> m1 mod 10 <> 0 ->
    (inject_Z m1 * inject_Z 10 ^ a1 == inject_Z m2 * inject_Z 10 ^ a2)%Q -> m1 = m2 /\ a1 = a2).
  { clear. intros m1 m2 a1 a2 Hle Hm E.
    replace a2 with (Z.of_nat (Z.to_nat (a2 - a1)) + a1) in E by lia.
    rewrite Qpower_plus in E by done. rewrite <- inject_pow10 in E.
    rewrite Qmult_assoc in E. apply Qmult_inj_r in E; [|apply Qpow10_nonzero].
    rewrite <- inject_Z_mult in E. apply (proj1 (inject_Z_injective _ _)) in E.
    destruct (decide (a1 = a2)) as [->|Hne]; [rewrite Z.sub_diag in E; change (10 ^ Z.of_nat (Z.to_nat 0)) with 1 in E; split; [lia|done]|].
    exfalso. apply Hm. rewrite E. replace (Z.of_nat (Z.to_nat (a2 - a1))) with (Z.succ (a2 - a1 - 1)) by lia.
    rewrite Z.pow_succ_r by lia. rewrite (Z.mul_comm 10), Z.mul_assoc. apply Z_mod_mult. }
  intros H1 H2 E. destruct (Z.le_gt_cases a1 a2) as [Hl|Hg]; [by apply Hle|].
  destruct (Hle m2 m1 a2 a1) as [-> ->]; [lia|done|by rewrite E|done].
Qed.

Lemma signed_mod neg m : m mod 10 <> 0 -> signed neg m mod 10 <> 0.
Proof. unfold signed. destruct neg; [|done]. intros Hm. rewrite Z_mod_nz_opp_full by done. pose proof (Z.mod_pos_bound m 10). lia. Qed.

Lemma decimal_Q_zero : (decimal_Q zero == 0)%Q.
Proof. reflexivity. Qed.

Lemma decimal_Q_nonzero d : digits_ (significant d) -> core (significant d) -> ~ (decimal_Q d == 0)%Q.
Proof.
  intros Hd Hc E. unfold decimal_Q in E. apply Qmult_integral in E as [E|E]; [|by apply Qpow10_nonzero in E].
  change 0%Q with (inject_Z 0) in E. apply (proj1 (inject_Z_injective _ _)) in E.
  pose proof (core_pos _ Hd Hc). unfold signed in E. destruct (negative d); lia.
Qed.

Lemma decimal_Q_inj d1 d2 : normal_decimal d1 -> normal_decimal d2 -> (decimal_Q d1 == decimal_Q d2)%Q -> d1 = d2.
Proof.
  intros [->|[D1 C1]] [->|[D2 C2]] E; [done| | |].
  - by destruct (decimal_Q_nonzero d2 D2 C2).
  - by destruct (decimal_Q_nonzero d1 D1 C1).
  - destruct d1 as [n1 s1 w1], d2 as [n2 s2 w2]. unfold decimal_Q in E. cbn [negative significant weight] in *.
    apply scaled_unique in E as [Em Ea]; [|by apply signed_mod, core_not_mod_10..].
    pose proof (core_pos _ D1 C1). pose proof (core_pos _ D2 C2).
    assert (n1 = n2 /\ of_digits s1 = of_digits s2) as [-> Es].
    { unfold signed in Em. destruct n1, n2; split; try done; lia. }
    assert (length s1 = length s2) as El.
    { pose proof (core_lower _ D1 C1). pose proof (core_lower _ D2 C2).
      pose proof (of_digits_bound _ D1). pose proof (of_digits_bound _ D2).
      destruct (Nat.lt_total (length s1) (length s2)) as [Hl|[Hl|Hl]]; [exfalso|done|exfalso].
      - pose proof (Z.pow_le_mono_r 10 (Z.of_nat (length s1)) (Z.of_nat (length s2) - 1)). lia.
      - pose proof (Z.pow_le_mono_r 10 (Z.of_nat (length s2)) (Z.of_nat (length s1) - 1)). lia. }
    rewrite (of_digits_inj s1 s2) by done. f_equal. lia.
Qed.

(** ** Printing *)
Lemma pretty_digit n : (n < 10)%N -> is_digit (pretty_N_char n) = true /\ digit_val (pretty_N_char n) = Z.of_N n
  /\ ((0 < n)%N -> is_zero (pretty_N_char n) = false).
Proof.
  intros Hn. destruct n as [|p]; [done|].
  do 4 (destruct p as [p|p|]; try lia; try done).
Qed.

Lemma pretty_N_go_digits n s :
  exists ds, bytes (pretty_N_go n s) = ds ++ bytes s /\ digits_ ds /\ of_digits ds = Z.of_N n
             /\ ((0 < n)%N -> exists c r, ds = c :: r /\ is_zero c = false).
Proof.
  revert s. induction (N.lt_wf_0 n) as [n _ IH]. intros s.
  destruct (decide (n = 0)%N) as [->|Hn].
  { exists []. rewrite pretty_N_go_0. split; [done|]. split; [done|]. by split; [|lia]. }
  rewrite pretty_N_go_step by lia. pose proof (N.div_mod n 10 ltac:(done)) as Edm.
  destruct (pretty_digit (n `mod` 10)%N) as (Hc & Hcv & Hcz); [by apply N.mod_lt|].
  destruct (decide (n `div` 10 = 0)%N) as [E0|E0].
  - rewrite E0 in *. exists [pretty_N_char (n `mod` 10)]. rewrite pretty_N_go_0. split; [done|].
    split; [by rewrite digitsOnly_cons, Hc|]. split; [change (of_digits [_]) with (0 * 10 + digit_val (pretty_N_char (n `mod` 10)%N)); rewrite Hcv; lia|].
    intros _. eexists _, _. split; [done|]. apply Hcz. lia.
  - destruct (IH (n `div` 10)%N (N.div_lt n 10 ltac:(lia) eq_refl) (String (pretty_N_char (n `mod` 10)) s))
      as (ds & E & Hd & Hv & Hh).
    exists (ds ++ [pretty_N_char (n `mod` 10)]). rewrite E, <- app_assoc. split; [done|].
    rewrite digitsOnly_app, Hd. split; [by rewrite digitsOnly_cons, Hc|].
    rewrite of_digits_app, Hv, Hcv.
    split; [lia|]. intros _.
    destruct Hh as (c & r & -> & Hz); [by apply N.neq_0_lt_0|]. by exists c, (r ++ [pretty_N_char (n `mod` 10)]).
Qed.

Lemma pretty_pos_digits (p : positive) :
  exists c r, bytes (pretty p) = c :: r /\ digits_ (c :: r) /\ of_digits (c :: r) = Z.pos p /\ is_zero c = false.
Proof.
  unfold pretty, pretty_positive, pretty, pretty_N. rewrite decide_False by done.
  destruct (pretty_N_go_digits (N.pos p) "") as (ds & -> & Hd & Hv & Hh). destruct Hh as (c & r & -> & Hz); [done|].
  rewrite app_nil_r. by exists c, r.
Qed.

Lemma FormatInt_text z : exists sg ds, FormatInt z = sg ++ ds /\ exponent_text sg ds z.
Proof.
  unfold FormatInt. destruct z as [|p|p].
  - exists [], ["0"%char]. split; [done|]. split; [done|]. split; [done|]. by left; split; [left|].
  - destruct (pretty_pos_digits p) as (c & r & E & Hd & Hv & _). exists [], (c :: r). split; [exact E|].
    split; [done|]. split; [done|]. left. by split; [left|].
  - destruct (pretty_pos_digits p) as (c & r & E & Hd & Hv & _). exists ["-"%char], (c :: r).
    split; [change (pretty (Z.neg p)) with ("-" +:+ pretty p); by rewrite bytes_app, E|].
    split; [done|]. split; [done|]. right. split; [done|]. by rewrite Hv.
Qed.

(** The text of an integer reads as that integer. *)
Lemma number_value_FormatInt z :
  exists r, number_value (FormatInt z) = Some r /\ (reading_Q r == inject_Z z)%Q.
Proof.
  assert (exists neg i, FormatInt z = sign_text neg ++ i /\ int_text i /\ signed neg (of_digits i) = z) as (neg & i & E & Hi & Hv).
  { unfold FormatInt. destruct z as [|p|p].
    - exists false, ["0"%char]. split; [done|]. split; [|done]. split; [done|]. split; [done|]. simpl. intros [? _]. lia.
    - destruct (pretty_pos_digits p) as (c & r & E & Hd & Hv & Hz). exists false, (c :: r).
      split; [exact E|]. split; [|done]. split; [done|]. split; [done|]. intros [_ [= ->]]. done.
    - destruct (pretty_pos_digits p) as (c & r & E & Hd & Hv & Hz). exists true, (c :: r).
      split; [change (pretty (Z.neg p)) with ("-" +:+ pretty p); by rewrite bytes_app, E|].
      split; [split; [done|split; [done|intros [_ [= ->]]; done]]|]. unfold signed. by rewrite Hv. }
  eexists. split.
  - rewrite E. apply (number_value_parts_1 _ neg i [] 0). exists [], [].
    rewrite !app_nil_r. split; [done|]. split; [done|]. split; by left.
  - unfold reading_Q. cbn [rd_negative rd_digits rd_weight]. rewrite app_nil_r, Hv. simpl length.
    change (inject_Z 10 ^ (0 - Z.of_nat 0))%Q with 1%Q. apply Qmult_1_r.
Qed.

Lemma print_parts neg c r w :
  digits_ (c :: r) -> core (c :: r) -> number_parts (print_decimal (mkDecimal neg (c :: r) w)) neg [c] r w.
Proof.
  rewrite digitsOnly_cons. intros [Hd Hr]%andb_prop Hc.
  exists (if (1 <? length (c :: r))%nat then "."%char :: r else []), (if negb (w =? 0) then "e"%char :: FormatInt w else []).
  split; [done|]. split; [|split].
  - split; [done|]. split; [by rewrite digitsOnly_cons, Hd|]. simpl. intros [? _]. lia.
  - destruct r as [|e r]; [by left|]. by right.
  - destruct (Z.eqb_spec w 0) as [->|Hw]; [by left|]. right.
    destruct (FormatInt_text w) as (sg & ds & -> & Ht). by exists "e"%char, sg, ds.
Qed.

Lemma decimal_of_digits neg c w x : core c -> decimal_of (mkReading neg c w x) = mkDecimal neg c (w + Z.of_nat (length c) - 1).
Proof. intros Hc. pose proof (decimal_of_core neg [] c [] w x) as E. rewrite app_nil_r in E. by apply E. Qed.

Lemma print_reads d :
  normal_decimal d -> exists r, number_value (print_decimal d) = Some r /\ decimal_of r = d /\ rd_exponent r = weight d.
Proof.
  intros [->|[Hd Hc]]; [by eexists|]. destruct d as [neg [|c r] w]; cbn [significant] in *.
  { by destruct Hc as [(? & ? & ? & _) _]. }
  eexists. split; [by apply number_value_parts_1, print_parts|]. split; [|done].
  rewrite decimal_of_digits by done. f_equal. simpl. lia.
Qed.

Lemma print_decimal_inj d1 d2 : normal_decimal d1 -> normal_decimal d2 -> print_decimal d1 = print_decimal d2 -> d1 = d2.
Proof.
  intros (r1 & E1 & <- & _)%print_reads (r2 & E2 & <- & _)%print_reads E. congruence.
Qed.

Lemma number_value_digits raw r : number_value raw = Some r -> digits_ (rd_digits r).
Proof.
  intros (neg & i & f & x & (fr & ex & _ & (_ & Hd & _) & Hf & _) & ->)%number_value_parts. cbn [rd_digits].
  rewrite digitsOnly_app, Hd. by destruct Hf as [[_ ->]|(_ & _ & ?)].
Qed.

Lemma number_value_normal raw r : number_value raw = Some r -> normal_decimal (decimal_of r).
Proof. intros Hv%number_value_digits. destruct r. by apply decimal_of_normal. Qed.

Lemma decimal_of_reading raw r : number_value raw = Some r -> (decimal_Q (decimal_of r) == reading_Q r)%Q.
Proof. intros _. destruct r. apply decimal_of_Q. Qed.

(** Two accepted numbers have the same canonical text exactly when they are the
    same number. *)
Lemma normalizeJSONNumber_numeric raw1 raw2 r1 r2 s1 s2 :
  number_value raw1 = Some r1 -> number_value raw2 = Some r2 ->
  normalizeJSONNumber raw1 = Ok s1 -> normalizeJSONNumber raw2 = Ok s2 ->
  s1 = s2 <-> (reading_Q r1 == reading_Q r2)%Q.
Proof.
  intros V1 V2 (r1' & E1 & _ & ->)%normalizeJSONNumber_reads (r2' & E2 & _ & ->)%normalizeJSONNumber_reads.
  simplify_eq. rewrite <- (decimal_of_reading raw1), <- (decimal_of_reading raw2) by done.
  apply number_value_normal in V1, V2. split; intros E.
  - apply print_decimal_inj in E as ->; done.
  - by rewrite (decimal_Q_inj _ _ V1 V2 E).
Qed.

(** The canonical text is its own canonical text. *)
Lemma normalizeJSONNumber_idempotent raw s : normalizeJSONNumber raw = Ok s -> normalizeJSONNumber s = Ok s.
Proof.
  intros (r & V & (_ & Hs & Hw) & ->)%normalizeJSONNumber_reads. apply normalizeJSONNumber_reads.
  destruct (print_reads _ (number_value_normal _ _ V)) as (r' & V' & Ed & Ex).
  exists r'. split; [done|]. unfold bounded. by rewrite Ed, Ex.
Qed.
