(* ===== verification/JsonValue.v ===== *)
(** * JSON values

    What a [json.Decoder] with [UseNumber] makes of a text: numbers keep their
    literal, objects are Go maps. A map is the list of its members in the order
    of their keys, so that equal maps are equal lists; [get], [put] and [del]
    are Go's index, assignment and [delete]. *)
From stdpp Require Import base strings list sets.
From Stdlib Require Import Ascii.
From S2P Require Import Prelude GoStrings GoJson CanonicalNumber.

Inductive json :=
| JNull
| JBool (b : bool)
| JNumber (literal : string)
| JString (s : string)
| JArray (items : list json)
| JObject (members : list (string * json)).

(** The dynamic type [map[string]any] of the decoder. *)
Notation Object := (list (string * json)) (only parsing).

(** Nested induction. *)
Section Induction.
Context (P : json -> Prop).
Context (Hnull : P JNull) (Hbool : forall b, P (JBool b)) (Hnum : forall l, P (JNumber l)) (Hstr : forall s, P (JString s)).
Context (Harr : forall l, Forall P l -> P (JArray l)) (Hobj : forall o, Forall (fun m => P m.2) o -> P (JObject o)).

Fixpoint json_nested_ind (v : json) : P v :=
  match v with
  | JNull => Hnull
  | JBool b => Hbool b
  | JNumber l => Hnum l
  | JString s => Hstr s
  | JArray l =>
      Harr l ((fix go l : Forall P l :=
                 match l with [] => List.Forall_nil _ | x :: l => List.Forall_cons _ x l (json_nested_ind x) (go l) end) l)
  | JObject o =>
      Hobj o ((fix go o : Forall (fun m => P m.2) o :=
                 match o with
                 | [] => List.Forall_nil _
                 | m :: o => List.Forall_cons _ m o (let 'pair _ x as m := m return P m.2 in json_nested_ind x) (go o)
                 end) o)
  end.
End Induction.

#[export] Instance json_eq_dec : EqDecision json.
Proof.
  refine (fix go (v w : json) : Decision (v = w) :=
    match v, w with
    | JNull, JNull => left _
    | JBool a, JBool b => cast_if (decide (a = b))
    | JNumber a, JNumber b => cast_if (decide (a = b))
    | JString a, JString b => cast_if (decide (a = b))
    | JArray a, JArray b => cast_if (@decide (a = b) (@list_eq_dec json go a b))
    | JObject a, JObject b =>
        cast_if (@decide (a = b) (@list_eq_dec (string * json) (@prod_eq_dec string _ json go) a b))
    | _, _ => right _
    end); clear go; abstract congruence.
Defined.

(** ** Maps *)
Section Members.
Context {A : Type}.
Implicit Types (o : list (string * A)) (k : string) (v : A).

Fixpoint get k o : option A :=
  match o with
  | [] => None
  | (k', v) :: o => if decide (k = k') then Some v else get k o
  end.

Fixpoint put k v o : list (string * A) :=
  match o with
  | [] => [(k, v)]
  | (k', v') :: r =>
      if decide (k = k') then (k, v) :: r
      else if decide (string_le k k') then (k, v) :: o
      else (k', v') :: put k v r
  end.

Fixpoint del k o : list (string * A) :=
  match o with
  | [] => []
  | (k', v') :: r => if decide (k = k') then r else (k', v') :: del k r
  end.

(** Keys in increasing order. *)
Fixpoint ordered o : bool :=
  match o with
  | (k1, _) :: (((k2, _) :: _) as r) => bool_decide (strict string_le k1 k2) && ordered r
  | _ => true
  end.

Definition of_members ms : list (string * A) := foldl (fun o '(k, v) => put k v o) [] ms.
End Members.

Lemma string_lt_not_le (s1 s2 : string) : strict string_le s1 s2 <-> ~ string_le s2 s1.
Proof.
  split; [by intros [_ H]|]. intros H. destruct (trichotomy (strict string_le) s1 s2) as [H'|[->|[H' _]]]; [done| |done].
  by destruct H.
Qed.

Section MemberLemmas.
Context {A : Type}.
Implicit Types (o : list (string * A)) (k : string) (v : A).

Lemma get_put_eq k v o : get k (put k v o) = Some v.
Proof.
  induction o as [|[k0 v0] o IH]; simpl; [by rewrite decide_True|].
  destruct (decide (k = k0)) as [->|Hne]; simpl; [by rewrite decide_True|].
  destruct (decide (string_le k k0)); simpl; [by rewrite decide_True|]. by rewrite decide_False.
Qed.

Lemma get_put_ne k k' v o : k <> k' -> get k (put k' v o) = get k o.
Proof.
  intros Hk. induction o as [|[k0 v0] o IH]; simpl; [by rewrite decide_False|].
  destruct (decide (k' = k0)) as [->|Hne]; simpl; [by rewrite !decide_False|].
  destruct (decide (string_le k' k0)); simpl; [by rewrite (decide_False (P := k = k'))|]. by rewrite IH.
Qed.

Lemma get_put k k' v o : get k (put k' v o) = if decide (k = k') then Some v else get k o.
Proof. destruct (decide (k = k')) as [->|]; [apply get_put_eq|by apply get_put_ne]. Qed.

Lemma get_elem k v o : get k o = Some v -> (k, v) ∈ o.
Proof.
  induction o as [|[k0 v0] o IH]; simpl; [done|]. destruct (decide (k = k0)) as [->|]; [|set_solver].
  intros [= ->]. by left.
Qed.

Lemma get_None k o : get k o = None <-> k ∉ o.*1.
Proof.
  induction o as [|[k0 v0] o IH]; simpl; [set_solver|].
  destruct (decide (k = k0)) as [->|]; [set_solver|]. rewrite IH. set_solver.
Qed.

Lemma ordered_cons k v o :
  ordered ((k, v) :: o) = true <-> ordered o = true /\ Forall (fun k' => strict string_le k k') o.*1.
Proof.
  revert k v. induction o as [|[k1 v1] o IH]; intros k v; [by split|].
  change (ordered ((k, v) :: (k1, v1) :: o)) with (bool_decide (strict string_le k k1) && ordered ((k1, v1) :: o)).
  rewrite andb_true_iff, bool_decide_eq_true. cbn [fmap list_fmap fst]. rewrite list.Forall_cons. split.
  - intros [H1 H2]. split; [done|]. split; [done|]. apply IH in H2 as [_ H2].
    eapply list.Forall_impl; [exact H2|]. intros k' Hk'. by transitivity k1.
  - intros [H2 [H1 _]]. done.
Qed.

Lemma ordered_tail k v o : ordered ((k, v) :: o) = true -> ordered o = true.
Proof. by intros [H _]%ordered_cons. Qed.

Lemma ordered_NoDup o : ordered o = true -> NoDup o.*1.
Proof.
  induction o as [|[k v] o IH]; [constructor|]. intros [Ho Hk]%ordered_cons. simpl. constructor; [|by apply IH].
  intros Hin. eapply list.Forall_forall in Hk; [|exact Hin]. by destruct Hk as [_ []].
Qed.

Lemma elem_get k v o : ordered o = true -> (k, v) ∈ o -> get k o = Some v.
Proof.
  induction o as [|[k0 v0] o IH]; [by intros _ ?%elem_of_nil|]. intros Ho Hin. pose proof (ordered_NoDup _ Ho) as Hnd.
  simpl in Hnd. apply elem_of_cons in Hin as [[= -> ->]|Hin]; simpl; [by rewrite decide_True|].
  apply NoDup_cons in Hnd as [Hn _]. apply ordered_tail in Ho. rewrite decide_False; [|intros ->; apply Hn, list_elem_of_fmap; by exists (k0, v)].
  by apply IH.
Qed.

Lemma put_keys k v o : forall k', k' ∈ (put k v o).*1 <-> k' = k \/ k' ∈ o.*1.
Proof.
  intros k'. induction o as [|[k0 v0] o IH]; simpl; [set_solver|].
  destruct (decide (k = k0)) as [->|]; simpl; [set_solver|]. destruct (decide (string_le k k0)); simpl; set_solver.
Qed.

Lemma put_Forall (P : string * A -> Prop) k v o : P (k, v) -> Forall P o -> Forall P (put k v o).
Proof.
  intros Hm. induction 1 as [|[k' v'] o Hm' Ho IH]; [by repeat constructor|]. simpl.
  destruct (decide (k = k')); [by constructor|]. destruct (decide (string_le k k')); by repeat constructor.
Qed.

Lemma ordered_put k v o : ordered o = true -> ordered (put k v o) = true.
Proof.
  induction o as [|[k0 v0] o IH]; [done|]. intros Ho. pose proof Ho as [Ho' Hk]%ordered_cons. simpl.
  destruct (decide (k = k0)) as [->|Hne]; [by apply ordered_cons|].
  destruct (decide (string_le k k0)) as [Hle|Hnle]; apply ordered_cons.
  - split; [done|]. simpl. constructor; [split; [done|]; intros H; by destruct Hne; apply (anti_symm string_le)|].
    eapply list.Forall_impl; [exact Hk|]. intros k' Hk'. destruct Hk'. split; [by transitivity k0|].
    intros H'. destruct Hne. apply (anti_symm string_le); [done|]. by transitivity k'.
  - split; [by apply IH|]. apply list.Forall_forall. intros k'. rewrite put_keys. intros [->|Hin].
    + by apply string_lt_not_le.
    + eapply list.Forall_forall in Hk; [exact Hk|done].
Qed.

Lemma del_keys k o k' : k' ∈ (del k o).*1 -> k' ∈ o.*1.
Proof.
  induction o as [|[k0 v0] o IH]; simpl; [done|]. destruct (decide (k = k0)); simpl; set_solver.
Qed.

Lemma ordered_del k o : ordered o = true -> ordered (del k o) = true.
Proof.
  induction o as [|[k0 v0] o IH]; [done|]. intros [Ho Hk]%ordered_cons. simpl.
  destruct (decide (k = k0)); [done|]. apply ordered_cons. split; [by apply IH|].
  apply list.Forall_forall. intros k' Hin. eapply list.Forall_forall in Hk; [exact Hk|]. by eapply del_keys.
Qed.

Lemma get_del k k' o : ordered o = true -> get k (del k' o) = if decide (k = k') then None else get k o.
Proof.
  induction o as [|[k0 v0] o IH]; intros Ho; [by destruct (decide (k = k'))|]. pose proof (ordered_NoDup _ Ho) as Hnd.
  simpl. apply NoDup_cons in Hnd as [Hn _]. apply ordered_tail in Ho. destruct (decide (k' = k0)) as [->|Hne].
  - destruct (decide (k = k0)) as [->|]; [by apply get_None|done].
  - simpl. rewrite IH by done. destruct (decide (k = k0)), (decide (k = k')); congruence.
Qed.

(** Maps are determined by their entries. *)
Lemma ordered_ext o1 o2 : ordered o1 = true -> ordered o2 = true -> (forall k, get k o1 = get k o2) -> o1 = o2.
Proof.
  revert o2. induction o1 as [|[k1 v1] o1 IH]; intros [|[k2 v2] o2] H1 H2 E.
  - done.
  - specialize (E k2). simpl in E. by rewrite decide_True in E.
  - specialize (E k1). simpl in E. by rewrite decide_True in E.
  - pose proof H1 as [H1' K1]%ordered_cons. pose proof H2 as [H2' K2]%ordered_cons.
    assert (k1 = k2) as ->.
    { destruct (decide (k1 = k2)) as [|Hne]; [done|exfalso].
      assert (Ha := E k1). assert (Hb := E k2). simpl in Ha, Hb.
      rewrite decide_True in Ha by done. rewrite (decide_False (P := k1 = k2)) in Ha by done.
      rewrite (decide_False (P := k2 = k1)) in Hb by congruence. rewrite decide_True in Hb by done.
      symmetry in Ha. apply get_elem, (list_elem_of_fmap_2 fst) in Ha. apply get_elem, (list_elem_of_fmap_2 fst) in Hb.
      eapply list.Forall_forall in K1; [|exact Hb]. eapply list.Forall_forall in K2; [|exact Ha].
      destruct K1 as [A1 B1], K2 as [A2 B2]. done. }
    assert (v1 = v2) as ->.
    { specialize (E k2). simpl in E. rewrite !decide_True in E by done. congruence. }
    f_equal. apply IH; [done..|]. intros k. specialize (E k). simpl in E.
    destruct (decide (k = k2)) as [->|]; [|done].
    apply ordered_NoDup in H1, H2. simpl in H1, H2. apply NoDup_cons in H1 as [H1 _], H2 as [H2 _].
    apply get_None in H1, H2. by rewrite H1, H2.
Qed.

Lemma put_app_last k v o : ordered (o ++ [(k, v)]) = true -> put k v o = o ++ [(k, v)].
Proof.
  induction o as [|[k0 v0] o IH]; [done|]. cbn [app]. intros [Ho Hk]%ordered_cons. simpl.
  assert (strict string_le k0 k) as Hlt.
  { rewrite fmap_app in Hk. apply list.Forall_app in Hk as [_ Hk]. simpl in Hk. by apply list.Forall_cons in Hk as [? _]. }
  rewrite decide_False by (intros ->; by destruct Hlt). rewrite decide_False by (by destruct Hlt). by rewrite IH.
Qed.

Lemma of_members_ordered o : ordered o = true -> of_members o = o.
Proof.
  unfold of_members. induction o as [|[k v] o IH] using rev_ind; [done|]. intros Ho. rewrite foldl_app. simpl.
  assert (ordered o = true) as Ho'.
  { clear IH. induction o as [|[k0 v0] o IH]; [done|]. cbn [app] in Ho. apply ordered_cons in Ho as [Ho Hk].
    apply ordered_cons. split; [by apply IH|]. rewrite fmap_app in Hk. by apply list.Forall_app in Hk as [? _]. }
  rewrite IH by done. by apply put_app_last.
Qed.
End MemberLemmas.

(** ** Values a decoder returns: number literals follow the grammar, strings
    are UTF-8 and maps are ordered. *)
Fixpoint decoded (v : json) : bool :=
  match v with
  | JNull | JBool _ => true
  | JNumber l => bool_decide (is_Some (number_value (bytes l)))
  | JString s => ValidString s
  | JArray l => forallb decoded l
  | JObject o => ordered o && forallb (fun '(k, x) => ValidString k && decoded x) o
  end.

#[global] Arguments put : simpl never.
#[global] Arguments del : simpl never.
#[global] Arguments ordered : simpl never.
