(* ===== verification/JsonCodec.v ===== *)
(** * Reading and writing JSON

    [json_print] is [json.Marshal] of a decoded value and [json_parse] a
    [json.Decoder] with [UseNumber] that reads a whole text: white space, the
    escapes of strings with surrogate pairs, U+FFFD for bytes that are not
    UTF-8, and the last of several members with the same name. Reading what was
    written gives the value back. The nesting limit of the decoder (10000) is
    not modelled. *)
From stdpp Require Import base strings list numbers sets.
From Stdlib Require Import ZArith Lia Ascii.
From S2P Require Import Prelude GoStrings Digest GoJson JsonQuote CanonicalNumber JsonValue.

Open Scope Z_scope.

(** ** Runes *)
Definition replacement : list ascii := bytes_of_nats [239; 191; 189]%nat.
Definition chz (z : Z) : ascii := ch (Z.to_nat z).
Definition surrogate (z : Z) : bool := (55296 <=? z) && (z <? 57344).

(** [utf8.AppendRune]. *)
Definition encode_rune (z : Z) : list ascii :=
  if z <? 128 then [chz z]
  else if z <? 2048 then [chz (192 + z / 64); chz (128 + z mod 64)]
  else if surrogate z || (1114111 <? z) then replacement
  else if z <? 65536 then [chz (224 + z / 4096); chz (128 + z / 64 mod 64); chz (128 + z mod 64)]
  else [chz (240 + z / 262144); chz (128 + z / 4096 mod 64); chz (128 + z / 64 mod 64); chz (128 + z mod 64)].

Definition hex_val (c : ascii) : Z :=
  let n := Z.of_nat (nat_of_ascii c) in
  if n <? 58 then n - 48 else if n <? 71 then n - 55 else n - 87.

(** [getu4]: the value of an escape [\uXXXX] at the head of the input. *)
Definition u_digits (l : list ascii) : option (Z * list ascii) :=
  match l with
  | h1 :: h2 :: h3 :: h4 :: r =>
      if hex_char h1 && hex_char h2 && hex_char h3 && hex_char h4
      then Some (((hex_val h1 * 16 + hex_val h2) * 16 + hex_val h3) * 16 + hex_val h4, r) else None
  | _ => None
  end.
Definition getu4 (l : list ascii) : option (Z * list ascii) :=
  match l with
  | b :: u :: r => if (nat_of_ascii b =? 92)%nat && (nat_of_ascii u =? 117)%nat then u_digits r else None
  | _ => None
  end.

(** What follows [\u]: a surrogate is combined with a low one that follows it,
    and is U+FFFD otherwise. *)
Definition read_u (l : list ascii) : option (list ascii * list ascii) :=
  '(z, r) ← u_digits l;
  if surrogate z then
    match getu4 r with
    | Some (z2, r2) =>
        if (z <? 56320) && (56320 <=? z2) && (z2 <? 57344)
        then Some (encode_rune ((z - 55296) * 1024 + (z2 - 56320) + 65536), r2)
        else Some (replacement, r)
    | None => Some (replacement, r)
    end
  else Some (encode_rune z, r).

Definition read_escape (l : list ascii) : option (list ascii * list ascii) :=
  match l with
  | [] => None
  | e :: r =>
      let n := nat_of_ascii e in
      if (n =? 117)%nat then read_u r
      else if bool_decide (n ∈ [34; 92; 47]%nat) then Some ([e], r)
      else if (n =? 98)%nat then Some ([ch 8], r)
      else if (n =? 102)%nat then Some ([ch 12], r)
      else if (n =? 110)%nat then Some ([ch 10], r)
      else if (n =? 114)%nat then Some ([ch 13], r)
      else if (n =? 116)%nat then Some ([ch 9], r)
      else None
  end.

(** One rune of a string literal: the bytes it stands for. *)
Definition read_rune (l : list ascii) : option (list ascii * list ascii) :=
  match l with
  | [] => None
  | c :: r =>
      if (nat_of_ascii c <? 32)%nat then None
      else if (nat_of_ascii c =? 92)%nat then read_escape r
      else match rune_len l with
           | Some k => Some (take k l, drop k l)
           | None => Some (replacement, r)
           end
  end.

(** The rest of a string literal after its opening quote. *)
Fixpoint read_string (n : nat) (l : list ascii) : option (list ascii * list ascii) :=
  match n, l with
  | O, _ | _, [] => None
  | S n', c :: r =>
      if (nat_of_ascii c =? 34)%nat then Some ([], r)
      else '(o, r) ← read_rune l; '(s, rest) ← read_string n' r; Some (o ++ s, rest)
  end.

(** ** Values *)
Definition is_byte (k : nat) (c : ascii) : bool := (nat_of_ascii c =? k)%nat.

Definition read_literal (l : list ascii) : option (json * list ascii) :=
  match cut_prefix (bytes "true") l with
  | Some r => Some (JBool true, r)
  | None =>
      match cut_prefix (bytes "false") l with
      | Some r => Some (JBool false, r)
      | None => r ← cut_prefix (bytes "null") l; Some (JNull, r)
      end
  end.

(** [read_items] and [read_members] read on after [\[], [\{] or a comma. *)
Fixpoint read_value (n : nat) (l : list ascii) : option (json * list ascii) :=
  match n with
  | O => None
  | S n' =>
      match skip_space l with
      | [] => None
      | c :: r =>
          if is_byte 34 c then '(s, rest) ← read_string n' r; Some (JString (text s), rest)
          else if is_byte 91 c then
            match skip_space r with
            | d :: r1 => if is_byte 93 d then Some (JArray [], r1)
                         else '(vs, rest) ← read_items n' r; Some (JArray vs, rest)
            | [] => None
            end
          else if is_byte 123 c then
            match skip_space r with
            | d :: r1 => if is_byte 125 d then Some (JObject [], r1)
                         else '(ms, rest) ← read_members n' r; Some (JObject (of_members ms), rest)
            | [] => None
            end
          else if is_digit c || is_byte 45 c then '(s, rest) ← scan_number (c :: r); Some (JNumber (text s), rest)
          else read_literal (c :: r)
      end
  end
with read_items (n : nat) (l : list ascii) : option (list json * list ascii) :=
  match n with
  | O => None
  | S n' =>
      '(v, r) ← read_value n' l;
      match skip_space r with
      | c :: r1 => if is_byte 93 c then Some ([v], r1)
                   else if is_byte 44 c then '(vs, rest) ← read_items n' r1; Some (v :: vs, rest) else None
      | [] => None
      end
  end
with read_members (n : nat) (l : list ascii) : option (list (string * json) * list ascii) :=
  match n with
  | O => None
  | S n' =>
      match skip_space l with
      | q :: r =>
          if is_byte 34 q then
            '(k, r1) ← read_string n' r;
            match skip_space r1 with
            | col :: r2 =>
                if is_byte 58 col then
                  '(v, r3) ← read_value n' r2;
                  match skip_space r3 with
                  | c :: r4 => if is_byte 125 c then Some ([(text k, v)], r4)
                               else if is_byte 44 c then '(ms, rest) ← read_members n' r4; Some ((text k, v) :: ms, rest)
                               else None
                  | [] => None
                  end
                else None
            | [] => None
            end
          else None
      | [] => None
      end
  end.

Definition json_parse (raw : string) : option json :=
  '(v, rest) ← read_value (2 * String.length raw + 2) (bytes raw);
  match skip_space rest with [] => Some v | _ => None end.

(** [json.Marshal] of a decoded value. *)
Fixpoint print (v : json) : list ascii :=
  match v with
  | JNull => bytes "null"
  | JBool b => bytes (if b then "true" else "false")
  | JNumber l => bytes l
  | JString s => json_quote s
  | JArray vs => ch 91 :: join_bytes (ch 44) (map print vs) ++ [ch 93]
  | JObject ms => json_object (map (fun '(k, x) => (k, print x)) ms)
  end.
Definition json_print (v : json) : string := text (print v).

Example json_parse_ex :
  json_parse (" {" +:+ dq +:+ "b" +:+ dq +:+ ":[1.0, -2e3,true],"
              +:+ dq +:+ "a\u0041\uD83D\uDE00" +:+ dq +:+ ":null, " +:+ dq +:+ "b" +:+ dq +:+ ":{}} ")
  = Some (JObject [("aA" +:+ text (ch <$> [240; 159; 152; 128]%nat), JNull); ("b", JObject [])]).
Proof. vm_compute. reflexivity. Qed.
Example json_parse_ex2 : json_parse "[1,]" = None /\ json_parse "{} x" = None /\ json_parse "[ 01 ]" = None.
Proof. repeat split; vm_compute; reflexivity. Qed.
Example json_print_ex :
  json_print (JObject [("k", JArray [JNumber "1"; JString ("a<" +:+ dq); JBool false; JNull])])
  = "{" +:+ dq +:+ "k" +:+ dq +:+ ":[1," +:+ dq +:+ "a\u003c\" +:+ dq +:+ dq +:+ ",false,null]}".
Proof. vm_compute. reflexivity. Qed.

(** ** Reading what was written *)
Lemma read_quoted_byte c x : in_range 0 127 c = true -> read_rune (quote_byte c ++ x) = Some ([c], x).
Proof. each_ascii c; intros Hc; solve [discriminate Hc|reflexivity]. Qed.

Lemma read_raw_rune c r k x :
  rune_len (c :: r) = Some k -> k <> 1%nat -> read_rune (take k (c :: r) ++ x) = Some (take k (c :: r), x).
Proof.
  intros Hk Hne. pose proof (rune_len_many c r k Hk Hne). destruct (rune_len_take _ _ x Hk) as (Hr & Hl & Hk1).
  destruct k as [|k]; [lia|]. cbn [take app read_rune] in *.
  destruct (Nat.ltb_spec (nat_of_ascii c) 32); [lia|]. destruct (Nat.eqb_spec (nat_of_ascii c) 92); [lia|]. rewrite Hr.
  cbn [take drop]. injection Hl as Hl. rewrite take_app_length', drop_app_length'; done.
Qed.

Lemma read_quoted_rune c r k x :
  rune_len (c :: r) = Some k -> read_rune (quote_rune k (c :: r) ++ x) = Some (take k (c :: r), x).
Proof.
  intros Hk. destruct (decide (k = 1%nat)) as [->|Hne]; [by apply read_quoted_byte, rune_len_one with r|].
  assert (quote_rune k (c :: r) = match line_sep (c :: r) with Some lo => u_escape 32 lo | None => take k (c :: r) end) as ->
    by (by destruct k as [|[|k]]).
  destruct (line_sep (c :: r)) as [lo|] eqn:El; [|by apply read_raw_rune].
  apply line_sep_inv in El as (d & r' & E & Hlo). rewrite E in *.
  assert (k = 3%nat) as -> by (destruct Hlo as [[_ ->]|[_ ->]]; vm_compute in Hk; congruence).
  by destruct Hlo as [[-> ->]|[-> ->]].
Qed.

Lemma read_string_step n l : (forall x, l <> ch 34 :: x) -> read_string (S n) l = '(o, r) ← read_rune l; '(s, rest) ← read_string n r; Some (o ++ s, rest).
Proof.
  intros Hl. destruct l as [|c r]; [done|]. cbn [read_string]. destruct (Nat.eqb_spec (nat_of_ascii c) 34) as [E|]; [|done].
  destruct (Hl r). by rewrite <- (ascii_nat_embedding c), E.
Qed.

Lemma read_quoted m l n x :
  valid_utf8_n m l = true -> (length l < n)%nat -> read_string n (quote_n m l ++ ch 34 :: x) = Some (l, x).
Proof.
  revert l n. induction m as [|m IH]; intros l n V Hn.
  { destruct l; [|done]. by destruct n; [lia|]. }
  destruct l as [|c r]; [by destruct n; [lia|]|]. destruct n as [|n]; [lia|].
  apply valid_utf8_step in V as (k & Hk & V). rewrite (quote_n_step _ _ _ _ Hk), <- app_assoc.
  destruct (rune_len_take _ _ [] Hk) as (_ & Hlk & Hk1).
  rewrite read_string_step.
  - rewrite (read_quoted_rune _ _ _ _ Hk). cbn [mbind option_bind].
    rewrite IH; [|done|rewrite length_drop; simpl in *; lia]. cbn [mbind option_bind]. by rewrite take_drop.
  - intros y E. destruct (quote_rune k (c :: r)) as [|d z] eqn:Ez.
    + pose proof (read_quoted_rune c r k [] Hk) as Hu. rewrite Ez in Hu. by destruct k.
    + injection E as ->. by apply (quote_rune_head c r k z Hk).
Qed.

Lemma length_bytes s : length (bytes s) = String.length s.
Proof. induction s as [|c s IH]; [done|]. cbn. by f_equal. Qed.

Lemma read_json_quote s n x :
  ValidString s = true -> (String.length s < n)%nat ->
  exists r, json_quote s ++ x = ch 34 :: r /\ read_string n r = Some (bytes s, x).
Proof.
  intros V Hn. eexists. split; [unfold json_quote; cbn [app]; reflexivity|]. rewrite <- app_assoc.
  apply read_quoted; [done|]. by rewrite length_bytes.
Qed.

Lemma quote_rune_length c r k : rune_len (c :: r) = Some k -> (k <= length (quote_rune k (c :: r)))%nat.
Proof.
  intros Hk. destruct (rune_len_take _ _ [] Hk) as (_ & Hl & _). pose proof (read_quoted_rune c r k [] Hk) as Hu.
  assert (quote_rune k (c :: r) <> []) as Hne by (intros E; by rewrite E in Hu).
  unfold quote_rune in *. destruct k as [|[|k]]; [lia|by destruct (quote_byte c); simpl; [|lia]|].
  destruct (line_sep (c :: r)) as [lo|] eqn:El; [|lia]. apply line_sep_inv in El as (d & r' & E & Hlo). rewrite E in Hk.
  by destruct Hlo as [[-> ->]|[-> ->]]; vm_compute in Hk; injection Hk as <-; simpl; lia.
Qed.

Lemma quoted_length s : ValidString s = true -> (String.length s + 2 <= length (json_quote s))%nat.
Proof.
  unfold ValidString, json_quote. rewrite <- (length_bytes s). cbn [length]. rewrite length_app. cbn [length].
  enough (forall m l, valid_utf8_n m l = true -> (length l <= length (quote_n m l))%nat) as H.
  { intros V. apply H in V. rewrite length_bytes in *. lia. }
  induction m as [|m IH]; intros l V; [by destruct l|]. destruct l as [|c r]; [simpl; lia|].
  apply valid_utf8_step in V as (k & Hk & V). rewrite (quote_n_step _ _ _ _ Hk), length_app.
  specialize (IH _ V). rewrite length_drop in IH. pose proof (quote_rune_length _ _ _ Hk). lia.
Qed.

(** What may follow a number in a text. *)
Definition ends_number (l : list ascii) : Prop :=
  match l with [] => True | c :: _ => is_digit c = false /\ is_dot c = false /\ is_exp c = false end.

Lemma ends_no_digit l : ends_number l -> no_digit l.
Proof. destruct l as [|c l]; [done|]. by intros [? _]. Qed.

Lemma code_neq (c : ascii) (k : nat) : c <> ch k -> (nat_of_ascii c =? k)%nat = false.
Proof. intros Hne. apply Nat.eqb_neq. intros E. apply Hne. by rewrite <- (ascii_nat_embedding c), E. Qed.

(** The number of a text, part after part. *)
Section ScanNumber.
Context (pre rest : list ascii) (Hr : ends_number rest).

Definition scan_exponent (l : list ascii) : option (list ascii * list ascii) :=
  match l with
  | c :: r =>
      if ((nat_of_ascii c =? 101) || (nat_of_ascii c =? 69))%nat then
        let '(sg, r1) := match r with
                         | s :: r' => if bool_decide (nat_of_ascii s ∈ [43; 45]%nat) then ([s], r') else ([], r)
                         | [] => ([], r)
                         end in
        match take_digits r1 with
        | ([], _) => None
        | (es, r2) => Some (pre ++ c :: sg ++ es, r2)
        end
      else Some (pre, l)
  | [] => Some (pre, l)
  end.

Lemma scan_exponent_text ex x : exp_text ex x -> scan_exponent (ex ++ rest) = Some (pre ++ ex, rest).
Proof.
  intros [[-> _]|(e & sg & ds & -> & He & Hne & Hd & Hsg)].
  - rewrite app_nil_r. destruct rest as [|c r]; [done|]. destruct Hr as (_ & _ & Hc). cbn [app scan_exponent].
    rewrite !code_neq; [done|intros ->; done..].
  - assert (exists d ds', ds = d :: ds') as (d & ds' & Eds) by (destruct ds; [done|eauto]).
    assert (d <> "+"%char /\ d <> "-"%char) as [Hp Hm] by (apply digits_head_not_sign with ds'; by rewrite <- Eds).
    assert (((nat_of_ascii e =? 101) || (nat_of_ascii e =? 69))%nat = true) as Ee.
    { unfold is_exp in He. apply orb_true_iff in He as [He|He]; apply bool_decide_eq_true_1 in He as ->; done. }
    assert (match (sg ++ ds) ++ rest with
            | s :: r' => if bool_decide (nat_of_ascii s ∈ [43; 45]%nat) then ([s], r') else ([], (sg ++ ds) ++ rest)
            | [] => ([], (sg ++ ds) ++ rest)
            end = (sg, ds ++ rest)) as Esg.
    { destruct Hsg as [[[->| ->] _]|[-> _]]; [|done..]. rewrite Eds. cbn [app].
      rewrite bool_decide_false; [done|]. rewrite !elem_of_cons, elem_of_nil. intros [E|[E|[]]];
        [apply Hp|apply Hm]; by rewrite <- (ascii_nat_embedding d), E. }
    cbn [app scan_exponent]. rewrite Ee, Esg. rewrite (take_digits_app ds rest Hd (ends_no_digit _ Hr)).
    by rewrite Eds.
Qed.
End ScanNumber.

Lemma scan_number_parts raw neg i f x rest :
  number_parts raw neg i f x -> ends_number rest -> scan_number (raw ++ rest) = Some (raw, rest).
Proof.
  intros (fr & ex & -> & (Hi & Hdi & Hz) & Hf & Hx) Hr. destruct i as [|d i]; [done|].
  assert (no_digit (ex ++ rest)) as Hn2.
  { destruct Hx as [[-> _]|(e & sg & ds & -> & He & _)]; [by apply ends_no_digit|]. by apply exp_no_digit. }
  assert (no_digit (fr ++ ex ++ rest)) as Hn1 by (by apply fraction_no_digit with f).
  unfold scan_number. rewrite <- !app_assoc.
  assert (match sign_text neg ++ (d :: i) ++ fr ++ ex ++ rest with
          | c :: r => if (nat_of_ascii c =? 45)%nat then ([c], r) else ([], sign_text neg ++ (d :: i) ++ fr ++ ex ++ rest)
          | [] => ([], sign_text neg ++ (d :: i) ++ fr ++ ex ++ rest)
          end = (sign_text neg, (d :: i) ++ fr ++ ex ++ rest)) as ->.
  { destruct neg; [done|]. cbn [sign_text app]. rewrite code_neq; [done|]. by apply digits_head_not_sign in Hdi as [_ ?]. }
  rewrite (take_digits_app _ _ Hdi Hn1).
  assert ((if (nat_of_ascii d =? 48)%nat then Some ([d], i ++ fr ++ ex ++ rest) else Some (d :: i, fr ++ ex ++ rest))
          = Some (d :: i, fr ++ ex ++ rest)) as ->.
  { destruct (Nat.eqb_spec (nat_of_ascii d) 48) as [E|]; [|done]. destruct i as [|d2 i]; [done|]. destruct Hz.
    split; [simpl; lia|]. simpl. by rewrite <- (ascii_nat_embedding d), E. }
  assert (match fr ++ ex ++ rest with
          | c :: r => if (nat_of_ascii c =? 46)%nat
                      then match take_digits r with ([], _) => None | (fs, r') => Some (c :: fs, r') end
                      else Some ([], fr ++ ex ++ rest)
          | [] => Some ([], fr ++ ex ++ rest)
          end = Some (fr, ex ++ rest)) as ->.
  { destruct Hf as [[-> ->]|(-> & Hne & Hdf)].
    - cbn [app]. destruct (ex ++ rest) as [|c r] eqn:E; [done|]. rewrite code_neq; [done|]. intros ->.
      destruct Hx as [[-> _]|(e & sg & ds & -> & He & _)].
      + simpl in E. rewrite E in Hr. by destruct Hr as (_ & ? & _).
      + injection E as -> _. done.
    - cbn [app]. change (nat_of_ascii "."%char =? 46)%nat with true. cbv iota. rewrite (take_digits_app _ _ Hdf Hn2).
      by destruct f. }
  cbv zeta beta iota. pose proof (scan_exponent_text (sign_text neg ++ (d :: i) ++ fr) rest Hr ex x Hx) as He.
  unfold scan_exponent in He. rewrite <- !app_assoc in He. rewrite <- He.
  repeat case_match; simplify_eq; by rewrite <- ?app_assoc.
Qed.

(** ** Whole values *)
Definition delimiter (l : list ascii) : Prop := l = [] \/ exists c r, l = c :: r /\ (is_byte 44 c || is_byte 93 c || is_byte 125 c) = true.

Lemma delimiter_ends l : delimiter l -> ends_number l.
Proof.
  intros [->|(c & r & -> & Hc)]; [done|]. unfold is_byte in Hc. rewrite !orb_true_iff, !Nat.eqb_eq in Hc.
  assert (c = ch 44 \/ c = ch 93 \/ c = ch 125) as Hcs.
  { rewrite <- (ascii_nat_embedding c). destruct Hc as [[-> | ->]| ->]; auto. }
  by destruct Hcs as [->|[->| ->]].
Qed.

Lemma printed_number raw r rest :
  number_value raw = Some r -> ends_number rest ->
  scan_number (raw ++ rest) = Some (raw, rest)
  /\ exists c t, raw = c :: t /\ (is_digit c || is_byte 45 c) = true /\ json_space c = false.
Proof.
  intros Hv Hr. apply number_value_parts in Hv as (neg & i & f & x & Hp & _). split; [by eapply scan_number_parts|].
  destruct Hp as (fr & ex & -> & (Hi & Hd & _) & _). destruct neg; [by eexists _, _|].
  destruct i as [|c i]; [done|]. exists c, (i ++ fr ++ ex). split; [done|].
  rewrite digitsOnly_cons in Hd. apply andb_prop in Hd as [Hc _]. split; [by rewrite Hc|].
  clear -Hc. by each_ascii c.
Qed.

(** The text of a value does not begin with white space, nor with a closing
    bracket. *)
Definition opens (l : list ascii) : Prop :=
  exists c r, l = c :: r /\ json_space c = false /\ is_byte 93 c = false /\ is_byte 125 c = false.

Lemma opens_skip l : opens l -> skip_space l = l.
Proof. intros (c & r & -> & Hc & _). simpl. by rewrite Hc. Qed.

Lemma print_opens v rest : decoded v = true -> opens (print v ++ rest).
Proof.
  destruct v as [|[]|l|s|vs|ms]; intros Hd; [by eexists _, _..| |by eexists _, _|by eexists _, _|by eexists _, _].
  simpl in Hd. apply bool_decide_eq_true in Hd as [r Hr].
  destruct (printed_number _ _ [] Hr I) as (_ & c & t & E & Hc & Hs). exists c, (t ++ rest). simpl. rewrite E. split; [done|].
  split; [done|]. clear -Hc. each_ascii c; solve [by split|discriminate Hc].
Qed.

Fixpoint printed_items (vs : list json) : list ascii :=
  match vs with [] => [] | [v] => print v | v :: vs => print v ++ ch 44 :: printed_items vs end.
Definition printed_member (m : string * json) : list ascii := json_quote m.1 ++ ch 58 :: print m.2.
Fixpoint printed_members (ms : list (string * json)) : list ascii :=
  match ms with [] => [] | [m] => printed_member m | m :: ms => printed_member m ++ ch 44 :: printed_members ms end.

Lemma print_items vs : join_bytes (ch 44) (map print vs) = printed_items vs.
Proof.
  induction vs as [|v vs IH]; [done|]. destruct vs as [|w vs]; [done|].
  change (print v ++ ch 44 :: join_bytes (ch 44) (map print (w :: vs)) = print v ++ ch 44 :: printed_items (w :: vs)).
  by rewrite IH.
Qed.

Lemma print_members ms : json_object (map (fun '(k, x) => (k, print x)) ms) = ch 123 :: printed_members ms ++ [ch 125].
Proof.
  unfold json_object. f_equal. f_equal.
  set (lay := fun '(k, v) => json_quote k ++ ch 58 :: v).
  induction ms as [|[k v] ms IH]; [done|]. destruct ms as [|m ms]; [done|].
  change (printed_member (k, v) ++ ch 44 :: join_bytes (ch 44) (lay <$> map (fun '(k, x) => (k, print x)) (m :: ms))
          = printed_member (k, v) ++ ch 44 :: printed_members (m :: ms)).
  by rewrite IH.
Qed.

Lemma opens_items v vs rest : decoded v = true -> opens (printed_items (v :: vs) ++ rest).
Proof.
  intros Hv. destruct vs as [|w vs]; [by apply print_opens|].
  change (printed_items (v :: w :: vs)) with (print v ++ ch 44 :: printed_items (w :: vs)). rewrite <- app_assoc. by apply print_opens.
Qed.

(** The three readers, on the text of a value followed by [rest], with fuel for
    every byte. *)
Definition reads (v : json) : Prop :=
  forall n rest, decoded v = true -> delimiter rest -> (length (print v) < n)%nat -> read_value n (print v ++ rest) = Some (v, rest).

Lemma delimiter_no_space c l : delimiter (c :: l) -> json_space c = false.
Proof.
  intros [?|(c' & r & [= -> ->] & Hc)]; [done|]. clear -Hc. each_ascii c'; solve [reflexivity|discriminate Hc].
Qed.

Lemma item_step v n c rest :
  reads v -> decoded v = true -> delimiter (c :: rest) -> (length (print v) < n)%nat ->
  read_items (S n) (print v ++ c :: rest)
  = if is_byte 93 c then Some ([v], rest)
    else if is_byte 44 c then '(vs, r) ← read_items n rest; Some (v :: vs, r) else None.
Proof.
  intros Hv Hd Hc Hn. cbn [read_items]. rewrite Hv by done. cbn [mbind option_bind skip_space].
  by rewrite (delimiter_no_space _ _ Hc).
Qed.

Lemma member_step k v n c rest :
  reads v -> ValidString k = true -> decoded v = true -> delimiter (c :: rest) ->
  (length (printed_member (k, v)) < n)%nat ->
  read_members (S n) (printed_member (k, v) ++ c :: rest)
  = if is_byte 125 c then Some ([(k, v)], rest)
    else if is_byte 44 c then '(ms, r) ← read_members n rest; Some ((k, v) :: ms, r) else None.
Proof.
  intros Hv Hk Hd Hc Hn. pose proof (quoted_length k Hk) as Hl. unfold printed_member in *. cbn [fst snd] in *.
  rewrite length_app in Hn. cbn [length] in Hn. rewrite <- app_assoc. cbn [app]. cbn [read_members].
  destruct (read_json_quote k n (ch 58 :: print v ++ c :: rest) Hk) as (r & E & Hq); [lia|]. rewrite E.
  cbn [skip_space]. change (json_space (ch 34)) with false. cbv iota. change (is_byte 34 (ch 34)) with true. cbv iota.
  rewrite Hq. cbn [mbind option_bind skip_space]. change (json_space (ch 58)) with false. cbv iota.
  change (is_byte 58 (ch 58)) with true. cbv iota. rewrite Hv by (done || lia). cbn [mbind option_bind skip_space].
  rewrite (delimiter_no_space _ _ Hc). by rewrite text_bytes.
Qed.

Lemma comma_delimits l : delimiter (ch 44 :: l).
Proof. right. by eexists _, _. Qed.
Lemma bracket_delimits l : delimiter (ch 93 :: l).
Proof. right. by eexists _, _. Qed.
Lemma brace_delimits l : delimiter (ch 125 :: l).
Proof. right. by eexists _, _. Qed.
#[local] Hint Resolve comma_delimits bracket_delimits brace_delimits : core.

Lemma items_read v vs n rest :
  Forall reads (v :: vs) -> forallb decoded (v :: vs) = true -> (length (printed_items (v :: vs)) + 1 < n)%nat ->
  read_items n (printed_items (v :: vs) ++ ch 93 :: rest) = Some (v :: vs, rest).
Proof.
  revert v n. induction vs as [|w vs IH]; intros v n Hr Hd Hn; apply list.Forall_cons in Hr as [Hv Hr];
    cbn [forallb] in Hd; apply andb_prop in Hd as [Hdv Hd]; (destruct n as [|n]; [lia|]).
  - change (printed_items [v]) with (print v) in *. by rewrite item_step by (auto; lia).
  - change (printed_items (v :: w :: vs)) with (print v ++ ch 44 :: printed_items (w :: vs)) in *.
    rewrite length_app in Hn. cbn [length] in Hn. rewrite <- app_assoc. cbn [app].
    rewrite item_step by (auto; lia). change (is_byte 93 (ch 44)) with false. cbv iota.
    by rewrite IH by (done || lia).
Qed.

Lemma members_read m ms n rest :
  Forall (fun m => reads m.2) (m :: ms) -> forallb (fun '(k, x) => ValidString k && decoded x) (m :: ms) = true ->
  (length (printed_members (m :: ms)) + 1 < n)%nat ->
  read_members n (printed_members (m :: ms) ++ ch 125 :: rest) = Some (m :: ms, rest).
Proof.
  revert m n. induction ms as [|m2 ms IH]; intros [k v] n Hr Hd Hn; apply list.Forall_cons in Hr as [Hv Hr];
    cbn [forallb] in Hd; apply andb_prop in Hd as [[Hk Hdv]%andb_prop Hd]; (destruct n as [|n]; [lia|]).
  - change (printed_members [(k, v)]) with (printed_member (k, v)) in *. by rewrite member_step by (auto; lia).
  - change (printed_members ((k, v) :: m2 :: ms)) with (printed_member (k, v) ++ ch 44 :: printed_members (m2 :: ms)) in *.
    rewrite length_app in Hn. cbn [length] in Hn. rewrite <- app_assoc. cbn [app].
    rewrite member_step by (auto; lia). change (is_byte 125 (ch 44)) with false. cbv iota.
    by rewrite IH by (done || lia).
Qed.

Lemma read_value_open n l c r :
  l = c :: r -> json_space c = false ->
  read_value (S n) l
  = if is_byte 34 c then '(s, rest) ← read_string n r; Some (JString (text s), rest)
    else if is_byte 91 c then
      match skip_space r with
      | d :: r1 => if is_byte 93 d then Some (JArray [], r1) else '(vs, rest) ← read_items n r; Some (JArray vs, rest)
      | [] => None
      end
    else if is_byte 123 c then
      match skip_space r with
      | d :: r1 => if is_byte 125 d then Some (JObject [], r1)
                   else '(ms, rest) ← read_members n r; Some (JObject (of_members ms), rest)
      | [] => None
      end
    else if is_digit c || is_byte 45 c then '(s, rest) ← scan_number (c :: r); Some (JNumber (text s), rest)
    else read_literal (c :: r).
Proof. intros -> Hc. cbn [read_value skip_space]. by rewrite Hc. Qed.

Lemma read_opened l :
  opens l -> exists c r, l = c :: r /\ is_byte 93 c = false /\ is_byte 125 c = false /\ skip_space l = c :: r.
Proof. intros Ho. pose proof (opens_skip _ Ho) as Hs. destruct Ho as (c & r & -> & _ & H1 & H2). by exists c, r. Qed.

(** Every decoded value is read back. *)
Lemma reads_printed v : reads v.
Proof.
  induction v as [|b|l|s|vs IH|ms IH] using json_nested_ind; intros n rest Hd Hr Hn; (destruct n as [|n]; [lia|]).
  - by rewrite (read_value_open n _ "n"%char (bytes "ull" ++ rest)).
  - destruct b; [by rewrite (read_value_open n _ "t"%char (bytes "rue" ++ rest))|by rewrite (read_value_open n _ "f"%char (bytes "alse" ++ rest))].
  - simpl in Hd. apply bool_decide_eq_true in Hd as [r Hv]. change (print (JNumber l)) with (bytes l) in *.
    destruct (printed_number _ _ rest Hv (delimiter_ends _ Hr)) as (Hs & c & t & E & Hc & Hsp).
    rewrite (read_value_open n _ c (t ++ rest)); [|by rewrite E|done].
    change (c :: t ++ rest) with ((c :: t) ++ rest). rewrite <- E, Hs, Hc. cbn [mbind option_bind]. rewrite text_bytes.
    clear -Hc. unfold is_byte in *. each_ascii c; solve [reflexivity|discriminate Hc].
  - change (print (JString s)) with (json_quote s) in *. simpl in Hd. pose proof (quoted_length s Hd).
    destruct (read_json_quote s n rest Hd) as (r & E & Hq); [lia|]. rewrite (read_value_open n _ _ _ E) by done.
    change (is_byte 34 (ch 34)) with true. cbv iota. rewrite Hq. simpl. by rewrite text_bytes.
  - change (print (JArray vs)) with (ch 91 :: join_bytes (ch 44) (map print vs) ++ [ch 93]) in *.
    rewrite print_items in *. cbn [app]. rewrite (read_value_open n _ (ch 91) ((printed_items vs ++ [ch 93]) ++ rest)) by done.
    change (is_byte 34 (ch 91)) with false. change (is_byte 91 (ch 91)) with true. cbv iota.
    rewrite <- app_assoc. cbn [app]. cbn [length] in Hn. rewrite length_app in Hn. cbn [length] in Hn.
    destruct vs as [|v vs]; [done|]. simpl in Hd. destruct (proj1 (andb_true_iff _ _) Hd) as [Hdv _].
    destruct (read_opened _ (opens_items v vs (ch 93 :: rest) Hdv)) as (c & r & E & Hc & _ & Hsk).
    rewrite Hsk, Hc. by rewrite items_read by (done || lia).
  - unfold print in *. fold print in *. rewrite print_members in *. cbn [app].
    rewrite (read_value_open n _ (ch 123) ((printed_members ms ++ [ch 125]) ++ rest)) by done.
    change (is_byte 34 (ch 123)) with false. change (is_byte 91 (ch 123)) with false. change (is_byte 123 (ch 123)) with true. cbv iota.
    rewrite <- app_assoc. cbn [app]. cbn [length] in Hn. rewrite length_app in Hn. cbn [length] in Hn.
    destruct ms as [|[k v] ms]; [done|]. cbn [decoded] in Hd. apply andb_prop in Hd as [Ho Hd].
    assert (exists r, printed_members ((k, v) :: ms) ++ ch 125 :: rest = ch 34 :: r) as [r E].
    { destruct ms as [|m ms]; [by eexists|]. by eexists. }
    rewrite E at 1. cbn [skip_space]. change (json_space (ch 34)) with false. change (is_byte 125 (ch 34)) with false. cbv iota.
    rewrite members_read by (done || lia). cbn [mbind option_bind]. by rewrite of_members_ordered.
Qed.

Lemma parse_printed v : decoded v = true -> json_parse (json_print v) = Some v.
Proof.
  intros Hv. unfold json_parse, json_print. rewrite bytes_text, <- (length_bytes (text _)), bytes_text.
  rewrite <- (app_nil_r (print v)) at 2. rewrite (reads_printed v); [done|done|by left|lia].
Qed.

(** writing a decoded value (numbers by their literals, valid UTF-8
    strings, maps with distinct keys in order) and reading the text gives the
    same value back, so that no two values have the same text. *)
Lemma json_roundtrip v w :
  decoded v = true -> decoded w = true ->
  json_parse (json_print v) = Some v /\ (json_print v = json_print w -> v = w).
Proof.
  intros Hv Hw. split; [by apply parse_printed|]. intros E. apply parse_printed in Hv, Hw. rewrite E in Hv. congruence.
Qed.

Lemma json_roundtrip_witness :
  let v := JObject [("a", JArray [JNumber "1.50"; JNull]); ("b", JString ("q" +:+ dq +:+ "<"))] in
  json_parse (json_print v) = Some v /\ (json_print v = json_print v -> v = v).
Proof. apply (json_roundtrip (JObject _) (JObject _)); vm_compute; reflexivity. Defined.
