(* ===== verification/JsonDecoded.v ===== *)
(** * What the decoder returns is decoded

    Strings read from a text are UTF-8, number literals follow the grammar and
    maps are ordered, so that a value read from a text is copied exactly by
    writing and reading it again. *)
From stdpp Require Import base strings list numbers sets.
From Stdlib Require Import ZArith Lia Ascii.
From S2P Require Import Prelude GoStrings Digest GoJson JsonQuote CanonicalNumber JsonValue JsonCodec.

Open Scope Z_scope.

(** ** Runes *)
Definition one_rune (o : list ascii) : Prop := rune_len o = Some (length o) /\ o <> [].

Lemma nat_of_chz z : 0 <= z < 256 -> nat_of_ascii (chz z) = Z.to_nat z.
Proof. intros Hz. unfold chz, ch. apply nat_ascii_embedding. lia. Qed.

Lemma in_range_chz lo hi z : 0 <= z < 256 -> in_range lo hi (chz z) = bool_decide (Z.of_nat lo <= z <= Z.of_nat hi).
Proof.
  intros Hz. apply eq_true_iff_eq. rewrite in_range_spec, nat_of_chz, bool_decide_eq_true by done. lia.
Qed.

Ltac byte_ranges :=
  unfold cont_byte; rewrite ?in_range_chz by (Z.div_mod_to_equations; lia);
  repeat (first [rewrite bool_decide_true by (Z.div_mod_to_equations; lia)
               | rewrite bool_decide_false by (Z.div_mod_to_equations; lia)]).

Lemma encode_rune_one z : 0 <= z <= 1114111 -> one_rune (encode_rune z).
Proof.
  intros Hz. unfold encode_rune, surrogate.
  destruct (Z.ltb_spec z 128); [split; [|done]; simpl; by byte_ranges|].
  destruct (Z.ltb_spec z 2048); [split; [|done]; cbn [rune_len length]; by byte_ranges|].
  destruct (_ || _) eqn:Es; [by split|]. apply orb_false_iff in Es as [Es _].
  assert (z < 55296 \/ 57344 <= z) as Hs by (apply andb_false_iff in Es; rewrite Z.leb_gt, Z.ltb_ge in Es; lia).
  destruct (Z.ltb_spec z 65536).
  - split; [|done]. cbn [rune_len length]. cbv zeta.
    destruct (decide (z / 4096 = 0)); [by byte_ranges|]. destruct (decide (z / 4096 = 13)); by byte_ranges.
  - split; [|done]. cbn [rune_len length]. cbv zeta.
    destruct (decide (z / 262144 = 0)); [by byte_ranges|]. destruct (decide (z / 262144 = 4)); by byte_ranges.
Qed.

Lemma rune_len_app o s : one_rune o -> rune_len (o ++ s) = Some (length o).
Proof.
  intros [Ho _]. destruct (rune_len_take o _ s Ho) as (H & _ & _). by rewrite take_ge in H by done.
Qed.

Lemma valid_more n m l : valid_utf8_n n l = true -> (n <= m)%nat -> valid_utf8_n m l = true.
Proof.
  revert m l. induction n as [|n IH]; intros m l Hv Hm; [destruct l; [apply valid_utf8_nil|done]|].
  destruct m as [|m]; [lia|]. destruct l as [|c r]; [done|]. apply valid_utf8_step in Hv as (k & Hk & Hv).
  cbn [valid_utf8_n]. rewrite Hk. apply IH; [done|lia].
Qed.

Lemma valid_app o n s : one_rune o -> valid_utf8_n n s = true -> valid_utf8_n (length o + n) (o ++ s) = true.
Proof.
  intros Ho Hs. pose proof (rune_len_app o s Ho) as Hr. destruct Ho as [_ Hne]. destruct o as [|c o]; [done|].
  cbn [length Nat.add app valid_utf8_n] in *. rewrite Hr. change (drop (S (length o)) (c :: o ++ s)) with (drop (length o) (o ++ s)).
  rewrite drop_app_length. apply valid_more with n; [done|lia].
Qed.

(** ** Strings *)
Lemma hex_val_range c : hex_char c = true -> 0 <= hex_val c < 16.
Proof.
  unfold hex_char, hex_val. rewrite !orb_true_iff, !in_range_spec. intros H.
  destruct (Z.ltb_spec (Z.of_nat (nat_of_ascii c)) 58); [lia|]. destruct (Z.ltb_spec (Z.of_nat (nat_of_ascii c)) 71); lia.
Qed.

Lemma u_digits_range l z r : u_digits l = Some (z, r) -> 0 <= z < 65536.
Proof.
  destruct l as [|h1 [|h2 [|h3 [|h4 l]]]]; simpl; try done.
  destruct (hex_char h1) eqn:E1, (hex_char h2) eqn:E2, (hex_char h3) eqn:E3, (hex_char h4) eqn:E4; simpl; try done.
  intros [= <- <-]. apply hex_val_range in E1, E2, E3, E4. lia.
Qed.

Lemma replacement_one : one_rune replacement.
Proof. by split. Qed.

Lemma read_u_one l o r : read_u l = Some (o, r) -> one_rune o.
Proof.
  unfold read_u. destruct (u_digits l) as [[z r0]|] eqn:E; [|done]. simpl. apply u_digits_range in E.
  unfold surrogate. destruct ((55296 <=? z) && (z <? 57344)) eqn:Es; [|intros [= <- <-]; apply encode_rune_one; lia].
  apply andb_prop in Es as [Es1 Es2]. rewrite Z.leb_le, Z.ltb_lt in *.
  destruct (getu4 r0) as [[z2 r2]|]; [|intros [= <- <-]; apply replacement_one].
  destruct (_ && _) eqn:E2; intros [= <- <-]; [|apply replacement_one]. apply encode_rune_one.
  rewrite !andb_true_iff, !Z.ltb_lt, Z.leb_le in E2. lia.
Qed.

Lemma ascii_one c : (nat_of_ascii c < 128)%nat -> one_rune [c].
Proof.
  intros Hc. split; [|done]. cbn [rune_len length]. assert (in_range 0 127 c = true) as ->; [|done]. apply in_range_spec. lia.
Qed.

Lemma read_escape_one l o r : read_escape l = Some (o, r) -> one_rune o.
Proof.
  unfold read_escape. destruct l as [|e l]; [done|]. cbv zeta. destruct (_ =? 117)%nat; [apply read_u_one|].
  case_bool_decide as He; [intros [= <- <-]; apply ascii_one; rewrite !elem_of_cons, elem_of_nil in He; lia|].
  repeat (case_match; [intros [= <- <-]; apply ascii_one; simpl; vm_compute; lia|]). done.
Qed.

Lemma read_rune_one l o r : read_rune l = Some (o, r) -> one_rune o.
Proof.
  unfold read_rune. destruct l as [|c l]; [done|]. destruct (_ <? 32)%nat; [done|].
  destruct (_ =? 92)%nat; [apply read_escape_one|]. destruct (rune_len (c :: l)) as [k|] eqn:E; intros [= <- <-]; [|apply replacement_one].
  destruct (rune_len_take _ _ [] E) as (Hr & Hl & Hk). rewrite app_nil_r in Hr. split; [by rewrite Hr, Hl|].
  intros E0. rewrite E0 in Hl. simpl in Hl. lia.
Qed.

Lemma read_string_valid n l s r : read_string n l = Some (s, r) -> ValidString (text s) = true.
Proof.
  intros E. unfold ValidString. rewrite bytes_text, <- length_bytes, bytes_text. revert l s r E.
  induction n as [|n IH]; intros l s r E; [done|]. destruct l as [|c l]; [done|]. cbn [read_string] in E.
  destruct (_ =? 34)%nat; [by injection E as <- <-|].
  destruct (read_rune (c :: l)) as [[o r1]|] eqn:Er; [|done]. cbn [mbind option_bind] in E.
  destruct (read_string n r1) as [[s1 r2]|] eqn:Es; [|done]. injection E as <- <-.
  rewrite length_app. apply valid_app; [by eapply read_rune_one|by eapply IH].
Qed.

(** ** Numbers *)
Lemma scan_number_valid l s rest : scan_number l = Some (s, rest) -> is_Some (number_value s).
Proof.
  intros E. enough (exists neg i f x, number_parts s neg i f x) as (neg & i & f & x & Hp).
  { assert (number_value s = Some (mkReading neg (i ++ f) (x - Z.of_nat (length f)) x)) as ->; [|by eexists].
    apply number_value_parts. eauto 10. }
  unfold scan_number in E.
  assert (exists neg l1, match l with c :: r => if (nat_of_ascii c =? 45)%nat then ([c], r) else ([], l) | [] => ([], l) end
                      = (sign_text neg, l1)) as (neg & l1 & E1).
  { destruct l as [|c r]; [by exists false, []|]. destruct (Nat.eqb_spec (nat_of_ascii c) 45) as [H|]; [|by exists false, (c :: r)].
    exists true, r. by rewrite <- (ascii_nat_embedding c), H. }
  rewrite E1 in E. clear E1. exists neg. destruct (take_digits l1) as [ds l2] eqn:Ed. apply take_digits_inv in Ed as (_ & Hds & _).
  destruct ds as [|d ds]; [done|].
  assert (exists i l3, (if (nat_of_ascii d =? 48)%nat then Some ([d], ds ++ l2) else Some (d :: ds, l2)) = Some (i, l3) /\ int_text i)
    as (i & l3 & E2 & Hi).
  { destruct (Nat.eqb_spec (nat_of_ascii d) 48) as [H|H].
    - eexists _, _. split; [done|]. split; [done|]. split; [|simpl; lia]. rewrite digitsOnly_cons in *. by apply andb_prop in Hds as [-> _].
    - eexists _, _. split; [done|]. split; [done|]. split; [done|]. intros [_ [= ->]]. done. }
  rewrite E2 in E. clear E2 Hds. exists i.
  match type of E with match ?m with _ => _ end = _ => destruct m as [[fp l4]|] eqn:Ef; [|done] end.
  assert (exists f, fraction_text fp f) as [f Hf].
  { destruct l3 as [|c r]; [injection Ef as <- <-; exists []; by left|].
    destruct (Nat.eqb_spec (nat_of_ascii c) 46) as [H|]; [|injection Ef as <- <-; exists []; by left].
    destruct (take_digits r) as [[|d1 fs] r'] eqn:Et; [done|]. injection Ef as <- <-. apply take_digits_inv in Et as (_ & Hfs & _).
    exists (d1 :: fs). right. split; [|done]. by rewrite <- (ascii_nat_embedding c), H. }
  exists f. clear Ef.
  assert (exists ex x, s = sign_text neg ++ i ++ fp ++ ex /\ exp_text ex x) as (ex & x & -> & Hx); [|by exists x, fp, ex].
  destruct l4 as [|c r]; [injection E as <- <-; exists [], 0; rewrite app_nil_r; split; [done|by left]|].
  destruct ((nat_of_ascii c =? 101)%nat || (nat_of_ascii c =? 69)%nat) eqn:Ec;
    [|injection E as <- <-; exists [], 0; rewrite app_nil_r; split; [done|by left]].
  assert (is_exp c = true) as Hc.
  { apply orb_true_iff in Ec as [H|H]; apply Nat.eqb_eq in H; by rewrite <- (ascii_nat_embedding c), H. }
  assert (exists sg r1, match r with
                     | s :: r' => if bool_decide (nat_of_ascii s ∈ [43; 45]%nat) then ([s], r') else ([], r)
                     | [] => ([], r)
                     end = (sg, r1) /\ (sg = [] \/ sg = ["+"%char] \/ sg = ["-"%char])) as (sg & r1 & E1 & Hsg).
  { destruct r as [|s0 r']; [by eexists _, _; split; [|left]|]. case_bool_decide as Hs; [|by eexists _, _; split; [|left]].
    eexists _, _. split; [done|]. right. rewrite !elem_of_cons, elem_of_nil in Hs.
    destruct Hs as [H|[H|[]]]; [left|right]; by rewrite <- (ascii_nat_embedding s0), H. }
  rewrite E1 in E. destruct (take_digits r1) as [[|e1 es] r2] eqn:Et; [done|]. injection E as <- <-.
  apply take_digits_inv in Et as (_ & Hes & _).
  exists (c :: sg ++ e1 :: es), (if bool_decide (sg = ["-"%char]) then - of_digits (e1 :: es) else of_digits (e1 :: es)).
  split; [done|]. right. exists c, sg, (e1 :: es). split; [done|]. split; [done|]. split; [done|]. split; [done|].
  destruct Hsg as [->|[->| ->]]; simpl; auto.
Qed.

(** ** Values *)
Definition member_ok (m : string * json) : bool := let '(k, x) := m in ValidString k && decoded x.

Lemma of_members_ok ms :
  forallb member_ok ms = true -> ordered (of_members ms) = true /\ forallb member_ok (of_members ms) = true.
Proof.
  unfold of_members. assert (ordered (@nil (string * json)) = true /\ forallb member_ok [] = true) as Hnil by done.
  revert Hnil. generalize (@nil (string * json)). induction ms as [|[k v] ms IH]; intros o [Ho Hok] Hms; [done|].
  cbn [forallb] in Hms. apply andb_prop in Hms as [Hm Hms]. simpl. apply IH; [|done].
  split; [by apply ordered_put|]. rewrite <- Is_true_true, forallb_True in Hok |- *. by apply put_Forall; [rewrite Hm|].
Qed.


Lemma read_decoded n :
  (forall l v r, read_value n l = Some (v, r) -> decoded v = true)
  /\ (forall l vs r, read_items n l = Some (vs, r) -> forallb decoded vs = true)
  /\ (forall l ms r, read_members n l = Some (ms, r) -> forallb member_ok ms = true).
Proof.
  induction n as [|n (IHv & IHi & IHm)]; [done|]. split; [|split].
  - intros l v r E. cbn [read_value] in E. destruct (skip_space l) as [|c l']; [done|].
    destruct (is_byte 34 c).
    { destruct (read_string n l') as [[s r1]|] eqn:Es; [|done]. injection E as <- <-. by eapply read_string_valid. }
    destruct (is_byte 91 c).
    { destruct (skip_space l') as [|d l1]; [done|]. destruct (is_byte 93 d); [by injection E as <- <-|].
      destruct (read_items n l') as [[vs r1]|] eqn:Ei; [|done]. injection E as <- <-. by eapply IHi. }
    destruct (is_byte 123 c).
    { destruct (skip_space l') as [|d l1]; [done|]. destruct (is_byte 125 d); [by injection E as <- <-|].
      destruct (read_members n l') as [[ms r1]|] eqn:Em; [|done]. injection E as <- <-. apply IHm, of_members_ok in Em as [H1 H2].
      cbn [decoded]. by rewrite H1. }
    destruct (is_digit c || is_byte 45 c).
    { destruct (scan_number (c :: l')) as [[s r1]|] eqn:Es; [|done]. injection E as <- <-. cbn [decoded].
      apply bool_decide_eq_true. rewrite bytes_text. by eapply scan_number_valid. }
    unfold read_literal in E. do 2 (case_match; [by injection E as <- <-|]).
    destruct (cut_prefix (bytes "null") (c :: l')); [by injection E as <- <-|done].
  - intros l vs r E. cbn [read_items] in E. destruct (read_value n l) as [[v r1]|] eqn:Ev; [|done]. cbn [mbind option_bind] in E.
    apply IHv in Ev. destruct (skip_space r1) as [|c r2]; [done|]. destruct (is_byte 93 c); [injection E as <- <-; simpl; by rewrite Ev|].
    destruct (is_byte 44 c); [|done]. destruct (read_items n r2) as [[vs' r3]|] eqn:Ei; [|done]. injection E as <- <-.
    simpl. by rewrite Ev, (IHi _ _ _ Ei).
  - intros l ms r E. cbn [read_members] in E. destruct (skip_space l) as [|q l1]; [done|]. destruct (is_byte 34 q); [|done].
    destruct (read_string n l1) as [[k r1]|] eqn:Ek; [|done]. cbn [mbind option_bind] in E. apply read_string_valid in Ek.
    destruct (skip_space r1) as [|col r2]; [done|]. destruct (is_byte 58 col); [|done].
    destruct (read_value n r2) as [[v r3]|] eqn:Ev; [|done]. cbn [mbind option_bind] in E. apply IHv in Ev.
    destruct (skip_space r3) as [|c r4]; [done|]. destruct (is_byte 125 c); [injection E as <- <-; simpl; by rewrite Ek, Ev|].
    destruct (is_byte 44 c); [|done]. destruct (read_members n r4) as [[ms' r5]|] eqn:Em; [|done]. injection E as <- <-.
    simpl. by rewrite Ek, Ev, (IHm _ _ _ Em).
Qed.

Lemma parse_decoded raw v : json_parse raw = Some v -> decoded v = true.
Proof.
  unfold json_parse. destruct (read_value _ _) as [[w rest]|] eqn:E; [|done]. simpl. case_match; [|done]. intros [= <-].
  by eapply read_decoded.
Qed.

(** A text that was read is written and read to the same value. *)
Lemma parse_print_parse raw v : json_parse raw = Some v -> json_parse (json_print v) = Some v.
Proof. intros E. by eapply parse_printed, parse_decoded. Qed.
