(* ===== verification/Reach.v ===== *)
(** * Depth-first search over a finite graph

    The recursive search the sources write as a closure over a set of visited
    nodes: the edges of a node come in any order, the search stops at the target,
    and a node is expanded once. *)
From stdpp Require Import base gmap sets list relations tactics.
From Stdlib Require Import Lia.

Section Search.
Context {N : Type} `{Countable N}.
Implicit Types (x y current target : N) (visited : gset N).

(** The successors of a node, in the order in which its edges are read. *)
Context (successors : N -> list N) (target : N).

Definition search_all (walk : gset N -> N -> option (bool * gset N)) :=
  fix go (ys : list N) (visited : gset N) : option (bool * gset N) :=
    match ys with
    | [] => Some (false, visited)
    | y :: ys => '(found, visited) ← walk visited y; if (found : bool) then Some (true, visited) else go ys visited
    end.

(** [None] only when the fuel runs out. *)
Fixpoint walk (fuel : nat) (visited : gset N) (current : N) : option (bool * gset N) :=
  match fuel with
  | O => None
  | S fuel =>
      if decide (current = target) then Some (true, visited)
      else if decide (current ∈ visited) then Some (false, visited)
      else search_all (walk fuel) (successors current) ({[current]} ∪ visited)
  end.

Definition edge x y : Prop := y ∈ successors x.

(** What a search that found nothing leaves: the nodes it added are not the
    target, and their successors were visited too. *)
Definition exhausted visited visited' : Prop :=
  visited ⊆ visited' /\ forall x, x ∈ visited' -> x ∉ visited -> x <> target /\ forall y, edge x y -> y ∈ visited'.

Lemma exhausted_refl visited : exhausted visited visited.
Proof. split; [done|]. by intros x ?. Qed.

Lemma exhausted_trans v1 v2 v3 : exhausted v1 v2 -> exhausted v2 v3 -> exhausted v1 v3.
Proof.
  intros [S1 E1] [S2 E2]. split; [set_solver|]. intros x Hx Hn. destruct (decide (x ∈ v2)) as [H2|H2]; [|by apply E2].
  destruct (E1 x H2 Hn) as [Ht Hs]. split; [done|]. set_solver.
Qed.

Definition sound_walk (w : gset N -> N -> option (bool * gset N)) : Prop :=
  forall visited x found visited', w visited x = Some (found, visited') ->
    if found then rtc edge x target
    else exhausted visited visited' /\ x ∈ visited'.

Lemma search_all_sound w ys visited found visited' :
  sound_walk w -> search_all w ys visited = Some (found, visited') ->
  if found then exists y, y ∈ ys /\ rtc edge y target
  else exhausted visited visited' /\ forall y, y ∈ ys -> y ∈ visited'.
Proof.
  intros Hw. revert visited. induction ys as [|y ys IH]; intros visited E; simpl in E.
  - simplify_eq. split; [apply exhausted_refl|]. set_solver.
  - destruct (w visited y) as [[b v1]|] eqn:Ew; simpl in E; [|done]. apply Hw in Ew. destruct b.
    + simplify_eq. exists y. set_solver.
    + destruct Ew as [Hx Hy]. apply IH in E. destruct found.
      * destruct E as (z & Hz & Hr). exists z. set_solver.
      * destruct E as [Hx' Hall]. split; [by eapply exhausted_trans|]. intros z [->|Hz]%elem_of_cons; [|auto].
        by apply Hx'.
Qed.

Lemma walk_sound fuel : sound_walk (walk fuel).
Proof.
  induction fuel as [|fuel IH]; intros visited x found visited' E; simpl in E; [done|].
  destruct (decide (x = target)) as [->|Hne]; [by simplify_eq|].
  destruct (decide (x ∈ visited)) as [Hin|Hnin]; [simplify_eq; split; [apply exhausted_refl|done]|].
  apply (search_all_sound _ _ _ _ _ IH) in E. destruct found.
  - destruct E as (y & Hy & Hr). by eapply rtc_l.
  - destruct E as [[Hsub Hex] Hall]. split; [|set_solver]. split; [set_solver|]. intros z Hz Hn.
    destruct (decide (z = x)) as [->|Hzx]; [by split; [|auto]|]. apply Hex; set_solver.
Qed.

(** Fuel for every node is enough. *)
Section Fuel.
Context (nodes : gset N) (Hclosed : forall x y, x ∈ nodes -> edge x y -> y ∈ nodes).

Definition enough (fuel : nat) visited : Prop := size (nodes ∖ visited) < fuel.

Lemma enough_mono fuel v1 v2 : v1 ⊆ v2 -> enough fuel v1 -> enough fuel v2.
Proof. unfold enough. intros Hs. enough (size (nodes ∖ v2) <= size (nodes ∖ v1)) by lia. apply subseteq_size. set_solver. Qed.

Lemma walk_total fuel visited x : x ∈ nodes -> enough fuel visited -> is_Some (walk fuel visited x).
Proof.
  revert visited x. induction fuel as [|fuel IH]; intros visited x Hx He; [unfold enough in He; lia|]. simpl.
  destruct (decide (x = target)); [by eexists|]. destruct (decide (x ∈ visited)) as [|Hn]; [by eexists|].
  assert (enough fuel ({[x]} ∪ visited)) as He'.
  { unfold enough in *. assert (size (nodes ∖ ({[x]} ∪ visited)) < size (nodes ∖ visited)); [|lia].
    apply subset_size. split; [set_solver|]. intros Hs. specialize (Hs x). set_solver. }
  assert (forall y, y ∈ successors x -> y ∈ nodes) as Hys by (intros y Hy; by eapply Hclosed).
  revert Hys He'. generalize ({[x]} ∪ visited). generalize (successors x).
  induction l as [|y ys IHys]; intros v Hys Hv; simpl; [by eexists|].
  destruct (IH v y) as [[b v1] Ew]; [set_solver|done|]. rewrite Ew. simpl. destruct b; [by eexists|].
  apply IHys; [set_solver|]. apply walk_sound in Ew as [[Hsub _] _]. by eapply enough_mono.
Qed.

(** The search decides reachability. *)
Lemma walk_decides fuel x :
  x ∈ nodes -> enough fuel ∅ -> exists visited found, walk fuel ∅ x = Some (found, visited) /\ (found = true <-> rtc edge x target).
Proof.
  intros Hx He. destruct (walk_total fuel ∅ x Hx He) as [[b v] E]. exists v, b. split; [done|].
  pose proof (walk_sound _ _ _ _ _ E) as Hs. destruct b; [done|]. split; [done|]. intros Hr. exfalso.
  destruct Hs as [[_ Hex] Hin]. clear E He Hx. induction Hr as [x|x y z Hxy _ IH].
  - by destruct (Hex x Hin) as [? _]; [set_solver|].
  - apply IH; [done|]. destruct (Hex x Hin) as [_ Hs]; [set_solver|]. auto.
Qed.
End Fuel.
End Search.

(** ** Acyclicity under a new edge *)
Section Acyclic.
Context {N : Type}.
Implicit Types (R : relation N).

Definition acyclic R : Prop := forall x, ~ tc R x x.
Definition add_edge R (p c : N) : relation N := fun x y => R x y \/ (x = p /\ y = c).

Lemma rtc_add_edge R p c x y :
  ~ rtc R c p -> rtc (add_edge R p c) x y -> rtc R x y \/ (rtc R x p /\ rtc R c y).
Proof.
  intros Hn. induction 1 as [x|x z y [Hxz|[-> ->]] _ IH]; [by left| |].
  - destruct IH as [IH|[IH1 IH2]]; [left|right; split; [|done]]; by eapply rtc_l.
  - destruct IH as [IH|[IH1 _]]; [by right|done].
Qed.

Lemma acyclic_add_edge R p c : acyclic R -> ~ rtc R c p -> acyclic (add_edge R p c).
Proof.
  intros Ha Hn x Hx. assert (exists z, add_edge R p c x z /\ rtc (add_edge R p c) z x) as (z & Hxz & Hzx).
  { inversion Hx as [? ? Hr|? z' ? Hr Ht]; subst; eauto using rtc_refl. exists z'. split; [done|]. by apply tc_rtc. }
  apply (rtc_add_edge R p c z x Hn) in Hzx as [Hzx|[Hzp Hcx]]; destruct Hxz as [Hxz|[-> ->]].
  - apply (Ha x). eapply tc_rtc_r; [by apply tc_once|done].
  - done.
  - apply Hn. etrans; [done|]. by eapply rtc_l.
  - done.
Qed.

Lemma acyclic_mono R1 R2 : (forall x y, R1 x y -> R2 x y) -> acyclic R2 -> acyclic R1.
Proof. intros Hs Ha x Hx. apply (Ha x). revert Hx. generalize x at 2 4. induction 1; eauto using tc. Qed.
End Acyclic.
