(* ===== verification/ClientTool.v ===== *)
(** * Request-scoped client tools

    src/runtime/clienttool: the session of frontend tools of a request, with
    its definitions, the calls deferred to the frontend, the errors that poison
    a turn and the graph of turns that wait for each other. The methods
    that change the session, and the queries on calls, errors and
    dependencies, hold its mutex, so that a call is one step; [Defer] calls its
    [persist] callback inside, which is an effect of the program here.
    [Definitions], [Lookup] and [ValidateBackend] take no lock: each of their
    reads of a field of the session is a step of its own, and [Lookup] and
    [ValidateBackend], which read more than once, take the session at each
    read. *)
From stdpp Require Import base gmap strings list fin_maps pretty.
From Stdlib Require Import ZArith Ascii.
From S2P Require Import Prelude GoStrings GoJson Effects JsonValue JsonCodec Reach.

(** ** Data *)
Record PendingCall := mkCall {
  RecoveryObservedAt : string;
  DeadlineAt : string;
  Metadata : string;               (* raw JSON; empty when there is none *)
  ProtocolID : string;
  ID : string;
  Name : string;
  Arguments : json;                (* an object, or null for a nil map *)
  ToolMessageID : string;
  AssistantMessageID : string;
  ConversationID : string;
  TurnID : string;
  Iteration : Z
}.

(** A definition by its name and the JSON of its other fields. *)
Record ToolDefinition := mkDefinition { DefinitionName : string; Rest : json }.

Record Dependency := mkDependency {
  DependencyID : string;
  ParentCall : PendingCall;
  ChildConversationID : string;
  ChildTurnID : string;
  ChildAgentID : string;
  ExecutionMode : string;
  ResultAdapter : string;
  Waiting : bool
}.

Definition AgentRunResultV1 : string := "agently.agents.run.v1".

Inductive ToolError :=
| NameRequired
| DuplicateAlias (name : string)
| BadDefinition (name : string)
| CollidesWithBackend (name : string)
| CallIDRequired
| NotEncodable                       (* an error of [json.Marshal] *)
| ConflictingCall (id : string)
| UnknownTool (name : string)
| MetadataNotObject
| IncompleteDependency
| UnknownAdapter (adapter : string)
| ChildTaken
| Cyclic
| ConflictingIdentity
| UnknownDependency (id : string)
| IdentityMismatch
| NotTerminal (status : string)
| External (message : string).       (* an error of the caller or of [persist] *)

Record Session := mkSession {
  definitions : list ToolDefinition;
  byName : gmap string nat;
  pending : list PendingCall;
  err : option ToolError;
  unscopedErr : option ToolError;
  scopeErrors : gmap string ToolError;
  dependencies : gmap string Dependency;
  dependencyOrder : list string;
  metadata : gmap string string
}.

(** ** Copies: [clone] writes a value as JSON and reads it back *)
Definition clone_json (v : json) : option json := json_parse (json_print v).
Definition clone_string (s : string) : string :=
  match clone_json (JString s) with Some (JString t) => t | _ => "" end.
(** A raw message is compacted; an empty one is left out. *)
Definition clone_raw (raw : string) : option string :=
  if bool_decide (raw = "") then Some "" else text <$> json_compact raw.

Definition clone_call (c : PendingCall) : option PendingCall :=
  metadata ← clone_raw (Metadata c);
  arguments ← clone_json (Arguments c);
  Some (mkCall (clone_string (RecoveryObservedAt c)) (clone_string (DeadlineAt c)) metadata
          (clone_string (ProtocolID c)) (clone_string (ID c)) (clone_string (Name c)) arguments
          (clone_string (ToolMessageID c)) (clone_string (AssistantMessageID c))
          (clone_string (ConversationID c)) (clone_string (TurnID c)) (Iteration c)).

Definition clone_definition (d : ToolDefinition) : option ToolDefinition :=
  rest ← clone_json (Rest d); Some (mkDefinition (clone_string (DefinitionName d)) rest).

Definition clone_dependency (d : Dependency) : option Dependency :=
  parent ← clone_call (ParentCall d);
  Some (mkDependency (clone_string (DependencyID d)) parent (clone_string (ChildConversationID d))
          (clone_string (ChildTurnID d)) (clone_string (ChildAgentID d)) (clone_string (ExecutionMode d))
          (clone_string (ResultAdapter d)) (Waiting d)).

(** [value, _ := clone(v)]: the zero value when it fails. *)
Definition zero_call : PendingCall := mkCall "" "" "" "" "" "" JNull "" "" "" "" 0.
Definition zero_dependency : Dependency := mkDependency "" zero_call "" "" "" "" "" false.
Definition copy_call (c : PendingCall) : PendingCall := default zero_call (clone_call c).
Definition copy_dependency (d : Dependency) : Dependency := default zero_dependency (clone_dependency d).

(** [json.Marshal] of a call: the fields in order, empty optional ones left out. *)
Definition call_text (c : PendingCall) : option (list ascii) :=
  metadata ← (if bool_decide (Metadata c = "") then Some []
              else m ← json_compact (Metadata c); Some [("metadata", m)]);
  _ ← clone_json (Arguments c);
  let optional k v := if bool_decide (v = "") then [] else [(k, json_quote v)] in
  Some (json_object
    (optional "recoveryObservedAt" (RecoveryObservedAt c) ++ optional "deadlineAt" (DeadlineAt c) ++ metadata
     ++ optional "protocolId" (ProtocolID c)
     ++ [("id", json_quote (ID c)); ("name", json_quote (Name c)); ("arguments", print (Arguments c));
         ("toolMessageId", json_quote (ToolMessageID c)); ("assistantMessageId", json_quote (AssistantMessageID c));
         ("conversationId", json_quote (ConversationID c)); ("turnId", json_quote (TurnID c));
         ("iteration", bytes (pretty (Iteration c)))])).

Definition turnKey (conversationID turnID : string) : string := conversationID +:+ text [ch 0] +:+ turnID.
Definition parent_key (d : Dependency) : string := turnKey (ConversationID (ParentCall d)) (TurnID (ParentCall d)).
Definition child_key (d : Dependency) : string := turnKey (ChildConversationID d) (ChildTurnID d).

(** ** The calls of [Defer] to its environment *)
Inductive DeferCall : Type -> Type :=
| Persist : DeferCall (result string PendingCall).

Section Session.
(** [mcpname.Canonical] of the MCP module. *)
Context (Canonical : string -> string).

Definition canonical (name : string) : string := ToLower (Canonical (TrimSpace name)).

Fixpoint add_definitions (s : Session) (ds : list ToolDefinition) : result ToolError Session :=
  match ds with
  | [] => Ok s
  | d :: ds =>
      if bool_decide (TrimSpace (DefinitionName d) = "") then Err NameRequired
      else
        let key := canonical (DefinitionName d) in
        match byName s !! key with
        | Some _ => Err (DuplicateAlias (DefinitionName d))
        | None =>
            match clone_definition d with
            | None => Err (BadDefinition (DefinitionName d))
            | Some copied =>
                add_definitions
                  (mkSession (definitions s ++ [copied]) (<[key := length (definitions s)]> (byName s)) (pending s) (err s)
                     (unscopedErr s) (scopeErrors s) (dependencies s) (dependencyOrder s) (metadata s)) ds
            end
        end
  end.
Definition empty_session : Session := mkSession [] ∅ [] None None ∅ ∅ [] ∅.
Definition NewSession (ds : list ToolDefinition) : result ToolError Session := add_definitions empty_session ds.

Definition zero_definition : ToolDefinition := mkDefinition "" JNull.
Definition Definitions (s : Session) : list ToolDefinition := default [] (mapM clone_definition (definitions s)).
(** Without the lock: [s] is the session when the map is read and [s1] when
    the slice is.  [None] is the panic of an index out of range. *)
Definition Lookup (s s1 : Session) (name : string) : option (ToolDefinition * bool) :=
  match byName s !! canonical name with
  | None => Some (zero_definition, false)
  | Some index =>
      match definitions s1 !! index with
      | Some d => Some (default zero_definition (clone_definition d), true)
      | None => None
      end
  end.

(** Without the lock: [s n] is the session when the [n]-th name is looked up. *)
Fixpoint ValidateBackend (s : nat -> Session) (ds : list ToolDefinition) : result ToolError unit :=
  match ds with
  | [] => Ok tt
  | d :: ds =>
      match byName (s 0%nat) !! canonical (DefinitionName d) with
      | Some _ => Err (CollidesWithBackend (DefinitionName d))
      | None => ValidateBackend (fun n => s (S n)) ds
      end
  end.

(** ** Errors *)
Definition set_errors (s : Session) e u m : Session :=
  mkSession (definitions s) (byName s) (pending s) e u m (dependencies s) (dependencyOrder s) (metadata s).
Definition first_error (old : option ToolError) (e : ToolError) : option ToolError :=
  match old with None => Some e | Some _ => old end.
Definition first_scope_error (m : gmap string ToolError) (key : string) (e : ToolError) : gmap string ToolError :=
  match m !! key with None => <[key := e]> m | Some _ => m end.

Definition RecordError (s : Session) (e : option ToolError) : Session :=
  match e with
  | None => s
  | Some e => set_errors s (first_error (err s) e) (Some e) (scopeErrors s)
  end.
Definition RecordErrorForTurn (s : Session) (conversationID turnID : string) (e : option ToolError) : Session :=
  match e with
  | None => s
  | Some e =>
      set_errors s (first_error (err s) e) (unscopedErr s) (first_scope_error (scopeErrors s) (turnKey conversationID turnID) e)
  end.
Definition Error (s : Session) : option ToolError := err s.
Definition ErrorForTurn (s : Session) (conversationID turnID : string) : option ToolError :=
  match unscopedErr s with
  | Some e => Some e
  | None => scopeErrors s !! turnKey conversationID turnID
  end.

(** ** Deferred calls *)
Definition Pending (s : Session) : list PendingCall := default [] (mapM clone_call (pending s)).
Definition PendingForTurn (s : Session) (conversationID turnID : string) : list PendingCall :=
  copy_call <$> filter (fun p => ConversationID p = conversationID /\ TurnID p = turnID) (pending s).

Definition unscoped (conversationID turnID : string) : bool :=
  bool_decide (conversationID = "") && bool_decide (turnID = "").

(** The call an identifier was given to, in the scope. *)
Definition same_call (conversationID turnID id : string) (p : PendingCall) : Prop :=
  ID p = id /\ (unscoped conversationID turnID = true \/ (ConversationID p = conversationID /\ TurnID p = turnID)).
#[export] Instance same_call_dec c t id p : Decision (same_call c t id p).
Proof. unfold same_call. apply _. Defined.

Definition add_pending (s : Session) (p : PendingCall) : Session :=
  mkSession (definitions s) (byName s) (pending s ++ [p]) (err s) (unscopedErr s) (scopeErrors s) (dependencies s)
    (dependencyOrder s) (metadata s).

Definition defer_fail (s : Session) (conversationID turnID : string) (e : ToolError) : Session * result ToolError PendingCall :=
  let s' :=
    if unscoped conversationID turnID then set_errors s (first_error (err s) e) (Some e) (scopeErrors s)
    else set_errors s (first_error (err s) e) (unscopedErr s) (first_scope_error (scopeErrors s) (turnKey conversationID turnID) e) in
  (s', Err e).

Definition deferForScope (s : Session) (conversationID turnID id name : string) (args : json)
  : prog DeferCall (Session * result ToolError PendingCall) :=
  let fail e := Ret (defer_fail s conversationID turnID e) in
  match ErrorForTurn s conversationID turnID with
  | Some e => Ret (s, Err e)
  | None =>
      if bool_decide (TrimSpace id = "") then fail CallIDRequired
      else
        match clone_json args with
        | None => fail NotEncodable
        | Some copied =>
            match list_find (same_call conversationID turnID id) (pending s) with
            | Some (_, p) =>
                if bool_decide (canonical (Name p) <> canonical name \/ Arguments p <> copied) then fail (ConflictingCall id)
                else Ret (s, Ok (copy_call p))
            | None =>
                answer ← ask Persist;
                match answer with
                | Err message => fail (External message)
                | Ok p =>
                    let p := mkCall (RecoveryObservedAt p) (DeadlineAt p) (default "" (metadata s !! canonical name))
                               (ProtocolID p) id name copied (ToolMessageID p) (AssistantMessageID p) (ConversationID p)
                               (TurnID p) (Iteration p) in
                    Ret (add_pending s p, Ok (copy_call p))
                end
            end
        end
  end.
Definition Defer (s : Session) := deferForScope s "" "".
Definition DeferForTurn := deferForScope.

(** ** Metadata and the restriction to managed tools *)
Definition set_metadata (s : Session) m : Session :=
  mkSession (definitions s) (byName s) (pending s) (err s) (unscopedErr s) (scopeErrors s) (dependencies s) (dependencyOrder s) m.
Definition SetMetadata (s : Session) (name raw : string) : Session * result ToolError unit :=
  match byName s !! canonical name with
  | None => (s, Err (UnknownTool name))
  | Some _ =>
      match json_parse raw with
      | Some (JObject _) => (set_metadata s (<[canonical name := raw]> (metadata s)), Ok tt)
      | _ => (s, Err MetadataNotObject)
      end
  end.
Definition MetadataOf (s : Session) (name : string) : string := default "" (metadata s !! canonical name).

Fixpoint restrict (managed allowed : gset string) (ds kept : list ToolDefinition) (index : gmap string nat)
  : list ToolDefinition * gmap string nat :=
  match ds with
  | [] => (kept, index)
  | d :: ds =>
      if bool_decide (DefinitionName d ∈ managed /\ DefinitionName d ∉ allowed) then restrict managed allowed ds kept index
      else restrict managed allowed ds (kept ++ [d]) (<[canonical (DefinitionName d) := length kept]> index)
  end.
Definition RestrictManaged (s : Session) (managed allowed : gset string) : Session :=
  let '(kept, index) := restrict managed allowed (definitions s) [] ∅ in
  mkSession kept index (pending s) (err s) (unscopedErr s) (scopeErrors s) (dependencies s) (dependencyOrder s) (metadata s).
End Session.

(** ** Dependencies between turns *)
Section Dependencies.
(** The order in which a [range] over the map of dependencies meets them. A
    search reads the map once for each turn it expands. *)
Context (range : string -> list Dependency).

Definition turn_successors (waitingOnly : bool) (current : string) : list string :=
  child_key <$> filter (fun e => (waitingOnly = false \/ Waiting e = true) /\ parent_key e = current) (range current).

(** [None] is not reached: the fuel covers every turn of the graph. *)
Definition reachableLocked (s : Session) (from to : string) (waitingOnly : bool) : option bool :=
  fst <$> walk (turn_successors waitingOnly) to (size (dependencies s) + 2) ∅ from.

Definition incomplete (d : Dependency) : bool :=
  bool_decide (DependencyID d = "" \/ ID (ParentCall d) = "" \/ ToolMessageID (ParentCall d) = ""
               \/ ConversationID (ParentCall d) = "" \/ TurnID (ParentCall d) = "" \/ ChildConversationID d = ""
               \/ ChildTurnID d = "").

(** Another dependency of the child turn. *)
Definition taken (d edge : Dependency) : bool :=
  bool_decide (child_key edge = child_key d
               /\ (DependencyID edge <> DependencyID d \/ ID (ParentCall edge) <> ID (ParentCall d))).

Definition set_dependencies (s : Session) ds order : Session :=
  mkSession (definitions s) (byName s) (pending s) (err s) (unscopedErr s) (scopeErrors s) ds order (metadata s).

Definition RegisterDependency (s : Session) (d : Dependency) : option (Session * result ToolError unit) :=
  if incomplete d then Some (s, Err IncompleteDependency)
  else if bool_decide (ResultAdapter d <> AgentRunResultV1) then Some (s, Err (UnknownAdapter (ResultAdapter d)))
  else if existsb (taken d) ((map_to_list (dependencies s)).*2) then Some (s, Err ChildTaken)
  else
    cyclic ← (if bool_decide (parent_key d = child_key d) then Some true
              else reachableLocked s (child_key d) (parent_key d) false);
    if (cyclic : bool) then Some (s, Err Cyclic)
    else
      match clone_dependency d with
      | None => Some (s, Err NotEncodable)
      | Some copied =>
          match dependencies s !! DependencyID d with
          | Some previous =>
              if bool_decide (default [] (call_text (ParentCall previous)) <> default [] (call_text (ParentCall d))
                              \/ ChildTurnID previous <> ChildTurnID d
                              \/ ChildConversationID previous <> ChildConversationID d)
              then Some (s, Err ConflictingIdentity)
              else Some (s, Ok tt)
          | None =>
              Some (set_dependencies s (<[DependencyID d := copied]> (dependencies s)) (dependencyOrder s ++ [DependencyID d]), Ok tt)
          end
      end.

Definition wait_for (d : Dependency) : Dependency :=
  mkDependency (DependencyID d) (ParentCall d) (ChildConversationID d) (ChildTurnID d) (ChildAgentID d) (ExecutionMode d)
    (ResultAdapter d) true.
Definition MarkDependencyWaiting (s : Session) (id : string) : Session * result ToolError unit :=
  match dependencies s !! id with
  | None => (s, Err (UnknownDependency id))
  | Some d => (set_dependencies s (<[id := wait_for d]> (dependencies s)) (dependencyOrder s), Ok tt)
  end.

Definition PendingForSubtree (s : Session) (conversationID turnID : string) : option (list PendingCall) :=
  let root := turnKey conversationID turnID in
  (fix go ps :=
     match ps with
     | [] => Some []
     | p :: ps =>
         found ← reachableLocked s root (turnKey (ConversationID p) (TurnID p)) true;
         rest ← go ps;
         Some (if (found : bool) then copy_call p :: rest else rest)
     end) (pending s).

Definition WaitingDependencies (s : Session) (conversationID turnID : string) : option (list Dependency) :=
  let root := turnKey conversationID turnID in
  (fix go ids :=
     match ids with
     | [] => Some []
     | id :: ids =>
         let d := default zero_dependency (dependencies s !! id) in
         found ← (if Waiting d then reachableLocked s root (parent_key d) true else Some false);
         rest ← go ids;
         Some (if (found : bool) then copy_dependency d :: rest else rest)
     end) (dependencyOrder s).

Definition WaitingOnCall (s : Session) (conversationID turnID callID : string) : bool :=
  existsb (fun d => Waiting d && bool_decide (ConversationID (ParentCall d) = conversationID)
                    && bool_decide (TurnID (ParentCall d) = turnID) && bool_decide (ID (ParentCall d) = callID))
    ((map_to_list (dependencies s)).*2).
End Dependencies.

(** ** The result of a child turn *)
Record ChildResult := mkChildResult {
  Content : string; Status : string; ResultConversationID : string; ResultTurnID : string; ResultError : string }.

Definition terminal_status (status : string) : bool :=
  bool_decide (status ∈ ["succeeded"; "completed"; "failed"; "canceled"; "cancelled"]).

Definition result_body (r : ChildResult) : string :=
  let optional k v := if bool_decide (v = "") then [] else [(k, json_quote v)] in
  text (json_object ([("answer", json_quote (Content r))] ++ optional "status" (Status r) ++ optional "error" (ResultError r)
          ++ optional "conversationId" (ResultConversationID r) ++ optional "messageId" (ResultTurnID r))).

Definition FormatDependencyResult (d : Dependency) (r : ChildResult) : result ToolError (string * string) :=
  if bool_decide (ResultAdapter d <> AgentRunResultV1) then Err (UnknownAdapter (ResultAdapter d))
  else if bool_decide (ResultConversationID r <> ChildConversationID d \/ ResultTurnID r <> ChildTurnID d) then Err IdentityMismatch
  else if terminal_status (Status r) then Ok (result_body r, ResultError r)
  else Err (NotTerminal (Status r)).
