(* ===== verification/ClientProps.v ===== *)
(** * Properties of client tool sessions

    The graph of waiting turns stays a forest and its searches are exact; a
    deferred call is persisted once; an error poisons its turn for good; the
    name index describes the definitions. *)
From stdpp Require Import base gmap strings list fin_maps sets relations pretty.
From Stdlib Require Import ZArith Lia Ascii.
From S2P Require Import Prelude GoStrings GoJson Effects JsonQuote CanonicalNumber JsonValue JsonCodec Reach ClientTool.

Open Scope nat_scope.

(** ** Copies of valid strings *)
Lemma clone_decoded v : decoded v = true -> clone_json v = Some v.
Proof. apply parse_printed. Qed.

Lemma clone_valid s : ValidString s = true -> clone_string s = s.
Proof. intros Hs. unfold clone_string. by rewrite (clone_decoded (JString s)). Qed.

(** ** The graph of turns *)
Definition edges (s : Session) : list Dependency := (map_to_list (dependencies s)).*2.

(** [range] visits the dependencies, each once, in some order. *)
Definition ranges (s : Session) (range : string -> list Dependency) : Prop := forall current, range current ≡ₚ edges s.

(** Turn [x] waits for turn [y]; with [w] only the dependencies marked waiting. *)
Definition waits (w : bool) (s : Session) (x y : string) : Prop :=
  exists d, d ∈ edges s /\ (w = false \/ Waiting d = true) /\ parent_key d = x /\ child_key d = y.

Lemma elem_edges s d : d ∈ edges s <-> exists id, dependencies s !! id = Some d.
Proof.
  unfold edges. rewrite list_elem_of_fmap. split.
  - intros ([id d'] & -> & Hin%elem_of_map_to_list). by exists id.
  - intros [id Hid]. exists (id, d). by rewrite elem_of_map_to_list.
Qed.

Lemma edge_waits s range w x y : ranges s range -> edge (turn_successors range w) x y <-> waits w s x y.
Proof.
  intros Hr. unfold edge, turn_successors, waits. rewrite list_elem_of_fmap. split.
  - intros (d & -> & [[Hw Hp] Hin]%list_elem_of_filter). exists d. by rewrite <- (Hr x).
  - intros (d & Hin & Hw & Hp & Hc). exists d. split; [done|]. apply list_elem_of_filter. by rewrite (Hr x).
Qed.

Lemma rtc_iff {A} (R1 R2 : relation A) x y : (forall a b, R1 a b <-> R2 a b) -> rtc R1 x y <-> rtc R2 x y.
Proof. intros H. split; induction 1 as [|a b c Hab _ IH]; [done|eapply rtc_l; [by apply H|done]|done|eapply rtc_l; [by apply H|done]]. Qed.

Lemma size_union_at_most (X Y : gset string) : size (X ∪ Y) <= size X + size Y.
Proof. rewrite size_union_alt. enough (size (Y ∖ X) <= size Y) by lia. apply subseteq_size. set_solver. Qed.

Lemma size_list_to_set_at_most (l : list string) : size (list_to_set l : gset string) <= length l.
Proof.
  induction l as [|x l IH]; [by rewrite list_to_set_nil, size_empty|]. rewrite list_to_set_cons.
  etrans; [apply size_union_at_most|]. rewrite size_singleton. simpl. lia.
Qed.

Lemma reachableLocked_decides s range from to w :
  ranges s range ->
  exists b, reachableLocked range s from to w = Some b /\ (b = true <-> rtc (waits w s) from to).
Proof.
  intros Hr. set (nodes := ({[from]} ∪ list_to_set (child_key <$> edges s)) : gset string).
  destruct (walk_decides (turn_successors range w) to nodes) with (fuel := size (dependencies s) + 2) (x := from)
    as (v & b & E & Hb).
  - intros x y _ Hxy. apply (edge_waits s) in Hxy as (d & Hin & _ & _ & <-); [|done].
    apply elem_of_union_r, elem_of_list_to_set, list_elem_of_fmap. by exists d.
  - set_solver.
  - unfold enough. rewrite difference_empty_L.
    assert (size nodes <= 1 + size (dependencies s)) as Hs; [|lia]. unfold nodes.
    pose proof (size_union_at_most ({[from]} : gset string) (list_to_set (child_key <$> edges s))) as Hu.
    pose proof (size_list_to_set_at_most (child_key <$> edges s)) as Hl.
    rewrite size_singleton in Hu. unfold edges in Hl. rewrite !length_fmap, length_map_to_list in Hl. fold (edges s) in Hl. lia.
  - exists b. unfold reachableLocked. rewrite E. split; [done|]. rewrite Hb. apply rtc_iff. intros. by apply edge_waits.
Qed.

(** ** Steps of a session: one method call each *)
Fixpoint run_defer {A} (answer : result string PendingCall) (p : prog DeferCall A) : option (A * nat) :=
  match p with
  | Ret a => Some (a, 0)
  | Call c k =>
      (match c in DeferCall R return (R -> prog DeferCall A) -> option (A * nat) with
       | Persist => fun k => '(a, n) ← run_defer answer (k answer); Some (a, S n)
       end) k
  | Spin => None
  end.

Section Steps.
Context (Canonical : string -> string).

(** [run_defer answer p = Some (out, n)]: the deferral returns [out] after [n]
    calls of [persist], which answers [answer]. [registered] restricts the
    dependencies that are registered. *)
Inductive session_step (registered : Dependency -> Prop) : Session -> Session -> Prop :=
| step_defer s c t id name args answer s' r n :
    run_defer answer (deferForScope Canonical s c t id name args) = Some ((s', r), n) -> session_step registered s s'
| step_record s e : session_step registered s (RecordError s e)
| step_record_turn s c t e : session_step registered s (RecordErrorForTurn s c t e)
| step_metadata s name raw : session_step registered s (SetMetadata Canonical s name raw).1
| step_restrict s managed allowed : session_step registered s (RestrictManaged Canonical s managed allowed)
| step_register s range d s' r :
    ranges s range -> registered d -> RegisterDependency range s d = Some (s', r) -> session_step registered s s'
| step_wait s id : session_step registered s (MarkDependencyWaiting s id).1.

Definition session_steps registered : relation Session := rtc (session_step registered).

(** *** The outcomes of a deferral *)
Lemma defer_outcomes s c t id name args answer :
  exists s' r n, run_defer answer (deferForScope Canonical s c t id name args) = Some ((s', r), n) /\ n <= 1 /\
  ((exists e, ErrorForTurn s c t = Some e /\ s' = s /\ r = Err e /\ n = 0)
   \/ ErrorForTurn s c t = None
      /\ ((exists e, (s', r) = defer_fail s c t e /\ (n = 0 \/ list_find (same_call c t id) (pending s) = None)
                      /\ (TrimSpace id <> "" -> forall q, snd <$> list_find (same_call c t id) (pending s) = Some q ->
                          ~ (canonical Canonical (Name q) = canonical Canonical name /\ clone_json args = Some (Arguments q))))
          \/ (exists p, snd <$> list_find (same_call c t id) (pending s) = Some p /\ canonical Canonical (Name p) = canonical Canonical name
                        /\ clone_json args = Some (Arguments p) /\ s' = s /\ r = Ok (copy_call p) /\ n = 0
                        /\ TrimSpace id <> "")
          \/ (exists p, s' = add_pending s p /\ r = Ok (copy_call p) /\ n = 1
                        /\ list_find (same_call c t id) (pending s) = None
                        /\ ID p = id /\ canonical Canonical (Name p) = canonical Canonical name
                        /\ clone_json args = Some (Arguments p) /\ TrimSpace id <> ""
                        /\ exists p0, answer = Ok p0 /\ ConversationID p = ConversationID p0 /\ TurnID p = TurnID p0))).
Proof.
  unfold deferForScope. destruct (ErrorForTurn s c t) as [e|].
  { exists s, (Err e), 0. split; [done|]. split; [lia|]. left. eauto. }
  set (found := list_find (same_call c t id) (pending s)).
  set (ok q := canonical Canonical (Name q) = canonical Canonical name /\ clone_json args = Some (Arguments q)).
  assert (forall n e, n <= 1 -> n = 0 \/ found = None -> (TrimSpace id <> "" -> forall q, snd <$> found = Some q -> ~ ok q) ->
            exists s' r n', Some (defer_fail s c t e, n) = Some ((s', r), n') /\ n' <= 1 /\
            exists e', (s', r) = defer_fail s c t e' /\ (n' = 0 \/ found = None)
                       /\ (TrimSpace id <> "" -> forall q, snd <$> found = Some q -> ~ ok q)) as Hfail.
  { intros n e Hn Hfound Hok. exists (defer_fail s c t e).1, (defer_fail s c t e).2, n. rewrite <- surjective_pairing. eauto 10. }
  destruct (bool_decide (TrimSpace id = "")) eqn:Eid.
  { apply bool_decide_eq_true in Eid. destruct (Hfail 0 CallIDRequired) as (s' & r & n & E & Hn & Hf); [lia|by left|done|eauto 10]. }
  apply bool_decide_eq_false in Eid.
  destruct (clone_json args) as [copied|]; [|destruct (Hfail 0 NotEncodable) as (s' & r & n & E & Hn & Hf);
    [lia|by left|by intros _ q _ [_ ?]|eauto 10]].
  destruct found as [[i p]|] eqn:Ef.
  - case_bool_decide as Hc; [destruct (Hfail 0 (ConflictingCall id)) as (s' & r & n & E & Hn & Hf);
      [lia|by left|intros _ q [= ->] [? [= ?]]; by destruct Hc|eauto 10]|].
    eexists _, _, _. split; [reflexivity|]. split; [lia|]. right. split; [done|]. right. left. exists p. split; [done|].
    destruct (decide (canonical Canonical (Name p) = canonical Canonical name)); [|tauto].
    destruct (decide (Arguments p = copied)) as [->|]; [done|tauto].
  - destruct answer as [p0|m]; [|destruct (Hfail 1 (External m)) as (s' & r & n & E & Hn & Hf); [lia|by right|done|eauto 10]].
    eexists _, _, _. split; [reflexivity|]. split; [lia|]. right. split; [done|]. right. right. eexists.
    do 8 (split; [reflexivity || done|]). by exists p0.
Qed.

Lemma run_defer_inj {A} answer (p : prog DeferCall A) x y : run_defer answer p = Some x -> run_defer answer p = Some y -> x = y.
Proof. congruence. Qed.

(** *** What steps keep *)
Definition extends (s s' : Session) : Prop :=
  (exists ps, pending s' = pending s ++ ps)
  /\ (is_Some (unscopedErr s) -> is_Some (unscopedErr s'))
  /\ (forall key e, scopeErrors s !! key = Some e -> scopeErrors s' !! key = Some e).

#[export] Instance extends_preorder : PreOrder extends.
Proof.
  split.
  - intros s. split; [exists []; by rewrite app_nil_r|done].
  - intros s1 s2 s3 ([p1 E1] & U1 & S1) ([p2 E2] & U2 & S2). split; [|auto].
    exists (p1 ++ p2). by rewrite E2, E1, app_assoc.
Qed.

Lemma extends_same s s' :
  pending s' = pending s -> unscopedErr s' = unscopedErr s -> scopeErrors s' = scopeErrors s -> extends s s'.
Proof. intros E1 E2 E3. split; [exists []; by rewrite app_nil_r|]. by rewrite E2, E3. Qed.

Lemma first_scope_error_keeps m key e k x : m !! k = Some x -> first_scope_error m key e !! k = Some x.
Proof.
  intros Hk. unfold first_scope_error. destruct (m !! key) eqn:E; [done|]. by rewrite lookup_insert_ne by congruence.
Qed.

Lemma defer_fail_extends s c t e : extends s (defer_fail s c t e).1.
Proof.
  unfold defer_fail. destruct (unscoped c t); (split; [exists []; by rewrite app_nil_r|]); [by split|].
  split; [done|]. simpl. intros. by apply first_scope_error_keeps.
Qed.

Lemma register_cases range s d s' r :
  RegisterDependency range s d = Some (s', r) ->
  s' = s \/ exists copied,
    r = Ok tt /\ clone_dependency d = Some copied /\ dependencies s !! DependencyID d = None
    /\ existsb (taken d) (edges s) = false /\ parent_key d <> child_key d
    /\ reachableLocked range s (child_key d) (parent_key d) false = Some false /\ incomplete d = false
    /\ s' = set_dependencies s (<[DependencyID d := copied]> (dependencies s)) (dependencyOrder s ++ [DependencyID d]).
Proof.
  unfold RegisterDependency. fold (edges s). destruct (incomplete d); [intros; left; congruence|].
  case_bool_decide; [intros; left; congruence|]. destruct (existsb (taken d) (edges s)); [intros; left; congruence|].
  case_bool_decide as Hk; simpl; [intros; left; congruence|].
  destruct (reachableLocked range s (child_key d) (parent_key d) false) as [[]|]; simpl; [intros; left; congruence| |done].
  destruct (clone_dependency d) as [copied|]; [|intros; left; congruence].
  destruct (dependencies s !! DependencyID d) as [prev|]; [case_bool_decide; intros; left; congruence|].
  intros [= <- <-]. right. eauto 10.
Qed.

Lemma step_extends registered s s' : session_step registered s s' -> extends s s'.
Proof.
  intros [? c t id name args answer ? r n E|? e|? c t e|? name raw|? managed allowed|? range d ? r _ _ E|? id].
  - destruct (defer_outcomes s0 c t id name args answer) as (s2 & r2 & n2 & E2 & _ & H).
    pose proof (run_defer_inj _ _ _ _ E E2) as [= -> -> ->].
    destruct H as [(e & _ & -> & _)|[_ [(e & Hf & _)|[(p & _ & _ & _ & -> & _)|(p & -> & _)]]]]; [done| |done|].
    + replace s2 with (defer_fail s0 c t e).1 by (by rewrite <- Hf). apply defer_fail_extends.
    + split; [by exists [p]|done].
  - destruct e; [|done]. split; [exists []; by rewrite app_nil_r|]. by split.
  - destruct e; [|done]. split; [exists []; by rewrite app_nil_r|]. split; [done|]. simpl. intros. by apply first_scope_error_keeps.
  - unfold SetMetadata. repeat case_match; by apply extends_same.
  - unfold RestrictManaged. destruct (restrict _ _ _ _ _ _). by apply extends_same.
  - apply register_cases in E as [->|(copied & _ & _ & _ & _ & _ & _ & _ & ->)]; by apply extends_same.
  - unfold MarkDependencyWaiting. case_match; by apply extends_same.
Qed.

Lemma steps_extend registered s s' : session_steps registered s s' -> extends s s'.
Proof. induction 1 as [|s1 s2 s3 H _ IH]; [done|]. etrans; [by eapply step_extends|done]. Qed.

Lemma list_find_app_l {A} (P : A -> Prop) `{forall x, Decision (P x)} (l1 l2 : list A) (p : A) :
  snd <$> list_find P l1 = Some p -> snd <$> list_find P (l1 ++ l2) = Some p.
Proof.
  induction l1 as [|x l1 IH]; [done|]. simpl. destruct (decide (P x)); [done|]. intros Hf.
  destruct (list_find P l1) as [[i y]|] eqn:E; [|done]. simpl in Hf. specialize (IH Hf).
  destruct (list_find P (l1 ++ l2)) as [[j z]|]; [|done]. by simpl in *.
Qed.

Lemma list_find_app_r {A} (P : A -> Prop) `{forall x, Decision (P x)} (l : list A) (p : A) :
  list_find P l = None -> P p -> snd <$> list_find P (l ++ [p]) = Some p.
Proof.
  intros Hn Hp. induction l as [|x l IH]; simpl in *; [by rewrite decide_True|].
  destruct (decide (P x)); [done|]. destruct (list_find P l) as [[i y]|]; [done|]. specialize (IH eq_refl).
  destruct (list_find P (l ++ [p])) as [[j z]|]; [|done]. by simpl in *.
Qed.
(** *** Deferring again *)
Lemma deferred_stored s c t id name args answer s' p n :
  unscoped c t = false ->
  run_defer answer (deferForScope Canonical s c t id name args) = Some ((s', Ok p), n) ->
  (forall p0, answer = Ok p0 -> ConversationID p0 = c /\ TurnID p0 = t) ->
  TrimSpace id <> "" /\ exists q, snd <$> list_find (same_call c t id) (pending s') = Some q
    /\ canonical Canonical (Name q) = canonical Canonical name /\ clone_json args = Some (Arguments q) /\ p = copy_call q.
Proof.
  intros Hu E Ha. destruct (defer_outcomes s c t id name args answer) as (s2 & r2 & n2 & E2 & _ & H).
  pose proof (run_defer_inj _ _ _ _ E E2) as [= -> <- ->].
  destruct H as [(e & _ & _ & ? & _)|[_ [(e & Hf & _)|[(q & Hq & Hn & Hc & -> & [= ->] & _ & Hid)|(q & -> & [= ->] & _ & Hq & Hi & Hn & Hc & Hid & p0 & Hp0 & Ec & Et)]]]]; [done| |by eauto 10|].
  - unfold defer_fail in Hf. by destruct (unscoped c t).
  - split; [done|]. exists q. split; [|done]. apply list_find_app_r; [done|]. destruct (Ha p0 Hp0). split; [done|]. right. split; congruence.
Qed.

(** C21: a call deferred for a turn is persisted once. After a deferral that
    succeeded, and whatever the session does next, deferring the same
    identifier for the turn does not call [persist] again: it returns the first
    record, when the turn has no error and the tool and the arguments agree, and
    an error otherwise. *)
Theorem deferral_once registered s c t id name args answer s1 p n :
  unscoped c t = false ->
  run_defer answer (deferForScope Canonical s c t id name args) = Some ((s1, Ok p), n) ->
  (forall p0, answer = Ok p0 -> ConversationID p0 = c /\ TurnID p0 = t) ->
  forall s2, session_steps registered s1 s2 -> forall name' args' answer',
  exists s3 r,
    run_defer answer' (deferForScope Canonical s2 c t id name' args') = Some ((s3, r), 0) /\
    let agrees := canonical Canonical name' = canonical Canonical name /\ clone_json args' = clone_json args in
    (ErrorForTurn s2 c t = None /\ agrees <-> is_ok r = true) /\ (is_ok r = true -> r = Ok p /\ s3 = s2).
Proof.
  intros Hu E Ha s2 Hs name' args' answer'. destruct (deferred_stored _ _ _ _ _ _ _ _ _ _ Hu E Ha) as (Hid & q & Hq & Hn & Hc & ->).
  apply steps_extend in Hs as ([ps Eps] & _). apply (list_find_app_l _ _ ps) in Hq. rewrite <- Eps in Hq.
  destruct (defer_outcomes s2 c t id name' args' answer') as (s3 & r & n' & E' & _ & H). exists s3, r.
  destruct H as [(e & He & -> & -> & ->)|[He [(e & Hf & Hn0 & Hno)|[(q' & Hq' & Hn' & Hc' & -> & -> & -> & _)|(q' & _ & _ & _ & Hq' & _)]]]].
  - split; [done|]. rewrite He. simpl. naive_solver.
  - destruct Hn0 as [->|Hn0]; [|by rewrite Hn0 in Hq]. split; [done|].
    assert (is_ok r = false) as -> by (unfold defer_fail in Hf; by destruct (unscoped c t); injection Hf as -> ->).
    split; [|done]. split; [|done]. intros (_ & Hn' & Hc'). destruct (Hno Hid q Hq). split; congruence.
  - assert (q' = q) as -> by congruence. split; [done|]. simpl. split; [|done]. split; [done|]. intros _. split; [done|]. split; congruence.
  - by rewrite Hq' in Hq.
Qed.

(** an error poisons its turn. When a deferral fails, every later deferral
    for the turn fails with the error [ErrorForTurn] reports, changes nothing
    and persists nothing, whatever the session did in between. *)
Lemma failure_poisons registered s c t id name args answer s1 e n :
  run_defer answer (deferForScope Canonical s c t id name args) = Some ((s1, Err e), n) ->
  forall s2, session_steps registered s1 s2 ->
  exists e', ErrorForTurn s2 c t = Some e' /\
    forall id' name' args' answer', run_defer answer' (deferForScope Canonical s2 c t id' name' args') = Some ((s2, Err e'), 0).
Proof.
  intros E s2 Hs. assert (is_Some (ErrorForTurn s1 c t)) as He.
  { destruct (defer_outcomes s c t id name args answer) as (s' & r & n' & E' & _ & H).
    pose proof (run_defer_inj _ _ _ _ E E') as [= <- <- <-].
    destruct H as [(e' & He & -> & _)|[He [(e' & Hf & _)|[(q & _ & _ & _ & _ & ? & _)|(q & _ & ? & _)]]]]; [by eexists| |done..].
    unfold defer_fail in Hf. unfold ErrorForTurn in He |- *. destruct (unscoped c t); injection Hf as -> ->; simpl; [done|].
    destruct (unscopedErr s); [done|]. unfold first_scope_error. rewrite He, lookup_insert_eq. by eexists. }
  apply steps_extend in Hs as (_ & Hu & Hk).
  assert (is_Some (ErrorForTurn s2 c t)) as [e' He'].
  { unfold ErrorForTurn in *. destruct (unscopedErr s1); [destruct Hu as [? ->]; [by eexists|by eexists]|].
    destruct He as [x Hx]. apply Hk in Hx. rewrite Hx. destruct (unscopedErr s2); by eexists. }
  exists e'. split; [done|]. intros. unfold deferForScope. by rewrite He'.
Qed.
End Steps.

(** ** The graph stays a forest *)

(** The identifiers of a dependency are valid UTF-8; they are stored as a copy
    through JSON, which leaves such strings alone. *)
Definition valid_ids (d : Dependency) : Prop :=
  Forall (fun s => ValidString s = true)
    [DependencyID d; ID (ParentCall d); ConversationID (ParentCall d); TurnID (ParentCall d); ChildConversationID d; ChildTurnID d].

Lemma clone_dependency_keys d copied :
  valid_ids d -> clone_dependency d = Some copied ->
  DependencyID copied = DependencyID d /\ ID (ParentCall copied) = ID (ParentCall d)
  /\ parent_key copied = parent_key d /\ child_key copied = child_key d /\ valid_ids copied.
Proof.
  intros Hv E. unfold clone_dependency, clone_call in E.
  destruct (clone_raw (Metadata (ParentCall d))) as [m|]; [|done]. simpl in E.
  destruct (clone_json (Arguments (ParentCall d))) as [a|]; [|done]. injection E as <-.
  unfold valid_ids in *. rewrite !list.Forall_cons in Hv. destruct Hv as (H1 & H2 & H3 & H4 & H5 & H6 & _).
  unfold parent_key, child_key. simpl. rewrite !clone_valid by done.
  do 4 (split; [done|]). by repeat constructor.
Qed.

(** Every turn waits on behalf of at most one parent call, and no turn waits for
    itself through others. *)
Record forest (s : Session) : Prop := mkForest {
  forest_acyclic : acyclic (waits false s);
  forest_unique d1 d2 : d1 ∈ edges s -> d2 ∈ edges s -> child_key d1 = child_key d2 ->
                        DependencyID d1 = DependencyID d2 /\ parent_key d1 = parent_key d2;
  forest_ids id d : dependencies s !! id = Some d -> DependencyID d = id /\ valid_ids d
}.

Lemma waits_same s s' w x y : dependencies s' = dependencies s -> waits w s' x y <-> waits w s x y.
Proof. intros E. unfold waits, edges. by rewrite E. Qed.

Lemma forest_same s s' : dependencies s' = dependencies s -> forest s -> forest s'.
Proof.
  intros E [Ha Hu Hi]. split.
  - eapply acyclic_mono; [|exact Ha]. intros x y. by apply waits_same.
  - unfold edges. rewrite E. apply Hu.
  - rewrite E. apply Hi.
Qed.

Lemma forest_register range s d s' r :
  ranges s range -> valid_ids d -> forest s -> RegisterDependency range s d = Some (s', r) -> forest s'.
Proof.
  intros Hr Hv [Ha Hu Hi] E.
  apply register_cases in E as [->|(copied & _ & Hc & Hnew & Ht & Hne & Hreach & _ & ->)]; [done|].
  apply clone_dependency_keys in Hc as (Eid & Ecall & Epar & Echild & Hv'); [|done].
  assert (forall e, e ∈ edges (set_dependencies s (<[DependencyID d:=copied]> (dependencies s)) (dependencyOrder s ++ [DependencyID d]))
            <-> e = copied \/ e ∈ edges s) as Hedges.
  { intros e. rewrite !elem_edges. simpl. split.
    - intros [id Hid]. apply lookup_insert_Some in Hid as [[_ ->]|[_ Hid]]; eauto.
    - intros [->|[id Hid]]; [exists (DependencyID d); by rewrite lookup_insert_eq|]. exists id. rewrite lookup_insert_ne; [done|].
      intros E'. congruence. }
  assert (forall e, e ∈ edges s -> child_key e <> child_key d) as Hfresh.
  { intros e He Hk. assert (taken d e = true) as Htk.
    { apply bool_decide_eq_true. split; [done|]. left. apply elem_edges in He as [id Hid]. destruct (Hi _ _ Hid) as [<- _]. congruence. }
    apply not_true_iff_false in Ht. apply Ht. apply existsb_exists. exists e. split; [by apply list_elem_of_In|done]. }
  split.
  - eapply acyclic_mono; [|apply (acyclic_add_edge (waits false s) (parent_key d) (child_key d) Ha)].
    + intros x y (e & He & _ & <- & <-). apply Hedges in He as [->|He]; [right; by rewrite Epar, Echild|left; exists e; auto].
    + destruct (reachableLocked_decides s range (child_key d) (parent_key d) false Hr) as (b & Eb & Hb).
      rewrite Hreach in Eb. injection Eb as <-. intros Hp. apply Hb in Hp. done.
  - intros d1 d2 H1 H2 Hk. apply Hedges in H1 as [->|H1], H2 as [->|H2]; [done| | |by apply Hu].
    + destruct (Hfresh d2 H2). congruence.
    + destruct (Hfresh d1 H1). congruence.
  - intros id e. simpl. intros [[<- <-]|[_ Hid]]%lookup_insert_Some; [done|by apply Hi].
Qed.

Lemma forest_wait s id : forest s -> forest (MarkDependencyWaiting s id).1.
Proof.
  unfold MarkDependencyWaiting. destruct (dependencies s !! id) as [d|] eqn:E; [|done]. intros [Ha Hu Hi].
  assert (forall e, e ∈ edges (set_dependencies s (<[id:=wait_for d]> (dependencies s)) (dependencyOrder s))
            -> exists e', e' ∈ edges s /\ DependencyID e = DependencyID e' /\ parent_key e = parent_key e' /\ child_key e = child_key e') as Hedges.
  { intros e [id' Hid]%elem_edges. simpl in Hid. apply lookup_insert_Some in Hid as [[<- <-]|[_ Hid]].
    - exists d. split; [by apply elem_edges; eauto|done].
    - exists e. split; [by apply elem_edges; eauto|done]. }
  split.
  - eapply acyclic_mono; [|exact Ha]. intros x y (e & He & _ & <- & <-).
    destruct (Hedges e He) as (e' & He' & _ & Hp & Hc). exists e'. auto.
  - intros d1 d2 H1 H2 Hk. destruct (Hedges d1 H1) as (e1 & He1 & -> & -> & Hc1), (Hedges d2 H2) as (e2 & He2 & -> & -> & Hc2).
    apply Hu; [done..|congruence].
  - intros id' e. simpl. intros [[<- <-]|[_ Hid]]%lookup_insert_Some; [by apply (Hi _ _ E)|by apply Hi].
Qed.

Lemma run_defer_dependencies Canonical s c t id name args answer s' r n :
  run_defer answer (deferForScope Canonical s c t id name args) = Some ((s', r), n) -> dependencies s' = dependencies s.
Proof.
  intros E. destruct (defer_outcomes Canonical s c t id name args answer) as (s2 & r2 & n2 & E2 & _ & H).
  pose proof (run_defer_inj _ _ _ _ E E2) as [= -> -> ->].
  destruct H as [(e & _ & -> & _)|[_ [(e & Hf & _)|[(p & _ & _ & _ & -> & _)|(p & -> & _)]]]]; [done| |done..].
  unfold defer_fail in Hf. by destruct (unscoped c t); injection Hf as -> _.
Qed.

(** C20: the turns of a session form a forest: no chain of dependencies leads
    from a turn back to itself, and a child turn belongs to one dependency of
    one parent turn.  Every step of a session keeps this, as long as the
    identifiers of the dependencies it registers are valid UTF-8; without that
    a turn may come to wait for itself ([Demo.invalid_ids_loop]). *)
Theorem dependencies_forest Canonical s s' : forest s -> session_steps Canonical valid_ids s s' -> forest s'.
Proof.
  intros Hs Hst. induction Hst as [|s1 s2 s3 Hst _ IH]; [done|]. apply IH. clear IH.
  destruct Hst as [? c t id name args answer ? r n E|? e|? c t e|? name raw|? managed allowed|? range d ? r Hr Hv E|? id].
  - eapply forest_same; [|exact Hs]. by eapply run_defer_dependencies.
  - destruct e; [by eapply forest_same; [|exact Hs]|done].
  - destruct e; [by eapply forest_same; [|exact Hs]|done].
  - unfold SetMetadata. repeat case_match; by eapply forest_same; [|exact Hs].
  - unfold RestrictManaged. destruct (restrict _ _ _ _ _ _). by eapply forest_same; [|exact Hs].
  - by eapply forest_register.
  - by apply forest_wait.
Qed.

(** ** The queries over subtrees *)
Section Subtree.
Context (range : string -> list Dependency) (s : Session) (Hr : ranges s range).

(** The search from [root] along waiting dependencies, as a test. *)
Definition inside (root key : string) : bool := default false (reachableLocked range s root key true).

Lemma inside_spec root key :
  reachableLocked range s root key true = Some (inside root key) /\ (inside root key = true <-> rtc (waits true s) root key).
Proof.
  destruct (reachableLocked_decides s range root key true Hr) as (b & E & Hb). unfold inside. by rewrite E.
Qed.

(** C32: the pending calls and the waiting dependencies reported for a turn are
    exactly those of the turns it waits for, itself included, in the order in
    which they were recorded; the searches terminate and do not depend on the
    order in which Go iterates over the map of dependencies. *)
Theorem subtree_queries_exact conversationID turnID :
  let root := turnKey conversationID turnID in
  exists member : string -> bool,
    (forall key, member key = true <-> rtc (waits true s) root key)
    /\ PendingForSubtree range s conversationID turnID
       = Some (copy_call <$> filter (fun p => member (turnKey (ConversationID p) (TurnID p)) = true) (pending s))
    /\ WaitingDependencies range s conversationID turnID
       = Some (copy_dependency <$> filter (fun d => Waiting d = true /\ member (parent_key d) = true)
                                    ((fun id => default zero_dependency (dependencies s !! id)) <$> dependencyOrder s)).
Proof.
  intros root. exists (inside root). split; [intros key; apply inside_spec|]. split.
  - unfold PendingForSubtree. induction (pending s) as [|p ps IH]; [done|]. fold root in IH |- *.
    rewrite (proj1 (inside_spec root _)). cbn [mbind option_bind]. rewrite IH, filter_cons.
    by destruct (inside root (turnKey (ConversationID p) (TurnID p))).
  - unfold WaitingDependencies. induction (dependencyOrder s) as [|id ids IH]; [done|]. fold root in IH |- *.
    cbn [fmap list_fmap]. rewrite IH, filter_cons. set (d := default zero_dependency (dependencies s !! id)).
    destruct (Waiting d); [|by rewrite decide_False by naive_solver]. rewrite (proj1 (inside_spec root _)). cbn [mbind option_bind].
    destruct (inside root (parent_key d)); [by rewrite decide_True|by rewrite decide_False by naive_solver].
Qed.
End Subtree.

(** ** The index of names *)
Section Names.
Context (Canonical : string -> string).

Definition key_of (d : ToolDefinition) : string := canonical Canonical (DefinitionName d).
Definition valid_definition (d : ToolDefinition) : Prop := ValidString (DefinitionName d) = true /\ decoded (Rest d) = true.

(** [index] is the map from canonical names to positions in [ds]. *)
Definition indexes (ds : list ToolDefinition) (index : gmap string nat) : Prop :=
  forall key i, index !! key = Some i <-> exists d, ds !! i = Some d /\ key_of d = key.

Lemma indexes_nil : indexes [] ∅.
Proof. intros key i. rewrite lookup_empty, lookup_nil. naive_solver. Qed.

Lemma indexes_fresh ds index d : indexes ds index -> index !! key_of d = None <-> key_of d ∉ key_of <$> ds.
Proof.
  intros Hi. rewrite list_elem_of_fmap. split.
  - intros Hn (d' & E & [i Hd']%list_elem_of_lookup). assert (index !! key_of d = Some i) by (apply Hi; eauto). congruence.
  - intros Hn. destruct (index !! key_of d) as [i|] eqn:E; [|done]. apply Hi in E as (d' & Hd' & Ek). destruct Hn.
    exists d'. split; [done|]. apply list_elem_of_lookup. eauto.
Qed.

Lemma indexes_add ds index d :
  indexes ds index -> key_of d ∉ key_of <$> ds -> indexes (ds ++ [d]) (<[key_of d := length ds]> index).
Proof.
  intros Hi Hn key i. rewrite lookup_insert_Some. split.
  - intros [[<- <-]|[_ Hk]]; [exists d; by rewrite list_lookup_middle|]. apply Hi in Hk as (d' & Hd' & Ek). exists d'.
    split; [|done]. by apply lookup_app_l_Some.
  - intros (d' & Hd' & <-). apply lookup_app_Some in Hd' as [Hd'|[Hle Hd']].
    + right. split; [|by apply Hi; eauto]. intros E. apply Hn, list_elem_of_fmap. exists d'. split; [done|].
      apply list_elem_of_lookup. eauto.
    + left. apply list_lookup_singleton_Some in Hd' as [H0 <-]. split; [done|]. lia.
Qed.

Lemma clone_definition_valid d : valid_definition d -> clone_definition d = Some d.
Proof.
  intros [Hn Hr]. unfold clone_definition. rewrite clone_decoded by done. simpl. rewrite clone_valid by done. by destruct d.
Qed.

(** The definitions have distinct canonical names, which the index describes. *)
Record named (s : Session) : Prop := mkNamed {
  named_valid : Forall valid_definition (definitions s);
  named_distinct : NoDup (key_of <$> definitions s);
  named_index : indexes (definitions s) (byName s)
}.

Lemma NoDup_add_last {A} (l : list A) x : NoDup l -> x ∉ l -> NoDup (l ++ [x]).
Proof. intros Hl Hx. apply NoDup_app. split; [done|]. split; [set_solver|]. apply NoDup_singleton. Qed.

Lemma add_definitions_named s ds s' :
  Forall valid_definition ds -> named s -> add_definitions Canonical s ds = Ok s' ->
  named s' /\ definitions s' = definitions s ++ ds.
Proof.
  intros Hv. revert s. induction Hv as [|d ds Hd _ IH]; intros s Hs E; simpl in E; [injection E as <-; by rewrite app_nil_r|].
  case_bool_decide; [done|]. destruct (byName s !! canonical Canonical (DefinitionName d)) eqn:Ek; [done|].
  rewrite clone_definition_valid in E by done. apply IH in E as [Hs' ->]; [|].
  - split; [done|]. simpl. by rewrite <- app_assoc.
  - destruct Hs as [Hs1 Hs2 Hs3]. apply (indexes_fresh _ _ d Hs3) in Ek. split; simpl.
    + apply list.Forall_app. by rewrite list.Forall_singleton.
    + rewrite fmap_app. by apply NoDup_add_last.
    + by apply indexes_add.
Qed.

Lemma restrict_named managed allowed ds kept index :
  Forall valid_definition (kept ++ ds) -> NoDup (key_of <$> kept ++ ds) -> indexes kept index ->
  let keep d := ~ (DefinitionName d ∈ managed /\ DefinitionName d ∉ allowed) in
  let '(kept', index') := restrict Canonical managed allowed ds kept index in
  Forall valid_definition kept' /\ NoDup (key_of <$> kept') /\ indexes kept' index' /\ kept' = kept ++ filter keep ds.
Proof.
  intros Hv Hn Hi keep. revert kept index Hv Hn Hi. induction ds as [|d ds IH]; intros kept index Hv Hn Hi; simpl.
  - rewrite app_nil_r in *. done.
  - rewrite filter_cons. case_bool_decide as Hk.
    + rewrite decide_False by (unfold keep; naive_solver). apply IH; [| |done].
      * apply list.Forall_app in Hv as [? Hv]. apply list.Forall_cons in Hv as [_ ?]. by apply list.Forall_app.
      * rewrite fmap_app in *. simpl in Hn. apply NoDup_app in Hn as (? & Hd & Hn). apply NoDup_cons in Hn as [_ ?].
        apply NoDup_app. split; [done|]. split; [|done]. intros x Hx Hx'. by apply (Hd x Hx), elem_of_cons; right.
    + rewrite decide_True by done. specialize (IH (kept ++ [d]) (<[canonical Canonical (DefinitionName d):=length kept]> index)).
      rewrite <- app_assoc in IH. simpl in IH. rewrite <- app_assoc in IH. apply IH; [done..|]. apply (indexes_add _ _ d Hi).
      rewrite fmap_app in Hn. simpl in Hn. apply NoDup_app in Hn as (_ & Hd & _). intros Hx. apply (Hd _ Hx), elem_of_cons. by left.
Qed.

Lemma named_same s s' : definitions s' = definitions s -> byName s' = byName s -> named s -> named s'.
Proof. intros E1 E2 [H1 H2 H3]. split; by rewrite ?E1, ?E2. Qed.

Lemma step_named registered s s' :
  session_step Canonical registered s s' -> named s -> named s' /\ definitions s' `sublist_of` definitions s.
Proof.
  intros Hst Hs.
  assert (forall s2, definitions s2 = definitions s -> byName s2 = byName s -> named s2 /\ definitions s2 `sublist_of` definitions s) as Hsame.
  { intros s2 E1 E2. split; [by apply (named_same s)|by rewrite E1]. }
  destruct Hst as [? c t id name args answer ? r n E|? e|? c t e|? name raw|? managed allowed|? range d ? r Hr Hv E|? id].
  - destruct (defer_outcomes Canonical s c t id name args answer) as (s2 & r2 & n2 & E2 & _ & H).
    pose proof (run_defer_inj _ _ _ _ E E2) as [= -> -> ->].
    destruct H as [(e & _ & -> & _)|[_ [(e & Hf & _)|[(p & _ & _ & _ & -> & _)|(p & -> & _)]]]]; [by apply Hsame| |by apply Hsame..].
    unfold defer_fail in Hf. destruct (unscoped c t); injection Hf as -> _; by apply Hsame.
  - destruct e; by apply Hsame.
  - destruct e; by apply Hsame.
  - unfold SetMetadata. repeat case_match; by apply Hsame.
  - destruct Hs as [Hs1 Hs2 Hs3]. pose proof (restrict_named managed allowed (definitions s) [] ∅ Hs1 Hs2 indexes_nil) as Hr.
    unfold RestrictManaged. destruct (restrict Canonical managed allowed (definitions s) [] ∅) as [kept index].
    destruct Hr as (H1 & H2 & H3 & ->). split; [done|]. simpl. apply sublist_filter.
  - apply register_cases in E as [->|(copied & _ & _ & _ & _ & _ & _ & _ & ->)]; by apply Hsame.
  - unfold MarkDependencyWaiting. case_match; by apply Hsame.
Qed.

(** A step that does not restrict the definitions. *)
Definition other_step registered (s s' : Session) : Prop :=
  session_step Canonical registered s s' /\ ~ exists managed allowed, s' = RestrictManaged Canonical s managed allowed.

Lemma other_step_names registered s s' :
  other_step registered s s' -> definitions s' = definitions s /\ byName s' = byName s.
Proof.
  intros [Hst Hr].
  destruct Hst as [? c t id name args answer ? r n E|? e|? c t e|? name raw|? managed allowed|? range d ? r Hg Hv E|? id].
  - destruct (defer_outcomes Canonical s c t id name args answer) as (s2 & r2 & n2 & E2 & _ & H).
    pose proof (run_defer_inj _ _ _ _ E E2) as [= -> -> ->].
    destruct H as [(e & _ & -> & _)|[_ [(e & Hf & _)|[(p & _ & _ & _ & -> & _)|(p & -> & _)]]]]; [done| |done..].
    unfold defer_fail in Hf. by destruct (unscoped c t); injection Hf as -> _.
  - by destruct e.
  - by destruct e.
  - unfold SetMetadata. by repeat case_match.
  - destruct Hr. by exists managed, allowed.
  - by apply register_cases in E as [->|(copied & _ & _ & _ & _ & _ & _ & _ & ->)].
  - unfold MarkDependencyWaiting. by case_match.
Qed.

Lemma other_steps_names registered s s' :
  rtc (other_step registered) s s' -> definitions s' = definitions s /\ byName s' = byName s.
Proof.
  induction 1 as [|s1 s2 s3 H _ [IH1 IH2]]; [done|]. apply other_step_names in H as [<- <-]. done.
Qed.

Lemma steps_named registered ds s s' :
  Forall valid_definition ds -> NewSession Canonical ds = Ok s -> session_steps Canonical registered s s' ->
  named s' /\ definitions s' `sublist_of` ds.
Proof.
  intros Hv E Hst. assert (named s /\ definitions s = ds) as [Hs Eds].
  { apply (add_definitions_named empty_session ds s Hv); [|done]. split; [constructor|constructor|apply indexes_nil]. }
  subst ds. clear E Hv. induction Hst as [|s1 s2 s3 H _ IH]; [done|]. destruct (step_named _ _ _ H Hs) as [Hs' Hsub].
  destruct (IH Hs') as [? ?]. split; [done|]. by etrans.
Qed.

(** C39: a session finds exactly the definitions it holds.  Whatever happened
    to it since its creation, its definitions are among those it was created
    with and have distinct canonical names; and a lookup, which reads the map
    and the slice without the lock, as long as no [RestrictManaged] runs between
    its two reads, returns a definition of that canonical name when there is
    one, says so when there is none, and does not fail.  (With a
    [RestrictManaged] in between it may: [Demo.lookup_race].) *)
Theorem lookup_exact registered ds s s' s'' :
  Forall valid_definition ds -> NewSession Canonical ds = Ok s ->
  session_steps Canonical registered s s' -> rtc (other_step registered) s' s'' ->
  definitions s' `sublist_of` ds /\ NoDup (key_of <$> definitions s') /\
  forall name, exists d found, Lookup Canonical s' s'' name = Some (d, found) /\
    (if (found : bool) then d ∈ definitions s' /\ key_of d = canonical Canonical name
     else canonical Canonical name ∉ key_of <$> definitions s').
Proof.
  intros Hv E Hst Hr. destruct (steps_named _ _ _ _ Hv E Hst) as [[Hs1 Hs2 Hs3] Hsub].
  apply other_steps_names in Hr as [Hr _].
  split; [done|]. split; [done|]. intros name. unfold Lookup. rewrite Hr.
  destruct (byName s' !! canonical Canonical name) as [i|] eqn:Ek.
  - apply Hs3 in Ek as (d & Hd & Ek). rewrite Hd. eexists _, true. split; [reflexivity|].
    apply (list.Forall_lookup_1 _ _ _ _ Hs1) in Hd as Hvd. rewrite clone_definition_valid by done. split; [|done].
    by apply list_elem_of_lookup; eauto.
  - eexists _, false. split; [reflexivity|]. intros (d & Ek' & [i Hd]%list_elem_of_lookup)%list_elem_of_fmap.
    assert (byName s' !! canonical Canonical name = Some i) by (apply Hs3; eauto). congruence.
Qed.
End Names.

(** ** Witnesses *)
Module Demo.
Definition Canonical (s : string) : string := s.
Definition args : json := JObject [("city", JString "SF")].
Definition call (c t id : string) : PendingCall := mkCall "" "" "" "" id "lookup" args "m" "a" c t 1.
Definition deferred : option ((Session * result ToolError PendingCall) * nat) :=
  run_defer (Ok (call "c" "t" "")) (deferForScope Canonical empty_session "c" "t" "1" "Lookup " args).
Definition after : Session := match deferred with Some ((s, _), _) => s | None => empty_session end.
Definition refused : option ((Session * result ToolError PendingCall) * nat) :=
  run_defer (Err "store is closed") (deferForScope Canonical empty_session "c" "t" "1" "lookup" args).
Definition poisoned : Session := match refused with Some ((s, _), _) => s | None => empty_session end.

Definition dependency (id pc pt cc ct : string) : Dependency :=
  mkDependency id (call pc pt ("call" +:+ id)) cc ct "agent" "" AgentRunResultV1 false.
Definition all_edges (s : Session) (current : string) : list Dependency := edges s.
Definition register (s : Session) (d : Dependency) : Session :=
  match RegisterDependency (all_edges s) s d with Some (s', _) => s' | None => s end.
Definition one : Session := (MarkDependencyWaiting (register empty_session (dependency "1" "c" "t" "d" "u")) "1").1.

Lemma all_edges_ranges s : ranges s (all_edges s).
Proof. by intros ?. Qed.

(** A second parent and a cycle are refused. *)
Example second_parent :
  RegisterDependency (all_edges one) one (dependency "2" "e" "v" "d" "u") = Some (one, Err ChildTaken).
Proof. vm_compute. reflexivity. Qed.
Example cycle : RegisterDependency (all_edges one) one (dependency "2" "d" "u" "c" "t") = Some (one, Err Cyclic).
Proof. vm_compute. reflexivity. Qed.
Example subtree : WaitingDependencies (all_edges one) one "c" "t" = Some [copy_dependency (wait_for (dependency "1" "c" "t" "d" "u"))].
Proof. vm_compute. reflexivity. Qed.

(** Identifiers that are not UTF-8 are compared as they are and stored as
    copies, in which the two below are the same: the turn waits for itself. *)
Definition raw_byte (n : nat) : string := text [ch n].
Example invalid_ids_loop :
  let s := register empty_session (dependency "1" "c" (raw_byte 254) "c" (raw_byte 255)) in
  match edges s with [d] => parent_key d = child_key d | _ => False end.
Proof. vm_compute. reflexivity. Qed.

(** A lookup that overlaps [RestrictManaged]: the index of the old map is out
    of the range of the new slice. *)
Definition two_tools : list ToolDefinition := [mkDefinition "Pick" JNull; mkDefinition "show" (JObject [])].
Example lookup_race :
  exists s, NewSession Canonical two_tools = Ok s /\ Lookup Canonical s (RestrictManaged Canonical s {["Pick"]} ∅) "show" = None.
Proof. eexists. split; [vm_compute; reflexivity|vm_compute; reflexivity]. Qed.

Lemma empty_forest : forest empty_session.
Proof.
  assert (edges empty_session = []) as E by reflexivity.
  split; [|unfold edges; simpl; rewrite map_to_list_empty; by intros ? ? ?%elem_of_nil|by intros].
  intros x Hx. assert (exists y, waits false empty_session x y) as (y & d & Hd & _) by (inversion Hx; eauto).
  rewrite E in Hd. by apply elem_of_nil in Hd.
Qed.
End Demo.

Lemma deferral_once_witness :
  exists p s3 r,
    run_defer (Err "down") (deferForScope Demo.Canonical (RecordError Demo.after None) "c" "t" "1" "lookup" Demo.args) = Some ((s3, r), 0) /\
    let agrees := canonical Demo.Canonical "lookup" = canonical Demo.Canonical "Lookup " /\ clone_json Demo.args = clone_json Demo.args in
    (ErrorForTurn (RecordError Demo.after None) "c" "t" = None /\ agrees <-> is_ok r = true)
    /\ (is_ok r = true -> r = Ok p /\ s3 = RecordError Demo.after None).
Proof.
  eexists.
  apply (deferral_once Demo.Canonical (fun _ => False) empty_session "c" "t" "1" "Lookup " Demo.args (Ok (Demo.call "c" "t" "")) Demo.after _ 1).
  - reflexivity.
  - vm_compute. reflexivity.
  - intros p0 [= <-]. split; reflexivity.
  - apply rtc_once. apply (step_record Demo.Canonical _ Demo.after None).
Defined.

Lemma failure_poisons_witness :
  exists e', ErrorForTurn (RecordErrorForTurn Demo.poisoned "c" "u" None) "c" "t" = Some e' /\
    forall id' name' args' answer',
      run_defer answer' (deferForScope Demo.Canonical (RecordErrorForTurn Demo.poisoned "c" "u" None) "c" "t" id' name' args')
      = Some ((RecordErrorForTurn Demo.poisoned "c" "u" None, Err e'), 0).
Proof.
  apply (failure_poisons Demo.Canonical (fun _ => False) empty_session "c" "t" "1" "lookup" Demo.args (Err "store is closed") Demo.poisoned
           (External "store is closed") 1).
  - vm_compute. reflexivity.
  - apply rtc_once. apply (step_record_turn Demo.Canonical _ Demo.poisoned "c" "u" None).
Defined.

Lemma dependencies_forest_witness : forest Demo.one.
Proof.
  apply (dependencies_forest Demo.Canonical empty_session Demo.one Demo.empty_forest).
  apply rtc_l with (Demo.register empty_session (Demo.dependency "1" "c" "t" "d" "u")).
  - apply (step_register Demo.Canonical valid_ids empty_session (Demo.all_edges empty_session) (Demo.dependency "1" "c" "t" "d" "u") _ (Ok tt)).
    + apply Demo.all_edges_ranges.
    + repeat constructor.
    + vm_compute. reflexivity.
  - apply rtc_once. apply (step_wait Demo.Canonical valid_ids _ "1").
Defined.

Lemma subtree_queries_exact_witness :
  let root := turnKey "c" "t" in
  exists member : string -> bool,
    (forall key, member key = true <-> rtc (waits true Demo.one) root key)
    /\ PendingForSubtree (Demo.all_edges Demo.one) Demo.one "c" "t"
       = Some (copy_call <$> filter (fun p => member (turnKey (ConversationID p) (TurnID p)) = true) (pending Demo.one))
    /\ WaitingDependencies (Demo.all_edges Demo.one) Demo.one "c" "t"
       = Some (copy_dependency <$> filter (fun d => Waiting d = true /\ member (parent_key d) = true)
                                    ((fun id => default zero_dependency (dependencies Demo.one !! id)) <$> dependencyOrder Demo.one)).
Proof. apply (subtree_queries_exact (Demo.all_edges Demo.one) Demo.one (Demo.all_edges_ranges Demo.one)). Defined.

Lemma lookup_exact_witness :
  let s := match NewSession Demo.Canonical Demo.two_tools with Ok s => s | Err _ => empty_session end in
  let s' := RestrictManaged Demo.Canonical s {["Pick"]} ∅ in
  let s'' := RecordError s' (Some NameRequired) in
  definitions s' `sublist_of` Demo.two_tools /\ NoDup (key_of Demo.Canonical <$> definitions s') /\
  forall name, exists d found, Lookup Demo.Canonical s' s'' name = Some (d, found) /\
    (if (found : bool) then d ∈ definitions s' /\ key_of Demo.Canonical d = canonical Demo.Canonical name
     else canonical Demo.Canonical name ∉ key_of Demo.Canonical <$> definitions s').
Proof.
  intros s s' s''. apply (lookup_exact Demo.Canonical (fun _ => False) Demo.two_tools s s' s'').
  - repeat constructor.
  - vm_compute. reflexivity.
  - apply rtc_once. apply (step_restrict Demo.Canonical _ s {["Pick"]} ∅).
  - apply rtc_once. split; [apply (step_record Demo.Canonical _ s' (Some NameRequired))|].
    intros (managed & allowed & E%(f_equal err)). unfold RestrictManaged in E. by destruct (restrict _ _ _ _ _ _).
Defined.
