(* ===== verification/AguiPatch.v ===== *)
(** * JSON equality, pointers and patches of the AG-UI state

    src/runtime/aguistate/patch.go and equality.go: the equality of JSON values
    that compares numbers as decimals without expanding their exponents, JSON
    pointers, and the application of a patch around the json-patch library,
    which is a parameter, as is the schema validation. Texts are represented by
    the values they are decoded to. *)
From stdpp Require Import base strings list numbers.
From Stdlib Require Import ZArith QArith Lia Ascii.
From S2P Require Import Prelude GoStrings Digest GoJson JsonQuote CanonicalNumber JsonValue JsonCodec JsonDecoded.

Open Scope Z_scope.

(** ** Numbers *)

(** [big.Int.SetString(_, 10)] of an optional sign and digits; zero when the
    text is no number. *)
Definition SetString (l : list ascii) : Z :=
  let '(neg, ds) :=
    match l with
    | c :: r => if bool_decide (c = "-"%char) then (true, r)
                else if bool_decide (c = "+"%char) then (false, r) else (false, l)
    | [] => (false, [])
    end in
  if digitsOnly ds then signed neg (of_digits ds) else 0.

Definition numericForm (value : list ascii) : list ascii :=
  let '(sign, value) :=
    match value with
    | c :: r => if bool_decide (c = "-"%char) then ([c], r) else ([], value)
    | [] => ([], [])
    end in
  let '(value, exponent) :=
    match split_first is_exp value with
    | Some (mantissa, e) => (mantissa, SetString e)
    | None => (value, 0)
    end in
  let '(value, exponent) :=
    match split_first is_dot value with
    | Some (integer, fraction) => (integer ++ fraction, exponent - Z.of_nat (length fraction))
    | None => (value, exponent)
    end in
  match drop_zeros value with
  | [] => ["0"%char]
  | value =>
      let stripped := rev (drop_zeros (rev value)) in
      sign ++ stripped ++ ["e"%char] ++ FormatInt (exponent + Z.of_nat (length value - length stripped))
  end.

(** ** Equality *)
Fixpoint patchEqual (a b : json) {struct a} : bool :=
  match a with
  | JNumber n => match b with JNumber m => bool_decide (numericForm (bytes n) = numericForm (bytes m)) | _ => false end
  | JObject av =>
      match b with
      | JObject bv =>
          (length av =? length bv)%nat
          && forallb (fun '(k, v) => match get k bv with Some other => patchEqual v other | None => false end) av
      | _ => false
      end
  | JArray av =>
      match b with
      | JArray bv =>
          (length av =? length bv)%nat
          && (fix items av bv :=
                match av, bv with
                | x :: av, y :: bv => patchEqual x y && items av bv
                | _, _ => true
                end) av bv
      | _ => false
      end
  | JNull | JBool _ | JString _ => bool_decide (a = b)
  end.

(** [EqualJSON]: both texts have to be JSON values. *)
Definition EqualJSON (left right : string) : option bool :=
  a ← json_parse left; b ← json_parse right; Some (patchEqual a b).

(** ** Pointers *)
Definition pointerTokens (path : string) : list string :=
  match path with
  | "" => []
  | String.String _ rest => (fun part => ReplaceAll (ReplaceAll part "~1" "/") "~0" "~") <$> Split rest "/"%char
  end.

Fixpoint is_prefix (a b : list string) : bool :=
  match a, b with
  | [], _ => true
  | x :: a, y :: b => bool_decide (x = y) && is_prefix a b
  | _, [] => false
  end.
Definition properPointerPrefix (from path : string) : bool :=
  let a := pointerTokens from in let b := pointerTokens path in
  (length a <? length b)%nat && is_prefix a b.

Definition arrayIndex (token : string) : option nat :=
  let l := bytes token in
  match l with
  | [] => None
  | c :: r =>
      if negb (bool_decide (r = [])) && is_zero c then None
      else if digitsOnly l && bool_decide (of_digits l <= max_int64) then Some (Z.to_nat (of_digits l)) else None
  end.

Fixpoint pointer_at (value : json) (tokens : list string) : option json :=
  match tokens with
  | [] => Some value
  | token :: tokens =>
      match value with
      | JObject current => child ← get token current; pointer_at child tokens
      | JArray current => index ← arrayIndex token; child ← current !! index; pointer_at child tokens
      | _ => None
      end
  end.
Definition patchPointer (value : json) (path : string) : option json := pointer_at value (pointerTokens path).

Inductive PatchError :=
| InvalidEvent                     (* the schema refuses the patch *)
| MoveIntoItself
| InvalidIndex (token : string)
| TestFailed (path : string)
| MissingValue
| LibraryError.                    (* of the json-patch library *)

Fixpoint valid_pointer (value : json) (tokens : list string) (allowAppend : bool) : result PatchError unit :=
  match tokens with
  | [] => Ok tt
  | token :: tokens =>
      match value with
      | JObject current =>
          match get token current with
          | None => Ok tt
          | Some child => valid_pointer child tokens allowAppend
          end
      | JArray current =>
          if bool_decide (token = "-") && bool_decide (tokens = []) && allowAppend then Ok tt
          else
            match arrayIndex token with
            | None => Err (InvalidIndex token)
            | Some index =>
                match current !! index with
                | None => Ok tt
                | Some child => valid_pointer child tokens allowAppend
                end
            end
      | _ => Ok tt
      end
  end.
Definition validateArrayPointer (value : json) (path : string) (allowAppend : bool) : result PatchError unit :=
  valid_pointer value (pointerTokens path) allowAppend.

(** ** Patches *)
Section Apply.
(** [agui.ValidateEvent] on a decoded event, and one operation of the json-patch
    library on a document. *)
Context (ValidateEvent : json -> bool) (apply_library : json -> json -> option json).

Definition wrapper : string := "__agui_state".
Definition text_field (key : string) (o : list (string * json)) : string :=
  match get key o with Some (JString s) => s | _ => "" end.
Definition unwrap (wrapped : json) : result PatchError json :=
  match wrapped with
  | JObject current => Ok (default JNull (get wrapper current))
  | JNull => Ok JNull
  | _ => Err LibraryError
  end.

Definition apply_operation (wrapped : json) (operation : list (string * json)) : result PatchError json :=
  let kind := text_field "op" operation in
  let path := text_field "path" operation in
  let from := text_field "from" operation in
  value ← unwrap wrapped;
  if bool_decide (kind = "move") && properPointerPrefix from path then Err MoveIntoItself
  else
    _ ← validateArrayPointer value path (bool_decide (kind ∈ ["add"; "copy"; "move"]));
    _ ← (if bool_decide (kind ∈ ["move"; "copy"]) then validateArrayPointer value from false else Ok tt);
    if bool_decide (kind = "test") then
      match get "value" operation with
      | None => Err MissingValue
      | Some expected =>
          match patchPointer value path with
          | Some actual => if patchEqual actual expected then Ok wrapped else Err (TestFailed path)
          | None => Err (TestFailed path)
          end
      end
    else
      let adjusted := put "path" (JString ("/" +:+ wrapper +:+ path)) operation in
      let adjusted := if bool_decide (kind ∈ ["move"; "copy"]) then put "from" (JString ("/" +:+ wrapper +:+ from)) adjusted
                      else adjusted in
      match apply_library wrapped (JObject adjusted) with
      | None => Err LibraryError
      | Some wrapped =>
          if bool_decide (kind = "remove") && bool_decide (path = "") then Ok (JObject [(wrapper, JNull)]) else Ok wrapped
      end.

Fixpoint apply_operations (wrapped : json) (operations : list json) : result PatchError json :=
  match operations with
  | [] => unwrap wrapped
  | JObject operation :: operations => wrapped ← apply_operation wrapped operation; apply_operations wrapped operations
  | JNull :: operations => wrapped ← apply_operation wrapped []; apply_operations wrapped operations
  | _ :: _ => Err InvalidEvent
  end.

Definition ApplyPatchJSON (state patch : json) : result PatchError json :=
  if ValidateEvent (JObject [("delta", patch); ("type", JString "STATE_DELTA")]) then
    match patch with
    | JArray operations => apply_operations (JObject [(wrapper, state)]) operations
    | JNull => Ok state
    | _ => Err InvalidEvent
    end
  else Err InvalidEvent.
End Apply.

(** ** What the numeric form identifies *)

(** The form of a decimal: its digits and the weight of the last one. *)
Definition form (d : decimal) : list ascii :=
  match significant d with
  | [] => ["0"%char]
  | c => sign_text (negative d) ++ c ++ "e"%char :: FormatInt (weight d + 1 - Z.of_nat (length c))
  end.

Lemma SetString_text sg ds x : exponent_text sg ds x -> SetString (sg ++ ds) = x.
Proof.
  intros (Hne & Hd & Hsg). unfold SetString. destruct ds as [|c r]; [done|].
  destruct (digits_head_not_sign c r Hd) as [Hp Hm].
  destruct Hsg as [[[->| ->] ->]|[-> ->]]; cbn [app].
  - rewrite !bool_decide_false by done. by rewrite Hd.
  - rewrite bool_decide_false, bool_decide_true by done. by rewrite Hd.
  - rewrite bool_decide_true by done. by rewrite Hd.
Qed.

Lemma numericForm_form raw r : number_value raw = Some r -> numericForm raw = form (decimal_of r).
Proof.
  intros Hv. apply number_value_parts in Hv as (neg & i & f & x & (fr & ex & -> & Hi & Hf & Hx) & ->).
  unfold numericForm. destruct (int_text_cons i Hi) as (d & ir & Ei & Hd & Hdm).
  assert (match sign_text neg ++ i ++ fr ++ ex with
          | c :: rest => if bool_decide (c = "-"%char) then ([c], rest) else ([], sign_text neg ++ i ++ fr ++ ex)
          | [] => ([], [])
          end = (sign_text neg, (i ++ fr) ++ ex)) as ->.
  { rewrite <- app_assoc. destruct neg; [done|]. cbn [sign_text app]. rewrite Ei. cbn [app]. by rewrite bool_decide_false. }
  pose proof (mantissa_no_exp i fr f Hi Hf) as Hme.
  assert (match split_first is_exp ((i ++ fr) ++ ex) with Some (m, e) => (m, SetString e) | None => ((i ++ fr) ++ ex, 0) end
          = (i ++ fr, x)) as ->.
  { destruct Hx as [[-> ->]|(e & sg & ds & -> & He & Ht)].
    - rewrite app_nil_r. by rewrite (proj2 (split_first_None is_exp _) Hme).
    - rewrite (split_first_app is_exp _ _ _ Hme He). by rewrite (SetString_text _ _ _ Ht). }
  destruct Hi as (_ & Hdi & _).
  assert (match split_first is_dot (i ++ fr) with
          | Some (a, b) => (a ++ b, x - Z.of_nat (length b)) | None => (i ++ fr, x) end
          = (i ++ f, x - Z.of_nat (length f))) as ->.
  { assert (Forall (fun c => is_dot c = false) i) as Hid by (by apply Forall_digits; [apply digit_no_dot|]).
    destruct Hf as [[-> ->]|(-> & _ & _)].
    - rewrite !app_nil_r. rewrite (proj2 (split_first_None is_dot _) Hid). by rewrite Z.sub_0_r.
    - by rewrite (split_first_app is_dot _ "."%char f Hid). }
  destruct (trim_zeros (i ++ f)) as [Hz|(zs & c & ts & -> & Hzs & Hts & Hc)].
  - rewrite decimal_of_zeros by done. rewrite <- (app_nil_r (i ++ f)), drop_zeros_zeros by done. done.
  - rewrite decimal_of_core by done. rewrite drop_zeros_zeros, drop_zeros_core by done.
    destruct (c ++ ts) as [|y l] eqn:E; [by destruct Hc as [(? & ? & -> & _) _]|]. rewrite <- E.
    rewrite drop_zeros_rev_core by done. unfold form. cbn [significant negative weight].
    destruct c as [|c0 c]; [by destruct Hc as [(? & ? & ? & _) _]|]. do 3 f_equal. rewrite length_app. f_equal. lia.
Qed.

Lemma FormatInt_inj x y : FormatInt x = FormatInt y -> x = y.
Proof.
  intros E. destruct (number_value_FormatInt x) as (r1 & H1 & Q1), (number_value_FormatInt y) as (r2 & H2 & Q2).
  rewrite E in H1. assert (r1 = r2) as -> by congruence. apply inject_Z_injective. by rewrite <- Q1, <- Q2.
Qed.

Lemma sign_digits_inj n1 n2 c1 c2 x1 x2 :
  digits_ c1 -> digits_ c2 -> c1 <> [] -> c2 <> [] ->
  sign_text n1 ++ c1 ++ "e"%char :: x1 = sign_text n2 ++ c2 ++ "e"%char :: x2 -> n1 = n2 /\ c1 = c2 /\ x1 = x2.
Proof.
  intros D1 D2 N1 N2 E. assert (n1 = n2) as <-.
  { destruct c1 as [|a c1]; [done|]. destruct c2 as [|b c2]; [done|].
    apply digits_head_not_sign in D1 as [_ D1']. apply digits_head_not_sign in D2 as [_ D2'].
    destruct n1, n2; simpl in E; congruence. }
  apply app_inv_head in E. split; [done|].
  pose proof (take_digits_app c1 ("e"%char :: x1) D1 eq_refl) as T1.
  pose proof (take_digits_app c2 ("e"%char :: x2) D2 eq_refl) as T2. rewrite E in T1. split; congruence.
Qed.

Lemma form_inj d1 d2 : normal_decimal d1 -> normal_decimal d2 -> form d1 = form d2 -> d1 = d2.
Proof.
  unfold form. intros H1 H2 E.
  destruct H1 as [->|[D1 [(a & r1 & E1 & Z1) _]]], H2 as [->|[D2 [(b & r2 & E2 & Z2) _]]]; cbn [significant zero] in *.
  - done.
  - rewrite E2 in *. exfalso. destruct (negative d2); simpl in E; [done|]. injection E as Ea Er.
    destruct r2; discriminate Er.
  - rewrite E1 in *. exfalso. destruct (negative d1); simpl in E; [done|]. injection E as Ea Er.
    destruct r1; discriminate Er.
  - destruct d1 as [n1 c1 w1], d2 as [n2 c2 w2]. cbn [significant negative weight] in *. rewrite E1, E2 in E.
    rewrite <- E1 in E at 1. rewrite <- E2 in E at 1. rewrite <- E1, <- E2 in E.
    apply sign_digits_inj in E as (-> & -> & E); [|done|done|by rewrite E1|by rewrite E2]. apply FormatInt_inj in E. f_equal. lia.
Qed.

(** Two literals have the same form exactly when they denote the same number. *)
Lemma numericForm_numeric raw1 raw2 r1 r2 :
  number_value raw1 = Some r1 -> number_value raw2 = Some r2 ->
  numericForm raw1 = numericForm raw2 <-> (reading_Q r1 == reading_Q r2)%Q.
Proof.
  intros H1 H2. rewrite (numericForm_form _ _ H1), (numericForm_form _ _ H2).
  rewrite <- (decimal_of_reading _ _ H1), <- (decimal_of_reading _ _ H2).
  pose proof (number_value_normal _ _ H1). pose proof (number_value_normal _ _ H2). split.
  - intros E. apply form_inj in E; [|done..]. by rewrite E.
  - intros E. apply decimal_Q_inj in E; [|done..]. by rewrite E.
Qed.

(** ** The data of a JSON value *)
Inductive same_data : json -> json -> Prop :=
| same_null : same_data JNull JNull
| same_bool b : same_data (JBool b) (JBool b)
| same_string s : same_data (JString s) (JString s)
| same_number l1 l2 r1 r2 :
    number_value (bytes l1) = Some r1 -> number_value (bytes l2) = Some r2 -> (reading_Q r1 == reading_Q r2)%Q ->
    same_data (JNumber l1) (JNumber l2)
| same_array a b : Forall2 same_data a b -> same_data (JArray a) (JArray b)
| same_object a b :
    (forall k, get k a = None <-> get k b = None) ->
    (forall k v w, get k a = Some v -> get k b = Some w -> same_data v w) ->
    same_data (JObject a) (JObject b).

Lemma same_keys_length {A B} (a : list (string * A)) (b : list (string * B)) :
  NoDup a.*1 -> NoDup b.*1 -> (forall k, k ∈ a.*1 <-> k ∈ b.*1) -> length a = length b.
Proof.
  intros Ha Hb E. rewrite <- (length_fmap fst a), <- (length_fmap fst b). apply Permutation_length.
  by apply NoDup_Permutation.
Qed.

Lemma subset_keys {A B} (a : list (string * A)) (b : list (string * B)) :
  NoDup a.*1 -> length a = length b -> (forall k, k ∈ a.*1 -> k ∈ b.*1) -> forall k, k ∈ b.*1 -> k ∈ a.*1.
Proof.
  intros Ha Hl Hs. assert (a.*1 ⊆+ b.*1) as Hsub by (by apply NoDup_submseteq).
  apply submseteq_length_Permutation in Hsub; [|by rewrite !length_fmap, Hl]. intros k. by rewrite Hsub.
Qed.

Lemma patchEqual_same a : forall b, decoded a = true -> decoded b = true -> patchEqual a b = true <-> same_data a b.
Proof.
  induction a as [|x|l|s|av IH|av IH] using json_nested_ind; intros b Ha Hb.
  - simpl. rewrite bool_decide_eq_true. split; [intros <-; constructor|by inversion 1].
  - simpl. rewrite bool_decide_eq_true. split; [intros <-; constructor|by inversion 1].
  - destruct b as [| |l'| | |]; try (split; [done|by inversion 1]). simpl in *. rewrite bool_decide_eq_true in *.
    destruct Ha as [r1 H1], Hb as [r2 H2]. rewrite (numericForm_numeric _ _ _ _ H1 H2). split.
    + intros E. by econstructor.
    + inversion 1 as [| | |? ? q1 q2 E1 E2| |]; subst. congruence.
  - simpl. rewrite bool_decide_eq_true. split; [intros <-; constructor|by inversion 1].
  - destruct b as [| | | |bv|]; try (split; [done|by inversion 1]). cbn [patchEqual].
    trans (Forall2 same_data av bv); [|split; [by constructor|by inversion 1]]. simpl in Ha, Hb. clear -IH Ha Hb.
    revert bv Hb. induction IH as [|x av Hx _ IHav]; intros [|y bv] Hb.
    + split; [constructor|done].
    + split; [done|by inversion 1].
    + split; [done|by inversion 1].
    + simpl in Ha, Hb. apply andb_prop in Ha as [Hdx Ha], Hb as [Hdy Hb]. specialize (IHav Ha bv Hb). cbn [length Nat.eqb].
      rewrite list.Forall2_cons, <- IHav, <- (Hx y Hdx Hdy), !andb_true_iff. tauto.
  - destruct b as [| | | | |bv]; try (split; [done|by inversion 1]). cbn [patchEqual]. simpl in Ha, Hb.
    apply andb_prop in Ha as [Oa Ha], Hb as [Ob Hb].
    pose proof (ordered_NoDup _ Oa) as Na. pose proof (ordered_NoDup _ Ob) as Nb.
    rewrite andb_true_iff, Nat.eqb_eq, forallb_forall.
    assert (forall k v w, get k av = Some v -> get k bv = Some w -> patchEqual v w = true <-> same_data v w) as Hvw.
    { intros k v w Hv Hw. apply get_elem in Hv, Hw. rewrite list.Forall_forall in IH. apply (IH _ Hv).
      - rewrite forallb_forall in Ha. apply list_elem_of_In in Hv. specialize (Ha _ Hv). by apply andb_prop in Ha as [_ ?].
      - rewrite forallb_forall in Hb. apply list_elem_of_In in Hw. specialize (Hb _ Hw). by apply andb_prop in Hb as [_ ?]. }
    split.
    + intros [Hl Hall].
      assert (forall k, k ∈ av.*1 -> k ∈ bv.*1) as Hs.
      { intros k ([k' v] & -> & Hin)%list_elem_of_fmap. apply list_elem_of_In in Hin as Hin'. specialize (Hall _ Hin'). simpl in Hall.
        destruct (get k' bv) as [w|] eqn:Ew; [|done]. apply get_elem in Ew. simpl. apply list_elem_of_fmap. by exists (k', w). }
      constructor.
      * intros k. rewrite !get_None. pose proof (subset_keys av bv Na Hl Hs k). specialize (Hs k). tauto.
      * intros k v w Hv Hw. apply (Hvw k v w Hv Hw). apply get_elem, list_elem_of_In in Hv. specialize (Hall _ Hv). simpl in Hall.
        by rewrite Hw in Hall.
    + inversion 1 as [| | | | |? ? Hk Hs]; subst. split.
      * apply same_keys_length; [done..|]. intros k. specialize (Hk k). rewrite !get_None in Hk.
        destruct (decide (k ∈ av.*1)), (decide (k ∈ bv.*1)); tauto.
      * intros [k v] Hin. apply list_elem_of_In in Hin. apply elem_get in Hin; [|done].
        destruct (get k bv) as [w|] eqn:Ew; [by apply (Hvw k v w Hin Ew), (Hs k)|]. apply Hk in Ew. congruence.
Qed.

(** C35: [EqualJSON] decides the equality of JSON data on any two texts: objects
    by their members, arrays by their items, numbers by the decimal they denote
    however it is written and however large its exponent; it fails exactly when
    one of the texts is not a JSON value. *)
Theorem EqualJSON_same_data left right :
  match json_parse left, json_parse right with
  | Some a, Some b => exists equal, EqualJSON left right = Some equal /\ (equal = true <-> same_data a b)
  | _, _ => EqualJSON left right = None
  end.
Proof.
  unfold EqualJSON. destruct (json_parse left) as [a|] eqn:Ea; [|done]. destruct (json_parse right) as [b|] eqn:Eb; [|done].
  exists (patchEqual a b). split; [done|]. by apply patchEqual_same; eapply parse_decoded.
Qed.

Example EqualJSON_ex : EqualJSON "[1.0, {}, 1e999999999]" "[10e-1,{},10e999999998]" = Some true.
Proof. vm_compute. reflexivity. Qed.
