(* ===== verification/AguiProjection.v ===== *)
(** * The projection of AG-UI events

    src/runtime/aguistate/projection.go and history.go: the messages and the
    state a client has after a sequence of events. [normalize] turns chunk
    events into start, content and end events, [apply_event] checks and applies
    one event, and [Apply] does both on a copy of the projection. Events and
    messages are decoded JSON objects; the copy through JSON of decoded values
    is the identity ([JsonDecoded.parse_print_parse]). *)
From stdpp Require Import base gmap strings list fin_maps.
From S2P Require Import Prelude GoStrings JsonValue JsonCodec CanonicalNumber JsonDecoded AguiPatch.

Open Scope nat_scope.

Notation Object := (list (string * json)) (only parsing).

(** ** Event types *)
Inductive EventType :=
| RUN_STARTED | RUN_FINISHED | RUN_ERROR
| TEXT_MESSAGE_START | TEXT_MESSAGE_CONTENT | TEXT_MESSAGE_END
| REASONING_MESSAGE_START | REASONING_MESSAGE_CONTENT | REASONING_MESSAGE_END
| TOOL_CALL_START | TOOL_CALL_ARGS | TOOL_CALL_END | TOOL_CALL_RESULT
| STATE_SNAPSHOT | STATE_DELTA | MESSAGES_SNAPSHOT | ACTIVITY_SNAPSHOT | ACTIVITY_DELTA
| REASONING_START | REASONING_END | REASONING_ENCRYPTED_VALUE
| STEP_STARTED | STEP_FINISHED | SUBAGENT_STARTED | SUBAGENT_FINISHED | SUBAGENT_ERROR
| CUSTOM | RAW.

#[export] Instance event_type_dec : EqDecision EventType.
Proof. solve_decision. Defined.

Definition event_types : list (string * EventType) :=
  [("RUN_STARTED", RUN_STARTED); ("RUN_FINISHED", RUN_FINISHED); ("RUN_ERROR", RUN_ERROR);
   ("TEXT_MESSAGE_START", TEXT_MESSAGE_START); ("TEXT_MESSAGE_CONTENT", TEXT_MESSAGE_CONTENT);
   ("TEXT_MESSAGE_END", TEXT_MESSAGE_END); ("REASONING_MESSAGE_START", REASONING_MESSAGE_START);
   ("REASONING_MESSAGE_CONTENT", REASONING_MESSAGE_CONTENT); ("REASONING_MESSAGE_END", REASONING_MESSAGE_END);
   ("TOOL_CALL_START", TOOL_CALL_START); ("TOOL_CALL_ARGS", TOOL_CALL_ARGS); ("TOOL_CALL_END", TOOL_CALL_END);
   ("TOOL_CALL_RESULT", TOOL_CALL_RESULT); ("STATE_SNAPSHOT", STATE_SNAPSHOT); ("STATE_DELTA", STATE_DELTA);
   ("MESSAGES_SNAPSHOT", MESSAGES_SNAPSHOT); ("ACTIVITY_SNAPSHOT", ACTIVITY_SNAPSHOT); ("ACTIVITY_DELTA", ACTIVITY_DELTA);
   ("REASONING_START", REASONING_START); ("REASONING_END", REASONING_END);
   ("REASONING_ENCRYPTED_VALUE", REASONING_ENCRYPTED_VALUE); ("STEP_STARTED", STEP_STARTED);
   ("STEP_FINISHED", STEP_FINISHED); ("SUBAGENT_STARTED", SUBAGENT_STARTED); ("SUBAGENT_FINISHED", SUBAGENT_FINISHED);
   ("SUBAGENT_ERROR", SUBAGENT_ERROR); ("CUSTOM", CUSTOM); ("RAW", RAW)].
Definition event_type (typ : string) : option EventType := get typ event_types.

(** ** Errors *)
Inductive ProjectionError :=
| InvalidEventError                       (* refused by the schema *)
| AfterRunError
| RunAlreadyActive
| OutsideRun (typ : string)
| BadHistory
| RunIdentityMismatch
| RunEndedWithOpenStream
| RunEndedWithActiveSubagent
| MessageAlreadyOpen (id : string)
| WrongOwner (kind id : string)
| UnopenedMessage (id : string)
| ToolAlreadyOpen (id : string)
| ParentOwnerDisagrees
| ReopenedToolOwner
| UnopenedTool (id : string)
| PatchFailed (e : PatchError)
| ActivityNotObject
| ReasoningAlreadyStarted
| ReasoningNotStarted (id : string)
| StepAlreadyStarted
| StepNotStarted
| SubagentUsed
| SubagentParentUnknown
| SubagentNotActive
| NotNormalized (typ : string)
| ChunkOwnerChanged
| AmbiguousChunk
| ChunkNeedsIdentity
| ChunkFieldChanged (key : string)
| ChunkNeedsToolName
| Panics.                                 (* a write to a nil map *)

(** ** Objects *)
Definition field (o : Object) (key : string) : string := text_field key o.
Definition object (v : option json) : option Object := match v with Some (JObject o) => Some o | _ => None end.
Definition items_of (v : option json) : list json := match v with Some (JArray l) => l | _ => [] end.
Definition value_of (o : Object) (key : string) : json := default JNull (get key o).
Definition present (o : Object) (key : string) : bool := bool_decide (is_Some (get key o)).

(** [decode] into a slice of objects: null is an empty slice, and a null item a
    nil object. *)
Definition object_of (v : json) : option Object :=
  match v with JObject o => Some o | JNull => Some [] | _ => None end.
Definition objects_of (v : json) : option (list Object) :=
  match v with JNull => Some [] | JArray l => mapM object_of l | _ => None end.

Definition mergeMetadata (target e : Object) : Object :=
  match object (get "metadata" e) with
  | None => target
  | Some incoming =>
      let metadata := default [] (object (get "metadata" target)) in
      put "metadata" (JObject (foldl (fun m '(k, v) => put k v m) metadata incoming)) target
  end.
Definition inherit (dst src : Object) (keys : list string) : Object :=
  foldl (fun dst key => match get key src with Some v => put key v dst | None => dst end) dst keys.

Definition tagged (o : Object) : bool := present o "subagentRunId".
Definition lane (o : Object) : string := field o "subagentRunId".
Definition ownerKey (o : Object) : string := if tagged o then "tag:" +:+ lane o else "parent:".
Definition attribution (owner : string) : string := if HasPrefix owner "tag:" then TrimPrefix owner "tag:" else "".
Definition stepKey (o : Object) : string := json_print (JArray [JString (ownerKey o); JString (field o "stepName")]).

(** ** Messages: the first one with an identifier, and the first tool call *)
Definition has_id (id : string) (m : Object) : bool := bool_decide (field m "id" = id).
Definition message (id : string) (ms : list Object) : option Object := snd <$> list_find (fun m => has_id id m = true) ms.
Fixpoint update_message (id : string) (f : Object -> Object) (ms : list Object) : list Object :=
  match ms with
  | [] => []
  | m :: ms => if has_id id m then f m :: ms else m :: update_message id f ms
  end.

Definition call_with_id (id : string) (raw : json) : option Object :=
  match raw with JObject call => if has_id id call then Some call else None | _ => None end.
Fixpoint find_call (id : string) (calls : list json) : option Object :=
  match calls with
  | [] => None
  | raw :: calls => match call_with_id id raw with Some call => Some call | None => find_call id calls end
  end.
Fixpoint update_call (id : string) (f : Object -> Object) (calls : list json) : list json :=
  match calls with
  | [] => []
  | raw :: calls =>
      match call_with_id id raw with Some call => JObject (f call) :: calls | None => raw :: update_call id f calls end
  end.

Definition assistant (m : Object) : bool := bool_decide (field m "role" = "assistant").
Fixpoint tool (id : string) (ms : list Object) : option Object :=
  match ms with
  | [] => None
  | m :: ms =>
      match (if assistant m then find_call id (items_of (get "toolCalls" m)) else None) with
      | Some call => Some call
      | None => tool id ms
      end
  end.
Fixpoint update_tool (id : string) (f : Object -> Object) (ms : list Object) : list Object :=
  match ms with
  | [] => []
  | m :: ms =>
      match (if assistant m then find_call id (items_of (get "toolCalls" m)) else None) with
      | Some _ => put "toolCalls" (JArray (update_call id f (items_of (get "toolCalls" m)))) m :: ms
      | None => m :: update_tool id f ms
      end
  end.

(** ** The projection *)
Record chunk := mkChunk { Kind : string; ChunkID : string; Fields : Object }.

Record Projection := mkProjection {
  State : json;
  Messages : list Object;
  Errored : bool;
  ReasoningMessages : gmap string string;
  Owners : gmap string (gmap string string);
  Running : bool;
  ThreadID : string;
  RunID : string;
  Text : gmap string string;
  Tools : gmap string string;
  ToolParents : gmap string string;
  Steps : gset string;
  Reasoning : gmap string string;
  Subagents : gmap string bool;
  Chunks : gmap string chunk;
  ChunkOrder : list string
}.


Section Fields.
Implicit Types p : Projection.
Definition set_State v p := mkProjection v (Messages p) (Errored p) (ReasoningMessages p) (Owners p) (Running p) (ThreadID p) (RunID p) (Text p) (Tools p) (ToolParents p) (Steps p) (Reasoning p) (Subagents p) (Chunks p) (ChunkOrder p).
Definition set_Messages v p := mkProjection (State p) v (Errored p) (ReasoningMessages p) (Owners p) (Running p) (ThreadID p) (RunID p) (Text p) (Tools p) (ToolParents p) (Steps p) (Reasoning p) (Subagents p) (Chunks p) (ChunkOrder p).
Definition set_run errored running p := mkProjection (State p) (Messages p) errored (ReasoningMessages p) (Owners p) running (ThreadID p) (RunID p) (Text p) (Tools p) (ToolParents p) (Steps p) (Reasoning p) (Subagents p) (Chunks p) (ChunkOrder p).
Definition set_ReasoningMessages v p := mkProjection (State p) (Messages p) (Errored p) v (Owners p) (Running p) (ThreadID p) (RunID p) (Text p) (Tools p) (ToolParents p) (Steps p) (Reasoning p) (Subagents p) (Chunks p) (ChunkOrder p).
Definition set_Owners v p := mkProjection (State p) (Messages p) (Errored p) (ReasoningMessages p) v (Running p) (ThreadID p) (RunID p) (Text p) (Tools p) (ToolParents p) (Steps p) (Reasoning p) (Subagents p) (Chunks p) (ChunkOrder p).
Definition set_Text v p := mkProjection (State p) (Messages p) (Errored p) (ReasoningMessages p) (Owners p) (Running p) (ThreadID p) (RunID p) v (Tools p) (ToolParents p) (Steps p) (Reasoning p) (Subagents p) (Chunks p) (ChunkOrder p).
Definition set_Tools v p := mkProjection (State p) (Messages p) (Errored p) (ReasoningMessages p) (Owners p) (Running p) (ThreadID p) (RunID p) (Text p) v (ToolParents p) (Steps p) (Reasoning p) (Subagents p) (Chunks p) (ChunkOrder p).
Definition set_ToolParents v p := mkProjection (State p) (Messages p) (Errored p) (ReasoningMessages p) (Owners p) (Running p) (ThreadID p) (RunID p) (Text p) (Tools p) v (Steps p) (Reasoning p) (Subagents p) (Chunks p) (ChunkOrder p).
Definition set_Steps v p := mkProjection (State p) (Messages p) (Errored p) (ReasoningMessages p) (Owners p) (Running p) (ThreadID p) (RunID p) (Text p) (Tools p) (ToolParents p) v (Reasoning p) (Subagents p) (Chunks p) (ChunkOrder p).
Definition set_Reasoning v p := mkProjection (State p) (Messages p) (Errored p) (ReasoningMessages p) (Owners p) (Running p) (ThreadID p) (RunID p) (Text p) (Tools p) (ToolParents p) (Steps p) v (Subagents p) (Chunks p) (ChunkOrder p).
Definition set_Subagents v p := mkProjection (State p) (Messages p) (Errored p) (ReasoningMessages p) (Owners p) (Running p) (ThreadID p) (RunID p) (Text p) (Tools p) (ToolParents p) (Steps p) (Reasoning p) v (Chunks p) (ChunkOrder p).
Definition set_Chunks v order p := mkProjection (State p) (Messages p) (Errored p) (ReasoningMessages p) (Owners p) (Running p) (ThreadID p) (RunID p) (Text p) (Tools p) (ToolParents p) (Steps p) (Reasoning p) (Subagents p) v order.
End Fields.

(** ** Owners of messages, tools, reasoning and activities *)
Definition owners (kind : string) (p : Projection) : gmap string string := default ∅ (Owners p !! kind).
Definition set_owner (kind id owner : string) (p : Projection) : Projection :=
  set_Owners (<[kind := <[id := owner]> (owners kind p)]> (Owners p)) p.
Definition add_owner (kind id owner : string) (p : Projection) : Projection :=
  match owners kind p !! id with Some _ => p | None => set_owner kind id owner p end.

Definition checkOwner (kind id : string) (e : Object) (p : Projection) : result ProjectionError unit :=
  if tagged e then
    match owners kind p !! id with
    | Some owner => if bool_decide (owner <> ownerKey e) then Err (WrongOwner kind id) else Ok tt
    | None => Ok tt
    end
  else Ok tt.

Definition seed_owner (authoritative : bool) : string -> string -> string -> Projection -> Projection :=
  if authoritative then set_owner else add_owner.
Definition message_kind (m : Object) : string :=
  let role := field m "role" in if bool_decide (role = "reasoning" \/ role = "activity") then role else "message".
Definition seed_message (authoritative : bool) (p : Projection) (m : Object) : Projection :=
  foldl (fun p raw => match raw with
                      | JObject c => seed_owner authoritative "tool" (field c "id") (ownerKey m) p
                      | _ => p
                      end)
    (seed_owner authoritative (message_kind m) (field m "id") (ownerKey m) p) (items_of (get "toolCalls" m)).
Definition seedOwners (messages : list Object) (authoritative : bool) (p : Projection) : Projection :=
  foldl (seed_message authoritative) p messages.

Definition index_message (parents : gmap string string) (m : Object) : gmap string string :=
  foldl (fun parents raw => match raw with JObject c => <[field c "id" := field m "id"]> parents | _ => parents end)
    parents (items_of (get "toolCalls" m)).
Definition indexTools (p : Projection) : Projection := set_ToolParents (foldl index_message ∅ (Messages p)) p.

(** ** History snapshots (history.go) *)
Definition is_role (role : string) (m : Object) : bool := bool_decide (field m "role" = role).

(** The declaration of owned activity types: absent, all of them, or a set. *)
Inductive Ownership := Undeclared | OwnsAll | OwnsTypes (types : list string).
Definition string_items (l : list json) : option (list string) := mapM (fun v => match v with JString s => Some s | _ => None end) l.
Definition declared_ownership (e : Object) : Ownership :=
  match object (get "metadata" e) with
  | None => Undeclared
  | Some metadata =>
      match get "@ag-ui/client" metadata with
      | None => Undeclared
      | Some (JObject scope) =>
          match get "authoritativeActivityTypes" scope with
          | None => Undeclared
          | Some JNull => OwnsAll
          | Some (JArray values) => OwnsTypes (default [] (string_items values))
          | Some _ => OwnsTypes []
          end
      | Some _ => OwnsTypes []
      end
  end.

Definition preserved (own : Ownership) (hasActivity hasReasoning : bool) (m : Object) : bool :=
  if is_role "activity" m then
    match own with
    | Undeclared => negb hasActivity
    | OwnsAll => false
    | OwnsTypes types => bool_decide (field m "activityType" ∉ types)
    end
  else is_role "reasoning" m && negb hasReasoning.

(** [byID]: the last incoming message with the identifier. *)
Definition replacement_for (id : string) (incoming : list Object) : option Object := message id (rev incoming).

Fixpoint keep_history (own : Ownership) (hasActivity hasReasoning : bool) (incoming ms : list Object) : list Object * list string :=
  match ms with
  | [] => ([], [])
  | m :: ms =>
      let '(kept, existing) := keep_history own hasActivity hasReasoning incoming ms in
      let id := field m "id" in
      match replacement_for id incoming with
      | Some r => (r :: kept, id :: existing)
      | None => if preserved own hasActivity hasReasoning m then (m :: kept, id :: existing) else (kept, existing)
      end
  end.

Definition replaceHistory (e : Object) (p : Projection) : result ProjectionError Projection :=
  match objects_of (value_of e "messages") with
  | None => Err BadHistory
  | Some incoming =>
      let p := seedOwners incoming true p in
      let hasActivity := existsb (is_role "activity") incoming in
      let hasReasoning := existsb (is_role "reasoning") incoming in
      let '(kept, existing) := keep_history (declared_ownership e) hasActivity hasReasoning incoming (Messages p) in
      let added := filter (fun m => field m "id" ∉ existing) incoming in
      Ok (indexTools (set_Messages (kept ++ added) p))
  end.

(** ** One event *)
Section Apply.
Context (ValidateEvent : json -> bool) (apply_library : json -> json -> option json).

Definition patch (value operations : json) : result ProjectionError json :=
  match ApplyPatchJSON ValidateEvent apply_library value operations with
  | Ok v => Ok v
  | Err e => Err (PatchFailed e)
  end.

Definition start_run (e : Object) (p : Projection) : result ProjectionError Projection :=
  if Running p then Err RunAlreadyActive
  else
    let p := mkProjection (State p) (Messages p) false ∅ ∅ true (field e "threadId") (field e "runId") ∅ ∅ (ToolParents p) ∅ ∅ ∅
               (Chunks p) (ChunkOrder p) in
    match object (get "input" e) with
    | None => Ok (indexTools p)
    | Some input =>
        match objects_of (value_of input "messages") with
        | None => Err BadHistory
        | Some history =>
            let p := seedOwners history false p in
            Ok (indexTools
                  (set_Messages
                     (foldl (fun ms m => match message (field m "id") ms with None => ms ++ [m] | Some _ => ms end)
                        (Messages p) history) p))
        end
    end.

Definition end_run (failed : bool) (e : Object) (p : Projection) : result ProjectionError Projection :=
  let close := set_run failed false p in
  if failed then Ok close
  else if bool_decide (field e "threadId" <> ThreadID p \/ field e "runId" <> RunID p) then Err RunIdentityMismatch
  else if bool_decide (Text p <> ∅ \/ ReasoningMessages p <> ∅ \/ Tools p <> ∅ \/ Steps p <> ∅ \/ Reasoning p <> ∅)
       then Err RunEndedWithOpenStream
  else if existsb (fun '(_, active) => active) (map_to_list (Subagents p)) then Err RunEndedWithActiveSubagent
  else Ok close.

(** Text and reasoning messages have the same life cycle. *)
Definition stream_kind (reasoning : bool) : string := if reasoning then "reasoning" else "message".
Definition opened (reasoning : bool) (p : Projection) : gmap string string := if reasoning then ReasoningMessages p else Text p.
Definition set_opened (reasoning : bool) v (p : Projection) : Projection :=
  if reasoning then set_ReasoningMessages v p else set_Text v p.

Definition start_message (reasoning : bool) (e : Object) (p : Projection) : result ProjectionError Projection :=
  let kind := stream_kind reasoning in
  let id := field e "messageId" in
  match opened reasoning p !! id with
  | Some _ => Err (MessageAlreadyOpen id)
  | None =>
      _ ← checkOwner kind id e p;
      let p := add_owner kind id (ownerKey e) p in
      let p := set_opened reasoning (<[id := attribution (default "" (owners kind p !! id))]> (opened reasoning p)) p in
      match message id (Messages p) with
      | Some _ => Ok p
      | None =>
          let role := field e "role" in
          let role := if bool_decide (role = "") then "assistant" else role in
          let role := if reasoning then "reasoning" else role in
          let m := [("content", JString ""); ("id", JString id); ("role", JString role)] in
          Ok (set_Messages (Messages p ++ [inherit m e ["name"; "subagentRunId"]]) p)
      end
  end.

Definition continue_message (reasoning : bool) (e : Object) (p : Projection)
    (k : string -> Projection -> Projection) : result ProjectionError Projection :=
  let id := field e "messageId" in
  match opened reasoning p !! id with
  | None => Err (UnopenedMessage id)
  | Some _ => _ ← checkOwner (stream_kind reasoning) id e p; Ok (k id p)
  end.
Definition append_content (e : Object) (id : string) (p : Projection) : Projection :=
  match message id (Messages p) with
  | Some m =>
      if is_role "activity" m then p
      else set_Messages (update_message id (fun m => put "content" (JString (field m "content" +:+ field e "delta")) m) (Messages p)) p
  | None => p
  end.
Definition close_message (reasoning : bool) (id : string) (p : Projection) : Projection :=
  set_opened reasoning (delete id (opened reasoning p)) p.

(** [object(call["function"])[key] = v], a panic when there is no object. *)
Definition set_function (key : string) (v : Object -> json) (call : Object) : result ProjectionError Object :=
  match object (get "function" call) with
  | Some function => Ok (put "function" (JObject (put key (v function) function)) call)
  | None => Err Panics
  end.

Definition start_tool (e : Object) (p : Projection) : result ProjectionError Projection :=
  let id := field e "toolCallId" in
  match Tools p !! id with
  | Some _ => Err (ToolAlreadyOpen id)
  | None =>
      let parentID := field e "parentMessageId" in
      let parentOwner := if present e "parentMessageId" then owners "message" p !! parentID else None in
      if match parentOwner with Some o => tagged e && bool_decide (o <> ownerKey e) | None => false end
      then Err ParentOwnerDisagrees
      else
        _ ← checkOwner "tool" id e p;
        let known := owners "tool" p !! id in
        if match known, parentOwner with
           | Some owner, Some o => negb (tagged e) && bool_decide (owner <> o)
           | _, _ => false
           end
        then Err ReopenedToolOwner
        else
          let owner :=
            match known with
            | Some owner => owner
            | None => match parentOwner with Some o => if tagged e then ownerKey e else o | None => ownerKey e end
            end in
          let p := add_owner "tool" id owner p in
          let p := set_Tools (<[id := attribution owner]> (Tools p)) p in
          match tool id (Messages p) with
          | Some existing =>
              renamed ← set_function "name" (fun _ => value_of e "toolCallName") existing;
              Ok (set_Messages (update_tool id (fun _ => renamed) (Messages p)) p)
          | None =>
              let call := JObject [("function", JObject [("arguments", JString ""); ("name", value_of e "toolCallName")]);
                                   ("id", JString id); ("type", JString "function")] in
              let parent := message parentID (Messages p) in
              let reject := bool_decide (parentID = "") || match parent with Some m => negb (assistant m) | None => false end in
              let parentID := if reject then id else parentID in
              let add m := put "toolCalls" (JArray (items_of (get "toolCalls" m) ++ [call])) m in
              let ms :=
                match (if reject then None else parent) with
                | Some _ => update_message parentID add (Messages p)
                | None =>
                    let m := [("id", JString parentID); ("role", JString "assistant"); ("toolCalls", JArray [])] in
                    Messages p ++ [add (inherit m e ["subagentRunId"])]
                end in
              Ok (set_ToolParents (<[id := parentID]> (ToolParents p)) (set_Messages ms p))
          end
  end.

Definition tool_args (e : Object) (p : Projection) : result ProjectionError Projection :=
  let id := field e "toolCallId" in
  match Tools p !! id with
  | None => Err (UnopenedTool id)
  | Some _ =>
      _ ← checkOwner "tool" id e p;
      match tool id (Messages p) with
      | None => Ok p
      | Some call =>
          call ← set_function "arguments" (fun f => JString (field f "arguments" +:+ field e "delta")) call;
          Ok (set_Messages (update_tool id (fun _ => call) (Messages p)) p)
      end
  end.

Definition end_tool (e : Object) (p : Projection) : result ProjectionError Projection :=
  let id := field e "toolCallId" in
  match Tools p !! id with
  | None => Err (UnopenedTool id)
  | Some _ => _ ← checkOwner "tool" id e p; Ok (set_Tools (delete id (Tools p)) p)
  end.

(** The position after the message that made the call and the results that
    follow it; the end when no message did. *)
Fixpoint skip_results (ms : list Object) : nat :=
  match ms with m :: ms => if is_role "tool" m then S (skip_results ms) else 0 | [] => 0 end.
Fixpoint result_index (callID : string) (ms : list Object) : option nat :=
  match ms with
  | [] => None
  | m :: ms =>
      if assistant m && bool_decide (is_Some (find_call callID (items_of (get "toolCalls" m)))) then Some (S (skip_results ms))
      else S <$> result_index callID ms
  end.

Definition tool_result (e : Object) (p : Projection) : Projection :=
  let id := field e "messageId" in
  let callID := field e "toolCallId" in
  let p := set_owner "message" id (ownerKey e) p in
  let m := [("content", value_of e "content"); ("id", JString id); ("role", JString "tool"); ("toolCallId", JString callID)] in
  let m := mergeMetadata (inherit m e ["subagentRunId"]) e in
  let index := default (length (Messages p)) (result_index callID (Messages p)) in
  set_Messages (take index (Messages p) ++ m :: drop index (Messages p)) p.

Definition activity_snapshot (e : Object) (p : Projection) : Projection :=
  let id := field e "messageId" in
  let p := add_owner "activity" id (ownerKey e) p in
  let write m :=
    inherit (put "content" (value_of e "content") (put "activityType" (value_of e "activityType") (del "subagentRunId" m))) e
      ["subagentRunId"; "parentSubagentRunId"] in
  let fresh := [("id", JString id); ("role", JString "activity")] in
  match message id (Messages p) with
  | Some m =>
      if bool_decide (get "replace" e = Some (JBool false)) then p
      else set_owner "activity" id (ownerKey e)
             (set_Messages (update_message id (fun m => write (if is_role "activity" m then m else fresh)) (Messages p)) p)
  | None => set_owner "activity" id (ownerKey e) (set_Messages (Messages p ++ [write fresh]) p)
  end.

Definition activity_delta (e : Object) (p : Projection) : result ProjectionError Projection :=
  let id := field e "messageId" in
  _ ← checkOwner "activity" id e p;
  match message id (Messages p) with
  | Some m =>
      if is_role "activity" m then
        value ← patch (value_of m "content") (value_of e "patch");
        match value with
        | JObject _ =>
            Ok (set_Messages
                  (update_message id (fun m => put "activityType" (value_of e "activityType") (put "content" value m)) (Messages p)) p)
        | _ => Err ActivityNotObject
        end
      else Ok p
  | None => Ok p
  end.

Definition start_reasoning (e : Object) (p : Projection) : result ProjectionError Projection :=
  let id := field e "messageId" in
  match Reasoning p !! id with
  | Some _ => Err ReasoningAlreadyStarted
  | None =>
      _ ← checkOwner "reasoning" id e p;
      let p := add_owner "reasoning" id (ownerKey e) p in
      Ok (set_Reasoning (<[id := default "" (owners "reasoning" p !! id)]> (Reasoning p)) p)
  end.
Definition end_reasoning (e : Object) (p : Projection) : result ProjectionError Projection :=
  let id := field e "messageId" in
  match Reasoning p !! id with
  | None => Err (ReasoningNotStarted id)
  | Some _ => _ ← checkOwner "reasoning" id e p; Ok (set_Reasoning (delete id (Reasoning p)) p)
  end.

Definition encrypted_value (e : Object) (p : Projection) : result ProjectionError Projection :=
  let id := field e "entityId" in
  let ofMessage := bool_decide (field e "subtype" = "message") in
  let kind :=
    if ofMessage then match owners "message" p !! id with Some _ => "message" | None => "reasoning" end else "tool" in
  _ ← checkOwner kind id e p;
  let write m := put "encryptedValue" (value_of e "encryptedValue") m in
  if ofMessage then
    match message id (Messages p) with
    | Some m => Ok (if is_role "activity" m then p else set_Messages (update_message id write (Messages p)) p)
    | None => Ok p
    end
  else Ok (set_Messages (update_tool id write (Messages p)) p).

Definition start_step (e : Object) (p : Projection) : result ProjectionError Projection :=
  if bool_decide (stepKey e ∈ Steps p) then Err StepAlreadyStarted else Ok (set_Steps ({[stepKey e]} ∪ Steps p) p).
Definition finish_step (e : Object) (p : Projection) : result ProjectionError Projection :=
  if bool_decide (stepKey e ∈ Steps p) then Ok (set_Steps (Steps p ∖ {[stepKey e]}) p) else Err StepNotStarted.

Definition start_subagent (e : Object) (p : Projection) : result ProjectionError Projection :=
  match Subagents p !! lane e with
  | Some _ => Err SubagentUsed
  | None =>
      if bool_decide (value_of e "parentSubagentRunId" <> JNull) && bool_decide (Subagents p !! field e "parentSubagentRunId" = None)
      then Err SubagentParentUnknown
      else Ok (set_Subagents (<[lane e := true]> (Subagents p)) p)
  end.
Definition finish_subagent (e : Object) (p : Projection) : result ProjectionError Projection :=
  if default false (Subagents p !! lane e) then Ok (set_Subagents (<[lane e := false]> (Subagents p)) p) else Err SubagentNotActive.

Definition handle (t : EventType) (e : Object) (p : Projection) : result ProjectionError Projection :=
  match t with
  | RUN_STARTED => start_run e p
  | RUN_FINISHED => end_run false e p
  | RUN_ERROR => end_run true e p
  | TEXT_MESSAGE_START => start_message false e p
  | REASONING_MESSAGE_START => start_message true e p
  | TEXT_MESSAGE_CONTENT => continue_message false e p (append_content e)
  | REASONING_MESSAGE_CONTENT => continue_message true e p (append_content e)
  | TEXT_MESSAGE_END => continue_message false e p (close_message false)
  | REASONING_MESSAGE_END => continue_message true e p (close_message true)
  | TOOL_CALL_START => start_tool e p
  | TOOL_CALL_ARGS => tool_args e p
  | TOOL_CALL_END => end_tool e p
  | TOOL_CALL_RESULT => Ok (tool_result e p)
  | STATE_SNAPSHOT => Ok (set_State (value_of e "snapshot") p)
  | STATE_DELTA => value ← patch (State p) (value_of e "delta"); Ok (set_State value p)
  | MESSAGES_SNAPSHOT => replaceHistory e p
  | ACTIVITY_SNAPSHOT => Ok (activity_snapshot e p)
  | ACTIVITY_DELTA => activity_delta e p
  | REASONING_START => start_reasoning e p
  | REASONING_END => end_reasoning e p
  | REASONING_ENCRYPTED_VALUE => encrypted_value e p
  | STEP_STARTED => start_step e p
  | STEP_FINISHED => finish_step e p
  | SUBAGENT_STARTED => start_subagent e p
  | SUBAGENT_FINISHED | SUBAGENT_ERROR => finish_subagent e p
  | CUSTOM | RAW => Ok p
  end.

(** The deferred merge of the metadata of the event. *)
Definition merge_deferred (t : EventType) (e : Object) (p : Projection) : Projection :=
  let merge m := mergeMetadata m e in
  let id := field e "messageId" in
  match t with
  | TOOL_CALL_START | TOOL_CALL_ARGS | TOOL_CALL_END =>
      set_Messages (update_tool (field e "toolCallId") merge (Messages p)) p
  | TEXT_MESSAGE_START | TEXT_MESSAGE_CONTENT | TEXT_MESSAGE_END
  | REASONING_MESSAGE_START | REASONING_MESSAGE_CONTENT | REASONING_MESSAGE_END =>
      set_Messages (update_message id (fun m => if is_role "activity" m then m else merge m) (Messages p)) p
  | ACTIVITY_SNAPSHOT =>
      set_Messages (update_message id (fun m => if is_role "activity" m then merge m else m) (Messages p)) p
  | ACTIVITY_DELTA => set_Messages (update_message id merge (Messages p)) p
  | _ => p
  end.

Definition apply_event (e : Object) (p : Projection) : result ProjectionError Projection :=
  let typ := field e "type" in
  let started := bool_decide (typ = "RUN_STARTED") in
  if Errored p && negb started then Err AfterRunError
  else if negb started && negb (Running p) && bool_decide (typ <> "RUN_ERROR") then Err (OutsideRun typ)
  else
    match event_type typ with
    | None => Err (NotNormalized typ)
    | Some t => p ← handle t e p; Ok (merge_deferred t e p)
    end.
End Apply.

(** ** Chunks *)
Definition closing (c : chunk) : Object :=
  inherit [(if bool_decide (Kind c = "TOOL_CALL") then "toolCallId" else "messageId", JString (ChunkID c));
           ("type", JString (Kind c +:+ "_END"))] (Fields c) ["subagentRunId"].

Fixpoint remove_first (key : string) (keys : list string) : list string :=
  match keys with [] => [] | k :: keys => if decide (k = key) then keys else k :: remove_first key keys end.

(** [closeLane]: the end event of a lane that is open. *)
Definition closeLane (key : string) (p : Projection) : list Object * Projection :=
  match Chunks p !! key with
  | None => ([], p)
  | Some c => ([closing c], set_Chunks (delete key (Chunks p)) (remove_first key (ChunkOrder p)) p)
  end.
Fixpoint closeLanes (keys : list string) (p : Projection) : list Object * Projection :=
  match keys with
  | [] => ([], p)
  | key :: keys =>
      let '(out, p) := closeLane key p in
      let '(rest, p) := closeLanes keys p in (out ++ rest, p)
  end.

(** The lanes an event that is not a chunk closes. *)
Inductive Closes := AllLanes | OwnLane | NoLane.
Definition closes (typ : string) : Closes :=
  if bool_decide (typ ∈ ["RUN_STARTED"; "RUN_FINISHED"; "RUN_ERROR"; "MESSAGES_SNAPSHOT"]) then AllLanes
  else if bool_decide (typ ∈ ["RAW"; "ACTIVITY_SNAPSHOT"; "ACTIVITY_DELTA"; "REASONING_ENCRYPTED_VALUE"; "SUBAGENT_STARTED"])
       then NoLane
  else OwnLane.

Section Normalize.
(** The order in which a [range] over the map of lanes meets them. *)
Context (lanes : list (string * chunk)).

Definition id_key (kind : string) : string := if bool_decide (kind = "TOOL_CALL") then "toolCallId" else "messageId".

(** The lane a chunk belongs to. *)
Definition chunk_lane (kind id : string) (e : Object) (p : Projection) : result ProjectionError string :=
  let l := ownerKey e in
  if present e (id_key kind) then
    match list_find (fun '(_, c) => Kind c = kind /\ ChunkID c = id) lanes with
    | Some (_, (owner, _)) => if tagged e && bool_decide (l <> owner) then Err ChunkOwnerChanged else Ok owner
    | None => Ok l
    end
  else if tagged e then Ok l
  else
    match Chunks p !! "parent:" with
    | Some c => if bool_decide (Kind c = kind) then Ok l else
        match filter (fun '(_, c) => Kind c = kind) lanes with
        | [] => Ok l
        | [(owner, _)] => Ok owner
        | _ => Err AmbiguousChunk
        end
    | None =>
        match filter (fun '(_, c) => Kind c = kind) lanes with
        | [] => Ok l
        | [(owner, _)] => Ok owner
        | _ => Err AmbiguousChunk
        end
    end.

Definition opener_keys : list string := ["role"; "name"; "toolCallName"; "parentMessageId"].
(** The first field of the chunk that differs from the event that opened the lane. *)
Definition changed_field (e fields : Object) : option string :=
  snd <$> list_find (fun key => present e key = true /\ value_of e key <> value_of fields key) opener_keys.

Definition attribute (l : string) (o : Object) : Object :=
  if HasPrefix l "tag:" then put "subagentRunId" (JString (TrimPrefix l "tag:")) o else o.

Definition start_event (kind id l : string) (e : Object) : result ProjectionError Object :=
  let start := attribute l (inherit [(id_key kind, JString id); ("type", JString (kind +:+ "_START"))] e ["timestamp"; "metadata"]) in
  if bool_decide (kind = "TOOL_CALL") then
    if present e "toolCallName" then Ok (inherit start e ["toolCallName"; "parentMessageId"]) else Err ChunkNeedsToolName
  else
    let role := field e "role" in
    let role := if bool_decide (role = "") then "assistant" else role in
    let role := if bool_decide (kind = "REASONING_MESSAGE") then "reasoning" else role in
    Ok (inherit (put "role" (JString role) start) e ["name"]).

Definition content_event (kind id l : string) (e : Object) : Object :=
  let typ := if bool_decide (kind = "TOOL_CALL") then "TOOL_CALL_ARGS" else kind +:+ "_CONTENT" in
  let delta := default (JString "") (get "delta" e) in
  attribute l (inherit (put "delta" delta [(id_key kind, JString id); ("type", JString typ)]) e ["timestamp"; "metadata"; "rawEvent"]).

Definition normalize_chunk (kind : string) (e : Object) (p : Projection) : result ProjectionError (list Object * Projection) :=
  let given := field e (id_key kind) in
  l ← chunk_lane kind given e p;
  let prior := Chunks p !! l in
  id ← (if present e (id_key kind) then Ok given
        else match prior with
             | Some c => if bool_decide (Kind c = kind) then Ok (ChunkID c) else Err ChunkNeedsIdentity
             | None => Err ChunkNeedsIdentity
             end);
  let continues := match prior with Some c => bool_decide (Kind c = kind /\ ChunkID c = id) | None => false end in
  let '(closed, p) := if continues then ([], p) else closeLane l p in
  match (if continues then match prior with Some c => changed_field e (Fields c) | None => None end else None) with
  | Some key => Err (ChunkFieldChanged key)
  | None =>
      '(opened, p) ←
        (if continues then Ok ([], p)
         else
           start ← start_event kind id l e;
           Ok ([start], set_Chunks (<[l := mkChunk kind id start]> (Chunks p)) (ChunkOrder p ++ [l]) p));
      let content :=
        if present e "delta" || present e "rawEvent" || (present e "metadata" && continues) then [content_event kind id l e] else [] in
      Ok (closed ++ opened ++ content, p)
  end.

Definition normalize (e : Object) (p : Projection) : result ProjectionError (list Object * Projection) :=
  let typ := field e "type" in
  if HasSuffix typ "_CHUNK" then normalize_chunk (TrimSuffix typ "_CHUNK") e p
  else
    let '(out, p) :=
      match closes typ with
      | AllLanes => closeLanes (ChunkOrder p) p
      | OwnLane => closeLane (ownerKey e) p
      | NoLane => ([], p)
      end in
    Ok (out ++ [e], p).
End Normalize.

(** ** The projection as a whole *)
Section Projection.
Context (ValidateEvent : json -> bool) (ValidateMessage : json -> bool) (apply_library : json -> json -> option json).

Definition New (state messages : option json) : option Projection :=
  ms ← match messages with None => Some [] | Some v => objects_of v end;
  if forallb (fun m => ValidateMessage (JObject m)) ms then
    Some (mkProjection (default (JObject []) state) ms false ∅ ∅ false "" "" ∅ ∅ (foldl index_message ∅ ms) ∅ ∅ ∅ ∅ [])
  else None.

Definition Snapshot (p : Projection) : json * json := (State p, JArray (JObject <$> Messages p)).

Fixpoint apply_all (events : list Object) (p : Projection) : result ProjectionError Projection :=
  match events with
  | [] => Ok p
  | e :: events =>
      if ValidateEvent (JObject e) then p ← apply_event ValidateEvent apply_library e p; apply_all events p
      else Err InvalidEventError
  end.

(** [Apply]: the new projection and the normalised events; after an error the
    projection is left as it was. *)
Definition Apply (lanes : list (string * chunk)) (event : json) (p : Projection) : Projection * result ProjectionError (list Object) :=
  let attempt :=
    if ValidateEvent event then
      match object_of event with
      | None => Err InvalidEventError
      | Some e =>
          '(events, next) ← normalize lanes e p;
          next ← apply_all events next;
          Ok (next, events)
      end
    else Err InvalidEventError in
  match attempt with
  | Ok (next, events) => (next, Ok events)
  | Err e => (p, Err e)
  end.
End Projection.

#[global] Arguments inherit : simpl never.
#[global] Arguments attribute : simpl never.
#[global] Arguments mergeMetadata : simpl never.
