(* ===== verification/AguiDemo.v ===== *)
(** * A concrete patch library, and event sequences

    One implementation of RFC 6902 for the parameter of the patch functions, and
    the projections of the event sequences the Go tests use. *)
From stdpp Require Import base gmap strings list.
From S2P Require Import Prelude GoStrings JsonValue JsonCodec CanonicalNumber AguiPatch AguiProjection.

Open Scope nat_scope.

(** ** RFC 6902 on a document *)
Fixpoint edit (fuel : nat) (doc : json) (tokens : list string) (f : json -> string -> option json) : option json :=
  match fuel, tokens with
  | O, _ | _, [] => None
  | S _, [token] => f doc token
  | S fuel, token :: tokens =>
      match doc with
      | JObject o => child ← get token o; child ← edit fuel child tokens f; Some (JObject (put token child o))
      | JArray l =>
          i ← arrayIndex token; child ← l !! i; child ← edit fuel child tokens f; Some (JArray (<[i := child]> l))
      | _ => None
      end
  end.

Definition add_at (v : json) (parent : json) (token : string) : option json :=
  match parent with
  | JObject o => Some (JObject (put token v o))
  | JArray l =>
      if bool_decide (token = "-") then Some (JArray (l ++ [v]))
      else i ← arrayIndex token; if bool_decide (i <= length l) then Some (JArray (take i l ++ v :: drop i l)) else None
  | _ => None
  end.
Definition remove_at (parent : json) (token : string) : option json :=
  match parent with
  | JObject o => _ ← get token o; Some (JObject (del token o))
  | JArray l => i ← arrayIndex token; _ ← l !! i; Some (JArray (take i l ++ drop (S i) l))
  | _ => None
  end.
Definition replace_at (v : json) (parent : json) (token : string) : option json :=
  match parent with
  | JObject o => _ ← get token o; Some (JObject (put token v o))
  | JArray l => i ← arrayIndex token; _ ← l !! i; Some (JArray (<[i := v]> l))
  | _ => None
  end.

Definition rfc6902 (doc operation : json) : option json :=
  match operation with
  | JObject o =>
      let path := pointerTokens (text_field "path" o) in
      let from := pointerTokens (text_field "from" o) in
      let at_path f doc := edit (length path) doc path f in
      let op := text_field "op" o in
      if bool_decide (op = "add") then v ← get "value" o; at_path (add_at v) doc
      else if bool_decide (op = "replace") then v ← get "value" o; at_path (replace_at v) doc
      else if bool_decide (op = "remove") then at_path remove_at doc
      else if bool_decide (op = "copy") then v ← pointer_at doc from; at_path (add_at v) doc
      else if bool_decide (op = "move") then
        v ← pointer_at doc from; doc ← edit (length from) doc from remove_at; at_path (add_at v) doc
      else None
  | _ => None
  end.

Definition accept (_ : json) : bool := true.

(** The lanes in the order of the map. *)
Definition apply_demo (p : Projection) (event : json) : Projection * result ProjectionError (list Object) :=
  Apply accept rfc6902 (map_to_list (Chunks p)) event p.
Fixpoint play (events : list json) (p : Projection) : result ProjectionError (Projection * list Object) :=
  match events with
  | [] => Ok (p, [])
  | event :: events =>
      let '(p, r) := apply_demo p event in
      out ← r;
      '(p, rest) ← play events p;
      Ok (p, out ++ rest)
  end.
