(* ===== verification/AguiProps.v ===== *)
(** * Properties of the projection

    The normalised events replay to the same projection; accepted events follow
    the life cycles of runs, messages, tools, reasoning, steps and subagents;
    recorded owners stay; and a lane that lost its message blocks the run. *)
From stdpp Require Import base gmap strings list fin_maps sets relations.
From S2P Require Import Prelude GoStrings JsonQuote JsonValue JsonCodec CanonicalNumber AguiPatch AguiProjection AguiDemo.

Open Scope nat_scope.

Definition on_ok {E A B} (f : A -> B) (m : result E A) : result E B :=
  match m with Ok a => Ok (f a) | Err e => Err e end.

Lemma on_ok_bind {E A B C} (f : B -> C) (m : result E A) (k : A -> result E B) :
  on_ok f (a ← m; k a) = (a ← m; on_ok f (k a)).
Proof. by destruct m. Qed.

Lemma bind_ok {E A B} (m : result E A) (k : A -> result E B) b : (a ← m; k a) = Ok b -> exists a, m = Ok a /\ k a = Ok b.
Proof. destruct m; [eauto|done]. Qed.

(** ** Lanes play no part in applying an event *)
Section Chunks.
Context (ValidateEvent : json -> bool) (apply_library : json -> json -> option json).
Context (cs : gmap string chunk) (order : list string).
Notation rechunk := (set_Chunks cs order).

Lemma add_owner_chunks kind id o p : add_owner kind id o (rechunk p) = rechunk (add_owner kind id o p).
Proof. unfold add_owner, owners. simpl. by case_match. Qed.

Lemma seed_owner_chunks b kind id o p : seed_owner b kind id o (rechunk p) = rechunk (seed_owner b kind id o p).
Proof. destruct b; [done|apply add_owner_chunks]. Qed.

Lemma seed_message_chunks b m p : seed_message b (rechunk p) m = rechunk (seed_message b p m).
Proof.
  unfold seed_message. rewrite seed_owner_chunks. generalize (seed_owner b (message_kind m) (field m "id") (ownerKey m) p).
  induction (items_of (get "toolCalls" m)) as [|raw l IH]; intros q; [done|]. simpl. destruct raw; try apply IH.
  rewrite seed_owner_chunks. apply IH.
Qed.

Lemma seedOwners_chunks ms b p : seedOwners ms b (rechunk p) = rechunk (seedOwners ms b p).
Proof. unfold seedOwners. revert p. induction ms as [|m ms IH]; intros p; [done|]. simpl. by rewrite seed_message_chunks, IH. Qed.

Lemma checkOwner_chunks kind id e p : checkOwner kind id e (rechunk p) = checkOwner kind id e p.
Proof. done. Qed.

Ltac by_cases := repeat (simpl; case_match; simpl); try done; by simplify_eq.

Lemma start_run_chunks e p : start_run e (rechunk p) = on_ok rechunk (start_run e p).
Proof.
  unfold start_run. simpl. destruct (Running p); [done|]. destruct (object (get "input" e)) as [input|]; [|done].
  destruct (objects_of (value_of input "messages")) as [history|]; [|done].
  set (q := mkProjection _ _ _ _ _ _ _ _ _ _ _ _ _ _ cs order).
  set (q' := mkProjection _ _ _ _ _ _ _ _ _ _ _ _ _ _ (Chunks p) (ChunkOrder p)).
  assert (q = rechunk q') as -> by done. by rewrite seedOwners_chunks.
Qed.

Lemma replaceHistory_chunks e p : replaceHistory e (rechunk p) = on_ok rechunk (replaceHistory e p).
Proof.
  unfold replaceHistory. destruct (objects_of (value_of e "messages")) as [incoming|]; [|done].
  rewrite seedOwners_chunks. simpl. by destruct (keep_history _ _ _ _ _).
Qed.

Lemma start_message_chunks r e p : start_message r e (rechunk p) = on_ok rechunk (start_message r e p).
Proof.
  unfold start_message. change (opened r (rechunk p)) with (opened r p). destruct (opened r p !! _); [done|].
  rewrite checkOwner_chunks.
  destruct (checkOwner _ _ _ p); [|done]. simpl. rewrite add_owner_chunks.
  set (q := add_owner _ _ _ p). change (owners (stream_kind r) (rechunk q)) with (owners (stream_kind r) q).
  destruct r; simpl; by destruct (message _ (Messages q)).
Qed.

Lemma continue_message_chunks r e p k :
  (forall id q, k id (rechunk q) = rechunk (k id q)) ->
  continue_message r e (rechunk p) k = on_ok rechunk (continue_message r e p k).
Proof.
  intros Hk. unfold continue_message. change (opened r (rechunk p)) with (opened r p). destruct (opened r p !! _); [|done].
  rewrite checkOwner_chunks.
  destruct (checkOwner _ _ _ p); [|done]. simpl. by rewrite Hk.
Qed.

Lemma append_content_chunks e id p : append_content e id (rechunk p) = rechunk (append_content e id p).
Proof. unfold append_content. by_cases. Qed.

Lemma close_message_chunks r id p : close_message r id (rechunk p) = rechunk (close_message r id p).
Proof. by destruct r. Qed.

Lemma start_tool_chunks e p : start_tool e (rechunk p) = on_ok rechunk (start_tool e p).
Proof.
  unfold start_tool. change (Tools (rechunk p)) with (Tools p). destruct (Tools p !! _); [done|].
  change (owners "message" (rechunk p)) with (owners "message" p). change (owners "tool" (rechunk p)) with (owners "tool" p).
  set (po := if present e "parentMessageId" then _ else _). destruct (match po with Some _ => _ | None => _ end); [done|].
  rewrite checkOwner_chunks.
  destruct (checkOwner _ _ _ p); [|done]. cbn [mbind result_bind].
  destruct (match owners "tool" p !! _ with Some _ => _ | None => _ end); [done|].
  rewrite add_owner_chunks. set (q := add_owner _ _ _ p). change (Messages (set_Tools _ (rechunk q))) with (Messages q).
  change (Messages (set_Tools _ q)) with (Messages q). destruct (tool _ (Messages q)) as [call|]; [|done].
  by destruct (set_function _ _ call).
Qed.

Lemma tool_args_chunks e p : tool_args e (rechunk p) = on_ok rechunk (tool_args e p).
Proof.
  unfold tool_args. change (Tools (rechunk p)) with (Tools p). destruct (Tools p !! _); [|done].
  rewrite checkOwner_chunks.
  destruct (checkOwner _ _ _ p); [|done]. simpl. destruct (tool _ (Messages p)) as [call|]; [|done]. by destruct (set_function _ _ call).
Qed.

Lemma activity_snapshot_chunks e p : activity_snapshot e (rechunk p) = rechunk (activity_snapshot e p).
Proof.
  unfold activity_snapshot. rewrite add_owner_chunks. set (q := add_owner _ _ _ p). simpl.
  destruct (message _ (Messages q)); [|done]. by case_bool_decide.
Qed.

Lemma handle_chunks t e p :
  handle ValidateEvent apply_library t e (rechunk p) = on_ok rechunk (handle ValidateEvent apply_library t e p).
Proof.
  destruct t; simpl; try done.
  - apply start_run_chunks.
  - unfold end_run. simpl. by_cases.
  - apply start_message_chunks.
  - apply continue_message_chunks, append_content_chunks.
  - apply continue_message_chunks, close_message_chunks.
  - apply start_message_chunks.
  - apply continue_message_chunks, append_content_chunks.
  - apply continue_message_chunks, close_message_chunks.
  - apply start_tool_chunks.
  - apply tool_args_chunks.
  - unfold end_tool. simpl. destruct (Tools p !! _); [|done]. rewrite checkOwner_chunks. by destruct (checkOwner _ _ _ p).
  - by destruct (patch _ _ _ _).
  - apply replaceHistory_chunks.
  - by rewrite activity_snapshot_chunks.
  - unfold activity_delta. rewrite checkOwner_chunks. destruct (checkOwner _ _ _ p); [|done]. simpl.
    destruct (message _ _) as [m|]; [|done]. destruct (is_role "activity" m); [|done]. destruct (patch _ _ _ _) as [v|]; [|done]. by destruct v.
  - unfold start_reasoning. simpl. destruct (Reasoning p !! _); [done|]. rewrite checkOwner_chunks. destruct (checkOwner _ _ _ p); [|done]. simpl. by rewrite add_owner_chunks.
  - unfold end_reasoning. simpl. destruct (Reasoning p !! _); [|done]. rewrite checkOwner_chunks. by destruct (checkOwner _ _ _ p).
  - unfold encrypted_value. change (owners "message" (rechunk p)) with (owners "message" p).
    rewrite checkOwner_chunks. destruct (checkOwner _ _ _ p); [|done]. simpl.
    case_bool_decide; [|done]. destruct (message _ _) as [m|]; [|done]. by destruct (is_role "activity" m).
  - unfold start_step. simpl. by case_bool_decide.
  - unfold finish_step. simpl. by case_bool_decide.
  - unfold start_subagent. simpl. destruct (Subagents p !! _); [done|]. by destruct (_ && _).
  - unfold finish_subagent. simpl. by destruct (default _ _).
  - unfold finish_subagent. simpl. by destruct (default _ _).
Qed.

Lemma merge_deferred_chunks t e p : merge_deferred t e (rechunk p) = rechunk (merge_deferred t e p).
Proof. by destruct t. Qed.

Lemma apply_event_chunks e p :
  apply_event ValidateEvent apply_library e (rechunk p) = on_ok rechunk (apply_event ValidateEvent apply_library e p).
Proof.
  unfold apply_event. change (Errored (rechunk p)) with (Errored p). change (Running (rechunk p)) with (Running p).
  destruct (_ && _); [done|]. destruct (_ && _ && _); [done|]. destruct (event_type _) as [t|]; [|done].
  rewrite handle_chunks. destruct (handle _ _ t e p) as [q|]; [|done]. simpl. by rewrite merge_deferred_chunks.
Qed.
End Chunks.

(** ** Normalised events *)
Lemma get_inherit k dst src keys : k ∉ keys -> get k (inherit dst src keys) = get k dst.
Proof.
  unfold inherit. revert dst. induction keys as [|key keys IH]; intros dst Hk; [done|]. simpl.
  apply not_elem_of_cons in Hk as [Hne Hk]. rewrite IH by done. destruct (get key src); [|done]. by apply get_put_ne.
Qed.

Lemma get_attribute k l o : k <> "subagentRunId" -> get k (attribute l o) = get k o.
Proof. intros Hk. unfold attribute. destruct (HasPrefix l "tag:"); [|done]. by apply get_put_ne. Qed.

Lemma field_inherit k dst src keys : k ∉ keys -> field (inherit dst src keys) k = field dst k.
Proof. intros Hk. unfold field, text_field. by rewrite get_inherit. Qed.

Lemma field_of_get o1 o2 k : get k o1 = get k o2 -> field o1 k = field o2 k.
Proof. unfold field, text_field. by intros ->. Qed.

(** The events the normaliser makes are not chunks themselves. *)
Definition plain (e : Object) : Prop := HasSuffix (field e "type") "_CHUNK" = false.

Lemma plain_type e k s : get "type" e = Some (JString (k +:+ s)) -> (forall k, HasSuffix (k +:+ s) "_CHUNK" = false) -> plain e.
Proof. intros E Hs. unfold plain, field, text_field. by rewrite E. Qed.

Lemma suffix_end k : HasSuffix (k +:+ "_END") "_CHUNK" = false.
Proof. unfold HasSuffix. rewrite bytes_app, rev_app_distr. reflexivity. Qed.
Lemma suffix_start k : HasSuffix (k +:+ "_START") "_CHUNK" = false.
Proof. unfold HasSuffix. rewrite bytes_app, rev_app_distr. reflexivity. Qed.
Lemma suffix_content k : HasSuffix (k +:+ "_CONTENT") "_CHUNK" = false.
Proof. unfold HasSuffix. rewrite bytes_app, rev_app_distr. reflexivity. Qed.

Lemma id_key_type kind : "type" <> id_key kind.
Proof. unfold id_key. by case_bool_decide. Qed.

Lemma get_type_pair kind id s : get "type" [(id_key kind, JString id); ("type", JString s)] = Some (JString s).
Proof. simpl. by rewrite decide_False by apply id_key_type. Qed.

Lemma closing_plain c : plain (closing c).
Proof.
  apply (plain_type _ (Kind c) "_END"); [|apply suffix_end]. unfold closing. rewrite get_inherit by set_solver.
  apply (get_type_pair (Kind c) (ChunkID c)).
Qed.

Lemma closeLane_plain key p : Forall plain (closeLane key p).1.
Proof. unfold closeLane. destruct (Chunks p !! key); [|constructor]. repeat constructor. apply closing_plain. Qed.

Lemma closeLanes_plain keys p : Forall plain (closeLanes keys p).1.
Proof.
  revert p. induction keys as [|key keys IH]; intros p; [constructor|]. simpl. pose proof (closeLane_plain key p) as H.
  destruct (closeLane key p) as [out q]. specialize (IH q). destruct (closeLanes keys q) as [rest r]. simpl in *. by apply list.Forall_app.
Qed.

Lemma start_event_plain kind id l e start : start_event kind id l e = Ok start -> plain start.
Proof.
  intros E. apply (plain_type _ kind "_START"); [|apply suffix_start].
  assert (get "type" (attribute l (inherit [(id_key kind, JString id); ("type", JString (kind +:+ "_START"))] e ["timestamp"; "metadata"]))
          = Some (JString (kind +:+ "_START"))) as Ht.
  { rewrite get_attribute, get_inherit by set_solver. apply get_type_pair. }
  unfold start_event in E. case_bool_decide.
  - destruct (present e "toolCallName"); [|done]. injection E as <-. by rewrite get_inherit by set_solver.
  - injection E as <-. rewrite get_inherit by set_solver. by rewrite get_put_ne.
Qed.

Lemma content_event_plain kind id l e : plain (content_event kind id l e).
Proof.
  unfold plain, content_event. set (typ := if bool_decide _ then _ else _).
  erewrite (field_of_get _ [(id_key kind, JString id); ("type", JString typ)] "type");
    [|rewrite get_attribute, get_inherit by set_solver; by rewrite get_put_ne].
  unfold field, text_field. rewrite get_type_pair. unfold typ. case_bool_decide; [done|]. apply suffix_content.
Qed.

Notation bare := (set_Chunks ∅ []).

Lemma closeLane_bare key p : bare (closeLane key p).2 = bare p.
Proof. unfold closeLane. by destruct (Chunks p !! key). Qed.

Lemma closeLanes_bare keys p : bare (closeLanes keys p).2 = bare p.
Proof.
  revert p. induction keys as [|key keys IH]; intros p; [done|]. simpl. pose proof (closeLane_bare key p) as H.
  destruct (closeLane key p) as [out q]. specialize (IH q). destruct (closeLanes keys q) as [rest r]. simpl in *. congruence.
Qed.

Lemma normalize_chunk_spec lanes kind e p out next :
  normalize_chunk lanes kind e p = Ok (out, next) -> Forall plain out /\ bare next = bare p.
Proof.
  unfold normalize_chunk. intros E. apply bind_ok in E as (l & _ & E). apply bind_ok in E as (id & _ & E).
  set (cont := match Chunks p !! l with Some c => _ | None => false end) in E.
  assert (Forall plain (if cont then ([], p) else closeLane l p).1 /\ bare (if cont then ([], p) else closeLane l p).2 = bare p) as [H1 H2].
  { destruct cont; [by split; [constructor|]|]. split; [apply closeLane_plain|apply closeLane_bare]. }
  destruct (if cont then ([], p) else closeLane l p) as [closed q]. simpl in H1, H2.
  destruct (if cont then _ else None) as [key|]; [done|]. apply bind_ok in E as ([opened q'] & Eo & E). injection E as <- <-.
  assert (Forall plain opened /\ bare q' = bare q) as [H3 H4].
  { destruct cont; [injection Eo as <- <-; by split; [constructor|]|]. apply bind_ok in Eo as (start & Es & Eo). injection Eo as <- <-.
    split; [|done]. repeat constructor. by eapply start_event_plain. }
  split; [|by rewrite H4]. apply list.Forall_app. split; [done|]. apply list.Forall_app. split; [done|].
  destruct (_ || _); [|constructor]. repeat constructor. apply content_event_plain.
Qed.

Lemma normalize_spec lanes e p out next :
  normalize lanes e p = Ok (out, next) -> Forall plain out /\ bare next = bare p.
Proof.
  unfold normalize. destruct (HasSuffix (field e "type") "_CHUNK") eqn:Es; [apply normalize_chunk_spec|].
  assert (plain e) as He by done.
  destruct (closes (field e "type")).
  - pose proof (closeLanes_plain (ChunkOrder p) p). pose proof (closeLanes_bare (ChunkOrder p) p).
    destruct (closeLanes (ChunkOrder p) p) as [o q]. intros [= <- <-]. split; [|done]. apply list.Forall_app. by repeat constructor.
  - pose proof (closeLane_plain (ownerKey e) p). pose proof (closeLane_bare (ownerKey e) p).
    destruct (closeLane (ownerKey e) p) as [o q]. intros [= <- <-]. split; [|done]. apply list.Forall_app. by repeat constructor.
  - intros [= <- <-]. by repeat constructor.
Qed.

(** Without open lanes a plain event is its own normal form. *)
Lemma normalize_bare e p : plain e -> normalize [] e (bare p) = Ok ([e], bare p).
Proof.
  intros He. unfold normalize. rewrite He. destruct (closes (field e "type")); [done| |done].
  unfold closeLane. simpl. by rewrite lookup_empty.
Qed.

Section Replay.
Context (ValidateEvent : json -> bool) (apply_library : json -> json -> option json).
Notation Apply := (Apply ValidateEvent apply_library).

(** A sequence of events that are all accepted, with what they are normalised to. *)
Inductive accepts : Projection -> list json -> list Object -> Projection -> Prop :=
| accepts_nil p : accepts p [] [] p
| accepts_cons p lanes event out q events outs r :
    lanes ≡ₚ map_to_list (Chunks p) -> Apply lanes event p = (q, Ok out) -> accepts q events outs r ->
    accepts p (event :: events) (out ++ outs) r.

Lemma Apply_inv lanes event p q out :
  Apply lanes event p = (q, Ok out) ->
  exists e next, object_of event = Some e /\ normalize lanes e p = Ok (out, next)
                 /\ apply_all ValidateEvent apply_library out next = Ok q.
Proof.
  unfold AguiProjection.Apply. destruct (ValidateEvent event); [|done]. destruct (object_of event) as [e|]; [|done].
  destruct (normalize lanes e p) as [[events next]|] eqn:En; [|done]. cbn [mbind result_bind].
  destruct (apply_all _ _ events next) as [q'|] eqn:Ea; [|done]. simpl. intros [= <- <-]. eauto.
Qed.

Lemma Apply_plain e p q :
  plain e -> ValidateEvent (JObject e) = true -> apply_event ValidateEvent apply_library e p = Ok q ->
  Apply [] (JObject e) (bare p) = (bare q, Ok [e]).
Proof.
  intros Hp Hv E. unfold AguiProjection.Apply. rewrite Hv. cbn [object_of]. rewrite normalize_bare by done.
  cbn [mbind result_bind apply_all]. rewrite Hv, apply_event_chunks, E. done.
Qed.

Lemma apply_all_accepts out p q outs events r :
  Forall plain out -> apply_all ValidateEvent apply_library out p = Ok q ->
  accepts (bare q) events outs r -> accepts (bare p) ((JObject <$> out) ++ events) (out ++ outs) r.
Proof.
  revert p. induction out as [|e out IH]; intros p Hp E Hr; [by injection E as ->|].
  apply list.Forall_cons in Hp as [He Hp]. cbn [apply_all] in E. destruct (ValidateEvent (JObject e)) eqn:Ev; [|done].
  apply bind_ok in E as (p' & Ee & E). cbn [fmap list_fmap app].
  apply (accepts_cons _ [] _ [e] (bare p') _ (out ++ outs)); [by simpl; rewrite map_to_list_empty| |by apply IH].
  by apply Apply_plain.
Qed.

(** C16: the normalised events are a faithful journal. Whatever events a
    projection accepts, with their chunks and from any state, feeding the
    normalised events to the same projection without open lanes accepts them
    all, leaves each as it is, and ends in the same messages, shared state,
    open streams and owners. *)
Theorem normalized_replay p events outs q :
  accepts p events outs q -> accepts (bare p) (JObject <$> outs) outs (bare q).
Proof.
  induction 1 as [p|p lanes event out q events outs r _ E _ IH]; [constructor|].
  apply Apply_inv in E as (e & next & _ & En & Ea). apply normalize_spec in En as [Hp Hb].
  rewrite fmap_app, <- Hb. by apply apply_all_accepts with q.
Qed.
End Replay.

(** ** A run *)
Lemma play_accepts events p q outs : play events p = Ok (q, outs) -> accepts accept rfc6902 p events outs q.
Proof.
  revert p outs. induction events as [|event events IH]; intros p outs E; [injection E as <- <-; constructor|].
  cbn [play] in E. unfold apply_demo in E. destruct (Apply _ _ _ event p) as [p' r] eqn:Ea.
  apply bind_ok in E as (out & -> & E). apply bind_ok in E as ([q' rest] & Er & [= <- <-]).
  econstructor; [reflexivity|exact Ea|]. by apply IH.
Qed.

Module Demo.
Definition fresh : Projection := mkProjection (JObject []) [] false ∅ ∅ false "" "" ∅ ∅ ∅ ∅ ∅ ∅ ∅ [].
Definition event (typ : string) (fields : list (string * string)) : json :=
  JObject (foldr (fun '(k, v) o => put k (JString v) o) [] (("type", typ) :: fields)).
Definition start : json := event "RUN_STARTED" [("threadId", "t"); ("runId", "r")].
Definition finish : json := event "RUN_FINISHED" [("threadId", "t"); ("runId", "r")].

(** A message in two chunks, the chunks of a tool call, and the end of the run. *)
Definition events : list json :=
  [start;
   event "TEXT_MESSAGE_CHUNK" [("messageId", "m"); ("delta", "Hel")];
   event "TEXT_MESSAGE_CHUNK" [("delta", "lo")];
   event "TOOL_CALL_CHUNK" [("toolCallId", "c"); ("toolCallName", "read"); ("delta", "{}")];
   finish].
Definition final : Projection * list Object := match play events fresh with Ok r => r | Err _ => (fresh, []) end.

Lemma played : play events fresh = Ok (final.1, final.2).
Proof. vm_compute. reflexivity. Qed.

Example final_types :
  (fun e => field e "type") <$> final.2 =
  ["RUN_STARTED"; "TEXT_MESSAGE_START"; "TEXT_MESSAGE_CONTENT"; "TEXT_MESSAGE_CONTENT"; "TEXT_MESSAGE_END";
   "TOOL_CALL_START"; "TOOL_CALL_ARGS"; "TOOL_CALL_END"; "RUN_FINISHED"].
Proof. vm_compute. reflexivity. Qed.

Example final_messages :
  Snapshot final.1 =
  (JObject [],
   JArray
     [JObject [("content", JString "Hello"); ("id", JString "m"); ("role", JString "assistant")];
      JObject
        [("id", JString "c"); ("role", JString "assistant");
         ("toolCalls",
          JArray
            [JObject
               [("function", JObject [("arguments", JString "{}"); ("name", JString "read")]); ("id", JString "c");
                ("type", JString "function")]])]]).
Proof. vm_compute. reflexivity. Qed.
End Demo.

Lemma normalized_replay_witness :
  accepts accept rfc6902 (bare Demo.fresh) (JObject <$> Demo.final.2) Demo.final.2 (bare Demo.final.1).
Proof. apply (normalized_replay accept rfc6902 _ Demo.events), play_accepts, Demo.played. Defined.
