(* ===== verification/AguiLife.v ===== *)
(** * The life cycles behind the projection

    An abstract machine that only knows whether a run is active, which streams
    are open and which subagents were started: what the projection accepts is a
    trace of it. *)
From stdpp Require Import base gmap strings list fin_maps sets relations.
From S2P Require Import Prelude GoStrings JsonQuote JsonValue JsonCodec CanonicalNumber AguiPatch AguiProjection AguiDemo AguiProps.

Open Scope nat_scope.

(** ** The machine *)
Inductive stream := TextStream | ReasoningStream | ToolStream | SpanStream | StepStream.

#[export] Instance stream_dec : EqDecision stream.
Proof. solve_decision. Defined.

Record Life := mkLife {
  running : bool;
  failed : bool;
  open : stream -> gset string;
  subagents : gmap string bool       (* active or finished *)
}.

Inductive move :=
| StartRun | FinishRun | FailRun
| Open (s : stream) (id : string) | Use (s : stream) (id : string) | Close (s : stream) (id : string)
| StartSubagent (id : string) (parent : option string) | EndSubagent (id : string)
| Other.

(** [l'] is [l] with another set of open streams of kind [s]. *)
Definition reopened (s : stream) (ids : gset string) (l l' : Life) : Prop :=
  running l' = running l /\ failed l' = failed l /\ subagents l' = subagents l
  /\ forall s', open l' s' = if decide (s' = s) then ids else open l s'.
Definition same_life (l l' : Life) : Prop :=
  running l' = running l /\ failed l' = failed l /\ subagents l' = subagents l /\ forall s, open l' s = open l s.

Definition active (l : Life) : Prop := running l = true /\ failed l = false.

Inductive lives : move -> Life -> Life -> Prop :=
| lives_start l l' :
    running l = false -> running l' = true -> failed l' = false -> (forall s, open l' s = ∅) -> subagents l' = ∅ ->
    lives StartRun l l'
| lives_finish l l' :
    active l -> (forall s, open l s = ∅) -> (forall id b, subagents l !! id = Some b -> b = false) ->
    running l' = false -> failed l' = false -> subagents l' = subagents l -> (forall s, open l' s = ∅) ->
    lives FinishRun l l'
| lives_fail l l' :
    failed l = false -> running l' = false -> failed l' = true -> subagents l' = subagents l -> (forall s, open l' s = open l s) ->
    lives FailRun l l'
| lives_open s id l l' : active l -> id ∉ open l s -> reopened s ({[id]} ∪ open l s) l l' -> lives (Open s id) l l'
| lives_use s id l l' : active l -> id ∈ open l s -> same_life l l' -> lives (Use s id) l l'
| lives_close s id l l' : active l -> id ∈ open l s -> reopened s (open l s ∖ {[id]}) l l' -> lives (Close s id) l l'
| lives_start_subagent id parent l l' :
    active l -> subagents l !! id = None -> (forall x, parent = Some x -> is_Some (subagents l !! x)) ->
    running l' = running l -> failed l' = failed l -> (forall s, open l' s = open l s) ->
    subagents l' = <[id := true]> (subagents l) -> lives (StartSubagent id parent) l l'
| lives_end_subagent id l l' :
    active l -> subagents l !! id = Some true ->
    running l' = running l -> failed l' = failed l -> (forall s, open l' s = open l s) ->
    subagents l' = <[id := false]> (subagents l) -> lives (EndSubagent id) l l'
| lives_other l l' : active l -> same_life l l' -> lives Other l l'.

(** ** The projection as such a machine *)
Definition open_streams (p : Projection) (s : stream) : gset string :=
  match s with
  | TextStream => dom (Text p)
  | ReasoningStream => dom (ReasoningMessages p)
  | ToolStream => dom (Tools p)
  | SpanStream => dom (Reasoning p)
  | StepStream => Steps p
  end.
Definition life (p : Projection) : Life := mkLife (Running p) (Errored p) (open_streams p) (Subagents p).

Definition subagent_parent (e : Object) : option string :=
  if decide (value_of e "parentSubagentRunId" = JNull) then None else Some (field e "parentSubagentRunId").

Definition move_of (t : EventType) (e : Object) : move :=
  let message := field e "messageId" in
  let call := field e "toolCallId" in
  match t with
  | RUN_STARTED => StartRun
  | RUN_FINISHED => FinishRun
  | RUN_ERROR => FailRun
  | TEXT_MESSAGE_START => Open TextStream message
  | TEXT_MESSAGE_CONTENT => Use TextStream message
  | TEXT_MESSAGE_END => Close TextStream message
  | REASONING_MESSAGE_START => Open ReasoningStream message
  | REASONING_MESSAGE_CONTENT => Use ReasoningStream message
  | REASONING_MESSAGE_END => Close ReasoningStream message
  | TOOL_CALL_START => Open ToolStream call
  | TOOL_CALL_ARGS => Use ToolStream call
  | TOOL_CALL_END => Close ToolStream call
  | REASONING_START => Open SpanStream message
  | REASONING_END => Close SpanStream message
  | STEP_STARTED => Open StepStream (stepKey e)
  | STEP_FINISHED => Close StepStream (stepKey e)
  | SUBAGENT_STARTED => StartSubagent (lane e) (subagent_parent e)
  | SUBAGENT_FINISHED | SUBAGENT_ERROR => EndSubagent (lane e)
  | TOOL_CALL_RESULT | STATE_SNAPSHOT | STATE_DELTA | MESSAGES_SNAPSHOT | ACTIVITY_SNAPSHOT | ACTIVITY_DELTA
  | REASONING_ENCRYPTED_VALUE | CUSTOM | RAW => Other
  end.

(** ** Owners and messages play no part *)
Lemma same_life_refl l : same_life l l.
Proof. done. Qed.

Lemma life_set_owner kind id o p : life (set_owner kind id o p) = life p.
Proof. done. Qed.
Lemma life_set_Messages ms p : life (set_Messages ms p) = life p.
Proof. done. Qed.
Lemma life_add_owner kind id o p : life (add_owner kind id o p) = life p.
Proof. unfold add_owner. by destruct (owners kind p !! id). Qed.
Lemma life_seed_owner b kind id o p : life (seed_owner b kind id o p) = life p.
Proof. destruct b; [done|apply life_add_owner]. Qed.

Lemma life_seed_message b p m : life (seed_message b p m) = life p.
Proof.
  unfold seed_message. rewrite <- (life_seed_owner b (message_kind m) (field m "id") (ownerKey m) p).
  generalize (seed_owner b (message_kind m) (field m "id") (ownerKey m) p).
  induction (items_of (get "toolCalls" m)) as [|raw l IH]; intros q; [done|]. simpl. rewrite IH. destruct raw; try done.
  apply life_seed_owner.
Qed.

Lemma life_seedOwners ms b p : life (seedOwners ms b p) = life p.
Proof. unfold seedOwners. revert p. induction ms as [|m ms IH]; intros p; [done|]. simpl. by rewrite IH, life_seed_message. Qed.

Lemma life_merge_deferred t e p : life (merge_deferred t e p) = life p.
Proof. by destruct t. Qed.

(** ** Each handler is a move *)
Definition message_stream (r : bool) : stream := if r then ReasoningStream else TextStream.

(** Two projections with the same life look the same to the machine. *)
Definition lives_to (mv : move) (p q : Projection) : Prop := lives mv (life p) (life q).

Lemma other_life p q : active (life p) -> life q = life p -> lives_to Other p q.
Proof. intros Ha E. apply lives_other; [done|]. by rewrite E. Qed.

Lemma use_life s id p q : active (life p) -> id ∈ open (life p) s -> life q = life p -> lives_to (Use s id) p q.
Proof. intros Ha Hid E. apply lives_use; [done|done|]. by rewrite E. Qed.

Lemma reopened_life s ids p q :
  Running q = Running p -> Errored q = Errored p -> Subagents q = Subagents p ->
  (forall s', open_streams q s' = if decide (s' = s) then ids else open_streams p s') ->
  reopened s ids (life p) (life q).
Proof. done. Qed.

Lemma not_in_dom (m : gmap string string) id : m !! id = None -> id ∉ dom m.
Proof. apply not_elem_of_dom. Qed.
Lemma in_dom (m : gmap string string) id v : m !! id = Some v -> id ∈ dom m.
Proof. intros E. by eapply elem_of_dom_2. Qed.

Lemma set_opened_insert r id v p :
  reopened (message_stream r) ({[id]} ∪ open (life p) (message_stream r)) (life p)
    (life (set_opened r (<[id := v]> (opened r p)) p)).
Proof. destruct r; apply reopened_life; try done; intros []; simpl; try done; apply dom_insert_L. Qed.

Lemma set_opened_delete r id p :
  reopened (message_stream r) (open (life p) (message_stream r) ∖ {[id]}) (life p)
    (life (set_opened r (delete id (opened r p)) p)).
Proof. destruct r; apply reopened_life; try done; intros []; simpl; try done; apply dom_delete_L. Qed.

Lemma opened_add_owner r kind id o p : opened r (add_owner kind id o p) = opened r p.
Proof. unfold add_owner. destruct (owners kind p !! id); by destruct r. Qed.

Lemma start_message_lives r e p q :
  active (life p) -> start_message r e p = Ok q -> lives_to (Open (message_stream r) (field e "messageId")) p q.
Proof.
  intros Ha. unfold start_message. destruct (opened r p !! _) eqn:Eo; [done|]. intros E.
  apply bind_ok in E as (_ & _ & E). rewrite opened_add_owner in E. set (p1 := add_owner _ _ _ p) in E.
  apply lives_open; [done| |].
  - destruct r; by apply not_in_dom.
  - assert (opened r p = opened r p1) as Ep by (symmetry; apply opened_add_owner).
    assert (life p = life p1) as -> by (symmetry; apply life_add_owner). rewrite Ep in E.
    destruct (message _ _); injection E as <-; apply set_opened_insert.
Qed.

Lemma continue_message_in r e p q k :
  continue_message r e p k = Ok q -> field e "messageId" ∈ open (life p) (message_stream r) /\ q = k (field e "messageId") p.
Proof.
  unfold continue_message. destruct (opened r p !! _) eqn:Eo; [|done]. intros E. apply bind_ok in E as (_ & _ & [= <-]).
  split; [|done]. destruct r; by eapply in_dom.
Qed.

Lemma append_content_lives r e p q :
  active (life p) -> continue_message r e p (append_content e) = Ok q ->
  lives_to (Use (message_stream r) (field e "messageId")) p q.
Proof.
  intros Ha E. apply continue_message_in in E as [Hid ->]. apply use_life; [done|done|].
  unfold append_content. destruct (message _ _) as [m|]; [|done]. by destruct (is_role "activity" m).
Qed.

Lemma close_message_lives r e p q :
  active (life p) -> continue_message r e p (close_message r) = Ok q ->
  lives_to (Close (message_stream r) (field e "messageId")) p q.
Proof.
  intros Ha E. apply continue_message_in in E as [Hid ->]. apply lives_close; [done|done|]. apply set_opened_delete.
Qed.

Lemma set_Tools_reopened v ids p : dom v = ids -> reopened ToolStream ids (life p) (life (set_Tools v p)).
Proof. intros <-. apply reopened_life; try done. by intros []. Qed.

Lemma start_tool_lives e p q :
  active (life p) -> start_tool e p = Ok q -> lives_to (Open ToolStream (field e "toolCallId")) p q.
Proof.
  intros Ha. unfold start_tool. destruct (Tools p !! _) eqn:Eo; [done|].
  set (po := if present e "parentMessageId" then _ else _). destruct (match po with Some _ => _ | None => _ end); [done|].
  intros E. apply bind_ok in E as (_ & _ & E).
  destruct (match owners "tool" p !! _ with Some _ => _ | None => _ end); [done|].
  set (o := match owners "tool" p !! _ with Some _ => _ | None => _ end) in E.
  assert (life (add_owner "tool" (field e "toolCallId") o p) = life p) as El by apply life_add_owner.
  set (p1 := add_owner _ _ _ p) in El, E. set (p2 := set_Tools _ p1) in E.
  assert (life q = life p2) as Eq.
  { destruct (tool _ (Messages p2)) as [call|]; [|by injection E as <-].
    destruct (set_function _ _ call); [|done]. by injection E as <-. }
  apply lives_open; [done|by apply not_in_dom|]. rewrite Eq, <- El. apply set_Tools_reopened. etrans; [apply dom_insert_L|done].
Qed.

Lemma tool_args_lives e p q :
  active (life p) -> tool_args e p = Ok q -> lives_to (Use ToolStream (field e "toolCallId")) p q.
Proof.
  intros Ha. unfold tool_args. destruct (Tools p !! _) eqn:Eo; [|done]. intros E. apply bind_ok in E as (_ & _ & E).
  apply use_life; [done|by eapply in_dom|]. destruct (tool _ _) as [call|]; [|by injection E as <-].
  destruct (set_function _ _ call); [|done]. by injection E as <-.
Qed.

Lemma end_tool_lives e p q :
  active (life p) -> end_tool e p = Ok q -> lives_to (Close ToolStream (field e "toolCallId")) p q.
Proof.
  intros Ha. unfold end_tool. destruct (Tools p !! _) eqn:Eo; [|done]. intros E. apply bind_ok in E as (_ & _ & [= <-]).
  apply lives_close; [done|by eapply in_dom|]. apply set_Tools_reopened. etrans; [apply dom_delete_L|done].
Qed.

Lemma set_Reasoning_reopened v ids p : dom v = ids -> reopened SpanStream ids (life p) (life (set_Reasoning v p)).
Proof. intros <-. apply reopened_life; try done. by intros []. Qed.

Lemma start_reasoning_lives e p q :
  active (life p) -> start_reasoning e p = Ok q -> lives_to (Open SpanStream (field e "messageId")) p q.
Proof.
  intros Ha. unfold start_reasoning. destruct (Reasoning p !! _) eqn:Eo; [done|]. intros E. apply bind_ok in E as (_ & _ & [= <-]).
  apply lives_open; [done|by apply not_in_dom|]. rewrite <- (life_add_owner "reasoning" (field e "messageId") (ownerKey e) p).
  apply set_Reasoning_reopened. etrans; [apply dom_insert_L|done].
Qed.

Lemma end_reasoning_lives e p q :
  active (life p) -> end_reasoning e p = Ok q -> lives_to (Close SpanStream (field e "messageId")) p q.
Proof.
  intros Ha. unfold end_reasoning. destruct (Reasoning p !! _) eqn:Eo; [|done]. intros E. apply bind_ok in E as (_ & _ & [= <-]).
  apply lives_close; [done|by eapply in_dom|]. apply set_Reasoning_reopened. etrans; [apply dom_delete_L|done].
Qed.

Lemma set_Steps_reopened v p : reopened StepStream v (life p) (life (set_Steps v p)).
Proof. apply reopened_life; try done. by intros []. Qed.

Lemma start_step_lives e p q : active (life p) -> start_step e p = Ok q -> lives_to (Open StepStream (stepKey e)) p q.
Proof.
  intros Ha. unfold start_step. case_bool_decide as Hs; [done|]. intros [= <-]. apply lives_open; [done|done|]. apply set_Steps_reopened.
Qed.

Lemma finish_step_lives e p q : active (life p) -> finish_step e p = Ok q -> lives_to (Close StepStream (stepKey e)) p q.
Proof.
  intros Ha. unfold finish_step. case_bool_decide as Hs; [|done]. intros [= <-]. apply lives_close; [done|done|]. apply set_Steps_reopened.
Qed.

Lemma start_subagent_lives e p q :
  active (life p) -> start_subagent e p = Ok q -> lives_to (StartSubagent (lane e) (subagent_parent e)) p q.
Proof.
  intros Ha. unfold start_subagent. destruct (Subagents p !! lane e) eqn:Es; [done|].
  destruct (_ && _) eqn:Eb; [done|]. intros [= <-]. apply lives_start_subagent; try done.
  intros x. unfold subagent_parent. destruct (decide _) as [|Hn]; [done|]. intros [= <-]. simpl.
  rewrite bool_decide_true in Eb by done. apply bool_decide_eq_false in Eb. by apply not_eq_None_Some in Eb.
Qed.

Lemma finish_subagent_lives e p q :
  active (life p) -> finish_subagent e p = Ok q -> lives_to (EndSubagent (lane e)) p q.
Proof.
  intros Ha. unfold finish_subagent. destruct (Subagents p !! lane e) as [[]|] eqn:Es; try done. intros [= <-].
  by apply lives_end_subagent.
Qed.

Lemma start_run_lives e p q : start_run e p = Ok q -> lives_to StartRun p q.
Proof.
  unfold start_run. destruct (Running p) eqn:Er; [done|]. set (p1 := mkProjection _ _ _ _ _ _ _ _ _ _ _ _ _ _ _ _). intros E.
  assert (life q = life p1) as Eq.
  { destruct (object (get "input" e)) as [input|]; [|by injection E as <-].
    destruct (objects_of (value_of input "messages")) as [history|]; [|done]. injection E as <-.
    etrans; [|apply (life_seedOwners history false p1)]. done. }
  unfold lives_to. rewrite Eq. apply lives_start; try done. intros []; simpl; by rewrite ?dom_empty_L.
Qed.

Lemma end_run_lives e p q : Errored p = false -> end_run true e p = Ok q -> lives_to FailRun p q.
Proof. intros He [= <-]. by apply lives_fail. Qed.

Lemma finish_run_lives e p q : active (life p) -> end_run false e p = Ok q -> lives_to FinishRun p q.
Proof.
  intros Ha. unfold end_run. case_bool_decide; [done|]. case_bool_decide as Ho; [done|].
  destruct (existsb _ _) eqn:Ea; [done|]. intros [= <-].
  assert (forall s, open_streams p s = ∅) as Hs.
  { assert (Text p = ∅ /\ ReasoningMessages p = ∅ /\ Tools p = ∅ /\ Steps p = ∅ /\ Reasoning p = ∅) as (?&?&?&?&?)
      by (repeat split; apply dec_stable; naive_solver).
    intros []; simpl; try apply dom_empty_iff_L; done. }
  apply lives_finish; try done. intros id b Eb.
  destruct b; [|done]. exfalso. apply not_true_iff_false in Ea. apply Ea. apply existsb_exists.
  exists (id, true). split; [|done]. apply list_elem_of_In, elem_of_map_to_list, Eb.
Qed.

(** ** Events *)
Lemma get_In {A} k (o : list (string * A)) v : get k o = Some v -> In (k, v) o.
Proof.
  induction o as [|[k' v'] o IH]; [done|]. simpl. destruct (decide (k = k')) as [->|]; [intros [= ->]; by left|]. intros E. right. by apply IH.
Qed.

(** The name of an event type is the one the checks before the handler compare. *)
Lemma event_type_named typ t :
  event_type typ = Some t ->
  bool_decide (typ = "RUN_STARTED") = bool_decide (t = RUN_STARTED)
  /\ bool_decide (typ = "RUN_ERROR") = bool_decide (t = RUN_ERROR).
Proof. intros E. apply get_In in E. repeat (destruct E as [[= <- <-]|E]; [done|]). destruct E. Qed.

Definition event_move (e : Object) : option move := t ← event_type (field e "type"); Some (move_of t e).

Section Refinement.
Context (ValidateEvent : json -> bool) (apply_library : json -> json -> option json).

Lemma handle_lives t e p q :
  Errored p && negb (bool_decide (t = RUN_STARTED)) = false ->
  negb (bool_decide (t = RUN_STARTED)) && negb (Running p) && negb (bool_decide (t = RUN_ERROR)) = false ->
  handle ValidateEvent apply_library t e p = Ok q -> lives_to (move_of t e) p q.
Proof.
  intros He Hr. destruct (decide (t = RUN_STARTED)) as [->|Hs]; [apply start_run_lives|].
  rewrite bool_decide_false, andb_true_r in He by done. rewrite (bool_decide_false (t = RUN_STARTED)) in Hr by done.
  destruct (decide (t = RUN_ERROR)) as [->|Hf]; [by apply end_run_lives|].
  rewrite bool_decide_false, andb_true_r in Hr by done. apply negb_false_iff in Hr. assert (active (life p)) as Ha by done.
  destruct t; try done; cbn [handle move_of];
    eauto using finish_run_lives, start_message_lives, append_content_lives, close_message_lives, start_tool_lives, tool_args_lives,
      end_tool_lives, start_reasoning_lives, end_reasoning_lives, start_step_lives, finish_step_lives, start_subagent_lives,
      finish_subagent_lives; intros E; try (apply other_life; [done|]).
  - by apply (start_message_lives false).
  - by apply (append_content_lives false).
  - by apply (close_message_lives false).
  - by apply (start_message_lives true).
  - by apply (append_content_lives true).
  - by apply (close_message_lives true).
  - by injection E as <-.
  - by injection E as <-.
  - destruct (patch _ _ _ _); [|done]. by injection E as <-.
  - unfold replaceHistory in E. destruct (objects_of _) as [incoming|]; [|done]. destruct (keep_history _ _ _ _ _).
    injection E as <-. etrans; [|apply (life_seedOwners incoming true p)]. done.
  - injection E as <-. unfold activity_snapshot. set (p1 := add_owner _ _ _ p).
    assert (life p1 = life p) as <- by apply life_add_owner. destruct (message _ _); [|done]. by case_bool_decide.
  - unfold activity_delta in E. apply bind_ok in E as (_ & _ & E). destruct (message _ _) as [m|]; [|by injection E as <-].
    destruct (is_role "activity" m); [|by injection E as <-]. destruct (patch _ _ _ _) as [v|]; [|done].
    destruct v; try done. by injection E as <-.
  - unfold encrypted_value in E. apply bind_ok in E as (_ & _ & E). case_bool_decide; [|by injection E as <-].
    destruct (message _ _) as [m|]; [|by injection E as <-]. injection E as <-. by destruct (is_role "activity" m).
  - by injection E as <-.
  - by injection E as <-.
Qed.

Lemma apply_event_lives e p q :
  apply_event ValidateEvent apply_library e p = Ok q -> exists mv, event_move e = Some mv /\ lives_to mv p q.
Proof.
  unfold apply_event, event_move. destruct (_ && _) eqn:He; [done|]. destruct (_ && _ && _) eqn:Hr; [done|].
  destruct (event_type (field e "type")) as [t|] eqn:Et; [|done]. apply event_type_named in Et as [H1 H2].
  rewrite bool_decide_not, H2 in Hr. rewrite H1 in He, Hr. intros E. apply bind_ok in E as (p1 & E & [= <-]).
  exists (move_of t e). split; [done|]. unfold lives_to. rewrite life_merge_deferred. by apply handle_lives.
Qed.

(** ** Sequences *)
Inductive trace : Life -> list move -> Life -> Prop :=
| trace_nil l : trace l [] l
| trace_cons l mv l' mvs l'' : lives mv l l' -> trace l' mvs l'' -> trace l (mv :: mvs) l''.

Lemma trace_app l l' l'' mvs mvs' : trace l mvs l' -> trace l' mvs' l'' -> trace l (mvs ++ mvs') l''.
Proof. induction 1; [done|]. intros H'. econstructor; [done|]. by apply IHtrace. Qed.

Lemma trace_split l l'' mvs mvs' : trace l (mvs ++ mvs') l'' -> exists l', trace l mvs l' /\ trace l' mvs' l''.
Proof.
  revert l. induction mvs as [|mv mvs IH]; intros l H; [exists l; by split; [constructor|]|].
  inversion H as [|? ? l1 ? ? Hm Ht]; subst. destruct (IH l1 Ht) as (l' & H1 & H2). exists l'. split; [by econstructor|done].
Qed.

Lemma apply_all_trace out p q :
  apply_all ValidateEvent apply_library out p = Ok q ->
  exists mvs, mapM event_move out = Some mvs /\ trace (life p) mvs (life q).
Proof.
  revert p. induction out as [|e out IH]; intros p E; [injection E as ->; exists []; by split; [|constructor]|].
  cbn [apply_all] in E. destruct (ValidateEvent _); [|done]. apply bind_ok in E as (p' & Ee & E).
  apply apply_event_lives in Ee as (mv & Em & Hm). destruct (IH _ E) as (mvs & Emm & Ht).
  exists (mv :: mvs). split; [|by econstructor]. cbn [mapM]. by rewrite Em, Emm.
Qed.

Lemma life_bare p q : set_Chunks ∅ [] p = set_Chunks ∅ [] q -> life p = life q.
Proof. intros E. change (life (set_Chunks ∅ [] p) = life (set_Chunks ∅ [] q)). by rewrite E. Qed.

Lemma mapM_app_Some {A B} (f : A -> option B) l l' k k' :
  mapM f l = Some k -> mapM f l' = Some k' -> mapM f (l ++ l') = Some (k ++ k').
Proof. rewrite !mapM_Some. apply Forall2_app. Qed.

(** C13: the projection is the life-cycle machine. The normalised events of an
    accepted sequence are, one by one, moves of an abstract machine that knows
    only whether a run is active or failed, which streams are open and which
    subagents were started: a run starts when none is active and finishes with
    nothing open, outside of a run only a start or a failure is accepted and
    after a failure only a start, and messages, reasoning, tool calls, spans and
    steps are opened while they are closed and used and closed while they are
    open. *)
Theorem lifecycles_refined p events outs q :
  accepts ValidateEvent apply_library p events outs q ->
  exists moves, mapM event_move outs = Some moves /\ trace (life p) moves (life q).
Proof.
  induction 1 as [p|p lanes event out q events outs r _ E _ IH]; [exists []; by split; [|constructor]|].
  apply Apply_inv in E as (e & next & _ & En & Ea). apply normalize_spec in En as [_ Hb]. apply life_bare in Hb.
  apply apply_all_trace in Ea as (m1 & E1 & T1). destruct IH as (m2 & E2 & T2). exists (m1 ++ m2).
  split; [by apply mapM_app_Some|]. apply trace_app with (life q); [by rewrite <- Hb|done].
Qed.

(** ** What a finished run leaves behind *)

(** The phases of one stream: opened while closed, used and closed while open,
    closed when the run finishes, and forgotten when another one starts. *)
Fixpoint phase (s : stream) (id : string) (is_open : bool) (moves : list move) : option bool :=
  match moves with
  | [] => Some is_open
  | Open s' id' :: moves =>
      if decide (s' = s /\ id' = id) then if is_open then None else phase s id true moves else phase s id is_open moves
  | Use s' id' :: moves =>
      if decide (s' = s /\ id' = id) then if is_open then phase s id true moves else None else phase s id is_open moves
  | Close s' id' :: moves =>
      if decide (s' = s /\ id' = id) then if is_open then phase s id false moves else None else phase s id is_open moves
  | StartRun :: moves => phase s id false moves
  | FinishRun :: moves => if is_open then None else phase s id false moves
  | (FailRun | StartSubagent _ _ | EndSubagent _ | Other) :: moves => phase s id is_open moves
  end.

Definition is_open (s : stream) (id : string) (l : Life) : bool := bool_decide (id ∈ open l s).

Lemma is_open_reopened s0 ids s id l l' :
  reopened s0 ids l l' -> is_open s id l' = if decide (s = s0) then bool_decide (id ∈ ids) else is_open s id l.
Proof. intros (_ & _ & _ & E). unfold is_open. rewrite E. by destruct (decide (s = s0)). Qed.

Lemma is_open_empty s id l : (forall s, open l s = ∅) -> is_open s id l = false.
Proof. intros E. apply bool_decide_eq_false. rewrite E. set_solver. Qed.

Lemma is_open_same s id l l' : (forall s, open l' s = open l s) -> is_open s id l' = is_open s id l.
Proof. intros E. unfold is_open. by rewrite E. Qed.

Lemma lives_phase s id mv l l' moves :
  lives mv l l' -> phase s id (is_open s id l) (mv :: moves) = phase s id (is_open s id l') moves.
Proof.
  destruct 1 as [l l' _ _ _ Ho _|l l' _ Ho _ _ _ _ Ho'|l l' _ _ _ _ Ho|s0 i l l' _ Hi Hr|s0 i l l' _ Hi (_&_&_&Ho)|s0 i l l' _ Hi Hr
    |i parent l l' _ _ _ _ _ Ho _|i l l' _ _ _ _ Ho _|l l' _ (_&_&_&Ho)]; cbn [phase];
    try (by rewrite (is_open_same s id _ _ Ho)).
  - by rewrite (is_open_empty s id l' Ho).
  - by rewrite (is_open_empty s id l Ho), (is_open_empty s id l' Ho').
  - rewrite (is_open_reopened _ _ _ _ _ _ Hr). unfold is_open. destruct (decide _) as [[-> ->]|Hn].
    + rewrite decide_True, bool_decide_false, bool_decide_true by set_solver. done.
    + destruct (decide (s = s0)) as [->|]; [|done]. f_equal. apply bool_decide_ext. set_solver.
  - rewrite (is_open_same s id _ _ Ho). unfold is_open. destruct (decide _) as [[-> ->]|Hn]; [|done]. by rewrite bool_decide_true.
  - rewrite (is_open_reopened _ _ _ _ _ _ Hr). unfold is_open. destruct (decide _) as [[-> ->]|Hn].
    + rewrite decide_True, (bool_decide_true (id ∈ _)), bool_decide_false by set_solver. done.
    + destruct (decide (s = s0)) as [->|]; [|done]. f_equal. apply bool_decide_ext. set_solver.
Qed.

Lemma trace_phase s id l l' moves : trace l moves l' -> phase s id (is_open s id l) moves = Some (is_open s id l').
Proof. induction 1 as [l|l mv l' mvs l'' Hm _ IH]; [done|]. by rewrite (lives_phase _ _ _ _ _ _ Hm). Qed.

Lemma phase_app s id b moves moves' : phase s id b (moves ++ moves') = (b' ← phase s id b moves; phase s id b' moves').
Proof.
  revert b. induction moves as [|mv moves IH]; intros b; [done|]. destruct mv; cbn [phase app]; try apply IH; try (by destruct b; rewrite ?IH);
    destruct (decide _); try apply IH; destruct b; try done; apply IH.
Qed.

Lemma accepts_phase p events outs q :
  accepts ValidateEvent apply_library p events outs q ->
  exists moves, mapM event_move outs = Some moves
                /\ forall s id, phase s id (is_open s id (life p)) moves = Some (is_open s id (life q)).
Proof.
  induction 1 as [p|p lanes event out q events outs r _ E _ IH]; [by exists []|].
  apply Apply_inv in E as (e & next & _ & En & Ea). apply normalize_spec in En as [_ Hb]. apply life_bare in Hb.
  apply apply_all_trace in Ea as (m1 & E1 & T1). destruct IH as (m2 & E2 & T2). exists (m1 ++ m2).
  split; [by apply mapM_app_Some|]. intros s id. rewrite <- Hb, phase_app, (trace_phase s id _ _ _ T1). apply T2.
Qed.

Lemma mapM_app_inv {A B} (f : A -> option B) l l' k :
  mapM f (l ++ l') = Some k -> exists k1 k2, k = k1 ++ k2 /\ mapM f l = Some k1 /\ mapM f l' = Some k2.
Proof.
  rewrite mapM_Some. intros H. apply Forall2_app_inv_l in H as (k1 & k2 & H1 & H2 & ->). exists k1, k2. by rewrite !mapM_Some.
Qed.

(** a finished run is balanced. Among the normalised events between the
    start and the end of a run that finished, each message, reasoning message,
    tool call, reasoning span and step is opened while it is closed, used only
    while it is open, and closed as often as it is opened. *)
Lemma finished_run_balanced p events outs q pre start mid finish post s id :
  accepts ValidateEvent apply_library p events outs q ->
  outs = pre ++ start :: mid ++ finish :: post ->
  event_move start = Some StartRun -> event_move finish = Some FinishRun ->
  exists moves, mapM event_move mid = Some moves /\ phase s id false moves = Some false.
Proof.
  intros (moves & Em & Hph)%accepts_phase -> Es Ef. apply mapM_app_inv in Em as (m1 & k & -> & _ & Em).
  cbn [mapM] in Em. rewrite Es in Em. simpl in Em. destruct (mapM event_move (mid ++ finish :: post)) as [k'|] eqn:Ek; [|done].
  injection Em as <-. apply mapM_app_inv in Ek as (m2 & k & -> & Em & Ek). cbn [mapM] in Ek. rewrite Ef in Ek. simpl in Ek.
  destruct (mapM event_move post) as [m3|]; [|done]. injection Ek as <-.
  exists m2. split; [done|]. specialize (Hph s id). rewrite phase_app in Hph. destruct (phase s id _ m1) as [b|]; [|done].
  cbn [mbind option_bind phase] in Hph. rewrite phase_app in Hph. destruct (phase s id false m2) as [[]|]; [|done|done]. done.
Qed.
End Refinement.

Lemma lifecycles_refined_witness :
  exists moves, mapM event_move Demo.final.2 = Some moves /\ trace (life Demo.fresh) moves (life Demo.final.1).
Proof. apply (lifecycles_refined accept rfc6902 _ Demo.events), play_accepts, Demo.played. Defined.

Definition demo_mid : list Object := take 7 (drop 1 Demo.final.2).

Lemma finished_run_balanced_witness :
  exists moves, mapM event_move demo_mid = Some moves /\ phase TextStream "m" false moves = Some false.
Proof.
  apply (finished_run_balanced accept rfc6902 Demo.fresh Demo.events Demo.final.2 Demo.final.1 []
           (default [] (Demo.final.2 !! 0)) demo_mid (default [] (Demo.final.2 !! 8)) []);
    [apply play_accepts, Demo.played|vm_compute; reflexivity|vm_compute; reflexivity|vm_compute; reflexivity].
Defined.
