(* ===== verification/AguiOwners.v ===== *)
(** * Owners

    The owner of a message, tool call or reasoning span is the run or subagent
    whose event made it. An event that names its sender is refused on a stream
    of somebody else, every open stream has an owner, and owners stay apart
    from the four events that set them. *)
From stdpp Require Import base gmap strings list fin_maps sets.
From S2P Require Import Prelude GoStrings JsonValue JsonCodec AguiPatch AguiProjection AguiDemo AguiProps AguiLife.

Open Scope nat_scope.

(** The kind under which the owners of a stream are kept. *)
Definition kind_of (s : stream) : option string :=
  match s with
  | TextStream => Some "message"
  | ReasoningStream | SpanStream => Some "reasoning"
  | ToolStream => Some "tool"
  | StepStream => None
  end.

(** Every open stream has an owner. *)
Definition owned (p : Projection) : Prop :=
  forall s kind id, kind_of s = Some kind -> id ∈ open_streams p s -> is_Some (owners kind p !! id).

(** The stream an event is about. *)
Definition subject (t : EventType) (e : Object) : option (string * string) :=
  match t with
  | TEXT_MESSAGE_START | TEXT_MESSAGE_CONTENT | TEXT_MESSAGE_END => Some ("message", field e "messageId")
  | REASONING_MESSAGE_START | REASONING_MESSAGE_CONTENT | REASONING_MESSAGE_END | REASONING_START | REASONING_END =>
      Some ("reasoning", field e "messageId")
  | TOOL_CALL_START | TOOL_CALL_ARGS | TOOL_CALL_END => Some ("tool", field e "toolCallId")
  | _ => None
  end.

(** The events that give owners anew. *)
Definition reassigns (t : EventType) : bool :=
  bool_decide (t ∈ [RUN_STARTED; MESSAGES_SNAPSHOT; TOOL_CALL_RESULT; ACTIVITY_SNAPSHOT]).

Definition owners_kept (p q : Projection) : Prop :=
  forall kind id o, owners kind p !! id = Some o -> owners kind q !! id = Some o.
Definition owners_known (p q : Projection) : Prop :=
  forall kind id, is_Some (owners kind p !! id) -> is_Some (owners kind q !! id).

Lemma kept_known p q : owners_kept p q -> owners_known p q.
Proof. intros Hk kind id [o Ho]. exists o. by apply Hk. Qed.

Lemma kept_same p q : Owners q = Owners p -> owners_kept p q.
Proof. intros E kind id o. unfold owners. by rewrite E. Qed.

Lemma owners_set_owner kind id o kind' id' p :
  owners kind' (set_owner kind id o p) !! id' = if decide (kind' = kind /\ id' = id) then Some o else owners kind' p !! id'.
Proof.
  unfold set_owner, owners. simpl. destruct (decide (kind' = kind)) as [->|Hk].
  - rewrite lookup_insert_eq. simpl. destruct (decide (id' = id)) as [->|Hi].
    + by rewrite lookup_insert_eq, decide_True.
    + rewrite lookup_insert_ne by done. rewrite decide_False; [done|naive_solver].
  - rewrite lookup_insert_ne by done. rewrite decide_False; [done|naive_solver].
Qed.

Lemma add_owner_kept kind id o p : owners_kept p (add_owner kind id o p).
Proof.
  unfold add_owner. destruct (owners kind p !! id) eqn:E; [by intros ?|]. intros kind' id' o' E'. rewrite owners_set_owner.
  destruct (decide _) as [[-> ->]|]; [congruence|done].
Qed.

Lemma add_owner_lookup kind id o p : owners kind (add_owner kind id o p) !! id = Some (default o (owners kind p !! id)).
Proof.
  unfold add_owner. destruct (owners kind p !! id) eqn:E; [done|]. rewrite owners_set_owner, decide_True by done. done.
Qed.

Lemma set_owner_known kind id o p : owners_known p (set_owner kind id o p).
Proof. intros kind' id' H. rewrite owners_set_owner. destruct (decide _); [by eexists|done]. Qed.

Lemma known_trans p q r : owners_known p q -> owners_known q r -> owners_known p r.
Proof. unfold owners_known. eauto. Qed.

Lemma seed_owner_known b kind id o p : owners_known p (seed_owner b kind id o p).
Proof. destruct b; [apply set_owner_known|]. apply kept_known, add_owner_kept. Qed.

Lemma seedOwners_known ms b p : owners_known p (seedOwners ms b p).
Proof.
  unfold seedOwners. revert p. induction ms as [|m ms IH]; intros p; [by intros ?|]. simpl. apply (known_trans _ (seed_message b p m)); [|apply IH].
  unfold seed_message. apply (known_trans _ (seed_owner b (message_kind m) (field m "id") (ownerKey m) p)); [apply seed_owner_known|].
  generalize (seed_owner b (message_kind m) (field m "id") (ownerKey m) p).
  induction (items_of (get "toolCalls" m)) as [|raw l IHl]; intros q; [by intros ?|]. simpl. destruct raw; try apply IHl.
  eapply known_trans; [apply seed_owner_known|apply IHl].
Qed.

(** What the check of the owner establishes. *)
Lemma checkOwner_agrees kind id e p u o :
  checkOwner kind id e p = Ok u -> tagged e = true -> owners kind p !! id = Some o -> o = ownerKey e.
Proof. unfold checkOwner. intros E Ht Ho. rewrite Ht, Ho in E. by case_bool_decide. Qed.

Lemma checked_owner kind id e p u :
  checkOwner kind id e p = Ok u -> tagged e = true -> default (ownerKey e) (owners kind p !! id) = ownerKey e.
Proof. intros E Ht. destruct (owners kind p !! id) as [o|] eqn:Eo; [|done]. by apply (checkOwner_agrees _ _ _ _ _ _ E Ht Eo). Qed.

(** The outcome for owners of an event on the stream [id] of kind [kind]. *)
Definition respects (kind id : string) (e : Object) (p q : Projection) : Prop :=
  owners_kept p q /\ is_Some (owners kind q !! id) /\ (tagged e = true -> owners kind q !! id = Some (ownerKey e)).

Lemma respects_added kind id e p q u :
  checkOwner kind id e p = Ok u -> Owners q = Owners (add_owner kind id (ownerKey e) p) -> respects kind id e p q.
Proof.
  intros Hc E. assert (owners_kept p q) as Hk.
  { intros k i o Ho. unfold owners. rewrite E. by apply (add_owner_kept kind id (ownerKey e)). }
  assert (owners kind q !! id = Some (default (ownerKey e) (owners kind p !! id))) as Ho.
  { unfold owners at 1. rewrite E. apply add_owner_lookup. }
  split; [done|]. split; [by eexists|]. intros Ht. by rewrite Ho, (checked_owner _ _ _ _ _ Hc Ht).
Qed.

Lemma respects_open kind id e p q u :
  checkOwner kind id e p = Ok u -> is_Some (owners kind p !! id) -> Owners q = Owners p -> respects kind id e p q.
Proof.
  intros Hc [o Ho] E. assert (owners kind q !! id = Some o) as Hq by (unfold owners; by rewrite E).
  split; [by apply kept_same|]. split; [by eexists|]. intros Ht. rewrite Hq. f_equal. by apply (checkOwner_agrees _ _ _ _ _ _ Hc Ht).
Qed.

(** ** The handlers *)
Section Handlers.
Context (ValidateEvent : json -> bool) (apply_library : json -> json -> option json).
Implicit Types (e : Object) (p q : Projection).

Lemma start_message_respects r e p q :
  start_message r e p = Ok q -> respects (stream_kind r) (field e "messageId") e p q.
Proof.
  unfold start_message. destruct (opened r p !! _) eqn:Eo; [done|]. intros E. apply bind_ok in E as (u & Hc & E).
  apply (respects_added _ _ _ _ _ u Hc). destruct (message _ _); injection E as <-; by destruct r.
Qed.

Lemma continue_message_respects r e p q k :
  owned p -> (forall id q, Owners (k id q) = Owners q) ->
  continue_message r e p k = Ok q -> respects (stream_kind r) (field e "messageId") e p q.
Proof.
  intros Ho Hk E. pose proof E as Hin. apply continue_message_in in Hin as [Hin _]. unfold continue_message in E.
  destruct (opened r p !! _) eqn:Eo; [|done]. apply bind_ok in E as (u & Hc & [= <-]).
  apply (respects_open _ _ _ _ _ u Hc); [|apply Hk]. apply (Ho (message_stream r)); [by destruct r|done].
Qed.

Lemma append_content_Owners e id q : Owners (append_content e id q) = Owners q.
Proof. unfold append_content. destruct (message _ _) as [m|]; [|done]. by destruct (is_role "activity" m). Qed.
Lemma close_message_Owners r id q : Owners (close_message r id q) = Owners q.
Proof. by destruct r. Qed.

Lemma start_tool_respects e p q : start_tool e p = Ok q -> respects "tool" (field e "toolCallId") e p q.
Proof.
  unfold start_tool. destruct (Tools p !! _) eqn:Eo; [done|].
  set (po := if present e "parentMessageId" then _ else _). destruct (match po with Some _ => _ | None => _ end) eqn:Ep; [done|].
  intros E. apply bind_ok in E as (u & Hc & E).
  destruct (match owners "tool" p !! _ with Some _ => _ | None => _ end); [done|].
  set (o := match owners "tool" p !! _ with Some _ => _ | None => _ end) in E.
  set (p1 := add_owner _ _ _ p) in E. set (p2 := set_Tools _ p1) in E.
  assert (Owners q = Owners p1) as Eq.
  { destruct (tool _ (Messages p2)) as [call|]; [|by injection E as <-].
    destruct (set_function _ _ call); [|done]. by injection E as <-. }
  assert (owners "tool" q !! field e "toolCallId" = Some o) as Ho.
  { unfold owners at 1. rewrite Eq. etrans; [apply add_owner_lookup|]. unfold o. by destruct (owners "tool" p !! _). }
  split; [|split; [by eexists|]].
  - intros k i o' Ho'. unfold owners. rewrite Eq. by apply add_owner_kept.
  - intros Ht. rewrite Ho. f_equal. unfold o. destruct (owners "tool" p !! _) as [o'|] eqn:Ek.
    + by apply (checkOwner_agrees _ _ _ _ _ _ Hc Ht Ek).
    + destruct po; [|done]. by rewrite Ht.
Qed.

Lemma tool_args_respects e p q : owned p -> tool_args e p = Ok q -> respects "tool" (field e "toolCallId") e p q.
Proof.
  intros Ho. unfold tool_args. destruct (Tools p !! _) eqn:Eo; [|done]. intros E. apply bind_ok in E as (u & Hc & E).
  apply (respects_open _ _ _ _ _ u Hc); [by apply (Ho ToolStream); [|eapply in_dom]|].
  destruct (tool _ _) as [call|]; [|by injection E as <-]. destruct (set_function _ _ call); [|done]. by injection E as <-.
Qed.

Lemma end_tool_respects e p q : owned p -> end_tool e p = Ok q -> respects "tool" (field e "toolCallId") e p q.
Proof.
  intros Ho. unfold end_tool. destruct (Tools p !! _) eqn:Eo; [|done]. intros E. apply bind_ok in E as (u & Hc & [= <-]).
  apply (respects_open _ _ _ _ _ u Hc); [by apply (Ho ToolStream); [|eapply in_dom]|done].
Qed.

Lemma start_reasoning_respects e p q : start_reasoning e p = Ok q -> respects "reasoning" (field e "messageId") e p q.
Proof.
  unfold start_reasoning. destruct (Reasoning p !! _) eqn:Eo; [done|]. intros E. apply bind_ok in E as (u & Hc & [= <-]).
  by apply (respects_added _ _ _ _ _ u Hc).
Qed.

Lemma end_reasoning_respects e p q : owned p -> end_reasoning e p = Ok q -> respects "reasoning" (field e "messageId") e p q.
Proof.
  intros Ho. unfold end_reasoning. destruct (Reasoning p !! _) eqn:Eo; [|done]. intros E. apply bind_ok in E as (u & Hc & [= <-]).
  apply (respects_open _ _ _ _ _ u Hc); [by apply (Ho SpanStream); [|eapply in_dom]|done].
Qed.

Lemma handle_respects t e p q kind id :
  owned p -> subject t e = Some (kind, id) -> handle ValidateEvent apply_library t e p = Ok q -> respects kind id e p q.
Proof.
  intros Ho Hs. destruct t; try discriminate Hs; injection Hs as <- <-; cbn [handle];
    eauto using start_tool_respects, tool_args_respects, end_tool_respects, start_reasoning_respects, end_reasoning_respects.
  - apply (start_message_respects false).
  - apply (continue_message_respects false _ _ _ _ Ho). apply append_content_Owners.
  - apply (continue_message_respects false _ _ _ _ Ho). apply close_message_Owners.
  - apply (start_message_respects true).
  - apply (continue_message_respects true _ _ _ _ Ho). apply append_content_Owners.
  - apply (continue_message_respects true _ _ _ _ Ho). apply close_message_Owners.
Qed.

Lemma encrypted_value_Owners e p q : encrypted_value e p = Ok q -> Owners q = Owners p.
Proof.
  unfold encrypted_value. intros E. apply bind_ok in E as (_ & _ & E). case_bool_decide; [|by injection E as <-].
  destruct (message _ _) as [m|]; [|by injection E as <-]. injection E as <-. by destruct (is_role "activity" m).
Qed.

Lemma activity_delta_Owners e p q : activity_delta ValidateEvent apply_library e p = Ok q -> Owners q = Owners p.
Proof.
  unfold activity_delta. intros E. apply bind_ok in E as (_ & _ & E). destruct (message _ _) as [m|]; [|by injection E as <-].
  destruct (is_role "activity" m); [|by injection E as <-]. destruct (patch _ _ _ _) as [v|]; [|done].
  destruct v; try done. by injection E as <-.
Qed.

Lemma end_run_Owners failed e p q : end_run failed e p = Ok q -> Owners q = Owners p.
Proof. unfold end_run. intros E. by repeat (case_match; simplify_eq). Qed.

(** An event without a subject either gives owners anew or leaves them. *)
Lemma handle_Owners t e p q :
  subject t e = None -> reassigns t = false -> handle ValidateEvent apply_library t e p = Ok q -> Owners q = Owners p.
Proof.
  destruct t; try done; intros _ _; cbn [handle]; eauto using encrypted_value_Owners, activity_delta_Owners, end_run_Owners.
  - by intros [= <-].
  - destruct (patch _ _ _ _); [|done]. by intros [= <-].
  - unfold start_step. case_bool_decide; [done|]. by intros [= <-].
  - unfold finish_step. case_bool_decide; [|done]. by intros [= <-].
  - unfold start_subagent. destruct (Subagents p !! _); [done|]. destruct (_ && _); [done|]. by intros [= <-].
  - unfold finish_subagent. destruct (default _ _); [|done]. by intros [= <-].
  - unfold finish_subagent. destruct (default _ _); [|done]. by intros [= <-].
  - by intros [= <-].
  - by intros [= <-].
Qed.

Lemma handle_reassigns_known t e p q :
  reassigns t = true -> t <> RUN_STARTED -> handle ValidateEvent apply_library t e p = Ok q -> owners_known p q.
Proof.
  destruct t; try done; intros _ Hs; cbn [handle]; try done.
  - intros [= <-]. by apply set_owner_known.
  - unfold replaceHistory. destruct (objects_of _) as [incoming|]; [|done]. destruct (keep_history _ _ _ _ _). intros [= <-].
    by apply seedOwners_known.
  - intros [= <-]. unfold activity_snapshot. set (p1 := add_owner _ _ _ p).
    apply (known_trans _ p1); [by apply kept_known, add_owner_kept|].
    destruct (message _ _); [case_bool_decide; [by intros ?|]|]; intros kind id Hk; apply set_owner_known; exact Hk.
Qed.

Lemma handle_known t e p q :
  owned p -> t <> RUN_STARTED -> handle ValidateEvent apply_library t e p = Ok q -> owners_known p q.
Proof.
  intros Ho Hs E. destruct (reassigns t) eqn:Er; [by eapply handle_reassigns_known|]. apply kept_known.
  destruct (subject t e) as [[kind id]|] eqn:Esub; [by eapply handle_respects|]. by eapply kept_same, handle_Owners.
Qed.

(** The streams a move leaves open are those that were, and the one it opens. *)
Lemma lives_opens mv p q s id :
  lives_to mv p q -> id ∈ open_streams q s -> mv = Open s id \/ (mv <> StartRun /\ id ∈ open_streams p s).
Proof.
  intros Hl Hin. change (id ∈ open (life q) s) in Hin. change (open_streams p s) with (open (life p) s).
  destruct Hl as [l l' _ _ _ Ho _|l l' _ _ _ _ _ _ Ho|l l' _ _ _ _ Ho|s0 i l l' _ _ (_&_&_&Ho)|s0 i l l' _ _ (_&_&_&Ho)
    |s0 i l l' _ _ (_&_&_&Ho)|i parent l l' _ _ _ _ _ Ho _|i l l' _ _ _ _ Ho _|l l' _ (_&_&_&Ho)]; rewrite Ho in Hin;
    try (by right); try set_solver; destruct (decide (s = s0)) as [->|]; set_solver.
Qed.

Lemma move_of_Open t e s kind id : move_of t e = Open s id -> kind_of s = Some kind -> subject t e = Some (kind, id).
Proof. destruct t; try discriminate; intros [= <- <-] [= <-]; done. Qed.

Lemma Owners_merge_deferred t e p : Owners (merge_deferred t e p) = Owners p.
Proof. by destruct t. Qed.

(** C18: owners are respected. An accepted event keeps every open stream owned;
    one that names its sender and is about a message, reasoning message, span
    or tool call leaves that sender as its owner, so the streams of another run
    or subagent are out of its reach; and owners once recorded are only changed
    by the start of a run, a snapshot of the messages or of an activity, and
    the result of a tool call. *)
Theorem owners_respected e p q t :
  owned p -> apply_event ValidateEvent apply_library e p = Ok q -> event_type (field e "type") = Some t ->
  owned q
  /\ (forall kind id, tagged e = true -> subject t e = Some (kind, id) -> owners kind q !! id = Some (ownerKey e))
  /\ (reassigns t = false -> forall kind id o, owners kind p !! id = Some o -> owners kind q !! id = Some o).
Proof.
  intros Ho E Et. pose proof (apply_event_lives _ _ _ _ _ E) as (mv & Em & Hl).
  unfold event_move in Em. rewrite Et in Em. injection Em as <-. unfold apply_event in E. rewrite Et in E.
  destruct (_ && _); [done|]. destruct (_ && _ && _); [done|]. apply bind_ok in E as (p1 & E & [= <-]).
  assert (forall kind, owners kind (merge_deferred t e p1) = owners kind p1) as Eo.
  { intros kind. unfold owners. by rewrite Owners_merge_deferred. }
  split; [|split].
  - intros s kind id Hk Hin. rewrite Eo. apply (lives_opens _ _ _ _ _ Hl) in Hin as [Hin|[Hs Hin]].
    + by apply (handle_respects t e p p1); [done|by eapply move_of_Open|].
    + apply (handle_known t e p); [done|by intros ->|done|by eapply Ho].
  - intros kind id Ht Hs. rewrite Eo. by eapply handle_respects.
  - intros Hr kind id o Hp. rewrite Eo. destruct (subject t e) as [[k i]|] eqn:Es; [by eapply handle_respects|].
    by eapply kept_same; [eapply handle_Owners|].
Qed.
End Handlers.

Definition demo_event (typ : string) (fields : list (string * string)) : Object := default [] (object (Some (Demo.event typ fields))).
Definition demo_running : Projection :=
  match play [Demo.start; Demo.event "SUBAGENT_STARTED" [("subagentRunId", "s")]] Demo.fresh with Ok (q, _) => q | Err _ => Demo.fresh end.
Definition demo_started : Object := demo_event "TEXT_MESSAGE_START" [("messageId", "m"); ("subagentRunId", "s")].

Lemma demo_running_owned : owned demo_running.
Proof.
  intros s kind id Hk Hin. exfalso. revert Hin. assert (open_streams demo_running s = ∅) as -> by (by destruct s; vm_compute).
  set_solver.
Qed.

Lemma owners_respected_witness :
  exists q, apply_event accept rfc6902 demo_started demo_running = Ok q /\ owned q /\ owners "message" q !! "m" = Some "tag:s".
Proof.
  eexists. split; [vm_compute; reflexivity|].
  pose proof (fun q E => owners_respected accept rfc6902 demo_started demo_running q TEXT_MESSAGE_START demo_running_owned E eq_refl) as H.
  edestruct H as (Ho & Hs & _); [vm_compute; reflexivity|]. split; [exact Ho|]. by apply (Hs "message" "m").
Defined.
