(* ===== verification/AguiWedge.v ===== *)
(** * A lane that lost its message

    The lane of a chunked message is closed by the events of its own sender. An
    untagged end event closes the message of a subagent and leaves the lane; the
    events that close every lane then all fail, the end of the run and a run
    error among them. *)
From stdpp Require Import base gmap strings list fin_maps sets.
From S2P Require Import Prelude GoStrings JsonValue JsonCodec AguiPatch AguiProjection AguiDemo AguiProps AguiLife AguiOwners.

Open Scope nat_scope.

(** A lane of a text message that is not open. *)
Definition orphan_lane (key : string) (p : Projection) : Prop :=
  key ∈ ChunkOrder p
  /\ exists c, Chunks p !! key = Some c /\ Kind c = "TEXT_MESSAGE" /\ ChunkID c ∉ open_streams p TextStream.

Lemma closing_of_lane keys key c p :
  key ∈ keys -> Chunks p !! key = Some c -> closing c ∈ (closeLanes keys p).1.
Proof.
  revert p. induction keys as [|k keys IH]; intros p Hin Hc; [by apply not_elem_of_nil in Hin|]. simpl.
  destruct (decide (key = k)) as [<-|Hne].
  - unfold closeLane. rewrite Hc. destruct (closeLanes keys _) as [rest q]. apply elem_of_app. left. apply list_elem_of_singleton. done.
  - apply elem_of_cons in Hin as [|Hin]; [done|]. assert (Chunks (closeLane k p).2 !! key = Some c) as Hc'.
    { unfold closeLane. destruct (Chunks p !! k); [|done]. simpl. by rewrite lookup_delete_ne by done. }
    specialize (IH (closeLane k p).2 Hin Hc'). destruct (closeLane k p) as [out q]. simpl in IH.
    destruct (closeLanes keys q) as [rest r]. apply elem_of_app. by right.
Qed.

(** The events of closed lanes are end events. *)
Definition ends (e : Object) : Prop := HasSuffix (field e "type") "_END" = true.

Lemma ends_type e k : get "type" e = Some (JString (k +:+ "_END")) -> ends e.
Proof. intros E. unfold ends, field, text_field. rewrite E. unfold HasSuffix. rewrite bytes_app, rev_app_distr. reflexivity. Qed.

Lemma closing_type c : get "type" (closing c) = Some (JString (Kind c +:+ "_END")).
Proof. unfold closing. rewrite get_inherit by set_solver. apply (get_type_pair (Kind c) (ChunkID c)). Qed.

Lemma closing_id c : Kind c = "TEXT_MESSAGE" -> field (closing c) "messageId" = ChunkID c.
Proof. intros Hk. unfold closing. rewrite field_inherit by set_solver. by rewrite Hk. Qed.

Lemma closeLanes_ends keys p : Forall ends (closeLanes keys p).1.
Proof.
  revert p. induction keys as [|k keys IH]; intros p; [constructor|]. simpl.
  assert (Forall ends (closeLane k p).1) as Hk.
  { unfold closeLane. destruct (Chunks p !! k) as [c|]; [|constructor]. repeat constructor. apply (ends_type _ (Kind c)), closing_type. }
  destruct (closeLane k p) as [out q]. specialize (IH q). destruct (closeLanes keys q) as [rest r]. by apply list.Forall_app.
Qed.

Section Wedge.
Context (ValidateEvent : json -> bool) (apply_library : json -> json -> option json).

Lemma ends_not_start e t : ends e -> event_type (field e "type") = Some t -> t <> TEXT_MESSAGE_START.
Proof.
  unfold ends. intros He E. apply get_In in E. revert He E. generalize (field e "type"). intros typ He E.
  repeat (destruct E as [[= <- <-]|E]; [discriminate|]). destruct E.
Qed.

(** A message that is not open stays so through end events. *)
Lemma ends_keep_closed e p q id :
  ends e -> apply_event ValidateEvent apply_library e p = Ok q -> id ∉ open_streams p TextStream -> id ∉ open_streams q TextStream.
Proof.
  intros He E Hid Hin. apply apply_event_lives in E as (mv & Em & Hl).
  unfold event_move in Em. destruct (event_type (field e "type")) as [t|] eqn:Et; [|done]. injection Em as <-.
  apply (lives_opens _ _ _ _ _ Hl) in Hin as [Hin|[_ Hin]]; [|done].
  apply (ends_not_start e t He Et). destruct t; try discriminate Hin. done.
Qed.

Lemma closing_refused c p :
  Kind c = "TEXT_MESSAGE" -> ChunkID c ∉ open_streams p TextStream ->
  exists err, apply_event ValidateEvent apply_library (closing c) p = Err err.
Proof.
  intros Hk Hid. destruct (apply_event _ _ (closing c) p) as [q|err] eqn:E; [|by eexists]. exfalso.
  apply apply_event_lives in E as (mv & Em & Hl). unfold event_move in Em.
  assert (field (closing c) "type" = "TEXT_MESSAGE_END") as Ht by (unfold field, text_field; by rewrite closing_type, Hk).
  rewrite Ht in Em. injection Em as <-. unfold lives_to in Hl. cbn [move_of] in Hl. rewrite closing_id in Hl by done.
  by inversion Hl.
Qed.

Lemma ends_refused out e c p :
  Forall ends out -> closing c ∈ out -> Kind c = "TEXT_MESSAGE" -> ChunkID c ∉ open_streams p TextStream ->
  exists err, apply_all ValidateEvent apply_library (out ++ [e]) p = Err err.
Proof.
  revert p. induction out as [|x out IH]; intros p Ho Hin Hk Hid; [by apply not_elem_of_nil in Hin|].
  apply list.Forall_cons in Ho as [Hx Ho]. cbn [apply_all app]. destruct (ValidateEvent _); [|by eexists].
  destruct (apply_event _ _ x p) as [q|err] eqn:E; [|by eexists]. cbn [mbind result_bind].
  apply elem_of_cons in Hin as [<-|Hin].
  - destruct (closing_refused c p Hk Hid) as [err Er]. congruence.
  - apply IH; [done|done|done|]. by eapply ends_keep_closed.
Qed.

(** The lanes an event closes. *)
Definition closes_lane (e : Object) (key : string) : Prop :=
  match closes (field e "type") with AllLanes => True | OwnLane => ownerKey e = key | NoLane => False end.

(** an orphan lane blocks the run. While a lane is open for a text message
    that is not, every event that closes the lane (the end of the run, a run
    error, a new run, a snapshot of the messages, and what its sender does next)
    is refused and the projection is left as it was. *)
Lemma orphan_lane_blocks lanes e key p :
  orphan_lane key p -> plain e -> closes_lane e key ->
  exists err, Apply ValidateEvent apply_library lanes (JObject e) p = (p, Err err).
Proof.
  intros (Hin & c & Hc & Hk & Hid) He Hcl. unfold Apply. destruct (ValidateEvent (JObject e)); [|by eexists].
  cbn [object_of]. unfold normalize. rewrite He. unfold closes_lane in Hcl.
  assert (forall keys, key ∈ keys -> exists err, apply_all ValidateEvent apply_library ((closeLanes keys p).1 ++ [e]) (closeLanes keys p).2 = Err err) as H.
  { intros keys Hkeys. apply (ends_refused _ _ c); [apply closeLanes_ends|by eapply closing_of_lane|done|].
    change (ChunkID c ∉ open (life (closeLanes keys p).2) TextStream). by rewrite (life_bare _ _ (closeLanes_bare keys p)). }
  destruct (closes (field e "type")); [| |done].
  - destruct (H _ Hin) as [err Er]. destruct (closeLanes (ChunkOrder p) p) as [out q]. cbn [mbind result_bind fst snd] in *.
    rewrite Er. by eexists.
  - destruct (H [key] (list_elem_of_here _ _)) as [err Er]. cbn [closeLanes] in Er. subst key.
    destruct (closeLane (ownerKey e) p) as [out q]. cbn [mbind result_bind fst snd] in *. rewrite app_nil_r in Er. rewrite Er. by eexists.
Qed.
End Wedge.

(** A subagent streams a message in chunks; somebody ends it without a tag. *)
Definition orphan_events : list json :=
  [Demo.start;
   Demo.event "SUBAGENT_STARTED" [("subagentRunId", "s")];
   Demo.event "TEXT_MESSAGE_CHUNK" [("messageId", "m"); ("subagentRunId", "s"); ("delta", "Hello")];
   Demo.event "TEXT_MESSAGE_END" [("messageId", "m")]].
Definition orphan_projection : Projection := match play orphan_events Demo.fresh with Ok (p, _) => p | Err _ => Demo.fresh end.
Definition run_error : json := Demo.event "RUN_ERROR" [("message", "stopped")].
Definition plain_event (event : json) : Object := default [] (object (Some event)).

Lemma orphan_lane_blocks_witness :
  (exists outs, play orphan_events Demo.fresh = Ok (orphan_projection, outs))
  /\ orphan_lane "tag:s" orphan_projection
  /\ exists err, Apply accept rfc6902 [] run_error orphan_projection = (orphan_projection, Err err).
Proof.
  assert (orphan_lane "tag:s" orphan_projection) as Ho.
  { split; [by apply list_elem_of_here|]. eexists. split; [vm_compute; reflexivity|]. split; [reflexivity|].
    assert (open_streams orphan_projection TextStream = ∅) as -> by (vm_compute; reflexivity). set_solver. }
  split; [eexists; vm_compute; reflexivity|]. split; [exact Ho|].
  by apply (orphan_lane_blocks accept rfc6902 [] (plain_event run_error) "tag:s").
Defined.
