(* ===== verification/AguiNative.v ===== *)
(** * Native events and the events on the wire

    src/runtime/streaming/event.go as far as the AG-UI translator reads it, the
    events the translator makes (src/protocol/agui/types.go, event_compat.go),
    and the presentation metadata it adds to them
    (src/protocol/agui/translator_presentation.go). *)
From stdpp Require Import base gmap strings list.
From Stdlib Require Import ZArith Ascii.
From S2P Require Import Prelude GoStrings GoJson CanonicalNumber JsonValue JsonCodec Cron AguiPatch AguiProjection.

Open Scope Z_scope.

(** ** Native events

    The types of a native event, but for [protocol]: an event of that type is an
    AG-UI event of a producer, which [AguiBridge.v] translates. It is modelled as
    its other fields with the bytes it carries beside them, and has no type here. *)
Inductive NativeType :=
| EventTypeTextDelta | EventTypeReasoningDelta | EventTypeReasoningEncrypted | EventTypeToolCallDelta
| EventTypeError | EventTypeControl | EventTypeTurnStarted | EventTypeTurnCompleted | EventTypeTurnFailed | EventTypeTurnCanceled
| EventTypeTurnQueued | EventTypeModelStarted | EventTypeModelCompleted | EventTypeNarration | EventTypeAssistant
| EventTypeToolCallsPlanned | EventTypeToolCallStarted | EventTypeToolCallWaiting | EventTypeToolCallCompleted
| EventTypeToolCallFailed | EventTypeToolCallCanceled | EventTypeItemCompleted | EventTypeUsage
| EventTypeElicitationRequested | EventTypeElicitationResolved | EventTypeLinkedConversationAttached
| EventTypeSkillStarted | EventTypeSkillCompleted | EventTypeSkillRegistryUpdated
| EventTypeIntakeWorkspaceCompleted | EventTypeIntakeWorkspaceFailed
| EventTypePlannerSelected | EventTypePlannerOutput | EventTypePlannerValidated | EventTypePlannerFailed
| EventTypeToolFeedActive | EventTypeToolFeedInactive | EventTypeConversationMetaUpdated
| EventTypeGoalUpdated | EventTypeGoalCleared | EventTypeGoalControllerScheduled | EventTypeStreamOverflow.

#[export] Instance native_type_dec : EqDecision NativeType.
Proof. solve_decision. Defined.

(** The strings of the types the translator writes out. *)
Definition type_text (t : NativeType) : string :=
  match t with
  | EventTypeNarration => "narration"
  | EventTypeToolCallWaiting => "tool_call_waiting"
  | EventTypePlannerSelected => "planner.selected"
  | EventTypePlannerOutput => "planner.output"
  | EventTypePlannerValidated => "planner.validated"
  | EventTypePlannerFailed => "planner.failed"
  | _ => ""
  end.

Record EventModel := mkEventModel { Model_Provider : string; Model_Model : string }.
Record PlannedToolCall := mkPlanned { Planned_ToolCallID : string; Planned_ToolName : string }.
Record UsageSnapshot := mkUsage {
  CacheWriteInputTokens : Z; Scope : string; InputTokens : Z; OutputTokens : Z; CachedInputTokens : Z; ReasoningTokens : Z;
  EmbeddingTokens : Z; TotalTokens : Z
}.

(** A Go value on its way to [json.Marshal]: what it is written as, or none
    when it cannot be. *)
Definition marshaled : Type := option json.

Record NativeEvent := mkNative {
  EventOf : NativeType;                     (* Type *)
  ID : string;
  ConversationID : string;
  TurnID : string;
  MessageID : string;
  EventSeq : Z;
  AgentIDUsed : string;
  AgentName : string;
  AssistantMessageID : string;
  ParentMessageID : string;
  ResponseID : string;
  OperationID : string;
  ReasoningMessageID : string;
  ReasoningSpanID : string;
  EncryptedValue : string;
  EncryptedEntityID : string;
  EncryptedSubtype : string;
  ToolCallID : string;
  ToolMessageID : string;
  RequestPayloadID : string;
  ResponsePayloadID : string;
  ProviderRequestPayloadID : string;
  ProviderResponsePayloadID : string;
  StreamPayloadID : string;
  LinkedConversationID : string;
  LinkedConversationAgentID : string;
  LinkedConversationTitle : string;
  ExecutionRole : string;
  Phase : string;
  PageID : string;
  Mode : string;
  Patch : list (string * json);
  Content : string;
  ContentMode : string;
  ContentOffset : option Z;
  RenderedContent : option json;
  Narration : string;
  NarrationSource : string;
  ToolName : string;
  Arguments : option marshaled;
  ErrorText : string;                       (* Error *)
  Status : string;
  Iteration : Z;
  PageIndex : Z;
  PageCount : Z;
  LatestPage : bool;
  Model : option EventModel;
  Usage : option UsageSnapshot;
  ToolCallsPlanned : list PlannedToolCall;
  CreatedAt : Z;                            (* 0 is the zero time *)
  ResponsePayload : option marshaled;
  CompletedAt : option Z;
  StartedAt : option Z;
  QueueSeq : Z;
  StartedByMessageID : string;
  QueueOrigin : string;
  GoalID : string;
  StatusReason : string;
  ModelCallID : string;
  Provider : string;
  ModelName : string;
  FeedID : string;
  FeedTitle : string;
  FeedDeveloperOnly : bool;
  FeedIcon : string;
  FeedAccent : string;
  FeedTarget : string;
  FeedItemCount : Z;
  FeedData : option json;
  PlannerTrigger : string;
  PlannerStaticProfile : string;
  PlannerStrategyFamily : string;
  PlannerAttempt : Z;
  PlannerValidated : option bool;
  PlannerSecondPolicy : string;
  PlannerOutputPayloadID : string;
  UsageInputTokens : Z;
  UsageOutputTokens : Z;
  UsageEmbeddingTokens : Z;
  UsageTotalTokens : Z
}.

(** [IsInternalMessageMode] *)
Definition IsInternalMessageMode (mode : string) : bool :=
  bool_decide (ToLower (TrimSpace mode) ∈ ["router"; "chain"]).

(** [ToolStatusPending] *)
Definition ToolStatusPending (status : string) : bool :=
  bool_decide (ToLower (TrimSpace status) ∈ ["queued"; "pending"; "waiting"; "waiting_for_user"; "blocked"]).

(** The first of the strings that is not empty. *)
Fixpoint first_set (ss : list string) : string :=
  match ss with
  | [] => ""
  | s :: ss => if bool_decide (s = "") then first_set ss else s
  end.

Definition modelIdentity (e : NativeEvent) : string :=
  first_set [ModelCallID e; AssistantMessageID e; MessageID e; ID e; ResponseID e].

(** The provider and model of the event, from its own fields or its model. *)
Definition provider_of (e : NativeEvent) : string :=
  first_set [Provider e; match Model e with Some m => Model_Provider m | None => "" end].
Definition model_of (e : NativeEvent) : string :=
  first_set [ModelName e; match Model e with Some m => Model_Model m | None => "" end].

(** ** Events on the wire *)
Definition int_text (z : Z) : string := text (FormatInt z).
Definition number (z : Z) : json := JNumber (int_text z).
Definition str (key v : string) : string * json := (key, JString v).
Definition obj (members : list (string * json)) : json := JObject (of_members members).

(** An [Event]: the object it is marshalled to, whether it carries a [Standard]
    variant, and whether its lanes were already advanced. *)
Record Event := mkEvent { wire : list (string * json); standard : bool; applied : bool }.

Definition type_of (ev : Event) : string := field (wire ev) "type".

(** [standardEvent] *)
Definition standardEvent (members : list (string * json)) : Event := mkEvent (of_members members) true true.

(** The struct with the fields of the producer, whose empty strings are left out. *)
Definition unset (m : string * json) : bool := bool_decide (m.2 = JString "").
Definition plain_event (typ : string) (members : list (string * json)) : Event :=
  mkEvent (of_members (str "type" typ :: filter (fun m => unset m = false) members)) false false.

Definition scopedBoundary (kind key id owner : string) : Event :=
  standardEvent ([str "type" kind; str key id] ++ (if bool_decide (owner = "") then [] else [str "subagentRunId" owner])).

(** ** Presentation metadata *)

(** [t.UTC().Format("2006-01-02T15:04:05.999999999Z07:00")] *)
Definition padded (width : nat) (z : Z) : list ascii :=
  let ds := FormatInt z in replicate (width - length ds) "0"%char ++ ds.
Definition format_utc (t : Z) : string :=
  let '(y, m, d) := civil (local_day UTC t) in
  let ns := t mod Second in
  let fraction := rev (drop_zeros (rev (padded 9 ns))) in
  text (padded 4 y ++ "-"%char :: padded 2 m ++ "-"%char :: padded 2 d ++ "T"%char ::
        padded 2 (clock_hour UTC t) ++ ":"%char :: padded 2 (clock_minute UTC t) ++ ":"%char :: padded 2 (local_seconds UTC t mod 60)
        ++ (if bool_decide (ns = 0) then [] else "."%char :: fraction) ++ ["Z"%char]).

Definition put_text (key v : string) (o : list (string * json)) : list (string * json) :=
  if bool_decide (v = "") then o else put key (JString v) o.
Definition put_first (key v : string) (o : list (string * json)) : list (string * json) :=
  match get key o with None => put_text key v o | Some _ => o end.
Definition put_time (key : string) (t : option Z) (o : list (string * json)) : list (string * json) :=
  match t with Some t => put key (JString (format_utc t)) o | None => o end.
Definition put_all (members : list (string * json)) (o : list (string * json)) : list (string * json) :=
  foldl (fun o '(k, v) => put k v o) o members.

Definition set_time (t : Z) : option Z := if time_is_zero t then None else Some t.

Definition standalone (e : NativeEvent) : bool :=
  bool_decide (EventOf e = EventTypeAssistant /\ ModelCallID e = "" /\ PageID e = "" /\ get "role" (Patch e) <> Some (JString "user")
               /\ get "agentlyProjectionSnapshot" (Patch e) <> Some (JBool true)) && negb (IsInternalMessageMode (Mode e)).

Definition usage_presentation (u : UsageSnapshot) : list (string * json) :=
  [("inputTokens", number (InputTokens u)); ("outputTokens", number (OutputTokens u));
   ("cachedInputTokens", number (CachedInputTokens u)); ("reasoningTokens", number (ReasoningTokens u));
   ("embeddingTokens", number (EmbeddingTokens u)); ("totalTokens", number (TotalTokens u));
   ("cacheWriteInputTokens", number (CacheWriteInputTokens u))].

Definition nativePresentation (e : NativeEvent) : list (string * json) :=
  let modelEvent := bool_decide (EventOf e = EventTypeModelStarted \/ EventOf e = EventTypeModelCompleted) in
  let pendingTool :=
    bool_decide (EventOf e = EventTypeToolCallWaiting) || (bool_decide (ToolCallID e <> "") && ToolStatusPending (Status e)) in
  let o := of_members [str "version" "1"] in
  let o := put_text "conversationId" (ConversationID e) o in
  let o := put_text "nativeTurnId" (TurnID e) o in
  let o := put_text "nativeMessageId" (AssistantMessageID e) o in
  let o := put_first "nativeMessageId" (MessageID e) o in
  let o := if standalone e then put "messageKind" (JString "standalone") o else o in
  let o := put_text "parentMessageId" (ParentMessageID e) o in
  let o := if bool_decide (EventOf e = EventTypeModelStarted) then put_text "nativeUserMessageId" (ParentMessageID e) o else o in
  let o := put_text "pageId" (PageID e) o in
  let o := put_text "modelCallId" (ModelCallID e) o in
  let o := if modelEvent then put_first "modelCallId" (modelIdentity e) o else o in
  let o := put_text "nativeToolCallId" (ToolCallID e) o in
  let o := put_text "toolMessageId" (ToolMessageID e) o in
  let o := put_text "executionRole" (ExecutionRole e) o in
  let o := put_text "phase" (Phase e) o in
  let o := put_text "mode" (Mode e) o in
  let o := put_text "status" (Status e) o in
  let o := put_text "agentId" (AgentIDUsed e) o in
  let o := put_text "agentName" (AgentName e) o in
  let o := put_text "provider" (provider_of e) o in
  let o := put_text "model" (model_of e) o in
  let o := put_text "requestPayloadId" (RequestPayloadID e) o in
  let o := put_text "responsePayloadId" (ResponsePayloadID e) o in
  let o := put_text "providerRequestPayloadId" (ProviderRequestPayloadID e) o in
  let o := put_text "providerResponsePayloadId" (ProviderResponsePayloadID e) o in
  let o := put_text "streamPayloadId" (StreamPayloadID e) o in
  let o := put_time "createdAt" (set_time (CreatedAt e)) o in
  let o := if pendingTool then o else put_time "completedAt" (CompletedAt e) (put_time "startedAt" (StartedAt e) o) in
  let o := put "iteration" (number (Iteration e)) o in
  let o := if bool_decide (PageID e <> "") then
             put_all [("pageIndex", number (PageIndex e)); ("pageCount", number (PageCount e)); ("latestPage", JBool (LatestPage e))] o
           else o in
  match Usage e with
  | Some u => put_all (usage_presentation u) (put_text "usageScope" (Scope u) o)
  | None => o
  end.

(** The milliseconds since the Unix epoch. *)
Definition unix_epoch : Z := 62135596800 * Second.
Definition UnixMilli (t : Z) : Z := (t - unix_epoch) / Millisecond.

Section Annotate.
Context (ValidateEvent : json -> bool).

(** The object an event is marshalled to, once its timestamp is set. *)
Definition stamped (e : NativeEvent) (ev : Event) : option (list (string * json)) :=
  let stamp := if time_is_zero (CreatedAt e) then 0 else UnixMilli (CreatedAt e) in
  let w := if bool_decide (stamp = 0) then wire ev else put "timestamp" (number stamp) (wire ev) in
  if standard ev && negb (ValidateEvent (JObject w)) then None else Some w.

Definition annotateNativePresentation (ev : Event) (e : NativeEvent) : Event :=
  match stamped e ev with
  | None => ev
  | Some w =>
      let metadata := default [] (object (get "metadata" w)) in
      let agently := default [] (object (get "agently" metadata)) in
      let presentation := nativePresentation e in
      let presentation :=
        if bool_decide (type_of ev = "TOOL_CALL_RESULT" /\ ToolMessageID e <> "")
        then put "nativeMessageId" (JString (ToolMessageID e)) presentation else presentation in
      let agently := put "presentation" (JObject presentation) agently in
      mkEvent (put "metadata" (JObject (put "agently" (JObject agently) metadata)) w) true true
  end.
End Annotate.

#[global] Arguments nativePresentation : simpl never.
#[global] Arguments annotateNativePresentation : simpl never.
