(* ===== verification/AguiTranslator.v ===== *)
(** * The AG-UI translator: its state and its message graph

    src/protocol/agui/translator.go, translator_model.go, translator_history.go
    and translator_restore.go: the lanes a run has open, the graph of messages
    it has built, and [captureStandard], which keeps both up with the events
    that were emitted or that a journal holds. *)
From stdpp Require Import base gmap strings list sorting.
From Stdlib Require Import ZArith Ascii.
From S2P Require Import Prelude GoStrings GoJson CanonicalNumber JsonValue JsonCodec AguiPatch AguiProjection AguiNative.

Open Scope Z_scope.

Notation Object := (list (string * json)) (only parsing).

(** ** The state *)
Record textState := mkText { text_subagent : string; content : string; text_ended : bool }.
Record toolState := mkTool {
  executionPresentation : option (list (string * json));
  tool_subagent : string;
  args : string;
  tool_ended : bool;
  result_known : bool;
  parent : string
}.
Record reasoningState := mkReasoning {
  reasoning_subagent : string;
  span : string;
  owner : string;
  reasoning_content : string;
  reasoning_ended : bool
}.
Record stepState := mkStep { step_subagent : string; step_name : string; step_ended : bool }.
Record usageState := mkUsageState {
  usage_provider : string; usage_model : string; input : Z; output : Z; cached : Z; reasoning_tokens : Z; write : Z
}.
#[export] Instance usageState_dec : EqDecision usageState.
Proof. solve_decision. Defined.

(** [requestctx.Invocation] *)
Record Invocation := mkInvocation {
  Detached : bool;
  ExecutionMode : string;
  InvocationID : string;
  InvConversationID : string;
  InvTurnID : string;
  Name : string;
  Description : string;
  ParentConversationID : string;
  ParentTurnID : string;
  ParentToolCallID : string;
  InvParentMessageID : string;
  ParentInvocationID : string
}.
#[export] Instance Invocation_dec : EqDecision Invocation.
Proof. solve_decision. Defined.

Inductive Translator := mkTranslator {
  nativeTurnID : string;
  threadID : string;
  runID : string;
  started : bool;
  done : bool;
  texts : gmap string textState;
  tools : gmap string toolState;
  textOrder : list string;
  toolOrder : list string;
  seen : gset Z;
  internalMessages : gset string;
  seeded : bool;
  messages : list (list (string * json));
  reasonings : gmap string reasoningState;
  reasoningOrder : list string;
  reasoningSpans : gmap string bool;
  steps : gmap string stepState;
  stepOrder : list string;
  activeModel : string;
  usage : gmap string usageState;
  historyErr : option string;
  currentReasoningSpan : string;
  lastChunkText : string;
  lastChunkTool : string;
  lastChunkReasoning : string;
  children : list (string * subagentState);
  activeModels : gmap string string;
  currentReasoningSpans : gmap string string
}
with subagentState := mkSubagent { invocation : Invocation; translator : Translator; child_started : bool; child_done : bool }.

Section Fields.
Implicit Types t : Translator.
Definition set_nativeTurnID v0 t := mkTranslator v0 (threadID t) (runID t) (started t) (done t) (texts t) (tools t) (textOrder t) (toolOrder t) (seen t) (internalMessages t) (seeded t) (messages t) (reasonings t) (reasoningOrder t) (reasoningSpans t) (steps t) (stepOrder t) (activeModel t) (usage t) (historyErr t) (currentReasoningSpan t) (lastChunkText t) (lastChunkTool t) (lastChunkReasoning t) (children t) (activeModels t) (currentReasoningSpans t).
Definition set_started v0 t := mkTranslator (nativeTurnID t) (threadID t) (runID t) v0 (done t) (texts t) (tools t) (textOrder t) (toolOrder t) (seen t) (internalMessages t) (seeded t) (messages t) (reasonings t) (reasoningOrder t) (reasoningSpans t) (steps t) (stepOrder t) (activeModel t) (usage t) (historyErr t) (currentReasoningSpan t) (lastChunkText t) (lastChunkTool t) (lastChunkReasoning t) (children t) (activeModels t) (currentReasoningSpans t).
Definition set_done v0 t := mkTranslator (nativeTurnID t) (threadID t) (runID t) (started t) v0 (texts t) (tools t) (textOrder t) (toolOrder t) (seen t) (internalMessages t) (seeded t) (messages t) (reasonings t) (reasoningOrder t) (reasoningSpans t) (steps t) (stepOrder t) (activeModel t) (usage t) (historyErr t) (currentReasoningSpan t) (lastChunkText t) (lastChunkTool t) (lastChunkReasoning t) (children t) (activeModels t) (currentReasoningSpans t).
Definition set_texts v0 t := mkTranslator (nativeTurnID t) (threadID t) (runID t) (started t) (done t) v0 (tools t) (textOrder t) (toolOrder t) (seen t) (internalMessages t) (seeded t) (messages t) (reasonings t) (reasoningOrder t) (reasoningSpans t) (steps t) (stepOrder t) (activeModel t) (usage t) (historyErr t) (currentReasoningSpan t) (lastChunkText t) (lastChunkTool t) (lastChunkReasoning t) (children t) (activeModels t) (currentReasoningSpans t).
Definition set_new_texts v0 v1 t := mkTranslator (nativeTurnID t) (threadID t) (runID t) (started t) (done t) v0 (tools t) v1 (toolOrder t) (seen t) (internalMessages t) (seeded t) (messages t) (reasonings t) (reasoningOrder t) (reasoningSpans t) (steps t) (stepOrder t) (activeModel t) (usage t) (historyErr t) (currentReasoningSpan t) (lastChunkText t) (lastChunkTool t) (lastChunkReasoning t) (children t) (activeModels t) (currentReasoningSpans t).
Definition set_tools v0 t := mkTranslator (nativeTurnID t) (threadID t) (runID t) (started t) (done t) (texts t) v0 (textOrder t) (toolOrder t) (seen t) (internalMessages t) (seeded t) (messages t) (reasonings t) (reasoningOrder t) (reasoningSpans t) (steps t) (stepOrder t) (activeModel t) (usage t) (historyErr t) (currentReasoningSpan t) (lastChunkText t) (lastChunkTool t) (lastChunkReasoning t) (children t) (activeModels t) (currentReasoningSpans t).
Definition set_new_tools v0 v1 t := mkTranslator (nativeTurnID t) (threadID t) (runID t) (started t) (done t) (texts t) v0 (textOrder t) v1 (seen t) (internalMessages t) (seeded t) (messages t) (reasonings t) (reasoningOrder t) (reasoningSpans t) (steps t) (stepOrder t) (activeModel t) (usage t) (historyErr t) (currentReasoningSpan t) (lastChunkText t) (lastChunkTool t) (lastChunkReasoning t) (children t) (activeModels t) (currentReasoningSpans t).
Definition set_seen v0 t := mkTranslator (nativeTurnID t) (threadID t) (runID t) (started t) (done t) (texts t) (tools t) (textOrder t) (toolOrder t) v0 (internalMessages t) (seeded t) (messages t) (reasonings t) (reasoningOrder t) (reasoningSpans t) (steps t) (stepOrder t) (activeModel t) (usage t) (historyErr t) (currentReasoningSpan t) (lastChunkText t) (lastChunkTool t) (lastChunkReasoning t) (children t) (activeModels t) (currentReasoningSpans t).
Definition set_internalMessages v0 t := mkTranslator (nativeTurnID t) (threadID t) (runID t) (started t) (done t) (texts t) (tools t) (textOrder t) (toolOrder t) (seen t) v0 (seeded t) (messages t) (reasonings t) (reasoningOrder t) (reasoningSpans t) (steps t) (stepOrder t) (activeModel t) (usage t) (historyErr t) (currentReasoningSpan t) (lastChunkText t) (lastChunkTool t) (lastChunkReasoning t) (children t) (activeModels t) (currentReasoningSpans t).
Definition set_seeded v0 t := mkTranslator (nativeTurnID t) (threadID t) (runID t) (started t) (done t) (texts t) (tools t) (textOrder t) (toolOrder t) (seen t) (internalMessages t) v0 (messages t) (reasonings t) (reasoningOrder t) (reasoningSpans t) (steps t) (stepOrder t) (activeModel t) (usage t) (historyErr t) (currentReasoningSpan t) (lastChunkText t) (lastChunkTool t) (lastChunkReasoning t) (children t) (activeModels t) (currentReasoningSpans t).
Definition set_messages v0 t := mkTranslator (nativeTurnID t) (threadID t) (runID t) (started t) (done t) (texts t) (tools t) (textOrder t) (toolOrder t) (seen t) (internalMessages t) (seeded t) v0 (reasonings t) (reasoningOrder t) (reasoningSpans t) (steps t) (stepOrder t) (activeModel t) (usage t) (historyErr t) (currentReasoningSpan t) (lastChunkText t) (lastChunkTool t) (lastChunkReasoning t) (children t) (activeModels t) (currentReasoningSpans t).
Definition set_reasonings v0 t := mkTranslator (nativeTurnID t) (threadID t) (runID t) (started t) (done t) (texts t) (tools t) (textOrder t) (toolOrder t) (seen t) (internalMessages t) (seeded t) (messages t) v0 (reasoningOrder t) (reasoningSpans t) (steps t) (stepOrder t) (activeModel t) (usage t) (historyErr t) (currentReasoningSpan t) (lastChunkText t) (lastChunkTool t) (lastChunkReasoning t) (children t) (activeModels t) (currentReasoningSpans t).
Definition set_new_reasonings v0 v1 t := mkTranslator (nativeTurnID t) (threadID t) (runID t) (started t) (done t) (texts t) (tools t) (textOrder t) (toolOrder t) (seen t) (internalMessages t) (seeded t) (messages t) v0 v1 (reasoningSpans t) (steps t) (stepOrder t) (activeModel t) (usage t) (historyErr t) (currentReasoningSpan t) (lastChunkText t) (lastChunkTool t) (lastChunkReasoning t) (children t) (activeModels t) (currentReasoningSpans t).
Definition set_reasoningSpans v0 t := mkTranslator (nativeTurnID t) (threadID t) (runID t) (started t) (done t) (texts t) (tools t) (textOrder t) (toolOrder t) (seen t) (internalMessages t) (seeded t) (messages t) (reasonings t) (reasoningOrder t) v0 (steps t) (stepOrder t) (activeModel t) (usage t) (historyErr t) (currentReasoningSpan t) (lastChunkText t) (lastChunkTool t) (lastChunkReasoning t) (children t) (activeModels t) (currentReasoningSpans t).
Definition set_steps v0 t := mkTranslator (nativeTurnID t) (threadID t) (runID t) (started t) (done t) (texts t) (tools t) (textOrder t) (toolOrder t) (seen t) (internalMessages t) (seeded t) (messages t) (reasonings t) (reasoningOrder t) (reasoningSpans t) v0 (stepOrder t) (activeModel t) (usage t) (historyErr t) (currentReasoningSpan t) (lastChunkText t) (lastChunkTool t) (lastChunkReasoning t) (children t) (activeModels t) (currentReasoningSpans t).
Definition set_new_steps v0 v1 t := mkTranslator (nativeTurnID t) (threadID t) (runID t) (started t) (done t) (texts t) (tools t) (textOrder t) (toolOrder t) (seen t) (internalMessages t) (seeded t) (messages t) (reasonings t) (reasoningOrder t) (reasoningSpans t) v0 v1 (activeModel t) (usage t) (historyErr t) (currentReasoningSpan t) (lastChunkText t) (lastChunkTool t) (lastChunkReasoning t) (children t) (activeModels t) (currentReasoningSpans t).
Definition set_activeModel v0 t := mkTranslator (nativeTurnID t) (threadID t) (runID t) (started t) (done t) (texts t) (tools t) (textOrder t) (toolOrder t) (seen t) (internalMessages t) (seeded t) (messages t) (reasonings t) (reasoningOrder t) (reasoningSpans t) (steps t) (stepOrder t) v0 (usage t) (historyErr t) (currentReasoningSpan t) (lastChunkText t) (lastChunkTool t) (lastChunkReasoning t) (children t) (activeModels t) (currentReasoningSpans t).
Definition set_usage v0 t := mkTranslator (nativeTurnID t) (threadID t) (runID t) (started t) (done t) (texts t) (tools t) (textOrder t) (toolOrder t) (seen t) (internalMessages t) (seeded t) (messages t) (reasonings t) (reasoningOrder t) (reasoningSpans t) (steps t) (stepOrder t) (activeModel t) v0 (historyErr t) (currentReasoningSpan t) (lastChunkText t) (lastChunkTool t) (lastChunkReasoning t) (children t) (activeModels t) (currentReasoningSpans t).
Definition set_historyErr v0 t := mkTranslator (nativeTurnID t) (threadID t) (runID t) (started t) (done t) (texts t) (tools t) (textOrder t) (toolOrder t) (seen t) (internalMessages t) (seeded t) (messages t) (reasonings t) (reasoningOrder t) (reasoningSpans t) (steps t) (stepOrder t) (activeModel t) (usage t) v0 (currentReasoningSpan t) (lastChunkText t) (lastChunkTool t) (lastChunkReasoning t) (children t) (activeModels t) (currentReasoningSpans t).
Definition set_currentSpan v0 v1 t := mkTranslator (nativeTurnID t) (threadID t) (runID t) (started t) (done t) (texts t) (tools t) (textOrder t) (toolOrder t) (seen t) (internalMessages t) (seeded t) (messages t) (reasonings t) (reasoningOrder t) (reasoningSpans t) (steps t) (stepOrder t) (activeModel t) (usage t) (historyErr t) v0 (lastChunkText t) (lastChunkTool t) (lastChunkReasoning t) (children t) (activeModels t) v1.
Definition set_lastChunkText v0 t := mkTranslator (nativeTurnID t) (threadID t) (runID t) (started t) (done t) (texts t) (tools t) (textOrder t) (toolOrder t) (seen t) (internalMessages t) (seeded t) (messages t) (reasonings t) (reasoningOrder t) (reasoningSpans t) (steps t) (stepOrder t) (activeModel t) (usage t) (historyErr t) (currentReasoningSpan t) v0 (lastChunkTool t) (lastChunkReasoning t) (children t) (activeModels t) (currentReasoningSpans t).
Definition set_lastChunkTool v0 t := mkTranslator (nativeTurnID t) (threadID t) (runID t) (started t) (done t) (texts t) (tools t) (textOrder t) (toolOrder t) (seen t) (internalMessages t) (seeded t) (messages t) (reasonings t) (reasoningOrder t) (reasoningSpans t) (steps t) (stepOrder t) (activeModel t) (usage t) (historyErr t) (currentReasoningSpan t) (lastChunkText t) v0 (lastChunkReasoning t) (children t) (activeModels t) (currentReasoningSpans t).
Definition set_lastChunkReasoning v0 t := mkTranslator (nativeTurnID t) (threadID t) (runID t) (started t) (done t) (texts t) (tools t) (textOrder t) (toolOrder t) (seen t) (internalMessages t) (seeded t) (messages t) (reasonings t) (reasoningOrder t) (reasoningSpans t) (steps t) (stepOrder t) (activeModel t) (usage t) (historyErr t) (currentReasoningSpan t) (lastChunkText t) (lastChunkTool t) v0 (children t) (activeModels t) (currentReasoningSpans t).
Definition set_children v0 t := mkTranslator (nativeTurnID t) (threadID t) (runID t) (started t) (done t) (texts t) (tools t) (textOrder t) (toolOrder t) (seen t) (internalMessages t) (seeded t) (messages t) (reasonings t) (reasoningOrder t) (reasoningSpans t) (steps t) (stepOrder t) (activeModel t) (usage t) (historyErr t) (currentReasoningSpan t) (lastChunkText t) (lastChunkTool t) (lastChunkReasoning t) v0 (activeModels t) (currentReasoningSpans t).
Definition set_activeModels v0 t := mkTranslator (nativeTurnID t) (threadID t) (runID t) (started t) (done t) (texts t) (tools t) (textOrder t) (toolOrder t) (seen t) (internalMessages t) (seeded t) (messages t) (reasonings t) (reasoningOrder t) (reasoningSpans t) (steps t) (stepOrder t) (activeModel t) (usage t) (historyErr t) (currentReasoningSpan t) (lastChunkText t) (lastChunkTool t) (lastChunkReasoning t) (children t) v0 (currentReasoningSpans t).
End Fields.

Definition NewTranslator (thread run : string) : Translator :=
  mkTranslator "" thread run false false ∅ ∅ [] [] ∅ ∅ false [] ∅ [] ∅ ∅ [] "" ∅ None "" "" "" "" [] ∅ ∅.

Definition SetNativeIdentity (turn : string) (t : Translator) : option Translator :=
  if bool_decide (turn = "") then None
  else if started t && bool_decide (nativeTurnID t <> turn) then None
  else Some (set_nativeTurnID turn t).

Definition end_text (b : bool) (s : textState) : textState := mkText (text_subagent s) (content s) b.
Definition set_content (c : string) (s : textState) : textState := mkText (text_subagent s) c (text_ended s).
Definition end_tool_state (b : bool) (s : toolState) : toolState :=
  mkTool (executionPresentation s) (tool_subagent s) (args s) b (result_known s) (parent s).
Definition set_args (a : string) (s : toolState) : toolState :=
  mkTool (executionPresentation s) (tool_subagent s) a (tool_ended s) (result_known s) (parent s).
Definition set_result (b : bool) (s : toolState) : toolState :=
  mkTool (executionPresentation s) (tool_subagent s) (args s) (tool_ended s) b (parent s).
Definition set_execution (p : option (list (string * json))) (s : toolState) : toolState :=
  mkTool p (tool_subagent s) (args s) (tool_ended s) (result_known s) (parent s).
Definition end_reasoning_state (b : bool) (s : reasoningState) : reasoningState :=
  mkReasoning (reasoning_subagent s) (span s) (owner s) (reasoning_content s) b.
Definition set_reasoning_content (c : string) (s : reasoningState) : reasoningState :=
  mkReasoning (reasoning_subagent s) (span s) (owner s) c (reasoning_ended s).
Definition end_step (b : bool) (s : stepState) : stepState := mkStep (step_subagent s) (step_name s) b.

(** ** The message graph (translator_history.go) *)

(** A string field of a decoded struct: absent and null are empty. *)
Definition typed_string (key : string) (o : Object) : option string :=
  match get key o with None | Some JNull => Some "" | Some (JString s) => Some s | Some _ => None end.
Definition typed_object (key : string) (o : Object) : option Object :=
  match get key o with None | Some JNull => Some [] | Some (JObject o) => Some o | Some _ => None end.

Definition typed_call (v : json) : option (string * string) :=
  match v with
  | JObject c => id ← typed_string "id" c; f ← typed_object "function" c; a ← typed_string "arguments" f; Some (id, a)
  | JNull => Some ("", "")
  | _ => None
  end.
Definition typed_calls (m : Object) : option (list (string * string)) :=
  match get "toolCalls" m with None | Some JNull => Some [] | Some (JArray l) => mapM typed_call l | Some _ => None end.

Definition historical_calls (tools : gmap string toolState) (m : Object) : option (gmap string toolState) :=
  id ← typed_string "id" m;
  role ← typed_string "role" m;
  subagent ← typed_string "subagentRunId" m;
  calls ← typed_calls m;
  Some (if bool_decide (role = "assistant")
        then foldl (fun tools '(cid, a) => <[cid := mkTool None subagent a true false id]> tools) tools calls
        else tools).
Definition historical_receipt (tools : gmap string toolState) (m : Object) : option (gmap string toolState) :=
  role ← typed_string "role" m;
  call ← typed_string "toolCallId" m;
  Some (if bool_decide (role = "tool") then alter (set_result true) call tools else tools).
Fixpoint fold_option {A B} (f : A -> B -> option A) (a : A) (l : list B) : option A :=
  match l with [] => Some a | b :: l => a ← f a b; fold_option f a l end.
Definition historicalToolStates (ms : list Object) : option (gmap string toolState) :=
  tools ← fold_option historical_calls ∅ ms; fold_option historical_receipt tools ms.

Definition reconcile_live (live canonical : toolState) : toolState :=
  set_result (result_known live || result_known canonical) (set_args (args canonical) live).
Definition refreshHistoricalTools (ms : list Object) (t : Translator) : option Translator :=
  history ← historicalToolStates ms;
  Some (set_tools
          (foldl (fun history id =>
                    match tools t !! id with
                    | Some live =>
                        <[id := match history !! id with Some canonical => reconcile_live live canonical | None => live end]> history
                    | None => history
                    end) history (toolOrder t)) t).

Definition saveMessage (id : string) (m : Object) (ms : list Object) : list Object :=
  match message id ms with Some _ => update_message id (fun _ => m) ms | None => ms ++ [m] end.
Definition save (id : string) (m : Object) (t : Translator) : Translator := set_messages (saveMessage id m (messages t)) t.

Definition SeedMessages (ValidateEvent : json -> bool) (ms : list Object) (t : Translator) : option Translator :=
  if ValidateEvent (obj [str "type" "MESSAGES_SNAPSHOT"; ("messages", JArray (JObject <$> ms))]) then
    match textOrder t, toolOrder t with
    | [], [] => tools ← historicalToolStates ms; Some (set_seeded true (set_tools tools (set_messages ms t)))
    | _, _ => None
    end
  else None.

(** ** Invocations (translator_subagent.go) *)
Definition subagent (inv : Invocation) (t : Translator) : subagentState * Translator :=
  match get (InvocationID inv) (children t) with
  | Some state => (state, t)
  | None =>
      let child := set_started true (NewTranslator (threadID t) (InvocationID inv)) in
      let child := if bool_decide (nativeTurnID t <> "") then set_nativeTurnID (InvTurnID inv) child else child in
      let state := mkSubagent inv child false false in
      (state, set_children (put (InvocationID inv) state (children t)) t)
  end.
Definition update_child (id : string) (f : subagentState -> subagentState) (t : Translator) : Translator :=
  match get id (children t) with Some s => set_children (put id (f s) (children t)) t | None => t end.
Definition start_child (s : subagentState) : subagentState := mkSubagent (invocation s) (translator s) true (child_done s).
Definition finish_child (s : subagentState) : subagentState := mkSubagent (invocation s) (translator s) (child_started s) true.

Definition validateInvocation (inv : Invocation) (t : Translator) : option string :=
  if bool_decide (InvocationID inv = "" \/ InvConversationID inv = "" \/ InvTurnID inv = "" \/ Name inv = "") || Detached inv
  then Some "invalid native invocation checkpoint"
  else if match get (InvocationID inv) (children t) with Some prior => bool_decide (invocation prior <> inv) | None => false end
  then Some "invocation checkpoint identity changed"
  else
    let parentOK :=
      bool_decide (nativeTurnID t <> "" /\ ParentConversationID inv = threadID t /\ ParentTurnID inv = nativeTurnID t
                   /\ ParentInvocationID inv = "")
      || existsb (fun '(_, p) =>
                    bool_decide (ParentInvocationID inv = InvocationID (invocation p)
                                 /\ ParentConversationID inv = InvConversationID (invocation p)
                                 /\ ParentTurnID inv = InvTurnID (invocation p))) (children t) in
    if negb parentOK then Some "invocation checkpoint does not match a recorded native parent"
    else if bool_decide (InvConversationID inv = ParentConversationID inv /\ InvTurnID inv = ParentTurnID inv)
    then Some "invocation checkpoint cycles into parent"
    else None.

(** The decoding of an invocation, of which a field of another type fails. *)
Definition typed_bool (key : string) (o : Object) : option bool :=
  match get key o with None | Some JNull => Some false | Some (JBool b) => Some b | Some _ => None end.
Definition typed_invocation (o : Object) : option Invocation :=
  detached ← typed_bool "detached" o;
  mode ← typed_string "executionMode" o;
  id ← typed_string "id" o;
  conversation ← typed_string "conversationId" o;
  turn ← typed_string "turnId" o;
  name ← typed_string "name" o;
  description ← typed_string "description" o;
  pc ← typed_string "parentConversationId" o;
  pt ← typed_string "parentTurnId" o;
  pcall ← typed_string "parentToolCallId" o;
  pm ← typed_string "parentMessageId" o;
  pi ← typed_string "parentInvocationId" o;
  Some (mkInvocation detached mode id conversation turn name description pc pt pcall pm pi).
(** The same where the error is dropped: a field of another type stays zero. *)
Definition lenient_invocation (o : Object) : Invocation :=
  mkInvocation (bool_decide (get "detached" o = Some (JBool true))) (field o "executionMode") (field o "id") (field o "conversationId")
    (field o "turnId") (field o "name") (field o "description") (field o "parentConversationId") (field o "parentTurnId")
    (field o "parentToolCallId") (field o "parentMessageId") (field o "parentInvocationId").

(** ** Emitted events (translator_restore.go) *)
Definition object_or_empty (v : option json) : Object := default [] (object v).
Definition step_key (w : Object) : string :=
  let key := TrimPrefix (field w "stepName") "model/" in
  if bool_decide (field w "subagentRunId" <> "") then field w "subagentRunId" +:+ "/" +:+ key else key.

Definition mergeEventMetadata (m w : Object) : Object :=
  let m := match get "metadata" w with
           | Some after => put "metadata" (JObject (put_all (object_or_empty (Some after)) (object_or_empty (get "metadata" m)))) m
           | None => m
           end in
  match get "subagentRunId" w with Some o => put "subagentRunId" o m | None => m end.

(** The entry of a map, created when it is missing. *)
Definition open_text (id owner : string) (t : Translator) : Translator :=
  match texts t !! id with
  | Some _ => t
  | None => set_new_texts (<[id := mkText owner "" false]> (texts t)) (textOrder t ++ [id]) t
  end.
Definition open_reasoning (id owner : string) (t : Translator) : Translator :=
  match reasonings t !! id with
  | Some _ => t
  | None =>
      let state := mkReasoning owner (default "" (currentReasoningSpans t !! owner)) (default "" (activeModels t !! owner)) "" false in
      set_new_reasonings (<[id := state]> (reasonings t)) (reasoningOrder t ++ [id]) t
  end.

Definition capture_run_started (w : Object) (t : Translator) : Translator * option string :=
  if bool_decide (field w "threadId" <> threadID t \/ field w "runId" <> runID t) then (t, Some "journal run identity mismatch")
  else
    let identity := object_or_empty (get "agently" (object_or_empty (get "metadata" w))) in
    let t := if bool_decide (field identity "identityVersion" = "1") then set_nativeTurnID (field identity "nativeTurnId") t else t in
    (set_started true t, None).

Definition capture_subagent_started (w : Object) (t : Translator) : Translator * option string :=
  let owner := field w "subagentRunId" in
  let started inv t := let t := snd (subagent inv t) in (update_child (InvocationID inv) start_child t, None) in
  let inv := lenient_invocation (object_or_empty (get "invocation" (object_or_empty (get "agently" (object_or_empty (get "metadata" w)))))) in
  if bool_decide (InvocationID inv <> "") then
    if bool_decide (InvocationID inv <> owner \/ Name inv <> field w "name")
    then (t, Some "subagent metadata does not match event identity")
    else if bool_decide (nativeTurnID t <> "") then
      match validateInvocation inv t with Some err => (t, Some err) | None => started inv t end
    else started inv t
  else started (mkInvocation false "" owner "" "" (field w "name") "" "" "" "" "" "") t.

Definition capture_step_started (w : Object) (t : Translator) : Translator :=
  let name := field w "stepName" in
  let owner := field w "subagentRunId" in
  let key := step_key w in
  let t := match steps t !! key with
           | Some _ => t
           | None => set_new_steps (<[key := mkStep owner name false]> (steps t)) (stepOrder t ++ [key]) t
           end in
  let t := set_steps (alter (end_step false) key (steps t)) t in
  let t := set_activeModels (<[owner := key]> (activeModels t)) t in
  if bool_decide (owner = "") then set_activeModel key t else t.
Definition capture_step_finished (w : Object) (t : Translator) : Translator :=
  let owner := field w "subagentRunId" in
  let key := step_key w in
  let t := set_steps (alter (end_step true) key (steps t)) t in
  let t := if bool_decide (default "" (activeModels t !! owner) = key) then set_activeModels (<[owner := ""]> (activeModels t)) t else t in
  if bool_decide (owner = "" /\ activeModel t = key) then set_activeModel "" t else t.

(** The lanes a boundary event moves. *)
Definition capture_boundary (w : Object) (t : Translator) : Translator * option string :=
  let owner := field w "subagentRunId" in
  let id := field w "messageId" in
  let call := field w "toolCallId" in
  let delta := field w "delta" in
  match event_type (field w "type") with
  | Some RUN_STARTED => capture_run_started w t
  | Some SUBAGENT_STARTED => capture_subagent_started w t
  | Some SUBAGENT_FINISHED | Some SUBAGENT_ERROR => (update_child owner finish_child t, None)
  | Some RUN_FINISHED | Some RUN_ERROR => (set_done true t, None)
  | Some STEP_STARTED => (capture_step_started w t, None)
  | Some STEP_FINISHED => (capture_step_finished w t, None)
  | Some REASONING_START =>
      (set_currentSpan id (<[owner := id]> (currentReasoningSpans t)) (set_reasoningSpans (<[id := true]> (reasoningSpans t)) t), None)
  | Some REASONING_END => (set_reasoningSpans (<[id := false]> (reasoningSpans t)) t, None)
  | Some REASONING_MESSAGE_START =>
      let t := open_reasoning id owner t in (set_reasonings (alter (end_reasoning_state false) id (reasonings t)) t, None)
  | Some REASONING_MESSAGE_CONTENT =>
      (set_reasonings (alter (fun s => set_reasoning_content (reasoning_content s +:+ delta) s) id (reasonings t)) t, None)
  | Some REASONING_MESSAGE_END => (set_reasonings (alter (end_reasoning_state true) id (reasonings t)) t, None)
  | Some TEXT_MESSAGE_START => let t := open_text id owner t in (set_texts (alter (end_text false) id (texts t)) t, None)
  | Some TEXT_MESSAGE_CONTENT => (set_texts (alter (fun s => set_content (content s +:+ delta) s) id (texts t)) t, None)
  | Some TEXT_MESSAGE_END => (set_texts (alter (end_text true) id (texts t)) t, None)
  | Some TOOL_CALL_START =>
      let known := match tools t !! call with
                   | Some _ => tools t
                   | None => <[call := mkTool None owner "" false false (field w "parentMessageId")]> (tools t)
                   end in
      let order := if bool_decide (call ∈ toolOrder t) then toolOrder t else toolOrder t ++ [call] in
      (set_new_tools (alter (end_tool_state false) call known) order t, None)
  | Some TOOL_CALL_ARGS => (set_tools (alter (fun s => set_args (args s +:+ delta) s) call (tools t)) t, None)
  | Some TOOL_CALL_END => (set_tools (alter (end_tool_state true) call (tools t)) t, None)
  | Some TOOL_CALL_RESULT => (set_tools (alter (set_result true) call (tools t)) t, None)
  | _ => (t, None)
  end.

(** An integer field of a decoded struct. *)
Definition int_literal (l : list ascii) : option Z :=
  let ds := match l with c :: r => if bool_decide (c = "-"%char) then r else l | [] => l end in
  let v := SetString l in
  if digitsOnly ds && bool_decide (in_int64 v) then Some v else None.
Definition typed_int (key : string) (o : Object) : option Z :=
  match get key o with None | Some JNull => Some 0 | Some (JNumber l) => int_literal (bytes l) | Some _ => None end.

(** The usage a CUSTOM event reports for a model call. *)
Definition reported_usage (value : Object) : option (string * usageState) :=
  version ← typed_string "version" value;
  call ← typed_string "modelCallId" value;
  u ← typed_object "usage" value;
  provider ← typed_string "provider" u;
  model ← typed_string "model" u;
  i ← typed_int "inputTokens" u;
  o ← typed_int "outputTokens" u;
  c ← typed_int "cachedInputTokens" u;
  r ← typed_int "reasoningTokens" u;
  w ← typed_int "cacheWriteInputTokens" u;
  if bool_decide (version = "1" /\ call <> "") then Some (call, mkUsageState provider model i o c r w) else None.

Section Capture.
(** The text of an error of [encoding/json], and the application of a patch by
    the library ([DecodePatch] and [ApplyWithOptions]); its error text. *)
Context (decode_error : string) (apply_patch : json -> json -> json + string).

Definition capture_invocation (w : Object) (t : Translator) : Translator * option string :=
  match get "value" w with
  | Some JNull => (t, Some "invalid invocation checkpoint version/phase")
  | Some (JObject value) =>
      match typed_string "version" value, typed_string "phase" value, typed_object "invocation" value ≫= typed_invocation with
      | Some version, Some phase, Some inv =>
          if bool_decide (version <> "1" \/ phase <> "registered") then (t, Some "invalid invocation checkpoint version/phase")
          else match validateInvocation inv t with
               | Some err => (t, Some err)
               | None => (snd (subagent inv t), None)
               end
      | _, _, _ => (t, Some decode_error)
      end
  | _ => (t, Some decode_error)
  end.

Definition capture_usage (w : Object) (t : Translator) : Translator :=
  let value := object_or_empty (get "value" w) in
  if bool_decide (field value "scope" <> "" /\ field value "scope" <> "model_call") then t
  else
    match reported_usage value with
    | Some (call, u) =>
        let owner := field w "subagentRunId" in
        set_usage (<[(if bool_decide (owner = "") then call else owner +:+ "/" +:+ call) := u]> (usage t)) t
    | None => t
    end.

(** What a snapshot says of the lanes of the run. *)
Definition snapshot_calls (calls : list json) (t : Translator) : Translator :=
  foldl (fun t raw => match raw with
                      | JObject c => set_tools (alter (set_args (field (object_or_empty (get "function" c)) "arguments")) (field c "id") (tools t)) t
                      | _ => t
                      end) t calls.
Definition snapshot_message (t : Translator) (m : Object) : Translator :=
  let mid := field m "id" in
  let text := field m "content" in
  let t := if assistant m then
             snapshot_calls (items_of (get "toolCalls" m)) (set_texts (alter (set_content text) mid (texts t)) t)
           else t in
  if is_role "reasoning" m then set_reasonings (alter (set_reasoning_content text) mid (reasonings t)) t else t.
Definition capture_snapshot (w : Object) (t : Translator) : Translator * option string :=
  match objects_of (value_of w "messages") with
  | None => (t, Some decode_error)
  | Some ms =>
      let t := set_messages ms t in
      match refreshHistoricalTools ms t with
      | None => (t, Some decode_error)
      | Some t => (foldl snapshot_message t ms, None)
      end
  end.

(** The message with the identifier, or a fresh one. *)
Definition message_or (id role : string) (t : Translator) : Object :=
  match message id (messages t) with Some m => m | None => of_members [str "id" id; str "role" role; str "content" ""] end.
Definition add_delta (w m : Object) : Object := put "content" (JString (field m "content" +:+ field w "delta")) m.

Definition capture_chunk (reasoning : bool) (boundary : bool) (w : Object) (t : Translator) : Translator * option string :=
  let given := field w "messageId" in
  let id := if bool_decide (given = "") then (if reasoning then lastChunkReasoning t else lastChunkText t) else given in
  if bool_decide (id = "") then (t, Some "chunk has no open message identity")
  else
    let t := if reasoning then set_lastChunkReasoning id t else set_lastChunkText id t in
    let role := field w "role" in
    let role := if bool_decide (role = "") then "assistant" else role in
    let m := add_delta w (message_or id (if reasoning then "reasoning" else role) t) in
    let t := save id (mergeEventMetadata m w) t in
    let owner := field w "subagentRunId" in
    if boundary then
      (if reasoning then let t := open_reasoning id owner t in set_reasonings (alter (set_reasoning_content (field m "content")) id (reasonings t)) t
       else let t := open_text id owner t in set_texts (alter (set_content (field m "content")) id (texts t)) t, None)
    else (t, None).

Definition append_arguments (delta : string) (c : Object) : Object :=
  let f := object_or_empty (get "function" c) in
  put "function" (JObject (put "arguments" (JString (field f "arguments" +:+ delta)) f)) c.
Definition update_calls (id : string) (f : Object -> Object) (m : Object) : Object :=
  let calls := (fun raw => match raw with JObject c => JObject (if has_id id c then f c else c) | _ => raw end) <$> items_of (get "toolCalls" m) in
  put "toolCalls" (JArray calls) m.
(** A write to the message of the tool call: a panic when the graph has none. *)
Definition appendToolArguments (parent id delta : string) (t : Translator) : option Translator :=
  m ← message parent (messages t); Some (save parent (update_calls id (append_arguments delta) m) t).

(** The outcome of a capture. *)
Inductive outcome := Captured (t : Translator) | CaptureError (t : Translator) (err : string) | Panic.
Definition reported (r : Translator * option string) : outcome :=
  let '(t, err) := r in match err with Some e => CaptureError t e | None => Captured t end.
Definition checked (r : option Translator) : outcome := match r with Some t => Captured t | None => Panic end.

Definition capture_tool (chunk : bool) (w : Object) (t : Translator) : outcome :=
  let given := field w "toolCallId" in
  let call := if chunk && bool_decide (given = "") then lastChunkTool t else given in
  if chunk && bool_decide (call = "") then CaptureError t "tool chunk has no open call identity"
  else
    let t := if chunk then set_lastChunkTool call t else t in
    let state := tools t !! call in
    let known := match state with Some s => parent s | None => "" end in
    let parentID := first_set [field w "parentMessageId"; known; runID t +:+ "/assistant"] in
    let m := match message parentID (messages t) with Some m => m | None => of_members [str "id" parentID; str "role" "assistant"] end in
    let calls := items_of (get "toolCalls" m) in
    let fresh := obj [str "id" call; str "type" "function";
                      ("function", obj [str "name" (field w "toolCallName"); str "arguments" ""])] in
    let calls := match find_call call calls with Some _ => calls | None => calls ++ [fresh] end in
    let t := save parentID (mergeEventMetadata (put "toolCalls" (JArray calls) m) w) t in
    let t := match state with
             | Some _ => t
             | None =>
                 set_new_tools (<[call := mkTool None (field w "subagentRunId") "" false false parentID]> (tools t)) (toolOrder t ++ [call]) t
             end in
    if chunk then
      let delta := field w "delta" in
      let t := set_tools (alter (fun s => set_args (args s +:+ delta) s) call (tools t)) t in
      checked (appendToolArguments parentID call delta t)
    else Captured t.

Definition capture_content (w : Object) (t : Translator) : Translator * option string :=
  let id := field w "messageId" in
  match message id (messages t) with
  | None => (t, Some ("content event references missing message " +:+ id))
  | Some m => (save id (mergeEventMetadata (add_delta w m) w) t, None)
  end.

Definition capture_result (w : Object) (t : Translator) : Translator :=
  let id := field w "messageId" in
  let m := of_members [str "id" id; str "role" "tool"; str "toolCallId" (field w "toolCallId"); ("content", value_of w "content")] in
  let m := match get "error" w with Some e => put "error" e m | None => m end in
  save id (mergeEventMetadata m w) t.

Definition capture_encrypted (w : Object) (t : Translator) : Translator * option string :=
  let entity := field w "entityId" in
  let value := value_of w "encryptedValue" in
  if bool_decide (field w "subtype" = "tool-call") then
    (foldl (fun t m => match get "toolCalls" m with
                       | Some (JArray _) => save (field m "id") (update_calls entity (put "encryptedValue" value) m) t
                       | _ => t
                       end) t (messages t), None)
  else
    match message entity (messages t) with
    | None => (t, Some ("encrypted reasoning references missing message " +:+ entity))
    | Some m => (save entity (put "encryptedValue" value m) t, None)
    end.

Definition capture_activity (w : Object) (t : Translator) : Translator :=
  let id := field w "messageId" in
  let content := object_or_empty (get "content" w) in
  let t := if bool_decide (field w "activityType" = "agently.tool" /\ get "version" content = Some (JString "1"))
           then set_tools (alter (set_execution (Some content)) (field content "toolCallId") (tools t)) t else t in
  let prior := message id (messages t) in
  let replace := negb (bool_decide (get "replace" w = Some (JBool false))) in
  let fresh := of_members [str "id" id; str "role" "activity"; ("activityType", value_of w "activityType"); ("content", value_of w "content")] in
  let m := match prior with
           | None => fresh
           | Some m =>
               if replace then match get "metadata" m with Some old => put "metadata" old fresh | None => fresh end else m
           end in
  save id (mergeEventMetadata m w) t.

Definition capture_activity_delta (w : Object) (t : Translator) : Translator * option string :=
  let id := field w "messageId" in
  match message id (messages t) with
  | None => (t, Some ("activity patch references missing message " +:+ id))
  | Some m =>
      match apply_patch (value_of m "content") (value_of w "patch") with
      | inr err => (t, Some err)
      | inl updated => (save id (mergeEventMetadata (put "content" updated m) w) t, None)
      end
  end.

(** What an event adds to the message graph. *)
Definition capture_message (boundary : bool) (w : Object) (t : Translator) : outcome :=
  let kind := field w "type" in
  let id := field w "messageId" in
  if bool_decide (kind = "TEXT_MESSAGE_CHUNK") then reported (capture_chunk false boundary w t)
  else if bool_decide (kind = "REASONING_MESSAGE_CHUNK") then reported (capture_chunk true boundary w t)
  else if bool_decide (kind = "TOOL_CALL_CHUNK") then capture_tool true w t
  else
    match event_type kind with
    | Some CUSTOM =>
        match (if bool_decide (field w "name" = "agently.invocation") then capture_invocation w t else (t, None)) with
        | (t, Some err) => CaptureError t err
        | (t, None) => Captured (if bool_decide (field w "name" = "agently.usage") then capture_usage w t else t)
        end
    | Some MESSAGES_SNAPSHOT => reported (capture_snapshot w t)
    | Some TEXT_MESSAGE_START => Captured (save id (mergeEventMetadata (message_or id (field w "role") t) w) t)
    | Some REASONING_MESSAGE_START => Captured (save id (mergeEventMetadata (message_or id "reasoning" t) w) t)
    | Some TEXT_MESSAGE_CONTENT | Some REASONING_MESSAGE_CONTENT => reported (capture_content w t)
    | Some TOOL_CALL_START => capture_tool false w t
    | Some TOOL_CALL_ARGS =>
        match tools t !! field w "toolCallId" with
        | Some s => checked (appendToolArguments (parent s) (field w "toolCallId") (field w "delta") t)
        | None => Captured t
        end
    | Some TOOL_CALL_RESULT => Captured (capture_result w t)
    | Some REASONING_ENCRYPTED_VALUE => reported (capture_encrypted w t)
    | Some ACTIVITY_SNAPSHOT => Captured (capture_activity w t)
    | Some ACTIVITY_DELTA => reported (capture_activity_delta w t)
    | _ => Captured t
    end.

Definition captureStandard (w : Object) (boundary : bool) (t : Translator) : outcome :=
  match (if boundary then capture_boundary w t else (t, None)) with
  | (t, Some err) => CaptureError t err
  | (t, None) => capture_message boundary w t
  end.

(** [capture] of one event: its standard variant, or the fields of the producer. *)
Definition has_function (id : string) (raw : json) : bool :=
  match raw with
  | JObject c => if has_id id c then bool_decide (is_Some (object (get "function" c))) else true
  | _ => true
  end.
Definition capture_plain (w : Object) (t : Translator) : outcome :=
  let id := field w "messageId" in
  let call := field w "toolCallId" in
  match event_type (field w "type") with
  | Some TEXT_MESSAGE_START => Captured (save id (message_or id (field w "role") t) t)
  | Some TEXT_MESSAGE_CONTENT => checked (m ← message id (messages t); Some (save id (add_delta w m) t))
  | Some TOOL_CALL_START =>
      let parentID := field w "parentMessageId" in
      let m := match message parentID (messages t) with Some m => m | None => of_members [str "id" parentID; str "role" "assistant"] end in
      let fresh := obj [str "id" call; str "type" "function";
                        ("function", obj [str "name" (field w "toolCallName"); str "arguments" ""])] in
      Captured (save parentID (put "toolCalls" (JArray (items_of (get "toolCalls" m) ++ [fresh])) m) t)
  | Some TOOL_CALL_ARGS =>
      match tools t !! call with
      | None => Captured t
      | Some s =>
          match message (parent s) (messages t) with
          | Some m =>
              if forallb (has_function call) (items_of (get "toolCalls" m))
              then checked (appendToolArguments (parent s) call (field w "delta") t) else Panic
          | None => Panic
          end
      end
  | Some TOOL_CALL_RESULT =>
      Captured (save id (of_members [str "id" id; str "role" "tool"; str "toolCallId" call; ("content", value_of w "content")]) t)
  | _ => Captured t
  end.

Definition capture_event (ev : Event) (t : Translator) : option Translator :=
  match (if standard ev then captureStandard (wire ev) (negb (applied ev)) t else capture_plain (wire ev) t) with
  | Captured t => Some t
  | CaptureError t err => Some (match historyErr t with None => set_historyErr (Some err) t | Some _ => t end)
  | Panic => None
  end.
Definition capture (evs : list Event) (t : Translator) : option Translator := fold_option (fun t ev => capture_event ev t) t evs.
End Capture.
