(* ===== verification/AguiTranslate.v ===== *)
(** * The translation of native events

    src/protocol/agui/translator.go, translator_model.go,
    translator_presentation.go and identity.go: the AG-UI events a native event
    becomes, the lanes it opens and closes, and the end of the run. *)
From stdpp Require Import base gmap strings list sorting.
From Stdlib Require Import ZArith Ascii.
From S2P Require Import Prelude GoStrings GoJson CanonicalNumber JsonValue JsonCodec AguiPatch AguiProjection AguiNative AguiTranslator.

Open Scope Z_scope.

(** ** Identity of tool calls *)

(** [url.PathEscape] *)
Definition upper_hex (n : nat) : ascii := ascii_of_nat (if Nat.ltb n 10 then 48 + n else 55 + n).
Definition path_safe (c : ascii) : bool :=
  let n := nat_of_ascii c in
  in_range 48 57 c || in_range 65 90 c || in_range 97 122 c || bool_decide (c ∈ bytes "-_.~$&+:=@").
Definition escape_byte (c : ascii) : list ascii :=
  let n := nat_of_ascii c in if path_safe c then [c] else ["%"%char; upper_hex (n / 16); upper_hex (n mod 16)].
Definition PathEscape (s : string) : string := Prelude.text (concat (escape_byte <$> bytes s)).

Definition ProtocolToolCallID (nativeTurn nativeOp : string) : string :=
  if bool_decide (nativeTurn = "" \/ nativeOp = "") then nativeOp
  else "agui.tool/" +:+ PathEscape nativeTurn +:+ "/" +:+ PathEscape nativeOp.
Definition toolID (turn native : string) (t : Translator) : string :=
  if bool_decide (nativeTurnID t = "") then native
  else ProtocolToolCallID (if bool_decide (turn = "") then nativeTurnID t else turn) native.

(** ** The run *)
Definition ProtocolVersion : string := "1.0".

Definition Start (t : Translator) : list Event * Translator :=
  if started t || done t then ([], t)
  else
    let ev :=
      if bool_decide (nativeTurnID t <> "") then
        standardEvent [str "type" "RUN_STARTED"; str "threadId" (threadID t); str "runId" (runID t); str "protocolVersion" ProtocolVersion;
                       ("metadata", obj [("agently", obj [str "identityVersion" "1"; str "nativeTurnId" (nativeTurnID t)])])]
      else plain_event "RUN_STARTED" [str "threadId" (threadID t); str "runId" (runID t); str "protocolVersion" ProtocolVersion] in
    ([ev], set_started true t).

(** Closing the lanes of one kind, in the order they were opened. *)
Section Close.
Context {S : Type} (ended : S -> bool) (finish : S -> S) (event : string -> S -> Event).
Fixpoint close_all (order : list string) (lanes : gmap string S) : list Event * gmap string S :=
  match order with
  | [] => ([], lanes)
  | id :: order =>
      match lanes !! id with
      | Some s =>
          if ended s then close_all order lanes
          else let '(evs, lanes) := close_all order (<[id := finish s]> lanes) in (event id s :: evs, lanes)
      | None => close_all order lanes
      end
  end.
End Close.

Definition text_end (id : string) (s : textState) : Event := scopedBoundary "TEXT_MESSAGE_END" "messageId" id (text_subagent s).
Definition tool_end (id : string) (s : toolState) : Event := scopedBoundary "TOOL_CALL_END" "toolCallId" id (tool_subagent s).
Definition reasoning_end (id : string) (s : reasoningState) : Event :=
  scopedBoundary "REASONING_MESSAGE_END" "messageId" id (reasoning_subagent s).
Definition step_end (_ : string) (s : stepState) : Event :=
  scopedBoundary "STEP_FINISHED" "stepName" (step_name s) (step_subagent s).

Section Range.
(** The order in which a [range] over a set of spans meets them. *)
Context (range : gset string -> list string).

(** A span without open messages is closed, in the name of the first of its
    messages a range over them meets. *)
Definition in_span (span_id : string) (s : reasoningState) : bool := bool_decide (span s = span_id).
Definition span_busy (span_id : string) (t : Translator) : bool :=
  existsb (fun '(_, s) => in_span span_id s && negb (reasoning_ended s)) (map_to_list (reasonings t)).
Definition span_owner (span_id : string) (t : Translator) : string :=
  match list_find (fun x => in_span span_id x.2 = true) (map_to_list (reasonings t)) with
  | Some (_, x) => reasoning_subagent x.2
  | None => ""
  end.
Definition close_span (owner span_id : string) (t : Translator) : list Event * Translator :=
  if negb (span_busy span_id t) && default false (reasoningSpans t !! span_id)
  then ([scopedBoundary "REASONING_END" "messageId" span_id owner], set_reasoningSpans (<[span_id := false]> (reasoningSpans t)) t)
  else ([], t).
Fixpoint close_spans (spans : list string) (t : Translator) : list Event * Translator :=
  match spans with
  | [] => ([], t)
  | span_id :: spans =>
      let '(evs, t) := close_span (span_owner span_id t) span_id t in
      let '(rest, t) := close_spans spans t in (evs ++ rest, t)
  end.

(** The messages of a model call, all of them when it has no name. *)
Definition owned_by (o : string) (t : Translator) (id : string) : bool :=
  match reasonings t !! id with Some s => bool_decide (o = "" \/ owner s = o) | None => false end.
Definition closeReasoning (o : string) (t : Translator) : list Event * Translator :=
  let ids := filter (fun id => owned_by o t id = true) (reasoningOrder t) in
  let spans := list_to_set (omap (fun id => span <$> reasonings t !! id) ids) : gset string in
  let '(evs, rs) := close_all reasoning_ended (end_reasoning_state true) reasoning_end ids (reasonings t) in
  let '(rest, t) := close_spans (range spans) (set_reasonings rs t) in
  (evs ++ rest, t).

Definition closeReasoningItem (id : string) (t : Translator) : list Event * Translator :=
  match reasonings t !! id with
  | Some s =>
      if reasoning_ended s then ([], t)
      else
        let t := set_reasonings (<[id := end_reasoning_state true s]> (reasonings t)) t in
        let '(rest, t) := close_span (reasoning_subagent s) (span s) t in (reasoning_end id s :: rest, t)
  | None => ([], t)
  end.

Definition closeSteps (t : Translator) : list Event * Translator :=
  let '(evs, s) := close_all step_ended (end_step true) step_end (stepOrder t) (steps t) in (evs, set_steps s t).

Definition closeOpen (t : Translator) : list Event * Translator :=
  let '(reasoning, t) := closeReasoning "" t in
  let '(text, s) := close_all text_ended (end_text true) text_end (textOrder t) (texts t) in
  let t := set_texts s t in
  let '(tool, s) := close_all tool_ended (end_tool_state true) tool_end (toolOrder t) (tools t) in
  let t := set_tools s t in
  let '(step, t) := closeSteps t in
  (reasoning ++ text ++ tool ++ step, t).

(** ** Usage *)
Definition usage_key (u : usageState) : string := usage_provider u +:+ String (ascii_of_nat 0) "" +:+ usage_model u.
Definition add_usage (groups : gmap string usageState) (u : usageState) : gmap string usageState :=
  let sum := default (mkUsageState "" "" 0 0 0 0 0) (groups !! usage_key u) in
  <[usage_key u := mkUsageState (usage_provider u) (usage_model u) (wrap64 (input sum + input u)) (wrap64 (output sum + output u))
                     (wrap64 (cached sum + cached u)) (wrap64 (reasoning_tokens sum + reasoning_tokens u)) (wrap64 (write sum + write u))]> groups.
Definition named (members : list (string * json)) : list (string * json) := filter (fun m => unset m = false) members.
Definition counted (members : list (string * json)) : list (string * json) := filter (fun m => m.2 <> number 0) members.
Definition usage_entry (u : usageState) : json :=
  obj ([("inputTokens", number (input u)); ("outputTokens", number (output u)); ("totalTokens", number (wrap64 (input u + output u)))]
       ++ named [str "provider" (usage_provider u); str "model" (usage_model u)]
       ++ counted [("cachedInputTokens", number (cached u)); ("reasoningTokens", number (reasoning_tokens u));
                   ("cacheWriteInputTokens", number (write u))]).
Definition runUsage (t : Translator) : list json :=
  let groups := foldl add_usage ∅ (snd <$> map_to_list (usage t)) in
  omap (fun key => usage_entry <$> groups !! key) (merge_sort string_le (fst <$> map_to_list groups)).

Definition usageFields (u : usageState) : json :=
  obj ([("inputTokens", number (input u)); ("outputTokens", number (output u)); ("totalTokens", number (wrap64 (input u + output u)));
        ("cachedInputTokens", number (cached u)); ("reasoningTokens", number (reasoning_tokens u));
        ("cacheWriteInputTokens", number (write u))]
       ++ named [str "provider" (usage_provider u); str "model" (usage_model u)]).
Definition usageEvent (id : string) (t : Translator) : Event :=
  let u := default (mkUsageState "" "" 0 0 0 0 0) (usage t !! id) in
  plain_event "CUSTOM" [str "name" "agently.usage";
                        ("value", obj [str "version" "1"; str "scope" "model_call"; str "modelCallId" id; ("usage", usageFields u)])].

Definition recordUsage (e : NativeEvent) (id : string) (t : Translator) : bool * Translator :=
  match Usage e with
  | None => (false, t)
  | Some u =>
      if bool_decide (Scope u <> "model_call" \/ id = "") then (false, t)
      else if bool_decide (InputTokens u < 0 \/ OutputTokens u < 0 \/ CachedInputTokens u < 0 \/ ReasoningTokens u < 0 \/ CacheWriteInputTokens u < 0)
      then (false, set_historyErr (Some "negative native token usage") t)
      else
        let prior := usage t !! id in
        let known f := match prior with Some p => f p | None => "" end in
        let write_tokens := if bool_decide (CacheWriteInputTokens u = 0) then match prior with Some p => write p | None => 0 end
                            else CacheWriteInputTokens u in
        let state := mkUsageState (first_set [provider_of e; known usage_provider]) (first_set [model_of e; known usage_model])
                       (InputTokens u) (OutputTokens u) (CachedInputTokens u) (ReasoningTokens u) write_tokens in
        if bool_decide (prior = Some state) then (false, t) else (true, set_usage (<[id := state]> (usage t)) t)
  end.

(** ** The end of the run *)
Definition Finish (outcome : string) (t : Translator) : list Event * Translator :=
  if done t then ([], t)
  else
    let '(started, t) := Start t in
    let '(closed, t) := closeOpen t in
    let t := set_done true t in
    let result := obj [str "type" (if bool_decide (outcome = "cancelled") then outcome else "success")] in
    let finished :=
      match runUsage t with
      | [] => plain_event "RUN_FINISHED" [str "threadId" (threadID t); str "runId" (runID t); ("outcome", result)]
      | usage => standardEvent [str "type" "RUN_FINISHED"; str "threadId" (threadID t); str "runId" (runID t); ("outcome", result);
                                ("usage", JArray usage)]
      end in
    (started ++ closed ++ [finished], t).

Definition Fail_run (message code : string) (t : Translator) : list Event * Translator :=
  if done t then ([], t)
  else
    let '(started, t) := Start t in
    let '(closed, t) := closeOpen t in
    let t := set_done true t in
    let message := if bool_decide (message = "") then "Agent run failed" else message in
    (started ++ closed ++ [plain_event "RUN_ERROR" [str "message" message; str "code" code]], t).

(** ** Text *)
Definition replaceText (id text : string) (t : Translator) : list Event * Translator :=
  match message id (messages t) with
  | None => Fail_run "Authoritative message history is not available for text replacement" "MISSING_AUTHORITATIVE_HISTORY" t
  | Some m =>
      let t := save id (put "content" (JString text) m) t in
      let t := set_texts (alter (set_content text) id (texts t)) t in
      ([standardEvent [str "type" "MESSAGES_SNAPSHOT"; ("messages", JArray (JObject <$> messages t))]], t)
  end.

(** What is new in a text whose [known] part was emitted. *)
Inductive reconciled := NewText (delta : string) | Replaced | Refused (message : string) (code : string) | Repeated.
Definition conflict : reconciled := Refused "Assistant text offset conflicts with emitted content" "UNSUPPORTED_TEXT_OFFSET".
Definition from_byte (n : nat) (s : string) : string := Prelude.text (drop n (bytes s)).
Definition reconcile (known text : string) (snapshot seeded : bool) (offset : option Z) : reconciled :=
  if snapshot then
    match cut_prefix (bytes known) (bytes text) with
    | Some rest => NewText (Prelude.text rest)
    | None =>
        if seeded then Replaced
        else Refused "Assistant text replacement is unsupported by this chat profile" "UNSUPPORTED_TEXT_REPLACEMENT"
    end
  else
    match offset with
    | None => NewText text
    | Some o =>
        let size := length (bytes known) in
        let n := length (bytes text) in
        if bool_decide (o < 0 \/ Z.of_nat size < o)
        then Refused "Assistant text offset cannot be reconciled" "UNSUPPORTED_TEXT_OFFSET"
        else
          let o := Z.to_nat o in
          let overlap := (size - o)%nat in
          if Nat.leb n overlap then
            if bool_decide (take n (drop o (bytes known)) <> bytes text) then conflict else Repeated
          else if bool_decide (drop o (bytes known) <> take overlap (bytes text)) then conflict
          else NewText (from_byte overlap text)
    end.

Definition on_text (given text : string) (snapshot : bool) (offset : option Z) (t : Translator) : list Event * Translator :=
  let id := if bool_decide (given = "") then runID t +:+ "/assistant" else given in
  let '(out, s, t) :=
    match texts t !! id with
    | Some s => ([], s, t)
    | None =>
        let s := mkText "" (match message id (messages t) with Some m => field m "content" | None => "" end) false in
        ([plain_event "TEXT_MESSAGE_START" [str "messageId" id; str "role" "assistant"]], s,
         set_new_texts (<[id := s]> (texts t)) (textOrder t ++ [id]) t)
    end in
  if text_ended s then
    if snapshot && seeded t && bool_decide (text <> content s) then replaceText id text t else ([], t)
  else
    match reconcile (content s) text snapshot (seeded t) offset with
    | Replaced => let '(evs, t) := replaceText id text t in (out ++ evs, t)
    | Refused message code => Fail_run message code t
    | Repeated => (out, t)
    | NewText delta =>
        if bool_decide (delta = "") then (out, t)
        else (out ++ [plain_event "TEXT_MESSAGE_CONTENT" [str "messageId" id; str "delta" delta]],
              set_texts (alter (fun s => set_content (content s +:+ delta) s) id (texts t)) t)
    end.

(** ** Tool calls *)
Definition is_type (e : NativeEvent) (ts : list NativeType) : bool := bool_decide (EventOf e ∈ ts).
Definition executed (e : NativeEvent) : bool :=
  (bool_decide (ToolMessageID e <> "") || bool_decide (is_Some (ResponsePayload e)) || bool_decide (is_Some (CompletedAt e))
   || bool_decide (Status e ∈ ["completed"; "failed"; "canceled"]) || is_type e [EventTypeToolCallFailed; EventTypeToolCallCanceled])
  && negb (ToolStatusPending (Status e)).

Definition start_tool_call (id : string) (e : NativeEvent) (t : Translator) : list Event * toolState * Translator :=
  let parentID := first_set [AssistantMessageID e; if bool_decide (ToolMessageID e = "") then MessageID e else ""; runID t +:+ "/assistant"] in
  let name := if bool_decide (ToolName e = "") then "unknown" else ToolName e in
  let s := mkTool None "" "" false false parentID in
  let t := set_new_tools (<[id := s]> (tools t)) (toolOrder t ++ [id]) t in
  let '(out, t) := match texts t !! parentID with None => on_text parentID "" true None t | Some _ => ([], t) end in
  (out ++ [plain_event "TOOL_CALL_START" [str "toolCallId" id; str "toolCallName" name; str "parentMessageId" parentID]],
   default s (tools t !! id), t).

(** The arguments the event adds to those of the call. *)
Inductive arguments := NewArgs (delta : string) | Unserializable | Diverged.
Definition new_arguments (e : NativeEvent) (known : string) : arguments :=
  let delta := if is_type e [EventTypeToolCallDelta] && negb (executed e) && bool_decide (OperationID e = "") then Content e else "" in
  match Arguments e with
  | None => NewArgs delta
  | Some None => Unserializable
  | Some (Some v) =>
      let b := json_print v in
      if bool_decide (known = "") then NewArgs b
      else if json_valid known then NewArgs delta
      else match cut_prefix (bytes known) (bytes b) with
           | Some rest => NewArgs (Prelude.text rest)
           | None => Diverged
           end
  end.

Definition result_content (e : NativeEvent) : string :=
  let text := match ResponsePayload e with Some (Some v) => json_print v | _ => Content e end in
  if bool_decide (ErrorText e = "") then text else json_print (obj [str "error" (ErrorText e); str "content" text]).

Definition tool_result_event (id : string) (e : NativeEvent) (t : Translator) (s : toolState) : list Event * Translator :=
  if executed e && is_type e [EventTypeToolCallCompleted; EventTypeToolCallFailed; EventTypeToolCallCanceled] && negb (result_known s) then
    let mid := if bool_decide (ToolMessageID e = "") then id +:+ "/result" else ToolMessageID e in
    let ev := plain_event "TOOL_CALL_RESULT" [str "toolCallId" id; str "messageId" mid] in
    ([mkEvent (put "content" (JString (result_content e)) (wire ev)) false false],
     set_tools (alter (set_result true) id (tools t)) t)
  else ([], t).

Definition ends_call (e : NativeEvent) (known : string) : bool :=
  (is_type e [EventTypeToolCallCompleted] && (bool_decide (known <> "") || bool_decide (is_Some (Arguments e)) || executed e))
  || (executed e && bool_decide (is_Some (Arguments e)))
  || is_type e [EventTypeToolCallFailed; EventTypeToolCallCanceled].

Definition on_tool (e : NativeEvent) (t : Translator) : list Event * Translator :=
  let native := first_set [ToolCallID e; if bool_decide (ToolMessageID e = "") then ID e else ""] in
  if bool_decide (native = "") then ([], t)
  else
    let id := toolID (TurnID e) native t in
    let '(out, s, t) := match tools t !! id with Some s => ([], s, t) | None => start_tool_call id e t end in
    if tool_ended s then let '(evs, t) := tool_result_event id e t s in (out ++ evs, t)
    else
      match new_arguments e (args s) with
      | Unserializable => Fail_run "Tool arguments cannot be serialized" "INVALID_TOOL_ARGUMENTS" t
      | Diverged => Fail_run "Tool argument snapshot cannot reconcile emitted deltas" "UNSUPPORTED_TOOL_ARGUMENTS" t
      | NewArgs delta =>
          let known := args s +:+ delta in
          let t := set_tools (alter (set_args known) id (tools t)) t in
          let content := if bool_decide (delta = "") then []
                         else [plain_event "TOOL_CALL_ARGS" [str "toolCallId" id; str "delta" delta]] in
          let ends := ends_call e known in
          let t := if ends then set_tools (alter (end_tool_state true) id (tools t)) t else t in
          let closed := if ends then [plain_event "TOOL_CALL_END" [str "toolCallId" id]] else [] in
          let '(evs, t) := tool_result_event id e t s in
          (out ++ content ++ closed ++ evs, t)
      end.

(** ** Reasoning and model calls *)
Definition on_reasoning (e : NativeEvent) (t : Translator) : list Event * Translator :=
  if bool_decide (EncryptedValue e <> "" /\ EncryptedSubtype e = "tool-call") then
    ([standardEvent [str "type" "REASONING_ENCRYPTED_VALUE"; str "subtype" "tool-call"; str "entityId" (toolID (TurnID e) (EncryptedEntityID e) t);
                     str "encryptedValue" (EncryptedValue e)]], t)
  else
    let id := first_set [ReasoningMessageID e; ID e; MessageID e; modelIdentity e +:+ "/reasoning"] in
    let span_id := if bool_decide (ReasoningSpanID e = "") then id +:+ "/span" else ReasoningSpanID e in
    let '(out, s, t) :=
      match reasonings t !! id with
      | Some s => ([], s, t)
      | None =>
          let s := mkReasoning "" span_id (activeModel t) "" false in
          let t := set_new_reasonings (<[id := s]> (reasonings t)) (reasoningOrder t ++ [id]) t in
          let opens := negb (default false (reasoningSpans t !! span_id)) in
          let t := if opens then set_reasoningSpans (<[span_id := true]> (reasoningSpans t)) t else t in
          ((if opens then [standardEvent [str "type" "REASONING_START"; str "messageId" span_id]] else [])
           ++ [standardEvent [str "type" "REASONING_MESSAGE_START"; str "messageId" id; str "role" "reasoning"]], s, t)
      end in
    if reasoning_ended s then ([], t)
    else
      let text := Content e in
      let t := set_reasonings (alter (fun s => set_reasoning_content (reasoning_content s +:+ text) s) id (reasonings t)) t in
      let delta := if bool_decide (text = "") then []
                   else [standardEvent [str "type" "REASONING_MESSAGE_CONTENT"; str "messageId" id; str "delta" text]] in
      let encrypted :=
        if bool_decide (EncryptedValue e = "") then []
        else [standardEvent [str "type" "REASONING_ENCRYPTED_VALUE"; str "subtype" (first_set [EncryptedSubtype e; "message"]);
                             str "entityId" (first_set [EncryptedEntityID e; id]); str "encryptedValue" (EncryptedValue e)]] in
      (out ++ delta ++ encrypted, t).

Definition modelStep (e : NativeEvent) (complete : bool) (t : Translator) : list Event * Translator :=
  let id := modelIdentity e in
  if bool_decide (id = "") then Fail_run "Native model lifecycle has no call identity" "MISSING_MODEL_CALL_ID" t
  else
    let '(opened, t) :=
      match steps t !! id with
      | Some _ => ([], t)
      | None =>
          let name := "model/" +:+ id in
          let t := set_activeModel id (set_new_steps (<[id := mkStep "" name false]> (steps t)) (stepOrder t ++ [id]) t) in
          let metadata := obj [("agently", obj [str "provider" (Provider e); str "model" (ModelName e); ("iteration", number (Iteration e))])] in
          ([standardEvent [str "type" "STEP_STARTED"; str "stepName" name; ("metadata", metadata)]], t)
      end in
    let '(changed, t) := recordUsage e id t in
    let reported := if changed then [usageEvent id t] else [] in
    match steps t !! id with
    | Some s =>
        if complete && negb (step_ended s) then
          let '(closed, t) := closeReasoning id t in
          let t := set_steps (<[id := end_step true s]> (steps t)) t in
          let finished := standardEvent [str "type" "STEP_FINISHED"; str "stepName" (step_name s)] in
          (opened ++ reported ++ closed ++ [finished], if bool_decide (activeModel t = id) then set_activeModel "" t else t)
        else (opened ++ reported, t)
    | None => (opened ++ reported, t)
    end.

(** ** Presentation activities (translator_presentation.go) *)
Section Presentation.
Context (ValidateEvent : json -> bool) (ValidatePresentation : string -> json -> bool).

Definition activity (kind id : string) (content : json) (replace : list (string * json)) : Event :=
  standardEvent ([str "type" "ACTIVITY_SNAPSHOT"; str "messageId" id; str "activityType" kind; ("content", content)] ++ replace).
Definition presentationActivity (kind id : string) (content : list (string * json)) (t : Translator) : list Event * Translator :=
  if bool_decide (id = "") then ([], t)
  else
    let content := JObject (put "version" (JString "1") (of_members content)) in
    if ValidatePresentation kind content then ([activity kind id content [("replace", JBool true)]], t)
    else Fail_run "Native presentation descriptor is invalid" "INVALID_PRESENTATION" t.

Definition turn_status (e : NativeEvent) : string :=
  match EventOf e with
  | EventTypeTurnStarted => "running"
  | EventTypeTurnQueued => "queued"
  | EventTypeTurnCompleted => "completed"
  | EventTypeTurnCanceled => "canceled"
  | EventTypeTurnFailed => "failed"
  | _ => Status e
  end.
Definition turnPresentation (e : NativeEvent) (t : Translator) : list Event * Translator :=
  if bool_decide (TurnID e = "") then ([], t)
  else
    presentationActivity "agently.turn" (TurnID e +:+ "/turn")
      ([str "nativeTurnId" (TurnID e); str "status" (turn_status e); str "queueSequence" (int_text (QueueSeq e))]
       ++ named [str "startedByMessageId" (StartedByMessageID e); str "origin" (QueueOrigin e); str "goalId" (GoalID e);
                 str "statusReason" (StatusReason e)]) t.

Definition feedPresentation (e : NativeEvent) (t : Translator) : list Event * Translator :=
  if bool_decide (FeedID e = "") then ([], t)
  else
    presentationActivity "agently.feed" (ConversationID e +:+ "/feed/" +:+ FeedID e +:+ "/activity")
      ([str "feedId" (FeedID e); ("active", JBool (negb (is_type e [EventTypeToolFeedInactive]))); str "title" (FeedTitle e);
        ("developerOnly", JBool (FeedDeveloperOnly e)); ("itemCount", number (FeedItemCount e))]
       ++ (if bool_decide (FeedIcon e = "" /\ FeedAccent e = "" /\ FeedTarget e = "") then []
           else [("presentation", obj [str "icon" (FeedIcon e); str "accent" (FeedAccent e); str "target" (FeedTarget e)])])
       ++ match FeedData e with Some v => [("data", v)] | None => [] end) t.

Definition planned_call (e : NativeEvent) (t : Translator) (call : PlannedToolCall) : json :=
  obj [str "toolCallId" (toolID (TurnID e) (Planned_ToolCallID call) t); str "toolName" (Planned_ToolName call)].
Definition plannedToolsPresentation (e : NativeEvent) (t : Translator) : list Event * Translator :=
  let id := first_set [PageID e; AssistantMessageID e; MessageID e] in
  match ToolCallsPlanned e with
  | [] => ([], t)
  | calls =>
      if bool_decide (id = "") then ([], t)
      else presentationActivity "agently.tools-planned" (id +:+ "/planned-tools") [("calls", JArray (planned_call e t <$> calls))] t
  end.

Definition plannerPresentation (e : NativeEvent) (t : Translator) : list Event * Translator :=
  if bool_decide (TurnID e = "") then ([], t)
  else
    presentationActivity "agently.planner" (TurnID e +:+ "/planner")
      ([str "status" (TrimPrefix (type_text (EventOf e)) "planner."); ("attempt", number (PlannerAttempt e));
        str "trigger" (PlannerTrigger e); str "staticProfile" (PlannerStaticProfile e);
        str "strategyFamily" (PlannerStrategyFamily e); str "secondPolicy" (PlannerSecondPolicy e)]
       ++ named [str "outputPayloadId" (PlannerOutputPayloadID e)]
       ++ match PlannerValidated e with Some b => [("validated", JBool b)] | None => [] end) t.

Definition narrationPresentation (e : NativeEvent) (t : Translator) : list Event * Translator :=
  let id := first_set [MessageID e; AssistantMessageID e; ToolMessageID e] in
  if bool_decide (id = "") then ([], t)
  else
    presentationActivity "agently.narration" (id +:+ "/narration")
      [str "text" (first_set [Content e; Narration e]); str "source" (NarrationSource e); str "status" (Status e);
       str "toolCallId" (toolID (TurnID e) (ToolCallID e) t)] t.

Definition aggregateUsagePresentation (e : NativeEvent) : list Event :=
  let event scope usage :=
    [plain_event "CUSTOM" [str "name" "agently.usage";
                           ("value", obj [str "version" "1"; str "scope" scope; str "nativeTurnId" (TurnID e); ("usage", usage)])]] in
  match Usage e with
  | Some u =>
      if bool_decide (Scope u = "model_call") then []
      else event (first_set [Scope u; "conversation"]) (obj (usage_presentation u))
  | None =>
      event "conversation" (obj [("inputTokens", number (UsageInputTokens e)); ("outputTokens", number (UsageOutputTokens e));
                                 ("embeddingTokens", number (UsageEmbeddingTokens e)); ("totalTokens", number (UsageTotalTokens e))])
  end.

Definition execution_status (e : NativeEvent) (waiting : bool) : string :=
  if bool_decide (Status e <> "") then Status e
  else if waiting then "waiting_for_user"
  else match EventOf e with
       | EventTypeToolCallStarted => "running"
       | EventTypeToolCallCompleted => "completed"
       | EventTypeToolCallFailed => "failed"
       | EventTypeToolCallCanceled => "canceled"
       | _ => ""
       end.
Definition execution_value (e : NativeEvent) (id : string) (waiting : bool) (prior : list (string * json)) : list (string * json) :=
  let o := put_all prior (of_members [str "toolCallId" id; str "phase" "execution"; str "status" (Status e)]) in
  let o := put_all [str "toolCallId" id; str "phase" (if waiting then "waiting" else "execution");
                    str "status" (execution_status e waiting); str "version" "1"] o in
  let o := put_text "toolMessageId" (ToolMessageID e) o in
  if waiting then o else put_time "completedAt" (CompletedAt e) (put_time "startedAt" (StartedAt e) o).
Definition toolExecutionPresentation (e : NativeEvent) (t : Translator) : list Event * Translator :=
  let waiting := is_type e [EventTypeToolCallWaiting] || ToolStatusPending (Status e) in
  if bool_decide (ToolCallID e = "") then ([], t)
  else if negb waiting && bool_decide (ToolMessageID e = "" /\ StartedAt e = None /\ CompletedAt e = None /\ OperationID e = "")
  then ([], t)
  else
    let id := toolID (TurnID e) (ToolCallID e) t in
    let prior := s ← tools t !! id; executionPresentation s in
    let value := execution_value e id waiting (default [] prior) in
    if bool_decide (prior = Some value) then ([], t)
    else
      let t := set_tools (alter (set_execution (Some value)) id (tools t)) t in
      presentationActivity "agently.tool" (id +:+ "/execution") value t.

Definition rendered (feed : bool) (e : NativeEvent) : list Event :=
  let id := first_set [AssistantMessageID e; MessageID e; ID e] in
  if bool_decide (id = "") then []
  else
    match RenderedContent e with
    | Some v =>
        [activity "agently.rendered-content" (id +:+ "/activity") (obj [str "version" "1"; ("renderedContent", v)]) []]
    | None =>
        match FeedData e with
        | Some v =>
            if bool_decide (TrimSpace (FeedID e) = "") || feed then []
            else [activity "agently.feed" (FeedID e +:+ "/activity") (obj [str "version" "1"; str "feedId" (FeedID e); ("data", v)]) []]
        | None => []
        end
    end.
Definition renderedActivity (e : NativeEvent) : list Event :=
  rendered (is_type e [EventTypeToolFeedActive; EventTypeToolFeedInactive]) e.
End Presentation.

(** ** One native event *)
Section Translate.
Context (ValidateEvent : json -> bool) (ValidatePresentation : string -> json -> bool).
Context (decode_error : string) (apply_patch : json -> json -> json + string).

(** An event of an internal message, whose text stays out of the run. *)
Definition hidden (e : NativeEvent) : bool :=
  is_type e [EventTypeTextDelta; EventTypeAssistant; EventTypeItemCompleted; EventTypeReasoningDelta]
  && (negb (is_type e [EventTypeAssistant]) || bool_decide (get "role" (Patch e) <> Some (JString "user"))).

Definition custom (name : string) (value : json) : Event := plain_event "CUSTOM" [str "name" name; ("value", value)].
Definition linked_conversation (e : NativeEvent) (id : string) (t : Translator) : Event :=
  custom "agently.linked-conversation"
    (obj [str "version" "1"; str "conversationId" (LinkedConversationID e); str "agentId" (LinkedConversationAgentID e);
          str "title" (LinkedConversationTitle e); str "parentToolCallId" (toolID (TurnID e) (ToolCallID e) t); str "parentMessageId" id]).
Definition queue_event (e : NativeEvent) : Event :=
  custom "agently.queue"
    (obj (str "version" "1" :: named [str "turnId" (TurnID e); str "sequence" (int_text (QueueSeq e)); str "origin" (QueueOrigin e);
                                      str "startedByMessageId" (StartedByMessageID e)])).
Definition progress_event (e : NativeEvent) (id : string) (t : Translator) : Event :=
  custom "agently.progress"
    (obj ([str "version" "1"; str "kind" (type_text (EventOf e))]
          ++ named [str "messageId" id; str "toolCallId" (toolID (TurnID e) (ToolCallID e) t); str "status" (Status e); str "content" (Content e);
                    str "source" (NarrationSource e)])).

Definition then_ (a b : Translator -> list Event * Translator) (t : Translator) : list Event * Translator :=
  let '(evs, t) := a t in let '(rest, t) := b t in (evs ++ rest, t).

(** [HasToolResult]: this run or one of its subagents knows the result. *)
Fixpoint HasToolResult (id : string) (t : Translator) : bool :=
  match tools t !! id with Some s => result_known s | None => false end
  || existsb (fun '(_, c) => match c with mkSubagent _ child _ _ => HasToolResult id child end) (children t).

Definition item_completed (e : NativeEvent) (id : string) (t : Translator) : list Event * Translator :=
  let '(evs, t) := closeReasoningItem (ReasoningMessageID e) t in
  match texts t !! id with
  | Some s =>
      if text_ended s then (evs, t)
      else (evs ++ [plain_event "TEXT_MESSAGE_END" [str "messageId" id]], set_texts (<[id := end_text true s]> (texts t)) t)
  | None => (evs, t)
  end.

(** The events of each type of native event; the branch of protocol events is
    [AguiBridge.translate_protocol]. *)
Definition dispatch (e : NativeEvent) (id : string) (t : Translator) : list Event * Translator :=
  let turn := turnPresentation ValidatePresentation e in
  let tool_execution := toolExecutionPresentation ValidatePresentation e in
  match EventOf e with
  | EventTypeTurnStarted => turn t
  | EventTypeTurnCompleted => then_ turn (Finish "success") t
  | EventTypeTurnCanceled => then_ turn (Finish "cancelled") t
  | EventTypeTurnFailed => then_ turn (Fail_run (ErrorText e) "AGENT_ERROR") t
  | EventTypeError => Fail_run (ErrorText e) "AGENT_ERROR" t
  | EventTypeTextDelta => on_text id (Content e) (bool_decide (ContentMode e = "snapshot")) (ContentOffset e) t
  | EventTypeAssistant =>
      match get "role" (Patch e) with
      | Some (JString role) => if bool_decide (role = "assistant") then on_text id (Content e) true None t else ([], t)
      | _ => on_text id (Content e) true None t
      end
  | EventTypeItemCompleted => item_completed e id t
  | EventTypeToolCallStarted | EventTypeToolCallDelta | EventTypeToolCallCompleted | EventTypeToolCallFailed | EventTypeToolCallCanceled =>
      if HasToolResult (toolID (TurnID e) (ToolCallID e) t) t then on_tool e t else then_ (on_tool e) tool_execution t
  | EventTypeReasoningDelta | EventTypeReasoningEncrypted => on_reasoning e t
  | EventTypeModelStarted => modelStep e false t
  | EventTypeModelCompleted => modelStep e true t
  | EventTypeUsage =>
      let call := modelIdentity e in
      let '(changed, t) := recordUsage e call t in
      ((if changed then [usageEvent call t] else []) ++ aggregateUsagePresentation e, t)
  | EventTypeToolFeedActive | EventTypeToolFeedInactive => feedPresentation ValidatePresentation e t
  | EventTypeToolCallsPlanned => plannedToolsPresentation ValidatePresentation e t
  | EventTypePlannerSelected | EventTypePlannerOutput | EventTypePlannerValidated | EventTypePlannerFailed =>
      plannerPresentation ValidatePresentation e t
  | EventTypeLinkedConversationAttached => ([linked_conversation e id t], t)
  | EventTypeTurnQueued => let '(evs, t) := turn t in (queue_event e :: evs, t)
  | EventTypeNarration =>
      let '(evs, t') := narrationPresentation ValidatePresentation e t in (progress_event e id t :: evs, t')
  | EventTypeToolCallWaiting => let '(evs, t') := tool_execution t in (progress_event e id t :: evs, t')
  | _ => ([], t)
  end.

(** The event with the text of an internal message removed. *)
Definition without_text (e : NativeEvent) : NativeEvent :=
  match e with
  | mkNative ty i cid tid mid seq aid an amid pmid rid oid rmid rsid ev eid es tcid tmid rp sp prp psp stp lc la lt er ph pg md pa
      _ cm co _ _ ns tn ar et st it pi pc lp mo us tp ca rpl cpl sta qs sb qo gi sr mc pr mn fi ft fd fic fa ftg fc fda ptr psf pst pat
      pv psec pout ui uo ue ut =>
      mkNative ty i cid tid mid seq aid an amid pmid rid oid rmid rsid ev eid es tcid tmid rp sp prp psp stp lc la lt er ph pg md pa
        "" cm co None "" ns tn ar et st it pi pc lp mo us tp ca rpl cpl sta qs sb qo gi sr mc pr mn fi ft fd fic fa ftg fc fda ptr psf pst pat
        pv psec pout ui uo ue ut
  end.

(** [translate] of a native event that is not a protocol event; none is a panic. *)
Definition translate (e : NativeEvent) (t : Translator) : option (list Event * Translator) :=
  if done t then Some ([], t)
  else if bool_decide (0 < EventSeq e /\ EventSeq e ∈ seen t) then Some ([], t)
  else
    let t := if bool_decide (0 < EventSeq e) then set_seen ({[EventSeq e]} ∪ seen t) t else t in
    let '(out, t) := Start t in
    if negb (ValidatePresentation "Presentation" (JObject (nativePresentation e))) then
      let '(evs, t) := Fail_run "Native presentation metadata is invalid" "INVALID_PRESENTATION" t in Some (out ++ evs, t)
    else
      let id := first_set [AssistantMessageID e; MessageID e] in
      let internal := IsInternalMessageMode (Mode e) in
      let t := if internal && bool_decide (id <> "") then set_internalMessages ({[id]} ∪ internalMessages t) t else t in
      let silent := internal || bool_decide (id ∈ internalMessages t) in
      if silent && hidden e then Some (out, t)
      else
        let e := if silent && is_type e [EventTypeModelCompleted] then without_text e else e in
        let '(events, t) := dispatch e (first_set [id; ID e]) t in
        let events := if done t then events else events ++ renderedActivity e in
        let events := (fun ev => annotateNativePresentation ValidateEvent ev e) <$> events in
        t ← capture decode_error apply_patch events t;
        match historyErr t with
        | Some err => let '(evs, t) := Fail_run err "INVALID_NATIVE_SOURCE" t in Some (out ++ evs, t)
        | None => Some (out ++ events, t)
        end.

Definition CompleteText (id text : string) (t : Translator) : option (list Event * Translator) :=
  if done t then Some ([], t)
  else
    let '(out, t) := Start t in
    let '(events, t) := on_text id text true None t in
    t ← capture decode_error apply_patch events t;
    Some (out ++ events, t).
End Translate.
End Range.

Definition HasText (t : Translator) : bool :=
  existsb (fun '(_, s) => bool_decide (content s <> "" /\ text_subagent s = "")) (map_to_list (texts t)).
