(* ===== verification/AguiTranslateDemo.v ===== *)
(** * Runs of the translator

    The scenarios of src/protocol/agui/translator_test.go, with the events the
    tests expect. *)
From stdpp Require Import base gmap strings list.
From Stdlib Require Import ZArith.
From S2P Require Import Prelude GoStrings JsonValue JsonCodec AguiPatch AguiProjection AguiNative AguiTranslator AguiTranslate AguiDemo.

Open Scope Z_scope.

(** The fields the scenarios set; the others are zero. *)
Record shape := mkShape {
  message_id : string; assistant_id : string; call : string; tool_message : string; tool_name : string;
  says : string; mode : string; offset : option Z; with_arguments : option marshaled; payload : option marshaled;
  failure : string; state : string; seq : Z
}.
Definition blank : shape := mkShape "" "" "" "" "" "" "" None None None "" "" 0.
Definition native (typ : NativeType) (s : shape) : NativeEvent :=
  {| EventOf := typ; ID := ""; ConversationID := ""; TurnID := ""; MessageID := message_id s; EventSeq := seq s; AgentIDUsed := "";
     AgentName := ""; AssistantMessageID := assistant_id s; ParentMessageID := ""; ResponseID := ""; OperationID := "";
     ReasoningMessageID := ""; ReasoningSpanID := ""; EncryptedValue := ""; EncryptedEntityID := ""; EncryptedSubtype := "";
     ToolCallID := call s; ToolMessageID := tool_message s; RequestPayloadID := ""; ResponsePayloadID := "";
     ProviderRequestPayloadID := ""; ProviderResponsePayloadID := ""; StreamPayloadID := ""; LinkedConversationID := "";
     LinkedConversationAgentID := ""; LinkedConversationTitle := ""; ExecutionRole := ""; Phase := ""; PageID := ""; Mode := "";
     Patch := []; Content := says s; ContentMode := mode s; ContentOffset := offset s; RenderedContent := None; Narration := "";
     NarrationSource := ""; ToolName := tool_name s; Arguments := with_arguments s; ErrorText := failure s; Status := state s;
     Iteration := 0; PageIndex := 0; PageCount := 0; LatestPage := false; Model := None; Usage := None; ToolCallsPlanned := [];
     CreatedAt := 0; ResponsePayload := payload s; CompletedAt := None; StartedAt := None; QueueSeq := 0; StartedByMessageID := "";
     QueueOrigin := ""; GoalID := ""; StatusReason := ""; ModelCallID := ""; Provider := ""; ModelName := ""; FeedID := "";
     FeedTitle := ""; FeedDeveloperOnly := false; FeedIcon := ""; FeedAccent := ""; FeedTarget := ""; FeedItemCount := 0;
     FeedData := None; PlannerTrigger := ""; PlannerStaticProfile := ""; PlannerStrategyFamily := ""; PlannerAttempt := 0;
     PlannerValidated := None; PlannerSecondPolicy := ""; PlannerOutputPayloadID := ""; UsageInputTokens := 0;
     UsageOutputTokens := 0; UsageEmbeddingTokens := 0; UsageTotalTokens := 0 |}.

Definition says_delta (id s : string) (at_offset : option Z) (seq : Z) : NativeEvent :=
  native EventTypeTextDelta (mkShape id "" "" "" "" s "" at_offset None None "" "" seq).
Definition says_all (id s : string) : NativeEvent := native EventTypeAssistant (mkShape id "" "" "" "" s "" None None None "" "" 0).
Definition tool_event (typ : NativeType) (id owner result name status failure : string) (a p : option marshaled) : NativeEvent :=
  native typ (mkShape "" owner id result name "" "" None a p failure status 0).
Definition ends (typ : NativeType) : NativeEvent := native typ blank.

(** Every event is valid, no patch applies. *)
Definition valid_presentation (_ : string) (_ : json) : bool := true.
Definition no_patch (_ _ : json) : json + string := inr "patch".
Definition by_elements (spans : gset string) : list string := elements spans.
Definition translate_demo : NativeEvent -> Translator -> option (list Event * Translator) :=
  translate by_elements accept valid_presentation "json" no_patch.

Fixpoint run (es : list NativeEvent) (t : Translator) : option (list Event * Translator) :=
  match es with
  | [] => Some ([], t)
  | e :: es =>
      '(evs, t) ← translate_demo e t;
      '(rest, t) ← run es t;
      Some (evs ++ rest, t)
  end.
Definition kinds (r : option (list Event * Translator)) : list string := match r with Some (evs, _) => type_of <$> evs | None => [] end.
Definition deltas (r : option (list Event * Translator)) : list string :=
  match r with Some (evs, _) => (fun ev => field (wire ev) "delta") <$> evs | None => [] end.
Definition fresh : Translator := NewTranslator "thread" "run".

Example text_snapshots_and_offsets :
  let hello := says_delta "a" "hello" (Some 0) 1 in
  let again := says_delta "a" "hello" (Some 0) 2 in
  kinds (run [hello] fresh) = ["RUN_STARTED"; "TEXT_MESSAGE_START"; "TEXT_MESSAGE_CONTENT"]
  /\ deltas (run [hello; again; says_all "a" "hello world"] fresh) = [""; ""; "hello"; " world"]
  /\ kinds (run [hello; ends EventTypeTurnCompleted; says_all "a" "late"] fresh)
     = ["RUN_STARTED"; "TEXT_MESSAGE_START"; "TEXT_MESSAGE_CONTENT"; "TEXT_MESSAGE_END"; "RUN_FINISHED"].
Proof. vm_compute. done. Qed.

Definition starts_tool (id : string) : NativeEvent := tool_event EventTypeToolCallStarted id "owner" "" "search" "" "" None None.
Definition query : json := obj [str "q" "abc"].

Example interleaved_tools :
  let both := [starts_tool "one"; starts_tool "two"] in
  let arguments := tool_event EventTypeToolCallCompleted "two" "" "" "" "" "" (Some (Some query)) None in
  let result := tool_event EventTypeToolCallCompleted "two" "" "result-two" "" "completed" "" None (Some (Some (obj [("ok", JBool true)]))) in
  let failed := tool_event EventTypeToolCallFailed "one" "" "" "" "" "recoverable" None None in
  kinds (run (both ++ [arguments; result; result; failed]) fresh)
  = ["RUN_STARTED"; "TEXT_MESSAGE_START"; "TOOL_CALL_START"; "TOOL_CALL_START"; "TOOL_CALL_ARGS"; "TOOL_CALL_END";
     "TOOL_CALL_RESULT"; "ACTIVITY_SNAPSHOT"; "TOOL_CALL_END"; "TOOL_CALL_RESULT"].
Proof. vm_compute. done. Qed.

Example empty_result :
  kinds (run [tool_event EventTypeToolCallCompleted "call" "" "result" "empty" "completed" "" None None] fresh)
  = ["RUN_STARTED"; "TEXT_MESSAGE_START"; "TOOL_CALL_START"; "TOOL_CALL_END"; "TOOL_CALL_RESULT"; "ACTIVITY_SNAPSHOT"].
Proof. vm_compute. done. Qed.

Example later_arguments :
  kinds (run [tool_event EventTypeToolCallStarted "call" "" "result" "search" "running" "" None None;
              tool_event EventTypeToolCallCompleted "call" "" "" "" "" "" (Some (Some query)) None] fresh)
  = ["RUN_STARTED"; "TEXT_MESSAGE_START"; "TOOL_CALL_START"; "ACTIVITY_SNAPSHOT"; "TOOL_CALL_ARGS"; "TOOL_CALL_END"].
Proof. vm_compute. done. Qed.

Example unsupported_replacement :
  kinds (run [says_delta "a" "first" None 0; says_all "a" "replacement"] fresh)
  = ["RUN_STARTED"; "TEXT_MESSAGE_START"; "TEXT_MESSAGE_CONTENT"; "TEXT_MESSAGE_END"; "RUN_ERROR"].
Proof. vm_compute. done. Qed.

(** A first delta that starts past its offset: the end of a message that was
    never started. *)
Example dropped_start :
  kinds (run [says_delta "a" "lo" (Some 3) 0] fresh) = ["RUN_STARTED"; "TEXT_MESSAGE_END"; "RUN_ERROR"].
Proof. vm_compute. done. Qed.
