(* ===== verification/AguiLanes.v ===== *)
(** * The lanes of the translator are life cycles

    The events of the translator as moves of the machine of [AguiLife], and the
    lanes it keeps open as the state of that machine. *)
From stdpp Require Import base gmap strings list fin_maps sets.
From Stdlib Require Import ZArith Ascii.
From S2P Require Import Prelude GoStrings GoJson CanonicalNumber JsonValue JsonCodec AguiPatch AguiProjection AguiProps AguiLife.
From S2P Require Import AguiNative AguiTranslator AguiTranslate.

Open Scope nat_scope.

(** ** The fields of an event *)
Lemma get_foldl_put {A} k (ms o : list (string * A)) :
  k ∉ ms.*1 -> get k (foldl (fun o '(k, v) => put k v o) o ms) = get k o.
Proof.
  revert o. induction ms as [|[k' v] ms IH]; intros o Hk; [done|]. simpl in *. apply not_elem_of_cons in Hk as [Hne Hk].
  rewrite IH by done. by apply get_put_ne.
Qed.

Lemma get_of_members {A} k (ms : list (string * A)) : NoDup ms.*1 -> get k (of_members ms) = get k ms.
Proof.
  unfold of_members. enough (forall o, k ∉ o.*1 -> NoDup ms.*1 -> get k (foldl (fun o '(k, v) => put k v o) o ms) = get k ms) as H
    by (apply H; set_solver).
  induction ms as [|[k' v] ms IH]; intros o Hk Hn; [by apply get_None|]. simpl in *. apply NoDup_cons in Hn as [Hk' Hn].
  destruct (decide (k = k')) as [->|Hne].
  - rewrite get_foldl_put by done. apply get_put_eq.
  - apply IH; [|done]. rewrite put_keys. set_solver.
Qed.

Lemma get_filter_set k (ms : list (string * json)) :
  NoDup ms.*1 -> get k (filter (fun m => unset m = false) ms) = match get k ms with Some (JString "") => None | v => v end.
Proof.
  induction ms as [|[k' v] ms IH]; intros Hn; [done|]. simpl in Hn. apply NoDup_cons in Hn as [Hk Hn].
  rewrite filter_cons. destruct (unset (k', v)) eqn:Eu.
  - rewrite (decide_False (P := true = false)) by done. rewrite IH by done. simpl. destruct (decide (k = k')) as [->|Hne]; [|done].
    apply bool_decide_eq_true in Eu. simpl in Eu. subst v. apply get_None in Hk. by rewrite Hk.
  - rewrite (decide_True (P := false = false)) by done. simpl. destruct (decide (k = k')) as [->|Hne]; [|by apply IH].
    apply bool_decide_eq_false in Eu. simpl in Eu. by destruct v as [| | |[]| |].
Qed.

Lemma field_plain typ ms k :
  NoDup ("type" :: ms.*1) -> field (wire (plain_event typ ms)) k = field (str "type" typ :: ms) k.
Proof.
  intros Hn. unfold field, text_field, plain_event, wire. rewrite get_of_members.
  - cbn [get str]. destruct (decide (k = "type")); [done|]. apply NoDup_cons in Hn as [_ Hn]. rewrite get_filter_set by done.
    by destruct (get k ms) as [[| | |[]| |]|].
  - cbn [fmap list_fmap fst str]. apply NoDup_cons in Hn as [Hk Hn]. apply NoDup_cons. split.
    + intros Hin. apply Hk. revert Hin. clear. induction ms as [|[k v] ms IH]; [done|]. rewrite filter_cons. destruct (decide _); set_solver.
    + clear Hk. induction ms as [|[k' v] ms IH]; [constructor|]. apply NoDup_cons in Hn as [Hk' Hn]. rewrite filter_cons.
      destruct (decide _); [|by apply IH]. apply NoDup_cons. split; [|by apply IH].
      intros Hin. apply Hk'. revert Hin. clear. induction ms as [|[k v0] ms IH]; [done|]. rewrite filter_cons. destruct (decide _); set_solver.
Qed.

Lemma field_standard ms k : NoDup ms.*1 -> field (wire (standardEvent ms)) k = field ms k.
Proof. intros Hn. unfold field, text_field, standardEvent, wire. by rewrite get_of_members. Qed.

(** ** The moves of events *)
Definition move_keys : list string := ["type"; "messageId"; "toolCallId"; "stepName"; "subagentRunId"; "parentSubagentRunId"].

Lemma event_move_ext (o1 o2 : list (string * json)) :
  (forall k, k ∈ move_keys -> get k o1 = get k o2) -> event_move o1 = event_move o2.
Proof.
  intros E. assert (forall k, k ∈ move_keys -> field o1 k = field o2 k) as Ef by (intros k Hk; by apply field_of_get, E).
  assert (ownerKey o1 = ownerKey o2) as Eo.
  { unfold ownerKey, tagged, present, lane. rewrite (E "subagentRunId"), (Ef "subagentRunId") by set_solver. done. }
  unfold event_move, move_of, stepKey, lane, subagent_parent, value_of.
  rewrite (Ef "type"), (Ef "messageId"), (Ef "toolCallId"), (Ef "stepName"), (Ef "subagentRunId"), (Ef "parentSubagentRunId"),
    (E "parentSubagentRunId"), Eo by set_solver. done.
Qed.

Definition moved (ev : Event) : option move := event_move (wire ev).

Lemma moved_annotate validate ev e : moved (annotateNativePresentation validate ev e) = moved ev.
Proof.
  unfold annotateNativePresentation, stamped. destruct (standard ev && _); [done|]. apply event_move_ext. intros k Hk.
  cbn [wire]. rewrite get_put_ne by set_solver. case_bool_decide; [done|]. by rewrite get_put_ne by set_solver.
Qed.

Ltac keys := cbn [fmap list_fmap fst str app]; apply (bool_decide_unpack _); vm_compute; exact I.

(** A plain event whose identifiers are fields of its own. *)
Lemma moved_plain typ ms :
  NoDup ("type" :: ms.*1) -> "subagentRunId" ∉ ms.*1 -> "parentSubagentRunId" ∉ ms.*1 ->
  moved (plain_event typ ms) = event_move (str "type" typ :: ms).
Proof.
  intros Hn Hs Hp. set (w := wire (plain_event typ ms)).
  assert (forall k, field w k = field (str "type" typ :: ms) k) as Ef by (intros k; by apply field_plain).
  assert (forall k, k ∉ ms.*1 -> k <> "type" -> get k w = None) as En.
  { intros k Hk Ht. apply get_None. unfold w, plain_event, wire, of_members. intros Hin.
    assert (forall (l o : list (string * json)), k ∈ (foldl (fun o '(k, v) => put k v o) o l).*1 -> k ∈ o.*1 \/ k ∈ l.*1) as Hf.
    { induction l as [|[k' v] l IH]; intros o H; [by left|]. simpl in *. apply IH in H as [H|H]; [|set_solver].
      apply put_keys in H as [->|H]; set_solver. }
    apply Hf in Hin as [Hin|Hin]; [set_solver|]. cbn [fmap list_fmap fst str] in Hin. apply elem_of_cons in Hin as [->|Hin]; [done|].
    apply Hk. revert Hin. clear. induction ms as [|m ms IH]; [done|]. rewrite filter_cons. destruct (decide _); set_solver. }
  assert (forall k, k ∉ ms.*1 -> k <> "type" -> get k (str "type" typ :: ms) = None) as En'.
  { intros k Hk Ht. apply get_None. cbn [fmap list_fmap fst str]. set_solver. }
  unfold moved, event_move, move_of, stepKey, ownerKey, tagged, present, lane, subagent_parent, value_of.
  fold w. rewrite !Ef, (En "subagentRunId"), (En "parentSubagentRunId"), (En' "subagentRunId"), (En' "parentSubagentRunId") by done. done.
Qed.

Lemma moved_standard ms : NoDup ms.*1 -> moved (standardEvent ms) = event_move ms.
Proof. intros Hn. apply event_move_ext. intros k _. by apply get_of_members. Qed.

(** The steps of an untagged event. *)
Definition step_lane (name : string) : string := json_print (JArray [JString "parent:"; JString name]).

Lemma step_lane_inj n1 n2 : ValidString n1 = true -> ValidString n2 = true -> step_lane n1 = step_lane n2 -> n1 = n2.
Proof.
  intros H1 H2 E. assert (forall n, ValidString n = true -> json_parse (step_lane n) = Some (JArray [JString "parent:"; JString n])) as Hp.
  { intros n Hn. apply parse_printed. simpl. by rewrite Hn. }
  pose proof (Hp n1 H1) as P1. rewrite E, (Hp n2 H2) in P1. by injection P1.
Qed.

Lemma text_start_move id : moved (plain_event "TEXT_MESSAGE_START" [str "messageId" id; str "role" "assistant"]) = Some (AguiLife.Open TextStream id).
Proof. rewrite moved_plain by first [keys|set_solver]. done. Qed.
Lemma text_content_move id d : moved (plain_event "TEXT_MESSAGE_CONTENT" [str "messageId" id; str "delta" d]) = Some (Use TextStream id).
Proof. rewrite moved_plain by first [keys|set_solver]. done. Qed.
Lemma text_end_move id : moved (plain_event "TEXT_MESSAGE_END" [str "messageId" id]) = Some (Close TextStream id).
Proof. rewrite moved_plain by first [keys|set_solver]. done. Qed.
Lemma tool_start_move id name p :
  moved (plain_event "TOOL_CALL_START" [str "toolCallId" id; str "toolCallName" name; str "parentMessageId" p]) = Some (AguiLife.Open ToolStream id).
Proof. rewrite moved_plain by first [keys|set_solver]. done. Qed.
Lemma tool_args_move id d : moved (plain_event "TOOL_CALL_ARGS" [str "toolCallId" id; str "delta" d]) = Some (Use ToolStream id).
Proof. rewrite moved_plain by first [keys|set_solver]. done. Qed.
Lemma tool_end_move id : moved (plain_event "TOOL_CALL_END" [str "toolCallId" id]) = Some (Close ToolStream id).
Proof. rewrite moved_plain by first [keys|set_solver]. done. Qed.
Lemma tool_result_move id mid c :
  moved (mkEvent (put "content" (JString c) (wire (plain_event "TOOL_CALL_RESULT" [str "toolCallId" id; str "messageId" mid]))) false false)
  = Some Other.
Proof.
  unfold moved. cbn [wire]. rewrite (event_move_ext _ (wire (plain_event "TOOL_CALL_RESULT" [str "toolCallId" id; str "messageId" mid]))).
  - change (moved (plain_event "TOOL_CALL_RESULT" [str "toolCallId" id; str "messageId" mid]) = Some Other).
    rewrite moved_plain by first [keys|set_solver]. done.
  - intros k Hk. rewrite get_put_ne; [done|]. set_solver.
Qed.
Lemma custom_move name v : moved (plain_event "CUSTOM" [str "name" name; ("value", v)]) = Some Other.
Proof. rewrite moved_plain by first [keys|set_solver]. done. Qed.
Lemma error_move m c : moved (plain_event "RUN_ERROR" [str "message" m; str "code" c]) = Some FailRun.
Proof. rewrite moved_plain by first [keys|set_solver]. done. Qed.

(** The boundary event of a lane of the run itself. *)
Lemma boundary_move kind key id :
  NoDup ["type"; key] -> moved (scopedBoundary kind key id "") = event_move [str "type" kind; str key id].
Proof. intros Hn. unfold scopedBoundary. rewrite bool_decide_true by done. rewrite app_nil_r. by apply moved_standard. Qed.

Lemma standard_move ms mv : NoDup ms.*1 -> event_move ms = mv -> moved (standardEvent ms) = mv.
Proof. intros Hn <-. by apply moved_standard. Qed.
Lemma reasoning_span_start_move id : moved (standardEvent [str "type" "REASONING_START"; str "messageId" id]) = Some (AguiLife.Open SpanStream id).
Proof. apply standard_move; [keys|done]. Qed.
Lemma reasoning_start_move id r :
  moved (standardEvent [str "type" "REASONING_MESSAGE_START"; str "messageId" id; str "role" r]) = Some (AguiLife.Open ReasoningStream id).
Proof. apply standard_move; [keys|done]. Qed.
Lemma reasoning_content_move id d :
  moved (standardEvent [str "type" "REASONING_MESSAGE_CONTENT"; str "messageId" id; str "delta" d]) = Some (Use ReasoningStream id).
Proof. apply standard_move; [keys|done]. Qed.
Lemma encrypted_move s i v :
  moved (standardEvent [str "type" "REASONING_ENCRYPTED_VALUE"; str "subtype" s; str "entityId" i; str "encryptedValue" v]) = Some Other.
Proof. apply standard_move; [keys|done]. Qed.
Lemma snapshot_move v : moved (standardEvent [str "type" "MESSAGES_SNAPSHOT"; ("messages", v)]) = Some Other.
Proof. apply standard_move; [keys|done]. Qed.
Lemma step_start_move name v :
  moved (standardEvent [str "type" "STEP_STARTED"; str "stepName" name; ("metadata", v)]) = Some (AguiLife.Open StepStream (step_lane name)).
Proof. apply standard_move; [keys|done]. Qed.
Lemma step_finish_move name :
  moved (standardEvent [str "type" "STEP_FINISHED"; str "stepName" name]) = Some (Close StepStream (step_lane name)).
Proof. apply standard_move; [keys|done]. Qed.
Lemma activity_move kind id c r :
  r = [] \/ r = [("replace", JBool true)] -> moved (activity kind id c r) = Some Other.
Proof. intros [-> | ->]; (apply standard_move; [keys|done]). Qed.

(** ** Sequences of events, up to lives that agree on every stream *)
#[export] Instance same_life_equiv : Equivalence same_life.
Proof.
  split; [done| |].
  - intros l k (H1 & H2 & H3 & H4). by repeat split.
  - intros l k h (H1 & H2 & H3 & H4) (H5 & H6 & H7 & H8). repeat split; try congruence. all: intros s; by rewrite H8.
Qed.

#[export] Instance lives_proper mv : Proper (same_life ==> same_life ==> iff) (lives mv).
Proof.
  enough (forall l k l' k', same_life l k -> same_life l' k' -> lives mv l l' -> lives mv k k') as H.
  { intros l k E l' k' E'. split; apply H; done || by symmetry. }
  intros l k l' k' (R & F & S & O) (R' & F' & S' & O') Hl.
  assert (active l -> active k) as A by (unfold active; by rewrite R, F).
  assert (forall s ids ids', ids = ids' -> reopened s ids l l' -> reopened s ids' k k') as Re.
  { intros s ids ids' <- (H1 & H2 & H3 & H4). split; [congruence|]. split; [congruence|]. split; [congruence|]. intros s'. rewrite O', O. apply H4. }
  assert (same_life l l' -> same_life k k') as Sa.
  { intros (H1 & H2 & H3 & H4). split; [congruence|]. split; [congruence|]. split; [congruence|]. intros s. rewrite O', O. apply H4. }
  destruct Hl; [apply lives_start|apply lives_finish|apply lives_fail|apply lives_open|apply lives_use|apply lives_close
    |apply lives_start_subagent|apply lives_end_subagent|apply lives_other]; rewrite ?R, ?F, ?S, ?R', ?F', ?S'; auto; try congruence;
    try (intros s'; rewrite ?O, ?O'; auto); try (eapply Re; [|eassumption]; by rewrite O); by rewrite O.
Qed.

Lemma trace_same l k moves l' : same_life l k -> trace l moves l' -> exists k', trace k moves k' /\ same_life l' k'.
Proof.
  intros E H. revert k E. induction H as [l|l mv l1 mvs l2 Hm _ IH]; intros k E; [exists k; by split; [constructor|]|].
  destruct (IH l1) as (k' & Ht & E'); [done|]. exists k'. split; [|done]. apply (trace_cons _ _ l1); [by rewrite <- E|done].
Qed.

Definition emits (l : Life) (evs : list Event) (l' : Life) : Prop :=
  exists moves l1, mapM moved evs = Some moves /\ trace l moves l1 /\ same_life l1 l'.

Lemma emits_same l l' : same_life l l' -> emits l [] l'.
Proof. intros E. exists [], l. split; [done|]. split; [constructor|done]. Qed.
Lemma emits_nil l : emits l [] l.
Proof. by apply emits_same. Qed.
Lemma emits_app l l' l'' evs evs' : emits l evs l' -> emits l' evs' l'' -> emits l (evs ++ evs') l''.
Proof.
  intros (m1 & l1 & E1 & T1 & S1) (m2 & l2 & E2 & T2 & S2). symmetry in S1. destruct (trace_same _ _ _ _ S1 T2) as (l3 & T3 & S3).
  exists (m1 ++ m2), l3. split; [by apply mapM_app_Some|]. split; [by apply trace_app with l1|]. by rewrite <- S3.
Qed.
Lemma emits_one l l' ev mv : moved ev = Some mv -> lives mv l l' -> emits l [ev] l'.
Proof. intros E H. exists [mv], l'. split; [simpl; by rewrite E|]. split; [|done]. econstructor; [done|constructor]. Qed.
Lemma emits_cons l l' l'' ev evs mv : moved ev = Some mv -> lives mv l l' -> emits l' evs l'' -> emits l (ev :: evs) l''.
Proof. intros E H H'. apply (emits_app l l' l'' [ev]); [by eapply emits_one|done]. Qed.
Lemma emits_annotated validate e l evs l' :
  emits l evs l' -> emits l ((fun ev => annotateNativePresentation validate ev e) <$> evs) l'.
Proof.
  intros (moves & l1 & E & T). exists moves, l1. split; [|done]. rewrite <- E. clear E T. induction evs as [|ev evs IH]; [done|].
  cbn [fmap list_fmap mapM]. by rewrite moved_annotate, IH.
Qed.
Lemma emits_other l ev : active l -> moved ev = Some Other -> emits l [ev] l.
Proof. intros Ha E. apply (emits_one _ _ _ Other E). by apply lives_other. Qed.

(** ** The lanes that are open *)
Section Keys.
Context {S : Type} (ended : S -> bool).
Implicit Types m : gmap string S.

Definition open_keys m : gset string := dom (filter (fun x => ended x.2 = false) m).

Lemma elem_open_keys id m : id ∈ open_keys m <-> exists s, m !! id = Some s /\ ended s = false.
Proof.
  unfold open_keys. rewrite elem_of_dom. split.
  - intros [s Hs]. apply map_lookup_filter_Some in Hs as [Hs He]. by exists s.
  - intros (s & Hs & He). exists s. by apply map_lookup_filter_Some.
Qed.

Lemma open_keys_empty : open_keys ∅ = ∅.
Proof. apply set_eq. intros id. rewrite elem_open_keys. split; [intros (s & E & _); by rewrite lookup_empty in E|set_solver]. Qed.

Lemma open_keys_opened id s m : ended s = false -> open_keys (<[id := s]> m) = {[id]} ∪ open_keys m.
Proof.
  intros He. apply set_eq. intros x. rewrite elem_of_union, elem_of_singleton, !elem_open_keys. setoid_rewrite lookup_insert_Some.
  split; [naive_solver|]. intros [->|(s' & Hs & He')]; [naive_solver|]. destruct (decide (id = x)); naive_solver.
Qed.

Lemma open_keys_closed id s m : ended s = true -> open_keys (<[id := s]> m) = open_keys m ∖ {[id]}.
Proof.
  intros He. apply set_eq. intros x. rewrite elem_of_difference, elem_of_singleton, !elem_open_keys. setoid_rewrite lookup_insert_Some.
  split; [naive_solver congruence|]. intros [(s' & Hs & He') Hne]. exists s'. naive_solver.
Qed.

Lemma open_keys_alter id f m : (forall s, ended (f s) = ended s) -> open_keys (alter f id m) = open_keys m.
Proof.
  intros Hf. apply set_eq. intros x. rewrite !elem_open_keys. setoid_rewrite lookup_alter_Some. split.
  - intros (s & [(-> & s' & Hs & ->)|[Hne Hs]] & He); [exists s'; by rewrite <- (Hf s')|by exists s].
  - intros (s & Hs & He). destruct (decide (id = x)) as [->|Hne]; [exists (f s); rewrite Hf|exists s]; naive_solver.
Qed.

Lemma open_keys_ended id f m : (forall s, ended (f s) = true) -> open_keys (alter f id m) = open_keys m ∖ {[id]}.
Proof.
  intros Hf. apply set_eq. intros x. rewrite elem_of_difference, elem_of_singleton, !elem_open_keys. setoid_rewrite lookup_alter_Some. split.
  - intros (s & [(-> & s' & Hs & ->)|[Hne Hs]] & He); [by rewrite Hf in He|naive_solver].
  - intros [(s & Hs & He) Hne]. exists s. naive_solver.
Qed.
End Keys.

Definition lane_name (s : stream) (id : string) : string := match s with StepStream => step_lane ("model/" +:+ id) | _ => id end.
Definition open_lanes (t : Translator) (s : stream) : gset string :=
  match s with
  | TextStream => open_keys text_ended (texts t)
  | ReasoningStream => open_keys reasoning_ended (reasonings t)
  | ToolStream => open_keys tool_ended (tools t)
  | SpanStream => open_keys negb (reasoningSpans t)
  | StepStream => open_keys step_ended (steps t)
  end.
Definition lanes_of (t : Translator) (s : stream) : gset string := set_map (lane_name s) (open_lanes t s).
Definition run_life (failed : bool) (t : Translator) : Life := mkLife (started t && negb (done t)) failed (lanes_of t) ∅.

(** ** The state behind the lanes: what is open was opened here. *)
Record coherent (t : Translator) : Prop := {
  c_texts id s : texts t !! id = Some s -> text_ended s = false -> id ∈ textOrder t /\ text_subagent s = "";
  c_tools id s : tools t !! id = Some s -> tool_ended s = false -> id ∈ toolOrder t /\ tool_subagent s = "";
  c_reasonings id s : reasonings t !! id = Some s ->
    id ∈ reasoningOrder t /\ reasoning_subagent s = "" /\ (reasoning_ended s = false -> reasoningSpans t !! span s = Some true);
  c_spans sp : reasoningSpans t !! sp = Some true -> exists id s, reasonings t !! id = Some s /\ span s = sp;
  c_steps id s : steps t !! id = Some s ->
    id ∈ stepOrder t /\ step_name s = "model/" +:+ id /\ step_subagent s = "" /\ ValidString id = true;
  c_idle : started t = false -> forall s, open_lanes t s = ∅
}.

Lemma model_valid id : ValidString id = true -> ValidString ("model/" +:+ id) = true.
Proof. intros H. exact H. Qed.

Lemma app_string_inj (p s1 s2 : string) : p +:+ s1 = p +:+ s2 -> s1 = s2.
Proof. induction p as [|c p IH]; [done|]. intros E. injection E as E. by apply IH. Qed.

Lemma lane_name_inj t s id1 id2 :
  coherent t -> (s = StepStream -> ValidString id1 = true /\ ValidString id2 = true) -> lane_name s id1 = lane_name s id2 -> id1 = id2.
Proof.
  intros Hc Hv E. destruct s; try done. destruct (Hv eq_refl) as [H1 H2]. simpl in E.
  apply step_lane_inj in E; [|by apply model_valid..]. by apply app_string_inj in E.
Qed.

(** ** Moves of the lanes *)
Definition going (t : Translator) : Prop := started t = true /\ done t = false.
Definition same_run (t t' : Translator) : Prop := started t' = started t /\ done t' = done t.

Lemma going_active t : going t -> active (run_life false t).
Proof. intros [H1 H2]. split; [|done]. simpl. by rewrite H1, H2. Qed.

Lemma same_run_going t t' : same_run t t' -> going t -> going t'.
Proof. intros [H1 H2] [H3 H4]. split; congruence. Qed.

Lemma same_run_refl t : same_run t t.
Proof. done. Qed.

Lemma same_lanes t t' f :
  same_run t t' -> (forall s, open_lanes t' s = open_lanes t s) -> same_life (run_life f t) (run_life f t').
Proof.
  intros [H1 H2] Ho. split; [simpl; congruence|]. split; [done|]. split; [done|]. intros s. simpl. unfold lanes_of. by rewrite Ho.
Qed.

Lemma opens_lane s id t t' :
  going t -> same_run t t' -> id ∉ open_lanes t s ->
  (forall id', id' ∈ open_lanes t s -> lane_name s id = lane_name s id' -> id = id') ->
  (forall s', open_lanes t' s' = if decide (s' = s) then {[id]} ∪ open_lanes t s else open_lanes t s') ->
  lives (AguiLife.Open s (lane_name s id)) (run_life false t) (run_life false t').
Proof.
  intros Hg [H1 H2] Hid Hinj Ho. apply lives_open; [by apply going_active| |].
  - simpl. unfold lanes_of. rewrite elem_of_map. intros (id' & E & Hin). by rewrite <- (Hinj id' Hin E) in Hin.
  - split; [simpl; congruence|]. split; [done|]. split; [done|]. intros s'. simpl. unfold lanes_of. rewrite Ho.
    destruct (decide (s' = s)) as [->|]; [|done]. by rewrite set_map_union_L, set_map_singleton_L.
Qed.

Lemma uses_lane s id t t' :
  going t -> same_run t t' -> id ∈ open_lanes t s -> (forall s', open_lanes t' s' = open_lanes t s') ->
  lives (Use s (lane_name s id)) (run_life false t) (run_life false t').
Proof.
  intros Hg Hr Hid Ho. apply lives_use; [by apply going_active| |by apply same_lanes]. simpl. unfold lanes_of. apply elem_of_map. by exists id.
Qed.

Lemma set_map_difference s id (X : gset string) :
  (forall id', id' ∈ X -> lane_name s id = lane_name s id' -> id = id') ->
  set_map (lane_name s) (X ∖ {[id]}) = (set_map (lane_name s) X : gset string) ∖ {[lane_name s id]}.
Proof.
  intros Hinj. apply set_eq. intros x. rewrite elem_of_difference, elem_of_singleton, !elem_of_map. split.
  - intros (y & -> & Hy). apply elem_of_difference in Hy as [Hy Hne]. rewrite elem_of_singleton in Hne. split; [by exists y|].
    intros E. apply Hne. by rewrite (Hinj y Hy).
  - intros [(y & -> & Hy) Hne]. exists y. split; [done|]. apply elem_of_difference. rewrite elem_of_singleton. split; [done|congruence].
Qed.

Lemma closes_lane s id t t' :
  going t -> same_run t t' -> id ∈ open_lanes t s ->
  (forall id', id' ∈ open_lanes t s -> lane_name s id = lane_name s id' -> id = id') ->
  (forall s', open_lanes t' s' = if decide (s' = s) then open_lanes t s ∖ {[id]} else open_lanes t s') ->
  lives (Close s (lane_name s id)) (run_life false t) (run_life false t').
Proof.
  intros Hg [H1 H2] Hid Hinj Ho. apply lives_close; [by apply going_active| |].
  - simpl. unfold lanes_of. apply elem_of_map. by exists id.
  - split; [simpl; congruence|]. split; [done|]. split; [done|]. intros s'. simpl. unfold lanes_of. rewrite Ho.
    destruct (decide (s' = s)) as [->|]; [|done]. by apply set_map_difference.
Qed.

Lemma step_lane_unique t id id' :
  coherent t -> ValidString id = true -> id' ∈ open_lanes t StepStream -> lane_name StepStream id = lane_name StepStream id' -> id = id'.
Proof.
  intros Hc Hv Hin. apply elem_open_keys in Hin as (s & Hs & _). destruct (c_steps t Hc _ _ Hs) as (_ & _ & _ & Hv').
  by apply (lane_name_inj t StepStream).
Qed.

(** ** Closing the lanes of one kind *)

(** A kind of lane: where its states are kept and which of them are open. *)
Record LaneKind (S : Type) := mkKind {
  k_stream : stream;
  k_get : Translator -> gmap string S;
  k_set : gmap string S -> Translator -> Translator;
  k_ended : S -> bool;
  k_get_set m t : k_get (k_set m t) = m;
  k_set_set m m' t : k_set m (k_set m' t) = k_set m t;
  k_set_get t : k_set (k_get t) t = t;
  k_run m t : same_run t (k_set m t);
  k_lanes m t s : open_lanes (k_set m t) s = if decide (s = k_stream) then open_keys k_ended m else open_lanes t s
}.
Arguments k_stream {S}. Arguments k_get {S}. Arguments k_set {S}. Arguments k_ended {S}. Arguments k_get_set {S}.
Arguments k_set_set {S}. Arguments k_set_get {S}. Arguments k_run {S}. Arguments k_lanes {S}.

Program Definition text_kind : LaneKind textState :=
  {| k_stream := TextStream; k_get := texts; k_set := set_texts; k_ended := text_ended |}.
Next Obligation. done. Qed.
Next Obligation. done. Qed.
Next Obligation. by intros []. Qed.
Next Obligation. done. Qed.
Next Obligation. by intros ?? []. Qed.

Program Definition tool_kind : LaneKind toolState :=
  {| k_stream := ToolStream; k_get := tools; k_set := set_tools; k_ended := tool_ended |}.
Next Obligation. done. Qed.
Next Obligation. done. Qed.
Next Obligation. by intros []. Qed.
Next Obligation. done. Qed.
Next Obligation. by intros ?? []. Qed.

Program Definition reasoning_kind : LaneKind reasoningState :=
  {| k_stream := ReasoningStream; k_get := reasonings; k_set := set_reasonings; k_ended := reasoning_ended |}.
Next Obligation. done. Qed.
Next Obligation. done. Qed.
Next Obligation. by intros []. Qed.
Next Obligation. done. Qed.
Next Obligation. by intros ?? []. Qed.

Program Definition step_kind : LaneKind stepState :=
  {| k_stream := StepStream; k_get := steps; k_set := set_steps; k_ended := step_ended |}.
Next Obligation. done. Qed.
Next Obligation. done. Qed.
Next Obligation. by intros []. Qed.
Next Obligation. done. Qed.
Next Obligation. by intros ?? []. Qed.

Section CloseAll.
Context {S : Type} (K : LaneKind S) (finish : S -> S) (event : string -> S -> Event).
Context (finished : forall s, k_ended K (finish s) = true).
Notation close := (close_all (k_ended K) finish event).

Lemma close_all_lookup order m id :
  (close order m).2 !! id = (fun s => if k_ended K s then s else if decide (id ∈ order) then finish s else s) <$> m !! id.
Proof.
  revert m. induction order as [|x order IH]; intros m; simpl.
  - destruct (m !! id) as [s|]; [|done]. simpl. by destruct (k_ended K s).
  - destruct (m !! x) as [sx|] eqn:Ex.
    + destruct (k_ended K sx) eqn:Ee.
      * rewrite IH. destruct (m !! id) as [s|] eqn:Ei; [|done]. simpl. destruct (k_ended K s) eqn:Es; [done|].
        assert (id <> x) by congruence. do 2 destruct (decide _); try done; set_solver.
      * specialize (IH (<[x := finish sx]> m)). destruct (close order (<[x := finish sx]> m)) as [evs m']. simpl in *. rewrite IH.
        destruct (decide (id = x)) as [->|Hne].
        -- rewrite lookup_insert_eq, Ex. simpl. rewrite finished, Ee. rewrite decide_True by set_solver. done.
        -- rewrite lookup_insert_ne by done. destruct (m !! id) as [s|]; [|done]. simpl. destruct (k_ended K s); [done|].
           do 2 destruct (decide _); try done; set_solver.
    + rewrite IH. destruct (m !! id) as [s|] eqn:Ei; [|done]. simpl. destruct (k_ended K s); [done|].
      assert (id <> x) by congruence. do 2 destruct (decide _); try done; set_solver.
Qed.

Lemma close_all_emits order t :
  going t ->
  (forall id s, k_get K t !! id = Some s -> k_ended K s = false -> moved (event id s) = Some (Close (k_stream K) (lane_name (k_stream K) id))) ->
  (forall id id', id ∈ open_keys (k_ended K) (k_get K t) -> id' ∈ open_keys (k_ended K) (k_get K t) ->
                  lane_name (k_stream K) id = lane_name (k_stream K) id' -> id = id') ->
  emits (run_life false t) (close order (k_get K t)).1 (run_life false (k_set K (close order (k_get K t)).2 t)).
Proof.
  revert t. induction order as [|x order IH]; intros t Hg Hm Hu; simpl; [rewrite k_set_get; apply emits_nil|].
  destruct (k_get K t !! x) as [sx|] eqn:Ex; [|by apply IH]. destruct (k_ended K sx) eqn:Ee; [by apply IH|].
  set (t1 := k_set K (<[x := finish sx]> (k_get K t)) t). specialize (IH t1).
  assert (k_get K t1 = <[x := finish sx]> (k_get K t)) as E1 by apply k_get_set. rewrite E1 in IH.
  destruct (close order (<[x := finish sx]> (k_get K t))) as [evs m']. simpl in *.
  assert (open_lanes t (k_stream K) = open_keys (k_ended K) (k_get K t)) as El.
  { rewrite <- (k_set_get K t) at 1. rewrite k_lanes. by rewrite decide_True. }
  apply (emits_cons _ (run_life false t1) _ _ _ (Close (k_stream K) (lane_name (k_stream K) x))); [by apply Hm| |].
  - apply closes_lane; [done|apply k_run| | |].
    + rewrite El. apply elem_open_keys. by exists sx.
    + intros id' Hid'. rewrite El in Hid'. apply Hu; [|done]. apply elem_open_keys. by exists sx.
    + intros s'. unfold t1. rewrite k_lanes. destruct (decide _); [|done]. rewrite El. by apply open_keys_closed.
  - unfold t1 in IH at 3. rewrite k_set_set in IH. apply IH.
    + by apply (same_run_going t); [apply k_run|].
    + intros id s Hs He. apply lookup_insert_Some in Hs as [[-> <-]|[_ Hs]]; [by rewrite finished in He|by apply Hm].
    + intros id id' H1 H2. rewrite open_keys_closed in H1, H2 by apply finished. apply Hu; set_solver.
Qed.
End CloseAll.

(** ** Closing reasoning *)
Lemma span_busy_spec sp t :
  span_busy sp t = true <-> exists id s, reasonings t !! id = Some s /\ span s = sp /\ reasoning_ended s = false.
Proof.
  unfold span_busy. rewrite existsb_exists. split.
  - intros ([id s] & Hin & Hb). apply list_elem_of_In, elem_of_map_to_list in Hin. apply andb_prop in Hb as [H1 H2].
    apply bool_decide_eq_true in H1. apply negb_true_iff in H2. by exists id, s.
  - intros (id & s & Hs & Hsp & He). exists (id, s). split; [by apply list_elem_of_In, elem_of_map_to_list|].
    unfold in_span. by rewrite bool_decide_true, He by done.
Qed.

Lemma span_owner_run sp t : coherent t -> span_owner sp t = "".
Proof.
  intros Hc. unfold span_owner. destruct (list_find _ _) as [[i [id s]]|] eqn:E; [|done].
  apply list_find_Some in E as (Hi & _). apply list_elem_of_lookup_2, elem_of_map_to_list in Hi. by apply (c_reasonings t Hc) in Hi as (_ & ? & _).
Qed.

Lemma same_run_trans t t' t'' : same_run t t' -> same_run t' t'' -> same_run t t''.
Proof. intros [? ?] [? ?]. split; congruence. Qed.

(** [steps_to t evs t']: a step of the translator that is a sequence of moves. *)
Definition steps_to (t : Translator) (evs : list Event) (t' : Translator) : Prop :=
  emits (run_life false t) evs (run_life false t') /\ coherent t' /\ same_run t t'.

Lemma steps_to_refl t : coherent t -> steps_to t [] t.
Proof. intros Hc. split; [apply emits_nil|done]. Qed.
Lemma steps_to_app t t' t'' evs evs' : steps_to t evs t' -> steps_to t' evs' t'' -> steps_to t (evs ++ evs') t''.
Proof. intros (H1 & _ & K1) (H2 & C2 & K2). split; [by eapply emits_app|]. split; [done|by eapply same_run_trans]. Qed.

Lemma close_span_steps sp t :
  coherent t -> going t ->
  steps_to t (close_span "" sp t).1 (close_span "" sp t).2 /\ (span_busy sp t = false -> reasoningSpans (close_span "" sp t).2 !! sp <> Some true)
  /\ reasonings (close_span "" sp t).2 = reasonings t
  /\ (forall sp', reasoningSpans t !! sp' <> Some true -> reasoningSpans (close_span "" sp t).2 !! sp' <> Some true).
Proof.
  intros Hc Hg. unfold close_span. destruct (span_busy sp t) eqn:Eb; simpl; [split; [by apply steps_to_refl|done]|].
  destruct (reasoningSpans t !! sp) as [[]|] eqn:Es; simpl; [|split; [by apply steps_to_refl|by rewrite Es]..].
  split; [|split; [by rewrite lookup_insert_eq|split; [done|]]].
  - split; [|split; [|done]].
    + eapply (emits_one _ _ _ (Close SpanStream sp)); [by rewrite boundary_move by keys|].
      apply (closes_lane SpanStream sp); [done|done| |done|].
      * apply elem_open_keys. by exists true.
      * intros []; try done. by apply (open_keys_closed negb).
    + destruct Hc as [Ht Ho Hr Hsp Hst Hi]. split; try done.
      * intros id s Hs. destruct (Hr id s Hs) as (? & ? & Ha). split; [done|]. split; [done|]. intros He. simpl.
        destruct (decide (span s = sp)) as [Heq|Hne]; [|by rewrite lookup_insert_ne by done; apply Ha].
        exfalso. apply not_true_iff_false in Eb. apply Eb. apply span_busy_spec. by exists id, s.
      * intros sp'. simpl. rewrite lookup_insert_Some. intros [[_ ?]|[_ H]]; [done|]. by apply Hsp.
      * destruct Hg as [Hstart _]. simpl. by rewrite Hstart.
  - intros sp' H. simpl. by rewrite lookup_insert_Some; intros [[_ ?]|[_ ?]].
Qed.

Lemma close_spans_steps spans t :
  coherent t -> going t ->
  steps_to t (close_spans spans t).1 (close_spans spans t).2
  /\ (forall sp, (sp ∈ spans /\ span_busy sp t = false) \/ reasoningSpans t !! sp <> Some true -> reasoningSpans (close_spans spans t).2 !! sp <> Some true)
  /\ reasonings (close_spans spans t).2 = reasonings t.
Proof.
  revert t. induction spans as [|x spans IH]; intros t Hc Hg; simpl.
  { split; [by apply steps_to_refl|]. split; [|done]. intros sp [[H _]|H]; [by apply not_elem_of_nil in H|done]. }
  rewrite span_owner_run by done. destruct (close_span_steps x t Hc Hg) as (H1 & H2 & H3 & H4).
  destruct (close_span "" x t) as [evs t1]. simpl in *. destruct H1 as (He & Hc1 & Hk).
  destruct (IH t1 Hc1 (same_run_going _ _ Hk Hg)) as (H5 & H6 & H7). destruct (close_spans spans t1) as [rest t2]. simpl in *.
  split; [by eapply steps_to_app|]. split; [|congruence]. intros sp Hsp. apply H6.
  assert (span_busy sp t1 = span_busy sp t) as -> by (unfold span_busy; by rewrite H3).
  destruct Hsp as [[Hin Hb]|Hn]; [|right; by apply H4]. apply elem_of_cons in Hin as [->|Hin]; [right; by apply H2|by left].
Qed.

(** The maps of other kinds, closed or not, stay coherent. *)
Lemma coherent_texts t m :
  coherent t -> started t = true -> (forall id s, m !! id = Some s -> text_ended s = false -> texts t !! id = Some s) -> coherent (set_texts m t).
Proof.
  intros [Ht Ho Hr Hsp Hst Hi] Hs Hm. split; try done; [|by simpl; rewrite Hs].
  intros id s E He. simpl in E. by apply Ht; [apply Hm|].
Qed.
Lemma coherent_tools t m :
  coherent t -> started t = true -> (forall id s, m !! id = Some s -> tool_ended s = false -> tools t !! id = Some s) -> coherent (set_tools m t).
Proof.
  intros [Ht Ho Hr Hsp Hst Hi] Hs Hm. split; try done; [|by simpl; rewrite Hs].
  intros id s E He. simpl in E. by apply Ho; [apply Hm|].
Qed.
Lemma coherent_steps t m :
  coherent t -> started t = true ->
  (forall id s, m !! id = Some s -> exists s0, steps t !! id = Some s0 /\ step_name s = step_name s0 /\ step_subagent s = step_subagent s0) ->
  coherent (set_steps m t).
Proof.
  intros [Ht Ho Hr Hsp Hst Hi] Hs Hm. split; try done; [|by simpl; rewrite Hs].
  intros id s E. simpl in E. apply Hm in E as (s0 & E0 & -> & ->). by apply Hst.
Qed.
Lemma coherent_reasonings t m :
  coherent t -> started t = true ->
  (forall id s, m !! id = Some s -> exists s0, reasonings t !! id = Some s0 /\ span s = span s0 /\ reasoning_subagent s = reasoning_subagent s0
                                               /\ (reasoning_ended s = false -> reasoning_ended s0 = false)) ->
  (forall id, is_Some (reasonings t !! id) -> is_Some (m !! id)) ->
  coherent (set_reasonings m t).
Proof.
  intros [Ht Ho Hr Hsp Hst Hi] Hs Hm Hk. split; try done; [| |by simpl; rewrite Hs].
  - intros id s E. simpl in E. apply Hm in E as (s0 & E0 & -> & -> & He). destruct (Hr _ _ E0) as (? & ? & Ha). naive_solver.
  - intros sp E. apply Hsp in E as (id & s & E0 & <-). destruct (Hk id) as [s' E']; [by eexists|]. exists id, s'. split; [done|].
    apply Hm in E' as (s0' & E0' & -> & _). congruence.
Qed.

Lemma closed_lookup {S} (K : LaneKind S) finish event order t id s :
  (forall s, k_ended K (finish s) = true) ->
  (close_all (k_ended K) finish event order (k_get K t)).2 !! id = Some s -> k_ended K s = false -> k_get K t !! id = Some s.
Proof.
  intros Hf E He. rewrite close_all_lookup in E by done. destruct (k_get K t !! id) as [s0|]; [|done]. simpl in E. injection E as <-.
  destruct (k_ended K s0) eqn:E0; [congruence|]. destruct (decide _); [by rewrite Hf in He|done].
Qed.

Section Closing.
Context (range : gset string -> list string).
Notation closeReasoning := (closeReasoning range).
Notation closeOpen := (closeOpen range).

Definition closed_reasonings (ids : list string) (t : Translator) : list Event * gmap string reasoningState :=
  close_all reasoning_ended (end_reasoning_state true) reasoning_end ids (reasonings t).

Lemma close_reasonings_steps ids t :
  coherent t -> going t -> steps_to t (closed_reasonings ids t).1 (set_reasonings (closed_reasonings ids t).2 t).
Proof.
  intros Hc Hg. split; [|split; [|done]].
  - apply (close_all_emits reasoning_kind); [done|done| |done]. intros id s Hs _. unfold reasoning_end.
    destruct (c_reasonings t Hc _ _ Hs) as (_ & -> & _). by rewrite boundary_move by keys.
  - apply coherent_reasonings; [done|apply Hg| |].
    + intros id s E. unfold closed_reasonings in E. rewrite (close_all_lookup reasoning_kind) in E by done. simpl in E.
      destruct (reasonings t !! id) as [s0|]; [|done]. simpl in E. injection E as <-. exists s0. split; [done|].
      destruct (reasoning_ended s0) eqn:E0; [naive_solver|]. destruct (decide _); naive_solver.
    + intros id [s Hs]. unfold closed_reasonings. rewrite (close_all_lookup reasoning_kind) by done. simpl. by rewrite Hs.
Qed.

Lemma closeReasoning_steps o t :
  coherent t -> going t -> steps_to t (closeReasoning o t).1 (closeReasoning o t).2.
Proof.
  intros Hc Hg. unfold AguiTranslate.closeReasoning. set (ids := filter _ (reasoningOrder t)).
  pose proof (close_reasonings_steps ids t Hc Hg) as H. unfold closed_reasonings in H.
  destruct (close_all reasoning_ended _ _ ids (reasonings t)) as [evs rs]. simpl in H.
  destruct H as (He & Hc1 & Hk).
  destruct (close_spans_steps (range (list_to_set (omap (fun id => span <$> reasonings t !! id) ids))) (set_reasonings rs t) Hc1 (same_run_going _ _ Hk Hg))
    as [H2 _].
  destruct (close_spans _ (set_reasonings rs t)) as [rest t2]. simpl in *. by eapply steps_to_app.
Qed.

(** Nothing of the reasoning is left open once all of it is closed. *)
Lemma closeReasoning_closed t :
  (forall X x, x ∈ X -> x ∈ range X) -> coherent t -> going t ->
  open_lanes (closeReasoning "" t).2 ReasoningStream = ∅ /\ open_lanes (closeReasoning "" t).2 SpanStream = ∅.
Proof.
  intros Hrange Hc Hg. unfold AguiTranslate.closeReasoning. set (ids := filter _ (reasoningOrder t)).
  assert (forall id s, reasonings t !! id = Some s -> id ∈ ids) as Hids.
  { intros id s Hs. apply list_elem_of_filter. split; [|by apply (c_reasonings t Hc) in Hs as [? _]]. unfold owned_by. rewrite Hs.
    apply bool_decide_eq_true. by left. }
  pose proof (close_reasonings_steps ids t Hc Hg) as H. unfold closed_reasonings in H.
  assert (forall id s, (close_all reasoning_ended (end_reasoning_state true) reasoning_end ids (reasonings t)).2 !! id = Some s -> reasoning_ended s = true) as Hend.
  { intros id s E. rewrite (close_all_lookup reasoning_kind) in E by done. simpl in E. destruct (reasonings t !! id) as [s0|] eqn:E0; [|done].
    simpl in E. injection E as <-. destruct (reasoning_ended s0) eqn:Ee; [done|]. by rewrite decide_True by eauto. }
  destruct (close_all reasoning_ended _ _ ids (reasonings t)) as [evs rs]. simpl in H, Hend.
  set (spans := range _). destruct H as (He & Hc1 & Hk).
  destruct (close_spans_steps spans (set_reasonings rs t) Hc1 (same_run_going _ _ Hk Hg)) as (_ & Hsp & Hrs).
  destruct (close_spans spans (set_reasonings rs t)) as [rest t2]. simpl in *. rewrite Hrs. split.
  - apply set_eq. intros id. rewrite elem_open_keys. split; [intros (s & Hs & H0)|set_solver]. rewrite (Hend _ _ Hs) in H0. done.
  - apply set_eq. intros sp. rewrite elem_open_keys. split; [intros (b & Hb & H0)|set_solver]. exfalso. destruct b; [|done]. revert Hb. apply Hsp.
    destruct (reasoningSpans t !! sp) as [[]|] eqn:Es; [left|right; simpl; congruence..]. split.
    + apply (c_spans t Hc) in Es as (id & s & Hs & <-). apply Hrange, elem_of_list_to_set, list_elem_of_omap. exists id. split; [by eapply Hids|].
      by rewrite Hs.
    + apply not_true_iff_false. intros Hb. apply span_busy_spec in Hb as (id & s & Hs & _ & H1). simpl in Hs. by rewrite (Hend _ _ Hs) in H1.
Qed.

Lemma closeReasoningItem_steps id t :
  coherent t -> going t -> steps_to t (closeReasoningItem id t).1 (closeReasoningItem id t).2.
Proof.
  intros Hc Hg. unfold closeReasoningItem. destruct (reasonings t !! id) as [s|] eqn:Es; [|by apply steps_to_refl].
  destruct (reasoning_ended s) eqn:Ee; [by apply steps_to_refl|]. destruct (c_reasonings t Hc _ _ Es) as (Hin & Hsub & Hspan).
  set (t1 := set_reasonings _ t).
  assert (steps_to t [reasoning_end id s] t1) as H1.
  { split; [|split; [|done]].
    - apply (emits_one _ _ _ (Close ReasoningStream id)); [unfold reasoning_end; rewrite Hsub; by rewrite boundary_move by keys|].
      apply (closes_lane ReasoningStream id); [done|done| |done|].
      + apply elem_open_keys. by exists s.
      + intros []; try done. by apply (open_keys_closed reasoning_ended).
    - apply coherent_reasonings; [done|apply Hg| |].
      + intros id' s' [[<- <-]|[Hne E]]%lookup_insert_Some; [exists s; naive_solver|exists s'; naive_solver].
      + intros id' [s' Hs']. destruct (decide (id' = id)) as [->|Hne]; [rewrite lookup_insert_eq|rewrite lookup_insert_ne by done]; by eexists. }
  rewrite Hsub. destruct H1 as (He & Hc1 & Hk). destruct (close_span_steps (span s) t1 Hc1 (same_run_going _ _ Hk Hg)) as [H2 _].
  destruct (close_span "" (span s) t1) as [rest t2]. simpl in *. by apply (steps_to_app t t1 t2 [reasoning_end id s] rest).
Qed.

Lemma closeSteps_steps t : coherent t -> going t -> steps_to t (closeSteps t).1 (closeSteps t).2.
Proof.
  intros Hc Hg. unfold closeSteps. pose proof (close_all_emits step_kind (end_step true) step_end (fun _ => eq_refl) (stepOrder t) t Hg) as H.
  pose proof (close_all_lookup step_kind (end_step true) step_end (fun _ => eq_refl) (stepOrder t) (steps t)) as Hl. simpl in H, Hl.
  destruct (close_all step_ended _ _ (stepOrder t) (steps t)) as [evs m]. simpl in *. split; [|split; [|done]].
  - apply H.
    + intros id s Hs _. unfold step_end. destruct (c_steps t Hc _ _ Hs) as (_ & -> & -> & _). by rewrite boundary_move by keys.
    + intros id id' Hid Hid'. apply (step_lane_unique t); [done| |done]. apply elem_open_keys in Hid as (s & Hs & _).
      by apply (c_steps t Hc) in Hs as (_ & _ & _ & ?).
  - apply coherent_steps; [done|apply Hg|]. intros id s E. rewrite Hl in E. destruct (steps t !! id) as [s0|]; [|done]. simpl in E.
    injection E as <-. exists s0. destruct (step_ended s0); [done|]. by destruct (decide _).
Qed.

Lemma close_texts_steps t :
  coherent t -> going t ->
  let r := close_all text_ended (end_text true) text_end (textOrder t) (texts t) in steps_to t r.1 (set_texts r.2 t).
Proof.
  intros Hc Hg. simpl. split; [|split; [|done]].
  - apply (close_all_emits text_kind); [done|done| |done]. intros id s Hs He. unfold text_end.
    destruct (c_texts t Hc _ _ Hs He) as [_ ->]. by rewrite boundary_move by keys.
  - apply coherent_texts; [done|apply Hg|]. intros id s. by apply (closed_lookup text_kind).
Qed.

Lemma close_tools_steps t :
  coherent t -> going t ->
  let r := close_all tool_ended (end_tool_state true) tool_end (toolOrder t) (tools t) in steps_to t r.1 (set_tools r.2 t).
Proof.
  intros Hc Hg. simpl. split; [|split; [|done]].
  - apply (close_all_emits tool_kind); [done|done| |done]. intros id s Hs He. unfold tool_end.
    destruct (c_tools t Hc _ _ Hs He) as [_ ->]. by rewrite boundary_move by keys.
  - apply coherent_tools; [done|apply Hg|]. intros id s. by apply (closed_lookup tool_kind).
Qed.

(** All lanes of a kind whose open ones are in the order are closed. *)
Lemma close_all_closed {S} (K : LaneKind S) finish event order t :
  (forall s, k_ended K (finish s) = true) ->
  (forall id s, k_get K t !! id = Some s -> k_ended K s = false -> id ∈ order) ->
  open_keys (k_ended K) (close_all (k_ended K) finish event order (k_get K t)).2 = ∅.
Proof.
  intros Hf Ho. apply set_eq. intros id. rewrite elem_open_keys. split; [|set_solver]. intros (s & Hs & He). exfalso.
  pose proof (closed_lookup K _ _ _ _ _ _ Hf Hs He) as H0. rewrite close_all_lookup, H0 in Hs by done. simpl in Hs. rewrite He in Hs.
  rewrite decide_True in Hs by eauto. injection Hs as Hs. specialize (Hf s). congruence.
Qed.

Lemma reasoning_orders o t : textOrder (closeReasoning o t).2 = textOrder t /\ texts (closeReasoning o t).2 = texts t
  /\ toolOrder (closeReasoning o t).2 = toolOrder t /\ tools (closeReasoning o t).2 = tools t
  /\ stepOrder (closeReasoning o t).2 = stepOrder t /\ steps (closeReasoning o t).2 = steps t.
Proof.
  unfold AguiTranslate.closeReasoning. set (ids := filter _ (reasoningOrder t)).
  destruct (close_all reasoning_ended _ _ ids (reasonings t)) as [evs rs].
  generalize (range (list_to_set (omap (fun id => span <$> reasonings t !! id) ids))). intros spans.
  assert (forall spans u, textOrder (close_spans spans u).2 = textOrder u /\ texts (close_spans spans u).2 = texts u
    /\ toolOrder (close_spans spans u).2 = toolOrder u /\ tools (close_spans spans u).2 = tools u
    /\ stepOrder (close_spans spans u).2 = stepOrder u /\ steps (close_spans spans u).2 = steps u) as H.
  { clear. induction spans as [|x spans IH]; intros u; [done|]. simpl. unfold close_span.
    destruct (_ && _); simpl; [specialize (IH (set_reasoningSpans (<[x := false]> (reasoningSpans u)) u))|specialize (IH u)];
      destruct (close_spans spans _); apply IH. }
  specialize (H spans (set_reasonings rs t)). by destruct (close_spans spans (set_reasonings rs t)).
Qed.

(** [closeOpen] closes every lane. *)
Lemma closeOpen_steps t :
  (forall X x, x ∈ X -> x ∈ range X) -> coherent t -> going t ->
  steps_to t (closeOpen t).1 (closeOpen t).2 /\ forall s, open_lanes (closeOpen t).2 s = ∅.
Proof.
  intros Hrange Hc Hg. unfold AguiTranslate.closeOpen.
  pose proof (closeReasoning_steps "" t Hc Hg) as H1. pose proof (closeReasoning_closed t Hrange Hc Hg) as [Z1 Z2].
  pose proof (reasoning_orders "" t) as (O1 & _ & O2 & _ & O3 & _).
  destruct (closeReasoning "" t) as [e1 t1]. simpl in *. assert (going t1) as G1 by (eapply same_run_going, Hg; apply H1).
  assert (coherent t1) as C1 by apply H1.
  pose proof (close_texts_steps t1 C1 G1) as H2.
  pose proof (close_all_closed text_kind (end_text true) text_end (textOrder t1) t1 (fun _ => eq_refl) (fun id s Hs He => proj1 (c_texts t1 C1 id s Hs He))) as Z3.
  simpl in H2, Z3. destruct (close_all text_ended _ _ (textOrder t1) (texts t1)) as [e2 m2]. simpl in H2, Z3.
  set (t2 := set_texts m2 t1) in *. assert (going t2) as G2 by done. assert (coherent t2) as C2 by apply H2.
  pose proof (close_tools_steps t2 C2 G2) as H3.
  pose proof (close_all_closed tool_kind (end_tool_state true) tool_end (toolOrder t2) t2 (fun _ => eq_refl) (fun id s Hs He => proj1 (c_tools t2 C2 id s Hs He))) as Z4.
  simpl in H3, Z4. destruct (close_all tool_ended _ _ (toolOrder t1) (tools t1)) as [e3 m3]. simpl in H3, Z4.
  set (t3 := set_tools m3 t2) in *. assert (going t3) as G3 by done. assert (coherent t3) as C3 by apply H3.
  pose proof (closeSteps_steps t3 C3 G3) as H4.
  pose proof (close_all_closed step_kind (end_step true) step_end (stepOrder t3) t3 (fun _ => eq_refl) (fun id s Hs _ => proj1 (c_steps t3 C3 id s Hs))) as Z5.
  unfold closeSteps in *. simpl in Z5, H4. change (stepOrder t3) with (stepOrder t1) in *. change (steps t3) with (steps t1) in *.
  destruct (close_all step_ended _ _ (stepOrder t1) (steps t1)) as [e4 m4]. simpl in H4, Z5 |- *. split.
  - eapply steps_to_app; [exact H1|]. eapply steps_to_app; [exact H2|]. eapply steps_to_app; [exact H3|exact H4].
  - intros []; done.
Qed.
End Closing.
