(* ===== verification/AguiCapture.v ===== *)
(** * The message graph leaves the lanes alone

    Keeping the message graph up with the events a translation emits changes
    messages, arguments and presentations, and no lane. *)
From stdpp Require Import base gmap strings list fin_maps sets.
From Stdlib Require Import ZArith Ascii.
From S2P Require Import Prelude GoStrings GoJson CanonicalNumber JsonValue JsonCodec AguiPatch AguiProjection AguiProps AguiLife.
From S2P Require Import AguiNative AguiTranslator AguiTranslate AguiLanes.

Open Scope nat_scope.

Notation Object := (list (string * json)) (only parsing).

(** ** States with the same lanes *)
Definition text_lane (s : textState) := (text_subagent s, text_ended s).
Definition reasoning_lane (s : reasoningState) := (reasoning_subagent s, span s, reasoning_ended s).

Record similar (t t' : Translator) : Prop := {
  s_run : same_run t t';
  s_textOrder : textOrder t' = textOrder t;
  s_texts id : text_lane <$> texts t' !! id = text_lane <$> texts t !! id;
  s_toolOrder : toolOrder t' = toolOrder t;
  s_tools id s : tools t !! id = Some s -> id ∈ toolOrder t -> exists s', tools t' !! id = Some s' /\ tool_ended s' = tool_ended s /\ tool_subagent s' = tool_subagent s;
  s_tools_open id s' : tools t' !! id = Some s' -> tool_ended s' = false ->
    exists s, tools t !! id = Some s /\ tool_ended s = false /\ tool_subagent s' = tool_subagent s;
  s_reasoningOrder : reasoningOrder t' = reasoningOrder t;
  s_reasonings id : reasoning_lane <$> reasonings t' !! id = reasoning_lane <$> reasonings t !! id;
  s_spans : reasoningSpans t' = reasoningSpans t;
  s_stepOrder : stepOrder t' = stepOrder t;
  s_steps : steps t' = steps t
}.

Lemma similar_refl t : similar t t.
Proof. split; try done; naive_solver. Qed.

Lemma similar_trans t t' t'' : similar t t' -> similar t' t'' -> similar t t''.
Proof.
  intros [R1 A1 B1 C1 D1 E1 F1 G1 H1 I1 J1] [R2 A2 B2 C2 D2 E2 F2 G2 H2 I2 J2]. split; try congruence.
  - by eapply same_run_trans.
  - intros id s Hs Ho. destruct (D1 id s Hs Ho) as (s1 & Hs1 & <- & <-). apply D2; [done|by rewrite C1].
  - intros id s Hs He. destruct (E2 id s Hs He) as (s1 & Hs1 & He1 & ->). by apply E1.
Qed.

Lemma lane_fields {A B} (f : A -> B) (m m' : option A) x : f <$> m' = f <$> m -> m' = Some x -> exists y, m = Some y /\ f y = f x.
Proof. intros E ->. destruct m as [y|]; [|done]. exists y. split; [done|]. simpl in E. congruence. Qed.

Lemma similar_open_lanes t t' :
  (forall id s, tools t !! id = Some s -> tool_ended s = false -> id ∈ toolOrder t) -> similar t t' -> forall s, open_lanes t' s = open_lanes t s.
Proof.
  intros Ho [R A B C D E F G H I J] []; simpl; try congruence; apply set_eq; intros id; rewrite !elem_open_keys.
  - split; intros (s & Hs & He).
    + destruct (lane_fields _ _ _ _ (B id) Hs) as (y & Hy & Hl). exists y. injection Hl as _ Hl. split; congruence.
    + destruct (lane_fields _ _ _ _ (eq_sym (B id)) Hs) as (y & Hy & Hl). exists y. injection Hl as _ Hl. split; congruence.
  - split; intros (s & Hs & He).
    + destruct (lane_fields _ _ _ _ (G id) Hs) as (y & Hy & Hl). exists y. injection Hl as _ _ Hl. split; congruence.
    + destruct (lane_fields _ _ _ _ (eq_sym (G id)) Hs) as (y & Hy & Hl). exists y. injection Hl as _ _ Hl. split; congruence.
  - split; intros (s & Hs & He).
    + destruct (E id s Hs He) as (s0 & ? & ? & _). by exists s0.
    + destruct (D id s Hs (Ho id s Hs He)) as (s' & ? & ? & _). exists s'. split; congruence.
Qed.
Lemma similar_lanes t t' : coherent t -> similar t t' -> forall s, open_lanes t' s = open_lanes t s.
Proof. intros Hc. apply similar_open_lanes. intros id s Hs He. by apply (c_tools t Hc id s). Qed.

Lemma similar_coherent t t' : coherent t -> similar t t' -> coherent t'.
Proof.
  intros Hc Hsim. pose proof (similar_lanes t t' Hc Hsim) as Hl. destruct Hsim as [[R _] A B C D E F G H I J]. destruct Hc as [Ht Ho Hr Hsp Hst Hi]. split.
  - intros id s Hs He. destruct (lane_fields _ _ _ _ (B id) Hs) as (y & Hy & Hf). injection Hf as H1 H2.
    rewrite A, <- H1. apply (Ht id y Hy). congruence.
  - intros id s Hs He. destruct (E id s Hs He) as (s0 & H0 & He0 & ->). rewrite C. by apply Ho.
  - intros id s Hs. destruct (lane_fields _ _ _ _ (G id) Hs) as (y & Hy & Hf). injection Hf as H1 H2 H3.
    rewrite F, H, <- H1, <- H2, <- H3. by apply Hr.
  - intros sp. rewrite H. intros Hsp'. apply Hsp in Hsp' as (id & s & Hs & <-).
    destruct (lane_fields _ _ _ _ (eq_sym (G id)) Hs) as (y & Hy & Hf). injection Hf as _ H2 _. by exists id, y.
  - intros id s. rewrite J, I. apply Hst.
  - intros Hs s. rewrite Hl. apply Hi. congruence.
Qed.


(** ** Updates that keep the lanes *)
Lemma similar_texts f id t : (forall s, text_lane (f s) = text_lane s) -> similar t (set_texts (alter f id (texts t)) t).
Proof.
  intros Hf. split; try done; try naive_solver. intros x. simpl. destruct (decide (id = x)) as [->|Hne].
  - rewrite lookup_alter_eq. destruct (texts t !! x); [|done]. simpl. by rewrite Hf.
  - by rewrite lookup_alter_ne.
Qed.
Lemma similar_reasonings f id t : (forall s, reasoning_lane (f s) = reasoning_lane s) -> similar t (set_reasonings (alter f id (reasonings t)) t).
Proof.
  intros Hf. split; try done; try naive_solver. intros x. simpl. destruct (decide (id = x)) as [->|Hne].
  - rewrite lookup_alter_eq. destruct (reasonings t !! x); [|done]. simpl. by rewrite Hf.
  - by rewrite lookup_alter_ne.
Qed.
Lemma similar_tools f id t :
  (forall s, tool_ended (f s) = tool_ended s /\ tool_subagent (f s) = tool_subagent s) -> similar t (set_tools (alter f id (tools t)) t).
Proof.
  intros Hf. split; try done; intros x s; simpl.
  - intros Hs _. destruct (decide (id = x)) as [->|Hne].
    + rewrite lookup_alter_eq, Hs. exists (f s). split; [done|apply Hf].
    + rewrite lookup_alter_ne by done. by exists s.
  - rewrite lookup_alter_Some. intros [(-> & s0 & Hs & ->)|[_ Hs]] He; [|by exists s]. destruct (Hf s0) as [H1 H2]. exists s0. split; [done|]. split; congruence.
Qed.

(** Setters of what is not a lane. *)
Ltac no_lane := split; try done; naive_solver.
Lemma similar_messages ms t : similar t (set_messages ms t).
Proof. no_lane. Qed.
Lemma similar_save id m t : similar t (save id m t).
Proof. apply similar_messages. Qed.
Lemma similar_usage u t : similar t (set_usage u t).
Proof. no_lane. Qed.
Lemma similar_children c t : similar t (set_children c t).
Proof. no_lane. Qed.
Lemma similar_historyErr e t : similar t (set_historyErr e t).
Proof. no_lane. Qed.
Lemma similar_chunk_text id t : similar t (set_lastChunkText id t).
Proof. no_lane. Qed.
Lemma similar_chunk_reasoning id t : similar t (set_lastChunkReasoning id t).
Proof. no_lane. Qed.

Lemma similar_foldl {A} (f : Translator -> A -> Translator) l t : (forall t a, similar t (f t a)) -> similar t (foldl f t l).
Proof. intros Hf. revert t. induction l as [|a l IH]; intros t; [apply similar_refl|]. simpl. eapply similar_trans; [apply Hf|apply IH]. Qed.

(** ** Historical tool calls are closed *)
Definition all_ended (tools : gmap string toolState) : Prop := forall id s, tools !! id = Some s -> tool_ended s = true.

Lemma historical_calls_ended tools m tools' : all_ended tools -> historical_calls tools m = Some tools' -> all_ended tools'.
Proof.
  unfold historical_calls. intros Ha E. destruct (typed_string "id" m) as [id|]; [|done]. simpl in E.
  destruct (typed_string "role" m) as [role|]; [|done]. simpl in E. destruct (typed_string "subagentRunId" m) as [sub|]; [|done]. simpl in E.
  destruct (typed_calls m) as [calls|]; [|done]. simpl in E. injection E as <-. case_bool_decide; [|done].
  revert tools Ha. induction calls as [|[cid a] calls IH]; intros tools Ha; [done|]. simpl. apply IH.
  intros x s. rewrite lookup_insert_Some. intros [[_ <-]|[_ Hs]]; [done|by eapply Ha].
Qed.

Lemma historical_receipt_ended tools m tools' : all_ended tools -> historical_receipt tools m = Some tools' -> all_ended tools'.
Proof.
  unfold historical_receipt. intros Ha E. destruct (typed_string "role" m) as [role|]; [|done]. simpl in E.
  destruct (typed_string "toolCallId" m) as [cid|]; [|done]. simpl in E. injection E as <-. case_bool_decide; [|done].
  intros x s. rewrite lookup_alter_Some. intros [(_ & s0 & Hs & ->)|[_ Hs]]; [by apply (Ha _ _ Hs)|by eapply Ha].
Qed.

Lemma fold_option_inv {A B} (P : A -> Prop) (f : A -> B -> option A) l a a' :
  (forall a b a', P a -> f a b = Some a' -> P a') -> P a -> fold_option f a l = Some a' -> P a'.
Proof.
  intros Hf. revert a. induction l as [|b l IH]; intros a Ha E; [by injection E as <-|]. simpl in E.
  destruct (f a b) as [a1|] eqn:E1; [|done]. eapply IH; [|exact E]. by eapply Hf.
Qed.

Lemma historicalToolStates_ended ms tools : historicalToolStates ms = Some tools -> all_ended tools.
Proof.
  unfold historicalToolStates. intros E. destruct (fold_option historical_calls ∅ ms) as [m|] eqn:E1; [|done]. simpl in E.
  eapply (fold_option_inv all_ended); [by apply historical_receipt_ended| |exact E].
  eapply (fold_option_inv all_ended); [by apply historical_calls_ended| |exact E1]. intros x s. by rewrite lookup_empty.
Qed.

Lemma refresh_similar ms t t' : refreshHistoricalTools ms t = Some t' -> similar t t'.
Proof.
  unfold refreshHistoricalTools. intros E. destruct (historicalToolStates ms) as [history|] eqn:Eh; [|done].
  apply historicalToolStates_ended in Eh. simpl in E. injection E as <-.
  set (step := fun (h : gmap string toolState) id => _).
  assert (forall order h id s, foldl step h order !! id = Some s ->
            (id ∉ order /\ h !! id = Some s)
            \/ (id ∈ order /\ tools t !! id = None /\ h !! id = Some s)
            \/ (id ∈ order /\ exists s0, tools t !! id = Some s0 /\ tool_ended s = tool_ended s0 /\ tool_subagent s = tool_subagent s0)) as Hf.
  { induction order as [|x order IH]; intros h id s Hs; simpl in Hs; [left; split; [set_solver|done]|].
    destruct (IH _ _ _ Hs) as [[Hn H0]|[(Hin & Ht & H0)|(Hin & Hx)]]; [| |right; right; split; [set_solver|done]].
    - unfold step in H0. destruct (tools t !! x) as [live|] eqn:Ex.
      + apply lookup_insert_Some in H0 as [[<- <-]|[Hne H0]]; [|left; split; [set_solver|done]]. right. right. split; [set_solver|].
        exists live. by destruct (h !! x).
      + destruct (decide (id = x)) as [->|]; [right; left; split; [set_solver|done]|left; split; [set_solver|done]].
    - right. left. split; [set_solver|]. split; [done|]. unfold step in H0. destruct (tools t !! x) eqn:Ex; [|done].
      apply lookup_insert_Some in H0 as [[<- _]|[_ H0]]; [congruence|done]. }
  assert (forall order h id s, tools t !! id = Some s -> id ∈ order -> is_Some (foldl step h order !! id)) as Hg.
  { intros order h id s Hs. revert h. assert (forall order h, is_Some (h !! id) -> is_Some (foldl step h order !! id)) as Hkeep.
    { induction order0 as [|x o IH]; intros h Hh; [done|]. simpl. apply IH. unfold step. destruct (tools t !! x); [|done].
      destruct (decide (id = x)) as [->|]; [rewrite lookup_insert_eq|rewrite lookup_insert_ne by done]; by eauto. }
    induction order as [|x o IH]; intros h Hin; [by apply not_elem_of_nil in Hin|]. simpl.
    destruct (decide (id = x)) as [->|Hne]; [|apply IH; set_solver]. apply Hkeep. unfold step. rewrite Hs, lookup_insert_eq. by eexists. }
  split; try done; intros id s; simpl.
  - intros Hs Ho. destruct (Hg _ history _ _ Hs Ho) as [s' Hs']. exists s'. split; [done|].
    destruct (Hf _ _ _ _ Hs') as [[Hn _]|[(_ & Hn & _)|(_ & s0 & H0 & H1 & H2)]]; [done|congruence|]. split; congruence.
  - intros Hs He. destruct (Hf _ _ _ _ Hs) as [[_ H0]|[(_ & _ & H0)|(_ & s0 & H0 & H1 & H2)]]; [by rewrite (Eh _ _ H0) in He..|].
    exists s0. split; [done|]. split; congruence.
Qed.

(** ** The capture of an event *)
Section Capture.
Context (decode_error : string) (apply_patch : json -> json -> json + string).

(** The event names a tool call only if it is one of the run. *)
Definition running_call (t : Translator) (call : string) : Prop := is_Some (tools t !! call) /\ call ∈ toolOrder t.
Definition admissible (t : Translator) (w : Object) : Prop :=
  field w "type" <> "TOOL_CALL_CHUNK" /\ (field w "type" = "TOOL_CALL_START" -> running_call t (field w "toolCallId")).

Lemma similar_running t t' call : similar t t' -> running_call t call -> running_call t' call.
Proof.
  intros Hs [[s Hc] Ho]. destruct (s_tools t t' Hs call s Hc Ho) as (s' & Hs' & _). split; [by eexists|]. by rewrite (s_toolOrder t t' Hs).
Qed.
Lemma similar_admissible t t' w : similar t t' -> admissible t w -> admissible t' w.
Proof. intros Hs [H1 H2]. split; [done|]. intros E. by apply (similar_running t), H2. Qed.

Definition keeps_lanes (t : Translator) (o : outcome) : Prop :=
  match o with Captured t' | CaptureError t' _ => similar t t' | Panic => True end.

Lemma reported_keeps t r : similar t r.1 -> keeps_lanes t (reported r).
Proof. by destruct r as [t' [e|]]. Qed.

Lemma capture_chunk_similar r w t : similar t (capture_chunk r false w t).1.
Proof.
  unfold capture_chunk. case_bool_decide; [apply similar_refl|]. simpl.
  destruct r; (eapply similar_trans; [|apply similar_save]); [apply similar_chunk_reasoning|apply similar_chunk_text].
Qed.

Lemma snapshot_message_similar t m : similar t (snapshot_message t m).
Proof.
  unfold snapshot_message. set (t1 := if assistant m then _ else t).
  assert (similar t t1) as H1.
  { unfold t1. destruct (assistant m); [|apply similar_refl]. 
    apply (similar_trans _ (set_texts (alter (set_content (field m "content")) (field m "id") (texts t)) t)); [by apply similar_texts|].
    apply similar_foldl.
    intros u raw. destruct raw; try apply similar_refl. by apply similar_tools. }
  destruct (is_role "reasoning" m); [|done]. eapply similar_trans; [exact H1|]. by apply similar_reasonings.
Qed.

Lemma capture_snapshot_similar w t : similar t (capture_snapshot decode_error w t).1.
Proof.
  unfold capture_snapshot. destruct (objects_of _) as [ms|]; [|apply similar_refl].
  destruct (refreshHistoricalTools ms (set_messages ms t)) as [t1|] eqn:E; [|apply similar_messages].
  apply refresh_similar in E. simpl. eapply similar_trans; [apply similar_messages|]. eapply similar_trans; [exact E|].
  apply similar_foldl, snapshot_message_similar.
Qed.

Lemma appendToolArguments_similar p id d t : keeps_lanes t (checked (appendToolArguments p id d t)).
Proof. unfold appendToolArguments. destruct (message p (messages t)) as [m|]; [|done]. apply similar_save. Qed.

Lemma capture_tool_similar w t : running_call t (field w "toolCallId") -> keeps_lanes t (capture_tool false w t).
Proof. intros [[s Hs] _]. unfold capture_tool. cbn [andb]. rewrite Hs. apply similar_save. Qed.

Lemma capture_invocation_similar w t : similar t (capture_invocation decode_error w t).1.
Proof.
  unfold capture_invocation. destruct (get "value" w) as [[]|]; try apply similar_refl. cbv zeta.
  destruct (typed_string _ _); [|apply similar_refl]. destruct (typed_string _ _); [|apply similar_refl].
  destruct (_ ≫= _) as [inv|]; [|apply similar_refl]. case_bool_decide; [apply similar_refl|].
  destruct (validateInvocation inv t); [apply similar_refl|]. unfold subagent. destruct (get _ (children t)); [apply similar_refl|].
  apply similar_children.
Qed.

Lemma capture_usage_similar w t : similar t (capture_usage w t).
Proof. unfold capture_usage. case_bool_decide; [apply similar_refl|]. destruct (reported_usage _) as [[]|]; [apply similar_usage|apply similar_refl]. Qed.

Lemma capture_encrypted_similar w t : similar t (capture_encrypted w t).1.
Proof.
  unfold capture_encrypted. case_bool_decide.
  - simpl. apply similar_foldl. intros u m. destruct (get "toolCalls" m) as [[]|]; try apply similar_refl. apply similar_save.
  - destruct (message _ _); [apply similar_save|apply similar_refl].
Qed.

Lemma capture_activity_similar w t : similar t (capture_activity w t).
Proof.
  unfold capture_activity. eapply similar_trans; [|apply similar_save]. case_bool_decide; [by apply similar_tools|apply similar_refl].
Qed.

Lemma capture_message_similar w t : admissible t w -> keeps_lanes t (capture_message decode_error apply_patch false w t).
Proof.
  intros [Hn Hc]. unfold capture_message. case_bool_decide; [apply reported_keeps, capture_chunk_similar|].
  case_bool_decide; [apply reported_keeps, capture_chunk_similar|]. case_bool_decide; [done|].
  destruct (event_type (field w "type")) as [[]|] eqn:Et; try apply similar_refl; try (by apply similar_save).
  - apply reported_keeps. unfold capture_content. destruct (message _ _); [apply similar_save|apply similar_refl].
  - apply reported_keeps. unfold capture_content. destruct (message _ _); [apply similar_save|apply similar_refl].
  - apply capture_tool_similar, Hc. apply get_In in Et. by repeat (destruct Et as [Et|Et]; [congruence|]).
  - destruct (tools t !! _); [apply appendToolArguments_similar|apply similar_refl].
  - apply reported_keeps, capture_snapshot_similar.
  - apply capture_activity_similar.
  - apply reported_keeps. unfold capture_activity_delta. destruct (message _ _); [|apply similar_refl].
    destruct (apply_patch _ _); [apply similar_save|apply similar_refl].
  - apply reported_keeps, capture_encrypted_similar.
  - pose proof (capture_invocation_similar w t) as Hi. case_bool_decide.
    + destruct (capture_invocation _ w t) as [t1 [e|]]; [exact Hi|]. simpl in Hi |- *. case_bool_decide; [|done].
      eapply similar_trans; [exact Hi|apply capture_usage_similar].
    + simpl. case_bool_decide; [apply capture_usage_similar|apply similar_refl].
Qed.

Lemma capture_event_similar ev t t' :
  standard ev = true -> applied ev = true -> admissible t (wire ev) ->
  capture_event decode_error apply_patch ev t = Some t' -> similar t t'.
Proof.
  intros H1 H2 Ha. unfold capture_event. rewrite H1, H2. unfold captureStandard. cbn [negb].
  pose proof (capture_message_similar (wire ev) t Ha) as H. destruct (capture_message _ _ _ _ _) as [t1|t1 e|]; [| |done].
  - by intros [= <-].
  - simpl in H. destruct (historyErr t1); intros [= <-]; [done|]. eapply similar_trans; [exact H|]. apply similar_historyErr.
Qed.

Lemma capture_similar evs t t' :
  Forall (fun ev => standard ev = true /\ applied ev = true /\ admissible t (wire ev)) evs ->
  capture decode_error apply_patch evs t = Some t' -> similar t t'.
Proof.
  unfold capture. revert t. induction evs as [|ev evs IH]; intros t Hev E; [injection E as <-; apply similar_refl|].
  apply list.Forall_cons in Hev as [(H1 & H2 & H3) Hev]. simpl in E. destruct (capture_event _ _ ev t) as [t1|] eqn:E1; [|done].
  apply capture_event_similar in E1; [|done..]. eapply similar_trans; [exact E1|]. apply IH; [|exact E].
  eapply list.Forall_impl; [exact Hev|]. intros x (? & ? & ?). split; [done|]. split; [done|]. by eapply similar_admissible.
Qed.
End Capture.
