(* ===== verification/AguiGraph.v ===== *)
(** * The message graph keeps the messages of the calls

    A capture only adds messages, or replaces them by a snapshot that has them
    all, so the arguments of a call always find the message of the call. *)
From stdpp Require Import base gmap strings list fin_maps sets.
From Stdlib Require Import ZArith Ascii.
From S2P Require Import Prelude GoStrings GoJson CanonicalNumber JsonValue JsonCodec AguiPatch AguiProjection AguiProps AguiLife.
From S2P Require Import AguiNative AguiTranslator AguiTranslate AguiLanes AguiCapture.

Open Scope nat_scope.

Notation Object := (list (string * json)) (only parsing).

(** ** Messages by identifier *)
Definition has_message (id : string) (ms : list Object) : Prop := exists m, m ∈ ms /\ field m "id" = id.

Lemma message_has id ms : is_Some (message id ms) <-> has_message id ms.
Proof.
  unfold message, has_message. rewrite fmap_is_Some. split.
  - intros [[i m] H]. apply list_find_Some in H as (Hi & Hm & _). exists m. split; [by eapply list_elem_of_lookup_2|].
    by apply bool_decide_eq_true in Hm.
  - intros (m & Hin & Hid). apply (list_find_elem_of (fun m => has_id id m = true) ms m Hin). by apply bool_decide_eq_true.
Qed.

Lemma update_message_has id m ms x : field m "id" = id -> has_message x ms -> has_message x (update_message id (fun _ => m) ms).
Proof.
  intros Hm (y & Hin & Hy). induction ms as [|z ms IH]; [by apply not_elem_of_nil in Hin|]. simpl. unfold has_id at 1. case_bool_decide as Hz.
  - apply elem_of_cons in Hin as [->|Hin]; [exists m; split; [by left|congruence]|exists y; split; [by right|done]].
  - apply elem_of_cons in Hin as [->|Hin]; [exists z; split; [by left|done]|].
    destruct (IH Hin) as (y' & H1 & H2). exists y'. split; [by right|done].
Qed.

Definition knows (t : Translator) (id : string) : Prop := is_Some (message id (messages t)).

Lemma knows_save x id m t : field m "id" = id -> knows t x -> knows (save id m t) x.
Proof.
  unfold knows. rewrite !message_has. intros Hm Hx. simpl. unfold saveMessage. destruct (message id (messages t)); [by apply update_message_has|].
  destruct Hx as (y & Hin & Hy). exists y. split; [apply elem_of_app; by left|done].
Qed.

Lemma knows_saved id m t : field m "id" = id -> knows (save id m t) id.
Proof.
  intros Hm. unfold knows. rewrite message_has. simpl. unfold saveMessage. destruct (message id (messages t)) eqn:E.
  - apply update_message_has; [done|]. apply message_has. by eexists.
  - exists m. split; [apply elem_of_app; right; by left|done].
Qed.

Lemma message_id id t m : message id (messages t) = Some m -> field m "id" = id.
Proof.
  unfold message. destruct (list_find _ _) as [[i m']|] eqn:E; [|done]. simpl. intros [= ->].
  apply list_find_Some in E as (_ & E & _). by apply bool_decide_eq_true in E.
Qed.

(** ** Messages that keep their identifier *)
Lemma field_put_ne k k' v (o : Object) : k <> k' -> field (put k' v o) k = field o k.
Proof. intros H. apply field_of_get. by rewrite get_put_ne. Qed.

Lemma merge_id m w : field (mergeEventMetadata m w) "id" = field m "id".
Proof.
  unfold mergeEventMetadata. destruct (get "metadata" w), (get "subagentRunId" w); rewrite ?field_put_ne by done; done.
Qed.

Lemma field_members ms k : NoDup ms.*1 -> field (of_members ms) k = field ms k.
Proof. intros H. apply field_of_get. by apply get_of_members. Qed.

Lemma message_or_id id role t : field (message_or id role t) "id" = id.
Proof.
  unfold message_or. destruct (message id (messages t)) as [m|] eqn:E; [by eapply message_id|]. rewrite field_members by keys. done.
Qed.
Lemma add_delta_id w m : field (add_delta w m) "id" = field m "id".
Proof. by apply field_put_ne. Qed.
Lemma update_calls_id id f m : field (update_calls id f m) "id" = field m "id".
Proof. by apply field_put_ne. Qed.

(** ** What a capture keeps: the calls of the run and known messages *)
Record keeps (K : string -> Prop) (t t' : Translator) : Prop := {
  k_order : toolOrder t' = toolOrder t;
  k_parent id s : id ∈ toolOrder t -> tools t !! id = Some s -> exists s', tools t' !! id = Some s' /\ parent s' = parent s;
  k_knows x : K x -> knows t' x
}.

Lemma keeps_step K t t' t'' :
  toolOrder t'' = toolOrder t' ->
  (forall id s, id ∈ toolOrder t' -> tools t' !! id = Some s -> exists s', tools t'' !! id = Some s' /\ parent s' = parent s) ->
  (forall x, knows t' x -> knows t'' x) -> keeps K t t' -> keeps K t t''.
Proof.
  intros Ho Hp Hk [H1 H2 H3]. split; [congruence| |naive_solver]. intros id s Hid Hs. destruct (H2 id s Hid Hs) as (s' & Hs' & <-).
  apply Hp; [congruence|done].
Qed.

Lemma keeps_save K t t' id m : field m "id" = id -> keeps K t t' -> keeps K t (save id m t').
Proof. intros Hm. apply keeps_step; [done|naive_solver|]. intros x. by apply knows_save. Qed.

Lemma keeps_same K t t' t'' : toolOrder t'' = toolOrder t' -> tools t'' = tools t' -> messages t'' = messages t' -> keeps K t t' -> keeps K t t''.
Proof. intros Ho Ht Hm. apply keeps_step; [done|rewrite Ht; naive_solver|]. unfold knows. by rewrite Hm. Qed.

Lemma keeps_tools K t t' f id : (forall s, parent (f s) = parent s) -> keeps K t t' -> keeps K t (set_tools (alter f id (tools t')) t').
Proof.
  intros Hf. apply keeps_step; [done| |done]. intros x s _ Hs. simpl. destruct (decide (id = x)) as [->|Hne].
  - rewrite lookup_alter_eq, Hs. exists (f s). by rewrite Hf.
  - rewrite lookup_alter_ne by done. by exists s.
Qed.

Lemma keeps_foldl {A} K t (f : Translator -> A -> Translator) l t' :
  (forall u a, keeps K t u -> keeps K t (f u a)) -> keeps K t t' -> keeps K t (foldl f t' l).
Proof. intros Hf. revert t'. induction l as [|a l IH]; intros t' Ht; [done|]. simpl. by apply IH, Hf. Qed.

(** A snapshot replaces the messages and what is known of the calls, but for
    the messages they belong to. *)
Definition merge_live (live history : gmap string toolState) (id : string) : gmap string toolState :=
  match live !! id with
  | Some live => <[id := match history !! id with Some canonical => reconcile_live live canonical | None => live end]> history
  | None => history
  end.
Lemma refreshed_calls (live : gmap string toolState) order history id s :
  id ∈ order -> live !! id = Some s -> exists s', foldl (merge_live live) history order !! id = Some s' /\ parent s' = parent s.
Proof.
  intros Hin Hs.
  assert (forall order h s0, h !! id = Some s0 -> parent s0 = parent s -> exists s', foldl (merge_live live) h order !! id = Some s' /\ parent s' = parent s) as Hkeep.
  { clear order Hin. induction order as [|x order IH]; intros h s0 H0 Hp; [by exists s0|]. simpl. unfold merge_live at 2.
    destruct (decide (x = id)) as [->|Hne].
    - rewrite Hs, H0. eapply IH; [apply lookup_insert_eq|done].
    - destruct (live !! x); [|by eapply IH]. eapply IH; [by rewrite lookup_insert_ne|done]. }
  revert history. induction order as [|x order IH]; intros history; [by apply not_elem_of_nil in Hin|]. simpl.
  apply elem_of_cons in Hin as [<-|Hin]; [|by apply IH]. unfold merge_live at 2. rewrite Hs.
  eapply Hkeep; [apply lookup_insert_eq|]. by destruct (history !! id).
Qed.

Lemma refresh_keeps K ms t t' t'' : keeps K t t' -> refreshHistoricalTools ms t' = Some t'' -> keeps K t t''.
Proof.
  intros Hk. unfold refreshHistoricalTools. destruct (historicalToolStates ms) as [history|]; [|done]. simpl. intros [= <-].
  revert Hk. apply keeps_step; [done| |done]. intros id s Hid Hs. by apply refreshed_calls.
Qed.

(** ** The capture of an event *)
Section Capture.
Context (decode_error : string) (apply_patch : json -> json -> json + string).

Definition kept (K : string -> Prop) (t : Translator) (o : outcome) : Prop :=
  match o with Captured t' | CaptureError t' _ => keeps K t t' | Panic => False end.

(** An event of a call of the run, or a snapshot with all of the messages. *)
Definition sound (K : string -> Prop) (t : Translator) (w : Object) : Prop :=
  field w "type" <> "TOOL_CALL_START" /\ field w "type" <> "TOOL_CALL_CHUNK"
  /\ (field w "type" = "TOOL_CALL_ARGS" ->
        exists s, tools t !! field w "toolCallId" = Some s /\ field w "toolCallId" ∈ toolOrder t /\ K (parent s))
  /\ (field w "type" = "MESSAGES_SNAPSHOT" ->
        exists ms, get "messages" w = Some (JArray (JObject <$> ms)) /\ forall x, K x -> has_message x ms).

Lemma reported_kept K t r : keeps K t r.1 -> kept K t (reported r).
Proof. by destruct r as [t' [e|]]. Qed.

Lemma capture_chunk_keeps K t r w t' : keeps K t t' -> keeps K t (capture_chunk r false w t').1.
Proof.
  intros H. unfold capture_chunk. case_bool_decide; [done|]. simpl.
  apply keeps_save; [rewrite merge_id, add_delta_id; apply message_or_id|].
  revert H. by destruct r; apply keeps_same.
Qed.

Lemma objects_of_objects (ms : list Object) : objects_of (JArray (JObject <$> ms)) = Some ms.
Proof. apply mapM_Some. induction ms as [|m ms IH]; by constructor. Qed.

Lemma snapshot_message_keeps K t u m : keeps K t u -> keeps K t (snapshot_message u m).
Proof.
  intros H. unfold snapshot_message. set (u1 := if assistant m then _ else u).
  assert (keeps K t u1) as H1.
  { unfold u1. destruct (assistant m); [|done]. apply keeps_foldl; [|revert H; by apply keeps_same].
    intros v raw Hv. destruct raw; try done. by apply keeps_tools. }
  destruct (is_role "reasoning" m); [|done]. revert H1. by apply keeps_same.
Qed.

Lemma capture_snapshot_keeps K t t' w ms :
  get "messages" w = Some (JArray (JObject <$> ms)) -> (forall x, K x -> has_message x ms) -> keeps K t t' ->
  keeps K t (capture_snapshot decode_error w t').1.
Proof.
  intros Hw Hms Hk. unfold capture_snapshot, value_of. rewrite Hw. cbn [default from_option id]. rewrite objects_of_objects.
  assert (keeps K t (set_messages ms t')) as H1.
  { destruct Hk as [H1 H2 H3]. split; [done|done|]. intros x Hx. by apply message_has, Hms. }
  destruct (refreshHistoricalTools ms (set_messages ms t')) as [u|] eqn:E; [|done]. simpl.
  apply keeps_foldl; [intros; by apply snapshot_message_keeps|]. by eapply refresh_keeps.
Qed.

Lemma capture_content_keeps K t t' w : keeps K t t' -> keeps K t (capture_content w t').1.
Proof.
  intros H. unfold capture_content. destruct (message _ _) as [m|] eqn:E; [|done]. simpl.
  apply keeps_save; [|done]. rewrite merge_id, add_delta_id. by eapply message_id.
Qed.

Lemma capture_invocation_keeps K t t' w : keeps K t t' -> keeps K t (capture_invocation decode_error w t').1.
Proof.
  intros H. unfold capture_invocation. destruct (get "value" w) as [[]|]; try done. cbv zeta.
  destruct (typed_string _ _); [|done]. destruct (typed_string _ _); [|done].
  destruct (_ ≫= _) as [inv|]; [|done]. case_bool_decide; [done|].
  destruct (validateInvocation inv t'); [done|]. unfold subagent. destruct (get _ (children t')); [done|].
  revert H. by apply keeps_same.
Qed.

Lemma capture_usage_keeps K t t' w : keeps K t t' -> keeps K t (capture_usage w t').
Proof.
  intros H. unfold capture_usage. case_bool_decide; [done|]. destruct (reported_usage _) as [[]|]; [|done]. revert H. by apply keeps_same.
Qed.

Lemma capture_result_keeps K t t' w : keeps K t t' -> keeps K t (capture_result w t').
Proof.
  apply keeps_save. rewrite merge_id. assert (forall m : Object, field m "id" = field w "messageId" ->
    field (match get "error" w with Some e => put "error" e m | None => m end) "id" = field w "messageId") as Hm.
  { intros m E. destruct (get "error" w); [by rewrite field_put_ne|done]. }
  apply Hm. rewrite field_members by keys. done.
Qed.

Lemma capture_encrypted_keeps K t t' w : keeps K t t' -> keeps K t (capture_encrypted w t').1.
Proof.
  intros H. unfold capture_encrypted. case_bool_decide.
  - simpl. apply keeps_foldl; [|done]. intros u m Hu. destruct (get "toolCalls" m) as [[]|]; try done. apply keeps_save; [|done].
    apply update_calls_id.
  - destruct (message _ _) as [m|] eqn:E; [|done]. simpl. apply keeps_save; [|done]. rewrite field_put_ne by done. by eapply message_id.
Qed.

Lemma capture_activity_keeps K t t' w : keeps K t t' -> keeps K t (capture_activity w t').
Proof.
  intros H. unfold capture_activity. set (id := field w "messageId").
  set (u := if bool_decide _ then _ else t'). assert (keeps K t u) as Hu by (unfold u; case_bool_decide; [by apply keeps_tools|done]).
  set (fresh := of_members _). assert (field fresh "id" = id) as Hf by (unfold fresh; rewrite field_members by keys; done).
  apply keeps_save; [|done]. rewrite merge_id. destruct (message id (messages u)) as [m|] eqn:E; [|done].
  destruct (negb _); [|by eapply message_id]. destruct (get "metadata" m); [by rewrite field_put_ne|done].
Qed.

Lemma capture_activity_delta_keeps K t t' w : keeps K t t' -> keeps K t (capture_activity_delta apply_patch w t').1.
Proof.
  intros H. unfold capture_activity_delta. destruct (message _ _) as [m|] eqn:E; [|done]. destruct (apply_patch _ _); [|done]. simpl.
  apply keeps_save; [|done]. rewrite merge_id, field_put_ne by done. by eapply message_id.
Qed.

Lemma capture_arguments_kept K t t' call d s :
  keeps K t t' -> call ∈ toolOrder t -> tools t !! call = Some s -> K (parent s) ->
  kept K t (match tools t' !! call with Some s => checked (appendToolArguments (parent s) call d t') | None => Captured t' end).
Proof.
  intros Hk Hin Hs HK. destruct (k_parent K t t' Hk call s Hin Hs) as (s' & -> & Hp). rewrite Hp. unfold appendToolArguments.
  destruct (k_knows K t t' Hk _ HK) as [m E]. rewrite E. simpl. apply keeps_save; [|done]. rewrite update_calls_id. by eapply message_id.
Qed.

(** The type of an event from its constructor. *)
Lemma typed w T : event_type (field w "type") = Some T -> (field w "type", T) ∈ event_types.
Proof. intros E. apply get_In in E. by apply list_elem_of_In. Qed.

Lemma capture_message_kept K t t' w : sound K t w -> keeps K t t' -> kept K t (capture_message decode_error apply_patch false w t').
Proof.
  intros (Hn1 & Hn2 & Ha & Hm) Hk. unfold capture_message. case_bool_decide; [by apply reported_kept, capture_chunk_keeps|].
  case_bool_decide; [by apply reported_kept, capture_chunk_keeps|]. case_bool_decide; [done|].
  destruct (event_type (field w "type")) as [T|] eqn:Et; [|done].
  assert (forall U, T = U -> (field w "type", U) ∈ event_types) as Hin by (intros U <-; by apply typed).
  destruct T; try done; specialize (Hin _ eq_refl).
  - apply keeps_save; [|done]. rewrite merge_id. apply message_or_id.
  - apply reported_kept. by apply capture_content_keeps.
  - apply keeps_save; [|done]. rewrite merge_id. apply message_or_id.
  - apply reported_kept. by apply capture_content_keeps.
  - exfalso. apply Hn1. clear -Hin. set_solver.
  - destruct Ha as (s & Hs & Hc & HK); [clear -Hin; set_solver|]. by eapply capture_arguments_kept.
  - by apply capture_result_keeps.
  - destruct Hm as (ms & E & HK); [clear -Hin; set_solver|]. apply reported_kept. by eapply capture_snapshot_keeps.
  - by apply capture_activity_keeps.
  - apply reported_kept. by apply capture_activity_delta_keeps.
  - apply reported_kept. by apply capture_encrypted_keeps.
  - pose proof (capture_invocation_keeps K t t' w Hk) as Hi. case_bool_decide.
    + destruct (capture_invocation _ w t') as [t1 [e|]]; [exact Hi|]. simpl in Hi |- *. case_bool_decide; [|done]. by apply capture_usage_keeps.
    + simpl. case_bool_decide; [by apply capture_usage_keeps|done].
Qed.

Lemma kept_event K t ev t' :
  standard ev = true -> applied ev = true -> kept K t (capture_message decode_error apply_patch false (wire ev) t') ->
  exists t'', capture_event decode_error apply_patch ev t' = Some t'' /\ keeps K t t''.
Proof.
  intros H1 H2. unfold capture_event. rewrite H1, H2. unfold captureStandard. cbn [negb].
  destruct (capture_message _ _ _ _ _) as [t1|t1 e|]; [by exists t1| |done]. simpl. intros Hk.
  destruct (historyErr t1); (eexists; split; [done|]); [done|]. revert Hk. by apply keeps_same.
Qed.

Lemma capture_app evs evs' t : capture decode_error apply_patch (evs ++ evs') t = capture decode_error apply_patch evs t ≫= capture decode_error apply_patch evs'.
Proof. unfold capture. revert t. induction evs as [|ev evs IH]; intros t; [done|]. simpl. destruct (capture_event _ _ ev t); [apply IH|done]. Qed.

(** Sound events are captured. *)
Lemma capture_kept K t evs t' :
  Forall (fun ev => standard ev = true /\ applied ev = true /\ sound K t (wire ev)) evs -> keeps K t t' ->
  exists t'', capture decode_error apply_patch evs t' = Some t'' /\ keeps K t t''.
Proof.
  intros Hev. revert t'. induction Hev as [|ev evs (H1 & H2 & H3) _ IH]; intros t' Hk; [by exists t'|].
  destruct (kept_event K t ev t' H1 H2) as (t1 & E1 & Hk1); [by apply capture_message_kept|].
  destruct (IH t1 Hk1) as (t2 & E2 & Hk2). exists t2. split; [|done]. unfold capture in *. simpl. by rewrite E1.
Qed.

(** The start of a call puts the message of the call into the graph. *)
Lemma capture_start_kept K t ev t' :
  standard ev = true -> applied ev = true -> field (wire ev) "type" = "TOOL_CALL_START" -> field (wire ev) "parentMessageId" <> "" ->
  running_call t (field (wire ev) "toolCallId") -> keeps K t t' ->
  exists t'', capture_event decode_error apply_patch ev t' = Some t'' /\ keeps (fun x => K x \/ x = field (wire ev) "parentMessageId") t t''.
Proof.
  intros H1 H2 Et Hp [[s Hs] Hin] Hk. apply kept_event; [done..|]. unfold capture_message. rewrite Et, !bool_decide_false by done. change (event_type "TOOL_CALL_START") with (Some TOOL_CALL_START). cbv iota.
  unfold capture_tool. cbn [andb]. destruct (k_parent K t t' Hk _ s Hin Hs) as (s' & -> & _). cbv zeta.
  set (p := first_set _). assert (p = field (wire ev) "parentMessageId") as Ep by (unfold p; simpl; by rewrite bool_decide_false).
  set (m := mergeEventMetadata _ _). assert (field m "id" = p) as Hm.
  { unfold m. rewrite merge_id, field_put_ne by done. destruct (message p (messages t')) as [m0|] eqn:E; [by eapply message_id|].
    rewrite field_members by keys. done. }
  simpl. destruct Hk as [K1 K2 K3]. split; [done|done|]. intros x [HK| ->]; [apply knows_save; [done|by apply K3]|].
  rewrite <- Ep. by apply knows_saved.
Qed.
End Capture.
