(* ===== verification/AguiTranslateProps.v ===== *)
(** * The translation of a run is a run

    Each translation of a native event moves the life-cycle machine along, from
    the start of the run to its end. *)
From stdpp Require Import base gmap strings list fin_maps sets.
From Stdlib Require Import ZArith Ascii.
From S2P Require Import Prelude GoStrings GoJson CanonicalNumber JsonValue JsonCodec AguiPatch AguiProjection AguiDemo AguiProps AguiLife.
From S2P Require Import AguiNative AguiTranslator AguiTranslate AguiTranslateDemo AguiLanes AguiCapture.

Open Scope nat_scope.

Notation Object := (list (string * json)) (only parsing).

Ltac keys := cbn [fmap list_fmap fst str app]; apply (bool_decide_unpack _); vm_compute; exact I.

(** ** The start and the end of a run *)
Lemma coherent_same t t' :
  coherent t -> (started t = true -> started t' = true) ->
  texts t' = texts t -> textOrder t' = textOrder t -> tools t' = tools t -> toolOrder t' = toolOrder t ->
  reasonings t' = reasonings t -> reasoningOrder t' = reasoningOrder t -> reasoningSpans t' = reasoningSpans t ->
  steps t' = steps t -> stepOrder t' = stepOrder t -> coherent t'.
Proof.
  intros [Ht Ho Hr Hsp Hst Hi] Hs E1 E2 E3 E4 E5 E6 E7 E8 E9.
  assert (forall s, open_lanes t' s = open_lanes t s) as El by (intros []; simpl; congruence). split.
  - by rewrite E1, E2.
  - by rewrite E3, E4.
  - by rewrite E5, E6, E7.
  - by rewrite E5, E7.
  - by rewrite E8, E9.
  - intros Hf s. rewrite El. apply Hi. destruct (started t); [|done]. by rewrite Hs in Hf.
Qed.

Lemma start_plain_move t r v : moved (plain_event "RUN_STARTED" [str "threadId" t; str "runId" r; str "protocolVersion" v]) = Some StartRun.
Proof. rewrite moved_plain by first [keys|set_solver]. done. Qed.
Lemma start_standard_move t r v m :
  moved (standardEvent [str "type" "RUN_STARTED"; str "threadId" t; str "runId" r; str "protocolVersion" v; ("metadata", m)]) = Some StartRun.
Proof. apply standard_move; [keys|done]. Qed.
Lemma finish_plain_move t r v : moved (plain_event "RUN_FINISHED" [str "threadId" t; str "runId" r; ("outcome", v)]) = Some FinishRun.
Proof. rewrite moved_plain by first [keys|set_solver]. done. Qed.
Lemma finish_standard_move t r v u :
  moved (standardEvent [str "type" "RUN_FINISHED"; str "threadId" t; str "runId" r; ("outcome", v); ("usage", u)]) = Some FinishRun.
Proof. apply standard_move; [keys|done]. Qed.

Lemma lanes_empty t : (forall s, open_lanes t s = ∅) -> forall s, lanes_of t s = ∅.
Proof. intros H s. unfold lanes_of. by rewrite H, set_map_empty. Qed.

Lemma Start_emits t :
  coherent t -> done t = false ->
  emits (run_life false t) (Start t).1 (run_life false (Start t).2) /\ coherent (Start t).2 /\ going (Start t).2.
Proof.
  intros Hc Hd. unfold Start. destruct (started t) eqn:Es; cbn [orb fst snd].
  { split; [apply emits_nil|done]. }
  rewrite Hd. cbn [fst snd]. split; [|split; [by apply (coherent_same t)|done]].
  apply (emits_one _ _ _ StartRun); [case_bool_decide; [apply start_standard_move|apply start_plain_move]|].
  pose proof (c_idle t Hc Es) as Hi. apply lives_start; try done; simpl; [by rewrite Es|by rewrite Hd|].
  intros s. by apply (lanes_empty t).
Qed.

Lemma Start_going t : going t -> Start t = ([], t).
Proof. intros [Hs _]. unfold Start. by rewrite Hs. Qed.

(** The events of the rest of a run: it goes on, or it is over. *)
Definition ends_with (t : Translator) (evs : list Event) (t' : Translator) : Prop :=
  done t' = true /\ exists failed, emits (run_life false t) evs (run_life failed t') /\ forall s, open_lanes t' s = ∅.
Definition runs (t : Translator) (evs : list Event) (t' : Translator) : Prop := steps_to t evs t' \/ ends_with t evs t'.

Lemma runs_app t t' t'' evs evs' : steps_to t evs t' -> runs t' evs' t'' -> runs t (evs ++ evs') t''.
Proof.
  intros H [H'|(Hd & failed & He & Ho)]; [left; by eapply steps_to_app|]. right. split; [done|]. exists failed. split; [|done].
  eapply emits_app; [apply H|exact He].
Qed.

Section Runs.
Context (range : gset string -> list string) (range_all : forall X x, x ∈ X -> x ∈ range X).

Lemma closed_run t evs ev mv failed t1 t' :
  steps_to t evs t1 -> (forall s, open_lanes t1 s = ∅) -> going t1 -> t' = set_done true t1 ->
  moved ev = Some mv -> (mv = FinishRun /\ failed = false) \/ (mv = FailRun /\ failed = true) ->
  ends_with t (evs ++ [ev]) t'.
Proof.
  intros H Ho Hg -> Em Hmv. split; [done|]. exists failed. split; [|done].
  eapply emits_app; [apply H|]. apply (emits_one _ _ _ mv Em). pose proof (lanes_empty t1 Ho) as Hl.
  destruct Hmv as [[-> ->]|[-> ->]].
  - apply lives_finish; try done; [by apply going_active|]. simpl. by rewrite andb_false_r.
  - apply lives_fail; try done. simpl. by rewrite andb_false_r.
Qed.

Lemma closeOpen_going t : coherent t -> going t -> going (closeOpen range t).2.
Proof. intros Hc Hg. destruct (closeOpen_steps range t range_all Hc Hg) as [(_ & _ & H) _]. by eapply same_run_going. Qed.

Lemma Finish_ends outcome t : coherent t -> going t -> ends_with t (Finish range outcome t).1 (Finish range outcome t).2.
Proof.
  intros Hc Hg. unfold Finish. rewrite (proj2 Hg), Start_going by done. cbn [app].
  destruct (closeOpen_steps range t range_all Hc Hg) as [H Ho]. pose proof (closeOpen_going t Hc Hg) as Hg1.
  destruct (closeOpen range t) as [evs t1]. cbn [fst snd] in *.
  apply (closed_run t evs _ FinishRun false t1); [done|done|done|done| |by left].
  destruct (runUsage _); [apply finish_plain_move|apply finish_standard_move].
Qed.

Lemma Fail_ends message code t : coherent t -> going t -> ends_with t (Fail_run range message code t).1 (Fail_run range message code t).2.
Proof.
  intros Hc Hg. unfold Fail_run. rewrite (proj2 Hg), Start_going by done. cbn [app].
  destruct (closeOpen_steps range t range_all Hc Hg) as [H Ho]. pose proof (closeOpen_going t Hc Hg) as Hg1.
  destruct (closeOpen range t) as [evs t1]. cbn [fst snd] in *.
  apply (closed_run t evs _ FailRun true t1); [done|done|done|done|apply error_move|by right].
Qed.

Lemma Finish_done outcome t : done t = true -> Finish range outcome t = ([], t).
Proof. unfold Finish. by intros ->. Qed.
Lemma Fail_done message code t : done t = true -> Fail_run range message code t = ([], t).
Proof. unfold Fail_run. by intros ->. Qed.
Lemma Fail_is_done message code t : done (Fail_run range message code t).2 = true.
Proof.
  unfold Fail_run. destruct (done t) eqn:Ed; [done|]. destruct (Start t) as [e1 t1]. by destruct (closeOpen range t1) as [e2 t2].
Qed.

(** ** Text *)
Lemma other_step t t' ev :
  coherent t' -> going t -> same_run t t' -> (forall s, open_lanes t' s = open_lanes t s) -> moved ev = Some Other -> steps_to t [ev] t'.
Proof.
  intros Hc Hg Hr Ho Em. split; [|done]. apply (emits_one _ _ _ Other Em). apply lives_other; [by apply going_active|by apply same_lanes].
Qed.
Lemma similar_step t t' ev : coherent t -> going t -> similar t t' -> moved ev = Some Other -> steps_to t [ev] t'.
Proof. intros Hc Hg Hs Em. apply other_step; [by eapply similar_coherent|done|apply Hs|by apply similar_lanes|done]. Qed.

Lemma silent_step t t' : coherent t -> similar t t' -> steps_to t [] t'.
Proof.
  intros Hc Hs. split; [|split; [by eapply similar_coherent|apply Hs]]. apply emits_same, same_lanes; [apply Hs|by apply similar_lanes].
Qed.

Lemma runs_going t evs t' : runs t evs t' -> done t' = false -> steps_to t evs t'.
Proof. intros [H|[Hd _]] E; [done|congruence]. Qed.

Lemma replaceText_runs id text t :
  coherent t -> going t -> runs t (replaceText range id text t).1 (replaceText range id text t).2.
Proof.
  intros Hc Hg. unfold replaceText. destruct (message id (messages t)) as [m|]; [left|by right; apply Fail_ends].
  apply similar_step; [done|done| |apply snapshot_move].
  apply (similar_trans _ (save id (put "content" (JString text) m) t)); [apply similar_save|]. by apply similar_texts.
Qed.

(** Text for a message whose state is known. *)
Definition continue_text (id text : string) (snapshot : bool) (offset : option Z) (s : textState) (out : list Event) (t : Translator)
    : list Event * Translator :=
  match reconcile (content s) text snapshot (seeded t) offset with
  | Replaced => let '(evs, t) := replaceText range id text t in (out ++ evs, t)
  | Refused message code => Fail_run range message code t
  | Repeated => (out, t)
  | NewText delta =>
      if bool_decide (delta = "") then (out, t)
      else (out ++ [plain_event "TEXT_MESSAGE_CONTENT" [str "messageId" id; str "delta" delta]],
            set_texts (alter (fun s => set_content (content s +:+ delta) s) id (texts t)) t)
  end.

Lemma continue_text_runs t0 id text snapshot offset s out t :
  steps_to t0 out t -> going t -> texts t !! id = Some s -> text_ended s = false ->
  done (continue_text id text snapshot offset s out t).2 = false \/ (t0 = t /\ out = []) ->
  runs t0 (continue_text id text snapshot offset s out t).1 (continue_text id text snapshot offset s out t).2.
Proof.
  intros H Hg Hs He. pose proof (proj1 (proj2 H)) as Hc. unfold continue_text.
  destruct (reconcile _ _ _ _ _) as [delta| |message code|].
  - intros _. left. case_bool_decide; [done|]. simpl. eapply steps_to_app; [exact H|]. split; [|split; [|done]].
    + apply (emits_one _ _ _ (Use TextStream id)); [apply text_content_move|]. apply (uses_lane TextStream id); [done|done| |].
      * apply elem_open_keys. by exists s.
      * apply similar_lanes; [done|]. by apply similar_texts.
    + eapply similar_coherent; [done|]. by apply similar_texts.
  - intros _. pose proof (replaceText_runs id text t Hc Hg) as Hr. destruct (replaceText range id text t) as [evs t1].
    eapply runs_app; [exact H|exact Hr].
  - rewrite Fail_is_done. intros [?|[-> ->]]; [done|]. right. by apply Fail_ends.
  - by left.
Qed.

Lemma text_opened id s t :
  coherent t -> going t -> texts t !! id = None -> text_ended s = false -> text_subagent s = "" ->
  steps_to t [plain_event "TEXT_MESSAGE_START" [str "messageId" id; str "role" "assistant"]]
    (set_new_texts (<[id := s]> (texts t)) (textOrder t ++ [id]) t).
Proof.
  intros Hc Hg Hn He Hs. split; [|split; [|done]].
  - apply (emits_one _ _ _ (AguiLife.Open TextStream id)); [apply text_start_move|]. apply (opens_lane TextStream id); [done|done| |done|].
    + simpl. rewrite elem_open_keys. intros (s' & Hs' & _). congruence.
    + intros []; try done. by apply (open_keys_opened text_ended).
  - destruct Hc as [Ht Ho Hr Hsp Hst Hi]. split; try done; [|simpl; by rewrite (proj1 Hg)].
    intros id' s'. simpl. rewrite lookup_insert_Some, elem_of_app, list_elem_of_singleton. intros [[<- <-]|[Hne Hs']] Hs'e; [by split; [right|]|].
    destruct (Ht _ _ Hs' Hs'e). split; [by left|done].
Qed.

(** Text of a known or a new message; text that starts a message does not fail. *)
Definition text_id (given : string) (t : Translator) : string := if bool_decide (given = "") then runID t +:+ "/assistant" else given.
Definition text_content (id : string) (t : Translator) : string := match message id (messages t) with Some m => field m "content" | None => "" end.
Definition new_text (id : string) (t : Translator) : Translator :=
  set_new_texts (<[id := mkText "" (text_content id t) false]> (texts t)) (textOrder t ++ [id]) t.

Lemma on_text_new given text snapshot offset t :
  texts t !! text_id given t = None ->
  on_text range given text snapshot offset t
  = let id := text_id given t in
    continue_text id text snapshot offset (mkText "" (text_content id t) false)
      [plain_event "TEXT_MESSAGE_START" [str "messageId" id; str "role" "assistant"]] (new_text id t).
Proof. unfold on_text. fold (text_id given t). intros ->. done. Qed.

Lemma on_text_known given text snapshot offset t s :
  texts t !! text_id given t = Some s ->
  on_text range given text snapshot offset t
  = if text_ended s then
      if snapshot && seeded t && bool_decide (text <> content s) then replaceText range (text_id given t) text t else ([], t)
    else continue_text (text_id given t) text snapshot offset s [] t.
Proof. unfold on_text. fold (text_id given t). intros ->. done. Qed.

Lemma on_text_runs given text snapshot offset t :
  coherent t -> going t -> done (on_text range given text snapshot offset t).2 = false \/ is_Some (texts t !! text_id given t) ->
  runs t (on_text range given text snapshot offset t).1 (on_text range given text snapshot offset t).2.
Proof.
  intros Hc Hg. destruct (texts t !! text_id given t) as [s|] eqn:Es.
  - intros _. rewrite (on_text_known given text snapshot offset t s Es). destruct (text_ended s) eqn:Ee.
    + destruct (_ && _); [by apply replaceText_runs|]. left. by apply steps_to_refl.
    + apply continue_text_runs; [by apply steps_to_refl|done|done|done|by right].
  - rewrite on_text_new by done. cbv zeta. intros [Hd|[? ?]]; [|done].
    apply continue_text_runs; [by apply text_opened|done|by simpl; rewrite lookup_insert_eq|done|by left].
Qed.

(** What a change of the tool calls has no part in. *)
Lemma replaceText_tools i text m o u :
  done (replaceText range i text u).2 = false ->
  tools (replaceText range i text u).2 = tools u /\ toolOrder (replaceText range i text u).2 = toolOrder u
  /\ replaceText range i text (set_new_tools m o u) = ((replaceText range i text u).1, set_new_tools m o (replaceText range i text u).2).
Proof.
  unfold replaceText. change (messages (set_new_tools m o u)) with (messages u). destruct (message i (messages u)); [done|]. by rewrite Fail_is_done.
Qed.

Lemma continue_text_tools i text snapshot offset s out m o u :
  done (continue_text i text snapshot offset s out u).2 = false ->
  tools (continue_text i text snapshot offset s out u).2 = tools u /\ toolOrder (continue_text i text snapshot offset s out u).2 = toolOrder u
  /\ continue_text i text snapshot offset s out (set_new_tools m o u)
     = ((continue_text i text snapshot offset s out u).1, set_new_tools m o (continue_text i text snapshot offset s out u).2).
Proof.
  unfold continue_text. change (seeded (set_new_tools m o u)) with (seeded u).
  destruct (reconcile _ _ _ _ _); [by case_bool_decide| |by rewrite Fail_is_done|done]. pose proof (replaceText_tools i text m o u) as Hr.
  destruct (replaceText range i text u) as [evs u1]. simpl in *. intros Hd. by destruct (Hr Hd) as (H1 & H2 & ->).
Qed.

(** Text that does not fail leaves the tool calls as they are. *)
Lemma on_text_tools id text snapshot offset m o t :
  done (on_text range id text snapshot offset t).2 = false ->
  tools (on_text range id text snapshot offset t).2 = tools t /\ toolOrder (on_text range id text snapshot offset t).2 = toolOrder t
  /\ on_text range id text snapshot offset (set_new_tools m o t)
     = ((on_text range id text snapshot offset t).1, set_new_tools m o (on_text range id text snapshot offset t).2).
Proof.
  assert (text_id id (set_new_tools m o t) = text_id id t) as Ei by done. destruct (texts t !! text_id id t) as [s|] eqn:Es.
  - rewrite (on_text_known id text snapshot offset t s Es), (on_text_known id text snapshot offset (set_new_tools m o t) s) by (by rewrite Ei).
    rewrite Ei. change (seeded (set_new_tools m o t)) with (seeded t).
    destruct (text_ended s); [|apply continue_text_tools]. destruct (_ && _); [apply replaceText_tools|done].
  - rewrite (on_text_new id text snapshot offset t Es), (on_text_new id text snapshot offset (set_new_tools m o t)) by (by rewrite Ei).
    cbv zeta. rewrite Ei. change (new_text (text_id id t) (set_new_tools m o t)) with (set_new_tools m o (new_text (text_id id t) t)).
    change (text_content (text_id id t) (set_new_tools m o t)) with (text_content (text_id id t) t).
    apply (continue_text_tools _ _ _ _ _ _ m o (new_text (text_id id t) t)).
Qed.

Lemma on_text_apart id text snapshot offset m o t :
  let r := on_text range id text snapshot offset t in
  let r' := on_text range id text snapshot offset (set_new_tools m o t) in
  done r'.2 = false -> done r.2 = false /\ r' = (r.1, set_new_tools m o r.2) /\ tools r.2 = tools t /\ toolOrder r.2 = toolOrder t.
Proof.
  simpl. intros Hd. destruct (on_text_tools id text snapshot offset (tools t) (toolOrder t) (set_new_tools m o t) Hd) as (_ & _ & E).
  assert (set_new_tools (tools t) (toolOrder t) (set_new_tools m o t) = t) as Et by (by destruct t). rewrite Et in E.
  assert (done (on_text range id text snapshot offset t).2 = false) as Hd' by (by rewrite E). split; [done|].
  destruct (on_text_tools id text snapshot offset m o t Hd') as (? & ? & ?). done.
Qed.
End Runs.
