(* ===== verification/AguiToolSteps.v ===== *)
(** * Tool calls, reasoning and model calls move the life-cycle machine

    The steps of [on_tool], [on_reasoning] and [modelStep], each of which is a
    sequence of moves of the run. *)
From stdpp Require Import base gmap strings list fin_maps sets.
From Stdlib Require Import ZArith Ascii.
From S2P Require Import Prelude GoStrings GoJson CanonicalNumber JsonValue JsonCodec AguiPatch AguiProjection AguiDemo AguiProps AguiLife.
From S2P Require Import AguiNative AguiTranslator AguiTranslate AguiTranslateDemo AguiLanes AguiCapture AguiTranslateProps.

Open Scope nat_scope.

Section Steps.
Context (range : gset string -> list string) (range_all : forall X x, x ∈ X -> x ∈ range X).

(** ** Tool calls *)
Lemma tool_opened id s name p t :
  coherent t -> going t -> tools t !! id = None -> tool_ended s = false -> tool_subagent s = "" ->
  steps_to t [plain_event "TOOL_CALL_START" [str "toolCallId" id; str "toolCallName" name; str "parentMessageId" p]]
    (set_new_tools (<[id := s]> (tools t)) (toolOrder t ++ [id]) t).
Proof.
  intros Hc Hg Hn He Hs. split; [|split; [|done]].
  - apply (emits_one _ _ _ (AguiLife.Open ToolStream id)); [apply tool_start_move|]. apply (opens_lane ToolStream id); [done|done| |done|].
    + simpl. rewrite elem_open_keys. intros (s' & Hs' & _). congruence.
    + intros []; try done. by apply (open_keys_opened tool_ended).
  - destruct Hc as [Ht Ho Hr Hsp Hst Hi]. split; try done; [|simpl; by rewrite (proj1 Hg)].
    intros id' s'. simpl. rewrite lookup_insert_Some, elem_of_app, list_elem_of_singleton. intros [[<- <-]|[Hne Hs']] Hs'e; [by split; [right|]|].
    destruct (Ho _ _ Hs' Hs'e). split; [by left|done].
Qed.

(** The call an event starts. *)
Definition parent_id (e : NativeEvent) (t : Translator) : string :=
  first_set [AssistantMessageID e; if bool_decide (ToolMessageID e = "") then MessageID e else ""; runID t +:+ "/assistant"].
Definition new_call (e : NativeEvent) (t : Translator) : toolState := mkTool None "" "" false false (parent_id e t).

Lemma start_tool_call_steps id e t :
  coherent t -> going t -> tools t !! id = None -> done (start_tool_call range id e t).2 = false ->
  steps_to t (start_tool_call range id e t).1.1 (start_tool_call range id e t).2
  /\ (start_tool_call range id e t).1.2 = new_call e t /\ tools (start_tool_call range id e t).2 !! id = Some (new_call e t)
  /\ id ∈ toolOrder (start_tool_call range id e t).2.
Proof.
  intros Hc Hg Hn. unfold start_tool_call. fold (parent_id e t) (new_call e t).
  set (m := <[id := new_call e t]> (tools t)). set (o := toolOrder t ++ [id]). set (p := parent_id e t).
  change (texts (set_new_tools m o t)) with (texts t).
  assert (forall evs u, steps_to t evs u -> tools u = tools t -> toolOrder u = toolOrder t ->
    steps_to t (evs ++ [plain_event "TOOL_CALL_START" [str "toolCallId" id; str "toolCallName" (if bool_decide (ToolName e = "") then "unknown" else ToolName e); str "parentMessageId" p]])
      (set_new_tools m o u)) as Hopen.
  { intros evs u Hu Em Eo. eapply steps_to_app; [exact Hu|]. unfold m, o. rewrite <- Em, <- Eo.
    apply tool_opened; [apply Hu|by eapply same_run_going; [apply Hu|]|congruence|done|done]. }
  assert (tools (set_new_tools m o t) !! id = Some (new_call e t)) as Hm by apply lookup_insert_eq.
  destruct (texts t !! p) as [s|] eqn:Ep.
  - simpl. intros _. unfold m in *. simpl in Hm. rewrite Hm. split; [|split; [done|split; [done|unfold o; set_solver]]].
    apply (Hopen [] t); [by apply steps_to_refl|done|done].
  - pose proof (on_text_apart range p "" true None m o t) as Ht. pose proof (on_text_runs range range_all p "" true None t Hc Hg) as Hr.
    cbv zeta in Ht. destruct (on_text range p "" true None (set_new_tools m o t)) as [evs t']. simpl in Ht |- *. intros Hd.
    destruct (Ht Hd) as (Hd1 & [= -> ->] & E1 & E2). simpl in Hm |- *. rewrite Hm.
    split; [|split; [done|split; [done|unfold o; set_solver]]]. apply Hopen; [|done|done]. apply runs_going; [apply Hr; by left|done].
Qed.

(** What an event adds to a call that is not closed. *)
Definition set_known (known : string) (id : string) (t : Translator) : Translator := set_tools (alter (set_args known) id (tools t)) t.
Definition end_call (id : string) (t : Translator) : Translator := set_tools (alter (end_tool_state true) id (tools t)) t.
Definition continue_tool (id : string) (e : NativeEvent) (out : list Event) (s : toolState) (t : Translator) : list Event * Translator :=
  match new_arguments e (args s) with
  | Unserializable => Fail_run range "Tool arguments cannot be serialized" "INVALID_TOOL_ARGUMENTS" t
  | Diverged => Fail_run range "Tool argument snapshot cannot reconcile emitted deltas" "UNSUPPORTED_TOOL_ARGUMENTS" t
  | NewArgs delta =>
      let known := args s +:+ delta in
      let t := set_known known id t in
      let content := if bool_decide (delta = "") then [] else [plain_event "TOOL_CALL_ARGS" [str "toolCallId" id; str "delta" delta]] in
      let ends := ends_call e known in
      let t := if ends then end_call id t else t in
      let closed := if ends then [plain_event "TOOL_CALL_END" [str "toolCallId" id]] else [] in
      let '(evs, t) := tool_result_event id e t s in
      (out ++ content ++ closed ++ evs, t)
  end.

Lemma tool_result_steps id e s t :
  coherent t -> going t -> steps_to t (tool_result_event id e t s).1 (tool_result_event id e t s).2.
Proof.
  intros Hc Hg. unfold tool_result_event. destruct (_ && _); [|by apply steps_to_refl].
  apply similar_step; [done|done|by apply similar_tools|apply tool_result_move].
Qed.

Lemma end_call_steps id s t :
  coherent t -> going t -> tools t !! id = Some s -> tool_ended s = false ->
  steps_to t [plain_event "TOOL_CALL_END" [str "toolCallId" id]] (end_call id t).
Proof.
  intros Hc Hg Hs He. split; [|split; [|done]].
  - apply (emits_one _ _ _ (Close ToolStream id)); [apply tool_end_move|]. apply (closes_lane ToolStream id); [done|done| |done|].
    + apply elem_open_keys. by exists s.
    + intros []; try done. by apply (open_keys_ended tool_ended).
  - apply coherent_tools; [done|apply Hg|]. intros id' s'. rewrite lookup_alter_Some. intros [(_ & s0 & _ & ->)|[_ H]]; done.
Qed.

Lemma set_known_similar known id t : similar t (set_known known id t).
Proof. by apply similar_tools. Qed.

Lemma continue_tool_runs t0 id e out s t :
  steps_to t0 out t -> going t -> tools t !! id = Some s -> tool_ended s = false ->
  done (continue_tool id e out s t).2 = false \/ (t0 = t /\ out = []) ->
  runs t0 (continue_tool id e out s t).1 (continue_tool id e out s t).2.
Proof.
  intros H Hg Hs He. pose proof (proj1 (proj2 H)) as Hc. unfold continue_tool.
  assert (forall message code, done (Fail_run range message code t).2 = false \/ (t0 = t /\ out = []) ->
    runs t0 (Fail_run range message code t).1 (Fail_run range message code t).2) as Hf.
  { intros message code. rewrite Fail_is_done. intros [?|[-> ->]]; [done|]. right. by apply Fail_ends. }
  destruct (new_arguments e (args s)) as [delta| |]; [|apply Hf|apply Hf]. clear Hf. intros _. left. cbv zeta.
  set (known := args s +:+ delta). set (t1 := set_known known id t).
  assert (similar t t1) as Hsim by apply set_known_similar. assert (going t1) as Hg1 by done.
  assert (tools t1 !! id = Some (set_args known s)) as Hs1 by (unfold t1; simpl; by rewrite lookup_alter_eq, Hs).
  set (content := if bool_decide (delta = "") then [] else _).
  assert (steps_to t content t1) as H1.
  { unfold content. case_bool_decide; [by apply silent_step|]. split; [|split; [by eapply similar_coherent|done]].
    apply (emits_one _ _ _ (Use ToolStream id)); [apply tool_args_move|]. apply (uses_lane ToolStream id); [done|done| |].
    - apply elem_open_keys. by exists s.
    - by apply similar_lanes. }
  set (t2 := if ends_call e known then end_call id t1 else t1). set (closed := if ends_call e known then _ else []).
  assert (steps_to t1 closed t2) as H2.
  { unfold closed, t2. destruct (ends_call e known); [|apply steps_to_refl, H1]. by eapply end_call_steps; [apply H1|..]. }
  assert (going t2) as Hg2 by (eapply same_run_going, Hg1; apply H2).
  pose proof (tool_result_steps id e s t2 (proj1 (proj2 H2)) Hg2) as H3. destruct (tool_result_event id e t2 s) as [evs t3]. simpl in *.
  eapply steps_to_app; [exact H|]. eapply steps_to_app; [exact H1|]. by eapply steps_to_app.
Qed.

(** The call an event is about. *)
Definition native_call (e : NativeEvent) : string := first_set [ToolCallID e; if bool_decide (ToolMessageID e = "") then ID e else ""].
Definition call_id (e : NativeEvent) (t : Translator) : string := toolID (TurnID e) (native_call e) t.

Lemma on_tool_known e t s :
  tools t !! call_id e t = Some s ->
  on_tool range e t
  = if bool_decide (native_call e = "") then ([], t)
    else if tool_ended s then tool_result_event (call_id e t) e t s else continue_tool (call_id e t) e [] s t.
Proof.
  unfold on_tool. fold (native_call e). fold (call_id e t). intros ->. case_bool_decide; [done|]. destruct (tool_ended s); [|done].
  by destruct (tool_result_event _ _ _ _).
Qed.

Lemma on_tool_new e t :
  tools t !! call_id e t = None ->
  on_tool range e t
  = if bool_decide (native_call e = "") then ([], t)
    else let '(out, s, t') := start_tool_call range (call_id e t) e t in
         if tool_ended s then let '(evs, t') := tool_result_event (call_id e t) e t' s in (out ++ evs, t')
         else continue_tool (call_id e t) e out s t'.
Proof. unfold on_tool. fold (native_call e). fold (call_id e t). intros ->. done. Qed.

Lemma tool_result_done id e s t : done (tool_result_event id e t s).2 = done t.
Proof. unfold tool_result_event. by destruct (_ && _). Qed.

Lemma continue_tool_done id e out s t : done (continue_tool id e out s t).2 = false -> done t = false.
Proof.
  unfold continue_tool. destruct (new_arguments _ _) as [delta| |]; [|by rewrite Fail_is_done..]. cbv zeta.
  set (u := if ends_call _ _ then _ else _). intros Hd. assert (done u = done t) as <-; [by unfold u; destruct (ends_call _ _)|].
  rewrite <- (tool_result_done id e s). by destruct (tool_result_event id e u s).
Qed.

(** A tool event of a call that is known, or of a new one when it does not fail. *)
Lemma on_tool_runs e t :
  coherent t -> going t -> done (on_tool range e t).2 = false \/ is_Some (tools t !! call_id e t) ->
  runs t (on_tool range e t).1 (on_tool range e t).2.
Proof.
  intros Hc Hg. destruct (tools t !! call_id e t) as [s|] eqn:Es.
  - intros _. rewrite (on_tool_known e t s Es). case_bool_decide; [left; by apply steps_to_refl|].
    destruct (tool_ended s) eqn:Ee; [left; by apply tool_result_steps|].
    apply continue_tool_runs; [by apply steps_to_refl|done|done|done|by right].
  - rewrite on_tool_new by done. case_bool_decide; [intros _; left; by apply steps_to_refl|]. intros [Hd|[? ?]]; [|done].
    pose proof (start_tool_call_steps (call_id e t) e t Hc Hg Es) as Hsteps. destruct (start_tool_call range (call_id e t) e t) as [[out s] t1]. simpl in *.
    assert (done t1 = false) as Hd1.
    { destruct (tool_ended s); [|by apply continue_tool_done in Hd].
      rewrite <- (tool_result_done (call_id e t) e s). by destruct (tool_result_event _ _ t1 s). }
    destruct (Hsteps Hd1) as (H1 & -> & Hs & _). simpl in Hd |- *.
    apply continue_tool_runs; [done|eapply same_run_going, Hg; apply H1|done|done|by left].
Qed.

(** ** Reasoning *)
Definition span_id_of (id : string) (e : NativeEvent) : string := if bool_decide (ReasoningSpanID e = "") then id +:+ "/span" else ReasoningSpanID e.
Definition opens_span (sp : string) (t : Translator) : bool := negb (default false (reasoningSpans t !! sp)).
Definition open_span (sp : string) (t : Translator) : Translator :=
  if opens_span sp t then set_reasoningSpans (<[sp := true]> (reasoningSpans t)) t else t.
Definition span_start (sp : string) (t : Translator) : list Event :=
  if opens_span sp t then [standardEvent [str "type" "REASONING_START"; str "messageId" sp]] else [].
Definition new_reasoning (id : string) (s : reasoningState) (t : Translator) : Translator :=
  set_new_reasonings (<[id := s]> (reasonings t)) (reasoningOrder t ++ [id]) t.

Lemma opens_span_closed sp t : opens_span sp t = true -> sp ∉ open_lanes t SpanStream.
Proof. unfold opens_span. simpl. rewrite elem_open_keys. intros Ho (b & Hb & He). rewrite Hb in Ho. by destruct b. Qed.

Lemma open_span_spans sp t sp' : reasoningSpans (open_span sp t) !! sp' = if decide (sp' = sp) then Some true else reasoningSpans t !! sp'.
Proof.
  unfold open_span, opens_span. destruct (decide (sp' = sp)) as [->|Hne].
  - destruct (reasoningSpans t !! sp) as [[]|] eqn:E; simpl; [done|by rewrite lookup_insert_eq..].
  - destruct (negb _); [|done]. simpl. by rewrite lookup_insert_ne.
Qed.

Lemma open_span_rest sp t : reasonings (open_span sp t) = reasonings t /\ reasoningOrder (open_span sp t) = reasoningOrder t
  /\ same_run t (open_span sp t) /\ forall s, s <> SpanStream -> open_lanes (open_span sp t) s = open_lanes t s.
Proof. unfold open_span. destruct (opens_span sp t); [|done]. split; [done|]. split; [done|]. split; [done|]. by intros []. Qed.

Lemma span_start_emits sp t : going t -> emits (run_life false t) (span_start sp t) (run_life false (open_span sp t)).
Proof.
  intros Hg. unfold span_start, open_span. destruct (opens_span sp t) eqn:Eo; [|apply emits_nil].
  apply (emits_one _ _ _ (AguiLife.Open SpanStream sp)); [apply reasoning_span_start_move|].
  apply (opens_lane SpanStream sp); [done|done|by apply opens_span_closed|done|]. intros []; try done. by apply (open_keys_opened negb).
Qed.

Lemma reasoning_opened id sp call t :
  coherent t -> going t -> reasonings t !! id = None ->
  steps_to t (span_start sp t ++ [standardEvent [str "type" "REASONING_MESSAGE_START"; str "messageId" id; str "role" "reasoning"]])
    (new_reasoning id (mkReasoning "" sp call "" false) (open_span sp t)).
Proof.
  intros Hc Hg Hn. destruct (open_span_rest sp t) as (Er & Eo & Hrun & Hl). set (s := mkReasoning "" sp call "" false).
  assert (going (open_span sp t)) as Hg1 by by eapply same_run_going. split; [|split; [|exact Hrun]].
  - eapply emits_app; [by apply span_start_emits|]. apply (emits_one _ _ _ (AguiLife.Open ReasoningStream id)); [apply reasoning_start_move|].
    apply (opens_lane ReasoningStream id); [done|done| |done|].
    + simpl. rewrite Er, elem_open_keys. intros (s' & Hs' & _). congruence.
    + intros []; try done. by apply (open_keys_opened reasoning_ended).
  - destruct Hc as [Ht Ho Hr Hspan Hst Hi]. split.
    + unfold open_span. by destruct (opens_span sp t).
    + unfold open_span. by destruct (opens_span sp t).
    + intros id' s'. simpl. rewrite Er, Eo, lookup_insert_Some, elem_of_app, list_elem_of_singleton.
      change (reasoningSpans (new_reasoning id s (open_span sp t))) with (reasoningSpans (open_span sp t)).
      rewrite !open_span_spans. intros [[<- <-]|[Hne Hs']].
      * simpl. rewrite decide_True by done. split; [by right|done].
      * destruct (Hr _ _ Hs') as (? & ? & Ha). split; [by left|]. split; [done|]. intros He. destruct (decide _); [done|by apply Ha].
    + intros sp'. change (reasoningSpans (new_reasoning id s (open_span sp t))) with (reasoningSpans (open_span sp t)).
      rewrite open_span_spans. simpl. rewrite Er. destruct (decide (sp' = sp)) as [->|]; intros Hb.
      * exists id, s. split; [apply lookup_insert_eq|done].
      * destruct (Hspan sp' Hb) as (id' & s' & Hs' & <-). exists id', s'. split; [|done]. rewrite lookup_insert_ne; [done|congruence].
    + unfold open_span. by destruct (opens_span sp t).
    + simpl. intros Hst'. destruct Hrun as [Hrun _], Hg as [Hg _]. congruence.
Qed.

Definition reasoning_id (e : NativeEvent) : string := first_set [ReasoningMessageID e; ID e; MessageID e; modelIdentity e +:+ "/reasoning"].

(** What an event adds to reasoning that is open. *)
Definition reasoning_text (id : string) (e : NativeEvent) (t : Translator) : Translator :=
  set_reasonings (alter (fun s => set_reasoning_content (reasoning_content s +:+ Content e) s) id (reasonings t)) t.
Definition reasoning_delta (id : string) (e : NativeEvent) : list Event :=
  if bool_decide (Content e = "") then [] else [standardEvent [str "type" "REASONING_MESSAGE_CONTENT"; str "messageId" id; str "delta" (Content e)]].
Definition encrypted_reasoning (id : string) (e : NativeEvent) : list Event :=
  if bool_decide (EncryptedValue e = "") then []
  else [standardEvent [str "type" "REASONING_ENCRYPTED_VALUE"; str "subtype" (first_set [EncryptedSubtype e; "message"]);
                       str "entityId" (first_set [EncryptedEntityID e; id]); str "encryptedValue" (EncryptedValue e)]].

Lemma reasoning_text_steps t0 id e out s t :
  steps_to t0 out t -> going t -> reasonings t !! id = Some s -> reasoning_ended s = false ->
  steps_to t0 (out ++ reasoning_delta id e ++ encrypted_reasoning id e) (reasoning_text id e t).
Proof.
  intros Hrun Hg Hs He. eapply steps_to_app; [exact Hrun|]. destruct Hrun as (_ & Hc & _).
  assert (similar t (reasoning_text id e t)) as Hsim by by apply similar_reasonings.
  assert (coherent (reasoning_text id e t)) as Hc1 by by eapply similar_coherent. eapply steps_to_app with (reasoning_text id e t).
  - unfold reasoning_delta. case_bool_decide; [by apply silent_step|]. split; [|done].
    apply (emits_one _ _ _ (Use ReasoningStream id)); [apply reasoning_content_move|]. apply (uses_lane ReasoningStream id); [done|done| |].
    + apply elem_open_keys. by exists s.
    + by apply similar_lanes.
  - unfold encrypted_reasoning. case_bool_decide; [by apply steps_to_refl|].
    apply similar_step; [done|done|apply similar_refl|apply encrypted_move].
Qed.

Lemma on_reasoning_steps e t : coherent t -> going t -> steps_to t (on_reasoning e t).1 (on_reasoning e t).2.
Proof.
  intros Hc Hg. unfold on_reasoning. case_bool_decide; [apply similar_step; [done|done|apply similar_refl|apply encrypted_move]|].
  fold (reasoning_id e). set (id := reasoning_id e). fold (span_id_of id e). set (sp := span_id_of id e).
  fold (encrypted_reasoning id e) (reasoning_delta id e). destruct (reasonings t !! id) as [s|] eqn:Es.
  - destruct (reasoning_ended s) eqn:Ee; [by apply steps_to_refl|]. by apply (reasoning_text_steps t id e [] s t); [apply steps_to_refl|..].
  - cbn [reasoning_ended]. set (s := mkReasoning "" sp (activeModel t) "" false).
    change (reasoningSpans (set_new_reasonings _ _ t)) with (reasoningSpans t). fold (opens_span sp t).
    pose proof (reasoning_opened id sp (activeModel t) t Hc Hg Es) as Hop. unfold span_start, open_span in Hop.
    destruct (opens_span sp t); (apply (reasoning_text_steps t id e _ s); [exact Hop|done|apply lookup_insert_eq|done]).
Qed.

(** ** Model calls *)
Lemma recordUsage_similar e id t : similar t (recordUsage e id t).2.
Proof.
  unfold recordUsage. destruct (Usage e) as [u|]; [|apply similar_refl]. case_bool_decide; [apply similar_refl|].
  case_bool_decide; [apply similar_historyErr|]. cbv zeta. case_bool_decide; [apply similar_refl|apply similar_usage].
Qed.

Lemma step_opened id v t :
  coherent t -> going t -> ValidString id = true -> steps t !! id = None ->
  steps_to t [standardEvent [str "type" "STEP_STARTED"; str "stepName" ("model/" +:+ id); ("metadata", v)]]
    (set_activeModel id (set_new_steps (<[id := mkStep "" ("model/" +:+ id) false]> (steps t)) (stepOrder t ++ [id]) t)).
Proof.
  intros Hc Hg Hv Hn. split; [|split; [|done]].
  - apply (emits_one _ _ _ (AguiLife.Open StepStream (step_lane ("model/" +:+ id)))); [apply step_start_move|].
    apply (opens_lane StepStream id); [done|done| | |].
    + simpl. rewrite elem_open_keys. intros (s & Hs & _). congruence.
    + intros id'. by apply (step_lane_unique t).
    + intros []; try done. by apply (open_keys_opened step_ended).
  - destruct Hc as [Ht Ho Hr Hsp Hst Hi]. split; try done; [|simpl; by rewrite (proj1 Hg)].
    intros id' s. simpl. rewrite lookup_insert_Some, elem_of_app, list_elem_of_singleton. intros [[<- <-]|[Hne Hs]]; [by split; [right|]|].
    destruct (Hst _ _ Hs). split; [by left|done].
Qed.

Lemma step_closed id s t :
  coherent t -> going t -> ValidString id = true -> steps t !! id = Some s -> step_ended s = false ->
  steps_to t [standardEvent [str "type" "STEP_FINISHED"; str "stepName" (step_name s)]] (set_steps (<[id := end_step true s]> (steps t)) t).
Proof.
  intros Hc Hg Hv Hs He. destruct (c_steps t Hc id s Hs) as (_ & Hn & _ & _). rewrite Hn. split; [|split; [|done]].
  - apply (emits_one _ _ _ (Close StepStream (step_lane ("model/" +:+ id)))); [apply step_finish_move|].
    apply (closes_lane StepStream id); [done|done| | |].
    + apply elem_open_keys. by exists s.
    + intros id'. by apply (step_lane_unique t).
    + intros []; try done. by apply (open_keys_closed step_ended).
  - apply coherent_steps; [done|apply Hg|]. intros id' s'. rewrite lookup_insert_Some. intros [[<- <-]|[_ H]]; [by exists s|by exists s'].
Qed.

Lemma active_model_steps t0 evs t id : steps_to t0 evs t -> steps_to t0 evs (set_activeModel id t).
Proof.
  intros H. assert (similar t (set_activeModel id t)) as Hs by (split; try done; naive_solver).
  pose proof (steps_to_app _ _ _ _ _ H (silent_step _ _ (proj1 (proj2 H)) Hs)) as H2. by rewrite app_nil_r in H2.
Qed.

(** The rest of a model call whose step is open. *)
Definition report_usage (e : NativeEvent) (id : string) (t : Translator) : list Event :=
  if (recordUsage e id t).1 then [usageEvent id (recordUsage e id t).2] else [].
Lemma report_usage_steps e id t : coherent t -> going t -> steps_to t (report_usage e id t) (recordUsage e id t).2.
Proof.
  intros Hc Hg. pose proof (recordUsage_similar e id t) as Hs. unfold report_usage.
  destruct (recordUsage e id t).1; [|by apply silent_step]. apply similar_step; [done|done|done|apply custom_move].
Qed.

Definition finish_step (id : string) (complete : bool) (out : list Event) (t : Translator) : list Event * Translator :=
  match steps t !! id with
  | Some s =>
      if complete && negb (step_ended s) then
        let '(closed, t) := closeReasoning range id t in
        let t := set_steps (<[id := end_step true s]> (steps t)) t in
        (out ++ closed ++ [standardEvent [str "type" "STEP_FINISHED"; str "stepName" (step_name s)]],
         if bool_decide (activeModel t = id) then set_activeModel "" t else t)
      else (out, t)
  | None => (out, t)
  end.

Lemma finish_step_steps t0 id complete out t :
  steps_to t0 out t -> going t -> ValidString id = true ->
  steps_to t0 (finish_step id complete out t).1 (finish_step id complete out t).2.
Proof.
  intros H Hg Hv. unfold finish_step. destruct (steps t !! id) as [s|] eqn:Es; [|done].
  destruct (complete && negb (step_ended s)) eqn:Ee; [|done]. apply andb_prop in Ee as [_ Ee]. apply negb_true_iff in Ee.
  destruct (reasoning_orders range id t) as (_ & _ & _ & _ & _ & Est). pose proof (closeReasoning_steps range id t (proj1 (proj2 H)) Hg) as Hr.
  destruct (closeReasoning range id t) as [closed t1]. simpl in *. rewrite <- Est in Es.
  assert (going t1) as Hg1 by (eapply same_run_going, Hg; apply Hr). pose proof (step_closed id s t1 (proj1 (proj2 Hr)) Hg1 Hv Es Ee) as Hs.
  assert (steps_to t0 (out ++ closed ++ [standardEvent [str "type" "STEP_FINISHED"; str "stepName" (step_name s)]])
            (set_steps (<[id := end_step true s]> (steps t1)) t1)) as Ha.
  { eapply steps_to_app; [exact H|]. by eapply steps_to_app. }
  case_bool_decide; [by apply active_model_steps|done].
Qed.

Lemma modelStep_runs e complete t :
  coherent t -> going t -> ValidString (modelIdentity e) = true ->
  runs t (modelStep range e complete t).1 (modelStep range e complete t).2.
Proof.
  intros Hc Hg Hv. unfold modelStep. set (id := modelIdentity e) in *. case_bool_decide; [right; by apply Fail_ends|]. left.
  set (opening := match steps t !! id with Some _ => _ | None => _ end).
  assert (steps_to t opening.1 opening.2) as Ho.
  { unfold opening. destruct (steps t !! id) eqn:Es; [by apply steps_to_refl|by apply step_opened]. }
  destruct opening as [opened t1]. simpl in Ho. assert (going t1) as Hg1 by (eapply same_run_going, Hg; apply Ho).
  pose proof (report_usage_steps e id t1 (proj1 (proj2 Ho)) Hg1) as Hu. unfold report_usage in Hu.
  destruct (recordUsage e id t1) as [changed t2]. simpl in Hu. assert (going t2) as Hg2 by (eapply same_run_going, Hg1; apply Hu).
  pose proof (finish_step_steps t id complete _ t2 (steps_to_app _ _ _ _ _ Ho Hu) Hg2 Hv) as Hf. unfold finish_step in Hf.
  destruct (steps t2 !! id) as [s|]; [|done]. destruct (_ && _); [|done]. destruct (closeReasoning range id t2) as [closed t3].
  simpl in *. by rewrite <- app_assoc in Hf.
Qed.
End Steps.
