(* ===== verification/AguiCalm.v ===== *)
(** * What a translation does to the message graph

    All events but those of tool calls and snapshots are quiet: their capture
    needs nothing. A snapshot has the messages the translator knows. *)
From stdpp Require Import base gmap strings list fin_maps sets.
From Stdlib Require Import ZArith Ascii.
From S2P Require Import Prelude GoStrings GoJson CanonicalNumber JsonValue JsonCodec AguiPatch AguiProjection AguiProps AguiLife.
From S2P Require Import AguiNative AguiTranslator AguiTranslate AguiLanes AguiCapture AguiGraph AguiTranslateProps AguiToolSteps.

Open Scope nat_scope.

(** A standard event is applied by the standard capture alone. *)
Definition settled (ev : Event) : Prop := standard ev = true -> applied ev = true.
Definition quiet (ev : Event) : Prop :=
  settled ev /\ type_of ev ∉ ["TOOL_CALL_START"; "TOOL_CALL_CHUNK"; "TOOL_CALL_ARGS"; "MESSAGES_SNAPSHOT"].

Lemma type_standard T ms : NoDup ("type" :: ms.*1) -> type_of (standardEvent (str "type" T :: ms)) = T.
Proof. intros Hn. unfold type_of. by rewrite field_standard. Qed.
Lemma type_plain T ms : NoDup ("type" :: ms.*1) -> type_of (plain_event T ms) = T.
Proof. intros Hn. unfold type_of. by rewrite field_plain. Qed.

Ltac quiet := split; [done|]; first [rewrite type_standard by keys|rewrite type_plain by keys]; apply (bool_decide_unpack _); vm_compute; exact I.

Lemma quiet_boundary kind key id owner :
  NoDup ["type"; key; "subagentRunId"] -> kind ∉ ["TOOL_CALL_START"; "TOOL_CALL_CHUNK"; "TOOL_CALL_ARGS"; "MESSAGES_SNAPSHOT"] ->
  quiet (scopedBoundary kind key id owner).
Proof.
  intros Hn Hk. split; [done|]. unfold scopedBoundary. case_bool_decide; simpl app; rewrite type_standard; try done.
  apply (NoDup_app ["type"; key] ["subagentRunId"]) in Hn as (Hn & _). exact Hn.
Qed.

(** ** Steps that keep the calls and the messages *)
Definition held (t t' : Translator) : Prop := keeps (knows t) t t'.

Lemma held_refl t : held t t.
Proof. split; [done|naive_solver|done]. Qed.
Lemma held_same t t' : toolOrder t' = toolOrder t -> tools t' = tools t -> messages t' = messages t -> held t t'.
Proof. intros Ho Ht Hm. by apply (keeps_same _ t t); [..|apply held_refl]. Qed.
Lemma held_trans t t' t'' : held t t' -> held t' t'' -> held t t''.
Proof.
  intros [A B C] [D E F]. split; [congruence| |naive_solver]. intros id s Hid Hs. destruct (B id s Hid Hs) as (s' & Hs' & <-).
  apply E; [congruence|done].
Qed.

Definition calm (t : Translator) (evs : list Event) (t' : Translator) : Prop := held t t' /\ Forall quiet evs.

Lemma calm_nil t t' : held t t' -> calm t [] t'.
Proof. by split; [|constructor]. Qed.
Lemma calm_refl t : calm t [] t.
Proof. apply calm_nil, held_refl. Qed.
Lemma calm_app t t' t'' evs evs' : calm t evs t' -> calm t' evs' t'' -> calm t (evs ++ evs') t''.
Proof. intros [H1 H2] [H3 H4]. split; [by eapply held_trans|by apply Forall_app]. Qed.
Lemma calm_event t t' t'' ev evs : quiet ev -> held t t' -> calm t' evs t'' -> calm t (ev :: evs) t''.
Proof. intros Hq H [H3 H4]. split; [by eapply held_trans|by constructor]. Qed.
Lemma calm_one t t' ev : held t t' -> quiet ev -> calm t [ev] t'.
Proof. intros H Hq. split; [done|by apply Forall_singleton]. Qed.
Lemma calm_all t evs : Forall quiet evs -> calm t evs t.
Proof. split; [apply held_refl|done]. Qed.

Section Calm.
Context (range : gset string -> list string).

Lemma close_all_quiet {S} (ended : S -> bool) finish event order m :
  (forall id s, quiet (event id s)) -> Forall quiet (close_all ended finish event order m).1.
Proof.
  intros Hq. revert m. induction order as [|x order IH]; intros m; simpl; [constructor|]. destruct (m !! x) as [s|]; [|done].
  destruct (ended s); [done|]. specialize (IH (<[x := finish s]> m)). destruct (close_all _ _ _ order _). by constructor.
Qed.

Lemma close_span_calm owner sp t : calm t (close_span owner sp t).1 (close_span owner sp t).2.
Proof.
  unfold close_span. destruct (_ && _); [|apply calm_refl]. apply calm_one; [by apply held_same|apply quiet_boundary; [keys|set_solver]].
Qed.
Lemma close_spans_calm spans t : calm t (close_spans spans t).1 (close_spans spans t).2.
Proof.
  revert t. induction spans as [|sp spans IH]; intros t; [apply calm_refl|]. simpl. pose proof (close_span_calm (span_owner sp t) sp t) as H.
  destruct (close_span _ sp t) as [evs t1]. specialize (IH t1). destruct (close_spans spans t1). by eapply calm_app.
Qed.

Lemma closeReasoning_calm o t : calm t (closeReasoning range o t).1 (closeReasoning range o t).2.
Proof.
  unfold closeReasoning. cbv zeta. set (ids := filter _ _). generalize (range (list_to_set (omap (fun id => span <$> reasonings t !! id) ids))).
  intros spans. pose proof (close_all_quiet reasoning_ended (end_reasoning_state true) reasoning_end ids (reasonings t)) as Hq.
  destruct (close_all reasoning_ended _ _ ids _) as [evs rs]. pose proof (close_spans_calm spans (set_reasonings rs t)) as H.
  destruct (close_spans spans _) as [rest t1]. eapply (calm_app _ (set_reasonings rs t)); [split; [by apply held_same|apply Hq]|exact H].
  intros. apply quiet_boundary; [keys|set_solver].
Qed.

Lemma closeReasoningItem_calm id t : calm t (closeReasoningItem id t).1 (closeReasoningItem id t).2.
Proof.
  unfold closeReasoningItem. destruct (reasonings t !! id) as [s|]; [|apply calm_refl]. destruct (reasoning_ended s); [apply calm_refl|].
  set (t1 := set_reasonings _ t). pose proof (close_span_calm (reasoning_subagent s) (span s) t1) as H. destruct (close_span _ _ t1).
  eapply (calm_event _ t1); [apply quiet_boundary; [keys|set_solver]|by apply held_same|exact H].
Qed.

Lemma closeSteps_calm t : calm t (closeSteps t).1 (closeSteps t).2.
Proof.
  unfold closeSteps. pose proof (close_all_quiet step_ended (end_step true) step_end (stepOrder t) (steps t)) as Hq.
  destruct (close_all step_ended _ _ _ _) as [evs s]. split; [by apply held_same|apply Hq]. intros. apply quiet_boundary; [keys|set_solver].
Qed.

Lemma held_closed_tools order t :
  held t (set_tools (close_all tool_ended (end_tool_state true) tool_end order (tools t)).2 t).
Proof.
  split; [done| |done]. intros id s _ Hs. simpl. rewrite (close_all_lookup tool_kind) by done. simpl. rewrite Hs. simpl.
  eexists. split; [done|]. destruct (tool_ended s); [done|]. by destruct (decide _).
Qed.

Lemma closeOpen_calm t : calm t (closeOpen range t).1 (closeOpen range t).2.
Proof.
  unfold closeOpen. pose proof (closeReasoning_calm "" t) as H1. destruct (closeReasoning range "" t) as [e1 t1].
  pose proof (close_all_quiet text_ended (end_text true) text_end (textOrder t1) (texts t1)) as Q2.
  destruct (close_all text_ended _ _ _ _) as [e2 m2]. set (t2 := set_texts m2 t1).
  pose proof (close_all_quiet tool_ended (end_tool_state true) tool_end (toolOrder t2) (tools t2)) as Q3.
  pose proof (held_closed_tools (toolOrder t2) t2) as H3.
  destruct (close_all tool_ended _ _ _ _) as [e3 m3]. set (t3 := set_tools m3 t2) in *. pose proof (closeSteps_calm t3) as H4.
  destruct (closeSteps t3) as [e4 t4]. simpl in *. eapply calm_app; [exact H1|]. eapply (calm_app _ t2).
  { split; [by apply held_same|apply Q2]. intros. apply quiet_boundary; [keys|set_solver]. }
  eapply (calm_app _ t3); [|exact H4]. split; [exact H3|apply Q3]. intros. apply quiet_boundary; [keys|set_solver].
Qed.

Lemma Start_calm t : calm t (Start t).1 (Start t).2.
Proof.
  unfold Start. destruct (_ || _); [apply calm_refl|]. apply calm_one; [by apply held_same|]. case_bool_decide; quiet.
Qed.

Lemma Finish_calm outcome t : calm t (Finish range outcome t).1 (Finish range outcome t).2.
Proof.
  unfold Finish. destruct (done t); [apply calm_refl|]. pose proof (Start_calm t) as H1. destruct (Start t) as [e1 t1].
  pose proof (closeOpen_calm t1) as H2. destruct (closeOpen range t1) as [e2 t2]. eapply calm_app; [exact H1|]. eapply calm_app; [exact H2|].
  apply calm_one; [by apply held_same|]. destruct (runUsage _); quiet.
Qed.

Lemma Fail_calm message code t : calm t (Fail_run range message code t).1 (Fail_run range message code t).2.
Proof.
  unfold Fail_run. destruct (done t); [apply calm_refl|]. pose proof (Start_calm t) as H1. destruct (Start t) as [e1 t1].
  pose proof (closeOpen_calm t1) as H2. destruct (closeOpen range t1) as [e2 t2]. eapply calm_app; [exact H1|]. eapply calm_app; [exact H2|].
  apply calm_one; [by apply held_same|]. quiet.
Qed.

(** ** Text: a snapshot has all messages *)
Definition heard (t : Translator) (ev : Event) : Prop :=
  settled ev /\ type_of ev ∉ ["TOOL_CALL_START"; "TOOL_CALL_CHUNK"; "TOOL_CALL_ARGS"]
  /\ (type_of ev = "MESSAGES_SNAPSHOT" -> exists ms, get "messages" (wire ev) = Some (JArray (JObject <$> ms)) /\ forall x, knows t x -> has_message x ms).
Definition audible (t : Translator) (evs : list Event) (t' : Translator) : Prop := held t t' /\ Forall (heard t) evs.

Lemma quiet_heard t ev : quiet ev -> heard t ev.
Proof. intros [Hs H]. split; [done|]. split; [set_solver|]. intros E. rewrite E in H. set_solver. Qed.
Lemma calm_audible t evs t' : calm t evs t' -> audible t evs t'.
Proof. intros [H1 H2]. split; [done|]. eapply Forall_impl; [exact H2|]. intros ev. apply quiet_heard. Qed.
Lemma heard_before t t' ev : held t t' -> heard t' ev -> heard t ev.
Proof.
  intros H (H0 & H1 & H2). split; [done|]. split; [done|]. intros E. destruct (H2 E) as (ms & Hm & Hk). exists ms. split; [done|]. intros x Hx. by apply Hk, (k_knows (knows t) t t' H).
Qed.
Lemma audible_app t t' t'' evs evs' : audible t evs t' -> audible t' evs' t'' -> audible t (evs ++ evs') t''.
Proof.
  intros [H1 H2] [H3 H4]. split; [by eapply held_trans|]. apply Forall_app. split; [done|]. eapply Forall_impl; [exact H4|].
  intros ev. by apply heard_before.
Qed.
Lemma audible_nil t t' : held t t' -> audible t [] t'.
Proof. intros H. by apply calm_audible, calm_nil. Qed.

Lemma replaceText_audible id text t : audible t (replaceText range id text t).1 (replaceText range id text t).2.
Proof.
  unfold replaceText. destruct (message id (messages t)) as [m|] eqn:E; [|apply calm_audible, Fail_calm].
  set (m' := put "content" (JString text) m). assert (field m' "id" = id) as Hm by (unfold m'; rewrite field_put_ne by done; by eapply message_id).
  split.
  - apply (held_trans _ (save id m' t)); [|by apply held_same]. apply keeps_save; [done|apply held_refl].
  - apply Forall_singleton. split; [done|]. split; [rewrite type_standard by keys; apply (bool_decide_unpack _); vm_compute; exact I|].
    intros _. exists (messages (save id m' t)). split.
    + unfold standardEvent, wire. rewrite get_of_members by keys. done.
    + intros x Hx. apply message_has. apply knows_save; [done|exact Hx].
Qed.

Lemma continue_text_audible t0 id text snapshot offset s out t :
  audible t0 out t -> held t0 t ->
  audible t0 (continue_text range id text snapshot offset s out t).1 (continue_text range id text snapshot offset s out t).2.
Proof.
  intros H Hh. unfold continue_text. destruct (reconcile _ _ _ _ _) as [delta| |message code|].
  - case_bool_decide; [done|]. eapply audible_app; [exact H|]. apply calm_audible, calm_one; [by apply held_same|quiet].
  - pose proof (replaceText_audible id text t) as Hr. destruct (replaceText range id text t) as [evs t1]. by eapply audible_app.
  - pose proof (Fail_calm message code t) as Hf. destruct (Fail_run range message code t) as [evs t1]. apply (audible_app _ t _ []); [|by apply calm_audible].
    by apply audible_nil.
  - done.
Qed.

Lemma on_text_audible given text snapshot offset t :
  audible t (on_text range given text snapshot offset t).1 (on_text range given text snapshot offset t).2.
Proof.
  destruct (texts t !! text_id given t) as [s|] eqn:Es.
  - rewrite (on_text_known range given text snapshot offset t s Es). destruct (text_ended s).
    + destruct (_ && _); [apply replaceText_audible|apply audible_nil, held_refl].
    + apply continue_text_audible; [apply audible_nil|]; apply held_refl.
  - rewrite on_text_new by done. apply continue_text_audible; [|by apply held_same]. apply calm_audible, calm_one; [by apply held_same|quiet].
Qed.

(** ** Reasoning and model calls *)
Lemma on_reasoning_calm e t : calm t (on_reasoning e t).1 (on_reasoning e t).2.
Proof.
  unfold on_reasoning. case_bool_decide; [apply calm_all, Forall_singleton; quiet|].
  fold (reasoning_id e). set (id := reasoning_id e). fold (span_id_of id e). set (sp := span_id_of id e).
  fold (encrypted_reasoning id e) (reasoning_delta id e). assert (Forall quiet (reasoning_delta id e ++ encrypted_reasoning id e)) as Hq.
  { unfold reasoning_delta, encrypted_reasoning. apply Forall_app. split; (case_bool_decide; [constructor|apply Forall_singleton; quiet]). }
  destruct (reasonings t !! id) as [s|].
  - destruct (reasoning_ended s); [apply calm_refl|]. split; [by apply held_same|done].
  - cbn [reasoning_ended]. destruct (negb _); (split; [by apply held_same|]); simpl app; repeat apply Forall_cons_2; by first [quiet|exact Hq].
Qed.

Lemma recordUsage_held e id t : held t (recordUsage e id t).2.
Proof.
  unfold recordUsage. destruct (Usage e) as [u|]; [|apply held_refl]. case_bool_decide; [apply held_refl|].
  case_bool_decide; [by apply held_same|]. cbv zeta. case_bool_decide; by apply held_same.
Qed.

Lemma report_usage_quiet e id t : Forall quiet (report_usage e id t).
Proof. unfold report_usage. destruct (recordUsage e id t).1; [apply Forall_singleton; unfold usageEvent; cbv zeta; quiet|constructor]. Qed.

Lemma finish_step_calm t0 id complete out t :
  calm t0 out t -> calm t0 (finish_step range id complete out t).1 (finish_step range id complete out t).2.
Proof.
  intros H. unfold finish_step. destruct (steps t !! id) as [s|]; [|done]. destruct (_ && _); [|done].
  pose proof (closeReasoning_calm id t) as Hr. destruct (closeReasoning range id t) as [closed t1].
  eapply calm_app; [exact H|]. eapply calm_app; [exact Hr|]. apply calm_one; [|quiet]. case_bool_decide; by apply held_same.
Qed.

Lemma modelStep_calm e complete t : calm t (modelStep range e complete t).1 (modelStep range e complete t).2.
Proof.
  unfold modelStep. set (id := modelIdentity e) in *. case_bool_decide; [apply Fail_calm|].
  set (opening := match steps t !! id with Some _ => _ | None => _ end).
  assert (calm t opening.1 opening.2) as Ho.
  { unfold opening. destruct (steps t !! id); [apply calm_refl|]. apply calm_one; [by apply held_same|quiet]. }
  destruct opening as [opened t1]. pose proof (recordUsage_held e id t1) as Hu. pose proof (report_usage_quiet e id t1) as Hq. unfold report_usage in Hq.
  destruct (recordUsage e id t1) as [changed t2]. pose proof (finish_step_calm t id complete _ t2 (calm_app _ _ _ _ _ Ho (conj Hu Hq))) as Hf.
  unfold finish_step in Hf. destruct (steps t2 !! id) as [s|]; [|done]. destruct (_ && _); [|done]. destruct (closeReasoning range id t2) as [closed t3].
  simpl in *. by rewrite <- app_assoc in Hf.
Qed.

Lemma item_completed_calm e id t : calm t (item_completed e id t).1 (item_completed e id t).2.
Proof.
  unfold item_completed. pose proof (closeReasoningItem_calm (ReasoningMessageID e) t) as H. destruct (closeReasoningItem _ t) as [evs t1].
  destruct (texts t1 !! id) as [s|]; [|done]. destruct (text_ended s); [done|]. eapply calm_app; [exact H|]. apply calm_one; [by apply held_same|quiet].
Qed.
End Calm.
