(* ===== verification/AguiTotal.v ===== *)
(** * Every native event is translated

    The capture of the events of a translation finds the message of every call,
    so the translation of a native event is never a panic. *)
From stdpp Require Import base gmap strings list fin_maps sets.
From Stdlib Require Import ZArith Ascii.
From S2P Require Import Prelude GoStrings GoJson CanonicalNumber JsonValue JsonCodec AguiPatch AguiProjection AguiProps AguiLife.
From S2P Require Import AguiNative AguiTranslator AguiTranslate AguiLanes AguiCapture AguiGraph AguiTranslateProps AguiToolSteps AguiCalm.

Open Scope nat_scope.

(** The messages of the calls of the run are known. *)
Definition parented (t : Translator) : Prop := forall id, id ∈ toolOrder t -> exists s, tools t !! id = Some s /\ knows t (parent s).

Section Total.
Context (range : gset string -> list string).
Context (ValidateEvent : json -> bool) (ValidatePresentation : string -> json -> bool).
Context (decode_error : string) (apply_patch : json -> json -> json + string).
Notation dispatch := (dispatch range ValidatePresentation).

(** ** Presentations *)
Lemma presentationActivity_calm kind id content t :
  calm t (presentationActivity range ValidatePresentation kind id content t).1 (presentationActivity range ValidatePresentation kind id content t).2.
Proof.
  unfold presentationActivity. case_bool_decide; [apply calm_refl|]. destruct (ValidatePresentation _ _); [|apply Fail_calm].
  apply calm_all, Forall_singleton. unfold activity; cbn [app]; quiet.
Qed.

Ltac presentation := repeat (case_bool_decide; [apply calm_refl|]); apply presentationActivity_calm.

Lemma turnPresentation_calm e t : calm t (turnPresentation range ValidatePresentation e t).1 (turnPresentation range ValidatePresentation e t).2.
Proof. unfold turnPresentation. presentation. Qed.
Lemma feedPresentation_calm e t : calm t (feedPresentation range ValidatePresentation e t).1 (feedPresentation range ValidatePresentation e t).2.
Proof. unfold feedPresentation. presentation. Qed.
Lemma plannerPresentation_calm e t :
  calm t (plannerPresentation range ValidatePresentation e t).1 (plannerPresentation range ValidatePresentation e t).2.
Proof. unfold plannerPresentation. presentation. Qed.
Lemma plannedToolsPresentation_calm e t :
  calm t (plannedToolsPresentation range ValidatePresentation e t).1 (plannedToolsPresentation range ValidatePresentation e t).2.
Proof. unfold plannedToolsPresentation. destruct (ToolCallsPlanned e); [apply calm_refl|]. presentation. Qed.
Lemma narrationPresentation_calm e t :
  calm t (narrationPresentation range ValidatePresentation e t).1 (narrationPresentation range ValidatePresentation e t).2.
Proof. unfold narrationPresentation. presentation. Qed.

Lemma toolExecutionPresentation_calm e t :
  calm t (toolExecutionPresentation range ValidatePresentation e t).1 (toolExecutionPresentation range ValidatePresentation e t).2.
Proof.
  unfold toolExecutionPresentation. case_bool_decide; [apply calm_refl|]. destruct (_ && _); [apply calm_refl|]. cbv zeta.
  case_bool_decide; [apply calm_refl|]. set (t1 := set_tools _ t). assert (held t t1) as Hh by (apply keeps_tools; [done|apply held_refl]).
  apply (calm_app t t1 _ []); [by apply calm_nil|]. apply presentationActivity_calm.
Qed.

Lemma toolExecutionPresentation_done e t : done t = true -> done (toolExecutionPresentation range ValidatePresentation e t).2 = true.
Proof.
  intros Hd. unfold toolExecutionPresentation. case_bool_decide; [done|]. destruct (_ && _); [done|]. cbv zeta.
  case_bool_decide; [done|]. unfold presentationActivity. case_bool_decide; [done|]. destruct (ValidatePresentation _ _); [done|apply Fail_is_done].
Qed.

Lemma then_calm a b t : calm t (a t).1 (a t).2 -> (forall u, calm u (b u).1 (b u).2) -> calm t (then_ a b t).1 (then_ a b t).2.
Proof.
  unfold then_. intros Ha Hb. destruct (a t) as [evs t1]. specialize (Hb t1). destruct (b t1) as [rest t2]. by eapply calm_app.
Qed.

Lemma custom_quiet name v : quiet (custom name v).
Proof. unfold custom. quiet. Qed.

Lemma usage_calm e t :
  calm t (report_usage e (modelIdentity e) t ++ aggregateUsagePresentation e) (recordUsage e (modelIdentity e) t).2.
Proof.
  split; [apply recordUsage_held|]. apply Forall_app. split; [apply report_usage_quiet|]. unfold aggregateUsagePresentation.
  destruct (Usage e) as [u|]; [case_bool_decide; [constructor|]|]; apply Forall_singleton; quiet.
Qed.

Lemma renderedActivity_quiet e : Forall quiet (renderedActivity e).
Proof.
  unfold renderedActivity, rendered. case_bool_decide; [constructor|]. destruct (RenderedContent e); [apply Forall_singleton; unfold activity; cbn [app]; quiet|].
  destruct (FeedData e); [|constructor]. destruct (_ || _); [constructor|apply Forall_singleton; unfold activity; cbn [app]; quiet].
Qed.

(** ** Events that are not of a tool call *)
Definition of_tool_call (e : NativeEvent) : bool :=
  is_type e [EventTypeToolCallStarted; EventTypeToolCallDelta; EventTypeToolCallCompleted; EventTypeToolCallFailed; EventTypeToolCallCanceled].

Lemma dispatch_audible e id t : of_tool_call e = false -> audible t (dispatch e id t).1 (dispatch e id t).2.
Proof.
  unfold of_tool_call, is_type, AguiTranslate.dispatch. intros Ht.
  destruct (EventOf e); try (by vm_compute in Ht); clear Ht; try apply on_text_audible; try (apply audible_nil, held_refl).
  all: try match goal with |- context [get "role" ?p] =>
    destruct (get "role" p) as [[]|]; try case_bool_decide; first [apply on_text_audible|apply audible_nil, held_refl] end.
  all: apply calm_audible.
  all: try apply item_completed_calm; try apply on_reasoning_calm; try apply modelStep_calm; try apply Fail_calm; try apply usage_calm.
  all: try apply turnPresentation_calm; try apply feedPresentation_calm; try apply plannedToolsPresentation_calm; try apply plannerPresentation_calm.
  all: try (apply then_calm; [apply turnPresentation_calm|intros; first [apply Finish_calm|apply Fail_calm]]).
  - pose proof (turnPresentation_calm e t) as H. destruct (turnPresentation _ _ e t). apply (calm_event _ t); [apply custom_quiet|apply held_refl|done].
  - pose proof (narrationPresentation_calm e t) as H. destruct (narrationPresentation _ _ e t).
    apply (calm_event _ t); [apply custom_quiet|apply held_refl|done].
  - pose proof (toolExecutionPresentation_calm e t) as H. destruct (toolExecutionPresentation _ _ e t).
    apply (calm_event _ t); [apply custom_quiet|apply held_refl|done].
  - pose proof (usage_calm e t) as H. unfold report_usage in H. by destruct (recordUsage e (modelIdentity e) t).
  - apply calm_all, Forall_singleton, custom_quiet.
Qed.

(** ** Events of a tool call *)
Definition about (call : string) (ev : Event) : Prop :=
  quiet ev \/ (settled ev /\ type_of ev = "TOOL_CALL_ARGS" /\ field (wire ev) "toolCallId" = call).

Lemma quiet_about call evs : Forall quiet evs -> Forall (about call) evs.
Proof. intros H. eapply Forall_impl; [exact H|]. intros ev Hq. by left. Qed.

Lemma result_calm id e s t : calm t (tool_result_event id e t s).1 (tool_result_event id e t s).2.
Proof.
  unfold tool_result_event. destruct (_ && _); [|apply calm_refl]. apply calm_one; [apply keeps_tools; [done|apply held_refl]|].
  split; [done|]. unfold type_of at 1. cbn [wire]. rewrite field_put_ne by done.
  match goal with |- context [field (wire ?x) "type"] => change (field (wire x) "type") with (type_of x) end.
  rewrite type_plain by keys. apply (bool_decide_unpack _). vm_compute. exact I.
Qed.

(** The events of a call, or those of a failure, which leave what was collected out. *)
Definition of_call (call : string) (out : list Event) (t : Translator) (r : list Event * Translator) : Prop :=
  held t r.2 /\ ((exists rest, r.1 = out ++ rest /\ Forall (about call) rest) \/ (Forall quiet r.1 /\ done r.2 = true)).

Lemma continue_tool_of_call id e out s t : of_call id out t (continue_tool range id e out s t).
Proof.
  unfold continue_tool, of_call. destruct (new_arguments e (args s)) as [delta| |].
  2, 3: rewrite Fail_is_done; match goal with |- context [Fail_run ?r ?m ?c ?u] => destruct (Fail_calm r m c u) end; split; [done|by right].
  cbv zeta. set (known := args s +:+ delta). set (t1 := set_known known id t).
  assert (held t t1) as H1 by (apply keeps_tools; [done|apply held_refl]). set (t2 := if ends_call e known then end_call id t1 else t1).
  assert (held t1 t2) as H2 by (unfold t2; destruct (ends_call e known); [apply keeps_tools; [done|]|]; apply held_refl).
  destruct (result_calm id e s t2) as [H3 Hq]. destruct (tool_result_event id e t2 s) as [evs t3]. simpl in *.
  split; [by eapply held_trans, held_trans|]. left. eexists. split; [done|]. apply Forall_app. split; [|apply Forall_app; split].
  - case_bool_decide; [constructor|]. apply Forall_singleton. right. split; [done|]. split; [by rewrite type_plain by keys|].
    rewrite field_plain by keys. done.
  - apply quiet_about. destruct (ends_call e known); [apply Forall_singleton; quiet|constructor].
  - by apply quiet_about.
Qed.

(** ** The capture of annotated events *)
Notation annotate e := (fun ev => annotateNativePresentation ValidateEvent ev e).
Notation capture := (capture decode_error apply_patch).

Lemma annotate_settled ev e : settled ev -> standard (annotate e ev) = true /\ applied (annotate e ev) = true.
Proof.
  intros Hs. unfold annotateNativePresentation, stamped. destruct (standard ev) eqn:E; cbn [andb]; [|done].
  destruct (negb _); [|done]. by rewrite Hs.
Qed.

Lemma annotate_get k ev e : k ∉ ["timestamp"; "metadata"] -> get k (wire (annotate e ev)) = get k (wire ev).
Proof.
  intros Hk. unfold annotateNativePresentation, stamped. destruct (standard ev && _); [done|]. cbn [wire].
  rewrite get_put_ne by set_solver. case_bool_decide; [done|]. by rewrite get_put_ne by set_solver.
Qed.
Lemma annotate_field k ev e : k ∉ ["timestamp"; "metadata"] -> field (wire (annotate e ev)) k = field (wire ev) k.
Proof. intros Hk. apply field_of_get. by apply annotate_get. Qed.

Definition ready (K : string -> Prop) (t : Translator) (ev : Event) : Prop := settled ev /\ sound K t (wire ev).

Lemma annotate_sound K t ev e : sound K t (wire ev) -> sound K t (wire (annotate e ev)).
Proof. unfold sound. rewrite !annotate_field, annotate_get by set_solver. done. Qed.

Lemma annotate_admissible t ev e : admissible t (wire ev) -> admissible t (wire (annotate e ev)).
Proof. unfold admissible. rewrite !annotate_field by set_solver. done. Qed.

Lemma capture_ready K t evs e c :
  Forall (ready K t) evs -> keeps K t c -> exists c', capture (annotate e <$> evs) c = Some c' /\ keeps K t c'.
Proof.
  intros Hev. apply capture_kept. apply Forall_fmap. eapply Forall_impl; [exact Hev|]. intros ev [H1 H2]. simpl.
  destruct (annotate_settled ev e H1). split; [done|]. split; [done|]. by apply annotate_sound.
Qed.

Lemma sound_admissible K t w : sound K t w -> admissible t w.
Proof. intros (H1 & H2 & _). split; [done|]. intros E. congruence. Qed.

Lemma heard_ready t0 t ev : heard t0 ev -> ready (knows t0) t ev.
Proof.
  unfold heard, ready, sound, type_of. intros (H1 & H2 & H3). split; [done|]. split; [set_solver|]. split; [set_solver|].
  split; [intros E; rewrite E in H2; set_solver|done].
Qed.
Lemma quiet_ready K t ev : quiet ev -> ready K t ev.
Proof.
  unfold quiet, ready, sound, type_of. intros (H1 & H2). split; [done|]. split; [set_solver|]. split; [set_solver|].
  split; intros E; rewrite E in H2; set_solver.
Qed.
Lemma about_ready K call t s ev : tools t !! call = Some s -> call ∈ toolOrder t -> K (parent s) -> about call ev -> ready K t ev.
Proof.
  intros Hs Hin HK [Hq|(H1 & H2 & H3)]; [by apply quiet_ready|]. unfold ready, sound. unfold type_of in H2. rewrite H2, H3.
  split; [done|]. split; [done|]. split; [done|]. split; [by exists s|done].
Qed.

(** The calls of the run belong to messages of [K]. *)
Definition keyed (K : string -> Prop) (t : Translator) : Prop := forall id, id ∈ toolOrder t -> exists s, tools t !! id = Some s /\ K (parent s).
Lemma keyed_parented K t u t' : keyed K t -> held t u -> keeps K u t' -> parented t'.
Proof.
  intros Hk [A B _] [D E F] id Hid. rewrite D, A in Hid. destruct (Hk id Hid) as (s & Hs & HK).
  destruct (B id s Hid Hs) as (s1 & Hs1 & Hp1). destruct (E id s1) as (s2 & Hs2 & Hp2); [congruence|done|].
  exists s2. split; [done|]. apply F. congruence.
Qed.
Lemma held_keeps t u : held t u -> keeps (knows t) u u.
Proof. intros [_ _ H]. split; [done|naive_solver|done]. Qed.

(** What is asked of the events [evs] of a translation that ends in [u]. *)
Definition captured (evs : list Event) (u : Translator) : Prop :=
  Forall (fun ev => settled ev /\ admissible u (wire ev)) evs
  /\ forall e, exists t', capture (annotate e <$> evs) u = Some t' /\ (done u = false -> parented t').

Lemma ready_captured K t evs u : keyed K t -> held t u -> keeps K u u -> Forall (ready K u) evs -> captured evs u.
Proof.
  intros Hk Hh Hu Hev. split.
  - eapply Forall_impl; [exact Hev|]. intros ev [H1 H2]. split; [done|by eapply sound_admissible].
  - intros e. destruct (capture_ready K u evs e u Hev Hu) as (t' & E & Ht'). exists t'. split; [done|]. intros _. by eapply keyed_parented.
Qed.

Lemma audible_captured t evs u : parented t -> audible t evs u -> captured evs u.
Proof.
  intros Hp [H1 H2]. apply (ready_captured (knows t) t); [done|done|by apply held_keeps|]. eapply Forall_impl; [exact H2|].
  intros ev. apply heard_ready.
Qed.

Lemma over_captured evs u : done u = true -> Forall quiet evs -> captured evs u.
Proof.
  intros Hd Hq. assert (Forall (ready (fun _ => False) u) evs) as Hr by (eapply Forall_impl; [exact Hq|intros ev; apply quiet_ready]). split.
  - eapply Forall_impl; [exact Hr|]. intros ev [H1 H2]. split; [done|by eapply sound_admissible].
  - intros e. destruct (capture_ready (fun _ => False) u evs e u Hr) as (t' & E & _); [split; [done|naive_solver|done]|].
    exists t'. split; [done|congruence].
Qed.

(** The events of a call that starts: its text, its start, and the rest. *)
Lemma started_captured t u txt call name p rest :
  keyed (fun x => knows t x \/ x = p) t -> p <> "" -> held t u -> call ∈ toolOrder t -> (exists s, tools t !! call = Some s /\ parent s = p) ->
  Forall (heard t) txt -> Forall (about call) rest ->
  captured (txt ++ [plain_event "TOOL_CALL_START" [str "toolCallId" call; str "toolCallName" name; str "parentMessageId" p]] ++ rest) u.
Proof.
  intros Hk Hp Hh Hin (s & Hs & Hps) Htxt Hrest. set (start := plain_event _ _). set (K := fun x => knows t x \/ x = p).
  destruct (k_parent _ t u Hh call s Hin Hs) as (s1 & Hs1 & Hp1). assert (call ∈ toolOrder u) as Hin1 by by rewrite (k_order _ t u Hh).
  assert (settled start) as Hst by done. assert (type_of start = "TOOL_CALL_START") as Ht by (unfold start; by rewrite type_plain by keys).
  assert (field (wire start) "toolCallId" = call) as Hc by (unfold start; by rewrite field_plain by keys).
  assert (field (wire start) "parentMessageId" = p) as Hpm by (unfold start; by rewrite field_plain by keys).
  assert (Forall (ready (knows t) u) txt) as R1 by (eapply Forall_impl; [exact Htxt|intros ev; apply heard_ready]).
  assert (Forall (ready K u) rest) as R2.
  { eapply Forall_impl; [exact Hrest|]. intros ev. eapply about_ready; [done|done|]. right. congruence. }
  assert (running_call u call) as Hrun by (split; [by eexists|done]). split.
  - apply Forall_app. split; [|apply Forall_app; split].
    + eapply Forall_impl; [exact R1|]. intros ev [H1 H2]. split; [done|by eapply sound_admissible].
    + apply Forall_singleton. split; [done|]. unfold type_of in Ht. split; [by rewrite Ht|]. intros _. by rewrite Hc.
    + eapply Forall_impl; [exact R2|]. intros ev [H1 H2]. split; [done|by eapply sound_admissible].
  - intros e. rewrite fmap_app, capture_app. destruct (capture_ready (knows t) u txt e u R1) as (c1 & E1 & K1); [by apply held_keeps|].
    change (AguiTranslator.capture decode_error apply_patch) with capture in *. rewrite E1. cbn [mbind option_bind]. rewrite fmap_app, capture_app.
    destruct (annotate_settled start e Hst) as [S1 S2].
    destruct (capture_start_kept decode_error apply_patch (knows t) u (annotate e start) c1) as (c2 & E2 & K2); try done.
    { by rewrite annotate_field by set_solver. } { rewrite annotate_field by set_solver. by rewrite Hpm. }
    { rewrite annotate_field by set_solver. by rewrite Hc. }
    rewrite annotate_field, Hpm in K2 by set_solver. assert (capture (annotate e <$> [start]) c1 = Some c2) as Es.
    { unfold AguiTranslator.capture. cbn. cbn in E2. by rewrite E2. }
    rewrite Es. cbn [mbind option_bind].
    destruct (capture_ready K u rest e c2 R2 K2) as (c3 & E3 & K3). exists c3. split; [exact E3|]. intros _. by eapply keyed_parented.
Qed.

Lemma first_set_last ss s : s <> "" -> first_set (ss ++ [s]) <> "".
Proof. intros Hs. induction ss as [|x ss IH]; simpl; [by rewrite bool_decide_false|]. by case_bool_decide. Qed.
Lemma parent_id_set e t : parent_id e t <> "".
Proof. apply (first_set_last [_; _]). by destruct (runID t). Qed.

Lemma result_of_call call out e s t :
  of_call call out t (let '(evs, t') := tool_result_event call e t s in (out ++ evs, t')).
Proof.
  destruct (result_calm call e s t) as [H1 H2]. destruct (tool_result_event call e t s) as [evs t']. split; [done|]. left. exists evs.
  split; [done|by apply quiet_about].
Qed.

(** A tool event of a known call, followed by quiet events. *)
Lemma known_call_captured e t s u more :
  coherent t -> parented t -> tools t !! call_id e t = Some s -> held (on_tool range e t).2 u ->
  (done (on_tool range e t).2 = true -> done u = true) -> Forall quiet more -> captured ((on_tool range e t).1 ++ more) u.
Proof.
  intros Hc Hp Es. rewrite (on_tool_known range e t s Es). set (call := call_id e t) in *. assert (forall evs, held t u -> Forall quiet evs -> captured evs u) as Hq.
  { intros evs Hh Hev. apply (ready_captured (knows t) t); [done|done|by apply held_keeps|]. eapply Forall_impl; [exact Hev|]. intros ev. apply quiet_ready. }
  case_bool_decide; [intros Hh _ Hm; by apply Hq|]. destruct (tool_ended s) eqn:Ee.
  - intros Hh _ Hm. destruct (result_calm call e s t) as [H1 H2]. apply Hq; [by eapply held_trans|by apply Forall_app].
  - intros Hh Hd Hm. destruct (continue_tool_of_call call e [] s t) as [H1 H2]. assert (held t u) as Hu by by eapply held_trans.
    destruct H2 as [(rest & -> & Hrest)|[H2 Hd2]]; [|apply over_captured; [by apply Hd|by apply Forall_app]].
    destruct (c_tools t Hc call s Es Ee) as [Hin _]. destruct (k_parent _ t u Hu call s Hin Es) as (s1 & Hs1 & Hp1).
    apply (ready_captured (knows t) t); [done|done|by apply held_keeps|]. simpl. apply Forall_app. split.
    + eapply Forall_impl; [exact Hrest|]. intros ev. apply (about_ready (knows t) call u s1); [done| |].
      * by rewrite (k_order _ t u Hu).
      * destruct (Hp call Hin) as (s' & Hs' & HK). rewrite Hp1. rewrite Es in Hs'. by injection Hs' as <-.
    + eapply Forall_impl; [exact Hm|]. intros ev. apply quiet_ready.
Qed.

Lemma new_call_captured e t u more :
  parented t -> tools t !! call_id e t = None -> held (on_tool range e t).2 u ->
  (done (on_tool range e t).2 = true -> done u = true) -> Forall quiet more -> captured ((on_tool range e t).1 ++ more) u.
Proof.
  intros Hp En. rewrite (on_tool_new range e t En). set (call := call_id e t) in *. case_bool_decide.
  { intros Hh _ Hm. apply (ready_captured (knows t) t); [done|done|by apply held_keeps|]. eapply Forall_impl; [exact Hm|]. intros ev. apply quiet_ready. }
  unfold start_tool_call. fold (parent_id e t) (new_call e t). set (m := <[call := new_call e t]> (tools t)). set (o := toolOrder t ++ [call]).
  set (p := parent_id e t). set (t' := set_new_tools m o t). set (text := match texts t' !! p with Some _ => ([], t') | None => _ end).
  assert (audible t' text.1 text.2) as [Hh1 Htxt].
  { unfold text. destruct (texts t' !! p); [apply audible_nil, held_refl|apply on_text_audible]. }
  destruct text as [txt t1]. simpl in Hh1, Htxt. set (s1 := default _ _). set (start := plain_event _ _).
  set (r := if tool_ended s1 then _ else _). assert (of_call call (txt ++ [start]) t1 r) as [H1 H2].
  { unfold r. destruct (tool_ended s1); [apply result_of_call|apply continue_tool_of_call]. }
  clearbody r s1. intros Hh Hd Hm. assert (held t' u) as Hu by by eapply held_trans, held_trans.
  destruct H2 as [(rest & -> & Hrest)|[H2 Hd2]]; [|apply over_captured; [by apply Hd|by apply Forall_app]].
  rewrite <- !app_assoc. apply (started_captured t'); try done.
  - intros id Hid. unfold t', o in *. simpl in *. apply elem_of_app in Hid as [Hid|Hid].
    + destruct (Hp id Hid) as (s & Hs & HK). exists s. unfold m. rewrite lookup_insert_ne by congruence. split; [done|by left].
    + apply list_elem_of_singleton in Hid as ->. exists (new_call e t). unfold m. rewrite lookup_insert_eq. split; [done|by right].
  - apply parent_id_set.
  - unfold t', o. simpl. set_solver.
  - exists (new_call e t). unfold t', m. simpl. by rewrite lookup_insert_eq.
  - apply Forall_app. split; [done|by apply quiet_about].
Qed.

(** The events of one native event are captured. *)
Lemma dispatch_captured e id t more :
  coherent t -> parented t -> Forall quiet more -> captured ((dispatch e id t).1 ++ more) (dispatch e id t).2.
Proof.
  intros Hc Hp Hm. destruct (of_tool_call e) eqn:Et.
  - assert (forall u rest, held (on_tool range e t).2 u -> (done (on_tool range e t).2 = true -> done u = true) -> Forall quiet rest ->
      captured ((on_tool range e t).1 ++ rest) u) as H.
    { intros u rest. destruct (tools t !! call_id e t) as [s|] eqn:Es; [by eapply known_call_captured|by apply new_call_captured]. }
    assert (dispatch e id t = if HasToolResult (toolID (TurnID e) (ToolCallID e) t) t then on_tool range e t
              else then_ (on_tool range e) (toolExecutionPresentation range ValidatePresentation e) t) as ->.
    { unfold AguiTranslate.dispatch. unfold of_tool_call, is_type in Et. apply bool_decide_eq_true in Et. by destruct (EventOf e); try set_solver. }
    destruct (HasToolResult _ _); [apply H; [apply held_refl|done|done]|]. unfold then_. destruct (on_tool range e t) as [evs t1]. simpl in H.
    destruct (toolExecutionPresentation_calm e t1) as [C1 C2]. pose proof (toolExecutionPresentation_done e t1) as Hd.
    destruct (toolExecutionPresentation _ _ e t1) as [rest t2]. simpl in *. rewrite <- app_assoc. apply H; [done|done|by apply Forall_app].
  - destruct (dispatch_audible e id t Et) as [H1 H2]. apply (audible_captured t); [done|]. split; [done|]. apply Forall_app. split; [done|].
    eapply Forall_impl; [exact Hm|]. intros ev. apply quiet_heard.
Qed.
End Total.
