(* ===== verification/AguiRun.v ===== *)
(** * A translated run is a run of the life-cycle machine

    One native event after another, from [NewTranslator] to the end of the run. *)
From stdpp Require Import base gmap strings list fin_maps sets.
From Stdlib Require Import ZArith Ascii.
From S2P Require Import Prelude GoStrings GoJson CanonicalNumber JsonValue JsonCodec AguiPatch AguiProjection AguiDemo AguiProps AguiLife.
From S2P Require Import AguiNative AguiTranslator AguiTranslate AguiTranslateDemo AguiLanes AguiCapture AguiGraph AguiTranslateProps AguiToolSteps AguiCalm AguiTotal.

Open Scope nat_scope.

Section Run.
Context (range : gset string -> list string) (range_all : forall X x, x ∈ X -> x ∈ range X).
Context (ValidateEvent : json -> bool) (ValidatePresentation : string -> json -> bool).
Context (decode_error : string) (apply_patch : json -> json -> json + string).
Notation dispatch := (dispatch range ValidatePresentation).

Lemma runs_nil t : coherent t -> runs t [] t.
Proof. intros Hc. left. by apply steps_to_refl. Qed.

Lemma item_completed_steps e id t : coherent t -> going t -> steps_to t (item_completed e id t).1 (item_completed e id t).2.
Proof.
  intros Hc Hg. unfold item_completed. pose proof (closeReasoningItem_steps (ReasoningMessageID e) t Hc Hg) as Hr.
  destruct (closeReasoningItem _ t) as [evs t1]. simpl in Hr. assert (going t1) as Hg1 by (eapply same_run_going, Hg; apply Hr).
  destruct (texts t1 !! id) as [s|] eqn:Es; [|done]. destruct (text_ended s) eqn:Ee; [done|]. eapply steps_to_app; [exact Hr|].
  split; [|split; [|done]].
  - apply (emits_one _ _ _ (Close TextStream id)); [apply text_end_move|]. apply (closes_lane TextStream id); [done|done| |done|].
    + apply elem_open_keys. by exists s.
    + intros []; try done. by apply (open_keys_closed text_ended).
  - apply coherent_texts; [apply Hr|apply Hg1|]. intros id' s'. by rewrite lookup_insert_Some; intros [[<- <-]|[_ ?]].
Qed.

(** ** Presentations: one activity, or the failure of the run. *)
Lemma other_steps t evs : coherent t -> going t -> Forall (fun ev => moved ev = Some Other) evs -> steps_to t evs t.
Proof.
  intros Hc Hg. induction 1 as [|ev evs Hev _ IH]; [by apply steps_to_refl|].
  apply (steps_to_app t t t [ev] evs); [apply similar_step; [done|done|apply similar_refl|done]|done].
Qed.

Lemma presentationActivity_runs kind id content t :
  coherent t -> going t ->
  runs t (presentationActivity range ValidatePresentation kind id content t).1 (presentationActivity range ValidatePresentation kind id content t).2.
Proof.
  intros Hc Hg. unfold presentationActivity. case_bool_decide; [by apply runs_nil|].
  destruct (ValidatePresentation _ _); [left|by right; apply Fail_ends].
  apply similar_step; [done|done|apply similar_refl|apply activity_move; by right].
Qed.

Ltac presentation := intros Hc Hg; repeat (case_bool_decide; [by apply runs_nil|]); by apply presentationActivity_runs.

Lemma turnPresentation_runs e t :
  coherent t -> going t -> runs t (turnPresentation range ValidatePresentation e t).1 (turnPresentation range ValidatePresentation e t).2.
Proof. unfold turnPresentation. presentation. Qed.
Lemma feedPresentation_runs e t :
  coherent t -> going t -> runs t (feedPresentation range ValidatePresentation e t).1 (feedPresentation range ValidatePresentation e t).2.
Proof. unfold feedPresentation. presentation. Qed.
Lemma plannerPresentation_runs e t :
  coherent t -> going t -> runs t (plannerPresentation range ValidatePresentation e t).1 (plannerPresentation range ValidatePresentation e t).2.
Proof. unfold plannerPresentation. presentation. Qed.
Lemma plannedToolsPresentation_runs e t :
  coherent t -> going t ->
  runs t (plannedToolsPresentation range ValidatePresentation e t).1 (plannedToolsPresentation range ValidatePresentation e t).2.
Proof. unfold plannedToolsPresentation. destruct (ToolCallsPlanned e); [intros; by apply runs_nil|]. presentation. Qed.
Lemma narrationPresentation_runs e t :
  coherent t -> going t -> runs t (narrationPresentation range ValidatePresentation e t).1 (narrationPresentation range ValidatePresentation e t).2.
Proof. unfold narrationPresentation. presentation. Qed.

Lemma toolExecutionPresentation_runs e t :
  coherent t -> going t ->
  runs t (toolExecutionPresentation range ValidatePresentation e t).1 (toolExecutionPresentation range ValidatePresentation e t).2.
Proof.
  intros Hc Hg. unfold toolExecutionPresentation. set (waiting := is_type e _ || _). case_bool_decide; [by apply runs_nil|].
  destruct (_ && _); [by apply runs_nil|]. cbv zeta. set (id := toolID _ _ _). set (value := execution_value _ _ _ _).
  case_bool_decide; [by apply runs_nil|]. set (t1 := set_tools _ t). assert (similar t t1) as Hs by by apply similar_tools.
  assert (coherent t1) as Hc1 by by eapply similar_coherent. apply (runs_app t t1 _ []); [by apply silent_step|].
  by apply presentationActivity_runs.
Qed.

Lemma then_runs a b t :
  runs t (a t).1 (a t).2 -> (steps_to t (a t).1 (a t).2 -> runs (a t).2 (b (a t).2).1 (b (a t).2).2) ->
  (done (a t).2 = true -> b (a t).2 = ([], (a t).2)) ->
  runs t (then_ a b t).1 (then_ a b t).2.
Proof.
  unfold then_. destruct (a t) as [evs t1]. simpl. intros [H|H] Hb Hd.
  - specialize (Hb H). destruct (b t1) as [rest t2]. by eapply runs_app.
  - rewrite Hd by apply H. simpl. rewrite app_nil_r. by right.
Qed.

Lemma runs_other t ev evs t' : coherent t -> going t -> moved ev = Some Other -> runs t evs t' -> runs t (ev :: evs) t'.
Proof.
  intros Hc Hg Em H. apply (runs_app t t t' [ev] evs); [|done]. by apply other_steps; [..|apply Forall_singleton].
Qed.

Lemma Finish_runs outcome t : coherent t -> going t -> runs t (Finish range outcome t).1 (Finish range outcome t).2.
Proof. intros Hc Hg. right. by apply Finish_ends. Qed.
Lemma Fail_runs message code t : coherent t -> going t -> runs t (Fail_run range message code t).1 (Fail_run range message code t).2.
Proof. intros Hc Hg. right. by apply Fail_ends. Qed.

(** ** The events the translator refuses in the middle of its work *)

(** Text that starts a message and fails, and a tool event that fails: the
    events of both lose the start of what they opened. *)
Definition refused_text (id text : string) (snapshot : bool) (offset : option Z) (t : Translator) : bool :=
  bool_decide (texts t !! text_id id t = None) && done (on_text range id text snapshot offset t).2.
Definition refused (e : NativeEvent) (id : string) (t : Translator) : bool :=
  match EventOf e with
  | EventTypeTextDelta => refused_text id (Content e) (bool_decide (ContentMode e = "snapshot")) (ContentOffset e) t
  | EventTypeAssistant =>
      match get "role" (Patch e) with
      | Some (JString role) => bool_decide (role = "assistant") && refused_text id (Content e) true None t
      | _ => refused_text id (Content e) true None t
      end
  | EventTypeToolCallStarted | EventTypeToolCallDelta | EventTypeToolCallCompleted | EventTypeToolCallFailed | EventTypeToolCallCanceled =>
      done (on_tool range e t).2
  | _ => false
  end.

Lemma refused_text_runs id text snapshot offset t :
  coherent t -> going t -> refused_text id text snapshot offset t = false ->
  runs t (on_text range id text snapshot offset t).1 (on_text range id text snapshot offset t).2.
Proof.
  intros Hc Hg Hr. apply on_text_runs; [done..|]. unfold refused_text in Hr. destruct (done _); [right|by left].
  rewrite andb_true_r in Hr. apply bool_decide_eq_false in Hr. by apply not_eq_None_Some.
Qed.

Lemma usage_steps e t :
  coherent t -> going t ->
  steps_to t ((if (recordUsage e (modelIdentity e) t).1 then [usageEvent (modelIdentity e) (recordUsage e (modelIdentity e) t).2] else [])
              ++ aggregateUsagePresentation e) (recordUsage e (modelIdentity e) t).2.
Proof.
  intros Hc Hg. pose proof (report_usage_steps e (modelIdentity e) t Hc Hg) as Hu. eapply steps_to_app; [exact Hu|].
  apply other_steps; [apply Hu|eapply same_run_going, Hg; apply Hu|]. unfold aggregateUsagePresentation.
  destruct (Usage e) as [u|]; [case_bool_decide; [by constructor|]|]; apply Forall_singleton, custom_move.
Qed.

Lemma tool_event_runs e t :
  coherent t -> going t -> done (on_tool range e t).2 = false ->
  let r := if HasToolResult (toolID (TurnID e) (ToolCallID e) t) t then on_tool range e t
           else then_ (on_tool range e) (toolExecutionPresentation range ValidatePresentation e) t in runs t r.1 r.2.
Proof.
  intros Hc Hg Hd. simpl. assert (runs t (on_tool range e t).1 (on_tool range e t).2) as H by (apply on_tool_runs; [done..|by left]).
  destruct (HasToolResult _ _); [done|]. apply then_runs; [done| |congruence]. intros (_ & Hc1 & Hr).
  apply toolExecutionPresentation_runs; [done|by eapply same_run_going].
Qed.

Lemma turn_then_runs e b t :
  coherent t -> going t -> (forall u, coherent u -> going u -> runs u (b u).1 (b u).2) -> (forall u, done u = true -> b u = ([], u)) ->
  runs t (then_ (turnPresentation range ValidatePresentation e) b t).1 (then_ (turnPresentation range ValidatePresentation e) b t).2.
Proof.
  intros Hc Hg Hb Hd. apply then_runs; [by apply turnPresentation_runs| |apply Hd]. intros (_ & Hc1 & Hr).
  apply Hb; [done|by eapply same_run_going].
Qed.

(** What one native event adds to the run. *)
Lemma dispatch_runs e id t :
  coherent t -> going t -> ValidString (modelIdentity e) = true -> refused e id t = false -> runs t (dispatch e id t).1 (dispatch e id t).2.
Proof.
  intros Hc Hg Hv Hr. unfold AguiTranslate.dispatch, refused in *.
  destruct (EventOf e); try (by apply runs_nil); try (by apply modelStep_runs); try (by apply tool_event_runs); try (left; by apply on_reasoning_steps).
  all: try (by apply plannerPresentation_runs); try (by apply feedPresentation_runs).
  all: try (by apply plannedToolsPresentation_runs); try (by apply turnPresentation_runs); try (by apply Fail_runs).
  all: try (left; by apply item_completed_steps); try (by apply refused_text_runs).
  all: try (apply turn_then_runs; [done|done|intros; by first [apply Finish_runs|apply Fail_runs]|by first [apply Finish_done|apply Fail_done]]).
  all: try (left; apply other_steps; [done|done|apply Forall_singleton, custom_move]).
  - pose proof (turnPresentation_runs e t Hc Hg) as H. destruct (turnPresentation _ _ e t). apply runs_other; [done|done|apply custom_move|done].
  - pose proof (narrationPresentation_runs e t Hc Hg) as H. destruct (narrationPresentation _ _ e t).
    apply runs_other; [done|done|apply custom_move|done].
  - by destruct (get "role" (Patch e)) as [[]|]; try case_bool_decide; first [apply refused_text_runs|apply runs_nil].
  - pose proof (toolExecutionPresentation_runs e t Hc Hg) as H. destruct (toolExecutionPresentation _ _ e t).
    apply runs_other; [done|done|apply custom_move|done].
  - pose proof (usage_steps e t Hc Hg) as H. destruct (recordUsage e (modelIdentity e) t). by left.
Qed.

(** ** The translation of one event *)
Notation translate := (translate range ValidateEvent ValidatePresentation decode_error apply_patch).
Notation annotate e := (fun ev => annotateNativePresentation ValidateEvent ev e).

Definition with_seq (e : NativeEvent) (t : Translator) : Translator :=
  if bool_decide (0 < EventSeq e)%Z then set_seen ({[EventSeq e]} ∪ seen t) t else t.
Definition message_of (e : NativeEvent) : string := first_set [AssistantMessageID e; MessageID e].
Definition with_internal (e : NativeEvent) (t : Translator) : Translator :=
  if IsInternalMessageMode (Mode e) && bool_decide (message_of e <> "")
  then set_internalMessages ({[message_of e]} ∪ internalMessages t) t else t.
Definition silent (e : NativeEvent) (t : Translator) : bool :=
  IsInternalMessageMode (Mode e) || bool_decide (message_of e ∈ internalMessages t).
Definition shown (e : NativeEvent) (t : Translator) : NativeEvent :=
  if silent e t && is_type e [EventTypeModelCompleted] then without_text e else e.
Definition prepared (e : NativeEvent) (t : Translator) : Translator := with_internal e (Start (with_seq e t)).2.
Definition dispatched (e : NativeEvent) (u : Translator) : list Event * Translator :=
  dispatch (shown e u) (first_set [message_of e; ID (shown e u)]) u.
Definition all_events (e : NativeEvent) (u : Translator) : list Event :=
  (dispatched e u).1 ++ (if done (dispatched e u).2 then [] else renderedActivity (shown e u)).

Lemma translate_prepared e t :
  translate e t
  = if done t then Some ([], t)
    else if bool_decide (0 < EventSeq e /\ EventSeq e ∈ seen t)%Z then Some ([], t)
    else
      let out := (Start (with_seq e t)).1 in
      let failed err code u := Some (out ++ (Fail_run range err code u).1, (Fail_run range err code u).2) in
      if negb (ValidatePresentation "Presentation" (JObject (nativePresentation e)))
      then failed "Native presentation metadata is invalid" "INVALID_PRESENTATION" (Start (with_seq e t)).2
      else
        let u := prepared e t in
        if silent e u && hidden e then Some (out, u)
        else
          t' ← capture decode_error apply_patch (annotate (shown e u) <$> all_events e u) (dispatched e u).2;
          match historyErr t' with
          | Some err => failed err "INVALID_NATIVE_SOURCE" t'
          | None => Some (out ++ (annotate (shown e u) <$> all_events e u), t')
          end.
Proof.
  unfold AguiTranslate.translate, prepared. fold (with_seq e t) (message_of e). destruct (done t); [done|]. case_bool_decide; [done|].
  destruct (Start (with_seq e t)) as [out t1]. cbn [fst snd]. destruct (negb _); [by destruct (Fail_run _ _ _ t1)|].
  fold (with_internal e t1). set (u := with_internal e t1). fold (silent e u). destruct (silent e u && hidden e); [done|].
  fold (shown e u). unfold all_events, dispatched. destruct (dispatch _ _ u) as [events t2]. cbn [fst snd].
  assert ((if done t2 then events else events ++ renderedActivity (shown e u)) = events ++ (if done t2 then [] else renderedActivity (shown e u))) as ->.
  { destruct (done t2); [by rewrite app_nil_r|done]. }
  destruct (capture _ _ _ t2) as [t3|]; [|done]. cbn [mbind option_bind]. destruct (historyErr t3); [|done]. by destruct (Fail_run _ _ _ t3).
Qed.

(** ** What the translation of an event keeps *)
Lemma close_spans_history spans t : historyErr (close_spans spans t).2 = historyErr t.
Proof.
  revert t. induction spans as [|sp spans IH]; intros t; [done|]. simpl. unfold close_span. destruct (_ && _).
  - specialize (IH (set_reasoningSpans (<[sp := false]> (reasoningSpans t)) t)). by destruct (close_spans spans _).
  - specialize (IH t). by destruct (close_spans spans t).
Qed.

Lemma closeOpen_history t : historyErr (closeOpen range t).2 = historyErr t.
Proof.
  unfold closeOpen, closeReasoning. destruct (close_all reasoning_ended _ _ _ _) as [e1 m1].
  match goal with |- context [close_spans ?l ?u] => pose proof (close_spans_history l u) as H; destruct (close_spans l u) as [e2 t2] end.
  destruct (close_all text_ended _ _ _ _), (close_all tool_ended _ _ _ _). unfold closeSteps. by destruct (close_all step_ended _ _ _ _).
Qed.

Lemma Fail_history message code t : historyErr (Fail_run range message code t).2 = historyErr t.
Proof.
  unfold Fail_run. destruct (done t); [done|]. assert (historyErr (Start t).2 = historyErr t) as <- by (unfold Start; by destruct (_ || _)).
  destruct (Start t) as [e1 t1]. pose proof (closeOpen_history t1) as H. by destruct (closeOpen range t1).
Qed.

Definition sane (t : Translator) : Prop := coherent t /\ parented t /\ historyErr t = None.
Lemma sane_similar t t' : similar t t' -> held t t' -> historyErr t' = historyErr t -> sane t -> sane t'.
Proof.
  intros Hs Hh He (Hc & Hp & Hn). split; [by eapply similar_coherent|]. split; [|congruence].
  by apply (keyed_parented (knows t) t t'); [..|apply held_keeps].
Qed.

Lemma similar_empty t t' : similar t t' -> (forall s, open_lanes t s = ∅) -> forall s, open_lanes t' s = ∅.
Proof.
  intros [R A B C D E F G H I J] Hl s. specialize (Hl s). destruct s; simpl in *; try congruence; apply set_eq; intros id;
    rewrite elem_open_keys; (split; [|set_solver]); intros (x & Hx & He); rewrite <- Hl; apply elem_open_keys.
  - destruct (lane_fields _ _ _ _ (B id) Hx) as (y & Hy & Hf). exists y. injection Hf as _ Hf. split; congruence.
  - destruct (lane_fields _ _ _ _ (G id) Hx) as (y & Hy & Hf). exists y. injection Hf as _ _ Hf. split; congruence.
  - destruct (E id x Hx He) as (s0 & ? & ? & _). by exists s0.
Qed.

Lemma refused_done e id t : refused e id t = true -> done (dispatch e id t).2 = true.
Proof.
  assert (forall i text snapshot offset, refused_text i text snapshot offset t = true -> done (on_text range i text snapshot offset t).2 = true) as Ht.
  { unfold refused_text. intros i text snapshot offset H. by apply andb_prop in H as [_ H]. }
  unfold refused, AguiTranslate.dispatch. intros H. destruct (EventOf e); try done; try by apply Ht.
  all: try (destruct (get "role" (Patch e)) as [[]|]; try (apply andb_prop in H as [-> H]); by apply Ht).
  all: destruct (HasToolResult _ _); [done|]; unfold then_; destruct (on_tool _ e t) as [evs t1];
    pose proof (toolExecutionPresentation_done range ValidatePresentation e t1 H); by destruct (toolExecutionPresentation _ _ e t1).
Qed.

Definition refuses (e : NativeEvent) (t : Translator) : bool :=
  let u := prepared e t in refused (shown e u) (first_set [message_of e; ID (shown e u)]) u.

(** The run goes on after the events, or they end it. *)
Definition follows (t : Translator) (out : list Event) (t' : Translator) : Prop :=
  (done t' = false /\ emits (run_life false t) out (run_life false t')) \/ ends_with t out t'.

Lemma follows_app t out t1 evs t' : emits (run_life false t) out (run_life false t1) -> follows t1 evs t' -> follows t (out ++ evs) t'.
Proof.
  intros H [[Hd He]|(Hd & f & He & Ho)]; [left|right].
  - split; [done|by eapply emits_app].
  - split; [done|]. exists f. split; [by eapply emits_app|done].
Qed.

(** The preparation of an event. *)
Lemma with_seq_similar e t : similar t (with_seq e t) /\ held t (with_seq e t) /\ historyErr (with_seq e t) = historyErr t.
Proof.
  unfold with_seq. case_bool_decide; (split; [|by split; [apply held_same|]]); [split; try done; naive_solver|apply similar_refl].
Qed.
Lemma with_internal_similar e t :
  similar t (with_internal e t) /\ held t (with_internal e t) /\ historyErr (with_internal e t) = historyErr t.
Proof.
  unfold with_internal. destruct (_ && _); (split; [|by split; [apply held_same|]]); [split; try done; naive_solver|apply similar_refl].
Qed.

Lemma started_sane e t :
  done t = false -> sane t ->
  emits (run_life false t) (Start (with_seq e t)).1 (run_life false (Start (with_seq e t)).2)
  /\ sane (Start (with_seq e t)).2 /\ going (Start (with_seq e t)).2.
Proof.
  intros Hd Hs. destruct (with_seq_similar e t) as (H1 & H2 & H3). pose proof (sane_similar _ _ H1 H2 H3 Hs) as Hs1.
  assert (done (with_seq e t) = false) as Hd1 by (rewrite <- Hd; apply H1). destruct Hs1 as (Hc & Hp & Hn).
  destruct (Start_emits (with_seq e t) Hc Hd1) as (He & Hc1 & Hg). split; [|split; [|done]].
  - apply (emits_app _ (run_life false (with_seq e t)) _ []); [|done]. apply emits_same, same_lanes; [apply H1|]. apply similar_lanes; [apply Hs|done].
  - split; [done|]. destruct (Start_calm (with_seq e t)) as [Hh _]. split.
    + by apply (keyed_parented (knows (with_seq e t)) (with_seq e t) (Start (with_seq e t)).2); [..|apply held_keeps].
    + rewrite <- Hn. unfold Start. by destruct (_ || _).
Qed.

Lemma prepared_sane e t :
  done t = false -> sane t ->
  emits (run_life false t) (Start (with_seq e t)).1 (run_life false (prepared e t)) /\ sane (prepared e t) /\ going (prepared e t).
Proof.
  intros Hd Hs. destruct (started_sane e t Hd Hs) as (He & Hs1 & Hg1). unfold prepared. set (u := (Start (with_seq e t)).2) in *.
  destruct (with_internal_similar e u) as (H1 & H2 & H3). split; [|split].
  - rewrite <- (app_nil_r (Start (with_seq e t)).1). eapply emits_app; [exact He|]. apply emits_same, same_lanes; [apply H1|].
    apply similar_lanes; [apply Hs1|done].
  - by eapply sane_similar.
  - eapply same_run_going, Hg1. apply H1.
Qed.

(** The events of the dispatched native event, captured. *)
Lemma dispatched_captured e u :
  coherent u -> parented u ->
  exists t', capture decode_error apply_patch (annotate (shown e u) <$> all_events e u) (dispatched e u).2 = Some t'
  /\ similar (dispatched e u).2 t' /\ (done t' = false -> parented t').
Proof.
  intros Hc Hp. assert (Forall quiet (if done (dispatched e u).2 then [] else renderedActivity (shown e u))) as Hq.
  { destruct (done _); [constructor|apply renderedActivity_quiet]. }
  destruct (dispatch_captured range ValidateEvent ValidatePresentation decode_error apply_patch (shown e u) (first_set [message_of e; ID (shown e u)]) u
              (if done (dispatched e u).2 then [] else renderedActivity (shown e u)) Hc Hp Hq) as [Ha Hx].
  fold (dispatched e u) in Ha, Hx. fold (all_events e u) in Ha, Hx. destruct (Hx (shown e u)) as (t' & E & Hpar). exists t'. split; [done|].
  assert (similar (dispatched e u).2 t') as Hs.
  { eapply capture_similar, E. apply Forall_fmap. eapply Forall_impl; [exact Ha|]. intros ev [H1 H2]. simpl.
    destruct (annotate_settled ValidateEvent ev (shown e u) H1) as [S1 S2]. split; [done|]. split; [done|]. by apply annotate_admissible. }
  split; [done|]. intros Hd. apply Hpar. rewrite <- Hd. symmetry. apply Hs.
Qed.

Lemma without_text_identity e u : modelIdentity (shown e u) = modelIdentity e.
Proof. unfold shown. destruct (_ && _); [by destruct e|done]. Qed.

Lemma rendered_other e : Forall (fun ev => moved ev = Some Other) (renderedActivity e).
Proof.
  unfold renderedActivity, rendered. case_bool_decide; [constructor|]. destruct (RenderedContent e); [apply Forall_singleton, activity_move; by left|].
  destruct (FeedData e); [|constructor]. destruct (_ || _); [constructor|apply Forall_singleton, activity_move; by left].
Qed.

(** An event that does not end the run. *)
Lemma dispatched_goes e u t' :
  coherent u -> going u -> ValidString (modelIdentity e) = true -> done (dispatched e u).2 = false -> similar (dispatched e u).2 t' ->
  coherent t' /\ done t' = false /\ emits (run_life false u) (annotate (shown e u) <$> all_events e u) (run_life false t').
Proof.
  intros Hc Hg Hv Hd Hs. assert (refused (shown e u) (first_set [message_of e; ID (shown e u)]) u = false) as Hr.
  { apply not_true_iff_false. intros H. apply refused_done in H. unfold dispatched in Hd. congruence. }
  pose proof (dispatch_runs (shown e u) _ u Hc Hg ltac:(by rewrite without_text_identity) Hr) as Hrun. fold (dispatched e u) in Hrun.
  apply runs_going in Hrun; [|done]. destruct Hrun as (He & Hc1 & Hr1). split; [by eapply similar_coherent|].
  split; [rewrite <- Hd; apply Hs|]. apply emits_annotated. unfold all_events. rewrite Hd. eapply emits_app; [exact He|].
  rewrite <- (app_nil_r (renderedActivity _)). eapply emits_app.
  - apply (other_steps (dispatched e u).2); [done|by eapply same_run_going|apply rendered_other].
  - apply emits_same, same_lanes; [apply Hs|by apply similar_lanes].
Qed.

(** An event that ends the run. *)
Lemma dispatched_ends e u t' :
  coherent u -> going u -> ValidString (modelIdentity e) = true -> done (dispatched e u).2 = true -> similar (dispatched e u).2 t' ->
  refused (shown e u) (first_set [message_of e; ID (shown e u)]) u = false -> ends_with u (annotate (shown e u) <$> all_events e u) t'.
Proof.
  intros Hc Hg Hv Hd Hs Hr. pose proof (dispatch_runs (shown e u) _ u Hc Hg ltac:(by rewrite without_text_identity) Hr) as Hrun.
  fold (dispatched e u) in Hrun. destruct Hrun as [(_ & _ & [_ H])|(_ & f & He & Ho)]; [destruct Hg; congruence|].
  assert (done t' = true) as Hd' by (rewrite <- Hd; apply Hs). split; [done|]. pose proof (similar_empty _ _ Hs Ho) as Ho'. exists f. split; [|done].
  apply emits_annotated. unfold all_events. rewrite Hd, app_nil_r. rewrite <- (app_nil_r (_.1)). eapply emits_app; [exact He|].
  apply emits_same, same_lanes; [apply Hs|]. intros s. by rewrite Ho, Ho'.
Qed.

(** The translation of one native event: it is defined, and its events are
    those of a run unless the event was refused or the source is invalid. *)
Lemma translate_step e t :
  done t = false -> sane t -> ValidString (modelIdentity e) = true ->
  exists out t', translate e t = Some (out, t') /\ (done t' = true \/ sane t')
    /\ (refuses e t = false -> historyErr t' = None -> follows t out t').
Proof.
  intros Hd Hs Hv. rewrite translate_prepared, Hd. case_bool_decide.
  { exists [], t. split; [done|]. split; [by right|]. intros _ _. left. split; [done|apply emits_nil]. }
  destruct (started_sane e t Hd Hs) as (He0 & Hs0 & Hg0). cbv zeta.
  destruct (negb _).
  { eexists _, _. split; [done|]. split; [left; apply Fail_is_done|]. intros _ _. eapply follows_app; [exact He0|]. right.
    apply Fail_ends; [done|apply Hs0|done]. }
  clear He0 Hs0 Hg0. destruct (prepared_sane e t Hd Hs) as (He & (Hc & Hp & Hn) & Hg). unfold refuses. set (u := prepared e t) in *.
  destruct (silent e u && hidden e).
  { eexists _, _. split; [done|]. split; [by right|]. intros _ _. left. split; [apply Hg|done]. }
  destruct (dispatched_captured e u Hc Hp) as (t' & -> & Hsim & Hpar). cbn [mbind option_bind]. destruct (historyErr t') as [err|] eqn:Eh.
  { eexists _, _. split; [done|]. split; [left; apply Fail_is_done|]. rewrite Fail_history. congruence. }
  eexists _, _. split; [done|]. destruct (done (dispatched e u).2) eqn:Ed.
  - split; [left; rewrite <- Ed; apply Hsim|]. intros Hr _. eapply follows_app; [exact He|]. right. by apply dispatched_ends.
  - destruct (dispatched_goes e u t' Hc Hg Hv Ed Hsim) as (Hc' & Hd' & Hev). split; [right; split; [done|split; [by apply Hpar|done]]|].
    intros _ _. eapply follows_app; [exact He|]. by left.
Qed.
End Run.
