(* ===== verification/AguiTranslated.v ===== *)
(** * What a client sees of a run

    The whole translation of a run, from its first native event to its last. *)
From stdpp Require Import base gmap strings list fin_maps sets.
From Stdlib Require Import ZArith Ascii.
From S2P Require Import Prelude GoStrings GoJson CanonicalNumber JsonValue JsonCodec AguiPatch AguiProjection AguiDemo AguiProps AguiLife.
From S2P Require Import AguiNative AguiTranslator AguiTranslate AguiTranslateDemo AguiLanes AguiCapture AguiGraph AguiTranslateProps AguiToolSteps.
From S2P Require Import AguiCalm AguiTotal AguiRun.

Open Scope nat_scope.

Notation Object := (list (string * json)) (only parsing).

Section Translated.
Context (range : gset string -> list string) (range_all : forall X x, x ∈ X -> x ∈ range X).
Context (ValidateEvent : json -> bool) (ValidatePresentation : string -> json -> bool).
Context (decode_error : string) (apply_patch : json -> json -> json + string).
Notation translate := (translate range ValidateEvent ValidatePresentation decode_error apply_patch).
Notation refuses := (refuses range).

(** ** Sequences of native events *)
Fixpoint translate_all (es : list NativeEvent) (t : Translator) : option (list Event * Translator) :=
  match es with
  | [] => Some ([], t)
  | e :: es => '(out, t) ← translate e t; '(rest, t) ← translate_all es t; Some (out ++ rest, t)
  end.

(** One of the events is refused in the middle of its translation. *)
Fixpoint refused_in (es : list NativeEvent) (t : Translator) : bool :=
  match es with
  | [] => false
  | e :: es => (negb (done t) && refuses e t) || match translate e t with Some (_, t) => refused_in es t | None => false end
  end.

Lemma translate_all_done es t : done t = true -> translate_all es t = Some ([], t).
Proof.
  intros Hd. induction es as [|e es IH]; [done|]. simpl. unfold AguiTranslate.translate at 1. rewrite Hd. cbn [mbind option_bind]. by rewrite IH.
Qed.

Lemma translate_all_step es t :
  Forall (fun e => ValidString (modelIdentity e) = true) es -> done t = false -> sane t ->
  exists out t', translate_all es t = Some (out, t') /\ (done t' = true \/ sane t')
    /\ (refused_in es t = false -> historyErr t' = None -> follows t out t').
Proof.
  intros Hv. revert t. induction Hv as [|e es Hv _ IH]; intros t Hd Hs.
  { exists [], t. split; [done|]. split; [by right|]. intros _ _. left. split; [done|apply emits_nil]. }
  destruct (translate_step range range_all ValidateEvent ValidatePresentation decode_error apply_patch e t Hd Hs Hv) as (out & t1 & E & Hs1 & Hf).
  cbn [translate_all refused_in]. rewrite E, Hd. cbn [mbind option_bind negb andb]. destruct (done t1) eqn:Ed.
  - rewrite translate_all_done by done. exists (out ++ []), t1. split; [done|]. split; [by left|].
    intros Hr Hn. apply orb_false_iff in Hr as [Hr _]. rewrite app_nil_r. by apply Hf.
  - destruct Hs1 as [|Hs1]; [done|]. destruct (IH t1 Ed Hs1) as (rest & t2 & E2 & Hs2 & Hf2). rewrite E2. cbn [mbind option_bind].
    exists (out ++ rest), t2. split; [done|]. split; [done|]. intros Hr Hn. apply orb_false_iff in Hr as [Hr1 Hr2].
    destruct (Hf Hr1) as [[_ He]|[Hd1 _]]; [apply Hs1| |congruence]. eapply follows_app; [exact He|]. by apply Hf2.
Qed.

(** ** The start of a run: a translator with its native turn and its history. *)
Definition opened (thread run turn : string) (history : option (list Object)) : option Translator :=
  let t := NewTranslator thread run in
  let t := default t (SetNativeIdentity turn t) in
  match history with None => Some t | Some ms => SeedMessages ValidateEvent ms t end.

Definition idle : Life := mkLife false false (fun _ => ∅) ∅.

Lemma empty_lanes t :
  texts t = ∅ -> all_ended (tools t) -> reasonings t = ∅ -> reasoningSpans t = ∅ -> steps t = ∅ -> forall s, open_lanes t s = ∅.
Proof.
  intros E1 E2 E3 E4 E5 []; simpl; rewrite ?E1, ?E3, ?E4, ?E5; try apply open_keys_empty.
  apply set_eq. intros id. rewrite elem_open_keys. split; [intros (s & Hs & He)|set_solver]. rewrite (E2 id s Hs) in He. done.
Qed.

Lemma opened_sane thread run turn history t :
  opened thread run turn history = Some t -> sane t /\ done t = false /\ same_life (run_life false t) idle.
Proof.
  intros E. assert (exists u, (u = NewTranslator thread run \/ u = set_nativeTurnID turn (NewTranslator thread run)) /\
    (t = u \/ exists ms tools, historicalToolStates ms = Some tools /\ t = set_seeded true (set_tools tools (set_messages ms u)))) as (u & Hu & Ht).
  { unfold opened, SetNativeIdentity in E. set (u := default _ _) in E. exists u. split.
    - unfold u. case_bool_decide; [by left|by right].
    - destruct history as [ms|]; [right|left; by injection E as <-]. unfold SeedMessages in E. destruct (ValidateEvent _); [|done].
      destruct (textOrder u); [|done]. destruct (toolOrder u); [|done]. destruct (historicalToolStates ms) as [tools|] eqn:Eh; [|done].
      simpl in E. injection E as <-. by exists ms, tools. }
  assert (texts t = ∅ /\ all_ended (tools t) /\ toolOrder t = [] /\ reasonings t = ∅ /\ reasoningSpans t = ∅ /\ steps t = ∅
          /\ started t = false /\ done t = false /\ historyErr t = None) as (E1 & E2 & E2' & E3 & E4 & E5 & E6 & E7 & E8).
  { destruct Hu as [-> | ->], Ht as [-> |(ms & h & Eh & ->)]; repeat split; try done.
    all: simpl; first [by intros id s; rewrite lookup_empty|by apply historicalToolStates_ended in Eh]. }
  pose proof (empty_lanes t E1 E2 E3 E4 E5) as Hl. split; [|split; [done|]].
  - split; [|split; [intros id; rewrite E2'; set_solver|done]]. split.
    + intros id s. by rewrite E1, lookup_empty.
    + intros id s Hs He. rewrite (E2 id s Hs) in He. done.
    + intros id s. by rewrite E3, lookup_empty.
    + intros sp. by rewrite E4, lookup_empty.
    + intros id s. by rewrite E5, lookup_empty.
    + done.
  - split; [simpl; by rewrite E6|]. split; [done|]. split; [done|]. intros s. symmetry. by apply lanes_empty.
Qed.

(** C5: the translation of a run is a run. From a new translator, with or without
    a native turn and a history of messages, any sequence of native events, of
    every type but protocol (whose events are a producer's, [AguiBridge.v]), with
    model identities in valid UTF-8, is translated without a panic. Unless one of them is refused in the middle of
    its translation ([refused_in]: a text or a call that does not continue what
    was sent) or the source is found invalid, the events that come out, in their
    order, are a trace of the life-cycle machine: the run starts first, every
    message, call, span and step is opened once before it is used and closed,
    and when the run ends nothing is left open and nothing follows. *)
Theorem translated_run thread run turn history t es :
  opened thread run turn history = Some t -> Forall (fun e => ValidString (modelIdentity e) = true) es ->
  exists out t', translate_all es t = Some (out, t')
    /\ (refused_in es t = false -> historyErr t' = None ->
          exists failed, emits idle out (run_life failed t') /\ (done t' = true -> forall s, open (run_life failed t') s = ∅)).
Proof.
  intros Ho Hv. destruct (opened_sane _ _ _ _ _ Ho) as (Hs & Hd & Hi). destruct (translate_all_step es t Hv Hd Hs) as (out & t' & E & _ & Hf).
  exists out, t'. split; [done|]. intros Hr Hn. assert (emits idle [] (run_life false t)) as Hi'.
  { apply emits_same. by symmetry. }
  destruct (Hf Hr Hn) as [[Hd' He]|(Hd' & failed & He & Hl)].
  - exists false. split; [by apply (emits_app _ (run_life false t) _ [])|congruence].
  - exists failed. split; [by apply (emits_app _ (run_life false t) _ [])|]. intros _ s. exact (lanes_empty t' Hl s).
Qed.
End Translated.

(** A run with text, a tool call and its result, and a model call. *)
Lemma by_elements_all X x : x ∈ X -> x ∈ by_elements X.
Proof. apply elem_of_elements. Qed.

Definition whole_run : list NativeEvent :=
  [native EventTypeTurnStarted blank; says_delta "a" "hello" (Some 0%Z) 1; native EventTypeModelStarted (mkShape "a" "" "" "" "" "" "" None None None "" "" 0);
   native EventTypeReasoningDelta (mkShape "r" "" "" "" "" "hm" "" None None None "" "" 0); starts_tool "one";
   AguiTranslateDemo.tool_event EventTypeToolCallCompleted "one" "" "result" "" "completed" "" (Some (Some query)) None;
   says_delta "a" "hello world" (Some 0%Z) 2; ends EventTypeTurnCompleted; says_delta "a" "late" None 3].

Lemma translated_run_witness :
  exists out t', translate_all by_elements accept valid_presentation "json" no_patch whole_run fresh = Some (out, t') /\ done t' = true
  /\ type_of <$> out
     = ["RUN_STARTED"; "TEXT_MESSAGE_START"; "TEXT_MESSAGE_CONTENT"; "STEP_STARTED"; "REASONING_START"; "REASONING_MESSAGE_START";
        "REASONING_MESSAGE_CONTENT"; "TEXT_MESSAGE_START"; "TOOL_CALL_START"; "TOOL_CALL_ARGS"; "TOOL_CALL_END"; "TOOL_CALL_RESULT";
        "ACTIVITY_SNAPSHOT"; "TEXT_MESSAGE_CONTENT"; "REASONING_MESSAGE_END"; "REASONING_END"; "TEXT_MESSAGE_END"; "TEXT_MESSAGE_END";
        "STEP_FINISHED"; "RUN_FINISHED"]
  /\ exists failed, emits idle out (run_life failed t') /\ forall s, open (run_life failed t') s = ∅.
Proof.
  assert (Forall (fun e => ValidString (modelIdentity e) = true) whole_run) as Hv by (repeat (apply list.Forall_cons; split; [reflexivity|]); by apply list.Forall_nil).
  destruct (translated_run by_elements by_elements_all accept valid_presentation "json" no_patch "thread" "run" "" None fresh whole_run eq_refl Hv)
    as (out & t' & E & H).
  assert (option_map (fun r => (done r.2, type_of <$> r.1, historyErr r.2)) (translate_all by_elements accept valid_presentation "json" no_patch whole_run fresh)
    = Some (true, ["RUN_STARTED"; "TEXT_MESSAGE_START"; "TEXT_MESSAGE_CONTENT"; "STEP_STARTED"; "REASONING_START"; "REASONING_MESSAGE_START";
        "REASONING_MESSAGE_CONTENT"; "TEXT_MESSAGE_START"; "TOOL_CALL_START"; "TOOL_CALL_ARGS"; "TOOL_CALL_END"; "TOOL_CALL_RESULT";
        "ACTIVITY_SNAPSHOT"; "TEXT_MESSAGE_CONTENT"; "REASONING_MESSAGE_END"; "REASONING_END"; "TEXT_MESSAGE_END"; "TEXT_MESSAGE_END";
        "STEP_FINISHED"; "RUN_FINISHED"], None)) as Hc by (vm_compute; reflexivity).
  rewrite E in Hc. injection Hc as Hd Hk Hn. exists out, t'. split; [exact E|]. split; [exact Hd|]. split; [exact Hk|].
  destruct H as (failed & He & Ho); [vm_compute; reflexivity|exact Hn|]. exists failed. split; [exact He|]. exact (Ho Hd).
Defined.
