(* ===== verification/AguiText.v ===== *)
(** * Text delivered more than once

    The deltas of a message name the offset they start at, so that a piece that
    is delivered again, in part or as a whole, adds what is new of it alone. *)
From stdpp Require Import base gmap strings list fin_maps sets.
From Stdlib Require Import ZArith Ascii.
From S2P Require Import Prelude GoStrings GoJson CanonicalNumber JsonValue JsonCodec AguiPatch AguiProjection AguiDemo AguiProps AguiLife.
From S2P Require Import AguiNative AguiTranslator AguiTranslate AguiTranslateDemo AguiLanes AguiGraph AguiTranslateProps.

Open Scope nat_scope.

(** ** Pieces of a text *)
Definition prefix_of (n : nat) (whole : string) : string := text (take n (bytes whole)).
Definition size (s : string) : nat := length (bytes s).
Definition piece_at (whole : string) (p : nat * string) : Prop := take (size p.2) (drop p.1 (bytes whole)) = bytes p.2.

(** How much of the text has arrived after the pieces, each of which starts
    within what had arrived before. *)
Fixpoint arrived (n : nat) (pieces : list (nat * string)) : option nat :=
  match pieces with
  | [] => Some n
  | (o, p) :: pieces => if Nat.leb o n then arrived (Nat.max n (o + size p)) pieces else None
  end.

Lemma piece_fits whole o p n : piece_at whole (o, p) -> o <= n -> n <= size whole -> o + size p <= size whole.
Proof.
  unfold piece_at, size. simpl. intros E Ho Hn. apply (f_equal length) in E. rewrite length_take, length_drop in E. lia.
Qed.

Lemma prefix_bytes n whole : bytes (prefix_of n whole) = take n (bytes whole).
Proof. apply bytes_text. Qed.

(** ** [reconcile] of the next piece *)
Lemma reconcile_piece whole n o p seeded :
  piece_at whole (o, p) -> o <= n -> n <= size whole ->
  reconcile (prefix_of n whole) p false seeded (Some (Z.of_nat o))
  = if Nat.leb (o + size p) n then Repeated else NewText (text (take (o + size p - n) (drop n (bytes whole)))).
Proof.
  intros Hp Ho Hn. unfold reconcile. rewrite prefix_bytes, length_take, Nat.min_l by (unfold size in Hn; lia).
  rewrite bool_decide_false by lia. rewrite Nat2Z.id. unfold piece_at in Hp. simpl in Hp.
  fold (size p). set (w := bytes whole) in *.
  assert (drop o (take n w) = take (n - o) (drop o w)) as -> by (rewrite take_drop_commute; do 2 f_equal; lia).
  assert ((o + size p <=? n) = (size p <=? n - o)) as -> by (destruct (Nat.leb_spec (o + size p) n), (Nat.leb_spec (size p) (n - o)); lia || done).
  destruct (Nat.leb_spec (size p) (n - o)) as [Hle|Hlt].
  - rewrite take_take, Nat.min_l by done. rewrite Hp. rewrite bool_decide_false by (intros H; by apply H). done.
  - rewrite <- Hp, take_take, Nat.min_l by lia. rewrite bool_decide_false by (intros H; by apply H). unfold from_byte. rewrite <- Hp.
    replace (size p) with ((n - o) + (size p - (n - o))) at 1 by lia. rewrite <- take_drop_commute, drop_drop.
    do 3 f_equal; [lia|]. f_equal. lia.
Qed.

(** ** Delivery *)
Section Delivery.
Context (range : gset string -> list string).

Fixpoint deliver (id : string) (pieces : list (nat * string)) (t : Translator) : list Event * Translator :=
  match pieces with
  | [] => ([], t)
  | (o, p) :: pieces =>
      let '(evs, t) := on_text range id p false (Some (Z.of_nat o)) t in let '(rest, t) := deliver id pieces t in (evs ++ rest, t)
  end.

(** What the client puts together from the events of the message. *)
Definition received (evs : list Event) : string := foldr (fun ev s => field (wire ev) "delta" +:+ s) "" evs.

Lemma received_app evs evs' : received (evs ++ evs') = received evs +:+ received evs'.
Proof. induction evs as [|ev evs IH]; [done|]. simpl. rewrite IH. apply bytes_inj. by rewrite !bytes_app, app_assoc. Qed.
Lemma received_start id : received [plain_event "TEXT_MESSAGE_START" [str "messageId" id; str "role" "assistant"]] = "".
Proof. unfold received. cbn [foldr]. rewrite field_plain by keys. done. Qed.
Lemma received_content id d : received [plain_event "TEXT_MESSAGE_CONTENT" [str "messageId" id; str "delta" d]] = d.
Proof. unfold received. cbn [foldr]. rewrite field_plain by keys. simpl. apply bytes_inj. by rewrite bytes_app, app_nil_r. Qed.

Lemma prefix_more whole n k : prefix_of (n + k) whole = prefix_of n whole +:+ text (take k (drop n (bytes whole))).
Proof. unfold prefix_of. by rewrite <- text_app, take_take_drop. Qed.

(** The text so far is a prefix of the whole. *)
Definition holds (id whole : string) (n : nat) (t : Translator) : Prop :=
  done t = false /\ exists s, texts t !! id = Some s /\ text_ended s = false /\ content s = prefix_of n whole.

Lemma continue_piece id whole n o p s out t :
  texts t !! id = Some s -> text_ended s = false -> content s = prefix_of n whole -> done t = false ->
  piece_at whole (o, p) -> o <= n -> n <= size whole ->
  let r := continue_text range id p false (Some (Z.of_nat o)) s out t in
  exists evs, r.1 = out ++ evs /\ prefix_of n whole +:+ received evs = prefix_of (Nat.max n (o + size p)) whole
              /\ holds id whole (Nat.max n (o + size p)) r.2.
Proof.
  intros Hs He Hc Hd Hp Ho Hn. simpl. unfold continue_text. rewrite Hc, reconcile_piece by done.
  assert (forall x y : string, y = "" -> x +:+ y = x) as Hnil by (intros x y ->; apply bytes_inj; by rewrite bytes_app, app_nil_r).
  destruct (Nat.leb_spec (o + size p) n) as [Hle|Hlt].
  - exists []. rewrite app_nil_r, Nat.max_l by done. split; [done|]. split; [by apply Hnil|]. split; [done|]. by exists s.
  - set (delta := text _). rewrite Nat.max_r by lia. assert (prefix_of (o + size p) whole = prefix_of n whole +:+ delta) as Hd'.
    { unfold delta. rewrite <- prefix_more. f_equal. lia. }
    case_bool_decide as Hdelta; cbn [fst snd].
    + exists []. rewrite app_nil_r, Hd', (Hnil _ _ Hdelta). split; [done|]. split; [by apply Hnil|]. split; [done|]. exists s. 
      split; [done|]. split; [done|]. by rewrite Hd', (Hnil _ _ Hdelta).
    + eexists. split; [done|]. rewrite received_content. split; [done|]. split; [done|]. eexists. simpl. rewrite lookup_alter_eq, Hs.
      split; [done|]. split; [done|]. simpl. by rewrite Hd', Hc.
Qed.

Lemma deliver_known id whole pieces n n' t :
  id <> "" -> holds id whole n t -> n <= size whole -> Forall (piece_at whole) pieces -> arrived n pieces = Some n' ->
  prefix_of n whole +:+ received (deliver id pieces t).1 = prefix_of n' whole /\ holds id whole n' (deliver id pieces t).2.
Proof.
  intros Hid. revert n t. induction pieces as [|[o p] pieces IH]; intros n t Ht Hn Hp Ha.
  { injection Ha as <-. split; [|done]. apply bytes_inj. by rewrite bytes_app, app_nil_r. }
  apply list.Forall_cons in Hp as [Hp Hps]. simpl in Ha. destruct (Nat.leb_spec o n) as [Ho|]; [|done].
  destruct Ht as (Hd & s & Hs & He & Hc). simpl. assert (text_id id t = id) as Ei by (unfold text_id; by rewrite bool_decide_false).
  rewrite (on_text_known range id p false (Some (Z.of_nat o)) t s) by by rewrite Ei. rewrite Ei, He.
  destruct (continue_piece id whole n o p s [] t Hs He Hc Hd Hp Ho Hn) as (evs & E & Hr & Hh).
  destruct (continue_text _ _ _ _ _ _ _ t) as [evs' t1]. simpl in E, Hh. subst evs'.
  destruct (IH _ t1 Hh) as [Hr2 Hh2]; [|done|done|].
  { apply Nat.max_lub; [done|]. by eapply piece_fits. }
  destruct (deliver id pieces t1) as [rest t2]. simpl in *. split; [|done]. rewrite received_app, <- Hr2, <- Hr.
  apply bytes_inj. by rewrite !bytes_app, app_assoc.
Qed.

(** C23: at-least-once delivery of text is exactly-once for the client. When the
    pieces of a new message are parts of one text, each of them at its offset
    and starting no later than what arrived before it, then whatever pieces are
    repeated or overlap, the deltas the translator emits spell the text that
    arrived, byte for byte, and nothing fails. *)
Theorem redelivered_text id whole pieces n t :
  done t = false -> id <> "" -> texts t !! id = None -> message id (messages t) = None ->
  pieces <> [] -> Forall (piece_at whole) pieces -> arrived 0 pieces = Some n ->
  received (deliver id pieces t).1 = prefix_of n whole /\ holds id whole n (deliver id pieces t).2.
Proof.
  intros Hd Hid Hn Hm Hne Hp Ha. destruct pieces as [|[o p] pieces]; [done|]. apply list.Forall_cons in Hp as [Hp Hps].
  simpl in Ha. destruct o as [|o]; [|done]. simpl in Ha. assert (text_id id t = id) as Ei by (unfold text_id; by rewrite bool_decide_false).
  simpl. rewrite on_text_new by by rewrite Ei. cbv zeta. rewrite Ei. set (s := mkText "" (text_content id t) false).
  assert (content s = prefix_of 0 whole) as Hc by (simpl; unfold text_content; by rewrite Hm).
  destruct (continue_piece id whole 0 0 p s [plain_event "TEXT_MESSAGE_START" [str "messageId" id; str "role" "assistant"]] (new_text id t)) as (evs & E & Hr & Hh);
    try done; [by simpl; rewrite lookup_insert_eq|unfold size; lia|].
  destruct (continue_text _ _ _ _ _ _ _ _) as [evs' t1]. cbn [fst snd] in E, Hh. subst evs'.
  destruct (deliver_known id whole pieces (size p) n t1 Hid Hh) as [Hr2 Hh2]; [|done|done|].
  { apply (piece_fits whole 0 p 0 Hp); lia. }
  destruct (deliver id pieces t1) as [rest t2]. cbn [fst snd] in *. split; [|done].
  rewrite !received_app, received_start, <- Hr2. f_equal. exact Hr.
Qed.
End Delivery.

(** "hello world" in pieces, one of them twice and one over the end of another. *)
Lemma redelivered_text_witness :
  let pieces := [(0, "hello"); (0, "hello"); (3, "lo wor"); (9, "ld")] in
  received (deliver by_elements "a" pieces fresh).1 = "hello world"
  /\ holds "a" "hello world" 11 (deliver by_elements "a" pieces fresh).2.
Proof.
  apply (redelivered_text by_elements "a" "hello world" _ 11 fresh); try reflexivity; [discriminate..|].
  repeat (apply list.Forall_cons; split; [reflexivity|]). apply list.Forall_nil. exact I.
Defined.
