(* ===== verification/AguiRefused.v ===== *)
(** * Text that is refused as it starts

    A new message whose first delta does not start at the beginning fails the
    run after the message was registered: the run closes it, and its start was
    never sent. *)
From stdpp Require Import base gmap strings list fin_maps sets.
From Stdlib Require Import ZArith Ascii.
From S2P Require Import Prelude GoStrings GoJson CanonicalNumber JsonValue JsonCodec AguiPatch AguiProjection AguiDemo AguiProps AguiLife.
From S2P Require Import AguiNative AguiTranslator AguiTranslate AguiTranslateDemo AguiLanes AguiCapture AguiGraph AguiTranslateProps AguiToolSteps.
From S2P Require Import AguiCalm.

Open Scope nat_scope.

(** ** What is closed was opened *)
Lemma trace_closes l moves l' s id : trace l moves l' -> Close s id ∈ moves -> id ∈ open l s \/ AguiLife.Open s id ∈ moves.
Proof.
  induction 1 as [l|l mv l1 moves l2 Hm _ IH]; intros Hin; [by apply not_elem_of_nil in Hin|].
  apply elem_of_cons in Hin as [<-|Hin]; [left; by inversion Hm|]. destruct (IH Hin) as [Ho|Ho]; [|right; by right].
  assert (forall s', same_life l l1 -> open l1 s' = open l s') as Hsame by (by intros s' (_ & _ & _ & H)).
  destruct Hm as [? ? ? ? ? He ?|? ? ? ? ? ? ? ? He|? ? ? ? ? ? He|s' x ? ? ? ? (_ & _ & _ & He)|? ? ? ? ? ? Hs|s' x ? ? ? ? (_ & _ & _ & He)
    |? ? ? ? ? ? ? ? ? He|? ? ? ? ? ? ? He|? ? ? Hs]; try (rewrite He in Ho); try (rewrite Hsame in Ho by done); try (by left); try (by apply not_elem_of_empty in Ho).
  - destruct (decide (s = s')) as [->|]; [|by left]. apply elem_of_union in Ho as [Ho|Ho]; [|by left].
    apply elem_of_singleton in Ho as ->. right. by left.
  - destruct (decide (s = s')) as [->|]; [|by left]. left. set_solver.
Qed.

(** ** The events that close a run *)
Definition closing (ev : Event) : Prop :=
  type_of ev ∈ ["TEXT_MESSAGE_END"; "TOOL_CALL_END"; "REASONING_MESSAGE_END"; "REASONING_END"; "STEP_FINISHED"; "RUN_ERROR"].

Lemma closing_boundary kind key id owner :
  NoDup ["type"; key; "subagentRunId"] ->
  kind ∈ ["TEXT_MESSAGE_END"; "TOOL_CALL_END"; "REASONING_MESSAGE_END"; "REASONING_END"; "STEP_FINISHED"] -> closing (scopedBoundary kind key id owner).
Proof.
  intros Hn Hk. unfold closing, scopedBoundary. case_bool_decide; simpl app; rewrite type_standard; try set_solver.
  by apply (NoDup_app ["type"; key] ["subagentRunId"]) in Hn as (Hn & _).
Qed.

Lemma close_all_forall {S} (P : Event -> Prop) (ended : S -> bool) finish event order m :
  (forall id s, P (event id s)) -> Forall P (close_all ended finish event order m).1.
Proof.
  intros Hq. revert m. induction order as [|x order IH]; intros m; simpl; [constructor|]. destruct (m !! x) as [s|]; [|done].
  destruct (ended s); [done|]. specialize (IH (<[x := finish s]> m)). destruct (close_all _ _ _ order _). by constructor.
Qed.

Section Refused.
Context (range : gset string -> list string).

Lemma close_spans_closing spans t : Forall closing (close_spans spans t).1.
Proof.
  revert t. induction spans as [|sp spans IH]; intros t; [constructor|]. simpl. unfold close_span. set (b := _ && _).
  destruct b; [set (u := set_reasoningSpans _ t); specialize (IH u)|specialize (IH t)]; destruct (close_spans spans _); [|done].
  constructor; [|done]. apply closing_boundary; [keys|set_solver].
Qed.

Lemma closeOpen_closing t : Forall closing (closeOpen range t).1.
Proof.
  unfold closeOpen, closeReasoning. cbv zeta. set (ids := filter _ _). set (spans := range _).
  pose proof (close_all_forall closing reasoning_ended (end_reasoning_state true) reasoning_end ids (reasonings t)) as Q1.
  destruct (close_all reasoning_ended _ _ _ _) as [e1 m1]. pose proof (close_spans_closing spans (set_reasonings m1 t)) as Q2.
  destruct (close_spans spans _) as [e2 t2].
  pose proof (close_all_forall closing text_ended (end_text true) text_end (textOrder t2) (texts t2)) as Q3.
  destruct (close_all text_ended _ _ _ _) as [e3 m3]. set (t3 := set_texts m3 t2).
  pose proof (close_all_forall closing tool_ended (end_tool_state true) tool_end (toolOrder t3) (tools t3)) as Q4.
  destruct (close_all tool_ended _ _ _ _) as [e4 m4]. unfold closeSteps. set (t4 := set_tools m4 t3).
  pose proof (close_all_forall closing step_ended (end_step true) step_end (stepOrder t4) (steps t4)) as Q5.
  destruct (close_all step_ended _ _ _ _) as [e5 m5]. simpl in *. repeat (apply Forall_app; split); try done;
    match goal with H : _ -> Forall closing ?evs |- Forall closing ?evs => apply H end; intros; (apply closing_boundary; [keys|set_solver]).
Qed.

Lemma close_all_in {S} (ended : S -> bool) finish event order m id s :
  id ∈ order -> m !! id = Some s -> ended s = false -> event id s ∈ (close_all ended finish event order m).1.
Proof.
  intros Hin Hs He. revert m Hs. induction order as [|x order IH]; intros m Hs; [by apply not_elem_of_nil in Hin|]. simpl.
  destruct (decide (x = id)) as [->|Hne].
  - rewrite Hs, He. destruct (close_all _ _ _ order _). simpl. by left.
  - apply elem_of_cons in Hin as [?|Hin]; [congruence|]. specialize (IH Hin). destruct (m !! x) as [sx|]; [|by apply IH].
    destruct (ended sx); [by apply IH|]. specialize (IH (<[x := finish sx]> m)). destruct (close_all _ _ _ order _). simpl in *. right. apply IH.
    by rewrite lookup_insert_ne.
Qed.

Lemma closeOpen_text t id s : id ∈ textOrder t -> texts t !! id = Some s -> text_ended s = false -> text_end id s ∈ (closeOpen range t).1.
Proof.
  intros Hin Hs He. unfold closeOpen. destruct (reasoning_orders range "" t) as (O1 & O2 & _). destruct (closeReasoning range "" t) as [e1 t1].
  simpl in O1, O2. rewrite <- O1 in Hin. rewrite <- O2 in Hs.
  pose proof (close_all_in text_ended (end_text true) text_end (textOrder t1) (texts t1) id s Hin Hs He) as H.
  destruct (close_all text_ended _ _ _ _) as [e2 m2]. destruct (close_all tool_ended _ _ _ _) as [e3 m3].
  destruct (closeSteps _) as [e4 t4]. simpl in *. set_solver.
Qed.

Lemma closing_opens ev s id : closing ev -> moved ev <> Some (AguiLife.Open s id).
Proof.
  unfold closing, moved, event_move, type_of. intros Hc E.
  repeat (apply elem_of_cons in Hc as [Hc|Hc]; [rewrite Hc in E; discriminate|]). by apply not_elem_of_nil in Hc.
Qed.

(** C37: a defect. A new message whose first delta starts past the beginning of
    the text is refused after it was registered, and with the refusal the start
    of the message is lost: the run ends the message all the same, so the events
    are those of no run at all. *)
Theorem refused_text_unopened given text o t :
  coherent t -> going t -> texts t !! text_id given t = None -> message (text_id given t) (messages t) = None -> (0 < o)%Z ->
  let evs := (on_text range given text false (Some o) t).1 in
  (exists ev, ev ∈ evs /\ moved ev = Some (Close TextStream (text_id given t))) /\ forall l, ~ emits (run_life false t) evs l.
Proof.
  intros Hc Hg Hn Hm Ho evs. set (id := text_id given t) in *. assert (exists m c, on_text range given text false (Some o) t = Fail_run range m c (new_text id t)) as (m & c & E).
  { rewrite on_text_new by done. cbv zeta. fold id. unfold text_content. rewrite Hm. unfold continue_text, reconcile. cbn [content].
    rewrite bool_decide_true by (right; simpl; lia). by eexists _, _. }
  assert (evs = (closeOpen range (new_text id t)).1 ++ [plain_event "RUN_ERROR" [str "message" (if bool_decide (m = "") then "Agent run failed" else m); str "code" c]]) as Ee.
  { unfold evs. rewrite E. unfold Fail_run. change (done (new_text id t)) with (done t). rewrite (proj2 Hg). rewrite Start_going by done.
    by destruct (closeOpen range (new_text id t)). }
  assert (exists ev, ev ∈ evs /\ moved ev = Some (Close TextStream id)) as (ev & Hin & Hmv).
  { exists (text_end id (mkText "" (text_content id t) false)). split.
    - rewrite Ee. apply elem_of_app. left. apply closeOpen_text; [simpl; set_solver|simpl; by rewrite lookup_insert_eq|done].
    - unfold text_end. by rewrite boundary_move by keys. }
  split; [by exists ev|]. intros l (moves & l1 & Em & Ht & _). apply mapM_Some in Em.
  assert (Close TextStream id ∈ moves) as Hcl.
  { apply list_elem_of_lookup in Hin as [i Hi]. destruct (Forall2_lookup_l _ _ _ _ _ Em Hi) as (mv & Hmv' & E'). rewrite Hmv in E'.
    injection E' as <-. by eapply list_elem_of_lookup_2. }
  destruct (trace_closes _ _ _ _ _ Ht Hcl) as [Hop|Hop].
  - simpl in Hop. unfold lanes_of in Hop. apply elem_of_map in Hop as (x & -> & Hx). apply elem_open_keys in Hx as (s & Hs & _). simpl in Hn. congruence.
  - apply list_elem_of_lookup in Hop as [i Hi]. destruct (Forall2_lookup_r _ _ _ _ _ Em Hi) as (ev' & Hev & E').
    apply list_elem_of_lookup_2 in Hev. rewrite Ee in Hev. apply elem_of_app in Hev as [Hev|Hev].
    + eapply closing_opens, E'. pose proof (closeOpen_closing (new_text id t)) as Hcs. rewrite list.Forall_forall in Hcs. by apply Hcs.
    + apply list_elem_of_singleton in Hev as ->. by rewrite error_move in E'.
Qed.
End Refused.

(** "lo" at offset 3 of a message of a run that has begun. *)
Lemma refused_text_unopened_witness :
  let t := (Start fresh).2 in
  (exists ev, ev ∈ (on_text by_elements "a" "lo" false (Some 3%Z) t).1 /\ moved ev = Some (Close TextStream "a"))
  /\ forall l, ~ emits (run_life false t) (on_text by_elements "a" "lo" false (Some 3%Z) t).1 l.
Proof.
  assert (coherent fresh) as Hc by (split; try done; intros; first [by rewrite lookup_empty in *|by destruct s; apply open_keys_empty]).
  destruct (Start_emits fresh Hc eq_refl) as (_ & Hc1 & Hg1).
  apply (refused_text_unopened by_elements "a" "lo" 3%Z (Start fresh).2 Hc1 Hg1); [reflexivity|reflexivity|lia].
Defined.
