(* ===== verification/AguiBridge.v ===== *)
(** * The bridge of protocol events

    src/protocol/agui/translator.go (the branch of [translate] for protocol
    events), translator_presentation.go, translator_subagent.go,
    translator_model.go, translator_approval_receipt.go and event_compat.go: the
    AG-UI events a runtime producer hands to the translator as they are, the
    guards that keep what belongs to the server out of them, and the restricted
    producers that may publish it.

    An event of a producer is its bytes: the value they are JSON of, or none
    when they are not JSON. *)
From stdpp Require Import base gmap strings list.
From Stdlib Require Import ZArith Ascii.
From S2P Require Import Prelude GoStrings GoJson CanonicalNumber JsonValue JsonCodec AguiPatch AguiProjection AguiNative AguiTranslator AguiTranslate.

Open Scope Z_scope.

(** ** The decoding of a struct

    [encoding/json] stores a member in the field of its name in any case, each
    after the one before it; a null leaves a string or a struct as it is and
    empties a map or a list; a member of another type is an error. *)
Definition members (name : string) (o : Object) : list json := snd <$> filter (fun m => EqualFold m.1 name = true) o.

Definition text_value (s : string) (v : json) : option string :=
  match v with JString s' => Some s' | JNull => Some s | _ => None end.
Definition map_value (m : Object) (v : json) : option Object :=
  match v with JObject o => Some (put_all o m) | JNull => Some [] | _ => None end.
Definition list_value (_ : list json) (v : json) : option (list json) :=
  match v with JArray l => Some l | JNull => Some [] | _ => None end.
Definition struct_value (os : list Object) (v : json) : option (list Object) :=
  match v with JObject o => Some (os ++ [o]) | JNull => Some os | _ => None end.

Definition decode_text (name : string) (o : Object) : option string := fold_option text_value "" (members name o).
Definition decode_map (name : string) (o : Object) : option Object := fold_option map_value [] (members name o).
Definition decode_list (name : string) (o : Object) : option (list json) := fold_option list_value [] (members name o).
(** The objects that are decoded into a nested struct. *)
Definition decode_struct (vs : list json) : option (list Object) := fold_option struct_value [] vs.

(** The object a struct is decoded from. *)
Definition struct_of (v : json) : option Object := match v with JObject o => Some o | JNull => Some [] | _ => None end.

(** ** What belongs to the server *)
Definition server_activities : list string :=
  ["agently.turn"; "agently.tool"; "agently.feed"; "agently.planner"; "agently.tools-planned"; "agently.narration"; "agently.user-identity"].
Definition server_customs : list string := ["agently.queue"; "agently.progress"; "agently.linked-conversation"; "agently.usage"].

Definition reserved_namespace (metadata : Object) : bool :=
  let namespace := default [] (object (get "agently" metadata)) in
  present namespace "presentation" || present namespace "identityVersion" || present namespace "nativeTurnId".

Definition reserved_activity (activity : string) (metadata : Object) : bool :=
  reserved_namespace metadata || bool_decide (activity ∈ server_activities).

(** A message of a snapshot: one that does not decode is passed over. *)
Definition call_metadata (v : json) : option Object := c ← struct_of v; decode_map "metadata" c.
Definition reserved_message (v : json) : bool :=
  let decoded :=
    m ← struct_of v;
    _ ← decode_text "role" m;
    activity ← decode_text "activityType" m;
    metadata ← decode_map "metadata" m;
    calls ← decode_list "toolCalls" m;
    calls ← mapM call_metadata calls;
    Some (activity, metadata, calls) in
  match decoded with
  | Some (activity, metadata, calls) => reserved_activity activity metadata || existsb reserved_namespace calls
  | None => false
  end.

Definition reservedNativePresentationEvent (raw : option json) : bool :=
  let decoded :=
    v ← raw;
    w ← struct_of v;
    typ ← decode_text "type" w;
    name ← decode_text "name" w;
    activity ← decode_text "activityType" w;
    metadata ← decode_map "metadata" w;
    ms ← decode_list "messages" w;
    Some (typ, name, activity, metadata, ms) in
  match decoded with
  | Some (typ, name, activity, metadata, ms) =>
      reserved_namespace metadata
      || (bool_decide (typ = "MESSAGES_SNAPSHOT") && existsb reserved_message ms)
      || bool_decide (typ ∈ ["ACTIVITY_SNAPSHOT"; "ACTIVITY_DELTA"] /\ activity ∈ server_activities)
      || bool_decide (typ = "CUSTOM" /\ name ∈ server_customs)
  | None => false
  end.

(** The invocations in the metadata of an event; none when it does not decode. *)
Definition declared_invocations (w : Object) : option (list json) :=
  metadata ← decode_struct (members "metadata" w);
  agently ← decode_struct (mjoin (members "agently" <$> metadata));
  Some (mjoin (members "invocation" <$> agently)).
Definition invocation_header (raw : option json) : option (string * string * list json) :=
  v ← raw;
  w ← struct_of v;
  typ ← decode_text "type" w;
  name ← decode_text "name" w;
  invocations ← declared_invocations w;
  Some (typ, name, invocations).
Definition reservedInvocationEvent (raw : option json) : bool :=
  match invocation_header raw with
  | Some (typ, name, invocations) =>
      bool_decide (typ = "CUSTOM" /\ name = "agently.invocation") || bool_decide (invocations <> [])
  | None => false
  end.

(** ** Standard events *)
Definition lifecycle : list string := ["RUN_STARTED"; "RUN_FINISHED"; "RUN_ERROR"].

Section Bridge.
Context (range : gset string -> list string).
Context (ValidateEvent : json -> bool) (ValidatePresentation : string -> json -> bool).
Context (decode_error : string) (apply_patch : json -> json -> json + string).
(** The text of the error of a validation. *)
Context (invalid : option json -> string).
(** The events of the generated codec, and their encoding. *)
Context {WireEvent : Type} (EncodeEvent : WireEvent -> json + string).
Notation Fail_run := (Fail_run range).
Notation capture := (capture decode_error apply_patch).

(** [StandardEvent]. A valid event is an object whose type is a string, and no
    other member of it has the name of its type in another case: its schema is
    closed. *)
Definition StandardEvent (raw : option json) : option Event :=
  v ← raw; if ValidateEvent v then w ← object (Some v); Some (mkEvent w true false) else None.

(** The event a producer may publish, or why it may not. *)
Definition bridged (trusted : bool) (raw : option json) : Event + string :=
  if negb trusted && reservedNativePresentationEvent raw then inr "Native presentation identity belongs to trusted producers"
  else if reservedInvocationEvent raw then inr "Native invocation ancestry belongs to trusted registration"
  else match StandardEvent raw with
       | None => inr (invalid raw)
       | Some ev => if bool_decide (type_of ev ∈ lifecycle) then inr "Runtime bridge cannot control run lifecycle" else inl ev
       end.

(** An event with the object it is sent as: the timestamp of the native event is
    set on the events of the bridge when they are marshalled. *)
Definition sent (ev : Event) : Event * Object := (ev, wire ev).
Definition sent_at (e : NativeEvent) (ev : Event) : Event * Object := (ev, default (wire ev) (stamped ValidateEvent e ev)).

Definition translate_protocol (trusted : bool) (e : NativeEvent) (raw : option json) (t : Translator) :
    option (list (Event * Object) * Translator) :=
  if done t then Some ([], t)
  else if bool_decide (0 < EventSeq e /\ EventSeq e ∈ seen t) then Some ([], t)
  else
    let t := if bool_decide (0 < EventSeq e) then set_seen ({[EventSeq e]} ∪ seen t) t else t in
    let '(out, t) := Start t in
    let id := first_set [AssistantMessageID e; MessageID e] in
    let t := if IsInternalMessageMode (Mode e) && bool_decide (id <> "") then set_internalMessages ({[id]} ∪ internalMessages t) t else t in
    match bridged trusted raw with
    | inr message => let '(evs, t) := Fail_run message "INVALID_PROTOCOL_EVENT" t in Some (sent <$> out ++ evs, t)
    | inl ev =>
        let events := ev :: rendered false e in
        t ← capture events t;
        match historyErr t with
        | Some err => let '(evs, t) := Fail_run err "INVALID_NATIVE_SOURCE" t in Some (sent <$> out ++ evs, t)
        | None => Some ((sent <$> out) ++ (sent_at e <$> events), t)
        end
    end.

(** [translate] of any native event. An event of type protocol has the bytes of
    its [ProtocolEvent] beside its other fields; another event has none. *)
Definition translate_any (trusted : bool) (e : NativeEvent) (protocol : option (option json)) (t : Translator) :
    option (list (Event * Object) * Translator) :=
  match protocol with
  | Some raw => translate_protocol trusted e raw t
  | None =>
      match translate range ValidateEvent ValidatePresentation decode_error apply_patch e t with
      | Some (out, t) => Some (sent <$> out, t)
      | None => None
      end
  end.
Definition Translate := translate_any false.

(** ** The producers of the runtime *)
Definition publishStandard (raw : option json) (t : Translator) : option ((list Event + string) * Translator) :=
  if reservedNativePresentationEvent raw then Some (inr "native presentation identity belongs to trusted producers", t)
  else if reservedInvocationEvent raw then Some (inr "native invocation ancestry belongs to trusted registration", t)
  else match StandardEvent raw with
       | None => Some (inr ("invalid standard runtime event: " +:+ invalid raw), t)
       | Some ev =>
           if bool_decide (type_of ev ∈ lifecycle) then Some (inr "run lifecycle belongs to the translator", t)
           else if done t then Some (inr "cannot publish after run completion", t)
           else
             let '(out, t) := Start t in
             t ← capture (out ++ [ev]) t;
             match historyErr t with Some err => Some (inr err, t) | None => Some (inl (out ++ [ev]), t) end
       end.
Definition EmitStandard (event : WireEvent) (t : Translator) : option ((list Event + string) * Translator) :=
  match EncodeEvent event with inr err => Some (inr err, t) | inl raw => publishStandard (Some raw) t end.

Context (presentation_error : string -> json -> string).
Definition user_identity (nativeTurn client user : string) (t : Translator) : Object :=
  of_members [str "version" "1"; str "protocolRunId" (runID t); str "nativeTurnId" nativeTurn; str "clientMessageId" client;
              str "clientRequestId" client; str "nativeUserMessageId" user].
Definition EmitNativeUserIdentity (nativeTurn client user : string) (t : Translator) : option ((list Event + string) * Translator) :=
  if done t || bool_decide (nativeTurn = "" \/ nativeTurn <> nativeTurnID t \/ client = "" \/ user = "")
  then Some (inr "native user identity does not match active translator scope", t)
  else
    let value := user_identity nativeTurn client user t in
    if negb (ValidatePresentation "agently.user-identity" (JObject value))
    then Some (inr (presentation_error "agently.user-identity" (JObject value)), t)
    else
      let '(events, t) := presentationActivity range ValidatePresentation "agently.user-identity" (client +:+ "/identity") value t in
      t ← capture events t;
      match historyErr t with Some err => Some (inr err, t) | None => Some (inl events, t) end.

(** The receipt of one approved call: a snapshot and its result. *)
Definition receipt_identity (call : string) (snapshot result : json) : bool :=
  let decoded :=
    s ← struct_of snapshot;
    r ← struct_of result;
    descriptor ← decode_text "type" s;
    receipt ← decode_text "type" r;
    named ← decode_text "toolCallId" r;
    Some (descriptor, receipt, named) in
  bool_decide (decoded = Some ("MESSAGES_SNAPSHOT", "TOOL_CALL_RESULT", call)).
Definition ReconcileApprovalReceipt (nativeTurn call : string) (snapshot result : option WireEvent) (t : Translator) :
    option ((list Event + string) * Translator) :=
  if done t || bool_decide (nativeTurn = "" \/ nativeTurnID t <> nativeTurn \/ tools t !! call = None)
  then Some (inr "approval receipt requires the registered native turn and tool", t)
  else if negb (HasPrefix call ("agui.tool/" +:+ PathEscape nativeTurn +:+ "/"))
  then Some (inr "approval receipt tool belongs to another native turn", t)
  else
    match snapshot, result with
    | Some snapshot, Some result =>
        match EncodeEvent snapshot, EncodeEvent result with
        | inr err, _ | inl _, inr err => Some (inr err, t)
        | inl snapshot, inl result =>
            if negb (receipt_identity call snapshot result) then Some (inr "approval receipt event identity mismatch", t)
            else
              match StandardEvent (Some snapshot), StandardEvent (Some result) with
              | None, _ => Some (inr (invalid (Some snapshot)), t)
              | Some _, None => Some (inr (invalid (Some result)), t)
              | Some descriptor, Some receipt =>
                  let '(out, t) := Start t in
                  let events := out ++ [descriptor; receipt] in
                  t ← capture events t;
                  match historyErr t with Some err => Some (inr err, t) | None => Some (inl events, t) end
              end
        end
    | _, _ => Some (inr "approval receipt events are required", t)
    end.
End Bridge.
