(* ===== verification/AguiBridgeProps.v ===== *)
(** * What crosses the bridge

    The guard of the bridge keeps the ancestry of a run to the server: what an
    untrusted event can add to the subagents of the run, and the events whose
    metadata it cannot decode, which it lets pass. *)
From stdpp Require Import base gmap strings list.
From Stdlib Require Import ZArith Ascii.
From S2P Require Import Prelude GoStrings GoJson CanonicalNumber JsonValue JsonCodec AguiPatch AguiProjection AguiProps AguiDemo AguiLife.
From S2P Require Import AguiNative AguiTranslator AguiTranslate AguiTranslateDemo AguiLanes AguiBridge.

Open Scope Z_scope.

Notation Object := (list (string * json)) (only parsing).

(** ** Decoded members *)
Lemma get_members k (o : Object) v : get k o = Some v -> v ∈ members k o.
Proof.
  intros H. apply get_elem in H. unfold members. apply list_elem_of_fmap. exists (k, v). split; [done|].
  apply list_elem_of_filter. split; [apply EqualFold_refl|done].
Qed.

Lemma decode_struct_from vs os0 os :
  fold_option struct_value os0 vs = Some os -> forall o, o ∈ os0 \/ JObject o ∈ vs -> o ∈ os.
Proof.
  revert os0. induction vs as [|v vs IH]; intros os0 E o Ho; simpl in E; [injection E as <-; set_solver|].
  destruct (struct_value os0 v) as [os1|] eqn:E1; [|done]. apply (IH os1 E). unfold struct_value in E1. destruct v; try done; injection E1 as <-.
  - destruct Ho as [Ho|[Ho|Ho]%elem_of_cons]; [by left|done|by right].
  - destruct Ho as [Ho|[Ho|Ho]%elem_of_cons]; [left; set_solver|injection Ho as ->; left; set_solver|by right].
Qed.
Lemma decode_struct_in vs os o : decode_struct vs = Some os -> JObject o ∈ vs -> o ∈ os.
Proof. intros E Ho. eapply decode_struct_from; [exact E|by right]. Qed.

(** An event that declares no invocation has none where the capture reads it. *)
Definition event_invocation (w : Object) : Object :=
  object_or_empty (get "invocation" (object_or_empty (get "agently" (object_or_empty (get "metadata" w))))).
Lemma nothing_declared w : declared_invocations w = Some [] -> event_invocation w = [].
Proof.
  unfold declared_invocations, event_invocation. destruct (decode_struct (members "metadata" w)) as [ms|] eqn:Em; [|done].
  cbn [mbind option_bind]. destruct (decode_struct (mjoin _)) as [ags|] eqn:Ea; [|done]. cbn [mbind option_bind]. intros [= Ei].
  assert (forall k o, object_or_empty (get k o) = [] \/ exists o', get k o = Some (JObject o') /\ object_or_empty (get k o) = o') as Hoe.
  { intros k o. destruct (get k o) as [[]|]; simpl; eauto. }
  destruct (Hoe "metadata" w) as [-> |(m & E1 & ->)]; [done|]. destruct (Hoe "agently" m) as [-> |(a & E2 & ->)]; [done|].
  assert (m ∈ ms) as Hm by (eapply decode_struct_in; [exact Em|by apply get_members]).
  assert (a ∈ ags) as Ha.
  { eapply decode_struct_in; [exact Ea|]. apply list_elem_of_join. exists (members "agently" m). split; [by apply get_members|].
    apply list_elem_of_fmap. by exists m. }
  destruct (get "invocation" a) as [v|] eqn:E3; [|done].
  exfalso. assert (v ∈ mjoin (members "invocation" <$> ags)) as Hv; [|rewrite Ei in Hv; by apply not_elem_of_nil in Hv].
  apply list_elem_of_join. exists (members "invocation" a). split; [by apply get_members|]. apply list_elem_of_fmap. by exists a.
Qed.

(** ** The subagents of a run *)
Lemma foldl_children {A} (f : Translator -> A -> Translator) l t : (forall t a, children (f t a) = children t) -> children (foldl f t l) = children t.
Proof. intros Hf. revert t. induction l as [|a l IH]; intros t; [done|]. simpl. by rewrite IH, Hf. Qed.

Definition same_children (t : Translator) (o : outcome) : Prop :=
  match o with Captured t' | CaptureError t' _ => children t' = children t | Panic => True end.
Lemma reported_children t r : children r.1 = children t -> same_children t (reported r).
Proof. by destruct r as [t' [e|]]. Qed.

Lemma appendToolArguments_children p id d t t0 :
  children t = children t0 -> same_children t0 (checked (appendToolArguments p id d t)).
Proof. unfold appendToolArguments. intros E. by destruct (message p (messages t)). Qed.

Section Children.
Context (decode_error : string) (apply_patch : json -> json -> json + string).

Lemma capture_tool_children chunk w t : same_children t (capture_tool chunk w t).
Proof.
  unfold capture_tool. destruct (chunk && _); [done|]. cbv zeta.
  set (call := if chunk && _ then _ else _). set (t0 := if chunk then _ else t). assert (children t0 = children t) as E0 by (unfold t0; clearbody call; by destruct chunk).
  set (parentID := first_set _). set (m := mergeEventMetadata _ w). set (t1 := match tools t0 !! call with Some _ => _ | None => _ end).
  assert (children t1 = children t) as E1 by (unfold t1; clearbody m parentID; destruct (tools t0 !! call); exact E0).
  clearbody t1.
  destruct chunk; [|exact E1]. by apply appendToolArguments_children.
Qed.

Lemma capture_snapshot_children w t : children (capture_snapshot decode_error w t).1 = children t.
Proof.
  unfold capture_snapshot. destruct (objects_of _) as [ms|]; [|done]. unfold refreshHistoricalTools.
  destruct (historicalToolStates ms); [|done]. cbn [mbind option_bind fst]. rewrite foldl_children; [done|]. intros u x.
  unfold snapshot_message. cbv zeta. destruct (is_role "reasoning" x); (destruct (assistant x); [|done]); unfold snapshot_calls; simpl;
    (rewrite foldl_children; [done|]); intros ? []; done.
Qed.

Lemma capture_message_children boundary w t :
  (event_type (field w "type") = Some CUSTOM -> field w "name" <> "agently.invocation") ->
  same_children t (capture_message decode_error apply_patch boundary w t).
Proof.
  intros Hc. unfold capture_message.
  assert (forall r, children (capture_chunk r boundary w t).1 = children t) as Hk.
  { intros r. unfold capture_chunk. case_bool_decide; [by destruct r|]. cbv zeta. destruct boundary, r; try done; simpl;
      unfold open_text, open_reasoning; simpl; by destruct (_ !! _). }
  case_bool_decide; [apply reported_children, Hk|]. case_bool_decide; [apply reported_children, Hk|]. case_bool_decide; [apply capture_tool_children|].
  destruct (event_type (field w "type")) as [[]|] eqn:Et; try done.
  - apply reported_children. unfold capture_content. by destruct (message _ _).
  - apply reported_children. unfold capture_content. by destruct (message _ _).
  - apply capture_tool_children.
  - destruct (tools t !! _); [|done]. by apply appendToolArguments_children.
  - apply reported_children, capture_snapshot_children.
  - simpl. unfold capture_activity. by case_bool_decide.
  - apply reported_children. unfold capture_activity_delta. destruct (message _ _); [|done]. by destruct (apply_patch _ _).
  - apply reported_children. unfold capture_encrypted. case_bool_decide; [|by destruct (message _ _)]. simpl. apply foldl_children.
    intros u m. by destruct (get "toolCalls" m) as [[]|].
  - rewrite bool_decide_false by (by apply Hc). simpl. case_bool_decide; [|done]. unfold capture_usage. case_bool_decide; [done|].
    by destruct (reported_usage _) as [[]|].
Qed.
End Children.

(** A subagent the runtime never registered: an identifier and a name, and no
    conversation, turn or parent. *)
Definition unregistered (inv : Invocation) : Prop := inv = mkInvocation false "" (InvocationID inv) "" "" (Name inv) "" "" "" "" "" "".

(** Every subagent that was there is there, with the registration it had and the
    translation of its events as it was; one that is new has no ancestry. *)
Record keeps_ancestry (t t' : Translator) : Prop := mkKeeps {
  kept_children id s : get id (children t) = Some s ->
    exists s', get id (children t') = Some s' /\ invocation s' = invocation s /\ translator s' = translator s;
  new_children id s' : get id (children t') = Some s' -> get id (children t) = None -> unregistered (invocation s')
}.

Lemma ancestry_same t t' : children t' = children t -> keeps_ancestry t t'.
Proof. intros E. split; intros id s; rewrite E; [by exists s|congruence]. Qed.
Lemma ancestry_trans t t' t'' : keeps_ancestry t t' -> keeps_ancestry t' t'' -> keeps_ancestry t t''.
Proof.
  intros [K1 N1] [K2 N2]. split.
  - intros id s Hs. destruct (K1 id s Hs) as (s1 & H1 & <- & <-). by apply K2.
  - intros id s Hs Hn. destruct (get id (children t')) as [s1|] eqn:E1; [|by apply (N2 id s)].
    destruct (K2 id s1 E1) as (s2 & H2 & E2 & _). assert (s = s2) as -> by congruence. rewrite E2. by apply (N1 id s1).
Qed.

Lemma update_child_keeps id f t :
  (forall s, invocation (f s) = invocation s /\ translator (f s) = translator s) -> keeps_ancestry t (update_child id f t).
Proof.
  intros Hf. unfold update_child. destruct (get id (children t)) as [s|] eqn:E; [|by apply ancestry_same]. split; intros x s' Hs; simpl.
  - rewrite get_put. destruct (decide (x = id)) as [->|]; [|by exists s']. rewrite E in Hs. injection Hs as <-. exists (f s). by destruct (Hf s).
  - simpl in Hs. rewrite get_put in Hs. destruct (decide (x = id)) as [->|]; congruence.
Qed.

Lemma subagent_keeps inv t : unregistered inv -> keeps_ancestry t (subagent inv t).2.
Proof.
  intros Hu. unfold subagent. destruct (get (InvocationID inv) (children t)) eqn:E; [by apply ancestry_same|]. split; intros x s' Hs; simpl.
  - rewrite get_put. destruct (decide (x = InvocationID inv)) as [->|]; [congruence|by exists s'].
  - simpl in Hs. rewrite get_put in Hs. destruct (decide _); [by injection Hs as <-|congruence].
Qed.

Lemma capture_boundary_keeps w t : event_invocation w = [] -> keeps_ancestry t (capture_boundary w t).1.
Proof.
  intros Hw. unfold capture_boundary. destruct (event_type (field w "type")) as [[]|] eqn:Et; try by apply ancestry_same.
  - unfold capture_run_started. case_bool_decide; [by apply ancestry_same|]. cbv zeta. case_bool_decide; by apply ancestry_same.
  - apply ancestry_same. cbn [fst]. unfold open_text. by destruct (texts t !! _).
  - apply ancestry_same. cbn [fst]. unfold open_reasoning. by destruct (reasonings t !! _).
  - apply ancestry_same. cbn [fst]. unfold capture_step_started. cbv zeta. case_bool_decide; by destruct (steps t !! _).
  - apply ancestry_same. cbn [fst]. unfold capture_step_finished. cbv zeta. case_bool_decide; by case_bool_decide.
  - unfold capture_subagent_started. fold (event_invocation w). rewrite Hw. cbv zeta. rewrite bool_decide_false by (intros H; by apply H).
    cbn [fst]. eapply ancestry_trans; [|by apply update_child_keeps]. by apply subagent_keeps.
  - by apply update_child_keeps.
  - by apply update_child_keeps.
Qed.

(** ** What closing a run leaves alone *)
Section Frame.
Context (range : gset string -> list string).

Lemma Start_children t : children (Start t).2 = children t /\ historyErr (Start t).2 = historyErr t /\ done (Start t).2 = done t.
Proof. unfold Start. by destruct (_ || _). Qed.

Lemma close_spans_children spans t : children (close_spans spans t).2 = children t.
Proof.
  revert t. induction spans as [|sp spans IH]; intros t; [done|]. simpl. unfold close_span. destruct (_ && _).
  - specialize (IH (set_reasoningSpans (<[sp := false]> (reasoningSpans t)) t)). by destruct (close_spans spans _).
  - specialize (IH t). by destruct (close_spans spans t).
Qed.

Lemma closeOpen_children t : children (closeOpen range t).2 = children t.
Proof.
  unfold closeOpen, closeReasoning. destruct (close_all reasoning_ended _ _ _ _) as [e1 m1].
  match goal with |- context [close_spans ?l ?u] => pose proof (close_spans_children l u) as H; destruct (close_spans l u) as [e2 t2] end.
  destruct (close_all text_ended _ _ _ _), (close_all tool_ended _ _ _ _). unfold closeSteps. by destruct (close_all step_ended _ _ _ _).
Qed.

Lemma Fail_children message code t : children (Fail_run range message code t).2 = children t.
Proof.
  unfold Fail_run. destruct (done t); [done|]. destruct (Start_children t) as [<- _]. destruct (Start t) as [e1 t1].
  pose proof (closeOpen_children t1) as H. by destruct (closeOpen range t1).
Qed.
End Frame.

(** ** The guard *)
Section Guard.
Context (range : gset string -> list string).
Context (ValidateEvent : json -> bool) (decode_error : string) (apply_patch : json -> json -> json + string) (invalid : option json -> string).
Notation capture := (capture decode_error apply_patch).
Notation capture_event := (capture_event decode_error apply_patch).
Notation bridged := (bridged ValidateEvent invalid).
Notation translate_protocol := (translate_protocol range ValidateEvent decode_error apply_patch invalid).

(** The schema of an event is closed: its type and its name are those members
    alone. *)
Definition closed_schema : Prop :=
  forall w k, ValidateEvent (JObject w) = true -> k ∈ ["type"; "name"] -> decode_text k w = Some (field w k).

Lemma bridged_event trusted raw ev :
  bridged trusted raw = inl ev -> exists w, raw = Some (JObject w) /\ ev = mkEvent w true false /\ ValidateEvent (JObject w) = true
                                            /\ reservedInvocationEvent raw = false.
Proof.
  unfold AguiBridge.bridged. destruct (_ && _); [done|]. destruct (reservedInvocationEvent raw); [done|].
  unfold StandardEvent. destruct raw as [v|]; [|done]. cbn [mbind option_bind]. destruct (ValidateEvent v) eqn:Ev; [|done].
  destruct v; try done. cbn [object mbind option_bind]. case_bool_decide; [done|]. intros [= <-]. eauto.
Qed.

Lemma not_invocation w :
  closed_schema -> ValidateEvent (JObject w) = true -> reservedInvocationEvent (Some (JObject w)) = false ->
  invocation_header (Some (JObject w)) <> None ->
  event_invocation w = [] /\ (event_type (field w "type") = Some CUSTOM -> field w "name" <> "agently.invocation").
Proof.
  intros Hc Hv Hr Hh. unfold reservedInvocationEvent in Hr. unfold invocation_header in *. cbn [mbind option_bind struct_of] in *.
  rewrite (Hc w "type" Hv), (Hc w "name" Hv) in Hr, Hh by set_solver. cbn [mbind option_bind] in *.
  destruct (declared_invocations w) as [invs|] eqn:Ed; [|done]. cbn [mbind option_bind] in *. apply orb_false_iff in Hr as [H1 H2].
  apply bool_decide_eq_false in H1. apply bool_decide_eq_false in H2. split.
  - apply nothing_declared. rewrite Ed. destruct invs; [done|]. by destruct H2.
  - intros Et Hn. apply H1. split; [|done]. apply get_In in Et. by repeat (destruct Et as [Et|Et]; [congruence|]).
Qed.

Lemma capture_event_keeps w t t' :
  event_invocation w = [] -> (event_type (field w "type") = Some CUSTOM -> field w "name" <> "agently.invocation") ->
  capture_event (mkEvent w true false) t = Some t' -> keeps_ancestry t t'.
Proof.
  intros Hw Hc. unfold AguiTranslator.capture_event, captureStandard. cbn [standard applied wire negb].
  pose proof (capture_boundary_keeps w t Hw) as Hb. destruct (capture_boundary w t) as [t1 [err|]]; cbn [fst] in Hb.
  - intros [= <-]. eapply ancestry_trans; [exact Hb|]. apply ancestry_same. by destruct (historyErr t1).
  - pose proof (capture_message_children decode_error apply_patch true w t1 Hc) as Hm.
    destruct (capture_message _ _ _ _ _) as [t2|t2 err|]; [| |done]; intros [= <-]; (eapply ancestry_trans; [exact Hb|]); apply ancestry_same; [done|].
    by destruct (historyErr t2).
Qed.

(** The rendered content beside an event. *)
Lemma capture_rendered e t :
  exists t', capture (rendered false e) t = Some t' /\ children t' = children t /\ historyErr t' = historyErr t /\ done t' = done t.
Proof.
  assert (forall kind id c, exists t', capture [activity kind id c []] t = Some t' /\ children t' = children t /\ historyErr t' = historyErr t
                                       /\ done t' = done t) as H.
  { intros kind id c. unfold AguiTranslator.capture. cbn [fold_option mbind option_bind]. unfold AguiTranslator.capture_event, captureStandard, activity.
    cbn [standard applied standardEvent negb]. unfold capture_message.
    assert (field (wire (standardEvent [str "type" "ACTIVITY_SNAPSHOT"; str "messageId" id; str "activityType" kind; ("content", c)])) "type"
            = "ACTIVITY_SNAPSHOT") as E by by rewrite field_standard by keys.
    cbn [standardEvent wire app] in *. rewrite E. cbn [mbind option_bind].
    replace (event_type "ACTIVITY_SNAPSHOT") with (Some ACTIVITY_SNAPSHOT) by done. do 3 (rewrite bool_decide_false by done).
    eexists. split; [done|]. unfold capture_activity. by case_bool_decide. }
  unfold rendered. case_bool_decide; [by exists t|]. destruct (RenderedContent e); [apply H|]. destruct (FeedData e); [|by exists t].
  destruct (_ || _); [by exists t|apply H].
Qed.

(** The translator an event is bridged in. *)
Definition bridge_seen (e : NativeEvent) (t : Translator) : Translator :=
  if bool_decide (0 < EventSeq e) then set_seen ({[EventSeq e]} ∪ seen t) t else t.
Definition bridge_internal (e : NativeEvent) (t : Translator) : Translator :=
  let id := first_set [AssistantMessageID e; MessageID e] in
  if IsInternalMessageMode (Mode e) && bool_decide (id <> "") then set_internalMessages ({[id]} ∪ internalMessages t) t else t.
Definition bridging (e : NativeEvent) (t : Translator) : Translator := bridge_internal e (Start (bridge_seen e t)).2.

Lemma bridging_keeps e t :
  children (bridging e t) = children t /\ historyErr (bridging e t) = historyErr t /\ done (bridging e t) = done t
  /\ forall inv, validateInvocation inv (bridging e t) = validateInvocation inv t.
Proof.
  unfold bridging, bridge_internal, bridge_seen, Start. cbv zeta. destruct (_ && _), (bool_decide (0 < EventSeq e)), (_ || _); done.
Qed.

(** C12: the ancestry of a run belongs to the server. Whatever an event of a
    producer says, and whether it is trusted or not, when its header decodes:
    every subagent of the run is still there with the conversation, the turn,
    the parent and the name it was registered with, and with its events
    translated as far as they were; and a subagent the event adds has an
    identifier and a name but no conversation, no turn and no parent. (That a
    subagent is started or finished, an event may say.) *)
Theorem guarded_ancestry trusted e raw t out t' :
  closed_schema -> invocation_header raw <> None -> translate_protocol trusted e raw t = Some (out, t') -> keeps_ancestry t t'.
Proof.
  intros Hc Hh. unfold AguiBridge.translate_protocol. destruct (done t); [intros [= _ <-]; by apply ancestry_same|].
  case_bool_decide as Hseen; [intros [= _ <-]; by apply ancestry_same|]. fold (bridge_seen e t). destruct (bridging_keeps e t) as [Hk _].
  unfold bridging in Hk. destruct (Start (bridge_seen e t)) as [start u0]. cbn [snd] in Hk. cbv zeta. fold (bridge_internal e u0). set (u := bridge_internal e u0) in *.
  destruct (bridged trusted raw) as [ev|message] eqn:Eb.
  - apply bridged_event in Eb as (w & -> & -> & Hv & Hr). destruct (not_invocation w Hc Hv Hr Hh) as [Hw Hn].
    unfold AguiTranslator.capture. cbn [fold_option]. destruct (capture_event (mkEvent w true false) u) as [u1|] eqn:E1; [|done].
    apply capture_event_keeps in E1; [|done..]. cbn [mbind option_bind]. destruct (capture_rendered e u1) as (u2 & E2 & Hk2 & _).
    unfold AguiTranslator.capture in E2. rewrite E2. cbn [mbind option_bind].
    assert (keeps_ancestry t u2) as Ht.
    { eapply ancestry_trans; [apply ancestry_same; exact Hk|]. eapply ancestry_trans; [exact E1|by apply ancestry_same]. }
    destruct (historyErr u2) as [err|]; [|by intros [= _ <-]]. pose proof (Fail_children range err "INVALID_NATIVE_SOURCE" u2) as Hf.
    destruct (Fail_run range err _ u2) as [evs u3]. intros [= _ <-]. eapply ancestry_trans; [exact Ht|by apply ancestry_same].
  - pose proof (Fail_children range message "INVALID_PROTOCOL_EVENT" u) as Hf. destruct (Fail_run range message _ u) as [evs u1].
    intros [= _ <-]. apply ancestry_same. simpl in Hf. congruence.
Qed.

(** A registration as the server writes it, and the same with metadata of which
    the header of the guard does not decode. *)
Definition checkpoint (inv : Object) : list (string * json) :=
  [str "type" "CUSTOM"; str "name" "agently.invocation"; ("value", obj [str "version" "1"; str "phase" "registered"; ("invocation", JObject inv)])].
Definition forged (inv : Object) : list (string * json) := checkpoint inv ++ [("metadata", obj [str "agently" "x"])].

(** C36: the guard of the ancestry is passed by an event it cannot decode. A
    producer that copies a registration is refused; with an [agently] of another
    type in the open metadata of the event the same registration goes through,
    the run goes on, and the invocation is one of the run's, with the
    conversation, the turn and the parent the producer chose. *)
Theorem forged_ancestry e o inv t :
  typed_invocation o = Some inv -> validateInvocation inv t = None -> done t = false -> historyErr t = None ->
  ~ (0 < EventSeq e /\ EventSeq e ∈ seen t) -> ValidateEvent (JObject (forged o)) = true ->
  (exists why, bridged false (Some (JObject (checkpoint o))) = inr why)
  /\ exists out t' s, translate_protocol false e (Some (JObject (forged o))) t = Some (out, t') /\ done t' = false
       /\ get (InvocationID inv) (children t') = Some s /\ invocation s = inv.
Proof.
  intros Ho Hi Hd Hn Hs Hv. split; [by eexists|].
  assert (bridged false (Some (JObject (forged o))) = inl (mkEvent (forged o) true false)) as Eb.
  { unfold AguiBridge.bridged. replace (reservedNativePresentationEvent _) with false by done. replace (reservedInvocationEvent _) with false by done.
    cbn [negb andb]. unfold StandardEvent. cbn [mbind option_bind]. by rewrite Hv. }
  unfold AguiBridge.translate_protocol. rewrite Hd. rewrite bool_decide_false by done. fold (bridge_seen e t).
  destruct (bridging_keeps e t) as (Hk & Hh & Hdd & Hval). unfold bridging in *. destruct (Start (bridge_seen e t)) as [start u0]. cbn [snd] in *. cbv zeta.
  fold (bridge_internal e u0). set (u := bridge_internal e u0) in *. rewrite Eb.
  assert (capture_event (mkEvent (forged o) true false) u = Some (subagent inv u).2) as E1.
  { unfold AguiTranslator.capture_event, captureStandard. cbn [standard applied wire negb].
    change (capture_boundary (forged o) u) with (u, @None string). cbv iota beta.
    change (capture_message decode_error apply_patch true (forged o) u)
      with (match capture_invocation decode_error (forged o) u with (t, Some err) => CaptureError t err | (t, None) => Captured t end).
    change (capture_invocation decode_error (forged o) u) with
      (match typed_invocation o with
       | Some inv => match validateInvocation inv u with Some err => (u, Some err) | None => ((subagent inv u).2, None) end
       | None => (u, Some decode_error) end).
    by rewrite Ho, Hval, Hi. }
  unfold AguiTranslator.capture. cbn [fold_option]. rewrite E1. cbn [mbind option_bind].
  destruct (capture_rendered e (subagent inv u).2) as (u2 & E2 & Hk2 & Hh2 & Hd2). unfold AguiTranslator.capture in E2. rewrite E2. cbn [mbind option_bind].
  assert (historyErr (subagent inv u).2 = None /\ done (subagent inv u).2 = false) as [Hsh Hsd].
  { unfold subagent. destruct (get _ (children u)); simpl; split; congruence. }
  rewrite Hh2, Hsh. eexists _, u2, (subagent inv u).1. split; [done|]. split; [congruence|]. rewrite Hk2.
  specialize (Hval inv). rewrite Hi in Hval. unfold validateInvocation in Hval. destruct (_ || Detached inv); [done|].
  unfold subagent. destruct (get (InvocationID inv) (children u)) as [prior|] eqn:Ep.
  - split; [done|]. case_bool_decide as Hp; [done|]. simpl. destruct (decide (invocation prior = inv)); [done|]. by destruct Hp.
  - split; [|done]. cbn [fst snd children set_children]. apply get_put_eq.
Qed.
End Guard.

(** ** Concrete events *)
Definition closed_event (v : json) : bool :=
  match v with JObject w => forallb (fun k => bool_decide (decode_text k w = Some (field w k))) ["type"; "name"] | _ => false end.
Lemma closed_event_schema : closed_schema closed_event.
Proof.
  intros w k Hv Hk. unfold closed_event in Hv. rewrite forallb_forall in Hv. apply list_elem_of_In in Hk. apply Hv in Hk.
  by apply bool_decide_eq_true in Hk.
Qed.
Definition invalid_text (_ : option json) : string := "invalid".
Definition bridge_demo : bool -> NativeEvent -> option json -> Translator -> option (list (Event * Object) * Translator) :=
  translate_protocol by_elements closed_event "json" no_patch invalid_text.

Definition announced : list (string * json) := [str "type" "SUBAGENT_STARTED"; str "subagentRunId" "child"; str "name" "helper"].
Definition native_run : Translator := set_nativeTurnID "turn" (NewTranslator "thread" "run").
Definition foreign : list (string * json) :=
  [str "id" "child"; str "conversationId" "other"; str "turnId" "other-turn"; str "name" "helper";
   str "parentConversationId" "thread"; str "parentTurnId" "turn"].
Definition foreign_invocation : Invocation := mkInvocation false "" "child" "other" "other-turn" "helper" "" "thread" "turn" "" "" "".


(** A producer announces a subagent the server has registered: it starts, under
    its registration. *)
Definition registered_run : Translator := (subagent foreign_invocation native_run).2.
Lemma guarded_ancestry_witness :
  exists out t' s, bridge_demo false (ends EventTypeControl) (Some (JObject announced)) registered_run = Some (out, t')
    /\ get "child" (children t') = Some s /\ child_started s = true /\ invocation s = foreign_invocation.
Proof.
  assert (option_map (fun r => child_started <$> get "child" (children r.2))
            (bridge_demo false (ends EventTypeControl) (Some (JObject announced)) registered_run) = Some (Some true)) as Hc by (vm_compute; reflexivity).
  destruct (bridge_demo false (ends EventTypeControl) (Some (JObject announced)) registered_run) as [[out t']|] eqn:E; [|discriminate].
  injection Hc as Hc. simpl in Hc. destruct (kept_children registered_run t'
    (guarded_ancestry by_elements closed_event "json" no_patch invalid_text false (ends EventTypeControl) (Some (JObject announced)) registered_run out t'
       closed_event_schema ltac:(vm_compute; discriminate) E) "child" (subagent foreign_invocation native_run).1 ltac:(vm_compute; reflexivity))
    as (s & Hs & Hi & _).
  exists out, t', s. split; [reflexivity|]. split; [exact Hs|]. split; [|exact Hi]. rewrite Hs in Hc. by injection Hc.
Defined.

Lemma forged_ancestry_witness :
  exists out t' s, bridge_demo false (ends EventTypeControl) (Some (JObject (forged foreign))) native_run = Some (out, t')
    /\ done t' = false /\ get "child" (children t') = Some s /\ invocation s = foreign_invocation.
Proof.
  apply (forged_ancestry by_elements closed_event "json" no_patch invalid_text (ends EventTypeControl) foreign foreign_invocation native_run);
    [reflexivity|reflexivity|reflexivity|reflexivity|vm_compute; intros [H _]; discriminate|vm_compute; reflexivity].
Defined.
