(* ===== verification/AguiDropped.v ===== *)
(** * A snapshot that drops a call

    A producer may publish a snapshot of the messages; the arguments that follow
    for a call whose message it left out are written to a nil map. *)
From stdpp Require Import base gmap strings list.
From Stdlib Require Import ZArith Ascii.
From S2P Require Import Prelude GoStrings GoJson CanonicalNumber JsonValue JsonCodec AguiPatch AguiProjection AguiProps AguiLife AguiDemo.
From S2P Require Import AguiNative AguiTranslator AguiTranslate AguiTranslateDemo AguiLanes AguiCapture AguiBridge AguiBridgeProps.

Open Scope Z_scope.

Section Dropped.
Context (range : gset string -> list string).
Context (ValidateEvent : json -> bool) (decode_error : string) (apply_patch : json -> json -> json + string) (invalid : option json -> string).
Notation translate_protocol := (translate_protocol range ValidateEvent decode_error apply_patch invalid).

Definition no_messages : list (string * json) := [str "type" "MESSAGES_SNAPSHOT"; ("messages", JArray [])].
Definition more_arguments (call delta : string) : list (string * json) :=
  [str "type" "TOOL_CALL_ARGS"; str "toolCallId" call; str "delta" delta].

(** An event that is not numbered and has no rendered content. *)
Definition bare_event (e : NativeEvent) : Prop := EventSeq e = 0 /\ rendered false e = [].

Lemma bare_bridging e t : bare_event e -> done t = false ->
  exists start u, Start t = (start, u) /\ tools (bridge_internal e u) = tools t /\ toolOrder (bridge_internal e u) = toolOrder t
    /\ messages (bridge_internal e u) = messages t /\ historyErr (bridge_internal e u) = historyErr t /\ done (bridge_internal e u) = false
    /\ forall trusted raw, translate_protocol trusted e raw t =
         match bridged ValidateEvent invalid trusted raw with
         | inr message => let '(evs, t) := Fail_run range message "INVALID_PROTOCOL_EVENT" (bridge_internal e u) in Some (sent <$> start ++ evs, t)
         | inl ev =>
             t ← capture_event decode_error apply_patch ev (bridge_internal e u);
             match historyErr t with
             | Some err => let '(evs, t) := Fail_run range err "INVALID_NATIVE_SOURCE" t in Some (sent <$> start ++ evs, t)
             | None => Some ((sent <$> start) ++ [sent_at ValidateEvent e ev], t)
             end
         end.
Proof.
  intros [He Hr] Hd. destruct (Start t) as [start u] eqn:Es. exists start, u. split; [done|].
  assert (tools u = tools t /\ toolOrder u = toolOrder t /\ messages u = messages t /\ historyErr u = historyErr t /\ done u = false) as (H1 & H2 & H3 & H4 & H5).
  { unfold Start in Es. destruct (_ || _); by injection Es as _ <-. }
  split; [by rewrite <- H1; unfold bridge_internal; cbv zeta; destruct (_ && _)|]. split; [by rewrite <- H2; unfold bridge_internal; cbv zeta; destruct (_ && _)|].
  split; [by rewrite <- H3; unfold bridge_internal; cbv zeta; destruct (_ && _)|]. split; [by rewrite <- H4; unfold bridge_internal; cbv zeta; destruct (_ && _)|].
  split; [by rewrite <- H5; unfold bridge_internal; cbv zeta; destruct (_ && _)|].
  intros trusted raw. unfold AguiBridge.translate_protocol. rewrite Hd, He. rewrite bool_decide_false by lia. rewrite (bool_decide_false (0 < 0)) by lia.
  rewrite Es. cbv zeta. fold (bridge_internal e u). destruct (bridged _ _ _ _) as [ev|]; [|done]. rewrite Hr. unfold capture. cbn [fold_option].
  by destruct (capture_event _ _ ev _) as [t1|].
Qed.

Lemma snapshot_captured t call s :
  tools t !! call = Some s -> call ∈ toolOrder t -> historyErr t = None ->
  exists t', capture_event decode_error apply_patch (mkEvent no_messages true false) t = Some t' /\ messages t' = [] /\ is_Some (tools t' !! call)
    /\ historyErr t' = None /\ done t' = done t.
Proof.
  intros Hs Ho Hn. unfold capture_event, captureStandard. cbn [standard applied wire negb].
  change (capture_boundary no_messages t) with (t, @None string). cbv iota beta.
  change (capture_message decode_error apply_patch true no_messages t) with (reported (capture_snapshot decode_error no_messages t)).
  change (capture_snapshot decode_error no_messages t) with
    (let t := set_messages [] t in match refreshHistoricalTools [] t with None => (t, Some decode_error) | Some t => (t, None) end). cbv zeta.
  destruct (refreshHistoricalTools [] (set_messages [] t)) as [t1|] eqn:E; [|done]. exists t1. split; [done|].
  destruct (s_tools _ _ (refresh_similar [] _ _ E) call s Hs Ho) as (s' & Hs' & _). injection E as <-. split; [done|]. split; [by exists s'|done].
Qed.

Lemma arguments_panic t call delta :
  messages t = [] -> is_Some (tools t !! call) ->
  capture_event decode_error apply_patch (mkEvent (more_arguments call delta) true false) t = None.
Proof.
  intros Hm [s Hs]. unfold capture_event, captureStandard. cbn [standard applied wire negb].
  change (capture_boundary (more_arguments call delta) t) with (set_tools (alter (fun s => set_args (args s +:+ delta) s) call (tools t)) t, @None string).
  cbv iota beta. set (t1 := set_tools _ t).
  change (capture_message decode_error apply_patch true (more_arguments call delta) t1) with
    (match tools t1 !! call with Some s => checked (appendToolArguments (parent s) call delta t1) | None => Captured t1 end).
  unfold t1 at 1. cbn [tools set_tools]. rewrite lookup_alter_eq, Hs. cbn [fmap option_fmap option_map]. unfold appendToolArguments.
  change (messages t1) with (messages t). by rewrite Hm.
Qed.

(** a snapshot that drops a call crashes the run. While a call of the run is
    open a producer may publish a snapshot of the messages without the message of
    the call: it is accepted and the run goes on. Whatever the native event that
    carries it, more arguments for the call are then a write to the nil map of
    the message that is not there, a panic. *)
Lemma dropped_call e t call s :
  bare_event e -> done t = false -> historyErr t = None -> tools t !! call = Some s -> call ∈ toolOrder t ->
  ValidateEvent (JObject no_messages) = true ->
  exists out t', translate_protocol false e (Some (JObject no_messages)) t = Some (out, t') /\ done t' = false
    /\ forall e' delta, bare_event e' -> ValidateEvent (JObject (more_arguments call delta)) = true ->
        translate_protocol false e' (Some (JObject (more_arguments call delta))) t' = None.
Proof.
  intros He Hd Hn Hs Ho Hv. assert (forall w, w = no_messages \/ (exists delta, w = more_arguments call delta) -> ValidateEvent (JObject w) = true ->
    bridged ValidateEvent invalid false (Some (JObject w)) = inl (mkEvent w true false)) as Hb.
  { intros w Hw Hval. unfold bridged. replace (reservedNativePresentationEvent _) with false by by destruct Hw as [->|[d ->]].
    replace (reservedInvocationEvent _) with false by by destruct Hw as [->|[d ->]]. cbn [negb andb]. unfold StandardEvent. cbn [mbind option_bind].
    rewrite Hval. cbn [object mbind option_bind]. rewrite bool_decide_false; [done|].
    destruct Hw as [->|[d ->]]; change (type_of _) with (field no_messages "type") || change (type_of _) with (field (more_arguments call d) "type");
      apply (bool_decide_unpack _); vm_compute; exact I. }
  destruct (bare_bridging e t He Hd) as (start & u & _ & T & O & _ & N & D & Ht). rewrite Ht, Hb by auto. set (v := bridge_internal e u) in *.
  destruct (snapshot_captured v call s) as (t1 & -> & M1 & T1 & N1 & D1); [congruence..|]. cbn [mbind option_bind]. rewrite N1. eexists _, t1.
  split; [done|]. split; [congruence|]. intros e' delta He' Hv'. assert (done t1 = false) as Hd1 by congruence.
  destruct (bare_bridging e' t1 He' Hd1) as (start' & u' & _ & T' & _ & M' & _ & _ & Ht'). rewrite Ht', Hb by eauto.
  rewrite arguments_panic; [done|congruence|by rewrite T'].
Qed.
End Dropped.

(** The call of a run that has just started it. *)
Definition calling : Translator := match run [starts_tool "one"] fresh with Some (_, t) => t | None => fresh end.

Lemma dropped_call_witness :
  exists out t', bridge_demo false (ends EventTypeControl) (Some (JObject no_messages)) calling = Some (out, t') /\ done t' = false
    /\ bridge_demo false (ends EventTypeControl) (Some (JObject (more_arguments "one" "{}"))) t' = None.
Proof.
  assert (bare_event (ends EventTypeControl)) as Hb by (split; vm_compute; reflexivity).
  destruct (tools calling !! "one") as [s|] eqn:Es; [|vm_compute in Es; discriminate].
  destruct (dropped_call by_elements closed_event "json" no_patch invalid_text (ends EventTypeControl) calling "one" s) as (out & t' & E & Hd & Hp);
    [exact Hb|vm_compute; reflexivity|vm_compute; reflexivity|exact Es|apply (bool_decide_unpack _); vm_compute; exact I|vm_compute; reflexivity|].
  exists out, t'. split; [exact E|]. split; [exact Hd|]. apply (Hp (ends EventTypeControl) "{}" Hb). vm_compute. reflexivity.
Defined.
