(* ===== verification/AguiSubagent.v ===== *)
(** * Subagents

    src/protocol/agui/translator_subagent.go and
    translator_subagent_presentation.go: the invocations a run delegates, the
    translator each of them has, and the attribution of its events in the run.

    The translators of the subagents are a map; the order of its entries here is
    that of their registration, where a Go [range] has any. *)
From stdpp Require Import base gmap strings list.
From Stdlib Require Import ZArith Ascii.
From S2P Require Import Prelude GoStrings GoJson CanonicalNumber JsonValue JsonCodec AguiPatch AguiProjection AguiNative AguiTranslator AguiTranslate AguiBridge.

Open Scope Z_scope.

(** ** Invocations *)

(** The JSON of an invocation, whose zero fields are left out. *)
Definition invocation_json (inv : Invocation) : json :=
  obj ((if Detached inv then [("detached", JBool true)] else [])
       ++ named [str "executionMode" (ExecutionMode inv); str "id" (InvocationID inv); str "conversationId" (InvConversationID inv);
                 str "turnId" (InvTurnID inv); str "name" (Name inv); str "description" (Description inv);
                 str "parentConversationId" (ParentConversationID inv); str "parentTurnId" (ParentTurnID inv);
                 str "parentToolCallId" (ParentToolCallID inv); str "parentMessageId" (InvParentMessageID inv);
                 str "parentInvocationId" (ParentInvocationID inv)]).

(** What a query of an invocation returned; its other fields are not read here. *)
Record InvocationResult := mkInvocationResult {
  ResultInvocation : Invocation;
  NativeStatus : string;
  ResultContent : string;
  ResultError : string
}.

(** [strings.ToUpper] of a status, which is ASCII. *)
Definition upper_byte (c : ascii) : ascii := if in_range 97 122 c then ascii_of_nat (nat_of_ascii c - 32) else c.
Definition ToUpper (s : string) : string := Prelude.text (upper_byte <$> bytes s).

Definition set_translator (c : Translator) (s : subagentState) : subagentState := mkSubagent (invocation s) c (child_started s) (child_done s).

Definition startSubagent (s : subagentState) (t : Translator) : list Event * Translator :=
  if child_started s || child_done s then ([], t)
  else
    let inv := invocation s in
    let parent_call := if bool_decide (ParentToolCallID inv = "") then "" else toolID (ParentTurnID inv) (ParentToolCallID inv) t in
    ([standardEvent ([str "type" "SUBAGENT_STARTED"; str "subagentRunId" (InvocationID inv); str "name" (Name inv);
                      ("metadata", obj [("agently", obj [("invocation", invocation_json inv)])])]
                     ++ named [str "description" (Description inv)]
                     ++ (if bool_decide (ParentToolCallID inv = "") then [] else [str "parentToolCallId" parent_call])
                     ++ named [str "parentMessageId" (InvParentMessageID inv); str "parentSubagentRunId" (ParentInvocationID inv)])],
     update_child (InvocationID inv) start_child t).

Definition subagent_error (id message code : string) : Event :=
  standardEvent [str "type" "SUBAGENT_ERROR"; str "subagentRunId" id; str "message" message; str "code" code].
Definition subagent_finished (id : string) (outcome : option string) : Event :=
  standardEvent ([str "type" "SUBAGENT_FINISHED"; str "subagentRunId" id]
                 ++ match outcome with Some o => [("outcome", obj [str "type" o])] | None => [] end).

Definition queued_subagent (inv : Invocation) : Event :=
  plain_event "CUSTOM" [str "name" "agently.subagent.queue";
                        ("value", obj [str "version" "1"; ("invocation", invocation_json inv); str "status" "queued"])].
Definition linked_run (inv : Invocation) (t : Translator) : Event :=
  plain_event "CUSTOM" [str "name" "agently.linked-run";
                        ("value", obj [str "version" "1"; str "parentRunId" (runID t); ("invocation", invocation_json inv)])].
Definition registration (inv : Invocation) : Event :=
  standardEvent [str "type" "CUSTOM"; str "name" "agently.invocation";
                 ("value", obj [str "version" "1"; str "phase" "registered"; ("invocation", invocation_json inv)])].

(** A snapshot of a subagent: its own messages carry its name. A message that is
    not an object is a nil map, which cannot be written. *)
Definition tag_message (owner : string) (texts : gmap string textState) (v : json) : option json :=
  match v with
  | JObject m => Some (JObject (match texts !! field m "id" with Some _ => put "subagentRunId" (JString owner) m | None => m end))
  | _ => match texts !! "" with Some _ => None | None => Some JNull end
  end.
Definition tag_messages (owner : string) (texts : gmap string textState) (w : Object) : option json :=
  match get "messages" w with
  | Some (JArray l) => JArray <$> mapM (tag_message owner texts) l
  | _ => Some JNull
  end.

(** What becomes of the events of a subagent in the run: the events, or the
    error of one of them; whether the subagent ended before. *)
Inductive attributed := Attributed (evs : list Event) (ended : bool) | Unattributed (err : string) (ended : bool) | AttributionPanic.

Section Subagents.
Context (range : gset string -> list string).
Context (ValidateEvent : json -> bool) (ValidatePresentation : string -> json -> bool).
Context (decode_error : string) (apply_patch : json -> json -> json + string) (invalid : option json -> string).
Context {WireEvent : Type} (EncodeEvent : WireEvent -> json + string).
Notation Fail_run := (Fail_run range).
Notation capture := (capture decode_error apply_patch).
Notation StandardEvent := (StandardEvent ValidateEvent).
Notation translate_any := (translate_any range ValidateEvent ValidatePresentation decode_error apply_patch invalid).

Definition valid_event (w : Object) : Event + string :=
  match StandardEvent (Some (JObject w)) with Some ev => inl ev | None => inr (invalid (Some (JObject w))) end.
Definition attributedEvent (w : Object) (owner : string) : Event + string := valid_event (put "subagentRunId" (JString owner) w).

Fixpoint attribute_all (owner : string) (evs : list Event) : list Event + string :=
  match evs with
  | [] => inl []
  | ev :: evs =>
      match attributedEvent (wire ev) owner with
      | inl ev => match attribute_all owner evs with inl evs => inl (ev :: evs) | inr err => inr err end
      | inr err => inr err
      end
  end.

(** The end of a subagent, as its run ended. *)
Definition subagent_end (e : NativeEvent) (id : string) : Event :=
  if is_type e [EventTypeTurnCanceled] then subagent_error id "Subagent invocation cancelled" "CANCELLED"
  else subagent_finished id (Some (if bool_decide (Status e ∈ ["waiting_for_user"; "pending"]) then "suspended" else "success")).

Fixpoint attribute (e : NativeEvent) (owner : string) (texts : gmap string textState) (evs : list (Event * Object)) (ended : bool) : attributed :=
  match evs with
  | [] => Attributed [] ended
  | (ev, w) :: evs =>
      let next ev' ended :=
        match attribute e owner texts evs ended with
        | Attributed rest ended => Attributed (ev' :: rest) ended
        | r => r
        end in
      let typ := type_of ev in
      if bool_decide (typ = "RUN_STARTED") then attribute e owner texts evs ended
      else if bool_decide (typ = "RUN_FINISHED") then next (subagent_end e owner) true
      else if bool_decide (typ = "RUN_ERROR") then next (subagent_error owner (field w "message") (field w "code")) true
      else if bool_decide (typ = "MESSAGES_SNAPSHOT") then
        match tag_messages owner texts (wire ev) with
        | None => AttributionPanic
        | Some messages =>
            match valid_event (put "messages" messages (wire ev)) with
            | inl snapshot => next snapshot ended
            | inr err => Unattributed err ended
            end
        end
      else
        match attributedEvent w owner with
        | inl ev' => next ev' ended
        | inr err => Unattributed err ended
        end
  end.

Definition child_usage (id : string) (c t : Translator) : Translator :=
  set_usage (map_fold (fun call u usage => <[id +:+ "/" +:+ call := u]> usage) (usage t) (usage c)) t.
Definition end_child (id : string) (ended : bool) (t : Translator) : Translator := if ended then update_child id finish_child t else t.

(** The graph a subagent starts from: the messages of the run. *)
Definition lend_messages (t c : Translator) : Translator := set_seeded (seeded t) (set_messages (messages t) c).

(** The type of an event that is not a protocol event. *)
Definition native_type (e : NativeEvent) (protocol : option (option json)) (ts : list NativeType) : bool :=
  match protocol with None => is_type e ts | Some _ => false end.

Definition translateSubagent (trusted : bool) (inv : Invocation) (e : NativeEvent) (protocol : option (option json)) (t : Translator) :
    option (list Event * Translator) :=
  let id := InvocationID inv in
  if done t || bool_decide (id = "" \/ ConversationID e <> InvConversationID inv \/ TurnID e <> InvTurnID inv) then Some ([], t)
  else if Detached inv then Some ([], t)
  else
    let '(state, t) := subagent inv t in
    if child_done state then Some ([], t)
    else if native_type e protocol [EventTypeTurnQueued] then Some ([queued_subagent inv], t)
    else if native_type e protocol [EventTypeLinkedConversationAttached] then Some ([], t)
    else
      let '(begun, t) := Start t in
      let '(announced, t) := startSubagent state t in
      let output := begun ++ announced in
      let child := lend_messages t (translator state) in
      match (if seeded t then refreshHistoricalTools (messages t) child else Some child) with
      | None =>
          let '(evs, t) := Fail_run decode_error "INVALID_AUTHORITATIVE_HISTORY" (update_child id (set_translator child) t) in
          Some (output ++ evs, t)
      | Some child =>
          '(events, child) ← translate_any trusted e protocol child;
          let t := update_child id (set_translator child) t in
          match attribute e id (texts child) events false with
          | AttributionPanic => None
          | Unattributed err ended => Some (Fail_run err "INVALID_SUBAGENT_EVENT" (end_child id ended t))
          | Attributed evs ended =>
              let t := child_usage id child (end_child id ended t) in
              t ← capture (output ++ evs) t;
              Some (output ++ evs, t)
          end
      end.
Definition TranslateSubagent := translateSubagent false.

(** The recovery of a subagent by the inspector: the event is bridged as the
    protocol event of the invocation's own turn, whose type is not read. *)
Definition protocol_event (conversation turn : string) : NativeEvent :=
  {| EventOf := EventTypeControl; ID := ""; ConversationID := conversation; TurnID := turn; MessageID := ""; EventSeq := 0;
     AgentIDUsed := ""; AgentName := ""; AssistantMessageID := ""; ParentMessageID := ""; ResponseID := ""; OperationID := "";
     ReasoningMessageID := ""; ReasoningSpanID := ""; EncryptedValue := ""; EncryptedEntityID := ""; EncryptedSubtype := "";
     ToolCallID := ""; ToolMessageID := ""; RequestPayloadID := ""; ResponsePayloadID := ""; ProviderRequestPayloadID := "";
     ProviderResponsePayloadID := ""; StreamPayloadID := ""; LinkedConversationID := ""; LinkedConversationAgentID := "";
     LinkedConversationTitle := ""; ExecutionRole := ""; Phase := ""; PageID := ""; Mode := ""; Patch := []; Content := "";
     ContentMode := ""; ContentOffset := None; RenderedContent := None; Narration := ""; NarrationSource := ""; ToolName := "";
     Arguments := None; ErrorText := ""; Status := ""; Iteration := 0; PageIndex := 0; PageCount := 0; LatestPage := false;
     Model := None; Usage := None; ToolCallsPlanned := []; CreatedAt := 0; ResponsePayload := None; CompletedAt := None;
     StartedAt := None; QueueSeq := 0; StartedByMessageID := ""; QueueOrigin := ""; GoalID := ""; StatusReason := "";
     ModelCallID := ""; Provider := ""; ModelName := ""; FeedID := ""; FeedTitle := ""; FeedDeveloperOnly := false; FeedIcon := "";
     FeedAccent := ""; FeedTarget := ""; FeedItemCount := 0; FeedData := None; PlannerTrigger := ""; PlannerStaticProfile := "";
     PlannerStrategyFamily := ""; PlannerAttempt := 0; PlannerValidated := None; PlannerSecondPolicy := "";
     PlannerOutputPayloadID := ""; UsageInputTokens := 0; UsageOutputTokens := 0; UsageEmbeddingTokens := 0; UsageTotalTokens := 0 |}.

Definition header_type (v : json) : string := default "" (w ← struct_of v; decode_text "type" w).
Definition ReconcileSubagentEvent (inv : Invocation) (event : WireEvent) (t : Translator) : option ((list Event + string) * Translator) :=
  let known := match get (InvocationID inv) (children t) with Some s => bool_decide (invocation s = inv) | None => false end in
  if negb known || Detached inv then Some (inr "trusted child recovery requires exact causal registration", t)
  else
    match EncodeEvent event with
    | inr err => Some (inr err, t)
    | inl raw =>
        if bool_decide (header_type raw ∈ ["MESSAGES_SNAPSHOT"; "TOOL_CALL_RESULT"]) then
          match translateSubagent true inv (protocol_event (InvConversationID inv) (InvTurnID inv)) (Some (Some raw)) t with
          | Some (evs, t) => Some (inl evs, t)
          | None => None
          end
        else Some (inr "trusted child recovery only accepts messages and tool receipts", t)
    end.

(** The end of an invocation whose query returned. *)
Definition returned_end (r : InvocationResult) : Event :=
  let id := InvocationID (ResultInvocation r) in
  if bool_decide (NativeStatus r = "waiting_for_user") then subagent_finished id (Some "suspended")
  else if bool_decide (ResultError r <> "" \/ NativeStatus r ∈ ["failed"; "canceled"; "cancelled"]) then
    subagent_error id (if bool_decide (ResultError r = "") then "Subagent invocation " +:+ NativeStatus r else ResultError r) (ToUpper (NativeStatus r))
  else subagent_finished id None.

(** The content of a preset answer, when the subagent wrote no text. *)
Definition preset_content (r : InvocationResult) (c : Translator) : option (list Event * Translator) :=
  if bool_decide (NativeStatus r ∈ ["succeeded"; "completed"] /\ ResultContent r <> "") && negb (HasText c)
  then CompleteText range decode_error apply_patch (InvocationID (ResultInvocation r) +:+ "/result") (ResultContent r) c
  else Some ([], c).

Definition InvocationReturned (r : InvocationResult) (t : Translator) : option (list Event * Translator) :=
  let inv := ResultInvocation r in
  let id := InvocationID inv in
  if done t || bool_decide (id = "") then Some ([], t)
  else if Detached inv then Some ([], t)
  else
    let '(state, t) := subagent inv t in
    if child_done state then Some ([], t)
    else if bool_decide (NativeStatus r ∈ ["queued"; "running"; "pending"]) then Some ([], t)
    else if bool_decide (NativeStatus r = "" /\ ResultError r = "") then Some ([], t)
    else
      let '(begun, t) := Start t in
      let '(announced, t) := startSubagent state t in
      let output := begun ++ announced in
      '(content, child) ← preset_content r (translator state);
      let refused err child := Some (Fail_run err "INVALID_SUBAGENT_EVENT" (update_child id (set_translator child) t)) in
      match attribute_all id content with
      | inr err => refused err child
      | inl content =>
          let '(closed, child) := closeOpen range child in
          match attribute_all id closed with
          | inr err => refused err child
          | inl closed =>
              let t := update_child id finish_child (update_child id (set_translator (set_done true child)) t) in
              let output := output ++ content ++ closed ++ [returned_end r] in
              t ← capture output t;
              Some (output, t)
          end
      end.

(** ** Registration *)
Definition RegisterInvocation (inv : Invocation) (t : Translator) : option (list Event * Translator) :=
  if done t || bool_decide (InvocationID inv = "") then Some ([], t)
  else if Detached inv then Some ([linked_run inv t], t)
  else if bool_decide (nativeTurnID t = "") then Some ([], snd (subagent inv t))
  else
    match validateInvocation inv t with
    | Some err => Some (Fail_run err "INVALID_INVOCATION" t)
    | None =>
        match get (InvocationID inv) (children t) with
        | Some _ => Some ([], t)
        | None =>
            let '(begun, t) := Start (snd (subagent inv t)) in
            let out := begun ++ [registration inv] in
            t ← capture out t;
            Some (out, t)
        end
    end.
End Subagents.

Definition ActiveInvocations (t : Translator) : list Invocation :=
  invocation <$> filter (fun s => child_started s && negb (child_done s) = true) (snd <$> children t).
Definition RecoverableInvocations (t : Translator) : list Invocation :=
  invocation <$> filter (fun s => negb (child_done s) && negb (Detached (invocation s)) = true) (snd <$> children t).

(** ** What the run and its subagents know *)
Definition SubagentHasText (id : string) (t : Translator) : bool :=
  match get id (children t) with Some s => HasText (translator s) | None => false end.
Fixpoint HasToolCall (turn call : string) (t : Translator) : bool :=
  bool_decide (is_Some (tools t !! toolID turn call t))
  || existsb (fun '(_, c) => match c with mkSubagent _ child _ _ => HasToolCall turn call child end) (children t).
