(* ===== verification/AguiSubagentProps.v ===== *)
(** * Whose events a subagent emits

    The events of a subagent are events of its own in the run: each carries its
    name, and none of them ends the run. *)
From stdpp Require Import base gmap strings list.
From Stdlib Require Import ZArith Ascii.
From S2P Require Import Prelude GoStrings GoJson CanonicalNumber JsonValue JsonCodec AguiPatch AguiProjection AguiProps AguiDemo AguiLife.
From S2P Require Import AguiNative AguiTranslator AguiTranslate AguiTranslateDemo AguiLanes AguiGraph AguiTranslateProps AguiCalm AguiBridge AguiBridgeProps AguiSubagent.

Open Scope Z_scope.

(** An event of the run that a subagent may cause. *)
Definition speaks_for (id : string) (ev : Event) : Prop := lane (wire ev) = id /\ type_of ev ∉ lifecycle.
Definition allowed (inv : Invocation) (ev : Event) : Prop :=
  type_of ev = "RUN_STARTED" \/ type_of ev = "MESSAGES_SNAPSHOT" \/ ev = queued_subagent inv \/ speaks_for (InvocationID inv) ev.

(** Every subagent is known by the name of its invocation. *)
Definition named_children (t : Translator) : Prop := forall id s, get id (children t) = Some s -> InvocationID (invocation s) = id.

Lemma subagent_named inv t : named_children t -> InvocationID (invocation (subagent inv t).1) = InvocationID inv.
Proof. intros H. unfold subagent. destruct (get (InvocationID inv) (children t)) as [s|] eqn:E; [by apply H|done]. Qed.

Lemma type_standardEvent ms : NoDup ms.*1 -> type_of (standardEvent ms) = field ms "type".
Proof. intros H. by apply field_standard. Qed.

Lemma Start_allowed inv t : Forall (allowed inv) (Start t).1.
Proof.
  unfold Start. destruct (_ || _); [constructor|]. apply Forall_singleton. left.
  case_bool_decide; [by rewrite type_standardEvent by keys|]. unfold type_of. by rewrite field_plain by keys.
Qed.

(** A member of a standard event that its optional members do not touch. *)
Lemma field_optional ms ms' k : NoDup ms.*1 -> k ∉ ms'.*1 -> field (wire (standardEvent (ms ++ ms'))) k = field ms k.
Proof.
  intros Hn Hk. unfold field, text_field, standardEvent, of_members. cbn [wire]. rewrite foldl_app, get_foldl_put by done.
  change (foldl _ [] ms) with (of_members ms). by rewrite get_of_members.
Qed.
Lemma not_named k (ms : list (string * json)) : k ∉ ms.*1 -> k ∉ (named ms).*1.
Proof.
  intros H Hk. apply H. unfold named in Hk. apply list_elem_of_fmap in Hk as (m & -> & Hm). apply list_elem_of_filter in Hm as [_ Hm].
  apply list_elem_of_fmap. by exists m.
Qed.

Lemma startSubagent_allowed inv s t : InvocationID (invocation s) = InvocationID inv -> Forall (allowed inv) (startSubagent s t).1.
Proof.
  intros Hi. unfold startSubagent. destruct (_ || _); [constructor|]. apply Forall_singleton. right; right; right.
  set (i := invocation s). set (opt := named [str "description" _] ++ _). 
  assert (forall k, k ∈ ["type"; "subagentRunId"] -> k ∉ opt.*1) as Hopt.
  { intros k Hk. unfold opt. rewrite !fmap_app, !not_elem_of_app. split; [|split].
    - apply not_named. intros H. revert Hk H. cbn. set_solver.
    - case_bool_decide; [cbn; set_solver|]. cbn. set_solver.
    - apply not_named. cbn. set_solver. }
  match goal with |- speaks_for _ (standardEvent (?ms ++ opt)) => assert (NoDup ms.*1) as Hms by keys end. clearbody opt.
  split; [unfold lane|unfold type_of]; (rewrite field_optional; [|exact Hms|apply Hopt; rewrite !elem_of_cons; auto]); [exact Hi|].
  apply (bool_decide_unpack _). vm_compute. exact I.
Qed.

Section Props.
Context (range : gset string -> list string).
Context (ValidateEvent : json -> bool) (ValidatePresentation : string -> json -> bool).
Context (decode_error : string) (apply_patch : json -> json -> json + string) (invalid : option json -> string).
Notation attribute := (attribute ValidateEvent invalid).
Notation translateSubagent := (translateSubagent range ValidateEvent ValidatePresentation decode_error apply_patch invalid).
Notation InvocationReturned := (InvocationReturned range ValidateEvent decode_error apply_patch invalid).

Lemma attributed_speaks w owner ev :
  field w "type" ∉ lifecycle -> attributedEvent ValidateEvent invalid w owner = inl ev -> speaks_for owner ev.
Proof.
  unfold attributedEvent, valid_event, StandardEvent. cbn [mbind option_bind]. destruct (ValidateEvent _); [|done]. cbn [object mbind option_bind].
  intros Hw [= <-]. split.
  - unfold lane, field, text_field. cbn [wire]. by rewrite get_put_eq.
  - unfold type_of. cbn [wire]. by rewrite field_put_ne.
Qed.

Lemma standard_speaks id ms :
  NoDup ms.*1 -> field ms "subagentRunId" = id -> field ms "type" ∉ lifecycle -> speaks_for id (standardEvent ms).
Proof. intros Hn H1 H2. split; [unfold lane; by rewrite field_standard|by rewrite type_standardEvent]. Qed.
Ltac speaks := apply standard_speaks; [keys|reflexivity|apply (bool_decide_unpack _); vm_compute; exact I].

Lemma subagent_error_speaks id m c : speaks_for id (subagent_error id m c).
Proof. unfold subagent_error. speaks. Qed.
Lemma subagent_finished_speaks id o : speaks_for id (subagent_finished id o).
Proof. unfold subagent_finished. destruct o; cbn [app]; speaks. Qed.
Lemma subagent_end_speaks e id : speaks_for id (subagent_end e id).
Proof. unfold subagent_end. destruct (is_type _ _); [apply subagent_error_speaks|apply subagent_finished_speaks]. Qed.

(** An event says what it is sent as. *)
Definition sent_as (x : Event * list (string * json)) : Prop := field x.2 "type" = type_of x.1.

Lemma attribute_allowed e inv texts evs ended out ended' :
  Forall sent_as evs -> attribute e (InvocationID inv) texts evs ended = Attributed out ended' -> Forall (allowed inv) out.
Proof.
  intros Hs. revert out ended ended'. induction Hs as [|[ev w] evs Hw _ IH]; intros out ended ended' E; simpl in E; [injection E as <- _; constructor|].
  unfold sent_as in Hw. simpl in Hw. set (typ := type_of ev) in *.
  assert (forall ev' b, allowed inv ev' ->
            match attribute e (InvocationID inv) texts evs b with Attributed rest ended => Attributed (ev' :: rest) ended | r => r end = Attributed out ended' ->
            Forall (allowed inv) out) as Hnext.
  { intros ev' b Ha. destruct (attribute e _ texts evs b) as [rest b'| |] eqn:Er; [|done..]. intros [= <- _]. constructor; [done|by eapply IH]. }
  case_bool_decide as H1; [by eapply IH|]. case_bool_decide as H2.
  { eapply Hnext, E. right; right; right. apply subagent_end_speaks. }
  case_bool_decide as H3.
  { eapply Hnext, E. right; right; right. apply subagent_error_speaks. }
  case_bool_decide as H4.
  - destruct (tag_messages _ _ _) as [m|]; [|done]. destruct (valid_event _ _ _) as [snapshot|err] eqn:Ev; [|done]. eapply Hnext, E. right; left.
    unfold valid_event, StandardEvent in Ev. cbn [mbind option_bind] in Ev. destruct (ValidateEvent _); [|done]. cbn [object mbind option_bind] in Ev.
    injection Ev as <-. unfold type_of. cbn [wire]. by rewrite field_put_ne.
  - destruct (attributedEvent _ _ _ _) as [ev'|err] eqn:Ev; [|done]. eapply Hnext, E. right; right; right. eapply attributed_speaks; [|exact Ev].
    rewrite Hw. unfold lifecycle. rewrite !not_elem_of_cons. repeat split; try done. apply not_elem_of_nil.
Qed.

Lemma sent_all evs : Forall sent_as (sent <$> evs).
Proof. by induction evs; constructor. Qed.
Lemma sent_at_type e ev : sent_as (sent_at ValidateEvent e ev).
Proof.
  unfold sent_as, sent_at, stamped. cbn [fst snd]. destruct (standard ev && _); [done|]. cbn [from_option].
  destruct (bool_decide _); [done|]. cbn [id]. by rewrite field_put_ne.
Qed.

Lemma translate_any_sent trusted e raw t out t' :
  translate_any range ValidateEvent ValidatePresentation decode_error apply_patch invalid trusted e raw t = Some (out, t') -> Forall sent_as out.
Proof.
  unfold translate_any, translate_protocol. destruct raw as [raw|].
  - destruct (done t); [by intros [= <- _]|]. case_bool_decide; [by intros [= <- _]|]. destruct (Start _) as [start u]. cbv zeta.
    destruct (bridged _ _ _ _) as [ev|message].
    + destruct (capture _ _ _ _) as [u1|]; [|done]. cbn [mbind option_bind]. destruct (historyErr u1).
      * destruct (Fail_run _ _ _ u1). intros [= <- _]. apply sent_all.
      * intros [= <- _]. apply Forall_app. split; [apply sent_all|]. change (Forall sent_as (sent_at ValidateEvent e <$> ev :: rendered false e)).
        induction (ev :: rendered false e); constructor; [apply sent_at_type|done].
    + destruct (Fail_run _ _ _ _). intros [= <- _]. apply sent_all.
  - destruct (translate _ _ _ _ _ _ _) as [[evs u]|]; [|done]. intros [= <- _]. apply sent_all.
Qed.

(** The run fails: its open lanes are closed and it ends with an error of the
    given code. *)
Definition run_failed (code : string) (out : list Event) (t' : Translator) : Prop :=
  exists u err, done u = false /\ Fail_run range err code u = (out, t').

Lemma subagent_done inv t : done (subagent inv t).2 = done t.
Proof. unfold subagent. by destruct (get _ _). Qed.
Lemma startSubagent_done s t : done (startSubagent s t).2 = done t.
Proof. unfold startSubagent. destruct (_ || _); [done|]. simpl. unfold update_child. by destruct (get _ _). Qed.
Lemma update_child_done id f t : done (update_child id f t) = done t.
Proof. unfold update_child. by destruct (get _ _). Qed.

(** C24: a subagent speaks for itself alone. In a run that files its subagents
    under the identifiers of their invocations, of what becomes of a native event
    of a subagent every event is one of these: the start of the run; a snapshot
    of the messages of the run; the notice that the subagent is queued; or an
    event that carries the name of the subagent and is no event of the life cycle
    of a run. So neither the end nor the failure of the subagent's own run ends
    the run. Only when its history or its attribution fails, the run fails with
    the code for it, after such events. *)
Theorem subagent_events trusted inv e protocol t out t' :
  named_children t -> translateSubagent trusted inv e protocol t = Some (out, t') ->
  Forall (allowed inv) out
  \/ exists spoken failure code, out = spoken ++ failure /\ Forall (allowed inv) spoken
       /\ code ∈ ["INVALID_SUBAGENT_EVENT"; "INVALID_AUTHORITATIVE_HISTORY"] /\ run_failed code failure t'.
Proof.
  intros Hn. unfold AguiSubagent.translateSubagent. destruct (done t) eqn:Hd; [intros [= <- _]; left; constructor|]. cbn [orb].
  case_bool_decide; [intros [= <- _]; left; constructor|]. destruct (Detached inv); [intros [= <- _]; left; constructor|].
  pose proof (subagent_named inv t Hn) as Hid. rewrite <- (subagent_done inv) in Hd. destruct (subagent inv t) as [state u]. cbn [fst snd] in Hid, Hd. cbv zeta.
  destruct (child_done state); [intros [= <- _]; left; constructor|].
  destruct (native_type _ _ _); [intros [= <- _]; left; apply Forall_singleton; right; right; by left|].
  destruct (native_type _ _ _); [intros [= <- _]; left; constructor|].
  pose proof (Start_allowed inv u) as H1. destruct (Start_children u) as (_ & _ & Hd1). rewrite Hd in Hd1. destruct (Start u) as [begun u1]. cbn [fst snd] in H1, Hd1.
  pose proof (startSubagent_allowed inv state u1 Hid) as H2. rewrite <- (startSubagent_done state) in Hd1. destruct (startSubagent state u1) as [announced u2]. cbn [fst snd] in H2, Hd1.
  set (lent := if seeded u2 then _ else _). destruct lent as [child|].
  - destruct (translate_any _ _ _ _ _ _ _ _ _ _) as [[events child']|] eqn:E; [|done]. cbn [mbind option_bind]. apply translate_any_sent in E.
    destruct (attribute _ _ _ _ _) as [evs ended|err ended|] eqn:Ea; [| |done].
    + destruct (capture _ _ _ _) as [u3|]; [|done]. cbn [mbind option_bind]. intros [= <- <-]. left. rewrite !Forall_app. split; [by split|].
      eapply attribute_allowed; [exact E|exact Ea].
    + intros [= E']. right. exists [], out, "INVALID_SUBAGENT_EVENT". split; [done|]. split; [constructor|]. split; [by left|]. eexists _, err. split; [|exact E'].
      unfold end_child. destruct ended; by rewrite ?update_child_done.
  - destruct (Fail_run _ _ _ _) as [evs u3] eqn:Ef. intros [= <- <-]. right. exists (begun ++ announced), evs, "INVALID_AUTHORITATIVE_HISTORY".
    split; [done|]. split; [by apply Forall_app|]. split; [right; by left|]. eexists _, decode_error. split; [|exact Ef]. by rewrite update_child_done.
Qed.
End Props.

(** ** A delegated query *)
Definition helper : Invocation := mkInvocation false "" "child" "" "" "helper" "" "" "" "" "" "".
Definition subagent_demo : NativeEvent -> Translator -> option (list Event * Translator) :=
  fun e => TranslateSubagent by_elements accept valid_presentation "json" no_patch invalid_text helper e None.
Definition returned_demo : InvocationResult -> Translator -> option (list Event * Translator) :=
  InvocationReturned by_elements accept "json" no_patch invalid_text.
Definition speaking : option (list Event * Translator) := subagent_demo (says_delta "a" "hello" (Some 0) 1) fresh.

Definition spoken : Translator := match speaking with Some (_, t) => t | None => fresh end.
Definition lanes_named (r : option (list Event * Translator)) : list string := match r with Some (evs, _) => (fun ev => lane (wire ev)) <$> evs | None => [] end.

Example delegated_query :
  kinds speaking = ["RUN_STARTED"; "SUBAGENT_STARTED"; "TEXT_MESSAGE_START"; "TEXT_MESSAGE_CONTENT"]
  /\ lanes_named speaking = [""; "child"; "child"; "child"]
  /\ kinds (returned_demo (mkInvocationResult helper "succeeded" "ignored" "") spoken) = ["TEXT_MESSAGE_END"; "SUBAGENT_FINISHED"]
  /\ kinds (returned_demo (mkInvocationResult helper "succeeded" "preset" "") fresh)
     = ["RUN_STARTED"; "SUBAGENT_STARTED"; "TEXT_MESSAGE_START"; "TEXT_MESSAGE_CONTENT"; "TEXT_MESSAGE_END"; "SUBAGENT_FINISHED"]
  /\ kinds (returned_demo (mkInvocationResult helper "failed" "" "") fresh) = ["RUN_STARTED"; "SUBAGENT_STARTED"; "SUBAGENT_ERROR"]
  /\ kinds (subagent_demo (ends EventTypeTurnCompleted) spoken) = ["TEXT_MESSAGE_END"; "SUBAGENT_FINISHED"].
Proof. vm_compute. done. Qed.

Lemma speaking_translated :
  speaking = translateSubagent by_elements accept valid_presentation "json" no_patch invalid_text false helper (says_delta "a" "hello" (Some 0) 1) None fresh.
Proof. unfold speaking, subagent_demo, TranslateSubagent. reflexivity. Qed.

Lemma subagent_events_witness :
  exists out t', speaking = Some (out, t') /\ type_of <$> out = ["RUN_STARTED"; "SUBAGENT_STARTED"; "TEXT_MESSAGE_START"; "TEXT_MESSAGE_CONTENT"]
    /\ Forall (allowed helper) out.
Proof.
  assert (option_map (fun r => (done r.2, type_of <$> r.1)) speaking
          = Some (false, ["RUN_STARTED"; "SUBAGENT_STARTED"; "TEXT_MESSAGE_START"; "TEXT_MESSAGE_CONTENT"])) as Hc by (vm_compute; reflexivity).
  destruct speaking as [[out t']|] eqn:E; [|discriminate]. pose proof E as Et. rewrite speaking_translated in Et. injection Hc as Hd Hk. exists out, t'. split; [reflexivity|]. split; [exact Hk|].
  destruct (subagent_events by_elements accept valid_presentation "json" no_patch invalid_text false helper (says_delta "a" "hello" (Some 0) 1) None fresh out t')
    as [H|(s & f & code & _ & _ & _ & (u & err & Hu & Hf))]; [intros id s H; discriminate|exact Et|exact H|].
  pose proof (Fail_is_done by_elements err code u) as H. rewrite Hf in H. cbn [snd] in H. congruence.
Defined.
