(* ===== verification/AguiRestore.v ===== *)
(** * Restoring a translator

    src/protocol/agui/translator_restore.go: a translator is rebuilt from the
    journal of the events of its run, and the translator of each subagent that
    has not ended from the events it authored. *)
From stdpp Require Import base gmap strings list.
From Stdlib Require Import ZArith Ascii.
From S2P Require Import Prelude GoStrings GoJson CanonicalNumber JsonValue JsonCodec AguiPatch AguiProjection AguiNative AguiTranslator AguiTranslate AguiBridge.
From S2P Require Import AguiSubagent.

Open Scope Z_scope.

(** The outcome of a restoration: a translator, an error, or a panic. *)
Inductive restored (A : Type) := Restored (a : A) | RestoreError (err : string) | RestorePanic.
Arguments Restored {A}. Arguments RestoreError {A}. Arguments RestorePanic {A}.

Section Restore.
Context (ValidateEvent : json -> bool) (decode_error : string) (apply_patch : json -> json -> json + string) (invalid : option json -> string).
Notation captureStandard := (captureStandard decode_error apply_patch).

Definition capture_entry (w : Object) (t : Translator) : restored Translator :=
  match captureStandard w true t with Captured t => Restored t | CaptureError _ err => RestoreError err | Panic => RestorePanic end.

Fixpoint capture_journal (raws : list json) (t : Translator) : restored Translator :=
  match raws with
  | [] => Restored t
  | raw :: raws =>
      if negb (ValidateEvent raw) then RestoreError (invalid (Some raw))
      else
        match raw with
        | JObject w => match capture_entry w t with Restored t => capture_journal raws t | r => r end
        | _ => RestoreError decode_error
        end
  end.

(** The events of a subagent, and the snapshots of the run. *)
Definition without (key : string) (w : Object) : Object := filter (fun m => m.1 <> key) w.
Definition child_entry (owner : string) (w : Object) : option Object :=
  let kind := field w "type" in
  if bool_decide (kind ∈ ["SUBAGENT_STARTED"; "SUBAGENT_FINISHED"; "SUBAGENT_ERROR"]) then None
  else if bool_decide (field w "subagentRunId" = owner) then Some (without "subagentRunId" w)
  else if bool_decide (kind = "MESSAGES_SNAPSHOT") then Some w
  else None.
Fixpoint capture_child (owner : string) (raws : list json) (c : Translator) : restored Translator :=
  match raws with
  | [] => Restored c
  | raw :: raws =>
      match child_entry owner (default [] (object (Some raw))) with
      | None => capture_child owner raws c
      | Some w => match capture_entry w c with Restored c => capture_child owner raws c | r => r end
      end
  end.

Definition restore_child (thread : string) (raws : list json) (t : Translator) (owner : string) (s : subagentState) : restored subagentState :=
  if child_done s then Restored s
  else
    let child := NewTranslator thread owner in
    let child := if bool_decide (nativeTurnID t <> "") then set_nativeTurnID (InvTurnID (invocation s)) child else child in
    let child := set_seeded true (set_started true child) in
    match capture_child owner raws child with
    | Restored child => Restored (set_translator (set_messages (messages t) child) s)
    | RestoreError err => RestoreError err
    | RestorePanic => RestorePanic
    end.
Fixpoint restore_children (thread : string) (raws : list json) (t : Translator) (cs : list (string * subagentState)) : restored (list (string * subagentState)) :=
  match cs with
  | [] => Restored []
  | (owner, s) :: cs =>
      match restore_child thread raws t owner s with
      | Restored s =>
          match restore_children thread raws t cs with Restored cs => Restored ((owner, s) :: cs) | r => r end
      | RestoreError err => RestoreError err
      | RestorePanic => RestorePanic
      end
  end.

Definition RestoreTranslator (threadID runID : string) (raws : list json) : restored Translator :=
  match capture_journal raws (NewTranslator threadID runID) with
  | Restored t =>
      let t := set_seeded true t in
      match restore_children threadID raws t (children t) with
      | Restored cs => Restored (set_children cs t)
      | RestoreError err => RestoreError err
      | RestorePanic => RestorePanic
      end
  | r => r
  end.
End Restore.
