(* ===== verification/AguiRestoreProps.v ===== *)
(** * A restored translator has the life of its journal

    The journal of a run is a trace of the life-cycle machine; the translator
    that is restored from it has the open messages, calls, spans and steps, and
    the active subagents, of the state the trace ends in. *)
From stdpp Require Import base gmap strings list fin_maps sets.
From Stdlib Require Import ZArith Ascii.
From S2P Require Import Prelude GoStrings GoJson CanonicalNumber JsonValue JsonCodec AguiPatch AguiProjection AguiProps AguiLife AguiDemo.
From S2P Require Import AguiNative AguiTranslator AguiTranslate AguiTranslateDemo AguiLanes AguiCapture AguiRun AguiTranslated AguiBridge AguiBridgeProps AguiSubagent AguiRestore.

Open Scope nat_scope.

Notation Object := (list (string * json)) (only parsing).

(** ** The life of a translator with its subagents *)
Definition owner_key (owner : string) : string := if bool_decide (owner = "") then "parent:" else "tag:" +:+ owner.
Definition state_lane (s : stepState) : string := json_print (JArray [JString (owner_key (step_subagent s)); JString (step_name s)]).
Definition open_states (m : gmap string stepState) : gset string :=
  list_to_set (state_lane <$> filter (fun s => step_ended s = false) (snd <$> map_to_list m)).

Definition journal_lanes (t : Translator) (s : stream) : gset string :=
  match s with StepStream => open_states (steps t) | _ => open_lanes t s end.
Definition subagent_life (s : subagentState) : option bool := if child_started s then Some (negb (child_done s)) else None.
Definition subagent_lives (t : Translator) (id : string) : option bool := s ← get id (children t); subagent_life s.

Lemma elem_open_states x m : x ∈ open_states m <-> exists key s, m !! key = Some s /\ step_ended s = false /\ state_lane s = x.
Proof.
  unfold open_states. rewrite elem_of_list_to_set, list_elem_of_fmap. setoid_rewrite list_elem_of_filter. setoid_rewrite list_elem_of_fmap. split.
  - intros (s & -> & He & [key s'] & -> & Hin). apply elem_of_map_to_list in Hin. by exists key, s'.
  - intros (key & s & Hs & He & <-). exists s. split; [done|]. split; [done|]. exists (key, s). split; [done|]. by apply elem_of_map_to_list.
Qed.

(** ** Journals *)
Definition step_event (w : Object) : bool := bool_decide (field w "type" ∈ ["STEP_STARTED"; "STEP_FINISHED"]).

(** The strings of the journal are valid, an event that is tagged names its
    subagent, and no two steps share a key unless they are the same step. *)
Record journal (ws : list Object) : Prop := {
  j_valid w : w ∈ ws -> ValidString (lane w) = true /\ ValidString (field w "stepName") = true;
  j_tagged w : w ∈ ws -> tagged w = true -> lane w <> "";
  j_steps w w' : w ∈ ws -> w' ∈ ws -> step_event w = true -> step_event w' = true -> step_key w = step_key w' -> stepKey w = stepKey w'
}.

Lemma owner_key_of ws w : journal ws -> w ∈ ws -> ownerKey w = owner_key (lane w).
Proof.
  intros Hj Hw. unfold ownerKey, owner_key. destruct (tagged w) eqn:Et.
  - rewrite bool_decide_false; [done|]. by apply (j_tagged ws Hj).
  - unfold tagged, present in Et. apply bool_decide_eq_false in Et. rewrite bool_decide_true; [done|].
    unfold lane, field, text_field. destruct (get "subagentRunId" w); [by destruct Et|done].
Qed.

Lemma owner_key_inj o1 o2 : owner_key o1 = owner_key o2 -> o1 = o2.
Proof.
  unfold owner_key. do 2 case_bool_decide; subst; try done; intros E; try (by vm_compute in E). by apply app_string_inj in E.
Qed.
Lemma owner_key_valid o : ValidString o = true -> ValidString (owner_key o) = true.
Proof. unfold owner_key. by case_bool_decide. Qed.

Lemma pair_print_inj a b c d :
  ValidString a = true -> ValidString b = true -> ValidString c = true -> ValidString d = true ->
  json_print (JArray [JString a; JString b]) = json_print (JArray [JString c; JString d]) -> a = c /\ b = d.
Proof.
  intros Ha Hb Hc Hd E. assert (forall x y, ValidString x = true -> ValidString y = true ->
    json_parse (json_print (JArray [JString x; JString y])) = Some (JArray [JString x; JString y])) as Hp.
  { intros x y Hx Hy. apply parse_printed. simpl. by rewrite Hx, Hy. }
  pose proof (Hp a b Ha Hb) as P. rewrite E, (Hp c d Hc Hd) in P. by injection P as -> ->.
Qed.

(** Steps of one lane have one key. *)
Lemma stepKey_key ws w w' : journal ws -> w ∈ ws -> w' ∈ ws -> stepKey w = stepKey w' -> step_key w = step_key w'.
Proof.
  intros Hj Hw Hw' E. unfold stepKey in E. rewrite !(owner_key_of ws) in E by done.
  destruct (j_valid ws Hj w Hw) as [V1 V2]. destruct (j_valid ws Hj w' Hw') as [V3 V4].
  apply pair_print_inj in E as [E1 E2]; [|by try apply owner_key_valid..]. apply owner_key_inj in E1.
  unfold step_key. unfold lane in E1. by rewrite E1, E2.
Qed.

(** ** A translator that agrees with a life *)
Section Agree.
Context (ws : list Object) (Hws : journal ws).

Definition step_of (s : stepState) (key : string) (w : Object) : Prop :=
  step_event w = true /\ key = step_key w /\ step_subagent s = lane w /\ step_name s = field w "stepName".

Record agrees (l : Life) (t : Translator) : Prop := {
  a_started : started t = true;
  a_run : running l = negb (done t);
  a_open s : open l s = journal_lanes t s;
  a_subagents id : subagents l !! id = subagent_lives t id;
  a_ended id s : get id (children t) = Some s -> child_done s = true -> child_started s = true;
  a_order id s : tools t !! id = Some s -> tool_ended s = false -> id ∈ toolOrder t;
  a_steps key s : steps t !! key = Some s -> exists w, w ∈ ws /\ step_of s key w
}.

Lemma agrees_similar l l' t t' :
  agrees l t -> similar t t' -> (forall id, subagent_lives t' id = subagent_lives t id) ->
  (forall id s, get id (children t') = Some s -> child_done s = true -> child_started s = true) -> same_life l l' -> agrees l' t'.
Proof.
  intros [A B C D E F G] Hs Hsub Hend (L1 & L2 & L3 & L4). pose proof (similar_open_lanes t t' F Hs) as Hl. destruct Hs as [[R1 R2] _ _ Hord _ Hopen _ _ _ _ Hst]. split.
  - congruence.
  - by rewrite L1, R2.
  - intros s. rewrite L4, C. destruct s; try (symmetry; apply Hl). simpl. by rewrite Hst.
  - intros id. by rewrite L3, D, Hsub.
  - done.
  - intros id s H He. destruct (Hopen id s H He) as (s0 & H0 & He0 & _). rewrite Hord. by eapply F.
  - intros key s. rewrite Hst. apply G.
Qed.

Lemma agrees_reopened k ids l l' t t' :
  agrees l t -> reopened k ids l l' -> same_run t t' -> children t' = children t ->
  (forall id s, tools t' !! id = Some s -> tool_ended s = false -> id ∈ toolOrder t') ->
  (forall key s, steps t' !! key = Some s -> exists w, w ∈ ws /\ step_of s key w) ->
  (forall s, journal_lanes t' s = if decide (s = k) then ids else journal_lanes t s) -> agrees l' t'.
Proof.
  intros [A B C D E F G] (L1 & L2 & L3 & L4) [R1 R2] Hc Ho Hst Hl. split; try done.
  - congruence.
  - by rewrite L1, R2.
  - intros s. rewrite L4, Hl, C. done.
  - intros id. unfold subagent_lives. rewrite Hc, L3. apply D.
  - intros id s. rewrite Hc. apply E.
Qed.

(** ** Steps *)
Lemma step_lane_of s key w : w ∈ ws -> step_of s key w -> state_lane s = stepKey w.
Proof. intros Hw (_ & _ & H1 & H2). unfold state_lane, stepKey. by rewrite (owner_key_of ws w Hws Hw), H1, H2. Qed.

Lemma step_states l t key s w : agrees l t -> w ∈ ws -> step_event w = true -> steps t !! key = Some s -> (key = step_key w <-> state_lane s = stepKey w).
Proof.
  intros Ha Hw He Hs. destruct (a_steps l t Ha key s Hs) as (w0 & Hw0 & Hof). rewrite (step_lane_of s key w0 Hw0 Hof). destruct Hof as (He0 & -> & _).
  split; [by apply (j_steps ws Hws)|by apply (stepKey_key ws)].
Qed.

Lemma open_states_opened m key s : step_ended s = false -> (forall s0, m !! key = Some s0 -> step_ended s0 = true \/ state_lane s0 = state_lane s) ->
  open_states (<[key := s]> m) = {[state_lane s]} ∪ open_states m.
Proof.
  intros He H0. apply set_eq. intros x. rewrite elem_of_union, elem_of_singleton, !elem_open_states. setoid_rewrite lookup_insert_Some. split.
  - naive_solver.
  - intros [->|(k & s' & Hs & He' & <-)]; [naive_solver|]. destruct (decide (key = k)) as [->|Hne]; [|naive_solver].
    destruct (H0 _ Hs) as [?|E]; [congruence|]. exists k, s. split; [by left|]. split; [done|congruence].
Qed.

Lemma start_step_agrees l l' t w :
  agrees l t -> w ∈ ws -> step_event w = true -> stepKey w ∉ open l StepStream -> reopened StepStream ({[stepKey w]} ∪ open l StepStream) l l' ->
  agrees l' (capture_step_started w t).
Proof.
  intros Ha Hw He Hn Hr. set (key := step_key w).
  set (s := end_step false (default (mkStep (lane w) (field w "stepName") false) (steps t !! key))).
  assert (state_lane s = stepKey w) as Hl.
  { unfold s. destruct (steps t !! key) as [s0|] eqn:E0; [by apply (step_states l t key s0 w Ha Hw He E0)|]. simpl.
    apply (step_lane_of _ key w Hw). by repeat split. }
  set (t' := capture_step_started w t).
  assert (steps t' = <[key := s]> (steps t) /\ same_run t t' /\ children t' = children t /\ tools t' = tools t /\ toolOrder t' = toolOrder t
          /\ forall k, k <> StepStream -> open_lanes t' k = open_lanes t k) as (E1 & Hrun & Ech & E2 & E3 & E4).
  { unfold t', capture_step_started. fold key. cbv zeta. destruct (steps t !! key) as [s0|] eqn:E0.
    - assert (alter (end_step false) key (steps t) = <[key := s]> (steps t)) as Ea 
        by (apply map_eq; intros k; destruct (decide (key = k)) as [<-|Hne];
            [by rewrite lookup_alter_eq, lookup_insert_eq; unfold s; rewrite ?E0|by rewrite lookup_alter_ne, lookup_insert_ne]).
      case_bool_decide; (split; [exact Ea|]); repeat split; try done; intros []; done.
    - assert (alter (end_step false) key (<[key := mkStep (lane w) (field w "stepName") false]> (steps t)) = <[key := s]> (steps t)) as Ea
        by (apply map_eq; intros k; destruct (decide (key = k)) as [<-|Hne];
            [by rewrite lookup_alter_eq, !lookup_insert_eq; unfold s; rewrite ?E0|by rewrite lookup_alter_ne, !lookup_insert_ne]).
      case_bool_decide; (split; [exact Ea|]); repeat split; try done; intros []; done. }
  eapply agrees_reopened; [exact Ha|exact Hr|exact Hrun|exact Ech| | |].
  - intros id x. rewrite E2, E3. apply (a_order l t Ha).
  - intros k x. rewrite E1, lookup_insert_Some. intros [[<- <-]|[_ Hx]]; [|by apply (a_steps l t Ha)].
    unfold s. destruct (steps t !! key) as [s0|] eqn:E0.
    + destruct (a_steps l t Ha key s0 E0) as (w0 & Hw0 & Hof). by exists w0.
    + exists w. by repeat split.
  - intros k. destruct (decide (k = StepStream)) as [->|Hne]; [|destruct k; try done; by apply E4].
    simpl. rewrite E1. rewrite open_states_opened; [by rewrite Hl, (a_open l t Ha)|done|]. intros s0 H0. right. rewrite Hl.
    by apply (step_states l t key s0 w Ha Hw He H0).
Qed.

Lemma finish_step_agrees l l' t w :
  agrees l t -> w ∈ ws -> step_event w = true -> reopened StepStream (open l StepStream ∖ {[stepKey w]}) l l' -> agrees l' (capture_step_finished w t).
Proof.
  intros Ha Hw He Hr. set (key := step_key w). set (t' := capture_step_finished w t).
  assert (steps t' = alter (end_step true) key (steps t) /\ same_run t t' /\ children t' = children t /\ tools t' = tools t /\ toolOrder t' = toolOrder t
          /\ forall k, k <> StepStream -> open_lanes t' k = open_lanes t k) as (E1 & Hrun & Ech & E2 & E3 & E4).
  { unfold t', capture_step_finished. cbv zeta. fold key. case_bool_decide; case_bool_decide; repeat split; try done; intros []; done. }
  eapply agrees_reopened; [exact Ha|exact Hr|exact Hrun|exact Ech| | |].
  - intros id x. rewrite E2, E3. apply (a_order l t Ha).
  - intros k x. rewrite E1, lookup_alter_Some. intros [(<- & s0 & H0 & ->)|[_ Hx]]; [|by apply (a_steps l t Ha)].
    destruct (a_steps l t Ha key s0 H0) as (w0 & Hw0 & Hof). by exists w0.
  - intros k. destruct (decide (k = StepStream)) as [->|Hne]; [|destruct k; try done; by apply E4].
    rewrite (a_open l t Ha). cbn [journal_lanes]. rewrite E1. apply set_eq. intros x. rewrite elem_of_difference, elem_of_singleton, !elem_open_states. setoid_rewrite lookup_alter_Some. split.
    + intros (k & s & [(-> & s0 & H0 & ->)|[Hne Hs]] & Hx & <-); [done|]. split; [by exists k, s|]. intros E. apply Hne.
      symmetry. by apply (step_states l t k s w Ha Hw He Hs).
    + intros [(k & s & Hs & Hx & <-) Hne]. exists k, s. split; [|done]. right. split; [|done]. intros <-. apply Hne.
      by apply (step_states l t key s w Ha Hw He Hs).
Qed.

(** ** The lanes of the other kinds *)

(** A lane that is opened anew or again, or closed. *)
Lemma open_keys_reopened {S} (ended : S -> bool) (f : S -> S) id (m : gmap string S) (s : S) :
  ended (f s) = false -> (forall x, ended (f x) = false) ->
  open_keys ended (alter f id (match m !! id with Some _ => m | None => <[id := s]> m end)) = {[id]} ∪ open_keys ended m.
Proof.
  intros _ Hf. apply set_eq. intros x. rewrite elem_of_union, elem_of_singleton, !elem_open_keys. setoid_rewrite lookup_alter_Some. split.
  - intros (y & [(<- & y0 & Hy & ->)|[Hne Hy]] & He); [by left|right]. exists y. split; [|done].
    destruct (m !! id); [done|]. by rewrite lookup_insert_ne in Hy.
  - intros [->|(y & Hy & He)].
    + destruct (m !! id) as [y|] eqn:Ey; [exists (f y)|exists (f s)]; (split; [left; split; [done|]|apply Hf]).
      * by exists y.
      * exists s. by rewrite lookup_insert_eq.
    + destruct (decide (id = x)) as [<-|Hne].
      * rewrite Hy. exists (f y). split; [left; split; [done|]; by exists y|apply Hf].
      * exists y. split; [|done]. right. split; [done|]. destruct (m !! id); [done|]. by rewrite lookup_insert_ne.
Qed.

(** The lanes of one kind are replaced. *)
Lemma lane_agrees k ids l l' t t' :
  agrees l t -> reopened k ids l l' -> k <> StepStream -> same_run t t' -> children t' = children t -> steps t' = steps t ->
  (forall id s, tools t' !! id = Some s -> tool_ended s = false -> id ∈ toolOrder t') ->
  open_lanes t' k = ids -> (forall s, s <> k -> open_lanes t' s = open_lanes t s) -> agrees l' t'.
Proof.
  intros Ha Hr Hk Hrun Hc Hst Ho Hids Hl. eapply agrees_reopened; [exact Ha|exact Hr|done|done|done| |].
  - intros key s. rewrite Hst. apply (a_steps l t Ha).
  - intros s. destruct (decide (s = k)) as [->|Hne].
    + destruct k; try done.
    + destruct s; cbn [journal_lanes]; try (by apply Hl); by rewrite Hst.
Qed.

Ltac keeps_order Ha := apply (a_order _ _ Ha).

Lemma opened_agrees w l l' t k mv :
  agrees l t -> event_type (field w "type") = Some k -> move_of k w = mv -> lives mv l l' ->
  k ∈ [TEXT_MESSAGE_START; REASONING_MESSAGE_START; REASONING_START; TOOL_CALL_START] -> agrees l' (capture_boundary w t).1.
Proof.
  intros Ha Hk <- Hl Hin. unfold capture_boundary. rewrite Hk. repeat (apply elem_of_cons in Hin as [->|Hin]); [..|by apply not_elem_of_nil in Hin];
    simpl in Hl; inversion Hl as [| | |? ? ? ? _ _ Hr| | | | |]; subst; rewrite (a_open l t Ha) in Hr; cbn [journal_lanes open_lanes] in Hr.
  - cbn [fst]. set (t0 := open_text _ _ t). assert (same_run t t0 /\ children t0 = children t /\ tools t0 = tools t /\ toolOrder t0 = toolOrder t /\ steps t0 = steps t
      /\ reasonings t0 = reasonings t /\ reasoningSpans t0 = reasoningSpans t /\
      texts t0 = match texts t !! field w "messageId" with Some _ => texts t | None => <[field w "messageId" := mkText (field w "subagentRunId") "" false]> (texts t) end)
      as (R & C & T1 & T2 & S1 & R1 & R2 & X).
    { unfold t0, open_text. destruct (texts t !! field w "messageId") eqn:E; by rewrite ?E. }
    eapply lane_agrees; [exact Ha|exact Hr|done|exact R|exact C|exact S1| | |].
    + simpl. rewrite T1, T2. keeps_order Ha.
    + simpl. rewrite X. by apply open_keys_reopened.
    + intros []; simpl; rewrite ?T1, ?S1, ?R1, ?R2; done.
  - cbn [fst]. set (t0 := open_reasoning _ _ t).
    assert (exists st, same_run t t0 /\ children t0 = children t /\ tools t0 = tools t /\ toolOrder t0 = toolOrder t /\ steps t0 = steps t
      /\ texts t0 = texts t /\ reasoningSpans t0 = reasoningSpans t /\
      reasonings t0 = match reasonings t !! field w "messageId" with Some _ => reasonings t | None => <[field w "messageId" := st]> (reasonings t) end)
      as (st & R & C & T1 & T2 & S1 & R1 & R2 & X).
    { unfold t0, open_reasoning. destruct (reasonings t !! field w "messageId") as [s0|] eqn:E; [by exists s0; rewrite ?E|]. by eexists; rewrite ?E. }
    eapply lane_agrees; [exact Ha|exact Hr|done|exact R|exact C|exact S1| | |].
    + simpl. rewrite T1, T2. keeps_order Ha.
    + simpl. rewrite X. by apply open_keys_reopened.
    + intros []; simpl; rewrite ?T1, ?S1, ?R1, ?R2; done.
  - eapply lane_agrees; [exact Ha|exact Hr|done|done|done|done| | |].
    + keeps_order Ha.
    + simpl. by apply open_keys_opened.
    + by intros [].
  - eapply lane_agrees; [exact Ha|exact Hr|done|done|done|done| | |].
    + intros id s. simpl. rewrite lookup_alter_Some. intros [(<- & _)|[Hne Hs]] He.
      * case_bool_decide; [done|]. set_solver.
      * assert (id ∈ toolOrder t); [|case_bool_decide; set_solver]. apply (a_order l t Ha id s); [|done].
        destruct (tools t !! field w "toolCallId"); [done|]. by rewrite lookup_insert_ne in Hs.
    + simpl. by apply open_keys_reopened.
    + by intros [].
Qed.

Lemma closed_agrees w l l' t k mv :
  agrees l t -> event_type (field w "type") = Some k -> move_of k w = mv -> lives mv l l' ->
  k ∈ [TEXT_MESSAGE_END; REASONING_MESSAGE_END; REASONING_END; TOOL_CALL_END] -> agrees l' (capture_boundary w t).1.
Proof.
  intros Ha Hk <- Hl Hin. unfold capture_boundary. rewrite Hk. repeat (apply elem_of_cons in Hin as [->|Hin]); [..|by apply not_elem_of_nil in Hin];
    simpl in Hl; inversion Hl as [| | | | |? ? ? ? _ _ Hr| | |]; subst; rewrite (a_open l t Ha) in Hr; cbn [journal_lanes open_lanes] in Hr;
    (eapply lane_agrees; [exact Ha|exact Hr|done|done|done|done| | |]); cbn [fst];
    try (by keeps_order Ha); try (by intros []); try (by apply open_keys_ended); try (by apply open_keys_closed).
  intros id s. simpl. rewrite lookup_alter_Some. intros [(<- & s0 & Hs & ->)|[_ Hs]] He; [done|]. by apply (a_order l t Ha id s).
Qed.

Lemma used_agrees w l l' t k mv :
  agrees l t -> event_type (field w "type") = Some k -> move_of k w = mv -> lives mv l l' ->
  k ∈ [TEXT_MESSAGE_CONTENT; REASONING_MESSAGE_CONTENT; TOOL_CALL_ARGS; TOOL_CALL_RESULT; STATE_SNAPSHOT; STATE_DELTA; MESSAGES_SNAPSHOT;
       ACTIVITY_SNAPSHOT; ACTIVITY_DELTA; REASONING_ENCRYPTED_VALUE; CUSTOM; RAW] -> agrees l' (capture_boundary w t).1.
Proof.
  intros Ha Hk <- Hl Hin. assert (same_life l l') as Hsame.
  { repeat (apply elem_of_cons in Hin as [->|Hin]); [..|by apply not_elem_of_nil in Hin]; simpl in Hl; by inversion Hl. }
  assert (similar t (capture_boundary w t).1 /\ children (capture_boundary w t).1 = children t) as [Hsim Hch].
  { unfold capture_boundary. rewrite Hk. clear Hl Hk. repeat (apply elem_of_cons in Hin as [->|Hin]); [..|by apply not_elem_of_nil in Hin]; cbn [fst];
      (split; [|done]); first [apply similar_refl|by apply similar_texts|by apply similar_reasonings|by apply similar_tools]. }
  eapply agrees_similar; [exact Ha|exact Hsim| | |exact Hsame].
  - intros id. unfold subagent_lives. by rewrite Hch.
  - intros id s. rewrite Hch. apply (a_ended l t Ha).
Qed.

(** ** The run *)
Lemma ended_agrees w l l' t k mv :
  agrees l t -> event_type (field w "type") = Some k -> move_of k w = mv -> lives mv l l' -> k ∈ [RUN_FINISHED; RUN_ERROR] ->
  agrees l' (capture_boundary w t).1.
Proof.
  intros [A B C D E F G] Hk <- Hl Hin. unfold capture_boundary. rewrite Hk.
  assert (running l' = false /\ subagents l' = subagents l /\ forall s, open l' s = open l s) as (R & S & O).
  { repeat (apply elem_of_cons in Hin as [->|Hin]); [..|by apply not_elem_of_nil in Hin]; simpl in Hl; inversion Hl; subst; (split; [done|]; split; [done|]);
      intros s; congruence. }
  assert (agrees l' (set_done true t)) as Hdone; [|by repeat (apply elem_of_cons in Hin as [->|Hin]); [..|by apply not_elem_of_nil in Hin]].
  split; try done.
  - intros s. rewrite O, C. by destruct s.
  - intros id. rewrite S, D. done.
Qed.

Lemma started_agrees w l l' thread run t' :
  event_type (field w "type") = Some RUN_STARTED -> lives StartRun l l' -> capture_boundary w (NewTranslator thread run) = (t', None) -> agrees l' t'.
Proof.
  intros Hk Hl. unfold capture_boundary. rewrite Hk. unfold capture_run_started. case_bool_decide; [done|]. cbv zeta. intros E.
  inversion Hl as [? ? _ R _ O S| | | | | | | |]; subst.
  assert (forall n, agrees l' (set_started true (set_nativeTurnID n (NewTranslator thread run)))) as Hall.
  { intros n. split; try done.
    - intros s. rewrite O. symmetry. destruct s; simpl; try apply open_keys_empty. apply set_eq. intros x. rewrite elem_open_states.
      split; [intros (k & s & H0 & _); by rewrite lookup_empty in H0|set_solver].
    - intros id. by rewrite S, lookup_empty. }
  injection E as <-. case_bool_decide; [apply Hall|]. apply (Hall "").
Qed.

(** ** The subagents *)
Lemma child_agrees id l l' t t' b :
  agrees l t -> steps t' = steps t -> tools t' = tools t -> toolOrder t' = toolOrder t -> same_run t t' -> (forall s, open_lanes t' s = open_lanes t s) ->
  (forall x, x <> id -> get x (children t') = get x (children t)) -> subagent_lives t' id = Some b ->
  (forall s, get id (children t') = Some s -> child_done s = true -> child_started s = true) ->
  running l' = running l -> (forall s, open l' s = open l s) -> subagents l' = <[id := b]> (subagents l) -> agrees l' t'.
Proof.
  intros [A B C D E F G] H1 H2 H3 [R1 R2] H4 H5 Hs He L1 L2 L3. split.
  - congruence.
  - congruence.
  - intros s. rewrite L2, C. destruct s; cbn [journal_lanes]; try (symmetry; apply H4). by rewrite H1.
  - intros x. rewrite L3. destruct (decide (x = id)) as [->|Hne]; [by rewrite lookup_insert_eq|]. rewrite lookup_insert_ne, D by done.
    unfold subagent_lives. by rewrite H5.
  - intros x s. destruct (decide (x = id)) as [->|Hne]; [apply He|]. rewrite H5 by done. apply E.
  - intros x s. rewrite H2, H3. apply F.
  - intros x s. rewrite H1. apply G.
Qed.

Lemma subagent_kept inv t :
  let t' := (subagent inv t).2 in
  steps t' = steps t /\ tools t' = tools t /\ toolOrder t' = toolOrder t /\ same_run t t' /\ (forall s, open_lanes t' s = open_lanes t s)
  /\ exists s, get (InvocationID inv) (children t') = Some s
     /\ (get (InvocationID inv) (children t) = Some s \/ (get (InvocationID inv) (children t) = None /\ child_started s = false /\ child_done s = false))
     /\ forall x, x <> InvocationID inv -> get x (children t') = get x (children t).
Proof.
  cbv zeta. unfold subagent. destruct (get (InvocationID inv) (children t)) as [s|] eqn:E.
  - do 5 (split; [done|]). exists s. split; [done|]. split; [by left|done].
  - do 4 (split; [done|]). split; [by intros []|]. eexists. split; [apply get_put_eq|]. split; [by right|]. intros x Hx. simpl. by apply get_put_ne.
Qed.

Lemma started_child_agrees inv parent l l' t :
  agrees l t -> lives (StartSubagent (InvocationID inv) parent) l l' -> agrees l' (update_child (InvocationID inv) start_child (subagent inv t).2).
Proof.
  intros Ha Hl. inversion Hl as [| | | | | |? ? ? ? _ Hn _ L1 L2 L3 L4| |]; subst. clear Hl.
  destruct (subagent_kept inv t) as (K1 & K2 & K3 & [K4 K5] & K6 & s & K7 & K8 & K9). set (u := (subagent inv t).2) in *.
  assert (child_done s = false) as Hd.
  { destruct K8 as [H|(_ & _ & H)]; [|done]. rewrite (a_subagents l t Ha) in Hn. unfold subagent_lives in Hn. rewrite H in Hn. simpl in Hn.
    unfold subagent_life in Hn. pose proof (a_ended l t Ha _ _ H) as He. destruct (child_done s), (child_started s); try done. by specialize (He eq_refl). }
  assert (forall x, get x (children (update_child (InvocationID inv) start_child u)) = if decide (x = InvocationID inv) then Some (start_child s) else get x (children u)) as Hg.
  { intros x. unfold update_child. rewrite K7. simpl. by rewrite get_put. }
  eapply (child_agrees (InvocationID inv)); [exact Ha| | | | | | | | |done|done|exact L4]; try (unfold update_child; rewrite K7; done).
  - intros x Hx. rewrite Hg, decide_False by done. by apply K9.
  - unfold subagent_lives. rewrite Hg, decide_True by done. simpl. unfold subagent_life, start_child. simpl. by rewrite Hd.
  - intros s0. rewrite Hg, decide_True by done. by intros [= <-].
Qed.

Lemma ended_child_agrees id l l' t : agrees l t -> lives (EndSubagent id) l l' -> agrees l' (update_child id finish_child t).
Proof.
  intros Ha Hl. inversion Hl as [| | | | | | |? ? ? _ Hn L1 L2 L3 L4|]; subst. clear Hl.
  rewrite (a_subagents l t Ha) in Hn. unfold subagent_lives in Hn. destruct (get id (children t)) as [s|] eqn:E; [|done]. simpl in Hn.
  unfold subagent_life in Hn. destruct (child_started s) eqn:Es; [|done]. clear Hn.
  assert (forall x, get x (children (update_child id finish_child t)) = if decide (x = id) then Some (finish_child s) else get x (children t)) as Hg.
  { intros x. unfold update_child. rewrite E. simpl. by rewrite get_put. }
  eapply (child_agrees id); [exact Ha| | | | | | | | |done|done|exact L4]; try (unfold update_child; rewrite E; done).
  - intros x Hx. by rewrite Hg, decide_False.
  - unfold subagent_lives. rewrite Hg, decide_True by done. simpl. unfold subagent_life, finish_child. simpl. by rewrite Es.
  - intros s0. rewrite Hg, decide_True by done. intros [= <-] _. done.
Qed.

Lemma announced_agrees w l l' t t' parent :
  agrees l t -> lives (StartSubagent (lane w) parent) l l' -> capture_subagent_started w t = (t', None) -> agrees l' t'.
Proof.
  intros Ha Hl. unfold capture_subagent_started. cbv zeta. fold (event_invocation w). set (inv := lenient_invocation (event_invocation w)).
  case_bool_decide as Hi.
  - case_bool_decide as Hm; [done|]. assert (InvocationID inv = lane w) as E.
    { destruct (decide (InvocationID inv = field w "subagentRunId")); [done|]. destruct Hm. by left. }
    rewrite <- E in Hl. pose proof (started_child_agrees inv parent l l' t Ha Hl) as H.
    case_bool_decide; [destruct (validateInvocation inv t); [done|]|]; by intros [= <-].
  - intros [= <-]. by apply (started_child_agrees (mkInvocation false "" (lane w) "" "" (field w "name") "" "" "" "" "" "") parent l).
Qed.
End Agree.

(** ** The message graph *)
Section Messages.
Context (decode_error : string) (apply_patch : json -> json -> json + string).

Lemma message_boundary k w t :
  event_type (field w "type") = Some k ->
  capture_message decode_error apply_patch true w t = capture_message decode_error apply_patch false w t.
Proof.
  intros Hk. unfold capture_message. rewrite Hk.
  assert (forall x, event_type x = None -> bool_decide (field w "type" = x) = false) as H.
  { intros x Hx. apply bool_decide_eq_false. intros E. rewrite E in Hk. congruence. }
  by rewrite !H by done.
Qed.

(** Subagents that are registered and have not started are none of the life. *)
Definition registers (t t' : Translator) : Prop :=
  (forall id, subagent_lives t' id = subagent_lives t id)
  /\ ((forall id s, get id (children t) = Some s -> child_done s = true -> child_started s = true) ->
      forall id s, get id (children t') = Some s -> child_done s = true -> child_started s = true).

Lemma registers_same t t' : children t' = children t -> registers t t'.
Proof. intros E. unfold registers, subagent_lives. by rewrite E. Qed.

Lemma capture_invocation_registers w t : registers t (capture_invocation decode_error w t).1.
Proof.
  unfold capture_invocation. destruct (get "value" w) as [[]|]; try (by apply registers_same). cbv zeta.
  destruct (typed_string _ _); [|by apply registers_same]. destruct (typed_string _ _); [|by apply registers_same].
  destruct (_ ≫= _) as [inv|]; [|by apply registers_same]. case_bool_decide; [by apply registers_same|].
  destruct (validateInvocation inv t); [by apply registers_same|]. cbn [fst].
  unfold subagent. destruct (get (InvocationID inv) (children t)) eqn:E; [by apply registers_same|]. split.
  - intros id. unfold subagent_lives. simpl. rewrite get_put. destruct (decide _) as [->|]; [by rewrite E|done].
  - intros He id x. simpl. rewrite get_put. destruct (decide _); [by intros [= <-]|apply He].
Qed.

Lemma capture_message_registers k w t t' :
  event_type (field w "type") = Some k -> capture_message decode_error apply_patch true w t = Captured t' -> registers t t'.
Proof.
  intros Hk E. destruct (decide (k = CUSTOM /\ field w "name" = "agently.invocation")) as [[-> Hn]|Hne].
  - revert E. unfold capture_message. rewrite Hk, (bool_decide_true (field w "name" = "agently.invocation")) by done.
    assert (forall x, event_type x = None -> bool_decide (field w "type" = x) = false) as H.
    { intros x Hx. apply bool_decide_eq_false. intros E. rewrite E in Hk. congruence. }
    rewrite !H by done. pose proof (capture_invocation_registers w t) as Hr. destruct (capture_invocation _ w t) as [t1 [e|]]; [done|].
    rewrite Hn. intros [= <-]. exact Hr.
  - apply registers_same. assert (event_type (field w "type") = Some CUSTOM -> field w "name" <> "agently.invocation") as Hc.
    { rewrite Hk. intros [= ->] Hn. by apply Hne. }
    pose proof (capture_message_children decode_error apply_patch true w t Hc) as H. by rewrite E in H.
Qed.
End Messages.

(** ** Entries of the journal *)
Section Entries.
Context (ws : list Object) (Hws : journal ws).
Context (decode_error : string) (apply_patch : json -> json -> json + string).

Ltac by_case := first [eassumption|reflexivity|keys].

Lemma boundary_agrees w l l' t t' k :
  agrees ws l t -> w ∈ ws -> event_type (field w "type") = Some k -> k <> RUN_STARTED -> lives (move_of k w) l l' ->
  capture_boundary w t = (t', None) -> agrees ws l' t'.
Proof.
  intros Ha Hw Hk Hr Hl E. assert (forall x, event_type x = Some STEP_STARTED \/ event_type x = Some STEP_FINISHED -> x ∈ ["STEP_STARTED"; "STEP_FINISHED"]) as Hstep.
  { intros x [H|H]; apply get_In in H; repeat (destruct H as [H|H]; [injection H; intros; subst; try done; keys|]); done. }
  assert (agrees ws l' (capture_boundary w t).1) as H; [|by rewrite E in H].
  destruct k; try done; try (eapply opened_agrees; by_case);
    try (eapply closed_agrees; by_case);
    try (eapply used_agrees; by_case); try (eapply ended_agrees; by_case).
  all: simpl in Hl; rewrite E; cbn [fst]; unfold capture_boundary in E; rewrite Hk in E.
  - injection E as <-. inversion Hl; subst. eapply start_step_agrees; try done. unfold step_event. apply bool_decide_eq_true. apply Hstep. by left.
  - injection E as <-. inversion Hl; subst. eapply finish_step_agrees; try done. unfold step_event. apply bool_decide_eq_true. apply Hstep. by right.
  - by eapply announced_agrees.
  - injection E as <-. by eapply ended_child_agrees.
  - injection E as <-. by eapply ended_child_agrees.
Qed.

Lemma message_agrees w l t t' k :
  agrees ws l t -> event_type (field w "type") = Some k -> (k = TOOL_CALL_START -> running_call t (field w "toolCallId")) ->
  capture_message decode_error apply_patch true w t = Captured t' -> agrees ws l t'.
Proof.
  intros Ha Hk Hc E. destruct (capture_message_registers decode_error apply_patch k w t t' Hk E) as [R1 R2].
  rewrite (message_boundary decode_error apply_patch k w t Hk) in E. assert (admissible t w) as Had.
  { split; [intros Ht; by rewrite Ht in Hk|]. intros Ht. apply Hc. rewrite Ht in Hk. by injection Hk as <-. }
  pose proof (capture_message_similar decode_error apply_patch w t Had) as Hs. rewrite E in Hs.
  eapply agrees_similar; [exact Ha|exact Hs|exact R1| |done]. apply R2, (a_ended ws l t Ha).
Qed.

Lemma entry_agrees w l l' t t' mv :
  agrees ws l t -> w ∈ ws -> event_move w = Some mv -> mv <> StartRun -> lives mv l l' ->
  capture_entry decode_error apply_patch w t = Restored t' -> agrees ws l' t'.
Proof.
  intros Ha Hw Hm Hn Hl. unfold event_move in Hm. destruct (event_type (field w "type")) as [k|] eqn:Hk; [|done]. injection Hm as <-.
  unfold capture_entry, captureStandard. destruct (capture_boundary w t) as [t1 [err|]] eqn:E1; [done|].
  destruct (capture_message _ _ _ _ _) as [t2| |] eqn:E2; [|done..]. intros [= <-].
  assert (agrees ws l' t1) as H1 by (eapply boundary_agrees; [exact Ha|exact Hw|exact Hk| |exact Hl|exact E1]; by intros ->).
  eapply message_agrees; [exact H1|exact Hk| |exact E2]. intros ->. unfold capture_boundary in E1. rewrite Hk in E1. injection E1 as <-. simpl. split.
  - destruct (tools t !! field w "toolCallId") as [s|] eqn:E; simpl; rewrite lookup_alter_eq; [rewrite E|rewrite lookup_insert_eq]; by eexists.
  - simpl. case_bool_decide; [done|set_solver].
Qed.
End Entries.

(** ** The journal of a run *)
Section Journal.
Context (ValidateEvent : json -> bool) (decode_error : string) (apply_patch : json -> json -> json + string) (invalid : option json -> string).
Notation capture_journal := (capture_journal ValidateEvent decode_error apply_patch invalid).
Notation capture_entry := (capture_entry decode_error apply_patch).
Notation RestoreTranslator := (RestoreTranslator ValidateEvent decode_error apply_patch invalid).

Lemma capture_journal_cons w raws t t' :
  capture_journal (JObject w :: raws) t = Restored t' -> exists t1, capture_entry w t = Restored t1 /\ capture_journal raws t1 = Restored t'.
Proof.
  simpl. destruct (negb _); [done|]. destruct (capture_entry w t) as [t1| |] eqn:E; [|done..]. intros H. by exists t1.
Qed.

Lemma journal_agrees ws rest mvs l l' t t' :
  journal ws -> agrees ws l t -> (forall w, w ∈ rest -> w ∈ ws) -> mapM event_move rest = Some mvs -> StartRun ∉ mvs -> trace l mvs l' ->
  capture_journal (JObject <$> rest) t = Restored t' -> agrees ws l' t'.
Proof.
  intros Hj. revert mvs l t. induction rest as [|w rest IH]; intros mvs l t Ha Hin Hm Hn Ht E.
  { injection Hm as <-. inversion Ht; subst. simpl in E. by injection E as <-. }
  cbn [mapM] in Hm. destruct (event_move w) as [mv|] eqn:Ew; [|done]. cbn [mbind option_bind] in Hm.
  destruct (mapM event_move rest) as [mvs'|] eqn:Em; [|done]. injection Hm as <-. inversion Ht as [|? ? l1 ? ? Hl Ht1]; subst.
  cbn [fmap list_fmap] in E. apply capture_journal_cons in E as (t1 & E1 & E2). apply not_elem_of_cons in Hn as [Hn1 Hn2].
  assert (w ∈ ws) as Hw by (apply Hin, elem_of_cons; by left).
  assert (agrees ws l1 t1) as H1 by (apply (entry_agrees ws Hj decode_error apply_patch w l l1 t t1 mv); try done; congruence).
  apply (IH mvs' l1 t1); try done. intros x Hx. apply Hin, elem_of_cons. by right.
Qed.

Lemma restore_child_flags run raws t owner s s' :
  restore_child decode_error apply_patch run raws t owner s = Restored s' -> child_started s' = child_started s /\ child_done s' = child_done s.
Proof.
  unfold restore_child. destruct (child_done s) eqn:Ed; [intros [= <-]; by rewrite Ed|]. cbv zeta.
  destruct (capture_child _ _ _ _ _); [|done..]. intros [= <-]. by rewrite <- Ed.
Qed.

Lemma restore_children_lives run raws t cs cs' id :
  restore_children decode_error apply_patch run raws t cs = Restored cs' ->
  (s ← get id cs'; subagent_life s) = (s ← get id cs; subagent_life s).
Proof.
  revert cs'. induction cs as [|[owner s] cs IH]; intros cs' E; simpl in E; [by injection E as <-|].
  destruct (restore_child _ _ _ _ _ _ _) as [s'| |] eqn:E1; [|done..]. destruct (restore_children _ _ _ _ _ cs) as [rest| |]; [|done..].
  injection E as <-. simpl. destruct (decide (id = owner)); [|by apply IH]. apply restore_child_flags in E1 as [H1 H2].
  simpl. unfold subagent_life. by rewrite H1, H2.
Qed.

End Journal.

(** ** The journal of a translated run *)
Definition journal_ok (ws : list Object) : bool :=
  forallb (fun w => ValidString (lane w) && ValidString (field w "stepName") && (negb (tagged w) || bool_decide (lane w <> ""))) ws
  && forallb (fun w => forallb (fun w' => negb (step_event w && step_event w') || bool_decide (step_key w <> step_key w' \/ stepKey w = stepKey w')) ws) ws.

Lemma journal_ok_spec ws : journal_ok ws = true -> journal ws.
Proof.
  intros H. apply andb_prop in H as [H1 H2]. rewrite forallb_forall in H1, H2. setoid_rewrite <- list_elem_of_In in H1. setoid_rewrite <- list_elem_of_In in H2.
  split.
  - intros w Hw. apply H1 in Hw. apply andb_prop in Hw as [Hw _]. by apply andb_prop in Hw.
  - intros w Hw Ht. apply H1 in Hw. apply andb_prop in Hw as [_ Hw]. rewrite Ht in Hw. by apply bool_decide_eq_true in Hw.
  - intros w w' Hw Hw' Hs Hs' E. specialize (H2 w Hw). rewrite forallb_forall in H2. apply list_elem_of_In, H2 in Hw'. rewrite Hs, Hs' in Hw'.
    apply bool_decide_eq_true in Hw' as [?|?]; done.
Qed.

Lemma moved_wires evs : mapM moved evs = mapM event_move (wire <$> evs).
Proof. induction evs as [|ev evs IH]; [done|]. cbn [fmap list_fmap mapM]. by rewrite <- IH. Qed.

(** A run that is cut off: its text, its model call and its reasoning are open. *)
Definition cut_run : list NativeEvent :=
  [native EventTypeTurnStarted blank; says_delta "a" "hello" (Some 0%Z) 1; native EventTypeModelStarted (mkShape "a" "" "" "" "" "" "" None None None "" "" 0);
   native EventTypeReasoningDelta (mkShape "r" "" "" "" "" "hm" "" None None None "" "" 0); starts_tool "one"].
Definition translate_cut : option (list Event * Translator) :=
  translate_all by_elements accept valid_presentation "json" no_patch cut_run fresh.
Definition restore_cut (out : list Event) : restored Translator :=
  RestoreTranslator accept "json" no_patch invalid_text "thread" "run" (JObject <$> (wire <$> out)).

Lemma cut_run_emits :
  exists out t', translate_cut = Some (out, t') /\ done t' = false /\ emits idle out (run_life false t').
Proof.
  assert (Forall (fun e => ValidString (modelIdentity e) = true) cut_run) as Hv by (repeat (apply list.Forall_cons; split; [reflexivity|]); by apply list.Forall_nil).
  destruct (opened_sane by_elements by_elements_all accept "thread" "run" "" None fresh eq_refl) as (Hs & Hd & Hi).
  destruct (translate_all_step by_elements by_elements_all accept valid_presentation "json" no_patch cut_run fresh Hv Hd Hs) as (out & t' & E & _ & Hf).
  assert (option_map (fun r => (done r.2, historyErr r.2)) translate_cut = Some (false, None)) as Hc by (vm_compute; reflexivity).
  unfold translate_cut in *. rewrite E in Hc. injection Hc as Hd' Hn. exists out, t'. split; [done|]. split; [done|].
  destruct Hf as [[_ He]|[Hd2 _]]; [vm_compute; reflexivity|done| |congruence].
  apply (emits_app _ (run_life false fresh) _ []); [|done]. apply emits_same. by symmetry.
Qed.

