(* ===== verification/Canonical.v ===== *)
(** * Canonical JSON of Go values

    [CanonicalJSON] of src/internal/tool/executionprotection/canonical.go: Go
    values with maps and slices as addresses into a heap, the encoder with its
    set of active visits, and the JSON data a value denotes. *)
From stdpp Require Import base gmap strings list fin_maps numbers sorting pretty.
From Stdlib Require Import ZArith Lia Ascii.
From S2P Require Import Prelude GoStrings Digest GoJson JsonQuote CanonicalNumber.

Open Scope Z_scope.

(** ** Floats

    A finite float is [±m * 2^e] with the mantissa normalised as IEEE 754 does
    ([m < 2^53], or [2^24] for 32 bits); [FormatFloat] is
    [strconv.FormatFloat(_, 'g', -1, bits)]: the shortest decimal that rounds to
    the float, the nearest one when several are as short. *)
Inductive float :=
| Finite (bits : Z) (neg : bool) (m e : Z)
| NonFinite.

Section FormatFloat.
Implicit Types (m e c k n : Z).

(** Twice and four times smaller neighbours: the bounds of the interval that
    rounds to the float, as multiples of [2^(e-2)]. *)
Definition float_bounds (bits m e : Z) : Z * Z :=
  let '(lowest, emin) := if bits =? 32 then (2 ^ 23, -149) else (2 ^ 52, -1074) in
  ((if (m =? lowest) && (emin <? e) then 4 * m - 1 else 4 * m - 2), 4 * m + 2).

(** [z * 2^e] and [z * 10^k] as fractions. *)
Definition scaled2 (z e : Z) : Z * Z := if e <? 0 then (z, 2 ^ (- e)) else (z * 2 ^ e, 1).
Definition scaled10 (z k : Z) : Z * Z := if k <? 0 then (z, 10 ^ (- k)) else (z * 10 ^ k, 1).
Definition frac_cmp (x y : Z * Z) : comparison := (x.1 * y.2 ?= y.1 * x.2).

Definition nat_digits (z : Z) : list ascii := bytes (pretty (Z.to_N z)).

(** The decimal point: [10^(k-1) <= x < 10^k]. *)
Fixpoint leading_zeros (fuel : nat) (num den : Z) : Z :=
  match fuel with
  | O => 0
  | S fuel => if den <=? num * 10 then 0 else leading_zeros fuel (num * 10) den - 1
  end.
Definition decimal_point (x : Z * Z) : Z :=
  let '(num, den) := x in
  if den <=? num then Z.of_nat (length (nat_digits (num / den))) else leading_zeros 400 num den.

(** The [n] digit candidates below and above [x]; the one that rounds to it. *)
Definition candidate (bits m e k n : Z) : option Z :=
  let x := scaled2 m e in
  let '(lo, hi) := float_bounds bits m e in
  let unit := scaled10 1 (k - n) in
  let below := (x.1 * unit.2) / (x.2 * unit.1) in
  let inside c :=
    let v := scaled10 c (k - n) in
    let strict := match frac_cmp (scaled2 lo (e - 2)) v, frac_cmp v (scaled2 hi (e - 2)) with Lt, Lt => true | _, _ => false end in
    let closed := match frac_cmp (scaled2 lo (e - 2)) v, frac_cmp v (scaled2 hi (e - 2)) with Gt, _ | _, Gt => false | _, _ => true end in
    if Z.even m then closed else strict in
  let nearer_above :=
    match 2 * (x.1 * unit.2) ?= (2 * below + 1) * (x.2 * unit.1) with
    | Gt => true | Lt => false | Eq => negb (Z.even below) end in
  match inside below, inside (below + 1) with
  | true, true => Some (if nearer_above then below + 1 else below)
  | true, false => Some below
  | false, true => Some (below + 1)
  | false, false => None
  end.

Fixpoint shortest (fuel : nat) (bits m e k n : Z) : Z * Z :=
  match fuel with
  | O => (0, n)
  | S fuel => match candidate bits m e k n with Some c => (c, n) | None => shortest fuel bits m e k (n + 1) end
  end.

(** The digits, without trailing zeros, and the decimal point. *)
Definition shortest_digits (bits m e : Z) : list ascii * Z :=
  if m =? 0 then ([], 0) else
  let k := decimal_point (scaled2 m e) in
  let '(c, n) := shortest 18 bits m e k 1 in
  let ds := nat_digits c in
  (rev (drop_zeros (rev ds)), k + (Z.of_nat (length ds) - n)).

Definition zeros_text (n : Z) : list ascii := replicate (Z.to_nat n) "0"%char.

(** [%e] and [%f] with as many digits as needed, chosen by [%g]. *)
Definition fmtE (ds : list ascii) (dp : Z) : list ascii :=
  let x := dp - 1 in
  take 1 ds ++ (if (1 <? length ds)%nat then "."%char :: drop 1 ds else [])
  ++ "e"%char :: (if x <? 0 then "-"%char else "+"%char)
  :: (if Z.abs x <? 10 then ["0"%char] else []) ++ nat_digits (Z.abs x).
Definition fmtF (ds : list ascii) (dp : Z) : list ascii :=
  let nd := Z.of_nat (length ds) in
  (if dp <=? 0 then ["0"%char] else take (Z.to_nat dp) ds ++ zeros_text (dp - nd))
  ++ (if dp <? nd then "."%char :: zeros_text (- dp) ++ drop (Z.to_nat dp) ds else []).

Definition FormatFloat (bits : Z) (neg : bool) (m e : Z) : list ascii :=
  let '(ds, dp) := shortest_digits bits m e in
  (if neg then ["-"%char] else [])
  ++ (if (dp - 1 <? -4) || (6 <=? dp - 1) then fmtE ds dp else fmtF ds dp).
End FormatFloat.

Example FormatFloat_1 : text (FormatFloat 64 false 7205759403792794 (-56)) = "0.1".
Proof. vm_compute. reflexivity. Qed.
Example FormatFloat_2 : text (FormatFloat 64 false 9007199254740991 971) = "1.7976931348623157e+308".
Proof. vm_compute. reflexivity. Qed.
Example FormatFloat_3 : text (FormatFloat 32 false 13421773 (-27)) = "0.1".
Proof. vm_compute. reflexivity. Qed.

(** ** Values

    What [reflect] shows of a value. Maps and slices are references: a map or
    the array behind a slice lives in the heap under its address ([Pointer()]),
    and a slice is the first [n] cells from its address on. *)
Definition addr := positive.

Inductive value :=
| Invalid                                   (* the zero reflect.Value *)
| Interface (v : option value)              (* an interface cell, nil or not *)
| Number (raw : string)                     (* json.Number *)
| Bool (b : bool)
| Str (s : string)
| Int (z : Z)
| Uint (z : Z)
| Float (f : float)
| Map (keyType : option string) (m : option addr)   (* the key type when it is not a string; None: nil *)
| Slice (s : option (addr * nat))
| Array (l : list value)
| Other (typ : string).                     (* pointers, structs, functions, ... *)

Record heap := mkHeap { maps : gmap addr (gmap string value); cells : gmap addr (list value) }.

Definition map_at (h : heap) (a : addr) : gmap string value := default ∅ (maps h !! a).
Definition slice_at (h : heap) (a : addr) (n : nat) : list value := take n (default [] (cells h !! a)).

(** [MapKeys] followed by [sort.Slice]. *)
Definition sorted_keys {A} (m : gmap string A) : list string := merge_sort string_le (elements (dom m)).

(** ** The encoder *)
Inductive visit := VMap (a : addr) | VSlice (a : addr).
#[export] Instance visit_dec : EqDecision visit.
Proof. solve_decision. Defined.

Definition output := result CanonicalError (list ascii).

(** [None]: out of fuel. The fuel bounds the number of references followed. *)
Definition fuelled := option output.

Definition lift (o : output) : fuelled := Some o.
Definition then_ (x : fuelled) (k : list ascii -> fuelled) : fuelled :=
  match x with
  | Some (Ok b) => k b
  | e => e
  end.

(** The elements of an array, separated by commas, up to the first error. *)
Fixpoint write_elements (w : value -> fuelled) (first : bool) (l : list value) : fuelled :=
  match l with
  | [] => lift (Ok [])
  | v :: l =>
      then_ (w v) (fun b => then_ (write_elements w false l) (fun r =>
        lift (Ok ((if first then [] else [","%char]) ++ b ++ r))))
  end.

(** The members of an object in the order of the sorted keys. *)
Fixpoint write_members (w : value -> fuelled) (m : gmap string value) (first : bool) (keys : list string) : fuelled :=
  match keys with
  | [] => lift (Ok [])
  | key :: keys =>
      if negb (ValidString key) then lift (Err InvalidUTF8Key) else
      then_ (w (default Invalid (m !! key))) (fun b => then_ (write_members w m false keys) (fun r =>
        lift (Ok ((if first then [] else [","%char]) ++ json_quote key ++ ":"%char :: b ++ r))))
  end.

Definition bracketed (o c : ascii) (x : fuelled) : fuelled := then_ x (fun b => lift (Ok (o :: b ++ [c]))).

(** [canonicalEncoder.write]. [e.active] is passed down instead of updated: the
    deferred [delete] restores it, because the visit was not active before.
    [deref] encodes the content behind a reference. *)
Section Write.
Context (h : heap) (deref : list visit -> value -> fuelled) (active : list visit).

Fixpoint write_value (v : value) : fuelled :=
  match v with
  | Invalid => lift (Ok (bytes "null"))
  | Interface None => lift (Ok (bytes "null"))
  | Interface (Some v) => write_value v
  | Number raw => lift (normalizeJSONNumber (bytes raw))
  | Bool b => lift (Ok (bytes (if b then "true" else "false")))
  | Str s => if negb (ValidString s) then lift (Err InvalidUTF8String) else lift (Ok (json_quote s))
  | Int z => lift (normalizeJSONNumber (FormatInt z))
  | Uint z => lift (normalizeJSONNumber (FormatInt z))
  | Float NonFinite => lift (Err NonFiniteFloat)
  | Float (Finite bits neg m e) => lift (normalizeJSONNumber (FormatFloat bits neg m e))
  | Map _ None => lift (Ok (bytes "null"))
  | Map (Some t) (Some _) => lift (Err (KeyNotString t))
  | Map None (Some a) =>
      if bool_decide (VMap a ∈ active) then lift (Err CyclicObject) else
      bracketed "{" "}" (write_members (deref (VMap a :: active)) (map_at h a) true (sorted_keys (map_at h a)))
  | Slice None => lift (Ok (bytes "null"))
  | Slice (Some (a, n)) =>
      if bool_decide (VSlice a ∈ active) then lift (Err CyclicArray) else
      bracketed "[" "]" (write_elements (deref (VSlice a :: active)) true (slice_at h a n))
  | Array l => bracketed "[" "]" (write_elements write_value true l)
  | Other t => lift (Err (UnsupportedType t))
  end.
End Write.

Fixpoint write (fuel : nat) (h : heap) (active : list visit) (v : value) : fuelled :=
  match fuel with
  | O => None
  | S fuel => write_value h (write fuel h) active v
  end.

(** More references than the heap has maps and arrays are never followed. *)
Definition enough (h : heap) : nat := size (maps h) + size (cells h) + 3.

Definition CanonicalJSON (h : heap) (v : value) : fuelled := write (enough h) h [] v.

(** ** The data a value denotes

    JSON values with numbers in scientific normal form and object members in
    key order. *)
Inductive json :=
| JNull
| JBool (b : bool)
| JStr (s : string)
| JNum (d : decimal)
| JArr (l : list json)
| JObj (l : list (string * json)).

(** A number is data when the encoder's bounds hold for it. *)
Definition json_number (raw : list ascii) : option json :=
  match number_value raw with
  | Some r => if decide (bounded r) then Some (JNum (decimal_of r)) else None
  | None => None
  end.

Section Denote.
Context (h : heap) (deref : value -> option json).

Fixpoint denote_value (v : value) : option json :=
  match v with
  | Invalid | Interface None | Map _ None | Slice None => Some JNull
  | Interface (Some v) => denote_value v
  | Number raw => json_number (bytes raw)
  | Bool b => Some (JBool b)
  | Str s => if ValidString s then Some (JStr s) else None
  | Int z | Uint z => json_number (FormatInt z)
  | Float NonFinite => None
  | Float (Finite bits neg m e) => json_number (FormatFloat bits neg m e)
  | Map (Some _) (Some _) => None
  | Map None (Some a) =>
      let m := map_at h a in
      let keys := sorted_keys m in
      if forallb ValidString keys
      then (fun ts => JObj (zip keys ts)) <$> mapM (fun key => deref (default Invalid (m !! key))) keys
      else None
  | Slice (Some (a, n)) => JArr <$> mapM deref (slice_at h a n)
  | Array l => JArr <$> mapM denote_value l
  | Other _ => None
  end.
End Denote.

(** Unfolding at most [n] references deep. A value without such a depth (a
    cyclic one) denotes nothing. *)
Fixpoint denote (n : nat) (h : heap) (v : value) : option json :=
  match n with
  | O => None
  | S n => denote_value h (denote n h) v
  end.
Definition denotes (h : heap) (v : value) (t : json) : Prop := exists n, denote n h v = Some t.

(** ** The text of JSON data *)
Fixpoint separated {A} (enc : A -> list ascii) (first : bool) (l : list A) : list ascii :=
  match l with
  | [] => []
  | x :: l => (if first then [] else [","%char]) ++ enc x ++ separated enc false l
  end.

Fixpoint encode (t : json) : list ascii :=
  match t with
  | JNull => bytes "null"
  | JBool b => bytes (if b then "true" else "false")
  | JStr s => json_quote s
  | JNum d => print_decimal d
  | JArr l => "["%char :: separated encode true l ++ ["]"%char]
  | JObj l => "{"%char :: separated (fun kt => json_quote kt.1 ++ ":"%char :: encode kt.2) true l ++ ["}"%char]
  end.

Definition demo_heap : heap := mkHeap
  {[ 1%positive := {[ "to" := Interface (Some (Str "a")); "n" := Interface (Some (Number "10.0")) ]};
     2%positive := {[ "self" := Interface (Some (Map None (Some 2%positive))) ]} ]}
  {[ 3%positive := [Interface (Some (Int 1000)); Interface None; Interface (Some (Map None (Some 1%positive)))] ]}.

Example CanonicalJSON_1 :
  option_map (fun o => match o with Ok l => text l | Err _ => "" end)
    (CanonicalJSON demo_heap (Slice (Some (3%positive, 3%nat))))
  = Some ("[1e3,null,{" +:+ dq +:+ "n" +:+ dq +:+ ":1e1," +:+ dq +:+ "to" +:+ dq +:+ ":" +:+ dq +:+ "a" +:+ dq +:+ "}]").
Proof. vm_compute. reflexivity. Qed.
Example CanonicalJSON_2 : CanonicalJSON demo_heap (Map None (Some 2%positive)) = Some (Err CyclicObject).
Proof. vm_compute. reflexivity. Qed.
Example CanonicalJSON_3 :
  encode <$> denote 3 demo_heap (Slice (Some (3%positive, 3%nat)))
  = Some (bytes ("[1e3,null,{" +:+ dq +:+ "n" +:+ dq +:+ ":1e1," +:+ dq +:+ "to" +:+ dq +:+ ":" +:+ dq +:+ "a" +:+ dq +:+ "}]")).
Proof. vm_compute. reflexivity. Qed.
