(* ===== verification/CanonicalProps.v ===== *)
(** * What canonical JSON guarantees

    Two values have the same canonical text exactly when they denote the same
    JSON data; the encoder always terminates, also on cyclic values; and it
    accepts exactly the values that denote data. *)
From stdpp Require Import base gmap strings list fin_maps numbers sorting pretty.
From Stdlib Require Import ZArith Lia Ascii.
From S2P Require Import Prelude GoStrings Digest GoJson JsonQuote CanonicalNumber Canonical.

Open Scope Z_scope.

(** ** Induction on nested data *)
Lemma value_nested_ind (P : value -> Prop) :
  (forall v, (forall w, v <> Interface (Some w)) -> (forall l, v <> Array l) -> P v) ->
  (forall v, P v -> P (Interface (Some v))) -> (forall l, Forall P l -> P (Array l)) -> forall v, P v.
Proof.
  intros Hbase Hi Ha. fix IH 1. intros v. destruct v as [|[v|]|raw|b|s|z|z|f|kt m|s|l|t];
    try (apply Hbase; congruence).
  - apply Hi, IH.
  - apply Ha. induction l as [|v l IHl]; constructor; [apply IH|exact IHl].
Qed.

Lemma json_nested_ind (P : json -> Prop) :
  (forall t, (forall l, t <> JArr l) -> (forall l, t <> JObj l) -> P t) ->
  (forall l, Forall P l -> P (JArr l)) -> (forall l, Forall (fun kt => P kt.2) l -> P (JObj l)) -> forall t, P t.
Proof.
  intros Hbase Ha Ho. fix IH 1. intros t. destruct t as [|b|s|d|l|l]; try (apply Hbase; congruence).
  - apply Ha. induction l as [|t l IHl]; constructor; [apply IH|exact IHl].
  - apply Ho. induction l as [|[k t] l IHl]; constructor; [apply IH|exact IHl].
Qed.

(** ** The text of well-formed data is uniquely readable *)
Fixpoint json_ok (t : json) : Prop :=
  match t with
  | JStr s => ValidString s = true
  | JNum d => normal_decimal d
  | JArr l => foldr (fun t P => json_ok t /\ P) True l
  | JObj l => foldr (fun kt P => (ValidString kt.1 = true /\ json_ok kt.2) /\ P) True l
  | _ => True
  end.

Lemma foldr_Forall {A} (P : A -> Prop) l : foldr (fun x Q => P x /\ Q) True l <-> Forall P l.
Proof. induction l as [|x l IH]; simpl; [by split|]. by rewrite list.Forall_cons, IH. Qed.

Definition delimiter (c : ascii) : bool := bool_decide (c ∈ [","%char; "]"%char; "}"%char]).
Definition number_char (c : ascii) : bool := is_digit c || bool_decide (c ∈ ["-"%char; "+"%char; "."%char; "e"%char]).

(** What may follow a value. *)
Definition ends (r : list ascii) : Prop := match r with [] => True | c :: _ => delimiter c = true end.

Lemma prefix_unique (p : ascii -> bool) l1 l2 r1 r2 :
  Forall (fun c => p c = true) l1 -> Forall (fun c => p c = true) l2 ->
  (forall c r, r1 = c :: r -> p c = false) -> (forall c r, r2 = c :: r -> p c = false) ->
  l1 ++ r1 = l2 ++ r2 -> l1 = l2 /\ r1 = r2.
Proof.
  intros H1. revert l2. induction H1 as [|c1 l1 Hc1 H1 IH]; intros l2 H2 Hr1 Hr2 E; destruct H2 as [|c2 l2 Hc2 H2].
  - done.
  - simpl in E. rewrite (Hr1 _ _ E) in Hc2. done.
  - simpl in E. rewrite (Hr2 _ _ (eq_sym E)) in Hc1. done.
  - injection E as -> E. destruct (IH l2 H2 Hr1 Hr2 E) as [-> ->]. done.
Qed.

Lemma digits_number_chars l : digitsOnly l = true -> Forall (fun c => number_char c = true) l.
Proof.
  induction l as [|c l IH]; [constructor|]. rewrite digitsOnly_cons. intros [Hc Hl]%andb_prop.
  constructor; [unfold number_char; by rewrite Hc|by apply IH].
Qed.

Lemma number_text_chars neg c w : digitsOnly c = true -> Forall (fun c => number_char c = true) (number_text neg c w).
Proof.
  intros Hd%digits_number_chars. unfold number_text. repeat apply Forall_app_2.
  - by destruct neg; repeat constructor.
  - by apply Forall_take.
  - case_match; [|done]. constructor; [done|]. by apply Forall_drop.
  - case_match; [|done]. constructor; [done|]. destruct (FormatInt_text w) as (sg & ds & -> & _ & Hds & Hsg).
    apply Forall_app_2; [|by apply digits_number_chars].
    destruct Hsg as [[[-> | ->] _]|[-> _]]; repeat constructor.
Qed.

Lemma print_decimal_chars d : normal_decimal d -> Forall (fun c => number_char c = true) (print_decimal d).
Proof.
  intros [->|[Hd Hc]]; [by repeat constructor|]. unfold print_decimal.
  destruct (significant d) eqn:E; [by repeat constructor|]. by apply number_text_chars.
Qed.

Lemma print_decimal_head d : normal_decimal d -> exists c r, print_decimal d = c :: r /\ number_char c = true.
Proof.
  intros Hn. pose proof (print_decimal_chars d Hn) as Hf. destruct (print_decimal d) as [|c r] eqn:E.
  - destruct (print_reads d Hn) as (x & Hv & _). by rewrite E in Hv.
  - exists c, r. by apply list.Forall_cons in Hf as [Hc _].
Qed.

Lemma delimiter_no_number c : delimiter c = true -> number_char c = false.
Proof. unfold delimiter. rewrite bool_decide_eq_true. rewrite !elem_of_cons, elem_of_nil. by intros [->|[->|[->|[]]]]. Qed.

Lemma ends_no_number r c r' : ends r -> r = c :: r' -> number_char c = false.
Proof. intros He ->. by apply delimiter_no_number. Qed.

Lemma print_decimal_app_inj d1 d2 r1 r2 :
  normal_decimal d1 -> normal_decimal d2 -> ends r1 -> ends r2 ->
  print_decimal d1 ++ r1 = print_decimal d2 ++ r2 -> d1 = d2 /\ r1 = r2.
Proof.
  intros N1 N2 E1 E2 E. apply (prefix_unique number_char) in E as [E ->];
    [|by apply print_decimal_chars|by apply print_decimal_chars|intros c r; by apply ends_no_number..].
  split; [by apply print_decimal_inj|done].
Qed.

(** The first byte of a value tells its kind. *)
Definition first_byte (t : json) (c : ascii) : Prop :=
  match t with
  | JNull => c = "n"%char
  | JBool b => c = if b then "t"%char else "f"%char
  | JStr _ => c = ch 34
  | JNum _ => number_char c = true
  | JArr _ => c = "["%char
  | JObj _ => c = "{"%char
  end.

Lemma encode_head t : json_ok t -> exists c r, encode t = c :: r /\ first_byte t c.
Proof.
  destruct t as [|b|s|d|l|l]; simpl; intros Hok; try by eexists _, _.
  - destruct b; by eexists _, _.
  - by apply print_decimal_head.
Qed.

Lemma first_byte_no_delimiter t c : first_byte t c -> delimiter c = false.
Proof.
  destruct t as [|[]|s|d|l|l]; simpl; try by intros ->.
  destruct (delimiter c) eqn:E; [|done]. by rewrite delimiter_no_number.
Qed.

(** Lists of values in brackets. *)
Lemma separated_app_inj {A} (enc : A -> list ascii) (ok : A -> Prop) (close : ascii) l1 l2 first r1 r2 :
  delimiter close = true -> close <> ","%char ->
  (forall x, ok x -> exists c r, enc x = c :: r /\ delimiter c = false) ->
  Forall (fun x => forall y r1 r2, ok x -> ok y -> ends r1 -> ends r2 -> enc x ++ r1 = enc y ++ r2 -> x = y /\ r1 = r2) l1 ->
  Forall ok l1 -> Forall ok l2 ->
  separated enc first l1 ++ close :: r1 = separated enc first l2 ++ close :: r2 -> l1 = l2 /\ r1 = r2.
Proof.
  intros Hclose Hcomma Hhead Hinj Hok1. revert first l2.
  induction Hok1 as [|x l1 Hx Hok1 IH]; intros first l2 Hok2 E; destruct Hok2 as [|y l2 Hy Hok2].
  - by injection E.
  - exfalso. destruct (Hhead y Hy) as (c & r & Ec & Hc). simpl in E. rewrite Ec in E.
    destruct first; simpl in E; injection E as E _; [congruence|done].
  - exfalso. destruct (Hhead x Hx) as (c & r & Ec & Hc). simpl in E. rewrite Ec in E.
    destruct first; simpl in E; injection E as E _; [congruence|done].
  - apply list.Forall_cons in Hinj as [Hinj Hinj'].
    assert (Hends : forall l r, ends (separated enc false l ++ close :: r)) by (intros [|? ?] ?; done).
    simpl in E. rewrite <- !app_assoc in E. apply app_inv_head in E.
    apply Hinj in E as [<- E]; [|done|done|apply Hends|apply Hends].
    apply IH in E as [-> ->]; done.
Qed.

Lemma encode_parts_head t : json_ok t -> exists c r, encode t = c :: r /\ delimiter c = false.
Proof. intros (c & r & E & Hc)%encode_head. exists c, r. split; [done|by eapply first_byte_no_delimiter]. Qed.

(** Two values whose first bytes agree are of the same kind. *)
Lemma first_byte_agree t1 t2 r1 r2 :
  json_ok t1 -> json_ok t2 -> encode t1 ++ r1 = encode t2 ++ r2 -> exists c, first_byte t1 c /\ first_byte t2 c.
Proof.
  intros (c1 & l1 & E1 & H1)%encode_head (c2 & l2 & E2 & H2)%encode_head. rewrite E1, E2. intros [= -> _]. eauto.
Qed.

Lemma encode_app_inj t1 t2 r1 r2 :
  json_ok t1 -> json_ok t2 -> ends r1 -> ends r2 -> encode t1 ++ r1 = encode t2 ++ r2 -> t1 = t2 /\ r1 = r2.
Proof.
  revert t2 r1 r2. induction t1 as [t1 Ha Ho|l IH|l IH] using json_nested_ind; intros t2 r1 r2 K1 K2 R1 R2 E;
    destruct (first_byte_agree _ _ _ _ K1 K2 E) as (c & F1 & F2).
  - destruct t1 as [|b1|s1|d1|l1|l1], t2 as [|b2|s2|d2|l2|l2]; simpl in F1, F2; subst;
      try done; try (by destruct b1); try (by destruct b2); try (by destruct (Ha l1)); try (by destruct (Ho l1)).
    + by injection E.
    + destruct b1, b2; try done; by injection E.
    + by apply json_quote_inj in E as [-> ->].
    + by apply print_decimal_app_inj in E as [-> ->].
  - destruct t2 as [|b2|s2|d2|l2|l2]; simpl in F1, F2; subst; try done; [by destruct b2|].
    cbn [encode app] in E. injection E as E. rewrite <- !app_assoc in E.
    apply (separated_app_inj _ json_ok) in E as [-> ->]; [done|done|done|apply encode_parts_head|exact IH| |];
      by apply foldr_Forall.
  - destruct t2 as [|b2|s2|d2|l2|l2]; simpl in F1, F2; subst; try done; [by destruct b2|].
    cbn [encode app] in E. injection E as E. rewrite <- !app_assoc in E.
    apply (separated_app_inj (fun kt => json_quote kt.1 ++ ":"%char :: encode kt.2) (fun kt => ValidString kt.1 = true /\ json_ok kt.2)) in E as [-> ->]; [done..| | | |].
    + intros [k t] _. eexists _, _. split; [reflexivity|done].
    + eapply Forall_impl; [exact IH|]. intros [k1 t1] Hk [k2 t2] x1 x2 [V1 O1] [V2 O2] X1 X2 Ek. cbn [fst snd] in *.
      rewrite <- (app_assoc (json_quote k1)), <- (app_assoc (json_quote k2)) in Ek.
      apply json_quote_inj in Ek as [-> Ek]; [|done..].
      injection Ek as Ek. by apply Hk in Ek as [-> ->].
    + by apply foldr_Forall in K1.
    + by apply foldr_Forall in K2.
Qed.

Lemma encode_inj t1 t2 : json_ok t1 -> json_ok t2 -> encode t1 = encode t2 -> t1 = t2.
Proof.
  intros K1 K2 E. apply (encode_app_inj t1 t2 [] []); [done..|]. by rewrite !app_nil_r.
Qed.

(** ** Unfolding deeper does not change what a value denotes *)
Lemma mapM_mono {A B} (f g : A -> option B) l k :
  Forall (fun x => forall y, f x = Some y -> g x = Some y) l -> mapM f l = Some k -> mapM g l = Some k.
Proof.
  rewrite !mapM_Some. intros Hfg. revert k. induction Hfg as [|x l Hx _ IH]; intros k Hk; inversion_clear Hk; constructor; auto.
Qed.

Lemma denote_value_mono h (d1 d2 : value -> option json) v t :
  (forall v t, d1 v = Some t -> d2 v = Some t) -> denote_value h d1 v = Some t -> denote_value h d2 v = Some t.
Proof.
  intros Hd. revert t. induction v as [v Hi Ha|v IH|l IH] using value_nested_ind; intros t.
  - destruct v as [|[w|]|raw|b|s|z|z|f|[kt|] [a|]|[[a n]|]|l|ty]; cbn [denote_value]; try done.
    + by destruct (Hi w).
    + case_match; [|done]. rewrite !fmap_Some. intros (ts & Hm & ->). exists ts. split; [|done].
      eapply mapM_mono; [|exact Hm]. apply Forall_true. intros key. apply Hd.
    + rewrite !fmap_Some. intros (ts & Hm & ->). exists ts. split; [|done].
      eapply mapM_mono; [|exact Hm]. apply Forall_true. intros x. apply Hd.
    + by destruct (Ha l).
  - apply IH.
  - cbn [denote_value]. rewrite !fmap_Some. intros (ts & Hm & ->). exists ts. split; [|done].
    by eapply mapM_mono.
Qed.

Lemma denote_mono n m h v t : denote n h v = Some t -> (n <= m)%nat -> denote m h v = Some t.
Proof.
  revert m v t. induction n as [|n IH]; intros m v t Hd Hle; [done|]. destruct m as [|m]; [lia|].
  cbn [denote] in *. eapply denote_value_mono; [|exact Hd]. intros w u Hw. apply IH; [done|lia].
Qed.

Lemma denote_agree n m h v t u : denote n h v = Some t -> denote m h v = Some u -> t = u.
Proof.
  intros Hn Hm. apply (denote_mono _ (max n m)) in Hn, Hm; [|lia..]. congruence.
Qed.

Lemma denotes_functional h v t1 t2 : denotes h v t1 -> denotes h v t2 -> t1 = t2.
Proof. intros [n Hn] [m Hm]. by eapply denote_agree. Qed.

(** ** What the encoder writes is the text of the data *)
Lemma then_Ok x k b : then_ x k = Some (Ok b) <-> exists a, x = Some (Ok a) /\ k a = Some (Ok b).
Proof.
  split; [|by intros (a & -> & Hk)]. destruct x as [[a|e]|]; simpl; [eauto|done|done].
Qed.

Lemma bracketed_Ok o c x b : bracketed o c x = Some (Ok b) <-> exists a, x = Some (Ok a) /\ b = o :: a ++ [c].
Proof.
  unfold bracketed. rewrite then_Ok. split; intros (a & Ha & E); exists a; (split; [done|]).
  - by injection E as <-.
  - by rewrite E.
Qed.

Lemma json_number_spec raw b :
  lift (normalizeJSONNumber raw) = Some (Ok b) <-> exists t, json_number raw = Some t /\ b = encode t /\ json_ok t.
Proof.
  unfold lift, json_number. split.
  - intros [= Hn]. apply normalizeJSONNumber_reads in Hn as (r & Hv & Hb & ->). rewrite Hv, decide_True by done.
    eexists. split; [done|]. split; [done|]. by eapply number_value_normal.
  - intros (t & Ht & -> & _). destruct (number_value raw) as [r|] eqn:Hv; [|done]. case_decide as Hb; [|done].
    injection Ht as <-. f_equal. apply normalizeJSONNumber_reads. by exists r.
Qed.

(** The agreement of a writer with a denotation, at one value. *)
Definition writes (w : value -> fuelled) (d : value -> option json) (v : value) : Prop :=
  forall b, w v = Some (Ok b) -> exists t, d v = Some t /\ b = encode t /\ json_ok t.

Lemma write_elements_sound w d first l b :
  Forall (writes w d) l -> write_elements w first l = Some (Ok b) ->
  exists ts, mapM d l = Some ts /\ b = separated encode first ts /\ Forall json_ok ts.
Proof.
  intros Hl. revert first b. induction Hl as [|v l Hv _ IH]; intros first b; cbn [write_elements].
  - intros [= <-]. by exists [].
  - rewrite then_Ok. intros (b1 & E1 & Hk). apply then_Ok in Hk as (b2 & E2 & [= <-]).
    apply Hv in E1 as (t & Et & -> & Ot). apply IH in E2 as (ts & Ets & -> & Ots).
    exists (t :: ts). cbn [mapM option_bind mbind]. rewrite Et. cbn. rewrite Ets. split; [done|]. split; [done|]. by constructor.
Qed.

Definition member_text (kt : string * json) : list ascii := json_quote kt.1 ++ ":"%char :: encode kt.2.

Lemma write_members_sound w d m first keys b :
  (forall v, writes w d v) -> write_members w m first keys = Some (Ok b) ->
  forallb ValidString keys = true
  /\ exists ts, mapM (fun key => d (default Invalid (m !! key))) keys = Some ts
               /\ b = separated member_text first (zip keys ts)
               /\ Forall (fun kt => ValidString kt.1 = true /\ json_ok kt.2) (zip keys ts).
Proof.
  intros Hw. revert first b. induction keys as [|key keys IH]; intros first b; cbn [write_members].
  - intros [= <-]. split; [done|]. by exists [].
  - destruct (ValidString key) eqn:Vk; [|done]. cbn [negb]. rewrite then_Ok. intros (b1 & E1 & Hk).
    apply then_Ok in Hk as (b2 & E2 & [= <-]). apply Hw in E1 as (t & Et & -> & Ot).
    apply IH in E2 as (Vks & ts & Ets & -> & Ots). split; [simpl; by rewrite Vk|].
    exists (t :: ts). cbn [mapM option_bind mbind]. rewrite Et. cbn. rewrite Ets. split; [done|].
    split; [|by constructor].
    cbn [zip zip_with separated]. f_equal. exact (app_assoc (json_quote key) (":"%char :: encode t) _).
Qed.

Lemma write_value_sound h w d active v :
  (forall active v, writes (w active) d v) -> writes (write_value h w active) (denote_value h d) v.
Proof.
  intros Hw. induction v as [v Hi Ha|v IH|l IH] using value_nested_ind.
  - intros b. destruct v as [|[u|]|raw|bo|s|z|z|[bits neg m e|]|[kt|] [a|]|[[a n]|]|l|ty]; cbn [write_value denote_value];
      try (intros E; discriminate E); try (by destruct (Hi u)); try (by destruct (Ha l)).
    all: try (intros [= <-]; by eexists).
    all: try (rewrite json_number_spec; exact id).
    + destruct (ValidString s) eqn:V; [|done]. intros [= <-]. eexists. split; [done|]. by split.
    + case_bool_decide; [done|]. rewrite bracketed_Ok. intros (b1 & E & ->).
      apply (write_members_sound _ d) in E as (V & ts & Ets & -> & Ots); [|apply Hw]. rewrite V, Ets.
      eexists. split; [done|]. split; [done|]. by apply (foldr_Forall (fun kt => ValidString kt.1 = true /\ json_ok kt.2)).
    + case_bool_decide; [done|]. rewrite bracketed_Ok. intros (b1 & E & ->).
      apply (write_elements_sound _ d) in E as (ts & Ets & -> & Ots); [|apply Forall_true; apply Hw]. rewrite Ets.
      eexists. split; [done|]. split; [done|]. by apply foldr_Forall.
  - exact IH.
  - intros b. cbn [write_value denote_value]. rewrite bracketed_Ok. intros (b1 & E & ->).
    apply (write_elements_sound _ _ _ _ _ IH) in E as (ts & Ets & -> & Ots). rewrite Ets.
    eexists. split; [done|]. split; [done|]. by apply foldr_Forall.
Qed.

Lemma write_sound fuel h active v : writes (write fuel h active) (denote fuel h) v.
Proof.
  revert active v. induction fuel as [|fuel IH]; intros active v; [by intros b|].
  cbn [write denote]. by apply write_value_sound.
Qed.

(** ** The encoder terminates on every heap, cyclic ones included *)
Lemma then_total x k : is_Some x -> (forall a, is_Some (k a)) -> is_Some (then_ x k).
Proof. intros [[a|e] ->] Hk; [apply Hk|by eexists]. Qed.

Lemma write_elements_total w first l : Forall (fun v => is_Some (w v)) l -> is_Some (write_elements w first l).
Proof.
  intros Hl. revert first. induction Hl as [|v l Hv _ IH]; intros first; [by eexists|]. cbn [write_elements].
  apply then_total; [done|]. intros a. apply then_total; [apply IH|]. intros r. by eexists.
Qed.

Lemma write_members_total w m first keys :
  (forall v, keys <> [] -> is_Some (w v)) -> is_Some (write_members w m first keys).
Proof.
  revert first. induction keys as [|key keys IH]; intros first Hw; [by eexists|]. cbn [write_members].
  case_match; [by eexists|]. apply then_total; [by apply Hw|]. intros a.
  apply then_total; [apply IH; intros v _; by apply Hw|]. intros r. by eexists.
Qed.

Definition all_visits (h : heap) : list visit :=
  (VMap <$> elements (dom (maps h))) ++ (VSlice <$> elements (dom (cells h))).

(** The references that can still be followed. *)
Definition unvisited (h : heap) (active : list visit) : list visit := filter (fun x => x ∉ active) (all_visits h).

Lemma unvisited_decreases h active x :
  x ∈ all_visits h -> x ∉ active -> (length (unvisited h (x :: active)) < length (unvisited h active))%nat.
Proof.
  unfold unvisited. induction (all_visits h) as [|y l IH]; intros Hin Hx; [by apply elem_of_nil in Hin|].
  assert (Hle : forall l : list visit,
    (length (filter (fun z => z ∉ x :: active) l) <= length (filter (fun z => z ∉ active) l))%nat).
  { clear. induction l as [|z l IH]; [done|]. rewrite !filter_cons. repeat case_decide; simpl; try lia.
    exfalso. set_solver. }
  rewrite !filter_cons. specialize (Hle l). destruct (decide (y = x)) as [->|Hne].
  - rewrite decide_False by set_solver. rewrite decide_True by done. simpl. lia.
  - assert (x ∈ l) as Hin' by set_solver. specialize (IH Hin' Hx).
    repeat case_decide; simpl; try lia; exfalso; set_solver.
Qed.

Lemma sorted_keys_empty {A} : sorted_keys (∅ : gmap string A) = [].
Proof. unfold sorted_keys. rewrite dom_empty_L, elements_empty. done. Qed.

Lemma write_value_total h w active v :
  (forall x u, x ∈ all_visits h -> x ∉ active -> is_Some (w (x :: active) u)) -> is_Some (write_value h w active v).
Proof.
  intros Hw. induction v as [v Hi Ha|v IH|l IH] using value_nested_ind; [|exact IH|].
  - destruct v as [|[u|]|raw|bo|s|z|z|[bits neg m e|]|[kt|] [a|]|[[a n]|]|l|ty]; cbn [write_value];
      try (by eexists); try (by destruct (Hi u)); try (by destruct (Ha l)).
    + case_match; by eexists.
    + case_bool_decide as Hx; [by eexists|]. apply then_total; [|intros; by eexists].
      apply write_members_total. intros v Hne. apply Hw; [|done]. apply elem_of_app. left.
      apply list_elem_of_fmap. exists a. split; [done|]. apply elem_of_elements, elem_of_dom.
      unfold map_at in Hne. destruct (maps h !! a); [by eexists|]. simpl in Hne. by rewrite sorted_keys_empty in Hne.
    + case_bool_decide as Hx; [by eexists|]. apply then_total; [|intros; by eexists].
      apply write_elements_total. apply Forall_forall. intros v Hv. apply Hw; [|done]. apply elem_of_app. right.
      apply list_elem_of_fmap. exists a. split; [done|]. apply elem_of_elements, elem_of_dom.
      unfold slice_at in Hv. destruct (cells h !! a); [by eexists|]. simpl in Hv. rewrite take_nil in Hv.
      by apply elem_of_nil in Hv.
  - cbn [write_value]. apply then_total; [by apply write_elements_total|]. intros. by eexists.
Qed.

Lemma write_total fuel h active v : (length (unvisited h active) < fuel)%nat -> is_Some (write fuel h active v).
Proof.
  revert active v. induction fuel as [|fuel IH]; intros active v Hf; [lia|]. cbn [write].
  apply write_value_total. intros x u Hin Hx. apply IH. pose proof (unvisited_decreases h active x Hin Hx). lia.
Qed.

Lemma CanonicalJSON_total h v : is_Some (CanonicalJSON h v).
Proof.
  apply write_total. unfold unvisited, enough.
  assert (length (all_visits h) = size (maps h) + size (cells h))%nat as Hl.
  { unfold all_visits. rewrite length_app, !length_fmap.
    change (length (elements (dom (maps h)))) with (size (dom (maps h))).
    change (length (elements (dom (cells h)))) with (size (dom (cells h))). by rewrite !size_dom. }
  pose proof (length_filter (fun x => x ∉ []) (all_visits h)). lia.
Qed.

(** More fuel does not change the answer. *)
Lemma then_mono (x y : fuelled) k1 k2 o :
  (forall o, x = Some o -> y = Some o) -> (forall a o, k1 a = Some o -> k2 a = Some o) ->
  then_ x k1 = Some o -> then_ y k2 = Some o.
Proof.
  intros Hx Hk. destruct x as [[a|e]|] eqn:E; simpl; [|intros [= <-]|done]; rewrite (Hx _ eq_refl); simpl; auto.
Qed.

Lemma write_elements_mono (w1 w2 : value -> fuelled) first l o :
  Forall (fun v => forall o, w1 v = Some o -> w2 v = Some o) l ->
  write_elements w1 first l = Some o -> write_elements w2 first l = Some o.
Proof.
  intros Hl. revert first o. induction Hl as [|v l Hv _ IH]; intros first o; [done|]. cbn [write_elements].
  apply then_mono; [done|]. intros a o'. apply then_mono; [|done]. intros o''. apply IH.
Qed.

Lemma write_members_mono (w1 w2 : value -> fuelled) m first keys o :
  (forall v o, w1 v = Some o -> w2 v = Some o) ->
  write_members w1 m first keys = Some o -> write_members w2 m first keys = Some o.
Proof.
  intros Hw. revert first o. induction keys as [|key keys IH]; intros first o; [done|]. cbn [write_members].
  case_match; [done|]. apply then_mono; [apply Hw|]. intros a o'. apply then_mono; [|done]. intros o''. apply IH.
Qed.

Lemma write_value_mono h (w1 w2 : list visit -> value -> fuelled) active v o :
  (forall active v o, w1 active v = Some o -> w2 active v = Some o) ->
  write_value h w1 active v = Some o -> write_value h w2 active v = Some o.
Proof.
  intros Hw. revert o. induction v as [v Hi Ha|v IH|l IH] using value_nested_ind; intros o; [|apply IH|].
  - destruct v as [|[u|]|raw|bo|s|z|z|[bits neg m e|]|[kt|] [a|]|[[a n]|]|l|ty]; cbn [write_value];
      try done; try (by destruct (Hi u)); try (by destruct (Ha l)); case_bool_decide; try done.
    + apply then_mono; [|done]. intros o'. apply write_members_mono. apply Hw.
    + apply then_mono; [|done]. intros o'. apply write_elements_mono. apply Forall_true. intros u. apply Hw.
  - cbn [write_value]. apply then_mono; [|done]. intros o'. by apply write_elements_mono.
Qed.

Lemma write_mono n m h active v o : write n h active v = Some o -> (n <= m)%nat -> write m h active v = Some o.
Proof.
  revert m active v o. induction n as [|n IH]; intros m active v o Hn Hle; [done|]. destruct m as [|m]; [lia|].
  cbn [write] in *. eapply write_value_mono; [|exact Hn]. intros active' u o' Hu. apply IH; [done|lia].
Qed.

(** ** Every value that denotes data is encoded

    A slice is identified by its address alone when cycles are looked for, so a
    slice that contains a shorter slice of the same array is taken for cyclic;
    [windows f] says that there is one length for each address. *)
Fixpoint windows (f : addr -> nat) (v : value) : Prop :=
  match v with
  | Interface (Some v) => windows f v
  | Slice (Some (a, n)) => n = f a
  | Array l => foldr (fun v P => windows f v /\ P) True l
  | _ => True
  end.
Definition heap_windows (f : addr -> nat) (h : heap) : Prop :=
  (forall a k v, map_at h a !! k = Some v -> windows f v)
  /\ (forall a l, cells h !! a = Some l -> Forall (windows f) l).

Definition reads (w : value -> fuelled) (d : value -> option json) (v : value) : Prop :=
  forall t, d v = Some t -> w v = Some (Ok (encode t)).

Lemma write_elements_complete w d first l ts :
  Forall (reads w d) l -> mapM d l = Some ts -> write_elements w first l = Some (Ok (separated encode first ts)).
Proof.
  intros Hl Hm%mapM_Some. revert first. induction Hm as [|v t l ts Et _ IH]; intros first; [done|].
  apply list.Forall_cons in Hl as [Hv Hl]. cbn [write_elements]. rewrite (Hv t Et). simpl. by rewrite IH.
Qed.

Lemma write_members_complete w d m first keys ts :
  Forall (fun key => reads w d (default Invalid (m !! key))) keys -> forallb ValidString keys = true ->
  mapM (fun key => d (default Invalid (m !! key))) keys = Some ts ->
  write_members w m first keys = Some (Ok (separated member_text first (zip keys ts))).
Proof.
  intros Hk Hv Hm%mapM_Some. revert first. induction Hm as [|key t keys ts Et _ IH]; intros first; [done|].
  apply list.Forall_cons in Hk as [Hkey Hk]. simpl in Hv. apply andb_prop in Hv as [Vk Hv]. cbn [write_members].
  rewrite Vk, (Hkey t Et). cbn [negb then_]. rewrite (IH Hk Hv). cbn [then_ lift zip zip_with separated].
  do 3 f_equal. apply (app_assoc (json_quote key) (":"%char :: encode t)).
Qed.

(** The value behind a reference on the path. *)
Definition visited (f : addr -> nat) (x : visit) : value :=
  match x with VMap a => Map None (Some a) | VSlice a => Slice (Some (a, f a)) end.

(** Every reference on the path needs more than [n] levels. *)
Definition deeper (f : addr -> nat) (h : heap) (n : nat) (active : list visit) : Prop :=
  Forall (fun x => forall m t, denote m h (visited f x) = Some t -> (n < m)%nat) active.

Lemma denote_least h v n t :
  denote n h v = Some t ->
  exists k, denote (S k) h v = Some t /\ (k < n)%nat /\ forall m u, denote m h v = Some u -> (k < m)%nat.
Proof.
  intros Hn. assert (Hl : exists k, denote k h v = Some t /\ (k <= n)%nat /\ forall m u, denote m h v = Some u -> (k <= m)%nat).
  { induction n as [|n IH]; [done|]. destruct (denote n h v) as [u|] eqn:E.
    - rewrite (denote_agree _ _ _ _ _ _ E Hn) in *. destruct (IH eq_refl) as (k & Hk & Hle & Hm). exists k. auto with lia.
    - exists (S n). split; [done|]. split; [lia|]. intros m u Hu.
      destruct (Nat.le_gt_cases (S n) m); [done|]. rewrite (denote_mono m n h v u) in E by (done || lia). done. }
  destruct Hl as (k & Hk & Hle & Hm). destruct k as [|k]; [done|].
  exists k. split; [done|]. split; [lia|]. intros m u Hu. specialize (Hm m u Hu). lia.
Qed.

(** At a reference that is not on the path, the content is smaller and the path
    extended by it is still deeper. *)
Lemma deeper_extend f h n active x t :
  deeper f h n active -> denote n h (visited f x) = Some t ->
  x ∉ active /\ exists k, denote (S k) h (visited f x) = Some t /\ (k < n)%nat /\ deeper f h k (x :: active).
Proof.
  intros Hd Hx. split.
  - intros Hin. unfold deeper in Hd. rewrite Forall_forall in Hd. specialize (Hd x Hin n t Hx). lia.
  - destruct (denote_least _ _ _ _ Hx) as (k & Hk & Hlt & Hm). exists k. split; [done|]. split; [done|].
    constructor; [done|]. eapply Forall_impl; [exact Hd|]. intros y Hy m u Hu. specialize (Hy m u Hu). lia.
Qed.

Lemma write_complete f h fuel n active v :
  heap_windows f h -> windows f v -> deeper f h n active -> (n <= fuel)%nat ->
  reads (write fuel h active) (denote n h) v.
Proof.
  intros [Hmaps Hcells]. revert n active v.
  induction fuel as [|fuel IH]; intros n active v Hv Hd Hle; [destruct n; [by intros t|lia]|].
  destruct n as [|n]; [by intros t|]. cbn [write denote].
  induction v as [v Hi Ha|v IHv|l IHl] using value_nested_ind; [|by apply IHv|].
  - destruct v as [|[u|]|raw|bo|s|z|z|[bits neg m e|]|[kt|] [a|]|[[a len]|]|l|ty]; intros t Ht; cbn [write_value];
      try done; try (by destruct (Hi u)); try (by destruct (Ha l)).
    all: try (by injection Ht as <-).
    all: try (apply json_number_spec; exists t; split; [exact Ht|]; split; [done|];
      cbn [denote_value] in Ht; unfold json_number in Ht; destruct (number_value _) eqn:Hr; [|done];
      case_decide; [|done]; injection Ht as <-; by eapply number_value_normal).
    + cbn [denote_value] in Ht. destruct (ValidString s); [by injection Ht as <-|done].
    + destruct (deeper_extend f h (S n) active (VMap a) t Hd Ht) as (Hin & k & Hk & Hlt & Hdeep).
      rewrite bool_decide_eq_false_2 by done. cbn [visited denote denote_value] in Hk.
      destruct (forallb ValidString (sorted_keys (map_at h a))) eqn:Hvalid; [|done].
      apply fmap_Some in Hk as (ts & Hm & ->). apply bracketed_Ok. eexists. split; [|reflexivity].
      eapply write_members_complete; [|exact Hvalid|exact Hm]. apply Forall_true. intros key. apply IH; [|done|lia].
      destruct (map_at h a !! key) as [u|] eqn:Eu; [by eapply Hmaps|done].
    + cbn [windows] in Hv. subst len.
      destruct (deeper_extend f h (S n) active (VSlice a) t Hd Ht) as (Hin & k & Hk & Hlt & Hdeep).
      rewrite bool_decide_eq_false_2 by done. cbn [visited denote denote_value] in Hk.
      apply fmap_Some in Hk as (ts & Hm & ->). apply bracketed_Ok. eexists. split; [|reflexivity].
      eapply write_elements_complete; [|exact Hm]. unfold slice_at.
      destruct (cells h !! a) as [l|] eqn:El; simpl; [|rewrite take_nil; constructor].
      eapply Forall_impl; [apply Forall_take, (Hcells a l El)|]. intros u Hu. apply IH; [done..|lia].
  - intros t Ht. cbn [denote_value write_value] in *. apply fmap_Some in Ht as (ts & Hm & ->). apply bracketed_Ok.
    eexists. split; [|reflexivity]. eapply write_elements_complete; [|exact Hm].
    cbn [windows] in Hv. apply (foldr_Forall (windows f)) in Hv.
    clear Hm. induction IHl as [|u l Hu _ IHl']; [constructor|]. apply list.Forall_cons in Hv as [Hw Hv].
    constructor; [by apply Hu|by apply IHl'].
Qed.

Lemma CanonicalJSON_sound h v b : CanonicalJSON h v = Some (Ok b) -> exists t, denotes h v t /\ b = encode t /\ json_ok t.
Proof. intros (t & Ht & E)%write_sound. exists t. split; [by eexists|done]. Qed.

(** The text is determined by the data. *)
Lemma CanonicalJSON_text h v b t : CanonicalJSON h v = Some (Ok b) -> denotes h v t -> b = encode t.
Proof. intros (u & Hu & -> & _)%CanonicalJSON_sound Ht. by rewrite (denotes_functional _ _ _ _ Hu Ht). Qed.

Lemma CanonicalJSON_data h1 v1 h2 v2 b :
  CanonicalJSON h1 v1 = Some (Ok b) -> CanonicalJSON h2 v2 = Some (Ok b) -> exists t, denotes h1 v1 t /\ denotes h2 v2 t.
Proof.
  intros (t1 & D1 & E1 & O1)%CanonicalJSON_sound (t2 & D2 & E2 & O2)%CanonicalJSON_sound.
  exists t1. split; [done|]. by rewrite (encode_inj t1 t2) by congruence.
Qed.

Lemma CanonicalJSON_complete f h v t :
  heap_windows f h -> windows f v -> denotes h v t -> CanonicalJSON h v = Some (Ok (encode t)).
Proof.
  intros Hh Hv [n Hn]. destruct (CanonicalJSON_total h v) as [o Ho]. unfold CanonicalJSON in *.
  assert (write (max n (enough h)) h [] v = Some (Ok (encode t))) as Hw.
  { eapply write_complete; [done|done| |apply Nat.le_max_l|exact Hn]. constructor. }
  pose proof (write_mono _ (max n (enough h)) _ _ _ _ Ho ltac:(lia)). congruence.
Qed.

(** ** The properties *)

(** C17: Two values have the same canonical text exactly when they denote the
    same JSON data: numbers compared by value, object members regardless of
    their order in memory, nil maps, nil slices and nil interfaces alike null. *)
Theorem canonical_same_data h1 v1 b1 h2 v2 b2 :
  CanonicalJSON h1 v1 = Some (Ok b1) -> CanonicalJSON h2 v2 = Some (Ok b2) ->
  b1 = b2 <-> exists t, denotes h1 v1 t /\ denotes h2 v2 t.
Proof.
  intros C1 C2. split.
  - intros <-. by eapply CanonicalJSON_data.
  - intros (t & H1 & H2). by rewrite (CanonicalJSON_text _ _ _ _ C1 H1), (CanonicalJSON_text _ _ _ _ C2 H2).
Qed.

(** C29: The encoder always terminates. In a heap where all slices that start at
    one address have one length, a value that denotes JSON data is encoded to the
    text of that data; any other value (cyclic, with an unsupported type, an
    invalid string or a number out of bounds) is an error. (The encoder tells
    slices apart by the address they start at, so it takes a slice that contains
    a shorter one of the same start, as after [s[0] = s[:0]], for cyclic.) *)
Theorem CanonicalJSON_decides f h v :
  heap_windows f h -> windows f v ->
  (exists t, denotes h v t /\ CanonicalJSON h v = Some (Ok (encode t)))
  \/ ((forall t, ~ denotes h v t) /\ exists e, CanonicalJSON h v = Some (Err e)).
Proof.
  intros Hh Hv. destruct (CanonicalJSON_total h v) as [[b|e] E].
  - left. destruct (CanonicalJSON_sound _ _ _ E) as (t & Ht & -> & _). by exists t.
  - right. split; [|by exists e]. intros t Ht. rewrite (CanonicalJSON_complete f h v t Hh Hv Ht) in E. done.
Qed.

(** *** Witnesses *)
Definition demo_lengths (a : addr) : nat := if decide (a = 3%positive) then 3 else 0.

Lemma demo_windows : heap_windows demo_lengths demo_heap.
Proof.
  split.
  - intros a k v Hv. unfold map_at in Hv. destruct (maps demo_heap !! a) as [m|] eqn:Em; [|done]. simpl in Hv.
    cbn [demo_heap maps] in Em. apply lookup_insert_Some in Em as [[_ <-]|[_ Em]].
    + apply lookup_insert_Some in Hv as [[_ <-]|[_ Hv]]; [done|]. apply lookup_singleton_Some in Hv as [_ <-]. done.
    + apply lookup_singleton_Some in Em as [_ <-]. apply lookup_singleton_Some in Hv as [_ <-]. done.
  - intros a l Hl. cbn [demo_heap cells] in Hl. apply lookup_singleton_Some in Hl as [_ <-].
    by repeat constructor.
Qed.

Definition demo_text : list ascii := bytes ("{" +:+ dq +:+ "n" +:+ dq +:+ ":1e1}").
Definition heap_of (s : string) : heap := mkHeap {[ 1%positive := {[ "n" := Interface (Some (Number s)) ]} ]} ∅.

Lemma canonical_same_data_witness :
  (demo_text = demo_text <-> exists t, denotes (heap_of "10.0") (Map None (Some 1%positive)) t
                                      /\ denotes (heap_of "1E1") (Map None (Some 1%positive)) t).
Proof.
  apply (canonical_same_data (heap_of "10.0") (Map None (Some 1%positive)) demo_text
    (heap_of "1E1") (Map None (Some 1%positive)) demo_text); vm_compute; reflexivity.
Defined.

Lemma CanonicalJSON_decides_witness :
  (exists t, denotes demo_heap (Map None (Some 2%positive)) t
             /\ CanonicalJSON demo_heap (Map None (Some 2%positive)) = Some (Ok (encode t)))
  \/ ((forall t, ~ denotes demo_heap (Map None (Some 2%positive)) t)
      /\ exists e, CanonicalJSON demo_heap (Map None (Some 2%positive)) = Some (Err e)).
Proof. exact (CanonicalJSON_decides demo_lengths demo_heap (Map None (Some 2%positive)) demo_windows I). Defined.
