(* ===== verification/Protection.v ===== *)
(** * Execution protection: at most one dispatch of a protected tool request

    The rules of src/app/executor/config/tool_execution_protection.go, the
    service of src/internal/tool/executionprotection/service.go, the claim store
    of src/internal/store/toolexecutionclaim/store.go with the write hooks of
    src/internal/datly/toolexecutionclaim/write/lifecycle.go, and the guarded
    dispatch of [Registry.Execute]. *)
From stdpp Require Import base gmap strings list fin_maps numbers.
From Stdlib Require Import ZArith Lia Ascii.
From S2P Require Import Prelude GoStrings Digest GoJson CanonicalNumber Canonical Effects.

Open Scope Z_scope.

(** ** Tool names

    [github.com/viant/mcp/client/toolname], behind src/protocol/mcpname: the
    canonical and the displayed form of a name and the parts of a canonical
    name. *)
Class ToolNames := {
  Canonical : string -> string;
  Display : string -> string;
  NameService : string -> string;
  NameMethod : string -> string }.

Inductive NameError := ToolRequired | NotExact (raw : string) | HasSelector (raw : string) | InvalidIdentity (raw : string).

Definition CanonicalProtectedToolName `{ToolNames} (raw : string) : result NameError string :=
  let name := TrimSpace raw in
  if bool_decide (name = "") || negb (ValidString name) then Err ToolRequired
  else if Contains name "*" || Contains name "?" then Err (NotExact raw)
  else if Contains name "|" then Err (HasSelector raw)
  else
    let canonical := TrimSpace (Canonical name) in
    if bool_decide (TrimSpace (NameService canonical) = "") || bool_decide (TrimSpace (NameMethod canonical) = "")
    then Err (InvalidIdentity raw) else Ok (Display canonical).

(** ** The configuration *)
Record SemanticArguments := mkSemantic { Fields : option (list string); ExcludeFields : list string }.
Record Rule := mkRule { ID : string; Tool : string; Mode : string; Semantic : option SemanticArguments }.
Record Config := mkConfig { Enabled : bool; Rules : list Rule }.

Inductive FieldError := InvalidField (name : string) | DuplicateField (name : string).
Inductive ConfigError :=
| RulesRequired
| IDRequired (i : nat)
| DuplicateID (i : nat) (id : string)
| UnsupportedMode (i : nat) (mode : string)
| RuleTool (i : nat) (e : NameError)
| ToolTaken (i : nat) (tool prior : string)
| FieldsEmpty (i : nat)
| FieldsInvalid (i : nat) (e : FieldError)
| WildcardMixed (i : nat)
| ExcludesInvalid (i : nat) (e : FieldError)
| WildcardExcluded (i : nat)
| NotSelected (i : nat) (name : string)
| SelectionEmpty (i : nat).

Definition atMostOnce : string := "atMostOnce".

Definition control_byte (c : ascii) : bool := (nat_of_ascii c <? 32)%nat.

(** The names seen and whether the wildcard is among them; a wildcard that is
    not allowed ends the loop with no names. *)
Fixpoint validateArgumentNames (allowWildcard : bool) (seen : gset string) (wildcard : bool) (values : list string)
    : result FieldError (gset string * bool) :=
  match values with
  | [] => Ok (seen, wildcard)
  | name :: values =>
      if bool_decide (name = "*") then
        if allowWildcard then validateArgumentNames allowWildcard seen true values else Ok (∅, true)
      else if bool_decide (name = "") || negb (bool_decide (TrimSpace name = name)) || negb (ValidString name)
      then Err (InvalidField name)
      else if existsb control_byte (bytes name) then Err (InvalidField name)
      else if bool_decide (name ∈ seen) then Err (DuplicateField name)
      else validateArgumentNames allowWildcard ({[name]} ∪ seen) wildcard values
  end.

Definition label {A} (f : FieldError -> ConfigError) (r : result FieldError A) : result ConfigError A :=
  match r with Ok a => Ok a | Err e => Err (f e) end.

Definition validateSemanticArguments (i : nat) (semantic : option SemanticArguments) : result ConfigError unit :=
  match semantic with
  | None => Ok tt
  | Some s =>
      if bool_decide (Fields s = Some []) then Err (FieldsEmpty i) else
      '(fields, hasWildcard) ← label (FieldsInvalid i) (validateArgumentNames true ∅ false (default [] (Fields s)));
      if hasWildcard && negb (bool_decide (length (default [] (Fields s)) = 1%nat)) then Err (WildcardMixed i) else
      '(excludes, excludeWildcard) ← label (ExcludesInvalid i) (validateArgumentNames false ∅ false (ExcludeFields s));
      if (excludeWildcard : bool) then Err (WildcardExcluded i) else
      if bool_decide (Fields s = None) || (hasWildcard : bool) then Ok tt else
      match elements (excludes ∖ fields) with
      | name :: _ => Err (NotSelected i name)
      | [] => if bool_decide (size fields = size excludes) then Err (SelectionEmpty i) else Ok tt
      end
  end.

(** The loop of [Validate]: identifiers are trimmed in place in the rules, which
    the caller shares; [ids] and [tools] are the local sets. *)
Section Validate.
Context `{ToolNames}.

Fixpoint validate_rules (i : nat) (ids : gset string) (tools : gmap string string) (rules : list Rule)
    : result ConfigError (list Rule) :=
  match rules with
  | [] => Ok []
  | r :: rules =>
      let id := TrimSpace (ID r) in
      let r := mkRule id (Tool r) (Mode r) (Semantic r) in
      if bool_decide (id = "") || negb (ValidString id) then Err (IDRequired i)
      else if bool_decide (id ∈ ids) then Err (DuplicateID i id)
      else if negb (bool_decide (Mode r = atMostOnce)) then Err (UnsupportedMode i (Mode r))
      else
        match CanonicalProtectedToolName (Tool r) with
        | Err e => Err (RuleTool i e)
        | Ok canonical =>
            match tools !! canonical with
            | Some prior => Err (ToolTaken i canonical prior)
            | None =>
                _ ← validateSemanticArguments i (Semantic r);
                rest ← validate_rules (S i) ({[id]} ∪ ids) (<[canonical := id]> tools) rules;
                Ok (r :: rest)
            end
        end
  end.

(** The rules as they are after a validation without error. *)
Definition Validate (c : Config) : result ConfigError (list Rule) :=
  if negb (Enabled c) then Ok (Rules c)
  else if bool_decide (Rules c = []) then Err RulesRequired
  else validate_rules 0 ∅ ∅ (Rules c).
End Validate.

(** ** The service *)
Record compiledRule := mkCompiled {
  cr_id : string; cr_tool : string; cr_fields : option (gset string); cr_excludes : gset string }.

Inductive Repository := Unavailable (reason : string) | Component.
Record Service := mkService { rules : gmap string compiledRule; repository : option Repository }.

Definition compile (toolName : string) (r : Rule) : compiledRule :=
  match Semantic r with
  | None => mkCompiled (TrimSpace (ID r)) toolName None ∅
  | Some s =>
      mkCompiled (TrimSpace (ID r)) toolName
        (match Fields s with
         | Some fields => if bool_decide (fields = ["*"]) then None else Some (list_to_set fields)
         | None => None
         end) (list_to_set (ExcludeFields s))
  end.

Section NewService.
Context `{ToolNames}.

(** [toolName, _ := CanonicalProtectedToolName(source.Tool)] *)
Definition tool_of (raw : string) : string := match CanonicalProtectedToolName raw with Ok n => n | Err _ => "" end.

Definition New (cfg : Config) (repo : option Repository) : result ConfigError Service :=
  validated ← Validate cfg;
  if negb (Enabled cfg) then Ok (mkService ∅ repo) else
  Ok (mkService (foldl (fun m r => <[tool_of (Tool r) := compile (tool_of (Tool r)) r]> m) ∅ validated) repo).

(** The text before the first [|]. *)
Definition before_bar (s : string) : string :=
  match cut (bytes "|") (bytes s) with Some (b, _) => text b | None => s end.

Definition canonicalRuntimeToolName (raw : string) : option string :=
  let name := TrimSpace raw in
  let name := if Contains name "|" then TrimSpace (before_bar name) else name in
  match CanonicalProtectedToolName name with Ok c => Some c | Err _ => None end.

Definition IsProtected (s : option Service) (name : string) : bool :=
  match s with
  | None => false
  | Some s =>
      if bool_decide (rules s = ∅) then false else
      match canonicalRuntimeToolName name with
      | None => false
      | Some canonical => bool_decide (is_Some (rules s !! canonical))
      end
  end.
End NewService.

(** The arguments that identify a request: the listed fields, or all of them,
    without the excluded ones. *)
Definition selectArguments (r : compiledRule) (args : gmap string value) : gmap string value :=
  match cr_fields r with
  | None => filter (fun kv => kv.1 ∉ cr_excludes r) args
  | Some fields => filter (fun kv => kv.1 ∈ fields /\ kv.1 ∉ cr_excludes r) args
  end.

(** ** Claim keys *)
Definition claimKeyVersion : string := "agently.tool-execution-claim.v1".

Inductive KeyError := BadHash | NotHex | PartNotUTF8 | PartTooLarge.

Definition frame_part (p : string) : list Z := be_bytes 4 (Z.of_nat (String.length p)) ++ (byte_z <$> bytes p).

Fixpoint frame (parts : list string) : result KeyError (list Z) :=
  match parts with
  | [] => Ok []
  | p :: parts =>
      if negb (ValidString p) then Err PartNotUTF8
      else if 2 ^ 32 - 1 <? Z.of_nat (String.length p) then Err PartTooLarge
      else rest ← frame parts; Ok (frame_part p ++ rest)
  end.

Definition ClaimKey (ruleID canonicalToolName turnID semanticHash : string) : result KeyError string :=
  if negb (bool_decide (String.length semanticHash = 64%nat)) || negb (bool_decide (ToLower semanticHash = semanticHash))
  then Err BadHash
  else if negb (forallb hex_char (bytes semanticHash)) then Err NotHex
  else
    m ← frame [claimKeyVersion; ruleID; canonicalToolName; turnID; semanticHash];
    Ok (hex_encode (sha256_sum (z_byte <$> m))).

Example ClaimKey_vector :
  ClaimKey "rule-1" "service/tool" "turn-1" "015abd7f5cc57a2dd94b7590f04ad8084273905ee33ec5cebeae62276a97f862"
  = Ok "fd6599009fe10f57386538e9281694cf8072b2c51dada79b8f5d8c57905595ea".
Proof. vm_compute. reflexivity. Qed.

(** ** The claim table and its writer

    A claim mutation marks the columns it sets; unmarked fields are zero. *)
Record Claim := mkClaim {
  c_ShouldDelete : option bool;
  c_ClaimKey : option string;
  c_RuleId : option string;
  c_CanonicalToolName : option string;
  c_TurnId : option string;
  c_SemanticRequestHash : option string;
  c_State : option string;
  c_CreatedAt : option Z;
  c_UpdatedAt : option Z;
  c_FinishedAt : option Z }.

Record ClaimRow := mkRow {
  RuleId : string; CanonicalToolName : string; TurnId : string; SemanticRequestHash : string;
  State : string; CreatedAt : Z; UpdatedAt : Z; FinishedAt : option Z }.

Definition str (o : option string) : string := default "" o.

Definition mark_times (now : Z) (c : Claim) : Claim :=
  mkClaim (c_ShouldDelete c) (c_ClaimKey c) (c_RuleId c) (c_CanonicalToolName c) (c_TurnId c)
    (c_SemanticRequestHash c) (c_State c) (Some (default now (c_CreatedAt c))) (Some (default now (c_UpdatedAt c)))
    (c_FinishedAt c).

(** What reaches the table: an INSERT of a new row, an UPDATE of the marked
    columns. *)
Definition new_row (now : Z) (c : Claim) : ClaimRow :=
  mkRow (str (c_RuleId c)) (str (c_CanonicalToolName c)) (str (c_TurnId c)) (str (c_SemanticRequestHash c))
    (str (c_State c)) (default now (c_CreatedAt c)) (default now (c_UpdatedAt c)) (c_FinishedAt c).
Definition updated_row (c : Claim) (r : ClaimRow) : ClaimRow :=
  mkRow (default (RuleId r) (c_RuleId c)) (default (CanonicalToolName r) (c_CanonicalToolName c))
    (default (TurnId r) (c_TurnId c)) (default (SemanticRequestHash r) (c_SemanticRequestHash c))
    (default (State r) (c_State c)) (default (CreatedAt r) (c_CreatedAt c))
    (default (UpdatedAt r) (c_UpdatedAt c)) (match c_FinishedAt c with None => FinishedAt r | s => s end).

Record WriteInput := mkInput { Trusted : bool; OrphanDelete : bool; ClaimMode : string; ExpectedTurnID : string }.

Inductive HookError :=
| TrustedRequired | HookKeyRequired | ModesExclusive | OrphanRow | OrphanPresence | OrphanIdentity | OrphanFields
| ExpectedTurn | InvalidMode (mode : string) | ErrAlreadyClaimed | ErrClaimMissing | InvalidState (state : string)
| FieldRequired.

Definition claim_states : list string := ["claimed"; "completed"; "failed"; "unknown"].

(** [invariant.ValidateOrphanDelete] at the claim type with the claim key. *)
Definition ValidateOrphanDelete (entity : Claim) (previous : option (string * ClaimRow)) : option HookError :=
  match previous with
  | None => Some OrphanRow
  | Some (key, _) =>
      if negb (bool_decide (c_ShouldDelete entity = Some true)) then Some OrphanPresence
      else if negb (bool_decide (c_ClaimKey entity = Some key)) then Some OrphanIdentity
      else if bool_decide (is_Some (c_RuleId entity)) || bool_decide (is_Some (c_CanonicalToolName entity))
              || bool_decide (is_Some (c_TurnId entity)) || bool_decide (is_Some (c_SemanticRequestHash entity))
              || bool_decide (is_Some (c_State entity)) || bool_decide (is_Some (c_CreatedAt entity))
              || bool_decide (is_Some (c_UpdatedAt entity)) || bool_decide (is_Some (c_FinishedAt entity))
      then Some OrphanFields
      else None
  end.

(** [Lifecycle.Init]: the mutation to apply, or the error. The order in which
    the four required fields are tested is random; they share one error. *)
Definition Init (input : WriteInput) (now : Z) (entity : Claim) (previous : option ClaimRow) : result HookError Claim :=
  if negb (Trusted input) then Err TrustedRequired
  else if bool_decide (TrimSpace (str (c_ClaimKey entity)) = "") then Err HookKeyRequired
  else if OrphanDelete input then
    if negb (bool_decide (ClaimMode input = "")) then Err ModesExclusive
    else match ValidateOrphanDelete entity (pair (str (c_ClaimKey entity)) <$> previous) with
         | Some e => Err e | None => Ok entity end
  else if default false (c_ShouldDelete entity) then
    if bool_decide (TrimSpace (ExpectedTurnID input) = "") then Err ExpectedTurn else Ok entity
  else if negb (bool_decide (ClaimMode input ∈ [""; "claim"; "finish"])) then Err (InvalidMode (ClaimMode input))
  else if bool_decide (ClaimMode input = "claim") && bool_decide (is_Some previous) then Err ErrAlreadyClaimed
  else if bool_decide (ClaimMode input = "finish") && bool_decide (previous = None) then Err ErrClaimMissing
  else if (bool_decide (is_Some (c_State entity)) || bool_decide (previous = None))
          && negb (bool_decide (str (c_State entity) ∈ claim_states)) then Err (InvalidState (str (c_State entity)))
  else if bool_decide (previous = None) then
    if existsb (fun o => bool_decide (TrimSpace (str o) = ""))
         [c_RuleId entity; c_CanonicalToolName entity; c_TurnId entity; c_SemanticRequestHash entity]
    then Err FieldRequired else Ok (mark_times now entity)
  else Ok entity.

(** ** Calls *)
Inductive DBError := DuplicateKey | SQLiteLock | OtherDB (what : string).
Inductive StoreError :=
| DB (e : DBError)
| Hook (e : HookError)
| VerifyFailed (e : DBError)
| KeyRequired
| ContextDone (why : string).

Inductive ProtError :=
| TurnRequired (tool : string)
| EmptySelection (rule : string)
| Canonicalize (rule : string) (e : CanonicalError)
| BuildKey (e : KeyError)
| NoRepository
| PersistClaim (rule : string) (e : StoreError)
| RepositoryUnavailable (rule reason : string).

(** [toolprotection.Claim] *)
Record Decision := mkDecision { Protected : bool; Acquired : bool; RuleID : string; DecisionKey : string }.
Definition no_decision : Decision := mkDecision false false "" "".

(** The reply of a provider call: [CallTool]'s result and error. *)
Inductive reply :=
| Returned (out : string)
| NilResult
| InputRequired
| ToolError (msg : string)
| TransportError (msg : string).

(** How [Execute] reaches the tool, once it has been resolved: a handler in the
    process, or an MCP client, with a single attempt for apps and artifacts. *)
Inductive route := InProcess | Remote (single : bool).

(** A request as it reaches a tool: the turn of its context, the name, the
    arguments and the heap they live in. *)
Record Request := mkRequest {
  q_turn : option string; q_name : string; q_heap : heap; q_args : gmap string value }.

Inductive call : Type -> Type :=
(** The database, the clock, and the wait before a retry (with the error of the
    context when that ends first). *)
| Now : call Z
| LoadPrevious (key : string) : call (result DBError (option ClaimRow))
| Insert (key : string) (c : Claim) : call (option DBError)
| Update (key : string) (c : Claim) : call (option DBError)
| Delete (key : string) : call (option DBError)
| Exists (key : string) : call (result DBError bool)
| Wait (d : Z) : call (option string)
(** The registry: whether [timeoutMs] is stripped, the authorization guard, the
    resolution of the tool, the steps before and after a provider call, the call
    itself (with the claim it is made under), a reconnection, whether the context
    or the error is a cancellation, and the goroutine that finishes a claim. *)
| StripTimeout (name : string) : call bool
| Authorize (q : Request) : call (option string)
| Resolve (q : Request) : call (result string route)
| Prepare : call (option string)
| Provider (key : option string) (q : Request) : call reply
| PostProcess (r : reply) : call (option string)
| Reconnect : call bool
| ContextEnded : call bool
| GoFinish (claim : Decision) (state : string) : call unit.

Notation prog := (Effects.prog call).

(** ** The claim store *)
Definition isUniqueViolation (e : StoreError) : bool :=
  match e with DB DuplicateKey | VerifyFailed DuplicateKey => true | _ => false end.
(** [errors.As] finds the driver error below the wrapping. *)
Definition isSQLiteLock (e : StoreError) : bool :=
  match e with DB SQLiteLock | VerifyFailed SQLiteLock => true | _ => false end.

(** [Store.write] through the writer component: the previous row is read, the
    hook runs, then the row is inserted, updated or deleted. *)
Definition write_claim (mode : string) (row : Claim) : prog (option StoreError) :=
  let key := str (c_ClaimKey row) in
  previous ← ask (LoadPrevious key);
  match previous with
  | Err e => mret (Some (DB e))
  | Ok previous =>
      now ← ask Now;
      match Init (mkInput true false mode "") now row previous with
      | Err e => mret (Some (Hook e))
      | Ok row =>
          e ← (if default false (c_ShouldDelete row) then ask (Delete key)
               else if bool_decide (previous = None) then ask (Insert key row) else ask (Update key row));
          mret (DB <$> e)
      end
  end.

Definition claimOnce (row : Claim) : prog (result StoreError bool) :=
  e ← write_claim "claim" row;
  match e with
  | None => mret (Ok true)
  | Some (Hook ErrAlreadyClaimed) => mret (Ok false)
  | Some e =>
      if isUniqueViolation e then
        exists_ ← ask (Exists (str (c_ClaimKey row)));
        match exists_ with
        | Err lookupErr => mret (Err (VerifyFailed lookupErr))
        | Ok true => mret (Ok false)
        | Ok false => mret (Err e)
        end
      else mret (Err e)
  end.

(** The retries of [Store.Claim] on a locked database: [more] attempts after
    attempt number [attempt]. *)
Fixpoint claim_attempts (more : nat) (attempt : Z) (row : Claim) : prog (result StoreError bool) :=
  r ← claimOnce row;
  match r with
  | Ok claimed => mret (Ok claimed)
  | Err e =>
      if negb (isSQLiteLock e) then mret (Err e) else
      match more with
      | O => mret (Err e)
      | S more =>
          let delay := Z.min ((attempt + 1) * (5 * Millisecond)) (25 * Millisecond) in
          done_ ← ask (Wait delay);
          match done_ with
          | Some why => mret (Err (ContextDone why))
          | None => claim_attempts more (attempt + 1) row
          end
      end
  end.

Definition Store_Claim (row : Claim) : prog (result StoreError bool) :=
  if bool_decide (TrimSpace (str (c_ClaimKey row)) = "") then mret (Err KeyRequired)
  else claim_attempts 11 0 row.

Definition finish_mutation (key state : string) (finishedAt : Z) : Claim :=
  mkClaim None (Some key) None None None None (Some state) None (Some finishedAt) (Some finishedAt).

Definition Store_Finish (key state : string) (finishedAt : Z) : prog (option StoreError) :=
  if bool_decide (TrimSpace key = "") then mret None else
  e ← write_claim "finish" (finish_mutation key state finishedAt);
  match e with
  | Some (Hook ErrClaimMissing) => mret None
  | e => mret e
  end.

(** ** Claiming and finishing ([Service.Claim], [Service.Finish]) *)
Record ClaimRecord := mkRecord {
  ClaimKey_ : string; RuleID_ : string; ToolName_ : string; TurnID_ : string; SemanticHash_ : string }.

Definition claim_mutation (r : ClaimRecord) (createdAt : Z) : Claim :=
  mkClaim None (Some (ClaimKey_ r)) (Some (RuleID_ r)) (Some (ToolName_ r)) (Some (TurnID_ r)) (Some (SemanticHash_ r))
    (Some "claimed") (Some createdAt) (Some createdAt) None.

(** Canonical JSON of a map that is not in the heap yet. *)
Definition args_heap (h : heap) (m : gmap string value) : heap * value :=
  let a := fresh (dom (maps h)) in (mkHeap (<[a := m]> (maps h)) (cells h), Map None (Some a)).

Definition canonical_args (h : heap) (m : gmap string value) : result CanonicalError (list ascii) :=
  match CanonicalJSON (args_heap h m).1 (args_heap h m).2 with
  | Some r => r
  | None => Err CyclicObject   (* never: [CanonicalJSON_total] *)
  end.

(** The part of [Claim] before the repository: not protected, an error with the
    decision so far, or a record to persist. *)
Inductive prepared :=
| Unprotected
| Refused (d : Decision) (e : ProtError)
| Ready (record : ClaimRecord).

Section Service_.
Context `{ToolNames}.

(** [turn]: the turn of the context, when it has one. *)
Definition prepare (s : option Service) (turn : option string) (name : string) (h : heap) (args : gmap string value)
    : prepared :=
  match canonicalRuntimeToolName name, s with
  | Some canonical, Some s =>
      match rules s !! canonical with
      | None => Unprotected
      | Some rule =>
          let decision := mkDecision true false (cr_id rule) "" in
          let turnID := TrimSpace (default "" turn) in
          if bool_decide (turnID = "") then Refused decision (TurnRequired canonical) else
          let selected := selectArguments rule args in
          if bool_decide (selected = ∅) then Refused decision (EmptySelection (cr_id rule)) else
          match canonical_args h selected with
          | Err e => Refused decision (Canonicalize (cr_id rule) e)
          | Ok canonicalArgs =>
              let semanticHash := sha256_hex (text canonicalArgs) in
              match ClaimKey (cr_id rule) canonical turnID semanticHash with
              | Err e => Refused decision (BuildKey e)
              | Ok claimKey => Ready (mkRecord claimKey (cr_id rule) canonical turnID semanticHash)
              end
          end
      end
  | _, _ => Unprotected
  end.

Definition Service_Claim (s : option Service) (turn : option string) (name : string) (h : heap) (args : gmap string value)
    : prog (Decision * option ProtError) :=
  match prepare s turn name h args with
  | Unprotected => mret (no_decision, None)
  | Refused d e => mret (d, Some e)
  | Ready r =>
      let decision := mkDecision true false (RuleID_ r) (ClaimKey_ r) in
      match s ≫= repository with
      | None => mret (decision, Some NoRepository)
      | Some (Unavailable reason) =>
          now ← ask Now;
          mret (decision, Some (RepositoryUnavailable (RuleID_ r) reason))
      | Some Component =>
          now ← ask Now;
          acquired ← Store_Claim (claim_mutation r now);
          match acquired with
          | Err e => mret (decision, Some (PersistClaim (RuleID_ r) e))
          | Ok acquired => mret (mkDecision true acquired (RuleID_ r) (ClaimKey_ r), None)
          end
      end
  end.

(** The error of the repository is dropped. *)
Definition Service_Finish (s : option Service) (claim : Decision) (state : string) : prog unit :=
  match s ≫= repository with
  | None => mret tt
  | Some repo =>
      if negb (Protected claim) || negb (Acquired claim) || bool_decide (DecisionKey claim = "") then mret tt else
      now ← ask Now;
      match repo with
      | Unavailable _ => mret tt
      | Component => _ ← Store_Finish (DecisionKey claim) state now; mret tt
      end
  end.
End Service_.

(** ** The guarded dispatch of [Registry.Execute]

    What the guard protects: from the split of the name to the provider call and
    the state the claim is finished with. Resolving the tool, preparing the call
    (payloads, sessions, credentials) and processing its result (sanitising,
    capturing, publishing) are calls whose failure ends the execution. *)
Definition reconnectable_phrases : list string :=
  ["stream error"; "internal_error; received from peer"; "handshake missing mcp-session-id header";
   "clienthandler is not initialized"; "rst_stream"; "goaway"; "http2"; "trip not found"; "connection reset";
   "broken pipe"; "eof"; "failed to parse response: trip not found"; "server closed idle connection";
   "no cached connection"].
Definition isReconnectableError (msg : string) : bool := existsb (Contains (ToLower msg)) reconnectable_phrases.

(** The loop over the attempts: the result and [protectionAmbiguous]. [more] is
    the number of attempts after this one, so that [attempt < maxAttempts-1]
    means [more] is not zero. *)
Fixpoint attempt_loop (more : nat) (key : option string) (q : Request) : prog (result string string * bool) :=
  let protected := bool_decide (is_Some key) in
  let retry (msg : string) (ambiguous : bool) :=
    match more with
    | O => mret (Err msg, ambiguous)
    | S more =>
        if isReconnectableError msg then
          reconnected ← ask Reconnect;
          if reconnected : bool then
            '(r, later) ← attempt_loop more key q; mret (r, ambiguous || (later : bool))
          else mret (Err msg, ambiguous)
        else mret (Err msg, ambiguous)
    end in
  unprepared ← ask Prepare;
  match unprepared with
  | Some e => mret (Err e, false)
  | None =>
      r ← ask (Provider key q);
      failed ← ask (PostProcess r);
      match failed with
      | Some e => mret (Err e, false)
      | None =>
          match r with
          | Returned out => mret (Ok out, false)
          | NilResult => mret (Err "nil result", protected)
          | InputRequired => mret (Err "input required", false)
          | ToolError msg => retry msg false
          | TransportError msg => retry msg protected
          end
      end
  end.

Definition maxAttempts (protected single : bool) : nat := if protected || single then 1 else 3.

Definition dispatch (key : option string) (q : Request) : prog (result string string * bool) :=
  resolved ← ask (Resolve q);
  match resolved with
  | Err e => mret (Err e, false)
  | Ok InProcess =>
      unprepared ← ask Prepare;
      match unprepared with
      | Some e => mret (Err e, false)
      | None =>
          r ← ask (Provider key q);
          failed ← ask (PostProcess r);
          match failed, r with
          | Some e, _ => mret (Err e, false)
          | None, Returned out => mret (Ok out, false)
          | None, _ => mret (Err "tool error", false)
          end
      end
  | Ok (Remote single) => attempt_loop (maxAttempts (bool_decide (is_Some key)) single - 1) key q
  end.

Definition StateCompleted : string := "completed".
Definition StateFailed : string := "failed".
Definition StateUnknown : string := "unknown".

Definition duplicate_suppressed (ruleID : string) : string :=
  text (json_object [("status", json_quote "duplicate_suppressed"); ("providerCalled", bytes "false");
                     ("ruleId", json_quote ruleID)]).

Definition timeoutMsField : string := "timeoutMs".

Section Execute.
Context `{ToolNames}.

(** From [applyTimeoutMs] on, under the name the guard sees. *)
Definition execute_named (guard : option Service) (turn : option string) (baseName : string) (h : heap)
    (args : gmap string value) : prog (result string string) :=
  strip ← ask (StripTimeout baseName);
  let callArgs := if strip : bool then delete timeoutMsField args else args in
  let q := mkRequest turn baseName h callArgs in
  denied ← ask (Authorize q);
  match denied with
  | Some e => mret (Err e)
  | None =>
      '(claim, err) ← Service_Claim guard turn baseName h callArgs;
      match err : option ProtError with
      | Some _ => mret (Err "tool execution protection")
      | None =>
          if Protected claim && negb (Acquired claim) then mret (Ok (duplicate_suppressed (RuleID claim))) else
          '(r, ambiguous) ← dispatch (if Protected claim then Some (DecisionKey claim) else None) q;
          (if Protected claim then
             ended ← ask ContextEnded;
             let state := if (ambiguous : bool) || (ended : bool) then StateUnknown
                          else if is_ok (r : result string string) then StateCompleted else StateFailed in
             ask (GoFinish claim state)
           else mret tt) ≫= fun _ => mret r
      end
  end.

(** [hosted]: the server and tool of an MCP host scope. *)
Definition Execute (guard : option Service) (hosted : option (string * string)) (turn : option string) (name : string)
    (h : heap) (args : gmap string value) : prog (result string string) :=
  let baseName := TrimSpace (before_bar name) in
  match hosted with
  | None => execute_named guard turn baseName h args
  | Some (scopeServer, scopeTool) =>
      if bool_decide (scopeServer = "") || bool_decide (scopeTool = "") then mret (Err "MCP host scope requires exact server and tool")
      else
        let qualified := scopeServer +:+ "/" +:+ scopeTool in
        if negb (bool_decide (baseName = qualified)) && negb (bool_decide (baseName = Canonical qualified))
        then mret (Err "MCP host native tool differs from authorized scope")
        else execute_named guard turn qualified h args
  end.
End Execute.

(** ** Which tools a configuration protects *)
Section Protects.
Context `{ToolNames}.

Lemma validate_rules_tools i ids tools rs rs' :
  validate_rules i ids tools rs = Ok rs' -> Forall (fun r => exists c, CanonicalProtectedToolName (Tool r) = Ok c) rs'.
Proof.
  revert i ids tools rs'. induction rs as [|r rs IH]; intros i ids tools rs'; cbn [validate_rules].
  - intros [= <-]. constructor.
  - cbv zeta. cbn [ID Tool Mode Semantic]. repeat (case_match; try done).
    destruct (validateSemanticArguments _ _); [|done]. cbn [mbind result_bind].
    destruct (validate_rules _ _ _ rs) as [rest|] eqn:Er; [|done]. intros [= <-].
    constructor; [cbn [Tool]; by eexists|by eapply IH].
Qed.

Lemma validate_rules_same i ids tools rs rs' : validate_rules i ids tools rs = Ok rs' -> Tool <$> rs' = Tool <$> rs.
Proof.
  revert i ids tools rs'. induction rs as [|r rs IH]; intros i ids tools rs'; cbn [validate_rules].
  - by intros [= <-].
  - cbv zeta. cbn [ID Tool Mode Semantic]. repeat (case_match; try done).
    destruct (validateSemanticArguments _ _); [|done]. cbn [mbind result_bind].
    destruct (validate_rules _ _ _ rs) as [rest|] eqn:Er; [|done]. intros [= <-].
    cbn [fmap list_fmap Tool]. f_equal. by eapply IH.
Qed.

Lemma foldl_rules_lookup rs (m : gmap string compiledRule) c :
  is_Some (foldl (fun m r => <[tool_of (Tool r) := compile (tool_of (Tool r)) r]> m) m rs !! c)
  <-> is_Some (m !! c) \/ exists r, r ∈ rs /\ tool_of (Tool r) = c.
Proof.
  revert m. induction rs as [|r rs IH]; intros m; cbn [foldl].
  - split; [by left|]. intros [?|(r & Hr & _)]; [done|by apply elem_of_nil in Hr].
  - rewrite IH, lookup_insert_is_Some'. setoid_rewrite elem_of_cons. naive_solver.
Qed.

(** A validated configuration protects exactly the tools of its rules, under any
    spelling with the same canonical name and with any selector. *)
Lemma New_protects cfg repo s name :
  New cfg repo = Ok s ->
  IsProtected (Some s) name = true <->
  Enabled cfg = true /\ exists r c, r ∈ Rules cfg /\ CanonicalProtectedToolName (Tool r) = Ok c
                                   /\ canonicalRuntimeToolName name = Some c.
Proof.
  unfold New, Validate, IsProtected. destruct (Enabled cfg) eqn:Een; cbn [negb mbind result_bind].
  2: { intros [= <-]. cbn [rules]. rewrite bool_decide_eq_true_2 by done. naive_solver. }
  case_bool_decide; [done|]. destruct (validate_rules 0 ∅ ∅ (Rules cfg)) as [rs|] eqn:Ev; [|done].
  intros [= <-]. cbn [rules]. pose proof (validate_rules_tools _ _ _ _ _ Ev) as Ht.
  pose proof (validate_rules_same _ _ _ _ _ Ev) as Hs. set (m := foldl _ ∅ rs).
  assert (Hm : forall c, is_Some (m !! c) <-> exists r, r ∈ Rules cfg /\ CanonicalProtectedToolName (Tool r) = Ok c).
  { intros c. unfold m. rewrite foldl_rules_lookup, lookup_empty. split.
    - intros [[? [=]]|(r & Hr & <-)]. rewrite Forall_forall in Ht. destruct (Ht r (proj1 (list_elem_of_In _ _) Hr)) as [c' Hc'].
      assert (Tool r ∈ Tool <$> Rules cfg) as Hin by (rewrite <- Hs; by apply list_elem_of_fmap_2).
      apply list_elem_of_fmap in Hin as (r' & E & Hr'). exists r'. unfold tool_of. by rewrite <- E, Hc'.
    - intros (r & Hr & Hc). right.
      assert (Tool r ∈ Tool <$> rs) as Hin by (rewrite Hs; by apply list_elem_of_fmap_2).
      apply list_elem_of_fmap in Hin as (r' & E & Hr'). exists r'. unfold tool_of. by rewrite <- E, Hc. }
  destruct (canonicalRuntimeToolName name) as [c|].
  - case_bool_decide as He.
    + split; [done|]. intros (_ & r & c' & Hr & Hc & [= ->]).
      assert (is_Some (m !! c')) as [x Hx] by (apply Hm; eauto). rewrite He in Hx. done.
    + rewrite bool_decide_eq_true, Hm. split; [intros (r & Hr & Hc); eauto 10|]. intros (_ & r & c' & Hr & Hc & [= ->]). eauto.
  - split; [by case_bool_decide|]. intros (_ & r & c & _ & _ & [=]).
Qed.
End Protects.
