(* ===== verification/ProtectionPool.v ===== *)
(** * At most one dispatch

    Executions of several processes interleaved call by call on one claim table,
    with database failures at any point: a protected request reaches its tool at
    most once in a turn. *)
From stdpp Require Import base gmap strings list fin_maps numbers relations.
From Stdlib Require Import ZArith Lia Ascii.
From S2P Require Import Prelude GoStrings Digest GoJson CanonicalNumber Canonical CanonicalProps Effects Protection.

Open Scope Z_scope.

(** ** The shared world: the claim table and the provider calls made so far *)
Record dispatched := mkDispatched { d_key : option string; d_request : Request }.
Record World := mkWorld { claims : gmap string ClaimRow; log : list dispatched }.

(** What a call may do. A write that fails may still have been committed; a
    write that succeeds was committed, and an INSERT fails on a key that is
    there. *)
Definition handles {R} (c : call R) (w : World) (r : R) (w' : World) : Prop :=
  match c in call R return R -> Prop with
  | LoadPrevious key => fun r => w' = w /\ (r = Ok (claims w !! key) \/ exists e, r = Err e)
  | Exists key => fun r => w' = w /\ (r = Ok (bool_decide (is_Some (claims w !! key))) \/ exists e, r = Err e)
  | Insert key c => fun r =>
      (claims w !! key = None /\ exists now, w' = mkWorld (<[key := new_row now c]> (claims w)) (log w))
      \/ (r <> None /\ w' = w)
  | Update key c => fun r => w' = mkWorld (alter (updated_row c) key (claims w)) (log w) \/ (r <> None /\ w' = w)
  | Delete key => fun r => w' = mkWorld (delete key (claims w)) (log w) \/ (r <> None /\ w' = w)
  | Provider key q => fun _ => w' = mkWorld (claims w) (log w ++ [mkDispatched key q])
  | _ => fun _ => w' = w
  end r.

Section Pool.
Context `{ToolNames} (svc : option Service).

Definition record_of (q : Request) : prepared := prepare svc (q_turn q) (q_name q) (q_heap q) (q_args q).

#[local] Opaque prepare.

(** ** The monitor: the claim key a thread has acquired and not used *)
Definition allowed {R} (held : option string) (c : call R) : Prop :=
  match c with
  | Insert _ _ => held = None
  | Delete _ => False
  | Provider key q =>
      match record_of q with
      | Unprotected => key = None
      | Refused _ _ => False
      | Ready r => key = Some (ClaimKey_ r) /\ held = key
      end
  | _ => True
  end.

Definition answers {R} (c : call R) (r : R) : Prop := True.

Definition next_held {R} (held : option string) (c : call R) : R -> option string :=
  match c in call R return R -> option string with
  | Insert key _ => fun r => match r with None => Some key | Some _ => held end
  | Provider (Some _) _ => fun _ => None
  | _ => fun _ => held
  end.

Notation follows := (Effects.follows (fun R => @allowed R) (fun R => @answers R) (fun R => @next_held R)).

Lemma follows_call {R A} held (c : call R) (k : R -> prog A) Q :
  allowed held c -> (forall r, follows (next_held held c r) (k r) Q) -> follows held (x ← ask c; k x) Q.
Proof. intros Ha Hk. split; [done|]. intros r _. apply Hk. Qed.

(** *** Claiming *)
Lemma Init_key input now c prev c' : Init input now c prev = Ok c' -> c_ClaimKey c' = c_ClaimKey c /\ c_ShouldDelete c' = c_ShouldDelete c.
Proof. unfold Init. repeat case_match; intros; simplify_eq; done. Qed.

Definition no_delete (c : Claim) : Prop := default false (c_ShouldDelete c) = false.

(** A write in claim mode that succeeds has inserted the row. *)
Lemma Init_claim now c prev c' : Init (mkInput true false "claim" "") now c prev = Ok c' -> default false (c_ShouldDelete c) = false -> prev = None.
Proof.
  unfold Init. cbn [Trusted OrphanDelete ClaimMode]. intros Hi Hd. rewrite Hd in Hi.
  destruct prev as [row|]; [|done]. repeat case_match; simplify_eq; done.
Qed.

Lemma write_claim_follows row :
  no_delete row ->
  follows None (write_claim "claim" row)
    (fun e held => held = match e with None => Some (str (c_ClaimKey row)) | Some _ => None end).
Proof.
  intros Hd. unfold write_claim. apply follows_call; [done|]. intros [prev|e]; [|done].
  apply follows_call; [done|]. intros now. destruct (Init _ now row prev) as [row'|e] eqn:Ei; [|done].
  pose proof (Init_claim _ _ _ _ Ei Hd) as ->.
  apply Init_key in Ei as [Ek Es]. rewrite Es, Hd, bool_decide_eq_true_2 by done.
  apply follows_call; [done|]. intros [e|]; done.
Qed.

Lemma write_finish_follows mode row : no_delete row -> follows None (write_claim mode row) (fun _ _ => True).
Proof.
  intros Hd. unfold write_claim. apply follows_call; [done|]. intros [prev|e]; [|done].
  apply follows_call; [done|]. intros now. destruct (Init _ now row prev) as [row'|e] eqn:Ei; [|done].
  apply Init_key in Ei as [Ek Es]. rewrite Es, Hd. case_bool_decide; by apply follows_call.
Qed.

Definition claimed_or_not (key : string) (r : result StoreError bool) (held : option string) : Prop :=
  held = match r with Ok true => Some key | _ => None end.

Lemma claimOnce_follows row : no_delete row -> follows None (claimOnce row) (claimed_or_not (str (c_ClaimKey row))).
Proof.
  intros Hd. unfold claimOnce. apply follows_bind. eapply follows_weaken; [by apply write_claim_follows|].
  intros [e|] held ->; [|done].
  assert (Hrest : follows None
    (if isUniqueViolation e then
       exists_ ← ask (Exists (str (c_ClaimKey row)));
       match exists_ with
       | Err lookupErr => mret (Err (VerifyFailed lookupErr))
       | Ok true => mret (Ok false)
       | Ok false => mret (Err e)
       end
     else mret (Err e)) (claimed_or_not (str (c_ClaimKey row)))).
  { destruct (isUniqueViolation e); [|done]. apply follows_call; [done|]. by intros [[]|]. }
  destruct e as [| [] | | |]; try exact Hrest; done.
Qed.

Lemma claim_attempts_follows more attempt row :
  no_delete row -> follows None (claim_attempts more attempt row) (claimed_or_not (str (c_ClaimKey row))).
Proof.
  intros Hd. revert attempt. induction more as [|more IH]; intros attempt; cbn [claim_attempts];
    apply follows_bind; (eapply follows_weaken; [by apply claimOnce_follows|]);
    intros [c|e] held Hc; unfold claimed_or_not in Hc; subst held; try done; destruct (isSQLiteLock e); try done.
  cbn [negb]. apply follows_call; [done|]. intros [why|]; [done|]. apply IH.
Qed.

Lemma Store_Claim_follows row : no_delete row -> follows None (Store_Claim row) (claimed_or_not (str (c_ClaimKey row))).
Proof. intros Hd. unfold Store_Claim. case_bool_decide; [done|]. by apply claim_attempts_follows. Qed.

(** What a claim returns: the request is unprotected, or its key is held exactly
    when it was acquired. *)
Definition claim_result (p : prepared) (r : Decision * option ProtError) (held : option string) : Prop :=
  match r.2 with
  | Some _ => True
  | None =>
      match p with
      | Unprotected => r.1 = no_decision /\ held = None
      | Refused _ _ => False
      | Ready rec => Protected r.1 = true /\ DecisionKey r.1 = ClaimKey_ rec
                     /\ held = if Acquired r.1 then Some (ClaimKey_ rec) else None
      end
  end.

Lemma Service_Claim_follows turn name h args :
  follows None (Service_Claim svc turn name h args) (claim_result (prepare svc turn name h args)).
Proof.
  unfold Service_Claim. destruct (prepare svc turn name h args) as [|d e|rec] eqn:Ep; [done|done|].
  destruct (svc ≫= repository) as [[reason|]|]; [by apply follows_call| |done].
  apply follows_call; [done|]. intros now. apply follows_bind.
  eapply follows_weaken; [by apply Store_Claim_follows|]. intros [[]|e] held Hc; unfold claimed_or_not in Hc; subst held; done.
Qed.

Lemma Service_Finish_follows claim state : follows None (Service_Finish svc claim state) (fun _ _ => True).
Proof.
  unfold Service_Finish. destruct (svc ≫= repository) as [repo|]; [|done]. case_match; [done|].
  apply follows_call; [done|]. intros now. destruct repo; [done|]. apply follows_bind. unfold Store_Finish.
  destruct (bool_decide (TrimSpace (DecisionKey claim) = "")); [done|]. apply follows_bind. eapply follows_weaken; [by apply write_finish_follows|].
  intros e held _. destruct e as [[]|]; try exact I; by repeat case_match.
Qed.

(** *** Dispatching *)
Definition dispatch_key (p : prepared) : option string := match p with Ready r => Some (ClaimKey_ r) | _ => None end.

(** A request that may be dispatched, with the claim key it needs held. *)
Definition may_dispatch (q : Request) (key held : option string) : Prop :=
  match record_of q with Refused _ _ => False | p => key = dispatch_key p /\ held = key end.

Lemma may_dispatch_allowed q key held : may_dispatch q key held -> allowed held (Provider key q).
Proof. unfold may_dispatch, allowed. destruct (record_of q); naive_solver. Qed.

Lemma attempt_loop_follows more key q held :
  may_dispatch q key held -> (is_Some key -> more = 0%nat) ->
  follows held (attempt_loop more key q) (fun _ _ => True).
Proof.
  revert held. induction more as [|more IH]; intros held Hm Hk; cbn [attempt_loop].
  - apply follows_call; [exact I|]. intros [e|]; [exact I|].
    apply follows_call; [by apply may_dispatch_allowed|]. intros r.
    apply follows_call; [exact I|]. intros [e|]; [exact I|]. destruct r; exact I.
  - destruct key as [key|]; [discriminate (Hk (ex_intro _ key eq_refl))|].
    apply follows_call; [exact I|]. intros [e|]; [exact I|].
    apply follows_call; [by apply may_dispatch_allowed|]. intros r.
    apply follows_call; [exact I|]. intros [e|]; [exact I|].
    assert (Hretry : forall msg amb, follows held
      (if isReconnectableError msg then
         reconnected ← ask Reconnect;
         if reconnected : bool then '(r, later) ← attempt_loop more None q; mret (r, amb || (later : bool))
         else mret (Err msg, amb)
       else mret (Err msg, amb)) (fun _ _ => True)).
    { intros msg amb. destruct (isReconnectableError msg); [|exact I]. apply follows_call; [exact I|].
      intros []; [|exact I]. apply follows_bind. eapply follows_weaken; [|intros [? ?] ? _; exact I].
      apply IH; [exact Hm|]. intros [k Hk']. discriminate Hk'. }
    destruct r; try exact I; apply Hretry.
Qed.

Lemma dispatch_follows key q held : may_dispatch q key held -> follows held (dispatch key q) (fun _ _ => True).
Proof.
  intros Hm. unfold dispatch. apply follows_call; [exact I|]. intros [[|single]|e]; [| |exact I].
  - apply follows_call; [exact I|]. intros [e|]; [exact I|].
    apply follows_call; [by apply may_dispatch_allowed|]. intros r. apply follows_call; [exact I|]. intros [e|]; [exact I|].
    destruct r; exact I.
  - apply attempt_loop_follows; [exact Hm|]. intros [k ->]. reflexivity.
Qed.

Lemma execute_named_follows turn baseName h args :
  follows None (execute_named svc turn baseName h args) (fun _ _ => True).
Proof.
  unfold execute_named. apply follows_call; [exact I|]. intros strip. apply follows_call; [exact I|].
  intros [e|]; [exact I|]. set (callArgs := if strip then _ else _). apply follows_bind.
  eapply follows_weaken; [apply Service_Claim_follows|]. intros [claim [e|]] held Hc; [exact I|].
  unfold claim_result in Hc. cbn [fst snd] in Hc.
  set (q := mkRequest turn baseName h callArgs). change (prepare svc turn baseName h callArgs) with (record_of q) in Hc.
  destruct (Protected claim && negb (Acquired claim)) eqn:Ed; [exact I|]. apply follows_bind.
  eapply follows_weaken.
  - apply dispatch_follows. unfold may_dispatch. destruct (record_of q) as [| |rec] eqn:Er.
    + destruct Hc as [-> ->]. done.
    + done.
    + destruct Hc as (Hp & Hk & ->). rewrite Hp in *. cbn [andb] in Ed. apply negb_false_iff in Ed.
      rewrite Ed, Hk. done.
  - intros [r amb] held' _. apply follows_bind. destruct (Protected claim); [|exact I].
    apply follows_call; [exact I|]. intros ended. by apply follows_ask.
Qed.

Lemma Execute_follows hosted turn name h args :
  follows None (Execute svc hosted turn name h args) (fun _ _ => True).
Proof.
  unfold Execute. destruct hosted as [[server tool]|]; [|apply execute_named_follows].
  case_match; [exact I|]. case_match; [exact I|]. apply execute_named_follows.
Qed.

(** ** The pool *)
Record thread := mkThread { t_prog : prog unit; t_held : option string }.

Definition spawned {R} (c : call R) : list thread :=
  match c with GoFinish claim state => [mkThread (Service_Finish svc claim state) None] | _ => [] end.

Definition request_thread (hosted : option (string * string)) (turn : option string) (name : string) (h : heap)
    (args : gmap string value) : thread :=
  mkThread (Execute svc hosted turn name h args ≫= fun _ => mret tt) None.

(** A call of a thread, a request that arrives anywhere, and what others do: they
    may add and change claims but do not delete them. *)
Inductive pool_step : list thread * World -> list thread * World -> Prop :=
| step_call l t rest w R (c : call R) k r w' :
    t_prog t = Call c k -> handles c w r w' ->
    pool_step (l ++ t :: rest, w) (l ++ mkThread (k r) (next_held (t_held t) c r) :: spawned c ++ rest, w')
| step_request ts w hosted turn name h args :
    pool_step (ts, w) (request_thread hosted turn name h args :: ts, w)
| step_environment ts w m :
    (forall key, is_Some (claims w !! key) -> is_Some (m !! key)) ->
    pool_step (ts, w) (ts, mkWorld m (log w)).

(** The keys that are held or were used. *)
Definition used_keys (x : list thread * World) : list string := omap t_held x.1 ++ omap d_key (log x.2).

Definition logged_ok (d : dispatched) : Prop :=
  match record_of (d_request d) with
  | Unprotected => d_key d = None
  | Refused _ _ => False
  | Ready r => d_key d = Some (ClaimKey_ r)
  end.

Record pool_ok (x : list thread * World) : Prop := {
  ok_threads : Forall (fun t => follows (t_held t) (t_prog t) (fun _ _ => True)) x.1;
  ok_keys : NoDup (used_keys x);
  ok_claims : Forall (fun key => is_Some (claims x.2 !! key)) (used_keys x);
  ok_log : Forall logged_ok (log x.2) }.

Lemma handles_claims {R} (c : call R) w r w' held key :
  allowed held c -> handles c w r w' -> is_Some (claims w !! key) -> is_Some (claims w' !! key).
Proof.
  destruct c; cbn [allowed handles]; try done; try (by intros _ -> ?); try (by intros _ [-> _] ?).
  - intros _ [(Hn & now & ->)|[_ ->]]; [|done]. cbn [claims]. rewrite lookup_insert_is_Some'. auto.
  - intros _ [->|[_ ->]]; [|done]. cbn [claims]. by rewrite lookup_alter_is_Some.
Qed.

(** The keys a call adds: the one it inserts, which was not in the table. *)
Lemma handles_keys {R} (c : call R) w r w' l t rest k :
  allowed (t_held t) c -> handles c w r w' ->
  let y := (l ++ mkThread k (next_held (t_held t) c r) :: spawned c ++ rest, w') in
  used_keys y ≡ₚ used_keys (l ++ t :: rest, w)
  \/ exists key, used_keys y ≡ₚ key :: used_keys (l ++ t :: rest, w) /\ claims w !! key = None /\ is_Some (claims w' !! key).
Proof.
  assert (Hsame : forall held ts w', log w' = log w -> omap t_held ts = [] -> held = t_held t ->
    used_keys (l ++ mkThread k held :: ts ++ rest, w') ≡ₚ used_keys (l ++ t :: rest, w)).
  { intros held ts w1 El Ets ->. unfold used_keys. cbn [fst snd]. rewrite El, !omap_app. cbn [omap list_omap].
    rewrite omap_app, Ets. done. }
  intros Ha Hh y. destruct c; cbn [next_held spawned] in *;
    try (left; apply Hsame; [by cbn in Hh; (destruct Hh as [-> _] || rewrite Hh)|done|done]).
  - cbn [allowed handles] in *. destruct Hh as [(Hn & now & ->)|[Hne ->]].
    + destruct r as [e|]; [left; by apply Hsame|]. right. exists key. split; [|split; [done|]].
      * unfold used_keys, y. cbn [fst snd log]. rewrite !omap_app. cbn [omap list_omap app t_held]. rewrite Ha.
        rewrite <- Permutation_middle. done.
      * cbn [claims]. rewrite lookup_insert_eq. by eexists.
    + destruct r as [e|]; [|done]. left. by apply Hsame.
  - cbn [handles] in Hh. left. destruct Hh as [->|[_ ->]]; by apply Hsame.
  - done.
  - cbn [handles allowed] in *. subst w'. left. destruct key as [key|]; cbn [next_held].
    + assert (t_held t = Some key) as Ht by (destruct (record_of q); naive_solver).
      unfold used_keys, y. cbn [fst snd log]. rewrite !omap_app. cbn [omap list_omap app t_held d_key]. rewrite Ht.
      rewrite (Permutation_app_comm (omap d_key (log w))). cbn [app]. by rewrite <- !Permutation_middle.
    + unfold used_keys, y. cbn [fst snd log]. rewrite !omap_app. cbn [omap list_omap app t_held d_key].
      by rewrite app_nil_r.
Qed.

Lemma handles_log {R} (c : call R) w r w' held :
  allowed held c -> handles c w r w' -> Forall logged_ok (log w) -> Forall logged_ok (log w').
Proof.
  intros Ha Hh Hl. destruct c; cbn [handles] in Hh; try (by subst w'); try (by destruct Hh as [-> _]).
  - by destruct Hh as [(_ & now & ->)|[_ ->]].
  - by destruct Hh as [->|[_ ->]].
  - by destruct Hh as [->|[_ ->]].
  - subst w'. cbn [log]. apply Forall_app_2; [done|]. constructor; [|constructor]. unfold logged_ok. cbn [d_request d_key].
    cbn [allowed] in Ha. destruct (record_of q); [done|done|by destruct Ha].
Qed.

Lemma request_thread_ok hosted turn name h args :
  follows (t_held (request_thread hosted turn name h args)) (t_prog (request_thread hosted turn name h args)) (fun _ _ => True).
Proof.
  cbn [request_thread t_held t_prog]. apply follows_bind. eapply follows_weaken; [apply Execute_follows|]. intros; exact I.
Qed.

Lemma spawned_ok {R} (c : call R) : Forall (fun t => follows (t_held t) (t_prog t) (fun _ _ => True)) (spawned c).
Proof. destruct c; cbn [spawned]; repeat constructor. cbn [t_held t_prog]. apply Service_Finish_follows. Qed.

Lemma guarded_step_ok x y : pool_step x y -> pool_ok x -> pool_ok y.
Proof.
  intros Hstep [Ht Hk Hc Hl]. destruct Hstep as [l t rest w R c k r w' Ep Hh|ts w hosted turn name h args|ts w m Hm];
    cbn [fst snd] in *.
  - apply Forall_app in Ht as [Ht1 Ht2]. apply list.Forall_cons in Ht2 as [Ht Ht2]. rewrite Ep in Ht.
    destruct Ht as [Ha Hrest].
    assert (Hkeep : Forall (fun key => is_Some (claims w' !! key)) (used_keys (l ++ t :: rest, w))).
    { eapply Forall_impl; [exact Hc|]. intros key Hkey. by eapply handles_claims. }
    split; cbn [fst snd].
    + apply Forall_app_2; [done|]. constructor; [by apply Hrest|]. apply Forall_app_2; [apply spawned_ok|done].
    + destruct (handles_keys c w r w' l t rest (k r) Ha Hh) as [E|(key & E & Hn & _)]; rewrite E; [done|].
      apply NoDup_cons. split; [|done]. intros Hin. rewrite Forall_forall in Hc. destruct (Hc _ Hin) as [row Hrow]. congruence.
    + destruct (handles_keys c w r w' l t rest (k r) Ha Hh) as [E|(key & E & _ & Hs)]; rewrite E; [done|by constructor].
    + by eapply handles_log.
  - split; try done. constructor; [apply request_thread_ok|done].
  - split; try done. eapply Forall_impl; [exact Hc|]. intros key. apply Hm.
Qed.

Lemma guarded_start_ok m : pool_ok ([], mkWorld m []).
Proof. by repeat constructor. Qed.

Lemma reachable_ok m y : rtc pool_step ([], mkWorld m []) y -> pool_ok y.
Proof.
  intros Hr. assert (Hs := guarded_start_ok m). revert Hs. induction Hr as [|x y z Hxy _ IH]; [done|].
  intros Hx. apply IH. by eapply guarded_step_ok.
Qed.

(** ** Requests that are the same

    The same turn, tool and rule, and selected arguments that denote the same
    JSON data. *)
Definition args_denote (h : heap) (m : gmap string value) (t : json) : Prop :=
  denotes (args_heap h m).1 (args_heap h m).2 t.

Definition same_request (q1 q2 : Request) : Prop :=
  exists s canonical rule t,
    svc = Some s
    /\ canonicalRuntimeToolName (q_name q1) = Some canonical /\ canonicalRuntimeToolName (q_name q2) = Some canonical
    /\ rules s !! canonical = Some rule
    /\ TrimSpace (default "" (q_turn q1)) = TrimSpace (default "" (q_turn q2))
    /\ args_denote (q_heap q1) (selectArguments rule (q_args q1)) t
    /\ args_denote (q_heap q2) (selectArguments rule (q_args q2)) t.

#[local] Transparent prepare.

(** What a record was made from. *)
Lemma prepare_Ready q r :
  record_of q = Ready r ->
  exists s canonical rule b,
    svc = Some s /\ canonicalRuntimeToolName (q_name q) = Some canonical /\ rules s !! canonical = Some rule
    /\ canonical_args (q_heap q) (selectArguments rule (q_args q)) = Ok b
    /\ RuleID_ r = cr_id rule /\ ToolName_ r = canonical /\ TurnID_ r = TrimSpace (default "" (q_turn q))
    /\ SemanticHash_ r = sha256_hex (text b)
    /\ ClaimKey (RuleID_ r) (ToolName_ r) (TurnID_ r) (SemanticHash_ r) = Ok (ClaimKey_ r).
Proof.
  unfold record_of, prepare. destruct (canonicalRuntimeToolName (q_name q)) as [canonical|] eqn:En; [|done].
  destruct svc as [s|]; [|done]. destruct (rules s !! canonical) as [rule|] eqn:Er; [|done].
  case_bool_decide; [done|]. case_bool_decide; [done|].
  destruct (canonical_args _ _) as [b|e] eqn:Eb; [|done].
  destruct (ClaimKey _ _ _ _) as [key|e] eqn:Ek; [|done]. intros [= <-].
  exists s, canonical, rule, b. done.
Qed.

Lemma protected_not_unprotected q s canonical rule :
  svc = Some s -> canonicalRuntimeToolName (q_name q) = Some canonical -> rules s !! canonical = Some rule ->
  record_of q <> Unprotected.
Proof. intros E1 E2 E3. unfold record_of, prepare. rewrite E1, E2, E3. by repeat case_match. Qed.

#[local] Opaque prepare.

Lemma canonical_args_Ok h m b : canonical_args h m = Ok b -> CanonicalJSON (args_heap h m).1 (args_heap h m).2 = Some (Ok b).
Proof. unfold canonical_args. destruct (CanonicalJSON _ _); [by intros ->|done]. Qed.

Lemma same_request_key q1 q2 r1 r2 :
  same_request q1 q2 -> record_of q1 = Ready r1 -> record_of q2 = Ready r2 -> ClaimKey_ r1 = ClaimKey_ r2.
Proof.
  intros (s & canonical & rule & t & Es & En1 & En2 & Er & Et & D1 & D2).
  intros (s1 & c1 & rule1 & b1 & E1 & N1 & R1 & A1 & I1 & T1 & U1 & H1 & K1)%prepare_Ready.
  intros (s2 & c2 & rule2 & b2 & E2 & N2 & R2 & A2 & I2 & T2 & U2 & H2 & K2)%prepare_Ready.
  assert (s1 = s) as -> by congruence. assert (s2 = s) as -> by congruence.
  assert (c1 = canonical) as -> by congruence. assert (c2 = canonical) as -> by congruence.
  assert (rule1 = rule) as -> by congruence. assert (rule2 = rule) as -> by congruence.
  apply canonical_args_Ok in A1, A2.
  pose proof (CanonicalJSON_text _ _ _ _ A1 D1) as B1. pose proof (CanonicalJSON_text _ _ _ _ A2 D2) as B2.
  rewrite I1, T1, U1, H1, B1 in K1. rewrite I2, T2, U2, H2, B2, <- Et in K2. congruence.
Qed.

(** C6: However the executions of any number of processes interleave on one claim
    table, and whatever database calls fail or commit in spite of an error, no
    two provider calls are made for the same protected request in the same turn:
    requests are the same when the turn, the rule and the canonical tool agree
    and the selected arguments denote the same JSON data. *)
Theorem at_most_one_dispatch m y i j d1 d2 :
  rtc pool_step ([], mkWorld m []) y ->
  log y.2 !! i = Some d1 -> log y.2 !! j = Some d2 -> same_request (d_request d1) (d_request d2) -> i = j.
Proof.
  intros [_ Hnd _ Hl]%reachable_ok H1 H2 Hs. rewrite Forall_forall in Hl.
  pose proof (Hl d1 (list_elem_of_lookup_2 _ _ _ H1)) as L1. pose proof (Hl d2 (list_elem_of_lookup_2 _ _ _ H2)) as L2.
  unfold logged_ok in L1, L2.
  assert (exists r1, record_of (d_request d1) = Ready r1) as [r1 E1].
  { destruct Hs as (s & c & rule & t & Es & N1 & N2 & Er & _). pose proof (protected_not_unprotected _ _ _ _ Es N1 Er).
    destruct (record_of (d_request d1)); [done|done|by eexists]. }
  assert (exists r2, record_of (d_request d2) = Ready r2) as [r2 E2].
  { destruct Hs as (s & c & rule & t & Es & N1 & N2 & Er & _). pose proof (protected_not_unprotected _ _ _ _ Es N2 Er).
    destruct (record_of (d_request d2)); [done|done|by eexists]. }
  rewrite E1 in L1. rewrite E2 in L2. rewrite (same_request_key _ _ _ _ Hs E1 E2) in L1.
  unfold used_keys in Hnd. apply NoDup_app in Hnd as (_ & _ & Hnd). clear -H1 H2 L1 L2 Hnd.
  revert i j H1 H2. induction (log y.2) as [|d l IH]; intros i j H1 H2; [done|].
  assert (Hin : forall i (x : dispatched), l !! i = Some x -> d_key x = Some (ClaimKey_ r2) -> d_key d = Some (ClaimKey_ r2) -> False).
  { intros i0 x Hx Kx Kd. cbn [omap list_omap] in Hnd. rewrite Kd in Hnd. apply NoDup_cons in Hnd as [Hnot _].
    apply Hnot. apply list_elem_of_omap. exists x. split; [by eapply list_elem_of_lookup_2|done]. }
  destruct i as [|i], j as [|j]; cbn in H1, H2; simplify_eq; [done| | |].
  - by destruct (Hin j d2).
  - by destruct (Hin i d1).
  - f_equal. apply IH; [|done|done]. cbn [omap list_omap] in Hnd. destruct (d_key d); [|done].
    by apply NoDup_cons in Hnd as [_ ?].
Qed.
(** A tool is only called when the guard let the request through: the request
    is not protected, or it was prepared without an error and its claim is in the
    table. A protected request whose claim could not be made (no turn, nothing
    selected, arguments without canonical form, no repository, a database error)
    never reaches the tool. *)
Lemma dispatch_backed m y i d :
  rtc pool_step ([], mkWorld m []) y -> log y.2 !! i = Some d ->
  record_of (d_request d) = Unprotected
  \/ exists r, record_of (d_request d) = Ready r /\ is_Some (claims y.2 !! ClaimKey_ r).
Proof.
  intros [_ _ Hc Hl]%reachable_ok Hd%list_elem_of_lookup_2. rewrite Forall_forall in Hc. rewrite Forall_forall in Hl.
  specialize (Hl d Hd). unfold logged_ok in Hl. destruct (record_of (d_request d)) as [|e s|r] eqn:Er; [by left|done|right].
  exists r. split; [done|]. apply Hc. unfold used_keys. apply elem_of_app. right. apply list_elem_of_omap. by exists d.
Qed.
End Pool.

(** ** Claim keys identify requests *)
Lemma frame_part_app_inj p1 p2 x y :
  Z.of_nat (String.length p1) <= 2 ^ 32 - 1 -> Z.of_nat (String.length p2) <= 2 ^ 32 - 1 ->
  frame_part p1 ++ x = frame_part p2 ++ y -> p1 = p2 /\ x = y.
Proof.
  intros H1 H2 E. unfold frame_part in E. rewrite <- !app_assoc in E.
  apply app_inj_1 in E as [El E]; [|by rewrite !length_be_bytes].
  apply be_bytes_inj in El; [|change (256 ^ Z.of_nat 4) with (2 ^ 32); lia..].
  assert (Hl : forall s, length (bytes s) = String.length s) by (induction s as [|c s IH]; simpl; [done|by rewrite IH]).
  apply app_inj_1 in E as [E ->]; [|rewrite !length_fmap, !Hl; lia]. split; [|done].
  apply bytes_inj. exact (list_fmap_eq_inj byte_z byte_z_inj _ _ E).
Qed.

Lemma frame_part_is_byte p : Forall is_byte (frame_part p).
Proof.
  unfold frame_part. apply Forall_app_2.
  - unfold be_bytes. apply Forall_rev, le_bytes_is_byte.
  - apply Forall_fmap, Forall_true. apply byte_z_is_byte.
Qed.

Lemma frame_bounded parts m : frame parts = Ok m -> Forall (fun p => Z.of_nat (String.length p) <= 2 ^ 32 - 1) parts /\ Forall is_byte m.
Proof.
  revert m. induction parts as [|p parts IH]; intros m; cbn [frame]; [intros [= <-]; by repeat constructor|].
  case_match; [done|]. destruct (Z.ltb_spec (2 ^ 32 - 1) (Z.of_nat (String.length p))) as [|Hl]; [done|].
  destruct (frame parts) as [rest|]; [|done]. intros Em. assert (m = frame_part p ++ rest) as -> by (by injection Em).
  destruct (IH rest eq_refl) as [Hp Hr]. split; [by constructor|].
  apply Forall_app_2; [apply frame_part_is_byte|done].
Qed.

Lemma frame_inj ps1 ps2 m : length ps1 = length ps2 -> frame ps1 = Ok m -> frame ps2 = Ok m -> ps1 = ps2.
Proof.
  revert ps2 m. induction ps1 as [|p1 ps1 IH]; intros [|p2 ps2] m Hl F1 F2; try done.
  pose proof (frame_bounded _ _ F1) as [B1 _]. pose proof (frame_bounded _ _ F2) as [B2 _].
  apply list.Forall_cons in B1 as [B1 _], B2 as [B2 _]. cbn [frame] in F1, F2. repeat (case_match; [done|]).
  destruct (frame ps1) as [r1|] eqn:E1; [|done]. destruct (frame ps2) as [r2|] eqn:E2; [|done].
  assert (frame_part p1 ++ r1 = frame_part p2 ++ r2) as F by (transitivity m; [by injection F1|by injection F2]).
  apply frame_part_app_inj in F as [-> ->]; [|done..].
  rewrite (IH ps2 r2); [done|by injection Hl|done|done].
Qed.

(** Two different texts with the same SHA-256 digest. *)
Definition sha256_collision : Prop := exists m1 m2, m1 <> m2 /\ sha256_sum m1 = sha256_sum m2.

Lemma sha256_injective m1 m2 : hex_encode (sha256_sum m1) = hex_encode (sha256_sum m2) -> m1 = m2 \/ sha256_collision.
Proof.
  intros E. apply hex_encode_inj in E; [|apply sha256_sum_is_byte..].
  destruct (decide (m1 = m2)) as [|Hne]; [by left|right]. by exists m1, m2.
Qed.

Lemma ClaimKey_inj r1 t1 u1 h1 r2 t2 u2 h2 key :
  ClaimKey r1 t1 u1 h1 = Ok key -> ClaimKey r2 t2 u2 h2 = Ok key ->
  (r1 = r2 /\ t1 = t2 /\ u1 = u2 /\ h1 = h2) \/ sha256_collision.
Proof.
  unfold ClaimKey. repeat (case_match; [done|]).
  destruct (frame [_; r1; t1; u1; h1]) as [m1|] eqn:E1; [|done]. destruct (frame [_; r2; t2; u2; h2]) as [m2|] eqn:E2; [|done].
  intros [= <-] [= E]. apply sha256_injective in E as [E|]; [left|by right].
  assert (m1 = m2) as ->.
  { pose proof (frame_bounded _ _ E1) as [_ B1]. pose proof (frame_bounded _ _ E2) as [_ B2].
    clear -E B1 B2. apply eq_sym in E. revert m2 B2 E. induction B1 as [|x l Hx _ IH]; intros [|y l2] B2 E; try done.
    apply list.Forall_cons in B2 as [Hy B2]. injection E as E0 E. rewrite (IH l2 B2 E). f_equal. by apply z_byte_inj. }
  pose proof (frame_inj [claimKeyVersion; r1; t1; u1; h1] [claimKeyVersion; r2; t2; u2; h2] m2 eq_refl E1 E2) as E3. by injection E3 as -> -> -> ->.
Qed.

(** Two requests that claim under the same key are the same request (the
    same turn, rule and tool, and the same data in the selected arguments), unless
    two different texts have the same SHA-256 digest: a request is only
    suppressed because of an earlier one that is the same. *)
Lemma claim_key_identifies `{ToolNames} svc q1 q2 r1 r2 :
  record_of svc q1 = Ready r1 -> record_of svc q2 = Ready r2 -> ClaimKey_ r1 = ClaimKey_ r2 ->
  same_request svc q1 q2 \/ sha256_collision.
Proof.
  intros (s1 & c1 & rule1 & b1 & E1 & N1 & R1 & A1 & I1 & T1 & U1 & H1 & K1)%prepare_Ready.
  intros (s2 & c2 & rule2 & b2 & E2 & N2 & R2 & A2 & I2 & T2 & U2 & H2 & K2)%prepare_Ready E.
  rewrite E in K1. destruct (ClaimKey_inj _ _ _ _ _ _ _ _ _ K1 K2) as [(_ & Et & Eu & Eh)|]; [|by right].
  assert (s1 = s2) as -> by congruence. assert (c1 = c2) as -> by congruence.
  assert (rule1 = rule2) as -> by congruence. rewrite H1, H2 in Eh. unfold sha256_hex in Eh.
  rewrite !bytes_text in Eh. apply sha256_injective in Eh as [->|]; [left|by right].
  apply canonical_args_Ok in A1, A2. destruct (CanonicalJSON_data _ _ _ _ _ A1 A2) as (t & D1 & D2).
  exists s2, c2, rule2, t. do 4 (split; [done || congruence|]). split; [congruence|]. by split.
Qed.

(** ** A concrete run *)
Definition answer {R} (c : call R) (w : World) : R * World :=
  match c in call R return R * World with
  | Now => (0, w)
  | LoadPrevious key => (Ok (claims w !! key), w)
  | Insert key c =>
      match claims w !! key with
      | None => (None, mkWorld (<[key := new_row 0 c]> (claims w)) (log w))
      | Some _ => (Some DuplicateKey, w)
      end
  | Update key c => (None, mkWorld (alter (updated_row c) key (claims w)) (log w))
  | Delete key => (None, mkWorld (delete key (claims w)) (log w))
  | Exists key => (Ok (bool_decide (is_Some (claims w !! key))), w)
  | Wait _ => (None, w)
  | StripTimeout _ => (true, w)
  | Authorize _ => (None, w)
  | Resolve _ => (Ok (Remote false), w)
  | Prepare => (None, w)
  | Provider key q => (Returned "sent", mkWorld (claims w) (log w ++ [mkDispatched key q]))
  | PostProcess _ => (None, w)
  | Reconnect => (true, w)
  | ContextEnded => (false, w)
  | GoFinish _ _ => (tt, w)
  end.

Lemma answer_handles {R} (c : call R) w : handles c w (answer c w).1 (answer c w).2.
Proof.
  destruct c; cbn [answer handles fst snd]; try done; try (by split; [|left]); try (by left).
  destruct (claims w !! key) eqn:E; [by right|]. left. split; [done|]. by exists 0.
Qed.

Section Run.
Context `{ToolNames} (svc : option Service).

(** The first thread that has a call makes it. *)
Fixpoint step_first (ts : list thread) (w : World) : option (list thread * World) :=
  match ts with
  | [] => None
  | t :: rest =>
      match t_prog t with
      | Call c k =>
          Some (mkThread (k (answer c w).1) (next_held (t_held t) c (answer c w).1) :: spawned svc c ++ rest, (answer c w).2)
      | _ => (fun x => (t :: x.1, x.2)) <$> step_first rest w
      end
  end.

Lemma step_first_step ts w ts' w' l :
  step_first ts w = Some (ts', w') -> pool_step svc (l ++ ts, w) (l ++ ts', w').
Proof.
  revert l ts'. induction ts as [|t rest IH]; intros l ts'; [done|]. cbn [step_first].
  assert (Hskip : (fun x => (t :: x.1, x.2)) <$> step_first rest w = Some (ts', w') ->
    pool_step svc (l ++ t :: rest, w) (l ++ ts', w')).
  { destruct (step_first rest w) as [[r1 w1]|]; [|done]. intros [= <- <-].
    specialize (IH (l ++ [t]) r1 eq_refl). by rewrite <- !app_assoc in IH. }
  destruct (t_prog t) as [a|R c k|] eqn:Ep; [exact Hskip| |exact Hskip].
  intros [= <- <-]. by apply step_call with (k := k), answer_handles.
Qed.

Fixpoint run (n : nat) (x : list thread * World) : list thread * World :=
  match n with
  | O => x
  | S n => match step_first x.1 x.2 with Some y => run n y | None => x end
  end.

Lemma run_steps n x : rtc (pool_step svc) x (run n x).
Proof.
  revert x. induction n as [|n IH]; intros [ts w]; [reflexivity|]. cbn [run fst snd].
  destruct (step_first ts w) as [[ts' w']|] eqn:E; [|reflexivity].
  eapply rtc_l; [|apply IH]. exact (step_first_step ts w ts' w' [] E).
Qed.
(** The data of the selected arguments, unfolded three references deep. *)
Definition selected (q : Request) : option json :=
  s ← svc;
  c ← canonicalRuntimeToolName (q_name q);
  rule ← rules s !! c;
  denote 3 (args_heap (q_heap q) (selectArguments rule (q_args q))).1
           (args_heap (q_heap q) (selectArguments rule (q_args q))).2.

Lemma same_selected q1 q2 t :
  bool_decide (canonicalRuntimeToolName (q_name q1) = canonicalRuntimeToolName (q_name q2)) = true ->
  bool_decide (TrimSpace (default "" (q_turn q1)) = TrimSpace (default "" (q_turn q2))) = true ->
  selected q1 = Some t -> selected q2 = Some t -> same_request svc q1 q2.
Proof.
  rewrite !bool_decide_eq_true. unfold selected. intros En Et S1 S2.
  apply bind_Some in S1 as (s & Es & S1). apply bind_Some in S1 as (c & Ec & S1). apply bind_Some in S1 as (rule & Er & S1).
  apply bind_Some in S2 as (s' & Es' & S2). apply bind_Some in S2 as (c' & Ec' & S2). apply bind_Some in S2 as (rule' & Er' & S2).
  assert (s' = s) as -> by congruence. assert (c' = c) as -> by congruence. assert (rule' = rule) as -> by congruence.
  exists s, c, rule, t. do 4 (split; [done|]). split; [done|]. split; by exists 3%nat.
Qed.
End Run.

(** Two requests for one mail under different spellings of the tool, the amount
    once as 10 and once as 1e1, and an argument that is not selected. *)
Module Demo.
Definition part (first : bool) (s : string) : string :=
  match cut (bytes "-") (bytes s) with Some (b, a) => text (if first then b else a) | None => "" end.
#[export] Instance names : ToolNames := {|
  Canonical := fun s => ReplaceAll (ReplaceAll s ":" "-") "/" "-";
  Display := fun s => s; NameService := part true; NameMethod := part false |}.

Definition config : Config :=
  mkConfig true [mkRule " mail " "mail/send" atMostOnce (Some (mkSemantic (Some ["to"; "amount"]) []))].
Definition service : option Service := match New config (Some Component) with Ok s => Some s | Err _ => None end.

Definition no_heap : heap := mkHeap ∅ ∅.
Definition args (amount note : string) : gmap string value :=
  {[ "to" := Interface (Some (Str "a@b")); "amount" := Interface (Some (Number amount));
     "note" := Interface (Some (Str note)) ]}.
Definition thread1 := request_thread service None (Some "turn-1") "mail:send|data" no_heap (args "10" "x").
Definition thread2 := request_thread service None (Some " turn-1 ") "mail/send" no_heap (args "1e1" "y").

Definition final : list thread * World :=
  let x := run service 60 ([thread1], mkWorld ∅ []) in
  run service 60 (thread2 :: x.1, x.2).

Definition request1 : Request := mkRequest (Some "turn-1") "mail:send" no_heap (args "10" "x").
Definition request2 : Request := mkRequest (Some " turn-1 ") "mail/send" no_heap (args "1e1" "y").
Definition row_state (w : World) : list string := State ∘ snd <$> map_to_list (claims w).

Lemma final_log : (d_request <$> log final.2) = [request1].
Proof. vm_compute. reflexivity. Qed.
Lemma final_state : row_state final.2 = ["completed"%string].
Proof. vm_compute. reflexivity. Qed.
End Demo.

Lemma dispatch_key_Some p k : dispatch_key p = Some k -> exists r, p = Ready r /\ ClaimKey_ r = k.
Proof. destruct p; try done. intros [= <-]. by eexists. Qed.

Module Witness.
Import Demo.

Lemma final_reached : rtc (pool_step service) ([], mkWorld ∅ []) final.
Proof.
  eapply rtc_l; [apply (step_request service [] _ None (Some "turn-1") "mail:send|data" no_heap (args "10" "x"))|].
  etrans; [exact (run_steps service 60 _)|]. unfold final.
  set (x := run service 60 ([thread1], mkWorld ∅ [])).
  change (request_thread service None (Some "turn-1") "mail:send|data" no_heap (args "10" "x")) with thread1. fold x.
  eapply rtc_l; [|exact (run_steps service 60 _)]. rewrite (surjective_pairing x) at 1.
  apply (step_request service x.1 x.2 None (Some " turn-1 ") "mail/send" no_heap (args "1e1" "y")).
Qed.

Definition selected_json : json :=
  JObj [("amount"%string, JNum (mkDecimal false ["1"%char] 1)); ("to"%string, JStr "a@b")].
Lemma selected_1 : selected service request1 = Some selected_json.
Proof. vm_compute. reflexivity. Qed.
Lemma selected_2 : selected service request2 = Some selected_json.
Proof. vm_compute. reflexivity. Qed.
Lemma request_same : same_request service request1 request1.
Proof. apply (same_selected service _ _ selected_json); [vm_compute; reflexivity..|exact selected_1|exact selected_1]. Qed.

Definition demo_key : string := Eval vm_compute in default "" (dispatch_key (record_of service request1)).
Lemma key_1 : dispatch_key (record_of service request1) = Some demo_key.
Proof. vm_compute. reflexivity. Qed.
Lemma key_2 : dispatch_key (record_of service request2) = Some demo_key.
Proof. vm_compute. reflexivity. Qed.
End Witness.

#[local] Existing Instance Demo.names.

Lemma at_most_one_dispatch_witness :
  exists d, Demo.final.2.(log) !! 0%nat = Some d /\ d_request d = Demo.request1 /\ 0%nat = 0%nat.
Proof.
  pose proof Demo.final_log as Hl. destruct (log Demo.final.2) as [|d l] eqn:E; [discriminate Hl|].
  injection Hl as Hd _. exists d. split; [reflexivity|]. split; [exact Hd|].
  apply (at_most_one_dispatch Demo.service ∅ Demo.final 0 0 d d Witness.final_reached); [by rewrite E|by rewrite E|].
  rewrite Hd. exact Witness.request_same.
Defined.

Lemma dispatch_backed_witness :
  exists d, log Demo.final.2 !! 0%nat = Some d /\
    (record_of Demo.service (d_request d) = Unprotected
     \/ exists r, record_of Demo.service (d_request d) = Ready r /\ is_Some (claims Demo.final.2 !! ClaimKey_ r)).
Proof.
  pose proof Demo.final_log as Hl. destruct (log Demo.final.2) as [|d l] eqn:E; [discriminate Hl|].
  exists d. split; [reflexivity|].
  apply (dispatch_backed Demo.service ∅ Demo.final 0 d Witness.final_reached). by rewrite E.
Defined.

Lemma claim_key_identifies_witness : same_request Demo.service Demo.request1 Demo.request2 \/ sha256_collision.
Proof.
  destruct (dispatch_key_Some _ _ Witness.key_1) as (r1 & R1 & K1).
  destruct (dispatch_key_Some _ _ Witness.key_2) as (r2 & R2 & K2).
  exact (claim_key_identifies Demo.service Demo.request1 Demo.request2 r1 r2 R1 R2 (eq_trans K1 (eq_sym K2))).
Defined.
