(* ===== verification/GoErrors.v ===== *)
(** * Go errors

    An error value is a tree: a leaf (a sentinel, a message, an error of a
    driver), one cause below a wrapper, or several causes joined. [errors.Is],
    [errors.As] and the predicates of the code walk it. *)
From stdpp Require Import base strings list.
From Stdlib Require Import ZArith Ascii.
From S2P Require Import Prelude GoStrings.

Open Scope Z_scope.

(** Sentinels are compared by identity. *)
Inductive sentinel :=
| ErrInvalidLease | ErrLeaseLost | ErrTransactionContext | ErrUncheckedLease
| ErrNotFound | ErrConflict
| ErrInvalidMaintenanceLease | ErrMaintenanceLeaseLost
| errCleanupPassFinished
| Canceled | DeadlineExceeded | ErrTxDone.

#[export] Instance sentinel_eq : EqDecision sentinel.
Proof. solve_decision. Defined.

Definition sentinel_text (s : sentinel) : string :=
  match s with
  | ErrInvalidLease => "invalid maintenance lease"
  | ErrLeaseLost | ErrMaintenanceLeaseLost => "maintenance lease is no longer owned by this worker"
  | ErrTransactionContext => "maintenance lease check requires a context outside a managed invocation"
  | ErrUncheckedLease => "maintenance mutation requires a preceding lease check"
  | ErrNotFound => "maintenance lease not found"
  | ErrConflict => "maintenance lease changed"
  | ErrInvalidMaintenanceLease => "invalid maintenance lease request"
  | errCleanupPassFinished => "cleanup pass finished"
  | Canceled => "context canceled"
  | DeadlineExceeded => "context deadline exceeded"
  | ErrTxDone => "sql: transaction has already been committed or rolled back"
  end.

(** The error types of the database drivers, with their codes. *)
Inductive driver := MySQL | SQLite3 | Modernc | OtherDriver.

#[export] Instance driver_eq : EqDecision driver.
Proof. solve_decision. Defined.

Inductive leaf :=
| Sentinel (s : sentinel)
| Text (message : string)
(** [xhandler.Conflict]: its reason and its message. *)
| Conflict (reason message : string)
| Driver (d : driver) (code : Z) (message : string).

#[export] Instance leaf_eq : EqDecision leaf.
Proof. solve_decision. Defined.

(** [fmt.Errorf] with the cause last or first, and [maintenancetx.GuardChanged]. *)
Inductive wrapper := Prefixed (s : string) | Suffixed (s : string) | GuardChanged.

Inductive error :=
| Leaf (l : leaf)
| Wrap (w : wrapper) (cause : error)
| Join (causes : list error).

Definition newError (s : sentinel) : error := Leaf (Sentinel s).
Definition Errorf (message : string) : error := Leaf (Text message).

Definition leaf_text (l : leaf) : string :=
  match l with Sentinel s => sentinel_text s | Text m => m | Conflict _ m => m | Driver _ _ m => m end.

(** [err.Error()]; [errors.Join] separates its causes by newlines. *)
Definition newline : string := text [ascii_of_nat 10].

Fixpoint Error (e : error) : string :=
  match e with
  | Leaf l => leaf_text l
  | Wrap (Prefixed s) e => s ++ ": " ++ Error e
  | Wrap (Suffixed s) e => Error e ++ ": " ++ s
  | Wrap GuardChanged e => "cleanup protected by a changed write guard: " ++ Error e
  | Join es => String.concat newline (Error <$> es)
  end.

(** The leaves below an error. *)
Fixpoint leaves (e : error) : list leaf :=
  match e with Leaf l => [l] | Wrap _ e => leaves e | Join es => flat_map leaves es end.

(** [errors.Is] with a sentinel. *)
Definition Is (e : error) (s : sentinel) : bool := bool_decide (Sentinel s ∈ leaves e).

(** [errors.As] with [*xhandler.Conflict]: the reason of the first one. *)
Definition AsConflict (e : error) : option string :=
  head (omap (fun l => match l with Conflict reason _ => Some reason | _ => None end) (leaves e)).

(** [errors.As] with [*maintenancetx.GuardChanged]. *)
Fixpoint AsGuardChanged (e : error) : bool :=
  match e with
  | Leaf _ => false
  | Wrap GuardChanged _ => true
  | Wrap _ e => AsGuardChanged e
  | Join es => existsb AsGuardChanged es
  end.

(** [errors.Join] drops the nil errors, and is nil when nothing is left. *)
Definition Joined (es : list (option error)) : option error :=
  match omap id es with [] => None | es => Some (Join es) end.

(** Induction below joined causes. *)
Lemma error_ind' (P : error -> Prop) :
  (forall l, P (Leaf l)) -> (forall w e, P e -> P (Wrap w e)) -> (forall es, Forall P es -> P (Join es)) ->
  forall e, P e.
Proof.
  intros Hl Hw Hj. fix IH 1. intros [l|w e|es]; [apply Hl|apply Hw, IH|].
  apply Hj. induction es as [|e es IHes]; constructor; [apply IH|exact IHes].
Qed.

Lemma Joined_None es : Joined es = None <-> Forall (fun e => e = None) es.
Proof.
  unfold Joined. induction es as [|[e|] es IH]; cbn [omap list_omap id]; [done| |].
  - split; [done|]. intros H. by inversion H.
  - rewrite IH, Forall_cons. naive_solver.
Qed.
