(* ===== verification/MaintenanceTx.v ===== *)
(** * Cleanup transactions

    src/internal/store/maintenancetx/transaction.go: the accounting of what a
    cleanup transaction changed, and the retry loop around it. [Invoke] runs a
    component in a transaction of its own and repeats it only when the database
    has confirmed that the attempt was rolled back because of contention. *)
From stdpp Require Import base gmap strings list fin_maps.
From Stdlib Require Import ZArith Lia.
From S2P Require Import Prelude GoStrings Effects GoErrors.

Open Scope Z_scope.

(** ** What a transaction changed *)
Record MutationResult := mkMutation {
  Operation : string; Table : string; Affected : Z; m_Error : option error }.

(** The journal of the transaction is [reporter]; [None] is no reporter. *)
Record Effects := mkEffects {
  reporter : option (list MutationResult); immediate : gmap string Z; committed : bool }.

Definition new_effects : Effects := mkEffects None ∅ false.

Record Summary := mkSummary { AffectedRows : Z; DeletedRows : Z; DeletedByTable : gmap string Z }.

Definition count (m : gmap string Z) (table : string) : Z := default 0 (m !! table).
Definition add_count (table : string) (n : Z) (m : gmap string Z) : gmap string Z := <[table := count m table + n]> m.

Definition sum_immediate (m : gmap string Z) : Z := map_fold (fun _ n acc => acc + n) 0 m.

Definition summarize_row (s : Summary) (row : MutationResult) : Summary :=
  match m_Error row with
  | Some _ => s
  | None =>
      let op := Operation row in
      let s := if bool_decide (op = "insert") || bool_decide (op = "update") || bool_decide (op = "delete")
               then mkSummary (AffectedRows s + Affected row) (DeletedRows s) (DeletedByTable s) else s in
      if bool_decide (op = "delete")
      then mkSummary (AffectedRows s) (DeletedRows s + Affected row) (add_count (Table row) (Affected row) (DeletedByTable s))
      else s
  end.

Definition CommitSummary (e : option Effects) : result error Summary :=
  match e with
  | Some e =>
      if committed e then
        let total := sum_immediate (immediate e) in
        Ok (foldl summarize_row (mkSummary total total (immediate e)) (default [] (reporter e)))
      else Err (Errorf "cleanup commit outcome is not confirmed")
  | None => Err (Errorf "cleanup commit outcome is not confirmed")
  end.

(** [Observe] and [RecordImmediate] inside an attempt. *)
Definition Observe (r : list MutationResult) (e : Effects) : Effects := mkEffects (Some r) (immediate e) (committed e).
Definition RecordImmediate (table : string) (affected : Z) (e : Effects) : Effects :=
  mkEffects (reporter e) (add_count table affected (immediate e)) (committed e).

#[export] Instance no_error_dec (row : MutationResult) : Decision (m_Error row = None).
Proof. destruct (m_Error row); [right|left]; done. Defined.

Definition deleted_rows (keep : MutationResult -> bool) (rows : list MutationResult) : Z :=
  foldl (fun n row => if bool_decide (m_Error row = None) && bool_decide (Operation row = "delete") && keep row
                      then n + Affected row else n) 0 rows.

Definition Deleted (e : option Effects) (table : string) : Z :=
  match e with
  | None => 0
  | Some e => count (immediate e) table + deleted_rows (fun row => bool_decide (Table row = table)) (default [] (reporter e))
  end.

Definition Effects_DeletedRows (e : option Effects) : Z :=
  match e with
  | None => 0
  | Some e => sum_immediate (immediate e) + deleted_rows (fun _ => true) (default [] (reporter e))
  end.

(** ** Outcomes and errors *)
Inductive TransactionState := TransactionCommitted | TransactionRolledBack | TransactionUnknown.

#[export] Instance TransactionState_eq : EqDecision TransactionState.
Proof. solve_decision. Defined.

(** [xhandler.Outcome], which the completion observer receives. *)
Record Outcome := mkOutcome { o_Error : option error; Transactions : list (TransactionState * option error) }.

Definition guard_reason : string := "mutation predicate no longer matches persisted row".

(** Contention of a driver; the sqlite3 driver is the one of a build with cgo. *)
Definition contention (d : driver) (code : Z) : bool :=
  match d with
  | MySQL => (code =? 1213) || (code =? 1205)
  | SQLite3 => (code =? 5) || (code =? 6)
  | Modernc => let code := Z.land code 255 in (code =? 5) || (code =? 6)
  | OtherDriver => false
  end.

Definition retryable_leaf (l : leaf) : bool :=
  match l with
  | Conflict reason _ => bool_decide (reason = guard_reason)
  | Driver d code _ => contention d code
  | _ => false
  end.

Fixpoint retryable (e : error) : bool :=
  match e with
  | Leaf l => retryable_leaf l
  | Wrap _ e => retryable e
  | Join es => forallb retryable es && negb (bool_decide (length es = 0%nat))
  end.

(** A nil error is no obstacle. *)
Definition onlyRetryable (e : option error) : bool := match e with None => true | Some e => retryable e end.

Definition nativeGuardMiss (e : error) : bool := bool_decide (AsConflict e = Some guard_reason).

Definition rolledBack (o : Outcome) : bool :=
  match Transactions o with
  | [(TransactionRolledBack, e)] => onlyRetryable e && onlyRetryable (o_Error o)
  | _ => false
  end.

Definition commit_confirmed (o : Outcome) : bool :=
  match Transactions o with [(TransactionCommitted, _)] => true | _ => false end.

(** ** Contexts

    The values of a context that this code reads: an attempt that is under way,
    the receipt of a lease check, whether a transaction can be looked up, and
    the isolation that was asked for. *)
Inductive Isolation := IsolationReadCommitted | IsolationOther.
Record checkedLease := mkChecked { k_key : string; k_owner : string; k_token : string; k_at : Z }.
Record Ctx := mkCtx {
  attempt : bool; checked : option checkedLease; transaction : bool; isolation : option Isolation }.

Definition with_attempt (c : Ctx) : Ctx := mkCtx true (checked c) (transaction c) (isolation c).
Definition with_checked (k : checkedLease) (c : Ctx) : Ctx := mkCtx (attempt c) (Some k) (transaction c) (isolation c).
Definition with_isolation (i : Isolation) (c : Ctx) : Ctx := mkCtx (attempt c) (checked c) (transaction c) (Some i).

(** The answer of the inspector is the configured driver or an error. *)
Definition Prepare (inspector : option (result error string)) (c : Ctx) : result error Ctx :=
  match inspector with
  | None => Err (Errorf "cleanup configured database driver is required")
  | Some (Err e) => Err e
  | Some (Ok driver) =>
      let driver := ToLower (TrimSpace driver) in
      if Contains driver "mysql" then Ok (with_isolation IsolationReadCommitted c)
      else if Contains driver "sqlite" then
        match isolation c with
        | Some _ => Err (Errorf "SQLite cleanup requires native default transaction isolation")
        | None => Ok c
        end
      else Err (Errorf ("unsupported cleanup database driver " ++ driver))
  end.

(** ** The retry loop *)

(** What the loop needs of the calls of a component: to look at its context and
    to wait (with the error of the context when that ends first). *)
Class Waiting (E : Type -> Type) := { ctx_err : E (option error); wait : Z -> E (option error) }.

(** What [InvokeComponent] leaves: a value, an error, the outcome given to the
    completion observer, and the effects recorded on the way. *)
Record Completed A := mkCompleted { c_value : option A; c_error : option error; c_outcome : Outcome; c_effects : Effects }.
Arguments mkCompleted {A}.
Arguments c_value {A}.
Arguments c_error {A}.
Arguments c_outcome {A}.
Arguments c_effects {A}.

Definition confirmed (e : Effects) (o : Outcome) : Effects := mkEffects (reporter e) (immediate e) (commit_confirmed o).

Section Invoke.
Context {E : Type -> Type} `{Waiting E} {A : Type}.
Context (preflight : Ctx -> prog E (result error Ctx)) (component : Ctx -> Effects -> prog E (Completed A)).

Definition Invoked : Type := option A * option Effects * option error.
Definition refuse (e : error) : prog E Invoked := mret (None, None, Some e).

(** Attempt number [n], with [more] attempts after it. *)
Fixpoint attempts (more : nat) (n : Z) (c : Ctx) : prog E Invoked :=
  ended ← ask ctx_err;
  match ended with
  | Some e => refuse e
  | None =>
      scope ← preflight c;
      match scope with
      | Err e => refuse e
      | Ok scope =>
          if transaction scope then refuse (Errorf "cleanup requires a top-level transaction boundary") else
          r ← component (with_attempt scope) new_effects;
          let effects := confirmed (c_effects r) (c_outcome r) in
          match c_error r with
          | None => mret (c_value r, Some effects, None)
          | Some e =>
              if committed effects then mret (c_value r, Some effects, Some e)
              else if negb (rolledBack (c_outcome r)) || negb (retryable e) then refuse e
              else
                match more with
                | O => refuse (if nativeGuardMiss e then Wrap GuardChanged e else e)
                | S more =>
                    ended ← ask (wait ((n + 1) * (25 * Millisecond)));
                    match ended with
                    | Some e => refuse e
                    | None => attempts more (n + 1) c
                    end
                end
          end
      end
  end.

(** [completion] tells that the request already has an observer. *)
Definition Invoke (completion : bool) (c : Ctx) : prog E Invoked :=
  if attempt c then refuse (Errorf "cleanup requires a top-level transaction boundary")
  else if completion then refuse (Errorf "cleanup owns its completion observer")
  else attempts 2 0 c.
End Invoke.
