(* ===== verification/Lease.v ===== *)
(** * The maintenance lease

    The lease of src/internal/store/maintenancelease (store.go, check.go,
    purge.go) over the component that reads and writes its table
    (src/internal/datly/maintenancelease, of which the write hook is modelled),
    and its facade in src/app/store/data/service_maintenance_lease.go. A lease is
    a row with an owner, a token and an expiry on the clock of the database; every
    write is guarded by what the writer has read. *)
From stdpp Require Import base gmap strings list pretty.
From Stdlib Require Import ZArith Lia.
From S2P Require Import Prelude GoStrings Effects GoErrors MaintenanceTx.

Open Scope Z_scope.

(** ** Data *)
Record Lease := mkLease { Key : string; OwnerID : string; Token : string; LeaseUntil : Z }.
Record AcquireResult := mkAcquire { Acquired : bool; Granted : Lease }.

(** A row of the table. *)
Record Row := mkRow { OwnerId : string; LeaseToken : string; Until : Z; CreatedAt : Z; UpdatedAt : Z }.

(** A row of the reader: the clock of the database, as [ParseDatabaseUTC] reads
    it, beside the columns of a lease, which are null when there is none. *)
Record LeaseSnapshot := mkSnapshot {
  DbNow : result error Z;
  s_LeaseKey : option string; s_OwnerId : option string; s_LeaseToken : option string; s_LeaseUntil : option Z }.

(** The inputs of the reader and of the writer, with the fields that are set. *)
Record ReadInput := mkRead { r_Mode : option string; r_LeaseKey : option string; r_ExpiresBefore : option Z }.

Record Entity := mkEntity {
  e_LeaseKey : option string; e_OwnerId : option string; e_LeaseToken : option string; e_LeaseUntil : option Z;
  e_CreatedAt : option Z; e_UpdatedAt : option Z; e_ShouldDelete : option bool }.

Record WriteInput := mkWrite {
  Mode : string; ExpectedOwner : option string; ExpectedToken : option string;
  ExpiresBefore : option Z; LiveAfter : option Z }.

(** What the environment answers: the reader, the writer (which reads the
    previous row and then changes it), the clock of the process, fresh tokens,
    the context and its waits, the configured driver, and the transaction of a
    purge, which ends with what its handler returned. *)
Inductive call : Type -> Type :=
| Snapshot (i : ReadInput) : call (result error (list (option LeaseSnapshot)))
| LoadPrevious (key : string) : call (result error (option Row))
| Insert (key : string) (e : Entity) : call (option error)
| Update (key : string) (i : WriteInput) (e : Entity) : call (option error)
| Delete (key : string) (i : WriteInput) : call (option error)
| LocalNow : call Z
| NewToken : call string
| CtxErr : call (option error)
| Wait (d : Z) : call (option error)
| ConfiguredDriver : call (option (result error string))
| TxStart : call (option error)
| TxEnd (e : option error) : call (option error * Outcome * list MutationResult).

#[export] Instance lease_waiting : Waiting call := { ctx_err := CtxErr; wait := Wait }.

Notation prog := (Effects.prog call).

(** [strconv.Quote], and [errx.IsDuplicateKey] of github.com/viant/sqlx. *)
Class Runtime := { Quote : string -> string; IsDuplicateKey : error -> bool }.

Section Store.
Context `{Runtime}.

(** Whether the store has its invoker. *)
Record Store := mkStore { Invoker : bool }.

Definition no_invoker : error := Errorf "maintenance lease component invoker is required".
Definition nat_text (n : nat) : string := pretty n.

(** ** Reading *)
Definition snapshot (s : Store) (i : ReadInput) : prog (result error (list (option LeaseSnapshot))) :=
  if Invoker s then ask (Snapshot i) else mret (Err no_invoker).

Definition clock_input : ReadInput := mkRead (Some "clock") None None.
Definition key_input (key : string) : ReadInput := mkRead None (Some key) None.

Definition databaseNow (s : Store) : prog (result error Z) :=
  rows ← snapshot s clock_input;
  mret match rows with
       | Err e => Err e
       | Ok [Some row] => DbNow row
       | Ok rows => Err (Errorf ("maintenance clock returned " ++ nat_text (length rows) ++ " rows"))
       end.

Definition incomplete (key : string) : error :=
  Errorf ("maintenance lease " ++ Quote key ++ " has incomplete persisted fields").

Definition lookup_row (key : string) (row : LeaseSnapshot) : result error (option Lease) :=
  match s_LeaseKey row with
  | None => Ok None
  | Some k =>
      match s_OwnerId row, s_LeaseToken row, s_LeaseUntil row with
      | Some owner, Some token, Some until => Ok (Some (mkLease k owner token until))
      | _, _, _ => Err (incomplete key)
      end
  end.

Definition lookup (s : Store) (key : string) : prog (result error (option Lease)) :=
  rows ← snapshot s (key_input key);
  mret match rows with
       | Err e => Err e
       | Ok [Some row] => lookup_row key row
       | Ok rows => Err (Errorf ("maintenance lease lookup returned " ++ nat_text (length rows) ++ " rows"))
       end.

(** ** Writing *)
Definition blank (s : option string) : bool := bool_decide (TrimSpace (default "" s) = "").
Definition zero_time (t : option Z) : bool := time_is_zero (default 0 t).

(** The hook of the writer, before the row is written. *)
Definition Init (trusted : bool) (i : WriteInput) (e : Entity) (previous : option Row) : result error Entity :=
  let deleting := default false (e_ShouldDelete e) in
  let present := bool_decide (is_Some previous) in
  let unguarded := blank (ExpectedOwner i) || blank (ExpectedToken i) in
  if negb trusted then Err (Errorf "trusted maintenance lease access is required")
  else if blank (e_LeaseKey e) then Err (Errorf "maintenance lease key is required")
  else if bool_decide (Mode i = "create") then
    if deleting || present then Err (newError ErrConflict)
    else if blank (e_OwnerId e) || blank (e_LeaseToken e) || zero_time (e_LeaseUntil e)
    then Err (Errorf "owner, token and expiry are required") else Ok e
  else if bool_decide (Mode i = "claim") then
    if deleting || negb present then Err (newError ErrNotFound)
    else if bool_decide (ExpiresBefore i = None) || blank (ExpectedToken i)
    then Err (Errorf "claim requires expiry and prior token guards")
    else if blank (e_OwnerId e) || blank (e_LeaseToken e) || zero_time (e_LeaseUntil e)
    then Err (Errorf "owner, token and expiry are required") else Ok e
  else if bool_decide (Mode i = "renew") then
    if deleting || negb present then Err (newError ErrNotFound)
    else if bool_decide (LiveAfter i = None) || unguarded
    then Err (Errorf "renew requires live owner and token guards")
    else if zero_time (e_LeaseUntil e) then Err (Errorf "renewed expiry is required") else Ok e
  else if bool_decide (Mode i = "release") then
    if deleting || negb present then Err (newError ErrNotFound)
    else if unguarded || zero_time (e_LeaseUntil e)
    then Err (Errorf "release requires owner, token and database clock") else Ok e
  else if bool_decide (Mode i = "guard") then
    if deleting then Err (newError ErrNotFound)
    else match previous with
    | None => Err (newError ErrNotFound)
    | Some previous =>
        if bool_decide (LiveAfter i = None) || unguarded || zero_time (e_UpdatedAt e)
        then Err (Errorf "guard requires live owner, token and database clock")
        else
          let updated := default 0 (e_UpdatedAt e) in
          Ok (mkEntity (e_LeaseKey e) (e_OwnerId e) (e_LeaseToken e) (e_LeaseUntil e) (e_CreatedAt e)
                (Some (if updated =? UpdatedAt previous then updated + Second else updated)) (e_ShouldDelete e))
    end
  else if bool_decide (Mode i = "delete") then
    if negb deleting || bool_decide (ExpiresBefore i = None) || blank (ExpectedToken i)
    then Err (Errorf "delete requires marker, expiry and prior token") else Ok e
  else Err (Errorf ("unsupported maintenance lease mode " ++ Quote (Mode i))).

(** The writer: the previous row is read, the hook runs, then the row is
    inserted, updated or deleted. *)
Definition patch (s : Store) (i : WriteInput) (e : Entity) : prog (option error) :=
  if negb (Invoker s) then mret (Some no_invoker) else
  let key := default "" (e_LeaseKey e) in
  previous ← ask (LoadPrevious key);
  match previous with
  | Err e => mret (Some e)
  | Ok previous =>
      match Init true i e previous with
      | Err e => mret (Some e)
      | Ok e =>
          if default false (e_ShouldDelete e) then ask (Delete key i)
          else match previous with None => ask (Insert key e) | Some _ => ask (Update key i e) end
      end
  end.

(** What an insertion and an update make of a row. *)
Definition inserted (e : Entity) : Row :=
  mkRow (default "" (e_OwnerId e)) (default "" (e_LeaseToken e)) (default 0 (e_LeaseUntil e))
        (default 0 (e_CreatedAt e)) (default 0 (e_UpdatedAt e)).
Definition updated (e : Entity) (r : Row) : Row :=
  mkRow (default (OwnerId r) (e_OwnerId e)) (default (LeaseToken r) (e_LeaseToken e)) (default (Until r) (e_LeaseUntil e))
        (default (CreatedAt r) (e_CreatedAt e)) (default (UpdatedAt r) (e_UpdatedAt e)).

(** The mutation predicate of the writer. *)
Definition set_to {A} `{EqDecision A} (expected : option A) (actual : A) : bool :=
  match expected with None => true | Some a => bool_decide (a = actual) end.
Definition guard_ok (i : WriteInput) (r : Row) : bool :=
  set_to (ExpectedOwner i) (OwnerId r) && set_to (ExpectedToken i) (LeaseToken r)
  && match ExpiresBefore i with None => true | Some t => Until r <=? t end
  && match LiveAfter i with None => true | Some t => t <? Until r end.

(** ** Acquiring *)
Definition conflicting (e : error) : bool :=
  Is e ErrConflict || Is e ErrNotFound || bool_decide (is_Some (AsConflict e)) || IsDuplicateKey e.

Definition retryableBusy (e : option error) : bool :=
  match e with
  | None => false
  | Some e => let message := ToLower (Error e) in Contains message "sqlite_busy" || Contains message "database is locked"
  end.

Definition acquire_entity (key owner token : string) (now ttl : Z) (current : option Lease) : Entity :=
  mkEntity (Some key) (Some owner) (Some token) (Some (now + ttl)) (match current with None => Some now | Some _ => None end) (Some now) None.
Definition acquire_input (now : Z) (current : option Lease) : WriteInput :=
  match current with
  | None => mkWrite "create" None None None None
  | Some current => mkWrite "claim" None (Some (Token current)) (Some now) None
  end.

(** The write of an acquisition, with a fresh token. *)
Definition claim_lease (s : Store) (key owner : string) (ttl now : Z) (current : option Lease) : prog (result error AcquireResult + error) :=
  token ← ask NewToken;
  e ← patch s (acquire_input now current) (acquire_entity key owner token now ttl current);
  mret match e with
       | None => inl (Ok (mkAcquire true (mkLease key owner token (now + ttl))))
       | Some e => if negb (conflicting e) && negb (retryableBusy (Some e)) then inl (Err e) else inr e
       end.

Definition busy_or_return (e : error) : result error AcquireResult + error :=
  if negb (retryableBusy (Some e)) then inl (Err e) else inr e.

(** One turn of the loop: what [Acquire] returns, or the last error. *)
Definition acquire_once (s : Store) (key owner : string) (ttl : Z) : prog (result error AcquireResult + error) :=
  now ← databaseNow s;
  match now with
  | Err e => mret (busy_or_return e)
  | Ok now =>
      current ← lookup s key;
      match current with
      | Err e => mret (busy_or_return e)
      | Ok None => claim_lease s key owner ttl now None
      | Ok (Some l) =>
          if now <? LeaseUntil l
          then mret (inl (Ok (mkAcquire false (mkLease (Key l) (OwnerID l) "" (LeaseUntil l)))))
          else claim_lease s key owner ttl now (Some l)
      end
  end.

Definition acquisition_error (key : string) (e : error) : error :=
  Wrap (Prefixed ("maintenance lease " ++ Quote key ++ " acquisition")) e.

(** The loop of [Acquire], for [fuel] turns. *)
Fixpoint acquire_loop (fuel : nat) (s : Store) (key owner : string) (ttl deadline delay : Z) : prog (result error AcquireResult) :=
  match fuel with
  | O => Spin
  | S fuel =>
      r ← acquire_once s key owner ttl;
      match r with
      | inl r => mret r
      | inr lastErr =>
          now ← ask LocalNow;
          if negb (now <? deadline) then mret (Err (acquisition_error key lastErr)) else
          ended ← ask (Wait delay);
          match ended with
          | Some e => mret (Err e)
          | None => acquire_loop fuel s key owner ttl deadline (if delay <? 100 * Millisecond then delay * 2 else delay)
          end
      end
  end.

Definition Acquire (fuel : nat) (s : Store) (key owner : string) (ttl : Z) : prog (result error AcquireResult) :=
  let key := TrimSpace key in
  let owner := TrimSpace owner in
  if bool_decide (key = "") || bool_decide (owner = "") || (ttl <=? 0) then mret (Err (newError ErrInvalidLease)) else
  started ← ask LocalNow;
  acquire_loop fuel s key owner ttl (started + 5 * Second) (10 * Millisecond).

(** ** Renewing and releasing *)
Definition normalize (l : Lease) : Lease :=
  mkLease (TrimSpace (Key l)) (TrimSpace (OwnerID l)) (TrimSpace (Token l)) (LeaseUntil l).
Definition valid (l : Lease) : bool :=
  negb (bool_decide (Key l = "")) && negb (bool_decide (OwnerID l = "")) && negb (bool_decide (Token l = "")).

Definition renewal (l : Lease) (now until : Z) : Entity :=
  mkEntity (Some (Key l)) None None (Some until) None (Some now) None.

(** Whether the lease was renewed, and until when. *)
Definition Renew (s : Store) (l : Lease) (ttl : Z) : prog (result error (bool * Z)) :=
  let l := normalize l in
  if negb (valid l) || (ttl <=? 0) then mret (Err (newError ErrInvalidLease)) else
  now ← databaseNow s;
  match now with
  | Err e => mret (Err e)
  | Ok now =>
      let until := now + ttl in
      e ← patch s (mkWrite "renew" (Some (OwnerID l)) (Some (Token l)) None (Some now)) (renewal l now until);
      mret match e with
           | None => Ok (true, until)
           | Some e => if conflicting e then Ok (false, until) else Err e
           end
  end.

Definition Release (s : Store) (l : Lease) : prog (result error bool) :=
  let l := normalize l in
  if negb (valid l) then mret (Err (newError ErrInvalidLease)) else
  now ← databaseNow s;
  match now with
  | Err e => mret (Err e)
  | Ok now =>
      e ← patch s (mkWrite "release" (Some (OwnerID l)) (Some (Token l)) None None) (renewal l now now);
      mret match e with None => Ok true | Some e => if conflicting e then Ok false else Err e end
  end.

(** ** Checking (check.go) *)
Definition check_row (l : Lease) (row : LeaseSnapshot) : result error Z :=
  match DbNow row with
  | Err e => Err e
  | Ok now =>
      match s_LeaseKey row with
      | None => Err (newError ErrLeaseLost)
      | Some key =>
          match s_OwnerId row, s_LeaseToken row, s_LeaseUntil row with
          | Some owner, Some token, Some until =>
              if negb (bool_decide (key = Key l)) || negb (bool_decide (owner = OwnerID l))
                 || negb (bool_decide (token = Token l)) || negb (now <? until)
              then Err (newError ErrLeaseLost) else Ok now
          | _, _, _ => Err (incomplete (Key l))
          end
      end
  end.

Definition Check_ (s : Store) (c : Ctx) (l : Lease) : prog (result error Z) :=
  ended ← ask CtxErr;
  match ended with
  | Some e => mret (Err e)
  | None =>
      if transaction c then mret (Err (newError ErrTransactionContext)) else
      let l := normalize l in
      if negb (valid l) then mret (Err (newError ErrInvalidLease)) else
      rows ← snapshot s (key_input (Key l));
      mret match rows with
           | Err e => Err e
           | Ok [Some row] => check_row l row
           | Ok rows => Err (Errorf ("maintenance lease check returned " ++ nat_text (length rows) ++ " rows"))
           end
  end.

(** The receipt of a check, for the component that runs next. *)
Definition Preflight (s : Store) (l : Lease) (c : Ctx) : prog (result error Ctx) :=
  now ← Check_ s c l;
  mret match now with
       | Err e => Err e
       | Ok now =>
           let l := normalize l in
           Ok (with_checked (mkChecked (Key l) (OwnerID l) (Token l) now) c)
       end.

Definition CheckedAt (c : Ctx) (l : Lease) : prog (result error Z) :=
  ended ← ask CtxErr;
  mret match ended with
       | Some e => Err e
       | None =>
           let l := normalize l in
           if negb (valid l) then Err (newError ErrInvalidLease) else
           match checked c with
           | Some k => if bool_decide (k_key k = Key l) && bool_decide (k_owner k = OwnerID l) && bool_decide (k_token k = Token l)
                       then Ok (k_at k) else Err (newError ErrUncheckedLease)
           | None => Err (newError ErrUncheckedLease)
           end
       end.

(** ** Purging expired leases (purge.go) *)
Definition expiredRetention : Z := 7 * 24 * Hour.

(** The order of the rows to delete: by key, the rows without one last. *)
Definition row_less (a b : option LeaseSnapshot) : bool :=
  match a ≫= s_LeaseKey, b ≫= s_LeaseKey with
  | None, _ => false
  | Some _, None => true
  | Some k, Some k' => Stdlib.Strings.String.ltb k k'
  end.

Fixpoint insert_row (r : option LeaseSnapshot) (rows : list (option LeaseSnapshot)) : list (option LeaseSnapshot) :=
  match rows with
  | [] => [r]
  | r' :: rows => if row_less r' r then r' :: insert_row r rows else r :: r' :: rows
  end.
Definition sort_rows (rows : list (option LeaseSnapshot)) : list (option LeaseSnapshot) := foldr insert_row [] rows.

Definition deletion (key : string) : Entity := mkEntity (Some key) None None None None None (Some true).

(** The loop of [Exec]; a writer that refuses ends it. *)
Fixpoint delete_rows (s : Store) (own : string) (cutoff : Z) (rows : list (option LeaseSnapshot)) : prog (option error) :=
  match rows with
  | [] => mret None
  | row :: rows =>
      match row ≫= (fun row => pair row <$> s_LeaseKey row) with
      | None => delete_rows s own cutoff rows
      | Some (row, key) =>
          match s_LeaseToken row with
          | None => mret (Some (Errorf ("expired maintenance lease " ++ Quote key ++ " lacks token")))
          | Some token =>
              if bool_decide (key = own) then delete_rows s own cutoff rows else
              e ← patch s (mkWrite "delete" None (Some token) (Some cutoff) None) (deletion key);
              match e with Some e => mret (Some e) | None => delete_rows s own cutoff rows end
          end
      end
  end.

(** [Purge.Exec] with the context of the attempt. *)
Definition Exec (c : Ctx) (l : Lease) : prog (option error) :=
  let l := normalize l in
  if negb (valid l) then mret (Some (newError ErrInvalidLease)) else
  now ← CheckedAt c l;
  match now with
  | Err e => mret (Some e)
  | Ok now =>
      started ← ask TxStart;
      match started with
      | Some e => mret (Some e)
      | None =>
          let cutoff := now - expiredRetention in
          rows ← snapshot (mkStore true) (mkRead None None (Some cutoff));
          match rows with
          | Err e => mret (Some e)
          | Ok rows => delete_rows (mkStore true) (Key l) cutoff (sort_rows rows)
          end
      end
  end.

(** The purge as a component: its handler in a transaction, and the journal of
    that transaction as the reporter of the effects. *)
Definition purge (l : Lease) (c : Ctx) (effects : Effects) : prog (Completed unit) :=
  e ← Exec c l;
  '(e, outcome, report) ← ask (TxEnd e);
  mret (mkCompleted (match e with None => Some tt | Some _ => None end) e outcome (Observe report effects)).

Definition DeleteExpired (s : Store) (c : Ctx) (l : Lease) : prog (result error Z) :=
  let l := normalize l in
  if negb (valid l) then mret (Err (newError ErrInvalidLease))
  else if negb (Invoker s) then mret (Err no_invoker)
  else
    '(value, effects, e) ← Invoke (fun c =>
        scope ← Preflight s l c;
        match scope with
        | Err e => mret (Err e)
        | Ok scope => driver ← ask ConfiguredDriver; mret (Prepare driver scope)
        end) (purge l) false c;
    mret match (e : option error) with
         | Some e => if AsGuardChanged e then Ok 0 else Err e
         | None => match (value : option unit) with
                   | None => Err (Errorf "maintenance purge returned <nil>")
                   | Some _ => Ok (Deleted effects "maintenance_lease")
                   end
         end.
End Store.

(** ** The facade of the data service *)
Section Facade.
Context `{Runtime}.

Definition required : error := Errorf "key, owner id and token are required".
Definition invalid_request (e : error) : error := Wrap (Suffixed (Error e)) (newError ErrInvalidMaintenanceLease).
Definition no_runtime : error := Errorf "native maintenance lease runtime is required".

(** [native] tells that the service has its runtime. *)
Definition AcquireMaintenanceLease (fuel : nat) (native : bool) (key owner : string) (ttl : Z) : prog (result error AcquireResult) :=
  let key := TrimSpace key in
  let owner := TrimSpace owner in
  if bool_decide (key = "") || bool_decide (owner = "") || (ttl <=? 0)
  then mret (Err (invalid_request (Errorf "key, owner id and positive TTL are required")))
  else if negb native then mret (Err no_runtime)
  else Acquire fuel (mkStore native) key owner ttl.

Definition RenewMaintenanceLease (native : bool) (l : Lease) (ttl : Z) : prog (result error (bool * Z)) :=
  let l := normalize l in
  if negb (valid l) then mret (Err (invalid_request required))
  else if ttl <=? 0 then mret (Err (invalid_request (Errorf "positive TTL is required")))
  else if negb native then mret (Err no_runtime)
  else Renew (mkStore native) l ttl.

Definition ReleaseMaintenanceLease (native : bool) (l : Lease) : prog (result error bool) :=
  let l := normalize l in
  if negb (valid l) then mret (Err (invalid_request required))
  else if negb native then mret (Err no_runtime)
  else Release (mkStore native) l.

Definition DeleteExpiredMaintenanceLeases (native : bool) (c : Ctx) (l : Lease) : prog (result error Z) :=
  let l := normalize l in
  if negb (valid l) then mret (Err (invalid_request required))
  else if negb native then mret (Err no_runtime)
  else
    r ← DeleteExpired (mkStore native) c l;
    mret match r with
         | Err e => if Is e ErrLeaseLost then Err (newError ErrMaintenanceLeaseLost) else Err e
         | Ok n => Ok n
         end.
End Facade.
