(* ===== verification/Cleanup.v ===== *)
(** * The cleanup worker

    src/service/maintenance: the policies that select and process candidates, the
    loop that pages through them, and the pass that runs them under the
    maintenance lease while a second goroutine renews it. *)
From stdpp Require Import base gmap strings list.
From Stdlib Require Import ZArith Lia.
From S2P Require Import Prelude GoStrings Effects GoErrors MaintenanceTx Lease.

Open Scope Z_scope.

(** ** Requests and results of the data service *)
Record ConversationCandidateRequest := mkListConversations {
  lc_Kind : string; lc_InactiveBefore : Z; lc_AfterActivity : Z; lc_AfterRootID : string; lc_Limit : Z }.
Record ScheduledRunCandidateRequest := mkListRuns {
  lr_InactiveBefore : Z; lr_AfterActivity : Z; lr_AfterRunID : string; lr_Limit : Z }.
Record OrphanCandidateRequest := mkListOrphans { lo_OlderThan : Z; lo_AfterCursor : string; lo_Limit : Z }.
Record TechnicalCandidateRequest := mkListTechnical {
  lt_Scope : string; lt_OlderThan : Z; lt_EvaluatedAt : Z; lt_AfterCursor : string; lt_Limit : Z }.

(** A conversation or a scheduled run. *)
Record RootCandidate := mkRoot { rc_ID : string; rc_ExpectedOwnerID : string; rc_ActivityAt : Z }.
Record OrphanCandidate := mkOrphan {
  oc_CursorID : string; oc_RuleID : string; oc_Action : string; oc_Table : string; oc_RecordID : string;
  oc_ReferenceTable : string; oc_ReferenceID : string; oc_ObservedAt : Z }.
Record TechnicalCandidate := mkTechnical {
  tc_CursorID : string; tc_Kind : string; tc_Scope : string; tc_RecordID : string; tc_ObservedAt : Z }.

Record ConversationRequest := mkConversation {
  cr_RootID : string; cr_ExpectedOwnerID : string; cr_Kind : string; cr_InactiveBefore : Z; cr_Mode : string; cr_Lease : Lease }.
Record ScheduledRunRequest := mkScheduledRun {
  sr_RunID : string; sr_ExpectedOwnerID : string; sr_InactiveBefore : Z; sr_Mode : string; sr_Lease : Lease }.
Record OrphanRequest := mkOrphanRequest { or_RuleID : string; or_RecordID : string; or_OlderThan : Z; or_Lease : Lease }.
Record TechnicalRequest := mkTechnicalRequest {
  tr_Kind : string; tr_Scope : string; tr_RecordID : string; tr_OlderThan : Z; tr_EvaluatedAt : Z; tr_Mode : string; tr_Lease : Lease }.

(** The fields of the results that the policies read. *)
Record TreeResult := mkTree {
  tree_Eligible : bool; tree_Deleted : bool; tree_Reason : string; tree_Partial : bool;
  tree_CommittedBatches : Z; tree_AffectedRows : Z }.
Record OrphanResult := mkOrphanResult {
  orphan_Action : string; orphan_Eligible : bool; orphan_Mutated : bool; orphan_Deleted : bool; orphan_Reason : string }.
Record TechnicalResult := mkTechnicalResult {
  technical_Kind : string; technical_Eligible : bool; technical_Deleted : bool; technical_Reason : string }.

(** ** The environment of a pass

    Besides the calls of the lease store: the clock of the worker, its flag of a
    running pass, its contexts, the goroutine that renews the lease with the
    channel on which it reports, and the data service. *)
Inductive scope := PassCtx | LeaseCtx | PolicyCtx.

Inductive call : Type -> Type :=
| StoreCall {R} (c : Lease.call R) : call R
| PassNow : call Z
| TryRunning : call bool
| StopRunning : call unit
| ContextErr (s : scope) : call (option error)
| ContextCause : call (option error)
| CancelLease (cause : error) : call unit
| GoRenew (l : Lease) : call unit
| HeartbeatDone : call (option error)
| SendDone (e : option error) : call unit
| RenewTimer (d : Z) : call bool
| ListConversations (r : ConversationCandidateRequest) : call (result error (list RootCandidate))
| ListRuns (r : ScheduledRunCandidateRequest) : call (result error (list RootCandidate))
| ListOrphans (r : OrphanCandidateRequest) : call (result error (list OrphanCandidate))
| ListTechnical (r : TechnicalCandidateRequest) : call (result error (list TechnicalCandidate))
| MaintainConversation (r : ConversationRequest) : call (option TreeResult * option error)
| MaintainScheduledRun (r : ScheduledRunRequest) : call (option TreeResult * option error)
| MaintainOrphan (r : OrphanRequest) : call (option OrphanResult * option error)
| MaintainTechnical (r : TechnicalRequest) : call (option TechnicalResult * option error).

Notation prog := (Effects.prog call).

(** A program of the lease store as part of the worker. *)
Fixpoint lift {A} (p : Lease.prog A) : prog A :=
  match p with
  | Ret a => Ret a
  | Call c k => Call (StoreCall c) (fun r => lift (k r))
  | Spin => Spin
  end.

(** ** Candidates, cursors and outcomes *)
Record candidate := mkCandidate {
  RootID : string; ExpectedOwnerID : string; ActivityAt : Z;
  RuleID : string; c_Table : string; RecordID : string; ReferenceTable : string; ReferenceID : string;
  OrphanAction : string; TechnicalKind : string; TechnicalScope : string; ObservedAt : Z }.

Record cursor := mkCursor { cu_ActivityAt : Z; cu_RootID : string }.
Definition cursor_of (c : candidate) : cursor := mkCursor (ActivityAt c) (RootID c).
Definition start_cursor : cursor := mkCursor 0 "".

Record outcome := mkProcessed {
  Eligible : bool; Deleted : bool; Mutated : bool; Reason : string; Partial : bool; CommittedBatches : Z; o_AffectedRows : Z }.
Definition no_outcome : outcome := mkProcessed false false false "" false 0 0.

Definition root_candidate (r : RootCandidate) : candidate :=
  mkCandidate (rc_ID r) (rc_ExpectedOwnerID r) (rc_ActivityAt r) "" "" "" "" "" "" "" "" 0.
Definition orphan_candidate (cutoff : Z) (r : OrphanCandidate) : candidate :=
  mkCandidate (oc_CursorID r) "" cutoff (oc_RuleID r) (oc_Table r) (oc_RecordID r) (oc_ReferenceTable r) (oc_ReferenceID r)
    (oc_Action r) "" "" (oc_ObservedAt r).
Definition technical_candidate (evaluatedAt : Z) (r : TechnicalCandidate) : candidate :=
  mkCandidate (tc_CursorID r) "" evaluatedAt "" "" (tc_RecordID r) "" "" "" (tc_Kind r) (tc_Scope r) (tc_ObservedAt r).

Definition string_after (s t : string) : bool := Stdlib.Strings.String.ltb t s.

Definition conversationCleanupCursorAfter (next previous : cursor) : bool :=
  if bool_decide (TrimSpace (cu_RootID next) = "") then false
  else if bool_decide (cu_RootID previous = "") then true
  else if cu_ActivityAt previous <? cu_ActivityAt next then true
  else (cu_ActivityAt next =? cu_ActivityAt previous) && string_after (cu_RootID next) (cu_RootID previous).

(** ** Policies *)
Inductive Policy :=
| Interactive (retention : Z) (mode : string)
| ScheduledRun (retention : Z) (deleteRun : bool)
| Fallback (retention : Z) (mode : string)
| Technical (scope : string) (retention : Z) (mode : string)
| Orphan (gracePeriod : Z) (mutate : bool).

Definition dry_run : string := "dry_run".
Definition delete_mode : string := "delete".
Definition mode_of (deleteEnabled : bool) : string := if deleteEnabled then delete_mode else dry_run.
Definition Day : Z := 24 * Hour.
Definition retention_or (fallback d : Z) : Z := if d <=? 0 then fallback else d.

Definition newInteractivePolicy (retention : Z) (deleteEnabled : bool) : Policy :=
  Interactive (retention_or (30 * Day) retention) (mode_of deleteEnabled).
Definition newScheduledRunPolicy (retention : Z) (deleteRun : bool) : Policy :=
  ScheduledRun (retention_or (30 * Day) retention) deleteRun.
Definition newFallbackPolicy (retention : Z) (deleteEnabled : bool) : Policy :=
  Fallback (retention_or (30 * Day) retention) (mode_of deleteEnabled).
Definition newTechnicalPolicy (scope : string) (retention : Z) (deleteEnabled : bool) : Policy :=
  Technical scope (retention_or (30 * Day) retention) (mode_of deleteEnabled).
Definition newOrphanPolicy (gracePeriod : Z) (mutate : bool) : Policy := Orphan (retention_or Day gracePeriod) mutate.

Definition Name (p : Policy) : string :=
  match p with
  | Interactive _ mode => if bool_decide (mode = delete_mode) then "interactive_retention_delete" else "interactive_retention_dry_run"
  | ScheduledRun _ deleteRun => if deleteRun then "scheduled_retention_delete" else "scheduled_retention_dry_run"
  | Fallback _ mode =>
      if bool_decide (mode = delete_mode) then "scheduled_conversation_fallback_delete" else "scheduled_conversation_fallback_dry_run"
  | Technical scope _ mode => "technical_retention_" +:+ scope +:+ "_" +:+ (if bool_decide (mode = delete_mode) then "delete" else "dry_run")
  | Orphan _ mutate => if mutate then "orphan-cleanup" else "orphan-report"
  end.

(** What a policy object remembers within a pass. *)
Record pstate := mkState { cutoff : Z; evaluatedAt : Z }.

(** [cleanupPassTime]: the time of the pass, or the clock. *)
Definition cleanupPassTime (pass : option Z) : prog Z :=
  match pass with Some now => mret now | None => ask PassNow end.

(** At the start of a scan the cutoff is taken from the time of the pass. *)
Definition begin_scan (p : Policy) (pass : option Z) (cu : cursor) (st : pstate) : prog pstate :=
  if negb (bool_decide (cu_RootID cu = "")) then mret st else
  now ← cleanupPassTime pass;
  mret match p with
       | Interactive d _ | ScheduledRun d _ | Fallback d _ | Orphan d _ => mkState (now - d) (evaluatedAt st)
       | Technical _ d _ => mkState (now - d) now
       end.

Definition mapped {A B} (f : A -> B) (r : result error (list A)) : result error (list B) :=
  match r with Ok l => Ok (f <$> l) | Err e => Err e end.

Definition SelectCandidates (p : Policy) (pass : option Z) (st : pstate) (cu : cursor) (limit : Z) : prog (result error (list candidate) * pstate) :=
  st ← begin_scan p pass cu st;
  rows ← match p with
         | Interactive _ _ =>
             rows ← ask (ListConversations (mkListConversations "interactive" (cutoff st) (cu_ActivityAt cu) (cu_RootID cu) limit));
             mret (mapped root_candidate rows)
         | Fallback _ _ =>
             rows ← ask (ListConversations (mkListConversations "scheduled_fallback" (cutoff st) (cu_ActivityAt cu) (cu_RootID cu) limit));
             mret (mapped root_candidate rows)
         | ScheduledRun _ _ =>
             rows ← ask (ListRuns (mkListRuns (cutoff st) (cu_ActivityAt cu) (cu_RootID cu) limit));
             mret (mapped root_candidate rows)
         | Orphan _ _ =>
             rows ← ask (ListOrphans (mkListOrphans (cutoff st) (cu_RootID cu) limit));
             mret (mapped (orphan_candidate (cutoff st)) rows)
         | Technical scope _ _ =>
             rows ← ask (ListTechnical (mkListTechnical scope (cutoff st) (evaluatedAt st) (cu_RootID cu) limit));
             mret (mapped (technical_candidate (evaluatedAt st)) rows)
         end;
  mret (rows, st).

(** ** Results

    The counters of a result, which one policy fills and a pass adds up. *)
Inductive counter := CScanned | CEligible | CDeleted | CMutated | CSkipped | CFailed | CPartial | CBatches | CRows.

#[export] Instance counter_eq : EqDecision counter.
Proof. solve_decision. Defined.

Record Counts := mkCounts {
  Scanned : Z; n_Eligible : Z; n_Deleted : Z; n_Mutated : Z; Skipped : Z; Failed : Z; n_Partial : Z;
  n_CommittedBatches : Z; AffectedRows : Z; Reasons : gmap string Z }.

Definition no_counts : Counts := mkCounts 0 0 0 0 0 0 0 0 0 ∅.

(** [r.<counter> += n]. *)
Definition inc (f : counter) (n : Z) (c : Counts) : Counts :=
  let at_ g v := if decide (f = g) then v + n else v in
  mkCounts (at_ CScanned (Scanned c)) (at_ CEligible (n_Eligible c)) (at_ CDeleted (n_Deleted c)) (at_ CMutated (n_Mutated c))
    (at_ CSkipped (Skipped c)) (at_ CFailed (Failed c)) (at_ CPartial (n_Partial c)) (at_ CBatches (n_CommittedBatches c))
    (at_ CRows (AffectedRows c)) (Reasons c).

Definition inc_if (b : bool) (f : counter) (c : Counts) : Counts := if b then inc f 1 c else c.

Definition addReason (reason : string) (c : Counts) : Counts :=
  let reason := TrimSpace reason in
  let reason := if bool_decide (reason = "") then "unspecified" else reason in
  mkCounts (Scanned c) (n_Eligible c) (n_Deleted c) (n_Mutated c) (Skipped c) (Failed c) (n_Partial c)
    (n_CommittedBatches c) (AffectedRows c) (add_count reason 1 (Reasons c)).

(** [Result.add]. *)
Definition add (c other : Counts) : Counts :=
  mkCounts (Scanned c + Scanned other) (n_Eligible c + n_Eligible other) (n_Deleted c + n_Deleted other)
    (n_Mutated c + n_Mutated other) (Skipped c + Skipped other) (Failed c + Failed other) (n_Partial c + n_Partial other)
    (n_CommittedBatches c + n_CommittedBatches other) (AffectedRows c + AffectedRows other)
    (union_with (fun a b => Some (a + b)) (Reasons c) (Reasons other)).

Record PolicyResult := mkPolicyResult { p_Name : string; p_Result : Counts; p_Err : option error }.

Record Result := mkResult {
  counts : Counts; OverlapSkipped : bool; LeaseSkipped : bool; LeaseOwnerID : string; r_LeaseUntil : Z;
  ExpiredLeasesDeleted : Z; PolicyResults : list PolicyResult }.

Definition no_result : Result := mkResult no_counts false false "" 0 0 [].

(** ** The worker *)
Record Options := mkOptions {
  Enabled : bool; BatchSize : Z; Timeout : Z;
  InteractiveMode : string; InteractiveRetention : Z; ScheduledMode : string; ScheduledRetention : Z;
  OrphanMode : string; OrphanMinAge : Z }.

Definition mode_enabled (m : string) : bool := bool_decide (m = "dry-run") || bool_decide (m = "execute").
Definition mode_executes (m : string) : bool := bool_decide (m = "execute").

Definition conversationCleanupPolicies (o : Options) : list Policy :=
  (if mode_enabled (InteractiveMode o) then
     [newInteractivePolicy (InteractiveRetention o) (mode_executes (InteractiveMode o));
      newTechnicalPolicy "interactive" (InteractiveRetention o) (mode_executes (InteractiveMode o))] else []) ++
  (if mode_enabled (ScheduledMode o) then
     [newScheduledRunPolicy (ScheduledRetention o) (mode_executes (ScheduledMode o));
      newFallbackPolicy (ScheduledRetention o) (mode_executes (ScheduledMode o));
      newTechnicalPolicy "scheduled" (ScheduledRetention o) (mode_executes (ScheduledMode o))] else []) ++
  (if mode_enabled (OrphanMode o) then
     [newTechnicalPolicy "unclassified"
        (if InteractiveRetention o <? ScheduledRetention o then ScheduledRetention o else InteractiveRetention o)
        (mode_executes (OrphanMode o));
      newOrphanPolicy (OrphanMinAge o) (mode_executes (OrphanMode o))] else []).

Definition conversationCleanupLeaseKey : string := "conversation_cleanup".
Definition conversationCleanupLeaseTTL : Z := 2 * Minute.
Definition conversationCleanupLeaseRenewInterval : Z := 30 * Second.

(** [data] is the data service, when there is one: whether it has its runtime. *)
Record Worker := mkWorker {
  data : option bool; options : Options; policies : list (option Policy); leaseOwnerID : string; leaseTTL : Z;
  leaseRenewInterval : Z }.

Definition newConversationCleanupWorker (data : option bool) (o : Options) (policies : list (option Policy)) (owner : string) : Worker :=
  mkWorker data o policies owner conversationCleanupLeaseTTL conversationCleanupLeaseRenewInterval.
Definition New (data : option bool) (o : Options) (owner : string) : Worker :=
  newConversationCleanupWorker data o (Some <$> conversationCleanupPolicies o) owner.

Section Worker.
Context `{Runtime}.

Definition tree_outcome (missing : string) (c : candidate) (r : option TreeResult * option error) : outcome * option error :=
  match r with
  | (None, Some e) => (no_outcome, Some e)
  | (None, None) => (no_outcome, Some (Errorf (missing ++ " returned no result for " ++ Quote (RootID c))))
  | (Some t, e) =>
      (mkProcessed (tree_Eligible t) (tree_Deleted t) (0 <? tree_AffectedRows t) (tree_Reason t) (tree_Partial t)
         (tree_CommittedBatches t) (tree_AffectedRows t), e)
  end.

(** [lease] is the lease in the context of the pass. *)
Definition ProcessCandidate (p : Policy) (st : pstate) (lease : Lease) (c : candidate) : prog (outcome * option error) :=
  match p with
  | Interactive _ mode =>
      r ← ask (MaintainConversation (mkConversation (RootID c) (ExpectedOwnerID c) "interactive" (cutoff st) mode lease));
      mret (tree_outcome "conversation cleanup" c r)
  | Fallback _ mode =>
      r ← ask (MaintainConversation (mkConversation (RootID c) (ExpectedOwnerID c) "scheduled_fallback" (cutoff st) mode lease));
      mret (tree_outcome "scheduled conversation fallback" c r)
  | ScheduledRun _ deleteRun =>
      r ← ask (MaintainScheduledRun (mkScheduledRun (RootID c) (ExpectedOwnerID c) (cutoff st) (mode_of deleteRun) lease));
      mret (tree_outcome "scheduled cleanup" c r)
  | Orphan _ mutate =>
      if bool_decide (RuleID c = "") || bool_decide (RecordID c = "")
      then mret (no_outcome, Some (Errorf "invalid orphan report candidate"))
      else if negb mutate
      then mret (mkProcessed true false false ("orphan_" +:+ OrphanAction c +:+ ":" +:+ RuleID c) false 0 0, None)
      else
        r ← ask (MaintainOrphan (mkOrphanRequest (RuleID c) (RecordID c) (cutoff st) lease));
        mret match r with
             | (_, Some e) => (no_outcome, Some e)
             | (None, None) => (no_outcome, Some (Errorf ("orphan cleanup returned no result for rule=" ++ Quote (RuleID c) ++ " record=" ++ Quote (RecordID c))))
             | (Some o, None) =>
                 (mkProcessed (orphan_Eligible o) (orphan_Deleted o) (orphan_Mutated o)
                    ("orphan_" +:+ orphan_Action o +:+ ":" +:+ RuleID c +:+ ":" +:+ orphan_Reason o) false 0 0, None)
             end
  | Technical scope _ mode =>
      if bool_decide (TechnicalKind c = "") || bool_decide (RecordID c = "") || negb (bool_decide (TechnicalScope c = scope))
      then mret (no_outcome, Some (Errorf "invalid technical cleanup candidate"))
      else
        r ← ask (MaintainTechnical (mkTechnicalRequest (TechnicalKind c) scope (RecordID c) (cutoff st) (evaluatedAt st) mode lease));
        mret match r with
             | (_, Some e) => (no_outcome, Some e)
             | (None, None) => (no_outcome, Some (Errorf ("technical cleanup returned no result for kind=" ++ Quote (TechnicalKind c) ++ " record=" ++ Quote (RecordID c))))
             | (Some t, None) =>
                 (mkProcessed (technical_Eligible t) (technical_Deleted t) false
                    ("technical_" +:+ technical_Kind t +:+ ":" +:+ technical_Reason t) false 0 0, None)
             end
  end.

(** One candidate is counted; the flag tells that it uses up a place of the batch. *)
Definition count_outcome (o : outcome) (e : option error) (c : Counts) : Counts * bool :=
  let c := inc CRows (o_AffectedRows o) (inc CBatches (CommittedBatches o) c) in
  let c := if Partial o then inc_if (0 <? o_AffectedRows o) CMutated (inc_if (Eligible o) CEligible (inc CPartial 1 c)) else c in
  match e with
  | Some _ => (addReason "error" (inc CFailed 1 c), Partial o)
  | None =>
      if Partial o then (addReason (Reason o) c, true) else
      let c := inc_if (Mutated o) CMutated (inc_if (Deleted o) CDeleted (inc_if (Eligible o) CEligible c)) in
      let progress := Eligible o || Deleted o || Mutated o in
      (addReason (Reason o) (if progress then c else inc CSkipped 1 c), progress)
  end.

(** The candidates of a page: the counters, the places used, and the error that
    ends the policy. *)
Fixpoint process_page (p : Policy) (st : pstate) (lease : Lease) (batch : Z) (c : Counts) (used : Z) (page : list candidate)
    : prog (Counts * Z * option error) :=
  match page with
  | [] => mret (c, used, None)
  | x :: page =>
      ended ← ask (ContextErr PolicyCtx);
      match ended with
      | Some e => mret (c, used, Some e)
      | None =>
          if batch <=? used then mret (c, used, None) else
          '(o, e) ← ProcessCandidate p st lease x;
          let '(c, place) := count_outcome o e (inc CScanned 1 c) in
          let used := if (place : bool) then used + 1 else used in
          match e with
          | Some e => if Is e ErrMaintenanceLeaseLost then mret (c, used, Some e)
                      else process_page p st lease batch c used page
          | None => process_page p st lease batch c used page
          end
      end
  end.

Definition stuck : error := Errorf "candidate cursor did not advance".

(** The loop over pages, for [fuel] pages. *)
Fixpoint page_loop (fuel : nat) (p : Policy) (pass : option Z) (st : pstate) (lease : Lease) (batch : Z) (c : Counts) (used : Z) (cu : cursor)
    : prog (Counts * option error) :=
  match fuel with
  | O => Spin
  | S fuel =>
      if negb (used <? batch) then mret (c, None) else
      ended ← ask (ContextErr PolicyCtx);
      match ended with
      | Some e => mret (c, Some e)
      | None =>
          '(rows, st) ← SelectCandidates p pass st cu batch;
          match rows with
          | Err e => mret (c, Some e)
          | Ok rows =>
              match last rows with
              | None => mret (c, None)
              | Some final =>
                  let next := cursor_of final in
                  if negb (conversationCleanupCursorAfter next cu) then mret (c, Some stuck) else
                  '(c, used, e) ← process_page p st lease batch c used rows;
                  match e with
                  | Some e => mret (c, Some e)
                  | None =>
                      if Z.of_nat (length rows) <? batch then mret (c, None)
                      else page_loop fuel p pass st lease batch c used next
                  end
              end
          end
      end
  end.

Definition runConversationCleanupPolicy (fuel : nat) (p : Policy) (pass : option Z) (lease : Lease) (batch : Z) : prog (Counts * option error) :=
  if batch <=? 0 then mret (no_counts, None)
  else page_loop fuel p pass (mkState 0 0) lease batch no_counts 0 start_cursor.

(** ** The policies of a pass *)
Definition policy_failed (p : Policy) (e : error) : error := Wrap (Prefixed ("cleanup policy " +:+ Name p)) e.

Definition add_policy (p : Policy) (c : Counts) (e : option error) (r : Result) : Result :=
  mkResult (add (counts r) c) (OverlapSkipped r) (LeaseSkipped r) (LeaseOwnerID r) (r_LeaseUntil r) (ExpiredLeasesDeleted r)
    (PolicyResults r ++ [mkPolicyResult (Name p) c e]).

Fixpoint run_policies (fuel : nat) (w : Worker) (pass : option Z) (lease : Lease) (ps : list (option Policy)) (r : Result) (failed : list error)
    : prog (Result * list error) :=
  match ps with
  | [] => mret (r, failed)
  | None :: ps => run_policies fuel w pass lease ps r failed
  | Some p :: ps =>
      ended ← ask (ContextErr LeaseCtx);
      match ended with
      | Some e => mret (r, failed ++ [e])
      | None =>
          '(c, e) ← runConversationCleanupPolicy fuel p pass lease (BatchSize (options w));
          let r := add_policy p c e r in
          match e with
          | None => run_policies fuel w pass lease ps r failed
          | Some e =>
              let failed := failed ++ [policy_failed p e] in
              ended ← ask (ContextErr LeaseCtx);
              if bool_decide (is_Some ended) || Is e ErrMaintenanceLeaseLost then mret (r, failed)
              else run_policies fuel w pass lease ps r failed
          end
      end
  end.

Definition runLeasedPass (fuel : nat) (w : Worker) (pass : option Z) (lease : Lease) (r : Result) : prog (Result * option error) :=
  '(r, failed) ← run_policies fuel w pass lease (policies w) r [];
  mret (r, Joined (Some <$> failed)).

(** ** Renewing the lease *)

(** [onlyCancellationErrors]: every cause is the cancellation or its effect. *)
Fixpoint onlyCancellationErrors (e : error) : bool :=
  match e with
  | Leaf l => bool_decide (l = Sentinel Canceled) || bool_decide (l = Sentinel ErrTxDone)
  | Wrap _ e => onlyCancellationErrors e
  | Join es => forallb onlyCancellationErrors es && negb (bool_decide (length es = 0%nat))
  end.

Definition pass_finished (cause : option error) : bool :=
  match cause with Some (Leaf (Sentinel errCleanupPassFinished)) => true | _ => false end.

Definition cleanupHeartbeatContextError : prog (option error) :=
  cause ← ask ContextCause;
  if pass_finished cause then mret None else ask (ContextErr LeaseCtx).

Fixpoint renewConversationCleanupLease (fuel : nat) (w : Worker) (native : bool) (lease : Lease) : prog (option error) :=
  match fuel with
  | O => Spin
  | S fuel =>
      fired ← ask (RenewTimer (leaseRenewInterval w));
      if negb fired then cleanupHeartbeatContextError else
      ended ← ask (ContextErr LeaseCtx);
      match ended with
      | Some _ => cleanupHeartbeatContextError
      | None =>
          r ← lift (RenewMaintenanceLease native lease (leaseTTL w));
          match r with
          | Err e =>
              cause ← ask ContextCause;
              if pass_finished cause && Is e Canceled && onlyCancellationErrors e then mret None
              else mret (Some (Wrap (Prefixed "renew conversation cleanup lease") e))
          | Ok (true, _) => renewConversationCleanupLease fuel w native lease
          | Ok (false, _) => mret (Some (newError ErrMaintenanceLeaseLost))
          end
      end
  end.

(** The goroutine of the heartbeat. *)
Definition heartbeat (fuel : nat) (w : Worker) (native : bool) (lease : Lease) : prog unit :=
  e ← renewConversationCleanupLease fuel w native lease;
  _ ← match e with Some e => ask (CancelLease e) | None => mret tt end;
  ask (SendDone e).

Definition releaseConversationCleanupLease (native : bool) (lease : Lease) : prog (option error) :=
  r ← lift (ReleaseMaintenanceLease native lease);
  mret match r with
       | Err e => Some (Wrap (Prefixed "release conversation cleanup lease") e)
       | Ok true => None
       | Ok false => Some (newError ErrMaintenanceLeaseLost)
       end.

(** ** A pass *)
Definition set_lease (l : Lease) (skipped : bool) (r : Result) : Result :=
  mkResult (counts r) (OverlapSkipped r) skipped (OwnerID l) (LeaseUntil l) (ExpiredLeasesDeleted r) (PolicyResults r).
Definition set_expired (n : Z) (r : Result) : Result :=
  mkResult (counts r) (OverlapSkipped r) (LeaseSkipped r) (LeaseOwnerID r) (r_LeaseUntil r) n (PolicyResults r).

(** The values of the context that the store reads; it carries no transaction. *)
Definition background : Ctx := mkCtx false None false None.

(** The part of [RunPass] under the lease. *)
Definition leased_pass (fuel : nat) (w : Worker) (native : bool) (pass : Z) (lease : Lease) (r : Result) : prog (Result * option error) :=
  _ ← ask (GoRenew lease);
  expired ← lift (DeleteExpiredMaintenanceLeases native background lease);
  '(r, e) ← match expired with
            | Ok n => runLeasedPass fuel w (Some pass) lease (set_expired n r)
            | Err e => mret (r, Some (Wrap (Prefixed "delete expired maintenance leases") e))
            end;
  _ ← ask (CancelLease (newError errCleanupPassFinished));
  heartbeatErr ← ask HeartbeatDone;
  releaseErr ← releaseConversationCleanupLease native lease;
  ended ← ask (ContextErr PassCtx);
  mret (r, Joined [e; heartbeatErr; releaseErr; ended]).

Definition run_pass (fuel : nat) (w : Worker) : prog (Result * option error) :=
  pass ← ask PassNow;
  match data w with
  | None => mret (no_result, Some (Errorf "conversation cleanup data service is unavailable"))
  | Some native =>
      acquired ← lift (AcquireMaintenanceLease fuel native conversationCleanupLeaseKey (leaseOwnerID w) (leaseTTL w));
      match acquired with
      | Err e => mret (no_result, Some (Wrap (Prefixed "acquire conversation cleanup lease") e))
      | Ok a =>
          let r := set_lease (Granted a) (negb (Acquired a)) no_result in
          if negb (Acquired a) then mret (r, None) else leased_pass fuel w native pass (Granted a) r
      end
  end.

Definition RunPass (fuel : nat) (w : Worker) : prog (Result * option error) :=
  if negb (Enabled (options w)) || bool_decide (length (policies w) = 0%nat) then mret (no_result, None) else
  started ← ask TryRunning;
  if negb started then mret (mkResult no_counts true false "" 0 0 [], None) else
  r ← run_pass fuel w;
  _ ← ask StopRunning;
  mret r.
End Worker.
