(* ===== verification/LeasePool.v ===== *)
(** * One cleanup at a time

    Passes of several workers, each with the goroutine that renews its lease,
    interleaved call by call on one lease table, with failures of the database at
    any point: the passes that hold a lease which has not expired are one pass,
    and only a pass that holds the lease calls the data service. *)
From stdpp Require Import base gmap strings list fin_maps fin_sets relations pretty.
From Stdlib Require Import ZArith Lia.
From S2P Require Import Prelude GoStrings Effects GoErrors MaintenanceTx Lease Cleanup.

Open Scope Z_scope.

Notation lease_key := conversationCleanupLeaseKey.

(** ** The world: the table, the clock of the database, the tokens that were
    made, and the workers with a pass that is running *)
Record World := mkWorld { table : gmap string Row; clock : Z; tokens : gset string; running : gset string }.

Definition set_table (t : gmap string Row) (w : World) : World := mkWorld t (clock w) (tokens w) (running w).

(** The answer of the reader: the clock beside the rows that are selected, or
    beside nothing. *)
Definition selected (i : ReadInput) (key : string) (r : Row) : bool :=
  negb (bool_decide (r_Mode i = Some "clock"))
  && set_to (r_LeaseKey i) key && match r_ExpiresBefore i with None => true | Some t => Until r <=? t end.
Definition row_snapshot (now : Z) (x : string * Row) : option LeaseSnapshot :=
  Some (mkSnapshot (Ok now) (Some x.1) (Some (OwnerId x.2)) (Some (LeaseToken x.2)) (Some (Until x.2))).
Definition snapshots (now : Z) (rows : list (string * Row)) : list (option LeaseSnapshot) :=
  match rows with [] => [Some (mkSnapshot (Ok now) None None None None)] | _ => row_snapshot now <$> rows end.

(** What a call may do. A write that fails may still have been committed; a
    write that succeeds was committed, an insertion only where no row is, an
    update and a deletion only of a row that the predicate accepts. A transaction
    that is rolled back puts rows back where there are none. *)
Definition handles {R} (c : Lease.call R) (w : World) (r : R) (w' : World) : Prop :=
  match c in Lease.call R return R -> Prop with
  | Snapshot i => fun r => w' = w /\
      ((exists rows, rows ≡ₚ map_to_list (filter (fun x => selected i x.1 x.2) (table w)) /\ r = Ok (snapshots (clock w) rows))
       \/ exists e, r = Err e)
  | LoadPrevious key => fun r => w' = w /\ (r = Ok (table w !! key) \/ exists e, r = Err e)
  | Insert key e => fun r =>
      (table w !! key = None /\ w' = set_table (<[key := inserted e]> (table w)) w) \/ (r <> None /\ w' = w)
  | Update key i e => fun r =>
      (exists row, table w !! key = Some row /\ guard_ok i row /\ w' = set_table (<[key := updated e row]> (table w)) w)
      \/ (r <> None /\ w' = w)
  | Delete key i => fun r =>
      (exists row, table w !! key = Some row /\ guard_ok i row /\ w' = set_table (delete key (table w)) w) \/ (r <> None /\ w' = w)
  | NewToken => fun r => r ∉ tokens w /\ TrimSpace r = r /\ w' = mkWorld (table w) (clock w) ({[r]} ∪ tokens w) (running w)
  | TxEnd _ => fun _ => exists back, w' = set_table (table w ∪ back) w
  | _ => fun _ => w' = w
  end r.

Section Pool.
Context `{Runtime}.

(** ** The monitors

    The main goroutine of a pass: what it last read from the clock and the token
    it made, the lease it holds, or the lease it gives up once the heartbeat has
    ended. *)
Inductive mode := Free (seen : option Z) (minted : option string) | Held (token : string) | Leaving (token : string).

Definition token_of (m : mode) : option string := match m with Free _ t => t | Held t | Leaving t => Some t end.

(** The calls that read or change the data under maintenance. *)
Definition maintains {R} (c : call R) : bool :=
  match c with
  | ListConversations _ | ListRuns _ | ListOrphans _ | ListTechnical _
  | MaintainConversation _ | MaintainScheduledRun _ | MaintainOrphan _ | MaintainTechnical _ => true
  | _ => false
  end.

Definition claims (ttl : Z) (m : mode) (e : Entity) (n : Z) (t : string) : Prop :=
  m = Free (Some n) (Some t) /\ e_LeaseToken e = Some t /\ e_LeaseUntil e = Some (n + ttl).

Definition main_store {R} (ttl : Z) (m : mode) (c : Lease.call R) : Prop :=
  match c with
  | Insert key e => key = lease_key /\ exists n t, claims ttl m e n t
  | Update key i e =>
      key = lease_key /\ ((exists n t, claims ttl m e n t /\ ExpiresBefore i = Some n)
                          \/ exists t, m = Leaving t /\ ExpectedToken i = Some t)
  | Delete key _ => key <> lease_key
  | NewToken => exists s t, m = Free s t
  | _ => True
  end.

Definition main_allowed {R} (ttl : Z) (m : mode) (c : call R) : Prop :=
  match c with
  | StoreCall c => main_store ttl m c
  | GoRenew l => m = Held (Token l) /\ TrimSpace (Token l) = Token l /\ TrimSpace (Key l) = lease_key
  | HeartbeatDone => exists t, m = Held t
  | SendDone _ | RenewTimer _ => False
  | c => if maintains c then exists t, m = Held t else True
  end.

Definition token_trimmed {R} (c : Lease.call R) : R -> Prop :=
  match c in Lease.call R return R -> Prop with NewToken => fun r => TrimSpace r = r | _ => fun _ => True end.
Definition answers {R} (c : call R) : R -> Prop :=
  match c in call R return R -> Prop with StoreCall c => token_trimmed c | _ => fun _ => True end.

(** The reading of the clock in an answer of the reader. *)
Definition reading (i : ReadInput) (rows : result error (list (option LeaseSnapshot))) : option Z :=
  if bool_decide (r_Mode i = Some "clock")
  then match rows with Ok [Some row] => match DbNow row with Ok n => Some n | Err _ => None end | _ => None end else None.

Definition granted (m : mode) (r : option error) : mode :=
  match m, r with Free _ (Some t), None => Held t | _, _ => m end.

Definition store_next {R} (m : mode) (c : Lease.call R) : R -> mode :=
  match c in Lease.call R return R -> mode with
  | Snapshot i => fun r => match m, reading i r with Free _ t, Some n => Free (Some n) t | _, _ => m end
  | NewToken => fun r => match m with Free s _ => Free s (Some r) | _ => m end
  | Insert _ _ | Update _ _ _ => granted m
  | _ => fun _ => m
  end.

Definition main_next {R} (m : mode) (c : call R) : R -> mode :=
  match c in call R return R -> mode with
  | StoreCall c => store_next m c
  | HeartbeatDone => fun _ => match m with Held t => Leaving t | _ => m end
  | _ => fun _ => m
  end.

(** The heartbeat of a lease with token [t]: the clock reading it renews with. *)
Definition renews (ttl : Z) (t : string) (seen : option Z) (i : WriteInput) (e : Entity) : Prop :=
  exists n, seen = Some n /\ ExpectedToken i = Some t /\ LiveAfter i = Some n
            /\ e_LeaseToken e = None /\ e_LeaseUntil e = Some (n + ttl).

Definition beat_store {R} (ttl : Z) (t : string) (seen : option Z) (c : Lease.call R) : Prop :=
  match c with
  | Update key i e => key = lease_key /\ renews ttl t seen i e
  | Insert _ _ | Delete _ _ | NewToken => False
  | _ => True
  end.

Definition beat_allowed {R} (ttl : Z) (t : string) (seen : option Z) (c : call R) : Prop :=
  match c with
  | StoreCall c => beat_store ttl t seen c
  | GoRenew _ | HeartbeatDone | TryRunning | StopRunning => False
  | c => maintains c = false
  end.

Definition beat_store_next {R} (seen : option Z) (c : Lease.call R) : R -> option Z :=
  match c in Lease.call R return R -> option Z with
  | Snapshot i => fun r => match reading i r with Some n => Some n | None => seen end
  | _ => fun _ => seen
  end.

Definition beat_next {R} (seen : option Z) (c : call R) : R -> option Z :=
  match c in call R return R -> option Z with StoreCall c => beat_store_next seen c | _ => fun _ => seen end.

Notation main_follows ttl := (Effects.follows (fun R => @main_allowed R ttl) (fun R => @answers R) (fun R => @main_next R)).
Notation beat_follows ttl t := (Effects.follows (fun R => @beat_allowed R ttl t) (fun R => @answers R) (fun R => @beat_next R)).
Notation store_follows ttl := (Effects.follows (fun R => @main_store R ttl) (fun R => @token_trimmed R) (fun R => @store_next R)).

(** ** Programs of the store *)
Lemma main_lift {A} ttl m (p : Lease.prog A) Q : store_follows ttl m p Q -> main_follows ttl m (lift p) Q.
Proof.
  revert m. induction p as [a|R c k IH|]; intros m Hp; [exact Hp| |exact I].
  destruct Hp as [Ha Hk]. split; [exact Ha|]. intros r Hr. apply IH, Hk, Hr.
Qed.

Lemma store_call {R A} ttl m (c : Lease.call R) (k : R -> Lease.prog A) Q :
  main_store ttl m c -> (forall r, token_trimmed c r -> store_follows ttl (store_next m c r) (k r) Q) ->
  store_follows ttl m (x ← ask c; k x) Q.
Proof. intros Ha Hk. split; [exact Ha|]. intros r Hr. apply Hk, Hr. Qed.

(** The state after a reading of the clock. *)
Definition read_clock (m : mode) (r : result error Z) : mode :=
  match m, r with Free _ t, Ok n => Free (Some n) t | _, _ => m end.

Lemma databaseNow_follows ttl m s : store_follows ttl m (databaseNow s) (fun r m' => m' = read_clock m r).
Proof.
  unfold databaseNow, snapshot. destruct (Invoker s); [|by destruct m].
  apply store_call; [exact I|]. intros rows _. cbn [store_next].
  unfold reading, read_clock. rewrite bool_decide_eq_true_2 by done.
  destruct rows as [[|[row|] [|row' rows]]|e]; try by destruct m. cbn. destruct (DbNow row); by destruct m.
Qed.

Lemma snapshot_follows ttl m s i :
  r_Mode i <> Some "clock" -> store_follows ttl m (snapshot s i) (fun _ m' => m' = m).
Proof.
  intros Hi. unfold snapshot. destruct (Invoker s); [|done]. split; [exact I|]. intros r _. cbn [store_next].
  unfold reading. rewrite bool_decide_eq_false_2 by done. by destruct m.
Qed.

Lemma lookup_follows ttl m s key : store_follows ttl m (lookup s key) (fun _ m' => m' = m).
Proof.
  unfold lookup. apply follows_bind. eapply follows_weaken; [by apply snapshot_follows|]. by intros rows m' ->.
Qed.

(** The hook keeps what the writer relies on. *)
Definition same_claim (e e' : Entity) : Prop :=
  e_LeaseKey e' = e_LeaseKey e /\ e_LeaseToken e' = e_LeaseToken e /\ e_LeaseUntil e' = e_LeaseUntil e
  /\ e_ShouldDelete e' = e_ShouldDelete e.

Lemma Init_same i e previous e' : Init true i e previous = Ok e' -> same_claim e e'.
Proof. unfold Init. cbn zeta. repeat (case_bool_decide || case_match); intros; simplify_eq; done. Qed.

(** A write that does not delete is an update, or an insertion in mode
    [create]. *)
Lemma Init_writes i e previous e' :
  Init true i e previous = Ok e' -> default false (e_ShouldDelete e) = false ->
  Mode i ≠ "delete" /\ (previous = None <-> Mode i = "create").
Proof.
  unfold Init. cbn zeta. intros Hi Hd. rewrite Hd in Hi. destruct previous as [row|].
  all: rewrite ?(bool_decide_eq_true_2 (is_Some (Some _))), ?(bool_decide_eq_false_2 (is_Some None)) in Hi by (done || by intros [? ?]).
  all: repeat (case_bool_decide || case_match); simplify_eq; split; try done; try congruence; naive_solver.
Qed.

(** A write follows the monitor when the monitor allows its insertion or its
    update. *)
Lemma patch_writes ttl m s i e :
  default false (e_ShouldDelete e) = false ->
  (Mode i = "create" -> forall e', same_claim e e' -> main_store ttl m (Insert (default "" (e_LeaseKey e)) e')) ->
  (Mode i <> "create" -> forall e', same_claim e e' -> main_store ttl m (Update (default "" (e_LeaseKey e)) i e')) ->
  store_follows ttl m (patch s i e) (fun r m' => m' = m \/ m' = granted m r).
Proof.
  intros Hd Hins Hupd. unfold patch. destruct (Invoker s); cbn [negb]; [|by left].
  apply store_call; [exact I|]. intros [previous|err] _; [|by left].
  destruct (Init true i e previous) as [e'|err] eqn:Ei; [|by left].
  pose proof (Init_same _ _ _ _ Ei) as Hsame. pose proof (Init_writes _ _ _ _ Ei Hd) as [_ Hmode].
  destruct Hsame as (Hk & Ht & Hu & Hdel). rewrite Hdel, Hd.
  destruct previous as [row|]; (split; [|intros r _; by right]).
  - apply Hupd; [|done]. intros Hc. apply Hmode in Hc. done.
  - apply Hins; [by apply Hmode|done].
Qed.

Lemma claim_patch_follows ttl s owner n t current :
  store_follows ttl (Free (Some n) (Some t)) (patch s (acquire_input n current) (acquire_entity lease_key owner t n ttl current))
    (fun r m' => m' = granted (Free (Some n) (Some t)) r \/ m' = Free (Some n) (Some t) /\ is_Some r).
Proof.
  unfold patch. destruct (Invoker s); cbn [negb]; [|by right].
  apply store_call; [exact I|]. intros [previous|err] _; [|by right].
  destruct (Init _ _ _ previous) as [e'|err] eqn:Ei; [|by right].
  pose proof (Init_writes _ _ _ _ Ei eq_refl) as [_ Hmode]. apply Init_same in Ei as (Hk & Ht & Hu & Hd).
  rewrite Hd. cbn [acquire_entity e_ShouldDelete default e_LeaseKey] in *.
  assert (Hc : claims ttl (Free (Some n) (Some t)) e' n t) by done.
  destruct previous as [row|]; (split; [|intros r _; by left]); (split; [done|]); [left|by eauto].
  destruct current as [l|]; [by eauto|]. assert (Some row = None) as [=] by by apply Hmode.
Qed.

(** *** Acquiring *)
Definition acquired (m : mode) (a : AcquireResult) : Prop :=
  if Acquired a then m = Held (Token (Granted a)) /\ TrimSpace (Token (Granted a)) = Token (Granted a) /\ Key (Granted a) = lease_key
  else True.

Definition free (m : mode) : Prop := exists s t, m = Free s t.

Lemma claim_lease_follows ttl s owner n t current :
  store_follows ttl (Free (Some n) t) (claim_lease s lease_key owner ttl n current)
    (fun r m => match r with inl (Ok a) => acquired m a | inl (Err _) => True | inr _ => free m end).
Proof.
  unfold claim_lease. apply store_call; [by do 2 eexists|]. intros token Htoken. cbn [store_next]. apply follows_bind.
  eapply follows_weaken; [apply claim_patch_follows|]. intros [e|] m Hm.
  - assert (m = Free (Some n) (Some token)) as -> by by destruct Hm as [|[? _]].
    destruct (_ && _); [exact I|by do 2 eexists].
  - destruct Hm as [->|[_ [? [=]]]]. done.
Qed.

Lemma acquire_once_follows ttl s owner m :
  free m ->
  store_follows ttl m (acquire_once s lease_key owner ttl)
    (fun r m => match r with inl (Ok a) => acquired m a | inl (Err _) => True | inr _ => free m end).
Proof.
  intros (seen & t & ->). unfold acquire_once. apply follows_bind.
  assert (Hbusy : forall e m, free m -> match busy_or_return e with inl (Ok a) => acquired m a | inl (Err _) => True | inr _ => free m end).
  { intros e m Hm. unfold busy_or_return. by destruct (negb _). }
  eapply follows_weaken; [apply databaseNow_follows|]. intros [n|e] m ->; cbn [read_clock]; [|apply Hbusy; by do 2 eexists].
  apply follows_bind. eapply follows_weaken; [apply lookup_follows|]. intros [[l|]|e] m ->;
    [|apply claim_lease_follows|apply Hbusy; by do 2 eexists].
  destruct (n <? LeaseUntil l); [done|]. apply claim_lease_follows.
Qed.

Lemma acquire_loop_follows fuel ttl s owner deadline delay m :
  free m ->
  store_follows ttl m (acquire_loop fuel s lease_key owner ttl deadline delay)
    (fun r m => match r with Ok a => acquired m a | Err _ => True end).
Proof.
  revert m delay. induction fuel as [|fuel IH]; intros m delay Hm; [exact I|]. cbn [acquire_loop]. apply follows_bind.
  eapply follows_weaken; [by apply acquire_once_follows|]. intros [[a|e]|e] m' Hm'; [exact Hm'|exact I|].
  apply store_call; [exact I|]. intros now _. case_match; [exact I|].
  apply store_call; [exact I|]. intros [why|] _; [exact I|]. by apply IH.
Qed.

Lemma AcquireMaintenanceLease_follows fuel native ttl owner :
  store_follows ttl (Free None None) (AcquireMaintenanceLease fuel native lease_key owner ttl)
    (fun r m => match r with Ok a => acquired m a | Err _ => True end).
Proof.
  assert (Hkey : TrimSpace lease_key = lease_key) by done.
  unfold AcquireMaintenanceLease. rewrite Hkey. case_match; [exact I|]. case_match; [exact I|].
  unfold Acquire. rewrite Hkey. case_match; [exact I|].
  apply store_call; [exact I|]. intros now _. apply acquire_loop_follows. by do 2 eexists.
Qed.

(** *** Releasing *)
Lemma ReleaseMaintenanceLease_follows ttl native l t :
  TrimSpace (Token l) = t -> TrimSpace t = t -> TrimSpace (Key l) = lease_key ->
  store_follows ttl (Leaving t) (ReleaseMaintenanceLease native l) (fun _ _ => True).
Proof.
  intros Ht Htt Hk. unfold ReleaseMaintenanceLease. case_match; [exact I|]. case_match; [exact I|].
  unfold Release. case_match; [exact I|]. apply follows_bind.
  eapply follows_weaken; [apply databaseNow_follows|]. intros [n|e] m ->; [|exact I]. cbn [read_clock]. apply follows_bind.
  eapply follows_weaken; [|by intros].
  apply patch_writes; [done|done|]. intros _ e' _. cbn. rewrite Hk. split; [done|]. right. exists t.
  by rewrite Ht, Htt.
Qed.

(** *** Purging under a lease *)
Section Held.
Context (ttl : Z) (t : string).

Definition stays {A} (p : Lease.prog A) : Prop := store_follows ttl (Held t) p (fun _ m => m = Held t).

Lemma stays_ret {A} (a : A) : stays (mret a).
Proof. done. Qed.

Lemma stays_bind {A B} (p : Lease.prog A) (f : A -> Lease.prog B) : stays p -> (forall a, stays (f a)) -> stays (x ← p; f x).
Proof. intros Hp Hf. apply follows_bind. eapply follows_weaken; [exact Hp|]. intros a m ->. apply Hf. Qed.

Lemma stays_ask {R} (c : Lease.call R) : main_store ttl (Held t) c -> (forall r, store_next (Held t) c r = Held t) -> stays (ask c).
Proof. intros Ha Hn. split; [exact Ha|]. intros r _. apply Hn. Qed.

Lemma stays_snapshot s i : stays (snapshot s i).
Proof. unfold snapshot. case_match; [|done]. apply stays_ask; [exact I|]. by intros. Qed.

Lemma stays_delete s key i : key <> lease_key -> stays (patch s i (deletion key)).
Proof.
  intros Hk. unfold patch. case_match; [done|]. apply stays_bind; [by apply stays_ask|]. intros [previous|e]; [|done].
  destruct (Init _ _ _ _) as [e'|e] eqn:Ei; [|done]. apply Init_same in Ei as (_ & _ & _ & ->). by apply stays_ask.
Qed.

Lemma stays_delete_rows s cutoff rows : stays (delete_rows s lease_key cutoff rows).
Proof.
  induction rows as [|row rows IH]; [done|]. cbn [delete_rows]. destruct (row ≫= _) as [[r key]|]; [|exact IH].
  destruct (s_LeaseToken r) as [token|]; [|done]. case_bool_decide as Hk; [exact IH|].
  apply stays_bind; [by apply stays_delete|]. by intros [e|].
Qed.

Lemma stays_Exec c l : TrimSpace (Key l) = lease_key -> stays (Exec c l).
Proof.
  intros Hk. unfold Exec. case_match; [done|]. apply stays_bind.
  - unfold CheckedAt. apply stays_bind; [by apply stays_ask|]. intros a. apply stays_ret.
  - intros [now|e]; [|done]. apply stays_bind; [by apply stays_ask|]. intros [e|]; [done|].
    apply stays_bind; [apply stays_snapshot|]. intros [rows|e]; [|done]. cbn [normalize Key]. rewrite Hk. apply stays_delete_rows.
Qed.

Lemma stays_attempts {A} preflight (component : Ctx -> Effects -> Lease.prog (Completed A)) more n c :
  (forall c, stays (preflight c)) -> (forall c e, stays (component c e)) -> stays (attempts preflight component more n c).
Proof.
  intros Hp Hc. revert n. induction more as [|more IH]; intros n; cbn [attempts];
    (apply stays_bind; [by apply stays_ask|]; intros [e|]; [done|]; apply stays_bind; [apply Hp|]; intros [sc|e]; [|done];
     destruct (transaction sc); [done|]; apply stays_bind; [apply Hc|]; intros r;
     destruct (c_error r) as [e|]; [|done]; destruct (committed _); [done|]; destruct (negb _ || negb _); [done|]).
  - done.
  - apply stays_bind; [by apply stays_ask|]. intros [why|]; [done|]. apply IH.
Qed.

Lemma stays_Check s c l : stays (Check_ s c l).
Proof.
  unfold Check_. apply stays_bind; [by apply stays_ask|]. intros [e|]; [done|]. case_match; [done|]. case_match; [done|].
  apply stays_bind; [apply stays_snapshot|]. intros rows. apply stays_ret.
Qed.

Lemma stays_DeleteExpired native c l :
  TrimSpace (Key l) = lease_key -> stays (DeleteExpiredMaintenanceLeases native c l).
Proof.
  intros Hk. assert (Hkk : TrimSpace lease_key = lease_key) by done.
  unfold DeleteExpiredMaintenanceLeases. case_match; [done|]. case_match; [done|].
  apply stays_bind; [|intros r; apply stays_ret]. unfold DeleteExpired. case_match; [done|]. case_match; [done|].
  apply stays_bind; [|intros [[value effects] e]; apply stays_ret]. unfold Invoke. case_match; [done|].
  apply stays_attempts.
  - intros c'. apply stays_bind.
    + unfold Preflight. apply stays_bind; [apply stays_Check|]. intros r. apply stays_ret.
    + intros [sc|e]; [|done]. apply stays_bind; [by apply stays_ask|]. intros d. apply stays_ret.
  - intros c' e. unfold purge. apply stays_bind; [apply stays_Exec; cbn; by rewrite Hk, Hkk|]. intros r.
    apply stays_bind; [by apply stays_ask|]. intros [[? ?] ?]. apply stays_ret.
Qed.
End Held.

(** ** The main goroutine *)
Lemma main_call {R A} ttl m (c : call R) (k : R -> prog A) Q :
  main_allowed ttl m c -> (forall r, answers c r -> main_follows ttl (main_next m c r) (k r) Q) -> main_follows ttl m (x ← ask c; k x) Q.
Proof. intros Ha Hk. split; [exact Ha|]. intros r Hr. apply Hk, Hr. Qed.

(** *** The policies, under the lease *)
Section Policies.
Context (ttl : Z) (t : string).

Definition keeps {A} (p : prog A) : Prop := main_follows ttl (Held t) p (fun _ m => m = Held t).

Lemma keeps_ret {A} (a : A) : keeps (mret a).
Proof. done. Qed.

Lemma keeps_bind {A B} (p : prog A) (f : A -> prog B) : keeps p -> (forall a, keeps (f a)) -> keeps (x ← p; f x).
Proof. intros Hp Hf. apply follows_bind. eapply follows_weaken; [exact Hp|]. intros a m ->. apply Hf. Qed.

Lemma keeps_ask {R} (c : call R) : main_allowed ttl (Held t) c -> (forall r, main_next (Held t) c r = Held t) -> keeps (ask c).
Proof. intros Ha Hn. split; [exact Ha|]. intros r _. apply Hn. Qed.

Lemma keeps_mapped {A B} (f : A -> B) (p : prog (result error (list A))) : keeps p -> keeps (rows ← p; mret (mapped f rows)).
Proof. intros Hp. apply keeps_bind; [exact Hp|]. intros rows. apply keeps_ret. Qed.

Ltac keeps_call := apply keeps_ask; [first [exact I | by eexists]|done].

Lemma keeps_SelectCandidates p pass st cu limit : keeps (SelectCandidates p pass st cu limit).
Proof.
  unfold SelectCandidates. apply keeps_bind.
  - unfold begin_scan. case_match; [apply keeps_ret|]. apply keeps_bind; [|intros now; apply keeps_ret].
    destruct pass; [apply keeps_ret|keeps_call].
  - intros st'. apply keeps_bind; [|intros rows; apply keeps_ret]. destruct p; apply keeps_mapped; keeps_call.
Qed.

Lemma keeps_ProcessCandidate p st lease c : keeps (ProcessCandidate p st lease c).
Proof.
  destruct p; cbn [ProcessCandidate]; repeat (case_match; [apply keeps_ret|]);
    (apply keeps_bind; [keeps_call|]; intros r; apply keeps_ret).
Qed.

Lemma keeps_process_page p st lease batch c used page : keeps (process_page p st lease batch c used page).
Proof.
  revert c used. induction page as [|x page IH]; intros c used; [apply keeps_ret|]. cbn [process_page].
  apply keeps_bind; [keeps_call|]. intros [e|]; [apply keeps_ret|]. case_match; [apply keeps_ret|].
  apply keeps_bind; [apply keeps_ProcessCandidate|]. intros [o e]. destruct (count_outcome _ _ _) as [c' place].
  destruct e as [e|]; [destruct (Is e _); [apply keeps_ret|]|]; apply IH.
Qed.

Lemma keeps_page_loop fuel p pass st lease batch c used cu : keeps (page_loop fuel p pass st lease batch c used cu).
Proof.
  revert st c used cu. induction fuel as [|fuel IH]; intros st c used cu; [exact I|]. cbn [page_loop].
  case_match; [apply keeps_ret|]. apply keeps_bind; [keeps_call|]. intros [e|]; [apply keeps_ret|].
  apply keeps_bind; [apply keeps_SelectCandidates|]. intros [[rows|e] st']; [|apply keeps_ret].
  destruct (last rows) as [final|]; [|apply keeps_ret]. case_match; [apply keeps_ret|].
  apply keeps_bind; [apply keeps_process_page|]. intros [[c' used'] [e|]]; [apply keeps_ret|].
  case_match; [apply keeps_ret|]. apply IH.
Qed.

Lemma keeps_run_policies fuel w pass lease ps r failed : keeps (run_policies fuel w pass lease ps r failed).
Proof.
  revert r failed. induction ps as [|[p|] ps IH]; intros r failed; cbn [run_policies]; [apply keeps_ret| |apply IH].
  apply keeps_bind; [keeps_call|]. intros [e|]; [apply keeps_ret|]. apply keeps_bind.
  - unfold runConversationCleanupPolicy. case_match; [apply keeps_ret|]. apply keeps_page_loop.
  - intros [c [e|]]; [|apply IH]. apply keeps_bind; [keeps_call|]. intros ended. case_match; [apply keeps_ret|]. apply IH.
Qed.

Lemma keeps_lift {A} (p : Lease.prog A) : stays ttl t p -> keeps (lift p).
Proof. apply main_lift. Qed.
End Policies.

Lemma leased_pass_follows fuel ttl w native pass lease r :
  TrimSpace (Token lease) = Token lease -> TrimSpace (Key lease) = lease_key ->
  main_follows ttl (Held (Token lease)) (leased_pass fuel w native pass lease r) (fun _ _ => True).
Proof.
  intros Ht Hk. unfold leased_pass. apply main_call; [done|]. intros [] _. cbn [main_next].
  apply follows_bind. eapply follows_weaken; [by apply (keeps_lift ttl (Token lease)), stays_DeleteExpired|]. intros expired m Hm. rewrite Hm.
  apply follows_bind. eapply (follows_weaken _ _ (fun _ m => m = Held (Token lease))).
  { destruct expired as [n|e]; [|done]. unfold runLeasedPass. apply keeps_bind; [apply keeps_run_policies|].
    intros [r' failed]. apply keeps_ret. }
  intros [r' e] m' ->. apply main_call; [exact I|]. intros [] _. cbn [main_next].
  apply main_call; [by eexists|]. intros beat _. cbn [main_next]. apply follows_bind.
  eapply (follows_weaken _ _ (fun _ _ => True)).
  - unfold releaseConversationCleanupLease. apply follows_bind.
    eapply follows_weaken; [by apply main_lift, ReleaseMaintenanceLease_follows|]. done.
  - intros released m'' _. by split.
Qed.

Lemma RunPass_follows fuel w : main_follows (leaseTTL w) (Free None None) (RunPass fuel w) (fun _ _ => True).
Proof.
  unfold RunPass. case_match; [exact I|]. apply main_call; [exact I|]. intros [] _; [|exact I]. cbn [negb main_next].
  apply follows_bind. eapply (follows_weaken _ _ (fun _ _ => True)); [|intros r m _; by split].
  unfold run_pass. apply main_call; [exact I|]. intros pass _. cbn [main_next]. destruct (data w) as [native|]; [|exact I].
  apply follows_bind. eapply follows_weaken; [by apply main_lift, AcquireMaintenanceLease_follows|].
  intros [a|e] m Ha; [|exact I]. unfold acquired in Ha. destruct (Acquired a); [|exact I]. cbn [negb].
  destruct Ha as (-> & Ht & Hk). apply leased_pass_follows; [exact Ht|]. by rewrite Hk.
Qed.

(** ** The heartbeat *)
Section Heartbeat.
Context (ttl : Z) (t : string).

Lemma beat_call {R A} seen (c : call R) (k : R -> prog A) Q :
  beat_allowed ttl t seen c -> (forall r, answers c r -> beat_follows ttl t (beat_next seen c r) (k r) Q) ->
  beat_follows ttl t seen (x ← ask c; k x) Q.
Proof. intros Ha Hk. split; [exact Ha|]. intros r Hr. apply Hk, Hr. Qed.

Notation store_beat := (Effects.follows (fun R => @beat_store R ttl t) (fun R => @token_trimmed R) (fun R => @beat_store_next R)).

Lemma beat_lift {A} seen (p : Lease.prog A) Q : store_beat seen p Q -> beat_follows ttl t seen (lift p) Q.
Proof.
  revert seen. induction p as [a|R c k IH|]; intros seen Hp; [exact Hp| |exact I].
  destruct Hp as [Ha Hk]. split; [exact Ha|]. intros r Hr. apply IH, Hk, Hr.
Qed.

Lemma beat_store_call {R A} seen (c : Lease.call R) (k : R -> Lease.prog A) Q :
  beat_store ttl t seen c -> (forall r, store_beat (beat_store_next seen c r) (k r) Q) -> store_beat seen (x ← ask c; k x) Q.
Proof. intros Ha Hk. split; [exact Ha|]. intros r _. apply Hk. Qed.

Lemma beat_databaseNow seen s : store_beat seen (databaseNow s) (fun r seen => match r with Ok n => seen = Some n | Err _ => True end).
Proof.
  unfold databaseNow, snapshot. destruct (Invoker s); [|done]. split; [exact I|]. intros rows _. cbn [beat_store_next].
  unfold reading. rewrite bool_decide_eq_true_2 by done.
  destruct rows as [[|[row|] [|row' rows]]|e]; try done. cbn. by destruct (DbNow row).
Qed.

Lemma beat_Renew seen native l :
  TrimSpace (Token l) = t -> TrimSpace t = t -> TrimSpace (Key l) = lease_key ->
  store_beat seen (RenewMaintenanceLease native l ttl) (fun _ _ => True).
Proof.
  intros Ht Htt Hk. unfold RenewMaintenanceLease. do 3 (case_match; [exact I|]). unfold Renew. case_match; [exact I|].
  apply follows_bind. eapply follows_weaken; [apply beat_databaseNow|]. intros [n|e] seen' Hseen; [|exact I]. subst seen'.
  apply follows_bind. eapply (follows_weaken _ _ (fun _ _ => True)); [|by intros]. unfold patch. case_match; [exact I|].
  apply beat_store_call; [exact I|]. intros [previous|e]; [|exact I]. destruct (Init true _ _ previous) as [e'|e] eqn:Ei; [|exact I].
  pose proof (Init_writes _ _ _ _ Ei eq_refl) as [_ Hmode]. apply Init_same in Ei as (_ & Htoken & Huntil & Hd).
  rewrite Hd. cbn [renewal e_ShouldDelete default e_LeaseKey e_LeaseToken e_LeaseUntil from_option] in *.
  destruct previous as [row|]; [|by assert ("renew" = "create") by by apply Hmode].
  split; [|done]. cbn. rewrite Hk. split; [done|]. exists n. by rewrite Ht, Htt.
Qed.

Lemma beat_renewals fuel seen w native l :
  ttl = leaseTTL w -> TrimSpace (Token l) = t -> TrimSpace t = t -> TrimSpace (Key l) = lease_key ->
  beat_follows ttl t seen (renewConversationCleanupLease fuel w native l) (fun _ _ => True).
Proof.
  intros Hw Ht Htt Hk. revert seen. induction fuel as [|fuel IH]; intros seen; [exact I|]. cbn [renewConversationCleanupLease].
  rewrite <- Hw. assert (Herr : forall seen, beat_follows ttl t seen cleanupHeartbeatContextError (fun _ _ => True)).
  { intros seen'. unfold cleanupHeartbeatContextError. apply beat_call; [done|]. intros cause _. case_match; [exact I|]. by split. }
  apply beat_call; [done|]. intros [] _; [|apply Herr]. cbn [negb]. apply beat_call; [done|]. intros [e|] _; [apply Herr|].
  apply follows_bind. eapply follows_weaken; [by apply beat_lift, beat_Renew|]. intros [[[] n]|e] seen' _; [apply IH|exact I|].
  apply beat_call; [done|]. intros cause _. by case_match.
Qed.

Lemma beat_heartbeat fuel seen w native l :
  ttl = leaseTTL w -> TrimSpace (Token l) = t -> TrimSpace t = t -> TrimSpace (Key l) = lease_key ->
  beat_follows ttl t seen (heartbeat fuel w native l) (fun _ _ => True).
Proof.
  intros Hw Ht Htt Hk. unfold heartbeat. apply follows_bind. eapply follows_weaken; [by apply beat_renewals|].
  intros [e|] seen' _; [|by split]. apply follows_bind. split; [done|]. intros r _. by split.
Qed.
End Heartbeat.

(** ** The pool

    A pass: its worker, its two goroutines, the cause its lease context was
    cancelled with, and what the heartbeat has sent. Beside them, what the pass
    knows of its lease: the states of the monitors, and the expiry that the last
    successful acquisition or renewal returned. *)
Record pass := mkPass {
  p_worker : Worker; p_main : prog (Result * option error); p_beat : option (prog unit);
  p_cancel : option error; p_done : option (option error);
  p_mode : mode; p_seen : option Z; p_until : Z }.

Definition start_pass (fuel : nat) (w : Worker) : pass :=
  mkPass w (RunPass fuel w) None None None (Free None None) None 0.

(** The answers that the state of the pass gives to its own calls. *)
Definition local_answer {R} (p : pass) (c : call R) : R -> Prop :=
  match c in call R return R -> Prop with
  | ContextErr LeaseCtx => fun r => is_Some (p_cancel p) -> is_Some r
  | ContextCause => fun r => is_Some (p_cancel p) -> r = p_cancel p
  | HeartbeatDone => fun r => p_done p = Some r
  | _ => fun _ => True
  end.

Definition worker_handles {R} (owner : string) (c : call R) (w : World) (r : R) (w' : World) : Prop :=
  match c in call R return R -> Prop with
  | StoreCall c => fun r => handles c w r w'
  | TryRunning => fun r =>
      if (r : bool) then owner ∉ running w /\ w' = mkWorld (table w) (clock w) (tokens w) ({[owner]} ∪ running w)
      else owner ∈ running w /\ w' = w
  | StopRunning => fun _ => w' = mkWorld (table w) (clock w) (tokens w) (running w ∖ {[owner]})
  | _ => fun _ => w' = w
  end r.

Definition cancelled {R} (p : pass) (c : call R) : option error :=
  match c with CancelLease cause => Some (default cause (p_cancel p)) | _ => p_cancel p end.

(** The expiry after an acquisition, which was [until] before. *)
Definition acquired_until {R} (ttl : Z) (m : mode) (until : Z) (c : call R) : R -> Z :=
  match c in call R return R -> Z with
  | StoreCall c =>
      match c in Lease.call R return R -> Z with
      | Insert _ _ | Update _ _ _ => fun r => match m, r with Free (Some n) (Some _), None => n + ttl | _, _ => until end
      | _ => fun _ => until
      end
  | _ => fun _ => until
  end.

Definition after_main {R} (fuel : nat) (p : pass) (c : call R) (r : R) (k : prog (Result * option error)) : pass :=
  mkPass (p_worker p) k
    (match c with GoRenew l => Some (heartbeat fuel (p_worker p) (default false (data (p_worker p))) l) | _ => p_beat p end)
    (cancelled p c) (p_done p) (main_next (p_mode p) c r) (p_seen p)
    (acquired_until (leaseTTL (p_worker p)) (p_mode p) (p_until p) c r).

(** The expiry after a renewal. *)
Definition renewed_until {R} (ttl : Z) (seen : option Z) (until : Z) (c : call R) : R -> Z :=
  match c in call R return R -> Z with
  | StoreCall c =>
      match c in Lease.call R return R -> Z with
      | Update _ _ _ => fun r => match seen, r with Some n, None => n + ttl | _, _ => until end
      | _ => fun _ => until
      end
  | _ => fun _ => until
  end.

Definition after_beat {R} (p : pass) (c : call R) (r : R) (k : prog unit) : pass :=
  mkPass (p_worker p) (p_main p) (Some k) (cancelled p c)
    (match c with SendDone e => Some e | _ => p_done p end)
    (p_mode p) (beat_next (p_seen p) c r)
    (renewed_until (leaseTTL (p_worker p)) (p_seen p) (p_until p) c r).

(** A call of either goroutine of a pass, a pass that starts, and what others do:
    time goes by, and they change the other leases. *)
Inductive pool_step : list pass * World -> list pass * World -> Prop :=
| step_main fuel l p rest w R (c : call R) k r w' :
    p_main p = Call c k -> worker_handles (leaseOwnerID (p_worker p)) c w r w' -> local_answer p c r ->
    pool_step (l ++ p :: rest, w) (l ++ after_main fuel p c r (k r) :: rest, w')
| step_beat l p rest w R (c : call R) k r w' :
    p_beat p = Some (Call c k) -> worker_handles (leaseOwnerID (p_worker p)) c w r w' -> local_answer p c r ->
    pool_step (l ++ p :: rest, w) (l ++ after_beat p c r (k r) :: rest, w')
| step_start ps w fuel worker :
    pool_step (ps, w) (ps ++ [start_pass fuel worker], w)
| step_environment ps w w' :
    clock w <= clock w' -> table w' !! lease_key = table w !! lease_key -> tokens w ⊆ tokens w' ->
    pool_step (ps, w) (ps, w').

(** ** The invariant *)

(** The row of the lease is the one with token [t], and runs until [until]. *)
Definition backed (w : World) (t : string) (until : Z) : Prop :=
  exists row, table w !! lease_key = Some row /\ LeaseToken row = t /\ until <= Until row.

Definition leased (m : mode) (t : string) : Prop := m = Held t \/ m = Leaving t.

(** What a pass knows of its lease is true. *)
Record known (w : World) (ttl : Z) (m : mode) (seen : option Z) (until : Z) : Prop := mkKnown {
  known_read : forall n t, m = Free (Some n) t -> n <= clock w;
  known_free : free m -> seen = None;
  known_seen : forall n, seen = Some n -> n <= clock w /\ until <= n + ttl;
  known_token : forall t, token_of m = Some t -> t ∈ tokens w;
  known_bound : forall t, leased m t -> until <= clock w + ttl;
  known_live : forall t, m = Held t -> clock w < until -> backed w t until }.

Lemma known_mono w w' ttl m seen until :
  known w ttl m seen until -> clock w <= clock w' -> tokens w ⊆ tokens w' ->
  (forall t, m = Held t -> clock w < until -> backed w t until -> backed w' t until) -> known w' ttl m seen until.
Proof.
  intros [Hr Hf Hs Ht Hb Hl] Hc Hsub Hrow. split; [| |..].
  - intros n t Hm. specialize (Hr n t Hm). lia.
  - exact Hf.
  - intros n Hn. destruct (Hs n Hn). lia.
  - intros t Hm. by apply Hsub, Ht.
  - intros t Hm. specialize (Hb t Hm). lia.
  - intros t Hm Hlt. apply Hrow; [done|lia|]. apply Hl; [done|lia].
Qed.

(** *** What a call does to the world *)
Lemma handles_world {R} owner (c : call R) w r w' :
  worker_handles owner c w r w' -> clock w' = clock w /\ tokens w ⊆ tokens w'.
Proof.
  destruct c as [R c| | | |[]| | | | | | | | | | | | | |]; cbn [worker_handles]; try (intros ->; done).
  - destruct c; cbn [handles]; try (intros ->; done); try (intros [-> _]; done);
      try (intros [(? & _ & _ & ->)|[_ ->]]; done); try (intros [[_ ->]|[_ ->]]; done).
    + intros (_ & _ & ->). cbn. split; [done|]. set_solver.
    + intros [back ->]. done.
  - destruct r; intros [_ ->]; done.
Qed.

Lemma reading_clock i (w w' : World) rows n : handles (Snapshot i) w rows w' -> reading i rows = Some n -> n = clock w.
Proof.
  cbn [handles]. unfold reading. intros [_ [(l & Hl & ->)|[e ->]]]; case_bool_decide as Hm; try done.
  assert (l = []) as ->.
  { assert (filter (fun x => selected i x.1 x.2) (table w) = ∅) as He.
    { apply map_empty_filter_2. intros k x _ Hx. unfold selected in Hx. by rewrite (bool_decide_eq_true_2 _ Hm) in Hx. }
    rewrite He, map_to_list_empty in Hl. by apply Permutation_nil_r in Hl. }
  cbn. by intros [= ->].
Qed.

(** A lease that has not expired stays as it is, unless it is given up. *)
Lemma main_keeps {R} owner ttl m (c : call R) w r w' seen until row :
  known w ttl m seen until -> main_allowed ttl m c -> worker_handles owner c w r w' ->
  table w !! lease_key = Some row -> clock w < Until row -> m <> Leaving (LeaseToken row) -> table w' !! lease_key = Some row.
Proof.
  intros Hk Ha Hh Hrow Hlive Hm. destruct c as [R c| | | |[]| | | | | | | | | | | | | |]; cbn [worker_handles] in Hh; try by subst w'.
  - destruct c; cbn [handles] in Hh; cbn [main_allowed main_store] in Ha; try by subst w'; try by destruct Hh as [-> _].
    + by destruct Hh as [-> _].
    + by destruct Hh as [-> _].
    + destruct Hh as [[Hn ->]|[_ ->]]; [|done]. destruct Ha as [-> _]. congruence.
    + destruct Hh as [(row' & Hr' & Hg & ->)|[_ ->]]; [|done]. destruct Ha as [-> Ha]. assert (row' = row) as -> by congruence.
      unfold guard_ok in Hg. rewrite !andb_True in Hg. destruct Hg as [[[_ Htok] Hexp] _].
      destruct Ha as [(n & t & (Hfree & _) & Hb)|(t & -> & Htk)].
      * rewrite Hb in Hexp. apply Is_true_true, Z.leb_le in Hexp. pose proof (known_read _ _ _ _ _ Hk _ _ Hfree). lia.
      * rewrite Htk in Htok. cbn in Htok. apply Is_true_true, bool_decide_eq_true in Htok. by subst t.
    + destruct Hh as [(row' & Hr' & Hg & ->)|[_ ->]]; [|done]. cbn [set_table table]. by rewrite lookup_delete_ne.
    + destruct Hh as (_ & _ & ->). done.
    + destruct Hh as [back ->]. by apply lookup_union_Some_l.
  - destruct r; destruct Hh as [_ ->]; done.
Qed.

Lemma beat_keeps {R} owner ttl t seen (c : call R) w r w' row :
  beat_allowed ttl t seen c -> worker_handles owner c w r w' ->
  table w !! lease_key = Some row -> LeaseToken row <> t -> table w' !! lease_key = Some row.
Proof.
  intros Ha Hh Hrow Hm. destruct c as [R c| | | |[]| | | | | | | | | | | | | |]; cbn [worker_handles] in Hh; try by subst w'.
  - destruct c; cbn [handles] in Hh; cbn [beat_allowed beat_store] in Ha; try (by subst w'); try (by destruct Ha).
    + by destruct Hh as [-> _].
    + by destruct Hh as [-> _].
    + destruct Hh as [(row' & Hr' & Hg & ->)|[_ ->]]; [|done]. destruct Ha as [-> (n & _ & Htk & _)].
      assert (row' = row) as -> by congruence. unfold guard_ok in Hg. rewrite !andb_True in Hg. destruct Hg as [[[_ Htok] _] _].
      rewrite Htk in Htok. cbn in Htok. by apply Is_true_true, bool_decide_eq_true in Htok.
    + destruct Hh as [back ->]. by apply lookup_union_Some_l.
  - by destruct Ha.
Qed.

(** *** Calls of the pass itself *)
Lemma known_keep w w' ttl m seen until :
  known w ttl m seen until -> clock w' = clock w -> tokens w ⊆ tokens w' ->
  (forall row, table w !! lease_key = Some row -> clock w < Until row -> m = Held (LeaseToken row) -> table w' !! lease_key = Some row) ->
  known w' ttl m seen until.
Proof.
  intros Hk Hc Hsub Hrow. eapply known_mono; [exact Hk|lia|exact Hsub|].
  intros t Hm Hlt (row & Hr & Ht & Hu). exists row. split; [|done]. apply Hrow; [done|lia|by subst t].
Qed.

(** The grant of an acquisition. *)
Lemma known_granted w w' ttl n t row :
  known w ttl (Free (Some n) (Some t)) None 0 -> clock w' = clock w -> tokens w ⊆ tokens w' ->
  table w' !! lease_key = Some row -> LeaseToken row = t -> Until row = n + ttl -> known w' ttl (Held t) None (n + ttl).
Proof.
  intros Hk Hc Hsub Hrow Ht Hu. pose proof (known_read _ _ _ _ _ Hk _ _ eq_refl) as Hn.
  split; [done|by intros (? & ? & [=])|done| | |].
  - intros t' [= ->]. by apply Hsub, (known_token _ _ _ _ _ Hk).
  - intros t' _. lia.
  - intros t' [= <-] _. exists row. split; [done|]. split; [done|lia].
Qed.

Lemma known_free_until w ttl s t seen until until' : known w ttl (Free s t) seen until -> known w ttl (Free s t) None until'.
Proof.
  intros [Hr Hf Hs Ht Hb Hl]. split; [exact Hr|done|done|exact Ht| |done]. intros t' [[=]|[=]].
Qed.

Lemma known_main {R} owner ttl m (c : call R) w r w' seen until :
  known w ttl m seen until -> main_allowed ttl m c -> worker_handles owner c w r w' ->
  known w' ttl (main_next m c r) seen (acquired_until ttl m until c r).
Proof.
  intros Hk Ha Hh. pose proof (handles_world _ _ _ _ _ Hh) as [Hc Hsub].
  assert (Hsame : known w' ttl m seen until).
  { apply (known_keep w); [done..|]. intros row Hrow Hlive Hm. eapply main_keeps; [exact Hk|exact Ha|exact Hh|done..|]. by rewrite Hm. }
  destruct c as [R c| | | |[]| | | | | | | | | | | | | |]; cbn [main_next acquired_until]; try exact Hsame.
  - cbn [worker_handles main_allowed] in Hh, Ha. destruct c as [i| |key e|key i e| | | | | | | |]; cbn [store_next]; try exact Hsame.
    + destruct m as [s t|t|t]; [|exact Hsame..]. destruct (reading i r) as [n|] eqn:Er; [|exact Hsame].
      pose proof (reading_clock _ _ _ _ _ Hh Er) as ->. destruct Hsame as [_ Hf Hs Ht Hb Hl].
      split; [intros n t' [= <- <-]; lia|by intros _; apply Hf; do 2 eexists|exact Hs|exact Ht|by intros ? [[=]|[=]]|done].
    + destruct Ha as [-> (n & t & -> & Htok & Hu)]. destruct r as [err|]; cbn [granted]; [exact Hsame|].
      rewrite (known_free _ _ _ _ _ Hk) in * by by do 2 eexists.
      cbn [handles] in Hh. destruct Hh as [[_ ->]|[[] _]]; [|done].
      eapply known_granted; [by eapply known_free_until|done|done|apply lookup_insert_eq| |]; cbn [inserted LeaseToken Until].
      * by rewrite Htok.
      * by rewrite Hu.
    + destruct Ha as [-> [(n & t & (-> & Htok & Hu) & _)|(t & -> & _)]]; [|by destruct r].
      destruct r as [err|]; cbn [granted]; [exact Hsame|].
      rewrite (known_free _ _ _ _ _ Hk) in * by by do 2 eexists.
      cbn [handles] in Hh. destruct Hh as [(row & _ & _ & ->)|[[] _]]; [|done].
      eapply known_granted; [by eapply known_free_until|done|done|apply lookup_insert_eq| |]; cbn [updated LeaseToken Until].
      * by rewrite Htok.
      * by rewrite Hu.
    + destruct m as [s t|t|t]; [|exact Hsame..]. cbn [handles] in Hh. destruct Hh as (_ & _ & ->).
      destruct Hsame as [Hr Hf Hs _ Hb Hl]. split; [intros n t' [= -> <-]; by eapply Hr|by intros _; apply Hf; do 2 eexists|exact Hs| |by intros ? [[=]|[=]]|done].
      intros t' [= <-]. cbn [tokens]. set_solver.
  - destruct Ha as [t ->]. destruct Hsame as [_ _ Hs Ht Hb _].
    split; [done|by intros (? & ? & [=])|exact Hs|intros t' [= <-]; by apply Ht| |done].
    intros t' [[=]|[= <-]]. apply (Hb t). by left.
Qed.

Lemma known_beat {R} owner ttl t m (c : call R) w r w' seen until :
  known w ttl m seen until -> leased m t -> beat_allowed ttl t seen c -> worker_handles owner c w r w' ->
  known w' ttl m (beat_next seen c r) (renewed_until ttl seen until c r).
Proof.
  intros Hk Hm Ha Hh. pose proof (handles_world _ _ _ _ _ Hh) as [Hc Hsub].
  assert (Hother : (forall row, table w !! lease_key = Some row -> table w' !! lease_key = Some row) -> known w' ttl m seen until).
  { intros Hrow. apply (known_keep w); [done..|]. intros row Hr _ _. by apply Hrow. }
  assert (Hnotfree : ~ free m) by by (intros (? & ? & ->); destruct Hm).
  destruct c as [R c| | | |[]| | | | | | | | | | | | | |]; cbn [beat_next renewed_until worker_handles beat_allowed] in *;
    try (by apply Hother; subst w'); try (by destruct Ha).
  destruct c as [i| |key e|key i e| | | | | | | |]; cbn [beat_store_next beat_store handles] in *;
    try (by apply Hother; subst w'); try (by apply Hother; destruct Hh as [-> _]); try (by destruct Ha).
  - assert (Hsame : known w' ttl m seen until) by by (apply Hother; destruct Hh as [-> _]).
    destruct (reading i r) as [n|] eqn:Er; [|exact Hsame]. pose proof (reading_clock _ _ _ _ _ Hh Er) as ->.
    destruct Hsame as [Hr Hf Hs Ht Hb Hl]. split; [exact Hr|done| |exact Ht|exact Hb|exact Hl].
    intros n [= <-]. specialize (Hb t Hm). lia.
  - destruct Ha as [-> (n & -> & Htk & _ & Hnone & Hu)]. destruct (known_seen _ _ _ _ _ Hk n eq_refl) as [Hn Hle].
    destruct Hh as [(row & Hrow & Hg & ->)|[Hne ->]].
    + assert (LeaseToken row = t) as Hrt.
      { unfold guard_ok in Hg. rewrite !andb_True in Hg. destruct Hg as [[[_ Hg] _] _]. rewrite Htk in Hg. cbn in Hg.
        by apply Is_true_true, bool_decide_eq_true in Hg. }
      set (u := match r with None => n + ttl | Some _ => until end).
      assert (Hu' : until <= u <= n + ttl) by (unfold u; destruct r; lia). clearbody u.
      destruct Hk as [Hr Hf Hs Ht Hb Hl]. split; [exact Hr|done| |exact Ht| |].
      * intros n' [= <-]. cbn [set_table clock]. lia.
      * intros t' _. cbn [set_table clock]. lia.
      * intros t' -> _. assert (t' = t) as -> by (by destruct Hm as [[= ->]|[=]]).
        exists (updated e row). cbn [set_table table]. rewrite lookup_insert_eq. split; [done|]. cbn [updated LeaseToken Until].
        rewrite Hnone, Hu. cbn. split; [done|lia].
    + destruct r as [e'|]; [|done]. by apply Hother.
  - destruct Hh as [back ->]. apply Hother. intros row Hrow. by apply lookup_union_Some_l.
Qed.

(** *** All passes *)
Record pass_ok (w : World) (p : pass) : Prop := {
  ok_main : main_follows (leaseTTL (p_worker p)) (p_mode p) (p_main p) (fun _ _ => True);
  ok_beat : forall b, p_beat p = Some b ->
    exists t, leased (p_mode p) t /\ beat_follows (leaseTTL (p_worker p)) t (p_seen p) b (fun _ _ => True);
  ok_known : known w (leaseTTL (p_worker p)) (p_mode p) (p_seen p) (p_until p) }.

Definition held_tokens (ps : list pass) : list string := omap (fun p => token_of (p_mode p)) ps.

Definition pool_ok (x : list pass * World) : Prop := Forall (pass_ok x.2) x.1 /\ NoDup (held_tokens x.1).

Lemma held_tokens_middle l p rest : held_tokens (l ++ p :: rest) ≡ₚ option_list (token_of (p_mode p)) ++ held_tokens (l ++ rest).
Proof.
  unfold held_tokens. rewrite !omap_app. cbn [omap list_omap]. destruct (token_of (p_mode p)); cbn; [by rewrite Permutation_middle|done].
Qed.

Lemma token_elsewhere l p q rest t :
  NoDup (held_tokens (l ++ p :: rest)) -> q ∈ l ++ rest -> token_of (p_mode q) = Some t -> token_of (p_mode p) <> Some t.
Proof.
  rewrite held_tokens_middle. intros Hnd Hq Ht Hp. rewrite Hp in Hnd. cbn in Hnd. apply NoDup_cons in Hnd as [Hn _].
  apply Hn. apply list_elem_of_omap. by exists q.
Qed.

(** The token after a call: the same, or a new one. *)
Lemma next_token {R} owner m (c : call R) w r w' :
  worker_handles owner c w r w' ->
  token_of (main_next m c r) = token_of m \/ exists t, token_of (main_next m c r) = Some t /\ t ∉ tokens w.
Proof.
  intros Hh. destruct c as [R c| | | |[]| | | | | | | | | | | | | |]; cbn [main_next]; try by left.
  - destruct c as [i| |key e|key i e| | | | | | | |]; cbn [store_next]; try by left.
    + left. destruct m; [|done..]. by destruct (reading i r).
    + left. destruct m as [s [t|]|t|t]; by destruct r.
    + left. destruct m as [s [t|]|t|t]; by destruct r.
    + destruct m; [|by left..]. destruct Hh as [Hr _]. right. by eexists.
  - left. by destruct m.
Qed.

Lemma pool_others l p rest w w' (p' : pass) :
  pool_ok (l ++ p :: rest, w) -> clock w' = clock w -> tokens w ⊆ tokens w' ->
  (forall row, table w !! lease_key = Some row -> clock w < Until row -> token_of (p_mode p) <> Some (LeaseToken row) ->
               table w' !! lease_key = Some row) ->
  pass_ok w' p' -> token_of (p_mode p') = token_of (p_mode p) \/ (exists t, token_of (p_mode p') = Some t /\ t ∉ tokens w) ->
  pool_ok (l ++ p' :: rest, w').
Proof.
  intros [Hall Hnd] Hc Hsub Hrow Hp' Htok. cbn [fst snd] in *. rewrite Forall_app, Forall_cons in Hall.
  destruct Hall as (Hl & Hp & Hr).
  assert (Hq : forall q, q ∈ l ++ rest -> pass_ok w q -> pass_ok w' q).
  { intros q Hin [Hm Hb Hk]. split; [exact Hm|exact Hb|]. apply (known_keep w); [exact Hk|exact Hc|exact Hsub|].
    intros row Hr' Hlive Hheld. apply Hrow; [done|done|]. eapply token_elsewhere; [exact Hnd|exact Hin|]. by rewrite Hheld. }
  split; cbn [fst snd].
  - rewrite Forall_forall in Hl, Hr. rewrite Forall_app, Forall_cons, !Forall_forall.
    split; [|split; [exact Hp'|]]; intros q Hin; (apply Hq; [apply elem_of_app; auto|auto]).
  - rewrite held_tokens_middle in *. destruct Htok as [->|(t & -> & Hfresh)]; [done|].
    apply NoDup_app in Hnd as (_ & _ & Hnd). cbn. apply NoDup_cons. split; [|done]. intros Hin.
    apply list_elem_of_omap in Hin as (q & Hin & Hqt). apply Hfresh.
    assert (pass_ok w q) as [_ _ Hk]; [|by eapply known_token].
    rewrite Forall_forall in Hl, Hr. apply elem_of_app in Hin as [Hin|Hin]; auto.
Qed.

Lemma lease_step_ok x y : pool_step x y -> pool_ok x -> pool_ok y.
Proof.
  intros Hstep Hok. destruct Hstep as [fuel l p rest w R c k r w' Hc Hh Hlocal|l p rest w R c k r w' Hc Hh Hlocal|ps w fuel worker|ps w w' Hclock Htable Htokens].
  - pose proof (handles_world _ _ _ _ _ Hh) as [Hclock Hsub].
    assert (pass_ok w p) as [Hm Hb Hk] by by (destruct Hok as [Hall _]; cbn in Hall; rewrite Forall_app, Forall_cons in Hall; apply Hall).
    rewrite Hc in Hm. destruct Hm as [Ha Hnext].
    apply (pool_others _ p _ w); [exact Hok|exact Hclock|exact Hsub| | |by eapply next_token].
    + intros row Hrow Hlive Hne. eapply main_keeps; [exact Hk|exact Ha|exact Hh|done..|]. by intros Hm; rewrite Hm in Hne.
    + split; cbn [after_main p_main p_worker p_mode p_beat p_seen p_until].
      * apply Hnext. destruct c as [R c| | | |[]| | | | | | | | | | | | | |]; try done. destruct c; try done. by destruct Hh as (_ & ? & _).
      * intros b Hb'. destruct c as [R c| | | |[]| | | | | | | | | | | | | |]; cbn [main_next main_allowed] in *;
          try (by apply Hb); try (by destruct Ha).
        -- destruct (Hb b Hb') as (t & Ht & Hf). exists t. split; [|exact Hf].
           destruct c as [i| |key e|key i e| | | | | | | |]; cbn [store_next]; try exact Ht; by destruct Ht as [-> | ->]; [left|right]; destruct r.
        -- injection Hb' as <-. destruct Ha as (Hheld & Htrim & Hkey). exists (Token l0). split; [by left|]. by apply beat_heartbeat.
        -- destruct (Hb b Hb') as (t & Ht & Hf). exists t. split; [|exact Hf]. right. by destruct Ht as [-> | ->].
      * by eapply known_main.
  - pose proof (handles_world _ _ _ _ _ Hh) as [Hclock Hsub].
    assert (pass_ok w p) as [Hm Hb Hk] by by (destruct Hok as [Hall _]; cbn in Hall; rewrite Forall_app, Forall_cons in Hall; apply Hall).
    destruct (Hb _ Hc) as (t & Ht & Ha & Hnext).
    apply (pool_others _ p _ w); [exact Hok|exact Hclock|exact Hsub| | |by left].
    + intros row Hrow Hlive Hne. eapply beat_keeps; [exact Ha|exact Hh|done|]. intros Heq. apply Hne. by destruct Ht as [-> | ->]; rewrite Heq.
    + split; cbn [after_beat p_main p_worker p_mode p_beat p_seen p_until].
      * exact Hm.
      * intros b [= <-]. exists t. split; [exact Ht|]. apply Hnext. destruct c as [R c| | | |[]| | | | | | | | | | | | | |]; try done. by destruct c.
      * by eapply known_beat.
  - destruct Hok as [Hall Hnd]. split; cbn [fst snd] in *.
    + rewrite Forall_app, Forall_singleton. split; [exact Hall|]. split; cbn [start_pass p_main p_mode p_worker p_beat p_seen p_until]; [apply RunPass_follows|done|].
      split; [done|done|done|done|by intros t [[=]|[=]]|done].
    + unfold held_tokens in *. rewrite omap_app. cbn. by rewrite app_nil_r.
  - destruct Hok as [Hall Hnd]. split; [|exact Hnd]. cbn [fst snd] in *. eapply Forall_impl; [exact Hall|]. intros p [Hm Hb Hk].
    split; [exact Hm|exact Hb|]. eapply known_mono; [exact Hk|exact Hclock|exact Htokens|]. intros t _ _ (row & Hr & Ht). exists row. by rewrite Htable.
Qed.

Lemma pool_reachable w x : rtc pool_step ([], w) x -> pool_ok x.
Proof.
  intros Hr. assert (Hstart : pool_ok ([], w)) by (split; [constructor|apply NoDup_nil_2]).
  revert Hstart. induction Hr as [x|x y z Hxy _ IH]; intros Hx; [exact Hx|]. apply IH. by eapply lease_step_ok.
Qed.

(** A pass at a call of the data service, and a pass with a lease that has not
    expired, as far as it knows. *)
Definition working (p : pass) : Prop := exists R (c : call R) k, p_main p = Call c k /\ maintains c = true.
Definition live (w : World) (p : pass) : Prop := exists t, p_mode p = Held t /\ clock w < p_until p.

Lemma NoDup_omap_index {A B} (f : A -> option B) (l : list A) i j x y b :
  NoDup (omap f l) -> l !! i = Some x -> l !! j = Some y -> f x = Some b -> f y = Some b -> i = j.
Proof.
  assert (Hin : forall (l : list A) j y, l !! j = Some y -> f y = Some b -> b ∈ omap f l).
  { intros l' j' y' Hl Hf. apply list_elem_of_omap. exists y'. split; [by eapply list_elem_of_lookup_2|exact Hf]. }
  revert i j. induction l as [|a l IH]; intros [|i] [|j] Hnd Hi Hj Hx Hy; try done; cbn in *; simplify_eq.
  - rewrite Hx in Hnd. apply NoDup_cons in Hnd as [[] _]. by eapply Hin.
  - rewrite Hy in Hnd. apply NoDup_cons in Hnd as [[] _]. by eapply Hin.
  - f_equal. apply IH; [|done..]. destruct (f a); [by apply NoDup_cons in Hnd as [_ ?]|done].
Qed.

Lemma pass_working w p : pass_ok w p -> working p -> exists t, p_mode p = Held t.
Proof.
  intros [Hm _ _] (R & c & k & Hc & Hw). rewrite Hc in Hm. destruct Hm as [Ha _].
  by destruct c as [R c| | | |[]| | | | | | | | | | | | | |].
Qed.

Lemma pass_live w p :
  pass_ok w p -> live w p -> exists row, table w !! lease_key = Some row /\ p_mode p = Held (LeaseToken row).
Proof.
  intros [_ _ Hk] (t & Ht & Hlt). destruct (known_live _ _ _ _ _ Hk t Ht Hlt) as (row & Hrow & <- & _). by exists row.
Qed.

(** C7: Two passes that hold a lease that has not expired on the clock of the
    database are the same pass, and its token is the one in the table; and a pass
    only reads and changes the data under maintenance while it holds the lease. *)
Theorem one_cleanup w0 ps w :
  rtc pool_step ([], w0) (ps, w) ->
  (forall i j p q, ps !! i = Some p -> ps !! j = Some q -> live w p -> live w q -> i = j)
  /\ Forall (fun p => live w p -> exists row, table w !! lease_key = Some row /\ p_mode p = Held (LeaseToken row)) ps
  /\ Forall (fun p => working p -> exists t, p_mode p = Held t) ps.
Proof.
  intros [Hall Hnd]%pool_reachable. cbn [fst snd] in *. split; [|split].
  - intros i j p q Hi Hj Hp Hq.
    destruct (pass_live w p) as (row & Hrow & Ep); [by eapply Forall_lookup_1|done|].
    destruct (pass_live w q) as (row' & Hrow' & Eq); [by eapply Forall_lookup_1|done|].
    eapply NoDup_omap_index; [exact Hnd|exact Hi|exact Hj|cbn; by rewrite Ep|cbn; rewrite Eq; cbn; congruence].
  - eapply Forall_impl; [exact Hall|]. intros p. apply pass_live.
  - eapply Forall_impl; [exact Hall|]. intros p. apply pass_working.
Qed.

(** ** Running a pool *)

(** Answers of a database that does not fail, with rows in any order; [None] when
    a new token is not new. *)
Definition fresh_token (w : World) : string := "token-" +:+ pretty (size (tokens w)).

Definition selected_rows (i : ReadInput) (w : World) : list (string * Row) :=
  map_to_list (filter (fun x => selected i x.1 x.2) (table w)).

Definition guard_conflict : error := Leaf (Conflict guard_reason "conflict").

Definition store_answer {R} (c : Lease.call R) (w : World) : option (R * World) :=
  match c in Lease.call R return option (R * World) with
  | Snapshot i => Some (Ok (snapshots (clock w) (selected_rows i w)), w)
  | LoadPrevious key => Some (Ok (table w !! key), w)
  | Insert key e =>
      match table w !! key with
      | None => Some (None, set_table (<[key := inserted e]> (table w)) w)
      | Some _ => Some (Some (newError ErrConflict), w)
      end
  | Update key i e =>
      match table w !! key with
      | Some row => if guard_ok i row then Some (None, set_table (<[key := updated e row]> (table w)) w) else Some (Some guard_conflict, w)
      | None => Some (Some guard_conflict, w)
      end
  | Delete key i =>
      match table w !! key with
      | Some row => if guard_ok i row then Some (None, set_table (delete key (table w)) w) else Some (Some guard_conflict, w)
      | None => Some (Some guard_conflict, w)
      end
  | LocalNow => Some (0, w)
  | NewToken =>
      let t := fresh_token w in
      if bool_decide (t ∉ tokens w) && bool_decide (TrimSpace t = t)
      then Some (t, mkWorld (table w) (clock w) ({[t]} ∪ tokens w) (running w)) else None
  | CtxErr => Some (None, w)
  | Wait _ => Some (None, w)
  | ConfiguredDriver => Some (Some (Ok "sqlite"), w)
  | TxStart => Some (None, w)
  | TxEnd e => Some ((e, mkOutcome e [(TransactionCommitted, None)], []), set_table (table w ∪ ∅) w)
  end.

Lemma store_answer_handles {R} (c : Lease.call R) w r w' :
  store_answer c w = Some (r, w') -> handles c w r w'.
Proof.
  destruct c; cbn [store_answer handles].
  - intros [= <- <-]. split; [done|]. left. by exists (selected_rows i w).
  - intros [= <- <-]. split; [done|]. by left.
  - destruct (table w !! key) eqn:E; intros [= <- <-]; [by right|by left].
  - destruct (table w !! key) as [row|] eqn:E; [|intros [= <- <-]; by right].
    destruct (guard_ok i row) eqn:Eg; intros [= <- <-]; [left|by right]. exists row. by rewrite Eg.
  - destruct (table w !! key) as [row|] eqn:E; [|intros [= <- <-]; by right].
    destruct (guard_ok i row) eqn:Eg; intros [= <- <-]; [left|by right]. exists row. by rewrite Eg.
  - by intros [= _ <-].
  - case_bool_decide as Hf; [|done]. case_bool_decide as Ht; [|done]. by intros [= <- <-].
  - by intros [= _ <-].
  - by intros [= _ <-].
  - by intros [= _ <-].
  - by intros [= _ <-].
  - intros [= _ <-]. by eexists.
Qed.

(** The answers to the calls of a pass, with the candidates of the data service
    and what becomes of them. *)
Definition worker_answer {R} (roots : list RootCandidate) (p : pass) (c : call R) (w : World) : option (R * World) :=
  match c in call R return option (R * World) with
  | StoreCall c => store_answer c w
  | PassNow => Some (0, w)
  | TryRunning =>
      if bool_decide (leaseOwnerID (p_worker p) ∈ running w) then Some (false, w)
      else Some (true, mkWorld (table w) (clock w) (tokens w) ({[leaseOwnerID (p_worker p)]} ∪ running w))
  | StopRunning => Some (tt, mkWorld (table w) (clock w) (tokens w) (running w ∖ {[leaseOwnerID (p_worker p)]}))
  | ContextErr LeaseCtx => match p_cancel p with None => Some (None, w) | Some e => Some (Some e, w) end
  | ContextErr _ => Some (None, w)
  | ContextCause => Some (p_cancel p, w)
  | CancelLease _ => Some (tt, w)
  | GoRenew _ => Some (tt, w)
  | HeartbeatDone => match p_done p with Some r => Some (r, w) | None => None end
  | SendDone _ => Some (tt, w)
  | RenewTimer _ => Some (match p_cancel p with None => true | Some _ => false end, w)
  | ListConversations r => Some (Ok (if bool_decide (lc_AfterRootID r = "") then roots else []), w)
  | ListRuns _ => Some (Ok [], w)
  | ListOrphans _ => Some (Ok [], w)
  | ListTechnical _ => Some (Ok [], w)
  | MaintainConversation _ => Some ((Some (mkTree true true "deleted" false 1 1), None), w)
  | MaintainScheduledRun _ => Some ((None, None), w)
  | MaintainOrphan _ => Some ((None, None), w)
  | MaintainTechnical _ => Some ((None, None), w)
  end.

Lemma worker_answer_ok {R} roots p (c : call R) w r w' :
  worker_answer roots p c w = Some (r, w') -> worker_handles (leaseOwnerID (p_worker p)) c w r w' /\ local_answer p c r.
Proof.
  destruct c as [R c| | | |[]| | | | | | | | | | | | | |]; cbn [worker_answer worker_handles local_answer]; try (by intros [= <- <-]).
  - intros Hc. split; [by apply store_answer_handles|done].
  - case_bool_decide; by intros [= <- <-].
  - destruct (p_cancel p); intros [= <- <-]; (split; [done|]); by intros [? [=]] || by eexists.
  - destruct (p_done p); by intros [= <- <-].
Qed.

(** A turn of the main goroutine, or of the heartbeat, of pass number [i]. *)
Inductive turn := Main (i : nat) | Beat (i : nat) | Start (w : Worker) | Clock (d : Z).

Definition take_turn (fuel : nat) (roots : list RootCandidate) (t : turn) (x : list pass * World) : option (list pass * World) :=
  let '(ps, w) := x in
  match t with
  | Main i =>
      p ← ps !! i;
      match p_main p with
      | Call c k => '(r, w') ← worker_answer roots p c w; Some (take i ps ++ after_main fuel p c r (k r) :: drop (S i) ps, w')
      | _ => None
      end
  | Beat i =>
      p ← ps !! i;
      match p_beat p with
      | Some (Call c k) => '(r, w') ← worker_answer roots p c w; Some (take i ps ++ after_beat p c r (k r) :: drop (S i) ps, w')
      | _ => None
      end
  | Start worker => Some (ps ++ [start_pass fuel worker], w)
  | Clock d => if 0 <=? d then Some (ps, mkWorld (table w) (clock w + d) (tokens w) (running w)) else None
  end.

Lemma take_turn_step fuel roots t x y : take_turn fuel roots t x = Some y -> pool_step x y.
Proof.
  destruct x as [ps w]. destruct t as [i|i|worker|d]; cbn [take_turn].
  - destruct (ps !! i) as [p|] eqn:Ei; [|done]. cbn [mbind option_bind]. destruct (p_main p) as [a|R c k|] eqn:Ep; [done| |done].
    destruct (worker_answer roots p c w) as [[r w']|] eqn:Ea; [|done]. cbn. intros [= <-].
    apply worker_answer_ok in Ea as [Hh Hl]. rewrite <- (take_drop_middle ps i p) at 1 by done. by eapply step_main.
  - destruct (ps !! i) as [p|] eqn:Ei; [|done]. cbn [mbind option_bind]. destruct (p_beat p) as [[a|R c k|]|] eqn:Ep; [done| |done|done].
    destruct (worker_answer roots p c w) as [[r w']|] eqn:Ea; [|done]. cbn. intros [= <-].
    apply worker_answer_ok in Ea as [Hh Hl]. rewrite <- (take_drop_middle ps i p) at 1 by done. by eapply step_beat.
  - intros [= <-]. apply step_start.
  - destruct (0 <=? d) eqn:Ed; [|done]. intros [= <-]. apply step_environment; cbn; [lia|done|done].
Qed.

Fixpoint turns (fuel : nat) (roots : list RootCandidate) (ts : list turn) (x : list pass * World) : option (list pass * World) :=
  match ts with [] => Some x | t :: ts => y ← take_turn fuel roots t x; turns fuel roots ts y end.

Lemma turns_steps fuel roots ts x y : turns fuel roots ts x = Some y -> rtc pool_step x y.
Proof.
  revert x. induction ts as [|t ts IH]; intros x; cbn [turns]; [by intros [= <-]|].
  destruct (take_turn fuel roots t x) as [z|] eqn:Ez; [|done]. intros Hy. eapply rtc_l; [by eapply take_turn_step|by apply IH].
Qed.
End Pool.

(** ** Two workers *)
Module Demo.
#[export] Instance runtime : Runtime := {| Quote s := s; IsDuplicateKey _ := false |}.

Definition options : Options := mkOptions true 10 0 "execute" 0 "off" 0 "off" 0.
Definition worker (name : string) : Worker := New (Some true) options name.
Definition roots : list RootCandidate := [mkRoot "conversation-1" "owner" 5].

Definition start : World := mkWorld ∅ (100 * Day) ∅ ∅.
(** The first node works under the lease, which its heartbeat renews after half a
    minute; the second one comes when the lease would have expired without it. *)
Definition script : list turn :=
  [Start (worker "node-1"); Start (worker "node-2")] ++ replicate 21 (Main 0)
  ++ [Clock (30 * Second)] ++ replicate 5 (Beat 0) ++ [Clock (100 * Second)] ++ replicate 6 (Main 1).
Definition final : list pass * World := default ([], start) (turns 3 roots script ([], start)).

Definition is_working (p : pass) : bool := match p_main p with Call c _ => maintains c | _ => false end.
Definition view (p : pass) : mode * Z * bool * option bool :=
  (p_mode p, p_until p - clock (final.2), is_working p,
   match p_main p with Ret (r, _) => Some (LeaseSkipped r) | _ => None end).

Lemma reached : rtc pool_step ([], start) (final.1, final.2).
Proof.
  unfold final. destruct (turns 3 roots script ([], start)) as [[ps w]|] eqn:E; [|reflexivity].
  by eapply turns_steps.
Qed.

Lemma views :
  view <$> final.1 = [(Held "token-0", 20 * Second, true, None); (Free (Some (100 * Day + 130 * Second)) None, - (100 * Day + 130 * Second), false, Some true)].
Proof. vm_compute. reflexivity. Qed.
End Demo.

Lemma one_cleanup_witness :
  map Demo.view (Demo.final).1
    = [(Held "token-0", 20 * Second, true, None);
       (Free (Some (100 * Day + 130 * Second)) None, - (100 * Day + 130 * Second), false, Some true)]
  /\ Forall (fun p => live (Demo.final).2 p -> exists row, table (Demo.final).2 !! lease_key = Some row /\ p_mode p = Held (LeaseToken row)) (Demo.final).1.
Proof. split; [exact Demo.views|]. apply (one_cleanup Demo.start _ _ Demo.reached). Defined.
