(* ===== verification/CleanupProps.v ===== *)
(** * Pages do not matter

    A cleanup policy reads its candidates page by page, from a cursor. On a data
    service that pages through a list in the order of cursors, with no candidate
    without an identity, the loop comes to an end and gives what one walk over the
    whole list would give: each candidate is processed once and in order, until
    the batch is used up or the lease is lost. *)
From stdpp Require Import base gmap strings list sorting.
From Stdlib Require Import ZArith Lia.
From S2P Require Import Prelude GoStrings Effects GoErrors MaintenanceTx Lease Cleanup.

Open Scope Z_scope.

(** A program in an environment that answers each call by a function. *)
Fixpoint eval {A} (h : forall R, call R -> R) (p : prog A) : option A :=
  match p with Ret a => Some a | Call c k => eval h (k (h _ c)) | Spin => None end.

Lemma eval_bind {A B} h (p : prog A) (f : A -> prog B) : eval h (x ← p; f x) = a ← eval h p; eval h (f a).
Proof. unfold mbind at 1, prog_bind. induction p as [a|R c k IH|]; cbn; [done|apply IH|done]. Qed.

(** ** The order of cursors *)
Definition after (a b : candidate) : Prop := conversationCleanupCursorAfter (cursor_of a) (cursor_of b) = true.
Definition identified (c : candidate) : Prop := TrimSpace (RootID c) <> "".
Definition later (cu : cursor) (c : candidate) : Prop := conversationCleanupCursorAfter (cursor_of c) cu = true.

#[export] Instance later_dec cu c : Decision (later cu c).
Proof. unfold later. apply _. Defined.

Lemma string_after_asym s t : string_after s t = true -> string_after t s = true -> False.
Proof.
  unfold string_after, Stdlib.Strings.String.ltb. rewrite (Stdlib.Strings.String.compare_antisym s t).
  by destruct (Stdlib.Strings.String.compare t s).
Qed.

Lemma identified_id c : identified c -> RootID c <> "".
Proof. unfold identified. intros Hc E. by rewrite E in Hc. Qed.

Lemma after_asym a b : identified a -> identified b -> after a b -> after b a -> False.
Proof.
  intros Ha%identified_id Hb%identified_id. unfold after, conversationCleanupCursorAfter. cbn [cursor_of cu_RootID cu_ActivityAt].
  case_bool_decide; [done|]. rewrite (bool_decide_eq_false_2 (RootID b = "")) by done.
  case_bool_decide; [done|]. rewrite (bool_decide_eq_false_2 (RootID a = "")) by done.
  destruct (Z.ltb_spec (ActivityAt b) (ActivityAt a)), (Z.ltb_spec (ActivityAt a) (ActivityAt b)); try lia; cbn.
  intros [_ Hab]%andb_true_iff [_ Hba]%andb_true_iff. by eapply string_after_asym.
Qed.

Lemma after_irrefl a : identified a -> ~ after a a.
Proof. intros Ha H. by eapply after_asym. Qed.

Lemma filter_keep {A} (P : A -> Prop) `{forall x, Decision (P x)} l : Forall P l -> filter P l = l.
Proof. induction 1 as [|x l Hx _ IH]; [done|]. rewrite filter_cons_True by done. by f_equal. Qed.
Lemma filter_drop {A} (P : A -> Prop) `{forall x, Decision (P x)} l : Forall (fun x => ~ P x) l -> filter P l = [].
Proof. induction 1 as [|x l Hx _ IH]; [done|]. by rewrite filter_cons_False. Qed.

Definition in_order : list candidate -> Prop := StronglySorted (fun a b => after b a).

(** The candidates after the last one that was read are the rest of the list. *)
Lemma filter_rest before x rest :
  Forall identified (before ++ x :: rest) -> in_order (before ++ x :: rest) ->
  filter (later (cursor_of x)) (before ++ x :: rest) = rest.
Proof.
  intros [Hbefore [Hx Hrest]%Forall_cons]%Forall_app (Hb & _ & [Hr _]%StronglySorted_cons)%StronglySorted_app.
  rewrite filter_app, filter_drop, filter_cons_False, filter_keep; [done|exact Hr|by apply after_irrefl|].
  rewrite Forall_forall in *. intros y Hy Hl. eapply (after_asym y x); [by apply Hbefore|exact Hx|exact Hl|].
  apply Hb; [exact Hy|by left].
Qed.

(** At the start every candidate is selected. *)
Lemma filter_start l : Forall identified l -> filter (later start_cursor) l = l.
Proof.
  intros Hid. apply filter_keep. eapply Forall_impl; [exact Hid|]. intros x Hx. unfold later, conversationCleanupCursorAfter.
  cbn [cursor_of cu_RootID start_cursor]. by rewrite bool_decide_eq_false_2.
Qed.

(** ** One walk over the list *)
Section Paging.
Context `{Runtime} (h : forall R, call R -> R) (p : Policy) (pass : option Z) (lease : Lease) (batch : Z).

(** What becomes of a candidate, and the whole list of candidates. *)
Context (process : candidate -> outcome * option error) (all : list candidate) (st : pstate).

Fixpoint sweep (c : Counts) (used : Z) (l : list candidate) : Counts * option error :=
  match l with
  | [] => (c, None)
  | x :: l =>
      if batch <=? used then (c, None) else
      let '(o, e) := process x in
      let '(c, place) := count_outcome o e (inc CScanned 1 c) in
      let used := if (place : bool) then used + 1 else used in
      match e with
      | Some e => if Is e ErrMaintenanceLeaseLost then (c, Some e) else sweep c used l
      | None => sweep c used l
      end
  end.

(** The data service: contexts do not end, a page is the next candidates after
    the cursor, up to the limit, and a candidate is processed as [process] says. *)
Definition page_after (cu : cursor) : list candidate := take (Z.to_nat batch) (filter (later cu) all).

Record paged : Prop := {
  paged_context : h _ (ContextErr PolicyCtx) = None;
  paged_select : forall st' cu, cu = start_cursor /\ st' = mkState 0 0 \/ st' = st ->
    eval h (SelectCandidates p pass st' cu batch) = Some (Ok (page_after cu), st);
  paged_process : forall x, x ∈ all -> eval h (ProcessCandidate p st lease x) = Some (process x);
  paged_identified : Forall identified all;
  paged_order : in_order all }.

Lemma sweep_full c used l : batch <= used -> sweep c used l = (c, None).
Proof. intros Hu. destruct l; [done|]. cbn [sweep]. by rewrite (proj2 (Z.leb_le _ _) Hu). Qed.

Lemma page_sweep (Hp : paged) c used page rest :
  page ⊆ all ->
  exists c' used' e, eval h (process_page p st lease batch c used page) = Some (c', used', e)
    /\ sweep c used (page ++ rest) = match e with Some e => (c', Some e) | None => sweep c' used' rest end.
Proof.
  revert c used. induction page as [|x page IH]; intros c used Hsub; [by do 3 eexists|].
  cbn [process_page app sweep]. rewrite eval_bind. cbn [eval ask mbind option_bind]. rewrite (paged_context Hp).
  destruct (Z.leb_spec batch used) as [Hfull|_].
  { exists c, used, None. split; [done|]. by rewrite sweep_full. }
  rewrite eval_bind, (paged_process Hp) by (apply Hsub; by left). cbn [mbind option_bind].
  destruct (process x) as [o e]. destruct (count_outcome o e (inc CScanned 1 c)) as [c1 place].
  assert (Hrest : page ⊆ all) by set_solver.
  destruct e as [e|]; [destruct (Is e ErrMaintenanceLeaseLost); [by do 3 eexists|]|]; by apply IH.
Qed.

(** A position between pages: what was read, the cursor, and the rest. *)
Definition position (before rest : list candidate) (cu : cursor) : Prop :=
  all = before ++ rest /\ match last before with None => cu = start_cursor | Some x => cu = cursor_of x end.

Lemma position_page (Hp : paged) before rest cu :
  position before rest cu -> page_after cu = take (Z.to_nat batch) rest.
Proof.
  intros [Hall Hcu]. unfold page_after. f_equal. rewrite Hall. pose proof (paged_identified Hp) as Hid. pose proof (paged_order Hp) as Ho.
  destruct (last before) as [x|] eqn:El.
  - apply last_Some in El as [l ->]. rewrite <- app_assoc in *. cbn in *. subst cu. rewrite Hall in *. by apply filter_rest.
  - apply last_None in El as ->. subst cu. rewrite Hall in *. by apply filter_start.
Qed.

Lemma position_next before page rest cu x :
  position before (page ++ rest) cu -> last page = Some x -> position (before ++ page) rest (cursor_of x).
Proof. intros [-> _] Hx. split; [by rewrite <- app_assoc|]. by rewrite last_app, Hx. Qed.

Lemma position_advances (Hp : paged) before page rest cu x :
  position before (page ++ rest) cu -> last page = Some x -> conversationCleanupCursorAfter (cursor_of x) cu = true.
Proof.
  intros Hpos Hx. assert (Hin : x ∈ filter (later cu) all); [|by apply list_elem_of_filter in Hin as [? _]].
  assert (Hpage : filter (later cu) all = page ++ rest).
  { pose proof (paged_identified Hp) as Hid. pose proof (paged_order Hp) as Ho. destruct Hpos as [Hall Hcu]. rewrite Hall in *.
    destruct (last before) as [y|] eqn:El; subst cu.
    - apply last_Some in El as [l ->]. rewrite <- app_assoc in *. by apply filter_rest.
    - apply last_None in El as ->. by apply filter_start. }
  rewrite Hpage. apply elem_of_app. left. by apply last_Some_elem_of.
Qed.

Lemma loop_sweep (Hp : paged) (Hbatch : 0 < batch) fuel st' before rest cu c used :
  position before rest cu -> cu = start_cursor /\ st' = mkState 0 0 \/ st' = st -> (length rest < fuel)%nat ->
  eval h (page_loop fuel p pass st' lease batch c used cu) = Some (sweep c used rest).
Proof.
  revert st' before rest cu c used. induction fuel as [|fuel IH]; intros st' before rest cu c used Hpos Hst Hfuel; [lia|].
  cbn [page_loop]. destruct (Z.ltb_spec used batch) as [_|Hfull]; cbn [negb]; [|by rewrite sweep_full].
  rewrite eval_bind. cbn [eval ask mbind option_bind]. rewrite (paged_context Hp).
  rewrite eval_bind, (paged_select Hp) by done. cbn [mbind option_bind]. rewrite (position_page Hp _ _ _ Hpos).
  pose proof (take_drop (Z.to_nat batch) rest) as Hsplit. pose proof (length_take rest (Z.to_nat batch)) as Hlen.
  remember (take (Z.to_nat batch) rest) as page eqn:Epage. remember (drop (Z.to_nat batch) rest) as more eqn:Emore.
  destruct (last page) as [x|] eqn:El.
  2:{ apply last_None in El as ->. destruct rest as [|y rest]; [done|]. cbn in Hlen. lia. }
  rewrite <- Hsplit in Hpos. rewrite (position_advances Hp _ _ _ _ _ Hpos El). cbn [negb].
  assert (Hsub : page ⊆ all).
  { destruct Hpos as [-> _]. intros y Hy. apply elem_of_app. right. apply elem_of_app. by left. }
  destruct (page_sweep Hp c used page more Hsub) as (c' & used' & e & He & Hsweep).
  rewrite eval_bind, He. cbn [mbind option_bind]. rewrite <- Hsplit, Hsweep. destruct e as [e|]; [done|].
  destruct (Z.ltb_spec (Z.of_nat (length page)) batch) as [Hshort|Hfull].
  - assert (more = []) as -> by (subst more; apply drop_ge; lia). done.
  - apply (IH _ (before ++ page)); [by eapply position_next|by right|]. subst more. rewrite length_drop. lia.
Qed.

(** C25: On a data service that pages through a list of candidates in the order of
    cursors, a policy comes to an end and counts what one walk over the list
    counts, for every batch size: pages skip no candidate and repeat none. *)
Theorem pages_do_not_matter (Hp : paged) (Hbatch : 0 < batch) fuel :
  (length all < fuel)%nat ->
  eval h (runConversationCleanupPolicy fuel p pass lease batch) = Some (sweep no_counts 0 all).
Proof.
  intros Hfuel. unfold runConversationCleanupPolicy. destruct (Z.leb_spec batch 0) as [|_]; [lia|].
  apply (loop_sweep Hp Hbatch _ _ []); [by split|by left|exact Hfuel].
Qed.
End Paging.

(** ** Five conversations, three to a page *)
Module Pages.
#[export] Instance runtime : Runtime := {| Quote s := s; IsDuplicateKey _ := false |}.

Definition roots : list RootCandidate :=
  [mkRoot "a" "" 1; mkRoot "c" "" 1; mkRoot "b" "" 2; mkRoot "d" "" 3; mkRoot "e" "" 3].
Definition all : list candidate := root_candidate <$> roots.
Definition policy : Policy := newInteractivePolicy Day true.
Definition state : pstate := mkState (10 * Day - Day) 0.
Definition lease : Lease := mkLease conversationCleanupLeaseKey "node-1" "token" 0.

(** "c" has had activity since, and "d" fails. *)
Definition result_of (id : string) : option TreeResult * option error :=
  if bool_decide (id = "c") then (Some (mkTree false false "recent_activity" false 0 0), None)
  else if bool_decide (id = "d") then (None, Some (Errorf "database is locked"))
  else (Some (mkTree true true "deleted" false 1 7), None).

Definition service (R : Type) (c : call R) : R :=
  match c in call R return R with
  | ContextErr _ => None
  | PassNow => 10 * Day
  | ListConversations r =>
      Ok (take (Z.to_nat (lc_Limit r))
            (filter (fun x => conversationCleanupCursorAfter (mkCursor (rc_ActivityAt x) (rc_ID x)) (mkCursor (lc_AfterActivity r) (lc_AfterRootID r)) = true) roots))
  | MaintainConversation r => result_of (cr_RootID r)
  | @StoreCall R c => match c in Lease.call R return R with
                      | Snapshot _ => Err (Errorf "")
                      | LoadPrevious _ => Err (Errorf "")
                      | Insert _ _ => None | Update _ _ _ => None | Delete _ _ => None
                      | LocalNow => 0 | NewToken => "" | CtxErr => None | Wait _ => None
                      | ConfiguredDriver => None | TxStart => None
                      | TxEnd e => (e, MaintenanceTx.mkOutcome e [], [])
                      end
  | TryRunning => true
  | StopRunning => tt
  | ContextCause => None
  | CancelLease _ => tt
  | GoRenew _ => tt
  | HeartbeatDone => None
  | SendDone _ => tt
  | RenewTimer _ => false
  | ListRuns _ => Ok []
  | ListOrphans _ => Ok []
  | ListTechnical _ => Ok []
  | MaintainScheduledRun _ => (None, None)
  | MaintainOrphan _ => (None, None)
  | MaintainTechnical _ => (None, None)
  end.

Definition process (x : candidate) : outcome * option error := tree_outcome "conversation cleanup" x (result_of (RootID x)).

Lemma select_page st' cu :
  cu = start_cursor /\ st' = mkState 0 0 \/ st' = state ->
  eval service (SelectCandidates policy None st' cu 3) = Some (Ok (page_after 3 all cu), state).
Proof.
  assert (Hfilter : forall cu (l : list RootCandidate), root_candidate <$> filter (fun x => conversationCleanupCursorAfter (mkCursor (rc_ActivityAt x) (rc_ID x)) cu = true) l
                     = filter (later cu) (root_candidate <$> l)).
  { intros cu' l. induction l as [|x l IH]; [done|]. rewrite fmap_cons, !filter_cons, <- IH. unfold later. by repeat case_decide. }
  intros Hst. assert (Hbegin : eval service (begin_scan policy None cu st') = Some state).
  { unfold begin_scan. case_bool_decide as Hcu; cbn [negb].
    - by destruct Hst as [[-> ->]| ->].
    - destruct Hst as [[-> ->]| ->]; [by destruct Hcu|done]. }
  unfold SelectCandidates. rewrite eval_bind, Hbegin. cbn [mbind option_bind policy newInteractivePolicy].
  rewrite eval_bind. cbn [eval ask mbind prog_bind Effects.bind service option_bind mapped lc_AfterActivity lc_AfterRootID lc_Limit mret prog_ret].
  unfold page_after, all. rewrite <- Hfilter, fmap_take. by destruct cu.
Qed.

Lemma service_paged : paged service policy None lease 3 process all state.
Proof.
  split; [done|apply select_page| | |].
  - intros x Hx. by repeat (apply elem_of_cons in Hx as [->|Hx]; [vm_compute; reflexivity|]).
  - repeat constructor; by vm_compute.
  - repeat constructor; by vm_compute.
Qed.

Lemma counted :
  (fun r => (Scanned r.1, n_Deleted r.1, Skipped r.1, Failed r.1, AffectedRows r.1, r.2)) <$> Some (sweep 3 process no_counts 0 all)
  = Some (5, 3, 1, 1, 21, None).
Proof. vm_compute. reflexivity. Qed.
End Pages.

#[local] Existing Instance Pages.runtime.

Lemma pages_do_not_matter_witness :
  eval Pages.service (runConversationCleanupPolicy 6 Pages.policy None Pages.lease 3)
    = Some (sweep 3 Pages.process no_counts 0 Pages.all)
  /\ (fun r => (Scanned r.1, n_Deleted r.1, Skipped r.1, Failed r.1, AffectedRows r.1, r.2)) <$> Some (sweep 3 Pages.process no_counts 0 Pages.all)
    = Some (5, 3, 1, 1, 21, None).
Proof.
  split; [|exact Pages.counted]. apply (pages_do_not_matter _ _ _ _ _ _ _ _ Pages.service_paged); [lia|vm_compute; lia].
Defined.
