(* ===== verification/LeaseReturns.v ===== *)
(** * An acquisition returns

    The loop of [Acquire] has no bound of its own but the clock of the process: it
    ends five seconds after it started, and waits at least ten milliseconds in
    each turn. With a clock that does not run backwards and counts the waits, 501
    turns are enough, whatever the database answers. *)
From stdpp Require Import base gmap strings list.
From Stdlib Require Import ZArith Lia.
From S2P Require Import Prelude GoStrings Effects GoErrors MaintenanceTx Lease.

Open Scope Z_scope.

(** The clock reads [t] or later. *)
Definition time_answer {R} (t : Z) (c : Lease.call R) : R -> Prop :=
  match c in Lease.call R return R -> Prop with LocalNow => fun r => t <= r | _ => fun _ => True end.
Definition time_next {R} (t : Z) (c : Lease.call R) : R -> Z :=
  match c in Lease.call R return R -> Z with
  | LocalNow => fun r => r
  | Wait d => fun r => match r with None => t + d | Some _ => t end
  | _ => fun _ => t
  end.

(** The program returns, in [Q]. *)
Fixpoint returns {A} (t : Z) (p : Lease.prog A) (Q : A -> Z -> Prop) : Prop :=
  match p with
  | Ret a => Q a t
  | Call c k => forall r, time_answer t c r -> returns (time_next t c r) (k r) Q
  | Spin => False
  end.

Lemma returns_weaken {A} t (p : Lease.prog A) (Q Q' : A -> Z -> Prop) :
  returns t p Q -> (forall a t', Q a t' -> Q' a t') -> returns t p Q'.
Proof.
  intros Hp HQ. revert t Hp. induction p as [a|R c k IH|]; intros t Hp; cbn in *; [by apply HQ| |done].
  intros r Hr. by apply IH, Hp.
Qed.

Lemma returns_bind {A B} t (p : Lease.prog A) (f : A -> Lease.prog B) Q :
  returns t p (fun a t' => returns t' (f a) Q) -> returns t (x ← p; f x) Q.
Proof.
  revert t. unfold mbind, prog_bind. induction p as [a|R c k IH|]; intros t Hp; cbn in *; [done| |done].
  intros r Hr. by apply IH, Hp.
Qed.

Section Returns.
Context `{Runtime}.

(** The store reads and writes without a loop, and takes no time that is counted. *)
Definition returns_at {A} (t : Z) (p : Lease.prog A) : Prop := returns t p (fun _ t' => t' = t).

Lemma returns_at_bind {A B} t (p : Lease.prog A) (f : A -> Lease.prog B) :
  returns_at t p -> (forall a, returns_at t (f a)) -> returns_at t (x ← p; f x).
Proof. intros Hp Hf. apply returns_bind. eapply returns_weaken; [exact Hp|]. intros a t' ->. apply Hf. Qed.

Lemma returns_snapshot t s i : returns_at t (snapshot s i).
Proof. unfold snapshot. by destruct (Invoker s). Qed.

Lemma returns_patch t s i e : returns_at t (patch s i e).
Proof.
  unfold patch. destruct (negb (Invoker s)); [done|]. apply returns_at_bind; [done|]. intros [previous|err]; [|done].
  destruct (Init true i e previous) as [e'|err]; [|done]. destruct (default false (e_ShouldDelete e')); [done|]. by destruct previous.
Qed.

Lemma returns_claim t s key owner ttl now current : returns_at t (claim_lease s key owner ttl now current).
Proof. apply returns_at_bind; [done|]. intros token. apply returns_at_bind; [apply returns_patch|]. by intros [e|]. Qed.

Lemma returns_once t s key owner ttl : returns_at t (acquire_once s key owner ttl).
Proof.
  apply returns_at_bind; [apply returns_at_bind; [apply returns_snapshot|done]|]. intros [now|e]; [|done].
  apply returns_at_bind; [apply returns_at_bind; [apply returns_snapshot|done]|]. intros [[l|]|e]; [|apply returns_claim|done].
  destruct (now <? LeaseUntil l); [done|apply returns_claim].
Qed.

Lemma returns_loop fuel t s key owner ttl deadline delay :
  10 * Millisecond <= delay -> deadline - t <= Z.of_nat fuel * (10 * Millisecond) ->
  returns t (acquire_loop (S fuel) s key owner ttl deadline delay) (fun _ _ => True).
Proof.
  revert t delay. induction fuel as [|fuel IH]; intros t delay Hdelay Htime; apply returns_bind;
    (eapply returns_weaken; [apply returns_once|]); intros [r|lastErr] t' ->; try exact I; apply returns_bind; intros now Hnow;
    cbn [time_answer time_next returns mret prog_ret ask] in *; (destruct (Z.ltb_spec now deadline) as [Hlt|_]; [|exact I]); [lia|].
  cbn [negb]. apply returns_bind. intros [e|] _; [exact I|]. cbn [time_next returns mret prog_ret].
  apply IH; [|lia]. destruct (delay <? 100 * Millisecond); lia.
Qed.

(** Whatever the database answers, an acquisition returns. *)
Lemma Acquire_returns fuel t s key owner ttl :
  (500 < fuel)%nat -> returns t (Acquire fuel s key owner ttl) (fun _ _ => True).
Proof.
  intros Hfuel. destruct fuel as [|fuel]; [lia|]. unfold Acquire. destruct (_ || _ || _); [exact I|].
  apply returns_bind. intros started Hstarted. cbn [time_next returns mret prog_ret].
  apply returns_loop; [done|]. unfold Second, Millisecond. lia.
Qed.
End Returns.
