(* ===== verification/Supersession.v ===== *)
(** * Superseded tool calls

    src/service/agent/supersession.go, src/runtime/projection/context.go, the
    limits of src/app/executor/config/default.go and the part of
    buildChronologicalHistory (src/service/agent/binding_history.go) that removes
    messages from the prompt: repeated instructions of the user in the current
    turn, and results of cacheable tools that a later call with the same
    arguments has superseded. *)
From stdpp Require Import base gmap strings list sorting.
From Stdlib Require Import ZArith Lia Ascii.
From S2P Require Import Prelude GoStrings Digest GoJson JsonQuote JsonValue JsonCodec.

Open Scope Z_scope.

(** ** Messages

    Of a message, what this code reads: the first tool call (with the arguments
    that [ToolCallArguments] decodes, their numbers as encoding/json prints them),
    the content of [GetContent], and whether it has an attachment. *)
Record ToolCall := mkToolCall { ToolName : string; TraceId : option string; Arguments : Object }.
Record Message := mkMessage {
  Id : string; Role : string; Type_ : string; TurnId : option string; Content : string;
  Call : option ToolCall; AttachmentPayloadId : option string; Attachments : nat }.
Record normalizedMsg := mkNormalized { turnIdx : Z; msg : option Message }.

Definition messageToolCall (m : option Message) : option ToolCall := m ≫= Call.
Definition toolCallArgs (m : option Message) : Object := match messageToolCall m with Some c => Arguments c | None => [] end.

(** ** Configuration *)
Record SupersessionLimit := mkLimit { History : option Z; Turn : option Z }.
Record ToolCallSupersession := mkSupersession { Enabled : option bool; Limit : option SupersessionLimit }.
(** The projection settings, when there are any, with their part on supersession. *)
Definition Projection : Type := option (option ToolCallSupersession).

Definition IsSupersessionEnabled (p : Projection) : bool :=
  match p with Some (Some s) => default true (Enabled s) | _ => true end.
Definition SupersessionHistoryLimit (p : Projection) : Z := 
  match p with Some (Some s) => default 1 (Limit s ≫= History) | _ => 1 end.
Definition SupersessionTurnLimit (p : Projection) : Z := 
  match p with Some (Some s) => default 2 (Limit s ≫= Turn) | _ => 2 end.

(** The registry: the definition of a tool, when there is one, by its [Cacheable]. *)
Definition Registry : Type := option (string -> option bool).
Definition isToolCacheable (reg : Registry) (name : string) : bool :=
  match reg with Some get => default false (get name) | None => false end.

(** ** Keys *)

(** [sortedMapJSON] copies the maps below a map. *)
Fixpoint sorted_value (v : json) : json :=
  match v with JObject o => JObject ((fun m => (m.1, sorted_value m.2)) <$> o) | v => v end.
Definition sortedMapJSON (o : Object) : Object := (fun m => (m.1, sorted_value m.2)) <$> o.

Definition canonicalArgsJSON (args : Object) : string :=
  if bool_decide (args = []) then "{}" else json_print (JObject (sortedMapJSON args)).

Definition supersessionKey (toolName : string) (args : Object) : string :=
  md5_hex (TrimSpace toolName +:+ "|" +:+ canonicalArgsJSON args).

(** ** Superseded calls *)
Record keyEntry := mkEntry { idx : nat; key : string }.

(** The entry of message number [i]: a call of a cacheable tool. *)
Definition entry_of (reg : Registry) (i : nat) (x : normalizedMsg) : option keyEntry :=
  match messageToolCall (msg x) with
  | None => None
  | Some c =>
      let name := TrimSpace (ToolName c) in
      if bool_decide (name = "") then None
      else if isToolCacheable reg name then Some (mkEntry i (supersessionKey name (toolCallArgs (msg x)))) else None
  end.

(** The entries of the current turn ([true]) or of the earlier ones. *)
Definition entries (reg : Registry) (current : Z) (now : bool) (normalized : list normalizedMsg) : list keyEntry :=
  omap (fun p => if bool_decide (turnIdx p.2 = current) && now || negb (bool_decide (turnIdx p.2 = current)) && negb now
                 then entry_of reg p.1 p.2 else None) (imap pair normalized).

Definition groupByKey (es : list keyEntry) : gmap string (list keyEntry) :=
  foldl (fun m e => <[key e := default [] (m !! key e) ++ [e]]> m) ∅ es.

Definition idx_le (a b : keyEntry) : Prop := (idx a <= idx b)%nat.
#[export] Instance idx_le_dec a b : Decision (idx_le a b).
Proof. unfold idx_le. apply _. Defined.

(** The indices of one group beyond its limit. A negative limit asks for more
    entries than the group has: that is a panic, or entries of index 0 when the
    slice happens to have the capacity, which the language leaves open; here it is
    [None] in both cases. *)
Definition beyond (limit : Z) (es : list keyEntry) : option (list nat) :=
  if Z.of_nat (length es) <=? limit then Some [] else
  let cutoff := Z.of_nat (length es) - limit in
  if Z.of_nat (length es) <? cutoff then None
  else Some (idx <$> take (Z.to_nat cutoff) (merge_sort idx_le es)).

(** The groups are visited in some order of the map; here, that of [map_to_list]. *)
Definition suppress_groups (limit : Z) (es : list keyEntry) : option (gset nat) :=
  foldr (fun g acc => s ← acc; l ← beyond limit g.2; Some (list_to_set l ∪ s)) (Some ∅) (map_to_list (groupByKey es)).

Definition collectSuppressedIndices (normalized : list normalizedMsg) (current : Z) (reg : Registry) (p : Projection) : option (gset nat) :=
  if negb (IsSupersessionEnabled p) then Some ∅ else
  history ← suppress_groups (SupersessionHistoryLimit p) (entries reg current false normalized);
  turn ← suppress_groups (SupersessionTurnLimit p) (entries reg current true normalized);
  Some (history ∪ turn).

(** ** Hidden messages *)
Definition estimateProjectionTokens (m : option Message) : Z :=
  match m with
  | None => 0
  | Some m =>
      let text := TrimSpace (Content m) in
      let n := Z.of_nat (String.length text) in
      if bool_decide (text = "") then 0 else if n <? 8 then 1 else (n + 3) / 4
  end.

Definition message_id (x : normalizedMsg) : string := TrimSpace (default "" (Id <$> msg x)).

(** The identifiers to hide, and the tokens that are freed. *)
Definition collectHiddenMessageIDs (normalized : list normalizedMsg) (current : Z) (reg : Registry) (p : Projection) (protected : gset nat)
    : option (list string * Z) :=
  suppress ← collectSuppressedIndices normalized current reg p;
  Some (foldl (fun acc '(i, x) =>
          if bool_decide (i ∉ suppress) || bool_decide (i ∈ protected) || bool_decide (message_id x = "") then acc
          else (acc.1 ++ [message_id x], acc.2 + estimateProjectionTokens (msg x)))
        ([], 0) (imap pair normalized)).

Definition applyToolCallSupersession (normalized : list normalizedMsg) (current : Z) (reg : Registry) (p : Projection) : option (list normalizedMsg) :=
  suppress ← collectSuppressedIndices normalized current reg p;
  Some (snd <$> filter (fun '(i, _) => i ∉ suppress) (imap pair normalized)).

Definition isConcreteToolResultMessage (m : Message) : bool :=
  bool_decide (ToLower (TrimSpace (Role m)) = "tool") || bool_decide (ToLower (TrimSpace (Type_ m)) = "tool_op").

(** The results that belong to the response a provider continues from. *)
Definition protects (anchor : string) (x : normalizedMsg) : bool :=
  match msg x with
  | None => false
  | Some m =>
      isConcreteToolResultMessage m
      && match Call m ≫= TraceId with Some t => bool_decide (TrimSpace t = anchor) | None => false end
  end.
Definition protectedContinuationToolResultIndices (normalized : list normalizedMsg) (anchorID : string) : gset nat :=
  let anchor := TrimSpace anchorID in
  if bool_decide (anchor = "") then ∅
  else list_to_set (fst <$> filter (fun p => protects anchor p.2 = true) (imap pair normalized)).

(** ** The projection of a request (runtime/projection) *)
Record ContextProjection := mkProjection {
  Scope : string; HiddenTurnIDs : list string; HiddenMessageIDs : list string; Reason : string; TokensFreed : Z }.

(** The texts that are not blank, trimmed. *)
Definition trimmed (ids : list string) : list string := filter (fun s => s <> "") (TrimSpace <$> ids).

(** [appendUniqueStrings] and [appendUniqueProjectionIDs]. *)
Fixpoint append_unique (seen : gset string) (dst values : list string) : list string :=
  match values with
  | [] => dst
  | raw :: values =>
      let k := TrimSpace raw in
      if bool_decide (k = "") || bool_decide (k ∈ seen) then append_unique seen dst values
      else append_unique ({[k]} ∪ seen) (dst ++ [k]) values
  end.
Definition appendUniqueStrings (dst values : list string) : list string := append_unique (list_to_set (trimmed dst)) dst values.

Definition SetScope (scope : string) (p : ContextProjection) : ContextProjection :=
  mkProjection (TrimSpace scope) (HiddenTurnIDs p) (HiddenMessageIDs p) (Reason p) (TokensFreed p).
Definition HideTurns (ids : list string) (p : ContextProjection) : ContextProjection :=
  mkProjection (Scope p) (appendUniqueStrings (HiddenTurnIDs p) ids) (HiddenMessageIDs p) (Reason p) (TokensFreed p).
Definition HideMessages (ids : list string) (p : ContextProjection) : ContextProjection :=
  mkProjection (Scope p) (HiddenTurnIDs p) (appendUniqueStrings (HiddenMessageIDs p) ids) (Reason p) (TokensFreed p).
Definition set_reason (r : string) (p : ContextProjection) : ContextProjection :=
  mkProjection (Scope p) (HiddenTurnIDs p) (HiddenMessageIDs p) r (TokensFreed p).
Definition SetReason (reason : string) (p : ContextProjection) : ContextProjection :=
  let reason := TrimSpace reason in if bool_decide (reason = "") then p else set_reason reason p.
Definition AddReason (reason : string) (p : ContextProjection) : ContextProjection :=
  let reason := TrimSpace reason in
  if bool_decide (reason = "") then p else
  let existing := TrimSpace (Reason p) in
  if bool_decide (existing = "") then set_reason reason p
  else if EqualFold existing reason || Contains existing reason then p
  else set_reason (existing +:+ "; " +:+ reason) p.
Definition AddTokensFreed (n : Z) (p : ContextProjection) : ContextProjection :=
  mkProjection (Scope p) (HiddenTurnIDs p) (HiddenMessageIDs p) (Reason p) (TokensFreed p + n).

(** Whether a projection hides a message. *)
Definition hides (turns messages : list string) (m : Message) : bool :=
  match TurnId m with
  | Some t => let t := TrimSpace t in negb (bool_decide (t = "")) && bool_decide (t ∈ turns)
  | None => false
  end
  || (let i := TrimSpace (Id m) in negb (bool_decide (i = "")) && bool_decide (i ∈ messages)).

Definition applyProjectionToNormalized (normalized : list normalizedMsg) (p : ContextProjection) : list normalizedMsg :=
  let turns := trimmed (HiddenTurnIDs p) in
  let messages := trimmed (HiddenMessageIDs p) in
  if bool_decide (turns = []) && bool_decide (messages = []) then normalized
  else filter (fun x => match msg x with None => false | Some m => negb (hides turns messages m) end = true) normalized.

(** ** The history of a prompt *)
Definition newline : list ascii := bytes_of_nats [10%nat].

(** [normalizeUserTaskContent]: the text below a line that starts with "Task:". *)
Definition normalizeUserTaskContent (s : string) : string :=
  let s := TrimSpace s in
  let lower := ToLower s in
  if bool_decide (s = "") then ""
  else if negb (HasPrefix lower "task:") && negb (Contains lower (text newline)) then s
  else
    match cut newline (bytes s) with
    | None => if HasPrefix (ToLower (TrimSpace s)) "task:" then "" else s
    | Some (first, rest) => if HasPrefix (ToLower (TrimSpace (text first))) "task:" then TrimSpace (text rest) else s
    end.

Definition isAttachmentCarrier (m : Message) : bool :=
  EqualFold (TrimSpace (Type_ m)) "control" && negb (bool_decide (is_Some (Call m)))
  && (match AttachmentPayloadId m with Some a => negb (bool_decide (TrimSpace a = "")) | None => false end
      || negb (bool_decide (Attachments m = 0%nat))).

(** The position of the current turn among the turns of the transcript, by the
    identifiers of those that are not nil. *)
Fixpoint turn_index (i : Z) (turns : list (option string)) (current : string) : Z :=
  match turns with
  | [] => -1
  | t :: turns =>
      match t with
      | Some t => if bool_decide (TrimSpace t = current) then i else turn_index (i + 1) turns current
      | None => turn_index (i + 1) turns current
      end
  end.
Definition currentIndex (turns : list (option string)) (currentTurnID : string) : Z :=
  let current := TrimSpace currentTurnID in if bool_decide (current = "") then -1 else turn_index 0 turns current.

(** The instructions of the user in the current turn. *)
Definition user_task (current : Z) (x : normalizedMsg) : option string :=
  match msg x with
  | Some m => if bool_decide (turnIdx x = current) && bool_decide (ToLower (TrimSpace (Role m)) = "user") && negb (isAttachmentCarrier m)
              then Some (normalizeUserTaskContent (Content m)) else None
  | None => None
  end.

(** An earlier instruction with the text of the last one is dropped. *)
Definition dedupeUserTasks (current : Z) (normalized : list normalizedMsg) : list normalizedMsg :=
  if current =? -1 then normalized else
  let tasks := omap (fun p => pair p.1 <$> user_task current p.2) (imap pair normalized) in
  match last tasks with
  | Some (i, lastText) =>
      if bool_decide (length tasks <= 1)%nat || bool_decide (lastText = "") then normalized
      else snd <$> filter (fun p => ~ ((p.1 < i)%nat /\ user_task current p.2 = Some lastText)) (imap pair normalized)
  | None => normalized
  end.

Definition supersession_reason : string := "tool call supersession".

(** The projection after messages are hidden, without a state in the context. *)
Definition hide_locally (hidden : list string) (freed : Z) (p : ContextProjection) : ContextProjection :=
  mkProjection (Scope p) (HiddenTurnIDs p) (appendUniqueStrings (HiddenMessageIDs p) hidden)
    (if bool_decide (Reason p = "") then supersession_reason
     else if Contains (Reason p) supersession_reason then Reason p else Reason p +:+ "; " +:+ supersession_reason)
    (TokensFreed p + freed).
Definition hide_in_state (hidden : list string) (freed : Z) (p : ContextProjection) : ContextProjection :=
  AddTokensFreed freed (AddReason supersession_reason (HideMessages hidden p)).

(** The step of [buildChronologicalHistory] in scope "conversation": [state] is the
    projection of the context when it has one, [anchor] the response to continue. *)
Definition supersede (normalized : list normalizedMsg) (current : Z) (reg : Registry) (config : Projection) (anchor : string)
    (state : option ContextProjection) (projection : ContextProjection) : option (list normalizedMsg * ContextProjection) :=
  if negb (EqualFold (TrimSpace (Scope projection)) "conversation") || match reg with None => true | Some _ => false end
  then Some (normalized, projection) else
  '(hidden, freed) ← collectHiddenMessageIDs normalized current reg config (protectedContinuationToolResultIndices normalized anchor);
  if bool_decide (length hidden = 0%nat) then Some (normalized, projection) else
  let projection := match state with Some p => hide_in_state hidden freed p | None => hide_locally hidden freed projection end in
  Some (applyProjectionToNormalized normalized projection, projection).
