(* ===== verification/SupersessionProps.v ===== *)
(** * What supersession removes

    A result of a cacheable tool leaves the prompt exactly when at least as many
    later calls as the limit of its scope have the same tool and the same
    arguments, unless the provider still needs it; nothing else is removed. *)
From stdpp Require Import base gmap strings list sorting fin_maps.
From Stdlib Require Import ZArith Lia Ascii.
From S2P Require Import Prelude GoStrings Digest GoJson JsonQuote JsonValue JsonCodec Supersession.

Open Scope Z_scope.

(** ** Entries in order *)
Definition idx_lt (a b : keyEntry) : Prop := (idx a < idx b)%nat.

Lemma omap_imap_sorted {A} (f : nat * A -> option keyEntry) k l :
  (forall i x e, f (i, x) = Some e -> idx e = i) ->
  StronglySorted idx_lt (omap f (imap (fun n => pair (k + n)%nat) l))
  /\ Forall (fun e => (k <= idx e)%nat) (omap f (imap (fun n => pair (k + n)%nat) l)).
Proof.
  intros Hf. revert k. induction l as [|x l IH]; intros k; [split; constructor|].
  rewrite imap_cons. cbn [omap list_omap].
  assert (E : imap ((fun n => pair (k + n)%nat) ∘ S) l = imap (fun n => pair (S k + n)%nat) l).
  { apply imap_ext. intros i y _. cbn. f_equal. lia. }
  rewrite E. destruct (IH (S k)) as [Hs Hge].
  assert (Hge' : Forall (fun e => (k <= idx e)%nat) (omap f (imap (fun n => pair (S k + n)%nat) l))).
  { eapply Forall_impl; [exact Hge|]. cbn. lia. }
  destruct (f ((k + 0)%nat, x)) as [e|] eqn:Ee; [|done]. apply Hf in Ee.
  split; [|constructor; [lia|done]]. constructor; [exact Hs|]. eapply Forall_impl; [exact Hge|].
  intros e' He'. unfold idx_lt. cbn in He'. lia.
Qed.

Lemma entry_idx reg i x e : entry_of reg i x = Some e -> idx e = i.
Proof. unfold entry_of. repeat case_match; by intros [= <-] || intros. Qed.

Lemma entries_sorted reg current now l : StronglySorted idx_lt (entries reg current now l).
Proof.
  unfold entries. edestruct (omap_imap_sorted (fun p => if bool_decide (turnIdx p.2 = current) && now || negb (bool_decide (turnIdx p.2 = current)) && negb now
                 then entry_of reg p.1 p.2 else None) 0 l) as [Hs _]; [|exact Hs].
  intros i x e. cbn. destruct (_ || _); [apply entry_idx|done].
Qed.

Lemma entries_spec reg current now l e :
  e ∈ entries reg current now l <->
  exists x, l !! idx e = Some x /\ entry_of reg (idx e) x = Some e /\ now = bool_decide (turnIdx x = current).
Proof.
  unfold entries. rewrite list_elem_of_omap. split.
  - intros ([i x] & Hin & He). apply elem_of_lookup_imap in Hin as (i' & x' & [= -> ->] & Hl). cbn [fst snd] in He.
    assert (E : entry_of reg i' x' = Some e /\ now = bool_decide (turnIdx x' = current)).
    { destruct (bool_decide _), now; cbn in He; done. }
    destruct E as [E ->]. pose proof (entry_idx _ _ _ _ E) as <-. by exists x'.
  - intros (x & Hl & He & ->). exists (idx e, x). split; [apply elem_of_lookup_imap; by eexists _, _|].
    cbn [fst snd]. by destruct (bool_decide _).
Qed.

(** ** Groups *)
Definition of_key (k : string) (es : list keyEntry) : list keyEntry := filter (fun e => key e = k) es.

Lemma group_lookup es k : groupByKey es !! k = if decide (of_key k es = []) then None else Some (of_key k es).
Proof.
  unfold groupByKey, of_key. induction es as [|e es IH] using rev_ind; [done|].
  rewrite foldl_snoc. cbn. set (m := foldl _ _ es) in *. rewrite filter_app.
  destruct (decide (key e = k)) as [<-|Hne].
  - rewrite lookup_insert_eq, IH, filter_cons_True by done. rewrite filter_nil.
    rewrite (decide_False (P := _ ++ [_] = [])) by by intros [_ [=]]%app_eq_nil.
    case_decide as E; [by rewrite E|done].
  - rewrite lookup_insert_ne, IH, filter_cons_False by done. by rewrite filter_nil, app_nil_r.
Qed.

Lemma sorted_group es k : StronglySorted idx_lt es -> StronglySorted idx_lt (of_key k es).
Proof.
  intros Hs. unfold of_key. induction Hs as [|e es Hs IH He]; [constructor|]. rewrite filter_cons. case_decide; [|done].
  constructor; [exact IH|]. rewrite Forall_forall in *. intros f Hf. apply list_elem_of_filter in Hf as [_ Hf]. by apply He.
Qed.

Lemma sorted_lookup es i j e f : StronglySorted idx_lt es -> (i < j)%nat -> es !! i = Some e -> es !! j = Some f -> idx_lt e f.
Proof.
  intros Hs Hij He Hf. rewrite <- (take_drop_middle es i e He) in Hs. apply StronglySorted_app in Hs as (_ & _ & Hs).
  apply StronglySorted_cons in Hs as [Hall _]. rewrite Forall_forall in Hall. apply Hall.
  apply list_elem_of_lookup. exists (j - S i)%nat. rewrite lookup_drop. by replace (S i + (j - S i))%nat with j by lia.
Qed.

Lemma sorted_inj es e f : StronglySorted idx_lt es -> e ∈ es -> f ∈ es -> idx e = idx f -> e = f.
Proof.
  intros Hs [i Hi]%list_elem_of_lookup [j Hj]%list_elem_of_lookup E.
  destruct (Nat.lt_trichotomy i j) as [H|[->|H]]; [|congruence|].
  - pose proof (sorted_lookup _ _ _ _ _ Hs H Hi Hj) as Hl. unfold idx_lt in Hl. lia.
  - pose proof (sorted_lookup _ _ _ _ _ Hs H Hj Hi) as Hl. unfold idx_lt in Hl. lia.
Qed.

#[export] Instance idx_le_total : Total idx_le.
Proof. intros a b. unfold idx_le. lia. Qed.
#[export] Instance idx_le_trans : Transitive idx_le.
Proof. intros a b c. unfold idx_le. lia. Qed.

Lemma sort_group es : StronglySorted idx_lt es -> merge_sort idx_le es = es.
Proof.
  intros Hs. apply (StronglySorted_unique_strong idx_le); [|by apply StronglySorted_merge_sort; apply _| |apply merge_sort_Permutation].
  - intros e f He Hf. rewrite merge_sort_Permutation in He. unfold idx_le. intros. eapply sorted_inj; [exact Hs|done|done|lia].
  - induction Hs as [|e es Hs IH He]; constructor; [exact IH|]. eapply Forall_impl; [exact He|]. unfold idx_lt, idx_le. lia.
Qed.

(** The entries with enough others after them. *)
Definition later_entries (e : keyEntry) (es : list keyEntry) : list keyEntry := filter (fun f => (idx e < idx f)%nat /\ key f = key e) es.

Lemma later_in_group es e :
  StronglySorted idx_lt es -> e ∈ es ->
  exists n, es !! n = Some e /\ length (filter (fun f => (idx e < idx f)%nat) es) = (length es - n - 1)%nat.
Proof.
  intros Hs He. apply list_elem_of_split in He as (l1 & l2 & ->). exists (length l1).
  split; [by rewrite lookup_app_r, Nat.sub_diag|]. apply StronglySorted_app in Hs as (Hlt & _ & Hs).
  apply StronglySorted_cons in Hs as [Hl2 _].
  assert (H1 : filter (fun f => (idx e < idx f)%nat) l1 = []).
  { clear Hl2. induction l1 as [|x l1 IH]; [done|]. rewrite filter_cons_False, IH; [done| |].
    - intros y z Hy Hz. apply Hlt; [by right|done].
    - specialize (Hlt x e ltac:(by left) ltac:(by left)). unfold idx_lt in Hlt. lia. }
  assert (H2 : filter (fun f => (idx e < idx f)%nat) l2 = l2).
  { clear -Hl2. induction Hl2 as [|x l2 Hx _ IH]; [done|]. rewrite filter_cons_True, IH; done. }
  rewrite filter_app, H1, filter_cons_False, H2 by lia. cbn. rewrite length_app. cbn. lia.
Qed.

Lemma elem_of_take_sorted es e n m :
  StronglySorted idx_lt es -> es !! n = Some e -> e ∈ take m es <-> (n < m)%nat.
Proof.
  intros Hs Hn. rewrite list_elem_of_lookup. split.
  - intros [j Hj]. apply lookup_take_Some in Hj as [Hj Hlt].
    destruct (Nat.lt_trichotomy j n) as [H|[->|H]]; [|lia|].
    + pose proof (sorted_lookup _ _ _ _ _ Hs H Hj Hn) as Hi. unfold idx_lt in Hi. lia.
    + pose proof (sorted_lookup _ _ _ _ _ Hs H Hn Hj) as Hi. unfold idx_lt in Hi. lia.
  - intros Hlt. exists n. by apply lookup_take_Some.
Qed.

(** The entries after [e] with its key. *)
Definition after (e : keyEntry) (es : list keyEntry) : list keyEntry :=
  filter (fun f => (idx e < idx f)%nat /\ key f = key e) es.

Lemma filter_and {A} (P Q : A -> Prop) `{!forall x, Decision (P x), !forall x, Decision (Q x)} (l : list A) :
  filter (fun x => P x /\ Q x) l = filter P (filter Q l).
Proof.
  induction l as [|x l IH]; [done|]. rewrite !filter_cons.
  repeat case_decide; rewrite ?filter_cons; repeat case_decide; rewrite ?IH; naive_solver.
Qed.

Lemma elem_of_take_in {A} n (l : list A) x : x ∈ take n l -> x ∈ l.
Proof. intros [i Hi]%list_elem_of_lookup. apply lookup_take_Some in Hi as [Hi _]. by eapply list_elem_of_lookup_2. Qed.

Lemma beyond_spec limit es e :
  0 <= limit -> StronglySorted idx_lt es -> e ∈ es ->
  exists l, beyond limit (of_key (key e) es) = Some l
    /\ (idx e ∈ l <-> limit <= Z.of_nat (length (after e es))).
Proof.
  intros Hl Hs He. unfold beyond, after. rewrite filter_and. fold (of_key (key e) es).
  assert (Hg : StronglySorted idx_lt (of_key (key e) es)) by by apply sorted_group.
  assert (Hin : e ∈ of_key (key e) es) by by apply list_elem_of_filter.
  destruct (later_in_group _ _ Hg Hin) as (n & Hn & ->). set (g := of_key (key e) es) in *.
  pose proof (lookup_lt_Some _ _ _ Hn). destruct (Z.leb_spec (Z.of_nat (length g)) limit).
  { eexists. split; [done|]. rewrite elem_of_nil. lia. }
  destruct (Z.ltb_spec (Z.of_nat (length g)) (Z.of_nat (length g) - limit)); [lia|].
  eexists. split; [done|]. rewrite sort_group by done. rewrite list_elem_of_fmap.
  transitivity (e ∈ take (Z.to_nat (Z.of_nat (length g) - limit)) g).
  - split; [|by exists e]. intros (f & Hi & Hf). assert (f ∈ g) as Hfg by by eapply elem_of_take_in.
    by rewrite (sorted_inj g e f Hg Hin Hfg Hi).
  - rewrite elem_of_take_sorted by done. lia.
Qed.

(** ** The indices to suppress *)
Lemma beyond_defined limit es : 0 <= limit -> is_Some (beyond limit es).
Proof. intros Hl. unfold beyond. destruct (_ <=? _) eqn:E; [by eexists|]. destruct (_ <? _) eqn:E'; [lia|by eexists]. Qed.

Lemma fold_beyond limit (gs : list (string * list keyEntry)) :
  0 <= limit ->
  exists S, foldr (fun g acc => s ← acc; l ← beyond limit g.2; Some (list_to_set l ∪ s)) (Some ∅) gs = Some S
    /\ forall i, i ∈ (S : gset nat) <-> exists g l, g ∈ gs /\ beyond limit g.2 = Some l /\ i ∈ l.
Proof.
  intros Hl. induction gs as [|g gs (S & E & HS)]; cbn [foldr].
  - exists ∅. split; [done|]. intros i. split; [set_solver|]. intros (g & l & Hg & _). by apply elem_of_nil in Hg.
  - rewrite E. cbn. destruct (beyond_defined limit g.2 Hl) as [l El]. rewrite El. cbn. eexists. split; [done|].
    intros i. rewrite elem_of_union, elem_of_list_to_set, HS. setoid_rewrite elem_of_cons. naive_solver.
Qed.

Lemma beyond_sub limit es l i : beyond limit es = Some l -> i ∈ l -> exists e, e ∈ es /\ idx e = i.
Proof.
  unfold beyond. repeat case_match; intros [= <-]; [by intros ?%elem_of_nil|]. intros (e & -> & He)%list_elem_of_fmap.
  exists e. split; [|done]. apply elem_of_take_in in He. by rewrite merge_sort_Permutation in He.
Qed.

Lemma suppress_groups_spec limit es :
  0 <= limit -> StronglySorted idx_lt es ->
  exists S, suppress_groups limit es = Some S
    /\ forall i, i ∈ S <-> exists e, e ∈ es /\ idx e = i /\ limit <= Z.of_nat (length (after e es)).
Proof.
  intros Hl Hs. destruct (fold_beyond limit (map_to_list (groupByKey es)) Hl) as (S & E & HS).
  exists S. split; [exact E|]. intros i. rewrite HS. clear S E HS.
  assert (Hg : forall k g, (k, g) ∈ map_to_list (groupByKey es) <-> g = of_key k es /\ g <> []).
  { intros k g. rewrite elem_of_map_to_list, group_lookup. case_decide; naive_solver. }
  split.
  - intros ([k g] & l & Hin & Hb & Hi). apply Hg in Hin as [-> _]. cbn in Hb.
    destruct (beyond_sub _ _ _ _ Hb Hi) as (e & [<- He]%list_elem_of_filter & <-). exists e. split_and!; [done..|].
    destruct (beyond_spec limit es e Hl Hs He) as (l' & Hb' & H). rewrite Hb in Hb'. injection Hb' as <-. by apply H.
  - intros (e & He & <- & Hn). destruct (beyond_spec limit es e Hl Hs He) as (l & Hb & H).
    exists (key e, of_key (key e) es), l. split_and!; [|done|by apply H]. apply Hg. split; [done|].
    intros E. assert (e ∈ of_key (key e) es) as Hin by by apply list_elem_of_filter. rewrite E in Hin. by apply elem_of_nil in Hin.
Qed.

(** ** The groups of one key

    Of message number [i] with a call of a cacheable tool: the messages after it,
    on the same side of the current turn, with the same key. *)
Definition call_key (reg : Registry) (x : normalizedMsg) : option string := key <$> entry_of reg 0 x.
Definition side (current : Z) (x : normalizedMsg) : bool := bool_decide (turnIdx x = current).
Definition key_repeats (reg : Registry) (current : Z) (l : list normalizedMsg) (i : nat) (x : normalizedMsg) (k : string) : list normalizedMsg :=
  filter (fun y => side current y = side current x /\ call_key reg y = Some k) (drop (S i) l).
Definition limit_of (config : Projection) (current : Z) (x : normalizedMsg) : Z :=
  if side current x then SupersessionTurnLimit config else SupersessionHistoryLimit config.

(** [entries] with the conditions on the side as one. *)
Definition pick (reg : Registry) (current : Z) (now : bool) (p : nat * normalizedMsg) : option keyEntry :=
  if decide (side current p.2 = now) then entry_of reg p.1 p.2 else None.

Lemma entries_pick reg current now l : entries reg current now l = omap (pick reg current now) (imap pair l).
Proof.
  unfold entries. induction (imap pair l) as [|[i x] ps IH]; [done|]. cbn [omap list_omap]. rewrite IH.
  unfold pick, side. cbn. by destruct (bool_decide _), now.
Qed.

Lemma entry_key reg i x e : entry_of reg i x = Some e -> call_key reg x = Some (key e).
Proof. unfold call_key, entry_of. repeat case_match; intros [= <-]; done. Qed.

Lemma key_entry reg i x k : call_key reg x = Some k -> entry_of reg i x = Some (mkEntry i k).
Proof. unfold call_key, entry_of. repeat case_match; cbn; congruence. Qed.

Lemma pick_count reg current now n l k :
  length (filter (fun f => key f = k) (omap (pick reg current now) (imap (fun m => pair (n + m)%nat) l)))
  = length (filter (fun y => side current y = now /\ call_key reg y = Some k) l).
Proof.
  revert n. induction l as [|x l IH]; intros n; [done|]. rewrite imap_cons.
  assert (E : imap ((fun m => pair (n + m)%nat) ∘ S) l = imap (fun m => pair (S n + m)%nat) l).
  { apply imap_ext. intros i y _. cbn. f_equal. lia. }
  rewrite E, filter_cons. cbn [omap list_omap]. unfold pick at 1. cbn [fst snd].
  destruct (decide (side current x = now)) as [Hs|Hs]; [|rewrite decide_False by naive_solver; apply IH].
  destruct (entry_of reg (n + 0) x) as [e|] eqn:Ee.
  - apply entry_key in Ee. rewrite filter_cons. destruct (decide (key e = k)) as [<-|Hk].
    + rewrite decide_True by done. cbn [length]. by rewrite IH.
    + rewrite decide_False by naive_solver. apply IH.
  - rewrite decide_False; [apply IH|]. intros [_ Hk]. apply (key_entry _ (n + 0)) in Hk. congruence.
Qed.

Lemma pick_range reg current now n l e :
  e ∈ omap (pick reg current now) (imap (fun m => pair (n + m)%nat) l) -> (n <= idx e < n + length l)%nat.
Proof.
  intros ([i x] & Hin & He)%list_elem_of_omap. apply elem_of_lookup_imap in Hin as (j & y & [= -> ->] & Hl).
  unfold pick in He. case_decide; [|done]. apply entry_idx in He. cbn in He. apply lookup_lt_Some in Hl. lia.
Qed.

Lemma filter_none {A} (P : A -> Prop) `{!forall x, Decision (P x)} (l : list A) : (forall x, x ∈ l -> ~ P x) -> filter P l = [].
Proof. intros Hl. induction l as [|x l IH]; [done|]. rewrite filter_cons_False; [apply IH; intros y Hy; apply Hl; by right|apply Hl; by left]. Qed.
Lemma filter_all {A} (P : A -> Prop) `{!forall x, Decision (P x)} (l : list A) : (forall x, x ∈ l -> P x) -> filter P l = l.
Proof. intros Hl. induction l as [|x l IH]; [done|]. rewrite filter_cons_True; [f_equal; apply IH; intros y Hy; apply Hl; by right|apply Hl; by left]. Qed.

Lemma filter_ext_in {A} (P Q : A -> Prop) `{!forall x, Decision (P x), !forall x, Decision (Q x)} (l : list A) :
  (forall x, x ∈ l -> P x <-> Q x) -> filter P l = filter Q l.
Proof.
  intros Hl. induction l as [|x l IH]; [done|]. rewrite !filter_cons, IH by (intros y Hy; apply Hl; by right).
  pose proof (Hl x ltac:(by left)). repeat case_decide; tauto.
Qed.

Lemma imap_shift {A B} (f : nat -> A -> B) (a b : list A) : imap f (a ++ b) = imap f a ++ imap (fun m => f (length a + m)%nat) b.
Proof. rewrite imap_app. f_equal. Qed.

(** The entries after a call are those of its key. *)
Lemma after_key_repeats reg current l x e :
  l !! idx e = Some x ->
  length (after e (entries reg current (side current x) l)) = length (key_repeats reg current l (idx e) x (key e)).
Proof.
  intros Hl. unfold after. rewrite filter_and, entries_pick.
  pose proof (lookup_lt_Some _ _ _ Hl) as Hlt. set (n := S (idx e)).
  assert (Ht : length (take n l) = n) by (rewrite length_take; lia).
  rewrite <- (take_drop n l) at 1. rewrite imap_shift, omap_app, Ht, filter_app, filter_app.
  rewrite (filter_none _ (filter _ (omap _ (imap pair (take n l))))).
  2: { intros f [_ Hf]%list_elem_of_filter. apply (pick_range reg current _ 0) in Hf. rewrite Ht in Hf. lia. }
  rewrite filter_all by (intros f [_ Hf]%list_elem_of_filter; apply pick_range in Hf; lia).
  cbn [app]. apply pick_count.
Qed.

(** ** Which indices are suppressed *)
Section Suppressed.
Context (reg : Registry) (config : Projection) (current : Z) (l : list normalizedMsg).
Hypothesis limits : 0 <= SupersessionHistoryLimit config /\ 0 <= SupersessionTurnLimit config.

Lemma entry_of_side now e :
  e ∈ entries reg current now l <-> exists x, l !! idx e = Some x /\ side current x = now /\ call_key reg x = Some (key e).
Proof.
  rewrite entries_spec. unfold side. split; intros (x & Hl & H).
  - exists x. destruct H as [He ->]. eauto using entry_key.
  - exists x. destruct H as [<- Hk%(key_entry _ (idx e))]. rewrite Hk. by destruct e.
Qed.

Lemma suppressed_side limit now :
  0 <= limit ->
  exists S, suppress_groups limit (entries reg current now l) = Some S
    /\ forall i, i ∈ S <-> exists x k, l !! i = Some x /\ side current x = now /\ call_key reg x = Some k
                         /\ limit <= Z.of_nat (length (key_repeats reg current l i x k)).
Proof.
  intros Hl. destruct (suppress_groups_spec limit _ Hl (entries_sorted reg current now l)) as (S & E & HS).
  exists S. split; [exact E|]. intros i. rewrite HS. split.
  - intros (e & (x & Hx & <- & Hk)%entry_of_side & <- & Hn). rewrite (after_key_repeats _ _ _ _ _ Hx) in Hn. eauto 7.
  - intros (x & k & Hx & <- & Hk & Hn). exists (mkEntry i k). split_and!; [by apply entry_of_side; eauto|done|].
    by rewrite (after_key_repeats _ _ _ x).
Qed.

Lemma collectSuppressedIndices_spec :
  exists S, collectSuppressedIndices l current reg config = Some S
    /\ forall i, i ∈ S <-> exists x, l !! i = Some x /\ IsSupersessionEnabled config = true
         /\ exists k, call_key reg x = Some k /\ limit_of config current x <= Z.of_nat (length (key_repeats reg current l i x k)).
Proof.
  unfold collectSuppressedIndices. destruct (IsSupersessionEnabled config); cbn [negb].
  2: { exists ∅. split; [done|]. intros i. split; [set_solver|]. by intros (x & _ & [=] & _). }
  destruct limits as [Hh Ht].
  destruct (suppressed_side _ false Hh) as (S1 & -> & H1), (suppressed_side _ true Ht) as (S2 & -> & H2).
  eexists. split; [done|]. intros i. rewrite elem_of_union, H1, H2. unfold limit_of. split.
  - intros [(x & k & Hx & Hs & Hk)|(x & k & Hx & Hs & Hk)]; exists x; rewrite Hs; eauto.
  - intros (x & Hx & _ & k & Hk). destruct (side current x) eqn:Hs; [right|left]; eauto 6.
Qed.
End Suppressed.

(** ** What supersedes a call

    The call of a cacheable tool in a message: the tool, and its arguments as
    decoded data. *)
Definition call_of (reg : Registry) (x : normalizedMsg) : option (string * Object) :=
  c ← messageToolCall (msg x);
  let name := TrimSpace (ToolName c) in
  if bool_decide (name <> "") && isToolCacheable reg name then Some (name, Arguments c) else None.

(** The messages after number [i], on the same side of the current turn, with a
    call of the same tool with the same arguments. *)
Definition repeats (reg : Registry) (current : Z) (l : list normalizedMsg) (i : nat) (x : normalizedMsg) (c : string * Object) : list normalizedMsg :=
  filter (fun y => side current y = side current x /\ call_of reg y = Some c) (drop (S i) l).
Definition superseded (reg : Registry) (config : Projection) (current : Z) (l : list normalizedMsg) (i : nat) (x : normalizedMsg) : Prop :=
  IsSupersessionEnabled config = true
  /\ exists c, call_of reg x = Some c /\ limit_of config current x <= Z.of_nat (length (repeats reg current l i x c)).

#[export] Instance superseded_dec reg config current l i x : Decision (superseded reg config current l i x).
Proof.
  unfold superseded. apply and_dec; [apply _|]. destruct (call_of reg x) as [c|].
  - destruct (decide (limit_of config current x <= Z.of_nat (length (repeats reg current l i x c)))); [left; by exists c|right; naive_solver].
  - right. naive_solver.
Defined.

(** A call as a text: the tool, a bar and the JSON of the arguments. *)
Definition call_text (c : string * Object) : string := c.1 +:+ "|" +:+ json_print (JObject c.2).
(** Calls that their texts, and the MD5 digests of these, tell apart: no name has
    a bar, the arguments are values that were decoded, and no two of the texts
    collide. *)
Definition plain_call (c : string * Object) : Prop := ch 124 ∉ bytes c.1 /\ decoded (JObject c.2) = true.
Definition distinct_digests (ts : list string) : Prop := Forall (fun t => Forall (fun u => md5_hex t = md5_hex u -> t = u) ts) ts.
Definition calls_of (reg : Registry) (l : list normalizedMsg) : list (string * Object) := omap (call_of reg) l.

Lemma split_bar (c : ascii) l1 l2 r1 r2 : c ∉ l1 -> c ∉ l2 -> l1 ++ c :: r1 = l2 ++ c :: r2 -> l1 = l2 /\ r1 = r2.
Proof.
  revert l2. induction l1 as [|x l1 IH]; intros [|y l2] H1 H2 E; cbn in E.
  - by injection E.
  - injection E as -> _. destruct H2. by left.
  - injection E as -> _. destruct H1. by left.
  - injection E as -> E. rewrite not_elem_of_cons in H1, H2. destruct (IH l2 (proj2 H1) (proj2 H2) E) as [-> ->]. done.
Qed.

Lemma call_text_inj c1 c2 : plain_call c1 -> plain_call c2 -> call_text c1 = call_text c2 -> c1 = c2.
Proof.
  destruct c1 as [n1 a1], c2 as [n2 a2]. intros [H1 D1] [H2 D2] E%(f_equal bytes). unfold call_text in E. cbn [fst snd] in *.
  rewrite !bytes_app in E. cbn [app] in E. change (bytes "|") with [ch 124] in E. cbn [app] in E.
  apply split_bar in E as [En Ea]; [|done..]. apply bytes_inj in En as ->. apply bytes_inj in Ea.
  apply parse_printed in D1, D2. rewrite Ea in D1. congruence.
Qed.

Lemma sorted_value_same v : sorted_value v = v.
Proof.
  induction v as [| | | |l _|o IH] using json_nested_ind; try done. cbn [sorted_value]. f_equal.
  induction IH as [|[k v] o Hv _ IHo]; [done|]. cbn in Hv |- *. by rewrite Hv, IHo.
Qed.

Lemma canonicalArgsJSON_print a : canonicalArgsJSON a = json_print (JObject a).
Proof.
  unfold canonicalArgsJSON. case_bool_decide as E; [by subst a|]. do 2 f_equal. unfold sortedMapJSON. clear E.
  induction a as [|[k v] a IH]; [done|]. cbn. by rewrite sorted_value_same, IH.
Qed.

(** The key of a call is the digest of its text. *)
Lemma call_key_of reg x : call_key reg x = (fun c => md5_hex (call_text c)) <$> call_of reg x.
Proof.
  unfold call_key, entry_of, call_of, toolCallArgs. destruct (messageToolCall (msg x)) as [c|]; [|done]. cbn.
  destruct (decide (TrimSpace (ToolName c) = "")) as [E|E].
  - rewrite bool_decide_eq_true_2 by done. by rewrite (bool_decide_eq_false_2 (TrimSpace (ToolName c) <> "")) by (intros H; by apply H).
  - rewrite bool_decide_eq_false_2, (bool_decide_eq_true_2 (TrimSpace (ToolName c) <> "")) by done. cbn [andb].
    destruct (isToolCacheable reg (TrimSpace (ToolName c))); [|done]. unfold supersessionKey, call_text. rewrite canonicalArgsJSON_print, TrimSpace_idemp. reflexivity.
Qed.

Section Calls.
Context (reg : Registry) (l : list normalizedMsg).
Hypothesis plain : Forall plain_call (calls_of reg l).
Hypothesis digests : distinct_digests (call_text <$> calls_of reg l).

Lemma key_means_call x y c :
  x ∈ l -> y ∈ l -> call_of reg x = Some c -> call_key reg y = Some (md5_hex (call_text c)) <-> call_of reg y = Some c.
Proof.
  intros Hx Hy Ec. rewrite call_key_of. split; [|intros ->; done]. destruct (call_of reg y) as [d|] eqn:Ed; [|done]. intros [= E].
  assert (c ∈ calls_of reg l) as Hc by (apply list_elem_of_omap; eauto). assert (d ∈ calls_of reg l) as Hd by (apply list_elem_of_omap; eauto).
  unfold distinct_digests in digests. rewrite Forall_forall in plain. rewrite Forall_forall in digests.
  specialize (digests _ (list_elem_of_fmap_2 call_text _ _ Hd)). rewrite Forall_forall in digests.
  f_equal. apply call_text_inj; [by apply plain..|]. apply digests; [|done]. by apply list_elem_of_fmap_2.
Qed.

Lemma superseded_key config current i x :
  l !! i = Some x ->
  superseded reg config current l i x <->
  IsSupersessionEnabled config = true
  /\ exists k, call_key reg x = Some k /\ limit_of config current x <= Z.of_nat (length (key_repeats reg current l i x k)).
Proof.
  intros Hi. assert (x ∈ l) as Hx by by eapply list_elem_of_lookup_2.
  assert (H : forall c, call_of reg x = Some c -> key_repeats reg current l i x (md5_hex (call_text c)) = repeats reg current l i x c).
  { intros c Ec. unfold key_repeats, repeats. apply filter_ext_in. intros y Hy.
    rewrite (key_means_call x y c Hx (subseteq_drop _ _ _ Hy) Ec). done. }
  unfold superseded. split; intros [He (k & Hk & Hn)]; (split; [done|]).
  - exists (md5_hex (call_text k)). rewrite call_key_of, Hk, H by done. done.
  - rewrite call_key_of in Hk. destruct (call_of reg x) as [c|] eqn:Ec; [|done]. injection Hk as <-. rewrite H in Hn by done. by exists c.
Qed.
End Calls.

(** ** The messages that are hidden *)

(** Superseded and not part of the response to continue. *)
Definition removed (reg : Registry) (config : Projection) (current : Z) (anchor : string) (l : list normalizedMsg) (p : nat * normalizedMsg) : Prop :=
  superseded reg config current l p.1 p.2 /\ p.1 ∉ protectedContinuationToolResultIndices l anchor.
#[export] Instance removed_dec reg config current anchor l p : Decision (removed reg config current anchor l p).
Proof. unfold removed. apply _. Defined.

Definition sum_tokens (ps : list (nat * normalizedMsg)) : Z := foldr (fun p n => estimateProjectionTokens (msg p.2) + n) 0 ps.

Lemma hidden_fold (S T : gset nat) (P : nat * normalizedMsg -> Prop) `{!forall p, Decision (P p)} ps acc :
  (forall p, p ∈ ps -> message_id p.2 <> "" /\ (P p <-> p.1 ∈ S /\ p.1 ∉ T)) ->
  foldl (fun acc '(i, x) =>
      if bool_decide (i ∉ S) || bool_decide (i ∈ T) || bool_decide (message_id x = "") then acc
      else (acc.1 ++ [message_id x], acc.2 + estimateProjectionTokens (msg x))) acc ps
  = (acc.1 ++ ((fun p => message_id p.2) <$> filter P ps), acc.2 + sum_tokens (filter P ps)).
Proof.
  revert acc. induction ps as [|[i x] ps IH]; intros [ids n] Hps; cbn [foldl].
  { rewrite filter_nil. cbn. by rewrite app_nil_r, Z.add_0_r. }
  destruct (Hps (i, x) ltac:(by left)) as [Hid HP]. cbn in Hid, HP. rewrite (bool_decide_eq_false_2 (message_id x = "")) by done.
  rewrite filter_cons, IH by (intros p Hp; apply Hps; by right). destruct (decide (P (i, x))) as [Hr|Hr].
  - apply HP in Hr as [H1 H2]. rewrite bool_decide_eq_false_2, bool_decide_eq_false_2 by naive_solver.
    cbn. rewrite <- app_assoc, <- Z.add_assoc. done.
  - assert (E : bool_decide (i ∉ S) || bool_decide (i ∈ T) = true).
    { destruct (decide (i ∈ S)) as [Hi|Hi]; [|by rewrite (bool_decide_eq_true_2 (i ∉ S))].
      rewrite (bool_decide_eq_true_2 (i ∈ T)); [apply orb_true_r|]. destruct (decide (i ∈ T)); [done|]. naive_solver. }
    rewrite E. done.
Qed.

(** ** Hiding *)
Lemma elem_of_trimmed s ids : s ∈ trimmed ids <-> s <> "" /\ exists raw, raw ∈ ids /\ s = TrimSpace raw.
Proof. unfold trimmed. rewrite list_elem_of_filter, list_elem_of_fmap. naive_solver. Qed.

Lemma append_unique_spec seen dst values s :
  (forall k, k ∈ seen -> k ∈ trimmed dst) ->
  s ∈ trimmed (append_unique seen dst values) <-> s ∈ trimmed dst \/ s ∈ trimmed values.
Proof.
  revert seen dst. induction values as [|raw values IH]; intros seen dst Hseen; cbn [append_unique].
  { assert (s ∉ trimmed []) by by intros [_ (r & ?%elem_of_nil & _)]%elem_of_trimmed. naive_solver. }
  assert (Hc : s ∈ trimmed (raw :: values) <-> s <> "" /\ s = TrimSpace raw \/ s ∈ trimmed values).
  { rewrite !elem_of_trimmed. setoid_rewrite elem_of_cons. naive_solver. }
  rewrite Hc. destruct (bool_decide (TrimSpace raw = "")) eqn:Eb; cbn [orb].
  { apply bool_decide_eq_true in Eb. rewrite IH by done. naive_solver. }
  apply bool_decide_eq_false in Eb. destruct (bool_decide (TrimSpace raw ∈ seen)) eqn:Es.
  { apply bool_decide_eq_true in Es. rewrite IH by done. pose proof (Hseen _ Es). naive_solver. }
  assert (Hd : forall k, k ∈ trimmed (dst ++ [TrimSpace raw]) <-> k ∈ trimmed dst \/ k <> "" /\ k = TrimSpace raw).
  { intros k. rewrite !elem_of_trimmed. setoid_rewrite elem_of_app. setoid_rewrite list_elem_of_singleton.
    split; [intros (Hk & r & [Hr| ->] & E)|]; [left; eauto|right; by rewrite TrimSpace_idemp in E|].
    intros [(Hk & r & Hr & E)|[Hk ->]]; [by eauto|]. split; [done|]. exists (TrimSpace raw). by rewrite TrimSpace_idemp; auto. }
  rewrite IH; [rewrite Hd; naive_solver|]. intros k. rewrite elem_of_union, elem_of_singleton, Hd. naive_solver.
Qed.

Lemma appendUniqueStrings_spec dst values s : s ∈ trimmed (appendUniqueStrings dst values) <-> s ∈ trimmed dst \/ s ∈ trimmed values.
Proof. apply append_unique_spec. intros k. by rewrite elem_of_list_to_set. Qed.

(** A message that a projection shows. *)
Definition visible (p : ContextProjection) (x : normalizedMsg) : Prop :=
  match msg x with Some m => hides (trimmed (HiddenTurnIDs p)) (trimmed (HiddenMessageIDs p)) m = false | None => False end.

(** What both ways to hide messages do to a projection. *)
Definition hidden_in (base : ContextProjection) (hidden : list string) (freed : Z) (q : ContextProjection) : Prop :=
  HiddenTurnIDs q = HiddenTurnIDs base /\ HiddenMessageIDs q = appendUniqueStrings (HiddenMessageIDs base) hidden
  /\ TokensFreed q = TokensFreed base + freed.

Lemma hide_in_state_ok hidden freed p : hidden_in p hidden freed (hide_in_state hidden freed p).
Proof. unfold hidden_in, hide_in_state, AddReason. by repeat case_match. Qed.
Lemma hide_locally_ok hidden freed p : hidden_in p hidden freed (hide_locally hidden freed p).
Proof. done. Qed.

Lemma project_hidden base hidden freed q l :
  hidden_in base hidden freed q -> Forall (fun x => message_id x <> "" /\ visible base x) l ->
  applyProjectionToNormalized l q = filter (fun x => message_id x ∉ trimmed hidden) l.
Proof.
  intros (Ht & Hm & _) Hl. unfold applyProjectionToNormalized. rewrite Ht, Hm.
  assert (E : filter (fun x => match msg x with None => false | Some m =>
        negb (hides (trimmed (HiddenTurnIDs base)) (trimmed (appendUniqueStrings (HiddenMessageIDs base) hidden)) m) end = true) l
      = filter (fun x => message_id x ∉ trimmed hidden) l).
  { apply filter_ext_in. intros x. rewrite Forall_forall in Hl. intros Hx.
    destruct (Hl x Hx) as [Hid Hv]. unfold visible, message_id in *. destruct (msg x) as [m|]; [|done]. cbn in *.
    unfold hides in *. apply orb_false_iff in Hv as [-> Hv]. rewrite orb_false_l, negb_true_iff.
    rewrite bool_decide_eq_false_2 in * by done. cbn in *. rewrite bool_decide_eq_false in *. rewrite appendUniqueStrings_spec. naive_solver. }
  destruct (_ && _) eqn:Enil; [|exact E]. apply andb_true_iff in Enil as [_ Enil%bool_decide_eq_true].
  symmetry. apply filter_all. intros x _ Hx. assert (Hin : message_id x ∈ trimmed (appendUniqueStrings (HiddenMessageIDs base) hidden)).
  { apply appendUniqueStrings_spec. by right. } rewrite Enil in Hin. by apply elem_of_nil in Hin.
Qed.

Lemma filter_fmap {A B} (f : A -> B) (P : B -> Prop) `{!forall x, Decision (P x)} (l : list A) :
  filter P (f <$> l) = f <$> filter (fun x => P (f x)) l.
Proof. induction l as [|x l IH]; [done|]. rewrite fmap_cons, !filter_cons, IH. by case_decide. Qed.

Lemma imap_pair_snd {A} (l : list A) : (imap pair l).*2 = l.
Proof. rewrite fmap_imap. induction l as [|x l IH]; [done|]. rewrite imap_cons. f_equal. exact IH. Qed.

Lemma filter_positions {A} (P : A -> Prop) `{!forall x, Decision (P x)} (l : list A) :
  filter P l = (filter (fun p => P p.2) (imap pair l)).*2.
Proof. rewrite <- filter_fmap. by rewrite imap_pair_snd. Qed.

(** With distinct identifiers, hiding identifiers is removing positions. *)
Lemma hide_positions (P : nat * normalizedMsg -> Prop) `{!forall p, Decision (P p)} l :
  NoDup (message_id <$> l) -> Forall (fun x => message_id x <> "") l ->
  filter (fun x => message_id x ∉ trimmed ((fun p => message_id p.2) <$> filter P (imap pair l))) l
  = (filter (fun p => ~ P p) (imap pair l)).*2.
Proof.
  intros Hnd Hid. rewrite filter_positions. f_equal. apply filter_ext_in.
  intros [i x] Hx. cbn [snd]. apply elem_of_lookup_imap in Hx as (i' & x' & [= <- <-] & Hx).
  assert (E : message_id x ∈ trimmed ((fun p => message_id p.2) <$> filter P (imap pair l)) <-> P (i, x)); [|by rewrite E].
  rewrite elem_of_trimmed. split.
  - intros (_ & raw & ([j y] & -> & [HP Hy]%list_elem_of_filter)%list_elem_of_fmap & E).
    apply elem_of_lookup_imap in Hy as (j' & y' & [= <- <-] & Hy). cbn in E.
    assert (Eid : message_id x = message_id y) by (rewrite E; apply TrimSpace_idemp).
    assert (i = j) as ->.
    { apply (NoDup_lookup (message_id <$> l) i j (message_id x) Hnd); rewrite list_lookup_fmap; [by rewrite Hx|by rewrite Hy, Eid]. }
    congruence.
  - intros HP. split; [rewrite Forall_forall in Hid; apply Hid; by eapply list_elem_of_lookup_2|].
    exists (message_id x). split; [|symmetry; apply TrimSpace_idemp].
    apply list_elem_of_fmap. exists (i, x). split; [done|]. apply list_elem_of_filter. split; [exact HP|].
    apply elem_of_lookup_imap. eauto.
Qed.

(** C30: in a prompt of scope conversation, whose messages have identifiers of their own and are all
    shown, and with limits that are not negative, a result of a cacheable tool leaves exactly when it is
    superseded (at least the limit of its side of the current turn of later calls are of its tool and
    have its decoded arguments) and is not part of the response that a provider continues from;
    everything else stays, in its order, and the projection, the one of the context or the request's,
    counts the tokens of what it removed. No name of a tool has a bar, and no two different calls of
    the prompt have one MD5 digest. (Decoded arguments have lost what a float64 loses.) *)
Theorem superseded_calls_leave (get : string -> option bool) (config : Projection) (current : Z) (anchor : string)
    (l : list normalizedMsg) (state : option ContextProjection) (projection : ContextProjection)
    (Hscope : EqualFold (TrimSpace (Scope projection)) "conversation" = true)
    (Hlimits : 0 <= SupersessionHistoryLimit config /\ 0 <= SupersessionTurnLimit config)
    (Hcalls : Forall plain_call (calls_of (Some get) l))
    (Hdigests : distinct_digests (call_text <$> calls_of (Some get) l))
    (Hids : NoDup (message_id <$> l))
    (Hshown : Forall (fun x => message_id x <> "" /\ visible (default projection state) x) l) :
  exists q,
    supersede l current (Some get) config anchor state projection
    = Some ((filter (fun p => ~ removed (Some get) config current anchor l p) (imap pair l)).*2, q)
    /\ let gone := filter (removed (Some get) config current anchor l) (imap pair l) in
       if decide (gone = []) then q = projection
       else TokensFreed q = TokensFreed (default projection state) + sum_tokens gone.
Proof.
  unfold supersede. rewrite Hscope. cbn [negb orb]. unfold collectHiddenMessageIDs.
  destruct (collectSuppressedIndices_spec (Some get) config current l Hlimits) as (S & -> & HS). cbn [mbind option_bind].
  set (P := removed (Some get) config current anchor l).
  rewrite (hidden_fold S _ P).
  2: { intros [i x] Hin. apply elem_of_lookup_imap in Hin as (i' & x' & [= <- <-] & Hx). cbn [fst snd].
       rewrite Forall_forall in Hshown. split; [apply Hshown; by eapply list_elem_of_lookup_2|].
       pose proof (superseded_key _ _ Hcalls Hdigests config current i x Hx) as Hk. unfold P, removed. cbn [fst snd]. rewrite HS, Hk. naive_solver. }
  cbn [app fst snd]. rewrite Z.add_0_l, length_fmap. set (gone := filter P (imap pair l)).
  assert (Hblank : Forall (fun x => message_id x <> "") l) by (eapply Forall_impl; [exact Hshown|naive_solver]).
  destruct (decide (gone = [])) as [Eg|Eg].
  { rewrite bool_decide_eq_true_2 by by rewrite Eg. exists projection. split; [|done]. f_equal. f_equal.
    rewrite filter_all; [symmetry; apply imap_pair_snd|]. intros p Hp HP. assert (p ∈ gone) as Hg by by apply list_elem_of_filter.
    rewrite Eg in Hg. by apply elem_of_nil in Hg. }
  rewrite bool_decide_eq_false_2 by by intros ?%length_zero_iff_nil.
  set (q := match state with Some _ => _ | None => _ end). exists q.
  assert (Hq : hidden_in (default projection state) ((fun p => message_id p.2) <$> gone) (sum_tokens gone) q).
  { unfold q. destruct state; [apply hide_in_state_ok|apply hide_locally_ok]. }
  split; [|apply Hq]. rewrite (project_hidden _ _ _ _ _ Hq Hshown). do 2 f_equal. by apply hide_positions.
Qed.

(** ** Repeated instructions *)

(** The last instruction of the current turn stays where it is, its earlier
    repetitions are dropped, and nothing else changes. *)
Lemma dedupeUserTasks_spec current a x b t :
  current <> -1 -> user_task current x = Some t -> t <> "" -> (forall y, y ∈ b -> user_task current y = None) ->
  dedupeUserTasks current (a ++ x :: b) = filter (fun y => user_task current y <> Some t) a ++ x :: b.
Proof.
  intros Hc Hx Ht Hb. unfold dedupeUserTasks. rewrite (proj2 (Z.eqb_neq current (-1)) Hc).
  set (f := fun p : nat * normalizedMsg => pair p.1 <$> user_task current p.2).
  assert (Hnone : forall k, omap f (imap (fun m => pair (k + m)%nat) b) = []).
  { clear Hx. induction b as [|y b IH]; intros k; [done|]. rewrite imap_cons. cbn [omap list_omap]. unfold f at 1. cbn [fst snd].
    rewrite (Hb y) by by left. cbn. erewrite (imap_ext _ (fun m => pair (S k + m)%nat)); [apply IH; intros z Hz; apply Hb; by right|].
    intros i z _. cbn. f_equal. lia. }
  assert (E : omap f (imap pair (a ++ x :: b)) = omap f (imap pair a) ++ [(length a, t)]).
  { rewrite imap_shift, omap_app, imap_cons. f_equal. cbn [omap list_omap]. unfold f at 1. cbn [fst snd]. rewrite Hx. cbn. rewrite Nat.add_0_r. f_equal.
    erewrite (imap_ext _ (fun m => pair (S (length a) + m)%nat)); [apply Hnone|]. intros i z _. cbn. f_equal. lia. }
  rewrite E, last_snoc, length_app. cbn [length]. rewrite (bool_decide_eq_false_2 (t = "")) by done. rewrite orb_false_r.
  assert (Hcut : (filter (fun p => ~ ((p.1 < length a)%nat /\ user_task current p.2 = Some t)) (imap pair (a ++ x :: b))).*2
                 = filter (fun y => user_task current y <> Some t) a ++ x :: b).
  { rewrite imap_shift, filter_app, fmap_app. f_equal.
    - rewrite (filter_positions (fun y => user_task current y <> Some t) a). f_equal. apply filter_ext_in. intros [i y] Hy.
      apply elem_of_lookup_imap in Hy as (i' & y' & [= -> ->] & Hy). apply lookup_lt_Some in Hy. cbn. naive_solver.
    - rewrite filter_all.
      + rewrite fmap_imap. transitivity (imap (fun _ y => y) (x :: b)); [by apply imap_ext|]. rewrite <- (imap_pair_snd (x :: b)) at 2. by rewrite fmap_imap.
      + intros [i y] Hy. apply elem_of_lookup_imap in Hy as (i' & y' & [= -> ->] & _). cbn. lia. }
  case_bool_decide as Hlen; [|exact Hcut].
  assert (Ha : omap f (imap pair a) = []) by (apply length_zero_iff_nil; lia).
  rewrite filter_all; [done|]. intros y Hy Hty. apply list_elem_of_lookup in Hy as [i Hi].
  assert ((i, t) ∈ omap f (imap pair a)) as Hin; [|rewrite Ha in Hin; by apply elem_of_nil in Hin].
  apply list_elem_of_omap. exists (i, y). split; [apply elem_of_lookup_imap; eauto|]. unfold f. cbn. by rewrite Hty.
Qed.

(** ** A prompt with repeated calls *)
Module Demo.
Definition call (id : string) (turn : Z) (file : string) (trace : option string) : normalizedMsg :=
  mkNormalized turn (Some (mkMessage id "tool" "tool_op" None "contents of the file" 
    (Some (mkToolCall "fs/read" trace [("path", JString file)])) None 0)).
(** Two earlier reads of a file and three of the current turn, one of which belongs
    to the response to continue, and a read of another file. *)
Definition history : list normalizedMsg :=
  [call "m1" 0 "a.go" None; call "m2" 0 "b.go" None; call "m3" 0 "a.go" None;
   call "m4" 1 "a.go" (Some "resp"); call "m5" 1 "a.go" None; call "m6" 1 "a.go" None; call "m7" 1 "a.go" None].
Definition cacheable (name : string) : option bool := Some true.
Definition request : ContextProjection := mkProjection "conversation" [] [] "" 0.

Definition kept : list normalizedMsg :=
  [call "m2" 0 "b.go" None; call "m3" 0 "a.go" None; call "m4" 1 "a.go" (Some "resp"); call "m6" 1 "a.go" None; call "m7" 1 "a.go" None].
End Demo.

Lemma superseded_calls_leave_witness :
  exists q, supersede Demo.history 1 (Some Demo.cacheable) None "resp" None Demo.request = Some (Demo.kept, q) /\ TokensFreed q = 10.
Proof.
  destruct (superseded_calls_leave Demo.cacheable None 1 "resp" Demo.history None Demo.request) as (q & E & T).
  - vm_compute. reflexivity.
  - split; vm_compute; discriminate.
  - repeat constructor; apply (bool_decide_unpack _); vm_compute; exact I.
  - apply (bool_decide_unpack _). vm_compute. exact I.
  - apply (bool_decide_unpack _). vm_compute. exact I.
  - repeat constructor; vm_compute; discriminate || reflexivity.
  - exists q. split.
    + rewrite E. vm_compute. reflexivity.
    + vm_compute in T. exact T.
Defined.
