(* ===== verification/TurnQueue.v ===== *)
(** * The queue of turns

    A turn that arrives while another one of its conversation runs is queued:
    service/agent/run_queue.go (tryQueueTurn, triggerQueueDrain,
    drainQueuedTurns), the guard of the drain (service/agent/run_query.go), the
    reordering by a user (internal/store/queuereorder, sdk/embedded_queue.go),
    the cancellation of a queued turn (sdk/embedded.go), and the tables turn and
    turn_queue with their readers and write hooks under internal/datly.

    The place of a turn is stored twice: a user sees and moves the rows of
    turn_queue, and the drain takes the next turn by the sequence in turn. *)
From stdpp Require Import base gmap strings list sorting.
From Stdlib Require Import ZArith Lia.
From S2P Require Import Prelude GoStrings Effects.

Open Scope Z_scope.

(** ** The tables

    Of a row, the columns that this code reads and writes. *)
Record Turn := mkTurn { t_conversation : string; t_status : string; t_seq : option Z; t_created : Z; t_starter : option string }.
Record TurnQueue := mkRow { q_conversation : string; q_turn : string; q_message : string; q_seq : Z; q_status : string; q_created : Z }.
Record Db := mkDb { turns : gmap string Turn; queue : gmap string TurnQueue }.

Definition set_turns (t : gmap string Turn) (d : Db) : Db := mkDb t (queue d).
Definition set_queue (q : gmap string TurnQueue) (d : Db) : Db := mkDb (turns d) q.

(** *** Patches: the fields that are set. *)
Record TurnPatch := mkTurnPatch {
  tp_id : string; tp_conversation : option string; tp_status : option string; tp_seq : option Z; tp_starter : option string; tp_error : option string }.
Record QueuePatch := mkQueuePatch {
  qp_id : string; qp_conversation : option string; qp_turn : option string; qp_message : option string;
  qp_seq : option Z; qp_status : option string; qp_created : option Z }.

Definition turn_status (id status : string) : TurnPatch := mkTurnPatch id None (Some status) None None None.

Definition or_else {A} (new old : option A) : option A := match new with Some x => Some x | None => old end.

(** The hook of the turn writer sets the creation time of a new row to the time
    of the write; a row needs its conversation. *)
Definition patch_turn (now : Z) (p : TurnPatch) (m : gmap string Turn) : option (gmap string Turn) :=
  match m !! tp_id p with
  | Some t => Some (<[tp_id p := mkTurn (default (t_conversation t) (tp_conversation p)) (default (t_status t) (tp_status p))
                       (or_else (tp_seq p) (t_seq t)) (t_created t) (or_else (tp_starter p) (t_starter t))]> m)
  | None => match tp_conversation p with
            | Some c => Some (<[tp_id p := mkTurn c (default "" (tp_status p)) (tp_seq p) now (tp_starter p)]> m)
            | None => None
            end
  end.

(** The hook of the queue writer: a status that is not set or blank is "queued",
    and a creation time that is not set is the time of the write, for rows that
    exist as well. *)
Definition Init (now : Z) (p : QueuePatch) : QueuePatch :=
  mkQueuePatch (qp_id p) (qp_conversation p) (qp_turn p) (qp_message p) (qp_seq p)
    (Some (match qp_status p with Some s => if bool_decide (s = "") then "queued" else s | None => "queued" end))
    (Some (default now (qp_created p))).

(** A row that is new needs its conversation, turn, message and sequence, and the
    turn must exist. *)
Definition patch_row (now : Z) (p : QueuePatch) (d : Db) : option (gmap string TurnQueue) :=
  let p := Init now p in
  let status := default "" (qp_status p) in
  let created := default 0 (qp_created p) in
  match queue d !! qp_id p with
  | Some q => Some (<[qp_id p := mkRow (default (q_conversation q) (qp_conversation p)) (default (q_turn q) (qp_turn p))
                       (default (q_message q) (qp_message p)) (default (q_seq q) (qp_seq p)) status created]> (queue d))
  | None =>
      c ← qp_conversation p; t ← qp_turn p; m ← qp_message p; s ← qp_seq p;
      if bool_decide (is_Some (turns d !! t)) then Some (<[qp_id p := mkRow c t m s status created]> (queue d)) else None
  end.

(** *** Readers *)
Record QueueRowView := mkView { Id : string; ConversationId : string; TurnId : string; QueueSeq : Z; Status : string; CreatedAt : Z }.
Definition view (x : string * TurnQueue) : QueueRowView :=
  mkView x.1 (q_conversation x.2) (q_turn x.2) (q_seq x.2) (q_status x.2) (q_created x.2).

(** [ORDER BY q.queue_seq, q.created_at, q.id]. *)
Definition view_le (a b : QueueRowView) : Prop :=
  QueueSeq a < QueueSeq b \/ QueueSeq a = QueueSeq b /\
  (CreatedAt a < CreatedAt b \/ CreatedAt a = CreatedAt b /\ string_le (Id a) (Id b)).
#[export] Instance view_le_dec a b : Decision (view_le a b).
Proof. unfold view_le. apply _. Defined.

Definition queued_turn (d : Db) (conversation turn : string) : Prop :=
  match turns d !! turn with Some t => t_conversation t = conversation /\ t_status t = "queued" | None => False end.
#[export] Instance queued_turn_dec d c t : Decision (queued_turn d c t).
Proof. unfold queued_turn. destruct (turns d !! t); apply _. Defined.

(** The reader of turn_queue with a conversation, the status "queued" and
    [NativeQueuedOnly]. *)
Definition selected (d : Db) (conversation : string) (x : string * TurnQueue) : Prop :=
  q_conversation x.2 = conversation /\ q_status x.2 = "queued" /\ queued_turn d (q_conversation x.2) (q_turn x.2).
#[export] Instance selected_dec d c x : Decision (selected d c x).
Proof. unfold selected. apply _. Defined.
Definition list_queued (d : Db) (conversation : string) : list QueueRowView :=
  merge_sort view_le (view <$> filter (selected d conversation) (map_to_list (queue d))).

(** The readers of turn: the next queued turn, and a turn by its identifier. *)
Definition turn_le (a b : string * Turn) : Prop :=
  let s x := default (-1) (t_seq x.2) in
  s a < s b \/ s a = s b /\ (t_created a.2 < t_created b.2 \/ t_created a.2 = t_created b.2 /\ string_le a.1 b.1).
#[export] Instance turn_le_dec a b : Decision (turn_le a b).
Proof. unfold turn_le. apply _. Defined.
Definition next_queued (d : Db) (conversation : string) : option (string * Turn) :=
  head (merge_sort turn_le (filter (fun x => t_conversation x.2 = conversation /\ t_status x.2 = "queued") (map_to_list (turns d)))).
Definition turn_by_id (d : Db) (conversation id : string) : option Turn :=
  t ← turns d !! id; if bool_decide (t_conversation t = conversation) then Some t else None.

(** ** Errors *)
Inductive QueueError :=
| ErrTurnNotQueued
| ErrMoveOutsideQueue
| ErrConflict
| NoInvoker
| BadDirection
| Incomplete
| BadOutput
| NotConfigured
| ConflictError (message : string)
| LimitReached (conversation : string)
| Failed (what : string)
| Database (text : string).

(** ** The reordering transaction (component.go) *)
Record Input := mkInput { ConversationID : string; FirstID : string; SecondID : string; FirstSequence : Z; SecondSequence : Z }.
Record Output := mkOutput { o_FirstID : string; o_SecondID : string; o_FirstSequence : Z; o_SecondSequence : Z }.

(** The calls of a transaction; [None] for the rows is an answer of another type. *)
Inductive txcall : Type -> Type :=
| Start : txcall (option QueueError)
| ReadForUpdate (conversation : string) : txcall (result QueueError (option (list (option QueueRowView))))
| WriteTurns (rows : list TurnPatch) : txcall (option QueueError)
| WriteQueues (rows : list QueuePatch) : txcall (option QueueError).

(** The rows of the two turns, each of which is there once. *)
Fixpoint find_pair (firstID secondID : string) (first second : option QueueRowView) (rows : list (option QueueRowView))
    : option (option QueueRowView * option QueueRowView) :=
  match rows with
  | [] => Some (first, second)
  | None :: rows => find_pair firstID secondID first second rows
  | Some row :: rows =>
      if bool_decide (TurnId row = firstID)
      then match first with Some _ => None | None => find_pair firstID secondID (Some row) second rows end
      else if bool_decide (TurnId row = secondID)
      then match second with Some _ => None | None => find_pair firstID secondID first (Some row) rows end
      else find_pair firstID secondID first second rows
  end.

Definition sequence_turn (id : string) (seq : Z) : TurnPatch := mkTurnPatch id None None (Some seq) None None.
Definition sequence_row (id : string) (seq : Z) : QueuePatch := mkQueuePatch id None None None (Some seq) None None.

Definition Exec (i : Input) : prog txcall (result QueueError Output) :=
  let conversation := TrimSpace (ConversationID i) in
  let firstID := TrimSpace (FirstID i) in
  let secondID := TrimSpace (SecondID i) in
  if bool_decide (conversation = "") || bool_decide (firstID = "") || bool_decide (secondID = "") || bool_decide (firstID = secondID)
     || bool_decide (FirstSequence i = SecondSequence i) then mret (Err Incomplete) else
  started ← ask Start;
  match started with Some e => mret (Err e) | None =>
  value ← ask (ReadForUpdate conversation);
  match value with Err e => mret (Err e) | Ok None => mret (Err BadOutput) | Ok (Some rows) =>
  match find_pair firstID secondID None None rows with
  | Some (Some first, Some second) =>
      if negb (bool_decide (QueueSeq first = FirstSequence i)) || negb (bool_decide (QueueSeq second = SecondSequence i))
      then mret (Err ErrConflict) else
      written ← ask (WriteTurns [sequence_turn firstID (SecondSequence i); sequence_turn secondID (FirstSequence i)]);
      match written with Some e => mret (Err e) | None =>
      written ← ask (WriteQueues [sequence_row (Id first) (SecondSequence i); sequence_row (Id second) (FirstSequence i)]);
      match written with Some e => mret (Err e) | None =>
      mret (Ok (mkOutput firstID secondID (SecondSequence i) (FirstSequence i)))
      end end
  | _ => mret (Err ErrConflict)
  end end end.

(** ** The calls of the operations *)

(** A message, as far as the queue reads and patches it. *)
Record MessageView := mkMessage {
  m_role : string; m_type : string; m_conversation : string; m_turn : option string;
  m_content : option string; m_raw : option string; m_user : option string }.
Record MessagePatch := mkMessagePatch {
  mp_id : string; mp_conversation : option string; mp_turn : option string; mp_role : option string; mp_type : option string;
  mp_content : option string; mp_raw : option string; mp_user : option string; mp_status : option string }.
(** A turn with what the drain reads beside the columns above. *)
Record NextTurn := mkNext { n_id : string; n_starter : option string; n_agent : option string; n_model : option string }.
Record QueryInput := mkQuery {
  i_ConversationID : string; i_MessageID : string; i_AgentID : string; i_UserId : string; i_Query : string; i_ModelOverride : string;
  SkipInitialUserMessage : bool }.

Inductive call : Type -> Type :=
| ListQueued (conversation : string) : call (result QueueError (option (list (option QueueRowView))))
| Reorder (i : Input) : call (result QueueError (option Output))
| GetActiveTurn (conversation : string) : call (result QueueError (option string))
| CountQueuedTurns (conversation : string) : call (result QueueError Z)
| Now : call Z
| PatchTurn (p : TurnPatch) : call (option QueueError)
| PatchMessage (m : MessagePatch) : call (option QueueError)
| PatchTurnQueue (p : QueuePatch) : call (option QueueError)
| PublishTurnQueued (conversation turn : string) (seq created : Z) (query origin goal reason : string) : call unit
| GetTurnByID (conversation id : string) : call (result QueueError (option (string * option string)))
| GetNextQueuedTurn (conversation : string) : call (result QueueError (option NextTurn))
| GetMessage (id : string) : call (result QueueError (option MessageView))
| Query (q : QueryInput) : call (option QueueError)
| RequireVisible (conversation : string) : call (option QueueError)
| NotifyRunUpdated (conversation : string) : call unit
| NewUUID : call string
| HasQueuedControllerTurn (conversation goal : string) : call bool
| AcquireGuard (conversation : string) : call bool
| PublishControllerScheduled (conversation turn goal : string) : call unit
| GoDrain (conversation : string) : call unit
| ReleaseGuard (conversation : string) : call unit.

(** The service: whether its stores are there, whether the data service patches
    turn_queue, and whether there is a publisher. *)
Record Service := mkService { configured : bool; patches_queue : bool; publishes : bool }.

Definition unless {E A} (e : option QueueError) (what : QueueError -> QueueError) (k : prog E (result QueueError A)) : prog E (result QueueError A) :=
  match e with Some e => mret (Err (what e)) | None => k end.
Definition wrap (what : string) (e : QueueError) : QueueError := Failed what.

(** ** Moving a turn (client.go) *)
Fixpoint find_turn (turn : string) (rows : list (option QueueRowView)) : option nat :=
  match rows with
  | [] => None
  | row :: rows =>
      if match row with Some row => bool_decide (TurnId row = turn) | None => false end then Some O else S <$> find_turn turn rows
  end.

Definition Move (invoker : bool) (conversation turn direction : string) : prog call (option QueueError) :=
  if negb invoker then mret (Some NoInvoker) else
  let conversation := TrimSpace conversation in
  let turn := TrimSpace turn in
  if bool_decide (conversation = "") || bool_decide (turn = "") then mret (Some ErrTurnNotQueued) else
  let direction := ToLower (TrimSpace direction) in
  if negb (bool_decide (direction = "up")) && negb (bool_decide (direction = "down")) then mret (Some BadDirection) else
  value ← ask (ListQueued conversation);
  match value with Err e => mret (Some e) | Ok None => mret (Some BadOutput) | Ok (Some rows) =>
  match find_turn turn rows with None => mret (Some ErrTurnNotQueued) | Some index =>
  let other := if bool_decide (direction = "down") then Z.of_nat index + 1 else Z.of_nat index - 1 in
  if (other <? 0) || (Z.of_nat (length rows) <=? other) then mret (Some ErrMoveOutsideQueue) else
  match rows !! index, rows !! Z.to_nat other with
  | Some (Some first), Some (Some second) =>
      result ← ask (Reorder (mkInput conversation (TurnId first) (TurnId second) (QueueSeq first) (QueueSeq second)));
      mret (match result with Err e => Some e | Ok None => Some BadOutput | Ok (Some _) => None end)
  | _, _ => mret (Some ErrConflict)
  end end end.

(** The request of a user (moveQueuedTurn). *)
Definition moveQueuedTurn (invoker : bool) (conversation turn direction : string) : prog call (option QueueError) :=
  if negb invoker then mret (Some NotConfigured) else
  visible ← ask (RequireVisible conversation);
  match visible with Some e => mret (Some e) | None =>
  err ← Move invoker conversation turn direction;
  match err with
  | None => _ ← ask (NotifyRunUpdated conversation); mret None
  | Some ErrTurnNotQueued => mret (Some (ConflictError "queued turn not found"))
  | Some ErrMoveOutsideQueue => mret (Some (ConflictError "turn cannot be moved in requested direction"))
  | Some ErrConflict => mret (Some (ConflictError "queued turn order changed"))
  | Some e => mret (Some e)
  end end.

(** ** Queueing a turn (run_queue.go, goal_runtime.go) *)
Definition publish (s : Service) (conversation turn : string) (seq created : Z) (query origin goal reason : string) : prog call unit :=
  if publishes s then ask (PublishTurnQueued conversation turn seq created (TrimSpace query) (TrimSpace origin) (TrimSpace goal) (TrimSpace reason))
  else mret tt.

(** The three writes: the turn, its message and its row. *)
Definition enqueue (s : Service) (conversation turn : string) (seq now : Z) (content raw : string) (user : option string)
    (k : prog call (result QueueError bool)) : prog call (result QueueError bool) :=
  e ← ask (PatchTurn (mkTurnPatch turn (Some conversation) (Some "queued") (Some seq) (Some turn) None));
  unless e (wrap "failed to queue turn") (
  e ← ask (PatchMessage (mkMessagePatch turn (Some conversation) (Some turn) (Some "user") (Some "task") (Some content) (Some raw) user None));
  unless e (wrap "failed to persist queued message") (
  if patches_queue s
  then e ← ask (PatchTurnQueue (mkQueuePatch turn (Some conversation) (Some turn) (Some turn) (Some seq) (Some "queued") (Some now)));
       unless e (wrap "failed to persist turn queue") k
  else k)).

Definition nonblank (s : string) : option string := if bool_decide (TrimSpace s = "") then None else Some (TrimSpace s).

Definition tryQueueTurn (s : Service) (resume : bool) (input : QueryInput) : prog call (result QueueError bool) :=
  if negb (configured s) then mret (Ok false) else
  let conversation := TrimSpace (i_ConversationID input) in
  let turn := TrimSpace (i_MessageID input) in
  if bool_decide (conversation = "") || bool_decide (turn = "") then mret (Ok false) else
  if resume then mret (Ok false) else
  active ← ask (GetActiveTurn conversation);
  match active with Err e => mret (Err (Failed "failed to check active turn")) | Ok active =>
  let active := TrimSpace (default "" active) in
  if bool_decide (active = "") || bool_decide (active = turn) then mret (Ok false) else
  count ← ask (CountQueuedTurns conversation);
  match count with Err e => mret (Err (Failed "failed to count queued turns")) | Ok count =>
  if 20 <=? count then mret (Err (LimitReached conversation)) else
  seq ← ask Now;
  now ← ask Now;
  enqueue s conversation turn seq now (TrimSpace (i_Query input)) (TrimSpace (i_Query input)) (nonblank (i_UserId input))
    (_ ← publish s conversation turn seq now (TrimSpace (i_Query input)) "user" "" ""; mret (Ok true))
  end end.

(** ** Draining the queue *)

(** [convGuardMap]: a conversation whose flag is set is being drained. *)
Definition acquire (conversation : string) (m : gmap string bool) : bool * gmap string bool :=
  (negb (default false (m !! conversation)), <[conversation := true]> m).
Definition release (conversation : string) (m : gmap string bool) : gmap string bool :=
  if bool_decide (is_Some (m !! conversation)) then <[conversation := false]> m else m.

Definition triggerQueueDrain (s : Service) (conversation : string) : prog call unit :=
  if negb (configured s) then mret tt else
  let conversation := TrimSpace conversation in
  if bool_decide (conversation = "") then mret tt else
  free ← ask (AcquireGuard conversation);
  if free : bool then ask (GoDrain conversation) else mret tt.

(** A continuation of a goal: the identifier of the goal, the hint's payload,
    preview and reason (None: there is no hint), the actor and model of the input. *)
Record ContinuationHint := mkHint { Payload : string; Preview : string; Reason : string }.
Definition enqueueGoalContinuation (s : Service) (conversation goal : string) (hint : option ContinuationHint) (user : option string)
    : prog call (result QueueError bool) :=
  match hint with None => mret (Ok false) | Some hint =>
  if negb (configured s) then mret (Ok false) else
  let conversation := TrimSpace conversation in
  if bool_decide (conversation = "") then mret (Ok false) else
  pending ← (if bool_decide (TrimSpace goal = "") then mret false else ask (HasQueuedControllerTurn conversation goal));
  if pending : bool then mret (Ok false) else
  uuid ← ask NewUUID;
  let turn := "goal-" +:+ uuid in
  seq ← ask Now;
  now ← ask Now;
  let preview := default (TrimSpace (Payload hint)) (nonblank (Preview hint)) in
  let payload := default preview (nonblank (Payload hint)) in
  enqueue s conversation turn seq now preview payload (user ≫= nonblank)
    (_ ← publish s conversation turn seq now payload "controller" goal (TrimSpace (Reason hint));
     _ ← ask (PublishControllerScheduled conversation turn goal);
     _ ← triggerQueueDrain s conversation;
     mret (Ok true))
  end.

Definition NormalizeMessageStatus (status : string) : string :=
  let s := ToLower (TrimSpace status) in
  if bool_decide (s ∈ ["ok"; "success"; "succeeded"; "done"; "complete"]) then "completed"
  else if bool_decide (s ∈ ["failed"; "fail"; "error"; "errored"]) then "rejected"
  else if bool_decide (s ∈ ["canceled"; "cancelled"; "abort"; "aborted"]) then "cancel"
  else if bool_decide (s ∈ ["running"; "streaming"; "thinking"; "in_progress"; "progress"]) then "open"
  else if bool_decide (s = "draft") then "pending"
  else s.

Definition patchQueuedStarterMessageStatus (s : Service) (conversation turn starter status : string) : prog call unit :=
  if negb (configured s) || bool_decide (TrimSpace starter = "") || bool_decide (TrimSpace status = "") then mret tt else
  existing ← ask (GetMessage (TrimSpace starter));
  let old f := match existing with Ok (Some m) => nonblank (f m) | _ => None end in
  _ ← ask (PatchMessage (mkMessagePatch (TrimSpace starter) (Some (default (TrimSpace conversation) (old m_conversation)))
             (or_else (old (fun m => default "" (m_turn m))) (nonblank turn)) (old m_role) (old m_type) None None None (Some (NormalizeMessageStatus status))));
  mret tt.

Definition fail_turn (turn message : string) : TurnPatch := mkTurnPatch turn None (Some "failed") None None (Some message).

(** One round: [Some] result ends the drain. *)
Definition drain_next (s : Service) (conversation : string) : prog call (option (option QueueError)) :=
  next ← ask (GetNextQueuedTurn conversation);
  match next with Err e => mret (Some (Some (Failed "failed to load next queued turn"))) | Ok None => mret (Some None) | Ok (Some next) =>
  let turn := TrimSpace (n_id next) in
  if bool_decide (turn = "") then mret (Some None) else
  let starter := default turn (nonblank (default "" (n_starter next))) in
  message ← ask (GetMessage starter);
  match message with
  | Ok (Some m) =>
      let query := default (TrimSpace (default "" (m_content m))) (nonblank (default "" (m_raw m))) in
      if bool_decide (query = "")
      then _ ← ask (PatchTurn (fail_turn turn "queued starter message is empty"));
           _ ← patchQueuedStarterMessageStatus s conversation turn starter "failed";
           mret None
      else
        _ ← ask (Query (mkQuery conversation turn (TrimSpace (default "" (n_agent next))) (TrimSpace (default "" (m_user m))) query
                   (TrimSpace (default "" (n_model next))) true));
        refreshed ← ask (GetTurnByID conversation turn);
        mret (match refreshed with
              | Ok (Some (status, _)) => if EqualFold (TrimSpace status) "queued" then Some None else None
              | _ => None
              end)
  | _ => _ ← ask (PatchTurn (fail_turn turn "queued starter message not found")); mret None
  end end.

(** The loop has no bound of its own. *)
Fixpoint drainQueuedTurns (rounds : nat) (s : Service) (conversation : string) : prog call (option QueueError) :=
  match rounds with
  | O => Spin
  | S rounds =>
      result ← drain_next s conversation;
      match result with Some e => mret e | None => drainQueuedTurns rounds s conversation end
  end.
(** The goroutine of [triggerQueueDrain]. *)
Definition drain (rounds : nat) (s : Service) (conversation : string) : prog call unit :=
  _ ← drainQueuedTurns rounds s conversation; ask (ReleaseGuard conversation).

(** ** Cancelling a queued turn (sdk/embedded.go)

    [unavailable] says which errors of the reader mean that it is not there. *)
Definition CancelQueuedTurn (s : Service) (unavailable : QueueError -> bool) (conversation turn : string) : prog call (option QueueError) :=
  if negb (configured s) then mret (Some NotConfigured) else
  found ← ask (GetTurnByID (TrimSpace conversation) (TrimSpace turn));
  match found with
  | Err e => mret (Some (if unavailable e then ConflictError "queued turn not found" else e))
  | Ok None => mret (Some (ConflictError "queued turn not found"))
  | Ok (Some (status, starter)) =>
      if negb (EqualFold (TrimSpace status) "queued") then mret (Some (ConflictError ("turn is not queued: " +:+ status))) else
      e ← ask (PatchTurn (turn_status (TrimSpace turn) "canceled"));
      match e with Some e => mret (Some e) | None =>
      e ← (if patches_queue s
           then _ ← ask Now; ask (PatchTurnQueue (mkQueuePatch (TrimSpace turn) None None None None (Some "canceled") None))
           else mret None);
      match e with Some e => mret (Some e) | None =>
      _ ← ask (PatchMessage (mkMessagePatch (default (TrimSpace turn) (nonblank (default "" starter))) None None None None None None None (Some "cancel")));
      mret None
      end end
  end.
