(* ===== verification/TurnQueueProps.v ===== *)
(** * The two tables of the queue agree

    Requests that queue turns, users who move and cancel them, drains and goal
    continuations, interleaved call by call on one database with failures at any
    point: the place of a turn is the same in both tables, and moving turns only
    exchanges the places that were given out. *)
From stdpp Require Import base gmap strings list fin_maps fin_sets sorting relations.
From Stdlib Require Import ZArith Lia.
From S2P Require Import Prelude GoStrings Effects TurnQueue.

Open Scope Z_scope.

(** ** The database *)

(** Writes of several rows, each by the hook of its table. *)
Definition patch_turns (now : Z) (ps : list TurnPatch) (m : gmap string Turn) : option (gmap string Turn) :=
  foldl (fun acc p => acc ≫= patch_turn now p) (Some m) ps.
Definition patch_rows (now : Z) (ps : list QueuePatch) (d : Db) : option (gmap string TurnQueue) :=
  foldl (fun acc p => q ← acc; patch_row now p (set_queue q d)) (Some (queue d)) ps.

(** The calls of a transaction on its copy of the database. *)
Definition tx_handles {R} (c : txcall R) (d : Db) (r : R) (d' : Db) : Prop :=
  match c in txcall R return R -> Prop with
  | Start => fun _ => d' = d
  | ReadForUpdate conversation => fun r => d' = d /\
      (r = Ok (Some (Some <$> list_queued d conversation)) \/ forall rows, r <> Ok (Some rows))
  | WriteTurns ps => fun r =>
      (r = None /\ exists now t, patch_turns now ps (turns d) = Some t /\ d' = set_turns t d) \/ (r <> None /\ d' = d)
  | WriteQueues ps => fun r =>
      (r = None /\ exists now q, patch_rows now ps d = Some q /\ d' = set_queue q d) \/ (r <> None /\ d' = d)
  end r.

Inductive runs {A} : prog txcall A -> Db -> A -> Db -> Prop :=
| runs_ret a d : runs (Ret a) d a d
| runs_call R (c : txcall R) k d r d1 a d' : tx_handles c d r d1 -> runs (k r) d1 a d' -> runs (Call c k) d a d'.

Lemma runs_inv {A} (p : prog txcall A) d a d' : runs p d a d' ->
  match p with
  | Ret b => a = b /\ d' = d
  | Call c k => exists r d1, tx_handles c d r d1 /\ runs (k r) d1 a d'
  | Spin => False
  end.
Proof. intros []; eauto. Qed.

(** ** Places *)

(** What the row of a turn says of its place. *)
Definition place (q : TurnQueue) : string * Z := (q_conversation q, q_seq q).
Definition places (d : Db) : gmap string (string * Z) := place <$> queue d.

(** A row belongs to the turn of its identifier, which has the same conversation
    and the same sequence. *)
Definition agree (d : Db) : Prop :=
  forall id q, queue d !! id = Some q ->
    q_turn q = id /\ exists t, turns d !! id = Some t /\ t_conversation t = q_conversation q /\ t_seq t = Some (q_seq q).

Definition given {K A} `{Countable K} (m : gmap K A) : list A := (map_to_list m).*2.

Lemma given_insert (m : gmap string (string * Z)) i x : m !! i = None -> given (<[i := x]> m) ≡ₚ x :: given m.
Proof. intros Hi. unfold given. by rewrite map_to_list_insert. Qed.

Lemma given_swap (m : gmap string (string * Z)) i j x y :
  i <> j -> m !! i = Some x -> m !! j = Some y -> given (<[j := x]> (<[i := y]> m)) ≡ₚ given m.
Proof.
  intros Hij Hi Hj. set (m0 := delete i (delete j m)).
  assert (Ei : m0 !! i = None) by apply lookup_delete_eq.
  assert (Ej : m0 !! j = None) by (unfold m0; rewrite lookup_delete_ne by done; apply lookup_delete_eq).
  assert (E1 : m = <[i := x]> (<[j := y]> m0)).
  { apply map_eq. intros k. destruct (decide (k = i)) as [->|Hki]; [by rewrite lookup_insert_eq|].
    rewrite lookup_insert_ne by done. destruct (decide (k = j)) as [->|Hkj]; [by rewrite lookup_insert_eq|].
    rewrite lookup_insert_ne by done. unfold m0. by rewrite !lookup_delete_ne. }
  assert (E2 : <[j := x]> (<[i := y]> m) = <[i := y]> (<[j := x]> m0)).
  { apply map_eq. intros k. destruct (decide (k = i)) as [->|Hki]; [by rewrite lookup_insert_ne, !lookup_insert_eq|].
    destruct (decide (k = j)) as [->|Hkj]; [by rewrite lookup_insert_eq, lookup_insert_ne, lookup_insert_eq|].
    rewrite !lookup_insert_ne by done. unfold m0. by rewrite !lookup_delete_ne. }
  rewrite E2, E1, !given_insert by (rewrite ?lookup_insert_ne; done). by constructor.
Qed.

(** ** A reordering *)
Lemma find_pair_spec a b rows f s f' s' :
  find_pair a b f s rows = Some (f', s') ->
  (f' = f \/ exists v, f' = Some v /\ Some v ∈ rows /\ TurnId v = a) /\ (s' = s \/ exists v, s' = Some v /\ Some v ∈ rows /\ TurnId v = b).
Proof.
  revert f s. induction rows as [|[v|] rows IH]; intros f s; cbn.
  - intros [= -> ->]. auto.
  - repeat case_bool_decide; repeat case_match; intros Hf; try done; apply IH in Hf as [Hf Hs]; split;
      (destruct Hf as [->|(w & -> & Hw & Ew)] || idtac); (destruct Hs as [->|(w' & -> & Hw' & Ew')] || idtac);
      eauto 6 using list_elem_of_here, list_elem_of_further.
  - intros Hf. apply IH in Hf as [Hf Hs]. split; [destruct Hf as [->|(w & -> & Hw & Ew)]|destruct Hs as [->|(w & -> & Hw & Ew)]];
      eauto 6 using list_elem_of_further.
Qed.

Lemma elem_of_list_queued d c v :
  v ∈ list_queued d c <-> exists q, queue d !! Id v = Some q /\ v = view (Id v, q) /\ selected d c (Id v, q).
Proof.
  unfold list_queued. rewrite merge_sort_Permutation, list_elem_of_fmap. split.
  - intros ([id q] & -> & [Hs Hq%elem_of_map_to_list]%list_elem_of_filter). cbn. eauto.
  - intros (q & Hq & -> & Hs). exists (Id v, q). split; [done|]. apply list_elem_of_filter. split; [done|]. by apply elem_of_map_to_list.
Qed.

(** The rows that a sequence is written to. *)
Definition at_seq (x : Z) (t : Turn) : Turn := mkTurn (t_conversation t) (t_status t) (Some x) (t_created t) (t_starter t).
Definition row_seq (now x : Z) (q : TurnQueue) : TurnQueue :=
  mkRow (q_conversation q) (q_turn q) (q_message q) x "queued" now.

Lemma write_turns now a b x y m ta tb :
  a <> b -> m !! a = Some ta -> m !! b = Some tb ->
  patch_turns now [sequence_turn a x; sequence_turn b y] m = Some (<[b := at_seq y tb]> (<[a := at_seq x ta]> m)).
Proof. intros Hab Ha Hb. unfold patch_turns, patch_turn. cbn. rewrite Ha. cbn. by rewrite lookup_insert_ne, Hb. Qed.

Lemma write_rows now a b x y d qa qb :
  a <> b -> queue d !! a = Some qa -> queue d !! b = Some qb ->
  patch_rows now [sequence_row a x; sequence_row b y] d = Some (<[b := row_seq now y qb]> (<[a := row_seq now x qa]> (queue d))).
Proof. intros Hab Ha Hb. unfold patch_rows, patch_row. cbn. rewrite Ha. cbn. by rewrite lookup_insert_ne, Hb. Qed.

(** The state after the places of two turns are exchanged. *)
Record exchanged (d : Db) (c a b : string) (x y : Z) (d' : Db) : Prop := {
  ex_distinct : a <> b;
  ex_first : places d !! a = Some (c, x);
  ex_second : places d !! b = Some (c, y);
  ex_queued : queued_turn d c a /\ queued_turn d c b;
  ex_places : places d' = <[b := (c, x)]> (<[a := (c, y)]> (places d));
  ex_turns : dom (turns d') = dom (turns d);
  ex_others : forall id, id <> a -> id <> b -> turns d' !! id = turns d !! id /\ queue d' !! id = queue d !! id;
  ex_agree : agree d' }.

Lemma exchange_ok d c a b qa qb ta tb now :
  agree d -> a <> b -> queue d !! a = Some qa -> queue d !! b = Some qb -> turns d !! a = Some ta -> turns d !! b = Some tb ->
  selected d c (a, qa) -> selected d c (b, qb) ->
  exchanged d c a b (q_seq qa) (q_seq qb)
    (mkDb (<[b := at_seq (q_seq qa) tb]> (<[a := at_seq (q_seq qb) ta]> (turns d)))
          (<[b := row_seq now (q_seq qa) qb]> (<[a := row_seq now (q_seq qb) qa]> (queue d)))).
Proof.
  intros Hd Hab Ha Hb Hta Htb (Hca & _ & Hqa) (Hcb & _ & Hqb). cbn in *.
  destruct (Hd _ _ Ha) as (Eta & ta' & Hta' & Ec & Es), (Hd _ _ Hb) as (Etb & tb' & Htb' & Ec' & Es').
  rewrite Hta in Hta'. rewrite Htb in Htb'. injection Hta' as <-. injection Htb' as <-. rewrite Eta, Hca in Hqa. rewrite Etb, Hcb in Hqb.
  constructor; cbn; [done|..].
  - unfold places. rewrite lookup_fmap, Ha. unfold place. cbn. by rewrite Hca.
  - unfold places. rewrite lookup_fmap, Hb. unfold place. cbn. by rewrite Hcb.
  - done.
  - unfold places. cbn. rewrite !fmap_insert. unfold place. cbn. by rewrite Hca, Hcb.
  - rewrite !dom_insert_L. apply elem_of_dom_2 in Hta, Htb. set_solver.
  - intros id H1 H2. by rewrite !lookup_insert_ne by done.
  - intros id q. cbn. destruct (decide (id = b)) as [->|Hib].
    { rewrite !lookup_insert_eq. intros [= <-]. split; [done|]. eexists. split; [done|]. cbn. split; [congruence|done]. }
    rewrite !(lookup_insert_ne _ b) by done. destruct (decide (id = a)) as [->|Hia].
    { rewrite !lookup_insert_eq. intros [= <-]. split; [done|]. eexists. split; [done|]. cbn. split; [congruence|done]. }
    rewrite !lookup_insert_ne by done. apply Hd.
Qed.

(** One call of a run, with what follows it reduced. *)
Ltac run_step H := apply runs_inv in H; cbn [mbind prog_bind bind ask mret prog_ret] in H.

(** A reordering that commits has exchanged the places of two queued turns of
    its conversation, which had the places of its input. *)
Lemma Exec_exchanges i d o d' :
  agree d -> runs (Exec i) d (Ok o) d' ->
  exchanged d (TrimSpace (ConversationID i)) (TrimSpace (FirstID i)) (TrimSpace (SecondID i)) (FirstSequence i) (SecondSequence i) d'.
Proof.
  intros Hd. unfold Exec. cbv zeta.
  set (c := TrimSpace (ConversationID i)). set (a := TrimSpace (FirstID i)). set (b := TrimSpace (SecondID i)).
  destruct (_ || _ || _ || _ || _) eqn:Eg; intros Hr; [run_step Hr; by destruct Hr as [[=] _]|].
  apply orb_false_iff in Eg as [[_ Hab%bool_decide_eq_false]%orb_false_iff _].
  run_step Hr. destruct Hr as (r & d1 & -> & Hr). destruct r as [e|]; [run_step Hr; by destruct Hr as [[=] _]|].
  run_step Hr. destruct Hr as (r & d1 & [-> Hread] & Hr).
  destruct r as [[rows|]|e]; try by (run_step Hr; destruct Hr as [[=] _]). destruct Hread as [[= ->]|Hread]; [|by destruct (Hread rows)].
  cbn [bind] in Hr. destruct (find_pair a b None None (Some <$> list_queued d c)) as [[[f|] [s|]]|] eqn:Ef; try by (run_step Hr; destruct Hr as [[=] _]).
  apply find_pair_spec in Ef as [[[=]|(f' & [= <-] & Hf & Ea)] [[=]|(s' & [= <-] & Hs & Eb)]].
  destruct (_ || _) eqn:Eseq; [run_step Hr; by destruct Hr as [[=] _]|].
  apply orb_false_iff in Eseq as [Ex%negb_false_iff%bool_decide_eq_true Ey%negb_false_iff%bool_decide_eq_true].
  apply list_elem_of_fmap in Hf as (f' & [= <-] & Hf). apply list_elem_of_fmap in Hs as (s' & [= <-] & Hs).
  apply elem_of_list_queued in Hf as (qa & Hqa & Ef & Hsa), Hs as (qb & Hqb & Es & Hsb).
  destruct (Hd _ _ Hqa) as (Eta & ta & Hta & _), (Hd _ _ Hqb) as (Etb & tb & Htb & _).
  assert (Ia : Id f = a) by (rewrite <- Ea, Ef; cbn; congruence). assert (Ib : Id s = b) by (rewrite <- Eb, Es; cbn; congruence).
  assert (Sa : FirstSequence i = q_seq qa) by (rewrite <- Ex, Ef; done). assert (Sb : SecondSequence i = q_seq qb) by (rewrite <- Ey, Es; done).
  clear Ef Es Ex Ey Ea Eb. rewrite Ia, Ib, Sa, Sb in *.
  run_step Hr. destruct Hr as (r & d1 & Hw & Hr). destruct r as [e|]; [run_step Hr; by destruct Hr as [[=] _]|].
  destruct Hw as [(_ & now & t & Ht & ->)|[[] _]]; [|done]. rewrite (write_turns now a b _ _ _ ta tb) in Ht by done. injection Ht as <-.
  run_step Hr. destruct Hr as (r & d1 & Hw & Hr). destruct r as [e|]; [run_step Hr; by destruct Hr as [[=] _]|].
  destruct Hw as [(_ & now' & q & Hq & ->)|[[] _]]; [|done]. rewrite (write_rows now' a b _ _ _ qa qb) in Hq by done. injection Hq as <-.
  run_step Hr. destruct Hr as [_ ->]. by apply exchange_ok.
Qed.

(** ** The monitor of an operation

    An operation that queues a turn has an identifier that is in no table, then
    it may have written the turn, and at last its row. *)
Inductive phase := Idle | Fresh (id : string) | Placed (id conversation : string) (seq : Z).
Definition phase_id (ph : phase) : option string := match ph with Idle => None | Fresh id | Placed id _ _ => Some id end.

Definition queues_turn (ph : phase) (p : TurnPatch) : Prop :=
  exists id c s, ph = Fresh id /\ p = mkTurnPatch id (Some c) (Some "queued") (Some s) (Some id) None.
Definition keeps_turn (p : TurnPatch) : Prop := tp_conversation p = None /\ tp_seq p = None.
Definition queues_row (ph : phase) (p : QueuePatch) : Prop :=
  exists id c s, ph = Placed id c s /\ qp_id p = id /\ qp_conversation p = Some c /\ qp_turn p = Some id /\ qp_seq p = Some s.
Definition keeps_row (p : QueuePatch) : Prop := qp_conversation p = None /\ qp_turn p = None /\ qp_seq p = None.

Definition allowed R (ph : phase) (c : call R) : Prop :=
  match c with
  | PatchTurn p => queues_turn ph p \/ keeps_turn p
  | PatchTurnQueue p => queues_row ph p \/ keeps_row p
  | NewUUID => ph = Idle
  | _ => True
  end.
Definition any_answer R (c : call R) (r : R) : Prop := True.
Definition next_phase R (ph : phase) (c : call R) : R -> phase :=
  match c in call R return R -> phase with
  | PatchTurn p => fun _ => match tp_conversation p, tp_seq p, ph with Some c, Some s, Fresh id => Placed id c s | _, _, _ => ph end
  | PatchTurnQueue p => fun _ => match qp_seq p with Some _ => Idle | None => ph end
  | NewUUID => fun r => Fresh ("goal-" +:+ r)
  | _ => fun _ => ph
  end.

Notation follow ph p Q := (follows allowed any_answer next_phase ph p Q).
Definition stays {A} (ph : phase) (a : A) (ph' : phase) : Prop := ph' = ph.
Definition ends {A} (a : A) (ph : phase) : Prop := True.

(** One call of a program: what it may do is by computation. *)
Ltac calls :=
  repeat first
    [ done
    | progress intros
    | match goal with
      | |- follows _ _ _ _ (mbind _ (ask _)) _ => apply follows_bind, follows_ask; [cbn; try done; by right|intros ? _; cbn [next_phase]]
      | |- follows _ _ _ _ (ask _) _ => apply follows_ask; [cbn; try done; by right|intros ? _; cbn [next_phase]]
      | |- follows _ _ _ _ (match ?x with _ => _ end) _ => destruct x eqn:?
      | |- follows _ _ _ _ (mret _) _ => cbn
      end ].

Lemma Move_stays ph invoker c t d : follow ph (Move invoker c t d) (stays ph).
Proof. unfold Move. calls. Qed.

Lemma moveQueuedTurn_stays ph invoker c t d : follow ph (moveQueuedTurn invoker c t d) (stays ph).
Proof.
  unfold moveQueuedTurn. calls. apply follows_bind. eapply follows_weaken; [apply Move_stays|]. unfold stays. intros [[]|] ? ->; calls.
Qed.

Lemma publish_stays ph s c t q n x o g r : follow ph (publish s c t q n x o g r) (stays ph).
Proof. unfold publish. calls. Qed.

Lemma triggerQueueDrain_stays ph s c : follow ph (triggerQueueDrain s c) (stays ph).
Proof. unfold triggerQueueDrain. calls. Qed.

Lemma CancelQueuedTurn_stays ph s u c t : follow ph (CancelQueuedTurn s u c t) (stays ph).
Proof.
  unfold CancelQueuedTurn. calls. apply follows_bind. destruct (patches_queue s); calls.
Qed.

Lemma starter_status_stays ph s c t m st : follow ph (patchQueuedStarterMessageStatus s c t m st) (stays ph).
Proof. unfold patchQueuedStarterMessageStatus. calls. Qed.

Lemma drain_next_stays ph s c : follow ph (drain_next s c) (stays ph).
Proof.
  unfold drain_next. calls. apply follows_bind. eapply follows_weaken; [apply starter_status_stays|]. unfold stays. intros ? ? ->. calls.
Qed.

Lemma drain_stays ph n s c : follow ph (drain n s c) (stays ph).
Proof.
  unfold drain. apply follows_bind. eapply follows_weaken with (Q := stays ph); [|unfold stays; intros ? ? ->; calls].
  induction n as [|n IH]; [done|]. cbn [drainQueuedTurns]. apply follows_bind. eapply follows_weaken; [apply drain_next_stays|].
  unfold stays. intros [e|] ? ->; [done|exact IH].
Qed.

Lemma enqueue_ends s c t q n x y u k :
  (forall ph, follow ph k ends) -> follow (Fresh t) (enqueue s c t q n x y u k) ends.
Proof.
  intros Hk. unfold enqueue, unless. apply follows_bind, follows_ask; [left; by exists t, c, q|]. intros e _. cbn [next_phase tp_conversation tp_seq].
  destruct e; [done|]. calls. apply follows_bind, follows_ask; [left; by exists t, c, q|]. intros e _. cbn. destruct e; [done|apply Hk].
Qed.

Lemma tryQueueTurn_ends s resume input : follow (Fresh (TrimSpace (i_MessageID input))) (tryQueueTurn s resume input) ends.
Proof.
  unfold tryQueueTurn. calls. apply enqueue_ends. intros ph. apply follows_bind. eapply follows_weaken; [apply publish_stays|done].
Qed.

Lemma continuation_ends s c g h u : follow Idle (enqueueGoalContinuation s c g h u) ends.
Proof.
  unfold enqueueGoalContinuation. calls. apply follows_bind.
  eapply follows_weaken with (Q := stays Idle); [destruct (bool_decide (TrimSpace g = "")); calls|].
  unfold stays. intros [] ? ->; [done|]. calls. apply enqueue_ends. intros ph.
  apply follows_bind. eapply follows_weaken; [apply publish_stays|]. unfold stays. intros ? ? ->. calls.
  apply follows_bind. eapply follows_weaken; [apply triggerQueueDrain_stays|done].
Qed.

(** ** The world

    The database, the identifiers that have been given out, and the places that
    were given out with them. *)
Record World := mkWorld { db : Db; used : gset string; log : list (string * Z) }.
Definition set_db (d : Db) (w : World) : World := mkWorld d (used w) (log w).

(** Turns run, end and are edited, and new turns start, under identifiers of
    their own; no place changes. *)
Definition core (q : TurnQueue) : string * (string * Z) := (q_turn q, place q).
Record environment (w w' : World) : Prop := {
  env_log : log w' = log w;
  env_used : used w ⊆ used w';
  env_rows : core <$> queue (db w') = core <$> queue (db w);
  env_turns : forall id t, turns (db w) !! id = Some t ->
    exists t', turns (db w') !! id = Some t' /\ t_conversation t' = t_conversation t /\ t_seq t' = t_seq t;
  env_new : forall id, turns (db w) !! id = None -> is_Some (turns (db w') !! id) -> id ∉ used w /\ id ∈ used w' }.

Definition log_row (p : QueuePatch) (w : World) : list (string * Z) :=
  match queue (db w) !! qp_id p, qp_conversation p, qp_seq p with None, Some c, Some s => (c, s) :: log w | _, _, _ => log w end.

(** What a call may do. A write that fails may have been committed. The answers
    of the readers of turns and messages are left open. *)
Definition handles {R} (c : call R) (w : World) (r : R) (w' : World) : Prop :=
  match c in call R return R -> Prop with
  | ListQueued conversation => fun r => w' = w /\
      (r = Ok (Some (Some <$> list_queued (db w) conversation)) \/ forall rows, r <> Ok (Some rows))
  | Reorder i => fun r =>
      (exists o d', runs (Exec i) (db w) (Ok o) d' /\ w' = set_db d' w /\ (r = Ok (Some o) \/ exists e, r = Err e))
      \/ ((forall o, r <> Ok (Some o)) /\ w' = w)
  | PatchTurn p => fun r =>
      (exists now t, patch_turn now p (turns (db w)) = Some t /\ w' = set_db (set_turns t (db w)) w) \/ (r <> None /\ w' = w)
  | PatchTurnQueue p => fun r =>
      (exists now q, patch_row now p (db w) = Some q /\ w' = mkWorld (set_queue q (db w)) (used w) (log_row p w)) \/ (r <> None /\ w' = w)
  | Query _ => fun _ => environment w w'
  | NewUUID => fun r => "goal-" +:+ r ∉ used w /\ w' = mkWorld (db w) ({["goal-" +:+ r]} ∪ used w) (log w)
  | _ => fun _ => w' = w
  end r.

(** ** Pools of operations *)
Record thread := mkThread { t_prog : prog call unit; t_phase : phase }.
Definition run {A} (p : prog call A) (ph : phase) : thread := mkThread (_ ← p; mret tt) ph.

(** What arrives: a request with an identifier of its own, and the others. (A
    drain that is started by a trigger is one that arrives.) *)
Inductive arrives (w : World) : thread -> gset string -> Prop :=
| arrives_request s resume input :
    TrimSpace (i_MessageID input) ∉ used w ->
    arrives w (run (tryQueueTurn s resume input) (Fresh (TrimSpace (i_MessageID input)))) ({[TrimSpace (i_MessageID input)]} ∪ used w)
| arrives_continuation s c g h u : arrives w (run (enqueueGoalContinuation s c g h u) Idle) (used w)
| arrives_move invoker c t d : arrives w (run (moveQueuedTurn invoker c t d) Idle) (used w)
| arrives_cancel s u c t : arrives w (run (CancelQueuedTurn s u c t) Idle) (used w)
| arrives_drain n s c : arrives w (run (drain n s c) Idle) (used w).

(** The phase of a thread is bookkeeping: no step depends on it. *)
Inductive pool_step : list thread * World -> list thread * World -> Prop :=
| step_call l r R (c : call R) k ph w a w' :
    handles c w a w' -> pool_step (l ++ mkThread (Call c k) ph :: r, w) (l ++ mkThread (k a) (next_phase R ph c a) :: r, w')
| step_arrive l t u w : arrives w t u -> pool_step (l, w) (t :: l, mkWorld (db w) u (log w))
| step_environment l w w' : environment w w' -> pool_step (l, w) (l, w').

(** ** The invariant *)
Definition known (w : World) : Prop := dom (turns (db w)) ∪ dom (queue (db w)) ⊆ used w.
Definition phase_ok (w : World) (ph : phase) : Prop :=
  match ph with
  | Idle => True
  | Fresh id => id ∈ used w /\ turns (db w) !! id = None /\ queue (db w) !! id = None
  | Placed id c s => id ∈ used w /\ queue (db w) !! id = None
      /\ forall t, turns (db w) !! id = Some t -> t_conversation t = c /\ t_seq t = Some s
  end.

Record sound (w : World) : Prop := {
  s_known : known w;
  s_agree : agree (db w);
  s_log : given (places (db w)) ≡ₚ log w }.

Definition other (ph ph' : phase) : Prop := forall id, phase_id ph = Some id -> phase_id ph' <> Some id.

(** What a step of one thread leaves to the others. *)
Definition keeps (ph : phase) (w w' : World) : Prop := sound w' /\ forall ph', other ph ph' -> phase_ok w ph' -> phase_ok w' ph'.

Lemma phase_used w ph id : phase_ok w ph -> phase_id ph = Some id -> id ∈ used w.
Proof. destruct ph; cbn; [done|..]; intros [] [= <-]; done. Qed.

Lemma environment_keeps w w' : sound w -> environment w w' -> sound w' /\ forall ph, phase_ok w ph -> phase_ok w' ph.
Proof.
  intros [Hk Ha Hl] [E1 E2 E3 E4 E5].
  assert (Hq : forall id, core <$> queue (db w') !! id = core <$> queue (db w) !! id) by (intros id; by rewrite <- !lookup_fmap, E3).
  assert (Hnone : forall id, id ∈ used w -> turns (db w) !! id = None -> turns (db w') !! id = None).
  { intros id Hu Hn. destruct (turns (db w') !! id) eqn:E; [|done]. destruct (E5 id Hn ltac:(by rewrite E)) as [Hx _]. done. }
  assert (Hrow : forall id, queue (db w) !! id = None -> queue (db w') !! id = None).
  { intros id Hn. specialize (Hq id). rewrite Hn in Hq. by destruct (queue (db w') !! id). }
  assert (Hback : forall id q', queue (db w') !! id = Some q' -> exists q, queue (db w) !! id = Some q /\ core q = core q').
  { intros id q' Hq'. specialize (Hq id). rewrite Hq' in Hq. destruct (queue (db w) !! id) as [q|]; [|done]. injection Hq as E. exists q. unfold core, place. split; [done|congruence]. }
  split; [split|].
  - intros id. unfold known in Hk. rewrite elem_of_union, !elem_of_dom. intros [Ht|[q' Hq']].
    + destruct (turns (db w) !! id) eqn:E; [apply E2, Hk, elem_of_union_l, elem_of_dom; eauto|]. by apply (E5 id E Ht).
    + destruct (Hback _ _ Hq') as (q & Hqq & _). apply E2, Hk, elem_of_union_r, elem_of_dom. eauto.
  - intros id q' Hq'. destruct (Hback _ _ Hq') as (q & Hqq & Ec). unfold core, place in Ec. injection Ec as Et Ecv Es.
    destruct (Ha _ _ Hqq) as (Ei & t & Ht & Hc & Hs). destruct (E4 _ _ Ht) as (t' & Ht' & Hc' & Hs').
    split; [congruence|]. exists t'. split_and!; congruence.
  - unfold places, given in *. assert (Ep : place <$> queue (db w') = place <$> queue (db w)).
    { assert (E : forall m, place <$> m = snd <$> (core <$> m : gmap string _)) by (intros m; rewrite <- map_fmap_compose; by apply map_fmap_ext).
      by rewrite !E, E3. }
    by rewrite Ep, E1.
  - intros [|id|id c s]; cbn; [done|..].
    + intros (Hu & Ht & Hr). split_and!; [by apply E2|by apply Hnone|by apply Hrow].
    + intros (Hu & Hr & Ht). split_and!; [by apply E2|by apply Hrow|]. intros t' Ht'.
      destruct (turns (db w) !! id) as [t|] eqn:E; [|rewrite (Hnone id Hu E) in Ht'; done].
      destruct (E4 _ _ E) as (t2 & Ht2 & Hc & Hs). destruct (Ht t eq_refl). rewrite Ht' in Ht2. injection Ht2 as <-. split; congruence.
Qed.

Lemma exchange_keeps w c a b x y d' :
  sound w -> exchanged (db w) c a b x y d' -> sound (set_db d' w) /\ forall ph, phase_ok w ph -> phase_ok (set_db d' w) ph.
Proof.
  intros [Hk Ha Hl] [E1 E2 E3 _ E5 E6 E7 E8].
  assert (Hdom : dom (queue d') = dom (queue (db w))).
  { rewrite <- (dom_fmap_L place (queue d')), <- (dom_fmap_L place (queue (db w))). fold (places d') (places (db w)).
    rewrite E5, !dom_insert_L. apply elem_of_dom_2 in E2, E3. set_solver. }
  assert (Hne : forall id, queue (db w) !! id = None -> id <> a /\ id <> b).
  { intros id Hn. unfold places in E2, E3. rewrite lookup_fmap in E2, E3. split; intros ->; by rewrite Hn in *. }
  split; [split|].
  - unfold known. cbn. by rewrite E6, Hdom.
  - exact E8.
  - cbn. rewrite E5, given_swap by done. exact Hl.
  - intros [|id|id c' s]; cbn; [done|..].
    + intros (Hu & Ht & Hr). destruct (E7 id) as [-> ->]; [by apply Hne..|]. done.
    + intros (Hu & Hr & Ht). destruct (E7 id) as [-> ->]; [by apply Hne..|]. done.
Qed.

Lemma status_environment w p now t :
  keeps_turn p -> patch_turn now p (turns (db w)) = Some t -> environment w (set_db (set_turns t (db w)) w).
Proof.
  intros [Hc Hs]. unfold patch_turn. rewrite Hc, Hs. destruct (turns (db w) !! tp_id p) as [t0|] eqn:E; intros [= <-].
  constructor; cbn; [done..| |].
  - intros id t1 Ht1. destruct (decide (id = tp_id p)) as [->|Hne].
    + rewrite lookup_insert_eq. eexists. split; [done|]. rewrite E in Ht1. injection Ht1 as <-. done.
    + rewrite lookup_insert_ne by done. eauto.
  - intros id Hn. destruct (decide (id = tp_id p)) as [->|Hne]; [congruence|]. rewrite lookup_insert_ne, Hn by done. by intros [].
Qed.

Lemma row_environment w p now q :
  keeps_row p -> patch_row now p (db w) = Some q -> environment w (mkWorld (set_queue q (db w)) (used w) (log_row p w)).
Proof.
  intros (Hc & Ht & Hs). unfold patch_row, log_row. cbn. rewrite Hc, Ht, Hs.
  destruct (queue (db w) !! qp_id p) as [q0|] eqn:E; [|done]. intros [= <-]. constructor; cbn; [done..| | |].
  - rewrite fmap_insert. apply insert_id. rewrite lookup_fmap, E. done.
  - eauto.
  - intros id ->. by intros [].
Qed.

(** A turn is written under a fresh identifier. *)
Lemma queue_turn_keeps w id c s now t :
  sound w -> phase_ok w (Fresh id) -> patch_turn now (mkTurnPatch id (Some c) (Some "queued") (Some s) (Some id) None) (turns (db w)) = Some t ->
  let w' := set_db (set_turns t (db w)) w in
  keeps (Fresh id) w w' /\ phase_ok w' (Placed id c s).
Proof.
  intros [Hk Ha Hl] (Hu & Ht & Hr). unfold patch_turn. cbn. rewrite Ht. intros [= <-].
  assert (Hother : forall i, i <> id -> (<[id := mkTurn c "queued" (Some s) now (Some id)]> (turns (db w))) !! i = turns (db w) !! i)
    by (intros i Hi; by apply lookup_insert_ne).
  split; [split; [split|]|].
  - unfold known in *. cbn. rewrite dom_insert_L. set_solver.
  - intros i q Hq. cbn in *. destruct (Ha _ _ Hq) as (Ei & t & Hti & E). split; [done|]. exists t. split; [|done].
    rewrite Hother; [done|]. intros ->. congruence.
  - exact Hl.
  - intros [|i|i c' s'] Ho; cbn; [done|..]; (rewrite Hother; [done|]); intros ->; by apply (Ho id).
  - cbn. split_and!; [done..|]. intros t. rewrite lookup_insert_eq. by intros [= <-].
Qed.

(** The row of a turn is written. *)
Lemma queue_row_keeps w id c s p now q :
  sound w -> phase_ok w (Placed id c s) ->
  qp_id p = id -> qp_conversation p = Some c -> qp_turn p = Some id -> qp_seq p = Some s ->
  patch_row now p (db w) = Some q ->
  keeps (Placed id c s) w (mkWorld (set_queue q (db w)) (used w) (log_row p w)).
Proof.
  intros [Hk Ha Hl] (Hu & Hr & Ht) <- Hc Hti Hs. unfold patch_row, log_row. cbn. rewrite Hr, Hc, Hti, Hs. cbn.
  destruct (qp_message p) as [m|]; [|done]. cbn. destruct (bool_decide _) eqn:Et; [|done]. intros [= <-]. apply bool_decide_eq_true in Et as [t Et].
  split; [split|].
  - unfold known in *. cbn. rewrite dom_insert_L. set_solver.
  - intros i q. cbn. destruct (decide (i = qp_id p)) as [->|Hi].
    + rewrite lookup_insert_eq. intros [= <-]. split; [done|]. exists t. destruct (Ht t Et) as [-> ->]. done.
    + rewrite lookup_insert_ne by done. apply Ha.
  - cbn. unfold places. cbn. rewrite fmap_insert. rewrite given_insert; [by rewrite <- Hl|]. by rewrite lookup_fmap, Hr.
  - intros [|i|i c' s'] Ho; cbn; [done|..]; (rewrite lookup_insert_ne; [done|]); intros <-; by eapply Ho.
Qed.

(** ** One call of one thread *)

(** The identifier of a phase after a call: the same, none, or one that is new. *)
Definition id_moves (w : World) (ph ph' : phase) : Prop :=
  phase_id ph' = phase_id ph \/ phase_id ph' = None \/ exists id, phase_id ph' = Some id /\ id ∉ used w.

Lemma keeps_all ph w w' : sound w' /\ (forall ph, phase_ok w ph -> phase_ok w' ph) -> phase_ok w ph -> keeps ph w w' /\ phase_ok w' ph /\ id_moves w ph ph.
Proof. intros [Hs Hp] H. split_and!; [split; [done|by intros ? _; apply Hp]|by apply Hp|by left]. Qed.

Lemma keeps_nothing_done ph w : sound w -> phase_ok w ph -> keeps ph w w /\ phase_ok w ph /\ id_moves w ph ph.
Proof. intros. by apply keeps_all. Qed.

Lemma phase_ok_used w u ph : used w ⊆ u -> phase_ok w ph -> phase_ok (mkWorld (db w) u (log w)) ph.
Proof. intros Hu. destruct ph; cbn; [done|..]; intros [Hi H]; (split; [by apply Hu|exact H]). Qed.

Lemma call_keeps {R} w w' ph (c : call R) r :
  sound w -> phase_ok w ph -> allowed R ph c -> handles c w r w' ->
  keeps ph w w' /\ phase_ok w' (next_phase R ph c r) /\ id_moves w ph (next_phase R ph c r).
Proof.
  intros Hs Hp Ha. destruct c; cbn in *; try (intros ->; by apply keeps_nothing_done).
  - intros [-> _]. by apply keeps_nothing_done.
  - intros [(o & d' & Hrun & -> & _)|[_ ->]]; [|by apply keeps_nothing_done]. apply keeps_all; [|done].
    eapply exchange_keeps; [done|]. eapply Exec_exchanges; [apply Hs|exact Hrun].
  - intros [(now & t & Ht & ->)|[_ ->]].
    + destruct Ha as [(id & c & s & -> & ->)|Hkeep].
      * destruct (queue_turn_keeps w id c s now t Hs Hp Ht). split; [done|]. split; [done|by left].
      * destruct Hkeep as [Hc Hq] eqn:?. rewrite Hc. apply keeps_all; [|done]. eapply environment_keeps, status_environment; done.
    + destruct Ha as [(id & c & s & -> & ->)|[-> _]]; [|by apply keeps_nothing_done]. cbn.
      split; [by apply (keeps_nothing_done (Fresh id))|]. split; [|by left]. destruct Hp as (Hu & Ht & Hr). split_and!; [done..|]. intros t Ht'. congruence.
  - intros [(now & q & Hq & ->)|[_ ->]].
    + destruct Ha as [(id & c & s & -> & Hid & Hc & Ht & Hsq)|Hkeep].
      * rewrite Hsq. split; [by eapply queue_row_keeps|]. split; [done|by right; left].
      * destruct Hkeep as (Hc & Ht & Hsq) eqn:?. rewrite Hsq. apply keeps_all; [|done]. eapply environment_keeps, row_environment; done.
    + destruct Ha as [(id & c & s & -> & Hid & Hc & Ht & Hsq)|(_ & _ & ->)]; [|by apply keeps_nothing_done]. rewrite Hsq.
      split; [by apply keeps_nothing_done|]. split; [done|by right; left].
  - intros He. apply keeps_all; [|done]. by apply environment_keeps.
  - intros [Hn ->]. subst ph. destruct Hs as [Hk Hag Hl]. split; [|split].
    + split; [split; [|done..]|].
      * unfold known in *. cbn. set_solver.
      * intros ph' _. apply phase_ok_used. set_solver.
    + unfold known in Hk. cbn [next_phase]. set (id := "goal-" +:+ r) in *. cbn [phase_ok db used].
      split; [set_solver|]. split; apply not_elem_of_dom; set_solver.
    + right. right. eexists. split; [done|exact Hn].
Qed.

(** ** Pools *)
Record pool_ok (x : list thread * World) : Prop := {
  p_sound : sound x.2;
  p_follow : Forall (fun t => follow (t_phase t) (t_prog t) ends /\ phase_ok x.2 (t_phase t)) x.1;
  p_distinct : NoDup (omap (fun t => phase_id (t_phase t)) x.1) }.

Lemma follow_run {A} (p : prog call A) ph (Q : A -> phase -> Prop) : follow ph p Q -> follow ph (t_prog (run p ph)) ends.
Proof. intros Hp. cbn. apply follows_bind. eapply follows_weaken; [exact Hp|done]. Qed.

Lemma arrives_follow w t u : arrives w t u -> follow (t_phase t) (t_prog t) ends.
Proof.
  intros [s resume input _|s c g h v|invoker c t' d|s v c t'|n s c]; cbn [t_phase run]; eapply follow_run;
    [apply tryQueueTurn_ends|apply continuation_ends|apply moveQueuedTurn_stays|apply CancelQueuedTurn_stays|apply drain_stays].
Qed.

Lemma arrives_phase w t u :
  sound w -> arrives w t u ->
  used w ⊆ u /\ phase_ok (mkWorld (db w) u (log w)) (t_phase t) /\ forall id, phase_id (t_phase t) = Some id -> id ∉ used w.
Proof.
  intros [Hk _ _] [s resume input Hn| | | |]; cbn; try done.
  unfold known in Hk. split; [set_solver|]. split; [|by intros id [= <-]].
  split; [set_solver|]. split; apply not_elem_of_dom; set_solver.
Qed.

Lemma queue_step_ok x y : pool_ok x -> pool_step x y -> pool_ok y.
Proof.
  intros [Hs Hf Hd] Hstep. destruct Hstep as [l r R c k ph w a w' Hc|l t u w Ht|l w w' He]; cbn in *.
  - apply Forall_app in Hf as [Hl [[[Ha Hk] Hp] Hr]%Forall_cons].
    destruct (call_keeps w w' ph c a Hs Hp Ha Hc) as ([Hs' Hother] & Hp' & Hid).
    rewrite omap_app in Hd. cbn in Hd.
    assert (Hoth : forall t, t ∈ l ++ r -> phase_ok w (t_phase t) -> other ph (t_phase t)).
    { intros t Ht _ id Eph Et. rewrite Eph in Hd.
      assert (id ∈ omap (fun t => phase_id (t_phase t)) l ++ omap (fun t => phase_id (t_phase t)) r) as Hin.
      { rewrite <- omap_app. apply list_elem_of_omap. by exists t. }
      rewrite <- Permutation_middle in Hd. by apply NoDup_cons in Hd as [Hd _]. }
    assert (Hrest : Forall (fun t => follow (t_phase t) (t_prog t) ends /\ phase_ok w' (t_phase t)) (l ++ r)).
    { apply Forall_forall. intros t Ht. assert (Hft : follow (t_phase t) (t_prog t) ends /\ phase_ok w (t_phase t)).
      { apply elem_of_app in Ht as [Ht|Ht]; [by eapply Forall_forall in Hl|by eapply Forall_forall in Hr]. }
      destruct Hft as [H1 H2]. split; [done|]. apply Hother; [by apply Hoth|done]. }
    apply Forall_app in Hrest as [Hl' Hr'].
    split; cbn; [done|apply Forall_app; split; [done|]; constructor; [split; [by apply Hk|done]|done]|].
    rewrite omap_app. cbn. destruct Hid as [-> |[->|(id & -> & Hn)]]; [done|..].
    + destruct (phase_id ph); [|done]. rewrite <- Permutation_middle in Hd. by apply NoDup_cons in Hd as [_ Hd].
    + rewrite <- Permutation_middle. apply NoDup_cons. split.
      * rewrite <- omap_app. intros (t & Ht & Et)%list_elem_of_omap. apply Hn. apply (phase_used w (t_phase t) id); [|done].
        apply elem_of_app in Ht as [Ht|Ht]; [by eapply Forall_forall in Hl as [_ ?]|by eapply Forall_forall in Hr as [_ ?]].
      * destruct (phase_id ph); [|done]. rewrite <- Permutation_middle in Hd. by apply NoDup_cons in Hd as [_ Hd].
  - destruct (arrives_phase w t u Hs Ht) as (Hu & Hp & Hfresh). split; cbn.
    + destruct Hs as [Hk Ha Hl]. split; [|done..]. unfold known in *. cbn. set_solver.
    + constructor; [split; [by eapply arrives_follow|done]|]. eapply Forall_impl; [exact Hf|]. intros t' [? ?]. split; [done|]. by apply phase_ok_used.
    + destruct (phase_id (t_phase t)) as [id|] eqn:E; [|done]. apply NoDup_cons. split; [|done].
      intros (t' & Ht' & Et)%list_elem_of_omap. apply (Hfresh id eq_refl). eapply phase_used; [|exact Et]. by eapply Forall_forall in Hf as [_ ?].
  - destruct (environment_keeps w w' Hs He) as [Hs' Hp]. split; cbn; [done| |done].
    eapply Forall_impl; [exact Hf|]. intros t [? ?]. split; [done|]. by apply Hp.
Qed.

(** ** The order of the queue *)

(** Rows in the order of a number, then of another one, then of a text. *)
Definition lex (a b : Z * Z * string) : Prop :=
  a.1.1 < b.1.1 \/ a.1.1 = b.1.1 /\ (a.1.2 < b.1.2 \/ a.1.2 = b.1.2 /\ string_le a.2 b.2).
#[export] Instance lex_total : Total lex.
Proof.
  intros [[a1 a2] a3] [[b1 b2] b3]. unfold lex. cbn.
  destruct (Z.lt_trichotomy a1 b1) as [?|[->|?]]; [tauto| |tauto]. destruct (Z.lt_trichotomy a2 b2) as [?|[->|?]]; [tauto| |tauto].
  destruct (trichotomy (strict string_le) a3 b3) as [[? _]|[->|[? _]]]; [tauto| |tauto]. left. right. split; [done|]. right. done.
Qed.
#[export] Instance lex_trans : Transitive lex.
Proof.
  intros [[a1 a2] a3] [[b1 b2] b3] [[c1 c2] c3]. unfold lex. cbn. pose proof (transitivity (R := string_le) (x := a3) (y := b3) (z := c3)).
  intros [?|[-> [?|[-> ?]]]] [?|[-> [?|[-> ?]]]]; first [left; lia|right; split; [lia|]; first [left; lia|right; split; [lia|tauto]]].
Qed.
#[export] Instance view_le_total : Total view_le.
Proof. intros a b. apply (lex_total (QueueSeq a, CreatedAt a, Id a) (QueueSeq b, CreatedAt b, Id b)). Qed.
#[export] Instance view_le_trans : Transitive view_le.
Proof. intros a b c. apply (lex_trans (QueueSeq a, CreatedAt a, Id a) (QueueSeq b, CreatedAt b, Id b) (QueueSeq c, CreatedAt c, Id c)). Qed.
Definition turn_key (x : string * Turn) : Z * Z * string := (default (-1) (t_seq x.2), t_created x.2, x.1).
#[export] Instance turn_le_total : Total turn_le.
Proof. intros a b. apply (lex_total (turn_key a) (turn_key b)). Qed.
#[export] Instance turn_le_trans : Transitive turn_le.
Proof. intros a b c. apply (lex_trans (turn_key a) (turn_key b) (turn_key c)). Qed.

Lemma merge_sort_head {A} (R : relation A) `{!RelDecision R, !Total R, !Transitive R} l x :
  head (merge_sort R l) = Some x -> forall y, y ∈ l -> y = x \/ R x y.
Proof.
  intros Hh y Hy. pose proof (StronglySorted_merge_sort R l) as Hs. rewrite <- (merge_sort_Permutation R l) in Hy.
  destruct (merge_sort R l) as [|z m]; [done|]. injection Hh as ->. apply StronglySorted_cons in Hs as [Hall _].
  apply elem_of_cons in Hy as [->|Hy]; [by left|right]. by eapply Forall_forall in Hall.
Qed.

Lemma head_in {A} (R : relation A) `{!RelDecision R} l x : head (merge_sort R l) = Some x -> x ∈ l.
Proof. intros Hh. rewrite <- (merge_sort_Permutation R l). destruct (merge_sort R l); [done|]. injection Hh as ->. by left. Qed.

(** The turn that runs next has the place of the first row that users see. *)
Lemma next_is_first d c v rest id t q :
  agree d -> list_queued d c = v :: rest -> next_queued d c = Some (id, t) -> queue d !! id = Some q -> q_status q = "queued" ->
  t_seq t = Some (QueueSeq v).
Proof.
  intros Ha Hlist Hnext Hq Hst. unfold next_queued in Hnext.
  pose proof (head_in _ _ _ Hnext) as Hin. apply list_elem_of_filter in Hin as [[Hc Hqueued] Ht%elem_of_map_to_list]. cbn in *.
  destruct (Ha _ _ Hq) as (Hid & t' & Ht' & Hc' & Hs). rewrite Ht in Ht'. injection Ht' as <-.
  assert (Hv : v ∈ list_queued d c) by (rewrite Hlist; by left).
  apply elem_of_list_queued in Hv as (qv & Hqv & Ev & Ecv & _ & Hqt).
  destruct (Ha _ _ Hqv) as (Hidv & tv & Htv & Hcv & Hsv). cbn in Hqt, Ecv. rewrite Hidv in Hqt. unfold queued_turn in Hqt. rewrite Htv in Hqt.
  assert (Sv : QueueSeq v = q_seq qv) by (rewrite Ev; done).
  assert (H1 : q_seq q <= q_seq qv).
  { destruct (merge_sort_head _ _ _ Hnext (Id v, tv)) as [[= Ei Et]|Hle].
    - apply list_elem_of_filter. split; [cbn; destruct Hqt; split; congruence|]. by apply elem_of_map_to_list.
    - rewrite Ei in Hqv. rewrite Hq in Hqv. injection Hqv as <-. lia.
    - unfold turn_le in Hle. cbn in Hle. rewrite Hs, Hsv in Hle. cbn in Hle. lia. }
  assert (H2 : q_seq qv <= q_seq q).
  { assert (Hh : head (merge_sort view_le (view <$> filter (selected d c) (map_to_list (queue d)))) = Some v) by (fold (list_queued d c); by rewrite Hlist).
    destruct (merge_sort_head _ _ _ Hh (view (id, q))) as [E|Hle].
    - apply list_elem_of_fmap. exists (id, q). split; [done|]. apply list_elem_of_filter. split; [|by apply elem_of_map_to_list].
      unfold selected, queued_turn. cbn. rewrite Hid, Ht. repeat split; congruence.
    - rewrite <- Sv, <- E. done.
    - unfold view_le in Hle. cbn in Hle. lia. }
  rewrite Hs, Sv. f_equal. lia.
Qed.

(** C26: however requests, goal continuations, moves, cancellations and drains interleave on the
    database, whatever fails and whatever the running turns do meanwhile, as long as no turn is queued
    twice, that is, requests come with new identifiers of messages and the query a drain runs for a turn
    does not queue that turn again (it does when it finds another turn active, and then the turn loses
    its place: [Requeued.requeued_turn_loses_place]): the row of every turn has the conversation and the sequence of the turn, so the
    turn that a drain takes next has the place of the first row that users see, and the places in
    the table are, with multiplicity, those that were given out: a move only exchanges two of them. *)
Theorem queue_places_kept (w : World) (y : list thread * World)
    (Hknown : known w) (Hagree : agree (db w)) (Hlog : log w = given (places (db w)))
    (Hrun : rtc pool_step ([], w) y) :
  agree (db y.2) /\ given (places (db y.2)) ≡ₚ log y.2
  /\ forall c v rest id t q, list_queued (db y.2) c = v :: rest -> next_queued (db y.2) c = Some (id, t) ->
       queue (db y.2) !! id = Some q -> q_status q = "queued" -> t_seq t = Some (QueueSeq v).
Proof.
  assert (Hok : pool_ok y).
  { assert (H0 : pool_ok ([], w)) by (split; cbn; [split; [done..|by rewrite Hlog]|constructor|constructor]).
    clear Hknown Hagree Hlog. induction Hrun as [x|x x' y Hstep _ IH]; [done|]. apply IH. by eapply queue_step_ok. }
  destruct Hok as [[_ Ha Hl] _ _]. split_and!; [done..|]. intros. by eapply next_is_first.
Qed.

(** ** A move, call by call *)
Module Demo.
Definition turn (status : string) (seq : option Z) : Turn := mkTurn "c" status seq 0 None.
Definition row (id : string) (seq created : Z) : TurnQueue := mkRow "c" id id seq "queued" created.
(** A turn that runs and two that wait. *)
Definition before : Db :=
  mkDb {["r" := turn "running" None; "a" := turn "queued" (Some 10); "b" := turn "queued" (Some 20)]} {["a" := row "a" 10 1; "b" := row "b" 20 2]}.
Definition after : Db :=
  mkDb {["r" := turn "running" None; "a" := turn "queued" (Some 20); "b" := turn "queued" (Some 10)]} {["a" := row "a" 20 5; "b" := row "b" 10 5]}.
Definition world (d : Db) : World := mkWorld d {["r"; "a"; "b"]} (given (places before)).
Definition swap : Input := mkInput "c" "b" "a" 20 10.
Definition answer : Output := mkOutput "b" "a" 10 20.

Lemma swapped : runs (Exec swap) before (Ok answer) after.
Proof.
  eapply (runs_call _ Start _ _ None); [reflexivity|].
  eapply (runs_call _ (ReadForUpdate "c") _ _ (Ok (Some (Some <$> list_queued before "c")))); [split; [reflexivity|by left]|].
  vm_compute. eapply (runs_call _ (WriteTurns _) _ _ None); [left; split; [done|]; exists 5; eexists; split; vm_compute; reflexivity|].
  eapply (runs_call _ (WriteQueues _) _ _ None); [left; split; [done|]; exists 5; eexists; split; vm_compute; reflexivity|].
  vm_compute. constructor.
Defined.

Definition user_move : thread := run (moveQueuedTurn true "c" " b " "UP") Idle.

Lemma moved : exists t, rtc pool_step ([], world before) ([t], world after).
Proof.
  eexists. eapply rtc_l; [apply (step_arrive [] user_move (used (world before)) (world before)); apply arrives_move|].
  eapply rtc_l; [eapply (step_call [] [] _ (RequireVisible "c") _ _ _ None); reflexivity|].
  eapply rtc_l; [eapply (step_call [] [] _ (ListQueued "c") _ _ _ (Ok (Some (Some <$> list_queued before "c")))); split; [reflexivity|by left]|].

  eapply rtc_l; [eapply (step_call [] [] _ (Reorder swap) _ _ _ (Ok (Some answer)) (world after)); left; exists answer, after; split; [apply swapped|]; split; [reflexivity|by left]|].
  eapply rtc_l; [eapply (step_call [] [] _ (NotifyRunUpdated "c") _ _ _ tt); reflexivity|].
  apply rtc_refl.
Defined.
End Demo.

Lemma queue_places_kept_witness :
  exists t, rtc pool_step ([], Demo.world Demo.before) ([t], Demo.world Demo.after)
  /\ agree Demo.after /\ TurnId <$> list_queued Demo.after "c" = ["b"; "a"] /\ fst <$> next_queued Demo.after "c" = Some "b".
Proof.
  destruct Demo.moved as [t Hrun]. exists t. split; [exact Hrun|].
  assert (Hagree : agree Demo.before).
  { intros id q Hq. apply elem_of_map_to_list in Hq. vm_compute in Hq. repeat (apply elem_of_cons in Hq as [[= -> ->]|Hq]; [split; [reflexivity|]; eexists; split; [reflexivity|split; reflexivity]|]). by apply elem_of_nil in Hq. }
  assert (Hknown : known (Demo.world Demo.before)) by (apply (bool_decide_unpack _); vm_compute; exact I).
  destruct (queue_places_kept _ _ Hknown Hagree eq_refl Hrun) as (Ha & _ & _).
  split; [exact Ha|]. split; vm_compute; reflexivity.
Defined.

(** That identifiers are new is needed: when a drain runs a queued turn while
    another turn of the conversation is active, [Query] queues it once more, with
    the sequence of that moment. The turn loses its place, and until the row is
    written as well (or for good, when that fails) users see another order. *)
Module Requeued.
Import Demo.
Definition service : Service := mkService true true false.
Definition drained : QueryInput := mkQuery "c" "a" "agent" "user" "what is next?" "" true.

Lemma requeued_turn_loses_place :
  exists t w', rtc pool_step ([run (tryQueueTurn service false drained) (Fresh "a")], world before) ([t], w')
  /\ fst <$> next_queued (db (world before)) "c" = Some "a" /\ fst <$> next_queued (db w') "c" = Some "b"
  /\ TurnId <$> list_queued (db w') "c" = ["a"; "b"].
Proof.
  eexists _, _. split.
  { eapply rtc_l; [eapply (step_call [] [] _ (GetActiveTurn "c") _ _ _ (Ok (Some "r"))); reflexivity|].
    eapply rtc_l; [eapply (step_call [] [] _ (CountQueuedTurns "c") _ _ _ (Ok 2)); reflexivity|].
    eapply rtc_l; [eapply (step_call [] [] _ Now _ _ _ 30); reflexivity|].
    eapply rtc_l; [eapply (step_call [] [] _ Now _ _ _ 30); reflexivity|].
    eapply rtc_l; [eapply (step_call [] [] _ (PatchTurn _) _ _ _ None); left; exists 30; eexists; split; [vm_compute|]; reflexivity|].
    apply rtc_refl. }
  split_and!; vm_compute; reflexivity.
Qed.
End Requeued.
